(* ===== verification/_CoqProject ===== *)
-Q . S2P
Prelude.v
Window.v
HTTP2Types.v
QuicInteger.v
StructuredHeaders.v
StructuredResults.v
HQFramer.v
HQFramedCodec.v
HQPieces.v
HQFrames.v
HTTPSettings.v
HQControlCodec.v
HQControlReads.v
HQControlResults.v
FlowControlFilter.v
TransactionSM.v
HTTP2Framer.v
Huffman.v
HPACKBuffers.v
HeaderTable.v
HPACKContext.v
HPACKCodec.v
HPACKRoundTrip.v
HPACKSafety.v
QPACKHeaderTable.v
QPACKContext.v
QPACKEncoder.v
QPACKDecoder.v
QPACKWire.v
QPACKTables.v
QPACKReads.v
QPACKFeed.v
QPACKTracking.v
QPACKEncoding.v
QPACKAcks.v
QPACKSession.v
QPACKBooks.v
QPACKEndToEnd.v
QPACKResults.v
IntervalSet.v
QuicStream.v
QuicReassembly.v
QuicFlowControl.v
QuicReceive.v
QuicDelivery.v
QuicSend.v
QuicSendBuffers.v
QuicSending.v
QuicTransfer.v
QuicFrames.v
QuicFrameWriter.v
QuicFramesResults.v
QuicTimestamps.v
QuicPackets.v
IEEE754.v
CongestionControl.v
NewReno.v
Westwood.v
WestwoodOWD.v
CongestionResults.v
QuicHeaders.v
QuicReadCodec.v
QuicPacketWriter.v
QuicProtection.v
QuicDatagrams.v
QuicReading.v
QuicKeys.v
