(* ===== verification/Prelude.v ===== *)
(** * A verification library for the QW / proxygen HTTP stack

    The repository is an HTTP server and client library (proxygen, under
    [src/proxygen/proxygen/lib]) on a QUIC transport (mvfst, under
    [src/proxygen/proxygen/_build/deps/mvfst/quic]), extended with the Westwood+
    congestion controllers.  This library models the parts that decide what goes on
    the wire and when, and proves what makes them correct.

    ** The parts and how they interact

    A session reads bytes, a codec cuts them into frames, a header codec turns header
    blocks into fields, and transactions drive the messages:

    - Framing.  [HTTP2Types], [HTTP2Framer] (HTTP/2: [codec/HTTP2Framer.cpp]);
      [QuicInteger] (variable-length integers and packet numbers of QUIC),
      [HQFramer] (HTTP/3: [codec/HQFramer.cpp]) and [HQFrames] (its round trip).
    - HTTP/3 codecs.  [HQFramedCodec] is the ingress state machine of
      [codec/HQFramedCodec.cpp]; the virtual functions of a derived codec are the
      class [Handlers], and [HQPieces.HandlersOk] what it must promise.
      [HQControlCodec] is the codec of a control stream with the settings and error
      codes of [codec/HQUtils.cpp]; [HQControlReads] discharges [HandlersOk] for it
      and [HQControlResults] holds its theorems.  [HTTPSettings] is the vector of
      settings that both directions share.
    - Header fields.  [StructuredHeaders] is [structuredheaders/] and the [priority]
      field; [StructuredResults] its theorems.
    - HPACK (HTTP/2 header compression, [codec/compress/]).  [Huffman],
      [HPACKBuffers] (integers and literals), [HeaderTable] (the ring buffer with its
      names index), [HPACKContext] (static table, lookup), [HPACKCodec] (encoder,
      decoder, codec), [HPACKRoundTrip] and [HPACKSafety] (theorems).
    - QPACK (HTTP/3 header compression).  [QPACKHeaderTable] (the table with
      references and acknowledgements), [QPACKContext], [QPACKEncoder],
      [QPACKDecoder]; [QPACKWire] to [QPACKBooks] are the proof in layers (resumable
      decoding, two tables in step, what is read, encoder stream, tracked references,
      what is written, decoder stream, sessions, books), [QPACKEndToEnd] the
      invariant, [QPACKResults] the theorems.
    - Flow control.  [Window] ([Window.cpp]) and [FlowControlFilter]
      ([codec/FlowControlFilter.cpp]), which uses two windows.
    - Transactions.  [TransactionSM]: the transition tables of
      [HTTPTransactionIngressSM.cpp] and [HTTPTransactionEgressSM.cpp] on the generic
      machine of [utils/StateMachine.h].
    - QUIC streams ([quic/state/] and [quic/flowcontrol/] of mvfst).  [IntervalSet] is
      [common/IntervalSet-inl.h].  Receiving: [QuicStream] (read buffer, resets, reads),
      [QuicReassembly] (its buffer refines a partial map from offsets to bytes),
      [QuicFlowControl] (connection and stream accounts), [QuicReceive] (the receiving
      state machine with flow control), [QuicDelivery] (delivery of the stream).
      Sending: [QuicSend] (write, retransmission and loss buffers, acknowledgements,
      the sending state machine), [QuicSendBuffers] (what the buffers hold),
      [QuicSending] (an endpoint that writes, loses and is acknowledged), and
      [QuicTransfer], which joins a sender and a receiver by a network that delays,
      repeats, reorders and drops frames.
    - QUIC frames ([quic/codec/] of mvfst).  [QuicFrames] is [Decode.cpp]: the parser of
      every frame and the loop over the payload of a packet.  [QuicFrameWriter] is
      [QuicWriteCodec.cpp] on the body of [RegularQuicPacketBuilder].  What is written is
      read: [QuicFramesResults] for control, stream and ACK frames, [QuicTimestamps] for the
      times of received packets, [QuicPackets] for sequences of frames in a packet with
      padding.  [QuicPackets.writeStreamFrameHeader_agrees] ties the sizes that [QuicSend]
      computes to the bytes.
    - QUIC packets ([quic/codec/] and [quic/api/]).  [QuicHeaders] are the headers, their
      parsers and the protection of first byte and packet number
      ([PacketNumberCipher.cpp]); [QuicReadCodec] is [QuicReadCodec.cpp], which cuts a
      datagram into packets, chooses their keys and follows key updates;
      [QuicPacketWriter] writes headers around the frames, packets without frames, and
      encrypts ([QuicTransportFunctions.cpp]).  [QuicProtection] shows that protection is
      undone and headers are read back, [QuicDatagrams] joins this with the frames,
      [QuicReading] is about datagrams that no one wrote, [QuicKeys] about key updates.
    - Congestion control.  [IEEE754] (binary32 and binary64), [CongestionControl] (the
      interface [CongestionController] as a class with laws, and its clients),
      [NewReno], [Westwood], [WestwoodOWD] (instances), [CongestionResults].

    ** How code becomes Rocq

    A C++ class is a [Record] of its members with their names, a member function a
    function that returns the new record.  Integers are [Z], and every wrap-around or
    conversion is written out with [u8] .. [u64], [i32], [i64].  Buffers, cursors and
    queues are lists of bytes.  A parser returns a value and the rest of the cursor,
    an error code, or one of the two ways to go wrong: running past the end
    ([PThrow]) and not ending ([PLoop]).  Elsewhere [None] is the end of the process:
    a failed [CHECK], [LOG(FATAL)], an exception that is not caught, a division by
    zero, an index out of range.  [DCHECK]s do nothing in a release build and are left
    out, as is logging.  Calls on other objects (callbacks, listeners, the codec below)
    are a list of events in program order.

    Code that is not part of the repository is a parameter: the perfect hash of the
    common header names, generated at build time ([HPACKContext.CommonHeaders]);
    [folly::base64Encode], [boost::lexical_cast] and the printing of [double]
    ([StructuredHeaders.Conversions]); [std::exp] and the value of an undefined
    floating-point conversion ([Westwood]); authenticated encryption and the masks of header
    protection ([QuicHeaders.Crypto], which [QuicProtection] instantiates); random
    numbers.  What is assumed of them is
    a class of laws with an instance that has them.

    Loops with a measure are [Fixpoint]s on it.  A loop without a structural measure
    takes [fuel], which is one more than the number of bytes (or entries, or
    instructions) it can consume; running out of fuel is [PLoop] or [None], so every
    theorem that says a function returns says that the fuel is enough.

    ** What the theorems show

    - Round trips: HPACK and QPACK sessions ([hpack_session_roundtrip],
      [qpack_session]) for any sequence of blocks, settings and, for QPACK, any order
      of arrival on the three kinds of streams; the conversation of two HTTP/3 control
      codecs ([hq_control_conversation]); QUIC packets from the frames of the sender to
      those of the receiver ([quic_datagram_roundtrip]); frames ([frame_roundtrip],
      [hq_frame_roundtrip]), structured headers ([structured_roundtrip]), Huffman codes
      ([huffman_roundtrip]) and QUIC integers ([quic_integer_roundtrip]).
    - Reliable transfer over QUIC streams: [quic_transfer] (what the receiver reads is
      what the sender wrote, for every behaviour of the network; no flow-control error;
      a stream that the sender closed was received whole), from [quic_sending] (no byte
      of a stream is lost from the sender's buffers, nothing beyond its credit is sent),
      [quic_delivery], [quic_receive_account] and [quic_frame_verdict] (the receiver's
      accounts and its verdict on every frame).
    - Independence of how bytes arrive: [hq_control_pieces], [qpack_session],
      [quic_delivery].
    - Safety and termination on arbitrary input: [hpack_decode_total],
      [parsers_consume_exactly], [quic_read_total], [hq_control_pieces],
      [structured_decode_total].
    - Refinement of an abstract data type: [header_table_refines],
      [qpack_table_refines] (lists of fields), [settings_implement_map] (finite maps),
      [interval_set_refines] (sets of numbers), [window_refines_integers] (unbounded
      integers); the index of names finds what the list holds ([header_table_getIndex]);
      the state machines accept exactly the event sequences of a message
      ([egress_accepts_messages], [ingress_accepts_messages]).
    - Invariants: [qpack_tables_agree], [qpack_entries_pinned], [hq_control_order],
      [recv_no_check_fails], [quic_key_updates] (reader and writer of QUIC keys stay in
      step); bounds: [qpack_blocking_limit] (the encoder's: blocks that wait and blocks in
      flight that would), [send_within_credit];
      liveness: [qpack_acknowledged], [recv_never_stalls] (less what resizes lose).
    - Congestion control: [controllers_sender_safe] for all controllers from the laws
      of the interface, [westwood_one_reduction], [owd_is_queueing_delay] (since the last
      reset, and up to the rounding of send times).
    - Where the code does not do what it means to, the behaviour is a theorem as well:
      [spurious_ack_poisons], and the lemmas [setReceiveWindowSize_drops_acks],
      [padding_double_credit_aborts], [truncated_body_exceeds_credit],
      [push_promise_padding_rejected], [push_priority_misreported],
      [shrink_not_signalled], [westwood_loss_after_expiry], [truncation_accumulates],
      [same_time_aborts], [timestamps_dropped], [group_frame_unreadable],
      [close_frame_unreadable] and [ack_ecn_overruns].  The theorems that such behaviour
      limits say so: [quic_datagram_roundtrip] leaves out the frames of the last three
      lemmas, [hq_control_conversation] the priorities of pushes, [frame_roundtrip] has
      the refused PUSH_PROMISE as its one exception, the receiving side of QUIC streams
      ([quic_receive_account], [quic_delivery], [quic_transfer]) assumes that the times
      of events strictly increase, and the receive side of the flow-control filter that
      bodies have no padding.

    ** Not modelled

    Sessions, transactions and their timers, sockets, TLS, DNS, connection pools, the
    server programs and the QUIC transport around streams and packets (handshake, schedulers,
    timers, paths): code around an event loop, whose behaviour is that of the library it
    calls.  Of QUIC packets, the builders that write in place or enforce a size are left
    out.  Of QUIC streams, partial reliability (streams whose retransmission is disabled), reliable resets and zero-copy buffer metadata are left out.  The HTTP/1.x
    codec wraps the vendored [http_parser].  [HTTPMessage] and what builds messages from fields
    ([HeaderDecodeInfo], [HTTP2Codec], the header path of [HQStreamCodec],
    [encodeHTTP]): the codecs here take and deliver lists of fields.  Memory layout
    (headroom, reallocation, interned names) is not visible in the model.

    ** Order of work

    Done: the window and its filter, the transaction machines, HTTP/2 framing, HPACK,
    QPACK, congestion control, QUIC integers, structured headers, HTTP/3 framing and
    the control codec, QUIC streams in both directions, QUIC frames and packets.  Worth doing next: the
    stream codec of HTTP/3 as a second instance of [Handlers], the ingress state machine
    of [HTTP2Codec], the priority queue. *)

From Stdlib Require Export ZArith Lia.
From stdpp Require Export base list list_numbers numbers option strings relations.
#[global] Open Scope Z_scope.

(** ** Machine integers

    A [w]-bit unsigned integer is a [Z] kept in [0, 2^w); the C++ conversions
    and wrap-around are written out with [u8] .. [u64] and [i32], [i64]. *)

Definition u8 (z : Z) : Z := z mod 2 ^ 8.
Definition u16 (z : Z) : Z := z mod 2 ^ 16.
Definition u32 (z : Z) : Z := z mod 2 ^ 32.
Definition u64 (z : Z) : Z := z mod 2 ^ 64.
Definition i32 (z : Z) : Z := (z + 2 ^ 31) mod 2 ^ 32 - 2 ^ 31.
Definition i64 (z : Z) : Z := (z + 2 ^ 63) mod 2 ^ 64 - 2 ^ 63.

(** [std::numeric_limits] of the widths in use. *)
Definition INT32_MAX : Z := 2 ^ 31 - 1.
Definition INT32_MIN : Z := - 2 ^ 31.
Definition UINT32_MAX : Z := 2 ^ 32 - 1.
Definition UINT64_MAX : Z := 2 ^ 64 - 1.
Definition INT64_MAX : Z := 2 ^ 63 - 1.

(** Range predicates. *)
Definition is_u8 (z : Z) : Prop := 0 <= z < 2 ^ 8.
Definition is_u16 (z : Z) : Prop := 0 <= z < 2 ^ 16.
Definition is_u32 (z : Z) : Prop := 0 <= z < 2 ^ 32.
Definition is_u64 (z : Z) : Prop := 0 <= z < 2 ^ 64.
Definition is_i32 (z : Z) : Prop := - 2 ^ 31 <= z < 2 ^ 31.

(** A byte string: every element is one byte. *)
Definition bytes_ok (l : list Z) : Prop := Forall is_u8 l.

(** The length of a byte string as a [Z]. *)
Definition zlen {A} (l : list A) : Z := Z.of_nat (length l).

Lemma zlen_app {A} (l l' : list A) : zlen (l ++ l') = zlen l + zlen l'.
Proof. unfold zlen. rewrite length_app. lia. Qed.

(** The C++ truth value of an integer. *)
Definition truth (z : Z) : bool := negb (z =? 0).

#[global] Arguments u8 _ : simpl never.
#[global] Arguments u16 _ : simpl never.
#[global] Arguments u32 _ : simpl never.
#[global] Arguments u64 _ : simpl never.
#[global] Arguments i32 _ : simpl never.
#[global] Arguments i64 _ : simpl never.
#[global] Arguments zlen {A} _ : simpl never.

Create HintDb ints.

(** [unfold_ints] exposes the constants and the range predicates to [lia]. *)
Ltac unfold_ints :=
  unfold is_u8, is_u16, is_u32, is_u64, is_i32, u8, u16, u32, u64, i32, i64,
    INT32_MAX, INT32_MIN, UINT32_MAX, UINT64_MAX, INT64_MAX, zlen in *;
  change (2 ^ 7) with 128 in *; change (2 ^ 8) with 256 in *;
  change (2 ^ 16) with 65536 in *; change (2 ^ 24) with 16777216 in *;
  change (2 ^ 31) with 2147483648 in *;
  change (2 ^ 32) with 4294967296 in *;
  change (2 ^ 63) with 9223372036854775808 in *;
  change (2 ^ 64) with 18446744073709551616 in *.

(** [ilia] decides linear goals about machine integers, [mod] included. *)
Ltac ilia := unfold_ints; Z.div_mod_to_equations; lia.

Lemma u8_id z : is_u8 z -> u8 z = z.
Proof. intros H; apply Z.mod_small, H. Qed.
Lemma u16_id z : is_u16 z -> u16 z = z.
Proof. intros H; apply Z.mod_small, H. Qed.
Lemma u32_id z : is_u32 z -> u32 z = z.
Proof. intros H; apply Z.mod_small, H. Qed.
Lemma u64_id z : is_u64 z -> u64 z = z.
Proof. intros H; apply Z.mod_small, H. Qed.
Lemma i32_id z : is_i32 z -> i32 z = z.
Proof. ilia. Qed.
Lemma u8_range z : is_u8 (u8 z).
Proof. ilia. Qed.
Lemma u16_range z : is_u16 (u16 z).
Proof. ilia. Qed.
Lemma u32_range z : is_u32 (u32 z).
Proof. ilia. Qed.
Lemma u64_range z : is_u64 (u64 z).
Proof. ilia. Qed.
Lemma i32_range z : is_i32 (i32 z).
Proof. ilia. Qed.

#[export] Hint Resolve u8_range u16_range u32_range u64_range i32_range : ints.

(** ** Bit masks

    The C++ masks are [2^n - 1]; a [land] with one is a [mod]. *)

Lemma land_mask x m n : 0 <= n -> m = Z.ones n -> Z.land x m = x mod 2 ^ n.
Proof. intros ? ->; apply Z.land_ones; lia. Qed.

Lemma land_u7f x : Z.land x 0x7f = x mod 2 ^ 7.
Proof. by apply land_mask. Qed.
Lemma land_uff x : Z.land x 0xff = x mod 2 ^ 8.
Proof. by apply land_mask. Qed.
Lemma land_u24 x : Z.land x 0xffffff = x mod 2 ^ 24.
Proof. by apply land_mask. Qed.
Lemma land_u31 x : Z.land x 0x7fffffff = x mod 2 ^ 31.
Proof. by apply land_mask. Qed.

(** A [lor] of disjoint bit ranges is an addition. *)
Lemma land_shiftl_low a b n : 0 <= n -> 0 <= b < 2 ^ n -> Z.land (Z.shiftl a n) b = 0.
Proof.
  intros Hn Hb. apply Z.bits_inj'; intros k Hk.
  rewrite Z.land_spec, Z.bits_0, <- (Z.mod_small b (2 ^ n)) by lia.
  destruct (Z.lt_ge_cases k n).
  - by rewrite Z.shiftl_spec_low.
  - rewrite (Z.mod_pow2_bits_high b n k) by lia. apply andb_false_r.
Qed.

Lemma lor_shiftl_add a b n :
  0 <= n -> 0 <= b < 2 ^ n -> Z.lor (Z.shiftl a n) b = a * 2 ^ n + b.
Proof.
  intros Hn Hb. pose proof (land_shiftl_low a b n Hn Hb) as Hd.
  rewrite <- Z.lxor_lor, <- Z.add_nocarry_lxor by done.
  by rewrite Z.shiftl_mul_pow2.
Qed.

(** ** Big-endian byte strings ([folly::Endian], [writeBE], [readBE]) *)

Fixpoint be_bytes (n : nat) (z : Z) : list Z :=
  match n with
  | O => []
  | S n' => (z / 2 ^ (8 * Z.of_nat n')) mod 2 ^ 8 :: be_bytes n' z
  end.

Fixpoint be_value_acc (acc : Z) (l : list Z) : Z :=
  match l with
  | [] => acc
  | b :: l' => be_value_acc (acc * 256 + b) l'
  end.

Definition be_value (l : list Z) : Z := be_value_acc 0 l.

Lemma length_be_bytes n z : length (be_bytes n z) = n.
Proof. induction n; simpl; congruence. Qed.

Lemma be_bytes_ok n z : bytes_ok (be_bytes n z).
Proof.
  induction n as [|n IH]; constructor; [|exact IH].
  pose proof (Z.mod_pos_bound (z / 2 ^ (8 * Z.of_nat n)) (2 ^ 8)); ilia.
Qed.

Lemma be_value_acc_bytes n : forall acc z,
  be_value_acc acc (be_bytes n z) =
  acc * 2 ^ (8 * Z.of_nat n) + z mod 2 ^ (8 * Z.of_nat n).
Proof.
  induction n as [|n IH]; intros acc z; cbn [be_bytes be_value_acc].
  - change (2 ^ (8 * Z.of_nat 0)) with 1. rewrite Z.mod_1_r. lia.
  - rewrite IH. set (p := 2 ^ (8 * Z.of_nat n)).
    assert (Hp : 0 < p) by (apply Z.pow_pos_nonneg; lia).
    assert (Hp' : 2 ^ (8 * Z.of_nat (S n)) = p * 256).
    { unfold p. rewrite Nat2Z.inj_succ.
      replace (8 * Z.succ (Z.of_nat n)) with (8 * Z.of_nat n + 8) by lia.
      rewrite Z.pow_add_r by lia. reflexivity. }
    rewrite Hp', (Z.rem_mul_r z p 256) by lia. change (2 ^ 8) with 256. lia.
Qed.

Lemma be_value_bytes n z :
  0 <= z < 2 ^ (8 * Z.of_nat n) -> be_value (be_bytes n z) = z.
Proof. intros H. unfold be_value. rewrite be_value_acc_bytes, Z.mod_small; lia. Qed.

Lemma be_value_acc_range l : forall acc k, bytes_ok l -> 0 <= acc < 2 ^ k -> 0 <= k ->
  0 <= be_value_acc acc l < 2 ^ (k + 8 * zlen l).
Proof.
  induction l as [|b l IH]; intros acc k Hl Ha Hk; cbn [be_value_acc].
  - unfold zlen; simpl. by rewrite Z.add_0_r.
  - inversion Hl as [|? ? Hb Hl']; subst. unfold zlen in *. cbn [length].
    replace (k + 8 * Z.of_nat (S (length l))) with ((k + 8) + 8 * Z.of_nat (length l)) by lia.
    apply IH; [done| |lia]. rewrite Z.pow_add_r by lia.
    change (2 ^ 8) with 256. ilia.
Qed.

Lemma be_value_range l : bytes_ok l -> 0 <= be_value l < 2 ^ (8 * zlen l).
Proof. intros H. apply (be_value_acc_range l 0 0 H); lia. Qed.

(** Reading back what was written as big-endian: the bytes are determined. *)
Lemma be_value_acc_inj l1 : forall l2 a1 a2,
  length l1 = length l2 -> bytes_ok l1 -> bytes_ok l2 ->
  be_value_acc a1 l1 = be_value_acc a2 l2 -> a1 = a2 /\ l1 = l2.
Proof.
  induction l1 as [|b1 l1 IH]; intros [|b2 l2] a1 a2 Hlen H1 H2 He;
    simplify_eq/=; [done|].
  inversion H1; inversion H2; subst.
  destruct (IH l2 _ _ Hlen ltac:(done) ltac:(done) He) as [Ha ->].
  unfold_ints. split; [lia|f_equal; lia].
Qed.

(** ** Cursors

    A [folly::io::Cursor] is the list of the bytes in front of it.  A parsing
    function consumes a prefix of it and returns a value ([POk]), returns an
    error code ([PErr]), runs past the end of the cursor ([PThrow], the
    [std::out_of_range] of folly), or loops without progress ([PLoop]). *)

Inductive presult (E A : Type) : Type :=
| POk (a : A) (rest : list Z)
| PErr (e : E)
| PThrow
| PLoop.
Arguments POk {E A} _ _.
Arguments PErr {E A} _.
Arguments PThrow {E A}.
Arguments PLoop {E A}.

Definition parser (E A : Type) : Type := list Z -> presult E A.

#[global] Instance parser_ret E : MRet (parser E) := fun A a l => POk a l.
#[global] Instance parser_bind E : MBind (parser E) := fun A B k m l =>
  match m l with
  | POk a rest => k a rest
  | PErr e => PErr e
  | PThrow => PThrow
  | PLoop => PLoop
  end.

Definition pfail {E A} (e : E) : parser E A := fun _ => PErr e.

(** Take [n] bytes off the cursor. *)
Definition ptake {E} (n : nat) : parser E (list Z) := fun l =>
  if decide (length l < n)%nat then PThrow else POk (take n l) (drop n l).

(** [cursor.readBE<uint[8n]_t>()]. *)
Definition readBE {E} (n : nat) : parser E Z := fun l =>
  if decide (length l < n)%nat then PThrow
  else POk (be_value (take n l)) (drop n l).

(** [cursor.clone(buf, n)], [cursor.pull(buf, n)], [cursor.readFixedString(n)]. *)
Definition readBytes {E} (n : Z) : parser E (list Z) := ptake (Z.to_nat n).

Section parser_lemmas.
Context {E : Type}.

Lemma ptake_app n (l r : list Z) : length l = n -> ptake (E:=E) n (l ++ r) = POk l r.
  Proof.
    intros <-. unfold ptake. rewrite decide_False by (rewrite length_app; lia).
    by rewrite take_app_length, drop_app_length.
  Qed.

Lemma readBE_app n z r :
    0 <= z < 2 ^ (8 * Z.of_nat n) -> readBE (E:=E) n (be_bytes n z ++ r) = POk z r.
  Proof.
    intros Hz. unfold readBE.
    rewrite decide_False by (rewrite length_app, length_be_bytes; lia).
    rewrite take_app_length', drop_app_length' by (by rewrite length_be_bytes).
    by rewrite be_value_bytes.
  Qed.

Lemma readBytes_app n (l r : list Z) : zlen l = n -> readBytes (E:=E) n (l ++ r) = POk l r.
  Proof. intros <-. apply ptake_app. unfold zlen. lia. Qed.

Lemma readBE_ok n l z r :
    bytes_ok l -> readBE (E:=E) n l = POk z r ->
    l = be_bytes n z ++ r /\ 0 <= z < 2 ^ (8 * Z.of_nat n) /\ bytes_ok r.
  Proof.
    intros Hl. unfold readBE. case_decide as Hd; [done|]. intros [= <- <-].
    assert (Ht : bytes_ok (take n l)) by (by apply Forall_take).
    pose proof (be_value_range _ Ht) as Hr. unfold zlen in Hr.
    rewrite length_take_le in Hr by lia.
    split; [|split; [done|by apply Forall_drop]].
    rewrite <- (take_drop n l) at 1. f_equal.
    destruct (be_value_acc_inj (take n l) (be_bytes n (be_value (take n l))) 0 0)
      as [_ ->]; auto using be_bytes_ok.
    - rewrite length_take_le, length_be_bytes; lia.
    - fold (be_value (be_bytes n (be_value (take n l)))).
      by rewrite be_value_bytes.
    - by rewrite be_value_bytes.
  Qed.

Lemma readBE_throw n l : (length l < n)%nat -> readBE (E:=E) n l = PThrow.
  Proof. intros. unfold readBE. by rewrite decide_True. Qed.

Lemma pbind_ok {A B} (m : parser E A) (k : A -> parser E B) l a r :
    m l = POk a r -> (m ≫= k) l = k a r.
  Proof. intros H. unfold mbind, parser_bind. by rewrite H. Qed.
End parser_lemmas.

(** [pstep lem] runs one bind of a parser whose result [lem] computes. *)
Ltac pstep lem := erewrite (pbind_ok _ _ _ _ _); [|by apply lem].

(** [caselia] splits every conditional of the goal and closes the branches
    that arithmetic refutes. *)
Ltac bool_cases :=
  repeat match goal with
  | H : (_ && _) = true |- _ => apply andb_prop in H; destruct H
  | H : (_ && _) = false |- _ => apply andb_false_iff in H
  | H : (_ || _) = true |- _ => apply orb_true_iff in H
  | H : (_ || _) = false |- _ => apply orb_false_iff in H; destruct H
  | H : negb _ = true |- _ => apply negb_true_iff in H
  | H : negb _ = false |- _ => apply negb_false_iff in H
  | H : (_ <? _) = true |- _ => apply Z.ltb_lt in H
  | H : (_ <? _) = false |- _ => apply Z.ltb_ge in H
  | H : (_ <=? _) = true |- _ => apply Z.leb_le in H
  | H : (_ <=? _) = false |- _ => apply Z.leb_gt in H
  | H : (_ >? _) = true |- _ => rewrite Z.gtb_ltb in H
  | H : (_ >? _) = false |- _ => rewrite Z.gtb_ltb in H
  | H : (_ =? _) = true |- _ => apply Z.eqb_eq in H
  | H : (_ =? _) = false |- _ => apply Z.eqb_neq in H
  end.

Ltac split_ifs :=
  repeat match goal with
  | |- context [if ?b then _ else _] => destruct b eqn:?
  end; bool_cases.

Ltac split_ifs_in H :=
  repeat match type of H with
  | context [if ?b then _ else _] => destruct b eqn:?
  end; bool_cases.

(** Decides every comparison of the goal that the context decides, and splits on the rest. *)
Ltac zcases :=
  repeat (match goal with
  | |- context [?a =? ?b] => destruct (Z.eqb_spec a b)
  | |- context [?a <? ?b] => destruct (Z.ltb_spec a b)
  | |- context [?a <=? ?b] => destruct (Z.leb_spec a b)
  | |- context [?a >? ?b] => destruct (Z.gtb_spec a b)
  | |- context [?a >=? ?b] => destruct (Z.geb_spec a b)
  end; try (exfalso; lia); cbn [andb orb negb]).

(** ** Arithmetic of indices *)

Lemma mul_add_inj a b n x y :
  0 <= x < n -> 0 <= y < n -> a * n + x = b * n + y -> a = b /\ x = y.
Proof.
  intros Hx Hy He. assert (a = b) as ->; [|lia].
  destruct (Z.lt_trichotomy a b) as [|[|]]; [nia|done|nia].
Qed.

(** A boolean property of all bytes is checked by running through them. *)
Lemma u8_forall (P : Z -> bool) :
  forallb P (seqZ 0 256) = true -> forall z, is_u8 z -> P z = true.
Proof.
  intros H z Hz. rewrite forallb_forall in H. apply H.
  apply list_elem_of_In, elem_of_seqZ. ilia.
Qed.

(** The same for the numbers below [n]. *)
Lemma range_forall (P : Z -> bool) n :
  forallb P (seqZ 0 n) = true -> forall z, 0 <= z < n -> P z = true.
Proof.
  intros H z Hz. rewrite forallb_forall in H. apply H.
  apply list_elem_of_In, elem_of_seqZ. lia.
Qed.

(** [byte_bits n] decides a boolean equation about [x], for [0 <= x < n], by
    evaluating it on all of them. *)
Ltac byte_bits n := intros; match goal with H : 0 <= ?x < _ |- _ =>
  revert x H; match goal with |- forall x, _ -> ?l = ?r =>
    intros x H; apply Bool.eqb_prop; revert x H;
    match goal with |- forall x, _ -> @?P x = true => exact (range_forall P n eq_refl) end end end.

#[global] Arguments be_bytes _ _ : simpl never.
#[global] Arguments be_value _ : simpl never.

(** ** Budgets

    [within p n Q]: on any cursor with at least [n] bytes, [p] neither runs past
    the end nor loops, reads at most [n] bytes, and, when it returns [a] with
    [m] bytes of the budget left, [Q a m] holds. *)
Definition within {E A} (p : parser E A) (n : Z) (Q : A -> Z -> Prop) : Prop :=
  forall l, bytes_ok l -> n <= zlen l ->
  match p l with
  | POk a r => exists m, 0 <= m <= n /\ r = drop (Z.to_nat (n - m)) l /\ Q a m
  | PErr _ => True
  | PThrow | PLoop => False
  end.

Section within.
Context {E : Type}.

Lemma within_ret {A} (a : A) n (Q : A -> Z -> Prop) :
    0 <= n -> Q a n -> within (mret a : parser E A) n Q.
  Proof. intros Hn HQ l Hl Hlen. exists n. rewrite Z.sub_diag. split_and!; try done; lia. Qed.

Lemma within_fail {A} (e : E) n (Q : A -> Z -> Prop) : within (pfail e) n Q.
  Proof. by intros l Hl Hlen. Qed.

Lemma within_bind {A B} (p : parser E A) (k : A -> parser E B) n (Q : A -> Z -> Prop) R :
    within p n Q -> (forall a m, 0 <= m <= n -> Q a m -> within (k a) m R) ->
    within (p ≫= k) n R.
  Proof.
    intros Hp Hk l Hl Hlen. specialize (Hp l Hl Hlen). unfold mbind, parser_bind.
    destruct (p l) as [a r| | |]; [|done..]. destruct Hp as (m & Hm & -> & HQ).
    assert (Hr : m <= zlen (drop (Z.to_nat (n - m)) l)).
    { unfold zlen in *. rewrite length_drop. lia. }
    specialize (Hk a m Hm HQ _ (Forall_drop _ _ _ Hl) Hr).
    destruct (k a _) as [b r'| | |]; [|done..]. destruct Hk as (m' & Hm' & -> & HR).
    exists m'. rewrite drop_drop. split_and!; try done; try lia. f_equal; lia.
  Qed.

Lemma within_weaken {A} (p : parser E A) n (Q Q' : A -> Z -> Prop) :
    within p n Q -> (forall a m, Q a m -> Q' a m) -> within p n Q'.
  Proof.
    intros Hp HQ l Hl Hlen. specialize (Hp l Hl Hlen).
    destruct (p l); [|done..]. destruct Hp as (m & Hm & Hr & H). eauto.
  Qed.

Lemma within_ptake k n :
    Z.of_nat k <= n -> within (ptake k : parser E _) n (fun b m => m = n - Z.of_nat k /\ length b = k).
  Proof.
    intros Hk l Hl Hlen. unfold ptake. unfold zlen in Hlen.
    rewrite decide_False by lia. exists (n - Z.of_nat k).
    split_and!; try lia; [f_equal; lia|rewrite length_take_le; lia].
  Qed.

Lemma within_readBE k n :
    Z.of_nat k <= n ->
    within (readBE k : parser E Z) n
      (fun z m => m = n - Z.of_nat k /\ 0 <= z < 2 ^ (8 * Z.of_nat k)).
  Proof.
    intros Hk l Hl Hlen. unfold readBE. unfold zlen in Hlen.
    rewrite decide_False by lia. exists (n - Z.of_nat k).
    pose proof (be_value_range (take k l) (Forall_take _ _ _ Hl)) as Hr.
    unfold zlen in Hr. rewrite length_take_le in Hr by lia.
    split_and!; try lia. f_equal; lia.
  Qed.

Lemma within_readBytes k n :
    0 <= k <= n -> within (readBytes k : parser E _) n (fun b m => m = n - k /\ zlen b = k).
  Proof.
    intros Hk. eapply within_weaken; [apply within_ptake; lia|].
    simpl. intros b m [-> Hb]. unfold zlen. lia.
  Qed.
End within.

Create HintDb within.
#[export] Hint Resolve within_ret within_fail within_readBE within_readBytes : within.

(** ** Bit strings

    [bits_of n z] are the [n] low bits of [z], most significant first;
    [bits_val] reads a bit string back. *)

Fixpoint bits_of (n : nat) (z : Z) : list bool :=
  match n with
  | O => []
  | S n' => Z.testbit z (Z.of_nat n') :: bits_of n' z
  end.

Fixpoint bits_val (l : list bool) : Z :=
  match l with
  | [] => 0
  | b :: l' => Z.b2z b * 2 ^ zlen l' + bits_val l'
  end.

(** The bits of a byte string. *)
Definition bytes_bits (l : list Z) : list bool := mjoin (bits_of 8 <$> l).

Lemma length_bits_of n z : length (bits_of n z) = n.
Proof. induction n; simpl; congruence. Qed.

Lemma length_bytes_bits l : length (bytes_bits l) = (8 * length l)%nat.
Proof.
  unfold bytes_bits. induction l as [|b l IH]; [done|].
  change (mjoin (bits_of 8 <$> b :: l)) with (bits_of 8 b ++ mjoin (bits_of 8 <$> l)).
  rewrite length_app, length_bits_of, IH. simpl; lia.
Qed.

Lemma bits_of_ext n a b :
  (forall k, 0 <= k < Z.of_nat n -> Z.testbit a k = Z.testbit b k) -> bits_of n a = bits_of n b.
Proof.
  induction n as [|n IH]; intros H; [done|]. simpl. f_equal; [apply H; lia|].
  apply IH. intros k Hk. apply H. lia.
Qed.

Lemma bits_of_mod n z : bits_of n (z mod 2 ^ Z.of_nat n) = bits_of n z.
Proof. apply bits_of_ext. intros k Hk. apply Z.mod_pow2_bits_low. lia. Qed.

(** The high bits of [z], then its low bits. *)
Lemma bits_of_split n m z :
  bits_of (n + m) z = bits_of n (z / 2 ^ Z.of_nat m) ++ bits_of m z.
Proof.
  induction n as [|n IH]; [done|]. simpl. rewrite IH. f_equal.
  rewrite Z.div_pow2_bits by lia. f_equal. lia.
Qed.

Lemma bits_of_app n m a b :
  0 <= b < 2 ^ Z.of_nat m -> bits_of (n + m) (a * 2 ^ Z.of_nat m + b) = bits_of n a ++ bits_of m b.
Proof.
  intros Hb. rewrite bits_of_split. f_equal.
  - rewrite Z.div_add_l, Z.div_small by lia. f_equal; lia.
  - rewrite <- bits_of_mod, Z.add_comm, Z.mod_add, Z.mod_small by lia. done.
Qed.

Lemma bits_val_bits_of n z : bits_val (bits_of n z) = z mod 2 ^ Z.of_nat n.
Proof.
  induction n as [|n IH]; [by rewrite Z.mod_1_r|].
  cbn [bits_of bits_val]. unfold zlen. rewrite length_bits_of, IH.
  rewrite Nat2Z.inj_succ, Z.pow_succ_r, (Z.mul_comm 2), Z.rem_mul_r by lia.
  rewrite <- Z.testbit_spec' by lia. lia.
Qed.

Lemma bits_of_ones n : bits_of n (Z.ones (Z.of_nat n)) = replicate n true.
Proof.
  assert (H : forall m, (m <= n)%nat -> bits_of m (Z.ones (Z.of_nat n)) = replicate m true).
  { induction m as [|m IH]; intros Hm; [done|]. simpl. rewrite IH by lia.
    f_equal. apply Z.ones_spec_low. lia. }
  by apply H.
Qed.

Lemma bits_of_be_bytes n z : bytes_bits (be_bytes n z) = bits_of (8 * n) z.
Proof.
  induction n as [|n IH]; [done|]. unfold be_bytes; fold be_bytes.
  change (bytes_bits (?b :: ?l)) with (bits_of 8 b ++ bytes_bits l). rewrite IH.
  replace (8 * S n)%nat with (8 + 8 * n)%nat by lia. rewrite bits_of_split. f_equal.
  rewrite (bits_of_mod 8). f_equal. f_equal. f_equal. lia.
Qed.

Lemma bytes_bits_app a b : bytes_bits (a ++ b) = bytes_bits a ++ bytes_bits b.
Proof. unfold bytes_bits. by rewrite fmap_app, join_app. Qed.

(** The value of a bit string is below 2 to its length. *)
Lemma bits_val_range l : 0 <= bits_val l < 2 ^ zlen l.
Proof.
  induction l as [|b l IH]; [done|]. cbn [bits_val].
  assert (E : zlen (b :: l) = Z.succ (zlen l)) by (unfold zlen; simpl; lia).
  rewrite E, Z.pow_succ_r by (unfold zlen; lia). destruct b; simpl Z.b2z; lia.
Qed.

Lemma bits_val_app a b : bits_val (a ++ b) = bits_val a * 2 ^ zlen b + bits_val b.
Proof.
  induction a as [|x a IH]; [done|]. cbn [app bits_val]. rewrite IH.
  assert (E : zlen (a ++ b) = zlen a + zlen b) by (unfold zlen; rewrite length_app; lia).
  rewrite E, Z.pow_add_r by (unfold zlen; lia). lia.
Qed.

Lemma bits_val_inj a b : length a = length b -> bits_val a = bits_val b -> a = b.
Proof.
  revert b. induction a as [|x a IH]; intros [|y b] Hl Hv; simplify_eq/=; [done|].
  pose proof (bits_val_range a). pose proof (bits_val_range b).
  assert (E : zlen a = zlen b) by (unfold zlen; lia). rewrite E in *.
  assert (Hp : 0 < 2 ^ zlen b) by (apply Z.pow_pos_nonneg; unfold zlen; lia).
  destruct x, y; simpl Z.b2z in Hv; f_equal; try (apply IH; lia); lia.
Qed.

#[global] Arguments bits_of _ _ : simpl never.

Lemma take_be_bytes j m z :
  take j (be_bytes (j + m) z) = be_bytes j (z / 2 ^ (8 * Z.of_nat m)).
Proof.
  induction j as [|j IH]; [done|].
  change (be_bytes (S j + m) z)
    with ((z / 2 ^ (8 * Z.of_nat (j + m))) mod 2 ^ 8 :: be_bytes (j + m) z).
  change (be_bytes (S j) ?x) with ((x / 2 ^ (8 * Z.of_nat j)) mod 2 ^ 8 :: be_bytes j x).
  rewrite firstn_cons, IH. f_equal. rewrite Z.div_div by lia.
  rewrite <- Z.pow_add_r by lia. f_equal. f_equal. f_equal. lia.
Qed.
