(* ===== verification/Window.v ===== *)
(** * The flow-control window ([src/proxygen/proxygen/lib/http/Window.cpp])

    [Window] keeps two [int32_t]: [outstanding_] (bytes reserved and not yet
    freed, negative when more was freed than reserved) and [capacity_].  The
    three mutators return [bool] and leave the window unchanged on [false].

    The source mixes [int32_t] and [uint32_t]; every conversion is written with
    [i32] / [u32].  The theorems show that under the class invariant no signed
    operation leaves the [int32_t] range, and that the mutators implement the
    arithmetic one expects of a window on unbounded integers. *)

From S2P Require Import Prelude.

Module Window.

Record t := mk { outstanding_ : Z; capacity_ : Z }.

(** The members' initialisers: [outstanding_{0}], [capacity_{0}]. *)
Definition initial : t := mk 0 0.

Definition getSize (w : t) : Z := i32 (capacity_ w - outstanding_ w).

Definition getNonNegativeSize (w : t) : Z :=
  let size := getSize w in if size >? 0 then size else 0.

Definition getCapacity (w : t) : Z := u32 (capacity_ w).

Definition getOutstanding (w : t) : Z :=
  if outstanding_ w <? 0 then 0 else u32 (outstanding_ w).

(** [outstanding_ + amount] is computed in [uint32_t] and converted back. *)
Definition reserve (w : t) (amount : Z) (strict : bool) : bool * t :=
  if amount >? INT32_MAX then (false, w)
  else
    let limit := i32 (INT32_MAX - i32 amount) in
    if (outstanding_ w >? 0) && (limit <? outstanding_ w) then (false, w)
    else
      let newOutstanding := i32 (u32 (outstanding_ w + amount)) in
      if strict && (newOutstanding >? capacity_ w) then (false, w)
      else (true, mk newOutstanding (capacity_ w)).

Definition free (w : t) (amount : Z) : bool * t :=
  if amount >? INT32_MAX then (false, w)
  else
    let limit := i32 (INT32_MIN + i32 amount) in
    if (outstanding_ w <? 0) && (limit >? outstanding_ w) then (false, w)
    else
      let newOutstanding := i32 (u32 (outstanding_ w - amount)) in
      if newOutstanding <? i32 (capacity_ w - INT32_MAX) then (false, w)
      else (true, mk newOutstanding (capacity_ w)).

Definition setCapacity (w : t) (capacity : Z) : bool * t :=
  if capacity >? INT32_MAX then (false, w)
  else
    let diff := i32 (i32 capacity - capacity_ w) in
    if (diff >? 0) &&
       (let size := getSize w in
        (size >? 0) && (diff >? i32 (INT32_MAX - size)))
    then (false, w)
    else (true, mk (outstanding_ w) (i32 capacity)).

(** The constructor: [CHECK(setCapacity(capacity))]; [None] is the abort. *)
Definition create (capacity : Z) : option t :=
  let '(ok, w) := setCapacity initial capacity in
  if ok then Some w else None.

(** ** The invariant

    The capacity is a non-negative [int32_t], and the size
    [capacity_ - outstanding_] stays in [-(2^31-1), 2^31-1]. *)
Definition wf (w : t) : Prop :=
  0 <= capacity_ w <= INT32_MAX /\
  capacity_ w - INT32_MAX <= outstanding_ w <= INT32_MAX.

Definition size (w : t) : Z := capacity_ w - outstanding_ w.

Lemma getSize_exact w : wf w -> getSize w = size w.
Proof. destruct w; unfold wf, getSize, size; simpl. ilia. Qed.

Lemma initial_wf : wf initial.
Proof. unfold wf; simpl; ilia. Qed.

(** ** Integer specification

    The same window on unbounded integers: no wrap-around, one guard per
    operation.  [reserve] fails when the reservation does not fit in 31 bits or,
    when [strict], in the capacity; [free] fails when the size would exceed
    2^31-1; [setCapacity] fails when the new size would. *)
Module Spec.
Definition reserve_ok (w : t) (amount : Z) (strict : bool) : Prop :=
    amount <= INT32_MAX /\ outstanding_ w + amount <= INT32_MAX /\
    (strict = true -> outstanding_ w + amount <= capacity_ w).
Definition free_ok (w : t) (amount : Z) : Prop :=
    amount <= INT32_MAX /\ size w + amount <= INT32_MAX.
Definition setCapacity_ok (w : t) (capacity : Z) : Prop :=
    capacity <= INT32_MAX /\ capacity - outstanding_ w <= INT32_MAX.

#[global] Instance reserve_ok_dec w a s : Decision (reserve_ok w a s).
  Proof. unfold reserve_ok; apply _. Defined.
#[global] Instance free_ok_dec w a : Decision (free_ok w a).
  Proof. unfold free_ok; apply _. Defined.
#[global] Instance setCapacity_ok_dec w c : Decision (setCapacity_ok w c).
  Proof. unfold setCapacity_ok; apply _. Defined.

Definition reserve (w : t) (amount : Z) (strict : bool) : bool * t :=
    if decide (reserve_ok w amount strict)
    then (true, mk (outstanding_ w + amount) (capacity_ w)) else (false, w).
Definition free (w : t) (amount : Z) : bool * t :=
    if decide (free_ok w amount)
    then (true, mk (outstanding_ w - amount) (capacity_ w)) else (false, w).
Definition setCapacity (w : t) (capacity : Z) : bool * t :=
    if decide (setCapacity_ok w capacity)
    then (true, mk (outstanding_ w) capacity) else (false, w).
End Spec.

(** Each mutator agrees with its specification on a well-formed window. *)
Ltac window_cases :=
  rewrite ?Z.gtb_ltb in *; unfold size in *; simpl in *;
  repeat case_decide; split_ifs; try done;
  first [ by (repeat f_equal; ilia)
        | exfalso; unfold_ints; Z.div_mod_to_equations; intuition (try lia) ].

Lemma reserve_spec w amount strict :
  wf w -> is_u32 amount -> reserve w amount strict = Spec.reserve w amount strict.
Proof.
  destruct w as [o c]; unfold wf, reserve, Spec.reserve, Spec.reserve_ok.
  intros Hw Ha. destruct strict; window_cases.
Qed.

Lemma free_spec w amount :
  wf w -> is_u32 amount -> free w amount = Spec.free w amount.
Proof.
  destruct w as [o c]; unfold wf, free, Spec.free, Spec.free_ok.
  intros Hw Ha. window_cases.
Qed.

Lemma window_setCapacity_spec w capacity :
  wf w -> is_u32 capacity -> setCapacity w capacity = Spec.setCapacity w capacity.
Proof.
  intros Hw Ha. unfold setCapacity. rewrite (getSize_exact w Hw).
  destruct w as [o c]; unfold wf, Spec.setCapacity, Spec.setCapacity_ok in *.
  window_cases.
Qed.

(** The specification preserves the invariant, so the code does. *)
Lemma Spec_reserve_wf w a s : wf w -> is_u32 a -> wf (Spec.reserve w a s).2.
Proof.
  destruct w; unfold wf, Spec.reserve, Spec.reserve_ok; simpl.
  intros; case_decide; simpl; ilia.
Qed.
Lemma Spec_free_wf w a : wf w -> is_u32 a -> wf (Spec.free w a).2.
Proof.
  destruct w; unfold wf, Spec.free, Spec.free_ok, size; simpl.
  intros; case_decide; simpl; ilia.
Qed.
Lemma Spec_setCapacity_wf w c : wf w -> is_u32 c -> wf (Spec.setCapacity w c).2.
Proof.
  destruct w; unfold wf, Spec.setCapacity, Spec.setCapacity_ok; simpl.
  intros; case_decide; simpl; ilia.
Qed.

Lemma reserve_wf w a s : wf w -> is_u32 a -> wf (reserve w a s).2.
Proof. intros. rewrite reserve_spec by done. by apply Spec_reserve_wf. Qed.
Lemma free_wf w a : wf w -> is_u32 a -> wf (free w a).2.
Proof. intros. rewrite free_spec by done. by apply Spec_free_wf. Qed.
Lemma setCapacity_wf w c : wf w -> is_u32 c -> wf (setCapacity w c).2.
Proof. intros. rewrite window_setCapacity_spec by done. by apply Spec_setCapacity_wf. Qed.

Create HintDb window.
#[export] Hint Resolve initial_wf reserve_wf free_wf setCapacity_wf : window.

(** ** Sequences of calls *)

Inductive op := Reserve (amount : Z) (strict : bool) | Free (amount : Z) | SetCapacity (c : Z).

Definition op_ok (o : op) : Prop :=
  match o with Reserve a _ => is_u32 a | Free a => is_u32 a | SetCapacity c => is_u32 c end.

Definition run_op (w : t) (o : op) : bool * t :=
  match o with
  | Reserve a s => reserve w a s
  | Free a => free w a
  | SetCapacity c => setCapacity w c
  end.

Definition spec_op (w : t) (o : op) : bool * t :=
  match o with
  | Reserve a s => Spec.reserve w a s
  | Free a => Spec.free w a
  | SetCapacity c => Spec.setCapacity w c
  end.

(** Run a sequence of calls; the results are the values the calls return. *)
Fixpoint run (step : t -> op -> bool * t) (w : t) (ops : list op) : list bool * t :=
  match ops with
  | [] => ([], w)
  | o :: ops' =>
      let '(b, w') := step w o in
      let '(bs, w'') := run step w' ops' in (b :: bs, w'')
  end.

Lemma run_op_spec w o : wf w -> op_ok o -> run_op w o = spec_op w o /\ wf (run_op w o).2.
Proof.
  intros Hw Ho. destruct o; simpl in *.
  - split; [by apply reserve_spec|by apply reserve_wf].
  - split; [by apply free_spec|by apply free_wf].
  - split; [by apply window_setCapacity_spec|by apply setCapacity_wf].
Qed.

Lemma window_run_refines ops : forall w, wf w -> Forall op_ok ops ->
  run run_op w ops = run spec_op w ops /\ wf (run run_op w ops).2.
Proof.
  induction ops as [|o ops IH]; intros w Hw Hops; [done|].
  inversion Hops; subst. cbn [run].
  destruct (run_op_spec w o Hw ltac:(done)) as [He Hwf]. rewrite He in *.
  destruct (spec_op w o) as [b w']; simpl in *.
  destruct (IH w' Hwf ltac:(done)) as [Hr Hwf']. rewrite Hr in *.
  by destruct (run spec_op w' ops).
Qed.

Lemma window_create_wf capacity : is_u32 capacity ->
  create capacity = if decide (capacity <= INT32_MAX) then Some (mk 0 capacity) else None.
Proof.
  intros Hc. unfold create. rewrite window_setCapacity_spec by auto with window.
  unfold Spec.setCapacity, Spec.setCapacity_ok. simpl.
  repeat case_decide; try done; exfalso; ilia.
Qed.

(** ** Theorems *)

(** C33. From a freshly constructed window, any sequence of [reserve], [free]
    and [setCapacity] calls with [uint32_t] arguments returns exactly what the
    window on unbounded integers returns and ends in the same state, and at the
    end [getSize] is the true [capacity_ - outstanding_], inside
    [[-(2^31-1), 2^31-1]]: no signed operation of the source overflows. *)
Theorem window_refines_integers capacity w ops :
  is_u32 capacity -> create capacity = Some w -> Forall op_ok ops ->
  run run_op w ops = run spec_op w ops /\
  let w' := (run run_op w ops).2 in
  getSize w' = capacity_ w' - outstanding_ w' /\
  - INT32_MAX <= getSize w' <= INT32_MAX.
Proof.
  intros Hc Hw Hops. rewrite window_create_wf in Hw by done. case_decide; simplify_eq.
  assert (Hwf : wf (mk 0 capacity)) by (unfold wf; simpl; ilia).
  destruct (window_run_refines ops _ Hwf Hops) as [Hr Hwf'].
  split; [done|]. simpl. rewrite (getSize_exact _ Hwf'). split; [done|].
  unfold wf, size in *. ilia.
Qed.

Lemma window_refines_integers_witness :
  run run_op (mk 0 65535) [Reserve 65535 true; Reserve 1 true; Free 100; SetCapacity 10]
  = ([true; false; true; true], mk 65435 10).
Proof.
  rewrite (proj1 (window_refines_integers 65535 (mk 0 65535)
    [Reserve 65535 true; Reserve 1 true; Free 100; SetCapacity 10]
    ltac:(unfold_ints; lia) ltac:(reflexivity)
    ltac:(repeat constructor; unfold_ints; simpl; lia))).
  vm_compute. reflexivity.
Defined.

(** A strict reservation never overdraws the window: when [reserve] (with
    the default [strict = true]) succeeds the size is still non-negative and has
    gone down by exactly [amount]; when it fails the window is unchanged. *)
Theorem reserve_strict_safe w amount :
  wf w -> is_u32 amount ->
  match reserve w amount true with
  | (true, w') => getSize w' = getSize w - amount /\ 0 <= getSize w'
  | (false, w') => w' = w /\ (INT32_MAX < amount \/ getSize w < amount)
  end.
Proof.
  intros Hw Ha. pose proof (reserve_wf w amount true Hw Ha) as Hw'.
  rewrite (getSize_exact w Hw). rewrite reserve_spec in * by done.
  unfold Spec.reserve, Spec.reserve_ok in *. case_decide; simpl in *.
  - rewrite (getSize_exact _ Hw'). unfold size; simpl. intuition lia.
  - split; [done|]. unfold size. destruct (decide (amount <= INT32_MAX)); [right|left; lia].
    unfold wf in Hw. ilia.
Qed.

(** What one endpoint reserves and the other later frees is returned in
    full: after a successful [reserve] of [amount], [free] of the same [amount]
    succeeds and restores the window. *)
Theorem reserve_free_roundtrip w amount strict w' :
  wf w -> is_u32 amount -> reserve w amount strict = (true, w') -> free w' amount = (true, w).
Proof.
  intros Hw Ha Hr. pose proof (reserve_wf w amount strict Hw Ha) as Hw'.
  rewrite Hr in Hw'; simpl in Hw'. rewrite free_spec by done.
  rewrite reserve_spec in Hr by done.
  unfold Spec.reserve, Spec.reserve_ok in Hr. case_decide; simplify_eq.
  unfold Spec.free, Spec.free_ok, size; simpl. unfold wf in Hw.
  rewrite decide_True by (unfold size in *; simpl in *; ilia).
  destruct w; simpl. repeat f_equal; lia.
Qed.

Lemma reserve_free_roundtrip_witness : free (mk 90 100) 80 = (true, mk 10 100).
Proof.
  apply (reserve_free_roundtrip (mk 10 100) 80 true);
    [unfold wf; unfold_ints; simpl; lia|unfold_ints; lia|reflexivity].
Defined.

End Window.
