(* ===== verification/HTTP2Types.v ===== *)
(** * HTTP/2 constants and types

    [src/proxygen/proxygen/lib/http/codec/]: [ErrorCode.h], [ErrorCode.cpp],
    [HTTP2Constants.cpp], and the types at the top of [HTTP2Framer.h]. *)

From S2P Require Import Prelude.

(** ** [ErrorCode] *)

Inductive ErrorCode :=
| NO_ERROR | PROTOCOL_ERROR | INTERNAL_ERROR | FLOW_CONTROL_ERROR | SETTINGS_TIMEOUT
| STREAM_CLOSED | FRAME_SIZE_ERROR | REFUSED_STREAM | CANCEL | COMPRESSION_ERROR
| CONNECT_ERROR | ENHANCE_YOUR_CALM | INADEQUATE_SECURITY | HTTP_1_1_REQUIRED
| ErrorCode_MAX.

#[global] Instance ErrorCode_eq_dec : EqDecision ErrorCode.
Proof. solve_decision. Defined.

(** [static_cast<uint32_t>(code)] and the enumerators in order. *)
Definition ErrorCode_index (e : ErrorCode) : Z :=
  match e with
  | NO_ERROR => 0 | PROTOCOL_ERROR => 1 | INTERNAL_ERROR => 2 | FLOW_CONTROL_ERROR => 3
  | SETTINGS_TIMEOUT => 4 | STREAM_CLOSED => 5 | FRAME_SIZE_ERROR => 6
  | REFUSED_STREAM => 7 | CANCEL => 8 | COMPRESSION_ERROR => 9 | CONNECT_ERROR => 10
  | ENHANCE_YOUR_CALM => 11 | INADEQUATE_SECURITY => 12 | HTTP_1_1_REQUIRED => 13
  | ErrorCode_MAX => 14
  end.

Definition ErrorCodes : list ErrorCode :=
  [NO_ERROR; PROTOCOL_ERROR; INTERNAL_ERROR; FLOW_CONTROL_ERROR; SETTINGS_TIMEOUT;
   STREAM_CLOSED; FRAME_SIZE_ERROR; REFUSED_STREAM; CANCEL; COMPRESSION_ERROR;
   CONNECT_ERROR; ENHANCE_YOUR_CALM; INADEQUATE_SECURITY; HTTP_1_1_REQUIRED; ErrorCode_MAX].

(** [ErrorCode(code)], for a [code] the caller has checked to be below [MAX]. *)
Definition ErrorCode_of (z : Z) : option ErrorCode := ErrorCodes !! Z.to_nat z.

Definition getErrorCodeString (error : ErrorCode) : string :=
  match error with
  | NO_ERROR => "NO_ERROR" | PROTOCOL_ERROR => "PROTOCOL_ERROR"
  | INTERNAL_ERROR => "INTERNAL_ERROR" | FLOW_CONTROL_ERROR => "FLOW_CONTROL_ERROR"
  | SETTINGS_TIMEOUT => "SETTINGS_TIMEOUT" | STREAM_CLOSED => "STREAM_CLOSED"
  | FRAME_SIZE_ERROR => "FRAME_SIZE_ERROR" | REFUSED_STREAM => "REFUSED_STREAM"
  | CANCEL => "CANCEL" | COMPRESSION_ERROR => "COMPRESSION_ERROR"
  | CONNECT_ERROR => "CONNECT_ERROR" | ENHANCE_YOUR_CALM => "ENHANCE_YOUR_CALM"
  | INADEQUATE_SECURITY => "INADEQUATE_SECURITY" | HTTP_1_1_REQUIRED => "HTTP_1_1_REQUIRED"
  | ErrorCode_MAX => "MAX"
  end%string.

Lemma ErrorCode_of_index e : ErrorCode_of (ErrorCode_index e) = Some e.
Proof. by destruct e. Qed.

(** ** [HTTP2Constants.cpp] *)

Definition kFrameHeaderSize : Z := 9.
Definition kFramePrioritySize : Z := 5.
Definition kFrameHeadersBaseMaxSize : Z := kFramePrioritySize + 1.
Definition kFrameStreamIDSize : Z := 4.
Definition kFrameRstStreamSize : Z := 4.
Definition kFramePushPromiseSize : Z := 4.
Definition kFramePingSize : Z := 8.
Definition kFrameGoawaySize : Z := 8.
Definition kFrameWindowUpdateSize : Z := 4.
Definition kFrameCertificateRequestSizeBase : Z := 2.
Definition kFrameCertificateSizeBase : Z := 2.
Definition kFrameAltSvcSizeBase : Z := 8.
Definition kMaxFramePayloadLengthMin : Z := 2 ^ 14.
Definition kMaxFramePayloadLength : Z := 2 ^ 24 - 1.
Definition kMaxStreamID : Z := 2 ^ 31 - 1.
Definition kInitialWindow : Z := 2 ^ 16 - 1.
Definition kMaxWindowUpdateSize : Z := 2 ^ 31 - 1.
Definition kMaxHeaderTableSize : Z := 2 ^ 16.
Definition kMaxAuthenticatorBufSize : Z := 0x20000.

(** ** [FrameType], [Flags], [FrameHeader], [PriorityUpdate]

    [FrameType] is an enum over [uint8_t] that the framer also builds by casting
    an arbitrary byte, so a frame type is a byte with names for some values. *)

Module FrameType.
Definition DATA : Z := 0.
Definition HEADERS : Z := 1.
Definition PRIORITY : Z := 2.
Definition RST_STREAM : Z := 3.
Definition SETTINGS : Z := 4.
Definition PUSH_PROMISE : Z := 5.
Definition PING : Z := 6.
Definition GOAWAY : Z := 7.
Definition WINDOW_UPDATE : Z := 8.
Definition CONTINUATION : Z := 9.
Definition ALTSVC : Z := 10.
Definition PADDING : Z := 0xbb.
Definition EX_HEADERS : Z := 0xfb.
Definition CERTIFICATE_REQUEST : Z := 0xf0.
Definition CERTIFICATE : Z := 0xf1.
Definition CERTIFICATE_NEEDED : Z := 0xf2.
Definition USE_CERTIFICATE : Z := 0xf3.
End FrameType.

Module Flags.
Definition ACK : Z := 0x1.
Definition END_STREAM : Z := 0x1.
Definition END_HEADERS : Z := 0x4.
Definition PADDED : Z := 0x8.
Definition PRIORITY : Z := 0x20.
Definition UNIDIRECTIONAL : Z := 0x40.
Definition UNSOLICITED : Z := 0x1.
Definition TO_BE_CONTINUED : Z := 0x1.
End Flags.

Record FrameHeader := mkFrameHeader {
  fh_length : Z; (* only 24 valid bits *)
  fh_stream : Z;
  fh_type : Z;
  fh_flags : Z
}.

Record PriorityUpdate := mkPriorityUpdate {
  streamDependency : Z;
  exclusive : bool;
  weight : Z
}.

Record ExAttributes := mkExAttributes {
  controlStream : Z;
  unidirectional : bool
}.

Definition DefaultPriority : PriorityUpdate := mkPriorityUpdate 0 false 15.
