(* ===== verification/QuicInteger.v ===== *)
(** * QUIC variable-length integers and packet numbers

    [quic/codec/QuicInteger.h], [QuicInteger.cpp] and [PacketNumber.cpp] of mvfst.
    The two most significant bits of the first byte give the length of an integer;
    a packet number is cut to the bytes that its distance to the largest
    acknowledged one needs, and completed from the number that is expected next.

    A function that writes returns the bytes it appends and their number; the
    [INTERNAL_ERROR] of [folly::Expected] is [None]. *)

From S2P Require Import Prelude.

Module QuicInteger.

Definition kOneByteLimit : Z := 0x3F.
Definition kTwoByteLimit : Z := 0x3FFF.
Definition kFourByteLimit : Z := 0x3FFFFFFF.
Definition kEightByteLimit : Z := 0x3FFFFFFFFFFFFFFF.

(** ** Encoding *)

Definition encodeOneByte (value : Z) : list Z * Z := (be_bytes 1 (u8 value), 1).
Definition encodeTwoBytes (value : Z) : list Z * Z :=
  (be_bytes 2 (Z.lor (u16 value) 0x4000), 2).
Definition encodeFourBytes (value : Z) : list Z * Z :=
  (be_bytes 4 (Z.lor (u32 value) 0x80000000), 4).
Definition encodeEightBytes (value : Z) : list Z * Z :=
  (be_bytes 8 (Z.lor value 0xC000000000000000), 8).

Definition encodeQuicInteger (value : Z) : option (list Z * Z) :=
  if value <=? kOneByteLimit then Some (encodeOneByte value)
  else if value <=? kTwoByteLimit then Some (encodeTwoBytes value)
  else if value <=? kFourByteLimit then Some (encodeFourBytes value)
  else if value <=? kEightByteLimit then Some (encodeEightBytes value)
  else None.

(** With the size given; the outer [None] is a failed [CHECK]. *)
Definition encodeQuicInteger_sized (value outputSize : Z) : option (option (list Z * Z)) :=
  match outputSize with
  | 1 => if value <=? kOneByteLimit then Some (Some (encodeOneByte value)) else None
  | 2 => if value <=? kTwoByteLimit then Some (Some (encodeTwoBytes value)) else None
  | 4 => if value <=? kFourByteLimit then Some (Some (encodeFourBytes value)) else None
  | 8 => if value <=? kEightByteLimit then Some (Some (encodeEightBytes value)) else None
  | _ => Some None
  end.

Definition getQuicIntegerSize (value : Z) : option Z :=
  if value <=? kOneByteLimit then Some 1
  else if value <=? kTwoByteLimit then Some 2
  else if value <=? kFourByteLimit then Some 4
  else if value <=? kEightByteLimit then Some 8
  else None.

(** ** Decoding *)

Definition decodeQuicIntegerLength (firstByte : Z) : Z :=
  u8 (Z.shiftl 1 (Z.land (Z.shiftr firstByte 6) 0x03)).

(** [Cursor::canAdvance]. *)
Definition canAdvance (cursor : list Z) (n : Z) : bool := n <=? zlen cursor.

(** The value, the number of bytes read, and what is left of the cursor.  The bytes
    are pulled into the front of a [uint64_t] whose other bytes are zero, which is
    then read as big-endian. *)
Definition decodeQuicInteger (cursor : list Z) (atMost : Z) : option ((Z * Z) * list Z) :=
  if (atMost =? 0) || negb (canAdvance cursor 1) then None
  else
    let firstByte := hd 0 cursor in
    let varintType := Z.land (Z.shiftr firstByte 6) 0x03 in
    let bytesExpected := u8 (Z.shiftl 1 varintType) in
    if varintType =? 0 then Some ((Z.land firstByte 0x3f, 1), drop 1 cursor)
    else if negb (canAdvance cursor bytesExpected) || (atMost <? bytesExpected) then None
    else
      let n := Z.to_nat bytesExpected in
      let result := be_value (take n cursor ++ replicate (8 - n) 0) in
      let result := Z.land result (Z.lnot (Z.shiftl 3 62)) in
      let result := Z.shiftr result (Z.shiftl (8 - bytesExpected) 3) in
      Some ((result, bytesExpected), drop n cursor).

(** ** What the integers are *)

Lemma zlen_cons {A} (x : A) l : zlen (x :: l) = 1 + zlen l.
Proof. unfold zlen. simpl. lia. Qed.

Lemma first_byte_length b : is_u8 b ->
  Z.land (Z.shiftr b 6) 0x03 = b / 64 /\ u8 (Z.shiftl 1 (Z.land (Z.shiftr b 6) 0x03)) = 2 ^ (b / 64).
Proof.
  intros Hb. assert (E : Z.land (Z.shiftr b 6) 0x03 = b / 64).
  { rewrite Z.shiftr_div_pow2, (land_mask _ 3 2) by (done || lia). apply Z.mod_small. ilia. }
  rewrite E. split; [done|]. rewrite Z.shiftl_1_l. apply u8_id.
  assert (0 <= b / 64 <= 3) by ilia.
  assert (b / 64 = 0 \/ b / 64 = 1 \/ b / 64 = 2 \/ b / 64 = 3) as [-> | [-> | [-> | ->]]] by lia;
    unfold_ints; lia.
Qed.

Lemma be_value_acc_zeros k : forall acc, be_value_acc acc (replicate k 0) = acc * 2 ^ (8 * Z.of_nat k).
Proof.
  induction k as [|k IH]; intros acc; cbn [replicate be_value_acc]; [simpl; lia|].
  rewrite IH. rewrite Nat2Z.inj_succ. replace (8 * Z.succ (Z.of_nat k)) with (8 + 8 * Z.of_nat k) by lia.
  rewrite Z.pow_add_r by lia. change (2 ^ 8) with 256. lia.
Qed.

Lemma be_value_acc_app l : forall acc l', be_value_acc acc (l ++ l') = be_value_acc (be_value_acc acc l) l'.
Proof. induction l as [|b l IH]; intros acc l'; [done|]. apply IH. Qed.

Lemma be_value_padded l k : be_value (l ++ replicate k 0) = be_value l * 2 ^ (8 * Z.of_nat k).
Proof. unfold be_value. by rewrite be_value_acc_app, be_value_acc_zeros. Qed.

(** The mask that clears the two most significant bits. *)
Lemma land_msb x : is_u64 x -> Z.land x (Z.lnot (Z.shiftl 3 62)) = x mod 2 ^ 62.
Proof.
  intros Hx. apply Z.bits_inj'. intros i Hi. rewrite Z.land_spec, Z.lnot_spec by lia.
  destruct (Z.lt_ge_cases i 62).
  - rewrite Z.shiftl_spec_low, Z.mod_pow2_bits_low by lia. apply andb_true_r.
  - rewrite Z.mod_pow2_bits_high by lia.
    destruct (Z.lt_ge_cases i 64) as [Hl|Hl].
    + rewrite Z.shiftl_spec by lia.
      assert (i - 62 = 0 \/ i - 62 = 1) as [-> | ->] by lia; apply andb_false_r.
    + rewrite <- (Z.mod_small x (2 ^ 64)) by (unfold_ints; lia).
      rewrite Z.mod_pow2_bits_high by lia. done.
Qed.

Lemma mod_div_pow x a b : 0 <= a <= b -> (x * 2 ^ a) mod 2 ^ b / 2 ^ a = x mod 2 ^ (b - a).
Proof.
  intros H. replace (2 ^ b) with (2 ^ (b - a) * 2 ^ a) by (rewrite <- Z.pow_add_r by lia; f_equal; lia).
  rewrite Z.mul_mod_distr_r by (apply Z.pow_nonzero; lia).
  by rewrite Z.div_mul by (apply Z.pow_nonzero; lia).
Qed.

(** The bytes that start an integer of [n] bytes. *)
Definition quic_length (cursor : list Z) : Z := 2 ^ (hd 0 cursor / 64).

Lemma quic_length_cases c : bytes_ok c ->
  quic_length c = 1 \/ quic_length c = 2 \/ quic_length c = 4 \/ quic_length c = 8.
Proof.
  intros Hc. unfold quic_length. assert (Hb : is_u8 (hd 0 c)).
  { destruct Hc; [unfold_ints; simpl; lia|done]. }
  assert (0 <= hd 0 c / 64 <= 3) by ilia.
  assert (hd 0 c / 64 = 0 \/ hd 0 c / 64 = 1 \/ hd 0 c / 64 = 2 \/ hd 0 c / 64 = 3)
    as [-> | [-> | [-> | ->]]] by lia; tauto.
Qed.

Lemma hd_range c : bytes_ok c -> is_u8 (hd 0 c).
Proof. intros Hc. destruct Hc; [unfold_ints; simpl; lia|done]. Qed.

(** [decodeQuicInteger] reads a big-endian number without its two leading bits, if
    all of its bytes are there and allowed. *)
Lemma decode_spec c atMost : bytes_ok c -> 0 <= atMost ->
  decodeQuicInteger c atMost =
    if (quic_length c <=? zlen c) && (quic_length c <=? atMost) then
      Some ((be_value (take (Z.to_nat (quic_length c)) c) mod 2 ^ (8 * quic_length c - 2), quic_length c),
            drop (Z.to_nat (quic_length c)) c)
    else None.
Proof.
  intros Hc Ha. destruct (first_byte_length (hd 0 c) (hd_range c Hc)) as [Ht Hl].
  unfold decodeQuicInteger, canAdvance. rewrite Ht. rewrite Ht in Hl. rewrite Hl. fold (quic_length c).
  pose proof (quic_length_cases c Hc) as Hn.
  destruct (Z.eqb_spec atMost 0) as [->|H0]; simpl.
  { destruct (Z.leb_spec (quic_length c) 0); [lia|]. by rewrite andb_false_r. }
  destruct (Z.leb_spec 1 (zlen c)) as [H1|H1]; simpl.
  2: { destruct (Z.leb_spec (quic_length c) (zlen c)); [lia|done]. }
  destruct (Z.eqb_spec (hd 0 c / 64) 0) as [Hz|Hz].
  { assert (E : quic_length c = 1) by (unfold quic_length; by rewrite Hz). rewrite E.
    rewrite (proj2 (Z.leb_le 1 (zlen c))), (proj2 (Z.leb_le 1 atMost)) by lia. simpl.
    destruct c as [|b c]; [unfold zlen in H1; simpl in H1; lia|]. simpl. rewrite (land_mask _ 0x3f 6) by done.
    unfold be_value. simpl. rewrite drop_0. reflexivity. }
  rewrite Z.ltb_antisym. rewrite <- negb_andb.
  destruct (_ && _) eqn:E; [|done]. simpl. apply andb_prop in E as [E1%Z.leb_le E2%Z.leb_le].
  f_equal. f_equal. f_equal. rewrite be_value_padded.
  set (n := quic_length c) in *. assert (Hk : Z.of_nat (8 - Z.to_nat n) = 8 - n) by lia. rewrite Hk.
  set (x := be_value _).
  assert (Hx : 0 <= x < 2 ^ (8 * n)).
  { unfold x. pose proof (be_value_range (take (Z.to_nat n) c) (Forall_take _ _ _ Hc)) as H.
    replace (zlen (take (Z.to_nat n) c)) with n in H; [done|]. unfold zlen. rewrite length_take. unfold zlen in E1. lia. }
  rewrite land_msb.
  2: { unfold is_u64. replace 64 with (8 * n + 8 * (8 - n)) by lia. rewrite (Z.pow_add_r 2) by lia.
       pose proof (Z.pow_pos_nonneg 2 (8 * (8 - n))). nia. }
  rewrite Z.shiftr_div_pow2 by (apply Z.shiftl_nonneg; lia).
  rewrite Z.shiftl_mul_pow2 by lia. replace ((8 - n) * 2 ^ 3) with (8 * (8 - n)) by lia.
  rewrite mod_div_pow by lia. f_equal. f_equal. lia.
Qed.

Lemma lor_tag v t n : 0 <= n -> 0 <= v < 2 ^ n -> Z.lor v (t * 2 ^ n) = t * 2 ^ n + v.
Proof. intros Hn Hv. by rewrite Z.lor_comm, <- lor_shiftl_add, Z.shiftl_mul_pow2 by lia. Qed.

(** An integer is written with its length in front, in the fewest bytes. *)
Lemma quic_encode_spec v : 0 <= v <= kEightByteLimit ->
  exists t, 0 <= t <= 3 /\ (t = 0 \/ 2 ^ (8 * 2 ^ (t - 1) - 2) <= v) /\ v < 2 ^ (8 * 2 ^ t - 2) /\
    encodeQuicInteger v =
      Some (be_bytes (Z.to_nat (2 ^ t)) (t * 2 ^ (8 * 2 ^ t - 2) + v), 2 ^ t) /\
    getQuicIntegerSize v = Some (2 ^ t).
Proof.
  unfold encodeQuicInteger, getQuicIntegerSize, encodeOneByte, encodeTwoBytes, encodeFourBytes, encodeEightBytes,
    kOneByteLimit, kTwoByteLimit, kFourByteLimit, kEightByteLimit. intros Hv.
  destruct (Z.leb_spec v 0x3F); [exists 0|destruct (Z.leb_spec v 0x3FFF); [exists 1|
    destruct (Z.leb_spec v 0x3FFFFFFF); [exists 2|destruct (Z.leb_spec v 0x3FFFFFFFFFFFFFFF); [exists 3|lia]]]];
    (split; [lia|]); (split; [simpl; lia|]); (split; [simpl; lia|]); (split; [|done]); do 2 f_equal.
  - rewrite u8_id by (unfold_ints; lia). simpl. done.
  - rewrite u16_id by (unfold_ints; lia). change 0x4000 with (1 * 2 ^ 14). rewrite lor_tag by lia. done.
  - rewrite u32_id by (unfold_ints; lia). change 0x80000000 with (2 * 2 ^ 30). rewrite lor_tag by lia. done.
  - change 0xC000000000000000 with (3 * 2 ^ 62). rewrite lor_tag by lia. done.
Qed.

Lemma quic_length_bytes t v rest : 0 <= t <= 3 -> 0 <= v < 2 ^ (8 * 2 ^ t - 2) ->
  quic_length (be_bytes (Z.to_nat (2 ^ t)) (t * 2 ^ (8 * 2 ^ t - 2) + v) ++ rest) = 2 ^ t.
Proof.
  intros Ht Hv. unfold quic_length. f_equal.
  assert (t = 0 \/ t = 1 \/ t = 2 \/ t = 3) as [-> | [-> | [-> | ->]]] by lia; simpl in *; ilia.
Qed.

Lemma decode_bytes t v rest atMost : 0 <= t <= 3 -> 0 <= v < 2 ^ (8 * 2 ^ t - 2) -> bytes_ok rest ->
  2 ^ t <= atMost ->
  decodeQuicInteger (be_bytes (Z.to_nat (2 ^ t)) (t * 2 ^ (8 * 2 ^ t - 2) + v) ++ rest) atMost =
    Some ((v, 2 ^ t), rest).
Proof.
  intros Ht Hv Hr Ha. pose proof (Z.pow_pos_nonneg 2 t ltac:(lia) ltac:(lia)) as Hp.
  rewrite decode_spec by (lia || (apply Forall_app; split; [apply be_bytes_ok|done])).
  rewrite quic_length_bytes by done. set (n := 2 ^ t) in *.
  set (bs := be_bytes _ _).
  assert (Hlen : length bs = Z.to_nat n) by apply length_be_bytes.
  rewrite (proj2 (Z.leb_le n atMost)) by done.
  rewrite (proj2 (Z.leb_le n _)) by (rewrite zlen_app; unfold zlen; lia). simpl.
  rewrite take_app_length', drop_app_length' by done. unfold bs.
  assert (Hz : 2 ^ (8 * n) = 4 * 2 ^ (8 * n - 2)).
  { change 4 with (2 ^ 2). rewrite <- Z.pow_add_r by lia. f_equal. lia. }
  rewrite be_value_bytes by (rewrite Z2Nat.id by lia; nia).
  rewrite Z.add_comm, Z.mod_add by lia. rewrite Z.mod_small by done. done.
Qed.

(** What is written is read back, whatever follows. *)
Lemma integer_roundtrip v : 0 <= v <= kEightByteLimit ->
  exists bs n, encodeQuicInteger v = Some (bs, n) /\ getQuicIntegerSize v = Some n /\
    zlen bs = n /\ 1 <= n <= 8 /\ bytes_ok bs /\
    forall rest atMost, bytes_ok rest -> n <= atMost ->
      decodeQuicInteger (bs ++ rest) atMost = Some ((v, n), rest).
Proof.
  intros Hv. destruct (quic_encode_spec v Hv) as (t & Ht & _ & Hlt & HE & HS).
  eexists _, _. split; [exact HE|]. split; [exact HS|].
  assert (Hp : 1 <= 2 ^ t <= 8).
  { split; [pose proof (Z.pow_pos_nonneg 2 t); lia|]. change 8 with (2 ^ 3). apply Z.pow_le_mono_r; lia. }
  split; [unfold zlen; rewrite length_be_bytes; lia|]. split; [done|]. split; [apply be_bytes_ok|].
  intros rest atMost Hr Ha. apply decode_bytes; try done. lia.
Qed.

Lemma encode_too_large v : kEightByteLimit < v -> encodeQuicInteger v = None /\ getQuicIntegerSize v = None.
Proof.
  unfold kEightByteLimit, encodeQuicInteger, getQuicIntegerSize, kOneByteLimit, kTwoByteLimit, kFourByteLimit,
    kEightByteLimit. intros H. by rewrite !(proj2 (Z.leb_gt v _)) by lia.
Qed.

(** What a successful read says about the bytes, and that more bytes do not change
    it. *)
Lemma decode_some c atMost v n r : bytes_ok c -> 0 <= atMost ->
  decodeQuicInteger c atMost = Some ((v, n), r) ->
  0 <= v <= kEightByteLimit /\ 1 <= n <= 8 /\ n <= atMost /\ zlen c = n + zlen r /\ bytes_ok r /\
  (exists p, c = p ++ r /\ zlen p = n) /\
  forall rest, bytes_ok rest -> decodeQuicInteger (c ++ rest) atMost = Some ((v, n), r ++ rest).
Proof.
  intros Hc Ha. rewrite decode_spec by done. destruct (_ && _) eqn:E; [|done].
  apply andb_prop in E as [E1%Z.leb_le E2%Z.leb_le]. intros [= <- <- <-].
  pose proof (quic_length_cases c Hc) as Hn. set (n := quic_length c) in *.
  assert (Hl : length (take (Z.to_nat n) c) = Z.to_nat n) by (rewrite length_take; unfold zlen in E1; lia).
  split.
  { pose proof (Z.mod_pos_bound (be_value (take (Z.to_nat n) c)) (2 ^ (8 * n - 2))
      ltac:(apply Z.pow_pos_nonneg; lia)) as Hm.
    assert (2 ^ (8 * n - 2) <= 2 ^ 62) by (apply Z.pow_le_mono_r; lia). unfold kEightByteLimit. lia. }
  split; [lia|]. split; [done|].
  split; [unfold zlen in *; rewrite length_drop; lia|]. split; [by apply Forall_drop|].
  split; [exists (take (Z.to_nat n) c); rewrite take_drop; split; [done|unfold zlen; lia]|].
  intros rest Hr. rewrite decode_spec by (done || by apply Forall_app).
  assert (Hne : c <> []) by (intros ->; unfold zlen in E1; simpl in E1; lia).
  assert (Eq : quic_length (c ++ rest) = n).
  { unfold n, quic_length. by destruct c. }
  rewrite Eq. rewrite (proj2 (Z.leb_le n atMost)) by done. rewrite (proj2 (Z.leb_le n _)).
  2: { rewrite zlen_app. unfold zlen in *. lia. }
  simpl. rewrite take_app_le, drop_app_le by (unfold zlen in E1; lia). done.
Qed.

End QuicInteger.

(** ** Packet numbers *)

Module PacketNumber.

(** [folly::findLastSet]: one plus the position of the highest bit that is set. *)
Definition findLastSet (v : Z) : Z := if v =? 0 then 0 else Z.log2 v + 1.

(** The bytes to send and their number; [None] is the [QuicInternalException]. *)
Definition encodePacketNumber (packetNum largestAckedPacketNum : Z) : option (Z * Z) :=
  let twiceDistance := u64 (u64 (packetNum - largestAckedPacketNum) * 2) in
  let lengthInBits := findLastSet twiceDistance in
  let lengthInBytes := if lengthInBits =? 0 then 1 else Z.shiftr (lengthInBits + 7) 3 in
  if lengthInBytes >? 4 then None
  else
    let mask := Z.shiftl 1 (lengthInBytes * 8) - 1 in
    Some (Z.land packetNum mask, lengthInBytes).

(** [None] is a failed [CHECK]. *)
Definition decodePacketNumber (encodedPacketNum packetNumBytes expectedNextPacketNum : Z) : option Z :=
  if packetNumBytes <=? 4 then
    let packetNumBits := 8 * packetNumBytes in
    let packetNumWin := u64 (Z.shiftl 1 packetNumBits) in
    let packetNumHalfWin := Z.shiftr packetNumWin 1 in
    let mask := u64 (packetNumWin - 1) in
    let candidate := Z.lor (Z.land expectedNextPacketNum (Z.lnot mask)) encodedPacketNum in
    if (expectedNextPacketNum >? packetNumHalfWin) &&
       (candidate <=? u64 (expectedNextPacketNum - packetNumHalfWin)) &&
       (candidate <? u64 (Z.shiftl 1 62 - packetNumWin))
    then Some (u64 (candidate + packetNumWin))
    else if (candidate >? u64 (expectedNextPacketNum + packetNumHalfWin)) &&
            (candidate >=? packetNumWin)
    then Some (candidate - packetNumWin)
    else Some candidate
  else None.

(** The window of numbers around the expected one that [n] bytes tell apart. *)
Definition half_window (n : Z) : Z := 2 ^ (8 * n - 1).

Lemma findLastSet_bound v k : 0 <= v < 2 ^ k -> 0 <= k -> 0 <= findLastSet v <= k.
Proof.
  intros Hv Hk. unfold findLastSet. destruct (Z.eqb_spec v 0); [lia|].
  pose proof (Z.log2_nonneg v). pose proof (Z.log2_lt_pow2 v k). lia.
Qed.

Lemma findLastSet_covers v : 0 <= v -> v < 2 ^ findLastSet v.
Proof.
  intros Hv. unfold findLastSet. destruct (Z.eqb_spec v 0) as [->|Hn]; [done|].
  pose proof (Z.log2_spec v). replace (Z.log2 v + 1) with (Z.succ (Z.log2 v)) by lia. lia.
Qed.

Lemma encode_length pn la : 0 <= la < pn -> pn < 2 ^ 62 -> pn - la < 2 ^ 31 ->
  exists n, 1 <= n <= 4 /\ pn - la < half_window n /\
    encodePacketNumber pn la = Some (pn mod 2 ^ (8 * n), n).
Proof.
  intros Hla Hpn Hd. unfold encodePacketNumber.
  assert (E : u64 (u64 (pn - la) * 2) = 2 * (pn - la)).
  { rewrite (u64_id (pn - la)) by (unfold_ints; lia). rewrite u64_id by (unfold_ints; lia). lia. }
  rewrite E. set (x := 2 * (pn - la)). pose proof (findLastSet_bound x 32 ltac:(lia) ltac:(lia)) as Hb.
  pose proof (findLastSet_covers x ltac:(lia)) as Hc.
  destruct (Z.eqb_spec (findLastSet x) 0) as [H0|H0].
  { rewrite H0 in Hc. simpl in Hc. lia. }
  rewrite Z.shiftr_div_pow2 by lia. set (n := (findLastSet x + 7) / 2 ^ 3).
  assert (Hn : 1 <= n <= 4) by (unfold n; ilia). destruct (Z.gtb_spec n 4); [lia|].
  exists n. split; [done|]. split.
  - unfold half_window. assert (x < 2 ^ (8 * n)).
    { eapply Z.lt_le_trans; [exact Hc|]. apply Z.pow_le_mono_r; [lia|]. unfold n. ilia. }
    assert (2 ^ (8 * n) = 2 * 2 ^ (8 * n - 1)).
    { rewrite <- Z.pow_succ_r by lia. f_equal. lia. }
    unfold x in *. lia.
  - do 2 f_equal. rewrite Z.shiftl_1_l, (Z.mul_comm n 8). apply land_mask; [lia|]. by rewrite Z.ones_equiv.
Qed.

Lemma candidate_value e enc k : 0 <= k -> 0 <= enc < 2 ^ k ->
  Z.lor (Z.land e (Z.lnot (2 ^ k - 1))) enc = e / 2 ^ k * 2 ^ k + enc.
Proof.
  intros Hk He. replace (2 ^ k - 1) with (Z.ones k) by (rewrite Z.ones_equiv; lia).
  rewrite <- Z.ldiff_land, Z.ldiff_ones_r, Z.shiftr_div_pow2 by lia. by apply lor_shiftl_add.
Qed.

(** The comparisons of [decodePacketNumber], with the window a number. *)
Ltac window w h :=
  repeat match goal with |- context [2 ^ (8 * ?n)] => change (2 ^ (8 * n)) with w end;
  repeat match goal with H : context [2 ^ (8 * ?n - 1)] |- _ => change (2 ^ (8 * n - 1)) with h in H end;
  change (w / 2) with h;
  match goal with |- context [u64 (?e + h)] =>
    rewrite (u64_id (e + h)) by (unfold_ints; lia); rewrite (u64_id (2 ^ 62 - w)) by (unfold_ints; lia);
    destruct (Z.gtb_spec e h); simpl; [rewrite (u64_id (e - h)) by (unfold_ints; lia)|]
  end;
  repeat match goal with
    | |- context [?a <=? ?b] => destruct (Z.leb_spec a b)
    | |- context [?a <? ?b] => destruct (Z.ltb_spec a b)
    | |- context [?a >? ?b] => destruct (Z.gtb_spec a b)
    | |- context [?a >=? ?b] => destruct (Z.geb_spec a b)
    end; simpl; f_equal; try rewrite u64_id by ilia; ilia.

(** The decoder finds the number that is congruent to the bytes and closest to the
    expected one. *)
Lemma decode_closest pn n e : 1 <= n <= 4 -> 0 <= pn < 2 ^ 62 -> 0 <= e < 2 ^ 62 ->
  pn - e < half_window n -> e - pn < half_window n ->
  decodePacketNumber (pn mod 2 ^ (8 * n)) n e = Some pn.
Proof.
  intros Hn Hpn He H1 H2. unfold decodePacketNumber. rewrite (proj2 (Z.leb_le n 4)) by lia.
  rewrite Z.shiftl_1_l, (Z.shiftl_1_l 62).
  assert (Hw : is_u64 (2 ^ (8 * n))) by (split; [lia|apply Z.pow_lt_mono_r; lia]).
  rewrite !(u64_id (2 ^ (8 * n))) by done.
  pose proof (Z.pow_pos_nonneg 2 (8 * n)) as Hp.
  rewrite (u64_id (2 ^ (8 * n) - 1)) by (unfold_ints; lia).
  rewrite candidate_value by (lia || (apply Z.mod_pos_bound; lia)).
  rewrite Z.shiftr_div_pow2 by lia. unfold half_window in *. change (2 ^ 1) with 2.
  assert (n = 1 \/ n = 2 \/ n = 3 \/ n = 4) as [-> | [-> | [-> | ->]]] by lia; clear Hn Hw Hp;
    [window 256 128 | window 65536 32768 | window 16777216 8388608 | window 4294967296 2147483648].
Qed.

End PacketNumber.

Module QuicIntegerResults.
Import QuicInteger PacketNumber.

(** C22. QUIC integers round-trip. A value up to 2^62 - 1 is written in the 1, 2, 4 or 8
    bytes that [getQuicIntegerSize] announces and read back, whatever follows it, by
    a reader that may take that many bytes; a larger one is refused by both
    functions. *)
Theorem quic_integer_roundtrip v rest atMost : is_u64 v -> bytes_ok rest ->
  match encodeQuicInteger v with
  | Some (bs, n) => v <= kEightByteLimit /\ getQuicIntegerSize v = Some n /\ zlen bs = n /\
      (n <= atMost -> decodeQuicInteger (bs ++ rest) atMost = Some ((v, n), rest))
  | None => kEightByteLimit < v /\ getQuicIntegerSize v = None
  end.
Proof.
  intros Hv Hr. destruct (Z.le_gt_cases v kEightByteLimit) as [Hle|Hgt].
  - destruct (integer_roundtrip v) as (bs & n & -> & -> & Hz & _ & _ & HD); [unfold_ints; lia|].
    split_and!; try done. intros Ha. by apply HD.
  - by destruct (encode_too_large v Hgt) as [-> ->].
Qed.

Lemma quic_integer_roundtrip_witness :
  encodeQuicInteger 15293 = Some ([0x7b; 0xbd], 2) /\
  decodeQuicInteger ([0x7b; 0xbd] ++ [1; 2]) 8 = Some ((15293, 2), [1; 2]).
Proof.
  pose proof (quic_integer_roundtrip 15293 [1; 2] 8) as H.
  change (encodeQuicInteger 15293) with (Some ([0x7b; 0xbd], 2)) in H. split; [reflexivity|].
  apply H; [unfold_ints; lia|repeat constructor; unfold_ints; lia|lia].
Defined.

(** Packet numbers round-trip. The sender cuts a packet number to the bytes that
    twice its distance to the largest acknowledged one needs; a receiver that has
    seen the acknowledged packet, and for which the packet is not out of order by
    half a window or more, recovers it. *)
Theorem packet_number_roundtrip pn la : 0 <= la < pn -> pn < 2 ^ 62 -> pn - la < 2 ^ 31 ->
  exists bytes n, encodePacketNumber pn la = Some (bytes, n) /\ 1 <= n <= 4 /\ 0 <= bytes < 2 ^ (8 * n) /\
    forall expected, la < expected < 2 ^ 62 -> expected - pn < half_window n ->
      decodePacketNumber bytes n expected = Some pn.
Proof.
  intros Hla Hpn Hd. destruct (encode_length pn la Hla Hpn Hd) as (n & Hn & Hw & ->).
  eexists _, n. split; [reflexivity|]. split; [done|].
  split; [apply Z.mod_pos_bound, Z.pow_pos_nonneg; lia|].
  intros e He Hr. apply decode_closest; lia.
Qed.

End QuicIntegerResults.
