(* ===== verification/StructuredHeaders.v ===== *)
(** * Structured headers

    The buffer, decoder and encoder of [lib/http/structuredheaders], and the
    [priority] header field on top of them ([HTTPPriorityFunctions.cpp]).

    Characters are bytes.  A parsing function works on what is left of [content_] and
    returns a value or a [DecodeError]; a failed [CHECK] is [PThrow], a loop that makes
    no progress is [PLoop].  What the C++ leaves in an out-parameter before it reports
    an error is not modelled.  The encoder appends to [outputStream_] and reports an
    [EncodeError]; what it wrote before an error stays.

    [folly::base64Encode] and [base64Decode], [boost::lexical_cast] and the printing
    of a [double] are not part of the program: they are the class [Conversions], and
    what the code relies on is [ConversionsOk]. *)

From stdpp Require Import gmap.
From S2P Require Import Prelude.

Module StructuredHeaders.

(** ** Conversions that the program takes from libraries *)

Class Conversions := {
  double : Type;
  base64Encode : list Z -> list Z;
  base64Decode : list Z -> option (list Z);     (* [None]: an exception *)
  lexical_cast_int64 : list Z -> option Z;      (* [None]: [bad_lexical_cast] *)
  lexical_cast_double : list Z -> option double;
  print_double : double -> list Z }.

(** ** Constants and data *)

Definition kMaxValidIntegerLength : Z := 19.
Definition kMaxValidFloatLength : Z := 16.

Inductive DecodeError :=
| VALUE_TOO_LONG | INVALID_CHARACTER | UNDECODEABLE_BINARY_CONTENT | UNEXPECTED_END_OF_BUFFER
| UNPARSEABLE_NUMERIC_TYPE | DUPLICATE_KEY.

Inductive EncodeError :=
| OK | EMPTY_DATA_STRUCTURE | BAD_IDENTIFIER | BAD_STRING | ITEM_TYPE_MISMATCH | ENCODING_NULL_ITEM.

#[global] Instance DecodeError_eq_dec : EqDecision DecodeError.
Proof. solve_decision. Defined.
#[global] Instance EncodeError_eq_dec : EqDecision EncodeError.
Proof. solve_decision. Defined.

(** [StructuredHeaderItem::Type]. *)
Inductive Tag := NONE | STRING | BINARYCONTENT | IDENTIFIER | DOUBLE | INT64 | BOOLEAN.

#[global] Instance Tag_eq_dec : EqDecision Tag.
Proof. solve_decision. Defined.

(** [boost::variant<bool, int64_t, double, std::string>]. *)
Inductive VariantType `{Conversions} :=
| VBool (b : bool) | VInt (z : Z) | VDouble (d : double) | VString (s : list Z).

Record StructuredHeaderItem `{Conversions} := mkItem { tag : Tag; value : VariantType }.
#[global] Arguments mkItem {_} _ _.

(** ** Characters ([StructuredHeadersUtilities.cpp], [<cctype>]) *)

Definition isdigit (c : Z) : bool := (0x30 <=? c) && (c <=? 0x39).
Definition isalpha (c : Z) : bool :=
  ((0x41 <=? c) && (c <=? 0x5A)) || ((0x61 <=? c) && (c <=? 0x7A)).

Definition isLcAlpha (c : Z) : bool := (0x61 <=? c) && (c <=? 0x7A).
Definition isValidIdentifierChar (c : Z) : bool :=
  isLcAlpha c || isdigit c || (c =? 0x5F) || (c =? 0x2D) || (c =? 0x2A) || (c =? 0x2F).
Definition isValidEncodedBinaryContentChar (c : Z) : bool :=
  isalpha c || isdigit c || (c =? 0x2B) || (c =? 0x2F) || (c =? 0x3D).
Definition isValidStringChar (c : Z) : bool := (0x20 <=? c) && (c <=? 0x7E).

Definition isValidIdentifier (s : list Z) : bool :=
  match s with
  | [] => false
  | c :: _ => isLcAlpha c && forallb isValidIdentifierChar s
  end.

Definition isValidString (s : list Z) : bool := forallb isValidStringChar s.

(** The loop over the characters, with [equalSeen]. *)
Fixpoint binary_content_loop (s : list Z) (equalSeen : bool) : bool :=
  match s with
  | [] => true
  | c :: s =>
      if c =? 0x3D then binary_content_loop s true
      else if equalSeen || negb (isValidEncodedBinaryContentChar c) then false
      else binary_content_loop s equalSeen
  end.

Definition isValidEncodedBinaryContent (s : list Z) : bool :=
  if negb (zlen s mod 4 =? 0) then false else binary_content_loop s false.

Section headers.
Context `{CV : Conversions}.

Definition itemTypeMatchesContent (input : StructuredHeaderItem) : bool :=
  match tag input, value input with
  | (BINARYCONTENT | IDENTIFIER | STRING), VString _ => true
  | INT64, VInt _ => true
  | BOOLEAN, VBool _ => true
  | DOUBLE, VDouble _ => true
  | NONE, _ => true
  | _, _ => false
  end.

(** ** The buffer *)

Fixpoint skip_whitespace (l : list Z) : list Z :=
  match l with
  | c :: l' => if (c =? 0x20) || (c =? 0x09) then skip_whitespace l' else l
  | [] => []
  end.

Definition removeOptionalWhitespace : parser DecodeError unit := fun l => POk tt (skip_whitespace l).

(** The rest of the content if it starts with the symbol. *)
Fixpoint startsWith (symbol l : list Z) : option (list Z) :=
  match symbol, l with
  | [], _ => Some l
  | c :: symbol, c' :: l => if c =? c' then startsWith symbol l else None
  | _ :: _, [] => None
  end.

(** [removeSymbol(symbol, true)]. *)
Definition removeSymbol (symbol : list Z) : parser DecodeError unit := fun l =>
  match startsWith symbol l with Some l' => POk tt l' | None => PErr INVALID_CHARACTER end.

(** [removeSymbol(symbol, false) == DecodeError::OK]. *)
Definition trySymbol (symbol : list Z) : parser DecodeError bool := fun l =>
  match startsWith symbol l with Some l' => POk true l' | None => POk false l end.

Definition parseInteger (input : list Z) : parser DecodeError StructuredHeaderItem :=
  match lexical_cast_int64 input with
  | Some z => mret (mkItem INT64 (VInt z))
  | None => pfail UNPARSEABLE_NUMERIC_TYPE
  end.

Definition parseFloat (input : list Z) : parser DecodeError StructuredHeaderItem :=
  match lexical_cast_double input with
  | Some d => mret (mkItem DOUBLE (VDouble d))
  | None => pfail UNPARSEABLE_NUMERIC_TYPE
  end.

(** The loop of [parseNumber]: the type and [input] at its end. *)
Fixpoint number_loop (positive : bool) (type : Tag) (input l : list Z)
  : presult DecodeError (Tag * list Z) :=
  match l with
  | [] => POk (type, input) []
  | current :: l' =>
      let numDigits input := zlen input - (if positive then 0 else 1) in
      if isdigit current then
        let input := input ++ [current] in
        if bool_decide (type = INT64) && (numDigits input >? kMaxValidIntegerLength) then PErr VALUE_TOO_LONG
        else if bool_decide (type = DOUBLE) && (numDigits input >? kMaxValidFloatLength) then PErr VALUE_TOO_LONG
        else number_loop positive type input l'
      else if bool_decide (type = INT64) && (current =? 0x2E) then
        let input := input ++ [current] in
        if numDigits input >? kMaxValidFloatLength then PErr VALUE_TOO_LONG
        else number_loop positive DOUBLE input l'
      else POk (type, input) l
  end.

Definition parseNumber : parser DecodeError StructuredHeaderItem := fun l =>
  match l with
  | [] => PErr UNEXPECTED_END_OF_BUFFER
  | c :: l1 =>
      let positive := negb (c =? 0x2D) in
      let input := if positive then [] else [0x2D] in
      let l := if positive then l else l1 in
      match l with
      | [] => PErr UNEXPECTED_END_OF_BUFFER
      | c :: _ =>
          if negb (isdigit c) then PErr INVALID_CHARACTER
          else
            match number_loop positive INT64 input l with
            | POk (type, input) l =>
                if bool_decide (type = INT64) then parseInteger input l
                else if bool_decide (last input = Some 0x2E) then PErr INVALID_CHARACTER
                else parseFloat input l
            | PErr e => PErr e
            | PThrow => PThrow
            | PLoop => PLoop
            end
      end
  end.

(** A boolean must be the last thing in the buffer. *)
Definition parseBoolean : parser DecodeError StructuredHeaderItem := fun l =>
  match startsWith [0x3F] l with
  | None => PThrow
  | Some [] => PErr UNEXPECTED_END_OF_BUFFER
  | Some (ch :: l) =>
      if negb (ch =? 0x30) && negb (ch =? 0x31) then PErr INVALID_CHARACTER
      else match l with
      | [] => POk (mkItem BOOLEAN (VBool (truth (ch - 0x30)))) []
      | _ :: _ => PErr VALUE_TOO_LONG
      end
  end.

Fixpoint binary_loop (outputString l : list Z) : presult DecodeError StructuredHeaderItem :=
  match l with
  | [] => PErr UNEXPECTED_END_OF_BUFFER
  | current :: l =>
      if current =? 0x2A then
        if negb (isValidEncodedBinaryContent outputString) then PErr UNDECODEABLE_BINARY_CONTENT
        else match base64Decode outputString with
        | None => PErr UNDECODEABLE_BINARY_CONTENT
        | Some decodedContent => POk (mkItem BINARYCONTENT (VString decodedContent)) l
        end
      else if negb (isValidEncodedBinaryContentChar current) then PErr INVALID_CHARACTER
      else binary_loop (outputString ++ [current]) l
  end.

Definition parseBinaryContent : parser DecodeError StructuredHeaderItem := fun l =>
  match l with
  | [] => PErr UNEXPECTED_END_OF_BUFFER
  | c :: l => if negb (c =? 0x2A) then PErr INVALID_CHARACTER else binary_loop [] l
  end.

Fixpoint identifier_loop (result l : list Z) : list Z * list Z :=
  match l with
  | current :: l' =>
      if negb (isValidIdentifierChar current) then (result, l)
      else identifier_loop (result ++ [current]) l'
  | [] => (result, [])
  end.

Definition parseIdentifier : parser DecodeError (list Z) := fun l =>
  match l with
  | [] => PErr UNEXPECTED_END_OF_BUFFER
  | c :: _ =>
      if negb (isLcAlpha c) then PErr INVALID_CHARACTER
      else let '(result, l) := identifier_loop [] l in POk result l
  end.

(** [parseIdentifier(StructuredHeaderItem&)]. *)
Definition parseIdentifier_item : parser DecodeError StructuredHeaderItem :=
  outputString ← parseIdentifier;
  mret (mkItem IDENTIFIER (VString outputString)).

Fixpoint string_loop (outputString l : list Z) : presult DecodeError StructuredHeaderItem :=
  match l with
  | [] => PErr UNEXPECTED_END_OF_BUFFER
  | current :: l =>
      if current =? 0x5C then
        match l with
        | [] => PErr UNEXPECTED_END_OF_BUFFER
        | nextChar :: l =>
            if negb (nextChar =? 0x22) && negb (nextChar =? 0x5C) then PErr INVALID_CHARACTER
            else string_loop (outputString ++ [nextChar]) l
        end
      else if current =? 0x22 then POk (mkItem STRING (VString outputString)) l
      else if negb (isValidStringChar current) then PErr INVALID_CHARACTER
      else string_loop (outputString ++ [current]) l
  end.

Definition parseString : parser DecodeError StructuredHeaderItem := fun l =>
  match l with
  | [] => PErr UNEXPECTED_END_OF_BUFFER
  | c :: l => if negb (c =? 0x22) then PErr INVALID_CHARACTER else string_loop [] l
  end.

Definition parseItem : parser DecodeError StructuredHeaderItem := fun l =>
  let l := skip_whitespace l in
  match l with
  | [] => PErr UNEXPECTED_END_OF_BUFFER
  | firstCharacter :: _ =>
      if firstCharacter =? 0x22 then parseString l
      else if firstCharacter =? 0x2A then parseBinaryContent l
      else if isdigit firstCharacter || (firstCharacter =? 0x2D) then parseNumber l
      else if firstCharacter =? 0x3F then parseBoolean l
      else PErr INVALID_CHARACTER
  end.

(** [buf_.isEmpty()]. *)
Definition isEmpty : parser DecodeError bool := fun l => POk (bool_decide (l = [])) l.

(** ** The decoder *)

Definition decodeItem : parser DecodeError StructuredHeaderItem :=
  item ← parseItem;
  empty ← isEmpty;
  if (empty : bool) then mret item else pfail INVALID_CHARACTER.

(** [while (!buf_.isEmpty())]: every round takes an item off the buffer. *)
Fixpoint list_loop (fuel : nat) (result : list StructuredHeaderItem)
  : parser DecodeError (list StructuredHeaderItem) :=
  match fuel with
  | O => fun _ => PLoop
  | S fuel' =>
      empty ← isEmpty;
      if (empty : bool) then pfail UNEXPECTED_END_OF_BUFFER
      else
        item ← parseItem;
        let result := result ++ [item] in
        removeOptionalWhitespace;;
        empty ← isEmpty;
        if (empty : bool) then mret result
        else
          removeSymbol [0x2C];;
          removeOptionalWhitespace;;
          empty ← isEmpty;
          if (empty : bool) then pfail UNEXPECTED_END_OF_BUFFER
          else list_loop fuel' result
  end.

Definition decodeList : parser DecodeError (list StructuredHeaderItem) := fun l =>
  list_loop (S (length l)) [] l.

(** [std::unordered_map<std::string, StructuredHeaderItem>]. *)
Definition Dictionary : Type := gmap (list Z) StructuredHeaderItem.

Inductive MapType := DICTIONARY | PARAMETERISED_MAP.

#[global] Instance MapType_eq_dec : EqDecision MapType.
Proof. solve_decision. Defined.

Definition delimiter (mapType : MapType) : list Z :=
  match mapType with PARAMETERISED_MAP => [0x3B] | DICTIONARY => [0x2C] end.

(** The value of a key: the boolean [true] if there is no ["="]. *)
Definition parseValue : parser DecodeError StructuredHeaderItem :=
  eq ← trySymbol [0x3D];
  if (eq : bool) then parseItem else mret (mkItem BOOLEAN (VBool true)).

Fixpoint map_loop (fuel : nat) (result : Dictionary) (mapType : MapType) : parser DecodeError Dictionary :=
  match fuel with
  | O => fun _ => PLoop
  | S fuel' =>
      empty ← isEmpty;
      if (empty : bool) then pfail UNEXPECTED_END_OF_BUFFER
      else
        removeOptionalWhitespace;;
        thisKey ← parseIdentifier;
        if bool_decide (is_Some (result !! thisKey)) then pfail DUPLICATE_KEY
        else
          item ← parseValue;
          let result := <[thisKey := item]> result in
          empty ← isEmpty;
          if (empty : bool) then mret result
          else
            removeOptionalWhitespace;;
            found ← trySymbol (delimiter mapType);
            if (found : bool) then map_loop fuel' result mapType
            else match mapType with
            | PARAMETERISED_MAP => mret result
            | DICTIONARY => pfail INVALID_CHARACTER
            end
  end.

(** [result] is empty at every call. *)
Definition decodeMap (mapType : MapType) : parser DecodeError Dictionary := fun l =>
  let l := skip_whitespace l in
  match mapType with
  | PARAMETERISED_MAP =>
      match startsWith (delimiter mapType) l with
      | None => POk ∅ l
      | Some l => map_loop (S (length l)) ∅ mapType l
      end
  | DICTIONARY => map_loop (S (length l)) ∅ mapType l
  end.

Definition decodeDictionary : parser DecodeError Dictionary := decodeMap DICTIONARY.

Record ParameterisedIdentifier := mkParameterised {
  identifier : list Z; parameterMap : Dictionary }.

Fixpoint parameterised_loop (fuel : nat) (result : list ParameterisedIdentifier)
  : parser DecodeError (list ParameterisedIdentifier) :=
  match fuel with
  | O => fun _ => PLoop
  | S fuel' =>
      empty ← isEmpty;
      if (empty : bool) then pfail UNEXPECTED_END_OF_BUFFER
      else
        primaryIdentifier ← parseIdentifier;
        removeOptionalWhitespace;;
        parameters ← decodeMap PARAMETERISED_MAP;
        let result := result ++ [mkParameterised primaryIdentifier parameters] in
        removeOptionalWhitespace;;
        empty ← isEmpty;
        if (empty : bool) then mret result
        else
          removeSymbol [0x2C];;
          removeOptionalWhitespace;;
          parameterised_loop fuel' result
  end.

Definition decodeParameterisedList : parser DecodeError (list ParameterisedIdentifier) := fun l =>
  parameterised_loop (S (length l)) [] l.

(** ** The encoder

    [outputStream_] is passed along; an operation after an error is not performed. *)

Definition output : Type := list Z -> EncodeError * list Z.

Definition emit (s : list Z) : output := fun out => (OK, out ++ s).
Definition refuse (e : EncodeError) : output := fun out => (e, out).
Definition andThen (m k : output) : output := fun out =>
  let '(e, out) := m out in if bool_decide (e = OK) then k out else (e, out).

#[local] Infix ">>>" := andThen (at level 60, right associativity).

(** [outputStream_ << z] for an [int64_t]. *)
Fixpoint digits_loop (fuel : nat) (z : Z) (acc : list Z) : list Z :=
  match fuel with
  | O => acc
  | S fuel' =>
      if z <? 10 then 0x30 + z :: acc
      else digits_loop fuel' (z / 10) (0x30 + z mod 10 :: acc)
  end.

(** Twenty digits are enough for 64 bits. *)
Definition print_unsigned (z : Z) : list Z := digits_loop 20 z [].
Definition print_int (z : Z) : list Z :=
  if z <? 0 then 0x2D :: print_unsigned (- z) else print_unsigned z.

Definition encodeInteger (input : Z) : output := emit (print_int input).

Definition encodeBoolean (input : bool) : output :=
  emit (0x3F :: (if input then [0x31] else [0x30])).

Definition encodeFloat (input : double) : output := emit (print_double input).

Definition encodeBinaryContent (input : list Z) : output :=
  emit [0x2A] >>> emit (base64Encode input) >>> emit [0x2A].

(** [std::string::substr]. *)
Definition substr (s : list Z) (pos n : nat) : list Z := take n (drop pos s).

(** The loop over [input]: the characters before [l] are written, [r] is the position. *)
Fixpoint escape_loop (input cs : list Z) (l r : nat) : output :=
  match cs with
  | [] => if (l <? r)%nat then emit (substr input l (r - l + 1)) else emit []
  | c :: cs =>
      if (c =? 0x22) || (c =? 0x5C) then
        (if (l <? r)%nat then emit (substr input l (r - l)) >>> emit [0x5C; c] else emit [0x5C; c]) >>>
        escape_loop input cs (r + 1) (r + 1)
      else escape_loop input cs l (r + 1)
  end.

Definition encodeString (input : list Z) : output :=
  if negb (isValidString input) then refuse BAD_STRING
  else emit [0x22] >>> escape_loop input input 0 0 >>> emit [0x22].

Definition encodeIdentifier (input : list Z) : output :=
  if negb (isValidIdentifier input) then refuse BAD_IDENTIFIER else emit input.

Definition encodeItem (input : StructuredHeaderItem) : output :=
  if negb (itemTypeMatchesContent input) then refuse ITEM_TYPE_MISMATCH
  else match tag input, value input with
  | STRING, VString s => encodeString s
  | INT64, VInt z => encodeInteger z
  | BOOLEAN, VBool b => encodeBoolean b
  | DOUBLE, VDouble d => encodeFloat d
  | BINARYCONTENT, VString s => encodeBinaryContent s
  | _, _ => refuse ENCODING_NULL_ITEM
  end.

Definition skipBoolean (input : StructuredHeaderItem) : bool :=
  match tag input, value input with BOOLEAN, VBool b => b | _, _ => false end.

(** [", "] between the elements. *)
Fixpoint encode_separated {A} (f : A -> output) (input : list A) : output :=
  match input with
  | [] => emit []
  | [a] => f a
  | a :: input => f a >>> emit [0x2C; 0x20] >>> encode_separated f input
  end.

Definition encodeList (input : list StructuredHeaderItem) : output :=
  match input with
  | [] => refuse EMPTY_DATA_STRUCTURE
  | _ => encode_separated encodeItem input
  end.

(** A key and its value, which is left out if it is the boolean [true]. *)
Definition encodeEntry (entry : list Z * StructuredHeaderItem) : output :=
  encodeIdentifier (fst entry) >>>
  if negb (itemTypeMatchesContent (snd entry)) then refuse ITEM_TYPE_MISMATCH
  else if negb (skipBoolean (snd entry)) then emit [0x3D] >>> encodeItem (snd entry)
  else emit [].

(** The entries of the map, in the order of its iterator. *)
Definition encodeDictionary (input : list (list Z * StructuredHeaderItem)) : output :=
  match input with
  | [] => refuse EMPTY_DATA_STRUCTURE
  | _ => encode_separated encodeEntry input
  end.

(** A parameter; nothing follows the key of an item with tag [NONE]. *)
Definition encodeParameter (entry : list Z * StructuredHeaderItem) : output :=
  emit [0x3B; 0x20] >>>
  encodeIdentifier (fst entry) >>>
  if bool_decide (tag (snd entry) = NONE) then emit []
  else if negb (itemTypeMatchesContent (snd entry)) then refuse ITEM_TYPE_MISMATCH
  else if negb (skipBoolean (snd entry)) then emit [0x3D] >>> encodeItem (snd entry)
  else emit [].

Fixpoint encodeParameters (input : list (list Z * StructuredHeaderItem)) : output :=
  match input with
  | [] => emit []
  | entry :: input => encodeParameter entry >>> encodeParameters input
  end.

Definition encodeParameterised (input : list Z * list (list Z * StructuredHeaderItem)) : output :=
  encodeIdentifier (fst input) >>> encodeParameters (snd input).

Definition encodeParameterisedList (input : list (list Z * list (list Z * StructuredHeaderItem)))
  : output :=
  match input with
  | [] => refuse EMPTY_DATA_STRUCTURE
  | _ => encode_separated encodeParameterised input
  end.

(** ** Priorities *)

Record HTTPPriority := mkPriority { urgency : Z; incremental : bool; orderId : Z }.

Definition kDefaultHttpPriorityUrgency : Z := 3.
Definition kMinPriority : Z := 0.
Definition kMaxPriority : Z := 7.

(** The constructor; [urgency] has 3 bits and [orderId] 58. *)
Definition HTTPPriority_create (urgencyIn : Z) (incrementalIn : bool) (orderIdIn : Z) : HTTPPriority :=
  mkPriority (Z.min urgencyIn kMaxPriority mod 2 ^ 3) incrementalIn (orderIdIn mod 2 ^ 58).

(** [getWithDefault<int64_t>] and [getWithDefault<bool>]: the value, [missing] and
    [malformed]. *)
Definition getInt (dict : Dictionary) (key : list Z) (default : Z) : Z * bool * bool :=
  match dict !! key with
  | None => (default, true, false)
  | Some item => match value item with VInt z => (z, false, false) | _ => (default, false, true) end
  end.
Definition getBool (dict : Dictionary) (key : list Z) (default : bool) : bool * bool * bool :=
  match dict !! key with
  | None => (default, true, false)
  | Some item => match value item with VBool b => (b, false, false) | _ => (default, false, true) end
  end.

(** [None] is [folly::none]; decoding never aborts ([decode_total]). *)
Definition httpPriorityFromString (priority : list Z) : option HTTPPriority :=
  if bool_decide (priority = []) then None
  else match decodeDictionary priority with
  | POk dict _ =>
      let '(urgency, uMissing, uBad) := getInt dict [0x75] kDefaultHttpPriorityUrgency in
      let '(incremental, iMissing, iBad) := getBool dict [0x69] false in
      let '(orderId, oMissing, oBad) := getInt dict [0x6F] 0 in
      if (urgency >? kMaxPriority) || (urgency <? kMinPriority) || (orderId <? 0) ||
         (uMissing && iMissing && oMissing) || (uBad || iBad || oBad)
      then None
      else Some (HTTPPriority_create (u8 urgency) incremental (u64 orderId))
  | _ => None
  end.

(** ["u="], the urgency, [",i"] and [",o="] with the order. *)
Definition httpPriorityToString (pri : HTTPPriority) : list Z :=
  [0x75; 0x3D] ++ print_unsigned (Z.min kMaxPriority (urgency pri)) ++
  (if incremental pri then [0x2C; 0x69] else []) ++
  (if orderId pri >? 0 then [0x2C; 0x6F; 0x3D] ++ print_unsigned (orderId pri) else []).


End headers.

End StructuredHeaders.
