(* ===== verification/StructuredResults.v ===== *)
(** * Structured headers: round trips and totality

    What the encoder writes the decoder reads back, for items, lists, dictionaries
    and parameterised lists; the decoder returns on every input.  Booleans are the
    exception: the decoder accepts one only at the very end of the field. *)

From stdpp Require Import gmap.
From S2P Require Import Prelude StructuredHeaders.

Module StructuredResults.
Import StructuredHeaders.

(** The value of a string of decimal digits. *)
Definition decimal (ds : list Z) : Z := foldl (fun v c => 10 * v + (c - 0x30)) 0 ds.

(** What the code relies on: base 64 of RFC 4648 uses its alphabet, pads to a multiple
    of four at the end, and is inverted by decoding; [lexical_cast<int64_t>] reads the
    decimal numbers that fit. *)
Class ConversionsOk `{Conversions} : Prop := {
  base64_valid s : bytes_ok s -> isValidEncodedBinaryContent (base64Encode s) = true;
  base64_inverse s : bytes_ok s -> base64Decode (base64Encode s) = Some s;
  lexical_cast_decimal neg ds : ds <> [] -> Forall (fun c => isdigit c = true) ds ->
    let v := if (neg : bool) then - decimal ds else decimal ds in
    - 2 ^ 63 <= v < 2 ^ 63 ->
    lexical_cast_int64 ((if neg then [0x2D] else []) ++ ds) = Some v }.

(** ** Numbers *)

Lemma decimal_acc ds : forall v,
  foldl (fun v c => 10 * v + (c - 0x30)) v ds = v * 10 ^ zlen ds + decimal ds.
Proof.
  unfold decimal. induction ds as [|c ds IH]; intros v; [unfold zlen; simpl; lia|].
  cbn [foldl]. rewrite IH, (IH (10 * 0 + _)). unfold zlen. cbn [length].
  rewrite Nat2Z.inj_succ, Z.pow_succ_r by lia. lia.
Qed.

Lemma decimal_app a b : decimal (a ++ b) = decimal a * 10 ^ zlen b + decimal b.
Proof. unfold decimal at 1. rewrite foldl_app. apply decimal_acc. Qed.

Lemma decimal_cons c ds : decimal (c :: ds) = (c - 0x30) * 10 ^ zlen ds + decimal ds.
Proof.
  change (c :: ds) with ([c] ++ ds). rewrite decimal_app. change (decimal [c]) with (10 * 0 + (c - 0x30)). lia.
Qed.

(** The digits are those of the number, and there are at most [k] of them below
    [10 ^ k]. *)
Lemma digits_loop_spec fuel : forall z acc, 0 <= z < 10 ^ Z.of_nat fuel -> (0 < fuel)%nat ->
  Forall (fun c => isdigit c = true) acc ->
  exists ds, digits_loop fuel z acc = ds ++ acc /\ ds <> [] /\ decimal ds = z /\
    Forall (fun c => isdigit c = true) ds /\ (forall k, 1 <= k -> z < 10 ^ k -> zlen ds <= k).
Proof.
  induction fuel as [|fuel IH]; intros z acc Hz Hf Ha; [lia|]. cbn [digits_loop].
  assert (Hd : forall d, 0 <= d < 10 -> isdigit (0x30 + d) = true).
  { intros d H. unfold isdigit. apply andb_true_intro. split; apply Z.leb_le; lia. }
  destruct (Z.ltb_spec z 10).
  - exists [0x30 + z]. split; [done|]. split; [done|]. split; [rewrite decimal_cons; unfold decimal, zlen; simpl; lia|].
    split; [constructor; [apply Hd; lia|constructor]|]. intros k Hk _. unfold zlen. cbn [length]. lia.
  - assert (Hp : 10 ^ Z.of_nat (S fuel) = 10 * 10 ^ Z.of_nat fuel).
    { rewrite Nat2Z.inj_succ, Z.pow_succ_r by lia. done. }
    destruct (IH (z / 10) (0x30 + z mod 10 :: acc)) as (ds & -> & Hne & Hv & Hds & Hk).
    + rewrite Hp in Hz. split; [apply Z.div_pos; lia|]. apply Z.div_lt_upper_bound; lia.
    + destruct fuel; [|lia]. simpl in Hz. lia.
    + constructor; [apply Hd, Z.mod_pos_bound; lia|done].
    + exists (ds ++ [0x30 + z mod 10]). rewrite <- app_assoc. split; [done|]. split; [by destruct ds|].
      rewrite decimal_app, Hv, decimal_cons. change (decimal []) with 0.
      change (zlen [0x30 + z mod 10]) with 1. change (zlen (@nil Z)) with 0.
      split; [rewrite Z.pow_1_r, Z.pow_0_r; pose proof (Z.div_mod z 10); lia|].
      split; [apply Forall_app; split; [done|constructor; [apply Hd, Z.mod_pos_bound; lia|done]]|].
      intros k Hk1 Hzk. rewrite zlen_app. change (zlen [0x30 + z mod 10]) with 1.
      assert (k <> 1) by (intros ->; lia).
      pose proof (Hk (k - 1) ltac:(lia)) as Hk'. replace k with (Z.succ (k - 1)) in Hzk by lia.
      rewrite Z.pow_succ_r in Hzk by lia.
      assert (z / 10 < 10 ^ (k - 1)) by (apply Z.div_lt_upper_bound; lia). lia.
Qed.

Lemma print_unsigned_spec z : 0 <= z < 2 ^ 64 ->
  print_unsigned z <> [] /\ decimal (print_unsigned z) = z /\
  Forall (fun c => isdigit c = true) (print_unsigned z) /\
  (forall k, 1 <= k -> z < 10 ^ k -> zlen (print_unsigned z) <= k).
Proof.
  intros Hz. destruct (digits_loop_spec 20 z []) as (ds & E & H); [simpl; lia|lia|constructor|].
  unfold print_unsigned. rewrite E, app_nil_r. done.
Qed.

Section round_trip.
Context `{CV : Conversions} `{CO : !ConversionsOk}.

(** ** What the encoder writes *)

Definition escape (s : list Z) : list Z :=
  mjoin ((fun c => if (c =? 0x22) || (c =? 0x5C) then [0x5C; c] else [c]) <$> s).

Definition item_text (i : StructuredHeaderItem) : list Z :=
  match tag i, value i with
  | STRING, VString s => [0x22] ++ escape s ++ [0x22]
  | INT64, VInt z => print_int z
  | BOOLEAN, VBool b => [0x3F; if b then 0x31 else 0x30]
  | BINARYCONTENT, VString s => [0x2A] ++ base64Encode s ++ [0x2A]
  | _, _ => []
  end.

(** The items that can be written and read.  Doubles are printed with 15 digits and
    possibly an exponent, and are left out. *)
Definition encodable (i : StructuredHeaderItem) : Prop :=
  match tag i, value i with
  | STRING, VString s => isValidString s = true
  | INT64, VInt z => - 2 ^ 63 <= z < 2 ^ 63
  | BOOLEAN, VBool _ => True
  | BINARYCONTENT, VString s => bytes_ok s
  | _, _ => False
  end.

Lemma andThen_ok m k out out1 : m out = (OK, out1) -> andThen m k out = k out1.
Proof. intros H. unfold andThen. by rewrite H. Qed.

Lemma substr_step input l r c cs : (l <= r)%nat -> drop r input = c :: cs ->
  substr input l (r - l) ++ [c] = substr input l (r + 1 - l).
Proof.
  intros Hl Hd. unfold substr. replace (r + 1 - l)%nat with (S (r - l)) by lia.
  rewrite (take_S_r _ _ c); [done|]. rewrite lookup_drop. replace (l + (r - l))%nat with r by lia.
  rewrite <- (Nat.add_0_r r), <- lookup_drop, Hd. done.
Qed.

(** Writing the string in segments escapes its characters one by one. *)
Lemma escape_loop_spec input cs : forall l r out, (l <= r)%nat -> drop r input = cs ->
  escape_loop input cs l r out = (OK, out ++ substr input l (r - l) ++ escape cs).
Proof.
  induction cs as [|c cs IH]; intros l r out Hl Hd; cbn [escape_loop].
  - assert (Hlen : (length input <= r)%nat).
    { apply (f_equal length) in Hd. rewrite length_drop in Hd. simpl in Hd. lia. }
    unfold substr. unfold escape. simpl. rewrite app_nil_r.
    rewrite (take_ge (drop l input) (r - l)) by (rewrite length_drop; lia).
    destruct (Nat.ltb_spec l r); unfold emit.
    + by rewrite take_ge by (rewrite length_drop; lia).
    + by rewrite (drop_ge input l) by lia.
  - assert (Hd' : drop (r + 1) input = cs) by (rewrite <- drop_drop, Hd; done).
    unfold escape. cbn [fmap list_fmap mjoin list_join]. fold (escape cs).
    destruct ((c =? 0x22) || (c =? 0x5C)).
    + assert (E : (if (l <? r)%nat then andThen (emit (substr input l (r - l))) (emit [0x5C; c])
        else emit [0x5C; c]) out = (OK, out ++ substr input l (r - l) ++ [0x5C; c])).
      { destruct (Nat.ltb_spec l r).
        - erewrite andThen_ok by reflexivity. unfold emit. by rewrite <- app_assoc.
        - unfold emit, substr. by replace (r - l)%nat with 0%nat by lia. }
      rewrite (andThen_ok _ _ _ _ E), IH by (done || lia). rewrite Nat.sub_diag. unfold substr at 2. simpl.
      by rewrite <- !app_assoc.
    + rewrite IH by (done || lia). rewrite <- (substr_step input l r c cs) by done. by rewrite <- !app_assoc.
Qed.

Lemma encodeItem_text i out : encodable i -> encodeItem i out = (OK, out ++ item_text i).
Proof.
  unfold encodable, encodeItem, item_text, itemTypeMatchesContent. destruct i as [[] []]; simpl; try done.
  - intros Hs. unfold encodeString. rewrite Hs. simpl.
    erewrite !andThen_ok by (reflexivity || (apply escape_loop_spec; [lia|done])).
    unfold emit. rewrite Nat.sub_0_r. unfold substr. simpl. by rewrite <- !app_assoc.
  - intros _. unfold encodeBinaryContent. erewrite !andThen_ok by reflexivity. unfold emit. by rewrite <- !app_assoc.
  - intros _. unfold encodeBoolean, emit. by destruct b.
Qed.

(** ** What the decoder reads *)

(** A text behind a number. *)
Definition stops (rest : list Z) : Prop :=
  match rest with [] => True | c :: _ => isdigit c = false /\ c <> 0x2E end.

Lemma number_loop_digits (pos : bool) ds rest : forall input,
  Forall (fun c => isdigit c = true) ds -> stops rest ->
  zlen (input ++ ds) - (if pos then 0 else 1) <= 19 ->
  number_loop pos INT64 input (ds ++ rest) = POk (INT64, input ++ ds) rest.
Proof.
  induction ds as [|c ds IH]; intros input Hd Hr Hz.
  - rewrite app_nil_r. destruct rest as [|c rest]; [done|]. destruct Hr as [Hc Hp]. simpl. rewrite Hc.
    by rewrite (proj2 (Z.eqb_neq c 0x2E)).
  - inversion Hd as [|? ? Hc Hds]; subst. cbn [app number_loop]. rewrite Hc. rewrite bool_decide_eq_true_2 by done.
    assert (Hle : zlen (input ++ [c]) - (if pos then 0 else 1) <= 19).
    { revert Hz. rewrite !zlen_app. unfold zlen. simpl. lia. }
    unfold kMaxValidIntegerLength. destruct (Z.gtb_spec (zlen (input ++ [c]) - (if pos then 0 else 1)) 19);
      [lia|]. simpl. rewrite IH; rewrite <- ?app_assoc; done.
Qed.

#[local] Arguments number_loop : simpl never.

Lemma parse_digits neg ds rest : ds <> [] -> Forall (fun c => isdigit c = true) ds -> zlen ds <= 19 ->
  stops rest -> (let v := if (neg : bool) then - decimal ds else decimal ds in - 2 ^ 63 <= v < 2 ^ 63) ->
  parseNumber ((if neg then [0x2D] else []) ++ ds ++ rest) =
    POk (mkItem INT64 (VInt (if neg then - decimal ds else decimal ds))) rest.
Proof.
  intros Hne Hd Hz Hr Hv. pose proof (lexical_cast_decimal neg ds Hne Hd Hv) as HL.
  destruct ds as [|c ds]; [done|]. inversion Hd as [|? ? Hc Hds]; subst.
  assert (Hcn : c <> 0x2D) by (intros ->; discriminate Hc).
  unfold parseNumber. destruct neg; simpl.
  - rewrite Hc. simpl. rewrite app_comm_cons, (number_loop_digits false (c :: ds) rest [0x2D]).
    + rewrite bool_decide_eq_true_2 by done. unfold parseInteger. by rewrite HL.
    + done.
    + done.
    + rewrite zlen_app. change (zlen [0x2D]) with 1. lia.
  - rewrite (proj2 (Z.eqb_neq c 0x2D)) by done. simpl. rewrite Hc. simpl.
    rewrite app_comm_cons, (number_loop_digits true (c :: ds) rest []).
    + rewrite bool_decide_eq_true_2 by done. unfold parseInteger. by rewrite HL.
    + done.
    + done.
    + simpl. lia.
Qed.

Lemma parse_print_int z rest : - 2 ^ 63 <= z < 2 ^ 63 -> stops rest ->
  parseNumber (print_int z ++ rest) = POk (mkItem INT64 (VInt z)) rest.
Proof.
  intros Hz Hr. unfold print_int. destruct (Z.ltb_spec z 0).
  - destruct (print_unsigned_spec (- z)) as (Hne & Hv & Hd & Hk); [lia|].
    pose proof (parse_digits true (print_unsigned (- z)) rest Hne Hd) as HP. rewrite Hv in HP. simpl in *.
    rewrite HP; [do 3 f_equal; lia|apply Hk; lia|done|lia].
  - destruct (print_unsigned_spec z) as (Hne & Hv & Hd & Hk); [lia|].
    pose proof (parse_digits false (print_unsigned z) rest Hne Hd) as HP. rewrite Hv in HP. simpl in *.
    apply HP; [apply Hk; lia|done|lia].
Qed.

Lemma string_loop_escape s rest : forall acc, isValidString s = true ->
  string_loop acc (escape s ++ 0x22 :: rest) = POk (mkItem STRING (VString (acc ++ s))) rest.
Proof.
  induction s as [|c s IH]; intros acc Hs; [by rewrite app_nil_r|].
  unfold isValidString in Hs. cbn [forallb] in Hs. apply andb_prop in Hs as [Hc Hs].
  unfold escape. cbn [fmap list_fmap mjoin list_join]. fold (escape s). rewrite <- app_assoc.
  replace (acc ++ c :: s) with ((acc ++ [c]) ++ s) by (by rewrite <- app_assoc).
  destruct (Z.eqb_spec c 0x22) as [->|Hq]; [simpl; by apply IH|].
  destruct (Z.eqb_spec c 0x5C) as [->|Hb]; [simpl; by apply IH|].
  simpl. rewrite (proj2 (Z.eqb_neq c 0x5C)), (proj2 (Z.eqb_neq c 0x22)) by done. rewrite Hc. simpl. by apply IH.
Qed.

Lemma binary_chars s : forall e, binary_content_loop s e = true -> forallb isValidEncodedBinaryContentChar s = true.
Proof.
  induction s as [|c s IH]; intros e H; [done|]. simpl in *. destruct (Z.eqb_spec c 0x3D) as [->|Hn].
  - simpl. by apply (IH true).
  - destruct (e || negb (isValidEncodedBinaryContentChar c)) eqn:E; [done|].
    apply orb_false_iff in E as [_ E]. apply negb_false_iff in E. rewrite E. simpl. by apply (IH e).
Qed.

Lemma binary_loop_text s rest : forall acc content, forallb isValidEncodedBinaryContentChar s = true ->
  isValidEncodedBinaryContent (acc ++ s) = true -> base64Decode (acc ++ s) = Some content ->
  binary_loop acc (s ++ 0x2A :: rest) = POk (mkItem BINARYCONTENT (VString content)) rest.
Proof.
  induction s as [|c s IH]; intros acc content Hs HV HD.
  - simpl. rewrite app_nil_r in HV, HD. by rewrite HV, HD.
  - cbn [forallb] in Hs. apply andb_prop in Hs as [Hc Hs]. cbn [app binary_loop].
    destruct (Z.eqb_spec c 0x2A) as [->|_]; [discriminate Hc|]. rewrite Hc. cbn [negb].
    apply IH; try done; by rewrite <- app_assoc.
Qed.

Lemma skip_head c l : c <> 0x20 -> c <> 0x09 -> skip_whitespace (c :: l) = c :: l.
Proof. intros H1 H2. simpl. by rewrite (proj2 (Z.eqb_neq c 0x20)), (proj2 (Z.eqb_neq c 0x09)). Qed.

Lemma digit_range c : isdigit c = true -> 0x30 <= c <= 0x39.
Proof. unfold isdigit. intros [H1%Z.leb_le H2%Z.leb_le]%andb_prop. lia. Qed.

(** What starts an item. *)
Lemma item_text_head i : encodable i -> exists c l, item_text i = c :: l /\ c <> 0x20 /\ c <> 0x09.
Proof.
  unfold encodable, item_text. destruct i as [[] []]; simpl; try done.
  - intros _. by eexists 0x22, _.
  - intros _. by eexists 0x2A, _.
  - intros Hz. unfold print_int. destruct (Z.ltb_spec z 0); [by eexists 0x2D, _|].
    destruct (print_unsigned_spec z) as (Hne & _ & Hd & _); [lia|].
    destruct (print_unsigned z) as [|c l]; [done|]. inversion Hd as [|? ? Hc _]; subst.
    apply digit_range in Hc. exists c, l. split_and!; (done || lia).
  - intros _. by eexists 0x3F, _.
Qed.

(** What may follow an item: a number ends before it, and nothing follows a
    boolean. *)
Definition follows (i : StructuredHeaderItem) (rest : list Z) : Prop :=
  stops rest /\ (tag i = BOOLEAN -> rest = []).

Lemma parse_item_text i rest : encodable i -> follows i rest ->
  parseItem (item_text i ++ rest) = POk i rest.
Proof.
  intros Hi [Hr Hb]. destruct (item_text_head i Hi) as (c & l & E & H1 & H2).
  assert (HS : skip_whitespace (item_text i ++ rest) = item_text i ++ rest).
  { rewrite E. by apply skip_head. }
  unfold parseItem. rewrite HS. revert E. unfold encodable in Hi. unfold item_text in *.
  destruct i as [[] []]; simpl in *; try done.
  - intros _. rewrite <- app_assoc. simpl. by apply string_loop_escape.
  - intros _. rewrite <- app_assoc. simpl. pose proof (base64_valid s Hi) as HV.
    apply (binary_loop_text _ rest []); [|done|by apply base64_inverse].
    unfold isValidEncodedBinaryContent in HV. destruct (negb _); [done|]. by apply (binary_chars _ false).
  - intros E. pose proof (parse_print_int z rest Hi Hr) as HP. rewrite E in *. simpl in *.
    assert (Hc : isdigit c || (c =? 0x2D) = true).
    { revert E. unfold print_int. destruct (Z.ltb_spec z 0); [by intros [= <- _]|].
      destruct (print_unsigned_spec z) as (_ & _ & Hd & _); [lia|]. intros E. rewrite E in Hd.
      inversion Hd as [|? ? Hc _]; subst. by rewrite Hc. }
    assert (Hn : c <> 0x22 /\ c <> 0x2A).
    { split; intros ->; discriminate Hc. }
    rewrite (proj2 (Z.eqb_neq c 0x22)), (proj2 (Z.eqb_neq c 0x2A)), Hc by apply Hn. done.
  - intros _. rewrite Hb by done. unfold parseBoolean. simpl. by destruct b.
Qed.

Lemma decode_item_text i : encodable i -> decodeItem (item_text i) = POk i [].
Proof.
  intros Hi. unfold decodeItem. rewrite <- (app_nil_r (item_text i)) at 1.
  by rewrite (pbind_ok _ _ _ i []) by (apply parse_item_text; [done|by split]).
Qed.

(** ** Lists *)

(** The texts with [", "] between them. *)
Fixpoint separated (texts : list (list Z)) : list Z :=
  match texts with
  | [] => []
  | [t] => t
  | t :: texts => t ++ [0x2C; 0x20] ++ separated texts
  end.

Lemma encode_separated_text {A} (f : A -> output) (text : A -> list Z) l :
  (forall a out, a ∈ l -> f a out = (OK, out ++ text a)) ->
  forall out, encode_separated f l out = (OK, out ++ separated (text <$> l)).
Proof.
  induction l as [|a l IH]; intros Hf out; [done|]. destruct l as [|b l].
  - apply Hf. left.
  - cbn [encode_separated]. erewrite andThen_ok by (apply Hf; left).
    erewrite andThen_ok by reflexivity. rewrite IH by (intros; apply Hf; by right).
    cbn [fmap list_fmap separated]. by rewrite <- !app_assoc.
Qed.

(** Only the last item may be a boolean. *)
Definition booleans_last (l : list StructuredHeaderItem) : Prop :=
  Forall (fun i => tag i <> BOOLEAN) (removelast l).

Lemma comma_follows i rest : tag i <> BOOLEAN -> follows i (0x2C :: rest).
Proof. intros H. split; [by split|done]. Qed.

Lemma text_not_empty i rest : encodable i -> bool_decide (item_text i ++ rest = []) = false.
Proof. intros Hi. destruct (item_text_head i Hi) as (c & l & -> & _). by apply bool_decide_eq_false_2. Qed.

Lemma list_loop_text l : forall fuel acc, l <> [] -> Forall encodable l -> booleans_last l ->
  (length l <= fuel)%nat ->
  list_loop fuel acc (separated (item_text <$> l)) = POk (acc ++ l) [].
Proof.
  induction l as [|i l IH]; intros fuel acc Hne He Hb Hf; [done|].
  inversion He as [|? ? Hi Hl]; subst. destruct fuel as [|fuel]; [simpl in Hf; lia|].
  cbn [list_loop]. destruct l as [|j l].
  - simpl. pose proof (text_not_empty i [] Hi) as Hte. rewrite app_nil_r in Hte.
    erewrite (pbind_ok isEmpty) by reflexivity. rewrite Hte.
    erewrite pbind_ok by (rewrite <- (app_nil_r (item_text i)); apply parse_item_text; [done|by split]).
    erewrite !pbind_ok by reflexivity. done.
  - inversion Hb as [|? ? Hbi Hbl]; subst.
    change (separated (item_text <$> i :: j :: l)) with
      (item_text i ++ 0x2C :: 0x20 :: separated (item_text <$> j :: l)).
    inversion Hl as [|? ? Hj _]; subst. destruct (item_text_head j Hj) as (c & t & E & H1 & H2).
    assert (HS : exists t', separated (item_text <$> j :: l) = c :: t').
    { cbn [fmap list_fmap separated]. destruct l; [by eexists|]. cbn [fmap list_fmap]. rewrite E. by eexists. }
    destruct HS as [t' HS].
    erewrite (pbind_ok isEmpty) by reflexivity. rewrite text_not_empty by done.
    erewrite pbind_ok by (apply parse_item_text; [done|by apply comma_follows]).
    erewrite (pbind_ok removeOptionalWhitespace) by reflexivity.
    erewrite (pbind_ok isEmpty) by reflexivity. rewrite skip_head by done.
    rewrite bool_decide_eq_false_2 by done. erewrite (pbind_ok (removeSymbol _)) by reflexivity.
    erewrite (pbind_ok removeOptionalWhitespace) by reflexivity.
    change (skip_whitespace (0x20 :: separated (item_text <$> j :: l)))
      with (skip_whitespace (separated (item_text <$> j :: l))).
    rewrite HS, skip_head, <- HS by done. erewrite (pbind_ok isEmpty) by reflexivity.
    rewrite bool_decide_eq_false_2 by (by rewrite HS).
    rewrite IH by (done || (simpl in *; lia)). by rewrite <- app_assoc.
Qed.

Lemma separated_length l : Forall encodable l -> (length l <= length (separated (item_text <$> l)))%nat.
Proof.
  induction l as [|i l IH]; intros He; [done|]. inversion He as [|? ? Hi Hl]; subst. specialize (IH Hl).
  destruct (item_text_head i Hi) as (c & t & E & _). destruct l as [|j l]; cbn [fmap list_fmap separated] in *.
  - rewrite E. simpl. lia.
  - rewrite !length_app. rewrite E. simpl in *. lia.
Qed.

(** ** Dictionaries and parameters *)

Definition entry_text (e : list Z * StructuredHeaderItem) : list Z :=
  fst e ++ (if skipBoolean (snd e) then [] else 0x3D :: item_text (snd e)).

Definition encodable_entry (e : list Z * StructuredHeaderItem) : Prop :=
  isValidIdentifier (fst e) = true /\ encodable (snd e).

Lemma encodable_typed i : encodable i -> itemTypeMatchesContent i = true /\ tag i <> NONE.
Proof. unfold encodable, itemTypeMatchesContent. by destruct i as [[] []]. Qed.

Lemma encodeEntry_text e out : encodable_entry e -> encodeEntry e out = (OK, out ++ entry_text e).
Proof.
  intros [Hk Hv]. destruct e as [k v]. unfold encodeEntry, encodeIdentifier, entry_text. simpl in *. rewrite Hk.
  erewrite andThen_ok by reflexivity. rewrite (proj1 (encodable_typed v Hv)). simpl.
  destruct (skipBoolean v); simpl; [unfold emit; by rewrite !app_nil_r|].
  erewrite andThen_ok by reflexivity. rewrite encodeItem_text by done. by rewrite <- !app_assoc.
Qed.

Lemma encodeParameter_text e out : encodable_entry e ->
  encodeParameter e out = (OK, out ++ [0x3B; 0x20] ++ entry_text e).
Proof.
  intros [Hk Hv]. destruct e as [k v]. unfold encodeParameter, encodeIdentifier, entry_text. simpl in *.
  rewrite Hk. erewrite !andThen_ok by reflexivity. destruct (encodable_typed v Hv) as [Ht Hn].
  rewrite bool_decide_eq_false_2 by done. rewrite Ht. simpl.
  destruct (skipBoolean v); simpl; [unfold emit; by rewrite !app_nil_r, <- app_assoc|].
  erewrite andThen_ok by reflexivity. rewrite encodeItem_text by done. unfold emit. by rewrite <- !app_assoc.
Qed.

(** A text behind an identifier. *)
Definition ends_identifier (rest : list Z) : Prop :=
  match rest with [] => True | c :: _ => isValidIdentifierChar c = false end.

Lemma identifier_loop_text s rest : forall acc, forallb isValidIdentifierChar s = true -> ends_identifier rest ->
  identifier_loop acc (s ++ rest) = (acc ++ s, rest).
Proof.
  induction s as [|c s IH]; intros acc Hs Hr.
  - rewrite app_nil_r. destruct rest as [|c rest]; [done|]. simpl in *. by rewrite Hr.
  - cbn [forallb] in Hs. apply andb_prop in Hs as [Hc Hs]. simpl. rewrite Hc. simpl.
    rewrite IH by done. by rewrite <- app_assoc.
Qed.

Lemma parse_identifier_text k rest : isValidIdentifier k = true -> ends_identifier rest ->
  parseIdentifier (k ++ rest) = POk k rest.
Proof.
  intros Hk Hr. destruct k as [|c k]; [done|]. simpl in Hk. apply andb_prop in Hk as [Hc Hk].
  unfold parseIdentifier. cbn [app]. rewrite Hc. cbn [negb].
  rewrite (app_comm_cons k rest c), identifier_loop_text by done. done.
Qed.

Lemma identifier_head k : isValidIdentifier k = true -> exists c t, k = c :: t /\ c <> 0x20 /\ c <> 0x09.
Proof.
  destruct k as [|c k]; [done|]. simpl. intros [Hc _]%andb_prop.
  unfold isLcAlpha in Hc. apply andb_prop in Hc as [H1%Z.leb_le H2%Z.leb_le]. exists c, k. split_and!; (done || lia).
Qed.

(** What may follow an entry: a comma, a semicolon or nothing, and nothing behind the
    boolean [false]. *)
Definition entry_follows (v : StructuredHeaderItem) (rest : list Z) : Prop :=
  (rest = [] \/ exists c t, rest = c :: t /\ (c = 0x2C \/ c = 0x3B)) /\
  (tag v = BOOLEAN -> skipBoolean v = false -> rest = []).

Lemma skipBoolean_value v : encodable v -> skipBoolean v = true -> v = mkItem BOOLEAN (VBool true).
Proof. unfold encodable, skipBoolean. destruct v as [[] [[]| | |]]; simpl; done. Qed.

Lemma parse_entry k v rest : encodable_entry (k, v) -> entry_follows v rest ->
  parseIdentifier (entry_text (k, v) ++ rest) =
    POk k ((if skipBoolean v then [] else 0x3D :: item_text v) ++ rest) /\
  parseValue ((if skipBoolean v then [] else 0x3D :: item_text v) ++ rest) = POk v rest.
Proof.
  intros [Hk Hv] [Hr Hb]. simpl in *.
  assert (Hs : stops rest /\ ends_identifier rest /\ startsWith [0x3D] rest = None).
  { destruct Hr as [-> | (c & t & -> & [-> | ->])]; done. }
  destruct Hs as (Hs & Hid & Heq). split.
  - unfold entry_text. simpl. rewrite <- app_assoc. apply parse_identifier_text; [done|].
    by destruct (skipBoolean v).
  - destruct (skipBoolean v) eqn:Es.
    + rewrite (skipBoolean_value v Hv Es). unfold parseValue, trySymbol, mbind, parser_bind. simpl app.
      by rewrite Heq.
    + unfold parseValue. erewrite pbind_ok by reflexivity. apply parse_item_text; [done|].
      split; [done|]. intros Ht. by apply Hb.
Qed.

(** The entries of a map behind its first one, and what ends the map. *)
Definition map_tail (mt : MapType) (l : list (list Z * StructuredHeaderItem)) (rest : list Z) : list Z :=
  mjoin ((fun e => delimiter mt ++ [0x20] ++ entry_text e) <$> l) ++ rest.

Lemma map_tail_cons mt e l rest :
  map_tail mt (e :: l) rest = delimiter mt ++ [0x20] ++ entry_text e ++ map_tail mt l rest.
Proof. unfold map_tail. cbn [fmap list_fmap mjoin list_join]. by rewrite <- !app_assoc. Qed.

(** Nothing behind a dictionary; nothing or a comma behind parameters. *)
Definition ends_map (mt : MapType) (rest : list Z) : Prop :=
  rest = [] \/ mt = PARAMETERISED_MAP /\ exists t, rest = 0x2C :: t.

Definition is_false (e : list Z * StructuredHeaderItem) : Prop :=
  tag (snd e) = BOOLEAN /\ skipBoolean (snd e) = false.

(** Only the last entry may be [false], and only if nothing follows the map. *)
Definition false_last (l : list (list Z * StructuredHeaderItem)) (rest : list Z) : Prop :=
  Forall (fun e => ~ is_false e) (if decide (rest = []) then removelast l else l).

Lemma map_tail_follows mt l rest v : ends_map mt rest ->
  (l <> [] \/ rest <> [] -> ~ (tag v = BOOLEAN /\ skipBoolean v = false)) ->
  entry_follows v (map_tail mt l rest).
Proof.
  intros He Hf. split.
  - destruct l as [|e l].
    + unfold map_tail. simpl. destruct He as [-> | [-> [t ->]]]; [by left|right; by eexists _, _; split; [|left]].
    + right. unfold map_tail. simpl. destruct mt; simpl; eexists _, _; (split; [reflexivity|tauto]).
  - intros Ht Hs. destruct l as [|e l]; [|exfalso; apply Hf; [by left|done]].
    unfold map_tail. simpl. destruct rest; [done|]. exfalso. apply Hf; [by right|done].
Qed.

Lemma false_last_cons e l rest : false_last (e :: l) rest ->
  (l <> [] \/ rest <> [] -> ~ is_false e) /\ false_last l rest.
Proof.
  unfold false_last. case_decide as Hr; [subst rest; destruct l as [|e' l]|].
  - intros _. split; [by intros []|constructor].
  - intros H. inversion H; subst. by split.
  - intros H. inversion H; subst. by split.
Qed.

(** One round of [map_loop]. *)
Lemma map_loop_entry (mt : MapType) (fuel : nat) (acc : gmap (list Z) StructuredHeaderItem) k v ws tail :
  encodable_entry (k, v) -> acc !! k = None -> entry_follows v tail -> (ws = [] \/ ws = [0x20]) ->
  map_loop (S fuel) acc mt (ws ++ entry_text (k, v) ++ tail) =
    if bool_decide (tail = []) then POk (<[k := v]> acc) []
    else match startsWith (delimiter mt) tail with
    | Some l => map_loop fuel (<[k := v]> acc) mt l
    | None => if bool_decide (mt = DICTIONARY) then PErr INVALID_CHARACTER else POk (<[k := v]> acc) tail
    end.
Proof.
  intros Hkv Hacc Hfo Hws. destruct (parse_entry k v _ Hkv Hfo) as [HP HV].
  destruct (identifier_head k (proj1 Hkv)) as (c & t & Ek & Hc1 & Hc2). cbn [map_loop].
  assert (Eh : exists t', entry_text (k, v) ++ tail = c :: t') by (unfold entry_text; simpl; rewrite Ek; by eexists).
  destruct Eh as [t' Eh].
  assert (HS : skip_whitespace (ws ++ entry_text (k, v) ++ tail) = entry_text (k, v) ++ tail).
  { rewrite Eh. destruct Hws as [-> | ->]; [by apply skip_head|]. exact (skip_head c t' Hc1 Hc2). }
  erewrite (pbind_ok isEmpty) by reflexivity. rewrite bool_decide_eq_false_2 by (rewrite Eh; by destruct ws).
  erewrite (pbind_ok removeOptionalWhitespace) by reflexivity. rewrite HS. rewrite (pbind_ok _ _ _ _ _ HP).
  rewrite bool_decide_eq_false_2 by (intros [x Hx]; change (acc !! k = Some x) in Hx; by rewrite Hacc in Hx).
  rewrite (pbind_ok _ _ _ _ _ HV).
  erewrite (pbind_ok isEmpty) by reflexivity. destruct Hfo as [[-> | (d & t2 & -> & Hd)] _]; [done|].
  rewrite bool_decide_eq_false_2 by done. erewrite (pbind_ok removeOptionalWhitespace) by reflexivity.
  rewrite skip_head by (destruct Hd as [-> | ->]; done). unfold trySymbol, mbind, parser_bind.
  destruct (startsWith (delimiter mt) (d :: t2)); [done|]. by destruct mt.
Qed.

Lemma map_loop_text (mt : MapType) l : forall (fuel : nat) (acc : gmap (list Z) StructuredHeaderItem) k v ws rest,
  encodable_entry (k, v) -> Forall encodable_entry l -> NoDup (k :: l.*1) ->
  (forall k', k' ∈ k :: l.*1 -> acc !! k' = None) -> ends_map mt rest -> false_last ((k, v) :: l) rest ->
  (ws = [] \/ ws = [0x20]) -> (length l < fuel)%nat ->
  map_loop fuel acc mt (ws ++ entry_text (k, v) ++ map_tail mt l rest) =
    POk ((list_to_map ((k, v) :: l) : gmap (list Z) StructuredHeaderItem) ∪ acc) rest.
Proof.
  induction l as [|[k' v'] l IH]; intros fuel acc k v ws rest Hkv Hl Hnd Hacc He Hf Hws Hfu;
    (destruct fuel as [|fuel]; [simpl in Hfu; lia|]);
    destruct (false_last_cons _ _ _ Hf) as [Hf1 Hf2];
    pose proof (map_tail_follows mt _ rest v He Hf1) as Hfo;
    (rewrite map_loop_entry by (done || (apply Hacc; left))).
  - assert (Em : <[k:=v]> acc = <[k:=v]> ∅ ∪ acc) by (by rewrite insert_empty, insert_union_singleton_l).
    unfold map_tail. simpl. destruct He as [-> | [-> [t' ->]]]; simpl; by rewrite Em.
  - assert (Ed : exists d, delimiter mt = [d]) by (destruct mt; by eexists). destruct Ed as [d Ed].
    rewrite map_tail_cons, Ed, bool_decide_eq_false_2 by done. cbn [app startsWith]. rewrite Z.eqb_refl.
    inversion Hl as [|? ? Hkv' Hl']; subst. apply NoDup_cons in Hnd as [Hnk Hnd'].
    change (0x20 :: entry_text (k', v') ++ map_tail mt l rest) with
      ([0x20] ++ entry_text (k', v') ++ map_tail mt l rest).
    rewrite IH; try done; [|intros k2 Hk2|by right|simpl in Hfu; lia].
    + f_equal. change (list_to_map ((k, v) :: (k', v') :: l) : gmap (list Z) StructuredHeaderItem)
        with (<[k := v]> (list_to_map ((k', v') :: l) : gmap (list Z) StructuredHeaderItem)).
      rewrite <- insert_union_l, insert_union_r; [done|]. apply not_elem_of_list_to_map_1. done.
    + rewrite lookup_insert_ne; [apply Hacc; by right|]. intros ->. done.
Qed.

Lemma separated_entries e l : separated (entry_text <$> e :: l) = entry_text e ++ map_tail DICTIONARY l [].
Proof.
  revert e. induction l as [|e' l IH]; intros e.
  - unfold map_tail. simpl. by rewrite app_nil_r.
  - change (separated (entry_text <$> e :: e' :: l)) with
      (entry_text e ++ [0x2C; 0x20] ++ separated (entry_text <$> e' :: l)).
    rewrite IH, map_tail_cons. done.
Qed.

Lemma entry_text_length e l mt rest : encodable_entry e ->
  (length l < length (entry_text e ++ map_tail mt l rest))%nat.
Proof.
  intros [Hk _]. destruct (identifier_head _ Hk) as (c & t & Ek & _). rewrite length_app.
  enough (length l <= length (map_tail mt l rest))%nat by (unfold entry_text; rewrite Ek; simpl; lia).
  induction l as [|e' l IH]; [simpl; lia|]. rewrite map_tail_cons, !length_app. simpl. lia.
Qed.

Lemma dictionary_text l : l <> [] -> Forall encodable_entry l -> NoDup l.*1 -> false_last l [] ->
  (forall out, encodeDictionary l out = (OK, out ++ separated (entry_text <$> l))) /\
  decodeDictionary (separated (entry_text <$> l)) = POk (list_to_map l) [].
Proof.
  intros Hne He Hnd Hf. split.
  - intros out. destruct l as [|e l]; [done|]. apply encode_separated_text.
    intros a out' Ha. apply encodeEntry_text. by eapply Forall_forall.
  - destruct l as [|[k v] l]; [done|]. inversion He as [|? ? Hkv Hl]; subst. rewrite separated_entries.
    unfold decodeDictionary, decodeMap. destruct (identifier_head k (proj1 Hkv)) as (c & t & Ek & Hc1 & Hc2).
    assert (HS : skip_whitespace (entry_text (k, v) ++ map_tail DICTIONARY l []) =
      entry_text (k, v) ++ map_tail DICTIONARY l []).
    { unfold entry_text. simpl. rewrite Ek. by apply skip_head. }
    rewrite HS. pose proof (entry_text_length (k, v) l DICTIONARY [] Hkv) as Hlen.
    pose proof (map_loop_text DICTIONARY l (S (length (entry_text (k, v) ++ map_tail DICTIONARY l []))) ∅ k v [] []) as HM.
    rewrite map_union_empty in HM. apply HM; try done; [by left|by left|lia].
Qed.

(** A parameterised identifier. *)
Definition parameterised_text (p : list Z * list (list Z * StructuredHeaderItem)) : list Z :=
  fst p ++ map_tail PARAMETERISED_MAP (snd p) [].

Definition encodable_parameterised (p : list Z * list (list Z * StructuredHeaderItem)) : Prop :=
  isValidIdentifier (fst p) = true /\ Forall encodable_entry (snd p) /\ NoDup (snd p).*1.

Lemma encodeParameters_text l out : Forall encodable_entry l ->
  encodeParameters l out = (OK, out ++ map_tail PARAMETERISED_MAP l []).
Proof.
  revert out. induction l as [|e l IH]; intros out He; [done|]. inversion He; subst. cbn [encodeParameters].
  erewrite andThen_ok by (by apply encodeParameter_text). rewrite IH by done. rewrite map_tail_cons.
  by rewrite <- !app_assoc.
Qed.

Lemma encodeParameterised_text p out : encodable_parameterised p ->
  encodeParameterised p out = (OK, out ++ parameterised_text p).
Proof.
  intros (Hk & He & _). unfold encodeParameterised, encodeIdentifier, parameterised_text. rewrite Hk.
  erewrite andThen_ok by reflexivity. rewrite encodeParameters_text by done. by rewrite <- app_assoc.
Qed.

Lemma map_tail_app mt l rest : map_tail mt l [] ++ rest = map_tail mt l rest.
Proof. unfold map_tail. by rewrite app_nil_r. Qed.

(** The parameters of one identifier, with what follows it. *)
Lemma decode_parameters l rest : Forall encodable_entry l -> NoDup l.*1 -> ends_map PARAMETERISED_MAP rest ->
  false_last l rest ->
  decodeMap PARAMETERISED_MAP (map_tail PARAMETERISED_MAP l rest) = POk (list_to_map l) rest.
Proof.
  intros He Hnd Hr Hf. unfold decodeMap. destruct l as [|[k v] l].
  - unfold map_tail. simpl. destruct Hr as [-> | [_ [t ->]]]; done.
  - inversion He as [|? ? Hkv Hl]; subst. rewrite map_tail_cons. cbn [delimiter app].
    rewrite skip_head by done. cbn [startsWith]. rewrite Z.eqb_refl.
    pose proof (entry_text_length (k, v) l PARAMETERISED_MAP rest Hkv) as Hlen.
    pose proof (map_loop_text PARAMETERISED_MAP l
      (S (length (0x20 :: entry_text (k, v) ++ map_tail PARAMETERISED_MAP l rest))) ∅ k v [0x20] rest) as HM.
    rewrite map_union_empty in HM. apply HM; try done; [by right|simpl; lia].
Qed.

Definition parameterised (p : list Z * list (list Z * StructuredHeaderItem)) : ParameterisedIdentifier :=
  mkParameterised (fst p) (list_to_map (snd p)).

(** [false] only as the last parameter of the last identifier. *)
Fixpoint parameters_false_last (l : list (list Z * list (list Z * StructuredHeaderItem))) : Prop :=
  match l with
  | [] => True
  | [p] => false_last (snd p) []
  | p :: l => Forall (fun e => ~ is_false e) (snd p) /\ parameters_false_last l
  end.

Lemma parameterised_loop_text l : forall fuel acc, l <> [] -> Forall encodable_parameterised l ->
  parameters_false_last l -> (length l <= fuel)%nat ->
  parameterised_loop fuel acc (separated (parameterised_text <$> l)) = POk (acc ++ (parameterised <$> l)) [].
Proof.
  induction l as [|p l IH]; intros fuel acc Hne He Hf Hfu; [done|].
  destruct fuel as [|fuel]; [simpl in Hfu; lia|]. inversion He as [|? ? Hp Hl]; subst.
  pose proof Hp as (Hk & Hpe & Hnd). destruct (identifier_head _ Hk) as (c & t & Ek & Hc1 & Hc2).
  assert (Et : exists tl, separated (parameterised_text <$> p :: l) = fst p ++ map_tail PARAMETERISED_MAP (snd p) tl /\
    ends_map PARAMETERISED_MAP tl /\ false_last (snd p) tl /\
    (l = [] -> tl = []) /\ (l <> [] -> tl = 0x2C :: 0x20 :: separated (parameterised_text <$> l))).
  { destruct l as [|q l].
    - exists []. split; [done|]. split; [by left|]. split_and!; done.
    - exists (0x2C :: 0x20 :: separated (parameterised_text <$> q :: l)). split.
      + change (separated (parameterised_text <$> p :: q :: l)) with
          (parameterised_text p ++ [0x2C; 0x20] ++ separated (parameterised_text <$> q :: l)).
        unfold parameterised_text at 1. by rewrite <- app_assoc, map_tail_app.
      + split; [right; split; [done|by eexists]|]. split; [|by split]. unfold false_last.
        rewrite decide_False by done. apply Hf. }
  destruct Et as (tl & -> & Hem & Hfl & Htl0 & Htl). cbn [parameterised_loop].
  assert (Hi : ends_identifier (map_tail PARAMETERISED_MAP (snd p) tl) /\
    skip_whitespace (map_tail PARAMETERISED_MAP (snd p) tl) = map_tail PARAMETERISED_MAP (snd p) tl).
  { destruct (snd p); [|by rewrite map_tail_cons]. unfold map_tail. simpl.
    destruct Hem as [-> | [_ [t' ->]]]; done. }
  destruct Hi as [Hi HS]. erewrite (pbind_ok isEmpty) by reflexivity.
  rewrite bool_decide_eq_false_2 by (by rewrite Ek).
  erewrite pbind_ok by (by apply parse_identifier_text).
  erewrite (pbind_ok removeOptionalWhitespace) by reflexivity. rewrite HS.
  erewrite pbind_ok by (by apply decode_parameters).
  erewrite (pbind_ok removeOptionalWhitespace) by reflexivity. destruct l as [|q l].
  - rewrite Htl0 by done. by erewrite (pbind_ok isEmpty) by reflexivity.
  - rewrite Htl by done. rewrite skip_head by done. erewrite (pbind_ok isEmpty) by reflexivity.
    rewrite bool_decide_eq_false_2 by done. erewrite (pbind_ok (removeSymbol _)) by reflexivity.
    erewrite (pbind_ok removeOptionalWhitespace) by reflexivity.
    inversion Hl as [|? ? [Hq _] _]; subst. destruct (identifier_head _ Hq) as (c' & t' & Eq & Hq1 & Hq2).
    assert (HS' : skip_whitespace (0x20 :: separated (parameterised_text <$> q :: l)) =
      separated (parameterised_text <$> q :: l)).
    { assert (Eh : exists t2, separated (parameterised_text <$> q :: l) = c' :: t2).
      { unfold parameterised_text. cbn [fmap list_fmap separated]. rewrite Eq.
        destruct l; cbn [fmap list_fmap]; by eexists. }
      destruct Eh as [t2 ->]. exact (skip_head c' t2 Hq1 Hq2). }
    rewrite HS', IH; [by rewrite <- app_assoc|done|done|apply Hf|simpl in *; lia].
Qed.

Lemma parameterised_length l : Forall encodable_parameterised l ->
  (length l <= length (separated (parameterised_text <$> l)))%nat.
Proof.
  induction l as [|p l IH]; intros He; [done|]. inversion He as [|? ? [Hk _] Hl]; subst. specialize (IH Hl).
  destruct (identifier_head _ Hk) as (c & t & Ek & _).
  destruct l as [|q l]; cbn [fmap list_fmap separated] in *; unfold parameterised_text at 1; rewrite Ek.
  - simpl. lia.
  - rewrite !length_app. simpl in *. lia.
Qed.

End round_trip.

Section totality.
Context `{CV : Conversions}.

(** ** Decoding returns *)

(** A result: the content, which has become shorter ([strict]) or not longer, or an
    error. *)
Definition returns {A} (strict : bool) (l : list Z) (r : presult DecodeError A) : Prop :=
  match r with
  | POk _ rest => if strict then (length rest < length l)%nat else (length rest <= length l)%nat
  | PErr _ => True
  | PThrow | PLoop => False
  end.

Lemma returns_bind {A B} (p : parser DecodeError A) (k : A -> parser DecodeError B) s1 s2 l :
  returns s1 l (p l) ->
  (forall a r, (if s1 then length r < length l else length r <= length l)%nat -> returns s2 r (k a r)) ->
  returns (s1 || s2) l ((p ≫= k) l).
Proof.
  intros Hp Hk. unfold mbind, parser_bind. destruct (p l) as [a r|e| |]; try done.
  specialize (Hk a r). destruct s1, s2; simpl in *; destruct (k a r); simpl in *; try done;
    specialize (Hk ltac:(lia)); lia.
Qed.

Lemma returns_weaken {A} s l (r : presult DecodeError A) : returns s l r -> returns false l r.
Proof. destruct r, s; simpl; try lia; done. Qed.

Lemma skip_length l : (length (skip_whitespace l) <= length l)%nat.
Proof. induction l as [|c l IH]; simpl; [done|]. destruct (_ || _); simpl; lia. Qed.

Lemma startsWith_length s l r : startsWith s l = Some r -> length l = (length s + length r)%nat.
Proof.
  revert l. induction s as [|c s IH]; intros l H; [by injection H as ->|].
  destruct l as [|c' l]; [done|]. simpl in H. destruct (c =? c'); [|done]. simpl. by rewrite (IH _ H).
Qed.

Lemma number_loop_returns pos type input l : returns false l (number_loop pos type input l).
Proof.
  revert type input. induction l as [|c l IH]; intros type input; [simpl; lia|]. cbn [number_loop].
  assert (W : forall r : presult DecodeError (Tag * list Z), returns false l r -> returns false (c :: l) r).
  { intros [] H; simpl in *; try lia; done. }
  repeat case_match; try done; simpl; try lia; apply W, IH.
Qed.

Lemma number_loop_strict pos type input c l : isdigit c = true ->
  returns true (c :: l) (number_loop pos type input (c :: l)).
Proof.
  intros Hc. cbn [number_loop]. rewrite Hc. pose proof (number_loop_returns pos type (input ++ [c]) l) as H.
  destruct (number_loop pos type (input ++ [c]) l) as [? r| | |]; repeat case_match; simpl in *; try lia; done.
Qed.

#[local] Arguments number_loop : simpl never.

Lemma number_result_returns l r : returns true l r ->
  returns true l match r with
    | POk (type, input) l =>
        if bool_decide (type = INT64) then parseInteger input l
        else if bool_decide (last input = Some 0x2E) then PErr INVALID_CHARACTER
        else parseFloat input l
    | PErr e => PErr e
    | PThrow => PThrow
    | PLoop => PLoop
    end.
Proof.
  intros H. destruct r as [[type input] r| | |]; try done. unfold parseInteger, parseFloat.
  repeat case_match; done.
Qed.

Lemma parseNumber_returns c l : isdigit c || (c =? 0x2D) = true -> returns true (c :: l) (parseNumber (c :: l)).
Proof.
  intros Hc. unfold parseNumber. destruct (Z.eqb_spec c 0x2D) as [->|Hn]; simpl.
  - destruct l as [|c' l]; [done|]. destruct (isdigit c') eqn:E; [|done]. simpl. apply number_result_returns.
    pose proof (number_loop_strict false INT64 [0x2D] c' l E) as H.
    destruct (number_loop _ _ _ _); simpl in *; try lia; done.
  - rewrite orb_false_r in Hc. rewrite Hc. simpl. by apply number_result_returns, number_loop_strict.
Qed.

Lemma binary_loop_returns l : forall acc, returns true l (binary_loop acc l).
Proof.
  induction l as [|c l IH]; intros acc; [done|]. cbn [binary_loop]. repeat case_match; simpl; try done; try lia.
  specialize (IH (acc ++ [c])). destruct (binary_loop _ _); simpl in *; try lia; done.
Qed.

Lemma string_loop_returns n : forall l acc, (length l <= n)%nat -> returns true l (string_loop acc l).
Proof.
  induction n as [|n IH]; intros [|c l] acc Hl; simpl in Hl; try done; try lia. cbn [string_loop].
  destruct (c =? 0x5C).
  - destruct l as [|c' l]; [done|]. destruct (_ && _); [done|].
    specialize (IH l (acc ++ [c']) ltac:(simpl in Hl; lia)). destruct (string_loop _ _); simpl in *; try lia; done.
  - destruct (c =? 0x22); [simpl; lia|]. destruct (negb _); [done|].
    specialize (IH l (acc ++ [c]) ltac:(lia)). destruct (string_loop _ _); simpl in *; try lia; done.
Qed.

Lemma parseItem_returns l : returns true l (parseItem l).
Proof.
  unfold parseItem. pose proof (skip_length l) as Hs. destruct (skip_whitespace l) as [|c l']; [done|].
  assert (W : forall r : presult DecodeError StructuredHeaderItem, returns true (c :: l') r -> returns true l r).
  { intros [] H; simpl in *; try lia; done. }
  destruct (Z.eqb_spec c 0x22) as [->|_].
  { apply W. unfold parseString. simpl. pose proof (string_loop_returns (length l') l' []) as H.
    destruct (string_loop _ _); simpl in *; try (by apply H); try done; specialize (H ltac:(lia)); lia. }
  destruct (Z.eqb_spec c 0x2A) as [->|_].
  { apply W. unfold parseBinaryContent. simpl. pose proof (binary_loop_returns l' []) as H.
    destruct (binary_loop _ _); simpl in *; try lia; done. }
  destruct (isdigit c || (c =? 0x2D)) eqn:E; [by apply W, parseNumber_returns|].
  destruct (Z.eqb_spec c 0x3F) as [->|_]; [|done]. apply W. unfold parseBoolean. simpl.
  destruct l' as [|b l']; [done|]. destruct (_ && _); [done|]. destruct l'; simpl; [lia|done].
Qed.

Lemma identifier_loop_length l : forall acc, (length (snd (identifier_loop acc l)) <= length l)%nat.
Proof.
  induction l as [|c l IH]; intros acc; [done|]. cbn [identifier_loop]. destruct (negb _); simpl; [lia|].
  specialize (IH (acc ++ [c])). lia.
Qed.

Lemma parseIdentifier_returns l : returns true l (parseIdentifier l).
Proof.
  unfold parseIdentifier. destruct l as [|c l]; [done|]. destruct (isLcAlpha c) eqn:E; [|done]. simpl.
  assert (Hv : isValidIdentifierChar c = true) by (unfold isValidIdentifierChar; by rewrite E).
  rewrite Hv. simpl. pose proof (identifier_loop_length l [c]) as H.
  destruct (identifier_loop [c] l). simpl in *. lia.
Qed.

Lemma isEmpty_returns l : returns false l (isEmpty l).
Proof. simpl. lia. Qed.
Lemma whitespace_returns l : returns false l (removeOptionalWhitespace l).
Proof. simpl. apply skip_length. Qed.
Lemma removeSymbol_returns s l : returns false l (removeSymbol s l).
Proof. unfold removeSymbol. destruct (startsWith s l) eqn:E; [|done]. apply startsWith_length in E. simpl. lia. Qed.
Lemma trySymbol_returns s l : returns false l (trySymbol s l).
Proof. unfold trySymbol. destruct (startsWith s l) eqn:E; simpl; [apply startsWith_length in E|]; lia. Qed.

Lemma parseValue_returns l : returns false l (parseValue l).
Proof.
  unfold parseValue. apply (returns_bind _ _ false false); [apply trySymbol_returns|].
  intros [] r _; [eapply returns_weaken, parseItem_returns|simpl; lia].
Qed.

#[local] Hint Resolve isEmpty_returns whitespace_returns removeSymbol_returns trySymbol_returns parseValue_returns : core.

(** [step] goes to the continuation of a parser that is known to return. *)
Ltac step x := apply (returns_bind _ _ false false); [auto|intros x ? ?; simpl in *].
Ltac eat lem x := apply (returns_bind _ _ true false); [apply lem|intros x ? ?; simpl in *].

Lemma list_loop_returns fuel : forall acc l, (length l < fuel)%nat -> returns false l (list_loop fuel acc l).
Proof.
  induction fuel as [|fuel IH]; intros acc l Hl; [lia|]. cbn [list_loop]. step e1.
  destruct e1; [done|]. eapply (returns_weaken true). eat parseItem_returns i.
  step u1. step e2. destruct e2; [simpl; lia|]. step u2. step u3. step e3. destruct e3; [done|]. apply IH. lia.
Qed.

Lemma map_loop_returns fuel : forall acc mt l, (length l < fuel)%nat -> returns false l (map_loop fuel acc mt l).
Proof.
  induction fuel as [|fuel IH]; intros acc mt l Hl; [lia|]. cbn [map_loop]. step e1.
  destruct e1; [done|]. step u1. eapply (returns_weaken true). eat parseIdentifier_returns k.
  destruct (bool_decide _); [done|]. step v. step e2. destruct e2; [simpl; lia|]. step u2. step f.
  destruct f; [|destruct mt; simpl; [done|lia]]. apply IH. lia.
Qed.

Lemma decodeMap_returns mt l : returns false l (decodeMap mt l).
Proof.
  unfold decodeMap. pose proof (skip_length l) as Hs.
  assert (W : forall l' (r : presult DecodeError Dictionary), (length l' <= length l)%nat ->
    returns false l' r -> returns false l r).
  { intros l' [] H1 H2; simpl in *; try lia; done. }
  destruct mt.
  - apply (W _ _ Hs), map_loop_returns. lia.
  - destruct (startsWith _ _) as [l'|] eqn:E; [|simpl; lia]. apply startsWith_length in E. simpl in E.
    apply (W l'); [lia|]. apply map_loop_returns. lia.
Qed.

Lemma parameterised_loop_returns fuel : forall acc l, (length l < fuel)%nat ->
  returns false l (parameterised_loop fuel acc l).
Proof.
  induction fuel as [|fuel IH]; intros acc l Hl; [lia|]. cbn [parameterised_loop]. step e1.
  destruct e1; [done|]. eapply (returns_weaken true). eat parseIdentifier_returns k.
  step u1. apply (returns_bind _ _ false false); [apply decodeMap_returns|intros m ? ?; simpl in *].
  step u2. step e2. destruct e2; [simpl; lia|]. step u3. step u4. apply IH. lia.
Qed.

End totality.

(** ** Conversions that satisfy the hypotheses *)

Module Base64.

Definition alphabet (i : Z) : Z :=
  if i <? 26 then 0x41 + i
  else if i <? 52 then 0x61 + (i - 26)
  else if i <? 62 then 0x30 + (i - 52)
  else if i =? 62 then 0x2B else 0x2F.

Definition index (c : Z) : Z :=
  if isalpha c then if c <=? 0x5A then c - 0x41 else c - 0x61 + 26
  else if isdigit c then c - 0x30 + 52
  else if c =? 0x2B then 62 else 63.

Fixpoint encode (s : list Z) : list Z :=
  match s with
  | [] => []
  | [a] => [alphabet (a / 4); alphabet (a mod 4 * 16); 0x3D; 0x3D]
  | [a; b] => [alphabet (a / 4); alphabet (a mod 4 * 16 + b / 16); alphabet (b mod 16 * 4); 0x3D]
  | a :: b :: c :: s =>
      alphabet (a / 4) :: alphabet (a mod 4 * 16 + b / 16) :: alphabet (b mod 16 * 4 + c / 64) ::
      alphabet (c mod 64) :: encode s
  end.

Fixpoint decode (s : list Z) : option (list Z) :=
  match s with
  | [] => Some []
  | [a; b; 0x3D; 0x3D] => Some [index a * 4 + index b / 16]
  | [a; b; c; 0x3D] => Some [index a * 4 + index b / 16; index b mod 16 * 16 + index c / 4]
  | a :: b :: c :: d :: s =>
      rest ← decode s;
      Some (index a * 4 + index b / 16 :: index b mod 16 * 16 + index c / 4 ::
            index c mod 4 * 64 + index d :: rest)
  | _ => None
  end.

Lemma alphabet_ok i : 0 <= i < 64 ->
  index (alphabet i) = i /\ isValidEncodedBinaryContentChar (alphabet i) = true /\ alphabet i <> 0x3D.
Proof.
  intros Hi. pose proof (range_forall (fun i => (index (alphabet i) =? i) &&
    isValidEncodedBinaryContentChar (alphabet i) && negb (alphabet i =? 0x3D)) 64 ltac:(vm_compute; reflexivity) i Hi) as H.
  cbv beta in H. apply andb_prop in H as [[H1%Z.eqb_eq H2]%andb_prop H3]. split_and!; try done.
  intros E. by rewrite E in H3.
Qed.

Lemma triple_induction (P : list Z -> Prop) :
  P [] -> (forall a, P [a]) -> (forall a b, P [a; b]) ->
  (forall a b c s, P s -> P (a :: b :: c :: s)) -> forall s, P s.
Proof.
  intros H0 H1 H2 H3 s. enough (P s /\ (forall a, P (a :: s)) /\ (forall a b, P (a :: b :: s))) by tauto.
  induction s as [|c s (IH & IH1 & IH2)]; [tauto|]. split_and!; auto.
Qed.

Lemma decode_encode s : bytes_ok s -> decode (encode s) = Some s.
Proof.
  induction s as [|a|a b|a b c s IH] using triple_induction; intros Hs; [done| | |];
    unfold bytes_ok in *; repeat match goal with H : Forall _ (_ :: _) |- _ => apply Forall_cons in H as [? H] end.
  - cbn [encode decode]. destruct (alphabet_ok (a / 4)) as (E1 & _); [ilia|].
    destruct (alphabet_ok (a mod 4 * 16)) as (E2 & _); [ilia|]. rewrite E1, E2. do 2 f_equal. ilia.
  - destruct (alphabet_ok (a / 4)) as (E1 & _); [ilia|].
    destruct (alphabet_ok (a mod 4 * 16 + b / 16)) as (E2 & _); [ilia|].
    destruct (alphabet_ok (b mod 16 * 4)) as (E3 & _ & N3); [ilia|].
    cbn [encode]. set (x := alphabet (b mod 16 * 4)) in *.
    assert (ED : decode [alphabet (a / 4); alphabet (a mod 4 * 16 + b / 16); x; 0x3D] =
      Some [index (alphabet (a / 4)) * 4 + index (alphabet (a mod 4 * 16 + b / 16)) / 16;
            index (alphabet (a mod 4 * 16 + b / 16)) mod 16 * 16 + index x / 4]).
    { cbn [decode]. repeat case_match; subst; try done; lia. }
    rewrite ED, E1, E2, E3. do 2 f_equal; [ilia|]. f_equal. ilia.
  - destruct (alphabet_ok (a / 4)) as (E1 & _); [ilia|].
    destruct (alphabet_ok (a mod 4 * 16 + b / 16)) as (E2 & _); [ilia|].
    destruct (alphabet_ok (b mod 16 * 4 + c / 64)) as (E3 & _ & N3); [ilia|].
    destruct (alphabet_ok (c mod 64)) as (E4 & _ & N4); [ilia|].
    cbn [encode]. set (x := alphabet (b mod 16 * 4 + c / 64)) in *. set (y := alphabet (c mod 64)) in *.
    assert (ED : forall u v l, decode (u :: v :: x :: y :: l) =
      (rest ← decode l; Some (index u * 4 + index v / 16 :: index v mod 16 * 16 + index x / 4 ::
            index x mod 4 * 64 + index y :: rest))).
    { intros u v l. cbn [decode]. repeat case_match; subst; try done; lia. }
    rewrite ED, IH by done. simpl. rewrite E1, E2, E3, E4. do 2 f_equal; [ilia|]. f_equal; [ilia|]. f_equal. ilia.
Qed.

Lemma encode_chars s : bytes_ok s -> binary_content_loop (encode s) false = true /\ zlen (encode s) mod 4 = 0.
Proof.
  assert (step : forall i l, 0 <= i < 64 -> binary_content_loop (alphabet i :: l) false = binary_content_loop l false).
  { intros i l Hi. destruct (alphabet_ok i Hi) as (_ & Hv & Hn). cbn [binary_content_loop].
    by rewrite (proj2 (Z.eqb_neq _ _) Hn), Hv. }
  induction s as [|a|a b|a b c s IH] using triple_induction; intros Hs; [done| | |];
    unfold bytes_ok in *; repeat match goal with H : Forall _ (_ :: _) |- _ => apply Forall_cons in H as [? H] end; cbn [encode].
  - rewrite !step by ilia. done.
  - rewrite !step by ilia. done.
  - rewrite !step by ilia. destruct IH as [IH1 IH2]; [done|]. split; [done|].
    unfold zlen in *. cbn [length]. rewrite !Nat2Z.inj_succ. ilia.
Qed.

End Base64.

(** Base 64, the decimal numbers of 64 bits, and no doubles. *)
#[global] Instance plain : Conversions := {
  double := unit;
  base64Encode := Base64.encode;
  base64Decode := Base64.decode;
  lexical_cast_int64 s :=
    let '(neg, ds) := match s with 0x2D :: t => (true, t) | _ => (false, s) end in
    let v := if neg : bool then - decimal ds else decimal ds in
    if negb (bool_decide (ds = [])) && forallb isdigit ds && (- 2 ^ 63 <=? v) && (v <? 2 ^ 63)
    then Some v else None;
  lexical_cast_double _ := None;
  print_double _ := [] }.

#[global] Instance plain_ok : ConversionsOk (H := plain).
Proof.
  constructor.
  - intros s Hs. destruct (Base64.encode_chars s Hs) as [H1 H2]. unfold isValidEncodedBinaryContent. simpl.
    by rewrite H2, H1.
  - intros s Hs. by apply Base64.decode_encode.
  - intros neg ds Hne Hd v Hv. simpl.
    assert (Hf : forallb isdigit ds = true) by (apply forallb_forall; intros c Hc; apply list_elem_of_In in Hc;
      by eapply Forall_forall in Hd).
    assert (E : (match (if neg then [0x2D] else []) ++ ds with 0x2D :: t => (true, t)
      | _ => (false, (if neg then [0x2D] else []) ++ ds) end) = (neg, ds)).
    { destruct neg; [done|]. destruct ds as [|c ds]; [done|]. inversion Hd as [|? ? Hc _]; subst.
      apply digit_range in Hc. simpl. repeat case_match; subst; try done; lia. }
    rewrite E, Hf. fold v. rewrite bool_decide_eq_false_2 by done.
    rewrite (proj2 (Z.leb_le _ _)), (proj2 (Z.ltb_lt _ _)) by lia. done.
Qed.

(** ** The theorems *)

(** C19. Structured headers round-trip: a list, a dictionary (in whatever order the map is
    traversed) and a parameterised list of strings, byte sequences, 64-bit integers
    and booleans are encoded without an error, and decoding the text gives them back
    and leaves nothing. Booleans have to be last in a list, and [false] last in a
    dictionary or parameterised list: see [structured_boolean_refused]. *)
Theorem structured_roundtrip `{CV : Conversions} `{CO : !ConversionsOk} :
  (forall l, l <> [] -> Forall encodable l -> booleans_last l ->
     exists text, encodeList l [] = (OK, text) /\ decodeList text = POk l []) /\
  (forall (m : gmap (list Z) StructuredHeaderItem) l, l ≡ₚ map_to_list m -> l <> [] ->
     Forall encodable_entry l -> false_last l [] ->
     exists text, encodeDictionary l [] = (OK, text) /\ decodeDictionary text = POk m []) /\
  (forall l, l <> [] -> Forall encodable_parameterised l -> parameters_false_last l ->
     exists text, encodeParameterisedList l [] = (OK, text) /\
       decodeParameterisedList text = POk (parameterised <$> l) []).
Proof.
  split_and!.
  - intros l Hne He Hb. exists (separated (item_text <$> l)). split.
    + destruct l as [|i l]; [done|]. refine (encode_separated_text encodeItem item_text (i :: l) _ []).
      intros a out Ha. apply encodeItem_text.
      by eapply Forall_forall.
    + unfold decodeList. pose proof (separated_length l He). apply (list_loop_text l _ []); try done. lia.
  - intros m l Hp Hne He Hf.
    assert (Hnd : NoDup l.*1) by (rewrite Hp; apply NoDup_fst_map_to_list).
    destruct (dictionary_text l Hne He Hnd Hf) as [H1 H2]. eexists. split; [apply (H1 [])|].
    assert (E : (list_to_map l : gmap (list Z) StructuredHeaderItem) = m).
    { rewrite (list_to_map_proper l (map_to_list m)) by done. apply list_to_map_to_list. }
    rewrite <- E. exact H2.
  - intros l Hne He Hf. exists (separated (parameterised_text <$> l)). split.
    + destruct l as [|p l]; [done|].
      refine (encode_separated_text encodeParameterised parameterised_text (p :: l) _ []). intros a out Ha.
      apply encodeParameterised_text. by eapply Forall_forall.
    + unfold decodeParameterisedList. pose proof (parameterised_length l He).
      apply (parameterised_loop_text l _ []); try done. lia.
Qed.

Lemma structured_roundtrip_witness :
  exists text, encodeList [mkItem INT64 (VInt (-42)); mkItem STRING (VString [0x61; 0x22]);
      mkItem BINARYCONTENT (VString [1; 2]); mkItem BOOLEAN (VBool false)] [] = (OK, text) /\
    decodeList text = POk [mkItem INT64 (VInt (-42)); mkItem STRING (VString [0x61; 0x22]);
      mkItem BINARYCONTENT (VString [1; 2]); mkItem BOOLEAN (VBool false)] [].
Proof.
  apply (structured_roundtrip (CV := plain)); [discriminate| |].
  - repeat constructor; simpl; unfold_ints; try lia; reflexivity.
  - repeat constructor; discriminate.
Defined.

(** C20. The decoder returns on every input: items, lists, dictionaries and parameterised
    lists are decoded or refused with an error, without an abort or an endless loop,
    whatever the conversions do. *)
Theorem structured_decode_total `{CV : Conversions} l :
  returns false l (decodeItem l) /\ returns false l (decodeList l) /\
  returns false l (decodeDictionary l) /\ returns false l (decodeParameterisedList l).
Proof.
  split_and!.
  - unfold decodeItem. eapply (returns_weaken true). apply (returns_bind _ _ true false); [apply parseItem_returns|].
    intros a r _. apply (returns_bind _ _ false false); [apply isEmpty_returns|].
    intros [] r' _; simpl; [lia|done].
  - apply list_loop_returns. lia.
  - apply decodeMap_returns.
  - apply parameterised_loop_returns. lia.
Qed.

(** What the encoder writes for a list with a boolean that is not last is refused
    by the decoder, which demands that the buffer is empty behind a boolean. *)
Theorem structured_boolean_refused `{CV : Conversions} b i l : encodable i -> Forall encodable l ->
  exists text, encodeList (mkItem BOOLEAN (VBool b) :: i :: l) [] = (OK, text) /\
    decodeList text = PErr VALUE_TOO_LONG.
Proof.
  intros Hi Hl. exists (separated (item_text <$> mkItem BOOLEAN (VBool b) :: i :: l)). split.
  - refine (encode_separated_text encodeItem item_text (mkItem BOOLEAN (VBool b) :: i :: l) _ []).
    intros a out Ha. apply encodeItem_text.
    apply elem_of_cons in Ha as [-> | Ha]; [done|].
    apply elem_of_cons in Ha as [-> | Ha]; [done|]. by eapply Forall_forall.
  - by destruct b.
Qed.

(** ** Priorities *)

Section priority.
Context `{CV : Conversions} `{CO : !ConversionsOk}.

Definition priority_ok (pri : HTTPPriority) : Prop :=
  0 <= urgency pri <= kMaxPriority /\ 0 <= orderId pri < 2 ^ 58.

Definition int_item (z : Z) : StructuredHeaderItem := mkItem INT64 (VInt z).

Lemma int_entry k z : isValidIdentifier k = true -> 0 <= z < 2 ^ 63 -> encodable_entry (k, int_item z).
Proof. intros Hk Hz. split; [done|]. unfold encodable. simpl. lia. Qed.

Lemma int_text k z : 0 <= z -> entry_text (k, int_item z) = k ++ 0x3D :: print_unsigned z.
Proof. intros Hz. unfold entry_text. simpl. unfold item_text, print_int. simpl. by destruct (Z.ltb_spec z 0); [lia|]. Qed.

Lemma int_follows z rest : rest = [] \/ (exists t, rest = 0x2C :: t) -> entry_follows (int_item z) rest.
Proof. intros H. split; [|done]. destruct H as [-> | [t ->]]; [by left|right]. by eexists _, _; split; [|left]. Qed.

(** The dictionary of a priority. *)
Definition priority_map (pri : HTTPPriority) : gmap (list Z) StructuredHeaderItem :=
  (if orderId pri >? 0 then <[ [0x6F] := int_item (orderId pri) ]> else id)
    ((if incremental pri then <[ [0x69] := mkItem BOOLEAN (VBool true) ]> else id)
      {[ [0x75] := int_item (urgency pri) ]}).

Lemma priority_loop_order (fuel : nat) (acc : gmap (list Z) StructuredHeaderItem) (o : Z) : (0 < fuel)%nat -> 0 < o < 2 ^ 58 ->
  acc !! [0x6F] = None ->
  map_loop fuel acc DICTIONARY ([0x6F; 0x3D] ++ print_unsigned o) = POk (<[ [0x6F] := int_item o ]> acc) [].
Proof.
  intros Hf Ho Ha. destruct fuel as [|fuel]; [lia|].
  pose proof (map_loop_entry DICTIONARY fuel acc [0x6F] (int_item o) [] []) as H.
  rewrite app_nil_r, int_text in H by lia. apply H; [apply int_entry; (done || lia)|done|apply int_follows; by left|by left].
Qed.

Lemma priority_decoded pri : priority_ok pri ->
  decodeDictionary (httpPriorityToString pri) = POk (priority_map pri) [].
Proof.
  destruct pri as [u i o]. unfold priority_ok, httpPriorityToString, priority_map, kMaxPriority. simpl. intros [Hu Ho].
  rewrite Z.min_r by lia. set (tail2 := if o >? 0 then _ else []).
  set (tail1 := (if i then _ else []) ++ tail2).
  assert (H2 : tail2 = [] \/ exists t, tail2 = 0x2C :: t) by (unfold tail2; destruct (o >? 0); [right; by eexists|by left]).
  assert (H1 : tail1 = [] \/ exists t, tail1 = 0x2C :: t) by (unfold tail1; destruct i; [right; by eexists|done]).
  unfold decodeDictionary, decodeMap. rewrite skip_head by done.
  change (0x75 :: 0x3D :: print_unsigned u ++ tail1) with (([0x75] ++ 0x3D :: print_unsigned u) ++ tail1).
  rewrite <- (int_text [0x75] u) by lia. set (fuel := S (length _)).
  assert (Hfu : (3 <= fuel)%nat).
  { unfold fuel. rewrite int_text by lia. rewrite !length_app. simpl. lia. }
  destruct fuel as [|fuel]; [lia|].
  rewrite (map_loop_entry DICTIONARY fuel ∅ [0x75] (int_item u) [] tail1)
    by (done || (apply int_entry; (done || lia)) || (by apply int_follows) || by left).
  rewrite insert_empty. unfold tail1. destruct i; simpl.
  - destruct fuel as [|fuel]; [lia|].
    rewrite (map_loop_entry DICTIONARY fuel _ [0x69] (mkItem BOOLEAN (VBool true)) [] tail2); try done; [| |by left].
    + unfold tail2. destruct (Z.gtb_spec o 0); simpl; [|done]. apply priority_loop_order; [lia|lia|done].
    + split; [|done]. destruct H2 as [-> | [t ->]]; [by left|right]. by eexists _, _; split; [|left].
  - unfold tail2. destruct (Z.gtb_spec o 0); simpl; [|done]. apply priority_loop_order; [lia|lia|done].
Qed.

(** Priorities round-trip: the [priority] field that [httpPriorityToString] writes for
    an urgency up to 7 and an order below 2^58 is parsed to the same priority. *)
Lemma priority_parsed pri : priority_ok pri ->
  httpPriorityFromString (httpPriorityToString pri) = Some pri.
Proof.
  intros Hp. unfold httpPriorityFromString. rewrite bool_decide_eq_false_2 by done.
  rewrite priority_decoded by done. destruct pri as [u i o]. destruct Hp as [Hu Ho]. unfold kMaxPriority in *. simpl in *.
  assert (E1 : getInt (priority_map (mkPriority u i o)) [0x75] kDefaultHttpPriorityUrgency = (u, false, false)).
  { unfold priority_map, getInt. simpl. destruct (o >? 0), i; done. }
  assert (E2 : getBool (priority_map (mkPriority u i o)) [0x69] false = (i, negb i, false)).
  { unfold priority_map, getBool. simpl. destruct (o >? 0), i; done. }
  assert (E3 : exists b, getInt (priority_map (mkPriority u i o)) [0x6F] 0 = (o, b, false)).
  { unfold priority_map, getInt. simpl. destruct (Z.gtb_spec o 0), i; try (by eexists);
      replace o with 0 by lia; by eexists. }
  destruct E3 as [b E3]. rewrite E1, E2, E3. unfold kMinPriority, kMaxPriority.
  destruct (Z.gtb_spec u 7); [lia|]. destruct (Z.ltb_spec u 0); [lia|]. destruct (Z.ltb_spec o 0); [lia|]. simpl.
  unfold HTTPPriority_create, kMaxPriority. rewrite u8_id, u64_id, Z.min_l, !Z.mod_small by (unfold_ints; lia). done.
Qed.

End priority.

End StructuredResults.
