(* ===== verification/HQFramer.v ===== *)
(** * The HTTP/3 framer

    [lib/http/codec/HQFramer.h] and [HQFramer.cpp]: the frames of a control stream or a
    request stream, written with QUIC integers and parsed from a cursor.

    A parser works on a cursor ([Prelude]); the functions are [noexcept], so a read
    past the end of the cursor ([PThrow]) ends the process.  A writer returns the
    queue and the number of bytes it wrote, or [None] for [INTERNAL_ERROR]; what it
    appended before the error stays in the queue. *)

From S2P Require Import Prelude QuicInteger StructuredHeaders.

Module HQ.

(** [HTTP3::ErrorCode]. *)
Inductive ErrorCode :=
| HTTP_NO_ERROR | HTTP_GENERAL_PROTOCOL_ERROR | HTTP_INTERNAL_ERROR | HTTP_STREAM_CREATION_ERROR
| HTTP_CLOSED_CRITICAL_STREAM | HTTP_FRAME_UNEXPECTED | HTTP_FRAME_ERROR | HTTP_EXCESSIVE_LOAD
| HTTP_ID_ERROR | HTTP_SETTINGS_ERROR | HTTP_MISSING_SETTINGS | HTTP_REQUEST_REJECTED
| HTTP_REQUEST_CANCELLED | HTTP_INCOMPLETE_REQUEST | HTTP_MESSAGE_ERROR | HTTP_CONNECT_ERROR
| HTTP_VERSION_FALLBACK | HTTP_QPACK_DECOMPRESSION_FAILED | HTTP_QPACK_ENCODER_STREAM_ERROR
| HTTP_QPACK_DECODER_STREAM_ERROR | GIVEUP_ZERO_RTT.

#[global] Instance ErrorCode_eq_dec : EqDecision ErrorCode.
Proof. solve_decision. Defined.

(** [UnidirectionalStreamType] and [BidirectionalStreamType]. *)
Module StreamType.
Definition CONTROL : Z := 0x00.
Definition PUSH : Z := 0x01.
Definition QPACK_ENCODER : Z := 0x02.
Definition QPACK_DECODER : Z := 0x03.
Definition GREASE : Z := 0x21.
Definition WEBTRANSPORT : Z := 0x54.
Definition BIDI_WEBTRANSPORT : Z := 0x41.
End StreamType.

(** [FrameType]: any 64-bit number is a value of the enumeration. *)
Module FrameType.
Definition DATA : Z := 0x00.
Definition HEADERS : Z := 0x01.
Definition CANCEL_PUSH : Z := 0x03.
Definition SETTINGS : Z := 0x04.
Definition PUSH_PROMISE : Z := 0x05.
Definition GOAWAY : Z := 0x07.
Definition MAX_PUSH_ID : Z := 0x0D.
Definition PRIORITY_UPDATE : Z := 0xF0700.
Definition PUSH_PRIORITY_UPDATE : Z := 0xF0701.
Definition FB_PRIORITY_UPDATE : Z := 0xF700.
Definition FB_PUSH_PRIORITY_UPDATE : Z := 0xF701.
Definition PADDING : Z := 0x40.
Definition WEBTRANSPORT_BIDI : Z := 0x41.
End FrameType.

(** [hq::SettingId]. *)
Module SettingId.
Definition HEADER_TABLE_SIZE : Z := 0x01.
Definition MAX_HEADER_LIST_SIZE : Z := 0x06.
Definition QPACK_BLOCKED_STREAMS : Z := 0x07.
Definition ENABLE_CONNECT_PROTOCOL : Z := 0x08.
Definition H3_DATAGRAM : Z := 0x276.
Definition H3_DATAGRAM_DRAFT_8 : Z := 0xffd277.
Definition H3_DATAGRAM_RFC : Z := 0x33.
Definition ENABLE_WEBTRANSPORT : Z := 0x2b603742.
Definition WEBTRANSPORT_MAX_SESSIONS : Z := 0x2b603743.
End SettingId.

Record FrameHeader := mkHeader { type : Z; length : Z }.

Definition kMaxGreaseIdIndex : Z := 0x210842108421083.

End HQ.

Module HQFramer.
Import QuicInteger StructuredHeaders HQ.

Definition isGreaseId (id : Z) : bool :=
  if (id <? 0x21) || (id >? kEightByteLimit) then false else (id - 0x21) mod 0x1F =? 0.

Definition getGreaseId (n : Z) : option Z :=
  if n >? kMaxGreaseIdIndex then None else Some (u64 (0x1F * n + 0x21)).

(** ** Parsing *)

Definition parseData (header : FrameHeader) : parser ErrorCode (list Z) := readBytes (length header).
Definition parseHeaders (header : FrameHeader) : parser ErrorCode (list Z) := readBytes (length header).

Definition parseIdOnlyFrame (header : FrameHeader) : parser ErrorCode Z := fun cursor =>
  match decodeQuicInteger cursor (length header) with
  | None => PErr HTTP_FRAME_ERROR
  | Some ((id, n), cursor) =>
      if negb (u64 (length header - n) =? 0) then PErr HTTP_FRAME_ERROR else POk id cursor
  end.

Definition parseCancelPush : FrameHeader -> parser ErrorCode Z := parseIdOnlyFrame.
Definition parseGoaway : FrameHeader -> parser ErrorCode Z := parseIdOnlyFrame.
Definition parseMaxPushId : FrameHeader -> parser ErrorCode Z := parseIdOnlyFrame.

Definition knownSetting (settingId : Z) : bool :=
  bool_decide (settingId ∈ [SettingId.HEADER_TABLE_SIZE; SettingId.MAX_HEADER_LIST_SIZE;
    SettingId.QPACK_BLOCKED_STREAMS; SettingId.ENABLE_CONNECT_PROTOCOL; SettingId.H3_DATAGRAM;
    SettingId.H3_DATAGRAM_DRAFT_8; SettingId.H3_DATAGRAM_RFC; SettingId.ENABLE_WEBTRANSPORT;
    SettingId.WEBTRANSPORT_MAX_SESSIONS]).

(** The value, if the setting is known, with what is left of the frame and the
    cursor. *)
Definition decodeSettingValue (cursor : list Z) (frameLength settingId : Z)
  : option (option Z * Z * list Z) :=
  '((value, n), cursor) ← decodeQuicInteger cursor frameLength;
  Some (if knownSetting settingId then Some value else None, u64 (frameLength - n), cursor).

(** [while (frameLength > 0)]: every round reads two integers. *)
Fixpoint parseSettings_loop (fuel : nat) (frameLength : Z) (settings : list (Z * Z)) (cursor : list Z)
  : presult ErrorCode (list (Z * Z)) :=
  if frameLength >? 0 then
    match fuel with
    | O => PLoop
    | S fuel' =>
        match decodeQuicInteger cursor frameLength with
        | None => PErr HTTP_FRAME_ERROR
        | Some ((settingId, n), cursor) =>
            match decodeSettingValue cursor (u64 (frameLength - n)) settingId with
            | None => PErr HTTP_FRAME_ERROR
            | Some (settingValue, frameLength, cursor) =>
                let settings := match settingValue with
                  | Some v => settings ++ [(settingId, v)]
                  | None => settings
                  end in
                parseSettings_loop fuel' frameLength settings cursor
            end
        end
    end
  else POk settings cursor.

Definition parseSettings (header : FrameHeader) : parser ErrorCode (list (Z * Z)) := fun cursor =>
  parseSettings_loop (S (List.length cursor)) (length header) [] cursor.

Definition parsePushPromise (header : FrameHeader) : parser ErrorCode (Z * list Z) := fun cursor =>
  match decodeQuicInteger cursor (length header) with
  | None => PErr HTTP_FRAME_ERROR
  | Some ((pushId, n), cursor) =>
      (buf ← readBytes (u64 (length header - n)); mret (pushId, buf)) cursor
  end.

Section priority.
Context `{CV : Conversions}.

Definition parsePriorityUpdate (header : FrameHeader) : parser ErrorCode (Z * HTTPPriority) := fun cursor =>
  match decodeQuicInteger cursor (length header) with
  | None => PErr HTTP_ID_ERROR
  | Some ((id, n), cursor) =>
      (buf ← readBytes (u64 (length header - n));
       match httpPriorityFromString buf with
       | None => pfail HTTP_FRAME_ERROR
       | Some httpPriority => mret (id, httpPriority)
       end) cursor
  end.

End priority.

(** ** Writing *)

Definition WriteResult : Type := list Z * option Z.

(** One integer. *)
Definition writeInteger (queue : list Z) (value : Z) : WriteResult :=
  match encodeQuicInteger value with
  | Some (bytes, n) => (queue ++ bytes, Some n)
  | None => (queue, None)
  end.

Definition writeFrameHeader (queue : list Z) (type length : Z) : WriteResult :=
  let '(queue, typeRes) := writeInteger queue type in
  match typeRes with
  | None => (queue, None)
  | Some t =>
      let '(queue, lengthRes) := writeInteger queue length in
      match lengthRes with
      | None => (queue, None)
      | Some l => (queue, Some (t + l))
      end
  end.

Definition writeSimpleFrame (queue : list Z) (type : Z) (data : list Z) : WriteResult :=
  let payloadSize := zlen data in
  let '(queue, headerSize) := writeFrameHeader queue type payloadSize in
  match headerSize with
  | None => (queue, None)
  | Some h => (queue ++ data, Some (h + payloadSize))
  end.

Definition writeData (queue data : list Z) : WriteResult := writeSimpleFrame queue FrameType.DATA data.
Definition writePadding (queue data : list Z) : WriteResult := writeSimpleFrame queue FrameType.PADDING data.
Definition writeHeaders (queue data : list Z) : WriteResult := writeSimpleFrame queue FrameType.HEADERS data.

(** A frame that holds an identifier and a text; the identifier must have a size. *)
Definition writeIdFrame (queue : list Z) (type id : Z) (text : list Z) : WriteResult :=
  match getQuicIntegerSize id with
  | None => (queue, None)
  | Some _ => writeSimpleFrame queue type (fst (writeInteger [] id) ++ text)
  end.

Definition writeCancelPush (queue : list Z) (pushId : Z) : WriteResult :=
  writeIdFrame queue FrameType.CANCEL_PUSH pushId [].
Definition writeGoaway (queue : list Z) (lastStreamId : Z) : WriteResult :=
  writeIdFrame queue FrameType.GOAWAY lastStreamId [].
Definition writeMaxPushId (queue : list Z) (maxPushId : Z) : WriteResult :=
  writeIdFrame queue FrameType.MAX_PUSH_ID maxPushId [].
Definition writePriorityUpdate (queue : list Z) (streamId : Z) (priorityUpdate : list Z) : WriteResult :=
  writeIdFrame queue FrameType.FB_PRIORITY_UPDATE streamId priorityUpdate.
Definition writePushPriorityUpdate (queue : list Z) (pushId : Z) (priorityUpdate : list Z) : WriteResult :=
  writeIdFrame queue FrameType.FB_PUSH_PRIORITY_UPDATE pushId priorityUpdate.

(** The first loop of [writeSettings]: the length of the payload. *)
Fixpoint settingsSize (settings : list (Z * Z)) : option Z :=
  match settings with
  | [] => Some 0
  | (id, value) :: settings =>
      idSize ← getQuicIntegerSize id;
      valueSize ← getQuicIntegerSize value;
      rest ← settingsSize settings;
      Some (idSize + valueSize + rest)
  end.

Fixpoint writeSettingsPayload (queue : list Z) (settings : list (Z * Z)) : list Z :=
  match settings with
  | [] => queue
  | (id, value) :: settings =>
      writeSettingsPayload (fst (writeInteger (fst (writeInteger queue id)) value)) settings
  end.

Definition writeSettings (queue : list Z) (settings : list (Z * Z)) : WriteResult :=
  match settingsSize settings with
  | None => (queue, None)
  | Some size =>
      let '(queue, headerSize) := writeFrameHeader queue FrameType.SETTINGS size in
      match headerSize with
      | None => (queue, None)
      | Some h => (writeSettingsPayload queue settings, Some (h + size))
      end
  end.

Definition writePushPromise (queue : list Z) (pushId : Z) (data : list Z) : WriteResult :=
  match getQuicIntegerSize pushId with
  | None => (queue, None)
  | Some pushIdSize =>
      let payloadSize := pushIdSize + zlen data in
      let '(queue, headerSize) := writeFrameHeader queue FrameType.PUSH_PROMISE payloadSize in
      match headerSize with
      | None => (queue, None)
      | Some h => (fst (writeInteger queue pushId) ++ data, Some (h + payloadSize))
      end
  end.

Definition writeStreamPreface (queue : list Z) (streamPreface : Z) : WriteResult :=
  match getQuicIntegerSize streamPreface with
  | None => (queue, None)
  | Some size => (fst (writeInteger queue streamPreface), Some size)
  end.

(** [random] is the number from [folly::Random::rand32(16)]. *)
Definition writeGreaseFrame (random : Z) (queue : list Z) : WriteResult :=
  match getGreaseId random with
  | None => (queue, None)
  | Some greaseId =>
      match getQuicIntegerSize greaseId with
      | None => (queue, None)
      | Some _ => writeFrameHeader queue greaseId 0
      end
  end.

(** The preface of a WebTransport stream, unidirectional or bidirectional. *)
Definition writeWTStreamPreface (queue : list Z) (bidi : bool) (wtSessionId : Z) : WriteResult :=
  let '(queue, res) := writeInteger queue
    (if bidi then StreamType.BIDI_WEBTRANSPORT else StreamType.WEBTRANSPORT) in
  match res with
  | None => (queue, None)
  | Some t =>
      let '(queue, res) := writeInteger queue wtSessionId in
      match res with
      | None => (queue, None)
      | Some n => (queue, Some (t + n))
      end
  end.

End HQFramer.
