(* ===== verification/HQFramedCodec.v ===== *)
(** * The frame parser of the HTTP/3 codecs

    [lib/http/codec/HQFramedCodec.h] and [HQFramedCodec.cpp]: the state machine that
    cuts the bytes of a stream into frames, shared by the codec of a control stream
    and the codec of a request stream.  What a derived codec does with a frame is the
    class [Handlers]; its own state is [derived].

    A call back to the session is an event; the callback is set and does not call
    the codec again.  [None] is the end of the process: [LOG(FATAL)], a failed
    [CHECK], or an exception through a [noexcept] function. *)

From S2P Require Import Prelude QuicInteger HQFramer.

Module HQFramedCodec.
Import QuicInteger HQ.

Inductive FrameState :=
| FRAME_HEADER_TYPE | FRAME_HEADER_LENGTH | FRAME_PAYLOAD | FRAME_PAYLOAD_STREAMING.

#[global] Instance FrameState_eq_dec : EqDecision FrameState.
Proof. solve_decision. Defined.

(** The calls back; [onEvent] are those of the derived codec. *)
Inductive Event (E : Type) :=
| onFrameHeader (length type : Z)
| onUnknownFrame (type : Z)
| onSessionError (err : ErrorCode)
| resumeHook
| onEvent (e : E).
Arguments onFrameHeader {E} _ _.
Arguments onUnknownFrame {E} _.
Arguments onSessionError {E} _.
Arguments resumeHook {E}.
Arguments onEvent {E} _.

Record Codec (S : Type) := mkCodec {
  curHeader_ : FrameHeader;
  parserPaused_ : bool;
  deferredEOF_ : bool;
  pendingDataFrameBytes_ : Z;
  frameState_ : FrameState;
  connError_ : option ErrorCode;
  totalBytesParsed_ : Z;
  derived : S
}.
Arguments mkCodec {S} _ _ _ _ _ _ _ _.
Arguments curHeader_ {S} _.
Arguments parserPaused_ {S} _.
Arguments deferredEOF_ {S} _.
Arguments pendingDataFrameBytes_ {S} _.
Arguments frameState_ {S} _.
Arguments connError_ {S} _.
Arguments totalBytesParsed_ {S} _.
Arguments derived {S} _.

Section setters.
Context {S : Type}.
Implicit Types c : Codec S.

Definition set_header c h := mkCodec h (parserPaused_ c) (deferredEOF_ c)
  (pendingDataFrameBytes_ c) (frameState_ c) (connError_ c) (totalBytesParsed_ c) (derived c).
Definition set_paused c b := mkCodec (curHeader_ c) b (deferredEOF_ c)
  (pendingDataFrameBytes_ c) (frameState_ c) (connError_ c) (totalBytesParsed_ c) (derived c).
Definition set_deferred c b := mkCodec (curHeader_ c) (parserPaused_ c) b
  (pendingDataFrameBytes_ c) (frameState_ c) (connError_ c) (totalBytesParsed_ c) (derived c).
Definition set_pending c n := mkCodec (curHeader_ c) (parserPaused_ c) (deferredEOF_ c)
  n (frameState_ c) (connError_ c) (totalBytesParsed_ c) (derived c).
Definition set_state c s := mkCodec (curHeader_ c) (parserPaused_ c) (deferredEOF_ c)
  (pendingDataFrameBytes_ c) s (connError_ c) (totalBytesParsed_ c) (derived c).
Definition set_error c e := mkCodec (curHeader_ c) (parserPaused_ c) (deferredEOF_ c)
  (pendingDataFrameBytes_ c) (frameState_ c) e (totalBytesParsed_ c) (derived c).
Definition add_parsed c n := mkCodec (curHeader_ c) (parserPaused_ c) (deferredEOF_ c)
  (pendingDataFrameBytes_ c) (frameState_ c) (connError_ c) (u64 (totalBytesParsed_ c + n)) (derived c).

(** What a handler leaves behind: the error if there is one, the state, whether it
    left the parser paused, the calls back, and the cursor. *)
Record Outcome (E : Type) := mkOutcome {
  result : option ErrorCode;
  after : S;
  paused : bool;
  calls : list E;
  cursor_ : list Z
}.
Arguments mkOutcome {E} _ _ _ _ _.
Arguments result {E} _.
Arguments after {E} _.
Arguments paused {E} _.
Arguments calls {E} _.
Arguments cursor_ {E} _.

(** The state after a handler. *)
Definition set_outcome {E} c (o : Outcome E) := mkCodec (curHeader_ c) (paused o) (deferredEOF_ c)
  (pendingDataFrameBytes_ c) (frameState_ c) (result o) (totalBytesParsed_ c) (after o).

End setters.
Arguments Outcome S E : clear implicits.
Arguments mkOutcome {S E} _ _ _ _ _.
Arguments result {S E} _.
Arguments after {S E} _.
Arguments paused {S E} _.
Arguments calls {S E} _.
Arguments cursor_ {S E} _.

(** The virtual functions of a derived codec. *)
Class Handlers (S E : Type) := {
  checkFrameAllowed : S -> Z -> option ErrorCode;
  parseData : S -> FrameHeader -> list Z -> option (Outcome S E);
  parseHeaders : S -> FrameHeader -> list Z -> option (Outcome S E);
  parseCancelPush : S -> FrameHeader -> list Z -> option (Outcome S E);
  parseSettings : S -> FrameHeader -> list Z -> option (Outcome S E);
  parsePushPromise : S -> FrameHeader -> list Z -> option (Outcome S E);
  parseGoaway : S -> FrameHeader -> list Z -> option (Outcome S E);
  parseMaxPushId : S -> FrameHeader -> list Z -> option (Outcome S E);
  parsePushPriorityUpdate : S -> FrameHeader -> list Z -> option (Outcome S E);
  parsePriorityUpdate : S -> FrameHeader -> list Z -> option (Outcome S E)
}.

Section codec.
Context {S E : Type} `{HD : Handlers S E}.
Implicit Types c : Codec S.

Definition initial (s : S) : Codec S :=
  mkCodec (mkHeader 0 0) false false 0 FRAME_HEADER_TYPE None 0 s.

(** [Cursor::skip]. *)
Definition skip (cursor : list Z) (n : Z) : option (list Z) :=
  if zlen cursor <? n then None else Some (drop (Z.to_nat n) cursor).

Definition wrap (o : Outcome S E) : Outcome S (Event E) :=
  mkOutcome (result o) (after o) (paused o) (onEvent <$> calls o) (cursor_ o).

(** A frame type that is not known is reported and skipped. *)
Definition parseFrame (s : S) (header : FrameHeader) (cursor : list Z) : option (Outcome S (Event E)) :=
  if type header =? FrameType.DATA then wrap <$> parseData s header cursor
  else if type header =? FrameType.HEADERS then wrap <$> parseHeaders s header cursor
  else if type header =? FrameType.CANCEL_PUSH then wrap <$> parseCancelPush s header cursor
  else if type header =? FrameType.SETTINGS then wrap <$> parseSettings s header cursor
  else if type header =? FrameType.PUSH_PROMISE then wrap <$> parsePushPromise s header cursor
  else if type header =? FrameType.GOAWAY then wrap <$> parseGoaway s header cursor
  else if type header =? FrameType.MAX_PUSH_ID then wrap <$> parseMaxPushId s header cursor
  else if bool_decide (type header ∈ [FrameType.PRIORITY_UPDATE; FrameType.PUSH_PRIORITY_UPDATE;
                                      FrameType.FB_PRIORITY_UPDATE; FrameType.FB_PUSH_PRIORITY_UPDATE])
  then wrap <$> parsePriorityUpdate s header cursor
  else
    cursor ← skip cursor (length header);
    Some (mkOutcome None s false [onUnknownFrame (type header)] cursor).

(** One round of the loop: the state, the cursor, the calls back and the bytes
    parsed, [None] for a [break]. *)
Definition iteration c (cursor : list Z) (bufLen : Z)
  : option (Codec S * list Z * list (Event E) * option Z) :=
  match frameState_ c with
  | FRAME_HEADER_TYPE =>
      match decodeQuicInteger cursor 8 with
      | None => Some (c, cursor, [], None)
      | Some ((t, n), cursor) =>
          let c := set_header c (mkHeader t (length (curHeader_ c))) in
          match checkFrameAllowed (derived c) t with
          | Some err => Some (set_error c (Some err), cursor, [], None)
          | None => Some (set_state c FRAME_HEADER_LENGTH, cursor, [], Some n)
          end
      end
  | FRAME_HEADER_LENGTH =>
      match decodeQuicInteger cursor 8 with
      | None => Some (c, cursor, [], None)
      | Some ((len, n), cursor) =>
          let header := mkHeader (type (curHeader_ c)) len in
          let c := set_pending (set_header c header) len in
          let event := onFrameHeader len (type header) in
          if len =? 0 then
            o ← parseFrame (derived c) header cursor;
            Some (set_state (set_outcome c o) FRAME_HEADER_TYPE, cursor_ o, event :: calls o, Some n)
          else
            Some (set_state c (if type header =? FrameType.DATA then FRAME_PAYLOAD_STREAMING
                               else FRAME_PAYLOAD), cursor, [event], Some n)
      end
  | FRAME_PAYLOAD =>
      let frameLen := length (curHeader_ c) in
      if bufLen >=? frameLen then
        o ← parseFrame (derived c) (curHeader_ c) cursor;
        Some (set_state (set_outcome c o) FRAME_HEADER_TYPE, cursor_ o, calls o, Some frameLen)
      else Some (c, cursor, [], None)
  | FRAME_PAYLOAD_STREAMING =>
      if bufLen >? 0 then
        let auxDataFrameHeader :=
          mkHeader FrameType.DATA (Z.min (pendingDataFrameBytes_ c) bufLen) in
        o ← wrap <$> parseData (derived c) auxDataFrameHeader cursor;
        let c := set_pending (set_outcome c o)
                   (u64 (pendingDataFrameBytes_ c - length auxDataFrameHeader)) in
        let c := if pendingDataFrameBytes_ c =? 0 then set_state c FRAME_HEADER_TYPE else c in
        Some (c, cursor_ o, calls o, Some (length auxDataFrameHeader))
      else Some (c, cursor, [], Some 0)
  end.

(** The loop: the state, the bytes parsed in all and the calls back. *)
Fixpoint ingress_loop (fuel : nat) c (cursor : list Z) (bufLen parsedTot : Z)
  : option (Codec S * Z * list (Event E)) :=
  if bool_decide (connError_ c = None) && (bufLen >? 0) && negb (parserPaused_ c) then
    match fuel with
    | O => None
    | Datatypes.S fuel' =>
        '(c, cursor, events, parsed) ← iteration c cursor bufLen;
        match parsed with
        | None => Some (c, parsedTot, events)
        | Some parsed =>
            if bufLen <? parsed then None
            else
              '(c, parsedTot, events') ←
                ingress_loop fuel' (add_parsed c parsed) cursor (bufLen - parsed) (parsedTot + parsed);
              Some (c, parsedTot, events ++ events')
        end
    end
  else Some (c, parsedTot, []).

(** [onIngressEOF] is virtual. *)
Definition setParserPaused (onIngressEOF : Codec S -> Codec S * list (Event E)) (b : bool) c
  : Codec S * list (Event E) :=
  let resumed := parserPaused_ c && negb b in
  let c := set_paused c b in
  if negb b && deferredEOF_ c then onIngressEOF (set_deferred c false)
  else (c, if resumed then [resumeHook] else []).

(** Pausing does not reach [onIngressEOF]. *)
Definition checkConnectionError c : Codec S * list (Event E) :=
  match connError_ c with
  | Some err =>
      let '(c, events) := setParserPaused (fun c => (c, [])) true c in
      (c, events ++ [onSessionError err])
  | None => (c, [])
  end.

Definition onFramedIngress c (buf : list Z) : option (Codec S * Z * list (Event E)) :=
  if bool_decide (connError_ c = None) then
    '(c, parsedTot, events) ← ingress_loop (Datatypes.S (List.length buf)) c buf (zlen buf) 0;
    let '(c, events') := checkConnectionError c in
    Some (c, parsedTot, events ++ events')
  else Some (c, 0, []).

Definition onFramedIngressEOF c : Codec S * bool * list (Event E) :=
  if negb (bool_decide (connError_ c = None)) then (c, false, [])
  else if parserPaused_ c then (set_deferred c true, false, [])
  else if negb (bool_decide (frameState_ c = FRAME_HEADER_TYPE)) then
    let '(c, events) := checkConnectionError (set_error c (Some HTTP_FRAME_ERROR)) in
    (c, false, events)
  else (c, true, []).

End codec.

End HQFramedCodec.
