(* ===== verification/HQPieces.v ===== *)
(** * A frame parser does not see how its bytes arrive

    [HandlersOk] is what [HQFramedCodec] needs of a derived codec: the handler of a
    frame looks at the bytes of the frame only, and passes the payload of a DATA
    frame on as it comes.  Then a codec that gets a stream in pieces, keeping what it
    did not consume, ends in the same state with the same calls back as a codec that
    gets it at once ([pieces_ok]); a DATA payload may be cut differently, so calls are
    compared as [tokens]. *)

From S2P Require Import Prelude QuicInteger HQFramer HQFramedCodec.

Module HQPieces.
Import QuicInteger HQ HQFramedCodec.

(** What is left of a call back when the cuts in the payload of DATA frames are
    forgotten. *)
Class HandlersOk (S E T : Type) `{HD : Handlers S E} := {
  state_ok : S -> Prop;
  token : E -> list T;
  byte_token : Z -> T;
  parse_whole : forall s h p, state_ok s -> checkFrameAllowed s (type h) = None ->
    bytes_ok p -> zlen p = length h -> length h <= kEightByteLimit ->
    exists r s' b e, state_ok s' /\ forall rest, bytes_ok rest ->
      exists cur, parseFrame s h (p ++ rest) = Some (mkOutcome r s' b e cur) /\
        (r = None -> b = false -> cur = rest);
  parse_stream : forall s p, state_ok s -> checkFrameAllowed s FrameType.DATA = None ->
    bytes_ok p ->
    exists e, (forall rest, bytes_ok rest ->
        parseData s (mkHeader FrameType.DATA (zlen p)) (p ++ rest) = Some (mkOutcome None s false e rest)) /\
      e ≫= token = byte_token <$> p
}.

Section pieces.
Context {S E T : Type} `{OK : HandlersOk S E T}.
Implicit Types (c : Codec S) (l : list Z).

(** ** Calls back without the cuts *)

Definition event_tokens (e : Event E) : list (Event E + T) :=
  match e with onEvent x => inr <$> token x | _ => [inl e] end.
Definition tokens (e : list (Event E)) : list (Event E + T) := e ≫= event_tokens.

Lemma tokens_app e1 e2 : tokens (e1 ++ e2) = tokens e1 ++ tokens e2.
Proof. apply bind_app. Qed.

Lemma tokens_events (e : list E) : tokens (onEvent <$> e) = inr <$> (e ≫= token).
Proof.
  induction e as [|x e IH]; [done|].
  change (tokens (onEvent <$> x :: e)) with ((inr <$> token x) ++ tokens (onEvent <$> e)).
  rewrite IH. change ((x :: e) ≫= token) with (token x ++ (e ≫= token)). by rewrite fmap_app.
Qed.

(** ** The states of the parser *)

(** The frame that is being parsed was allowed, and there is something left of it. *)
Definition wf c : Prop :=
  state_ok (derived c) /\
  match frameState_ c with
  | FRAME_HEADER_TYPE => True
  | FRAME_HEADER_LENGTH => checkFrameAllowed (derived c) (type (curHeader_ c)) = None
  | FRAME_PAYLOAD => checkFrameAllowed (derived c) (type (curHeader_ c)) = None /\
      0 < length (curHeader_ c) <= kEightByteLimit
  | FRAME_PAYLOAD_STREAMING => checkFrameAllowed (derived c) FrameType.DATA = None /\
      0 < pendingDataFrameBytes_ c <= kEightByteLimit
  end.

Definition going c l : bool :=
  bool_decide (connError_ c = None) && (zlen l >? 0) && negb (parserPaused_ c).

Lemma going_true c l : going c l = true <-> connError_ c = None /\ 0 < zlen l /\ parserPaused_ c = false.
Proof.
  unfold going. rewrite !andb_true_iff, bool_decide_eq_true, negb_true_iff, Z.gtb_lt. tauto.
Qed.

Lemma going_app c l l' : going c l = true -> going c (l ++ l') = true.
Proof. rewrite !going_true, zlen_app. unfold zlen. intuition lia. Qed.

Lemma going_error c l : connError_ c <> None -> going c l = false.
Proof. intros H. destruct (going c l) eqn:G; [|done]. by apply going_true in G as [? _]. Qed.

(** ** One round *)

(** [steps c l c1 e n]: a round on any cursor that starts with [l] consumes [n] bytes
    of [l] and leads to [c1] with the calls [e]. *)
Definition steps c l c1 e n : Prop :=
  0 < n <= zlen l /\ wf c1 /\
  forall l', bytes_ok l' -> exists cur,
    iteration c (l ++ l') (zlen (l ++ l')) = Some (c1, cur, e, Some n) /\
    (connError_ c1 = None -> parserPaused_ c1 = false -> cur = drop (Z.to_nat n) (l ++ l')).

Definition waits c l : Prop := iteration c l (zlen l) = Some (c, l, [], None).

Definition refuses c l c1 : Prop := wf c1 /\ connError_ c1 <> None /\
  forall l', bytes_ok l' -> exists cur,
    iteration c (l ++ l') (zlen (l ++ l')) = Some (c1, cur, [], None).

Lemma drop_zlen_app (p r : list Z) n : zlen p = n -> drop (Z.to_nat n) (p ++ r) = r.
Proof. intros <-. apply drop_app_length'. unfold zlen. lia. Qed.

Lemma iteration_type c l : wf c -> bytes_ok l -> frameState_ c = FRAME_HEADER_TYPE ->
  waits c l \/ (exists c1, refuses c l c1) \/ exists c1 e n, steps c l c1 e n.
Proof.
  intros [Hs _] Hl HF. unfold waits, refuses, steps, iteration. rewrite HF.
  destruct (decodeQuicInteger l 8) as [[[t n] r]|] eqn:D; [|by left]. right.
  destruct (decode_some l 8 _ _ _ Hl ltac:(lia) D) as (_ & Hn & _ & Hz & _ & (p & Hp & Hpn) & Hx).
  cbn [derived set_header]. destruct (checkFrameAllowed (derived c) t) as [err|] eqn:A; [left|right].
  - exists (set_error (set_header c (mkHeader t (length (curHeader_ c)))) (Some err)).
    split; [split; cbn; [done|by rewrite HF]|]. split; [done|].
    intros l' Hl'. rewrite (Hx _ Hl'), A. eauto.
  - exists (set_state (set_header c (mkHeader t (length (curHeader_ c)))) FRAME_HEADER_LENGTH), [], n.
    split; [unfold zlen in *; lia|]. split; [done|].
    intros l' Hl'. rewrite (Hx _ Hl'), A. eexists. split; [done|]. intros _ _.
    by rewrite Hp, <- app_assoc, drop_zlen_app.
Qed.

Lemma iteration_length c l : wf c -> bytes_ok l -> going c l = true ->
  frameState_ c = FRAME_HEADER_LENGTH -> waits c l \/ exists c1 e n, steps c l c1 e n.
Proof.
  intros [Hs HA] Hl HG HF. rewrite HF in HA. unfold waits, steps, iteration. rewrite HF.
  destruct (decodeQuicInteger l 8) as [[[len n] r]|] eqn:D; [|by left]. right.
  destruct (decode_some l 8 _ _ _ Hl ltac:(lia) D) as (Hlen & Hn & _ & Hz & Hr & (p & Hp & Hpn) & Hx).
  assert (Hpos : 0 < n <= zlen l) by (unfold zlen in *; lia).
  cbn [derived set_header set_pending type length].
  destruct (Z.eqb_spec len 0) as [->|H0].
  - destruct (parse_whole (derived c) (mkHeader (type (curHeader_ c)) 0) [] Hs HA (Forall_nil_2 _) eq_refl)
      as (res & s' & b & e & Hs' & Hpf); [unfold kEightByteLimit; simpl; lia|].
    exists (set_state (set_outcome (set_pending (set_header c (mkHeader (type (curHeader_ c)) 0)) 0)
              (mkOutcome res s' b e [])) FRAME_HEADER_TYPE), (onFrameHeader 0 (type (curHeader_ c)) :: e), n.
    split; [exact Hpos|]. split; cycle 1.
    + intros l' Hl'. rewrite (Hx _ Hl'). cbn [Z.eqb].
      destruct (Hpf (r ++ l')) as (cur & Hc & Hcur); [by apply Forall_app|].
      cbn [app] in Hc. rewrite Hc. cbn [mbind option_bind]. eexists. split; [done|].
      cbn. intros He Hb. rewrite (Hcur He Hb), Hp, <- app_assoc. by rewrite drop_zlen_app.
    + by split.
  - eexists _, _, n. split; [exact Hpos|]. split; cycle 1.
    + intros l' Hl'. rewrite (Hx _ Hl'). rewrite (proj2 (Z.eqb_neq len 0)) by done.
      eexists. split; [done|]. intros _ _. by rewrite Hp, <- app_assoc, drop_zlen_app.
    + split; [done|]. cbn. destruct (Z.eqb_spec (type (curHeader_ c)) FrameType.DATA) as [Ht|Ht]; cbn.
      * rewrite Ht in HA. split; [done|lia].
      * split; [done|lia].
Qed.

Lemma take_zlen l n : 0 <= n <= zlen l -> zlen (take (Z.to_nat n) l) = n.
Proof. intros H. unfold zlen in *. rewrite length_take. lia. Qed.

Lemma iteration_payload c l : wf c -> bytes_ok l -> frameState_ c = FRAME_PAYLOAD ->
  waits c l \/ exists c1 e n, steps c l c1 e n.
Proof.
  intros [Hs HA] Hl HF. rewrite HF in HA. destruct HA as [HA Hlen].
  unfold waits, steps, iteration. rewrite HF. set (n := length (curHeader_ c)) in *.
  rewrite Z.geb_leb. destruct (Z.leb_spec n (zlen l)) as [Hn|Hn]; [right|by left].
  destruct (parse_whole (derived c) (curHeader_ c) (take (Z.to_nat n) l) Hs HA (Forall_take _ _ _ Hl))
    as (res & s' & b & e & Hs' & Hpf); [apply take_zlen; lia|apply Hlen|].
  exists (set_state (set_outcome c (mkOutcome res s' b e [])) FRAME_HEADER_TYPE), e, n.
  split; [lia|]. split; cycle 1.
  - intros l' Hl'. destruct (Hpf (drop (Z.to_nat n) l ++ l')) as (cur & Hc & Hcur).
    { apply Forall_app. split; [by apply Forall_drop|done]. }
    rewrite app_assoc, take_drop in Hc. rewrite Z.geb_leb, (proj2 (Z.leb_le n _)).
    2: { rewrite zlen_app. unfold zlen in *. lia. }
    rewrite Hc. cbn [mbind option_bind]. eexists. split; [done|]. cbn. intros He Hb.
    rewrite (Hcur He Hb). rewrite drop_app_le; [done|]. unfold zlen in Hn. lia.
  - by split.
Qed.

(** ** DATA payloads *)

(** The state after [k] bytes of the payload. *)
Definition streamed c k : Codec S :=
  let c1 := set_pending (set_error (set_paused c false) None) (pendingDataFrameBytes_ c - k) in
  if pendingDataFrameBytes_ c1 =? 0 then set_state c1 FRAME_HEADER_TYPE else c1.

Lemma iteration_stream c l : wf c -> bytes_ok l -> frameState_ c = FRAME_PAYLOAD_STREAMING ->
  0 < zlen l -> let k := Z.min (pendingDataFrameBytes_ c) (zlen l) in
  exists e, iteration c l (zlen l) = Some (streamed c k, drop (Z.to_nat k) l, e, Some k) /\
    tokens e = inr <$> (byte_token <$> take (Z.to_nat k) l) /\
    forall l', bytes_ok l' -> pendingDataFrameBytes_ c <= zlen l ->
      iteration c (l ++ l') (zlen (l ++ l')) = Some (streamed c k, drop (Z.to_nat k) l ++ l', e, Some k).
Proof.
  intros [Hs HA] Hl HF H0 k. rewrite HF in HA. destruct HA as [HA Hp].
  assert (Hk : 0 < k <= zlen l) by lia.
  destruct (parse_stream (derived c) (take (Z.to_nat k) l) Hs HA (Forall_take _ _ _ Hl)) as (e & He & Ht).
  rewrite take_zlen in He by lia.
  assert (Hsub : forall k', 0 <= k' <= pendingDataFrameBytes_ c ->
    u64 (pendingDataFrameBytes_ c - k') = pendingDataFrameBytes_ c - k').
  { intros k' Hk'. apply u64_id. unfold kEightByteLimit in Hp. unfold_ints. lia. }
  assert (G : forall l', bytes_ok l' -> Z.min (pendingDataFrameBytes_ c) (zlen (l ++ l')) = k ->
    iteration c (l ++ l') (zlen (l ++ l')) =
      Some (streamed c k, drop (Z.to_nat k) l ++ l', onEvent <$> e, Some k)).
  { intros l' Hl' Hm. unfold iteration. rewrite HF, Hm, Z.gtb_ltb, (proj2 (Z.ltb_lt 0 _)).
    2: { rewrite zlen_app. unfold zlen in *. lia. }
    specialize (He (drop (Z.to_nat k) l ++ l')). rewrite app_assoc, take_drop in He.
    rewrite He by (apply Forall_app; split; [by apply Forall_drop|done]).
    cbn [fmap option_fmap option_map mbind option_bind length]. rewrite (Hsub k) by lia.
    unfold streamed. cbn. destruct (_ =? 0); done. }
  exists (onEvent <$> e). split; [|split].
  - specialize (G [] ltac:(constructor)). rewrite !app_nil_r in G. by apply G.
  - rewrite tokens_events. by rewrite Ht.
  - intros l' Hl' Hle. apply G; [done|]. rewrite zlen_app. unfold zlen in *. lia.
Qed.

Lemma streamed_wf c k : wf c -> frameState_ c = FRAME_PAYLOAD_STREAMING ->
  0 <= k <= pendingDataFrameBytes_ c -> wf (streamed c k).
Proof.
  intros [Hs HA] HF Hk. rewrite HF in HA. destruct HA as [HA Hp]. unfold streamed. cbn.
  destruct (Z.eqb_spec (pendingDataFrameBytes_ c - k) 0); split; cbn; try done.
  rewrite HF. split; [done|lia].
Qed.

Lemma add_parsed_wf c n : wf c -> wf (add_parsed c n).
Proof. done. Qed.

(** ** A run of the loop *)

Inductive runs : Codec S -> list Z -> Codec S -> list Z -> list (Event E) -> Prop :=
| runs_stop c l : going c l = false -> runs c l c l []
| runs_break c l c1 cur e : going c l = true -> iteration c l (zlen l) = Some (c1, cur, e, None) ->
    runs c l c1 l e
| runs_step c l c1 cur e n c2 r e' : going c l = true -> 0 < n <= zlen l ->
    iteration c l (zlen l) = Some (c1, cur, e, Some n) ->
    runs (add_parsed c1 n) (drop (Z.to_nat n) l) c2 r e' -> runs c l c2 r (e ++ e').

Lemma iteration_cases c l : wf c -> bytes_ok l -> going c l = true ->
  waits c l \/ (exists c1, refuses c l c1) \/
  exists c1 cur e n, iteration c l (zlen l) = Some (c1, cur, e, Some n) /\ 0 < n <= zlen l /\ wf c1 /\
    (connError_ c1 = None -> parserPaused_ c1 = false -> cur = drop (Z.to_nat n) l).
Proof.
  intros Hw Hl HG.
  assert (St : (exists c1 e n, steps c l c1 e n) -> exists c1 cur e n,
    iteration c l (zlen l) = Some (c1, cur, e, Some n) /\ 0 < n <= zlen l /\ wf c1 /\
    (connError_ c1 = None -> parserPaused_ c1 = false -> cur = drop (Z.to_nat n) l)).
  { intros (c1 & e & n & Hn & Hw1 & Hi). destruct (Hi [] ltac:(constructor)) as (cur & Hi' & Hc).
    rewrite app_nil_r in Hi', Hc. eauto 10. }
  destruct (frameState_ c) eqn:HF.
  - destruct (iteration_type c l Hw Hl HF) as [?|[?|?]]; auto.
  - destruct (iteration_length c l Hw Hl HG HF); auto.
  - destruct (iteration_payload c l Hw Hl HF); auto.
  - apply going_true in HG as (_ & H0 & _).
    destruct (iteration_stream c l Hw Hl HF H0) as (e & Hi & _ & _). right; right.
    assert (Hp : 0 < pendingDataFrameBytes_ c) by (destruct Hw as [_ Hw]; rewrite HF in Hw; lia).
    eexists _, _, _, _. split; [exact Hi|]. split; [lia|]. split; [|done].
    apply streamed_wf; [done..|lia].
Qed.

(** The loop returns, within its fuel, and has run. *)
Lemma loop_runs fuel : forall c l tot, wf c -> bytes_ok l -> (List.length l < fuel)%nat ->
  exists c' r e, ingress_loop fuel c l (zlen l) tot = Some (c', tot + (zlen l - zlen r), e) /\
    runs c l c' r e /\ wf c' /\ exists p, l = p ++ r.
Proof.
  induction fuel as [|fuel IH]; intros c l tot Hw Hl Hf; [lia|]. cbn [ingress_loop].
  fold (going c l). destruct (going c l) eqn:HG.
  2: { exists c, l, []. split; [do 3 f_equal; lia|]. split; [by constructor|]. split; [done|by exists []]. }
  destruct (iteration_cases c l Hw Hl HG) as [W|[(c1 & Hw1 & He & Hi)|(c1 & cur & e & n & Hi & Hn & Hw1 & Hc)]].
  - red in W. rewrite W. cbn. exists c, l, []. split; [do 3 f_equal; lia|].
    split; [by eapply runs_break|]. split; [done|by exists []].
  - destruct (Hi [] ltac:(constructor)) as (cur & Hi'). rewrite app_nil_r in Hi'. rewrite Hi'. cbn.
    exists c1, l, []. split; [do 3 f_equal; lia|]. split; [by eapply runs_break|]. split; [done|by exists []].
  - rewrite Hi. cbn. rewrite (proj2 (Z.ltb_ge (zlen l) n)) by lia.
    set (l' := drop (Z.to_nat n) l).
    assert (Hz : zlen l - n = zlen l') by (unfold l', zlen in *; rewrite length_drop; lia).
    assert (Hl' : bytes_ok l') by (by apply Forall_drop). rewrite Hz.
    assert (R : exists c' r e', ingress_loop fuel (add_parsed c1 n) cur (zlen l') (tot + n) =
        Some (c', tot + n + (zlen l' - zlen r), e') /\ runs (add_parsed c1 n) l' c' r e' /\ wf c' /\
        exists p, l' = p ++ r).
    { destruct (decide (connError_ c1 = None /\ parserPaused_ c1 = false)) as [[H1 H2]|H12].
      - rewrite (Hc H1 H2). apply IH; [done..|]. unfold l', zlen in *. rewrite length_drop. lia.
      - assert (G0 : forall x : Z, bool_decide (connError_ (add_parsed c1 n) = None) && (x >? 0) &&
          negb (parserPaused_ (add_parsed c1 n)) = false).
        { intros x. cbn. destruct (connError_ c1), (parserPaused_ c1); try done; cbn;
            [by rewrite andb_false_r|tauto]. }
        exists (add_parsed c1 n), l', []. split; [destruct fuel; cbn [ingress_loop]; rewrite G0; do 3 f_equal; lia|].
        split; [apply runs_stop, G0|]. split; [done|by exists []]. }
    destruct R as (c' & r & e' & HL & HR & Hw' & (p & Hp)). rewrite HL. cbn.
    exists c', r, (e ++ e'). split; [do 3 f_equal; lia|]. split; [by eapply runs_step|]. split; [done|].
    exists (take (Z.to_nat n) l ++ p). rewrite <- app_assoc, <- Hp. symmetry. apply take_drop.
Qed.

(** ** Two runs are one *)

Lemma runs_inv_stop c l c' r e : runs c l c' r e -> going c l = false -> c' = c /\ r = l /\ e = [].
Proof.
  intros HR Hf. destruct HR as [|? ? ? ? ? HG|? ? ? ? ? ? ? ? ? HG]; [done|by rewrite Hf in HG..].
Qed.

Lemma iteration_step c l c1 cur e n : wf c -> bytes_ok l -> going c l = true ->
  iteration c l (zlen l) = Some (c1, cur, e, Some n) -> 
  (frameState_ c = FRAME_PAYLOAD_STREAMING /\ zlen l < pendingDataFrameBytes_ c) \/ steps c l c1 e n.
Proof.
  intros Hw Hl HG Hi.
  assert (St : (exists c1 e n, steps c l c1 e n) -> steps c l c1 e n).
  { intros (c1' & e' & n' & Hs). destruct Hs as (Hn & Hw1 & Hi').
    destruct (Hi' [] ltac:(constructor)) as (cur' & E' & _). rewrite app_nil_r in E'.
    rewrite E' in Hi. simplify_eq. by split. }
  assert (Wt : waits c l -> steps c l c1 e n) by (unfold waits; rewrite Hi; done).
  destruct (frameState_ c) eqn:HF.
  - destruct (iteration_type c l Hw Hl HF) as [?|[(c' & _ & _ & Hi')|?]]; auto.
    destruct (Hi' [] ltac:(constructor)) as (cur' & E'). rewrite app_nil_r, Hi in E'. done.
  - destruct (iteration_length c l Hw Hl HG HF); auto.
  - destruct (iteration_payload c l Hw Hl HF); auto.
  - destruct (Z.lt_ge_cases (zlen l) (pendingDataFrameBytes_ c)); [by left|right].
    apply going_true in HG as (_ & H0 & _).
    destruct (iteration_stream c l Hw Hl HF H0) as (e' & Hi' & _ & Hx). rewrite Hi in Hi'. simplify_eq.
    assert (Hp : 0 < pendingDataFrameBytes_ c) by (destruct Hw as [_ Hw]; rewrite HF in Hw; lia).
    split; [lia|]. split; [apply streamed_wf; [done..|lia]|].
    intros l' Hl'. eexists. split; [by apply Hx|]. intros _ _. rewrite drop_app_le; [done|].
    unfold zlen. lia.
Qed.


Lemma runs_det c l c1 r1 e1 : runs c l c1 r1 e1 -> forall c2 r2 e2, runs c l c2 r2 e2 ->
  c1 = c2 /\ r1 = r2 /\ e1 = e2.
Proof.
  induction 1 as [c l HG|c l c1 cur e HG Hi|c l c1 cur e n c2 r e' HG Hn Hi Hr IH]; intros d q f Hd.
  - by destruct (runs_inv_stop _ _ _ _ _ Hd HG) as (-> & -> & ->).
  - inversion Hd as [? ? HG'|? ? ? ? ? _ Hi'|? ? ? ? ? ? ? ? ? _ _ Hi']; subst;
      [by rewrite HG in HG'|rewrite Hi in Hi'; by simplify_eq..].
  - inversion Hd as [? ? HG'|? ? ? ? ? _ Hi'|? ? ? ? ? ? ? ? ? _ _ Hi' Hr']; subst;
      [by rewrite HG in HG'|rewrite Hi in Hi'; by simplify_eq|].
    rewrite Hi in Hi'. simplify_eq. by destruct (IH _ _ _ Hr') as (-> & -> & ->).
Qed.

(** A DATA payload cut in two. *)
Lemma streamed_twice c a b m : frameState_ c = FRAME_PAYLOAD_STREAMING -> 0 <= a -> 0 <= b ->
  a < pendingDataFrameBytes_ c ->
  m = a + b ->
  add_parsed (streamed (add_parsed (streamed c a) a) b) b = add_parsed (streamed c m) m.
Proof.
  intros HF Ha Hb Hlt ->. unfold streamed. cbn.
  rewrite (proj2 (Z.eqb_neq (pendingDataFrameBytes_ c - a) 0)) by lia. cbn.
  replace (pendingDataFrameBytes_ c - a - b) with (pendingDataFrameBytes_ c - (a + b)) by lia.
  assert (Ha2 : forall t, u64 (u64 (t + a) + b) = u64 (t + (a + b))).
  { intros t. unfold u64. rewrite Z.add_mod_idemp_l by lia. f_equal. lia. }
  destruct (_ =? 0); unfold add_parsed; cbn; by rewrite Ha2.
Qed.

Lemma runs_stream_app c l1 l2 c1 cur e n c2 r2 e2 : wf c -> bytes_ok l1 -> bytes_ok l2 ->
  going c l1 = true -> frameState_ c = FRAME_PAYLOAD_STREAMING -> zlen l1 < pendingDataFrameBytes_ c ->
  iteration c l1 (zlen l1) = Some (c1, cur, e, Some n) ->
  runs (add_parsed c1 n) (drop (Z.to_nat n) l1 ++ l2) c2 r2 e2 ->
  exists e', runs c (l1 ++ l2) c2 r2 e' /\ tokens e' = tokens (e ++ e2).
Proof.
  intros Hw Hl1 Hl2 HG HF Hlt Hi HR. pose proof HG as HG1. apply going_true in HG as (Hce & H0 & Hpa).
  destruct (iteration_stream c l1 Hw Hl1 HF H0) as (e' & Hi' & Ht & _). rewrite Hi in Hi'. simplify_eq.
  rewrite Z.min_r in * by lia.
  assert (D : drop (Z.to_nat (zlen l1)) l1 = []) by (apply drop_ge; unfold zlen; lia).
  assert (Tk : take (Z.to_nat (zlen l1)) l1 = l1) by (apply take_ge; unfold zlen; lia).
  rewrite D in HR, Hi. rewrite Tk in Ht. cbn [app] in HR.
  set (c1 := add_parsed (streamed c (zlen l1)) (zlen l1)) in *.
  assert (Hw1 : wf c1) by (apply add_parsed_wf, streamed_wf; [done..|unfold zlen in *; lia]).
  destruct (decide (l2 = [])) as [->|Hne].
  { exists (e' ++ []). rewrite app_nil_r. destruct (runs_inv_stop _ _ _ _ _ HR) as (-> & -> & ->).
    { unfold going. by rewrite andb_false_r. }
    split; [|done]. eapply (runs_step _ _ _ _ _ (zlen l1)); [done|lia|exact Hi|].
    fold c1. rewrite D. apply runs_stop. unfold going. by rewrite andb_false_r. }
  assert (H02 : 0 < zlen l2) by (destruct l2; [done|rewrite zlen_cons; unfold zlen; lia]).
  assert (Hst : frameState_ c1 = FRAME_PAYLOAD_STREAMING /\ connError_ c1 = None /\ parserPaused_ c1 = false /\
    pendingDataFrameBytes_ c1 = pendingDataFrameBytes_ c - zlen l1).
  { unfold c1, streamed. cbn. by rewrite (proj2 (Z.eqb_neq (pendingDataFrameBytes_ c - zlen l1) 0)) by lia. }
  destruct Hst as (HF1 & Hce1 & Hpa1 & Hp1).
  assert (HG2 : going c1 l2 = true) by (by apply going_true).
  destruct (iteration_stream c1 l2 Hw1 Hl2 HF1 H02) as (e2' & Hi2 & Ht2 & _).
  set (k2 := Z.min (pendingDataFrameBytes_ c1) (zlen l2)) in *.
  assert (HR2 : exists e3, runs (add_parsed (streamed c1 k2) k2) (drop (Z.to_nat k2) l2) c2 r2 e3 /\ e2 = e2' ++ e3).
  { inversion HR as [? ? HG'|? ? ? ? ? _ Hj|? ? ? ? ? ? ? ? ? _ _ Hj Hr']; subst;
      [by rewrite HG2 in HG'|by rewrite Hi2 in Hj|rewrite Hi2 in Hj; simplify_eq; eauto]. }
  destruct HR2 as (e3 & HR3 & ->).
  destruct (iteration_stream c (l1 ++ l2) Hw (Forall_app_2 _ _ _ Hl1 Hl2) HF) as (e4 & Hi4 & Ht4 & _).
  { rewrite zlen_app. unfold zlen in *. lia. }
  set (m := Z.min (pendingDataFrameBytes_ c) (zlen (l1 ++ l2))) in *.
  assert (Hm : m = zlen l1 + k2) by (unfold m, k2; rewrite zlen_app, Hp1; lia).
  assert (Hsplit : Z.to_nat m = (List.length l1 + Z.to_nat k2)%nat).
  { unfold zlen in *. lia. }
  exists (e4 ++ e3). split.
  - eapply (runs_step _ _ _ _ _ m); [by apply going_app|rewrite zlen_app; unfold zlen in *; lia|exact Hi4|].
    rewrite <- (streamed_twice c (zlen l1) k2 m) by (done || unfold zlen in *; lia).
    rewrite Hsplit, drop_app_add. exact HR3.
  - rewrite !tokens_app, Ht4, Ht, Ht2, Hsplit, take_app_add, !fmap_app, <- !app_assoc. done.
Qed.

Lemma runs_app c l1 c1 r1 e1 : runs c l1 c1 r1 e1 -> forall l2 c2 r2 e2,
  wf c -> bytes_ok l1 -> bytes_ok l2 -> runs c1 (r1 ++ l2) c2 r2 e2 ->
  exists e, runs c (l1 ++ l2) c2 r2 e /\ tokens e = tokens (e1 ++ e2).
Proof.
  induction 1 as [c l HG|c l c1 cur e HG Hi|c l c1 cur e n c' r e' HG Hn Hi Hr IH];
    intros l2 c2 r2 e2 Hw Hl Hl2 HR.
  - by exists e2.
  - destruct (iteration_cases c l Hw Hl HG) as [W|[(c1' & Hw1 & He & Hi')|(? & ? & ? & ? & Hi' & _)]].
    + red in W. rewrite W in Hi. simplify_eq. by exists e2.
    + destruct (Hi' [] ltac:(constructor)) as (cur' & E'). rewrite app_nil_r, Hi in E'. simplify_eq.
      destruct (runs_inv_stop _ _ _ _ _ HR (going_error _ _ He)) as (-> & -> & ->).
      destruct (Hi' l2 Hl2) as (cur2 & E2). exists []. split; [|done].
      eapply runs_break; [by apply going_app|exact E2].
    + by rewrite Hi in Hi'.
  - destruct (iteration_step c l c1 cur e n Hw Hl HG Hi) as [[HF Hlt]|(_ & Hw1 & Hi')].
    + pose proof HG as HG1. apply going_true in HG1 as (_ & H0 & _).
      destruct (iteration_stream c l Hw Hl HF H0) as (e0 & Hi0 & _ & _).
      rewrite Hi in Hi0. simplify_eq. rewrite Z.min_r in * by lia.
      assert (D : drop (Z.to_nat (zlen l)) l = []) by (apply drop_ge; unfold zlen; lia).
      rewrite D in Hr. destruct (runs_inv_stop _ _ _ _ _ Hr) as (-> & -> & ->).
      { unfold going. by rewrite andb_false_r. }
      rewrite app_nil_r. eapply runs_stream_app; try done. by rewrite D.
    + destruct (IH l2 c2 r2 e2 Hw1 (Forall_drop _ _ _ Hl) Hl2 HR) as (e3 & HR3 & Ht3).
      destruct (Hi' l2 Hl2) as (cur2 & E2 & _). exists (e ++ e3). split.
      * eapply (runs_step _ _ _ _ _ n); [by apply going_app|rewrite zlen_app; unfold zlen in *; lia|exact E2|].
        rewrite drop_app_le by (unfold zlen in *; lia). done.
      * rewrite <- app_assoc, !(tokens_app e). by rewrite Ht3.
Qed.


(** ** Calls *)

Lemma checkConnectionError_wf c : wf c -> wf (fst (checkConnectionError (E := E) c)).
Proof. intros Hw. unfold checkConnectionError. destruct (connError_ c); [|done]. cbn. done. Qed.

(** A call is a run and the report of an error. *)
Lemma call_runs c l : wf c -> bytes_ok l -> connError_ c = None ->
  exists c1 r e1, runs c l c1 r e1 /\ wf c1 /\ (exists p, l = p ++ r) /\
    onFramedIngress c l = Some (fst (checkConnectionError (E := E) c1), zlen l - zlen r,
                                e1 ++ snd (checkConnectionError c1)).
Proof.
  intros Hw Hl Hc. unfold onFramedIngress. rewrite Hc, bool_decide_eq_true_2 by done.
  destruct (loop_runs (Datatypes.S (List.length l)) c l 0 Hw Hl ltac:(lia)) as (c1 & r & e & HL & HR & Hw1 & Hp).
  exists c1, r, e. rewrite HL. split; [done|]. split; [done|]. split; [done|]. cbn [mbind option_bind].
  by destruct (checkConnectionError (E := E) c1).
Qed.

Lemma call_total c l : wf c -> bytes_ok l ->
  exists c' n e, onFramedIngress c l = Some (c', n, e) /\ wf c' /\ 0 <= n <= zlen l.
Proof.
  intros Hw Hl. destruct (connError_ c) eqn:Hc.
  - unfold onFramedIngress. rewrite Hc. cbn. exists c, 0, []. unfold zlen. split; [done|]. split; [done|lia].
  - destruct (call_runs c l Hw Hl Hc) as (c1 & r & e & _ & Hw1 & (p & ->) & HC). rewrite HC.
    eexists _, _, _. split; [done|]. split; [by apply checkConnectionError_wf|].
    rewrite zlen_app. unfold zlen. lia.
Qed.

Lemma call_app c l1 l2 c1 n1 e1 c2 n2 e2 : wf c -> bytes_ok l1 -> bytes_ok l2 ->
  onFramedIngress c l1 = Some (c1, n1, e1) ->
  onFramedIngress c1 (drop (Z.to_nat n1) l1 ++ l2) = Some (c2, n2, e2) ->
  exists e, onFramedIngress c (l1 ++ l2) = Some (c2, n1 + n2, e) /\ tokens e = tokens (e1 ++ e2).
Proof.
  intros Hw Hl1 Hl2 H1 H2. destruct (connError_ c) eqn:Hc.
  { unfold onFramedIngress in *. rewrite Hc in *. cbn in *. simplify_eq. rewrite Hc in H2. cbn in H2.
    simplify_eq. by exists []. }
  destruct (call_runs c l1 Hw Hl1 Hc) as (d & r & ed & HR & Hwd & (p & Hp) & HC). rewrite H1 in HC. simplify_eq.
  assert (Hr : bytes_ok r) by (by apply Forall_app in Hl1 as [_ ?]).
  rewrite zlen_app in H2. replace (zlen p + zlen r - zlen r) with (zlen p) in H2 by lia.
  rewrite drop_zlen_app in H2 by done.
  assert (Hw2 : bytes_ok (r ++ l2)) by (by apply Forall_app).
  assert (Happ : bytes_ok ((p ++ r) ++ l2)) by (by apply Forall_app).
  destruct (call_runs c ((p ++ r) ++ l2) Hw Happ Hc) as (d2 & r2 & e3 & HR2 & _ & _ & HC2).
  rewrite HC2. destruct (connError_ d) as [err|] eqn:Hd.
  - assert (Hck : checkConnectionError (E := E) d = (set_paused d true, [onSessionError err])).
    { unfold checkConnectionError, setParserPaused. rewrite Hd. cbn. by rewrite ?andb_false_r. }
    rewrite Hck in H2 |- *. cbn [fst snd] in *. unfold onFramedIngress in H2. cbn in H2.
    rewrite Hd in H2. cbn in H2. simplify_eq.
    destruct (runs_app _ _ _ _ _ HR l2 d (r ++ l2) []) as (e & HR3 & Ht); try done.
    { apply runs_stop, going_error. by rewrite Hd. }
    destruct (runs_det _ _ _ _ _ HR2 _ _ _ HR3) as (-> & -> & ->). rewrite Hck.
    eexists. split; [cbn; do 3 f_equal; rewrite !zlen_app; lia|].
    rewrite !tokens_app in *. rewrite Ht. by rewrite !app_nil_r.
  - assert (Hck : checkConnectionError (E := E) d = (d, [])) by (unfold checkConnectionError; by rewrite Hd).
    rewrite Hck in H2 |- *. cbn [fst snd] in *.
    destruct (call_runs d (r ++ l2) Hwd Hw2 Hd) as (d3 & r3 & e4 & HR3 & _ & _ & HC3). rewrite HC3 in H2.
    simplify_eq. destruct (runs_app _ _ _ _ _ HR l2 _ _ _ Hw Hl1 Hl2 HR3) as (e & HR4 & Ht).
    destruct (runs_det _ _ _ _ _ HR2 _ _ _ HR4) as (-> & -> & ->).
    eexists. split; [do 3 f_equal; rewrite !zlen_app; lia|].
    rewrite !tokens_app in *. rewrite Ht, app_nil_r. by rewrite <- app_assoc.
Qed.

(** ** Feeding a codec *)

(** A stream arrives in [pieces]; what a call does not consume is kept for the next. *)
Fixpoint feed c (kept : list Z) (pieces : list (list Z)) : option (Codec S * list Z * list (Event E)) :=
  match pieces with
  | [] => Some (c, kept, [])
  | piece :: pieces =>
      '(c, n, events) ← onFramedIngress c (kept ++ piece);
      '(c, kept, events') ← feed c (drop (Z.to_nat n) (kept ++ piece)) pieces;
      Some (c, kept, events ++ events')
  end.

Lemma feed_call pieces : forall c kept piece, wf c -> bytes_ok kept -> bytes_ok piece -> Forall bytes_ok pieces ->
  exists c' n e e', feed c kept (piece :: pieces) =
      Some (c', drop (Z.to_nat n) (kept ++ piece ++ concat pieces), e) /\
    onFramedIngress c (kept ++ piece ++ concat pieces) = Some (c', n, e') /\ tokens e = tokens e' /\ wf c'.
Proof.
  induction pieces as [|q pieces IH]; intros c kept piece Hw Hk Hp Hps.
  - assert (Hkp : bytes_ok (kept ++ piece)) by (by apply Forall_app).
    destruct (call_total c _ Hw Hkp) as (c' & n & e & HC & Hw' & _).
    cbn [concat feed]. rewrite app_nil_r, HC. cbn. exists c', n, (e ++ []), e. by rewrite app_nil_r.
  - assert (Hkp : bytes_ok (kept ++ piece)) by (by apply Forall_app).
    apply Forall_cons in Hps as [Hq Hps].
    destruct (call_total c _ Hw Hkp) as (c1 & n & e & HC & Hw1 & Hn).
    set (rest := drop (Z.to_nat n) (kept ++ piece)).
    assert (Hrest : bytes_ok rest) by (by apply Forall_drop).
    destruct (IH c1 rest q Hw1 Hrest Hq Hps) as (c' & m & e2 & e2' & HF & HC2 & Ht & Hw').
    assert (Hqs : bytes_ok (q ++ concat pieces)) by (apply Forall_app; split; [done|by apply Forall_concat]).
    assert (Hm : 0 <= m).
    { destruct (call_total c1 (rest ++ q ++ concat pieces) Hw1) as (? & ? & ? & E1 & _ & ?).
      { by apply Forall_app. } rewrite HC2 in E1. simplify_eq. lia. }
    destruct (call_app c (kept ++ piece) (q ++ concat pieces) c1 n e c' m e2' Hw Hkp Hqs HC HC2)
      as (e3 & HC3 & Ht3).
    exists c', (n + m), (e ++ e2), e3.
    change (feed c kept (piece :: q :: pieces)) with
      ('(c, n, events) ← onFramedIngress c (kept ++ piece);
       '(c, kept, events') ← feed c (drop (Z.to_nat n) (kept ++ piece)) (q :: pieces);
       Some (c, kept, events ++ events')).
    rewrite HC. cbn [mbind option_bind]. fold rest. rewrite HF. cbn [mbind option_bind].
    cbn [concat]. rewrite (app_assoc kept). split; [|split; [done|split; [|done]]].
    + do 3 f_equal. unfold rest, zlen in *.
      rewrite Z2Nat.inj_add, <- drop_drop by lia. f_equal. by rewrite (drop_app_le (kept ++ piece)) by lia.
    + rewrite Ht3, !tokens_app, Ht. done.
Qed.

(** No bytes. *)
Lemma call_nil c : onFramedIngress c [] = Some (c, 0, []).
Proof.
  unfold onFramedIngress, checkConnectionError. cbn. destruct (connError_ c) eqn:Hc; cbn; [done|].
  change (zlen [] >? 0) with false. cbn. by rewrite Hc.
Qed.

(** The pieces do not matter. *)
Lemma pieces_ok c pieces : wf c -> Forall bytes_ok pieces ->
  exists c' n e e', feed c [] pieces = Some (c', drop (Z.to_nat n) (concat pieces), e) /\
    onFramedIngress c (concat pieces) = Some (c', n, e') /\ tokens e = tokens e' /\ wf c'.
Proof.
  intros Hw Hps. destruct pieces as [|p pieces].
  - exists c, 0, [], []. split; [done|]. split; [apply call_nil|done].
  - apply Forall_cons in Hps as [Hp Hps]. apply (feed_call pieces c [] p Hw (Forall_nil_2 _) Hp Hps).
Qed.


(** ** Whole frames *)

(** Between two frames. *)
Definition ready c : Prop :=
  wf c /\ frameState_ c = FRAME_HEADER_TYPE /\ connError_ c = None /\ parserPaused_ c = false.

(** The bytes of an integer. *)
Definition encodes (bs : list Z) (v : Z) : Prop :=
  bytes_ok bs /\ 0 < zlen bs <= 8 /\ 0 <= v <= kEightByteLimit /\
  forall rest atMost, bytes_ok rest -> zlen bs <= atMost ->
    decodeQuicInteger (bs ++ rest) atMost = Some ((v, zlen bs), rest).

Lemma going_ready c l : connError_ c = None -> parserPaused_ c = false -> 0 < zlen l -> going c l = true.
Proof. intros. by apply going_true. Qed.

Lemma going_nil c : going c [] = false.
Proof. unfold going. by rewrite andb_false_r. Qed.

(** A round that consumes all there is. *)
Lemma runs_last c l c1 cur e : going c l = true -> iteration c l (zlen l) = Some (c1, cur, e, Some (zlen l)) ->
  runs c l (add_parsed c1 (zlen l)) [] e.
Proof.
  intros HG Hi. rewrite <- (app_nil_r e). pose proof HG as (_ & H0 & _)%going_true.
  eapply (runs_step _ _ _ _ _ (zlen l)); [done|lia|exact Hi|].
  rewrite drop_ge by (unfold zlen; lia). apply runs_stop, going_nil.
Qed.

(** The payload of a frame that is not a DATA frame. *)
Lemma payload_runs c h data s' e : frameState_ c = FRAME_PAYLOAD -> connError_ c = None ->
  parserPaused_ c = false -> curHeader_ c = h -> length h = zlen data -> 0 < zlen data ->
  parseFrame (derived c) h data = Some (mkOutcome None s' false e []) ->
  exists c', runs c data c' [] e /\ frameState_ c' = FRAME_HEADER_TYPE /\ connError_ c' = None /\
    parserPaused_ c' = false /\ derived c' = s'.
Proof.
  intros HF Hce Hpa Hh Hlen H0 Hpf. eexists. split.
  - eapply runs_last; [by apply going_ready|].
    unfold iteration. rewrite HF, Hh, Hlen, Z.geb_leb, (proj2 (Z.leb_le _ _)) by lia. rewrite Hpf. done.
  - done.
Qed.

(** A frame in one call. *)
Lemma frame_call c t tb lb data s' e : ready c -> checkFrameAllowed (derived c) t = None ->
  t <> FrameType.DATA -> encodes tb t -> encodes lb (zlen data) -> bytes_ok data ->
  parseFrame (derived c) (mkHeader t (zlen data)) data = Some (mkOutcome None s' false e []) ->
  exists c', onFramedIngress c (tb ++ lb ++ data) =
      Some (c', zlen (tb ++ lb ++ data), onFrameHeader (zlen data) t :: e) /\ ready c' /\ derived c' = s'.
Proof.
  intros (Hw & HF & Hce & Hpa) Hal Ht (Htb & Ht0 & _ & Htd) (Hlb & Hl0 & Hlen & Hld) Hd Hpf.
  specialize (fun r Hr => Htd r 8 Hr ltac:(lia)) as Htd'. clear Htd. rename Htd' into Htd.
  specialize (fun r Hr => Hld r 8 Hr ltac:(lia)) as Hld'. clear Hld. rename Hld' into Hld.
  assert (Hl : bytes_ok (lb ++ data)) by (by apply Forall_app).
  assert (Hall : bytes_ok (tb ++ lb ++ data)) by (by apply Forall_app).
  set (c1 := add_parsed (set_state (set_header c (mkHeader t (length (curHeader_ c)))) FRAME_HEADER_LENGTH) (zlen tb)).
  assert (R : exists c', runs c1 (lb ++ data) c' [] (onFrameHeader (zlen data) t :: e) /\
    frameState_ c' = FRAME_HEADER_TYPE /\ connError_ c' = None /\ parserPaused_ c' = false /\ derived c' = s').
  { destruct (Z.eqb_spec (zlen data) 0) as [Hz|Hz].
    - assert (data = []) as -> by (destruct data; [done|rewrite zlen_cons in Hz; unfold zlen in Hz; lia]).
      rewrite app_nil_r in *. eexists. split.
      + eapply runs_last; [apply going_ready; [done..|lia]|].
        unfold iteration. cbn [frameState_ c1 add_parsed set_state]. specialize (Hld [] ltac:(constructor)).
        rewrite app_nil_r in Hld. rewrite Hld. change (zlen (@nil Z)) with 0 in *. cbn [Z.eqb].
        change (parseFrame (derived c) (mkHeader t 0) []) with (parseFrame (derived c1) (mkHeader t 0) []) in Hpf.
        cbn in Hpf |- *. rewrite Hpf. done.
      + done.
    - edestruct (payload_runs (add_parsed (set_state (set_pending (set_header c1 (mkHeader t (zlen data)))
        (zlen data)) FRAME_PAYLOAD) (zlen lb)) (mkHeader t (zlen data)) data s' e) as (c' & HR & Hc'); try done.
      { unfold zlen in *. lia. }
      exists c'. split; [|done]. change (?x :: e) with ([x] ++ e).
      eapply (runs_step _ _ _ _ _ (zlen lb)); [apply going_ready; [done..|rewrite zlen_app; unfold zlen in *; lia]| | |].
      + rewrite zlen_app. unfold zlen in *. lia.
      + unfold iteration. cbn [frameState_ c1 add_parsed set_state]. rewrite (Hld _ Hd).
        rewrite (proj2 (Z.eqb_neq (zlen data) 0)) by done. change (type (curHeader_ c1)) with t. cbn [type].
        rewrite (proj2 (Z.eqb_neq t FrameType.DATA)) by done. done.
      + rewrite drop_zlen_app by done. exact HR. }
  destruct R as (c' & HR & HF' & Hce' & Hpa' & Hs').
  assert (R : runs c (tb ++ lb ++ data) c' [] (onFrameHeader (zlen data) t :: e)).
  { change (?x :: e) with ([] ++ (x :: e)).
    eapply (runs_step _ _ _ _ _ (zlen tb)); [apply going_ready; [done..|rewrite zlen_app; unfold zlen in *; lia]| | |].
    - rewrite zlen_app. unfold zlen in *. lia.
    - unfold iteration. rewrite HF, (Htd _ Hl). cbn [derived set_header]. rewrite Hal. done.
    - rewrite drop_zlen_app by done. exact HR. }
  destruct (call_runs c _ Hw Hall Hce) as (d & r & e1 & HR1 & Hwd & _ & HC).
  destruct (runs_det _ _ _ _ _ HR1 _ _ _ R) as (-> & -> & ->). exists c'.
  assert (Hck : checkConnectionError (E := E) c' = (c', [])) by (unfold checkConnectionError; by rewrite Hce').
  rewrite HC, Hck. cbn [fst snd]. rewrite app_nil_r. split; [do 3 f_equal; unfold zlen; cbn; lia|].
  by split.
Qed.

(** Calls that consume everything. *)
Lemma call_chain c l1 l2 c1 e1 c2 e2 : wf c -> bytes_ok l1 -> bytes_ok l2 ->
  onFramedIngress c l1 = Some (c1, zlen l1, e1) -> onFramedIngress c1 l2 = Some (c2, zlen l2, e2) ->
  exists e, onFramedIngress c (l1 ++ l2) = Some (c2, zlen (l1 ++ l2), e) /\ tokens e = tokens (e1 ++ e2).
Proof.
  intros Hw Hl1 Hl2 H1 H2.
  destruct (call_app c l1 l2 c1 (zlen l1) e1 c2 (zlen l2) e2 Hw Hl1 Hl2 H1) as (e & He & Ht).
  - rewrite drop_ge by (unfold zlen; lia). done.
  - exists e. by rewrite zlen_app.
Qed.

End pieces.
End HQPieces.
