(* ===== verification/HQFrames.v ===== *)
(** * HTTP/3 frames round-trip

    What the writers of [HQFramer] append to a queue, and that the parsers read it
    back: [HQFrames.hq_frame_roundtrip] for every frame the framer knows. *)

From S2P Require Import Prelude QuicInteger StructuredHeaders StructuredResults HQFramer HQFramedCodec HQPieces.

Module HQFrames.
Import QuicInteger StructuredHeaders HQ HQFramer.

(** A frame as the writers take it. *)
Inductive Frame :=
| FData (data : list Z)
| FHeaders (data : list Z)
| FCancelPush (pushId : Z)
| FSettings (settings : list (Z * Z))
| FPushPromise (pushId : Z) (data : list Z)
| FGoaway (id : Z)
| FMaxPushId (maxPushId : Z)
| FPriorityUpdate (streamId : Z) (text : list Z)
| FPushPriorityUpdate (pushId : Z) (text : list Z).

Definition writeFrame (queue : list Z) (f : Frame) : WriteResult :=
  match f with
  | FData d => writeData queue d
  | FHeaders d => writeHeaders queue d
  | FCancelPush i => writeCancelPush queue i
  | FSettings l => writeSettings queue l
  | FPushPromise i d => writePushPromise queue i d
  | FGoaway i => writeGoaway queue i
  | FMaxPushId i => writeMaxPushId queue i
  | FPriorityUpdate i t => writePriorityUpdate queue i t
  | FPushPriorityUpdate i t => writePushPriorityUpdate queue i t
  end.

(** A frame as the parsers return it. *)
Inductive Parsed :=
| PData (data : list Z)
| PHeaders (data : list Z)
| PCancelPush (pushId : Z)
| PSettings (settings : list (Z * Z))
| PPushPromise (pushId : Z) (data : list Z)
| PGoaway (id : Z)
| PMaxPushId (maxPushId : Z)
| PPriority (id : Z) (pri : HTTPPriority)
| PUnknown (type : Z).

Section frames.
Context `{CV : Conversions}.

(** The header and the parser for the frame type. *)
Definition parsePayload (h : FrameHeader) : parser ErrorCode Parsed :=
  if type h =? FrameType.DATA then d ← parseData h; mret (PData d)
  else if type h =? FrameType.HEADERS then d ← parseHeaders h; mret (PHeaders d)
  else if type h =? FrameType.CANCEL_PUSH then i ← parseCancelPush h; mret (PCancelPush i)
  else if type h =? FrameType.SETTINGS then l ← parseSettings h; mret (PSettings l)
  else if type h =? FrameType.PUSH_PROMISE then p ← parsePushPromise h; mret (PPushPromise p.1 p.2)
  else if type h =? FrameType.GOAWAY then i ← parseGoaway h; mret (PGoaway i)
  else if type h =? FrameType.MAX_PUSH_ID then i ← parseMaxPushId h; mret (PMaxPushId i)
  else if (type h =? FrameType.FB_PRIORITY_UPDATE) || (type h =? FrameType.FB_PUSH_PRIORITY_UPDATE)
  then p ← parsePriorityUpdate h; mret (PPriority p.1 p.2)
  else mret (PUnknown (type h)).

Definition readFrame : parser ErrorCode Parsed := fun cursor =>
  match decodeQuicInteger cursor 8 with
  | None => PErr HTTP_FRAME_ERROR
  | Some ((t, _), cursor) =>
      match decodeQuicInteger cursor 8 with
      | None => PErr HTTP_FRAME_ERROR
      | Some ((len, _), cursor) => parsePayload (mkHeader t len) cursor
      end
  end.

(** What a reader gets from a frame: a setting with an unknown identifier is left
    out, the text of a priority is parsed. *)
Definition delivered (f : Frame) : option Parsed :=
  match f with
  | FData d => Some (PData d)
  | FHeaders d => Some (PHeaders d)
  | FCancelPush i => Some (PCancelPush i)
  | FSettings l => Some (PSettings (filter (fun p => knownSetting p.1 = true) l))
  | FPushPromise i d => Some (PPushPromise i d)
  | FGoaway i => Some (PGoaway i)
  | FMaxPushId i => Some (PMaxPushId i)
  | FPriorityUpdate i t | FPushPriorityUpdate i t => PPriority i <$> httpPriorityFromString t
  end.

Definition id_ok (i : Z) : Prop := 0 <= i <= kEightByteLimit.
Definition settings_ok (l : list (Z * Z)) : Prop := Forall (fun p => id_ok p.1 /\ id_ok p.2) l.

(** Integers below 2^62, bytes, and a payload that fits. *)
Definition frame_ok (f : Frame) : Prop :=
  match f with
  | FData d | FHeaders d => bytes_ok d /\ zlen d <= kEightByteLimit
  | FCancelPush i | FGoaway i | FMaxPushId i => id_ok i
  | FSettings l => settings_ok l /\ 16 * zlen l <= kEightByteLimit
  | FPushPromise i d | FPriorityUpdate i d | FPushPriorityUpdate i d =>
      id_ok i /\ bytes_ok d /\ zlen d + 8 <= kEightByteLimit
  end.

(** ** What is written *)

Lemma integer_written v : id_ok v -> exists bs, HQPieces.encodes bs v /\
  getQuicIntegerSize v = Some (zlen bs) /\ forall q, writeInteger q v = (q ++ bs, Some (zlen bs)).
Proof.
  intros Hv. destruct (integer_roundtrip v Hv) as (bs & n & HE & HS & Hn & Hr & Hb & HD). subst n. exists bs.
  split; [split; [done|split; [lia|by split]]|]. split; [done|]. intros q. unfold writeInteger. by rewrite HE.
Qed.

Lemma header_written t len : id_ok t -> id_ok len -> exists tb lb, HQPieces.encodes tb t /\ HQPieces.encodes lb len /\
  forall q, writeFrameHeader q t len = (q ++ tb ++ lb, Some (zlen (tb ++ lb))).
Proof.
  intros Ht Hl. destruct (integer_written t Ht) as (tb & Et & _ & Wt), (integer_written len Hl) as (lb & El & _ & Wl).
  exists tb, lb. split; [done|]. split; [done|]. intros q. unfold writeFrameHeader. rewrite Wt, Wl.
  by rewrite zlen_app, app_assoc.
Qed.

(** [carries t payload w]: [w] appends a frame of type [t] with this payload. *)
Definition carries (t : Z) (payload : list Z) (w : list Z -> WriteResult) : Prop :=
  bytes_ok payload /\
  exists tb lb, HQPieces.encodes tb t /\ HQPieces.encodes lb (zlen payload) /\
    forall q, w q = (q ++ tb ++ lb ++ payload, Some (zlen (tb ++ lb ++ payload))).

Lemma simple_carries t data : id_ok t -> bytes_ok data -> zlen data <= kEightByteLimit ->
  carries t data (fun q => writeSimpleFrame q t data).
Proof.
  intros Ht Hd Hlen. split; [done|].
  destruct (header_written t (zlen data) Ht ltac:(unfold id_ok, zlen in *; lia)) as (tb & lb & Et & El & Hw).
  exists tb, lb. split; [done|]. split; [done|]. intros q. unfold writeSimpleFrame. rewrite Hw.
  rewrite <- !app_assoc, !zlen_app. do 2 f_equal. lia.
Qed.

Lemma id_carries t i text : id_ok t -> id_ok i -> bytes_ok text -> zlen text + 8 <= kEightByteLimit ->
  exists bs, HQPieces.encodes bs i /\ carries t (bs ++ text) (fun q => writeIdFrame q t i text).
Proof.
  intros Ht Hi Htx Hlen. destruct (integer_written i Hi) as (bs & Eb & Hs & Hw). exists bs. split; [done|].
  destruct Eb as (Hb & Hn & _). unfold writeIdFrame. rewrite Hs, Hw. cbn [fst app].
  apply simple_carries; [done|by apply Forall_app|rewrite zlen_app; lia].
Qed.

(** The payload of a SETTINGS frame. *)
Inductive settings_bytes : list (Z * Z) -> list Z -> Prop :=
| sb_nil : settings_bytes [] []
| sb_cons i v l ib vb bs : HQPieces.encodes ib i -> HQPieces.encodes vb v -> settings_bytes l bs ->
    settings_bytes ((i, v) :: l) (ib ++ vb ++ bs).

Lemma settings_written l : settings_ok l -> exists bs, settings_bytes l bs /\ bytes_ok bs /\
  settingsSize l = Some (zlen bs) /\ zlen bs <= 16 * zlen l /\ forall q, writeSettingsPayload q l = q ++ bs.
Proof.
  induction 1 as [|[i v] l [Hi Hv] _ IH].
  { exists []. split; [constructor|]. split; [constructor|]. split; [done|]. split; [done|].
    intros q. by rewrite app_nil_r. }
  destruct IH as (bs & Hbs & Hok & Hsz & Hle & Hw).
  destruct (integer_written i Hi) as (ib & Ei & Si & Wi), (integer_written v Hv) as (vb & Ev & Sv & Wv).
  exists (ib ++ vb ++ bs). pose proof Ei as (Oi & Ni & _). pose proof Ev as (Ov & Nv & _).
  split; [by constructor|]. split; [unfold bytes_ok in *; rewrite !Forall_app; tauto|].
  split; [cbn; cbn in Si, Sv; rewrite Si; cbn; rewrite Sv; cbn; rewrite Hsz; cbn; rewrite !zlen_app; f_equal; lia|].
  split; [rewrite !zlen_app, zlen_cons; lia|].
  intros q. cbn. rewrite Wi. cbn. rewrite Wv. cbn. rewrite Hw. by rewrite <- !app_assoc.
Qed.

Lemma settings_carries l : settings_ok l -> 16 * zlen l <= kEightByteLimit ->
  exists bs, settings_bytes l bs /\ carries FrameType.SETTINGS bs (fun q => writeSettings q l).
Proof.
  intros Hl Hlen. destruct (settings_written l Hl) as (bs & Hbs & Hok & Hsz & Hle & Hw). exists bs.
  split; [done|]. split; [done|].
  destruct (header_written FrameType.SETTINGS (zlen bs)) as (tb & lb & Et & El & Hh).
  { unfold id_ok, kEightByteLimit, FrameType.SETTINGS. lia. }
  { unfold id_ok, zlen in *. lia. }
  exists tb, lb. split; [done|]. split; [done|]. intros q. unfold writeSettings. rewrite Hsz, Hh, Hw.
  rewrite <- !app_assoc, !zlen_app. do 2 f_equal. lia.
Qed.

(** ** What is read *)

Lemma u64_rest (bs rest : list Z) : zlen (bs ++ rest) <= kEightByteLimit ->
  u64 (zlen (bs ++ rest) - zlen bs) = zlen rest.
Proof.
  intros H. rewrite zlen_app in *. rewrite u64_id; [lia|]. unfold kEightByteLimit, zlen in *. unfold_ints. lia.
Qed.

Lemma id_parsed t bs i rest : HQPieces.encodes bs i -> bytes_ok rest ->
  parseIdOnlyFrame (mkHeader t (zlen bs)) (bs ++ rest) = POk i rest.
Proof.
  intros (Hb & Hn & Hi & HD) Hr. unfold parseIdOnlyFrame. cbn [HQ.length]. rewrite HD by (done || lia).
  by rewrite Z.sub_diag.
Qed.

Lemma settings_parsed l bs : settings_bytes l bs -> forall acc rest fuel, bytes_ok bs -> bytes_ok rest ->
  zlen bs <= kEightByteLimit -> (List.length l < fuel)%nat ->
  parseSettings_loop fuel (zlen bs) acc (bs ++ rest) =
    POk (acc ++ filter (fun p => knownSetting p.1 = true) l) rest.
Proof.
  induction 1 as [|i v l ib vb bs Ei Ev _ IH]; intros acc rest fuel Hok Hr Hle Hf.
  { rewrite app_nil_r. by destruct fuel. }
  destruct fuel as [|fuel]; [lia|]. cbn [parseSettings_loop].
  destruct Ei as (Oi & Ni & _ & Di), Ev as (Ov & Nv & _ & Dv).
  unfold bytes_ok in Hok. rewrite !Forall_app in Hok. destruct Hok as (_ & _ & Hok).
  rewrite Z.gtb_ltb, (proj2 (Z.ltb_lt 0 _)) by (rewrite !zlen_app; unfold zlen in *; lia).
  rewrite <- !app_assoc, Di.
  2: { unfold bytes_ok. rewrite !Forall_app. done. }
  2: { rewrite !zlen_app; unfold zlen in *; lia. }
  rewrite u64_rest by done. unfold decodeSettingValue. rewrite Dv.
  2: { by apply Forall_app. }
  2: { rewrite !zlen_app; unfold zlen in *; lia. }
  cbn [mbind option_bind]. rewrite u64_rest by (rewrite !zlen_app in *; unfold zlen in *; lia).
  cbn [List.length] in Hf. rewrite IH by (done || lia || (rewrite !zlen_app in *; unfold zlen in *; lia)).
  rewrite filter_cons. cbn [fst]. destruct (knownSetting i); case_decide; try done.
  by rewrite <- app_assoc.
Qed.

Lemma settings_count l bs : settings_bytes l bs -> (List.length l <= List.length bs)%nat.
Proof.
  induction 1 as [|i v l ib vb bs (_ & Ni & _) _ _ IH]; [done|]. rewrite !length_app. unfold zlen in *. cbn. lia.
Qed.

Lemma priority_frame_parsed t bs i text pri rest : HQPieces.encodes bs i -> bytes_ok text -> bytes_ok rest ->
  zlen (bs ++ text) <= kEightByteLimit -> httpPriorityFromString text = Some pri ->
  parsePriorityUpdate (mkHeader t (zlen (bs ++ text))) ((bs ++ text) ++ rest) = POk (i, pri) rest.
Proof.
  intros (Hb & Hn & Hi & HD) Ht Hr Hle Hp. unfold parsePriorityUpdate. cbn [HQ.length].
  rewrite <- app_assoc, HD by ((by apply Forall_app) || (rewrite zlen_app; unfold zlen; lia)).
  rewrite u64_rest by done. erewrite pbind_ok by (by apply readBytes_app). by rewrite Hp.
Qed.

(** Reading a frame that was written. *)
Lemma carries_read t payload w p : carries t payload w ->
  (forall rest, bytes_ok rest -> parsePayload (mkHeader t (zlen payload)) (payload ++ rest) = POk p rest) ->
  exists bytes, (forall q, w q = (q ++ bytes, Some (zlen bytes))) /\
    forall rest, bytes_ok rest -> readFrame (bytes ++ rest) = POk p rest.
Proof.
  intros (Hp & tb & lb & (Ot & Nt & _ & Dt) & (Ol & Nl & _ & Dl) & Hw) Hr.
  exists (tb ++ lb ++ payload). split; [done|]. intros rest Hrest. unfold readFrame. rewrite <- !app_assoc.
  assert (bytes_ok (payload ++ rest)) by (by apply Forall_app).
  rewrite Dt by ((by apply Forall_app) || lia). rewrite Dl by (done || lia). by apply Hr.
Qed.

Lemma promise_carries i d : id_ok i -> bytes_ok d -> zlen d + 8 <= kEightByteLimit ->
  exists bs, HQPieces.encodes bs i /\ carries FrameType.PUSH_PROMISE (bs ++ d) (fun q => writePushPromise q i d).
Proof.
  intros Hi Hd Hlen. destruct (integer_written i Hi) as (bs & Eb & Hs & Hw). exists bs. split; [done|].
  pose proof Eb as (Hb & Hn & _). split; [by apply Forall_app|].
  destruct (header_written FrameType.PUSH_PROMISE (zlen (bs ++ d))) as (tb & lb & Et & El & Hh).
  { unfold id_ok, kEightByteLimit, FrameType.PUSH_PROMISE. lia. }
  { unfold id_ok. rewrite zlen_app. unfold zlen in *. lia. }
  exists tb, lb. split; [done|]. split; [done|]. intros q. unfold writePushPromise.
  rewrite Hs. rewrite <- zlen_app, Hh, Hw. cbn [fst]. rewrite <- !app_assoc, !zlen_app. do 2 f_equal. lia.
Qed.

Lemma promise_parsed t bs i d rest : HQPieces.encodes bs i -> bytes_ok d -> bytes_ok rest ->
  zlen (bs ++ d) <= kEightByteLimit ->
  parsePushPromise (mkHeader t (zlen (bs ++ d))) ((bs ++ d) ++ rest) = POk (i, d) rest.
Proof.
  intros (Hb & Hn & Hi & HD) Ht Hr Hle. unfold parsePushPromise. cbn [HQ.length].
  rewrite <- app_assoc, HD by ((by apply Forall_app) || (rewrite zlen_app; unfold zlen; lia)).
  rewrite u64_rest by done. by erewrite pbind_ok by (by apply readBytes_app).
Qed.

(** [reads w p]: [w] appends a frame and [readFrame] returns [p] for it. *)
Definition reads (w : list Z -> WriteResult) (p : Parsed) : Prop :=
  exists bytes, (forall queue, w queue = (queue ++ bytes, Some (zlen bytes))) /\
    forall rest, bytes_ok rest -> readFrame (bytes ++ rest) = POk p rest.

Lemma simple_reads t d p : id_ok t -> bytes_ok d -> zlen d <= kEightByteLimit ->
  (forall rest, parsePayload (mkHeader t (zlen d)) (d ++ rest) = POk p rest) ->
  reads (fun q => writeSimpleFrame q t d) p.
Proof. intros Ht Hd Hle Hp. apply (carries_read _ _ _ _ (simple_carries t d Ht Hd Hle)). auto. Qed.

Lemma id_reads t i p : id_ok t -> id_ok i ->
  (forall bs rest, HQPieces.encodes bs i -> bytes_ok rest ->
     parsePayload (mkHeader t (zlen bs)) (bs ++ rest) = POk p rest) ->
  reads (fun q => writeIdFrame q t i []) p.
Proof.
  intros Ht Hi HP. destruct (id_carries t i [] Ht Hi) as (bs & Eb & Hc); [constructor|done|].
  rewrite app_nil_r in Hc. apply (carries_read _ _ _ _ Hc). auto.
Qed.

Lemma priority_reads t i d pri : id_ok t -> id_ok i -> bytes_ok d -> zlen d + 8 <= kEightByteLimit ->
  httpPriorityFromString d = Some pri ->
  t = FrameType.FB_PRIORITY_UPDATE \/ t = FrameType.FB_PUSH_PRIORITY_UPDATE ->
  reads (fun q => writeIdFrame q t i d) (PPriority i pri).
Proof.
  intros Ht Hi Hd Hlen Hp Hty. destruct (id_carries t i d Ht Hi Hd Hlen) as (bs & Eb & Hc).
  pose proof Hc as (_ & tb & lb & _ & (_ & _ & Hle & _) & _). apply (carries_read _ _ _ _ Hc). intros rest Hr.
  assert (HP : parsePriorityUpdate (mkHeader t (zlen (bs ++ d))) ((bs ++ d) ++ rest) = POk (i, pri) rest)
    by (by apply priority_frame_parsed; try lia).
  unfold parsePayload. by destruct Hty as [-> | ->]; cbn; erewrite pbind_ok by exact HP.
Qed.

Lemma settings_reads l : settings_ok l -> 16 * zlen l <= kEightByteLimit ->
  reads (fun q => writeSettings q l) (PSettings (filter (fun p => knownSetting p.1 = true) l)).
Proof.
  intros Hl Hlen. destruct (settings_carries l Hl Hlen) as (bs & Hbs & Hc).
  pose proof Hc as (Hok & tb & lb & _ & (_ & _ & Hle & _) & _). apply (carries_read _ _ _ _ Hc). intros rest Hr.
  unfold parsePayload. cbn. erewrite pbind_ok; [done|]. unfold parseSettings. cbn [HQ.length].
  pose proof (settings_count l bs Hbs).
  by rewrite (settings_parsed l bs Hbs) by (done || lia || (rewrite length_app; lia)).
Qed.

Lemma promise_reads i d : id_ok i -> bytes_ok d -> zlen d + 8 <= kEightByteLimit ->
  reads (fun q => writePushPromise q i d) (PPushPromise i d).
Proof.
  intros Hi Hd Hlen. destruct (promise_carries i d Hi Hd Hlen) as (bs & Eb & Hc).
  pose proof Hc as (_ & tb & lb & _ & (_ & _ & Hle & _) & _).
  apply (carries_read _ _ _ _ Hc). intros rest Hr. unfold parsePayload. cbn.
  by erewrite pbind_ok by (apply promise_parsed; done || lia).
Qed.

(** C18. HTTP/3 frames round-trip: for every frame with identifiers, setting values and
    payload below 2^62, the writer appends the frame to the queue and returns its
    length, and reading it in front of any other bytes gives the frame back and stops
    at its end.  Settings with unknown identifiers are dropped by the reader, and the
    text of a priority update is returned parsed. *)
Theorem hq_frame_roundtrip f p : frame_ok f -> delivered f = Some p ->
  exists bytes, (forall queue, writeFrame queue f = (queue ++ bytes, Some (zlen bytes))) /\
    forall rest, bytes_ok rest -> readFrame (bytes ++ rest) = POk p rest.
Proof.
  assert (K : forall t, 0 <= t <= 0xF701 -> id_ok t) by (unfold id_ok, kEightByteLimit; lia).
  change (frame_ok f -> delivered f = Some p -> reads (fun q => writeFrame q f) p).
  destruct f as [d|d|i|l|i d|i|i|i d|i d]; cbn [frame_ok delivered]; intros Hok Hdel; simplify_eq/=.
  - apply simple_reads; [by apply K|apply Hok..|]. intros rest. unfold parsePayload. cbn.
    by erewrite pbind_ok by (by apply readBytes_app).
  - apply simple_reads; [by apply K|apply Hok..|]. intros rest. unfold parsePayload. cbn.
    by erewrite pbind_ok by (by apply readBytes_app).
  - apply id_reads; [by apply K|done|]. intros bs rest Eb Hr. unfold parsePayload. cbn.
    by erewrite pbind_ok by (by apply id_parsed).
  - destruct Hok. by apply settings_reads.
  - destruct Hok as (? & ? & ?). by apply promise_reads.
  - apply id_reads; [by apply K|done|]. intros bs rest Eb Hr. unfold parsePayload. cbn.
    by erewrite pbind_ok by (by apply id_parsed).
  - apply id_reads; [by apply K|done|]. intros bs rest Eb Hr. unfold parsePayload. cbn.
    by erewrite pbind_ok by (by apply id_parsed).
  - destruct (httpPriorityFromString d) as [pri|] eqn:Hp; [|done]. simplify_eq/=.
    destruct Hok as (? & ? & ?). apply priority_reads; auto. by apply K.
  - destruct (httpPriorityFromString d) as [pri|] eqn:Hp; [|done]. simplify_eq/=.
    destruct Hok as (? & ? & ?). apply priority_reads; auto. by apply K.
Qed.

End frames.
Lemma hq_frame_roundtrip_witness :
  exists bytes, (forall queue, writeFrame queue (FSettings [(6, 131072); (0x21, 5)]) = (queue ++ bytes, Some (zlen bytes))) /\
    forall rest, bytes_ok rest ->
      readFrame (CV := StructuredResults.plain) (bytes ++ rest) = POk (PSettings [(6, 131072)]) rest.
Proof.
  apply (hq_frame_roundtrip (CV := StructuredResults.plain)); [|by vm_compute].
  split; [|unfold zlen, kEightByteLimit; cbn; lia].
  repeat constructor; unfold kEightByteLimit; cbn; lia.
Defined.

End HQFrames.
