(* ===== verification/HTTPSettings.v ===== *)
(** * HTTP settings

    [lib/http/codec/HTTPSettings.h], [HTTPSettings.cpp] and [SettingsId.h]: the
    settings of one direction of a session, a vector of pairs that is searched
    linearly and whose removals move the last entry into the hole.

    The vector implements a finite map: [HTTPSettings.represents] is the abstraction
    and every operation of the class is the operation of the map. *)

From stdpp Require Import gmap.
From S2P Require Import Prelude.

(** The identifiers, an enumeration over [uint64_t]. *)
Module SettingsId.
Definition SPDY_SETTINGS_MASK : Z := Z.shiftl 1 16.
Definition HQ_SETTINGS_MASK : Z := Z.shiftl 1 32.
Definition HEADER_TABLE_SIZE : Z := 1.
Definition ENABLE_PUSH : Z := 2.
Definition MAX_CONCURRENT_STREAMS : Z := 3.
Definition INITIAL_WINDOW_SIZE : Z := 4.
Definition MAX_FRAME_SIZE : Z := 5.
Definition MAX_HEADER_LIST_SIZE : Z := 6.
Definition ENABLE_CONNECT_PROTOCOL : Z := 8.
Definition THRIFT_CHANNEL_ID_DEPRECATED : Z := 100.
Definition ENABLE_EX_HEADERS : Z := 0xfbfb.
Definition THRIFT_CHANNEL_ID : Z := 0xf100.
Definition SETTINGS_HTTP_CERT_AUTH : Z := 0xff00.
Definition HQ_QPACK_BLOCKED_STREAMS : Z := Z.lor HQ_SETTINGS_MASK 7.
Definition HQ_DATAGRAM : Z := Z.lor HQ_SETTINGS_MASK 0x0276.
Definition HQ_DATAGRAM_DRAFT_8 : Z := Z.lor HQ_SETTINGS_MASK 0xffd277.
Definition HQ_DATAGRAM_RFC : Z := Z.lor HQ_SETTINGS_MASK 0x33.
Definition ENABLE_WEBTRANSPORT : Z := 0x2b603742.
Definition WEBTRANSPORT_MAX_SESSIONS : Z := 0xc671706a.
End SettingsId.

Module HTTPSettings.

Record HTTPSetting := mkSetting { id : Z; value : Z }.

#[global] Instance HTTPSetting_eq_dec : EqDecision HTTPSetting.
Proof. solve_decision. Defined.

(** HTTP/2 defaults. *)
Definition defaults : list HTTPSetting :=
  [mkSetting SettingsId.HEADER_TABLE_SIZE 4096; mkSetting SettingsId.ENABLE_PUSH 1;
   mkSetting SettingsId.MAX_FRAME_SIZE 16384].

(** [std::find_if]: the position of the first setting with the identifier. *)
Fixpoint getSettingIter (settings : list HTTPSetting) (i : Z) : option nat :=
  match settings with
  | [] => None
  | s :: settings => if id s =? i then Some O else S <$> getSettingIter settings i
  end.

Definition setSetting (settings : list HTTPSetting) (i val : Z) : list HTTPSetting :=
  match getSettingIter settings i with
  | Some k => alter (fun s => mkSetting (id s) val) k settings
  | None => settings ++ [mkSetting i val]
  end.

(** [*iter = settings_.back(); settings_.pop_back()]. *)
Definition unsetSetting (settings : list HTTPSetting) (i : Z) : list HTTPSetting :=
  match getSettingIter settings i, last settings with
  | Some k, Some back => removelast (<[k := back]> settings)
  | _, _ => settings
  end.

Definition getSetting (settings : list HTTPSetting) (i : Z) : option HTTPSetting :=
  k ← getSettingIter settings i; settings !! k.

Definition getSetting_default (settings : list HTTPSetting) (i defaultValue : Z) : Z :=
  match getSetting settings i with Some s => value s | None => defaultValue end.

Definition getNumSettings (settings : list HTTPSetting) : Z := zlen settings.
Definition clearSettings (settings : list HTTPSetting) : list HTTPSetting := [].

(** The constructor with a list of pairs. *)
Definition fromPairs (initialSettings : list (Z * Z)) : list HTTPSetting :=
  foldl (fun s p => setSetting s p.1 p.2) [] initialSettings.

(** ** A finite map *)

(** Each identifier is stored once, with its value in the map. *)
Definition represents (settings : list HTTPSetting) (m : gmap Z Z) : Prop :=
  NoDup (id <$> settings) /\ m = list_to_map ((fun s => (id s, value s)) <$> settings).

Lemma iter_spec settings i : match getSettingIter settings i with
  | Some k => exists s, settings !! k = Some s /\ id s = i
  | None => i ∉ id <$> settings
  end.
Proof.
  induction settings as [|s settings IH]; cbn; [apply not_elem_of_nil|].
  destruct (Z.eqb_spec (id s) i) as [He|He]; [by exists s|].
  destruct (getSettingIter settings i) as [k|]; cbn; [done|]. apply not_elem_of_cons. split; [congruence|done].
Qed.

Lemma represents_lookup settings m i v : represents settings m ->
  m !! i = Some v <-> mkSetting i v ∈ settings.
Proof.
  intros [Hn ->]. rewrite <- elem_of_list_to_map.
  - rewrite list_elem_of_fmap. split; [intros ([a b] & [= -> ->] & ?); done|].
    intros ?. by exists (mkSetting i v).
  - rewrite <- list_fmap_compose. exact Hn.
Qed.

Lemma represents_none settings m i : represents settings m -> m !! i = None <-> i ∉ id <$> settings.
Proof.
  intros [Hn ->]. rewrite <- not_elem_of_list_to_map, <- list_fmap_compose. done.
Qed.

(** A list without repeated identifiers that holds what the map holds. *)
Lemma represents_intro settings (m : gmap Z Z) : NoDup (id <$> settings) ->
  (forall i v, mkSetting i v ∈ settings <-> m !! i = Some v) -> represents settings m.
Proof.
  intros Hn Hl. split; [done|]. apply map_eq. intros i.
  apply option_eq. intros v. rewrite <- Hl.
  rewrite <- (represents_lookup settings (list_to_map ((fun s => (id s, value s)) <$> settings)) i v); [done|by split].
Qed.

Lemma get_represents settings m i : represents settings m ->
  getSetting settings i = mkSetting i <$> m !! i.
Proof.
  intros Hr. unfold getSetting. pose proof (iter_spec settings i) as Hi.
  destruct (getSettingIter settings i) as [k|]; cbn.
  - destruct Hi as ([a v] & Hk & <-). rewrite Hk. cbn.
    rewrite (proj2 (represents_lookup _ _ a v Hr)); [done|]. by eapply list_elem_of_lookup_2.
  - by rewrite (proj2 (represents_none _ _ _ Hr)).
Qed.

Lemma elem_of_alter {A} (f : A -> A) (l : list A) k x : x ∈ alter f k l <->
  (exists s, l !! k = Some s /\ x = f s) \/ exists j, j <> k /\ l !! j = Some x.
Proof.
  rewrite list_elem_of_lookup. split.
  - intros [j Hj]. destruct (decide (j = k)) as [->|Hne].
    + rewrite list_lookup_alter_eq in Hj. destruct (l !! k) as [s|]; [|done]. left. exists s. by simplify_eq/=.
    + rewrite list_lookup_alter_ne in Hj by done. eauto.
  - intros [(s & Hs & ->)|(j & Hne & Hj)].
    + exists k. by rewrite list_lookup_alter_eq, Hs.
    + exists j. by rewrite list_lookup_alter_ne by done.
Qed.

Lemma NoDup_pos settings j k s t : NoDup (id <$> settings) -> settings !! j = Some s -> settings !! k = Some t ->
  id s = id t -> j = k.
Proof.
  intros Hn Hj Hk He. apply (NoDup_lookup _ j k (id s) Hn); rewrite list_lookup_fmap; [by rewrite Hj|by rewrite Hk, He].
Qed.

Lemma set_represents settings m i v : represents settings m -> represents (setSetting settings i v) (<[i := v]> m).
Proof.
  intros Hr. pose proof Hr as [Hn _]. unfold setSetting. pose proof (iter_spec settings i) as Hi.
  destruct (getSettingIter settings i) as [k|]; apply represents_intro.
  - replace (id <$> alter _ k settings) with (id <$> settings); [done|].
    apply list_eq. intros j. rewrite !list_lookup_fmap.
    destruct (decide (j = k)) as [->|].
    { by rewrite list_lookup_alter_eq; destruct (settings !! k). }
    by rewrite list_lookup_alter_ne.
  - destruct Hi as (s & Hk & <-). intros j w.
    rewrite elem_of_alter, lookup_insert_Some, (represents_lookup _ _ _ _ Hr). split.
    + intros [(s' & Hs' & [= -> ->])|(j' & Hne & Hj)]; [left; by simplify_eq|right].
      split; [|by eapply list_elem_of_lookup_2]. intros He. apply Hne.
      by eapply (NoDup_pos settings j' k _ _ Hn Hj Hk).
    + intros [[<- <-]|[Hne Hin]]; [left; by exists s|right].
      apply list_elem_of_lookup in Hin as [j' Hj]. exists j'. split; [|done]. intros ->. by simplify_eq/=.
  - rewrite fmap_app. apply NoDup_app. split; [done|]. split; [|apply NoDup_singleton].
    intros x Hx ->%list_elem_of_singleton. done.
  - intros j w. rewrite elem_of_app, list_elem_of_singleton, lookup_insert_Some, (represents_lookup _ _ _ _ Hr).
    split; [intros [H|[= -> ->]]; [right; split; [|done]|by left]|intros [[-> ->]|[_ H]]; auto].
    intros ->. apply Hi. rewrite list_elem_of_fmap. by exists (mkSetting j w).
Qed.

Lemma NoDup_insert_fresh {A} (l : list A) k x : NoDup l -> x ∉ l -> NoDup (<[k := x]> l).
Proof.
  intros Hn Hx. apply NoDup_alt. intros i j y. rewrite !list_lookup_insert_Some.
  intros [(-> & -> & _)|[Hi Hi']] [(-> & E & _)|[Hj Hj']]; simplify_eq; try done.
  - destruct Hx. by eapply list_elem_of_lookup_2.
  - destruct Hx. by eapply list_elem_of_lookup_2.
  - by eapply NoDup_lookup.
Qed.

Lemma unset_represents settings m i : represents settings m -> represents (unsetSetting settings i) (delete i m).
Proof.
  intros Hr. pose proof Hr as [Hn _]. unfold unsetSetting. pose proof (iter_spec settings i) as Hi.
  destruct (getSettingIter settings i) as [k|].
  2: { rewrite delete_id; [done|]. by apply (represents_none settings). }
  destruct Hi as (s & Hk & <-). destruct (last settings) as [b|] eqn:Hb.
  2: { apply last_None in Hb as ->. done. }
  apply last_Some in Hb as [l' ->]. pose proof (lookup_lt_Some _ _ _ Hk) as Hlt. rewrite length_app in Hlt. cbn in Hlt.
  assert (E : removelast (<[k := b]> (l' ++ [b])) = if decide (k < length l')%nat then <[k := b]> l' else l').
  { case_decide as Hd.
    - by rewrite insert_app_l, removelast_last.
    - rewrite insert_app_r_alt by lia. replace (k - length l')%nat with O by lia. cbn. apply removelast_last. }
  rewrite E. rewrite fmap_app in Hn. apply NoDup_app in Hn as (Hn1 & Hn2 & _).
  assert (Hin : forall x, x ∈ l' -> id x <> id b).
  { intros x Hx He. apply (Hn2 (id x)); [rewrite list_elem_of_fmap; eauto|rewrite He; apply list_elem_of_singleton; done]. }
  assert (Hm : forall j v, delete (id s) m !! j = Some v <->
    j <> id s /\ (mkSetting j v ∈ l' \/ mkSetting j v = b)).
  { intros j v. rewrite lookup_delete_Some, (represents_lookup _ _ _ _ Hr), elem_of_app, list_elem_of_singleton.
    split; intros [? ?]; split; congruence || done. }
  case_decide as Hd; [|replace k with (length l') in * by lia].
  - rewrite lookup_app_l in Hk by done. apply represents_intro.
    + rewrite list_fmap_insert. apply NoDup_insert_fresh; [done|].
      rewrite list_elem_of_fmap. intros (x & Hx & Hx'). by apply (Hin x).
    + intros j v. rewrite Hm. split.
      * intros Hx. apply list_elem_of_lookup in Hx as [a Ha]. destruct (decide (a = k)) as [->|Hne].
        -- rewrite list_lookup_insert_eq in Ha by done. simplify_eq. split; [|by right].
           apply not_eq_sym. apply (Hin s). by eapply list_elem_of_lookup_2.
        -- rewrite list_lookup_insert_ne in Ha by done. split; [|left; by eapply list_elem_of_lookup_2].
           intros He. apply Hne. by apply (NoDup_pos l' a k _ _ Hn1 Ha Hk).
      * intros [Hne [Hx|<-]]; [|by apply list_elem_of_insert].
        apply list_elem_of_lookup in Hx as [a Ha]. apply list_elem_of_lookup. exists a.
        rewrite list_lookup_insert_ne; [done|]. intros ->. by simplify_eq.
  - rewrite list_lookup_middle in Hk by done. simplify_eq. apply represents_intro; [done|].
    intros j v. rewrite Hm. split; [intros Hx; split; [by apply (Hin _ Hx)|by left]|].
    intros [Hne [Hx|<-]]; [done|by destruct Hne].
Qed.


(** ** What the last operation stored *)

Lemma set_cons s settings i v : setSetting (s :: settings) i v =
  if id s =? i then mkSetting i v :: settings else s :: setSetting settings i v.
Proof.
  unfold setSetting. cbn. destruct (Z.eqb_spec (id s) i) as [<-|]; [done|].
  by destruct (getSettingIter settings i).
Qed.

Lemma get_set settings i v : getSetting (setSetting settings i v) i = Some (mkSetting i v).
Proof.
  unfold getSetting. induction settings as [|s settings IH].
  - cbn. by rewrite Z.eqb_refl.
  - rewrite set_cons. destruct (Z.eqb_spec (id s) i) as [He|He]; cbn; [by rewrite Z.eqb_refl|].
    rewrite (proj2 (Z.eqb_neq _ _)) by done. by destruct (getSettingIter _ i).
Qed.

(** ** Sequences of operations *)

Inductive Op := Set_ (i v : Z) | Unset (i : Z) | Clear.

Definition apply_op (settings : list HTTPSetting) (o : Op) : list HTTPSetting :=
  match o with
  | Set_ i v => setSetting settings i v
  | Unset i => unsetSetting settings i
  | Clear => clearSettings settings
  end.

(** The same operations of a finite map. *)
Definition map_op (m : gmap Z Z) (o : Op) : gmap Z Z :=
  match o with Set_ i v => <[i := v]> m | Unset i => delete i m | Clear => ∅ end.

Lemma op_represents settings m o : represents settings m -> represents (apply_op settings o) (map_op m o).
Proof.
  intros Hr. destruct o; [by apply set_represents|by apply unset_represents|]. split; [constructor|done].
Qed.

Lemma ops_represents ops : forall settings m, represents settings m ->
  represents (foldl apply_op settings ops) (foldl map_op m ops).
Proof. induction ops as [|o ops IH]; intros settings m Hr; [done|]. by apply IH, op_represents. Qed.

Lemma pairs_ops l : fromPairs l = foldl apply_op [] ((fun p => Set_ p.1 p.2) <$> l).
Proof.
  unfold fromPairs. generalize (@nil HTTPSetting). induction l as [|p l IH]; intros s; [done|]. apply IH.
Qed.

Lemma represents_size settings m : represents settings m -> getNumSettings settings = Z.of_nat (size m).
Proof.
  intros [Hn ->]. unfold getNumSettings, zlen. rewrite <- size_dom. rewrite dom_list_to_map_L.
  rewrite <- list_fmap_compose. change (fst ∘ (fun s => (id s, value s))) with id. by rewrite size_list_to_set, length_fmap.
Qed.

(** C21. The settings vector is a finite map: after the constructor with any list of
    pairs and any sequence of [setSetting], [unsetSetting] and [clearSettings],
    [getSetting] in its two forms is a lookup in the map that the same operations
    build, and [getNumSettings] is its size; a removal that moves the last entry into
    the hole loses nothing. *)
Theorem settings_implement_map pairs ops i d :
  let settings := foldl apply_op (fromPairs pairs) ops in
  let m := foldl map_op (foldl (fun m p => <[p.1 := p.2]> m) ∅ pairs) ops in
  getSetting settings i = mkSetting i <$> m !! i /\
  getSetting_default settings i d = default d (m !! i) /\
  getNumSettings settings = Z.of_nat (size m).
Proof.
  intros settings m. assert (Hr : represents settings m).
  { apply ops_represents. rewrite pairs_ops.
    replace (foldl _ ∅ pairs) with (foldl map_op ∅ ((fun p => Set_ p.1 p.2) <$> pairs)).
    - apply ops_represents. split; [constructor|done].
    - generalize (∅ : gmap Z Z). clear. induction pairs as [|p l IH]; intros m; [done|]. apply IH. }
  unfold getSetting_default. rewrite (get_represents _ _ _ Hr). split; [done|].
  split; [by destruct (m !! i)|by apply represents_size].
Qed.


End HTTPSettings.
