(* ===== verification/HQControlCodec.v ===== *)
(** * The codec of an HTTP/3 control stream

    [lib/http/codec/HQControlCodec.h], [HQControlCodec.cpp], the identifiers and error
    codes of [HQUtils.h] and [HQUtils.cpp], and the stream directions of
    [HQUnidirectionalCodec.h].  The codec is an instance of the [Handlers] of
    [HQFramedCodec].

    [settings_] is a reference to the settings of the session: the field is what they
    are while the codec runs. *)

From S2P Require Import Prelude QuicInteger HTTP2Types StructuredHeaders HQFramer HQFramedCodec HTTPSettings.

Module HQUtils.
Import HTTP2Types QuicInteger.

Definition kSessionStreamId : Z := UINT64_MAX.
Definition kMaxClientBidiStreamId : Z := kEightByteLimit - 3.
Definition kMaxPushId : Z := kEightByteLimit - 1.

Definition hqToHttpErrorCode (err : HQ.ErrorCode) : ErrorCode :=
  match err with
  | HQ.HTTP_NO_ERROR => NO_ERROR
  | HQ.HTTP_REQUEST_REJECTED => REFUSED_STREAM
  | HQ.HTTP_INTERNAL_ERROR => INTERNAL_ERROR
  | HQ.HTTP_REQUEST_CANCELLED => CANCEL
  | HQ.HTTP_CONNECT_ERROR => CONNECT_ERROR
  | HQ.HTTP_EXCESSIVE_LOAD => ENHANCE_YOUR_CALM
  | HQ.HTTP_VERSION_FALLBACK => INTERNAL_ERROR
  | HQ.HTTP_CLOSED_CRITICAL_STREAM | HQ.HTTP_MISSING_SETTINGS | HQ.HTTP_FRAME_UNEXPECTED
  | HQ.HTTP_STREAM_CREATION_ERROR | HQ.HTTP_FRAME_ERROR | HQ.HTTP_ID_ERROR | HQ.HTTP_SETTINGS_ERROR
  | HQ.HTTP_INCOMPLETE_REQUEST | HQ.HTTP_MESSAGE_ERROR => PROTOCOL_ERROR
  | _ => INTERNAL_ERROR
  end.

Definition httpToHqSettingsId (id : Z) : option Z :=
  if id =? SettingsId.HEADER_TABLE_SIZE then Some HQ.SettingId.HEADER_TABLE_SIZE
  else if id =? SettingsId.MAX_HEADER_LIST_SIZE then Some HQ.SettingId.MAX_HEADER_LIST_SIZE
  else if id =? SettingsId.ENABLE_CONNECT_PROTOCOL then Some HQ.SettingId.ENABLE_CONNECT_PROTOCOL
  else if id =? SettingsId.HQ_QPACK_BLOCKED_STREAMS then Some HQ.SettingId.QPACK_BLOCKED_STREAMS
  else if id =? SettingsId.HQ_DATAGRAM then Some HQ.SettingId.H3_DATAGRAM
  else if id =? SettingsId.HQ_DATAGRAM_DRAFT_8 then Some HQ.SettingId.H3_DATAGRAM_DRAFT_8
  else if id =? SettingsId.HQ_DATAGRAM_RFC then Some HQ.SettingId.H3_DATAGRAM_RFC
  else if id =? SettingsId.ENABLE_WEBTRANSPORT then Some HQ.SettingId.ENABLE_WEBTRANSPORT
  else if id =? SettingsId.WEBTRANSPORT_MAX_SESSIONS then Some HQ.SettingId.WEBTRANSPORT_MAX_SESSIONS
  else None.

Definition hqToHttpSettingsId (id : Z) : option Z :=
  if id =? HQ.SettingId.HEADER_TABLE_SIZE then Some SettingsId.HEADER_TABLE_SIZE
  else if id =? HQ.SettingId.MAX_HEADER_LIST_SIZE then Some SettingsId.MAX_HEADER_LIST_SIZE
  else if id =? HQ.SettingId.ENABLE_CONNECT_PROTOCOL then Some SettingsId.ENABLE_CONNECT_PROTOCOL
  else if id =? HQ.SettingId.QPACK_BLOCKED_STREAMS then Some SettingsId.HQ_QPACK_BLOCKED_STREAMS
  else if id =? HQ.SettingId.H3_DATAGRAM then Some SettingsId.HQ_DATAGRAM
  else if id =? HQ.SettingId.H3_DATAGRAM_DRAFT_8 then Some SettingsId.HQ_DATAGRAM_DRAFT_8
  else if id =? HQ.SettingId.H3_DATAGRAM_RFC then Some SettingsId.HQ_DATAGRAM_RFC
  else if id =? HQ.SettingId.ENABLE_WEBTRANSPORT then Some SettingsId.ENABLE_WEBTRANSPORT
  else if id =? HQ.SettingId.WEBTRANSPORT_MAX_SESSIONS then Some SettingsId.WEBTRANSPORT_MAX_SESSIONS
  else None.

End HQUtils.

Module HQControlCodec.
Import HTTP2Types QuicInteger StructuredHeaders HQ HQFramedCodec HQUtils HTTPSettings.

Inductive TransportDirection := DOWNSTREAM | UPSTREAM.
Inductive StreamDirection := INGRESS | EGRESS.

#[global] Instance TransportDirection_eq_dec : EqDecision TransportDirection.
Proof. solve_decision. Defined.
#[global] Instance StreamDirection_eq_dec : EqDecision StreamDirection.
Proof. solve_decision. Defined.

Record Control := mkControl {
  streamId_ : Z;
  transportDirection_ : TransportDirection;
  streamType_ : Z;
  streamDir_ : StreamDirection;
  doubleGoaway_ : bool;
  sentGoaway_ : bool;
  sentFinalGoaway_ : bool;
  receivedSettings_ : bool;
  sentSettings_ : bool;
  egressGoawayAck_ : Z;
  minUnseenStreamID_ : Z;
  minUnseenPushID_ : Z;
  settings_ : list HTTPSetting
}.

(** The calls to the session. *)
Inductive ControlEvent :=
| onSettings (settings : list HTTPSetting)
| onGoaway (id : Z) (code : HTTP2Types.ErrorCode)
| onPriority (streamId : Z) (pri : HTTPPriority)
| onPushPriority (pushId : Z) (pri : HTTPPriority)
| onError (streamId : Z) (err : ErrorCode).

Definition create (streamId : Z) (direction : TransportDirection) (streamDir : StreamDirection)
    (settings : list HTTPSetting) (streamType : Z) : Control :=
  mkControl streamId direction streamType streamDir true false false false false
    (if decide (direction = UPSTREAM) then kMaxPushId + 1 else kMaxClientBidiStreamId)
    kMaxClientBidiStreamId (kMaxPushId + 1) settings.

Definition with_goaway (s : Control) (sent final : bool) (ack : Z) : Control :=
  mkControl (streamId_ s) (transportDirection_ s) (streamType_ s) (streamDir_ s) (doubleGoaway_ s)
    sent final (receivedSettings_ s) (sentSettings_ s) ack (minUnseenStreamID_ s) (minUnseenPushID_ s)
    (settings_ s).
Definition with_settings (s : Control) (received sent : bool) (settings : list HTTPSetting) : Control :=
  mkControl (streamId_ s) (transportDirection_ s) (streamType_ s) (streamDir_ s) (doubleGoaway_ s)
    (sentGoaway_ s) (sentFinalGoaway_ s) received sent (egressGoawayAck_ s) (minUnseenStreamID_ s)
    (minUnseenPushID_ s) settings.
Definition enableDoubleGoawayDrain (s : Control) : Control :=
  mkControl (streamId_ s) (transportDirection_ s) (streamType_ s) (streamDir_ s) true
    (sentGoaway_ s) (sentFinalGoaway_ s) (receivedSettings_ s) (sentSettings_ s) (egressGoawayAck_ s)
    (minUnseenStreamID_ s) (minUnseenPushID_ s) (settings_ s).

Definition isIngress (s : Control) : bool := bool_decide (streamDir_ s = INGRESS).
Definition isEgress (s : Control) : bool := bool_decide (streamDir_ s = EGRESS).

(** ** Ingress *)

Definition isPriorityUpdate (t : Z) : bool :=
  bool_decide (t ∈ [FrameType.PRIORITY_UPDATE; FrameType.PUSH_PRIORITY_UPDATE;
                    FrameType.FB_PUSH_PRIORITY_UPDATE; FrameType.FB_PRIORITY_UPDATE]).

Definition control_checkFrameAllowed (s : Control) (t : Z) : option ErrorCode :=
  if bool_decide (t ∈ [FrameType.DATA; FrameType.HEADERS; FrameType.PUSH_PROMISE; FrameType.WEBTRANSPORT_BIDI])
  then Some HTTP_FRAME_UNEXPECTED
  else if streamType_ s =? StreamType.CONTROL then
    if negb (receivedSettings_ s) && negb (t =? FrameType.SETTINGS) then Some HTTP_MISSING_SETTINGS
    else if receivedSettings_ s && (t =? FrameType.SETTINGS) then Some HTTP_FRAME_UNEXPECTED
    else if bool_decide (transportDirection_ s = UPSTREAM) && (t =? FrameType.MAX_PUSH_ID)
    then Some HTTP_FRAME_UNEXPECTED
    else if bool_decide (transportDirection_ s = UPSTREAM) && isPriorityUpdate t
    then Some HTTP_FRAME_UNEXPECTED
    else None
  else None.

(** What a handler makes of a parsed frame; after an error the cursor is not used. *)
Definition handle {A} (s : Control) (r : presult ErrorCode A)
    (k : A -> option ErrorCode * Control * list ControlEvent) : option (Outcome Control ControlEvent) :=
  match r with
  | POk a cursor => let '(err, s', events) := k a in Some (mkOutcome err s' false events cursor)
  | PErr err => Some (mkOutcome (Some err) s false [] [])
  | PThrow | PLoop => None
  end.

Definition control_parseCancelPush (s : Control) (header : FrameHeader) (cursor : list Z) :=
  handle s (HQFramer.parseCancelPush header cursor) (fun _ => (None, s, [])).

(** Only 0 and 1 are legal values of these settings. *)
Definition booleanSetting (id : Z) : bool :=
  bool_decide (id ∈ [SettingId.ENABLE_CONNECT_PROTOCOL; SettingId.H3_DATAGRAM; SettingId.H3_DATAGRAM_DRAFT_8;
                     SettingId.H3_DATAGRAM_RFC; SettingId.ENABLE_WEBTRANSPORT]).

(** The loop over the settings received: the settings of the session, and the list
    for the callback or the error.  A setting that was just stored is found. *)
Fixpoint applySettings (ingressSettings : list HTTPSetting) (outSettings : list (Z * Z))
    (settingsList : list HTTPSetting) : list HTTPSetting * (ErrorCode + list HTTPSetting) :=
  match outSettings with
  | [] => (ingressSettings, inr settingsList)
  | (id, value) :: outSettings =>
      if booleanSetting id && (value >? 1) then (ingressSettings, inl HTTP_SETTINGS_ERROR)
      else
        match hqToHttpSettingsId id with
        | None => applySettings ingressSettings outSettings settingsList
        | Some httpSettingId =>
            let ingressSettings := setSetting ingressSettings httpSettingId value in
            match getSetting ingressSettings httpSettingId with
            | None => (ingressSettings, inr settingsList)
            | Some setting => applySettings ingressSettings outSettings (settingsList ++ [setting])
            end
        end
  end.

Definition control_parseSettings (s : Control) (header : FrameHeader) (cursor : list Z)
  : option (Outcome Control ControlEvent) :=
  if negb (isIngress s) then None
  else
    let s := with_settings s true (sentSettings_ s) (settings_ s) in
    handle s (HQFramer.parseSettings header cursor) (fun outSettings =>
      let '(settings, r) := applySettings (settings_ s) outSettings [] in
      let s := with_settings s true (sentSettings_ s) settings in
      match r with
      | inl err => (Some err, s, [])
      | inr settingsList => (None, s, [onSettings settingsList])
      end).

Definition control_parseGoaway (s : Control) (header : FrameHeader) (cursor : list Z) :=
  handle s (HQFramer.parseGoaway header cursor) (fun id => (None, s, [onGoaway id NO_ERROR])).

Definition control_parseMaxPushId (s : Control) (header : FrameHeader) (cursor : list Z) :=
  handle s (HQFramer.parseMaxPushId header cursor) (fun _ => (None, s, [])).

Section priority.
Context `{CV : Conversions}.

Definition control_parsePriorityUpdate (s : Control) (header : FrameHeader) (cursor : list Z) :=
  handle s (HQFramer.parsePriorityUpdate header cursor) (fun p => (None, s, [onPriority p.1 p.2])).

Definition control_parsePushPriorityUpdate (s : Control) (header : FrameHeader) (cursor : list Z) :=
  handle s (HQFramer.parsePriorityUpdate header cursor) (fun p => (None, s, [onPushPriority p.1 p.2])).

(** DATA, HEADERS and PUSH_PROMISE keep the [LOG(FATAL)] of [HQFramedCodec]. *)
#[export] Instance control_handlers : Handlers Control ControlEvent := {
  checkFrameAllowed := control_checkFrameAllowed;
  parseData _ _ _ := None;
  parseHeaders _ _ _ := None;
  parseCancelPush := control_parseCancelPush;
  parseSettings := control_parseSettings;
  parsePushPromise _ _ _ := None;
  parseGoaway := control_parseGoaway;
  parseMaxPushId := control_parseMaxPushId;
  parsePushPriorityUpdate := control_parsePushPriorityUpdate;
  parsePriorityUpdate := control_parsePriorityUpdate
}.

(** What the codec returns is what it did not consume. *)
Definition onUnidirectionalIngress (c : Codec Control) (buf : list Z)
  : option (Codec Control * list Z * list (Event ControlEvent)) :=
  '(c, consumed, events) ← onFramedIngress c buf;
  Some (c, drop (Z.to_nat consumed) buf, events).

End priority.

Definition onUnidirectionalIngressEOF (c : Codec Control) : list (Event ControlEvent) :=
  [onEvent (onError (streamId_ (derived c)) HTTP_CLOSED_CRITICAL_STREAM)].

(** ** Egress *)

Definition MaxStreamID : Z := UINT64_MAX.

Definition drainingId (dir : TransportDirection) : Z :=
  if decide (dir = DOWNSTREAM) then kMaxClientBidiStreamId else kMaxPushId + 1.

Definition isWaitingToDrain (s : Control) : bool :=
  (negb (doubleGoaway_ s) && negb (sentGoaway_ s)) ||
  (doubleGoaway_ s && sentGoaway_ s && negb (sentFinalGoaway_ s)).

Definition finalGoawayId (s : Control) : Z :=
  if decide (transportDirection_ s = DOWNSTREAM) then minUnseenStreamID_ s else minUnseenPushID_ s.

(** The identifier to send, and whether the GOAWAY is the final one. *)
Definition goawayId (s : Control) (minUnseenId : Z) (statusCode : HTTP2Types.ErrorCode) : Z * bool :=
  if minUnseenId =? MaxStreamID then
    if negb (bool_decide (statusCode = NO_ERROR)) || isWaitingToDrain s then (finalGoawayId s, true)
    else (drainingId (transportDirection_ s), sentFinalGoaway_ s)
  else (minUnseenId, true).

(** The codec, the queue and the number of bytes written. *)
Definition generateGoaway (s : Control) (writeBuf : list Z) (minUnseenId : Z)
    (statusCode : HTTP2Types.ErrorCode) : option (Control * list Z * Z) :=
  if sentFinalGoaway_ s then Some (s, writeBuf, 0)
  else
    let '(minUnseenId, final) := goawayId s minUnseenId statusCode in
    let '(writeBuf, res) := HQFramer.writeGoaway writeBuf minUnseenId in
    match res with
    | None => None
    | Some n => Some (with_goaway s true final minUnseenId, writeBuf, n)
    end.

Fixpoint hqSettings (settings : list HTTPSetting) : list (Z * Z) :=
  match settings with
  | [] => []
  | s :: settings =>
      match httpToHqSettingsId (id s) with
      | Some i => (i, value s) :: hqSettings settings
      | None => hqSettings settings
      end
  end.

(** [random] is the number from [folly::Random::rand32(16)]. *)
Definition generateSettings (random : Z) (s : Control) (writeBuf : list Z) : option (Control * list Z * Z) :=
  if sentSettings_ s then None
  else if negb (isEgress s) then None
  else
    greaseId ← HQFramer.getGreaseId random;
    let settings := hqSettings (settings_ s) ++ [(greaseId, 0xFACEB00C)] in
    let '(writeBuf, res) := HQFramer.writeSettings writeBuf settings in
    match res with
    | None => None
    | Some n => Some (with_settings s (receivedSettings_ s) true (settings_ s), writeBuf, n)
    end.

Definition updateString (priority : HTTPPriority) : list Z :=
  [0x75; 0x3D] ++ print_unsigned (urgency priority) ++ (if incremental priority then [0x2C; 0x69] else []).

Definition kDefaultMaxPriority : Z := 7.

Definition generatePriority (writeBuf : list Z) (stream : Z) (priority : HTTPPriority) : list Z * Z :=
  if urgency priority >? kDefaultMaxPriority then (writeBuf, 0)
  else
    let '(writeBuf, res) := HQFramer.writePriorityUpdate writeBuf stream (updateString priority) in
    (writeBuf, default 0 res).

Definition generatePushPriority (writeBuf : list Z) (pushId : Z) (priority : HTTPPriority) : list Z * Z :=
  if urgency priority >? kDefaultMaxPriority then (writeBuf, 0)
  else
    let '(writeBuf, res) := HQFramer.writePushPriorityUpdate writeBuf pushId (updateString priority) in
    (writeBuf, default 0 res).

End HQControlCodec.
