(* ===== verification/HQControlReads.v ===== *)
(** * The frames of an HTTP/3 control stream are read one by one

    The handlers of [HQControlCodec] satisfy [HQPieces.HandlersOk]: the parsers of
    [HQFramer] read the bytes of their frame and nothing else, never run past them,
    and [checkFrameAllowed] keeps out the frames the codec does not support. *)

From S2P Require Import Prelude QuicInteger HTTP2Types StructuredHeaders HQFramer HQFramedCodec HQPieces HTTPSettings HQControlCodec.

Module HQControlReads.
Import QuicInteger StructuredHeaders HQ HQFramedCodec HQPieces HQUtils HTTPSettings HQControlCodec.

(** [local p l]: on any cursor that starts with [l], the parser gives the same result,
    and leaves exactly what follows [l]. *)
Definition local {A} (p : list Z -> presult ErrorCode A) (l : list Z) : Prop :=
  (exists a, forall rest, bytes_ok rest -> p (l ++ rest) = POk a rest) \/
  (exists err, forall rest, bytes_ok rest -> p (l ++ rest) = PErr err).

Lemma decode_none_app l rest : bytes_ok l -> bytes_ok rest ->
  decodeQuicInteger l (zlen l) = None -> decodeQuicInteger (l ++ rest) (zlen l) = None.
Proof.
  intros Hl Hr. rewrite !decode_spec by (done || (by apply Forall_app) || (unfold zlen; lia)).
  destruct l as [|b l].
  - intros _. pose proof (quic_length_cases rest Hr). cbn [app].
    destruct (Z.leb_spec (quic_length rest) (@zlen Z [])) as [H1|H1]; [|by rewrite andb_false_r].
    unfold zlen in H1. cbn in H1. lia.
  - change (quic_length ((b :: l) ++ rest)) with (quic_length (b :: l)).
    destruct (Z.leb_spec (quic_length (b :: l)) (zlen (b :: l))); [done|]. intros _. by rewrite andb_false_r.
Qed.

(** An integer and then the rest of the frame. *)
Lemma decode_local {A} (l : list Z) (err : ErrorCode) (k : Z -> Z -> list Z -> presult ErrorCode A) :
  bytes_ok l ->
  (forall v n r, bytes_ok r -> 0 <= v <= kEightByteLimit -> 1 <= n -> zlen l = n + zlen r -> local (k v n) r) ->
  local (fun cursor => match decodeQuicInteger cursor (zlen l) with
    | None => PErr err
    | Some ((v, n), cursor) => k v n cursor
    end) l.
Proof.
  intros Hl Hk. destruct (decodeQuicInteger l (zlen l)) as [[[v n] r]|] eqn:D.
  - destruct (decode_some l (zlen l) _ _ _ Hl ltac:(unfold zlen; lia) D) as (Hv & Hn & _ & Hz & Hr & _ & Hx).
    destruct (Hk v n r Hr Hv ltac:(lia) Hz) as [[a Ha]|[e He]]; [left; exists a|right; exists e];
      intros rest Hrest; rewrite (Hx _ Hrest); auto.
  - right. exists err. intros rest Hrest. by rewrite decode_none_app.
Qed.

Lemma readBytes_local l : local (readBytes (zlen l)) l.
Proof. left. exists l. intros rest _. by apply readBytes_app. Qed.

Lemma idOnly_local t l : bytes_ok l -> zlen l <= kEightByteLimit -> local (HQFramer.parseIdOnlyFrame (mkHeader t (zlen l))) l.
Proof.
  intros Hl Hle. unfold HQFramer.parseIdOnlyFrame. cbn [length].
  apply (decode_local l HTTP_FRAME_ERROR (fun id n cursor =>
    if negb (u64 (zlen l - n) =? 0) then PErr HTTP_FRAME_ERROR else POk id cursor) Hl).
  intros v n r Hr _ Hn Hz. rewrite Hz. replace (n + zlen r - n) with (zlen r) by lia.
  rewrite u64_id by (unfold kEightByteLimit, zlen in *; unfold_ints; lia).
  destruct (Z.eqb_spec (zlen r) 0) as [H0|H0]; cbn; [left|right; eauto].
  exists v. intros rest _. destruct r; [done|rewrite zlen_cons in H0; unfold zlen in H0; lia].
Qed.

Lemma settings_local n : forall l acc, (List.length l <= n)%nat -> bytes_ok l -> zlen l <= kEightByteLimit ->
  (exists a, forall rest fuel, bytes_ok rest -> (List.length l < fuel)%nat ->
     HQFramer.parseSettings_loop fuel (zlen l) acc (l ++ rest) = POk a rest) \/
  (exists err, forall rest fuel, bytes_ok rest -> (List.length l < fuel)%nat ->
     HQFramer.parseSettings_loop fuel (zlen l) acc (l ++ rest) = PErr err).
Proof.
  induction n as [|n IH]; intros l acc Hlen Hl Hle.
  - destruct l; [|cbn in Hlen; lia]. left. exists acc. intros rest fuel _ _. by destruct fuel.
  - destruct (decide (l = [])) as [->|Hne]; [left; exists acc; intros rest fuel _ _; by destruct fuel|].
    assert (H0 : (zlen l >? 0) = true).
    { rewrite Z.gtb_lt. destruct l; [done|rewrite zlen_cons; unfold zlen; lia]. }
    destruct (decodeQuicInteger l (zlen l)) as [[[id k] r]|] eqn:D.
    2: { right. exists HTTP_FRAME_ERROR. intros rest fuel Hrest Hf. destruct fuel; [lia|].
         cbn [HQFramer.parseSettings_loop]. by rewrite H0, decode_none_app. }
    destruct (decode_some l (zlen l) _ _ _ Hl ltac:(unfold zlen; lia) D) as (_ & Hk & _ & Hz & Hr & _ & Hx).
    assert (Hu : u64 (zlen l - k) = zlen r).
    { rewrite u64_id; [lia|]. unfold kEightByteLimit, zlen in *. unfold_ints. lia. }
    destruct (decodeQuicInteger r (zlen r)) as [[[v k'] r']|] eqn:D'.
    2: { right. exists HTTP_FRAME_ERROR. intros rest fuel Hrest Hf. destruct fuel; [lia|].
         cbn [HQFramer.parseSettings_loop]. rewrite H0, (Hx _ Hrest), Hu. unfold HQFramer.decodeSettingValue.
         by rewrite decode_none_app. }
    destruct (decode_some r (zlen r) _ _ _ Hr ltac:(unfold zlen; lia) D') as (_ & Hk' & _ & Hz' & Hr' & _ & Hx').
    assert (Hu' : u64 (zlen r - k') = zlen r').
    { rewrite u64_id; [lia|]. unfold kEightByteLimit, zlen in *. unfold_ints. lia. }
    assert (Hlt : (List.length r' < List.length l)%nat) by (unfold zlen in *; lia).
    set (acc' := match (if HQFramer.knownSetting id then Some v else None) with
      | Some v => acc ++ [(id, v)] | None => acc end).
    assert (St : forall rest fuel, bytes_ok rest -> HQFramer.parseSettings_loop (S fuel) (zlen l) acc (l ++ rest) =
      HQFramer.parseSettings_loop fuel (zlen r') acc' (r' ++ rest)).
    { intros rest fuel Hrest. cbn [HQFramer.parseSettings_loop]. rewrite H0, (Hx _ Hrest), Hu.
      unfold HQFramer.decodeSettingValue. rewrite (Hx' _ Hrest). cbn [mbind option_bind]. by rewrite Hu'. }
    destruct (IH r' acc' ltac:(lia) Hr' ltac:(unfold zlen in *; lia)) as [[a Ha]|[e He]];
      [left; exists a|right; exists e]; intros rest fuel Hrest Hf;
      (destruct fuel; [lia|]); rewrite St by done; auto with lia.
Qed.

Lemma parseSettings_local t l : bytes_ok l -> zlen l <= kEightByteLimit ->
  local (HQFramer.parseSettings (mkHeader t (zlen l))) l.
Proof.
  intros Hl Hle. unfold HQFramer.parseSettings. cbn [length].
  destruct (settings_local (List.length l) l [] ltac:(lia) Hl Hle) as [[a Ha]|[e He]];
    [left; exists a|right; exists e]; intros rest Hrest; [apply Ha|apply He]; try done;
    rewrite length_app; lia.
Qed.

Section control.
Context `{CV : Conversions}.

Lemma priority_local t l : bytes_ok l -> zlen l <= kEightByteLimit ->
  local (HQFramer.parsePriorityUpdate (mkHeader t (zlen l))) l.
Proof.
  intros Hl Hle. unfold HQFramer.parsePriorityUpdate. cbn [length].
  apply (decode_local l HTTP_ID_ERROR (fun id n => 
    buf ← readBytes (u64 (zlen l - n));
    match httpPriorityFromString buf with
    | None => pfail HTTP_FRAME_ERROR
    | Some httpPriority => mret (id, httpPriority)
    end) Hl).
  intros v n r Hr _ Hn Hz. replace (u64 (zlen l - n)) with (zlen r).
  2: { rewrite u64_id; [lia|]. unfold kEightByteLimit, zlen in *. unfold_ints. lia. }
  destruct (httpPriorityFromString r) as [p|] eqn:Hp; [left; exists (v, p)|right; exists HTTP_FRAME_ERROR];
    intros rest _; erewrite pbind_ok by (by apply readBytes_app); by rewrite Hp.
Qed.

(** A handler of a local parser. *)
Lemma handle_local {A} s (p : list Z -> presult ErrorCode A) k l :
  local p l -> (forall a, isIngress (k a).1.2 = isIngress s) ->
  exists r s' b e, isIngress s' = isIngress s /\ forall rest, bytes_ok rest ->
    exists cur, handle s (p (l ++ rest)) k = Some (mkOutcome r s' b e cur) /\ (r = None -> b = false -> cur = rest).
Proof.
  intros [[a Ha]|[err He]] Hk.
  - destruct (k a) as [[r s'] e] eqn:Ek. exists r, s', false, e. specialize (Hk a). rewrite Ek in Hk.
    split; [done|]. intros rest Hrest. rewrite (Ha _ Hrest). cbn. rewrite Ek. eauto.
  - exists (Some err), s, false, []. split; [done|]. intros rest Hrest. rewrite (He _ Hrest). eexists. by split.
Qed.

(** The same through [parseFrame]. *)
Lemma wrap_local (f : list Z -> option (Outcome Control ControlEvent)) s l :
  (exists r s' b e, isIngress s' = isIngress s /\ forall rest, bytes_ok rest ->
    exists cur, f (l ++ rest) = Some (mkOutcome r s' b e cur) /\ (r = None -> b = false -> cur = rest)) ->
  exists r s' b e, isIngress s' = isIngress s /\ forall rest, bytes_ok rest ->
    exists cur, wrap <$> f (l ++ rest) = Some (mkOutcome r s' b e cur) /\ (r = None -> b = false -> cur = rest).
Proof.
  intros (r & s' & b & e & Hs & Hf). exists r, s', b, (onEvent <$> e). split; [done|].
  intros rest Hrest. destruct (Hf rest Hrest) as (cur & -> & Hc). exists cur. by split.
Qed.

Lemma skip_app (l rest : list Z) : skip (l ++ rest) (zlen l) = Some rest.
Proof.
  unfold skip. rewrite (proj2 (Z.ltb_ge _ _)) by (rewrite zlen_app; unfold zlen; lia).
  by rewrite drop_zlen_app.
Qed.

Lemma control_parse_whole s h l : isIngress s = true -> control_checkFrameAllowed s (type h) = None ->
  bytes_ok l -> zlen l = length h -> length h <= kEightByteLimit ->
  exists r s' b e, isIngress s' = isIngress s /\ forall rest, bytes_ok rest ->
    exists cur, parseFrame s h (l ++ rest) = Some (mkOutcome r s' b e cur) /\ (r = None -> b = false -> cur = rest).
Proof.
  intros Hin Hal Hl Hlen Hle. destruct h as [t len]. cbn [type length] in *. subst len.
  unfold control_checkFrameAllowed in Hal. case_bool_decide as Hno; [done|]. clear Hal.
  rewrite !not_elem_of_cons in Hno. destruct Hno as (N1 & N2 & N3 & _).
  unfold parseFrame. cbn [type length]. rewrite (proj2 (Z.eqb_neq t FrameType.DATA)), (proj2 (Z.eqb_neq t FrameType.HEADERS)),
    (proj2 (Z.eqb_neq t FrameType.PUSH_PROMISE)) by done.
  destruct (Z.eqb_spec t FrameType.CANCEL_PUSH) as [->|_].
  { apply wrap_local, handle_local; [by apply idOnly_local|done]. }
  destruct (Z.eqb_spec t FrameType.SETTINGS) as [->|_].
  { apply wrap_local. cbn [parseSettings control_handlers]. unfold control_parseSettings.
    replace (negb (isIngress s)) with false by (by rewrite Hin).
    apply (handle_local (with_settings s true _ _)); [by apply parseSettings_local|].
    intros a. destruct (applySettings _ _ _) as [st [?|?]]; done. }
  destruct (Z.eqb_spec t FrameType.GOAWAY) as [->|_].
  { apply wrap_local, handle_local; [by apply idOnly_local|done]. }
  destruct (Z.eqb_spec t FrameType.MAX_PUSH_ID) as [->|_].
  { apply wrap_local, handle_local; [by apply idOnly_local|done]. }
  case_bool_decide.
  { apply wrap_local, handle_local; [by apply priority_local|done]. }
  eexists None, s, false, _. split; [done|]. intros rest _. rewrite skip_app. cbn. eauto.
Qed.

(** The frame parser's interface, for the control codec. *)
#[export] Program Instance control_ok : HandlersOk Control ControlEvent (ControlEvent + Z) := {
  state_ok s := isIngress s = true;
  token e := [inl e];
  byte_token := inr
}.
Next Obligation.
  intros s h p Hs Hal Hp Hz Hle. destruct (control_parse_whole s h p Hs Hal Hp Hz Hle) as (r & s' & b & e & H & Hf).
  exists r, s', b, e. by rewrite H.
Qed.
Next Obligation.
  intros s p Hs Hal. cbn in Hal. unfold control_checkFrameAllowed in Hal.
  rewrite bool_decide_eq_true_2 in Hal; [done|]. apply elem_of_cons; by left.
Qed.

End control.
End HQControlReads.
