(* ===== verification/HQControlResults.v ===== *)
(** * What an HTTP/3 control stream guarantees

    For the codec of a control stream ([HQControlCodec]): the way its bytes are cut
    does not matter and no byte string ends the process
    ([hq_control_pieces]); the frames it accepts are a SETTINGS frame and then others
    ([hq_control_order]); the GOAWAY frames of a drain ([hq_goaway_drain]); and the
    conversation of two codecs, in which the settings, GOAWAY frames and priorities of
    streams that one of them generates are reported by the other
    ([hq_control_conversation]).  The priority of a push is reported as the priority of a
    stream ([push_priority_misreported]). *)

From Stdlib Require Import Sorted.
From S2P Require Import Prelude QuicInteger HTTP2Types StructuredHeaders StructuredResults HQFramer HQFramedCodec HQPieces HQFrames HTTPSettings HQControlCodec HQControlReads.

Module HQControlResults.
Import QuicInteger StructuredHeaders HQ HQFramedCodec HQPieces HQUtils HTTPSettings HQControlCodec HQControlReads.

Section receive.
Context `{CV : Conversions}.

(** The session keeps what the codec returns and puts the next bytes behind it. *)
Fixpoint receive (c : Codec Control) (kept : list Z) (pieces : list (list Z))
  : option (Codec Control * list Z * list (Event ControlEvent)) :=
  match pieces with
  | [] => Some (c, kept, [])
  | piece :: pieces =>
      '(c, kept, events) ← onUnidirectionalIngress c (kept ++ piece);
      '(c, kept, events') ← receive c kept pieces;
      Some (c, kept, events ++ events')
  end.

Lemma receive_feed pieces : forall c kept, receive c kept pieces = feed c kept pieces.
Proof.
  induction pieces as [|p pieces IH]; intros c kept; [done|]. cbn. unfold onUnidirectionalIngress.
  destruct (onFramedIngress c (kept ++ p)) as [[[c1 n] e]|]; [|done]. cbn. by rewrite IH.
Qed.

(** A control stream has no DATA frames: the calls are equal, not only their tokens. *)
Lemma control_tokens (e e' : list (Event ControlEvent)) : tokens e = tokens e' -> e = e'.
Proof.
  revert e'. induction e as [|x e IH]; intros [|x' e'] H; try done.
  - by destruct x'.
  - by destruct x.
  - assert (x = x' /\ tokens e = tokens e') as [-> Ht]; [|f_equal; auto].
    destruct x, x'; unfold tokens in H; cbn in H; by simplify_eq.
Qed.

Lemma control_initial_wf s : isIngress s = true -> wf (initial s).
Proof. by split. Qed.

Lemma receive_call s pieces : isIngress s = true -> Forall bytes_ok pieces ->
  exists c n events, receive (initial s) [] pieces = Some (c, drop (Z.to_nat n) (concat pieces), events) /\
    onFramedIngress (initial s) (concat pieces) = Some (c, n, events) /\ wf c.
Proof.
  intros Hs Hp. destruct (pieces_ok (initial s) pieces (control_initial_wf s Hs) Hp) as (c & n & e & e' & HF & HC & Ht & Hw).
  apply control_tokens in Ht as ->. exists c, n, e'. by rewrite receive_feed.
Qed.

(** C13. A control stream is read the same however it is cut: for any bytes in any
    pieces, an ingress codec returns (no [LOG(FATAL)], failed [CHECK], read past the
    end of the buffer or endless loop), and the codec, the bytes that are left and the
    calls to the session are those of one call with all the bytes. *)
Theorem hq_control_pieces s pieces : isIngress s = true -> Forall bytes_ok pieces ->
  exists c kept events, receive (initial s) [] pieces = Some (c, kept, events) /\
    onUnidirectionalIngress (initial s) (concat pieces) = Some (c, kept, events).
Proof.
  intros Hs Hp. destruct (receive_call s pieces Hs Hp) as (c & n & e & HR & HC & _).
  eexists c, _, e. split; [exact HR|]. unfold onUnidirectionalIngress. by rewrite HC.
Qed.

(** ** The order of the frames *)

Definition frameTypes (events : list (Event ControlEvent)) : list Z :=
  omap (fun e => match e with onFrameHeader _ t => Some t | _ => None end) events.

(** A frame after SETTINGS. *)
Definition later (dir : TransportDirection) (t : Z) : Prop :=
  (t ∉ [FrameType.SETTINGS; FrameType.DATA; FrameType.HEADERS; FrameType.PUSH_PROMISE; FrameType.WEBTRANSPORT_BIDI]) /\
  (dir = UPSTREAM -> t <> FrameType.MAX_PUSH_ID /\ isPriorityUpdate t = false).

(** [received]: SETTINGS has come. *)
Definition ordered (dir : TransportDirection) (received : bool) (ts : list Z) : Prop :=
  if received then Forall (later dir) ts
  else match ts with [] => True | t :: ts => t = FrameType.SETTINGS /\ Forall (later dir) ts end.

Definition seen (c : Codec Control) : bool :=
  receivedSettings_ (derived c) ||
  (bool_decide (frameState_ c = FRAME_PAYLOAD) && (type (curHeader_ c) =? FrameType.SETTINGS)).

Lemma allowed_cases s t : streamType_ s = StreamType.CONTROL -> control_checkFrameAllowed s t = None ->
  (t ∉ [FrameType.DATA; FrameType.HEADERS; FrameType.PUSH_PROMISE; FrameType.WEBTRANSPORT_BIDI]) /\
  if receivedSettings_ s then later (transportDirection_ s) t else t = FrameType.SETTINGS.
Proof.
  intros Hst. unfold control_checkFrameAllowed, later. rewrite Hst. case_bool_decide as Hno; [done|].
  cbn [Z.eqb StreamType.CONTROL]. intros H. split; [done|].
  destruct (receivedSettings_ s) eqn:Hr; cbn in H.
  - destruct (Z.eqb_spec t FrameType.SETTINGS) as [?|Hn]; [done|].
    split; [apply not_elem_of_cons; by split|]. intros Hd. rewrite Hd in H. cbn in H.
    destruct (Z.eqb_spec t FrameType.MAX_PUSH_ID); [done|]. by destruct (isPriorityUpdate t).
  - destruct (Z.eqb_spec t FrameType.SETTINGS) as [?|Hn]; done.
Qed.

(** The parts of the state that a frame leaves alone. *)
Definition kept_by (s s' : Control) : Prop :=
  streamType_ s' = streamType_ s /\ transportDirection_ s' = transportDirection_ s.

Lemma handle_kept {A} s s0 (r : presult ErrorCode A) k o : kept_by s0 s ->
  (forall a, kept_by s0 (k a).1.2 /\ receivedSettings_ (k a).1.2 = receivedSettings_ s) ->
  wrap <$> handle s r k = Some o -> kept_by s0 (after o) /\ receivedSettings_ (after o) = receivedSettings_ s /\
    frameTypes (calls o) = [].
Proof.
  intros Hs Hk. assert (Hf : forall e : list ControlEvent, frameTypes (onEvent <$> e) = []).
  { intros e. induction e; done. }
  unfold handle. destruct r as [a cur|err| |]; [|intros [= <-]; done..|done|done].
  destruct (k a) as [[err s'] e] eqn:Ek. specialize (Hk a). rewrite Ek in Hk. cbn in *. intros [= <-]. cbn.
  rewrite Hf. tauto.
Qed.

Lemma parseFrame_kept s h cursor o : isIngress s = true -> parseFrame s h cursor = Some o ->
  kept_by s (after o) /\
  receivedSettings_ (after o) = receivedSettings_ s || (type h =? FrameType.SETTINGS) /\
  frameTypes (calls o) = [].
Proof.
  intros Hin. unfold parseFrame.
  assert (Hh : forall A (r : presult ErrorCode A) k b, (forall a, (k a).1.2 = s) -> b = false ->
    wrap <$> handle s r k = Some o -> kept_by s (after o) /\
    receivedSettings_ (after o) = receivedSettings_ s || b /\ frameTypes (calls o) = []).
  { intros A r k b Hk -> H. rewrite orb_false_r. eapply handle_kept; [..|exact H]; [done|]. intros a. by rewrite Hk. }
  destruct (Z.eqb_spec (type h) FrameType.DATA) as [_|_]; [done|].
  destruct (Z.eqb_spec (type h) FrameType.HEADERS) as [_|_]; [done|].
  destruct (Z.eqb_spec (type h) FrameType.CANCEL_PUSH) as [->|_]; [by apply Hh|].
  destruct (Z.eqb_spec (type h) FrameType.SETTINGS) as [_|_].
  { cbn [parseSettings control_handlers]. unfold control_parseSettings. rewrite Hin. cbn [negb].
    intros H. eapply (handle_kept (with_settings s true _ _) s) in H; [|done|].
    - rewrite orb_true_r. exact H.
    - intros a. destruct (applySettings _ _ _) as [st [?|?]]; done. }
  destruct (Z.eqb_spec (type h) FrameType.PUSH_PROMISE) as [_|_]; [done|].
  destruct (Z.eqb_spec (type h) FrameType.GOAWAY) as [_|_]; [by apply Hh|].
  destruct (Z.eqb_spec (type h) FrameType.MAX_PUSH_ID) as [_|_]; [by apply Hh|].
  case_bool_decide; [by apply Hh|].
  destruct (skip cursor (length h)); [|done]. cbn. rewrite orb_false_r. by intros [= <-].
Qed.

(** One round: at most one frame header, in order. *)
Lemma iteration_order c l c1 cur e n : wf c -> streamType_ (derived c) = StreamType.CONTROL ->
  iteration c l (zlen l) = Some (c1, cur, e, n) ->
  kept_by (derived c) (derived c1) /\
  ((frameTypes e = [] /\ seen c1 = seen c) \/
   (exists t, frameTypes e = [t] /\ ordered (transportDirection_ (derived c)) (seen c) [t] /\ seen c1 = true)).
Proof.
  intros [Hs HW] Hst. unfold iteration, seen. destruct (frameState_ c) eqn:HF.
  - destruct (decodeQuicInteger l 8) as [[[t k] r]|]; [|intros [= <- _ <- _]; rewrite HF; split; [done|left; by split]].
    cbn [derived set_header]. destruct (checkFrameAllowed (derived c) t).
    + intros [= <- _ <- _]. cbn. rewrite HF. split; [done|left; by split].
    + intros [= <- _ <- _]. cbn. split; [done|left; by split].
  - destruct (decodeQuicInteger l 8) as [[[len k] r]|]; [|intros [= <- _ <- _]; rewrite HF; split; [done|left; by split]].
    destruct (allowed_cases _ _ Hst HW) as [Hno Hal]. cbn [type].
    change (bool_decide (FRAME_HEADER_LENGTH = FRAME_PAYLOAD)) with false. cbn [andb]. rewrite orb_false_r. set (t := type (curHeader_ c)) in *.
    assert (Hord : ordered (transportDirection_ (derived c)) (receivedSettings_ (derived c)) [t]).
    { unfold ordered. destruct (receivedSettings_ (derived c)); [by apply Forall_singleton|done]. }
    assert (Hseen : receivedSettings_ (derived c) || (t =? FrameType.SETTINGS) = true).
    { destruct (receivedSettings_ (derived c)); [done|]. by rewrite Hal. }
    destruct (len =? 0).
    + cbn [derived set_pending set_header]. destruct (parseFrame _ _ r) as [o|] eqn:Hpf; [|done]. cbn.
      intros [= <- _ <- _]. cbn. destruct (parseFrame_kept _ _ _ _ Hs Hpf) as (Hk & Hr & Hf). cbn in Hr.
      split; [done|right]. exists t. split; [by f_equal|]. split; [done|]. by rewrite Hr, Hseen.
    + rewrite (proj2 (Z.eqb_neq t FrameType.DATA)) by (intros ->; apply Hno, elem_of_cons; by left).
      intros [= <- _ <- _]. cbn. split; [done|right]. exists t. split; [done|]. split; [exact Hord|exact Hseen].
  - destruct HW as [HW _]. destruct (zlen l >=? _); [|intros [= <- _ <- _]; rewrite HF; split; [done|left; by split]].
    destruct (parseFrame _ _ l) as [o|] eqn:Hpf; [|done]. cbn. intros [= <- _ <- _]. cbn.
    destruct (parseFrame_kept _ _ _ _ Hs Hpf) as (Hk & Hr & Hf). split; [done|left]. split; [done|].
    by rewrite Hr, orb_false_r.
  - destruct HW as [HW _]. destruct (allowed_cases _ _ Hst HW) as [Hno _].
    destruct Hno. apply elem_of_cons. by left.
Qed.

Lemma frameTypes_app e1 e2 : frameTypes (e1 ++ e2) = frameTypes e1 ++ frameTypes e2.
Proof. apply omap_app. Qed.

Lemma ordered_app dir b t ts : ordered dir b [t] -> Forall (later dir) ts -> ordered dir b (t :: ts).
Proof.
  unfold ordered. destruct b.
  - intros [? _]%Forall_cons ?. by constructor.
  - by intros [-> _].
Qed.

Lemma runs_order c l c' r e : runs c l c' r e -> wf c -> bytes_ok l ->
  streamType_ (derived c) = StreamType.CONTROL ->
  ordered (transportDirection_ (derived c)) (seen c) (frameTypes e).
Proof.
  induction 1 as [c l HG|c l c1 cur e HG Hi|c l c1 cur e n c' r e' HG Hn Hi Hr IH]; intros Hw Hl Hst.
  - unfold ordered. destruct (seen c); [constructor|done].
  - destruct (iteration_order _ _ _ _ _ _ Hw Hst Hi) as [_ [[-> _]|(t & -> & Ho & _)]]; [|done].
    unfold ordered. destruct (seen c); [constructor|done].
  - assert (Hw1 : wf c1).
    { destruct (iteration_cases c l Hw Hl HG) as [W|[(d & Hwd & _ & Hi')|(d & cur' & f & m & Hi' & _ & Hwd & _)]].
      - red in W. rewrite Hi in W. done.
      - destruct (Hi' [] ltac:(constructor)) as (? & E'). rewrite app_nil_r, Hi in E'. done.
      - rewrite Hi in Hi'. by simplify_eq. }
    destruct (iteration_order _ _ _ _ _ _ Hw Hst Hi) as [[Hk1 Hk2] Hcase].
    assert (Hd : derived (add_parsed c1 n) = derived c1) by done. 
    specialize (IH Hw1 (Forall_drop _ _ _ Hl) ltac:(by rewrite Hd, Hk1)).
    change (seen (add_parsed c1 n)) with (seen c1) in IH. rewrite Hd, Hk2 in IH. rewrite frameTypes_app.
    destruct Hcase as [[-> Hsn]|(t & -> & Ho & Hsn)].
    + by rewrite <- Hsn.
    + apply ordered_app; [done|]. by rewrite Hsn in IH.
Qed.

(** C14. SETTINGS comes first and once: whatever bytes arrive on a control stream, in
    whatever pieces, the frames whose header the codec accepts are a SETTINGS frame
    followed by frames that are neither SETTINGS nor DATA, HEADERS, PUSH_PROMISE or
    WEBTRANSPORT_BIDI and, at a client, neither MAX_PUSH_ID nor priority updates. *)
Theorem hq_control_order streamId dir settings pieces c kept events : Forall bytes_ok pieces ->
  receive (initial (create streamId dir INGRESS settings StreamType.CONTROL)) [] pieces = Some (c, kept, events) ->
  ordered dir false (frameTypes events).
Proof.
  intros Hp HR. set (s := create streamId dir INGRESS settings StreamType.CONTROL) in *.
  destruct (receive_call s pieces eq_refl Hp) as (c' & n & e & HR' & HC & _). rewrite HR in HR'. simplify_eq.
  assert (Hb : bytes_ok (concat pieces)) by (by apply Forall_concat).
  destruct (call_runs (initial s) _ (control_initial_wf s eq_refl) Hb eq_refl) as (c1 & r & e1 & Hrun & _ & _ & HC').
  rewrite HC in HC'. simplify_eq. rewrite frameTypes_app.
  replace (frameTypes (snd (checkConnectionError c1))) with (@nil Z).
  - rewrite app_nil_r. apply (runs_order _ _ _ _ _ Hrun (control_initial_wf s eq_refl) Hb eq_refl).
  - unfold checkConnectionError. destruct (connError_ c1); [|done]. cbn. by rewrite andb_false_r.
Qed.

End receive.
(** ** Draining *)

(** A codec is asked for GOAWAY frames; the identifiers it wrote. *)
Fixpoint drain (s : Control) (requests : list (Z * HTTP2Types.ErrorCode)) : option (Control * list Z) :=
  match requests with
  | [] => Some (s, [])
  | (minUnseenId, statusCode) :: requests =>
      '(s', _, written) ← generateGoaway s [] minUnseenId statusCode;
      '(s'', ids) ← drain s' requests;
      Some (s'', if written =? 0 then ids else egressGoawayAck_ s' :: ids)
  end.

Definition goaway_id_ok (dir : TransportDirection) (i : Z) : Prop :=
  i = MaxStreamID \/ 0 <= i <= drainingId dir.

(** The identifiers a codec falls back on are those it was created with. *)
Definition egress_ok (s : Control) : Prop :=
  minUnseenStreamID_ s = kMaxClientBidiStreamId /\ minUnseenPushID_ s = kMaxPushId + 1.

Lemma drainingId_ok dir : 0 <= drainingId dir <= kEightByteLimit.
Proof. unfold drainingId, kMaxClientBidiStreamId, kMaxPushId, kEightByteLimit. case_decide; lia. Qed.

Lemma finalGoawayId_draining s : egress_ok s -> finalGoawayId s = drainingId (transportDirection_ s).
Proof. intros [H1 H2]. unfold finalGoawayId, drainingId. case_decide; congruence. Qed.

Lemma goawayId_cases s i code : egress_ok s -> goaway_id_ok (transportDirection_ s) i ->
  let '(j, final) := goawayId s i code in 0 <= j <= drainingId (transportDirection_ s) /\
  (final = true \/ (final = sentFinalGoaway_ s /\ j = drainingId (transportDirection_ s) /\ isWaitingToDrain s = false)).
Proof.
  intros Hs Hi. unfold goawayId. pose proof (drainingId_ok (transportDirection_ s)) as Hd.
  rewrite finalGoawayId_draining by done.
  destruct (Z.eqb_spec i MaxStreamID) as [->|Hne].
  - destruct (_ || _) eqn:E; [split; [lia|by left]|]. apply orb_false_iff in E as [_ E]. split; [lia|by right].
  - destruct Hi as [?|Hi]; [done|]. split; [done|by left].
Qed.

Lemma goaway_written i : 0 <= i <= kEightByteLimit -> exists bs, encodes bs i /\
  HQFrames.carries FrameType.GOAWAY bs (fun q => HQFramer.writeGoaway q i).
Proof.
  intros Hi. destruct (HQFrames.id_carries FrameType.GOAWAY i []) as (bs & Eb & Hc); try done; [constructor|].
  rewrite app_nil_r in Hc. by exists bs.
Qed.

Lemma generateGoaway_spec s i code : egress_ok s -> goaway_id_ok (transportDirection_ s) i ->
  sentFinalGoaway_ s = false -> let '(j, final) := goawayId s i code in
  exists bs bytes, encodes bs j /\ HQFrames.carries FrameType.GOAWAY bs (fun q => HQFramer.writeGoaway q j) /\
    0 < zlen bytes /\ (forall q, HQFramer.writeGoaway q j = (q ++ bytes, Some (zlen bytes))) /\
    forall q, generateGoaway s q i code = Some (with_goaway s true final j, q ++ bytes, zlen bytes).
Proof.
  intros Hs Hi Hf. pose proof (goawayId_cases s i code Hs Hi) as Hc. destruct (goawayId s i code) as [j final] eqn:Hj.
  pose proof (drainingId_ok (transportDirection_ s)) as Hd.
  destruct (goaway_written j ltac:(lia)) as (bs & Eb & Hw). pose proof Hw as (_ & tb & lb & (_ & Ht & _) & _ & Hw').
  exists bs, (tb ++ lb ++ bs). split; [done|]. split; [done|]. split; [rewrite zlen_app; unfold zlen in *; lia|].
  split; [done|]. intros q. unfold generateGoaway. by rewrite Hf, Hj, Hw'.
Qed.

Lemma drain_final requests : forall s, sentFinalGoaway_ s = true -> drain s requests = Some (s, []).
Proof.
  induction requests as [|[i code] requests IH]; intros s Hf; [done|]. cbn. unfold generateGoaway. rewrite Hf. cbn.
  by rewrite IH.
Qed.

(** One request. *)
Lemma goaway_drain_step s i code requests : egress_ok s -> goaway_id_ok (transportDirection_ s) i ->
  sentFinalGoaway_ s = false -> let '(j, final) := goawayId s i code in
  drain s ((i, code) :: requests) =
    '(s', ids) ← drain (with_goaway s true final j) requests; Some (s', j :: ids).
Proof.
  intros Hs Hi Hf. pose proof (generateGoaway_spec s i code Hs Hi Hf) as Hg.
  destruct (goawayId s i code) as [j final] eqn:Hj. destruct Hg as (bs & bytes & _ & _ & Hpos & _ & Hg).
  cbn [drain]. rewrite Hg. cbn [mbind option_bind]. by rewrite (proj2 (Z.eqb_neq (zlen bytes) 0)) by lia.
Qed.

(** After the first of two GOAWAY frames, one more can follow. *)
Lemma drain_second s requests : egress_ok s -> Forall (fun r => goaway_id_ok (transportDirection_ s) r.1) requests ->
  sentFinalGoaway_ s = false -> doubleGoaway_ s = true -> sentGoaway_ s = true ->
  exists s' ids, drain s requests = Some (s', ids) /\ (List.length ids <= 1)%nat /\
    Forall (fun i => 0 <= i <= drainingId (transportDirection_ s)) ids.
Proof.
  intros Hs Hr Hf Hdb Hst. destruct requests as [|[i code] requests].
  { exists s, []. split; [done|]. split; [cbn; lia|constructor]. }
  apply Forall_cons in Hr as [Hi Hr]. pose proof (goawayId_cases s i code Hs Hi) as Hc.
  pose proof (goaway_drain_step s i code requests Hs Hi Hf) as Hd. destruct (goawayId s i code) as [j final].
  destruct Hc as [Hj [->|(_ & _ & Hw)]].
  - rewrite Hd, drain_final by done. cbn. eexists _, [j]. split; [done|]. split; [cbn; lia|].
    by apply Forall_singleton.
  - unfold isWaitingToDrain in Hw. by rewrite Hdb, Hst, Hf in Hw.
Qed.

(** A drain writes at most two GOAWAY frames: whatever identifiers (none above the
    draining one) and error codes a new codec is asked to send, it never dies, the
    identifiers on the wire do not grow, and there are at most two of them. *)
Theorem hq_goaway_drain streamId dir settings streamType requests :
  Forall (fun r => goaway_id_ok dir r.1) requests ->
  exists s ids, drain (create streamId dir EGRESS settings streamType) requests = Some (s, ids) /\
    (List.length ids <= 2)%nat /\ Sorted Z.ge ids /\ Forall (fun i => 0 <= i <= drainingId dir) ids.
Proof.
  intros Hr. set (s := create streamId dir EGRESS settings streamType).
  assert (Hs : egress_ok s) by done. destruct requests as [|[i code] requests].
  { exists s, []. split; [done|]. split; [cbn; lia|]. split; constructor. }
  apply Forall_cons in Hr as [Hi Hr]. pose proof (goawayId_cases s i code Hs Hi) as Hc.
  pose proof (goaway_drain_step s i code requests Hs Hi eq_refl) as Hd. destruct (goawayId s i code) as [j final].
  change (transportDirection_ s) with dir in *. rewrite Hd. destruct Hc as [Hj [->|(-> & -> & _)]].
  - rewrite drain_final by done. cbn. eexists _, [j]. split; [done|]. split; [cbn; lia|].
    split; [apply Sorted_cons; [apply Sorted_nil|apply HdRel_nil]|by apply Forall_singleton].
  - destruct (drain_second (with_goaway s true (sentFinalGoaway_ s) (drainingId dir)) requests Hs Hr eq_refl eq_refl eq_refl)
      as (s' & ids & HE & Hlen & Hids). rewrite HE. cbn. eexists _, _. split; [done|]. cbn [List.length].
    split; [lia|]. change (transportDirection_ (with_goaway _ _ _ _)) with dir in Hids.
    split; [|by constructor]. destruct ids as [|k [|]]; [apply Sorted_cons; [apply Sorted_nil|apply HdRel_nil]| |cbn in Hlen; lia].
    apply Forall_cons in Hids as [Hk _]. repeat first [apply Sorted_nil|apply Sorted_cons|apply HdRel_nil|apply HdRel_cons]. lia.
Qed.

(** ** Conversations *)

(** What a session asks its egress codec to send after the settings.  The priority of a
    push is not among it: see [push_priority_misreported]. *)
Inductive Request :=
| RGoaway (minUnseenId : Z) (statusCode : HTTP2Types.ErrorCode)
| RPriority (stream : Z) (pri : HTTPPriority).

Definition send (s : Control) (writeBuf : list Z) (r : Request) : option (Control * list Z) :=
  match r with
  | RGoaway i code => '(s, writeBuf, _) ← generateGoaway s writeBuf i code; Some (s, writeBuf)
  | RPriority i pri => Some (s, (generatePriority writeBuf i pri).1)
  end.

Fixpoint sendAll (s : Control) (writeBuf : list Z) (requests : list Request) : option (Control * list Z) :=
  match requests with
  | [] => Some (s, writeBuf)
  | r :: requests => '(s, writeBuf) ← send s writeBuf r; sendAll s writeBuf requests
  end.

(** The calls the peer's session gets for a request.  The order of a priority is not sent. *)
Definition expected (s : Control) (r : Request) : list ControlEvent :=
  match r with
  | RGoaway i code =>
      if sentFinalGoaway_ s then [] else [onGoaway (goawayId s i code).1 NO_ERROR]
  | RPriority i pri =>
      [onPriority i (mkPriority (urgency pri) (incremental pri) 0)]
  end.

Fixpoint expectedAll (s : Control) (requests : list Request) : list ControlEvent :=
  match requests with
  | [] => []
  | r :: requests =>
      expected s r ++
      match send s [] r with Some (s, _) => expectedAll s requests | None => [] end
  end.

(** Only a client sends priorities: its peer is [DOWNSTREAM]. *)
Definition request_ok (s : Control) (peer : TransportDirection) (r : Request) : Prop :=
  match r with
  | RGoaway i _ => goaway_id_ok (transportDirection_ s) i
  | RPriority i pri =>
      peer = DOWNSTREAM /\ 0 <= i <= kEightByteLimit /\ 0 <= urgency pri <= kDefaultMaxPriority
  end.

Definition calls_of (events : list (Event ControlEvent)) : list ControlEvent :=
  omap (fun e => match e with onEvent x => Some x | _ => None end) events.

Section conversation.
Context `{CV : Conversions} `{CO : !StructuredResults.ConversionsOk}.

(** [reports w s s' e]: [w] appends bytes that take a codec in state [s], between two
    frames, to [s'] with the calls [e], and are consumed. *)
Definition reports (w : list Z -> list Z) (s s' : Control) (e : list ControlEvent) : Prop :=
  exists bytes, (forall q, w q = q ++ bytes) /\ bytes_ok bytes /\
  forall c, ready c -> derived c = s -> exists c' events,
    onFramedIngress c bytes = Some (c', zlen bytes, events) /\ ready c' /\ derived c' = s' /\ calls_of events = e.

Lemma encodes_ok bs v : encodes bs v -> bytes_ok bs.
Proof. by intros (? & _). Qed.

Lemma calls_onEvent (e : list ControlEvent) : calls_of (onEvent <$> e) = e.
Proof. induction e as [|x e IH]; [done|]. cbn. f_equal. exact IH. Qed.

Lemma carries_reports t payload w s s' e : HQFrames.carries t payload w -> t <> FrameType.DATA ->
  control_checkFrameAllowed s t = None ->
  parseFrame s (mkHeader t (zlen payload)) payload = Some (mkOutcome None s' false (onEvent <$> e) []) ->
  reports (fun q => (w q).1) s s' e.
Proof.
  intros (Hp & tb & lb & Et & El & Hw) Ht Hal Hpf. exists (tb ++ lb ++ payload).
  split; [intros q; by rewrite Hw|]. split.
  { pose proof (encodes_ok _ _ Et). pose proof (encodes_ok _ _ El). unfold bytes_ok in *. rewrite !Forall_app. tauto. }
  intros c Hc <-. destruct (frame_call c t tb lb payload s' (onEvent <$> e) Hc Hal Ht Et El Hp Hpf) as (c' & HC & Hr & Hd).
  eexists c', _. split; [exact HC|]. split; [done|]. split; [done|]. apply calls_onEvent.
Qed.

Lemma reports_nothing s : reports (fun q => q) s s [].
Proof.
  exists []. split; [intros q; by rewrite app_nil_r|]. split; [constructor|]. intros c Hc Hd.
  exists c, []. by rewrite call_nil.
Qed.

Lemma reports_chain w1 w2 s1 s2 s3 e1 e2 : reports w1 s1 s2 e1 -> reports w2 s2 s3 e2 ->
  reports (fun q => w2 (w1 q)) s1 s3 (e1 ++ e2).
Proof.
  intros (b1 & Hw1 & Hb1 & Hc1) (b2 & Hw2 & Hb2 & Hc2). exists (b1 ++ b2).
  split; [intros q; by rewrite Hw1, Hw2, app_assoc|]. split; [by apply Forall_app|]. intros c Hc Hd.
  destruct (Hc1 c Hc Hd) as (c1 & f1 & HC1 & Hr1 & Hd1 & <-), (Hc2 c1 Hr1 Hd1) as (c2 & f2 & HC2 & Hr2 & Hd2 & <-).
  destruct (call_chain c b1 b2 c1 f1 c2 f2 (proj1 Hc) Hb1 Hb2 HC1 HC2) as (f & HC & Ht).
  apply control_tokens in Ht as ->. eexists c2, _. split; [exact HC|]. split; [done|]. split; [done|].
  apply omap_app.
Qed.

(** ** Requests *)

(** A receiver that has its peer's settings. *)
Definition open (s : Control) : Prop :=
  isIngress s = true /\ streamType_ s = StreamType.CONTROL /\ receivedSettings_ s = true.

Lemma allowed_goaway s : open s -> control_checkFrameAllowed s FrameType.GOAWAY = None.
Proof.
  intros (_ & Hst & Hr). unfold control_checkFrameAllowed. rewrite Hst, Hr. cbn. by rewrite !andb_false_r.
Qed.

Lemma allowed_priority s t : open s -> transportDirection_ s = DOWNSTREAM ->
  t = FrameType.FB_PRIORITY_UPDATE \/ t = FrameType.FB_PUSH_PRIORITY_UPDATE ->
  control_checkFrameAllowed s t = None.
Proof.
  intros (_ & Hst & Hr) Hd Ht. unfold control_checkFrameAllowed. rewrite Hst, Hr, Hd. by destruct Ht as [-> | ->].
Qed.

Lemma goaway_reports s j : open s -> 0 <= j <= kEightByteLimit ->
  reports (fun q => (HQFramer.writeGoaway q j).1) s s [onGoaway j NO_ERROR].
Proof.
  intros Ho Hj. destruct (goaway_written j Hj) as (bs & Eb & Hc).
  apply (carries_reports FrameType.GOAWAY bs _ s s _ Hc); [done|by apply allowed_goaway|].
  unfold parseFrame. cbn [type]. cbn. unfold control_parseGoaway, HQFramer.parseGoaway.
  pose proof (HQFrames.id_parsed FrameType.GOAWAY bs j [] Eb ltac:(constructor)) as HP.
  rewrite app_nil_r in HP. by rewrite HP.
Qed.

Lemma updateString_ok pri : 0 <= urgency pri <= kDefaultMaxPriority ->
  bytes_ok (updateString pri) /\ zlen (updateString pri) <= 8 /\
  httpPriorityFromString (updateString pri) = Some (mkPriority (urgency pri) (incremental pri) 0).
Proof.
  unfold kDefaultMaxPriority. intros Hu.
  assert (E : updateString pri = httpPriorityToString (mkPriority (urgency pri) (incremental pri) 0)).
  { unfold updateString, httpPriorityToString, kMaxPriority. cbn. rewrite Z.min_r, app_nil_r by lia. done. }
  rewrite E, StructuredResults.priority_parsed by (unfold StructuredResults.priority_ok, kMaxPriority; cbn; lia).
  rewrite <- E. unfold updateString.
  assert (urgency pri = 0 \/ urgency pri = 1 \/ urgency pri = 2 \/ urgency pri = 3 \/ urgency pri = 4 \/
    urgency pri = 5 \/ urgency pri = 6 \/ urgency pri = 7) as H by lia.
  destruct H as [-> | [-> | [-> | [-> | [-> | [-> | [-> | ->]]]]]]]; destruct (incremental pri);
    (split; [repeat constructor; by vm_compute|]); (split; [by vm_compute|done]).
Qed.

(** Both kinds of priority frames are reported by [onPriority]. *)
Lemma priority_reports s t i pri : open s -> transportDirection_ s = DOWNSTREAM -> 0 <= i <= kEightByteLimit ->
  0 <= urgency pri <= kDefaultMaxPriority ->
  t = FrameType.FB_PRIORITY_UPDATE \/ t = FrameType.FB_PUSH_PRIORITY_UPDATE ->
  reports (fun q => (HQFramer.writeIdFrame q t i (updateString pri)).1) s s
    [onPriority i (mkPriority (urgency pri) (incremental pri) 0)].
Proof.
  intros Ho Hd Hi Hu Ht. destruct (updateString_ok pri Hu) as (Hb & Hl & Hp).
  set (text := updateString pri) in *. clearbody text.
  assert (Hty : HQFrames.id_ok t) by (unfold HQFrames.id_ok, kEightByteLimit; by destruct Ht as [-> | ->]).
  destruct (HQFrames.id_carries t i text Hty Hi Hb) as (bs & Eb & Hc);
    [unfold kEightByteLimit; lia|].
  pose proof Hc as (_ & tb & lb & _ & (_ & _ & Hle & _) & _).
  apply (carries_reports t _ _ s s _ Hc).
  - by destruct Ht as [-> | ->].
  - by apply allowed_priority.
  - pose proof (HQFrames.priority_frame_parsed t bs i text _ [] Eb Hb ltac:(constructor) (proj2 Hle) Hp) as HP.
    rewrite app_nil_r in HP. unfold parseFrame. cbn [type].
    destruct Ht as [-> | ->]; cbn; unfold control_parsePriorityUpdate; rewrite HP; done.
Qed.

(** A request leaves the sender fit for the next one. *)
Lemma send_reports s r p : egress_ok s -> open r -> request_ok s (transportDirection_ r) p ->
  exists s', egress_ok s' /\ transportDirection_ s' = transportDirection_ s /\
    (exists w, reports w r r (expected s p) /\ forall q, send s q p = Some (s', w q)).
Proof.
  intros Hs Ho. destruct p as [i code|i pri]; cbn [request_ok expected send].
  - intros Hi. destruct (sentFinalGoaway_ s) eqn:Hf.
    + exists s. split; [done|]. split; [done|]. exists (fun q => q). split; [apply reports_nothing|].
      intros q. unfold generateGoaway. by rewrite Hf.
    + pose proof (generateGoaway_spec s i code Hs Hi Hf) as Hg. pose proof (goawayId_cases s i code Hs Hi) as Hj.
      pose proof (drainingId_ok (transportDirection_ s)).
      destruct (goawayId s i code) as [j final]. destruct Hg as (bs & bytes & _ & _ & _ & Hw & Hg).
      exists (with_goaway s true final j). split; [done|]. split; [done|]. eexists. cbn [fst].
      split; [apply goaway_reports; [done|lia]|]. intros q. rewrite Hg. cbn. by rewrite Hw.
  - intros (Hd & Hi & Hu). exists s. split; [done|]. split; [done|]. eexists.
    split; [by apply (priority_reports r FrameType.FB_PRIORITY_UPDATE); auto|].
    intros q. unfold generatePriority, HQFramer.writePriorityUpdate. rewrite Z.gtb_ltb, (proj2 (Z.ltb_ge _ _)) by lia.
    by destruct (HQFramer.writeIdFrame _ _ _ _).
Qed.

(** The priority of a push is read back, but as the priority of the stream with the number
    of the push: [parseFrame] gives both kinds of frames to [parsePriorityUpdate], so the
    session of the peer is never told by [onPushPriority]. *)
Lemma push_priority_misreported r i pri : open r -> transportDirection_ r = DOWNSTREAM ->
  0 <= i <= kEightByteLimit -> 0 <= urgency pri <= kDefaultMaxPriority ->
  reports (fun q => (generatePushPriority q i pri).1) r r [onPriority i (mkPriority (urgency pri) (incremental pri) 0)].
Proof.
  intros Ho Hd Hi Hu. destruct (priority_reports r FrameType.FB_PUSH_PRIORITY_UPDATE i pri) as (bytes & Hw & Hb); auto.
  exists bytes. split; [|done]. intros q. rewrite <- Hw. unfold generatePushPriority, HQFramer.writePushPriorityUpdate.
  rewrite Z.gtb_ltb, (proj2 (Z.ltb_ge _ _)) by lia. by destruct (HQFramer.writeIdFrame _ _ _ _).
Qed.

Lemma request_ok_dir s s' peer p : transportDirection_ s' = transportDirection_ s -> request_ok s peer p -> request_ok s' peer p.
Proof. intros H. destruct p; cbn; by rewrite ?H. Qed.

Lemma sendAll_reports requests : forall s r, egress_ok s -> open r ->
  Forall (request_ok s (transportDirection_ r)) requests ->
  exists s' w, reports w r r (expectedAll s requests) /\ forall q, sendAll s q requests = Some (s', w q).
Proof.
  induction requests as [|p requests IH]; intros s r Hs Ho Hr.
  { exists s, (fun q => q). split; [apply reports_nothing|done]. }
  apply Forall_cons in Hr as [Hp Hr]. destruct (send_reports s r p Hs Ho Hp) as (s1 & Hs1 & Hd1 & w1 & Hw1 & Hsend).
  assert (Hr1 : Forall (request_ok s1 (transportDirection_ r)) requests).
  { eapply Forall_impl; [exact Hr|]. intros x. by apply request_ok_dir. }
  destruct (IH s1 r Hs1 Ho Hr1) as (s' & w & Hw & HS). exists s', (fun q => w (w1 q)). split.
  - cbn [expectedAll]. rewrite Hsend. by eapply reports_chain.
  - intros q. cbn [sendAll]. rewrite Hsend. apply HS.
Qed.

(** ** Settings *)

Lemma settings_ids i j : httpToHqSettingsId i = Some j ->
  HQFramer.knownSetting j = true /\ hqToHttpSettingsId j = Some i /\ HQFrames.id_ok j.
Proof.
  unfold httpToHqSettingsId. intros H.
  repeat match type of H with context [if ?x =? ?y then _ else _] => destruct (Z.eqb_spec x y) as [->|_] end;
    [simplify_eq; split; [by vm_compute|]; split; [by vm_compute|by split; vm_compute]..|done].
Qed.

(** The settings that have a meaning in HTTP/3. *)
Definition carried (settings : list HTTPSetting) : list HTTPSetting :=
  filter (fun s => is_Some (httpToHqSettingsId (id s))) settings.

(** Values that fit, and 0 or 1 where nothing else is legal. *)
Definition setting_ok (s : HTTPSetting) : Prop :=
  0 <= value s <= kEightByteLimit /\
  forall j, httpToHqSettingsId (id s) = Some j -> booleanSetting j = true -> value s <= 1.

Lemma hqSettings_ok settings : Forall setting_ok settings -> HQFrames.settings_ok (hqSettings settings) /\
  filter (fun p => HQFramer.knownSetting p.1 = true) (hqSettings settings) = hqSettings settings /\
  zlen (hqSettings settings) <= zlen settings.
Proof.
  induction 1 as [|s settings [Hv _] _ (IH1 & IH2 & IH3)]; [by repeat constructor|]. cbn [hqSettings].
  rewrite zlen_cons. destruct (httpToHqSettingsId (id s)) as [j|] eqn:Hj; [|split; [done|split; [done|lia]]].
  destruct (settings_ids _ _ Hj) as (Hk & _ & Hi). split; [by constructor|]. rewrite filter_cons. cbn [fst].
  rewrite decide_True by done. rewrite IH2, zlen_cons. split; [done|lia].
Qed.

Lemma applySettings_ok settings : forall mine acc, Forall setting_ok settings ->
  applySettings mine (hqSettings settings) acc =
    (foldl (fun m s => setSetting m (id s) (value s)) mine (carried settings), inr (acc ++ carried settings)).
Proof.
  induction settings as [|s settings IH]; intros mine acc Hs.
  { cbn. by rewrite app_nil_r. }
  apply Forall_cons in Hs as [[Hv Hb] Hs]. cbn [hqSettings]. unfold carried. rewrite filter_cons.
  destruct (httpToHqSettingsId (id s)) as [j|] eqn:Hj.
  2: { rewrite decide_False by (by intros [? ?]). by apply IH. }
  rewrite decide_True by done. cbn [applySettings].
  destruct (booleanSetting j && (value s >? 1)) eqn:E.
  { apply andb_prop in E as [E1 E2%Z.gtb_lt]. specialize (Hb j eq_refl E1). lia. }
  destruct (settings_ids _ _ Hj) as (_ & -> & _). rewrite get_set, IH by done.
  rewrite <- app_assoc. by destruct s.
Qed.

Definition set_received (s : Control) (settings : list HTTPSetting) : Control :=
  with_settings s true (sentSettings_ s)
    (foldl (fun m s => setSetting m (id s) (value s)) (settings_ s) (carried settings)).

Lemma grease_unknown random : 0 <= random < 16 -> exists g, HQFramer.getGreaseId random = Some g /\
  HQFrames.id_ok g /\ HQFramer.knownSetting g = false.
Proof.
  intros Hr. set (P n := match HQFramer.getGreaseId n with
    | Some g => (0 <=? g) && (g <=? kEightByteLimit) && negb (HQFramer.knownSetting g)
    | None => false end).
  assert (HP : P random = true) by (apply (range_forall P 16); [by vm_compute|done]). unfold P in HP.
  destruct (HQFramer.getGreaseId random) as [g|]; [|done]. exists g. split; [done|].
  apply andb_prop in HP as [[H1%Z.leb_le H2%Z.leb_le]%andb_prop H3%negb_true_iff]. by split.
Qed.

(** The first frame. *)
Lemma settings_reports s r random : isEgress s = true -> sentSettings_ s = false -> Forall setting_ok (settings_ s) ->
  16 * (zlen (settings_ s) + 1) <= kEightByteLimit -> 0 <= random < 16 ->
  isIngress r = true -> streamType_ r = StreamType.CONTROL -> receivedSettings_ r = false ->
  exists w, reports w r (set_received r (settings_ s)) [onSettings (carried (settings_ s))] /\
    forall q, exists n, generateSettings random s q = Some (with_settings s (receivedSettings_ s) true (settings_ s), w q, n).
Proof.
  intros He Hss Hset Hlen Hr Hin Hst Hrec. destruct (grease_unknown random Hr) as (g & Hg & Hgi & Hgk).
  destruct (hqSettings_ok _ Hset) as (Hok & Hfil & Hz).
  set (l := hqSettings (settings_ s) ++ [(g, 0xFACEB00C)]).
  assert (Hl : HQFrames.settings_ok l).
  { apply Forall_app. split; [done|]. apply Forall_singleton. split; [done|]. unfold HQFrames.id_ok, kEightByteLimit. cbn. lia. }
  assert (Hll : 16 * zlen l <= kEightByteLimit) by (unfold l; rewrite zlen_app, zlen_cons; unfold zlen in *; cbn; lia).
  assert (Hfl : filter (fun p => HQFramer.knownSetting p.1 = true) l = hqSettings (settings_ s)).
  { unfold l. rewrite filter_app, Hfil, filter_cons. cbn [fst]. rewrite decide_False by (by rewrite Hgk).
    apply app_nil_r. }
  destruct (HQFrames.settings_carries l Hl Hll) as (bs & Hbs & Hc). exists (fun q => (HQFramer.writeSettings q l).1).
  split.
  - apply (carries_reports FrameType.SETTINGS bs _ _ _ _ Hc); [done| |].
    + unfold control_checkFrameAllowed. rewrite Hst, Hrec. cbn. by rewrite !andb_false_r.
    + pose proof Hc as (Hbok & tb & lb & _ & (_ & _ & Hle & _) & _). unfold parseFrame. cbn [type]. cbn.
      unfold control_parseSettings. rewrite Hin. cbn [negb]. unfold HQFramer.parseSettings. cbn [length].
      pose proof (HQFrames.settings_count l bs Hbs).
      pose proof (HQFrames.settings_parsed l bs Hbs [] [] (S (List.length bs)) Hbok ltac:(constructor) (proj2 Hle) ltac:(lia)) as HP.
      rewrite app_nil_r in HP. rewrite HP. cbn [handle app]. rewrite Hfl, applySettings_ok by done. done.
  - intros q. unfold generateSettings. rewrite Hss, He, Hg. cbn [negb mbind option_bind]. fold l.
    destruct Hc as (_ & tb & lb & _ & _ & Hw). rewrite Hw. eauto.
Qed.

(** An egress codec sends its settings and then the requests. *)
Definition converse (random : Z) (s : Control) (requests : list Request) : option (Control * list Z) :=
  '(s, writeBuf, _) ← generateSettings random s [];
  sendAll s writeBuf requests.

(** The settings fit in a frame and hold legal values. *)
Definition settings_fit (settings : list HTTPSetting) : Prop :=
  Forall setting_ok settings /\ 16 * (zlen settings + 1) <= kEightByteLimit.

(** C12. What one side of a connection says on its control stream is what the other
    side hears.  A new egress codec with legal settings (values of at most 62 bits, 0 or 1
    for the settings that are booleans, few enough for one frame) sends them and a
    random setting of the greasing pool, then any sequence of GOAWAY frames
    and, if its peer is a server, of priorities of streams; whatever way the
    bytes are cut on the way, a new ingress codec consumes all of them without an
    error, reports the settings that exist in HTTP/3 and then every frame, in order,
    and its session's settings are updated with the ones received.  Priorities of pushes
    are left out: they are reported as priorities of streams. *)
Theorem hq_control_conversation random sid rid dir peer mine theirs requests :
  let s := create sid dir EGRESS mine StreamType.CONTROL in
  let r := create rid peer INGRESS theirs StreamType.CONTROL in
  settings_fit mine -> 0 <= random < 16 -> Forall (request_ok s peer) requests ->
  exists s' bytes, converse random s requests = Some (s', bytes) /\ bytes_ok bytes /\
    forall pieces, concat pieces = bytes -> exists c events,
      receive (initial r) [] pieces = Some (c, [], events) /\ connError_ c = None /\
      calls_of events = onSettings (carried mine) ::
        expectedAll (with_settings s false true mine) requests /\
      settings_ (derived c) = foldl (fun m x => setSetting m (id x) (value x)) theirs (carried mine).
Proof.
  intros s r [Hset Hlen] Hrand Hreq.
  destruct (settings_reports s r random eq_refl eq_refl Hset Hlen Hrand eq_refl eq_refl eq_refl) as (w0 & Hw0 & Hg).
  destruct (sendAll_reports requests (with_settings s false true mine) (set_received r mine)) as (s' & w & Hw & Hsend);
    [done..|].
  destruct (reports_chain _ _ _ _ _ _ _ Hw0 Hw) as (bytes & Hbytes & Hb & Hc).
  destruct (Hg []) as (n & Hg0). exists s', bytes. unfold converse. rewrite Hg0. cbn [mbind option_bind].
  change (receivedSettings_ s) with false. change (settings_ s) with mine. rewrite Hsend, Hbytes.
  split; [done|]. split; [done|]. intros pieces Hp.
  destruct (Hc (initial r)) as (c & events & HC & (_ & _ & Hce & _) & Hd & Hcalls); [by split|done|].
  assert (Hps : Forall bytes_ok pieces).
  { rewrite <- Hp in Hb. clear -Hb. induction pieces as [|p l IH]; [constructor|]. cbn in Hb.
    apply Forall_app in Hb as [? ?]. constructor; auto. }
  destruct (receive_call r pieces eq_refl Hps) as (c' & k & e & HR & HC' & _). rewrite Hp, HC in HC'. simplify_eq.
  exists c', e. split; [rewrite HR; do 3 f_equal; apply drop_ge; unfold zlen; lia|]. split; [done|].
  split; [done|]. by rewrite Hd.
Qed.

End conversation.

Lemma hq_control_pieces_witness :
  exists c kept events,
    receive (CV := StructuredResults.plain)
      (initial (create 3 DOWNSTREAM INGRESS defaults StreamType.CONTROL)) [] [[4; 2]; [6]; [10; 7]] = Some (c, kept, events) /\
    onUnidirectionalIngress (CV := StructuredResults.plain)
      (initial (create 3 DOWNSTREAM INGRESS defaults StreamType.CONTROL)) [4; 2; 6; 10; 7] = Some (c, kept, events).
Proof.
  apply (hq_control_pieces (CV := StructuredResults.plain)
    (create 3 DOWNSTREAM INGRESS defaults StreamType.CONTROL) [[4; 2]; [6]; [10; 7]] eq_refl).
  repeat constructor; unfold is_u8; lia.
Defined.

Lemma hq_control_order_witness :
  exists c kept events,
    receive (CV := StructuredResults.plain)
      (initial (create 3 UPSTREAM INGRESS defaults StreamType.CONTROL)) [] [[4; 0; 7; 1]; [4; 4; 0]] = Some (c, kept, events) /\
    frameTypes events = [FrameType.SETTINGS; FrameType.GOAWAY] /\ ordered UPSTREAM false (frameTypes events).
Proof.
  eexists _, _, _. split; [vm_compute; reflexivity|]. split; [reflexivity|].
  eapply (hq_control_order (CV := StructuredResults.plain) 3 UPSTREAM defaults [[4; 0; 7; 1]; [4; 4; 0]]).
  - repeat constructor; unfold is_u8; lia.
  - vm_compute. reflexivity.
Defined.

Lemma hq_control_conversation_witness :
  let s := create 2 UPSTREAM EGRESS defaults StreamType.CONTROL in
  let requests := [RPriority 4 (mkPriority 2 true 9); RGoaway 8 NO_ERROR; RPriority 0 (mkPriority 5 false 0)] in
  exists s' bytes, converse 7 s requests = Some (s', bytes) /\ bytes_ok bytes /\
    forall pieces, concat pieces = bytes -> exists c events,
      receive (CV := StructuredResults.plain) (initial (create 3 DOWNSTREAM INGRESS [] StreamType.CONTROL)) [] pieces
        = Some (c, [], events) /\ connError_ c = None /\
      calls_of events = [onSettings [mkSetting SettingsId.HEADER_TABLE_SIZE 4096];
        onPriority 4 (mkPriority 2 true 0); onGoaway 8 NO_ERROR; onPriority 0 (mkPriority 5 false 0)] /\
      settings_ (derived c) = [mkSetting SettingsId.HEADER_TABLE_SIZE 4096].
Proof.
  apply (hq_control_conversation (CV := StructuredResults.plain) (CO := StructuredResults.plain_ok)
    7 2 3 UPSTREAM DOWNSTREAM defaults []
    [RPriority 4 (mkPriority 2 true 9); RGoaway 8 NO_ERROR; RPriority 0 (mkPriority 5 false 0)]).
  - split; [|unfold zlen, kEightByteLimit; cbn; lia].
    unfold defaults. rewrite !Forall_cons.
    split_and!; [..|constructor]; (split; [unfold kEightByteLimit; cbn; lia|]); intros j [= <-]; by vm_compute.
  - lia.
  - rewrite !Forall_cons. split_and!; [..|constructor]; cbn; unfold kEightByteLimit, kDefaultMaxPriority; try done; try lia.
    right. unfold drainingId, kMaxPushId, kEightByteLimit. rewrite decide_False by done. lia.
Defined.

End HQControlResults.
