(* ===== verification/FlowControlFilter.v ===== *)
(** * Connection-level flow control
      ([src/proxygen/proxygen/lib/http/codec/FlowControlFilter.cpp])

    The filter sits between the session and the codec.  Its state is the two
    connection windows, the bytes processed but not yet acknowledged ([toAck_])
    and two flags.  What it does to its neighbours is a list of [effect]s, in
    program order: calls on the codec below ([call_]), on the session above
    ([callback_]) and on the window listener ([notify_]).  [None] is a failed
    [CHECK], which aborts the process. *)

From S2P Require Import Prelude Window.
Import Window.

Module FlowControlFilter.

Inductive effect :=
| GenerateWindowUpdate (stream delta : Z)          (* call_->generateWindowUpdate *)
| GenerateBody (stream len : Z) (padding : option Z) (eom : bool)
| OnError (stream : Z)                             (* callback_->onError, FLOW_CONTROL_ERROR *)
| OnBody (stream len padding : Z)                  (* callback_->onBody *)
| OnWindowUpdate (stream amount : Z)               (* callback_->onWindowUpdate *)
| OnConnectionSendWindowOpen                       (* notify_ *)
| OnConnectionSendWindowClosed.

Record t := mk {
  recvWindow_ : Window.t;
  sendWindow_ : Window.t;
  toAck_ : Z;
  error_ : bool;
  sendsBlocked_ : bool
}.

(** The constructor; [defaultWindow] is [codec->getDefaultWindowSize()]. *)
Definition create (defaultWindow recvCapacity : Z) : option (t * list effect) :=
  r ← Window.create defaultWindow;
  s ← Window.create defaultWindow;
  if (recvCapacity >? 0) && negb (recvCapacity <? defaultWindow) &&
     (recvCapacity >? defaultWindow)
  then
    let delta := u32 (recvCapacity - defaultWindow) in
    let '(ok, r') := setCapacity r recvCapacity in
    if ok then Some (mk r' s 0 false false, [GenerateWindowUpdate 0 delta]) else None
  else Some (mk r s 0 false false, []).

Definition setReceiveWindowSize (f : t) (capacity : Z) : t * list effect :=
  if capacity <? getCapacity (recvWindow_ f) then (f, [])
  else
    let delta := i32 (u32 (capacity - getCapacity (recvWindow_ f))) in
    if delta <? 0 then (f, [])
    else
      let '(ok, r) := setCapacity (recvWindow_ f) capacity in
      if negb ok then (f, [])
      else
        let toAck := i32 (toAck_ f + delta) in
        if toAck >? 0
        then (mk r (sendWindow_ f) 0 (error_ f) (sendsBlocked_ f),
              [GenerateWindowUpdate 0 (u32 delta)])
        else (mk r (sendWindow_ f) toAck (error_ f) (sendsBlocked_ f), []).

Definition ingressBytesProcessed (f : t) (delta : Z) : option (bool * t * list effect) :=
  let toAck := i32 (u32 (toAck_ f + delta)) in
  let willAck := (toAck >? 0) && (u32 toAck >? getCapacity (recvWindow_ f) / 2) in
  if willAck then
    let '(ok, r) := free (recvWindow_ f) (u32 toAck) in
    if ok
    then Some (true, mk r (sendWindow_ f) 0 (error_ f) (sendsBlocked_ f),
               [GenerateWindowUpdate 0 (u32 toAck)])
    else None
  else Some (false, mk (recvWindow_ f) (sendWindow_ f) toAck (error_ f) (sendsBlocked_ f), []).

Definition getAvailableSend (f : t) : Z := getNonNegativeSize (sendWindow_ f).

(** [callIsReusable] is [call_->isReusable()]. *)
Definition isReusable (f : t) (callIsReusable : bool) : bool :=
  if error_ f then false else callIsReusable.

(** [len] is [chain->computeChainDataLength()]. *)
Definition onBody (f : t) (stream len padding : Z) : option (t * list effect) :=
  let '(ok, r) := reserve (recvWindow_ f) (u32 (u64 (len + padding))) true in
  if negb ok
  then Some (mk r (sendWindow_ f) (toAck_ f) true (sendsBlocked_ f), [OnError 0])
  else
    let toAck := i32 (toAck_ f + padding) in
    let '(ok', r') := free r padding in
    if ok'
    then Some (mk r' (sendWindow_ f) toAck (error_ f) (sendsBlocked_ f),
               [OnBody stream len padding])
    else None.

Definition onWindowUpdate (f : t) (stream amount : Z) : t * list effect :=
  if stream =? 0 then
    let '(success, s) := free (sendWindow_ f) amount in
    let err := if success then error_ f else true in
    let fx := if success then [] else [OnError stream] in
    if sendsBlocked_ f && truth (getNonNegativeSize s)
    then (mk (recvWindow_ f) s (toAck_ f) err false, fx ++ [OnConnectionSendWindowOpen])
    else (mk (recvWindow_ f) s (toAck_ f) err (sendsBlocked_ f), fx)
  else (f, [OnWindowUpdate stream amount]).

Definition generateBody (f : t) (stream len : Z) (padding : option Z) (eom : bool)
  : option (t * list effect) :=
  let padLen := default 0 padding in
  let '(success, s) := reserve (sendWindow_ f) (u32 (u64 (len + padLen))) true in
  if negb success then None
  else if getNonNegativeSize s =? 0
  then Some (mk (recvWindow_ f) s (toAck_ f) (error_ f) true,
             [OnConnectionSendWindowClosed; GenerateBody stream len padding eom])
  else Some (mk (recvWindow_ f) s (toAck_ f) (error_ f) (sendsBlocked_ f),
             [GenerateBody stream len padding eom]).

Definition generateWindowUpdate (f : t) (stream delta : Z) : option (t * list effect) :=
  if stream =? 0 then None else Some (f, [GenerateWindowUpdate stream delta]).

(** ** The send side

    The session sends bodies and the peer returns credit on stream 0. *)

Inductive send_event :=
| Send (stream len : Z) (padding : option Z) (eom : bool)
| PeerUpdate (stream amount : Z).

Definition send_event_ok (e : send_event) : Prop :=
  match e with
  | Send _ len padding _ => 0 <= len < 2 ^ 63 /\ 0 <= default 0 padding < 2 ^ 8
  | PeerUpdate _ amount => is_u32 amount
  end.

Definition send_step (f : t) (e : send_event) : option (t * list effect) :=
  match e with
  | Send stream len padding eom => generateBody f stream len padding eom
  | PeerUpdate stream amount => Some (onWindowUpdate f stream amount)
  end.

Fixpoint send_run (f : t) (es : list send_event) : option (t * list effect) :=
  match es with
  | [] => Some (f, [])
  | e :: es' =>
      '(f', fx) ← send_step f e;
      '(f'', fx') ← send_run f' es';
      Some (f'', fx ++ fx')
  end.

Definition sent (e : send_event) : Z :=
  match e with Send _ len padding _ => len + default 0 padding | _ => 0 end.
(** What is taken from the window: [Window::reserve] has a [uint32_t] parameter. *)
Definition charged (e : send_event) : Z := u32 (sent e).
Definition credited (e : send_event) : Z :=
  match e with PeerUpdate stream amount => if stream =? 0 then amount else 0 | _ => 0 end.
Definition total (g : send_event -> Z) (es : list send_event) : Z :=
  foldr (fun e n => g e + n) 0 es.

(** What the send side maintains: [capacity_] is the default window [d], the
    window is never overdrawn, and [sendsBlocked_] says that it is empty. *)
Definition send_inv (d : Z) (f : t) : Prop :=
  wf (sendWindow_ f) /\ capacity_ (sendWindow_ f) = d /\
  outstanding_ (sendWindow_ f) <= d /\
  sendsBlocked_ f = bool_decide (outstanding_ (sendWindow_ f) = d).

Lemma getNonNegativeSize_exact w :
  wf w -> getNonNegativeSize w = Z.max 0 (capacity_ w - outstanding_ w).
Proof.
  intros Hw. unfold getNonNegativeSize. rewrite getSize_exact by done.
  unfold size. split_ifs; lia.
Qed.

Lemma generateBody_inv d f stream len padding eom f' fx :
  send_inv d f -> send_event_ok (Send stream len padding eom) ->
  generateBody f stream len padding eom = Some (f', fx) ->
  send_inv d f' /\
  outstanding_ (sendWindow_ f') = outstanding_ (sendWindow_ f) + u32 (len + default 0 padding).
Proof.
  intros (Hw & Hc & Ho & Hb) (Hl & Hp). unfold generateBody.
  rewrite u64_id by (clear - Hl Hp; unfold is_u64; lia). set (a := u32 (len + default 0 padding)) in *.
  assert (Ha : is_u32 a) by apply u32_range. clearbody a.
  pose proof (reserve_wf (sendWindow_ f) a true Hw Ha) as Hw'.
  rewrite reserve_spec in * by done. unfold Spec.reserve, Spec.reserve_ok in *.
  case_decide as Hd; simpl in *; [|done]. destruct Hd as (_ & _ & Hd). specialize (Hd eq_refl).
  rewrite getNonNegativeSize_exact by done. simpl.
  split_ifs; intros [= <- <-]; unfold send_inv; simpl; (split; [|done]).
  - split_and!; try done; try lia. symmetry; apply bool_decide_eq_true; lia.
  - split_and!; try done; try lia. rewrite Hb.
    destruct Ha. apply bool_decide_ext; lia.
Qed.

Lemma onWindowUpdate_inv d f stream amount :
  send_inv d f -> is_u32 amount ->
  let f' := (onWindowUpdate f stream amount).1 in
  send_inv d f' /\
  outstanding_ (sendWindow_ f) - (if stream =? 0 then amount else 0)
    <= outstanding_ (sendWindow_ f') <= outstanding_ (sendWindow_ f).
Proof.
  intros (Hw & <- & Ho & Hb) Ha. unfold onWindowUpdate.
  assert (H0 : 0 <= amount) by ilia.
  destruct (stream =? 0); [|simpl; split; [by split_and!|lia]].
  pose proof (free_wf (sendWindow_ f) amount Hw Ha) as Hw'.
  rewrite free_spec in * by done. unfold Spec.free, Spec.free_ok, size in *.
  case_decide as Hd; simpl in *; rewrite getNonNegativeSize_exact by done; simpl;
    rewrite Hb; unfold truth, send_inv; case_bool_decide; simpl; split_ifs; simpl;
    (split; [split_and!; try done; try lia; symmetry|lia]);
    rewrite ?bool_decide_eq_true, ?bool_decide_eq_false; lia.
Qed.

Lemma send_run_inv d es : forall f f' fx,
  send_inv d f -> Forall send_event_ok es -> send_run f es = Some (f', fx) ->
  send_inv d f' /\
  outstanding_ (sendWindow_ f) + total charged es - total credited es
    <= outstanding_ (sendWindow_ f').
Proof.
  induction es as [|e es IH]; intros f f' fx Hi Hes Hr; simpl in Hr.
  { simplify_eq. simpl. split; [done|lia]. }
  inversion Hes as [|? ? He Hes']; subst.
  destruct (send_step f e) as [[f1 fx1]|] eqn:E1; simpl in Hr; [|done].
  destruct (send_run f1 es) as [[f2 fx2]|] eqn:E2; simpl in Hr; [|done]. simplify_eq.
  assert (H1 : send_inv d f1 /\ outstanding_ (sendWindow_ f) + charged e - credited e
                <= outstanding_ (sendWindow_ f1)).
  { destruct e; simpl in *.
    - destruct (generateBody_inv d f stream len padding eom f1 fx1 Hi He E1) as [? ->].
      split; [done|unfold charged; simpl; lia].
    - injection E1 as E1. destruct (onWindowUpdate_inv d f stream amount Hi He) as [Hi1 Ho1].
      rewrite E1 in *. simpl in *. split; [done|change (charged (PeerUpdate stream amount)) with 0; lia]. }
  destruct H1 as [Hi1 Ho1]. destruct (IH _ _ _ Hi1 Hes' E2) as [? ?].
  split; [done|]. simpl. lia.
Qed.

Lemma create_send_inv d recvCapacity f fx :
  is_u32 d -> 0 < d -> create d recvCapacity = Some (f, fx) ->
  send_inv d f /\ outstanding_ (sendWindow_ f) = 0.
Proof.
  intros Hd Hpos. unfold create. rewrite window_create_wf by done.
  case_decide; simpl; [|done].
  assert (Hw : send_inv d (mk (Window.mk 0 d) (Window.mk 0 d) 0 false false)).
  { unfold send_inv, wf; simpl. split_and!; try ilia.
    symmetry; apply bool_decide_eq_false; lia. }
  destruct (_ && _ && _).
  - destruct (setCapacity _ _) as [[] r]; intros; simplify_eq; done.
  - intros; simplify_eq; done.
Qed.

Lemma charged_sent e : send_event_ok e -> sent e < 2 ^ 32 -> charged e = sent e.
Proof. intros He Hs. unfold charged. apply u32_id. destruct e; simpl in *; unfold_ints; lia. Qed.

Lemma total_charged es : Forall send_event_ok es -> Forall (fun e => sent e < 2 ^ 32) es -> total charged es = total sent es.
Proof.
  induction 1 as [|e es He _ IH]; intros Hs; [done|]. inversion Hs; subst. simpl. by rewrite charged_sent, IH.
Qed.

Lemma generateBody_succeeds d f stream len padding eom :
  send_inv d f -> send_event_ok (Send stream len padding eom) ->
  is_Some (generateBody f stream len padding eom) <-> u32 (len + default 0 padding) <= getAvailableSend f.
Proof.
  intros (Hw & Hc & Ho & Hb) (Hl & Hp). unfold generateBody, getAvailableSend. rewrite getNonNegativeSize_exact by done.
  rewrite u64_id by (clear - Hl Hp; unfold is_u64; lia). set (a := u32 (len + default 0 padding)) in *. assert (Ha : is_u32 a) by apply u32_range. clearbody a.
  rewrite reserve_spec by done. unfold Spec.reserve, Spec.reserve_ok. unfold wf in Hw. clear Hb. case_decide as Hd; simpl.
  - destruct Hd as (_ & _ & Hd). specialize (Hd eq_refl). split; intros _; [lia|]. by split_ifs; eauto.
  - split; [by intros H; destruct H|]. intros Hle. destruct Hd. split_and!; [ilia|ilia|lia].
Qed.

(** C35. The filter never lets the session send more than the peer allowed, in any run
    from the constructor with a positive default window.  [generateBody] succeeds exactly if
    what it charges is at most [getAvailableSend], and otherwise its [CHECK] ends the
    process; as long as that does not happen, what was charged is at most the default window
    plus the credit of the stream-0 WINDOW_UPDATEs received, and [sendsBlocked_] is set
    exactly when no byte may be sent.  What is charged for a body is its length with the
    padding modulo 2^32 (the length is passed as a [uint32_t]), so that the bytes that were
    sent are within the credit if each body with its padding is shorter than 4 GB. *)
Theorem send_within_credit d recvCapacity f0 fx0 es f fx :
  is_u32 d -> 0 < d -> create d recvCapacity = Some (f0, fx0) ->
  Forall send_event_ok es -> send_run f0 es = Some (f, fx) ->
  total charged es <= d + total credited es /\
  (Forall (fun e => sent e < 2 ^ 32) es -> total sent es <= d + total credited es) /\
  sendsBlocked_ f = bool_decide (getAvailableSend f = 0) /\
  forall stream len padding eom, send_event_ok (Send stream len padding eom) ->
    is_Some (generateBody f stream len padding eom) <-> charged (Send stream len padding eom) <= getAvailableSend f.
Proof.
  intros Hd Hpos Hc Hes Hr. destruct (create_send_inv d recvCapacity f0 fx0) as [Hi Ho]; auto.
  destruct (send_run_inv d es f0 f fx Hi Hes Hr) as [Hi' Hsum]. pose proof Hi' as (Hw & Hcap & Hle & Hb).
  assert (Ht : total charged es <= d + total credited es) by lia. split_and!; [done| | |].
  - intros Hs. by rewrite <- total_charged.
  - rewrite Hb. unfold getAvailableSend. rewrite getNonNegativeSize_exact by done. apply bool_decide_ext. lia.
  - intros stream len padding eom He. by eapply generateBody_succeeds.
Qed.

Lemma send_within_credit_witness :
  let es := [Send 1 65535 None false; PeerUpdate 0 10; Send 1 4 (Some 6) true] in
  total sent es <= 65535 + total credited es.
Proof.
  intros es.
  eapply (send_within_credit 65535 0 (mk (Window.mk 0 65535) (Window.mk 0 65535) 0 false false)
           [] es (mk (Window.mk 0 65535) (Window.mk 65535 65535) 0 false true)
           [OnConnectionSendWindowClosed; GenerateBody 1 65535 None false;
            OnConnectionSendWindowOpen; OnConnectionSendWindowClosed;
            GenerateBody 1 4 (Some 6) true]);
    [unfold_ints; lia|lia|reflexivity
    |repeat constructor; simpl; unfold_ints; lia|vm_compute; reflexivity|repeat (apply Forall_cons; split); [by vm_compute..|by apply Forall_nil]].
Defined.

(** A body of 4 GB is charged nothing: the peer's window is exceeded and nothing notices. *)
Lemma truncated_body_exceeds_credit :
  exists f, send_run (mk (Window.mk 0 65535) (Window.mk 0 65535) 0 false false) [Send 1 (2 ^ 32) None true]
    = Some (f, [GenerateBody 1 (2 ^ 32) None true]) /\ getAvailableSend f = 65535.
Proof. exists (mk (Window.mk 0 65535) (Window.mk 0 65535) 0 false false). by split; vm_compute. Qed.

(** ** The receive side

    A receive configuration adds three ledgers to the filter: [peer], the window
    the sender believes it has; [pend], the body bytes delivered to the
    session and not yet reported through [ingressBytesProcessed]; and [lost], the bytes that
    [toAck_] held when a resize cleared it.  The peer stays within its window, the session
    reports at most what it got. *)

Record rcfg := RCfg { filter : t; peer : Z; pend : Z; lost : Z }.

(** Connection-level credit among the effects of one call. *)
Definition credit (fx : list effect) : Z :=
  foldr (fun e n => match e with GenerateWindowUpdate 0 d => d | _ => 0 end + n) 0 fx.

Inductive recv_step : rcfg -> rcfg -> Prop :=
| recv_body f p q l stream len f' fx :
    0 <= len <= p ->
    onBody f stream len 0 = Some (f', fx) ->
    recv_step (RCfg f p q l) (RCfg f' (p - len + credit fx) (q + len) l)
| recv_processed f p q l delta b f' fx :
    0 <= delta <= q ->
    ingressBytesProcessed f delta = Some (b, f', fx) ->
    recv_step (RCfg f p q l) (RCfg f' (p + credit fx) (q - delta) l)
| recv_resize f p q l capacity f' fx :
    is_u32 capacity ->
    setReceiveWindowSize f capacity = (f', fx) ->
    recv_step (RCfg f p q l) (RCfg f' (p + credit fx) q (l + (toAck_ f - toAck_ f'))).

(** Both ends agree on the window, and every byte taken out of it is waiting in the
    session, waiting to be acknowledged, or lost. *)
Definition recv_inv (c : rcfg) : Prop :=
  let w := recvWindow_ (filter c) in
  wf w /\ peer c = size w /\ 0 <= peer c /\ 0 <= pend c /\ 0 <= lost c /\
  0 <= toAck_ (filter c) <= capacity_ w / 2 /\
  outstanding_ w = toAck_ (filter c) + pend c + lost c.

Lemma onBody_nopad f p q l stream len :
  recv_inv (RCfg f p q l) -> 0 <= len <= p ->
  onBody f stream len 0 = Some (
    mk (Window.mk (outstanding_ (recvWindow_ f) + len) (capacity_ (recvWindow_ f)))
       (sendWindow_ f) (toAck_ f) (error_ f) (sendsBlocked_ f), [OnBody stream len 0]).
Proof.
  destruct f as [[o c] s ta er sb]; unfold recv_inv, size; simpl.
  intros (Hw & -> & Hp & Hq & Hlo & Ht & Ho) Hl. unfold onBody; simpl.
  unfold wf in Hw; simpl in Hw.
  rewrite Z.add_0_r. assert (Hu : u32 (u64 len) = len) by ilia. rewrite Hu.
  rewrite reserve_spec by (unfold wf; simpl; ilia). unfold Spec.reserve, Spec.reserve_ok.
  rewrite decide_True by (simpl; ilia). simpl.
  rewrite free_spec by (unfold wf; simpl; ilia). unfold Spec.free, Spec.free_ok, size; simpl.
  rewrite decide_True by ilia. simpl. repeat f_equal; ilia.
Qed.

Lemma ingressBytesProcessed_inv f p q l delta :
  recv_inv (RCfg f p q l) -> 0 <= delta <= q ->
  exists b f' fx, ingressBytesProcessed f delta = Some (b, f', fx) /\
    recv_inv (RCfg f' (p + credit fx) (q - delta) l).
Proof.
  destruct f as [[o c] s ta er sb]; unfold recv_inv, size; simpl.
  intros (Hw & -> & Hp & Hq & Hlo & Ht & ->) Hd. unfold ingressBytesProcessed; simpl.
  unfold wf in Hw; simpl in Hw.
  assert (Hi : i32 (u32 (ta + delta)) = ta + delta) by ilia. rewrite Hi.
  assert (Hu : u32 (ta + delta) = ta + delta) by ilia. rewrite Hu.
  unfold getCapacity; simpl. rewrite (u32_id c) by ilia.
  destruct (_ && _) eqn:E; bool_cases.
  - rewrite free_spec by (unfold wf; simpl; ilia). unfold Spec.free, Spec.free_ok, size; simpl.
    rewrite decide_True by ilia. do 3 eexists; split; [reflexivity|]. simpl.
    unfold wf; simpl. pose proof (Z.div_pos c 2). split_and!; try ilia.
  - do 3 eexists; split; [reflexivity|]. simpl. unfold wf; simpl.
    rewrite !Z.gtb_ltb in E. pose proof (Z.div_pos c 2).
    destruct E as [E|E]; bool_cases; split_and!; ilia.
Qed.

Lemma setReceiveWindowSize_inv f p q l capacity f' fx :
  recv_inv (RCfg f p q l) -> is_u32 capacity ->
  setReceiveWindowSize f capacity = (f', fx) -> recv_inv (RCfg f' (p + credit fx) q (l + (toAck_ f - toAck_ f'))).
Proof.
  destruct f as [[o c] s ta er sb]; unfold recv_inv, size; simpl.
  intros (Hw & -> & Hp & Hq & Hlo & Ht & ->) Hc. unfold setReceiveWindowSize, getCapacity; simpl.
  unfold wf in Hw; simpl in Hw. rewrite (u32_id c) by ilia. set (o := ta + q + l) in *.
  assert (Hsame : recv_inv (RCfg (mk (Window.mk o c) s ta er sb) (c - o + credit []) q (l + (ta - ta)))).
  { unfold recv_inv, wf, size; simpl. split_and!; ilia. }
  destruct (capacity <? c) eqn:E1; [intros [= <- <-]; exact Hsame|].
  destruct (_ <? 0) eqn:E2; [intros [= <- <-]; exact Hsame|]. bool_cases.
  rewrite window_setCapacity_spec by (unfold wf; simpl; ilia).
  unfold Spec.setCapacity, Spec.setCapacity_ok; simpl.
  case_decide as Hd; simpl; [|intros [= <- <-]; exact Hsame].
  assert (Hi : i32 (u32 (capacity - c)) = capacity - c) by ilia. rewrite Hi in *.
  pose proof (Z.div_le_mono c capacity 2). rewrite (i32_id (ta + (capacity - c))), (u32_id (capacity - c)) by ilia.
  split_ifs; intros [= <- <-]; simpl; unfold wf; simpl; split_and!; ilia.
Qed.

Lemma recv_step_inv c c' : recv_step c c' -> recv_inv c -> recv_inv c'.
Proof.
  destruct 1 as [f p q l stream len f' fx Hl He|f p q l delta b f' fx Hd He|f p q l cap f' fx Hc He];
    intros Hi.
  - rewrite (onBody_nopad f p q l) in He by done. simplify_eq. simpl.
    unfold recv_inv, wf, size in *; simpl in *. intuition (try lia).
  - destruct (ingressBytesProcessed_inv f p q l delta Hi Hd) as (b' & f1 & fx1 & He' & Hi').
    rewrite He in He'. by simplify_eq.
  - by eapply setReceiveWindowSize_inv.
Qed.

Lemma recv_reachable_inv c c' : rtc recv_step c c' -> recv_inv c -> recv_inv c'.
Proof. induction 1; eauto using recv_step_inv. Qed.

Lemma create_recv_inv d recvCapacity f fx :
  is_u32 d -> is_u32 recvCapacity -> create d recvCapacity = Some (f, fx) ->
  recv_inv (RCfg f (d + credit fx) 0 0).
Proof.
  intros Hd Hrc. unfold create. rewrite window_create_wf by done. case_decide; simpl; [|done].
  destruct (_ && _ && _) eqn:E; bool_cases.
  - rewrite window_setCapacity_spec by (unfold wf; simpl; ilia).
    unfold Spec.setCapacity, Spec.setCapacity_ok; simpl. case_decide; simpl; [|done].
    intros [= <- <-]. unfold recv_inv, wf, size; simpl.
    pose proof (Z.div_pos recvCapacity 2). rewrite u32_id by ilia. split_and!; ilia.
  - intros [= <- <-]. unfold recv_inv, wf, size; simpl.
    pose proof (Z.div_pos d 2). split_and!; ilia.
Qed.

(** C36. For bodies without padding, a peer that stays within its window and a session that
    reports at most what it got, no [CHECK] of the receive path fails and no flow-control
    error is raised, whenever and however the window is resized: from every reachable
    configuration [onBody] delivers the body and [ingressBytesProcessed] returns, and the
    sender and the receiver agree on the window.  (With padding this is not so, see
    [padding_double_credit_aborts].) *)
Theorem recv_no_check_fails d recvCapacity f0 fx0 c :
  is_u32 d -> is_u32 recvCapacity -> create d recvCapacity = Some (f0, fx0) ->
  rtc recv_step (RCfg f0 (d + credit fx0) 0 0) c ->
  peer c = getSize (recvWindow_ (filter c)) /\
  (forall stream len, 0 <= len <= peer c ->
     exists f', onBody (filter c) stream len 0 = Some (f', [OnBody stream len 0])) /\
  (forall delta, 0 <= delta <= pend c -> is_Some (ingressBytesProcessed (filter c) delta)).
Proof.
  intros Hd Hrc Hc Hr.
  pose proof (recv_reachable_inv _ _ Hr (create_recv_inv _ _ _ _ Hd Hrc Hc)) as Hi.
  destruct c as [f p q l]; simpl. split_and!.
  - destruct Hi as (Hw & Hp & _). by rewrite getSize_exact.
  - intros stream len Hl. rewrite (onBody_nopad f p q l) by done. eauto.
  - intros delta Hl. destruct (ingressBytesProcessed_inv f p q l delta Hi Hl)
      as (? & ? & ? & -> & _). eauto.
Qed.

(** A body arrives, is processed in two parts, and the window grows while 10000 bytes wait to
    be acknowledged, which are lost. *)
Definition exampleFilter (outstanding capacity toAck : Z) : t := mk (Window.mk outstanding capacity) (Window.mk 0 65535) toAck false false.

Lemma example_receives : rtc recv_step (RCfg (exampleFilter 0 65535 0) 65535 0 0) (RCfg (exampleFilter 15000 70000 0) 55000 5000 10000).
Proof.
  eapply rtc_l; [|eapply rtc_l; [|eapply rtc_l; [|apply rtc_refl]]].
  - apply (recv_body _ 65535 0 0 1 15000 (exampleFilter 15000 65535 0) [OnBody 1 15000 0]); [lia|reflexivity].
  - apply (recv_processed _ 50535 15000 0 10000 false (exampleFilter 15000 65535 10000) []); [lia|reflexivity].
  - apply (recv_resize (exampleFilter 15000 65535 10000) 50535 5000 0 70000 (exampleFilter 15000 70000 0) [GenerateWindowUpdate 0 4465]); [unfold_ints; lia|reflexivity].
Qed.

Lemma recv_no_check_fails_witness :
  (exists f', onBody (exampleFilter 15000 70000 0) 1 55000 0 = Some (f', [OnBody 1 55000 0])) /\
  is_Some (ingressBytesProcessed (exampleFilter 15000 70000 0) 5000).
Proof.
  destruct (recv_no_check_fails 65535 0 (exampleFilter 0 65535 0) [] (RCfg (exampleFilter 15000 70000 0) 55000 5000 10000)
    ltac:(unfold_ints; lia) ltac:(unfold_ints; lia) ltac:(reflexivity) example_receives) as (_ & H1 & H2).
  split; [apply H1|apply H2]; simpl; lia.
Defined.

(** C37. No stall but by resizes: for bodies without padding, whenever the session has
    processed everything it received, the sender's window is at least half of the receive
    capacity less the bytes that were waiting to be acknowledged when [setReceiveWindowSize]
    was called.  So without such resizes it can always send more; what they lose is lost for
    ever ([setReceiveWindowSize_drops_acks]). *)
Theorem recv_never_stalls d recvCapacity f0 fx0 c :
  is_u32 d -> is_u32 recvCapacity -> create d recvCapacity = Some (f0, fx0) ->
  rtc recv_step (RCfg f0 (d + credit fx0) 0 0) c -> pend c = 0 ->
  let cap := capacity_ (recvWindow_ (filter c)) in
  cap - cap / 2 - lost c <= peer c.
Proof.
  intros Hd Hrc Hc Hr Hq.
  pose proof (recv_reachable_inv _ _ Hr (create_recv_inv _ _ _ _ Hd Hrc Hc)) as Hi.
  destruct Hi as (Hw & Hp & _ & _ & _ & Ht & Ho). rewrite Hp, Hq in *. unfold size. simpl. lia.
Qed.

Lemma recv_never_stalls_witness :
  70000 - 70000 / 2 - 10000 <= peer (RCfg (exampleFilter 15000 70000 5000) 55000 0 10000).
Proof.
  apply (recv_never_stalls 65535 0 (exampleFilter 0 65535 0) [] (RCfg (exampleFilter 15000 70000 5000) 55000 0 10000));
    [unfold_ints; lia|unfold_ints; lia|reflexivity| |reflexivity].
  eapply rtc_r; [exact example_receives|].
  apply (recv_processed _ 55000 5000 10000 5000 false (exampleFilter 15000 70000 5000) []); [lia|reflexivity].
Defined.

(** ** Two ways in which the ledger is lost

    The hypothesis of [recv_step] that padding is zero is needed, and what a resize loses
    can be everything. *)

(** One receive-side call of the session, with the ledgers. *)
Inductive recv_call :=
| CBody (stream len padding : Z) | CProcessed (delta : Z) | CResize (capacity : Z).

Definition recv_call_step (c : rcfg) (e : recv_call) : option rcfg :=
  match e with
  | CBody stream len padding =>
      '(f, fx) ← onBody (filter c) stream len padding;
      Some (RCfg f (peer c - (len + padding) + credit fx) (pend c + len) (lost c))
  | CProcessed delta =>
      '(_, f, fx) ← ingressBytesProcessed (filter c) delta;
      Some (RCfg f (peer c + credit fx) (pend c - delta) (lost c))
  | CResize capacity =>
      let '(f, fx) := setReceiveWindowSize (filter c) capacity in
      Some (RCfg f (peer c + credit fx) (pend c) (lost c + (toAck_ (filter c) - toAck_ f)))
  end.

Definition recv_calls (c : rcfg) (es : list recv_call) : option rcfg :=
  foldl (fun oc e => c ← oc; recv_call_step c e) (Some c) es.

(** The filter right after the session attached it with the HTTP/2 default. *)
Definition fresh : rcfg :=
  RCfg (mk (Window.mk 0 65535) (Window.mk 0 65535) 0 false false) 65535 0 0.

(** The calls a correct peer and session make, resizes apart. *)
Definition allowed (c : rcfg) (e : recv_call) : Prop :=
  match e with
  | CBody _ len padding => 0 <= len /\ 0 <= padding < 2 ^ 16 /\ len + padding <= peer c
  | CProcessed delta => 0 <= delta <= pend c
  | CResize _ => False
  end.

Definition allowed_step (c c' : rcfg) : Prop :=
  exists e, allowed c e /\ recv_call_step c e = Some c'.

(** The state the trace below ends in: a full window and nothing pending. *)
Definition starved : rcfg :=
  RCfg (mk (Window.mk 65538 65538) (Window.mk 0 65535) 1 false false) 0 0 65537.

Lemma starved_stuck c0 c : rtc allowed_step c0 c -> c0 = starved -> c = starved.
Proof.
  induction 1 as [|c0 c1 c2 [e [Ha He]] _ IH]; [done|].
  intros ->. apply IH. destruct e as [str len pad|delta|]; simpl in *; [| |done].
  - assert (len = 0) as -> by lia. assert (pad = 0) as -> by lia.
    vm_compute in He. by simplify_eq.
  - assert (delta = 0) as -> by lia. vm_compute in He. by simplify_eq.
Qed.

(** [setReceiveWindowSize] writes a WINDOW_UPDATE for [delta] only and then
    zeroes [toAck_], dropping the acknowledgements that were pending.  Growing
    the window by one byte three times while processed bytes are pending leads
    to a configuration in which the session has nothing left to process and the
    peer's window is empty, for ever: no call of a correct peer and session
    (short of another resize) reopens it. *)
Theorem setReceiveWindowSize_drops_acks :
  exists c,
    recv_calls fresh [CBody 1 30000 0; CProcessed 30000; CResize 65536;
                      CBody 1 30000 0; CProcessed 30000; CResize 65537;
                      CBody 1 5537 0; CProcessed 5537; CResize 65538;
                      CBody 1 1 0; CProcessed 1] = Some c /\
    pend c = 0 /\
    forall c', rtc allowed_step c c' -> peer c' = 0.
Proof.
  exists starved. split; [vm_compute; reflexivity|]. split; [done|].
  intros c' H. by rewrite (starved_stuck _ c' H).
Qed.

(** One DATA frame with 256 flow-controlled bytes of padding, processed at once. *)
Definition padded_round : list recv_call := [CBody 1 40000 256; CProcessed 40000].

Lemma padded_round_step o s er sb p q l :
  65535 - INT32_MAX + 256 <= o <= 0 -> 40000 <= 65535 - o ->
  recv_calls (RCfg (mk (Window.mk o 65535) s 0 er sb) p q l) padded_round =
  Some (RCfg (mk (Window.mk (o - 256) 65535) s 0 er sb) p q l).
Proof.
  intros Ho _. unfold padded_round, recv_calls; simpl. unfold onBody; simpl.
  change (u32 (u64 (40000 + 256))) with 40256. change (i32 (0 + 256)) with 256.
  rewrite reserve_spec by (unfold wf; simpl; ilia). unfold Spec.reserve, Spec.reserve_ok; simpl.
  rewrite decide_True by ilia. simpl.
  rewrite free_spec by (unfold wf; simpl; ilia). unfold Spec.free, Spec.free_ok, size; simpl.
  rewrite decide_True by ilia. simpl. unfold ingressBytesProcessed; simpl.
  change (i32 (u32 (256 + 40000))) with 40256. change (u32 40256) with 40256.
  unfold getCapacity; simpl. change (u32 65535 / 2) with 32767. simpl.
  rewrite free_spec by (unfold wf; simpl; ilia). unfold Spec.free, Spec.free_ok, size; simpl.
  rewrite decide_True by ilia. simpl.
  match goal with |- Some (RCfg (mk (Window.mk ?a _) _ _ _ _) ?b ?c _) = _ =>
    replace a with (o - 256) by lia; replace b with p by lia; replace c with q by lia
  end. done.
Qed.

Lemma recv_calls_app c es es' :
  recv_calls c (es ++ es') = recv_calls c es ≫= fun c' => recv_calls c' es'.
Proof.
  unfold recv_calls. rewrite foldl_app.
  destruct (foldl _ (Some c) es); [done|]. simpl. by induction es'.
Qed.

Lemma padded_rounds s er sb p q l n : forall o,
  65535 - INT32_MAX + 256 * Z.of_nat n <= o <= 0 ->
  recv_calls (RCfg (mk (Window.mk o 65535) s 0 er sb) p q l) (concat (replicate n padded_round)) =
  Some (RCfg (mk (Window.mk (o - 256 * Z.of_nat n) 65535) s 0 er sb) p q l).
Proof.
  induction n as [|n IH]; intros o Ho; cbn [replicate concat].
  - unfold recv_calls; simpl. by rewrite Z.sub_0_r.
  - rewrite recv_calls_app, padded_round_step by lia. simpl. rewrite IH by lia.
    replace (o - 256 - 256 * Z.of_nat n) with (o - 256 * Z.of_nat (S n)) by lia. done.
Qed.

(** [onBody] frees the padding of a DATA frame at once and also adds it to
    [toAck_], which [ingressBytesProcessed] frees again.  Every padded byte so
    drives [outstanding_] below zero while the sender's own window is untouched,
    until [CHECK(recvWindow_.free(toAck_))] fails: 8388353 DATA frames with 255
    bytes of padding, each within the sender's window and each processed at
    once, abort the process. *)
Theorem padding_double_credit_aborts :
  exists n, recv_calls fresh (concat (replicate n padded_round)) = None /\
    forall k, (k < n)%nat -> exists c,
      recv_calls fresh (concat (replicate k padded_round)) = Some c /\
      peer c = 65535 /\ pend c = 0 /\
      outstanding_ (recvWindow_ (filter c)) = - 256 * Z.of_nat k.
Proof.
  exists (S (Z.to_nat 8388352)). split.
  - rewrite replicate_S_end, concat_app, recv_calls_app. unfold fresh.
    rewrite padded_rounds by (rewrite Z2Nat.id by lia; ilia).
    rewrite Z2Nat.id by lia. vm_compute. reflexivity.
  - intros k Hk. eexists. unfold fresh.
    assert (Hk' : Z.of_nat k <= 8388352) by lia.
    rewrite padded_rounds by (clear Hk; unfold_ints; lia).
    split; [reflexivity|]. split_and!; simpl; lia.
Qed.

End FlowControlFilter.
