(* ===== verification/TransactionSM.v ===== *)
(** * The transaction state machines

    [src/proxygen/proxygen/lib/utils/StateMachine.h] (the transition table and
    [transit]), [HTTPTransactionEgressSM.cpp] and [HTTPTransactionIngressSM.cpp]
    (the two tables).  An HTTP transaction drives one machine per direction:
    every API call first asks [transit]; a call in the wrong order is refused.

    The theorems show that the [uint8_t] matrix implements the list of
    transitions it is built from, and that the two machines accept exactly the
    event sequences that form an HTTP message. *)

From S2P Require Import Prelude.

(** ** [StateMachine.h] *)

(** What a machine ([HTTPTransactionEgressSMData], ...) supplies to
    [StateMachine<T>]: its enums with their numbering, and its transitions. *)
Class SMData (State Event : Type) := {
  state_index : State -> Z;          (* static_cast<uint64_t>(s) *)
  state_of_index : Z -> option State;(* State(result) *)
  event_index : Event -> Z;
  num_states : Z;                    (* State::NumStates *)
  num_events : Z;                    (* Event::NumEvents *)
  initial_state : State;
  transitions : list ((State * Event) * State)
}.

Module TransitionTable.
Section table.
Context {State Event : Type} {D : SMData State Event}.

Definition INVALID : Z := 255. (* numeric_limits<uint8_t>::max() *)

Definition index (s : State) (e : Event) : nat :=
    Z.to_nat (state_index s * num_events + event_index e).

  (** The constructor: an [nStates * nEvents] matrix of [uint8_t], all invalid,
      then one store per transition.  [None] is the failed [CHECK_LT]. *)
Definition store (m : list Z) (t : (State * Event) * State) : list Z :=
    <[index t.1.1 t.1.2 := u8 (state_index t.2)]> m.

Definition build : option (list Z) :=
    if num_states <? INVALID
    then Some (foldl store (replicate (Z.to_nat (num_states * num_events)) INVALID) transitions)
    else None.

  (** [find]; [None] is a failed [CHECK_LT]. *)
Definition find (s : State) (e : Event) : option (State * bool) :=
    m ← build;
    if (state_index s <? num_states) && (event_index e <? num_events) then
      result ← m !! index s e;
      if result =? INVALID then Some (s, false)
      else s' ← state_of_index result; Some (s', true)
    else None.
End table.
End TransitionTable.

Module StateMachine.
Section machine.
Context {State Event : Type} {D : SMData State Event}.

Definition getNewInstance : State := initial_state.

  (** The returned [bool] and the new value of the [state] reference. *)
Definition transit (state : State) (event : Event) : option (bool * State) :=
    '(newState, ok) ← TransitionTable.find state event;
    if negb ok then Some (false, state) else Some (true, newState).

Definition canTransit (state : State) (event : Event) : option bool :=
    '(_, ok) ← TransitionTable.find state event; Some ok.

  (** Feed a sequence of events; [None] when one is refused. *)
Fixpoint accepts (s : State) (es : list Event) : option State :=
    match es with
    | [] => Some s
    | e :: es' =>
        '(ok, s') ← transit s e;
        if (ok : bool) then accepts s' es' else None
    end.

  (** The successor of an accepted event. *)
Definition next (s : State) (e : Event) : option State :=
    '(ok, s') ← transit s e; if (ok : bool) then Some s' else None.

Lemma accepts_cons s e es : accepts s (e :: es) = next s e ≫= fun s' => accepts s' es.
  Proof. simpl. unfold next. by destruct (transit s e) as [[[] ?]|]. Qed.

Lemma accepts_app s es es' :
    accepts s (es ++ es') = accepts s es ≫= fun s' => accepts s' es'.
  Proof.
    revert s; induction es as [|e es IH]; intros s; [done|].
    change ((e :: es) ++ es') with (e :: (es ++ es')). rewrite !accepts_cons.
    destruct (next s e); [apply IH|done].
  Qed.

Lemma accepts_next s e s' es : next s e = Some s' -> accepts s (e :: es) = accepts s' es.
  Proof. intros H. by rewrite accepts_cons, H. Qed.

Lemma accepts_app_to s es s' es' :
    accepts s es = Some s' -> accepts s (es ++ es') = accepts s' es'.
  Proof. intros H. by rewrite accepts_app, H. Qed.

Lemma accepts_loop s e n : next s e = Some s -> accepts s (replicate n e) = Some s.
  Proof.
    intros H. induction n as [|n IH]; [done|].
    cbn [replicate]. by rewrite accepts_cons, H.
  Qed.
End machine.
End StateMachine.

(** ** The matrix implements the transition list *)

(** The numbering is the enum's: injective, in range, and inverted by
    [state_of_index]; the transitions only mention real states and events. *)
Class SMDataOk (State Event : Type) (D : SMData State Event) := {
  num_events_pos : 0 < num_events;
  num_states_small : 0 <= num_states < 255;
  state_index_nonneg s : 0 <= state_index s;
  event_index_nonneg e : 0 <= event_index e;
  state_of_index_inv s : state_index s < num_states -> state_of_index (state_index s) = Some s;
  event_index_inj e e' : event_index e = event_index e' -> e = e';
  transitions_ok : Forall (fun t => state_index t.1.1 < num_states /\
                       event_index t.1.2 < num_events /\ state_index t.2 < num_states) transitions
}.

Section table_correct.
Context {State Event : Type} {D : SMData State Event} {Dok : SMDataOk State Event D}.
Context `{EqDecision State, EqDecision Event}.
  Import TransitionTable.

  (** The reference: the last entry of the list for [(s, e)], if any. *)
Definition last_match (ts : list ((State * Event) * State)) (s : State) (e : Event)
    : option State :=
    foldl (fun acc t => if decide (t.1 = (s, e)) then Some t.2 else acc) None ts.

Lemma state_index_inj s s' :
    state_index s < num_states -> state_index s' < num_states ->
    state_index s = state_index s' -> s = s'.
  Proof.
    intros H H' He. apply state_of_index_inv in H, H'. rewrite He in H. congruence.
  Qed.

Lemma index_inj s e s' e' :
    state_index s < num_states -> state_index s' < num_states ->
    event_index e < num_events -> event_index e' < num_events ->
    index s e = index s' e' -> s = s' /\ e = e'.
  Proof.
    intros Hs Hs' He He'. unfold index.
    pose proof (state_index_nonneg s). pose proof (state_index_nonneg s').
    pose proof (event_index_nonneg e). pose proof (event_index_nonneg e').
    pose proof num_events_pos. intros Hi.
    apply Z2Nat.inj in Hi; [|nia..].
    apply mul_add_inj in Hi as [E1 E2]; [|lia..].
    split; [by apply state_index_inj|by apply event_index_inj].
  Qed.

Lemma index_bound s e :
    state_index s < num_states -> event_index e < num_events ->
    (index s e < Z.to_nat (num_states * num_events))%nat.
  Proof.
    intros Hs He. unfold index. pose proof (state_index_nonneg s).
    pose proof (event_index_nonneg e). pose proof num_events_pos. nia.
  Qed.

Lemma stores_lookup s e ts : forall m acc,
    Forall (fun t => state_index t.1.1 < num_states /\
              event_index t.1.2 < num_events /\ state_index t.2 < num_states) ts ->
    state_index s < num_states -> event_index e < num_events ->
    length m = Z.to_nat (num_states * num_events) ->
    m !! index s e = Some (match acc with Some s' => state_index s' | None => INVALID end) ->
    foldl store m ts !! index s e =
    Some (match foldl (fun acc t => if decide (t.1 = (s, e)) then Some t.2 else acc) acc ts with
          | Some s' => state_index s' | None => INVALID end).
  Proof.
    induction ts as [|[[s1 e1] s2] ts IH]; intros m acc Hts Hs He Hlen Hm; [done|].
    inversion Hts as [|? ? (H1 & H2 & H3) Hts']; subst; simpl in *.
    apply IH; auto; unfold store; simpl; [by rewrite length_insert|].
    pose proof (state_index_nonneg s2). pose proof num_states_small.
    case_decide as Hd; simplify_eq.
    - rewrite list_lookup_insert_eq by (rewrite Hlen; by apply index_bound).
      rewrite u8_id by (unfold_ints; lia). done.
    - rewrite list_lookup_insert_ne; [done|].
      intros Hi. destruct (index_inj _ _ _ _ H1 Hs H2 He Hi) as [-> ->]. done.
  Qed.

Lemma last_match_in (ts : list ((State * Event) * State)) : forall acc s e s',
    foldl (fun acc t => if decide (t.1 = (s, e)) then Some t.2 else acc) acc ts = Some s' ->
    acc = Some s' \/ ((s, e), s') ∈ ts.
  Proof.
    induction ts as [|[[s1 e1] s2] ts IH]; intros acc s e s' H; simpl in *; [by left|].
    destruct (IH _ _ _ _ H) as [H'|H']; [|right; by constructor].
    case_decide; simplify_eq; [right; by constructor|by left].
  Qed.

  (** The matrix lookup is the search of the list, on every real state and event. *)
Lemma find_last_match s e :
    state_index s < num_states -> event_index e < num_events ->
    find s e = Some (match last_match transitions s e with
                     | Some s' => (s', true) | None => (s, false) end).
  Proof.
    intros Hs He. unfold find, build. pose proof num_states_small.
    destruct (num_states <? INVALID) eqn:E; [|apply Z.ltb_ge in E; unfold INVALID in E; lia].
    simpl. rewrite (proj2 (Z.ltb_lt _ _) Hs), (proj2 (Z.ltb_lt _ _) He). simpl.
    rewrite (stores_lookup s e transitions _ None) by
      (try done; try apply transitions_ok;
       try (by rewrite length_replicate); apply lookup_replicate_2, index_bound; done).
    simpl. fold (last_match transitions s e).
    destruct (last_match transitions s e) as [s'|] eqn:El; [|done].
    assert (Hs' : state_index s' < num_states).
    { apply last_match_in in El as [?|Hin]; [done|].
      pose proof (transitions_ok) as Hok. rewrite Forall_forall in Hok.
      by destruct (Hok _ Hin) as (_ & _ & ?). }
    unfold INVALID. destruct (state_index s' =? 255) eqn:E'; [apply Z.eqb_eq in E'; lia|].
    by rewrite state_of_index_inv.
  Qed.
End table_correct.

(** ** [HTTPTransactionEgressSM.cpp] *)

Module Egress.

Inductive State :=
| Start | HeadersSent | DatagramSent | RegularBodySent | ChunkHeaderSent
| ChunkBodySent | ChunkTerminatorSent | TrailersSent | EOMQueued | SendingDone
| NumStates.

Inductive Event :=
| sendHeaders | sendDatagram | sendBody | sendChunkHeader | sendChunkTerminator
| sendTrailers | sendEOM | eomFlushed
| NumEvents.

#[global] Instance State_eq_dec : EqDecision State.
Proof. solve_decision. Defined.
#[global] Instance Event_eq_dec : EqDecision Event.
Proof. solve_decision. Defined.

(** The enumerators in declaration order. *)
Definition states : list State :=
  [Start; HeadersSent; DatagramSent; RegularBodySent; ChunkHeaderSent;
   ChunkBodySent; ChunkTerminatorSent; TrailersSent; EOMQueued; SendingDone; NumStates].
Definition events : list Event :=
  [sendHeaders; sendDatagram; sendBody; sendChunkHeader; sendChunkTerminator;
   sendTrailers; sendEOM; eomFlushed; NumEvents].

Definition state_number (s : State) : Z :=
  match s with
  | Start => 0 | HeadersSent => 1 | DatagramSent => 2 | RegularBodySent => 3
  | ChunkHeaderSent => 4 | ChunkBodySent => 5 | ChunkTerminatorSent => 6
  | TrailersSent => 7 | EOMQueued => 8 | SendingDone => 9 | NumStates => 10
  end.
Definition event_number (e : Event) : Z :=
  match e with
  | sendHeaders => 0 | sendDatagram => 1 | sendBody => 2 | sendChunkHeader => 3
  | sendChunkTerminator => 4 | sendTrailers => 5 | sendEOM => 6 | eomFlushed => 7
  | NumEvents => 8
  end.

(** The table of [HTTPTransactionEgressSMData::find], in its order. *)
Definition table : list ((State * Event) * State) :=
  [((Start, sendHeaders), HeadersSent);
   ((HeadersSent, sendHeaders), HeadersSent);
   ((HeadersSent, sendBody), RegularBodySent);
   ((HeadersSent, sendTrailers), TrailersSent);
   ((HeadersSent, sendChunkHeader), ChunkHeaderSent);
   ((HeadersSent, sendEOM), EOMQueued);
   ((RegularBodySent, sendBody), RegularBodySent);
   ((RegularBodySent, sendTrailers), TrailersSent);
   ((RegularBodySent, sendEOM), EOMQueued);
   ((ChunkHeaderSent, sendBody), ChunkBodySent);
   ((ChunkBodySent, sendBody), ChunkBodySent);
   ((ChunkBodySent, sendChunkTerminator), ChunkTerminatorSent);
   ((ChunkTerminatorSent, sendChunkHeader), ChunkHeaderSent);
   ((ChunkTerminatorSent, sendTrailers), TrailersSent);
   ((ChunkTerminatorSent, sendEOM), EOMQueued);
   ((TrailersSent, sendEOM), EOMQueued);
   ((HeadersSent, sendDatagram), DatagramSent);
   ((DatagramSent, sendDatagram), DatagramSent);
   ((DatagramSent, sendTrailers), TrailersSent);
   ((DatagramSent, sendEOM), EOMQueued);
   ((EOMQueued, eomFlushed), SendingDone)].

#[global] Instance data : SMData State Event := {
  state_index := state_number;
  state_of_index z := states !! Z.to_nat z;
  event_index := event_number;
  num_states := 10;
  num_events := 8;
  initial_state := Start;
  transitions := table
}.

#[global] Instance data_ok : SMDataOk State Event data.
Proof.
  split; simpl; try lia.
  - by destruct s.
  - by destruct e.
  - by destruct s.
  - by destruct e, e'.
  - repeat constructor; simpl; lia.
Qed.

Definition find (s : State) (e : Event) : option (State * bool) := TransitionTable.find s e.

(** [operator<<]; [None] is [CHECK(false)]. *)
Definition show_state (s : State) : option string :=
  match s with
  | Start => Some "Start" | HeadersSent => Some "HeadersSent"
  | DatagramSent => Some "DatagramSent" | RegularBodySent => Some "RegularBodySent"
  | ChunkHeaderSent => Some "ChunkHeaderSent" | ChunkBodySent => Some "ChunkBodySent"
  | ChunkTerminatorSent => Some "ChunkTerminatorSent" | TrailersSent => Some "TrailersSent"
  | EOMQueued => Some "EOMQueued" | SendingDone => Some "SendingDone"
  | NumStates => None
  end%string.
Definition show_event (e : Event) : option string :=
  match e with
  | sendHeaders => Some "sendHeaders" | sendDatagram => Some "sendDatagram"
  | sendBody => Some "sendBody" | sendChunkHeader => Some "sendChunkHeader"
  | sendChunkTerminator => Some "sendChunkTerminator" | sendTrailers => Some "sendTrailers"
  | sendEOM => Some "sendEOM" | eomFlushed => Some "eomFlushed"
  | NumEvents => None
  end%string.

(** *** The message grammar

    One or more header blocks; a body that is plain, chunked or made of
    datagrams; optional trailers; the end of message and its flush. *)

Definition chunks (cs : list nat) : list Event :=
  concat ((fun n => sendChunkHeader :: replicate (S n) sendBody ++ [sendChunkTerminator]) <$> cs).

Definition ending (trailers : bool) : list Event :=
  (if trailers then [sendTrailers] else []) ++ [sendEOM; eomFlushed].

Inductive body_part : list Event -> Prop :=
| body_regular n : body_part (replicate n sendBody)
| body_chunked cs : body_part (chunks cs)
| body_datagrams n : body_part (replicate n sendDatagram).

Definition message (es : list Event) : Prop :=
  exists n b tr, body_part b /\ es = replicate (S n) sendHeaders ++ b ++ ending tr.

(** What may follow in each state. *)
Definition tail_of (s : State) (es : list Event) : Prop :=
  match s with
  | Start => message es
  | HeadersSent => exists n b tr, body_part b /\ es = replicate n sendHeaders ++ b ++ ending tr
  | DatagramSent => exists n tr, es = replicate n sendDatagram ++ ending tr
  | RegularBodySent => exists n tr, es = replicate n sendBody ++ ending tr
  | ChunkHeaderSent =>
      exists n cs tr, es = replicate (S n) sendBody ++ sendChunkTerminator :: chunks cs ++ ending tr
  | ChunkBodySent =>
      exists n cs tr, es = replicate n sendBody ++ sendChunkTerminator :: chunks cs ++ ending tr
  | ChunkTerminatorSent => exists cs tr, es = chunks cs ++ ending tr
  | TrailersSent => es = [sendEOM; eomFlushed]
  | EOMQueued => es = [eomFlushed]
  | SendingDone => es = []
  | NumStates => False
  end.

Import StateMachine.

Lemma egress_tail_complete es : forall s, accepts s es = Some SendingDone -> tail_of s es.
Proof.
  induction es as [|e es IH]; intros s H; [destruct s; simplify_eq; done|].
  rewrite accepts_cons in H.
  destruct (next s e) as [s'|] eqn:E; simpl in H; [|done]. apply IH in H.
  destruct s, e; vm_compute in E; simplify_eq; simpl in *.
  - destruct H as (n & b & tr & Hb & ->). by exists n, b, tr.
  - destruct H as (n & b & tr & Hb & ->). by exists (S n), b, tr.
  - destruct H as (n & tr & ->). exists O, (replicate (S n) sendDatagram), tr.
    split; [constructor|done].
  - destruct H as (n & tr & ->). exists O, (replicate (S n) sendBody), tr.
    split; [constructor|done].
  - destruct H as (n & cs & tr & ->). exists O, (chunks (n :: cs)), tr.
    split; [constructor|]. simpl. unfold chunks. simpl. by rewrite <- !app_assoc.
  - subst. exists O, (replicate 0 sendBody), true. split; [constructor|done].
  - subst. exists O, (replicate 0 sendBody), false. split; [constructor|done].
  - destruct H as (n & tr & ->). by exists (S n), tr.
  - subst. by exists O, true.
  - subst. by exists O, false.
  - destruct H as (n & tr & ->). by exists (S n), tr.
  - subst. by exists O, true.
  - subst. by exists O, false.
  - destruct H as (n & cs & tr & ->). by exists n, cs, tr.
  - destruct H as (n & cs & tr & ->). by exists (S n), cs, tr.
  - destruct H as (cs & tr & ->). by exists O, cs, tr.
  - destruct H as (n & cs & tr & ->). exists (n :: cs), tr.
    unfold chunks. simpl. by rewrite <- !app_assoc.
  - subst. by exists [], true.
  - subst. by exists [], false.
  - by subst.
  - by subst.
Qed.

Lemma egress_accepts_chunk s n :
  next s sendChunkHeader = Some ChunkHeaderSent ->
  accepts s (sendChunkHeader :: replicate (S n) sendBody ++ [sendChunkTerminator]) =
  Some ChunkTerminatorSent.
Proof.
  intros H. cbn [replicate app]. erewrite accepts_next by exact H.
  rewrite (accepts_next _ _ ChunkBodySent) by reflexivity.
  by rewrite (accepts_app_to _ _ ChunkBodySent) by (by apply accepts_loop).
Qed.

Lemma egress_accepts_chunks cs :
  accepts ChunkTerminatorSent (chunks cs) = Some ChunkTerminatorSent.
Proof.
  induction cs as [|n cs IH]; [done|].
  change (chunks (n :: cs)) with
    ((sendChunkHeader :: replicate (S n) sendBody ++ [sendChunkTerminator]) ++ chunks cs).
  by rewrite (accepts_app_to _ _ ChunkTerminatorSent) by (by apply egress_accepts_chunk).
Qed.

Lemma egress_accepts_ending s tr :
  next s sendTrailers = Some TrailersSent -> next s sendEOM = Some EOMQueued ->
  accepts s (ending tr) = Some SendingDone.
Proof.
  intros H1 H2. destruct tr; cbn [ending app];
    [rewrite (accepts_next _ _ _ _ H1)|rewrite (accepts_next _ _ _ _ H2)]; done.
Qed.

(** A body part leads from [HeadersSent] to a state that takes the ending. *)
Lemma accepts_body b : body_part b -> exists s, accepts HeadersSent b = Some s /\
  next s sendTrailers = Some TrailersSent /\ next s sendEOM = Some EOMQueued.
Proof.
  destruct 1 as [[|n]|[|n cs]|[|n]]; try (by exists HeadersSent).
  - exists RegularBodySent. cbn [replicate].
    rewrite (accepts_next _ _ RegularBodySent) by reflexivity. by rewrite accepts_loop.
  - exists ChunkTerminatorSent. split; [|done].
    change (chunks (n :: cs)) with
      ((sendChunkHeader :: replicate (S n) sendBody ++ [sendChunkTerminator]) ++ chunks cs).
    rewrite (accepts_app_to _ _ ChunkTerminatorSent) by (by apply egress_accepts_chunk).
    apply egress_accepts_chunks.
  - exists DatagramSent. cbn [replicate].
    rewrite (accepts_next _ _ DatagramSent) by reflexivity. by rewrite accepts_loop.
Qed.

Lemma egress_message_accepted es : message es -> accepts Start es = Some SendingDone.
Proof.
  intros (n & b & tr & Hb & ->). cbn [replicate app].
  rewrite (accepts_next _ _ HeadersSent) by reflexivity.
  rewrite (accepts_app_to _ _ HeadersSent) by (by apply accepts_loop).
  destruct (accepts_body b Hb) as (s & Hs & H1 & H2).
  rewrite (accepts_app_to _ _ _ _ Hs). by apply egress_accepts_ending.
Qed.

(** C38. The egress machine accepts exactly the messages: a sequence of events
    takes the machine from [Start] to [SendingDone] if and only if it is one or
    more header blocks, then a plain, chunked or datagram body, then optional
    trailers, the end of message and its flush. *)
Theorem egress_accepts_messages es :
  accepts getNewInstance es = Some SendingDone <-> message es.
Proof. split; [apply (egress_tail_complete es Start)|apply egress_message_accepted]. Qed.

End Egress.

(** ** [HTTPTransactionIngressSM.cpp] *)

Module Ingress.

Inductive State :=
| Start | NonFinalHeadersReceived | FinalHeadersReceived | RegularBodyReceived
| ChunkHeaderReceived | ChunkBodyReceived | ChunkCompleted | TrailersReceived
| UpgradeComplete | EOMQueued | ReceivingDone
| NumStates.

Inductive Event :=
| onNonFinalHeaders | onFinalHeaders | onDatagram | onBody | onChunkHeader
| onChunkComplete | onTrailers | onUpgrade | onEOM | eomFlushed
| NumEvents.

#[global] Instance State_eq_dec : EqDecision State.
Proof. solve_decision. Defined.
#[global] Instance Event_eq_dec : EqDecision Event.
Proof. solve_decision. Defined.

Definition states : list State :=
  [Start; NonFinalHeadersReceived; FinalHeadersReceived; RegularBodyReceived;
   ChunkHeaderReceived; ChunkBodyReceived; ChunkCompleted; TrailersReceived;
   UpgradeComplete; EOMQueued; ReceivingDone; NumStates].

Definition state_number (s : State) : Z :=
  match s with
  | Start => 0 | NonFinalHeadersReceived => 1 | FinalHeadersReceived => 2
  | RegularBodyReceived => 3 | ChunkHeaderReceived => 4 | ChunkBodyReceived => 5
  | ChunkCompleted => 6 | TrailersReceived => 7 | UpgradeComplete => 8
  | EOMQueued => 9 | ReceivingDone => 10 | NumStates => 11
  end.
Definition event_number (e : Event) : Z :=
  match e with
  | onNonFinalHeaders => 0 | onFinalHeaders => 1 | onDatagram => 2 | onBody => 3
  | onChunkHeader => 4 | onChunkComplete => 5 | onTrailers => 6 | onUpgrade => 7
  | onEOM => 8 | eomFlushed => 9 | NumEvents => 10
  end.

(** The table of [HTTPTransactionIngressSMData::find], in its order. *)
Definition table : list ((State * Event) * State) :=
  [((Start, onFinalHeaders), FinalHeadersReceived);
   ((Start, onNonFinalHeaders), NonFinalHeadersReceived);
   ((NonFinalHeadersReceived, onNonFinalHeaders), NonFinalHeadersReceived);
   ((NonFinalHeadersReceived, onFinalHeaders), FinalHeadersReceived);
   ((NonFinalHeadersReceived, onUpgrade), UpgradeComplete);
   ((FinalHeadersReceived, onBody), RegularBodyReceived);
   ((FinalHeadersReceived, onDatagram), FinalHeadersReceived);
   ((FinalHeadersReceived, onChunkHeader), ChunkHeaderReceived);
   ((FinalHeadersReceived, onTrailers), TrailersReceived);
   ((FinalHeadersReceived, onUpgrade), UpgradeComplete);
   ((FinalHeadersReceived, onEOM), EOMQueued);
   ((RegularBodyReceived, onBody), RegularBodyReceived);
   ((RegularBodyReceived, onDatagram), RegularBodyReceived);
   ((RegularBodyReceived, onTrailers), TrailersReceived);
   ((RegularBodyReceived, onEOM), EOMQueued);
   ((ChunkHeaderReceived, onBody), ChunkBodyReceived);
   ((ChunkBodyReceived, onBody), ChunkBodyReceived);
   ((ChunkBodyReceived, onChunkComplete), ChunkCompleted);
   ((ChunkCompleted, onChunkHeader), ChunkHeaderReceived);
   ((ChunkCompleted, onTrailers), TrailersReceived);
   ((ChunkCompleted, onEOM), EOMQueued);
   ((TrailersReceived, onEOM), EOMQueued);
   ((UpgradeComplete, onBody), UpgradeComplete);
   ((UpgradeComplete, onEOM), EOMQueued);
   ((EOMQueued, eomFlushed), ReceivingDone)].

#[global] Instance data : SMData State Event := {
  state_index := state_number;
  state_of_index z := states !! Z.to_nat z;
  event_index := event_number;
  num_states := 11;
  num_events := 10;
  initial_state := Start;
  transitions := table
}.

#[global] Instance data_ok : SMDataOk State Event data.
Proof.
  split; simpl; try lia.
  - by destruct s.
  - by destruct e.
  - by destruct s.
  - by destruct e, e'.
  - repeat constructor; simpl; lia.
Qed.

Definition find (s : State) (e : Event) : option (State * bool) := TransitionTable.find s e.

Definition show_state (s : State) : option string :=
  match s with
  | Start => Some "Start" | NonFinalHeadersReceived => Some "NonFinalHeadersReceived"
  | FinalHeadersReceived => Some "FinalHeadersReceived"
  | RegularBodyReceived => Some "RegularBodyReceived"
  | ChunkHeaderReceived => Some "ChunkHeaderReceived"
  | ChunkBodyReceived => Some "ChunkBodyReceived" | ChunkCompleted => Some "ChunkCompleted"
  | TrailersReceived => Some "TrailersReceived" | UpgradeComplete => Some "UpgradeComplete"
  | EOMQueued => Some "EOMQueued" | ReceivingDone => Some "ReceivingDone"
  | NumStates => None
  end%string.
Definition show_event (e : Event) : option string :=
  match e with
  | onNonFinalHeaders => Some "onNonFinalHeaders" | onFinalHeaders => Some "onFinalHeaders"
  | onDatagram => Some "onDatagram" | onBody => Some "onBody"
  | onChunkHeader => Some "onChunkHeader" | onChunkComplete => Some "onChunkComplete"
  | onTrailers => Some "onTrailers" | onUpgrade => Some "onUpgrade" | onEOM => Some "onEOM"
  | eomFlushed => Some "eomFlushed"
  | NumEvents => None
  end%string.

(** *** The message grammar

    Informational header blocks, then either the final headers with datagrams,
    a body and trailers, or an upgrade, which is legal after any header block. *)

Definition chunks (cs : list nat) : list Event :=
  concat ((fun n => onChunkHeader :: replicate (S n) onBody ++ [onChunkComplete]) <$> cs).

Definition ending (trailers : bool) : list Event :=
  (if trailers then [onTrailers] else []) ++ [onEOM; eomFlushed].

Definition upgraded (n : nat) : list Event :=
  onUpgrade :: replicate n onBody ++ [onEOM; eomFlushed].

Definition body_or_datagram (e : Event) : Prop := e = onBody \/ e = onDatagram.

(** What follows the final headers and their datagrams. *)
Inductive rest_part : list Event -> Prop :=
| rest_none tr : rest_part (ending tr)
| rest_regular l tr : Forall body_or_datagram l -> rest_part (onBody :: l ++ ending tr)
| rest_chunked cs tr : rest_part (chunks cs ++ ending tr)
| rest_upgrade n : rest_part (upgraded n).

Inductive message : list Event -> Prop :=
| message_final n d r :
    rest_part r ->
    message (replicate n onNonFinalHeaders ++ onFinalHeaders :: replicate d onDatagram ++ r)
| message_upgrade n k : message (replicate (S n) onNonFinalHeaders ++ upgraded k).

Definition tail_of (s : State) (es : list Event) : Prop :=
  match s with
  | Start => message es
  | NonFinalHeadersReceived =>
      (exists n d r, rest_part r /\
         es = replicate n onNonFinalHeaders ++ onFinalHeaders :: replicate d onDatagram ++ r) \/
      (exists n k, es = replicate n onNonFinalHeaders ++ upgraded k)
  | FinalHeadersReceived => exists d r, rest_part r /\ es = replicate d onDatagram ++ r
  | RegularBodyReceived => exists l tr, Forall body_or_datagram l /\ es = l ++ ending tr
  | ChunkHeaderReceived =>
      exists n cs tr, es = replicate (S n) onBody ++ onChunkComplete :: chunks cs ++ ending tr
  | ChunkBodyReceived =>
      exists n cs tr, es = replicate n onBody ++ onChunkComplete :: chunks cs ++ ending tr
  | ChunkCompleted => exists cs tr, es = chunks cs ++ ending tr
  | TrailersReceived => es = [onEOM; eomFlushed]
  | UpgradeComplete => exists n, es = replicate n onBody ++ [onEOM; eomFlushed]
  | EOMQueued => es = [eomFlushed]
  | ReceivingDone => es = []
  | NumStates => False
  end.

Import StateMachine.

Lemma ingress_tail_complete es : forall s, accepts s es = Some ReceivingDone -> tail_of s es.
Proof.
  induction es as [|e es IH]; intros s H; [destruct s; simplify_eq; done|].
  rewrite accepts_cons in H.
  destruct (next s e) as [s'|] eqn:E; simpl in H; [|done]. apply IH in H.
  destruct s, e; vm_compute in E; simplify_eq; simpl in *.
  - destruct H as [(n & d & r & Hr & ->)|(n & k & ->)].
    + by apply (message_final (S n) d r).
    + apply (message_upgrade n k).
  - destruct H as (d & r & Hr & ->). by apply (message_final 0 d r).
  - destruct H as [(n & d & r & Hr & ->)|(n & k & ->)].
    + left. by exists (S n), d, r.
    + right. by exists (S n), k.
  - destruct H as (d & r & Hr & ->). left. by exists O, d, r.
  - destruct H as (n & ->). right. by exists O, n.
  - destruct H as (d & r & Hr & ->). by exists (S d), r.
  - destruct H as (l & tr & Hl & ->). exists O, (onBody :: l ++ ending tr).
    split; [by constructor|done].
  - destruct H as (n & cs & tr & ->). exists O, (chunks (n :: cs) ++ ending tr).
    split; [constructor|]. unfold chunks. simpl. by rewrite <- !app_assoc.
  - subst. exists O, (ending true). split; [constructor|done].
  - destruct H as (n & ->). exists O, (upgraded n). split; [constructor|done].
  - subst. exists O, (ending false). split; [constructor|done].
  - destruct H as (l & tr & Hl & ->). exists (onDatagram :: l), tr.
    split; [constructor; [by right|done]|done].
  - destruct H as (l & tr & Hl & ->). exists (onBody :: l), tr.
    split; [constructor; [by left|done]|done].
  - subst. by exists [], true.
  - subst. by exists [], false.
  - destruct H as (n & cs & tr & ->). by exists n, cs, tr.
  - destruct H as (n & cs & tr & ->). by exists (S n), cs, tr.
  - destruct H as (cs & tr & ->). by exists O, cs, tr.
  - destruct H as (n & cs & tr & ->). exists (n :: cs), tr.
    unfold chunks. simpl. by rewrite <- !app_assoc.
  - subst. by exists [], true.
  - subst. by exists [], false.
  - by subst.
  - destruct H as (n & ->). by exists (S n).
  - subst. by exists O.
  - by subst.
Qed.

Lemma ingress_accepts_chunk s n :
  next s onChunkHeader = Some ChunkHeaderReceived ->
  accepts s (onChunkHeader :: replicate (S n) onBody ++ [onChunkComplete]) = Some ChunkCompleted.
Proof.
  intros H. cbn [replicate app]. erewrite accepts_next by exact H.
  rewrite (accepts_next _ _ ChunkBodyReceived) by reflexivity.
  by rewrite (accepts_app_to _ _ ChunkBodyReceived) by (by apply accepts_loop).
Qed.

Lemma ingress_accepts_chunks cs : accepts ChunkCompleted (chunks cs) = Some ChunkCompleted.
Proof.
  induction cs as [|n cs IH]; [done|].
  change (chunks (n :: cs)) with
    ((onChunkHeader :: replicate (S n) onBody ++ [onChunkComplete]) ++ chunks cs).
  by rewrite (accepts_app_to _ _ ChunkCompleted) by (by apply ingress_accepts_chunk).
Qed.

Lemma ingress_accepts_ending s tr :
  next s onTrailers = Some TrailersReceived -> next s onEOM = Some EOMQueued ->
  accepts s (ending tr) = Some ReceivingDone.
Proof.
  intros H1 H2. destruct tr; cbn [ending app];
    [rewrite (accepts_next _ _ _ _ H1)|rewrite (accepts_next _ _ _ _ H2)]; done.
Qed.

Lemma accepts_upgraded s k :
  next s onUpgrade = Some UpgradeComplete -> accepts s (upgraded k) = Some ReceivingDone.
Proof.
  intros H. unfold upgraded. rewrite (accepts_next _ _ _ _ H).
  by rewrite (accepts_app_to _ _ UpgradeComplete) by (by apply accepts_loop).
Qed.

Lemma accepts_mixed l : Forall body_or_datagram l ->
  accepts RegularBodyReceived l = Some RegularBodyReceived.
Proof.
  induction 1 as [|e l [->| ->] _ IH]; [done| |];
    by rewrite (accepts_next _ _ RegularBodyReceived) by reflexivity.
Qed.

Lemma accepts_rest r : rest_part r -> accepts FinalHeadersReceived r = Some ReceivingDone.
Proof.
  destruct 1 as [tr|l tr Hl|[|n cs] tr|n].
  - by apply ingress_accepts_ending.
  - rewrite (accepts_next _ _ RegularBodyReceived) by reflexivity.
    rewrite (accepts_app_to _ _ RegularBodyReceived) by (by apply accepts_mixed).
    by apply ingress_accepts_ending.
  - by apply ingress_accepts_ending.
  - change (chunks (n :: cs)) with
      ((onChunkHeader :: replicate (S n) onBody ++ [onChunkComplete]) ++ chunks cs).
    rewrite <- app_assoc, (accepts_app_to _ _ ChunkCompleted) by (by apply ingress_accepts_chunk).
    rewrite (accepts_app_to _ _ ChunkCompleted) by apply ingress_accepts_chunks.
    by apply ingress_accepts_ending.
  - by apply accepts_upgraded.
Qed.

Lemma ingress_message_accepted es : message es -> accepts Start es = Some ReceivingDone.
Proof.
  destruct 1 as [n d r Hr|n k].
  - assert (H : forall s, next s onFinalHeaders = Some FinalHeadersReceived ->
      accepts s (onFinalHeaders :: replicate d onDatagram ++ r) = Some ReceivingDone).
    { intros s Hs. rewrite (accepts_next _ _ _ _ Hs).
      rewrite (accepts_app_to _ _ FinalHeadersReceived) by (by apply accepts_loop).
      by apply accepts_rest. }
    destruct n as [|n]; [by apply H|]. cbn [replicate app].
    rewrite (accepts_next _ _ NonFinalHeadersReceived) by reflexivity.
    rewrite (accepts_app_to _ _ NonFinalHeadersReceived) by (by apply accepts_loop).
    by apply H.
  - cbn [replicate app].
    rewrite (accepts_next _ _ NonFinalHeadersReceived) by reflexivity.
    rewrite (accepts_app_to _ _ NonFinalHeadersReceived) by (by apply accepts_loop).
    by apply accepts_upgraded.
Qed.

(** C39. The ingress machine accepts exactly the messages: a sequence of events
    takes it from [Start] to [ReceivingDone] if and only if it is any number of
    informational header blocks, then final headers followed by datagrams and
    by a plain (possibly interleaved with datagrams) or chunked body and
    optional trailers, or an upgrade; then the end of message and its flush. *)
Theorem ingress_accepts_messages es :
  accepts getNewInstance es = Some ReceivingDone <-> message es.
Proof. split; [apply (ingress_tail_complete es Start)|apply ingress_message_accepted]. Qed.

End Ingress.

(** ** Both machines *)

(** The [uint8_t] matrix of [TransitionTable] implements the list of
    transitions: for every real state and event, [transit] moves to the target
    of the last transition listed for them, and refuses, leaving the state as
    it is, when there is none. *)
Theorem transit_implements_table {State Event} {D : SMData State Event}
    (Dok : SMDataOk State Event D) `{!EqDecision State, !EqDecision Event} (s : State) (e : Event) :
  state_index s < num_states -> event_index e < num_events ->
  StateMachine.transit s e =
    Some (match last_match transitions s e with
          | Some s' => (true, s') | None => (false, s) end).
Proof.
  intros Hs He. unfold StateMachine.transit. rewrite find_last_match by done.
  by destruct (last_match transitions s e).
Qed.

