(* ===== verification/HTTP2Framer.v ===== *)
(** * The HTTP/2 framer ([src/proxygen/proxygen/lib/http/codec/HTTP2Framer.cpp])

    Parsing functions are [parser ErrorCode]: the cursor is the list of the
    bytes ahead, out-parameters are the returned value, a non-[NO_ERROR] return
    is [PErr].  Writing functions append to an [IOBufQueue], the list of bytes
    written so far, and return the [size_t] the code returns; [None] is a failed
    [CHECK].  [DCHECK]s are debug-only and are not part of the model. *)

From S2P Require Import Prelude HTTP2Types.

Module HTTP2Framer.

Definition kMinExperimentalFrameType : Z := 0xf0.
Definition kLengthMask : Z := 0x00ffffff.
Definition kUint31Mask : Z := 0x7fffffff.
Definition notUint31Mask : Z := 0x80000000. (* ~kUint31Mask, as uint32_t *)

(** ** Frame types and flags *)

Definition isValidFrameType (type : Z) : bool :=
  if type <? kMinExperimentalFrameType
  then (type <=? FrameType.ALTSVC) || (type =? FrameType.PADDING)
  else (type =? FrameType.EX_HEADERS) || (type =? FrameType.CERTIFICATE_REQUEST)
       || (type =? FrameType.CERTIFICATE).

Definition frameAffectsCompression (t : Z) : bool :=
  (t =? FrameType.HEADERS) || (t =? FrameType.PUSH_PROMISE) || (t =? FrameType.CONTINUATION).

Definition frameHasPadding (header : FrameHeader) : bool :=
  truth (Z.land (fh_flags header) Flags.PADDED).

(** ** Writing helpers *)

(** [writePriorityBody], both overloads: the five bytes they write. *)
Definition writePriorityBody (streamDependency : Z) (exclusive : bool) (weight : Z) : list Z :=
  let streamDependency :=
    if exclusive then Z.lor streamDependency notUint31Mask else streamDependency in
  be_bytes 4 (u32 streamDependency) ++ [u8 weight].

(** [writePadding(queue, size)]. *)
Definition writePaddingBytes (queue : list Z) (size : option Z) : list Z :=
  match size with
  | Some n => if n >? 0 then queue ++ replicate (Z.to_nat n) 0 else queue
  | None => queue
  end.

(** [computeLengthAndType]: the length-and-type word, the flags and the header
    size the two reference parameters receive. *)
Definition computeLengthAndType (length type flags : Z) (padding : option Z)
    (priority : option PriorityUpdate) (headerSize : Z) : Z * Z * Z :=
  let '(length, headerSize) :=
    match priority with
    | Some _ =>
        (if (type =? FrameType.HEADERS) || (type =? FrameType.EX_HEADERS)
         then u32 (length + kFramePrioritySize) else length,
         headerSize + kFramePrioritySize)
    | None => (length, headerSize)
    end in
  let '(flags, length, headerSize) :=
    match padding with
    | Some p => (Z.lor flags Flags.PADDED, u32 (length + (p + 1)), headerSize + 1)
    | None => (Z.land flags (u8 (Z.lnot Flags.PADDED)), length, headerSize)
    end in
  (Z.lor (u32 (Z.shiftl (Z.land kLengthMask length) 8)) type, flags, headerSize).

(** The bytes of a frame header with its pad length and priority; [None] is the
    [CHECK_LE] on the stream dependency. *)
Definition frameHeaderBytes (lengthAndType flags stream : Z) (padding : option Z)
    (priority : option PriorityUpdate) : option (list Z) :=
  let fixed := be_bytes 4 lengthAndType ++ [flags] ++ be_bytes 4 (Z.land kUint31Mask stream) in
  let pad := match padding with Some p => [p] | None => [] end in
  match priority with
  | None => Some (fixed ++ pad)
  | Some pri =>
      if streamDependency pri <=? UINT32_MAX
      then Some (fixed ++ pad ++
                 writePriorityBody (streamDependency pri) (exclusive pri) (weight pri))
      else None
  end.

(** [writeFrameHeader] on an [IOBufQueue].  The branch that reuses the headroom
    of the payload changes where the header is stored, not the bytes of the
    queue: header, then payload. *)
Definition writeFrameHeader (queue : list Z) (length type flags stream : Z)
    (padding : option Z) (priority : option PriorityUpdate) (payload : list Z)
  : option (list Z * Z) :=
  let '(lengthAndType, flags, _) :=
    computeLengthAndType length type flags padding priority kFrameHeaderSize in
  hdr ← frameHeaderBytes lengthAndType flags stream padding priority;
  Some (queue ++ hdr ++ payload, length).

(** [memcpy(buf + off, bs, len)]; [None] when it would leave the buffer. *)
Definition overwrite (buf : list Z) (off : nat) (bs : list Z) : option (list Z) :=
  if decide (off + length bs <= length buf)%nat
  then Some (take off buf ++ bs ++ drop (off + length bs) buf) else None.

(** [writeFrameHeader] on a raw buffer of [length buf] bytes. *)
Definition writeFrameHeaderBuf (buf : list Z) (length type flags stream : Z)
    (padding : option Z) (priority : option PriorityUpdate) : option (list Z * Z) :=
  let '(lengthAndType, flags, headerSize) :=
    computeLengthAndType length type flags padding priority kFrameHeaderSize in
  if zlen buf <? headerSize then None
  else
    hdr ← frameHeaderBytes lengthAndType flags stream padding priority;
    buf' ← overwrite buf 0 hdr;
    Some (buf', length).

(** ** Parsing helpers *)

Definition parseUint31 : parser ErrorCode Z :=
  z ← readBE 4; mret (Z.land kUint31Mask z).

Definition parseErrorCode : parser ErrorCode ErrorCode :=
  code ← readBE 4;
  if code >=? ErrorCode_index ErrorCode_MAX then pfail PROTOCOL_ERROR
  else match ErrorCode_of code with Some e => mret e | None => pfail PROTOCOL_ERROR end.

Definition parsePriorityCommon : parser ErrorCode PriorityUpdate :=
  streamAndExclusive ← readBE 4;
  weight ← readBE 1;
  mret (mkPriorityUpdate (Z.land kUint31Mask streamAndExclusive)
          (truth (Z.land notUint31Mask streamAndExclusive)) weight).

(** Returns the padding length and the bytes left to parse before it. *)
Definition parsePadding (header : FrameHeader) : parser ErrorCode (Z * Z) :=
  '(padding, lefttoparse) ←
    (if frameHasPadding header then
       if fh_length header <? 1 then pfail FRAME_SIZE_ERROR
       else p ← readBE 1; mret (p, fh_length header - 1)
     else mret (0, fh_length header));
  if lefttoparse <? padding then pfail PROTOCOL_ERROR
  else mret (padding, lefttoparse - padding).

(** [skipPadding] with [verify = true]: [peek] returns the contiguous bytes at
    hand, so a cursor that ends before the padding does never makes progress. *)
Definition skipPadding (length : Z) : parser ErrorCode unit := fun l =>
  let n := Z.to_nat length in
  if bool_decide (Forall (fun b => b = 0) (take n l)) then
    if decide (List.length l < n)%nat then PLoop else POk tt (drop n l)
  else PErr PROTOCOL_ERROR.

(** ** Parsing *)

Definition parseFrameHeader : parser ErrorCode FrameHeader :=
  lengthAndType ← readBE 4;
  flags ← readBE 1;
  stream ← parseUint31;
  mret (mkFrameHeader (Z.land kLengthMask (Z.shiftr lengthAndType 8)) stream
          (Z.land lengthAndType 0xff) flags).

Definition paddingLengthByte (header : FrameHeader) : Z :=
  if frameHasPadding header then 1 else 0.

(** The body and the flow-controlled padding (the length byte included). *)
Definition parseData (header : FrameHeader) : parser ErrorCode (list Z * Z) :=
  if fh_stream header =? 0 then pfail PROTOCOL_ERROR
  else
    '(padding, lefttoparse) ← parsePadding header;
    outBuf ← readBytes lefttoparse;
    skipPadding padding ≫= fun _ => mret (outBuf, u16 (padding + paddingLengthByte header)).

Definition parseDataBegin (header : FrameHeader) : parser ErrorCode Z :=
  '(padding, _) ← parsePadding header;
  mret (u16 (padding + paddingLengthByte header)).

(** [skipPadding]'s parameter is a [uint8_t]: [toSkip] is truncated. *)
Definition parseDataEnd (bufLen pendingDataFramePaddingBytes : Z) : parser ErrorCode Z :=
  let toSkip := Z.min pendingDataFramePaddingBytes bufLen in
  skipPadding (u8 toSkip) ≫= fun _ => mret toSkip.

(** The optional priority of HEADERS and EX_HEADERS. *)
Definition parseOptPriority (header : FrameHeader) (lefttoparse : Z)
  : parser ErrorCode (option PriorityUpdate * Z) :=
  if truth (Z.land (fh_flags header) Flags.PRIORITY) then
    if lefttoparse <? kFramePrioritySize then pfail FRAME_SIZE_ERROR
    else p ← parsePriorityCommon; mret (Some p, lefttoparse - kFramePrioritySize)
  else mret (None, lefttoparse).

Definition parseHeaders (header : FrameHeader)
  : parser ErrorCode (option PriorityUpdate * list Z) :=
  if fh_stream header =? 0 then pfail PROTOCOL_ERROR
  else
    '(padding, lefttoparse) ← parsePadding header;
    '(outPriority, lefttoparse) ← parseOptPriority header lefttoparse;
    outBuf ← readBytes lefttoparse;
    skipPadding padding ≫= fun _ => mret (outPriority, outBuf).

Definition parseExHeaders (header : FrameHeader)
  : parser ErrorCode (ExAttributes * option PriorityUpdate * list Z) :=
  if fh_stream header =? 0 then pfail PROTOCOL_ERROR
  else
    '(padding, lefttoparse) ← parsePadding header;
    '(outPriority, lefttoparse) ← parseOptPriority header lefttoparse;
    if lefttoparse <? kFrameStreamIDSize then pfail FRAME_SIZE_ERROR
    else
      cs ← parseUint31;
      if negb (truth (Z.land cs 0x1)) then pfail PROTOCOL_ERROR
      else
        outBuf ← readBytes (lefttoparse - kFrameStreamIDSize);
        skipPadding padding ≫= fun _ =>
        mret (mkExAttributes cs (truth (Z.land (fh_flags header) Flags.UNIDIRECTIONAL)),
              outPriority, outBuf).

Definition parsePriority (header : FrameHeader) : parser ErrorCode PriorityUpdate :=
  if negb (fh_length header =? kFramePrioritySize) then pfail FRAME_SIZE_ERROR
  else if fh_stream header =? 0 then pfail PROTOCOL_ERROR
  else parsePriorityCommon.

Definition parseRstStream (header : FrameHeader) : parser ErrorCode ErrorCode :=
  if negb (fh_length header =? kFrameRstStreamSize) then pfail FRAME_SIZE_ERROR
  else if fh_stream header =? 0 then pfail PROTOCOL_ERROR
  else parseErrorCode.

(** The loop over [length -= 6]; [n] iterations. *)
Fixpoint parseSettingsLoop (n : nat) : parser ErrorCode (list (Z * Z)) :=
  match n with
  | O => mret []
  | S n' =>
      id ← readBE 2;
      val ← readBE 4;
      rest ← parseSettingsLoop n';
      mret ((id, val) :: rest)
  end.

Definition parseSettings (header : FrameHeader) : parser ErrorCode (list (Z * Z)) :=
  if negb (fh_stream header =? 0) then pfail PROTOCOL_ERROR
  else if truth (Z.land (fh_flags header) Flags.ACK) then
    if negb (fh_length header =? 0) then pfail FRAME_SIZE_ERROR else mret []
  else if negb (fh_length header mod 6 =? 0) then pfail FRAME_SIZE_ERROR
  else parseSettingsLoop (Z.to_nat (fh_length header / 6)).

Definition parsePushPromise (header : FrameHeader) : parser ErrorCode (Z * list Z) :=
  if fh_stream header =? 0 then pfail PROTOCOL_ERROR
  else
    '(padding, lefttoparse) ← parsePadding header;
    if lefttoparse <? kFramePushPromiseSize then pfail FRAME_SIZE_ERROR
    else
      let lefttoparse := lefttoparse - kFramePushPromiseSize in
      outPromisedStream ← parseUint31;
      if (outPromisedStream =? 0) || truth (Z.land outPromisedStream 0x1)
      then pfail PROTOCOL_ERROR
      else if lefttoparse <? padding then pfail PROTOCOL_ERROR
      else
        outBuf ← readBytes lefttoparse;
        skipPadding padding ≫= fun _ => mret (outPromisedStream, outBuf).

(** The eight opaque bytes, as pulled. *)
Definition parsePing (header : FrameHeader) : parser ErrorCode (list Z) :=
  if negb (fh_length header =? kFramePingSize) then pfail FRAME_SIZE_ERROR
  else if negb (fh_stream header =? 0) then pfail PROTOCOL_ERROR
  else readBytes 8.

(** [cursor.clone(out, length)] when [length > 0]; [None] is the null buffer. *)
Definition parseTrailing (length : Z) : parser ErrorCode (option (list Z)) :=
  if length >? 0 then b ← readBytes length; mret (Some b) else mret None.

Definition parseGoaway (header : FrameHeader)
  : parser ErrorCode (Z * ErrorCode * option (list Z)) :=
  if fh_length header <? kFrameGoawaySize then pfail FRAME_SIZE_ERROR
  else if negb (fh_stream header =? 0) then pfail PROTOCOL_ERROR
  else
    outLastStreamID ← parseUint31;
    outCode ← parseErrorCode;
    outDebugData ← parseTrailing (fh_length header - kFrameGoawaySize);
    mret (outLastStreamID, outCode, outDebugData).

Definition parseWindowUpdate (header : FrameHeader) : parser ErrorCode Z :=
  if negb (fh_length header =? kFrameWindowUpdateSize) then pfail FRAME_SIZE_ERROR
  else parseUint31.

Definition parseContinuation (header : FrameHeader) : parser ErrorCode (list Z) :=
  if fh_stream header =? 0 then pfail PROTOCOL_ERROR
  else readBytes (fh_length header).

Record AltSvc := mkAltSvc {
  maxAge : Z; port : Z; protocol : list Z; host : list Z; origin : list Z
}.

Definition parseAltSvc (header : FrameHeader) : parser ErrorCode AltSvc :=
  if fh_length header <? kFrameAltSvcSizeBase then pfail FRAME_SIZE_ERROR
  else
    outMaxAge ← readBE 4;
    outPort ← readBE 2;
    protoLen ← readBE 1;
    if fh_length header <? kFrameAltSvcSizeBase + protoLen then pfail FRAME_SIZE_ERROR
    else
      outProtocol ← readBytes protoLen;
      hostLen ← readBE 1;
      if fh_length header <? kFrameAltSvcSizeBase + protoLen + hostLen
      then pfail FRAME_SIZE_ERROR
      else
        outHost ← readBytes hostLen;
        outOrigin ← readBytes (fh_length header - kFrameAltSvcSizeBase - protoLen - hostLen);
        mret (mkAltSvc outMaxAge outPort outProtocol outHost outOrigin).

Definition parseCertificateRequest (header : FrameHeader)
  : parser ErrorCode (Z * option (list Z)) :=
  if fh_length header <? kFrameCertificateRequestSizeBase then pfail FRAME_SIZE_ERROR
  else if negb (fh_stream header =? 0) then pfail PROTOCOL_ERROR
  else
    outRequestId ← readBE 2;
    outAuthRequest ← parseTrailing (fh_length header - kFrameCertificateRequestSizeBase);
    mret (outRequestId, outAuthRequest).

Definition parseCertificate (header : FrameHeader)
  : parser ErrorCode (Z * option (list Z)) :=
  if fh_length header <? kFrameCertificateSizeBase then pfail FRAME_SIZE_ERROR
  else if negb (fh_stream header =? 0) then pfail PROTOCOL_ERROR
  else
    outCertId ← readBE 2;
    outAuthenticator ← parseTrailing (fh_length header - kFrameCertificateSizeBase);
    mret (outCertId, outAuthenticator).

(** ** Egress

    Every function returns the new queue and [kFrameHeaderSize + frameLen]. *)

Definition flag (b : bool) (f : Z) : Z := if b then f else 0.

Definition writeData (queue : list Z) (data : list Z) (stream : Z) (padding : option Z)
    (endStream : bool) : option (list Z * Z) :=
  let flags := flag endStream Flags.END_STREAM in
  '(queue, frameLen) ←
    writeFrameHeader queue (u32 (zlen data)) FrameType.DATA flags stream padding None data;
  Some (writePaddingBytes queue padding, kFrameHeaderSize + frameLen).

(** [writePadding(queue, stream, padding)]: a PADDING frame. *)
Definition writePadding (queue : list Z) (stream padding : Z) : option (list Z * Z) :=
  let padBodyLen := if padding >? kFrameHeaderSize then padding - kFrameHeaderSize else 0 in
  let body := replicate (Z.to_nat padBodyLen) 0 in
  '(queue, frameLen) ←
    writeFrameHeader queue padBodyLen FrameType.PADDING 0 stream None None body;
  Some (queue, kFrameHeaderSize + frameLen).

Definition calculatePreHeaderBlockSize (hasAssocStream hasExAttributes hasPriority hasPadding : bool)
  : Z :=
  let headerSize := kFrameHeaderSize + (if hasAssocStream || hasExAttributes then 4 else 0) in
  let headerSize :=
    if hasPriority && negb hasAssocStream then headerSize + kFramePrioritySize else headerSize in
  u8 (if hasPadding then headerSize + 1 else headerSize).

(** The header block is already in the queue behind [header], the room left for
    the frame header; the result is the filled room, the queue with the padding
    appended, and the size. *)
Definition writeHeaders (header queue : list Z) (headersLen stream : Z)
    (priority : option PriorityUpdate) (padding : option Z) (endStream endHeaders : bool)
  : option (list Z * list Z * Z) :=
  let flags := Z.lor (Z.lor (flag (bool_decide (is_Some priority)) Flags.PRIORITY)
                            (flag endStream Flags.END_STREAM))
                     (flag endHeaders Flags.END_HEADERS) in
  '(header, frameLen) ←
    writeFrameHeaderBuf header (u32 headersLen) FrameType.HEADERS flags stream padding priority;
  Some (header, writePaddingBytes queue padding, kFrameHeaderSize + frameLen).

Definition writeExHeaders (header queue : list Z) (headersLen stream : Z) (ex : ExAttributes)
    (priority : option PriorityUpdate) (padding : option Z) (endStream endHeaders : bool)
  : option (list Z * list Z * Z) :=
  let flags := Z.lor (Z.lor (Z.lor (flag (bool_decide (is_Some priority)) Flags.PRIORITY)
                                   (flag endStream Flags.END_STREAM))
                            (flag endHeaders Flags.END_HEADERS))
                     (flag (unidirectional ex) Flags.UNIDIRECTIONAL) in
  '(header, frameLen) ←
    writeFrameHeaderBuf header (u32 (headersLen + kFrameStreamIDSize)) FrameType.EX_HEADERS
      flags stream padding priority;
  let csPtr := kFrameHeaderSize + (if padding is Some _ then 1 else 0)
               + (if priority is Some _ then kFramePrioritySize else 0) in
  header ← overwrite header (Z.to_nat csPtr) (be_bytes 4 (u32 (controlStream ex)));
  Some (header, writePaddingBytes queue padding, kFrameHeaderSize + frameLen).

Definition writePriority (queue : list Z) (stream : Z) (priority : PriorityUpdate)
  : option (list Z * Z) :=
  '(queue, frameLen) ←
    writeFrameHeader queue kFramePrioritySize FrameType.PRIORITY 0 stream None (Some priority) [];
  Some (queue, kFrameHeaderSize + frameLen).

Definition writeRstStream (queue : list Z) (stream : Z) (errorCode : ErrorCode)
  : option (list Z * Z) :=
  '(queue, frameLen) ←
    writeFrameHeader queue kFrameRstStreamSize FrameType.RST_STREAM 0 stream None None [];
  Some (queue ++ be_bytes 4 (ErrorCode_index errorCode), kFrameHeaderSize + frameLen).

Definition settingBytes (setting : Z * Z) : list Z :=
  be_bytes 2 (u16 setting.1) ++ be_bytes 4 (u32 setting.2).

Definition writeSettings (queue : list Z) (settings : list (Z * Z)) : option (list Z * Z) :=
  '(queue, frameLen) ←
    writeFrameHeader queue (u32 (zlen settings * 6)) FrameType.SETTINGS 0 0 None None [];
  Some (queue ++ concat (settingBytes <$> settings), kFrameHeaderSize + frameLen).

Definition writeSettingsAck (queue : list Z) : option (list Z * Z) :=
  '(queue, _) ← writeFrameHeader queue 0 FrameType.SETTINGS Flags.ACK 0 None None [];
  Some (queue, kFrameHeaderSize).

Definition writePushPromise (header queue : list Z) (associatedStream promisedStream headersLen : Z)
    (padding : option Z) (endHeaders : bool) : option (list Z * list Z * Z) :=
  '(header, frameLen) ←
    writeFrameHeaderBuf header (u32 (headersLen + kFramePushPromiseSize)) FrameType.PUSH_PROMISE
      (flag endHeaders Flags.END_HEADERS) associatedStream padding None;
  let psPtr := kFrameHeaderSize + (if padding is Some _ then 1 else 0) in
  header ← overwrite header (Z.to_nat psPtr) (be_bytes 4 (u32 promisedStream));
  Some (header, writePaddingBytes queue padding, kFrameHeaderSize + frameLen).

(** [opaqueData] is the [uint64_t] as its eight bytes in memory. *)
Definition writePing (queue : list Z) (opaqueData : list Z) (ack : bool) : option (list Z * Z) :=
  '(queue, frameLen) ←
    writeFrameHeader queue kFramePingSize FrameType.PING (flag ack Flags.ACK) 0 None None [];
  Some (queue ++ opaqueData, kFrameHeaderSize + frameLen).

Definition writeGoaway (queue : list Z) (lastStreamID : Z) (errorCode : ErrorCode)
    (debugData : option (list Z)) : option (list Z * Z) :=
  let debug := default [] debugData in
  let debugLen := u32 (zlen debug) in
  '(queue, frameLen) ←
    writeFrameHeader queue (u32 (kFrameGoawaySize + debugLen)) FrameType.GOAWAY 0 0 None None [];
  Some (queue ++ be_bytes 4 lastStreamID ++ be_bytes 4 (ErrorCode_index errorCode) ++ debug,
        kFrameHeaderSize + frameLen).

Definition writeWindowUpdate (queue : list Z) (stream amount : Z) : option (list Z * Z) :=
  '(queue, frameLen) ←
    writeFrameHeader queue kFrameWindowUpdateSize FrameType.WINDOW_UPDATE 0 stream None None [];
  Some (queue ++ be_bytes 4 amount, kFrameHeaderSize + frameLen).

Definition writeContinuation (queue : list Z) (stream : Z) (endHeaders : bool) (headers : list Z)
  : option (list Z * Z) :=
  '(queue, frameLen) ←
    writeFrameHeader queue (u32 (zlen headers)) FrameType.CONTINUATION
      (flag endHeaders Flags.END_HEADERS) stream None None headers;
  Some (queue, kFrameHeaderSize + frameLen).

Definition writeAltSvc (queue : list Z) (stream : Z) (a : AltSvc) : option (list Z * Z) :=
  let frameLen := zlen (protocol a) + zlen (host a) + zlen (origin a) + kFrameAltSvcSizeBase in
  '(queue, _) ← writeFrameHeader queue (u32 frameLen) FrameType.ALTSVC 0 stream None None [];
  Some (queue ++ be_bytes 4 (maxAge a) ++ be_bytes 2 (port a) ++
          be_bytes 1 (u8 (zlen (protocol a))) ++ protocol a ++
          be_bytes 1 (u8 (zlen (host a))) ++ host a ++ origin a,
        kFrameHeaderSize + frameLen).

Definition writeCertificateRequest (queue : list Z) (requestId : Z) (authRequest : option (list Z))
  : option (list Z * Z) :=
  let dataLen := kFrameCertificateRequestSizeBase + zlen (default [] authRequest) in
  '(queue, frameLen) ←
    writeFrameHeader queue (u32 dataLen) FrameType.CERTIFICATE_REQUEST 0 0 None None [];
  Some (queue ++ be_bytes 2 requestId ++ default [] authRequest, kFrameHeaderSize + frameLen).

Definition writeCertificate (queue : list Z) (certId : Z) (authenticator : option (list Z))
    (toBeContinued : bool) : option (list Z * Z) :=
  let dataLen := kFrameCertificateSizeBase + zlen (default [] authenticator) in
  '(queue, frameLen) ←
    writeFrameHeader queue (u32 dataLen) FrameType.CERTIFICATE
      (flag toBeContinued Flags.TO_BE_CONTINUED) 0 None None [];
  Some (queue ++ be_bytes 2 certId ++ default [] authenticator, kFrameHeaderSize + frameLen).

Definition getFrameTypeString (type : Z) : string :=
  if type =? FrameType.DATA then "DATA"%string
  else if type =? FrameType.HEADERS then "HEADERS"%string
  else if type =? FrameType.PRIORITY then "PRIORITY"%string
  else if type =? FrameType.RST_STREAM then "RST_STREAM"%string
  else if type =? FrameType.SETTINGS then "SETTINGS"%string
  else if type =? FrameType.PUSH_PROMISE then "PUSH_PROMISE"%string
  else if type =? FrameType.PING then "PING"%string
  else if type =? FrameType.GOAWAY then "GOAWAY"%string
  else if type =? FrameType.WINDOW_UPDATE then "WINDOW_UPDATE"%string
  else if type =? FrameType.CONTINUATION then "CONTINUATION"%string
  else if type =? FrameType.ALTSVC then "ALTSVC"%string
  else if type =? FrameType.CERTIFICATE_REQUEST then "CERTIFICATE_REQUEST"%string
  else if type =? FrameType.CERTIFICATE then "CERTIFICATE"%string
  else "Unknown"%string.

(** ** The frame header on the wire *)

Lemma be_bytes_1 z : is_u8 z -> be_bytes 1 z = [z].
Proof.
  intros H. unfold be_bytes. change (2 ^ (8 * Z.of_nat 0)) with 1.
  rewrite Z.div_1_r, Z.mod_small by ilia. done.
Qed.

Lemma readBE1 {E} b r : is_u8 b -> readBE (E:=E) 1 (b :: r) = POk b r.
Proof.
  intros H. rewrite <- (readBE_app 1 b r) by (unfold is_u8 in *; simpl; lia).
  by rewrite be_bytes_1.
Qed.

Lemma parseUint31_app z r : 0 <= z < 2 ^ 32 ->
  parseUint31 (be_bytes 4 z ++ r) = POk (z mod 2 ^ 31) r.
Proof.
  intros H. unfold parseUint31. rewrite (pbind_ok _ _ _ z r) by (apply readBE_app; simpl; lia).
  unfold mret, parser_ret, kUint31Mask. by rewrite Z.land_comm, land_u31.
Qed.

Lemma parseFrameHeader_app length type flags stream r :
  0 <= length < 2 ^ 24 -> is_u8 type -> is_u8 flags -> 0 <= stream < 2 ^ 31 ->
  parseFrameHeader (be_bytes 4 (length * 256 + type) ++ flags :: be_bytes 4 stream ++ r)
  = POk (mkFrameHeader length stream type flags) r.
Proof.
  intros Hl Ht Hf Hs. unfold parseFrameHeader.
  rewrite (pbind_ok _ _ _ (length * 256 + type) (flags :: be_bytes 4 stream ++ r))
    by (apply readBE_app; simpl; ilia).
  rewrite (pbind_ok _ _ _ flags (be_bytes 4 stream ++ r)) by (by apply readBE1).
  rewrite (pbind_ok _ _ _ stream r)
    by (rewrite parseUint31_app by ilia; by rewrite Z.mod_small by ilia).
  unfold mret, parser_ret, kLengthMask. do 2 f_equal.
  - rewrite Z.land_comm, land_u24, Z.shiftr_div_pow2 by lia. ilia.
  - rewrite land_uff. ilia.
Qed.

(** The bytes a padding and a priority add to the length field, and the flags
    on the wire. *)
Definition extraLength (type : Z) (padding : option Z) (priority : option PriorityUpdate) : Z :=
  (if priority is Some _ then
     if (type =? FrameType.HEADERS) || (type =? FrameType.EX_HEADERS)
     then kFramePrioritySize else 0 else 0) +
  (if padding is Some p then p + 1 else 0).

Definition wireFlags (flags : Z) (padding : option Z) : Z :=
  if padding is Some _ then Z.lor flags Flags.PADDED
  else Z.land flags (u8 (Z.lnot Flags.PADDED)).

Definition padding_ok (padding : option Z) : Prop :=
  if padding is Some p then is_u8 p else True.

Definition priority_ok (priority : option PriorityUpdate) : Prop :=
  if priority is Some p then 0 <= streamDependency p < 2 ^ 31 /\ is_u8 (weight p) else True.

Lemma computeLengthAndType_eq length type flags padding priority hs :
  0 <= length -> padding_ok padding -> is_u8 type ->
  length + extraLength type padding priority < 2 ^ 24 ->
  computeLengthAndType length type flags padding priority hs =
    ((length + extraLength type padding priority) * 256 + type,
     wireFlags flags padding,
     hs + (if priority is Some _ then kFramePrioritySize else 0)
        + (if padding is Some _ then 1 else 0)).
Proof.
  intros Hl Hp Ht. unfold computeLengthAndType, extraLength, wireFlags, padding_ok,
    kFramePrioritySize, kLengthMask in *.
  assert (Hw : forall l, 0 <= l < 2 ^ 24 ->
    Z.lor (u32 (Z.shiftl (Z.land 0xffffff l) 8)) type = l * 256 + type).
  { intros l Hl'. rewrite Z.land_comm, land_u24, Z.mod_small by lia.
    rewrite u32_id by (rewrite Z.shiftl_mul_pow2 by lia; ilia).
    by rewrite lor_shiftl_add by (unfold_ints; lia). }
  destruct priority as [pri|], padding as [p|];
    try destruct ((type =? FrameType.HEADERS) || (type =? FrameType.EX_HEADERS));
    intros Hlt; cbv zeta iota beta;
    try rewrite (u32_id (length + 5)) by ilia;
    try rewrite (u32_id (length + _ + _)) by ilia; try rewrite (u32_id (length + (_ + _))) by ilia;
    rewrite Hw by (unfold_ints; lia); f_equal; try lia; f_equal; lia.
Qed.

Lemma wireFlags_u8 flags padding : is_u8 flags -> is_u8 (wireFlags flags padding).
Proof.
  intros H. destruct padding; unfold wireFlags.
  - pose proof (u8_forall (fun f => (0 <=? Z.lor f Flags.PADDED) && (Z.lor f Flags.PADDED <? 256))
      ltac:(vm_compute; reflexivity) flags H). bool_cases. ilia.
  - pose proof (u8_forall (fun f => let g := Z.land f (u8 (Z.lnot Flags.PADDED)) in
      (0 <=? g) && (g <? 256)) ltac:(vm_compute; reflexivity) flags H). simpl in *.
    bool_cases. ilia.
Qed.

Lemma wireFlags_padded flags padding : is_u8 flags ->
  truth (Z.land (wireFlags flags padding) Flags.PADDED) = bool_decide (is_Some padding).
Proof.
  intros H. destruct padding; unfold wireFlags.
  - by rewrite (u8_forall (fun f => truth (Z.land (Z.lor f Flags.PADDED) Flags.PADDED))
      ltac:(vm_compute; reflexivity) flags H).
  - pose proof (u8_forall (fun f => negb (truth (Z.land (Z.land f (u8 (Z.lnot Flags.PADDED)))
      Flags.PADDED))) ltac:(vm_compute; reflexivity) flags H) as Hf.
    by apply negb_true_iff in Hf.
Qed.

Definition padBytes (padding : option Z) : list Z := if padding is Some p then [p] else [].
Definition priorityBytes (priority : option PriorityUpdate) : list Z :=
  if priority is Some p then writePriorityBody (streamDependency p) (exclusive p) (weight p)
  else [].

Definition fixedBytes (length type flags stream : Z) : list Z :=
  be_bytes 4 (length * 256 + type) ++ flags :: be_bytes 4 stream.

Definition wireHeader (length type flags stream : Z) (padding : option Z)
    (priority : option PriorityUpdate) : list Z :=
  fixedBytes (length + extraLength type padding priority) type (wireFlags flags padding) stream
  ++ padBytes padding ++ priorityBytes priority.

(** The hypotheses every writer relies on: they are the [DCHECK]s of the source. *)
Definition header_ok (length type flags stream : Z) (padding : option Z)
    (priority : option PriorityUpdate) : Prop :=
  0 <= length /\ length + extraLength type padding priority < 2 ^ 24 /\
  is_u8 type /\ is_u8 flags /\ 0 <= stream < 2 ^ 31 /\
  padding_ok padding /\ priority_ok priority.

Lemma frameHeaderBytes_eq length type flags stream padding priority :
  header_ok length type flags stream padding priority ->
  let '(lat, fl, _) := computeLengthAndType length type flags padding priority kFrameHeaderSize in
  frameHeaderBytes lat fl stream padding priority
  = Some (wireHeader length type flags stream padding priority).
Proof.
  intros (Hl & Hlt & Ht & Hf & Hs & Hp & Hpr).
  rewrite computeLengthAndType_eq by done. unfold frameHeaderBytes, wireHeader, fixedBytes.
  assert (Hst : Z.land kUint31Mask stream = stream).
  { unfold kUint31Mask. rewrite Z.land_comm, land_u31, Z.mod_small; lia. }
  rewrite Hst. destruct priority as [pri|]; simpl in *.
  - by rewrite (proj2 (Z.leb_le _ _)) by ilia.
  - by rewrite app_nil_r.
Qed.

Lemma writeFrameHeader_eq queue length type flags stream padding priority payload :
  header_ok length type flags stream padding priority ->
  writeFrameHeader queue length type flags stream padding priority payload
  = Some (queue ++ wireHeader length type flags stream padding priority ++ payload, length).
Proof.
  intros H. unfold writeFrameHeader. pose proof (frameHeaderBytes_eq _ _ _ _ _ _ H) as He.
  destruct (computeLengthAndType _ _ _ _ _ _) as [[lat fl] hs]. by rewrite He.
Qed.

Lemma length_priorityBytes priority :
  length (priorityBytes priority) = if priority is Some _ then 5%nat else 0%nat.
Proof.
  destruct priority; [|done]. unfold priorityBytes, writePriorityBody.
  by rewrite length_app, length_be_bytes.
Qed.

Lemma length_wireHeader len type flags stream padding priority :
  length (wireHeader len type flags stream padding priority) =
  (9 + (if padding is Some _ then 1 else 0) + (if priority is Some _ then 5 else 0))%nat.
Proof.
  unfold wireHeader, fixedBytes. rewrite !length_app, length_priorityBytes.
  cbn [length]. rewrite !length_be_bytes. by destruct padding, priority.
Qed.

Lemma zlen_wireHeader len type flags stream padding priority :
  zlen (wireHeader len type flags stream padding priority) =
  9 + (if padding is Some _ then 1 else 0) + (if priority is Some _ then 5 else 0).
Proof. unfold zlen. rewrite length_wireHeader. by destruct padding, priority. Qed.

Lemma overwrite_head buf bs r :
  length bs = length buf -> overwrite (buf ++ r) 0 bs = Some (bs ++ r).
Proof.
  intros H. unfold overwrite. rewrite decide_True by (rewrite length_app; lia).
  rewrite take_0, H. simpl. by rewrite drop_app_length.
Qed.

Lemma overwrite_at pre buf bs r off :
  length pre = off -> length bs = length buf ->
  overwrite (pre ++ buf ++ r) off bs = Some (pre ++ bs ++ r).
Proof.
  intros Ho H. unfold overwrite. rewrite decide_True by (rewrite !length_app; lia).
  rewrite take_app_length' by done. do 2 f_equal. f_equal.
  rewrite app_assoc, drop_app_length'; [done|]. rewrite length_app; lia.
Qed.

(** On a raw buffer: the room is filled, what follows it is left alone. *)
Lemma writeFrameHeaderBuf_eq room r length type flags stream padding priority :
  header_ok length type flags stream padding priority ->
  List.length room = List.length (wireHeader length type flags stream padding priority) ->
  writeFrameHeaderBuf (room ++ r) length type flags stream padding priority
  = Some (wireHeader length type flags stream padding priority ++ r, length).
Proof.
  intros H Hlen. unfold writeFrameHeaderBuf.
  pose proof (frameHeaderBytes_eq _ _ _ _ _ _ H) as He. destruct H as (Hl & Hlt & Ht & _ & _ & Hp & _).
  rewrite computeLengthAndType_eq in * by done. cbv iota beta zeta in *.
  rewrite length_wireHeader in Hlen. unfold zlen. rewrite length_app, Hlen.
  destruct (_ <? _) eqn:E.
  - apply Z.ltb_lt in E. unfold kFrameHeaderSize, kFramePrioritySize in E.
    destruct padding, priority; simpl in *; lia.
  - rewrite He. simpl. rewrite overwrite_head; [done|]. by rewrite length_wireHeader.
Qed.

Lemma parseFrameHeader_wire length type flags stream padding priority r :
  header_ok length type flags stream padding priority ->
  parseFrameHeader (wireHeader length type flags stream padding priority ++ r) =
  POk (mkFrameHeader (length + extraLength type padding priority) stream type
         (wireFlags flags padding)) (padBytes padding ++ priorityBytes priority ++ r).
Proof.
  intros (Hl & Hlt & Ht & Hf & Hs & Hp & Hpr). unfold wireHeader, fixedBytes.
  rewrite <- !app_assoc. cbn [app]. rewrite <- ?app_assoc. apply parseFrameHeader_app.
  - split; [|done]. unfold extraLength, padding_ok, kFramePrioritySize in *.
    destruct padding, priority; try destruct (_ || _); ilia.
  - done.
  - by apply wireFlags_u8.
  - done.
Qed.

(** ** Parsing back the parts of a frame *)

Definition padLen (padding : option Z) : Z := default 0 padding.
Definition padZeros (padding : option Z) : list Z := replicate (Z.to_nat (padLen padding)) 0.

Lemma writePaddingBytes_eq queue padding :
  padding_ok padding -> writePaddingBytes queue padding = queue ++ padZeros padding.
Proof.
  intros H. destruct padding as [p|]; unfold writePaddingBytes, padZeros, padLen; simpl in *.
  - split_ifs; [done|]. assert (p = 0) as -> by ilia. by rewrite app_nil_r.
  - by rewrite app_nil_r.
Qed.

Lemma skipPadding_zeros n r : skipPadding n (replicate (Z.to_nat n) 0 ++ r) = POk tt r.
Proof.
  unfold skipPadding. rewrite take_app_length' by (by rewrite length_replicate).
  rewrite bool_decide_eq_true_2 by (by apply Forall_replicate).
  rewrite decide_False by (rewrite length_app, length_replicate; lia).
  by rewrite drop_app_length' by (by rewrite length_replicate).
Qed.

Lemma parsePadding_wire n stream type flags padding r :
  0 <= n -> padding_ok padding ->
  truth (Z.land flags Flags.PADDED) = bool_decide (is_Some padding) ->
  parsePadding (mkFrameHeader (n + (if padding is Some p then p + 1 else 0)) stream type flags)
    (padBytes padding ++ r) = POk (padLen padding, n) r.
Proof.
  intros Hn Hp Hf. unfold parsePadding, frameHasPadding; simpl. rewrite Hf.
  destruct padding as [p|]; simpl in *.
  - rewrite (proj2 (Z.ltb_ge _ _)) by ilia.
    rewrite (pbind_ok _ _ _ (p, n + (p + 1) - 1) r).
    + rewrite (proj2 (Z.ltb_ge _ _)) by ilia. unfold mret, parser_ret. do 2 f_equal. simpl. lia.
    + by rewrite (pbind_ok _ _ _ p r) by (by apply readBE1).
  - rewrite (pbind_ok _ _ _ (0, n + 0) r) by done.
    rewrite (proj2 (Z.ltb_ge _ _)) by lia. unfold mret, parser_ret. do 2 f_equal. simpl. lia.
Qed.

Lemma parsePriorityCommon_app p r :
  priority_ok (Some p) -> parsePriorityCommon (priorityBytes (Some p) ++ r) = POk p r.
Proof.
  intros [Hd Hw]. unfold priorityBytes, writePriorityBody, parsePriorityCommon, notUint31Mask.
  set (w := if exclusive p then Z.lor (streamDependency p) 0x80000000 else streamDependency p).
  assert (Hw' : w = (if exclusive p then 2 ^ 31 else 0) + streamDependency p).
  { unfold w. destruct (exclusive p); [|lia].
    rewrite Z.lor_comm. change 0x80000000 with (Z.shiftl 1 31).
    rewrite lor_shiftl_add by lia. lia. }
  rewrite (u32_id w), (u8_id (weight p)) by (rewrite ?Hw'; destruct (exclusive p); ilia).
  rewrite <- app_assoc.
  rewrite (pbind_ok _ _ _ w ([weight p] ++ r))
    by (apply readBE_app; rewrite Hw'; destruct (exclusive p); simpl; unfold_ints; lia).
  rewrite (pbind_ok _ _ _ (weight p) r) by (by apply readBE1).
  unfold mret, parser_ret, kUint31Mask. f_equal. rewrite Hw'.
  destruct p as [d e wt]; simpl in *. f_equal.
  - rewrite Z.land_comm, land_u31. destruct e; ilia.
  - change 0x80000000 with (Z.shiftl 1 31). destruct e.
    + replace (2 ^ 31 + d) with (Z.lor (Z.shiftl 1 31) d)
        by (rewrite lor_shiftl_add by lia; lia).
      rewrite Z.land_lor_distr_r, Z.land_diag, land_shiftl_low by lia. done.
    + by rewrite Z.add_0_l, land_shiftl_low by lia.
Qed.

Lemma parseErrorCode_app e r :
  e <> ErrorCode_MAX -> parseErrorCode (be_bytes 4 (ErrorCode_index e) ++ r) = POk e r.
Proof.
  intros H. unfold parseErrorCode.
  rewrite (pbind_ok _ _ _ (ErrorCode_index e) r)
    by (apply readBE_app; destruct e; simpl; lia).
  rewrite ErrorCode_of_index. destruct e; done.
Qed.

Lemma parseOptPriority_wire len stream type flags priority n r :
  0 <= n -> priority_ok priority ->
  truth (Z.land flags Flags.PRIORITY) = bool_decide (is_Some priority) ->
  parseOptPriority (mkFrameHeader len stream type flags)
    (n + (if priority is Some _ then kFramePrioritySize else 0)) (priorityBytes priority ++ r)
  = POk (priority, n) r.
Proof.
  intros Hn Hp Hf. unfold parseOptPriority, kFramePrioritySize; simpl. rewrite Hf.
  destruct priority as [p|]; cbv iota; [rewrite bool_decide_eq_true_2 by eauto|].
  - rewrite (proj2 (Z.ltb_ge _ _)) by lia.
    rewrite (pbind_ok _ _ _ p r) by (by apply parsePriorityCommon_app).
    unfold mret, parser_ret. do 2 f_equal. lia.
  - rewrite bool_decide_eq_false_2 by (intros [? ?]; done).
    unfold mret, parser_ret. do 2 f_equal. lia.
Qed.

Lemma parseSettingsLoop_app l r :
  Forall (fun s => is_u16 s.1 /\ is_u32 s.2) l ->
  parseSettingsLoop (length l) (concat (settingBytes <$> l) ++ r) = POk l r.
Proof.
  induction 1 as [|[id v] l [Hi Hv] _ IH]; [done|]. cbn [length parseSettingsLoop fmap list_fmap concat].
  unfold settingBytes at 1; cbn [fst snd]. rewrite (u16_id id), (u32_id v) by done. rewrite <- !app_assoc.
  rewrite (pbind_ok _ _ _ id (be_bytes 4 v ++ concat (settingBytes <$> l) ++ r))
    by (apply readBE_app; exact Hi).
  rewrite (pbind_ok _ _ _ v (concat (settingBytes <$> l) ++ r)) by (apply readBE_app; exact Hv).
  by rewrite (pbind_ok _ _ _ l r) by exact IH.
Qed.

(** ** Whole frames

    [frame] is what a caller asks the framer to write; [payload] is what the
    type-specific parser returns.  The header-block frames are written the way
    [HTTP2Codec::generateHeaderImpl] does: [calculatePreHeaderBlockSize] bytes
    of room, the encoded block behind it, then the writer fills the room and
    appends the padding. *)

Inductive frame :=
| FData (stream : Z) (data : list Z) (padding : option Z) (endStream : bool)
| FHeaders (stream : Z) (priority : option PriorityUpdate) (block : list Z)
    (padding : option Z) (endStream endHeaders : bool)
| FExHeaders (stream : Z) (ex : ExAttributes) (priority : option PriorityUpdate) (block : list Z)
    (padding : option Z) (endStream endHeaders : bool)
| FPriority (stream : Z) (priority : PriorityUpdate)
| FRstStream (stream : Z) (code : ErrorCode)
| FSettings (settings : list (Z * Z))
| FSettingsAck
| FPushPromise (stream promised : Z) (block : list Z) (padding : option Z) (endHeaders : bool)
| FPing (opaqueData : list Z) (ack : bool)
| FGoaway (lastStreamID : Z) (code : ErrorCode) (debugData : option (list Z))
| FWindowUpdate (stream amount : Z)
| FContinuation (stream : Z) (endHeaders : bool) (block : list Z)
| FAltSvc (stream : Z) (altsvc : AltSvc)
| FCertificateRequest (requestId : Z) (authRequest : option (list Z))
| FCertificate (certId : Z) (authenticator : option (list Z)) (toBeContinued : bool).

Inductive payload :=
| PData (data : list Z) (padding : Z)
| PHeaders (priority : option PriorityUpdate) (block : list Z)
| PExHeaders (ex : ExAttributes) (priority : option PriorityUpdate) (block : list Z)
| PPriority (priority : PriorityUpdate)
| PRstStream (code : ErrorCode)
| PSettings (settings : list (Z * Z))
| PPushPromise (promised : Z) (block : list Z)
| PPing (opaqueData : list Z)
| PGoaway (lastStreamID : Z) (code : ErrorCode) (debugData : option (list Z))
| PWindowUpdate (amount : Z)
| PContinuation (block : list Z)
| PAltSvc (altsvc : AltSvc)
| PCertificateRequest (requestId : Z) (authRequest : option (list Z))
| PCertificate (certId : Z) (authenticator : option (list Z)).

Definition room (n : Z) : list Z := replicate (Z.to_nat n) 0.

Definition writeFrame (queue : list Z) (f : frame) : option (list Z * Z) :=
  match f with
  | FData stream data padding endStream => writeData queue data stream padding endStream
  | FHeaders stream priority block padding endStream endHeaders =>
      let n := calculatePreHeaderBlockSize false false (bool_decide (is_Some priority))
                 (bool_decide (is_Some padding)) in
      '(header, tail, len) ← writeHeaders (room n) block (zlen block) stream priority padding
                               endStream endHeaders;
      Some (queue ++ header ++ tail, len)
  | FExHeaders stream ex priority block padding endStream endHeaders =>
      let n := calculatePreHeaderBlockSize false true (bool_decide (is_Some priority))
                 (bool_decide (is_Some padding)) in
      '(header, tail, len) ← writeExHeaders (room n) block (zlen block) stream ex priority padding
                               endStream endHeaders;
      Some (queue ++ header ++ tail, len)
  | FPriority stream priority => writePriority queue stream priority
  | FRstStream stream code => writeRstStream queue stream code
  | FSettings settings => writeSettings queue settings
  | FSettingsAck => writeSettingsAck queue
  | FPushPromise stream promised block padding endHeaders =>
      let n := calculatePreHeaderBlockSize true false false (bool_decide (is_Some padding)) in
      '(header, tail, len) ← writePushPromise (room n) block stream promised (zlen block) padding
                               endHeaders;
      Some (queue ++ header ++ tail, len)
  | FPing opaqueData ack => writePing queue opaqueData ack
  | FGoaway lastStreamID code debugData => writeGoaway queue lastStreamID code debugData
  | FWindowUpdate stream amount => writeWindowUpdate queue stream amount
  | FContinuation stream endHeaders block => writeContinuation queue stream endHeaders block
  | FAltSvc stream altsvc => writeAltSvc queue stream altsvc
  | FCertificateRequest requestId authRequest => writeCertificateRequest queue requestId authRequest
  | FCertificate certId authenticator toBeContinued =>
      writeCertificate queue certId authenticator toBeContinued
  end.

(** The parser for each frame type; [None] for the types that have none. *)
Definition parsePayload (h : FrameHeader) : option (parser ErrorCode payload) :=
  let t := fh_type h in
  if t =? FrameType.DATA then Some ('(d, p) ← parseData h; mret (PData d p))
  else if t =? FrameType.HEADERS then Some ('(p, b) ← parseHeaders h; mret (PHeaders p b))
  else if t =? FrameType.EX_HEADERS then
    Some ('(e, p, b) ← parseExHeaders h; mret (PExHeaders e p b))
  else if t =? FrameType.PRIORITY then Some (p ← parsePriority h; mret (PPriority p))
  else if t =? FrameType.RST_STREAM then Some (c ← parseRstStream h; mret (PRstStream c))
  else if t =? FrameType.SETTINGS then Some (l ← parseSettings h; mret (PSettings l))
  else if t =? FrameType.PUSH_PROMISE then
    Some ('(s, b) ← parsePushPromise h; mret (PPushPromise s b))
  else if t =? FrameType.PING then Some (d ← parsePing h; mret (PPing d))
  else if t =? FrameType.GOAWAY then Some ('(s, c, d) ← parseGoaway h; mret (PGoaway s c d))
  else if t =? FrameType.WINDOW_UPDATE then
    Some (a ← parseWindowUpdate h; mret (PWindowUpdate a))
  else if t =? FrameType.CONTINUATION then
    Some (b ← parseContinuation h; mret (PContinuation b))
  else if t =? FrameType.ALTSVC then Some (a ← parseAltSvc h; mret (PAltSvc a))
  else if t =? FrameType.CERTIFICATE_REQUEST then
    Some ('(i, a) ← parseCertificateRequest h; mret (PCertificateRequest i a))
  else if t =? FrameType.CERTIFICATE then
    Some ('(i, a) ← parseCertificate h; mret (PCertificate i a))
  else None.

(** One frame off the cursor: the header, then the type's parser. *)
Definition parseFrame : parser ErrorCode (FrameHeader * payload) :=
  h ← parseFrameHeader;
  match parsePayload h with
  | Some p => v ← p; mret (h, v)
  | None => pfail PROTOCOL_ERROR
  end.

(** What a frame must satisfy to be written as asked.  The bounds are the
    [DCHECK]s of the writers, the widths of the fields, and the sentinel
    [ErrorCode::_MAX], which is no error code. *)
Definition padExtra (padding : option Z) : Z := if padding is Some p then p + 1 else 0.

Definition frame_ok (f : frame) : Prop :=
  match f with
  | FData stream data padding _ =>
      0 < stream < 2 ^ 31 /\ padding_ok padding /\ zlen data + padExtra padding < 2 ^ 24
  | FHeaders stream priority block padding _ _ =>
      0 < stream < 2 ^ 31 /\ padding_ok padding /\ priority_ok priority /\
      zlen block + 5 + padExtra padding < 2 ^ 24
  | FExHeaders stream ex priority block padding _ _ =>
      0 < stream < 2 ^ 31 /\ padding_ok padding /\ priority_ok priority /\
      zlen block + 9 + padExtra padding < 2 ^ 24 /\
      0 < controlStream ex < 2 ^ 31 /\ controlStream ex mod 2 = 1
  | FPriority stream priority => 0 < stream < 2 ^ 31 /\ priority_ok (Some priority)
  | FRstStream stream code => 0 < stream < 2 ^ 31 /\ code <> ErrorCode_MAX
  | FSettings settings =>
      Forall (fun s => is_u16 s.1 /\ is_u32 s.2) settings /\ zlen settings * 6 < 2 ^ 24
  | FSettingsAck => True
  | FPushPromise stream promised block padding _ =>
      0 < stream < 2 ^ 31 /\ padding_ok padding /\ zlen block + 4 + padExtra padding < 2 ^ 24 /\
      0 < promised < 2 ^ 31 /\ promised mod 2 = 0
  | FPing opaqueData _ => zlen opaqueData = 8
  | FGoaway lastStreamID code debugData =>
      0 <= lastStreamID < 2 ^ 31 /\ code <> ErrorCode_MAX /\
      8 + zlen (default [] debugData) < 2 ^ 24
  | FWindowUpdate stream amount => 0 <= stream < 2 ^ 31 /\ 0 <= amount < 2 ^ 31
  | FContinuation stream _ block => 0 < stream < 2 ^ 31 /\ zlen block < 2 ^ 24
  | FAltSvc stream a =>
      0 <= stream < 2 ^ 31 /\ is_u32 (maxAge a) /\ is_u16 (port a) /\
      zlen (protocol a) < 256 /\ zlen (host a) < 256 /\
      zlen (protocol a) + zlen (host a) + zlen (origin a) + 8 < 2 ^ 24
  | FCertificateRequest requestId auth =>
      is_u16 requestId /\ 2 + zlen (default [] auth) < 2 ^ 24
  | FCertificate certId auth _ =>
      is_u16 certId /\ 2 + zlen (default [] auth) < 2 ^ 24
  end.

(** The header the peer sees: the flags asked for, and PADDED iff there is padding. *)
Definition padded (padding : option Z) : Z := flag (bool_decide (is_Some padding)) Flags.PADDED.
Definition priorityExtra (priority : option PriorityUpdate) : Z :=
  if priority is Some _ then kFramePrioritySize else 0.

Definition blockFlags (priority : option PriorityUpdate) (endStream endHeaders : bool) : Z :=
  Z.lor (Z.lor (flag (bool_decide (is_Some priority)) Flags.PRIORITY)
               (flag endStream Flags.END_STREAM)) (flag endHeaders Flags.END_HEADERS).

Definition headerOf (f : frame) : FrameHeader :=
  match f with
  | FData stream data padding endStream =>
      mkFrameHeader (zlen data + padExtra padding) stream FrameType.DATA
        (Z.lor (flag endStream Flags.END_STREAM) (padded padding))
  | FHeaders stream priority block padding endStream endHeaders =>
      mkFrameHeader (zlen block + (priorityExtra priority + padExtra padding)) stream
        FrameType.HEADERS (Z.lor (blockFlags priority endStream endHeaders) (padded padding))
  | FExHeaders stream ex priority block padding endStream endHeaders =>
      mkFrameHeader (zlen block + 4 + (priorityExtra priority + padExtra padding)) stream
        FrameType.EX_HEADERS
        (Z.lor (Z.lor (blockFlags priority endStream endHeaders)
                      (flag (unidirectional ex) Flags.UNIDIRECTIONAL)) (padded padding))
  | FPriority stream _ => mkFrameHeader 5 stream FrameType.PRIORITY 0
  | FRstStream stream _ => mkFrameHeader 4 stream FrameType.RST_STREAM 0
  | FSettings settings => mkFrameHeader (zlen settings * 6) 0 FrameType.SETTINGS 0
  | FSettingsAck => mkFrameHeader 0 0 FrameType.SETTINGS Flags.ACK
  | FPushPromise stream _ block padding endHeaders =>
      mkFrameHeader (zlen block + 4 + padExtra padding) stream FrameType.PUSH_PROMISE
        (Z.lor (flag endHeaders Flags.END_HEADERS) (padded padding))
  | FPing _ ack => mkFrameHeader 8 0 FrameType.PING (flag ack Flags.ACK)
  | FGoaway _ _ debugData => mkFrameHeader (8 + zlen (default [] debugData)) 0 FrameType.GOAWAY 0
  | FWindowUpdate stream _ => mkFrameHeader 4 stream FrameType.WINDOW_UPDATE 0
  | FContinuation stream endHeaders block =>
      mkFrameHeader (zlen block) stream FrameType.CONTINUATION (flag endHeaders Flags.END_HEADERS)
  | FAltSvc stream a =>
      mkFrameHeader (zlen (protocol a) + zlen (host a) + zlen (origin a) + 8) stream
        FrameType.ALTSVC 0
  | FCertificateRequest _ auth =>
      mkFrameHeader (2 + zlen (default [] auth)) 0 FrameType.CERTIFICATE_REQUEST 0
  | FCertificate _ auth toBeContinued =>
      mkFrameHeader (2 + zlen (default [] auth)) 0 FrameType.CERTIFICATE
        (flag toBeContinued Flags.TO_BE_CONTINUED)
  end.

(** What the peer is given.  An empty buffer behind the fixed fields leaves no
    trace in the frame: the parsers give no buffer for it. *)
Definition nonempty (o : option (list Z)) : option (list Z) :=
  match o with Some [] => None | _ => o end.

Definition payloadOf (f : frame) : payload :=
  match f with
  | FData _ data padding _ => PData data (padExtra padding)
  | FHeaders _ priority block _ _ _ => PHeaders priority block
  | FExHeaders _ ex priority block _ _ _ => PExHeaders ex priority block
  | FPriority _ priority => PPriority priority
  | FRstStream _ code => PRstStream code
  | FSettings settings => PSettings settings
  | FSettingsAck => PSettings []
  | FPushPromise _ promised block _ _ => PPushPromise promised block
  | FPing opaqueData _ => PPing opaqueData
  | FGoaway lastStreamID code debugData => PGoaway lastStreamID code (nonempty debugData)
  | FWindowUpdate _ amount => PWindowUpdate amount
  | FContinuation _ _ block => PContinuation block
  | FAltSvc _ a => PAltSvc a
  | FCertificateRequest requestId auth => PCertificateRequest requestId (nonempty auth)
  | FCertificate certId auth _ => PCertificate certId (nonempty auth)
  end.

(** ** Round trip, frame by frame *)

(** The one frame that the parser refuses although the writer writes it: a
    PUSH_PROMISE whose header block is shorter than its padding
    ([push_promise_padding_rejected] below). *)
Definition refused (f : frame) : bool :=
  if f is FPushPromise _ _ block padding _ then zlen block <? padLen padding else false.

Definition roundtrips (f : frame) : Prop :=
  forall queue rest, exists bytes n,
    writeFrame queue f = Some (queue ++ bytes, n) /\
    zlen bytes = kFrameHeaderSize + fh_length (headerOf f) /\
    parseFrame (bytes ++ rest) = POk (headerOf f, payloadOf f) rest.

(** The header is read back, the type's parser takes over. *)
Lemma parseFrame_wire length type flags stream padding priority r h p v rest :
  header_ok length type flags stream padding priority ->
  h = mkFrameHeader (length + extraLength type padding priority) stream type
        (wireFlags flags padding) ->
  parsePayload h = Some p ->
  p (padBytes padding ++ priorityBytes priority ++ r) = POk v rest ->
  parseFrame (wireHeader length type flags stream padding priority ++ r) = POk (h, v) rest.
Proof.
  intros Hok -> Hp Hv. unfold parseFrame.
  rewrite (pbind_ok _ _ _ _ _ (parseFrameHeader_wire _ _ _ _ _ _ _ Hok)), Hp.
  by rewrite (pbind_ok _ _ _ _ _ Hv).
Qed.

(** A frame without padding or priority: the bytes are header and body. *)
Lemma roundtrip_plain f length type flags stream body p :
  header_ok length type flags stream None None ->
  headerOf f = mkFrameHeader length stream type flags ->
  Z.land flags (u8 (Z.lnot Flags.PADDED)) = flags ->
  zlen body = length ->
  (forall queue, exists n,
     writeFrame queue f = Some (queue ++ wireHeader length type flags stream None None ++ body, n)) ->
  parsePayload (headerOf f) = Some p ->
  (forall rest, p (body ++ rest) = POk (payloadOf f) rest) ->
  roundtrips f.
Proof.
  intros Hok Hh Hfl Hlen Hw Hp Hv queue rest. destruct (Hw queue) as [n Hn].
  exists (wireHeader length type flags stream None None ++ body), n. split_and!; [done| |].
  - unfold zlen in *. rewrite length_app, length_wireHeader, Hh. unfold kFrameHeaderSize; simpl. lia.
  - rewrite <- app_assoc. apply (parseFrame_wire _ _ _ _ _ _ _ _ p); [done| |done|apply Hv].
    rewrite Hh. unfold extraLength, wireFlags. rewrite Hfl. f_equal; lia.
Qed.

Lemma header_ok_plain length type flags stream :
  0 <= length < 2 ^ 24 -> is_u8 type -> is_u8 flags -> 0 <= stream < 2 ^ 31 ->
  header_ok length type flags stream None None.
Proof. intros. unfold header_ok, extraLength, padding_ok, priority_ok. split_and!; try done; lia. Qed.

(** [plain body] opens a round trip of a frame without padding and priority:
    what is left are the bounds of the header and the parser of the body. *)
Ltac plain_frame b :=
  match goal with |- roundtrips ?f =>
    let h := eval cbn [headerOf] in (headerOf f) in
    match h with mkFrameHeader ?len ?str ?ty ?fl =>
      eapply (roundtrip_plain f len ty fl str b);
        [apply header_ok_plain|reflexivity| | | |reflexivity|]
    end
  end.

(** [hdr] rewrites the header a writer emits; [hok] proves its bounds. *)
Ltac hok := apply header_ok_plain; try done; unfold_ints; simpl; lia.
Ltac hdr := rewrite writeFrameHeader_eq by hok; cbn [mbind option_bind].
Ltac zpos := repeat match goal with l : list _ |- _ =>
  match goal with _ : 0 <= zlen l |- _ => fail 1 | _ =>
    assert (0 <= zlen l) by (unfold zlen; lia) end end.

Lemma zlen_be n z : zlen (be_bytes n z) = Z.of_nat n.
Proof. unfold zlen. by rewrite length_be_bytes. Qed.

Lemma parseTrailing_app o r :
  parseTrailing (zlen (default [] o)) (default [] o ++ r) = POk (nonempty o) r.
Proof.
  unfold parseTrailing. destruct o as [l|]; simpl.
  - destruct l as [|b l]; [done|]. rewrite Z.gtb_ltb, (proj2 (Z.ltb_lt _ _)) by (unfold zlen; simpl; lia).
    by rewrite (pbind_ok _ _ _ (b :: l) r) by (by apply readBytes_app).
  - done.
Qed.

Lemma rt_continuation stream eh block :
  frame_ok (FContinuation stream eh block) -> roundtrips (FContinuation stream eh block).
Proof.
  intros (Hs & Hl). assert (0 <= zlen block) by (unfold zlen; lia). plain_frame block.
  - done.
  - done.
  - by destruct eh.
  - lia.
  - by destruct eh.
  - done.
  - intros queue; eexists; cbn [writeFrame]; unfold writeContinuation.
    rewrite (u32_id (zlen block)) by ilia.
    rewrite writeFrameHeader_eq by (apply header_ok_plain; [lia|done|by destruct eh|lia]).
    reflexivity.
  - intros rest. unfold parseContinuation. simpl.
    rewrite (proj2 (Z.eqb_neq stream 0)) by lia.
    by rewrite (pbind_ok _ _ _ block rest) by (by apply readBytes_app).
Qed.

Lemma rt_rst_stream stream code :
  frame_ok (FRstStream stream code) -> roundtrips (FRstStream stream code).
Proof.
  intros (Hs & Hc). plain_frame (be_bytes 4 (ErrorCode_index code)); try done; try lia.
  - intros queue; eexists; cbn [writeFrame]; unfold writeRstStream. hdr.
    by rewrite <- !app_assoc.
  - intros rest. unfold parseRstStream; simpl. rewrite (proj2 (Z.eqb_neq stream 0)) by lia.
    by rewrite (pbind_ok _ _ _ code rest) by (by apply parseErrorCode_app).
Qed.

Lemma zlen_settings l : zlen (concat (settingBytes <$> l)) = zlen l * 6.
Proof.
  induction l as [|x l IH]; [done|]. cbn [fmap list_fmap concat]. rewrite zlen_app, IH.
  unfold settingBytes. rewrite zlen_app, !zlen_be. unfold zlen; simpl; lia.
Qed.

Lemma rt_settings l : frame_ok (FSettings l) -> roundtrips (FSettings l).
Proof.
  intros (Hl & Hn). zpos. plain_frame (concat (settingBytes <$> l)); try done; try lia.
  - apply zlen_settings.
  - intros queue; eexists; cbn [writeFrame]; unfold writeSettings.
    rewrite (u32_id (zlen l * 6)) by ilia. hdr. by rewrite <- !app_assoc.
  - intros rest. unfold parseSettings. cbn [headerOf fh_stream fh_flags fh_length].
    rewrite Z.mod_mul, Z.div_mul by lia. simpl.
    rewrite (pbind_ok _ _ _ l rest); [done|]. unfold zlen. rewrite Nat2Z.id.
    by apply parseSettingsLoop_app.
Qed.

Lemma rt_settings_ack : roundtrips FSettingsAck.
Proof.
  plain_frame (@nil Z); try done; try lia.
  intros queue; eexists; cbn [writeFrame]; unfold writeSettingsAck. by hdr.
Qed.

Lemma rt_ping d ack : frame_ok (FPing d ack) -> roundtrips (FPing d ack).
Proof.
  intros Hd. simpl in Hd. plain_frame d; try done; try lia; try by destruct ack.
  - intros queue; eexists; cbn [writeFrame]; unfold writePing.
    rewrite writeFrameHeader_eq by (destruct ack; hok). simpl. by rewrite <- !app_assoc.
  - intros rest. unfold parsePing; simpl.
    by rewrite (pbind_ok _ _ _ d rest) by (by apply readBytes_app).
Qed.

Lemma rt_goaway last code d : frame_ok (FGoaway last code d) -> roundtrips (FGoaway last code d).
Proof.
  intros (Hl & Hc & Hn). assert (0 <= zlen (default [] d)) by (unfold zlen; lia).
  plain_frame (be_bytes 4 last ++ be_bytes 4 (ErrorCode_index code) ++ default [] d);
    try done; try lia.
  - rewrite !zlen_app, !zlen_be. lia.
  - intros queue; eexists; cbn [writeFrame]; unfold writeGoaway.
    rewrite (u32_id (zlen (default [] d))) by ilia.
    unfold kFrameGoawaySize. rewrite (u32_id (8 + _)) by ilia. hdr. by rewrite <- !app_assoc.
  - intros rest. unfold parseGoaway. cbn [headerOf fh_stream fh_flags fh_length].
    unfold kFrameGoawaySize. rewrite (proj2 (Z.ltb_ge _ _)) by lia. simpl negb. cbv iota.
    rewrite <- !app_assoc.
    assert (Hp : parseTrailing (8 + zlen (default [] d) - 8) (default [] d ++ rest) = POk (nonempty d) rest).
    { replace (8 + zlen (default [] d) - 8) with (zlen (default [] d)) by lia.
      apply parseTrailing_app. }
    rewrite (pbind_ok _ _ _ (last, code, nonempty d) rest); [done|].
    rewrite (pbind_ok _ _ _ last (be_bytes 4 (ErrorCode_index code) ++ default [] d ++ rest))
      by (rewrite parseUint31_app by ilia; by rewrite Z.mod_small by lia).
    rewrite (pbind_ok _ _ _ code (default [] d ++ rest)) by (by apply parseErrorCode_app).
    by rewrite (pbind_ok _ _ _ (nonempty d) rest Hp).
Qed.

Lemma rt_window_update stream amount :
  frame_ok (FWindowUpdate stream amount) -> roundtrips (FWindowUpdate stream amount).
Proof.
  intros (Hs & Ha). plain_frame (be_bytes 4 amount); try done; try lia.
  - intros queue; eexists; cbn [writeFrame]; unfold writeWindowUpdate. hdr.
    by rewrite <- !app_assoc.
  - intros rest. unfold parseWindowUpdate. cbn [headerOf fh_length].
    change (negb (4 =? kFrameWindowUpdateSize)) with false. cbv iota.
    by rewrite (pbind_ok _ _ _ amount rest)
      by (rewrite parseUint31_app by ilia; by rewrite Z.mod_small by lia).
Qed.

Lemma rt_altsvc stream a : frame_ok (FAltSvc stream a) -> roundtrips (FAltSvc stream a).
Proof.
  destruct a as [age prt pro hst org]; cbn [frame_ok maxAge port protocol host origin].
  intros (Hs & Hm & Hp & Hpl & Hhl & Hn). zpos.
  plain_frame (be_bytes 4 age ++ be_bytes 2 prt ++ be_bytes 1 (zlen pro) ++ pro ++
               be_bytes 1 (zlen hst) ++ hst ++ org); try done; cbn [protocol host origin]; try lia.
  - rewrite !zlen_app, !zlen_be. lia.
  - intros queue; eexists; cbn [writeFrame]; unfold writeAltSvc; cbn [protocol host origin maxAge port].
    unfold kFrameAltSvcSizeBase.
    rewrite (u32_id (_ + 8)), (u8_id (zlen pro)), (u8_id (zlen hst)) by ilia.
    hdr. by rewrite <- !app_assoc.
  - intros rest. unfold parseAltSvc. cbn [headerOf fh_length protocol host origin].
    unfold kFrameAltSvcSizeBase. rewrite (proj2 (Z.ltb_ge _ 8)) by lia. rewrite <- !app_assoc.
    rewrite (pbind_ok _ _ _ (mkAltSvc age prt pro hst org) rest); [done|].
    erewrite (pbind_ok _ _ _ age) by (apply readBE_app; exact Hm).
    erewrite (pbind_ok _ _ _ prt) by (apply readBE_app; exact Hp).
    erewrite (pbind_ok _ _ _ (zlen pro)) by (apply readBE_app; simpl; lia).
    rewrite (proj2 (Z.ltb_ge _ (8 + zlen pro))) by lia.
    erewrite (pbind_ok _ _ _ pro) by (by apply readBytes_app).
    erewrite (pbind_ok _ _ _ (zlen hst)) by (apply readBE_app; simpl; lia).
    rewrite (proj2 (Z.ltb_ge _ (8 + zlen pro + zlen hst))) by lia.
    erewrite (pbind_ok _ _ _ hst) by (by apply readBytes_app).
    erewrite (pbind_ok _ _ _ org) by (apply readBytes_app; lia). done.
Qed.

(** CERTIFICATE_REQUEST and CERTIFICATE share their body. *)
Lemma parse_id_trailing id o r :
  is_u16 id ->
  (i ← readBE (E:=ErrorCode) 2; a ← parseTrailing (2 + zlen (default [] o) - 2); mret (i, a))
    (be_bytes 2 id ++ default [] o ++ r) = POk (id, nonempty o) r.
Proof.
  intros Hi. erewrite (pbind_ok _ _ _ id) by (apply readBE_app; exact Hi).
  replace (2 + zlen (default [] o) - 2) with (zlen (default [] o)) by lia.
  by rewrite (pbind_ok _ _ _ (nonempty o) r) by apply parseTrailing_app.
Qed.

Lemma rt_certificate_request id o :
  frame_ok (FCertificateRequest id o) -> roundtrips (FCertificateRequest id o).
Proof.
  intros (Hi & Hn). assert (0 <= zlen (default [] o)) by (unfold zlen; lia).
  plain_frame (be_bytes 2 id ++ default [] o); try done; try lia.
  - rewrite zlen_app, zlen_be. lia.
  - intros queue; eexists; cbn [writeFrame]; unfold writeCertificateRequest,
      kFrameCertificateRequestSizeBase. rewrite (u32_id (2 + _)) by ilia. hdr.
    by rewrite <- !app_assoc.
  - intros rest. unfold parseCertificateRequest. cbn [headerOf fh_length fh_stream].
    unfold kFrameCertificateRequestSizeBase. rewrite (proj2 (Z.ltb_ge _ 2)) by lia.
    rewrite Z.eqb_refl. cbn [negb]. rewrite <- app_assoc.
    by rewrite (pbind_ok _ _ _ _ _ (parse_id_trailing id o rest Hi)).
Qed.

Lemma rt_certificate id o tbc :
  frame_ok (FCertificate id o tbc) -> roundtrips (FCertificate id o tbc).
Proof.
  intros (Hi & Hn). assert (0 <= zlen (default [] o)) by (unfold zlen; lia).
  plain_frame (be_bytes 2 id ++ default [] o); try done; try lia; try by destruct tbc.
  - rewrite zlen_app, zlen_be. lia.
  - intros queue; eexists; cbn [writeFrame]; unfold writeCertificate, kFrameCertificateSizeBase.
    rewrite (u32_id (2 + _)) by ilia.
    rewrite writeFrameHeader_eq by (destruct tbc; hok). cbn [mbind option_bind].
    by rewrite <- !app_assoc.
  - intros rest. unfold parseCertificate. cbn [headerOf fh_length fh_stream].
    unfold kFrameCertificateSizeBase. rewrite (proj2 (Z.ltb_ge _ 2)) by lia.
    rewrite Z.eqb_refl. cbn [negb]. rewrite <- app_assoc.
    by rewrite (pbind_ok _ _ _ _ _ (parse_id_trailing id o rest Hi)).
Qed.

Lemma rt_priority stream pri : frame_ok (FPriority stream pri) -> roundtrips (FPriority stream pri).
Proof.
  intros (Hs & Hp) queue rest.
  assert (Hok : header_ok 5 FrameType.PRIORITY 0 stream None (Some pri))
    by (unfold header_ok, extraLength, padding_ok; split_and!; try done; simpl; lia).
  do 2 eexists. split_and!.
  - cbn [writeFrame]. unfold writePriority, kFramePrioritySize. rewrite writeFrameHeader_eq by done.
    cbn [mbind option_bind]. reflexivity.
  - rewrite app_nil_r. unfold zlen. by rewrite length_wireHeader.
  - rewrite app_nil_r. eapply parseFrame_wire; [done|reflexivity|reflexivity|].
    unfold parsePriority. cbn [headerOf fh_length fh_stream].
    rewrite (proj2 (Z.eqb_neq stream 0)) by lia.
    change (negb (5 =? kFramePrioritySize)) with false. cbv iota.
    by rewrite (pbind_ok _ _ _ pri rest) by (by apply parsePriorityCommon_app).
Qed.

(** *** Frames with padding *)

Lemma zlen_padZeros padding : padding_ok padding -> zlen (padZeros padding) = padLen padding.
Proof.
  intros H. unfold zlen, padZeros. rewrite length_replicate.
  destruct padding; simpl in *; unfold padLen; simpl; ilia.
Qed.

Lemma padExtra_eq padding :
  padExtra padding = padLen padding + (if padding is Some _ then 1 else 0).
Proof. by destruct padding. Qed.

Lemma paddingLengthByte_eq len stream type flags padding :
  truth (Z.land flags Flags.PADDED) = bool_decide (is_Some padding) -> padding_ok padding ->
  u16 (padLen padding + paddingLengthByte (mkFrameHeader len stream type flags)) = padExtra padding.
Proof.
  intros H Hp. unfold paddingLengthByte, frameHasPadding; simpl. rewrite H.
  destruct padding; simpl in *; unfold padLen; simpl; [|done]. ilia.
Qed.

Lemma rt_data stream data padding es :
  frame_ok (FData stream data padding es) -> roundtrips (FData stream data padding es).
Proof.
  intros (Hs & Hp & Hn) queue rest. zpos.
  assert (Hx : extraLength FrameType.DATA padding None = padExtra padding) by by destruct padding.
  assert (Hok : header_ok (zlen data) FrameType.DATA (flag es Flags.END_STREAM) stream padding None)
    by (unfold header_ok; rewrite Hx; split_and!; try done; try lia; by destruct es).
  assert (Hfl : wireFlags (flag es Flags.END_STREAM) padding =
                Z.lor (flag es Flags.END_STREAM) (padded padding)) by (by destruct es, padding).
  assert (Hpf : truth (Z.land (Z.lor (flag es Flags.END_STREAM) (padded padding)) Flags.PADDED)
                = bool_decide (is_Some padding)) by (by destruct es, padding).
  do 2 eexists. split_and!.
  - cbn [writeFrame]. unfold writeData. rewrite (u32_id (zlen data)) by (destruct padding; simpl in *; ilia).
    rewrite writeFrameHeader_eq by done. cbn [mbind option_bind].
    rewrite writePaddingBytes_eq by done. rewrite <- !app_assoc. reflexivity.
  - rewrite !zlen_app, zlen_padZeros by done. rewrite zlen_wireHeader.
    cbn [headerOf fh_length]. rewrite padExtra_eq. unfold kFrameHeaderSize.
    destruct padding; simpl; lia.
  - rewrite <- !app_assoc. eapply parseFrame_wire; [done| |reflexivity|].
    { cbn [headerOf]. by rewrite Hx, Hfl. }
    unfold parseData. cbn [headerOf fh_stream priorityBytes app].
    rewrite (proj2 (Z.eqb_neq stream 0)) by lia.
    rewrite (pbind_ok _ _ _ (data, padExtra padding) rest); [done|].
    rewrite (pbind_ok _ _ _ (padLen padding, zlen data) (data ++ padZeros padding ++ rest))
      by (apply parsePadding_wire; [lia|done|exact Hpf]).
    cbv iota beta.
    rewrite (pbind_ok _ _ _ data (padZeros padding ++ rest)) by (by apply readBytes_app).
    rewrite (pbind_ok _ _ _ tt rest) by apply skipPadding_zeros.
    unfold mret, parser_ret. by rewrite paddingLengthByte_eq.
Qed.

Lemma rt_headers stream priority block padding es eh :
  frame_ok (FHeaders stream priority block padding es eh) ->
  roundtrips (FHeaders stream priority block padding es eh).
Proof.
  intros (Hs & Hp & Hpr & Hn) queue rest. zpos.
  set (fl := blockFlags priority es eh).
  assert (Hx : extraLength FrameType.HEADERS padding priority
               = priorityExtra priority + padExtra padding) by by destruct padding, priority.
  assert (Hpe : 0 <= priorityExtra priority <= 5) by (by destruct priority).
  assert (Hok : header_ok (zlen block) FrameType.HEADERS fl stream padding priority)
    by (unfold header_ok; rewrite Hx; split_and!; try done; try lia; by destruct priority, es, eh).
  assert (Hfl : wireFlags fl padding = Z.lor fl (padded padding))
    by (by destruct priority, es, eh, padding).
  assert (Hpf : truth (Z.land (Z.lor fl (padded padding)) Flags.PADDED)
                = bool_decide (is_Some padding)) by (by destruct priority, es, eh, padding).
  assert (Hprf : truth (Z.land (Z.lor fl (padded padding)) Flags.PRIORITY)
                = bool_decide (is_Some priority)) by (by destruct priority, es, eh, padding).
  do 2 eexists. split_and!.
  - cbn [writeFrame]. unfold writeHeaders. fold (blockFlags priority es eh). fold fl.
    rewrite (u32_id (zlen block)) by (destruct padding; simpl in *; ilia).
    rewrite <- (app_nil_r (room _)), writeFrameHeaderBuf_eq; [|done|].
    2: { unfold room. rewrite length_replicate, length_wireHeader. by destruct padding, priority. }
    cbn [mbind option_bind]. rewrite writePaddingBytes_eq, app_nil_r by done. reflexivity.
  - rewrite !zlen_app, zlen_padZeros by done. rewrite zlen_wireHeader.
    cbn [headerOf fh_length]. rewrite padExtra_eq.
    unfold kFrameHeaderSize, priorityExtra, kFramePrioritySize. destruct padding, priority; simpl; lia.
  - rewrite <- !app_assoc. eapply parseFrame_wire; [done| |reflexivity|].
    { cbn [headerOf]. by rewrite Hx, Hfl. }
    unfold parseHeaders. cbn [headerOf fh_stream].
    rewrite (proj2 (Z.eqb_neq stream 0)) by lia.
    rewrite (pbind_ok _ _ _ (priority, block) rest); [done|].
    rewrite Z.add_assoc.
    erewrite (pbind_ok _ _ _ (padLen padding, zlen block + priorityExtra priority))
      by (apply parsePadding_wire; [lia|done|exact Hpf]). cbv iota beta.
    erewrite (pbind_ok _ _ _ (priority, zlen block))
      by (apply parseOptPriority_wire; [lia|done|exact Hprf]). cbv iota beta.
    rewrite (pbind_ok _ _ _ block (padZeros padding ++ rest)) by (by apply readBytes_app).
    by rewrite (pbind_ok _ _ _ tt rest) by apply skipPadding_zeros.
Qed.

(** The room of EX_HEADERS and PUSH_PROMISE: the frame header, then four bytes
    for a stream id that the writer stores behind it. *)
Lemma write_room_with_id n length type flags stream padding priority id off :
  header_ok length type flags stream padding priority ->
  off = List.length (wireHeader length type flags stream padding priority) ->
  Z.to_nat n = (off + 4)%nat ->
  ('(header, frameLen) ← writeFrameHeaderBuf (room n) length type flags stream padding priority;
   header ← overwrite header off (be_bytes 4 id); Some (header, frameLen))
  = Some (wireHeader length type flags stream padding priority ++ be_bytes 4 id, length).
Proof.
  intros Hok -> Hn. unfold room. rewrite Hn, replicate_add.
  rewrite writeFrameHeaderBuf_eq by (by rewrite ?length_replicate). cbn [mbind option_bind].
  rewrite <- (app_nil_r (replicate 4 0)).
  rewrite overwrite_at by (by rewrite ?length_be_bytes). by rewrite app_nil_r.
Qed.

Lemma truth_odd z : truth (Z.land z 0x1) = bool_decide (z mod 2 = 1).
Proof.
  rewrite (land_mask z 1 1) by done. change (2 ^ 1) with 2. unfold truth.
  case_bool_decide as H; pose proof (Z.mod_pos_bound z 2).
  - by rewrite H.
  - assert (z mod 2 = 0) as -> by lia. done.
Qed.

Lemma rt_ex_headers stream ex priority block padding es eh :
  frame_ok (FExHeaders stream ex priority block padding es eh) ->
  roundtrips (FExHeaders stream ex priority block padding es eh).
Proof.
  destruct ex as [cs uni]; cbn [frame_ok controlStream].
  intros (Hs & Hp & Hpr & Hn & Hcs & Hodd) queue rest. zpos.
  set (fl := Z.lor (blockFlags priority es eh) (flag uni Flags.UNIDIRECTIONAL)).
  assert (Hx : extraLength FrameType.EX_HEADERS padding priority
               = priorityExtra priority + padExtra padding) by by destruct padding, priority.
  assert (Hpe : 0 <= priorityExtra priority <= 5) by (by destruct priority).
  assert (Hok : header_ok (zlen block + 4) FrameType.EX_HEADERS fl stream padding priority)
    by (unfold header_ok; rewrite Hx; split_and!; try done; try lia; by destruct priority, es, eh, uni).
  assert (Hfl : wireFlags fl padding = Z.lor fl (padded padding))
    by (by destruct priority, es, eh, padding, uni).
  assert (Hpf : truth (Z.land (Z.lor fl (padded padding)) Flags.PADDED)
                = bool_decide (is_Some padding)) by (by destruct priority, es, eh, padding, uni).
  assert (Hprf : truth (Z.land (Z.lor fl (padded padding)) Flags.PRIORITY)
                = bool_decide (is_Some priority)) by (by destruct priority, es, eh, padding, uni).
  assert (Huf : truth (Z.land (Z.lor fl (padded padding)) Flags.UNIDIRECTIONAL) = uni)
    by (by destruct priority, es, eh, padding, uni).
  do 2 eexists. split_and!.
  - cbn [writeFrame]. unfold writeExHeaders. cbn [unidirectional controlStream].
    fold (blockFlags priority es eh). fold fl. unfold kFrameStreamIDSize.
    rewrite (u32_id (zlen block + 4)), (u32_id cs) by (destruct padding; simpl in *; ilia).
    pose proof (write_room_with_id
      (calculatePreHeaderBlockSize false true (bool_decide (is_Some priority))
         (bool_decide (is_Some padding))) _ _ _ _ _ _ cs _ Hok eq_refl) as Hw.
    rewrite length_wireHeader in Hw. specialize (Hw ltac:(by destruct padding, priority)).
    destruct (writeFrameHeaderBuf _ _ _ _ _ _ _) as [[h fl']|]; [|done].
    cbn [mbind option_bind] in *.
    replace (Z.to_nat _) with (9 + (if padding is Some _ then 1 else 0)
      + (if priority is Some _ then 5 else 0))%nat by (by destruct padding, priority).
    destruct (overwrite _ _ _); [|done]. cbn [mbind option_bind] in *. simplify_eq.
    rewrite writePaddingBytes_eq, <- !app_assoc by done. reflexivity.
  - rewrite !zlen_app, zlen_padZeros by done. rewrite zlen_wireHeader, zlen_be.
    cbn [headerOf fh_length]. rewrite padExtra_eq.
    unfold kFrameHeaderSize, priorityExtra, kFramePrioritySize. destruct padding, priority; simpl; lia.
  - rewrite <- !app_assoc. eapply parseFrame_wire; [done| |reflexivity|].
    { cbn [headerOf unidirectional]. fold fl. by rewrite Hx, Hfl. }
    unfold parseExHeaders. cbn [headerOf fh_stream fh_flags unidirectional]. fold fl. rewrite Huf.
    rewrite (proj2 (Z.eqb_neq stream 0)) by lia.
    rewrite (pbind_ok _ _ _ (mkExAttributes cs uni, priority, block) rest); [done|].
    rewrite Z.add_assoc.
    erewrite (pbind_ok _ _ _ (padLen padding, zlen block + 4 + priorityExtra priority))
      by (apply parsePadding_wire; [lia|done|exact Hpf]). cbv iota beta.
    erewrite (pbind_ok _ _ _ (priority, zlen block + 4))
      by (apply parseOptPriority_wire; [lia|done|exact Hprf]). cbv iota beta.
    unfold kFrameStreamIDSize. rewrite (proj2 (Z.ltb_ge _ 4)) by lia.
    rewrite (pbind_ok _ _ _ cs (block ++ padZeros padding ++ rest))
      by (rewrite parseUint31_app by ilia; by rewrite Z.mod_small by lia).
    rewrite truth_odd, bool_decide_eq_true_2 by done. cbn [negb].
    rewrite (pbind_ok _ _ _ block (padZeros padding ++ rest)) by (apply readBytes_app; lia).
    by rewrite (pbind_ok _ _ _ tt rest) by apply skipPadding_zeros.
Qed.

(** PUSH_PROMISE, without the condition on the padding: written as asked, and
    either read back or refused. *)
Lemma push_promise_wire stream promised block padding eh queue rest :
  0 < stream < 2 ^ 31 -> padding_ok padding -> zlen block + 4 + padExtra padding < 2 ^ 24 ->
  0 < promised < 2 ^ 31 -> promised mod 2 = 0 ->
  let f := FPushPromise stream promised block padding eh in
  exists bytes n,
    writeFrame queue f = Some (queue ++ bytes, n) /\
    zlen bytes = kFrameHeaderSize + fh_length (headerOf f) /\
    parseFrame (bytes ++ rest) =
      (if zlen block <? padLen padding then PErr PROTOCOL_ERROR
       else POk (headerOf f, payloadOf f) rest).
Proof.
  intros Hs Hp Hn Hpr Heven f. zpos.
  set (fl := flag eh Flags.END_HEADERS).
  assert (Hx : extraLength FrameType.PUSH_PROMISE padding None = padExtra padding)
    by by destruct padding.
  assert (Hok : header_ok (zlen block + 4) FrameType.PUSH_PROMISE fl stream padding None)
    by (unfold header_ok; rewrite Hx; split_and!; try done; try lia; by destruct eh).
  assert (Hfl : wireFlags fl padding = Z.lor fl (padded padding)) by (by destruct eh, padding).
  assert (Hpf : truth (Z.land (Z.lor fl (padded padding)) Flags.PADDED)
                = bool_decide (is_Some padding)) by (by destruct eh, padding).
  do 2 eexists. split_and!.
  - cbn [writeFrame f]. unfold writePushPromise, kFramePushPromiseSize. fold fl.
    rewrite (u32_id (zlen block + 4)), (u32_id promised) by (destruct padding; simpl in *; ilia).
    pose proof (write_room_with_id
      (calculatePreHeaderBlockSize true false false
         (bool_decide (is_Some padding))) _ _ _ _ _ _ promised _ Hok eq_refl) as Hw.
    rewrite length_wireHeader in Hw. specialize (Hw ltac:(by destruct padding)).
    destruct (writeFrameHeaderBuf _ _ _ _ _ _ _) as [[h fl']|]; [|done].
    cbn [mbind option_bind] in *.
    replace (Z.to_nat _) with (9 + (if padding is Some _ then 1 else 0) + 0)%nat
      by (by destruct padding).
    destruct (overwrite _ _ _); [|done]. cbn [mbind option_bind] in *. simplify_eq.
    rewrite writePaddingBytes_eq, <- !app_assoc by done. reflexivity.
  - rewrite !zlen_app, zlen_padZeros by done. rewrite zlen_wireHeader, zlen_be.
    cbn [headerOf fh_length f]. rewrite padExtra_eq. unfold kFrameHeaderSize.
    destruct padding; simpl; lia.
  - rewrite <- !app_assoc. unfold parseFrame.
    rewrite (pbind_ok _ _ _ _ _ (parseFrameHeader_wire _ _ _ _ _ _ _ Hok)).
    rewrite Hx, Hfl. fold (headerOf f).
    assert (Hm : parsePushPromise (headerOf f)
        (padBytes padding ++ be_bytes 4 promised ++ block ++ padZeros padding ++ rest) =
      (if zlen block <? padLen padding then PErr PROTOCOL_ERROR else POk (promised, block) rest)).
    { unfold parsePushPromise. cbn [headerOf fh_stream f].
      rewrite (proj2 (Z.eqb_neq stream 0)) by lia.
      erewrite (pbind_ok _ _ _ (padLen padding, zlen block + 4))
        by (apply parsePadding_wire; [lia|done|exact Hpf]). cbv iota beta.
      unfold kFramePushPromiseSize. rewrite (proj2 (Z.ltb_ge _ 4)) by lia.
      rewrite (pbind_ok _ _ _ promised (block ++ padZeros padding ++ rest))
        by (rewrite parseUint31_app by ilia; by rewrite Z.mod_small by lia).
      rewrite truth_odd, bool_decide_eq_false_2, (proj2 (Z.eqb_neq promised 0)) by lia.
      cbn [orb]. replace (zlen block + 4 - 4) with (zlen block) by lia.
      destruct (zlen block <? padLen padding); [done|].
      rewrite (pbind_ok _ _ _ block (padZeros padding ++ rest)) by (by apply readBytes_app).
      by rewrite (pbind_ok _ _ _ tt rest) by apply skipPadding_zeros. }
    change (parsePayload (mkFrameHeader _ _ _ _))
      with (Some ('(s, b) ← parsePushPromise (headerOf f); mret (PPushPromise s b))).
    cbn [priorityBytes app]. unfold mbind, parser_bind. rewrite Hm.
    destruct (zlen block <? padLen padding); done.
Qed.

(** C16. Round trip of the framer: every frame within the bounds of the writers
    is appended to the queue as a nine-byte header and exactly the number of
    bytes its length field announces, and parsing those bytes (whatever follows
    them) consumes exactly the frame and returns the stream, the flags asked for
    and the payload: data and padding, priority, header block, settings, error
    code, stream ids and opaque data; with one exception, which is exact: a
    PUSH_PROMISE whose header block is shorter than its padding is written
    and refused with PROTOCOL_ERROR.  An empty buffer of debug or
    certificate data is read as no buffer. *)
Theorem frame_roundtrip f queue rest :
  frame_ok f ->
  exists bytes n,
    writeFrame queue f = Some (queue ++ bytes, n) /\
    zlen bytes = kFrameHeaderSize + fh_length (headerOf f) /\
    parseFrame (bytes ++ rest) =
      (if refused f then PErr PROTOCOL_ERROR else POk (headerOf f, payloadOf f) rest).
Proof.
  intros Hf. destruct f; [..|destruct Hf as (? & ? & ? & ? & ?); by apply push_promise_wire| | | | | | |];
    cbn [refused]; revert queue rest; match goal with |- context [payloadOf ?g] => change (roundtrips g) end;
    eauto using rt_data, rt_headers, rt_ex_headers, rt_priority, rt_rst_stream, rt_settings,
      rt_settings_ack, rt_ping, rt_goaway, rt_window_update, rt_continuation,
      rt_altsvc, rt_certificate_request, rt_certificate.
Qed.

(** A HEADERS frame, read back, and a PUSH_PROMISE with two bytes of header block in front of
    two bytes of padding, read back, or three, refused. *)
Lemma frame_roundtrip_witness :
  let h := FHeaders 3 (Some (mkPriorityUpdate 1 true 200)) [130; 132] (Some 2) true true in
  let pp padding := FPushPromise 3 2 [130; 132] (Some padding) true in
  (exists bytes n, writeFrame [7] h = Some ([7] ++ bytes, n) /\ zlen bytes = 9 + 10 /\
    parseFrame (bytes ++ [0; 0]) =
      POk (mkFrameHeader 10 3 1 0x2d, PHeaders (Some (mkPriorityUpdate 1 true 200)) [130; 132]) [0; 0]) /\
  (exists bytes n, writeFrame [7] (pp 2) = Some ([7] ++ bytes, n) /\ zlen bytes = 9 + 9 /\
    parseFrame (bytes ++ [0; 0]) = POk (mkFrameHeader 9 3 5 0xc, PPushPromise 2 [130; 132]) [0; 0]) /\
  (exists bytes n, writeFrame [7] (pp 3) = Some ([7] ++ bytes, n) /\ zlen bytes = 9 + 10 /\
    parseFrame (bytes ++ [0; 0]) = PErr PROTOCOL_ERROR).
Proof.
  intros h pp. split_and!; [apply (frame_roundtrip h)|apply (frame_roundtrip (pp 2))|apply (frame_roundtrip (pp 3))];
    unfold h, pp; simpl; unfold zlen; simpl; unfold_ints; split_and?; (lia || done).
Defined.

(** [parsePushPromise] compares the bytes left to the padding after the
    padding was already taken out of them: a PUSH_PROMISE that the framer itself
    wrote, within all the bounds, is refused with PROTOCOL_ERROR whenever its
    header block is shorter than its padding. *)
Theorem push_promise_padding_rejected stream promised block padding eh queue rest :
  0 < stream < 2 ^ 31 -> padding_ok padding -> zlen block + 4 + padExtra padding < 2 ^ 24 ->
  0 < promised < 2 ^ 31 -> promised mod 2 = 0 -> zlen block < padLen padding ->
  exists bytes n,
    writeFrame queue (FPushPromise stream promised block padding eh) = Some (queue ++ bytes, n) /\
    parseFrame (bytes ++ rest) = PErr PROTOCOL_ERROR.
Proof.
  intros Hs Hp Hn Hpr Heven Hlt.
  destruct (push_promise_wire stream promised block padding eh queue rest) as (b & n & Hw & _ & Hr);
    auto. exists b, n. by rewrite (proj2 (Z.ltb_lt _ _)) in Hr by lia.
Qed.

(** The size [writeData] returns leaves out the pad-length byte and the
    padding: it is smaller than the number of bytes written by [padExtra]. *)
Theorem writeData_returns queue data stream padding endStream :
  frame_ok (FData stream data padding endStream) ->
  exists queue' n,
    writeData queue data stream padding endStream = Some (queue', n) /\
    zlen queue' - zlen queue = n + padExtra padding.
Proof.
  intros (Hs & Hp & Hn). zpos.
  assert (Hx : extraLength FrameType.DATA padding None = padExtra padding) by by destruct padding.
  assert (Hok : header_ok (zlen data) FrameType.DATA (flag endStream Flags.END_STREAM) stream
                  padding None)
    by (unfold header_ok; rewrite Hx; split_and!; try done; try lia; by destruct endStream).
  do 2 eexists. split.
  - unfold writeData. rewrite (u32_id (zlen data)) by (destruct padding; simpl in *; ilia).
    rewrite writeFrameHeader_eq by done. cbn [mbind option_bind]. reflexivity.
  - rewrite writePaddingBytes_eq, !zlen_app, zlen_padZeros by done.
    rewrite zlen_wireHeader, padExtra_eq. unfold kFrameHeaderSize. destruct padding; simpl; lia.
Qed.

Lemma writeData_returns_witness :
  exists queue' n, writeData [] [104;105;33] 1 (Some 4) true = Some (queue', n) /\
    zlen queue' - zlen ([] : list Z) = n + 5.
Proof.
  apply (writeData_returns [] [104;105;33] 1 (Some 4) true).
  simpl; unfold zlen; simpl; unfold_ints; lia.
Defined.

(** ** The parsers stay inside the frame *)

Lemma within_skipPadding n k :
  0 <= k <= n -> within (skipPadding k) n (fun _ m => m = n - k).
Proof.
  intros Hk l Hl Hlen. unfold skipPadding. unfold zlen in Hlen.
  case_bool_decide; [|done]. rewrite decide_False by lia.
  exists (n - k). split_and!; try lia. f_equal; lia.
Qed.

Lemma within_parseUint31 n :
  4 <= n -> within parseUint31 n (fun z m => m = n - 4).
Proof.
  intros Hn. eapply within_bind; [apply within_readBE; lia|]. simpl. intros z m Hm [-> Hz].
  apply within_ret; lia.
Qed.

Lemma within_parseErrorCode n :
  4 <= n -> within parseErrorCode n (fun _ m => m = n - 4).
Proof.
  intros Hn. eapply within_bind; [apply within_readBE; lia|]. simpl. intros z m Hm [-> Hz].
  destruct (_ >=? _); [apply within_fail|]. destruct (ErrorCode_of z); [|apply within_fail].
  apply within_ret; lia.
Qed.

Lemma within_parsePriorityCommon n :
  5 <= n -> within parsePriorityCommon n (fun _ m => m = n - 5).
Proof.
  intros Hn. eapply within_bind; [apply within_readBE; lia|]. simpl. intros z m Hm [-> Hz].
  eapply within_bind; [apply within_readBE; lia|]. simpl. intros w m' Hm' [-> Hw].
  apply within_ret; lia.
Qed.

(** The budget splits into what is left to parse and the padding behind it. *)
Lemma within_parsePadding h :
  0 <= fh_length h ->
  within (parsePadding h) (fh_length h) (fun '(p, lft) m => 0 <= p /\ 0 <= lft /\ m = lft + p).
Proof.
  intros Hn. unfold parsePadding.
  eapply (within_bind _ _ _ (fun '(p, lft) m => 0 <= p /\ m = lft)).
  - destruct (frameHasPadding h); [|apply within_ret; lia].
    destruct (_ <? 1) eqn:E; [apply within_fail|]. bool_cases.
    eapply within_bind; [apply within_readBE; lia|]. simpl. intros p m Hm [-> Hp].
    apply within_ret; lia.
  - intros [p lft] m Hm [Hp ->]. destruct (_ <? _) eqn:E; [apply within_fail|]. bool_cases.
    apply within_ret; lia.
Qed.

Lemma within_parseOptPriority h lft n :
  0 <= lft <= n ->
  within (parseOptPriority h lft) n (fun '(_, lft') m => 0 <= lft' /\ m - lft' = n - lft).
Proof.
  intros Hl. unfold parseOptPriority, kFramePrioritySize.
  destruct (truth _); [|apply within_ret; lia].
  destruct (_ <? 5) eqn:E; [apply within_fail|]. bool_cases.
  eapply within_bind; [apply within_parsePriorityCommon; lia|]. simpl. intros p m Hm ->.
  apply within_ret; lia.
Qed.

Lemma within_parseTrailing n : 0 <= n -> within (parseTrailing n) n (fun _ m => m = 0).
Proof.
  intros Hn. unfold parseTrailing. destruct (_ >? 0) eqn:E; bool_cases.
  - eapply within_bind; [apply within_readBytes; lia|]. simpl. intros b m Hm [-> Hb].
    apply within_ret; lia.
  - bool_cases. apply within_ret; lia.
Qed.

Lemma within_parseSettingsLoop k n :
  6 * Z.of_nat k = n -> within (parseSettingsLoop k) n (fun _ m => m = 0).
Proof.
  revert n; induction k as [|k IH]; intros n Hn; cbn [parseSettingsLoop].
  - apply within_ret; lia.
  - eapply within_bind; [apply within_readBE; lia|]. simpl. intros i m Hm [-> _].
    eapply within_bind; [apply within_readBE; lia|]. simpl. intros v m Hm' [-> _].
    eapply within_bind; [apply IH; lia|]. simpl. intros r m Hm'' ->. apply within_ret; lia.
Qed.

(** Reading the rest of a padded frame. *)
Lemma within_rest {A} (f : list Z -> A) lft p n :
  0 <= lft -> 0 <= p -> n = lft + p ->
  within (b ← readBytes lft; skipPadding p ≫= fun _ => mret (f b)) n (fun _ m => m = 0).
Proof.
  intros Hl Hp ->. eapply within_bind; [apply within_readBytes; lia|]. simpl. intros b m Hm [-> _].
  eapply within_bind; [apply within_skipPadding; lia|]. simpl. intros _ m Hm' ->.
  apply within_ret; lia.
Qed.

Definition exact {A} (p : parser ErrorCode A) (n : Z) : Prop := within p n (fun _ m => m = 0).

Lemma exact_map {A B} (p : parser ErrorCode A) (f : A -> parser ErrorCode B) n :
  exact p n -> (forall a, exists b, f a = mret b) -> exact (p ≫= f) n.
Proof.
  intros Hp Hf. eapply within_bind; [exact Hp|]. simpl. intros a m Hm ->.
  destruct (Hf a) as [b ->]. apply within_ret; lia.
Qed.

Section exact.
Context (h : FrameHeader) (Hlen : 0 <= fh_length h).

Lemma exact_parseData : exact (parseData h) (fh_length h).
  Proof.
    unfold parseData. destruct (_ =? 0); [apply within_fail|].
    eapply within_bind; [by apply within_parsePadding|]. intros [p lft] m Hm (Hp & Hl & ->).
    by apply within_rest.
  Qed.

Lemma exact_parseHeaders : exact (parseHeaders h) (fh_length h).
  Proof.
    unfold parseHeaders. destruct (_ =? 0); [apply within_fail|].
    eapply within_bind; [by apply within_parsePadding|]. intros [p lft] m Hm (Hp & Hl & ->).
    eapply within_bind; [apply within_parseOptPriority; lia|]. intros [pr lft'] m Hm' (Hl' & He).
    apply within_rest; lia.
  Qed.

Lemma exact_parseExHeaders : exact (parseExHeaders h) (fh_length h).
  Proof.
    unfold parseExHeaders, kFrameStreamIDSize. destruct (_ =? 0); [apply within_fail|].
    eapply within_bind; [by apply within_parsePadding|]. intros [p lft] m Hm (Hp & Hl & ->).
    eapply within_bind; [apply within_parseOptPriority; lia|]. intros [pr lft'] m Hm' (Hl' & He).
    destruct (_ <? 4) eqn:E; [apply within_fail|]. bool_cases.
    eapply within_bind; [apply within_parseUint31; lia|]. simpl. intros cs m' Hm'' ->.
    destruct (negb _); [apply within_fail|]. apply within_rest; lia.
  Qed.

Lemma exact_parsePriority : exact (parsePriority h) (fh_length h).
  Proof.
    unfold parsePriority, kFramePrioritySize. destruct (negb _) eqn:E; [apply within_fail|].
    destruct (_ =? 0); [apply within_fail|]. bool_cases.
    eapply within_weaken; [apply within_parsePriorityCommon; lia|]. simpl. lia.
  Qed.

Lemma exact_parseRstStream : exact (parseRstStream h) (fh_length h).
  Proof.
    unfold parseRstStream, kFrameRstStreamSize. destruct (negb _) eqn:E; [apply within_fail|].
    destruct (_ =? 0); [apply within_fail|]. bool_cases.
    eapply within_weaken; [apply within_parseErrorCode; lia|]. simpl. lia.
  Qed.

Lemma exact_parseSettings : exact (parseSettings h) (fh_length h).
  Proof.
    unfold parseSettings. destruct (negb _); [apply within_fail|].
    destruct (truth _).
    - destruct (negb _) eqn:E; [apply within_fail|]. bool_cases. apply within_ret; lia.
    - destruct (negb _) eqn:E; [apply within_fail|]. bool_cases.
      apply within_parseSettingsLoop. ilia.
  Qed.

Lemma exact_parsePushPromise : exact (parsePushPromise h) (fh_length h).
  Proof.
    unfold parsePushPromise, kFramePushPromiseSize. destruct (_ =? 0); [apply within_fail|].
    eapply within_bind; [by apply within_parsePadding|]. intros [p lft] m Hm (Hp & Hl & ->).
    destruct (_ <? 4) eqn:E; [apply within_fail|]. bool_cases.
    eapply within_bind; [apply within_parseUint31; lia|]. simpl. intros ps m' Hm'' ->.
    destruct (_ || _); [apply within_fail|]. destruct (_ <? p); [apply within_fail|].
    apply within_rest; lia.
  Qed.

Lemma exact_parsePing : exact (parsePing h) (fh_length h).
  Proof.
    unfold parsePing, kFramePingSize. destruct (negb _) eqn:E; [apply within_fail|].
    destruct (negb (fh_stream h =? 0)); [apply within_fail|]. bool_cases.
    eapply within_weaken; [apply within_readBytes; lia|]. simpl. lia.
  Qed.

Lemma exact_parseGoaway : exact (parseGoaway h) (fh_length h).
  Proof.
    unfold parseGoaway, kFrameGoawaySize. destruct (_ <? 8) eqn:E; [apply within_fail|]. bool_cases.
    destruct (negb _); [apply within_fail|].
    eapply within_bind; [apply within_parseUint31; lia|]. simpl. intros s m Hm ->.
    eapply within_bind; [apply within_parseErrorCode; lia|]. simpl. intros c m Hm' ->.
    eapply within_bind.
    - replace (fh_length h - 4 - 4) with (fh_length h - 8) by lia.
      apply within_parseTrailing; lia.
    - simpl. intros d m Hm'' ->. apply within_ret; lia.
  Qed.

Lemma exact_parseWindowUpdate : exact (parseWindowUpdate h) (fh_length h).
  Proof.
    unfold parseWindowUpdate, kFrameWindowUpdateSize. destruct (negb _) eqn:E; [apply within_fail|].
    bool_cases. eapply within_weaken; [apply within_parseUint31; lia|]. simpl. lia.
  Qed.

Lemma exact_parseContinuation : exact (parseContinuation h) (fh_length h).
  Proof.
    unfold parseContinuation. destruct (_ =? 0); [apply within_fail|].
    eapply within_weaken; [apply within_readBytes; lia|]. simpl. lia.
  Qed.

Lemma exact_parseAltSvc : exact (parseAltSvc h) (fh_length h).
  Proof.
    unfold parseAltSvc, kFrameAltSvcSizeBase. destruct (_ <? 8) eqn:E; [apply within_fail|]. bool_cases.
    eapply within_bind; [apply within_readBE; lia|]. simpl. intros a m Hm [-> _].
    eapply within_bind; [apply within_readBE; lia|]. simpl. intros pt m Hm1 [-> _].
    eapply within_bind; [apply within_readBE; lia|]. simpl. intros pl m Hm2 [-> Hpl].
    destruct (_ <? 8 + pl) eqn:E1; [apply within_fail|]. bool_cases.
    eapply within_bind; [apply within_readBytes; lia|]. simpl. intros pr m Hm3 [-> _].
    eapply within_bind; [apply within_readBE; lia|]. simpl. intros hl m Hm4 [-> Hhl].
    destruct (_ <? 8 + pl + hl) eqn:E2; [apply within_fail|]. bool_cases.
    eapply within_bind; [apply within_readBytes; lia|]. simpl. intros ho m Hm5 [-> _].
    eapply within_bind; [apply within_readBytes; lia|]. simpl. intros og m Hm6 [-> _].
    apply within_ret; lia.
  Qed.

Lemma exact_parseCertificateRequest : exact (parseCertificateRequest h) (fh_length h).
  Proof.
    unfold parseCertificateRequest, kFrameCertificateRequestSizeBase.
    destruct (_ <? 2) eqn:E; [apply within_fail|]. bool_cases. destruct (negb _); [apply within_fail|].
    eapply within_bind; [apply within_readBE; lia|]. simpl. intros i m Hm [-> _].
    eapply within_bind; [apply within_parseTrailing; lia|]. simpl. intros d m Hm' ->.
    apply within_ret; lia.
  Qed.

Lemma exact_parseCertificate : exact (parseCertificate h) (fh_length h).
  Proof.
    unfold parseCertificate, kFrameCertificateSizeBase.
    destruct (_ <? 2) eqn:E; [apply within_fail|]. bool_cases. destruct (negb _); [apply within_fail|].
    eapply within_bind; [apply within_readBE; lia|]. simpl. intros i m Hm [-> _].
    eapply within_bind; [apply within_parseTrailing; lia|]. simpl. intros d m Hm' ->.
    apply within_ret; lia.
  Qed.
End exact.

Lemma exact_parsePayload h p :
  0 <= fh_length h -> parsePayload h = Some p -> exact p (fh_length h).
Proof.
  intros Hl. unfold parsePayload. cbv zeta.
  repeat match goal with |- context [if ?b then _ else _] => destruct b end;
    intros; simplify_eq;
    (eapply exact_map;
      [eauto using exact_parseData, exact_parseHeaders, exact_parseExHeaders, exact_parsePriority,
         exact_parseRstStream, exact_parseSettings, exact_parsePushPromise, exact_parsePing,
         exact_parseGoaway, exact_parseWindowUpdate, exact_parseContinuation, exact_parseAltSvc,
         exact_parseCertificateRequest, exact_parseCertificate|]);
    intros; repeat match goal with x : _ * _ |- _ => destruct x end; eauto.
Qed.

(** C17. Memory safety and termination of the ingress parsers: given the bytes
    the frame header announces (which [HTTP2Codec] waits for), no parser of a
    frame payload runs past the end of the cursor (an exception that [noexcept]
    would turn into a crash) and none loops; each either reports an error code
    or consumes exactly the payload. *)
Theorem parsers_consume_exactly h p l :
  0 <= fh_length h -> parsePayload h = Some p -> bytes_ok l -> fh_length h <= zlen l ->
  (exists v, p l = POk v (drop (Z.to_nat (fh_length h)) l)) \/ (exists e, p l = PErr e).
Proof.
  intros Hl Hp Hb Hlen. pose proof (exact_parsePayload h p Hl Hp l Hb Hlen) as H.
  destruct (p l) as [v r|e| |]; [|eauto|done|done].
  destruct H as (m & Hm & -> & ->). left. rewrite Z.sub_0_r. eauto.
Qed.

Lemma parsers_consume_exactly_witness :
  exists p, parsePayload (mkFrameHeader 6 0 FrameType.SETTINGS 0) = Some p /\
  ((exists v, p [0; 4; 0; 0; 255; 255; 9] = POk v [9]) \/
   (exists e, p [0; 4; 0; 0; 255; 255; 9] = PErr e)).
Proof.
  eexists. split; [reflexivity|].
  apply (parsers_consume_exactly (mkFrameHeader 6 0 FrameType.SETTINGS 0)
    (l ← parseSettings (mkFrameHeader 6 0 FrameType.SETTINGS 0); mret (PSettings l))
    [0; 4; 0; 0; 255; 255; 9]); [simpl; lia|reflexivity| |].
  - repeat constructor; unfold_ints; lia.
  - unfold zlen; simpl; lia.
Defined.

End HTTP2Framer.
