(* ===== verification/Huffman.v ===== *)
(** * Huffman coding of header literals
    ([src/proxygen/proxygen/lib/http/codec/compress/Huffman.cpp])

    [HuffTree] holds the static code of RFC 7541, appendix B, in two tables
    (the code of a byte, aligned at its least significant bit, and its length)
    and a decoding table of 46 "super nodes" of 256 entries, which the
    constructor fills: an entry is a leaf (a byte and how many of the 8 bits of
    the key it uses) or refers to another super node.  [encode] packs the codes
    into 32-bit words; [decode] looks the next 8 bits up.

    The proofs read the two routines as functions on bit strings.  The decoding
    table is checked once, by evaluation, against the two code tables
    ([tree_ok]); everything else follows by induction.  The results are that
    [decode] inverts [encode], that the encoder writes as many bytes as
    [getEncodeSize] announces, and that [decode] returns on every input without
    leaving its tables. *)

From S2P Require Import Prelude.

Module Huffman.

Definition kTableSize : Z := 256.

Definition s_codesTable : list Z :=
  [
   0x1ff8; 0x7fffd8; 0xfffffe2; 0xfffffe3; 0xfffffe4; 0xfffffe5; 0xfffffe6; 0xfffffe7;
   0xfffffe8; 0xffffea; 0x3ffffffc; 0xfffffe9; 0xfffffea; 0x3ffffffd; 0xfffffeb; 0xfffffec;
   0xfffffed; 0xfffffee; 0xfffffef; 0xffffff0; 0xffffff1; 0xffffff2; 0x3ffffffe; 0xffffff3;
   0xffffff4; 0xffffff5; 0xffffff6; 0xffffff7; 0xffffff8; 0xffffff9; 0xffffffa; 0xffffffb;
   0x14; 0x3f8; 0x3f9; 0xffa; 0x1ff9; 0x15; 0xf8; 0x7fa;
   0x3fa; 0x3fb; 0xf9; 0x7fb; 0xfa; 0x16; 0x17; 0x18;
   0x0; 0x1; 0x2; 0x19; 0x1a; 0x1b; 0x1c; 0x1d;
   0x1e; 0x1f; 0x5c; 0xfb; 0x7ffc; 0x20; 0xffb; 0x3fc;
   0x1ffa; 0x21; 0x5d; 0x5e; 0x5f; 0x60; 0x61; 0x62;
   0x63; 0x64; 0x65; 0x66; 0x67; 0x68; 0x69; 0x6a;
   0x6b; 0x6c; 0x6d; 0x6e; 0x6f; 0x70; 0x71; 0x72;
   0xfc; 0x73; 0xfd; 0x1ffb; 0x7fff0; 0x1ffc; 0x3ffc; 0x22;
   0x7ffd; 0x3; 0x23; 0x4; 0x24; 0x5; 0x25; 0x26;
   0x27; 0x6; 0x74; 0x75; 0x28; 0x29; 0x2a; 0x7;
   0x2b; 0x76; 0x2c; 0x8; 0x9; 0x2d; 0x77; 0x78;
   0x79; 0x7a; 0x7b; 0x7ffe; 0x7fc; 0x3ffd; 0x1ffd; 0xffffffc;
   0xfffe6; 0x3fffd2; 0xfffe7; 0xfffe8; 0x3fffd3; 0x3fffd4; 0x3fffd5; 0x7fffd9;
   0x3fffd6; 0x7fffda; 0x7fffdb; 0x7fffdc; 0x7fffdd; 0x7fffde; 0xffffeb; 0x7fffdf;
   0xffffec; 0xffffed; 0x3fffd7; 0x7fffe0; 0xffffee; 0x7fffe1; 0x7fffe2; 0x7fffe3;
   0x7fffe4; 0x1fffdc; 0x3fffd8; 0x7fffe5; 0x3fffd9; 0x7fffe6; 0x7fffe7; 0xffffef;
   0x3fffda; 0x1fffdd; 0xfffe9; 0x3fffdb; 0x3fffdc; 0x7fffe8; 0x7fffe9; 0x1fffde;
   0x7fffea; 0x3fffdd; 0x3fffde; 0xfffff0; 0x1fffdf; 0x3fffdf; 0x7fffeb; 0x7fffec;
   0x1fffe0; 0x1fffe1; 0x3fffe0; 0x1fffe2; 0x7fffed; 0x3fffe1; 0x7fffee; 0x7fffef;
   0xfffea; 0x3fffe2; 0x3fffe3; 0x3fffe4; 0x7ffff0; 0x3fffe5; 0x3fffe6; 0x7ffff1;
   0x3ffffe0; 0x3ffffe1; 0xfffeb; 0x7fff1; 0x3fffe7; 0x7ffff2; 0x3fffe8; 0x1ffffec;
   0x3ffffe2; 0x3ffffe3; 0x3ffffe4; 0x7ffffde; 0x7ffffdf; 0x3ffffe5; 0xfffff1; 0x1ffffed;
   0x7fff2; 0x1fffe3; 0x3ffffe6; 0x7ffffe0; 0x7ffffe1; 0x3ffffe7; 0x7ffffe2; 0xfffff2;
   0x1fffe4; 0x1fffe5; 0x3ffffe8; 0x3ffffe9; 0xffffffd; 0x7ffffe3; 0x7ffffe4; 0x7ffffe5;
   0xfffec; 0xfffff3; 0xfffed; 0x1fffe6; 0x3fffe9; 0x1fffe7; 0x1fffe8; 0x7ffff3;
   0x3fffea; 0x3fffeb; 0x1ffffee; 0x1ffffef; 0xfffff4; 0xfffff5; 0x3ffffea; 0x7ffff4;
   0x3ffffeb; 0x7ffffe6; 0x3ffffec; 0x3ffffed; 0x7ffffe7; 0x7ffffe8; 0x7ffffe9; 0x7ffffea;
   0x7ffffeb; 0xffffffe; 0x7ffffec; 0x7ffffed; 0x7ffffee; 0x7ffffef; 0x7fffff0; 0x3ffffee].

Definition s_bitsTable : list Z :=
  [
   13; 23; 28; 28; 28; 28; 28; 28; 28; 24; 30; 28; 28; 30; 28; 28; 28; 28; 28;
   28; 28; 28; 30; 28; 28; 28; 28; 28; 28; 28; 28; 28; 6; 10; 10; 12; 13; 6;
   8; 11; 10; 10; 8; 11; 8; 6; 6; 6; 5; 5; 5; 6; 6; 6; 6; 6; 6;
   6; 7; 8; 15; 6; 12; 10; 13; 6; 7; 7; 7; 7; 7; 7; 7; 7; 7; 7;
   7; 7; 7; 7; 7; 7; 7; 7; 7; 7; 7; 7; 8; 7; 8; 13; 19; 13; 14;
   6; 15; 5; 6; 5; 6; 5; 6; 6; 6; 5; 7; 7; 6; 6; 6; 5; 6; 7;
   6; 5; 5; 6; 7; 7; 7; 7; 7; 15; 11; 14; 13; 28; 20; 22; 20; 20; 22;
   22; 22; 23; 22; 23; 23; 23; 23; 23; 24; 23; 24; 24; 22; 23; 24; 23; 23; 23;
   23; 21; 22; 23; 22; 23; 23; 24; 22; 21; 20; 22; 22; 23; 23; 21; 23; 22; 22;
   24; 21; 22; 23; 23; 21; 21; 22; 21; 23; 22; 23; 23; 20; 22; 22; 22; 23; 22;
   22; 23; 26; 26; 20; 19; 22; 23; 22; 25; 26; 26; 26; 27; 27; 26; 24; 25; 19;
   21; 26; 27; 27; 26; 27; 24; 21; 21; 26; 26; 28; 27; 27; 27; 20; 24; 20; 21;
   22; 21; 21; 23; 22; 22; 25; 25; 24; 24; 26; 23; 26; 27; 26; 26; 27; 27; 27;
   27; 27; 28; 27; 27; 27; 27; 27; 26].

(** ** The decoding table *)

(** [HuffNode]: [data] is the union of [ch] and [superNodeIndex];
    [metadata.bits] is a 4-bit field. *)
Record HuffNode := mkNode { node_data : Z; node_bits : Z; isSuperNode : bool }.

Definition emptyNode : HuffNode := mkNode 0 0 false.
Definition isLeaf (n : HuffNode) : bool := negb (isSuperNode n).

Definition SuperHuffNode := list HuffNode.
Definition emptySuperNode : SuperHuffNode := replicate 256 emptyNode.

(** [HuffTree]: [nodes_], [table_] and the two tables it was built from. *)
Record HuffTree := mkTree {
  nodes_ : Z; codes_ : list Z; bits_ : list Z; table_ : list SuperHuffNode }.

(** [a[i]] of a C array; [None] is an access out of its bounds. *)
Definition at_ {A} (l : list A) (i : Z) : option A :=
  if 0 <=? i then l !! Z.to_nat i else None.

(** [table_[s].index[key]]. *)
Definition node_at (t : list SuperHuffNode) (s key : Z) : option HuffNode :=
  snode ← at_ t s; at_ snode key.

Definition set_node (t : list SuperHuffNode) (s key : Z) (n : HuffNode)
  : option (list SuperHuffNode) :=
  snode ← at_ t s; _ ← at_ snode key;
  Some (<[Z.to_nat s := <[Z.to_nat key := n]> snode]> t).

(** [fillIndex], by recursion on [8 - level]: every 8-bit key that starts with
    the code refers to [ch]. *)
Fixpoint fillIndex (t : list SuperHuffNode) (s code bits ch : Z) (todo : nat)
  : option (list SuperHuffNode) :=
  match todo with
  | O =>
      n ← node_at t s code;
      set_node t s code (mkNode ch (bits mod 16) (isSuperNode n))
  | S todo' =>
      let code := u32 (Z.shiftl code 1) in
      t ← fillIndex t s (Z.lor code 0) bits ch todo';
      fillIndex t s (Z.lor code 1) bits ch todo'
  end.

(** The loop of [insert]: one super node per 8 bits, created when the entry is
    still a leaf.  It runs at most [(30 - 1) / 8 = 3] times. *)
Fixpoint insert_walk (fuel : nat) (t : list SuperHuffNode) (nodes s code bits : Z)
  : option (list SuperHuffNode * Z * Z * Z * Z) :=
  if bits >? 8 then
    match fuel with
    | O => None
    | S fuel' =>
        let mask := u32 (Z.shiftl 0xFF (bits - 8)) in
        let x := Z.shiftr (Z.land code mask) (bits - 8) in
        n ← node_at t s x;
        '(t, nodes, n) ← (if isLeaf n then
          let nodes := u32 (nodes + 1) in
          let n := mkNode (u8 nodes) (node_bits n) true in
          t ← set_node t s x n; Some (t, nodes, n)
        else Some (t, nodes, n));
        insert_walk fuel' t nodes (node_data n)
          (Z.land code (UINT32_MAX - mask)) (bits - 8)
    end
  else Some (t, nodes, s, code, bits).

Definition insert (tr : HuffTree) (code bits ch : Z) : option HuffTree :=
  '(t, nodes, s, code, bits) ← insert_walk 3 (table_ tr) (nodes_ tr) 0 code bits;
  t ← fillIndex t s code bits ch (Z.to_nat (8 - bits));
  Some (mkTree nodes (codes_ tr) (bits_ tr) t).

Fixpoint buildTree_from (tr : HuffTree) (i : Z) (n : nat) : option HuffTree :=
  match n with
  | O => Some tr
  | S n' =>
      c ← at_ (codes_ tr) i; b ← at_ (bits_ tr) i;
      tr ← insert tr c b (u8 i);
      buildTree_from tr (i + 1) n'
  end.

Definition buildTree (tr : HuffTree) : option HuffTree :=
  buildTree_from tr 0 (Z.to_nat kTableSize).

(** The constructor; [table_] has 46 super nodes. *)
Definition create (codes bits : list Z) : option HuffTree :=
  buildTree (mkTree 0 codes bits (replicate 46 emptySuperNode)).

(** The static tree.  [create] does not fail on the static tables
    ([create_ok]), so the default is never used. *)
Definition huffTree : HuffTree :=
  default (mkTree 0 [] [] []) (create s_codesTable s_bitsTable).

(** ** [decode] *)

(** The two halves of an iteration before the lookup: load a byte when fewer
    than 8 bits are left; the key is the next 8 bits, which at the end of the
    buffer are completed with ones. *)
Definition load_byte (buf : list Z) (w wbits : Z) : Z * Z * list Z :=
  match buf with
  | b :: buf' =>
      if wbits <? 8 then (Z.lor (u32 (Z.shiftl w 8)) b, wbits + 8, buf')
      else (w, wbits, buf)
  | [] => (w, wbits, buf)
  end.

Definition next_key (w wbits : Z) : Z * Z * Z :=
  if wbits >=? 8 then (Z.shiftr w (wbits - 8), w, wbits)
  else
    let xbits := 8 - wbits in
    let w := Z.lor (u32 (Z.shiftl w xbits)) (Z.shiftl 1 xbits - 1) in
    (w, w, 8).

Definition more_bits (buf : list Z) (wbits : Z) : bool :=
  match buf with [] => wbits >? 0 | _ :: _ => true end.

(** [while (i < size || wbits > 0)]: [buf] is what is left from [buf[i]] on,
    [s] the index of the super node [snode] points to. *)
Fixpoint decode_loop (fuel : nat) (t : list SuperHuffNode) (buf : list Z)
    (w wbits s : Z) (literal : list Z) : option (list Z) :=
  if more_bits buf wbits then
    match fuel with
    | O => None
    | S fuel' =>
        let '(w, wbits, buf) := load_byte buf w wbits in
        let '(key, w, wbits) := next_key w wbits in
        node ← node_at t s key;
        let '(literal, wbits, s) :=
          if isLeaf node
          then (literal ++ [node_data node], u32 (wbits - node_bits node), 0)
          else (literal, u32 (wbits - 8), node_data node) in
        decode_loop fuel' t buf (Z.land w (Z.shiftl 1 wbits - 1)) wbits s literal
    end
  else Some literal.

(** Enough iterations for a buffer of [size] bytes ([decode_total]). *)
Definition decode_fuel (size : nat) : nat := 16 * size + 4.

(** [literal.append]s what it decodes and returns [true]. *)
Definition decode (tr : HuffTree) (buf literal : list Z) : option (bool * list Z) :=
  literal ← decode_loop (decode_fuel (length buf)) (table_ tr) buf 0 0 0 literal;
  Some (true, literal).

(** ** [encode] *)

Fixpoint encode_loop (tr : HuffTree) (literal : list Z) (w wbits totalBytes : Z)
    (out : list Z) : option (Z * Z * Z * list Z) :=
  match literal with
  | [] => Some (w, wbits, totalBytes, out)
  | ch :: literal =>
      code ← at_ (codes_ tr) ch;
      bits ← at_ (bits_ tr) ch;
      if wbits + bits <? 32 then
        encode_loop tr literal (Z.lor (u32 (Z.shiftl w bits)) code) (wbits + bits)
          totalBytes out
      else
        let xbits := wbits + bits - 32 in
        let w := Z.lor (u32 (Z.shiftl w (bits - xbits))) (Z.shiftr code xbits) in
        encode_loop tr literal (Z.land code (Z.shiftl 1 xbits - 1)) xbits
          (u32 (totalBytes + 4)) (out ++ be_bytes 4 w)
  end.

(** The padding of the last byte. *)
Definition pad_word (w wbits : Z) : Z * Z :=
  if truth (Z.land wbits 0x7) then
    let padbits := 8 - Z.land wbits 0x7 in
    (Z.lor (u32 (Z.shiftl w padbits)) (Z.shiftl 1 padbits - 1), wbits + padbits)
  else (w, wbits).

Definition encode (tr : HuffTree) (literal out : list Z) : option (Z * list Z) :=
  '(w, wbits, totalBytes, out) ← encode_loop tr literal 0 0 0 out;
  let '(w, wbits) := pad_word w wbits in
  if wbits >? 0 then
    let bytes := Z.shiftr wbits 3 in
    let w := u32 (Z.shiftl w (32 - wbits)) in
    Some (u32 (totalBytes + bytes), out ++ take (Z.to_nat bytes) (be_bytes 4 w))
  else Some (totalBytes, out).

Fixpoint getEncodeSize_bits (tr : HuffTree) (literal : list Z) (totalBits : Z)
  : option Z :=
  match literal with
  | [] => Some totalBits
  | ch :: literal =>
      bits ← at_ (bits_ tr) ch;
      getEncodeSize_bits tr literal (u32 (totalBits + bits))
  end.

Definition getEncodeSize (tr : HuffTree) (literal : list Z) : option Z :=
  totalBits ← getEncodeSize_bits tr literal 0;
  let size := Z.shiftr totalBits 3 in
  Some (if truth (Z.land totalBits 0x07) then size + 1 else size).

Definition getCode (tr : HuffTree) (ch : Z) : option (Z * Z) :=
  code ← at_ (codes_ tr) ch; bits ← at_ (bits_ tr) ch; Some (code, bits).

(** ** The static tree, checked by evaluation *)

Definition kSuperNodes : Z := 46.

(** The decoding table of [huffTree]. *)
Local Notation T := (table_ huffTree).

(** Every entry uses at most 8 bits of the key, refers to a byte or to a super
    node other than the root, and the root's leaves use at least 5 bits. *)
Definition node_check (s : Z) (n : HuffNode) : bool :=
  (0 <=? node_bits n) && (node_bits n <=? 8) &&
  (0 <=? node_data n) && (node_data n <? 256) &&
  (if isLeaf n then (negb (s =? 0)) || (5 <=? node_bits n)
   else (1 <=? node_data n) && (node_data n <? kSuperNodes)).

Definition table_check : bool :=
  forallb (fun s => forallb (fun key =>
    match node_at T s key with Some n => node_check s n | None => false end)
    (seqZ 0 256)) (seqZ 0 kSuperNodes).

(** The code of a byte as a bit string. *)
Definition code_of (ch : Z) : Z := default 0 (at_ s_codesTable ch).
Definition bits_of_char (ch : Z) : Z := default 0 (at_ s_bitsTable ch).
Definition codebits (ch : Z) : list bool :=
  bits_of (Z.to_nat (bits_of_char ch)) (code_of ch).

(** Walking the super nodes along a code ends in leaves for [ch], whatever bits
    follow the code in the last key. *)
Fixpoint path_check (fuel : nat) (s ch : Z) (l : list bool) : bool :=
  if zlen l >? 8 then
    match fuel, node_at T s (bits_val (take 8 l)) with
    | S fuel', Some n => isSuperNode n && path_check fuel' (node_data n) ch (drop 8 l)
    | _, _ => false
    end
  else
    forallb (fun e =>
      match node_at T s (bits_val l * 2 ^ (8 - zlen l) + e) with
      | Some n => isLeaf n && (node_data n =? ch) && (node_bits n =? zlen l)
      | None => false
      end) (seqZ 0 (2 ^ (8 - zlen l))).

Definition char_check (ch : Z) : bool :=
  match at_ s_codesTable ch, at_ s_bitsTable ch with
  | Some code, Some bits =>
      (5 <=? bits) && (bits <=? 30) && (0 <=? code) && (code <? 2 ^ bits) &&
      path_check 3 0 ch (codebits ch)
  | _, _ => false
  end.

(** The key of eight ones leaves the root. *)
Definition is_super (n : option HuffNode) : bool :=
  match n with Some n => isSuperNode n | None => false end.
Definition ones_check : bool := is_super (node_at T 0 255).

Lemma tree_ok : table_check && forallb char_check (seqZ 0 256) && ones_check = true.
Proof. vm_compute. reflexivity. Qed.

Lemma create_is_some : (if create s_codesTable s_bitsTable is Some _ then true else false) = true.
Proof. vm_compute. reflexivity. Qed.

(** Building the tree stays within the 46 super nodes and the keys of 8 bits. *)
Lemma create_ok : create s_codesTable s_bitsTable = Some huffTree.
Proof.
  pose proof create_is_some as H. unfold huffTree.
  by destruct (create s_codesTable s_bitsTable).
Qed.

Lemma huffTree_tables : codes_ huffTree = s_codesTable /\ bits_ huffTree = s_bitsTable.
Proof. split; vm_compute; reflexivity. Qed.

#[global] Opaque huffTree.

Lemma char_ok ch : is_u8 ch -> char_check ch = true.
Proof.
  pose proof tree_ok as H. apply andb_prop in H as [H _]. apply andb_prop in H as [_ H].
  revert ch. by apply u8_forall.
Qed.

Lemma node_ok s key :
  0 <= s < kSuperNodes -> 0 <= key < 256 ->
  exists n, node_at T s key = Some n /\ node_check s n = true.
Proof.
  intros Hs Hk. pose proof tree_ok as H. apply andb_prop in H as [H _].
  apply andb_prop in H as [H _]. unfold table_check in H. rewrite forallb_forall in H.
  specialize (H s). rewrite forallb_forall in H.
  specialize (H ltac:(apply list_elem_of_In, elem_of_seqZ; lia) key
                ltac:(apply list_elem_of_In, elem_of_seqZ; lia)).
  destruct (node_at T s key) as [n|]; [eauto|done].
Qed.

Lemma ones_node : exists n, node_at T 0 255 = Some n /\ isSuperNode n = true.
Proof.
  destruct (node_ok 0 255) as (n & Hn & _); [done|done|]. exists n. split; [exact Hn|].
  pose proof tree_ok as H. apply andb_prop in H as [_ H]. unfold ones_check in H.
  rewrite Hn in H. exact H.
Qed.

(** ** [decode] on bit strings *)

Definition pad8 (R : list bool) : list bool := R ++ replicate (8 - length R) true.

(** The loop of [decode], with the loaded word and the unread bytes as one bit
    string, which the last key extends with ones. *)
Fixpoint bit_decode (fuel : nat) (R : list bool) (s : Z) (literal : list Z)
  : option (list Z) :=
  match R with
  | [] => Some literal
  | _ :: _ =>
      match fuel with
      | O => None
      | S fuel' =>
          n ← node_at T s (bits_val (take 8 (pad8 R)));
          if isLeaf n
          then bit_decode fuel' (drop (Z.to_nat (node_bits n)) (pad8 R)) 0
                 (literal ++ [node_data n])
          else bit_decode fuel' (drop 8 (pad8 R)) (node_data n) literal
      end
  end.

Lemma length_pad8 R : (8 <= length (pad8 R))%nat.
Proof. unfold pad8. rewrite length_app, length_replicate. lia. Qed.

Lemma pad8_long R : (8 <= length R)%nat -> pad8 R = R.
Proof. intros H. unfold pad8. replace (8 - length R)%nat with O by lia. apply app_nil_r. Qed.

(** One key: the first 8 bits, and what is left after using [b] of them. *)
Lemma bits_key (k : nat) w (R : list bool) :
  (8 <= k)%nat -> 0 <= w < 2 ^ Z.of_nat k ->
  bits_val (take 8 (bits_of k w ++ R)) = Z.shiftr w (Z.of_nat k - 8).
Proof.
  intros Hk Hw. replace k with (8 + (k - 8))%nat at 1 by lia.
  rewrite bits_of_split, <- app_assoc, take_app_length' by (by rewrite length_bits_of).
  rewrite bits_val_bits_of, Z.shiftr_div_pow2 by lia.
  replace (Z.of_nat k - 8) with (Z.of_nat (k - 8)) by lia. apply Z.mod_small.
  split; [apply Z.div_pos; lia|]. apply Z.div_lt_upper_bound; [lia|].
  rewrite <- Z.pow_add_r by lia. replace (Z.of_nat (k - 8) + Z.of_nat 8) with (Z.of_nat k) by lia. lia.
Qed.

Lemma drop_bits (k b : nat) w (R : list bool) :
  (b <= k)%nat -> drop b (bits_of k w ++ R) = bits_of (k - b) w ++ R.
Proof.
  intros Hb. replace k with (b + (k - b))%nat at 1 by lia.
  rewrite bits_of_split, <- app_assoc, drop_app_length' by (by rewrite length_bits_of). done.
Qed.

(** [w & ((1 << wbits) - 1)]. *)
Lemma low_bits w k : 0 <= k -> Z.land w (Z.shiftl 1 k - 1) = w mod 2 ^ k.
Proof.
  intros Hk. rewrite Z.shiftl_mul_pow2, Z.mul_1_l by lia.
  rewrite <- Z.land_ones by lia. f_equal. rewrite Z.ones_equiv. lia.
Qed.

Lemma shift_or w b (k m : nat) :
  (k + m <= 32)%nat -> 0 <= w < 2 ^ Z.of_nat k -> 0 <= b < 2 ^ Z.of_nat m ->
  Z.lor (u32 (Z.shiftl w (Z.of_nat m))) b = w * 2 ^ Z.of_nat m + b /\
  0 <= w * 2 ^ Z.of_nat m + b < 2 ^ Z.of_nat (k + m).
Proof.
  intros Hk Hw Hb. rewrite Nat2Z.inj_add, Z.pow_add_r by lia.
  assert (Hle : 2 ^ Z.of_nat k * 2 ^ Z.of_nat m <= 2 ^ 32).
  { rewrite <- Z.pow_add_r by lia. apply Z.pow_le_mono_r; lia. }
  rewrite u32_id; [|unfold is_u32; rewrite Z.shiftl_mul_pow2 by lia; nia].
  rewrite lor_shiftl_add by lia. nia.
Qed.

Lemma shiftl_ones k : 0 <= k -> Z.shiftl 1 k - 1 = Z.ones k.
Proof. intros. rewrite Z.shiftl_mul_pow2, Z.ones_equiv by lia. lia. Qed.

(** What an iteration sees: at least 8 bits, the first of them the key. *)
Definition key_view (R : list bool) (st : Z * Z * list Z) (key : Z) : Prop :=
  let '(w, wbits, buf) := st in
  exists k : nat, wbits = Z.of_nat k /\ (8 <= k <= 15)%nat /\ 0 <= w < 2 ^ Z.of_nat k /\
    key = Z.shiftr w (Z.of_nat k - 8) /\ bytes_ok buf /\
    pad8 R = bits_of k w ++ bytes_bits buf.

Lemma load_byte_spec buf w (k : nat) :
  bytes_ok buf -> (k <= 15)%nat -> 0 <= w < 2 ^ Z.of_nat k ->
  exists (k' : nat) w' buf', load_byte buf w (Z.of_nat k) = (w', Z.of_nat k', buf') /\
    (k' <= 15)%nat /\ 0 <= w' < 2 ^ Z.of_nat k' /\ bytes_ok buf' /\
    (buf' = [] \/ (8 <= k')%nat) /\
    bits_of k w ++ bytes_bits buf = bits_of k' w' ++ bytes_bits buf'.
Proof.
  intros Hbuf Hk Hw. unfold load_byte. destruct buf as [|b buf]; [exists k, w, []; auto 10|].
  inversion Hbuf as [|? ? Hb Hbuf']; subst.
  destruct (Z.ltb_spec (Z.of_nat k) 8).
  - destruct (shift_or w b k 8) as [E Hr]; [lia|done|exact Hb|].
    change (Z.of_nat 8) with 8 in E, Hr. rewrite E.
    exists (k + 8)%nat, (w * 2 ^ 8 + b), buf. split_and!; try done; try lia.
    + by rewrite Nat2Z.inj_add.
    + pose proof (bits_of_app k 8 w b Hb) as Ha. change (Z.of_nat 8) with 8 in Ha.
      rewrite Ha, <- app_assoc. done.
  - exists k, w, (b :: buf). split_and!; try done; try lia.
Qed.

Lemma next_key_spec buf w (k : nat) :
  bytes_ok buf -> (k <= 15)%nat -> 0 <= w < 2 ^ Z.of_nat k -> (buf = [] \/ (8 <= k)%nat) ->
  let '(key, w', wbits') := next_key w (Z.of_nat k) in
  key_view (bits_of k w ++ bytes_bits buf) (w', wbits', buf) key.
Proof.
  intros Hbuf Hk Hw Hor. unfold next_key. rewrite Z.geb_leb.
  destruct (Z.leb_spec 8 (Z.of_nat k)) as [H8|H8].
  - exists k. split_and!; try done; try lia. apply pad8_long.
    rewrite length_app, length_bits_of. lia.
  - destruct Hor as [->|]; [|lia].
    replace (8 - Z.of_nat k) with (Z.of_nat (8 - k)) by lia. rewrite shiftl_ones by lia.
    destruct (shift_or w (Z.ones (Z.of_nat (8 - k))) k (8 - k)) as [E Hr]; [lia|done| |].
    { rewrite Z.ones_equiv. lia. }
    rewrite E. exists 8%nat. replace (k + (8 - k))%nat with 8%nat in Hr by lia.
    split_and!; try done; try lia.
    change (bytes_bits []) with (@nil bool). unfold pad8. rewrite !app_nil_r, length_bits_of.
    replace 8%nat with (k + (8 - k))%nat at 2 by lia.
    rewrite bits_of_app by (rewrite Z.ones_equiv; lia). by rewrite bits_of_ones.
Qed.

Lemma more_bits_spec buf w (k : nat) :
  more_bits buf (Z.of_nat k) = false <-> bits_of k w ++ bytes_bits buf = [].
Proof.
  unfold more_bits. destruct buf as [|b buf].
  - rewrite app_nil_r. destruct k; [done|]. split; [|done]. intros H. bool_cases. lia.
  - split; [done|]. intros H%(f_equal length). revert H.
    rewrite length_app, length_bytes_bits. simpl. lia.
Qed.

(** The word-level loop computes the bit-level one. *)
Lemma decode_loop_bits fuel : forall buf w (k : nat) s literal,
  bytes_ok buf -> (k <= 15)%nat -> 0 <= w < 2 ^ Z.of_nat k -> 0 <= s < kSuperNodes ->
  decode_loop fuel T buf w (Z.of_nat k) s literal =
  bit_decode fuel (bits_of k w ++ bytes_bits buf) s literal.
Proof.
  induction fuel as [|fuel IH]; intros buf w k s literal Hbuf Hk Hw Hs;
    cbn [decode_loop bit_decode];
    (destruct (more_bits buf (Z.of_nat k)) eqn:Hm;
     [|by rewrite (proj1 (more_bits_spec buf w k) Hm)]);
    (destruct (bits_of k w ++ bytes_bits buf) as [|x R] eqn:HR;
     [rewrite (proj2 (more_bits_spec buf w k) HR) in Hm; done|]); [done|].
  destruct (load_byte_spec buf w k) as (k1 & w1 & buf1 & -> & Hk1 & Hw1 & Hb1 & Hor & HR1); try done.
  pose proof (next_key_spec buf1 w1 k1 Hb1 Hk1 Hw1 Hor) as Hkey. rewrite <- HR1, HR in Hkey.
  destruct (next_key w1 (Z.of_nat k1)) as [[key w2] wbits2].
  destruct Hkey as (k2 & -> & Hk2 & Hw2 & -> & _ & HR2). rewrite HR2, bits_key by (lia || done).
  destruct (node_ok s (Z.shiftr w2 (Z.of_nat k2 - 8))) as (n & Hn & Hc); [done| |].
  { rewrite <- (bits_key k2 w2 []) by (lia || done).
    pose proof (bits_val_range (take 8 (bits_of k2 w2 ++ []))) as Hr. revert Hr.
    unfold zlen. rewrite length_take, app_nil_r, length_bits_of.
    replace (8 `min` k2)%nat with 8%nat by lia. done. }
  rewrite Hn. unfold mbind, option_bind. unfold node_check in Hc.
  destruct (isLeaf n); bool_cases.
  - rewrite drop_bits by lia. rewrite u32_id by (unfold is_u32; lia).
    replace (Z.of_nat k2 - node_bits n) with (Z.of_nat (k2 - Z.to_nat (node_bits n))) by lia.
    rewrite low_bits by lia. rewrite IH; [|done|lia| |done].
    + by rewrite bits_of_mod.
    + apply Z.mod_pos_bound. lia.
  - rewrite drop_bits by lia. rewrite u32_id by (unfold is_u32; lia).
    replace (Z.of_nat k2 - 8) with (Z.of_nat (k2 - 8)) by lia.
    rewrite low_bits by lia. rewrite IH; [|done|lia| |lia].
    + by rewrite bits_of_mod.
    + apply Z.mod_pos_bound. lia.
Qed.

(** ** Decoding one code *)

Definition encbits (literal : list Z) : list bool := mjoin (codebits <$> literal).

Lemma bit_decode_S fuel R s literal :
  R <> [] -> bit_decode (S fuel) R s literal =
  (n ← node_at T s (bits_val (take 8 (pad8 R)));
   if isLeaf n
   then bit_decode fuel (drop (Z.to_nat (node_bits n)) (pad8 R)) 0 (literal ++ [node_data n])
   else bit_decode fuel (drop 8 (pad8 R)) (node_data n) literal).
Proof. by destruct R. Qed.

Lemma bit_decode_step fuel R s literal n :
  R <> [] -> node_at T s (bits_val (take 8 (pad8 R))) = Some n ->
  bit_decode (S fuel) R s literal =
  if isLeaf n
  then bit_decode fuel (drop (Z.to_nat (node_bits n)) (pad8 R)) 0 (literal ++ [node_data n])
  else bit_decode fuel (drop 8 (pad8 R)) (node_data n) literal.
Proof. intros HR Hn. rewrite bit_decode_S by done. by rewrite Hn. Qed.

(** Every key that starts with [l] is a leaf for [ch]. *)
Definition last_check (s ch : Z) (l : list bool) : bool :=
  forallb (fun e =>
    match node_at T s (bits_val l * 2 ^ (8 - zlen l) + e) with
    | Some n => isLeaf n && (node_data n =? ch) && (node_bits n =? zlen l)
    | None => false
    end) (seqZ 0 (2 ^ (8 - zlen l))).

Lemma last_decode s ch l U literal fuel :
  last_check s ch l = true -> (0 < length l <= 8)%nat ->
  bit_decode (S fuel) (l ++ U) s literal =
  bit_decode fuel (U ++ replicate (8 - length (l ++ U)) true) 0 (literal ++ [ch]).
Proof.
  intros Hc Hl. set (q := (8 - length (l ++ U))%nat).
  set (e := take (8 - length l) (U ++ replicate q true)).
  assert (HP : pad8 (l ++ U) = l ++ (U ++ replicate q true)) by (unfold pad8; by rewrite app_assoc).
  assert (Ht : take 8 (pad8 (l ++ U)) = l ++ e) by (rewrite HP, take_app_ge by lia; done).
  assert (He : 8 - zlen l = zlen e).
  { unfold e, q, zlen. rewrite length_take, !length_app, length_replicate. lia. }
  unfold last_check in Hc. rewrite forallb_forall in Hc. specialize (Hc (bits_val e)).
  rewrite He, <- bits_val_app in Hc.
  specialize (Hc ltac:(apply list_elem_of_In, elem_of_seqZ; pose proof (bits_val_range e); lia)).
  destruct (node_at T s (bits_val (l ++ e))) as [n|] eqn:Hn; [|done]. bool_cases.
  rewrite (bit_decode_step _ _ _ _ n); [|destruct l; simpl in *; [lia|done]|by rewrite Ht].
  match goal with H : isLeaf n = true |- _ => rewrite H end.
  rewrite HP. match goal with H : node_bits n = _ |- _ => rewrite H end.
  unfold zlen. rewrite Nat2Z.id, drop_app_length. congruence.
Qed.

(** A code in front of any bits is decoded to its byte; at the end of the
    buffer the bits behind it may have been completed with [q] ones. *)
Lemma path_decode fuel0 : forall s ch l U literal,
  path_check fuel0 s ch l = true -> (0 < length l)%nat ->
  exists (m q : nat), (m <= length l)%nat /\ (q = 0 \/ length U + q <= 7)%nat /\
    forall fuel, bit_decode (m + fuel) (l ++ U) s literal =
                 bit_decode fuel (U ++ replicate q true) 0 (literal ++ [ch]).
Proof.
  induction fuel0 as [|fuel0 IH]; intros s ch l U literal Hc Hl;
    cbn [path_check] in Hc; rewrite Z.gtb_ltb in Hc;
    (destruct (Z.ltb_spec 8 (zlen l)) as [H8|H8]; unfold zlen in H8;
     [try done|exists 1%nat, (8 - length (l ++ U))%nat; rewrite length_app;
               split; [lia|]; split; [lia|]; intros fuel; rewrite <- length_app;
               apply last_decode; [done|lia]]).
  destruct (node_at T s (bits_val (take 8 l))) as [n|] eqn:Hn; [|done].
  apply andb_prop in Hc as [Hsup Hc].
  destruct (IH (node_data n) ch (drop 8 l) U literal Hc) as (m & q & Hm & Hq & HI).
  { rewrite length_drop. lia. }
  rewrite length_drop in Hm. exists (S m), q. split; [lia|]. split; [done|].
  intros fuel. cbn [Nat.add].
  assert (HP : pad8 (l ++ U) = l ++ U) by (apply pad8_long; rewrite length_app; lia).
  rewrite (bit_decode_step _ _ _ _ n); [|by destruct l|by rewrite HP, take_app_le by lia].
  unfold isLeaf. rewrite Hsup. cbn [negb]. rewrite HP, drop_app_le by lia. apply HI.
Qed.

(** Trailing ones, at most seven of them, are the end of the literal. *)
Lemma ones_decode fuel p literal :
  (p <= 7)%nat -> bit_decode (S fuel) (replicate p true) 0 literal = Some literal.
Proof.
  intros Hp. destruct p as [|p]; [done|].
  assert (HP : pad8 (replicate (S p) true) = replicate 8 true).
  { unfold pad8. rewrite length_replicate, <- replicate_add. f_equal. lia. }
  destruct ones_node as (n & Hn & H).
  rewrite (bit_decode_step _ _ _ _ n); [|done|by rewrite HP].
  unfold isLeaf. rewrite H, HP. cbn [negb]. by destruct fuel.
Qed.

Lemma codebits_nonempty ch : is_u8 ch -> (5 <= length (codebits ch) <= 30)%nat.
Proof.
  intros H. pose proof (char_ok ch H) as Hc. unfold char_check in Hc.
  unfold codebits, bits_of_char. rewrite length_bits_of.
  destruct (at_ s_codesTable ch), (at_ s_bitsTable ch); try done. bool_cases. simpl. lia.
Qed.

Lemma encbits_decode literal : forall p acc,
  bytes_ok literal -> (p <= 7)%nat ->
  exists f, (f <= length (encbits literal) + 1)%nat /\ forall g,
    bit_decode (f + g) (encbits literal ++ replicate p true) 0 acc = Some (acc ++ literal).
Proof.
  induction literal as [|ch literal IH]; intros p acc Hl Hp.
  - exists 1%nat. split; [simpl; lia|]. intros g. rewrite app_nil_r.
    by apply (ones_decode g).
  - inversion Hl as [|? ? Hch Hl']; subst.
    pose proof (codebits_nonempty ch Hch) as Hn. pose proof (char_ok ch Hch) as Hc.
    unfold char_check in Hc. destruct (at_ s_codesTable ch), (at_ s_bitsTable ch); try done.
    apply andb_prop in Hc as [_ Hc].
    change (encbits (ch :: literal)) with (codebits ch ++ encbits literal).
    destruct (path_decode _ _ _ _ (encbits literal ++ replicate p true) acc Hc)
      as (m & q & Hm & Hq & HI); [lia|].
    rewrite !length_app, length_replicate in *.
    destruct (IH (p + q)%nat (acc ++ [ch]) Hl') as (f & Hf & HF); [lia|].
    exists (m + f)%nat. split; [lia|]. intros g. rewrite <- !app_assoc, <- Nat.add_assoc, HI.
    rewrite <- app_assoc, <- replicate_add, HF. by rewrite <- app_assoc.
Qed.

(** ** [encode] on bit strings *)

Lemma huffTree_code ch :
  is_u8 ch -> exists (n : nat) c, at_ (codes_ huffTree) ch = Some c /\
    at_ (bits_ huffTree) ch = Some (Z.of_nat n) /\ (5 <= n <= 30)%nat /\
    0 <= c < 2 ^ Z.of_nat n /\ codebits ch = bits_of n c.
Proof.
  intros H. destruct huffTree_tables as [-> ->]. pose proof (char_ok ch H) as Hc.
  unfold char_check in Hc. unfold codebits, code_of, bits_of_char.
  destruct (at_ s_codesTable ch) as [c|], (at_ s_bitsTable ch) as [b|]; try done.
  bool_cases. exists (Z.to_nat b), c. rewrite Z2Nat.id by lia. simpl. auto with lia.
Qed.

(** Splitting a code at a word boundary: [m] bits complete the word, the low
    [x] bits are carried. *)
Lemma split_code w c (k m x : nat) :
  (k + m <= 32)%nat -> 0 <= w < 2 ^ Z.of_nat k -> 0 <= c < 2 ^ Z.of_nat (m + x) ->
  let w' := Z.lor (u32 (Z.shiftl w (Z.of_nat m))) (Z.shiftr c (Z.of_nat x)) in
  let c' := Z.land c (Z.shiftl 1 (Z.of_nat x) - 1) in
  0 <= w' < 2 ^ Z.of_nat (k + m) /\ 0 <= c' < 2 ^ Z.of_nat x /\
  bits_of (k + m) w' ++ bits_of x c' = bits_of k w ++ bits_of (m + x) c.
Proof.
  intros Hk Hw Hc w' c'. unfold w', c'. clear w' c'.
  rewrite low_bits, Z.shiftr_div_pow2 by lia.
  assert (Hq : 0 <= c / 2 ^ Z.of_nat x < 2 ^ Z.of_nat m).
  { rewrite Nat2Z.inj_add, Z.pow_add_r in Hc by lia. split; [apply Z.div_pos; lia|].
    apply Z.div_lt_upper_bound; lia. }
  destruct (shift_or w (c / 2 ^ Z.of_nat x) k m Hk Hw Hq) as [-> Hr].
  split; [done|]. split; [apply Z.mod_pos_bound; lia|].
  rewrite bits_of_app, bits_of_mod by done. rewrite <- app_assoc. f_equal.
  by rewrite bits_of_split.
Qed.

Lemma encode_loop_bits literal : forall w (k : nat) total out,
  bytes_ok literal -> (k < 32)%nat -> 0 <= w < 2 ^ Z.of_nat k -> is_u32 total ->
  exists w' (k' : nat) out',
    encode_loop huffTree literal w (Z.of_nat k) total out =
      Some (w', Z.of_nat k', u32 (total + zlen out'), out ++ out') /\
    (k' < 32)%nat /\ 0 <= w' < 2 ^ Z.of_nat k' /\ bytes_ok out' /\
    bytes_bits out' ++ bits_of k' w' = bits_of k w ++ encbits literal.
Proof.
  induction literal as [|ch literal IH]; intros w k total out Hl Hk Hw Ht.
  - exists w, k, []. change (zlen []) with 0. rewrite Z.add_0_r, app_nil_r, u32_id by done.
    change (encbits []) with (@nil bool). rewrite app_nil_r. split_and!; try done; try lia; constructor.
  - inversion Hl as [|? ? Hch Hl']; subst. cbn [encode_loop].
    destruct (huffTree_code ch Hch) as (n & c & -> & -> & Hn & Hc & Hbits).
    change (encbits (ch :: literal)) with (codebits ch ++ encbits literal). rewrite Hbits.
    unfold mbind, option_bind. destruct (Z.ltb_spec (Z.of_nat k + Z.of_nat n) 32).
    + destruct (shift_or w c k n) as [-> Hr]; [lia|done|done|]. rewrite <- Nat2Z.inj_add.
      destruct (IH _ (k + n)%nat total out Hl' ltac:(lia) Hr Ht)
        as (w' & k' & out' & -> & Hk' & Hw' & Ho & HB).
      exists w', k', out'. split_and!; try done; try lia. rewrite HB, app_assoc.
      by rewrite bits_of_app.
    + set (x := (k + n - 32)%nat). set (m := (n - x)%nat).
      replace (Z.of_nat k + Z.of_nat n - 32) with (Z.of_nat x) by lia.
      replace (Z.of_nat n - Z.of_nat x) with (Z.of_nat m) by lia.
      destruct (split_code w c k m x) as (Hw1 & Hc1 & HB1); [lia|done|by replace (m + x)%nat with n by lia|].
      destruct (IH _ x (u32 (total + 4))
                  (out ++ be_bytes 4 (Z.lor (u32 (Z.shiftl w (Z.of_nat m))) (Z.shiftr c (Z.of_nat x))))
                  Hl' ltac:(lia) Hc1 (u32_range _))
        as (w' & k' & out' & -> & Hk' & Hw' & Ho & HB).
      exists w', k', (be_bytes 4 (Z.lor (u32 (Z.shiftl w (Z.of_nat m))) (Z.shiftr c (Z.of_nat x))) ++ out').
      split_and!; try done; try lia.
      * rewrite app_assoc. do 3 f_equal. unfold zlen. rewrite length_app, length_be_bytes.
        unfold u32. rewrite Z.add_mod_idemp_l by lia. f_equal. lia.
      * apply Forall_app. split; [apply be_bytes_ok|done].
      * rewrite bytes_bits_app, <- app_assoc, HB, bits_of_be_bytes.
        replace (8 * 4)%nat with (k + m)%nat by lia.
        rewrite app_assoc, HB1, <- app_assoc. by replace (m + x)%nat with n by lia.
Qed.

(** The last byte is completed with at most seven ones. *)
Lemma pad_word_spec w (k : nat) :
  (k < 32)%nat -> 0 <= w < 2 ^ Z.of_nat k ->
  exists (j p : nat) w', pad_word w (Z.of_nat k) = (w', Z.of_nat (8 * j)) /\
    (p <= 7)%nat /\ (j <= 4)%nat /\ 0 <= w' < 2 ^ Z.of_nat (8 * j) /\
    bits_of (8 * j) w' = bits_of k w ++ replicate p true.
Proof.
  intros Hk Hw. unfold pad_word. rewrite (land_mask (Z.of_nat k) 0x7 3) by done.
  change (2 ^ 3) with 8.
  assert (Hkm : Z.of_nat k mod 8 = Z.of_nat (k mod 8)) by (by rewrite Nat2Z.inj_mod).
  pose proof (Nat.mod_upper_bound k 8 ltac:(lia)). pose proof (Nat.div_mod_eq k 8).
  rewrite Hkm. unfold truth. destruct (Z.eqb_spec (Z.of_nat (k mod 8)) 0) as [Hz|Hz]; cbn [negb].
  - exists (k / 8)%nat, O, w. replace (8 * (k / 8))%nat with k by lia.
    rewrite app_nil_r. split_and!; try done; lia.
  - set (p := (8 - k mod 8)%nat).
    replace (8 - Z.of_nat (k mod 8)) with (Z.of_nat p) by lia. rewrite shiftl_ones by lia.
    destruct (shift_or w (Z.ones (Z.of_nat p)) k p) as [-> Hr]; [lia|done|rewrite Z.ones_equiv; lia|].
    exists (k / 8 + 1)%nat, p, (w * 2 ^ Z.of_nat p + Z.ones (Z.of_nat p)).
    replace (8 * (k / 8 + 1))%nat with (k + p)%nat by lia.
    rewrite bits_of_app, bits_of_ones by (rewrite Z.ones_equiv; lia).
    rewrite Nat2Z.inj_add. split_and!; try done; lia.
Qed.

(** The bytes of a word whose bits were moved to its most significant end. *)
Lemma flush_bytes (j : nat) w :
  (j <= 4)%nat -> 0 <= w < 2 ^ Z.of_nat (8 * j) ->
  take j (be_bytes 4 (u32 (Z.shiftl w (32 - Z.of_nat (8 * j))))) = be_bytes j w.
Proof.
  intros Hj Hw. replace (32 - Z.of_nat (8 * j)) with (8 * Z.of_nat (4 - j)) by lia.
  change (be_bytes 4) with (be_bytes (id 4%nat)).
  replace (id 4%nat) with (j + (4 - j))%nat by (unfold id; lia).
  rewrite take_be_bytes. f_equal.
  rewrite Z.shiftl_mul_pow2 by lia. set (q := 2 ^ (8 * Z.of_nat (4 - j))).
  assert (Hq : 0 < q) by (apply Z.pow_pos_nonneg; lia).
  assert (Hm : 2 ^ Z.of_nat (8 * j) * q = 2 ^ 32)
    by (unfold q; rewrite <- Z.pow_add_r by lia; f_equal; lia).
  rewrite u32_id by (unfold is_u32; nia). apply Z.div_mul. lia.
Qed.

Lemma encode_bits literal out :
  bytes_ok literal ->
  exists out' (p : nat), encode huffTree literal out = Some (u32 (zlen out'), out ++ out') /\
    (p <= 7)%nat /\ bytes_ok out' /\ bytes_bits out' = encbits literal ++ replicate p true.
Proof.
  intros Hl. unfold encode.
  destruct (encode_loop_bits literal 0 0 0 out) as (w & k & o1 & E & Hk & Hw & Ho & HB);
    [done|lia|simpl; lia|unfold is_u32; lia|].
  change (Z.of_nat 0) with 0 in E. rewrite E. clear E. unfold mbind, option_bind.
  change (bits_of 0 0 ++ encbits literal) with (encbits literal) in HB.
  destruct (pad_word_spec w k Hk Hw) as (j & p & w' & -> & Hp & Hj & Hw' & HB').
  rewrite Z.gtb_ltb, Z.add_0_l. exists (o1 ++ be_bytes j w'), p.
  split_and!; [|done|apply Forall_app; split; [done|apply be_bytes_ok]|
    by rewrite bytes_bits_app, bits_of_be_bytes, HB', app_assoc, HB].
  destruct (Z.ltb_spec 0 (Z.of_nat (8 * j))) as [Hj0|Hj0].
  - rewrite app_assoc, Z.shiftr_div_pow2 by lia. change (2 ^ 3) with 8.
    replace (Z.of_nat (8 * j) / 8) with (Z.of_nat j)
      by (rewrite Nat2Z.inj_mul, Z.mul_comm, Z.div_mul; lia).
    rewrite Nat2Z.id, flush_bytes by done. do 2 f_equal.
    unfold zlen, u32. rewrite length_app, length_be_bytes, Z.add_mod_idemp_l by lia.
    f_equal. lia.
  - replace j with O by lia. change (be_bytes 0 w') with (@nil Z). by rewrite app_nil_r.
Qed.

(** ** [getEncodeSize] *)

Lemma length_encbits_cons ch literal :
  length (encbits (ch :: literal)) = (length (codebits ch) + length (encbits literal))%nat.
Proof. change (encbits (ch :: literal)) with (codebits ch ++ encbits literal). apply length_app. Qed.

Lemma encbits_bound literal :
  bytes_ok literal -> zlen (encbits literal) <= 30 * zlen literal.
Proof.
  induction 1 as [|ch literal Hch _ IH]; [done|].
  pose proof (codebits_nonempty ch Hch). unfold zlen in *.
  rewrite length_encbits_cons. simpl length. lia.
Qed.

Lemma getEncodeSize_bits_spec literal : forall acc,
  bytes_ok literal -> 0 <= acc -> acc + zlen (encbits literal) < 2 ^ 32 ->
  getEncodeSize_bits huffTree literal acc = Some (acc + zlen (encbits literal)).
Proof.
  induction literal as [|ch literal IH]; intros acc Hl Ha Hb; cbn [getEncodeSize_bits].
  - change (zlen (encbits [])) with 0. by rewrite Z.add_0_r.
  - inversion Hl as [|? ? Hch Hl']; subst. revert Hb. unfold zlen. rewrite length_encbits_cons.
    destruct (huffTree_code ch Hch) as (n & c & _ & -> & Hn & Hc & ->).
    rewrite length_bits_of. intros Hb. unfold mbind, option_bind.
    rewrite u32_id by (unfold is_u32; lia). rewrite IH; [|done|lia|unfold zlen; lia].
    f_equal. unfold zlen. lia.
Qed.

(** The number of bytes of a bit string completed to a multiple of 8. *)
Lemma bytes_of_bits n p m :
  (p <= 7)%nat -> (n + p = 8 * m)%nat ->
  (if truth (Z.land (Z.of_nat n) 0x07) then Z.shiftr (Z.of_nat n) 3 + 1
   else Z.shiftr (Z.of_nat n) 3) = Z.of_nat m.
Proof.
  intros Hp Hm. rewrite (land_mask _ 0x7 3), Z.shiftr_div_pow2 by done.
  change (2 ^ 3) with 8. unfold truth.
  destruct (Z.eqb_spec (Z.of_nat n mod 8) 0); cbn [negb]; Z.div_mod_to_equations; lia.
Qed.

(** ** Termination of [decode] *)

Lemma bit_decode_some fuel R s literal :
  0 <= s < kSuperNodes -> R <> [] ->
  exists n, bit_decode (S fuel) R s literal =
    (if isLeaf n
     then bit_decode fuel (drop (Z.to_nat (node_bits n)) (pad8 R)) 0 (literal ++ [node_data n])
     else bit_decode fuel (drop 8 (pad8 R)) (node_data n) literal) /\
    node_check s n = true.
Proof.
  intros Hs HR. destruct (node_ok s (bits_val (take 8 (pad8 R)))) as (n & Hn & Hc); [done| |].
  { pose proof (bits_val_range (take 8 (pad8 R))) as Hr. revert Hr. unfold zlen.
    rewrite length_take. pose proof (length_pad8 R).
    replace (8 `min` length (pad8 R))%nat with 8%nat by lia. done. }
  exists n. split; [by apply bit_decode_step|done].
Qed.

(** [returns fuel R s]: the loop ends, and only appends to the literal. *)
Definition returns (fuel : nat) (R : list bool) (s : Z) : Prop :=
  forall literal, exists lit, bit_decode fuel R s literal = Some (literal ++ lit).

Lemma returns_nil fuel s : returns fuel [] s.
Proof. intros literal. exists []. rewrite app_nil_r. by destruct fuel. Qed.

Lemma returns_step fuel R s :
  0 <= s < kSuperNodes ->
  (forall n, node_check s n = true ->
     if isLeaf n then returns fuel (drop (Z.to_nat (node_bits n)) (pad8 R)) 0
     else returns fuel (drop 8 (pad8 R)) (node_data n)) ->
  returns (S fuel) R s.
Proof.
  intros Hs H. destruct (decide (R = [])) as [->|HR]; [apply returns_nil|]. intros literal.
  destruct (bit_decode_some fuel R s literal Hs HR) as (n & -> & Hc). specialize (H n Hc).
  destruct (isLeaf n); [|apply H].
  destruct (H (literal ++ [node_data n])) as [lit ->].
  exists (node_data n :: lit). by rewrite <- app_assoc.
Qed.

Lemma returns_mono fuel g R s : (fuel <= g)%nat -> returns fuel R s -> returns g R s.
Proof.
  assert (M : forall f R s l r, bit_decode f R s l = Some r -> bit_decode (S f) R s l = Some r).
  { induction f as [|f IH]; intros R' s' l r H; (destruct (decide (R' = [])) as [->|HR];
      [exact H|]); [by destruct R'|]. rewrite bit_decode_S in H |- * by done.
    destruct (node_at T s' _) as [n|]; [|done]. unfold mbind, option_bind in *.
    destruct (isLeaf n); apply IH, H. }
  induction 1 as [|g Hle IH]; [done|]. intros H literal.
  destruct (IH H literal) as [lit Hlit]. exists lit. by apply M.
Qed.

(** Fewer than 8 bits are completed to 8, of which the root uses at least 5. *)
Lemma length_after_key R b :
  (length R <= 8)%nat -> length (drop b (pad8 R)) = (8 - b)%nat.
Proof.
  intros H. unfold pad8. rewrite length_drop, length_app, length_replicate. lia.
Qed.

(** What is left of a short string are the ones it was completed with, once the
    key used more bits than it had. *)
Lemma ones_after_key R b :
  (length R <= b)%nat -> (b <= 8)%nat -> drop b (pad8 R) = replicate (8 - b) true.
Proof.
  intros H Hb. unfold pad8. rewrite drop_app_ge by done. rewrite drop_replicate. f_equal. lia.
Qed.

Lemma node_check_bits s n : node_check s n = true -> 0 <= node_bits n <= 8.
Proof. unfold node_check. intros H. bool_cases. lia. Qed.

Lemma node_check_root n :
  node_check 0 n = true -> isLeaf n = true -> 5 <= node_bits n <= 8.
Proof. unfold node_check. intros H E. rewrite E in H. bool_cases. simpl in *. bool_cases. lia. Qed.

Lemma node_check_super s n :
  node_check s n = true -> isLeaf n = false -> 0 <= node_data n < kSuperNodes.
Proof. unfold node_check. intros H E. rewrite E in H. bool_cases. lia. Qed.

Lemma returns_ones p : (p <= 7)%nat -> returns 1 (replicate p true) 0.
Proof. intros Hp literal. exists []. rewrite app_nil_r. by apply ones_decode. Qed.

(** At most 8 bits: one more step ends after a branch, and after a leaf when
    what is left does. *)
Lemma returns_short fuel R s :
  (length R <= 8)%nat -> 0 <= s < kSuperNodes ->
  (forall n, node_check s n = true -> isLeaf n = true ->
     returns fuel (drop (Z.to_nat (node_bits n)) (pad8 R)) 0) ->
  returns (S fuel) R s.
Proof.
  intros HR Hs H. apply returns_step; [done|]. intros n Hc. destruct (isLeaf n) eqn:Hl.
  - by apply H.
  - replace (drop 8 (pad8 R)) with (@nil bool); [apply returns_nil|].
    symmetry. apply nil_length_inv. rewrite length_after_key by done. lia.
Qed.

Lemma returns_short3 R : (length R <= 3)%nat -> returns 2 R 0.
Proof.
  intros HR. apply returns_short; [lia|done|]. intros n Hc Hl.
  pose proof (node_check_root n Hc Hl). rewrite ones_after_key by lia. apply returns_ones. lia.
Qed.

Lemma returns_short_root R : (length R <= 8)%nat -> returns 3 R 0.
Proof.
  intros HR. apply returns_short; [lia|done|]. intros n Hc Hl.
  pose proof (node_check_root n Hc Hl). apply returns_short3. rewrite length_after_key by done. lia.
Qed.

Lemma returns_short_any R s : (length R <= 8)%nat -> 0 <= s < kSuperNodes -> returns 4 R s.
Proof.
  intros HR Hs. apply returns_short; [lia|done|]. intros n Hc Hl.
  apply returns_short_root. rewrite length_after_key by done. lia.
Qed.

(** The measure: twice the bits, plus one outside the root, where a leaf may
    use no bit (the code point of EOS). *)
Lemma returns_measure m : forall R s,
  (2 * length R + (if decide (s = 0)%Z then 0 else 1) <= m)%nat -> 0 <= s < kSuperNodes ->
  returns (m + 4) R s.
Proof.
  induction m as [|m IH]; intros R s Hm Hs.
  { apply returns_short_any; [lia|done]. }
  destruct (le_lt_dec (length R) 8) as [H8|H8].
  { apply (returns_mono 4); [lia|]. by apply returns_short_any. }
  cbn [Nat.add]. apply returns_step; [done|]. intros n Hc. rewrite pad8_long by lia.
  pose proof (node_check_bits s n Hc). destruct (isLeaf n) eqn:Hl.
  - apply IH; [|done]. rewrite length_drop. rewrite decide_True by done.
    case_decide; subst; [|lia]. pose proof (node_check_root n Hc Hl). lia.
  - apply IH; [|by apply (node_check_super s)]. rewrite length_drop. repeat case_decide; lia.
Qed.

(** ** Results *)

(** Encoding a literal of fewer than 2^27 bytes, and decoding what was
    written. *)
Lemma encode_decodes literal out :
  bytes_ok literal -> zlen literal < 2 ^ 27 ->
  exists out', encode huffTree literal out = Some (zlen out', out ++ out') /\
    getEncodeSize huffTree literal = Some (zlen out') /\ bytes_ok out' /\
    zlen out' <= 4 * zlen literal /\
    decode huffTree out' [] = Some (true, literal).
Proof.
  intros Hl Hn. pose proof (encbits_bound literal Hl) as Hb.
  destruct (encode_bits literal out Hl) as (out' & p & HE & Hp & Ho & HB).
  pose proof (f_equal length HB) as Hlen.
  rewrite length_bytes_bits, length_app, length_replicate in Hlen.
  exists out'. split_and!.
  - rewrite HE, u32_id; [done|]. unfold is_u32, zlen in *. lia.
  - unfold getEncodeSize. rewrite getEncodeSize_bits_spec by (done || lia).
    unfold mbind, option_bind. rewrite Z.add_0_l. f_equal. by apply (bytes_of_bits _ p).
  - done.
  - unfold zlen in *. lia.
  - unfold decode. rewrite (decode_loop_bits _ out' 0 0 0) by (done || lia).
    change (bits_of 0 0 ++ bytes_bits out') with (bytes_bits out'). rewrite HB.
    destruct (encbits_decode literal p [] Hl Hp) as (f & Hf & HF).
    unfold decode_fuel. replace (16 * length out' + 4)%nat with (f + (16 * length out' + 4 - f))%nat by lia.
    by rewrite HF.
Qed.

Lemma decode_loop_length t fuel : forall buf w wbits s literal lit,
  decode_loop fuel t buf w wbits s literal = Some lit ->
  (length lit <= length literal + fuel)%nat.
Proof.
  induction fuel as [|fuel IH]; intros buf w wbits s literal lit; cbn [decode_loop];
    (destruct (more_bits buf wbits); [|intros [= ->]; lia]); [done|].
  destruct (load_byte buf w wbits) as [[w1 wb1] buf1].
  destruct (next_key w1 wb1) as [[key w2] wb2].
  destruct (node_at t s key) as [node|]; cbn [mbind option_bind]; [|done].
  destruct (isLeaf node); intros H; apply IH in H; [rewrite length_app in H; simpl in H|]; lia.
Qed.

Lemma decode_returns buf literal :
  bytes_ok buf -> exists lit, decode huffTree buf literal = Some (true, literal ++ lit) /\
    zlen lit <= 16 * zlen buf + 4.
Proof.
  intros Hb. unfold decode.
  assert (exists lit, decode_loop (decode_fuel (length buf)) T buf 0 0 0 literal = Some (literal ++ lit))
    as [lit Hl].
  { rewrite (decode_loop_bits _ buf 0 0 0) by (done || lia).
  change (bits_of 0 0 ++ bytes_bits buf) with (bytes_bits buf).
  destruct (returns_measure (16 * length buf) (bytes_bits buf) 0) with (literal := literal)
    as [lit Hlit]; [|done|].
  - rewrite length_bytes_bits, decide_True by done. lia.
  - exists lit. unfold decode_fuel. by rewrite Hlit. }
  exists lit. rewrite Hl. split; [done|]. apply decode_loop_length in Hl.
  unfold decode_fuel in Hl. rewrite length_app in Hl. unfold zlen. lia.
Qed.

(** C29. Decoding inverts encoding: for every literal of fewer than 2^27 bytes the
    encoder appends exactly as many bytes as it returns and as [getEncodeSize]
    announces, and decoding them yields the literal, with no access outside the
    46 super nodes and within the loop bound. *)
Theorem huffman_roundtrip literal out :
  bytes_ok literal -> zlen literal < 2 ^ 27 ->
  exists out', encode huffTree literal out = Some (zlen out', out ++ out') /\
    getEncodeSize huffTree literal = Some (zlen out') /\ bytes_ok out' /\
    decode huffTree out' [] = Some (true, literal).
Proof.
  intros Hl Hn. destruct (encode_decodes literal out Hl Hn) as (out' & HE & HS & Ho & _ & HD).
  by exists out'.
Qed.

(** The literal "www.example.com" of RFC 7541, C.4.1. *)
Lemma huffman_roundtrip_witness :
  bytes_ok [119;119;119;46;101;120;97;109;112;108;101;46;99;111;109] /\
  exists out', encode huffTree [119;119;119;46;101;120;97;109;112;108;101;46;99;111;109] [] =
      Some (zlen out', [] ++ out') /\
    getEncodeSize huffTree [119;119;119;46;101;120;97;109;112;108;101;46;99;111;109] =
      Some (zlen out') /\ bytes_ok out' /\
    decode huffTree out' [] = Some (true, [119;119;119;46;101;120;97;109;112;108;101;46;99;111;109]).
Proof.
  assert (H : bytes_ok [119;119;119;46;101;120;97;109;112;108;101;46;99;111;109])
    by (repeat constructor; unfold is_u8; lia).
  split; [exact H|]. apply (huffman_roundtrip _ [] H). vm_compute. reflexivity.
Defined.

(** [decode] returns on every byte string, well formed or not: it stays within
    its tables, its loop ends within [decode_fuel] iterations, it only appends to
    the literal, and its result is always [true]. *)
Theorem huffman_decode_total buf literal :
  bytes_ok buf -> exists lit, decode huffTree buf literal = Some (true, literal ++ lit).
Proof. intros Hb. destruct (decode_returns buf literal Hb) as (lit & HD & _). by exists lit. Qed.

(** A literal that contains the EOS code (thirty ones) and one that is padded
    with a whole byte of ones are decoded as if they were well formed: the first
    yields a zero byte, the second the empty literal, and both return [true],
    while the comment of [decode] promises [true] only for a successful decode
    (RFC 7541, 5.2 makes both of them decoding errors). *)
Theorem huffman_invalid_accepted :
  decode huffTree [255; 255; 255; 255] [] = Some (true, [0]) /\
  decode huffTree [255; 255] [] = Some (true, []).
Proof. split; vm_compute; reflexivity. Qed.

End Huffman.
