(* ===== verification/HPACKBuffers.v ===== *)
(** * HPACK primitives
    ([src/proxygen/proxygen/lib/http/codec/compress/HPACKConstants.h],
    [HPACKEncodeBuffer.cpp], [HPACKDecodeBuffer.cpp])

    [HPACK] holds the instruction patterns and the decode errors.
    [HPACKEncodeBuffer] appends integers and literals to a queue of bytes, with
    the prefix coding of RFC 7541, 5.1 and the literal coding of 5.2.
    [HPACKDecodeBuffer] reads them back from a cursor, under a budget of
    [remainingBytes_].  The theorems are the round trips of the two primitives,
    the exact value of a decoded integer, and that decoding never aborts, never
    runs past its budget and reads at most 11 bytes for an integer. *)

From S2P Require Import Prelude Huffman.

Module HPACK.

Record Instruction := mkInstruction { code : Z; prefixLength : Z }.

Definition INDEX_REF : Instruction := mkInstruction 0x80 7.
Definition LITERAL_INC_INDEX : Instruction := mkInstruction 0x40 6.
Definition LITERAL : Instruction := mkInstruction 0x00 4.
Definition LITERAL_NEV_INDEX : Instruction := mkInstruction 0x10 4.
Definition TABLE_SIZE_UPDATE : Instruction := mkInstruction 0x20 5.

Definition kTableSize : Z := 4096.

Definition NBIT_MASKS : list Z := [0x00; 0x01; 0x03; 0x07; 0x0F; 0x1F; 0x3F; 0x7F; 0xFF].

Inductive DecodeError :=
| NONE
| INVALID_INDEX
| INVALID_HUFFMAN_CODE
| INVALID_ENCODING
| INTEGER_OVERFLOW
| INVALID_TABLE_SIZE
| HEADERS_TOO_LARGE
| BUFFER_UNDERFLOW
| LITERAL_TOO_LARGE
| TIMEOUT
| ENCODER_STREAM_CLOSED
| BAD_SEQUENCE_NUMBER
| INVALID_ACK
| TOO_MANY_BLOCKING
| INSERT_TOO_LARGE.

#[global] Instance DecodeError_eq_dec : EqDecision DecodeError.
Proof. solve_decision. Defined.

(** [NBIT_MASKS[nbit]] is a mask of [nbit] ones. *)
Lemma nbit_mask nbit :
  1 <= nbit <= 8 -> NBIT_MASKS !! Z.to_nat nbit = Some (Z.ones nbit).
Proof.
  intros H. assert (In nbit (seqZ 1 8)) as Hin by (apply list_elem_of_In, elem_of_seqZ; lia).
  repeat (destruct Hin as [<-|Hin]; [done|]). done.
Qed.

End HPACK.

(** ** The encode buffer *)

Module HPACKEncodeBuffer.

(** [buf_] is the queue the appender writes to; [huffMin_] and [huffMax_] bound
    the sizes of the literals that are Huffman-coded. *)
Record t := mk { buf_ : list Z; growthSize_ : Z; huffMin_ : Z; huffMax_ : Z }.

(** The constructor with [huffmanEnabled]. *)
Definition create (growthSize : Z) (huffmanEnabled : bool) : t :=
  mk [] growthSize (if huffmanEnabled then 0 else UINT32_MAX)
    (if huffmanEnabled then UINT32_MAX else 0).

(** The constructor without it: [huffMin_{0}], [huffMax_(0)]. *)
Definition create_plain (growthSize : Z) : t := mk [] growthSize 0 0.

Definition setHuffmanLimits (b : t) (limits : Z * Z) : t :=
  if huffMax_ b >=? huffMin_ b
  then mk (buf_ b) (growthSize_ b) (fst limits) (snd limits) else b.

(** [buf_.push]. *)
Definition push (b : t) (bytes : list Z) : t :=
  mk (buf_ b ++ bytes) (growthSize_ b) (huffMin_ b) (huffMax_ b).

Definition append (b : t) (byte : Z) : t := push b [u8 byte].

(** [release] hands the queue over and leaves it empty. *)
Definition release (b : t) : list Z * t :=
  (buf_ b, mk [] (growthSize_ b) (huffMin_ b) (huffMax_ b)).

(** [while (value >= 128)], for a 64-bit value: at most 9 iterations. *)
Fixpoint encodeInteger_loop (fuel : nat) (b : t) (value count : Z) : option (Z * t) :=
  if value >=? 128 then
    match fuel with
    | O => None
    | S fuel' =>
        encodeInteger_loop fuel' (append b (Z.lor 128 (Z.land 127 value)))
          (Z.shiftr value 7) (u32 (count + 1))
    end
  else Some (u32 (count + 1), append b value).

Definition encodeInteger (b : t) (value instruction nbit : Z) : option (Z * t) :=
  if (nbit >? 0) && (nbit <=? 8) then
    mask ← HPACK.NBIT_MASKS !! Z.to_nat nbit;
    if value <? mask then Some (1, append b (Z.lor instruction value))
    else
      encodeInteger_loop 9 (append b (Z.lor instruction mask)) (u64 (value - mask)) 1
  else None.

Definition encodeInteger_instr (b : t) (value : Z) (i : HPACK.Instruction) : option (Z * t) :=
  encodeInteger b value (HPACK.code i) (HPACK.prefixLength i).

Definition encodeHuffman (b : t) (instruction nbit : Z) (literal : list Z) : option (Z * t) :=
  size ← Huffman.getEncodeSize Huffman.huffTree literal;
  let huffmanOn := u8 (Z.shiftl 1 nbit) in
  '(count, b) ← encodeInteger b size (Z.lor instruction huffmanOn) nbit;
  '(n, out) ← Huffman.encode Huffman.huffTree literal (buf_ b);
  Some (u32 (count + n), mk out (growthSize_ b) (huffMin_ b) (huffMax_ b)).

Definition encodeLiteral_at (b : t) (instruction nbit : Z) (literal : list Z)
  : option (Z * t) :=
  if (zlen literal >=? huffMin_ b) && (zlen literal <=? huffMax_ b) then
    encodeHuffman b instruction nbit literal
  else
    '(count, b) ← encodeInteger b (zlen literal) instruction nbit;
    Some (u32 (count + zlen literal), push b literal).

Definition encodeLiteral (b : t) (literal : list Z) : option (Z * t) :=
  encodeLiteral_at b 0 7 literal.

End HPACKEncodeBuffer.

(** ** The decode buffer *)

Module HPACKDecodeBuffer.
Import HPACK.

(** [endOfBufferIsError_] only selects how an error is logged. *)
Record t := mk {
  cursor_ : list Z; totalBytes_ : Z; remainingBytes_ : Z; maxLiteralSize_ : Z }.

Definition create (cursorVal : list Z) (totalBytes maxLiteralSize : Z) : t :=
  mk cursorVal totalBytes totalBytes maxLiteralSize.

Definition reset (b : t) (cursorVal : list Z) (totalBytes : Z) : t :=
  mk cursorVal totalBytes totalBytes (maxLiteralSize_ b).

Definition consumedBytes (b : t) : Z := u32 (totalBytes_ b - remainingBytes_ b).

(** A decoding function returns a value, returns an error code, or aborts: a
    [CHECK] fails, or the cursor is read past its end. *)
Inductive dres (A : Type) : Type :=
| DOk (a : A) (b : t)
| DErr (e : DecodeError) (b : t)
| DAbort.
Arguments DOk {A} _ _.
Arguments DErr {A} _ _.
Arguments DAbort {A}.

Definition decoder (A : Type) : Type := t -> dres A.

#[global] Instance decoder_ret : MRet decoder := fun A a b => DOk a b.
#[global] Instance decoder_bind : MBind decoder := fun A B k m b =>
  match m b with
  | DOk a b' => k a b'
  | DErr e b' => DErr e b'
  | DAbort => DAbort
  end.

Definition derr {A} (e : DecodeError) : decoder A := fun b => DErr e b.

Definition dabort {A} : decoder A := fun _ => DAbort.
Definition get : decoder t := fun b => DOk b b.

Definition empty (b : t) : bool := remainingBytes_ b =? 0.

Definition peek : decoder Z := fun b =>
  if remainingBytes_ b >? 0 then
    match cursor_ b with byte :: _ => DOk byte b | [] => DAbort end
  else DAbort.

Definition skip (b : t) (n : Z) : t :=
  mk (drop (Z.to_nat n) (cursor_ b)) (totalBytes_ b) (u32 (remainingBytes_ b - n))
    (maxLiteralSize_ b).

Definition advance (n : Z) : decoder unit := fun b => DOk tt (skip b n).

Definition next : decoder Z := byte ← peek; advance 1;; mret byte.

(** [if (remainingBytes_ == 0) return BUFFER_UNDERFLOW]. *)
Definition nonempty : decoder unit := fun b =>
  if remainingBytes_ b =? 0 then DErr BUFFER_UNDERFLOW b else DOk tt b.

(** The loop ends by itself: [fexp] grows by 7 and more than 64 is an error, so
    it runs at most 11 times. *)
Fixpoint decodeInteger_loop (fuel : nat) (integer f fexp : Z) : decoder Z :=
  match fuel with
  | O => dabort
  | S fuel' =>
      nonempty;;
      byte ← next;
      if fexp >? 64 then derr INTEGER_OVERFLOW
      else
        let add := u64 (Z.land byte 127 * f) in
        if u64 (UINT64_MAX - integer) <=? add then derr INTEGER_OVERFLOW
        else
          let integer := u64 (integer + add) in
          if truth (Z.land byte 128)
          then decodeInteger_loop fuel' integer (u64 (Z.shiftl f 7)) (u32 (fexp + 7))
          else mret integer
  end.

Definition decodeInteger (nbit : Z) : decoder Z :=
  nonempty;;
  byte ← next;
  match NBIT_MASKS !! Z.to_nat nbit with
  | None => dabort
  | Some mask =>
      let byte := Z.land byte mask in
      if negb (byte =? mask) then mret byte
      else decodeInteger_loop 11 byte 1 0
  end.

(** [cursor_.pull] throws past the end of the cursor. *)
Definition pull (size : Z) : decoder (list Z) := fun b =>
  if zlen (cursor_ b) <? size then DAbort
  else DOk (take (Z.to_nat size) (cursor_ b)) (skip b size).

Definition decodeLiteral_at (nbit : Z) : decoder (list Z) :=
  nonempty;;
  byte ← peek;
  let huffmanCheck := u8 (Z.shiftl 1 nbit) in
  let huffman := truth (Z.land byte huffmanCheck) in
  size ← decodeInteger nbit;
  b ← get;
  if size >? remainingBytes_ b then derr BUFFER_UNDERFLOW
  else if size >? maxLiteralSize_ b then derr LITERAL_TOO_LARGE
  else
    data ← pull size;
    if huffman then
      match Huffman.decode Huffman.huffTree data [] with
      | Some (_, literal) => mret literal
      | None => dabort
      end
    else mret data.

Definition decodeLiteral : decoder (list Z) := decodeLiteral_at 7.

End HPACKDecodeBuffer.

(** ** The wire format of integers and literals

    [varint] are the continuation bytes of an integer, [enc_int] the whole
    integer behind an instruction pattern. *)

Module Wire.
Import HPACK.

Fixpoint varint (fuel : nat) (v : Z) : list Z :=
  match fuel with
  | O => [v]
  | S fuel' => if v <? 128 then [v] else 128 + v mod 128 :: varint fuel' (v / 128)
  end.

Definition enc_int (v instruction nbit : Z) : list Z :=
  if v <? Z.ones nbit then [instruction + v]
  else instruction + Z.ones nbit :: varint 9 (v - Z.ones nbit).

(** An instruction pattern leaves the low [nbit] bits of its byte free. *)
Definition pattern (instruction nbit : Z) : Prop :=
  1 <= nbit <= 8 /\ 0 <= instruction < 256 /\ instruction mod 2 ^ nbit = 0.

#[global] Instance pattern_dec i n : Decision (pattern i n).
Proof. unfold pattern. apply _. Defined.

Lemma ones_range nbit : 1 <= nbit <= 8 -> 1 <= Z.ones nbit < 2 ^ nbit /\ 2 ^ nbit <= 256.
Proof.
  intros H. rewrite Z.ones_equiv. pose proof (Z.pow_le_mono_r 2 nbit 8).
  pose proof (Z.pow_le_mono_r 2 1 nbit). change (2 ^ 8) with 256 in *. lia.
Qed.

Lemma pattern_lor instruction nbit v :
  pattern instruction nbit -> 0 <= v < 2 ^ nbit ->
  Z.lor instruction v = instruction + v /\ 0 <= instruction + v < 256.
Proof.
  intros (Hn & Hi & Hm) Hv. pose proof (ones_range nbit Hn) as [_ Hle].
  assert (Hk : instruction = (instruction / 2 ^ nbit) * 2 ^ nbit).
  { rewrite (Z.div_mod instruction (2 ^ nbit)) at 1 by lia. lia. }
  split.
  - rewrite Hk at 1. rewrite <- Z.shiftl_mul_pow2 by lia. rewrite lor_shiftl_add by lia. lia.
  - assert (instruction / 2 ^ nbit + 1 <= 2 ^ (8 - nbit)).
    { assert (instruction / 2 ^ nbit < 2 ^ (8 - nbit)); [|lia].
      apply Z.div_lt_upper_bound; [lia|]. rewrite <- Z.pow_add_r by lia.
      replace (nbit + (8 - nbit)) with 8 by lia. lia. }
    assert (2 ^ (8 - nbit) * 2 ^ nbit = 256).
    { rewrite <- Z.pow_add_r by lia. replace (8 - nbit + nbit) with 8 by lia. done. }
    nia.
Qed.

(** The prefix of the first byte. *)
Lemma pattern_low instruction nbit v :
  pattern instruction nbit -> 0 <= v < 2 ^ nbit -> (instruction + v) mod 2 ^ nbit = v.
Proof.
  intros (Hn & Hi & Hm) Hv. rewrite Z.add_mod, Hm by lia.
  rewrite Z.add_0_l, Z.mod_mod, Z.mod_small by lia. done.
Qed.

Lemma varint_ok fuel : forall v, 0 <= v < 2 ^ (7 * Z.of_nat fuel + 7) -> bytes_ok (varint fuel v).
Proof.
  induction fuel as [|fuel IH]; intros v Hv; cbn [varint].
  - repeat constructor; simpl in Hv; unfold is_u8; lia.
  - destruct (Z.ltb_spec v 128).
    + repeat constructor; unfold is_u8; lia.
    + constructor; [pose proof (Z.mod_pos_bound v 128); unfold is_u8; lia|].
      apply IH. split; [apply Z.div_pos; lia|]. apply Z.div_lt_upper_bound; [lia|].
      replace (7 * Z.of_nat (S fuel) + 7) with (7 + (7 * Z.of_nat fuel + 7)) in Hv by lia.
      rewrite (Z.pow_add_r 2 7) in Hv by lia. lia.
Qed.

Lemma varint_length fuel v : (1 <= length (varint fuel v) <= S fuel)%nat.
Proof.
  revert v. induction fuel as [|fuel IH]; intros v; cbn [varint]; [simpl; lia|].
  destruct (v <? 128); simpl; [lia|]. specialize (IH (v / 128)). lia.
Qed.

Lemma enc_int_ok v instruction nbit :
  pattern instruction nbit -> is_u64 v -> bytes_ok (enc_int v instruction nbit).
Proof.
  intros Hp Hv. pose proof (ones_range nbit (proj1 Hp)). unfold enc_int.
  destruct (Z.ltb_spec v (Z.ones nbit)).
  - pose proof (pattern_lor instruction nbit v Hp). unfold_ints.
    repeat constructor; lia.
  - pose proof (pattern_lor instruction nbit (Z.ones nbit) Hp). constructor; [unfold is_u8; lia|].
    apply varint_ok. unfold_ints. change (2 ^ (7 * Z.of_nat 9 + 7)) with (2 ^ 70).
    pose proof (Z.pow_lt_mono_r 2 64 70). lia.
Qed.

Lemma enc_int_length v instruction nbit : 1 <= zlen (enc_int v instruction nbit) <= 11.
Proof.
  unfold enc_int, zlen. destruct (v <? _); cbn [length]; [lia|].
  pose proof (varint_length 9 (v - Z.ones nbit)). lia.
Qed.

End Wire.

(** ** What the encode buffer appends *)

Module EncodeSpec.
Import HPACK Wire HPACKEncodeBuffer.

Lemma push_push b l1 l2 : push (push b l1) l2 = push b (l1 ++ l2).
Proof. unfold push. simpl. by rewrite app_assoc. Qed.

Lemma append_push b x : is_u8 x -> append b x = push b [x].
Proof. intros H. unfold append. by rewrite u8_id. Qed.

Lemma encodeInteger_loop_spec fuel : forall b v c,
  0 <= v < 2 ^ (7 * Z.of_nat fuel + 7) -> is_u32 c ->
  encodeInteger_loop fuel b v c =
  Some (u32 (c + zlen (varint fuel v)), push b (varint fuel v)).
Proof.
  induction fuel as [|fuel IH]; intros b v c Hv Hc; cbn [encodeInteger_loop varint];
    rewrite Z.geb_leb.
  - simpl in Hv. destruct (Z.leb_spec 128 v); [lia|].
    rewrite append_push by (unfold is_u8; lia). done.
  - destruct (Z.leb_spec 128 v) as [H|H]; destruct (Z.ltb_spec v 128); try lia.
    + rewrite (Z.land_comm 127), land_u7f. change (2 ^ 7) with 128.
      pose proof (Z.mod_pos_bound v 128 ltac:(lia)).
      replace (Z.lor 128 (v mod 128)) with (128 + v mod 128)
        by (symmetry; apply (lor_shiftl_add 1 (v mod 128) 7); lia).
      rewrite append_push by (unfold is_u8; lia).
      rewrite Z.shiftr_div_pow2 by lia. change (2 ^ 7) with 128.
      rewrite IH; [|split; [apply Z.div_pos; lia|]|apply u32_range].
      * rewrite push_push. do 2 f_equal. unfold zlen, u32. cbn [length app].
        rewrite Z.add_mod_idemp_l by lia. f_equal. lia.
      * apply Z.div_lt_upper_bound; [lia|].
        replace (7 * Z.of_nat (S fuel) + 7) with (7 + (7 * Z.of_nat fuel + 7)) in Hv by lia.
        rewrite (Z.pow_add_r 2 7) in Hv by lia. lia.
    + rewrite append_push by (unfold is_u8; lia). done.
Qed.

Lemma encodeInteger_spec b v instruction nbit :
  pattern instruction nbit -> is_u64 v ->
  encodeInteger b v instruction nbit =
  Some (zlen (enc_int v instruction nbit), push b (enc_int v instruction nbit)).
Proof.
  intros Hp Hv. pose proof (ones_range nbit (proj1 Hp)) as [Ho Hle].
  unfold encodeInteger. rewrite (proj2 (andb_true_iff _ _)) by
    (split; [apply Z.gtb_lt|apply Z.leb_le]; destruct Hp; lia).
  rewrite nbit_mask by apply Hp. unfold mbind, option_bind, enc_int.
  destruct (Z.ltb_spec v (Z.ones nbit)).
  - destruct (pattern_lor instruction nbit v Hp) as [-> Hr]; [unfold_ints; lia|].
    by rewrite append_push by (unfold is_u8; lia).
  - destruct (pattern_lor instruction nbit (Z.ones nbit) Hp) as [-> Hr]; [lia|].
    rewrite append_push by (unfold is_u8; lia). rewrite u64_id by (unfold_ints; lia).
    rewrite encodeInteger_loop_spec; [|unfold_ints; pose proof (Z.pow_lt_mono_r 2 64 70);
      change (7 * Z.of_nat 9 + 7) with 70; lia|unfold is_u32; lia].
    rewrite push_push. do 2 f_equal. pose proof (varint_length 9 (v - Z.ones nbit)).
    unfold zlen in *. cbn [length app]. rewrite u32_id by (unfold is_u32; lia). lia.
Qed.

End EncodeSpec.

(** ** What the decode buffer reads *)

Module DecodeSpec.
Import HPACK Wire HPACKDecodeBuffer.

(** The buffer starts with [l], within its budget. *)
Definition holds (b : t) (l rest : list Z) : Prop :=
  cursor_ b = l ++ rest /\ zlen l <= remainingBytes_ b /\ is_u32 (remainingBytes_ b).

Lemma skip_skip b m n : 0 <= m -> 0 <= n -> skip (skip b m) n = skip b (m + n).
Proof.
  intros Hm Hn. unfold skip. simpl. f_equal.
  - rewrite drop_drop. f_equal. lia.
  - unfold u32. rewrite Zminus_mod_idemp_l. f_equal. lia.
Qed.

Lemma holds_skip b l1 l2 rest :
  holds b (l1 ++ l2) rest -> holds (skip b (zlen l1)) l2 rest.
Proof.
  unfold holds, zlen. rewrite length_app. intros (Hc & Hr & Hu). unfold skip. simpl.
  rewrite Hc, <- app_assoc, Nat2Z.id, drop_app_length. split; [done|].
  rewrite u32_id by (unfold_ints; lia). unfold_ints. lia.
Qed.

Lemma dbind_ok {A B} (m : decoder A) (k : A -> decoder B) b a b' :
  m b = DOk a b' -> (m ≫= k) b = k a b'.
Proof. intros H. unfold mbind, decoder_bind. by rewrite H. Qed.

Lemma peek_cons b x l rest : holds b (x :: l) rest -> peek b = DOk x b.
Proof.
  intros (Hc & Hr & Hu). unfold peek. rewrite Hc. unfold zlen in Hr. simpl in Hr.
  rewrite (proj2 (Z.gtb_lt _ _)) by lia. done.
Qed.

Lemma next_cons b x l rest : holds b (x :: l) rest -> next b = DOk x (skip b 1).
Proof. intros H. unfold next. by rewrite (dbind_ok _ _ _ _ _ (peek_cons b x l rest H)). Qed.

Lemma nonempty_cons b x l rest : holds b (x :: l) rest -> nonempty b = DOk tt b.
Proof.
  intros (Hc & Hr & Hu). unfold nonempty, zlen in *. simpl in Hr.
  destruct (Z.eqb_spec (remainingBytes_ b) 0); [lia|done].
Qed.

Lemma truth_bit7 x : is_u8 x -> truth (Z.land x 128) = (128 <=? x).
Proof.
  intros H. apply (u8_forall (fun x => Bool.eqb (truth (Z.land x 128)) (128 <=? x)) eq_refl) in H.
  by apply Bool.eqb_prop.
Qed.

(** One continuation byte that does not overflow. *)
Lemma loop_step dfuel integer f fexp b x l rest :
  holds b (x :: l) rest -> is_u8 x -> fexp <= 64 -> 0 <= integer -> 0 <= f ->
  integer + x mod 128 * f < UINT64_MAX ->
  decodeInteger_loop (S dfuel) integer f fexp b =
  if 128 <=? x
  then decodeInteger_loop dfuel (integer + x mod 128 * f) (u64 (Z.shiftl f 7)) (u32 (fexp + 7)) (skip b 1)
  else DOk (integer + x mod 128 * f) (skip b 1).
Proof.
  intros Hh Hx Hf Hi Hf0 Hb. cbn [decodeInteger_loop].
  rewrite (dbind_ok _ _ _ _ _ (nonempty_cons _ _ _ _ Hh)).
  rewrite (dbind_ok _ _ _ _ _ (next_cons _ _ _ _ Hh)).
  rewrite land_u7f, truth_bit7 by done. change (2 ^ 7) with 128.
  pose proof (Z.mod_pos_bound x 128 ltac:(lia)).
  assert (Ha : is_u64 (x mod 128 * f)) by (unfold_ints; nia).
  rewrite (u64_id _ Ha), !u64_id by (unfold_ints; nia).
  rewrite Z.gtb_ltb, (proj2 (Z.ltb_ge 64 fexp)) by lia.
  rewrite (proj2 (Z.leb_gt _ _)) by (unfold_ints; lia).
  by destruct (128 <=? x).
Qed.

(** The continuation bytes of [v], read at weight [2^fexp]. *)
Lemma decode_varint fuel : forall v dfuel integer fexp b rest,
  0 <= v < 2 ^ (7 * Z.of_nat fuel + 7) -> (fexp = 0 \/ 0 < v) -> 0 <= integer -> 0 <= fexp ->
  integer + v * 2 ^ fexp < UINT64_MAX -> 77 <= fexp + 7 * Z.of_nat dfuel ->
  holds b (varint fuel v) rest ->
  decodeInteger_loop dfuel integer (2 ^ fexp) fexp b =
  DOk (integer + v * 2 ^ fexp) (skip b (zlen (varint fuel v))).
Proof.
  induction fuel as [|fuel IH]; intros v dfuel integer fexp b rest Hv H0 Hi Hf Hb Hd Hh;
    (assert (Hp : 0 < 2 ^ fexp) by (apply Z.pow_pos_nonneg; lia));
    (assert (Hf63 : fexp <= 63) by (destruct H0 as [|H0]; [lia|]; apply Z.nlt_ge; intros ?;
       pose proof (Z.pow_le_mono_r 2 64 fexp); unfold_ints; nia));
    (destruct dfuel as [|dfuel]; [lia|]); cbn [varint] in *.
  - simpl in Hv. rewrite (loop_step _ _ _ _ _ v [] rest); try done; try lia;
      rewrite ?Z.mod_small by lia; [|unfold is_u8; lia|done].
    by rewrite (proj2 (Z.leb_gt _ _)) by lia.
  - destruct (Z.ltb_spec v 128) as [Hlt|Hge].
    + rewrite (loop_step _ _ _ _ _ v [] rest); try done; try lia;
        rewrite ?Z.mod_small by lia; [|unfold is_u8; lia|done].
      by rewrite (proj2 (Z.leb_gt _ _)) by lia.
    + pose proof (Z.mod_pos_bound v 128 ltac:(lia)). pose proof (Z.div_mod v 128 ltac:(lia)) as Hdm.
      assert (Hm : (128 + v mod 128) mod 128 = v mod 128).
      { clear -Hge. Z.div_mod_to_equations. lia. }
      assert (Hq : 1 <= v / 128) by (apply Z.div_le_lower_bound; lia).
      assert (E : 2 ^ (fexp + 7) = 2 ^ fexp * 128) by (by rewrite Z.pow_add_r by lia).
      assert (Hf56 : fexp + 7 <= 63).
      { apply Z.nlt_ge; intros ?. pose proof (Z.pow_le_mono_r 2 64 (fexp + 7)). unfold_ints. nia. }
      assert (Hb' : integer + (128 + v mod 128) mod 128 * 2 ^ fexp < UINT64_MAX).
      { rewrite Hm. eapply Z.le_lt_trans; [|exact Hb]. apply Z.add_le_mono_l, Z.mul_le_mono_nonneg_r; lia. }
      assert (Hx : is_u8 (128 + v mod 128)) by (unfold is_u8; lia).
      rewrite (loop_step dfuel _ (2 ^ fexp) fexp b _ _ rest Hh Hx ltac:(lia) Hi ltac:(lia) Hb'), Hm.
      rewrite (proj2 (Z.leb_le _ _)) by lia.
      assert (Hs : u64 (Z.shiftl (2 ^ fexp) 7) = 2 ^ (fexp + 7)).
      { rewrite Z.shiftl_mul_pow2 by lia. change (2 ^ 7) with 128. rewrite <- E. apply u64_id.
        unfold is_u64. split; [lia|]. apply Z.pow_lt_mono_r; lia. }
      rewrite Hs, u32_id by (unfold is_u32; lia).
      assert (Hv' : 0 <= v / 128 < 2 ^ (7 * Z.of_nat fuel + 7)).
      { split; [lia|]. apply Z.div_lt_upper_bound; [lia|].
        replace (7 * Z.of_nat (S fuel) + 7) with (7 + (7 * Z.of_nat fuel + 7)) in Hv by lia.
        rewrite (Z.pow_add_r 2 7) in Hv by lia. lia. }
      assert (Hsum : integer + v mod 128 * 2 ^ fexp + v / 128 * 2 ^ (fexp + 7) = integer + v * 2 ^ fexp).
      { rewrite Hdm at 3. rewrite E. ring. }
      assert (0 <= v mod 128 * 2 ^ fexp) by (apply Z.mul_nonneg_nonneg; lia).
      rewrite (IH (v / 128) dfuel _ _ (skip b 1) rest); try done; try lia.
      * rewrite skip_skip by (unfold zlen; lia). f_equal; [done|].
        f_equal. unfold zlen. cbn [length]. lia.
      * by apply (holds_skip b [128 + v mod 128]).
Qed.

Lemma decodeInteger_spec b v instruction nbit rest :
  pattern instruction nbit -> 0 <= v < UINT64_MAX ->
  holds b (enc_int v instruction nbit) rest ->
  decodeInteger nbit b = DOk v (skip b (zlen (enc_int v instruction nbit))).
Proof.
  intros Hp Hv Hh. pose proof (ones_range nbit (proj1 Hp)) as [Ho Hle].
  unfold decodeInteger, enc_int in *. rewrite nbit_mask by apply Hp.
  assert (Hl : forall x, 0 <= x < 2 ^ nbit -> Z.land (instruction + x) (Z.ones nbit) = x).
  { intros x Hx. rewrite Z.land_ones by (destruct Hp; lia). by apply pattern_low. }
  destruct (Z.ltb_spec v (Z.ones nbit)).
  - rewrite (dbind_ok _ _ _ _ _ (nonempty_cons _ _ _ _ Hh)).
    rewrite (dbind_ok _ _ _ _ _ (next_cons _ _ _ _ Hh)). rewrite Hl by lia.
    destruct (Z.eqb_spec v (Z.ones nbit)); [lia|]. done.
  - rewrite (dbind_ok _ _ _ _ _ (nonempty_cons _ _ _ _ Hh)).
    rewrite (dbind_ok _ _ _ _ _ (next_cons _ _ _ _ Hh)). rewrite Hl by lia.
    rewrite Z.eqb_refl. cbn [negb].
    pose proof (decode_varint 9 (v - Z.ones nbit) 11 (Z.ones nbit) 0 (skip b 1) rest) as HV.
    change (2 ^ 0) with 1 in HV. change (7 * Z.of_nat 9 + 7) with 70 in HV.
    pose proof (Z.pow_lt_mono_r 2 64 70).
    rewrite HV; [|unfold_ints; lia..|by apply (holds_skip b [instruction + Z.ones nbit])].
    rewrite skip_skip by (unfold zlen; lia). f_equal; [lia|].
    f_equal. unfold zlen. cbn [length]. lia.
Qed.

(** ** Literals *)

Lemma enc_int_cons v instruction nbit :
  pattern instruction nbit -> 0 <= v ->
  exists x l, enc_int v instruction nbit = instruction + x :: l /\ 0 <= x < 2 ^ nbit.
Proof.
  intros Hp Hv. pose proof (ones_range nbit (proj1 Hp)). unfold enc_int.
  destruct (Z.ltb_spec v (Z.ones nbit)); eexists _, _; (split; [reflexivity|lia]).
Qed.

(** The bit in front of the length says whether the literal is Huffman-coded. *)
Lemma huffman_bit instruction nbit (h : bool) x :
  1 <= nbit <= 7 -> pattern instruction (nbit + 1) -> 0 <= x < 2 ^ nbit ->
  truth (Z.land (instruction + Z.b2z h * 2 ^ nbit + x) (u8 (Z.shiftl 1 nbit))) = h.
Proof.
  intros Hn Hp Hx. set (y := instruction + _ + x).
  assert (E2 : 2 ^ (nbit + 1) = 2 * 2 ^ nbit) by (rewrite Z.pow_add_r by lia; lia).
  assert (Hy : y = instruction + (Z.b2z h * 2 ^ nbit + x)) by (unfold y; lia).
  assert (Hr : 0 <= Z.b2z h * 2 ^ nbit + x < 2 ^ (nbit + 1)) by (destruct h; simpl Z.b2z; lia).
  pose proof (pattern_lor _ _ _ Hp Hr) as [_ Hy8]. rewrite <- Hy in Hy8.
  assert (Hbit : (y / 2 ^ nbit) mod 2 = Z.b2z h).
  { pose proof (pattern_low _ _ _ Hp Hr) as Hlow. rewrite <- Hy, E2, Z.mul_comm in Hlow.
    rewrite Z.rem_mul_r in Hlow by lia. pose proof (Z.mod_pos_bound y (2 ^ nbit)).
    pose proof (Z.mod_pos_bound (y / 2 ^ nbit) 2). destruct h; simpl Z.b2z in *; nia. }
  assert (Hall : forallb (fun n => forallb (fun y =>
      Bool.eqb (truth (Z.land y (u8 (Z.shiftl 1 n)))) ((y / 2 ^ n) mod 2 =? 1))
      (seqZ 0 256)) (seqZ 1 7) = true) by (vm_compute; reflexivity).
  rewrite forallb_forall in Hall. specialize (Hall nbit).
  specialize (Hall ltac:(apply list_elem_of_In, elem_of_seqZ; lia)).
  apply (u8_forall _ Hall) in Hy8. apply Bool.eqb_prop in Hy8. rewrite Hy8, Hbit.
  by destruct h.
Qed.

Lemma pattern_weaken instruction nbit (h : bool) :
  1 <= nbit <= 7 -> pattern instruction (nbit + 1) ->
  pattern (instruction + Z.b2z h * 2 ^ nbit) nbit.
Proof.
  intros Hn Hp. pose proof Hp as (_ & Hi & Hm).
  assert (E2 : 2 ^ (nbit + 1) = 2 ^ nbit * 2) by (rewrite Z.pow_add_r by lia; lia).
  assert (0 < 2 ^ nbit) by (apply Z.pow_pos_nonneg; lia).
  split; [lia|]. split.
  - destruct (pattern_lor instruction (nbit + 1) (Z.b2z h * 2 ^ nbit) Hp) as [_ Hr];
      destruct h; simpl Z.b2z in *; lia.
  - rewrite Z.mod_add by lia. rewrite E2, Z.rem_mul_r in Hm by lia.
    pose proof (Z.mod_pos_bound instruction (2 ^ nbit)).
    pose proof (Z.mod_pos_bound (instruction / 2 ^ nbit) 2). nia.
Qed.

Lemma pull_app b data rest :
  holds b data rest -> pull (zlen data) b = DOk data (skip b (zlen data)).
Proof.
  intros (Hc & Hr & Hu). unfold pull. rewrite Hc. unfold zlen.
  rewrite length_app, Nat2Z.id, take_app_length.
  by rewrite (proj2 (Z.ltb_ge _ _)) by lia.
Qed.

(** A length and [data] are read as [data], or as what [data] decodes to. *)
Lemma decodeLiteral_holds b instruction nbit (h : bool) data literal rest :
  1 <= nbit <= 7 -> pattern instruction (nbit + 1) -> zlen data <= maxLiteralSize_ b ->
  (if h then Huffman.decode Huffman.huffTree data [] = Some (true, literal) else data = literal) ->
  holds b (enc_int (zlen data) (instruction + Z.b2z h * 2 ^ nbit) nbit ++ data) rest ->
  decodeLiteral_at nbit b =
  DOk literal (skip b (zlen (enc_int (zlen data) (instruction + Z.b2z h * 2 ^ nbit) nbit ++ data))).
Proof.
  intros Hn Hp Hmax Hd Hh. pose proof (pattern_weaken instruction nbit h Hn Hp) as Hp'.
  set (hdr := enc_int (zlen data) (instruction + Z.b2z h * 2 ^ nbit) nbit) in *.
  assert (Hz : zlen (hdr ++ data) = zlen hdr + zlen data) by (unfold zlen; rewrite length_app; lia).
  pose proof Hh as (_ & Hrem & Hu). rewrite Hz in Hrem.
  pose proof (enc_int_length (zlen data) (instruction + Z.b2z h * 2 ^ nbit) nbit) as Hlen.
  fold hdr in Hlen.
  destruct (enc_int_cons (zlen data) _ nbit Hp') as (x & l & Hx & Hxr); [unfold zlen; lia|].
  assert (Hh' : holds b hdr (data ++ rest)).
  { destruct Hh as (Hc & _). split; [by rewrite Hc, <- app_assoc|]. split; [unfold zlen in *; lia|done]. }
  pose proof (holds_skip b hdr data rest Hh) as Hh2.
  unfold decodeLiteral_at.
  assert (Hhc : holds b (instruction + Z.b2z h * 2 ^ nbit + x :: l) (data ++ rest)).
  { unfold hdr in Hh'. by rewrite Hx in Hh'. }
  rewrite (dbind_ok _ _ _ _ _ (nonempty_cons _ _ _ _ Hhc)).
  rewrite (dbind_ok _ _ _ _ _ (peek_cons _ _ _ _ Hhc)).
  rewrite huffman_bit by done.
  assert (Hsz : 0 <= zlen data < UINT64_MAX) by (unfold zlen in *; unfold_ints; lia).
  rewrite (dbind_ok _ _ _ _ _ (decodeInteger_spec _ _ _ _ _ Hp' Hsz Hh')).
  erewrite (dbind_ok get); [|reflexivity]. fold hdr. cbn [skip remainingBytes_ maxLiteralSize_].
  rewrite u32_id by (unfold zlen in *; unfold_ints; lia). rewrite !Z.gtb_ltb.
  rewrite (proj2 (Z.ltb_ge (remainingBytes_ b - zlen hdr) _)) by lia.
  rewrite (proj2 (Z.ltb_ge (maxLiteralSize_ b) _)) by lia.
  erewrite (dbind_ok (pull _)); [|by apply (pull_app _ data rest)].
  rewrite skip_skip, <- Hz by (unfold zlen; lia).
  destruct h; [by rewrite Hd|by subst].
Qed.

End DecodeSpec.

(** Setting the Huffman bit. *)
Lemma huffmanOn_pattern instruction nbit :
  1 <= nbit <= 7 -> Wire.pattern instruction (nbit + 1) ->
  Z.lor instruction (u8 (Z.shiftl 1 nbit)) = instruction + Z.b2z true * 2 ^ nbit.
Proof.
  intros Hn Hp. pose proof (Z.pow_lt_mono_r 2 nbit 8 ltac:(lia) ltac:(lia) ltac:(lia)).
  assert (0 < 2 ^ nbit) by (apply Z.pow_pos_nonneg; lia).
  rewrite Z.shiftl_mul_pow2, u8_id by (unfold is_u8; lia).
  apply (Wire.pattern_lor instruction (nbit + 1)); [done|].
  rewrite Z.pow_add_r by lia. simpl Z.b2z. lia.
Qed.

(** What is encoded with [encodeLiteral] is read back with [decodeLiteral]; the
    decode buffer's limit applies to the coded size, at most 4 bytes per byte. *)
Lemma encodeLiteral_decodes eb instruction nbit literal :
  1 <= nbit <= 7 -> Wire.pattern instruction (nbit + 1) -> bytes_ok literal ->
  zlen literal < 2 ^ 27 ->
  exists hdr data,
    HPACKEncodeBuffer.encodeLiteral_at eb instruction nbit literal =
      Some (zlen (hdr ++ data), HPACKEncodeBuffer.push eb (hdr ++ data)) /\
    bytes_ok (hdr ++ data) /\ 1 <= zlen hdr <= 11 /\ zlen data <= 4 * zlen literal /\
    (exists x l, hdr = instruction + x :: l /\ 0 <= x < 2 ^ (nbit + 1)) /\
    forall db rest, DecodeSpec.holds db (hdr ++ data) rest ->
      zlen data <= HPACKDecodeBuffer.maxLiteralSize_ db ->
      HPACKDecodeBuffer.decodeLiteral_at nbit db =
      HPACKDecodeBuffer.DOk literal (HPACKDecodeBuffer.skip db (zlen (hdr ++ data))).
Proof.
  intros Hn Hp Hl Hz. unfold HPACKEncodeBuffer.encodeLiteral_at.
  assert (Hz0 : 0 <= zlen literal) by (unfold zlen; lia).
  assert (Happ : forall a b : list Z, zlen (a ++ b) = zlen a + zlen b)
    by (intros; unfold zlen; rewrite length_app; lia).
  pose proof (fun n h => Wire.enc_int_length n (instruction + Z.b2z h * 2 ^ nbit) nbit) as Hlen.
  assert (Hfirst : forall n (h : bool), 0 <= n -> exists x l,
    Wire.enc_int n (instruction + Z.b2z h * 2 ^ nbit) nbit = instruction + x :: l /\
    0 <= x < 2 ^ (nbit + 1)).
  { intros n h Hn0. pose proof (DecodeSpec.pattern_weaken instruction nbit h Hn Hp) as Hp'.
    destruct (DecodeSpec.enc_int_cons n _ nbit Hp' Hn0) as (x & l & -> & Hx).
    exists (Z.b2z h * 2 ^ nbit + x), l. rewrite Z.pow_add_r by lia.
    split; [f_equal; lia|]. destruct h; simpl Z.b2z; lia. }
  destruct (_ && _).
  - destruct (Huffman.encode_decodes literal [] Hl Hz) as (data0 & _ & HS0 & _).
    pose proof (DecodeSpec.pattern_weaken instruction nbit true Hn Hp) as Hp'.
    set (hdr := Wire.enc_int (zlen data0) (instruction + Z.b2z true * 2 ^ nbit) nbit).
    destruct (Huffman.encode_decodes literal (HPACKEncodeBuffer.buf_ (HPACKEncodeBuffer.push eb hdr)) Hl Hz)
      as (data & HE & HS & Ho & Hb & HD).
    assert (Hd : zlen data0 = zlen data) by congruence.
    assert (Hd0 : is_u64 (zlen data)) by (unfold zlen in *; unfold_ints; lia).
    exists hdr, data. unfold hdr in *. rewrite Hd in *. split_and!; try apply Hlen; try done.
    + unfold HPACKEncodeBuffer.encodeHuffman. rewrite HS. unfold mbind, option_bind.
      rewrite huffmanOn_pattern by done.
      rewrite (EncodeSpec.encodeInteger_spec _ _ _ _ Hp' Hd0), HE.
      rewrite <- EncodeSpec.push_push, Happ, u32_id; [done|].
      pose proof (Hlen (zlen data) true). unfold_ints. lia.
    + apply Forall_app. split; [by apply Wire.enc_int_ok|done].
    + apply Hfirst. unfold zlen. lia.
    + intros db rest Hh Hm. by apply (DecodeSpec.decodeLiteral_holds _ _ _ true _ _ rest).
  - pose proof (DecodeSpec.pattern_weaken instruction nbit false Hn Hp) as Hp'.
    assert (Hd0 : is_u64 (zlen literal)) by (unfold_ints; lia).
    exists (Wire.enc_int (zlen literal) (instruction + Z.b2z false * 2 ^ nbit) nbit), literal.
    split_and!; try apply Hlen; try lia.
    + replace instruction with (instruction + Z.b2z false * 2 ^ nbit) at 1 by (simpl; lia).
      rewrite (EncodeSpec.encodeInteger_spec _ _ _ _ Hp' Hd0). unfold mbind, option_bind.
      rewrite EncodeSpec.push_push, Happ, u32_id; [done|].
      pose proof (Hlen (zlen literal) false). unfold_ints. lia.
    + apply Forall_app. split; [by apply Wire.enc_int_ok|done].
    + apply Hfirst. unfold zlen. lia.
    + intros db rest Hh Hm. by apply (DecodeSpec.decodeLiteral_holds _ _ _ false _ _ rest).
Qed.

(** ** Decoding arbitrary input *)

Module DecodeSafety.
Import HPACK HPACKDecodeBuffer DecodeSpec.

(** The caller's contract: the budget does not exceed what the cursor holds. *)
Definition wf (b : t) : Prop :=
  bytes_ok (cursor_ b) /\ 0 <= remainingBytes_ b <= zlen (cursor_ b) /\
  is_u32 (remainingBytes_ b).

Section safety.
Variable L : Z.

(** [safe m lo Q]: on a well-formed buffer whose literal limit is at most [L],
    [m] does not abort; it consumes some [n] bytes of the budget, at least [lo]
    when it returns a value, and [Q] holds of the value. *)
Definition safe {A} (m : decoder A) (lo : Z) (Q : A -> Prop) : Prop :=
  forall b, wf b -> maxLiteralSize_ b <= L ->
  match m b with
  | DOk a b' => Q a /\ exists n, lo <= n <= remainingBytes_ b /\ b' = skip b n
  | DErr e b' => e <> NONE /\ exists n, 0 <= n <= remainingBytes_ b /\ b' = skip b n
  | DAbort => False
  end.

Lemma skip_0 b : wf b -> skip b 0 = b.
Proof.
  intros (_ & _ & Hu). destruct b. unfold skip. simpl in *.
  by rewrite Z.sub_0_r, u32_id.
Qed.

Lemma remaining_skip b n :
  wf b -> 0 <= n <= remainingBytes_ b -> remainingBytes_ (skip b n) = remainingBytes_ b - n.
Proof. intros (_ & _ & Hu) Hn. simpl. apply u32_id. unfold_ints. lia. Qed.

Lemma wf_skip b n : wf b -> 0 <= n <= remainingBytes_ b -> wf (skip b n).
Proof.
  intros Hwf Hn. pose proof (remaining_skip b n Hwf Hn) as Hr.
  destruct Hwf as (Hb & Hc & Hu). unfold wf. rewrite Hr.
  split; [by apply Forall_drop|]. unfold zlen in *. cbn [skip cursor_].
  rewrite length_drop. unfold_ints. lia.
Qed.

Lemma safe_ret {A} (a : A) (Q : A -> Prop) : Q a -> safe (mret a) 0 Q.
Proof.
  intros HQ b Hwf HL. split; [done|]. exists 0. rewrite skip_0 by done.
  destruct Hwf as (_ & ? & _). split; [lia|done].
Qed.

Lemma safe_err {A} e lo (Q : A -> Prop) : e <> NONE -> safe (derr e) lo Q.
Proof.
  intros He b Hwf HL. split; [done|]. exists 0. rewrite skip_0 by done.
  destruct Hwf as (_ & ? & _). split; [lia|done].
Qed.

Lemma safe_bind {A B} (m : decoder A) (k : A -> decoder B) lo1 lo2 Q R :
  0 <= lo1 -> 0 <= lo2 -> safe m lo1 Q -> (forall a, Q a -> safe (k a) lo2 R) ->
  safe (m ≫= k) (lo1 + lo2) R.
Proof.
  intros Hlo1 Hlo2 Hm Hk b Hwf HL. specialize (Hm b Hwf HL). unfold mbind, decoder_bind.
  destruct (m b) as [a b1|e b1|]; [|done..]. destruct Hm as (HQ & n & Hn & ->).
  pose proof (wf_skip b n Hwf ltac:(lia)) as Hwf1.
  specialize (Hk a HQ _ Hwf1 HL). rewrite remaining_skip in Hk by (done || lia).
  destruct (k a (skip b n)) as [c b2|e b2|]; [|..|done].
  - destruct Hk as (HR & n' & Hn' & ->). split; [done|]. exists (n + n').
    rewrite skip_skip by lia. split; [lia|done].
  - destruct Hk as (He & n' & Hn' & ->). split; [done|]. exists (n + n').
    rewrite skip_skip by lia. split; [lia|done].
Qed.

Lemma safe_weaken {A} (m : decoder A) lo lo' (Q Q' : A -> Prop) :
  lo' <= lo -> (forall a, Q a -> Q' a) -> safe m lo Q -> safe m lo' Q'.
Proof.
  intros Hlo HQ Hm b Hwf HL. specialize (Hm b Hwf HL). destruct (m b); [|done..].
  destruct Hm as (H & n & Hn & ->). split; [auto|]. exists n. split; [lia|done].
Qed.

(** [next] behind the emptiness test takes one byte. *)
Lemma safe_next : safe (nonempty;; next) 1 is_u8.
Proof.
  intros b Hwf HL. pose proof Hwf as (Hb & Hr & Hu).
  unfold mbind, decoder_bind, nonempty. destruct (Z.eqb_spec (remainingBytes_ b) 0) as [E|E].
  - split; [done|]. exists 0. rewrite skip_0 by done. split; [lia|done].
  - unfold next, peek, mbind, decoder_bind. rewrite (proj2 (Z.gtb_lt _ _)) by lia.
    unfold zlen in Hr. destruct (cursor_ b) as [|x l] eqn:Hc; [simpl in Hr; lia|].
    split; [by inversion Hb|]. exists 1. split; [lia|done].
Qed.

Lemma nonempty_next {A} (k : Z -> decoder A) b :
  (nonempty ;; byte ← next; k byte) b = ((nonempty ;; next) ≫= k) b.
Proof. unfold mbind, decoder_bind. by destruct (nonempty b). Qed.

Lemma safe_nonempty_next {A} (k : Z -> decoder A) lo R :
  0 <= lo -> (forall x, is_u8 x -> safe (k x) lo R) ->
  safe (nonempty ;; byte ← next; k byte) (1 + lo) R.
Proof.
  intros Hlo Hk b Hwf HL. rewrite nonempty_next.
  apply (safe_bind (nonempty ;; next) k 1 lo is_u8 R); [lia|done|exact safe_next|done|done|done].
Qed.

Lemma safe_loop fuel : forall integer f fexp,
  0 <= fexp <= 71 -> 77 <= fexp + 7 * Z.of_nat fuel -> 0 <= integer < UINT64_MAX ->
  safe (decodeInteger_loop fuel integer f fexp) 1 (fun v => 0 <= v < UINT64_MAX).
Proof.
  induction fuel as [|fuel IH]; intros integer f fexp Hf Hd Hi.
  - lia.
  - cbn [decodeInteger_loop]. apply (safe_nonempty_next _ 0); [lia|]. intros x Hx.
    rewrite Z.gtb_ltb. destruct (Z.ltb_spec 64 fexp); [by apply safe_err|].
    destruct (Z.leb_spec (u64 (UINT64_MAX - integer)) (u64 (Z.land x 127 * f))) as [|Hlt];
      [by apply safe_err|].
    rewrite (u64_id (UINT64_MAX - integer)) in Hlt by (unfold_ints; lia). pose proof (u64_range (Z.land x 127 * f)).
    rewrite (u64_id (integer + _)) by (unfold_ints; lia).
    destruct (truth _); [|apply safe_ret; unfold_ints; lia].
    eapply safe_weaken; [| |apply IH]; [lia|done|..]; rewrite ?u32_id by (unfold is_u32; lia);
      unfold_ints; lia.
Qed.

Lemma safe_decodeInteger nbit :
  1 <= nbit <= 8 -> safe (decodeInteger nbit) 1 (fun v => 0 <= v < UINT64_MAX).
Proof.
  intros Hn. unfold decodeInteger. rewrite nbit_mask by done.
  apply (safe_nonempty_next _ 0); [lia|]. intros x Hx.
  assert (Hm : 0 <= Z.land x (Z.ones nbit) < 2 ^ 8).
  { rewrite Z.land_ones by lia. pose proof (Z.mod_pos_bound x (2 ^ nbit)).
    pose proof (Z.pow_le_mono_r 2 nbit 8). lia. }
  destruct (negb _); [apply safe_ret; unfold_ints; lia|].
  eapply safe_weaken; [| |apply safe_loop]; [lia|done|lia|lia|unfold_ints; lia].
Qed.

Lemma safe_peek : forall b, wf b -> 0 < remainingBytes_ b ->
  exists x, peek b = DOk x b /\ is_u8 x.
Proof.
  intros b (Hb & Hr & _) H0. unfold peek. rewrite (proj2 (Z.gtb_lt _ _)) by lia.
  unfold zlen in Hr. destruct (cursor_ b) as [|x l]; [simpl in Hr; lia|].
  exists x. split; [done|by inversion Hb].
Qed.

Lemma safe_data size (h : bool) :
  0 <= size ->
  safe (b ← get;
    if size >? remainingBytes_ b then derr BUFFER_UNDERFLOW
    else if size >? maxLiteralSize_ b then derr LITERAL_TOO_LARGE
    else
      data ← pull size;
      if h then
        match Huffman.decode Huffman.huffTree data [] with
        | Some (_, literal) => mret literal
        | None => dabort
        end
      else mret data) 0 (fun literal => zlen literal <= 16 * L + 4).
Proof.
  intros Hs b Hwf HL. pose proof Hwf as (Hb & Hr & _). unfold mbind, decoder_bind, get.
  rewrite !Z.gtb_ltb. destruct (Z.ltb_spec (remainingBytes_ b) size).
  { by apply (safe_err (A:=list Z) BUFFER_UNDERFLOW 0 (fun _ => True)). }
  destruct (Z.ltb_spec (maxLiteralSize_ b) size).
  { by apply (safe_err (A:=list Z) LITERAL_TOO_LARGE 0 (fun _ => True)). }
  assert (Hlen : Z.of_nat (length (take (Z.to_nat size) (cursor_ b))) <= L).
  { rewrite length_take. lia. }
  unfold pull. rewrite (proj2 (Z.ltb_ge _ _)) by lia.
  destruct h.
  - destruct (Huffman.decode_returns (take (Z.to_nat size) (cursor_ b)) []) as (lit & HD & Hz).
    { by apply Forall_take. }
    rewrite HD. split; [unfold zlen in *; simpl in *; lia|]. exists size. split; [lia|done].
  - split; [unfold zlen; simpl; lia|]. exists size. split; [lia|done].
Qed.

Lemma safe_decodeLiteral nbit :
  1 <= nbit <= 7 -> safe (decodeLiteral_at nbit) 1 (fun literal => zlen literal <= 16 * L + 4).
Proof.
  intros Hn b Hwf HL. pose proof Hwf as (_ & Hr & _). unfold decodeLiteral_at.
  destruct (Z.eqb_spec (remainingBytes_ b) 0) as [E|E].
  - assert (nonempty b = DErr BUFFER_UNDERFLOW b) as Hne
      by (unfold nonempty; by rewrite (proj2 (Z.eqb_eq _ _) E)).
    unfold mbind at 1, decoder_bind at 1. rewrite Hne.
    split; [done|]. exists 0. rewrite skip_0 by done. split; [lia|done].
  - destruct (safe_peek b Hwf ltac:(lia)) as (x & Hp & Hx).
    assert (nonempty b = DOk tt b) as Hne
      by (unfold nonempty; by rewrite (proj2 (Z.eqb_neq _ _) E)).
    rewrite (dbind_ok _ _ _ _ _ Hne), (dbind_ok _ _ _ _ _ Hp).
    apply (safe_bind (decodeInteger nbit) _ 1 0 (fun v => 0 <= v < UINT64_MAX));
      [lia|lia|apply safe_decodeInteger; lia| |done|done].
    intros v Hv. apply safe_data. lia.
Qed.

End safety.

(** ** The value of a decoded integer *)

(** RFC 7541, 5.1, on unbounded integers: continuation bytes, least significant
    group first, and the whole integer. *)
Fixpoint cont_value (l : list Z) : Z :=
  match l with
  | [] => 0
  | x :: l' => x mod 128 + 128 * cont_value l'
  end.

Definition rfc_int (nbit : Z) (l : list Z) : Z :=
  match l with
  | [] => 0
  | x :: l' => if x mod 2 ^ nbit =? Z.ones nbit then Z.ones nbit + cont_value l'
               else x mod 2 ^ nbit
  end.

Lemma wf_cons b :
  wf b -> 0 < remainingBytes_ b ->
  exists x l, cursor_ b = x :: l /\ is_u8 x /\ holds b [x] l.
Proof.
  intros (Hb & Hr & Hu) H0. unfold zlen in Hr.
  destruct (cursor_ b) as [|x l] eqn:Hc; [simpl in Hr; lia|].
  exists x, l. split; [done|]. split; [by inversion Hb|].
  split; [by rewrite Hc|]. split; [unfold zlen; simpl; lia|done].
Qed.

(** The addend of a continuation byte is its group at its weight, modulo 2^64,
    and exactly that at a weight of at most 2^56. *)
Lemma addend x fexp :
  0 <= fexp ->
  let a := u64 (Z.land x 127 * u64 (2 ^ fexp)) in
  u64 a = u64 (x mod 128 * 2 ^ fexp) /\ (fexp <= 56 -> a = x mod 128 * 2 ^ fexp).
Proof.
  intros Hf a. unfold a. rewrite land_u7f. change (2 ^ 7) with 128.
  unfold u64. rewrite Z.mul_mod_idemp_r by lia. split; [by rewrite Z.mod_mod by lia|].
  intros H56. pose proof (Z.mod_pos_bound x 128). pose proof (Z.pow_le_mono_r 2 fexp 56).
  apply Z.mod_small. split; [apply Z.mul_nonneg_nonneg; lia|].
  apply Z.le_lt_trans with (127 * 2 ^ 56); [apply Z.mul_le_mono_nonneg; lia|done].
Qed.

Lemma u64_add_l a b : u64 (u64 a + b) = u64 (a + b).
Proof. unfold u64. apply Z.add_mod_idemp_l. lia. Qed.

Lemma u64_add_cong a a' b : u64 a = u64 a' -> u64 (a + b) = u64 (a' + b).
Proof. intros H. by rewrite <- u64_add_l, H, u64_add_l. Qed.

Lemma loop_value fuel : forall integer fexp b v b',
  wf b -> 0 <= fexp <= 71 -> 0 <= integer < UINT64_MAX ->
  decodeInteger_loop fuel integer (u64 (2 ^ fexp)) fexp b = DOk v b' ->
  exists n : nat, (1 <= n)%nat /\ fexp + 7 * Z.of_nat n <= 71 /\ Z.of_nat n <= remainingBytes_ b /\
    b' = skip b (Z.of_nat n) /\
    u64 v = u64 (integer + 2 ^ fexp * cont_value (take n (cursor_ b))) /\
    (fexp + 7 * Z.of_nat n <= 63 -> v = integer + 2 ^ fexp * cont_value (take n (cursor_ b))).
Proof.
  induction fuel as [|fuel IH]; intros integer fexp b v b' Hwf Hf Hi; [done|].
  cbn [decodeInteger_loop]. destruct (Z.eqb_spec (remainingBytes_ b) 0) as [E|E].
  { unfold mbind, decoder_bind, nonempty. by rewrite (proj2 (Z.eqb_eq _ _) E). }
  destruct (wf_cons b Hwf) as (x & l & Hc & Hx & Hh); [destruct Hwf as (_ & ? & _); lia|].
  rewrite (dbind_ok _ _ _ _ _ (nonempty_cons _ _ _ _ Hh)).
  rewrite (dbind_ok _ _ _ _ _ (next_cons _ _ _ _ Hh)).
  rewrite Z.gtb_ltb. destruct (Z.ltb_spec 64 fexp); [done|].
  destruct (addend x fexp ltac:(lia)) as [Ha Ha'].
  pose proof (u64_range (Z.land x 127 * u64 (2 ^ fexp))) as Har.
  set (add := u64 (Z.land x 127 * u64 (2 ^ fexp))) in *.
  destruct (Z.leb_spec (u64 (UINT64_MAX - integer)) add) as [|Hlt]; [done|].
  rewrite (u64_id (UINT64_MAX - integer)) in Hlt by (unfold_ints; lia).
  rewrite (u64_id (integer + add)) by (unfold_ints; lia).
  assert (H1 : 1 <= remainingBytes_ b) by (destruct Hwf as (_ & ? & _); lia).
  destruct (truth (Z.land x 128)).
  - rewrite (u32_id (fexp + 7)) by (unfold is_u32; lia).
    assert (u64 (Z.shiftl (u64 (2 ^ fexp)) 7) = u64 (2 ^ (fexp + 7))) as ->.
    { rewrite Z.shiftl_mul_pow2 by lia. unfold u64. rewrite Z.mul_mod_idemp_l by lia.
      by rewrite <- Z.pow_add_r by lia. }
    intros Hloop. apply IH in Hloop as (n & Hn & Hn71 & Hrem & -> & Hv & Hv');
      [|apply wf_skip; [done|lia]|lia|unfold_ints; lia].
    rewrite remaining_skip in Hrem by (done || lia).
    assert (Hcs : cursor_ (skip b 1) = l) by (cbn [skip cursor_]; by rewrite Hc).
    rewrite Hcs in *. rewrite Z.pow_add_r in Hv, Hv' by lia. change (2 ^ 7) with 128 in *.
    exists (S n). rewrite skip_skip, Hc by lia. cbn [take cont_value].
    split_and!; [lia|lia|lia|f_equal; lia| |].
    + rewrite Hv, <- Z.add_assoc, (Z.add_comm integer).
      replace (integer + 2 ^ fexp * (x mod 128 + 128 * cont_value (take n l)))
        with (x mod 128 * 2 ^ fexp + (integer + 2 ^ fexp * 128 * cont_value (take n l))) by ring.
      rewrite <- (u64_add_cong _ _ _ Ha). f_equal. ring.
    + intros Hb. rewrite Hv', Ha' by lia. ring.
  - intros [= <- <-]. exists 1%nat. rewrite Hc. cbn [take cont_value]. rewrite Z.mul_0_r, Z.add_0_r.
    split_and!; [lia|lia|lia|done| |].
    + rewrite (Z.add_comm integer), (Z.add_comm integer), (Z.mul_comm (2 ^ fexp)).
      by apply u64_add_cong.
    + intros Hb. rewrite Ha' by lia. ring.
Qed.

Lemma decodeInteger_value nbit b v b' :
  1 <= nbit <= 8 -> wf b -> decodeInteger nbit b = DOk v b' ->
  exists n : nat, (1 <= n <= 11)%nat /\ Z.of_nat n <= remainingBytes_ b /\
    b' = skip b (Z.of_nat n) /\
    u64 v = u64 (rfc_int nbit (take n (cursor_ b))) /\
    ((n <= 10)%nat -> v = rfc_int nbit (take n (cursor_ b))).
Proof.
  intros Hn Hwf. unfold decodeInteger. rewrite nbit_mask by done.
  destruct (Z.eqb_spec (remainingBytes_ b) 0) as [E|E].
  { unfold mbind, decoder_bind, nonempty. by rewrite (proj2 (Z.eqb_eq _ _) E). }
  assert (H1 : 1 <= remainingBytes_ b) by (destruct Hwf as (_ & ? & _); lia).
  destruct (wf_cons b Hwf) as (x & l & Hc & Hx & Hh); [lia|].
  rewrite (dbind_ok _ _ _ _ _ (nonempty_cons _ _ _ _ Hh)).
  rewrite (dbind_ok _ _ _ _ _ (next_cons _ _ _ _ Hh)).
  rewrite Z.land_ones, Hc by lia.
  destruct (Z.eqb_spec (x mod 2 ^ nbit) (Z.ones nbit)) as [Em|Em]; cbn [negb].
  - pose proof (Wire.ones_range nbit Hn). intros Hloop. rewrite Em in Hloop.
    change 1 with (u64 (2 ^ 0)) in Hloop at 1.
    apply loop_value in Hloop as (n & Hn' & Hn71 & Hrem & -> & Hv & Hv');
      [|apply wf_skip; [done|lia]|lia|unfold_ints; lia].
    rewrite remaining_skip in Hrem by (done || lia).
    assert (Hcs : cursor_ (skip b 1) = l) by (cbn [skip cursor_]; by rewrite Hc).
    rewrite Hcs in *. change (2 ^ 0) with 1 in *. rewrite Z.mul_1_l in *.
    exists (S n). rewrite skip_skip by lia. cbn [take rfc_int]. rewrite Em, Z.eqb_refl.
    split_and!; [lia|lia|lia|f_equal; lia|done|intros; apply Hv'; lia].
  - intros [= <- <-]. exists 1%nat. cbn [take rfc_int].
    destruct (Z.eqb_spec (x mod 2 ^ nbit) (Z.ones nbit)); [done|]. by split_and!; try lia.
Qed.

End DecodeSafety.

(** ** Results *)

(** Prefix integers round-trip: for every instruction pattern, prefix of 1 to
    8 bits and value below 2^64 - 1, [encodeInteger] succeeds, appends 1 to 11
    bytes and returns their number, and [decodeInteger] reads them back as the
    value and consumes exactly them, whatever follows. *)
Theorem hpack_integer_roundtrip eb v instruction nbit :
  Wire.pattern instruction nbit -> 0 <= v < UINT64_MAX ->
  exists bytes,
    HPACKEncodeBuffer.encodeInteger eb v instruction nbit =
      Some (zlen bytes, HPACKEncodeBuffer.push eb bytes) /\
    1 <= zlen bytes <= 11 /\
    forall db rest, DecodeSpec.holds db bytes rest ->
      HPACKDecodeBuffer.decodeInteger nbit db =
      HPACKDecodeBuffer.DOk v (HPACKDecodeBuffer.skip db (zlen bytes)).
Proof.
  intros Hp Hv. exists (Wire.enc_int v instruction nbit). split_and!.
  - apply EncodeSpec.encodeInteger_spec; [done|]. unfold_ints. lia.
  - apply Wire.enc_int_length.
  - apply Wire.enc_int_length.
  - intros db rest Hh. by apply (DecodeSpec.decodeInteger_spec _ _ instruction _ rest).
Qed.

(** Literals round-trip, Huffman-coded or plain: [encodeLiteral] appends a
    length header of 1 to 11 bytes and at most 4 bytes per byte of the literal
    and returns their number; [decodeLiteral] reads the literal back and consumes
    exactly them, when the coded size is within the buffer's limit. *)
Theorem hpack_literal_roundtrip eb instruction nbit literal :
  1 <= nbit <= 7 -> Wire.pattern instruction (nbit + 1) -> bytes_ok literal ->
  zlen literal < 2 ^ 27 ->
  exists hdr data,
    HPACKEncodeBuffer.encodeLiteral_at eb instruction nbit literal =
      Some (zlen (hdr ++ data), HPACKEncodeBuffer.push eb (hdr ++ data)) /\
    1 <= zlen hdr <= 11 /\ zlen data <= 4 * zlen literal /\
    forall db rest, DecodeSpec.holds db (hdr ++ data) rest ->
      zlen data <= HPACKDecodeBuffer.maxLiteralSize_ db ->
      HPACKDecodeBuffer.decodeLiteral_at nbit db =
      HPACKDecodeBuffer.DOk literal (HPACKDecodeBuffer.skip db (zlen (hdr ++ data))).
Proof.
  intros Hn Hp Hl Hz.
  destruct (encodeLiteral_decodes eb instruction nbit literal Hn Hp Hl Hz)
    as (hdr & data & HE & _ & Hh & Hd & _ & HD). by exists hdr, data.
Qed.

(** On arbitrary bytes, with a budget the cursor covers, decoding an integer
    or a literal neither aborts nor loops: it returns a value after consuming at
    least one byte of the budget, or an error code other than [NONE], and never
    reads past the budget.
    A decoded integer is below 2^64 - 1. *)
Theorem hpack_decode_safe b :
  DecodeSafety.wf b ->
  (forall nbit, 1 <= nbit <= 8 ->
    match HPACKDecodeBuffer.decodeInteger nbit b with
    | HPACKDecodeBuffer.DOk v b' => 0 <= v < UINT64_MAX /\
        exists n, 1 <= n <= HPACKDecodeBuffer.remainingBytes_ b /\ b' = HPACKDecodeBuffer.skip b n
    | HPACKDecodeBuffer.DErr e b' => e <> HPACK.NONE /\
        exists n, 0 <= n <= HPACKDecodeBuffer.remainingBytes_ b /\ b' = HPACKDecodeBuffer.skip b n
    | HPACKDecodeBuffer.DAbort => False
    end) /\
  (forall nbit, 1 <= nbit <= 7 ->
    match HPACKDecodeBuffer.decodeLiteral_at nbit b with
    | HPACKDecodeBuffer.DOk _ b' =>
        exists n, 1 <= n <= HPACKDecodeBuffer.remainingBytes_ b /\ b' = HPACKDecodeBuffer.skip b n
    | HPACKDecodeBuffer.DErr e b' => e <> HPACK.NONE /\
        exists n, 0 <= n <= HPACKDecodeBuffer.remainingBytes_ b /\ b' = HPACKDecodeBuffer.skip b n
    | HPACKDecodeBuffer.DAbort => False
    end).
Proof.
  intros Hwf. split; intros nbit Hn.
  - exact (DecodeSafety.safe_decodeInteger _ nbit Hn b Hwf (Z.le_refl _)).
  - pose proof (DecodeSafety.safe_decodeLiteral _ nbit Hn b Hwf (Z.le_refl _)) as H.
    destruct (HPACKDecodeBuffer.decodeLiteral_at nbit b); [apply H|done..].
Qed.

(** A decoded integer is the value RFC 7541, 5.1 assigns to the bytes it
    consumed, at most 11 of them: exactly when at most 10 were consumed, modulo
    2^64 otherwise. *)
Theorem hpack_integer_value nbit b v b' :
  1 <= nbit <= 8 -> DecodeSafety.wf b ->
  HPACKDecodeBuffer.decodeInteger nbit b = HPACKDecodeBuffer.DOk v b' ->
  exists n : nat, (1 <= n <= 11)%nat /\ b' = HPACKDecodeBuffer.skip b (Z.of_nat n) /\
    u64 v = u64 (DecodeSafety.rfc_int nbit (take n (HPACKDecodeBuffer.cursor_ b))) /\
    ((n <= 10)%nat -> v = DecodeSafety.rfc_int nbit (take n (HPACKDecodeBuffer.cursor_ b))).
Proof.
  intros Hn Hwf HD.
  destruct (DecodeSafety.decodeInteger_value nbit b v b' Hn Hwf HD) as (n & ? & _ & ? & ? & ?).
  by exists n.
Qed.

(** The overflow check misses the tenth continuation byte: its group is
    multiplied by 2^63 in 64 bits before the check, so an integer that exceeds
    64 bits is accepted as a small one (31 + 2^64 is decoded as 31). *)
Theorem hpack_integer_overflow_accepted :
  HPACKDecodeBuffer.decodeInteger 5
    (HPACKDecodeBuffer.create [31; 128; 128; 128; 128; 128; 128; 128; 128; 128; 2] 11 100) =
  HPACKDecodeBuffer.DOk 31 (HPACKDecodeBuffer.mk [] 11 0 100) /\
  DecodeSafety.rfc_int 5 [31; 128; 128; 128; 128; 128; 128; 128; 128; 128; 2] = 31 + 2 ^ 64.
Proof. split; vm_compute; reflexivity. Qed.
