(* ===== verification/HeaderTable.v ===== *)
(** * The dynamic header table
    ([src/proxygen/proxygen/lib/http/codec/compress/HeaderTable.cpp],
    [HPACKHeader.h])

    [HeaderTable] keeps the header fields of RFC 7541, 2.3.2 in a ring: a vector
    [table_] of slots of which [size_] are in use, the newest in slot [head_].
    [names_] maps a name to the slots that hold it, oldest first, so that the
    encoder finds a field without a scan.  The table grows by reallocating the
    ring, which moves the part that wrapped around.

    The abstract table is the list of its fields, newest first, and a capacity;
    [Spec] states the operations of RFC 7541, 4.  The refinement lemmas show that
    each operation of the ring implements the one on lists, keeps the ring and
    the names index consistent, and never leaves the vector. *)

From stdpp Require Import gmap.
From S2P Require Import Prelude.

(** ** Header fields *)

Module HPACKHeader.

(** A name and a value, as byte strings. *)
Record t := mk { name : list Z; value : list Z }.

#[global] Instance t_eq_dec : EqDecision t.
Proof. solve_decision. Defined.

(** The default constructor of the empty slots. *)
#[global] Instance t_inhabited : Inhabited t := populate (mk [] []).

Definition kMinLength : Z := 32.

(** [folly::tryTo<uint32_t>(..).value_or(max)]. *)
Definition realBytes_of (nameSize valueSize : Z) : Z :=
  let n := u64 (nameSize + valueSize) in if n <=? UINT32_MAX then n else UINT32_MAX.

Definition realBytes (h : t) : Z := realBytes_of (u32 (zlen (name h))) (zlen (value h)).

Definition bytes (h : t) : Z := u32 (kMinLength + realBytes h).

(** The static [bytes(nameSize, valueSize)]. *)
Definition bytes_of (nameSize valueSize : Z) : Z :=
  u32 (kMinLength + realBytes_of nameSize valueSize).

(** The size of an entry in RFC 7541, 4.1. *)
Definition hsize (h : t) : Z := 32 + zlen (name h) + zlen (value h).

Lemma hsize_min h : 32 <= hsize h.
Proof. unfold hsize, zlen. lia. Qed.

(** Below 2^31 bytes the machine arithmetic is exact. *)
Lemma realBytes_exact h : hsize h < 2 ^ 31 -> realBytes h = zlen (name h) + zlen (value h).
Proof.
  unfold hsize, realBytes, realBytes_of. intros H.
  rewrite u32_id, u64_id by (unfold_ints; lia).
  rewrite (proj2 (Z.leb_le _ _)) by (unfold_ints; lia). done.
Qed.

Lemma bytes_exact h : hsize h < 2 ^ 31 -> bytes h = hsize h.
Proof.
  intros H. unfold bytes. rewrite realBytes_exact by done. unfold kMinLength, hsize in *.
  rewrite u32_id; [lia|]. unfold_ints. lia.
Qed.

End HPACKHeader.

(** ** The abstract table *)

Module HeaderSpec.
Import HPACKHeader.

Definition total (es : list t) : Z := foldr (fun h n => hsize h + n) 0 es.

(** Evicting from the old end until the rest fits keeps the longest prefix that
    fits. *)
Fixpoint keep (capacity : Z) (es : list t) : list t :=
  match es with
  | [] => []
  | h :: es' => if hsize h <=? capacity then h :: keep (capacity - hsize h) es' else []
  end.

(** RFC 7541, 4.4: an entry larger than the table empties it. *)
Definition add (capacity : Z) (h : t) (es : list t) : list t :=
  if hsize h <=? capacity then h :: keep (capacity - hsize h) es else [].

(** The position (from 1) of the newest entry that satisfies [P]; 0 if none. *)
Definition find_index (P : t -> bool) (es : list t) : Z :=
  match list_find (fun h => P h = true) es with
  | Some (i, _) => Z.of_nat i + 1
  | None => 0
  end.

Lemma total_nonneg es : 0 <= total es.
Proof. induction es as [|h es IH]; simpl; [lia|]. pose proof (hsize_min h). lia. Qed.

Lemma total_app es1 es2 : total (es1 ++ es2) = total es1 + total es2.
Proof. induction es1 as [|h es1 IH]; simpl; [done|lia]. Qed.

Lemma total_length es : 32 * zlen es <= total es.
Proof.
  induction es as [|h es IH]; [done|]. unfold zlen in *. cbn [length total foldr].
  fold (total es). pose proof (hsize_min h). lia.
Qed.

Lemma keep_all capacity es : total es <= capacity -> keep capacity es = es.
Proof.
  revert capacity. induction es as [|h es IH]; intros capacity H; simpl in *; [done|].
  pose proof (total_nonneg es). rewrite (proj2 (Z.leb_le _ _)) by lia. by rewrite IH by lia.
Qed.

Lemma keep_snoc capacity es h :
  capacity < total (es ++ [h]) -> keep capacity (es ++ [h]) = keep capacity es.
Proof.
  revert capacity. induction es as [|e es IH]; intros capacity H; simpl in *.
  - by rewrite (proj2 (Z.leb_gt _ _)) by lia.
  - destruct (hsize e <=? capacity); [|done]. by rewrite IH by lia.
Qed.

Lemma keep_total capacity es : 0 <= capacity -> total (keep capacity es) <= capacity.
Proof.
  revert capacity. induction es as [|h es IH]; intros capacity Hc; simpl; [done|].
  destruct (Z.leb_spec (hsize h) capacity); simpl; [|done].
  specialize (IH (capacity - hsize h) ltac:(lia)). lia.
Qed.

Lemma keep_prefix capacity es : keep capacity es `prefix_of` es.
Proof.
  revert capacity. induction es as [|h es IH]; intros capacity; simpl; [done|].
  destruct (_ <=? _); [by apply prefix_cons|apply prefix_nil].
Qed.

End HeaderSpec.

(** ** The ring *)

Module HeaderTable.
Import HPACKHeader.

(** [names_map]. *)
Abbreviation names_map := (gmap (list Z) (list Z)).

Record t := mk {
  capacity_ : Z; bytes_ : Z; table_ : list HPACKHeader.t; size_ : Z; head_ : Z;
  insertCount_ : Z; indexNames_ : bool; names_ : names_map }.

(** [length()]. *)
Definition len (s : t) : Z := zlen (table_ s).

Definition getMaxTableLength (capacityVal : Z) : Z := Z.shiftr capacityVal 5.

Definition initialTableLength (capacity : Z) : Z :=
  let maxTableLength := getMaxTableLength capacity in
  if maxTableLength =? 1 then 1 else maxTableLength / 2.

(** The constructor: [init] on the default members. *)
Definition create (capacityVal : Z) : t :=
  mk capacityVal 0 (replicate (Z.to_nat (initialTableLength capacityVal)) inhabitant)
    0 0 0 true ∅.

(** [init] on an existing table appends to [table_]. *)
Definition init (s : t) (capacityVal : Z) : t :=
  mk capacityVal 0
    (table_ s ++ replicate (Z.to_nat (initialTableLength capacityVal)) inhabitant)
    0 0 (insertCount_ s) (indexNames_ s) ∅.

Definition disableNamesIndex (s : t) : t :=
  mk (capacity_ s) (bytes_ s) (table_ s) (size_ s) (head_ s) (insertCount_ s) false (names_ s).

(** [table_[i]]; [None] is an access past the end. *)
Definition slot (s : t) (i : Z) : option HPACKHeader.t :=
  if 0 <=? i then table_ s !! Z.to_nat i else None.

(** [next] and [tail] divide by the length. *)
Definition next (s : t) (i : Z) : option Z :=
  if len s =? 0 then None else Some (u32 (u32 (i + 1) mod len s)).

Definition tail (s : t) : option Z :=
  if len s =? 0 then None else Some (u32 (u64 (head_ s + len s - size_ s + 1) mod len s)).

Definition toExternal_of (head length internalIndex : Z) : option Z :=
  if length =? 0 then None
  else Some (u32 (u32 (head + length - internalIndex) mod length + 1)).

Definition toInternal_of (head length externalIndex : Z) : option Z :=
  if length =? 0 then None
  else
    let externalIndex := u32 (externalIndex - 1) in
    Some (u32 (head + length - externalIndex) mod length).

Definition toExternal (s : t) (i : Z) : option Z := toExternal_of (head_ s) (u32 (len s)) i.
Definition toInternal (s : t) (i : Z) : option Z := toInternal_of (head_ s) (u32 (len s)) i.

Definition isValid (s : t) (index : Z) : bool := (0 <? index) && (index <=? size_ s).

(** [CHECK(isValid(index))]. *)
Definition getHeader (s : t) (index : Z) : option HPACKHeader.t :=
  if isValid s index then i ← toInternal s index; slot s i else None.

(** The loop over the slots of a name, newest first. *)
Fixpoint find_value (s : t) (value : list Z) (nameOnly : bool) (l : list Z)
  : option (option Z) :=
  match l with
  | [] => Some None
  | i :: l' =>
      h ← slot s i;
      if nameOnly || bool_decide (HPACKHeader.value h = value)
      then e ← toExternal s i; Some (Some e)
      else find_value s value nameOnly l'
  end.

Definition getIndexImpl (s : t) (headerName value : list Z) (nameOnly : bool)
  : option (Z * Z) :=
  if indexNames_ s then
    match names_ s !! headerName with
    | None => Some (0, 0)
    | Some l =>
        r ← find_value s value nameOnly (reverse l);
        match r with
        | Some e => Some (e, 0)
        | None => i ← last l; e ← toExternal s i; Some (0, e)
        end
    end
  else None.

Definition getIndex (s : t) (name value : list Z) : option (Z * Z) :=
  getIndexImpl s name value false.

Definition nameIndex (s : t) (headerName : list Z) : option Z :=
  fst <$> getIndexImpl s headerName [] true.

Definition hasName (s : t) (headerName : list Z) : option bool :=
  if indexNames_ s then Some (if names_ s !! headerName is Some _ then true else false)
  else None.

(** Dropping the first slot of a name's list, and the name with its last. *)
Definition names_pop (names : names_map) (n : list Z) : option names_map :=
  match names !! n with
  | Some (_ :: []) => Some (delete n names)
  | Some (_ :: l) => Some (<[n := l]> names)
  | _ => None
  end.

Definition removeLast (s : t) : option (Z * t) :=
  i ← tail s;
  h ← slot s i;
  names ← (if indexNames_ s then names_pop (names_ s) (HPACKHeader.name h)
           else Some (names_ s));
  let headerBytes := HPACKHeader.bytes h in
  Some (headerBytes,
    mk (capacity_ s) (u32 (bytes_ s - headerBytes)) (table_ s) (u32 (size_ s - 1)) (head_ s)
      (insertCount_ s) (indexNames_ s) names).

Definition reset (s : t) : t :=
  mk (capacity_ s) 0 (table_ s) 0 (head_ s) (insertCount_ s) (indexNames_ s) ∅.

(** [while (size_ > 0 && bytes_ + needed > desiredCapacity)]: once per entry. *)
Fixpoint evict_loop (fuel : nat) (s : t) (needed desiredCapacity : Z) : option t :=
  if (size_ s >? 0) && (u32 (bytes_ s + needed) >? desiredCapacity) then
    match fuel with
    | O => None
    | S fuel' => '(_, s) ← removeLast s; evict_loop fuel' s needed desiredCapacity
    end
  else Some s.

Definition evict (s : t) (needed desiredCapacity : Z) : option (Z * t) :=
  let previousSize := size_ s in
  s ← evict_loop (Z.to_nat (size_ s)) s needed desiredCapacity;
  Some (u32 (previousSize - size_ s), s).

(** [table_.resize]. *)
Definition resizeTable (l : list HPACKHeader.t) (newLength : Z) : list HPACKHeader.t :=
  take (Z.to_nat newLength) l ++ replicate (Z.to_nat newLength - length l) inhabitant.

(** The move assignment of [HPACKHeader] swaps. *)
Definition swap (l : list HPACKHeader.t) (i j : nat) : list HPACKHeader.t :=
  match l !! i, l !! j with
  | Some a, Some b => <[i := b]> (<[j := a]> l)
  | _, _ => l
  end.

(** [std::move_backward] of the [n] slots from [first] on, [d] slots further,
    last slot first. *)
Fixpoint move_backward (l : list HPACKHeader.t) (first d n : nat) : list HPACKHeader.t :=
  match n with
  | O => l
  | S n' => move_backward (swap l (first + n') (first + n' + d)) first d n'
  end.

Definition updateResizedTable (l : list HPACKHeader.t) (oldTail oldLength newLength : Z)
  : list HPACKHeader.t :=
  move_backward l (Z.to_nat oldTail) (Z.to_nat (newLength - oldLength))
    (Z.to_nat (oldLength - oldTail)).

(** The slots of one name after the move; the loop stops at the first slot in
    front of the old tail. *)
Fixpoint shift_slots (oldTail d : Z) (l : list Z) : list Z :=
  match l with
  | [] => []
  | i :: l' => if i >=? oldTail then u32 (i + d) :: shift_slots oldTail d l' else l
  end.

Definition increaseTableLengthTo (s : t) (newLength : Z) : option t :=
  oldTail ← (if size_ s >? 0 then tail s else Some 0);
  let oldLength := len s in
  let table := resizeTable (table_ s) newLength in
  if (size_ s >? 0) && (oldTail >? head_ s) then
    let table := updateResizedTable table oldTail oldLength newLength in
    let names :=
      if indexNames_ s then shift_slots oldTail (zlen table - oldLength) <$> names_ s
      else names_ s in
    Some (mk (capacity_ s) (bytes_ s) table (size_ s) (head_ s) (insertCount_ s)
            (indexNames_ s) names)
  else
    Some (mk (capacity_ s) (bytes_ s) table (size_ s) (head_ s) (insertCount_ s)
            (indexNames_ s) (names_ s)).

(** [(uint32_t)ceil(size_ * 1.5)]: exact in [double] for a 32-bit size. *)
Definition ceil_3_2 (n : Z) : Z := u32 ((3 * n + 1) / 2).

(** The last part of [add]: room has been made for the header. *)
Definition insert_head (s : t) (header : HPACKHeader.t) : option (bool * t) :=
  head ← next s (head_ s);
  let names :=
    if indexNames_ s then
      <[HPACKHeader.name header := default [] (names_ s !! HPACKHeader.name header) ++ [head]]>
        (names_ s)
    else names_ s in
  if head <? len s then
    Some (true,
      mk (capacity_ s) (u32 (bytes_ s + HPACKHeader.bytes header))
        (<[Z.to_nat head := header]> (table_ s)) (u32 (size_ s + 1)) head
        (u32 (insertCount_ s + 1)) (indexNames_ s) names)
  else None.

Definition add_sized (s : t) (header : HPACKHeader.t) : option (bool * t) :=
  s ← (if size_ s =? len s
       then increaseTableLengthTo s
              (Z.min (ceil_3_2 (size_ s)) (getMaxTableLength (capacity_ s)))
       else Some s);
  insert_head s header.

Definition add (s : t) (header : HPACKHeader.t) : option (bool * t) :=
  if HPACKHeader.bytes header >? capacity_ s then Some (false, reset s)
  else if u32 (bytes_ s + HPACKHeader.bytes header) >? capacity_ s then
    '(evicted, s) ← evict s (HPACKHeader.bytes header) (capacity_ s);
    if evicted =? 0 then Some (false, s) else add_sized s header
  else add_sized s header.

Definition with_capacity (s : t) (capacity : Z) : t :=
  mk capacity (bytes_ s) (table_ s) (size_ s) (head_ s) (insertCount_ s) (indexNames_ s) (names_ s).

(** The growing branch of [setCapacity]. *)
Definition lengthen (s : t) (newCapacity : Z) : option t :=
  let newLength := initialTableLength newCapacity in
  if newLength >? len s then increaseTableLengthTo s newLength else Some s.

Definition setCapacity (s : t) (newCapacity : Z) : option (bool * t) :=
  if newCapacity =? capacity_ s then Some (true, s)
  else if newCapacity <? capacity_ s then
    '(_, s) ← evict s 0 newCapacity;
    if bytes_ s >? newCapacity then Some (false, s)
    else Some (true, with_capacity s newCapacity)
  else
    s ← lengthen s newCapacity;
    Some (true, with_capacity s newCapacity).

(** [operator==] compares the sizes only. *)
Definition eqb (s other : t) : bool :=
  (size_ s =? size_ other) && (bytes_ s =? bytes_ other).

End HeaderTable.

(** ** The names index

    [indexes names nm l]: for every name, [names] holds the slots of [l] whose
    header has that name, in the order of [l], and nothing for other names. *)

Module NamesIndex.
Import HeaderTable.

Definition some_list (l : list Z) : option (list Z) :=
  match l with [] => None | _ :: _ => Some l end.

Definition indexes (names : names_map) (nm : Z -> list Z) (l : list Z) : Prop :=
  forall n, names !! n = some_list (filter (fun i => nm i = n) l).

Lemma indexes_nil nm : indexes ∅ nm [].
Proof. intros n. by rewrite lookup_empty. Qed.

Lemma indexes_pop names nm i l :
  indexes names nm (i :: l) ->
  exists names', names_pop names (nm i) = Some names' /\ indexes names' nm l.
Proof.
  intros H. pose proof (H (nm i)) as Hi. rewrite filter_cons_True in Hi by done. simpl in Hi.
  unfold names_pop. rewrite Hi.
  assert (Hother : forall n, n <> nm i -> names !! n = some_list (filter (fun j => nm j = n) l)).
  { intros n Hn. rewrite (H n), filter_cons_False by congruence. done. }
  destruct (filter (fun j => nm j = nm i) l) as [|j l'] eqn:Hf; eexists; (split; [reflexivity|]);
    intros n; (destruct (decide (n = nm i)) as [->|Hn];
      [rewrite ?lookup_delete_eq, ?lookup_insert_eq, Hf; done|
       rewrite ?lookup_delete_ne, ?lookup_insert_ne by done; by apply Hother]).
Qed.

Lemma filter_ext_nm (nm nm' : Z -> list Z) (l : list Z) n :
  (forall j, j ∈ l -> nm' j = nm j) ->
  filter (fun j => nm' j = n) l = filter (fun j => nm j = n) l.
Proof.
  induction l as [|i l IH]; intros H; [done|].
  assert (Hi : nm' i = nm i) by (apply H; left).
  assert (IHl := IH (fun j Hj => H j ltac:(by right))).
  destruct (decide (nm i = n)).
  - rewrite !filter_cons_True by congruence. by rewrite IHl.
  - rewrite !filter_cons_False by congruence. done.
Qed.

Lemma indexes_ext names nm nm' l :
  indexes names nm l -> (forall j, j ∈ l -> nm' j = nm j) -> indexes names nm' l.
Proof. intros H Hnm n. by rewrite (filter_ext_nm nm nm' l n Hnm). Qed.

Lemma indexes_push names nm nm' l i :
  indexes names nm l -> (forall j, j ∈ l -> nm' j = nm j) ->
  indexes (<[nm' i := default [] (names !! nm' i) ++ [i]]> names) nm' (l ++ [i]).
Proof.
  intros H Hnm n. rewrite filter_app, (filter_ext_nm nm nm' l n Hnm), (H (nm' i)).
  destruct (decide (n = nm' i)) as [->|Hn].
  - rewrite lookup_insert_eq, filter_cons_True by done.
    by destruct (filter (fun j => nm j = nm' i) l).
  - rewrite lookup_insert_ne, H, filter_cons_False, app_nil_r by done. done.
Qed.

Lemma indexes_map names nm nm' l f g :
  indexes names nm l -> (forall i, i ∈ l -> nm' (f i) = nm i) ->
  (forall n, g (filter (fun i => nm i = n) l) = f <$> filter (fun i => nm i = n) l) ->
  indexes (g <$> names) nm' (f <$> l).
Proof.
  intros H Hnm Hg n. rewrite lookup_fmap, H.
  assert (E : filter (fun i => nm' i = n) (f <$> l) = f <$> filter (fun i => nm i = n) l).
  { clear H Hg. induction l as [|i l IH]; [done|]. cbn [fmap list_fmap].
    assert (Hi : nm' (f i) = nm i) by (apply Hnm; left).
    assert (IHl := IH (fun j Hj => Hnm j ltac:(by right))).
    destruct (decide (nm i = n)).
    - rewrite !filter_cons_True by congruence. cbn [fmap list_fmap]. by rewrite IHl.
    - rewrite !filter_cons_False by congruence. done. }
  rewrite E, <- Hg. specialize (Hg n).
  destruct (filter (fun i => nm i = n) l) as [|x l']; simpl in *; [by rewrite Hg|].
  by rewrite Hg.
Qed.

End NamesIndex.

(** ** The ring as a list *)

Module Ring.
Import HPACKHeader HeaderSpec HeaderTable NamesIndex.

Definition get (l : list HPACKHeader.t) (i : Z) : HPACKHeader.t := l !!! Z.to_nat i.

(** The slots in use, newest first, and what they hold. *)
Definition ring (s : t) : list Z :=
  (fun j => (head_ s - j) mod len s) <$> seqZ 0 (size_ s).

Definition entries (s : t) : list HPACKHeader.t := get (table_ s) <$> ring s.

(** The name in a slot. *)
Definition name_in (s : t) (i : Z) : list Z := name (get (table_ s) i).

Record wf (s : t) : Prop := {
  wf_cap : 0 <= capacity_ s < 2 ^ 31;
  wf_bytes : bytes_ s = total (entries s);
  wf_le : bytes_ s <= capacity_ s;
  wf_size : 0 <= size_ s <= len s;
  wf_len : len s <= 2 ^ 26;
  wf_room : 32 <= capacity_ s -> 0 < len s;
  wf_head : 0 <= head_ s < Z.max 1 (len s);
  wf_names : indexNames_ s = true -> indexes (names_ s) (name_in s) (reverse (ring s)) }.

Lemma length_ring s : length (ring s) = Z.to_nat (size_ s).
Proof. unfold ring. by rewrite length_fmap, length_seqZ. Qed.

Lemma length_entries s : wf s -> zlen (entries s) = size_ s.
Proof.
  intros H. unfold entries, zlen. rewrite length_fmap, length_ring.
  pose proof (wf_size s H). lia.
Qed.

Lemma ring_range s i : wf s -> i ∈ ring s -> 0 <= i < len s.
Proof.
  intros H. unfold ring. rewrite list_elem_of_fmap. intros (j & -> & Hj).
  apply elem_of_seqZ in Hj. pose proof (wf_size s H). apply Z.mod_pos_bound. lia.
Qed.

Lemma ring_lookup s (j : nat) :
  Z.of_nat j < size_ s -> ring s !! j = Some ((head_ s - Z.of_nat j) mod len s).
Proof.
  intros H. unfold ring. rewrite list_lookup_fmap, lookup_seqZ_lt by lia.
  reflexivity.
Qed.

(** The last slot of the ring is the one [tail] computes. *)
Lemma ring_snoc s :
  0 < size_ s ->
  ring s = ring (mk (capacity_ s) (bytes_ s) (table_ s) (size_ s - 1) (head_ s)
                    (insertCount_ s) (indexNames_ s) (names_ s)) ++
           [(head_ s - (size_ s - 1)) mod len s].
Proof.
  intros H. unfold ring, len. simpl.
  replace (size_ s) with ((size_ s - 1) + 1) at 1 by lia.
  rewrite seqZ_app, fmap_app by lia. done.
Qed.

Lemma tail_ring s :
  wf s -> 0 < size_ s -> tail s = Some ((head_ s - (size_ s - 1)) mod len s).
Proof.
  intros H H0. pose proof (wf_size s H). pose proof (wf_head s H). pose proof (wf_len s H).
  unfold tail. destruct (Z.eqb_spec (len s) 0); [lia|]. f_equal.
  rewrite u64_id by (unfold_ints; lia).
  replace (head_ s + len s - size_ s + 1) with (head_ s - (size_ s - 1) + 1 * len s) by lia.
  rewrite Z.mod_add by lia. apply u32_id.
  pose proof (Z.mod_pos_bound (head_ s - (size_ s - 1)) (len s)). unfold_ints. lia.
Qed.

Lemma slot_get s i : 0 <= i < len s -> slot s i = Some (get (table_ s) i).
Proof.
  intros H. unfold slot, get, len, zlen in *. rewrite (proj2 (Z.leb_le _ _)) by lia.
  apply list_lookup_lookup_total_lt. lia.
Qed.

Lemma entry_small s h : wf s -> h ∈ entries s -> hsize h < 2 ^ 31.
Proof.
  intros H Hh. pose proof (wf_cap s H). pose proof (wf_le s H) as Hle. rewrite (wf_bytes s H) in Hle.
  apply list_elem_of_split in Hh as (l1 & l2 & E). rewrite E, total_app in Hle.
  cbn [total foldr] in Hle. fold (total l2) in Hle.
  pose proof (total_nonneg l1). pose proof (total_nonneg l2). lia.
Qed.

(** ** Removing the oldest entry *)

Lemma removeLast_spec s :
  wf s -> 0 < size_ s ->
  exists h s', entries s = entries s' ++ [h] /\ removeLast s = Some (hsize h, s') /\ wf s' /\
    size_ s' = size_ s - 1 /\ capacity_ s' = capacity_ s /\ indexNames_ s' = indexNames_ s /\
    insertCount_ s' = insertCount_ s.
Proof.
  intros H H0. pose proof (wf_size s H). pose proof (wf_len s H).
  set (i := (head_ s - (size_ s - 1)) mod len s).
  assert (Hi : 0 <= i < len s) by (apply Z.mod_pos_bound; lia).
  set (h := get (table_ s) i).
  assert (Hs1 : u32 (size_ s - 1) = size_ s - 1) by (apply u32_id; unfold_ints; lia).
  assert (Hn : exists names, (if indexNames_ s then names_pop (names_ s) (name h) else Some (names_ s)) =
      Some names /\ (indexNames_ s = true -> indexes names (name_in s)
        (reverse (ring (mk (capacity_ s) (bytes_ s) (table_ s) (size_ s - 1) (head_ s)
                    (insertCount_ s) (indexNames_ s) (names_ s)))))).
  { destruct (indexNames_ s) eqn:Hb; [|by eexists].
    pose proof (wf_names s H Hb) as Hix. rewrite (ring_snoc s H0), reverse_snoc, Hb in Hix.
    apply indexes_pop in Hix as (names & Hp & Hix). exists names.
    split; [exact Hp|done]. }
  destruct Hn as (names & Hpop & Hix).
  set (s' := mk (capacity_ s) (u32 (bytes_ s - hsize h)) (table_ s) (u32 (size_ s - 1)) (head_ s)
               (insertCount_ s) (indexNames_ s) names).
  assert (Hent : entries s = entries s' ++ [h]).
  { unfold entries. rewrite (ring_snoc s H0), fmap_app. f_equal. unfold s', ring, len. simpl.
    by rewrite Hs1. }
  assert (Hh : hsize h < 2 ^ 31).
  { apply (entry_small s); [done|]. rewrite Hent. apply elem_of_app. right. by left. }
  assert (Hb : bytes_ s - hsize h = total (entries s')).
  { rewrite (wf_bytes s H), Hent, total_app. simpl. lia. }
  pose proof (total_nonneg (entries s')). pose proof (hsize_min h).
  pose proof (wf_le s H). pose proof (wf_cap s H).
  exists h, s'. split; [done|]. split.
  { unfold removeLast. rewrite tail_ring by done. fold i. unfold mbind, option_bind.
    rewrite slot_get by done. fold h. rewrite Hpop. by rewrite (bytes_exact h Hh). }
  assert (Hu : u32 (bytes_ s - hsize h) = bytes_ s - hsize h) by (apply u32_id; unfold_ints; lia).
  split_and!; try done.
  constructor; simpl; rewrite ?Hu, ?Hs1; try done; try lia.
  - unfold len in *. simpl. lia.
  - apply (wf_room s H).
  - apply (wf_head s H).
  - intros Hidx. specialize (Hix Hidx). unfold s', ring, len in *. simpl in *. by rewrite Hs1.
Qed.

(** ** Eviction *)

(** What [evict] and [increaseTableLengthTo] leave alone. *)
Definition frame (s s' : t) : Prop :=
  capacity_ s' = capacity_ s /\ indexNames_ s' = indexNames_ s /\
  insertCount_ s' = insertCount_ s.

Lemma frame_refl s : frame s s.
Proof. done. Qed.

Lemma frame_trans s1 s2 s3 : frame s1 s2 -> frame s2 s3 -> frame s1 s3.
Proof. unfold frame. intuition congruence. Qed.

Lemma entries_nil s : wf s -> size_ s = 0 -> entries s = [].
Proof. intros H H0. apply nil_length_inv. pose proof (length_entries s H). unfold zlen in *. lia. Qed.

Lemma evict_loop_spec fuel : forall s needed desired,
  wf s -> size_ s <= Z.of_nat fuel -> 0 <= needed < 2 ^ 31 ->
  exists s', evict_loop fuel s needed desired = Some s' /\ wf s' /\ frame s s' /\
    size_ s' <= size_ s /\ entries s' = keep (desired - needed) (entries s) /\
    (0 < size_ s -> desired < bytes_ s + needed -> size_ s' < size_ s).
Proof.
  induction fuel as [|fuel IH]; intros s needed desired H Hf Hn; cbn [evict_loop];
    rewrite !Z.gtb_ltb; pose proof (wf_size s H); pose proof (wf_cap s H); pose proof (wf_le s H);
    pose proof (total_nonneg (entries s)) as Ht; rewrite <- (wf_bytes s H) in Ht.
  - rewrite (proj2 (Z.ltb_ge 0 (size_ s))) by lia. exists s.
    rewrite (entries_nil s) by (done || lia). split_and!; try done; lia.
  - rewrite u32_id by (unfold_ints; lia).
    destruct (Z.ltb_spec 0 (size_ s)) as [Hz|Hz], (Z.ltb_spec desired (bytes_ s + needed)) as [Hd|Hd];
      cbn [andb].
    + destruct (removeLast_spec s H Hz) as (h & s1 & He & -> & Hw1 & Hs1 & Hc1 & Hi1 & Hic).
      unfold mbind, option_bind.
      destruct (IH s1 needed desired Hw1 ltac:(lia) Hn) as (s' & -> & H' & Hfr & Hsz & He' & _).
      exists s'. split_and!; try done; try lia.
      * by apply (frame_trans s s1).
      * rewrite He', He, keep_snoc; [done|]. rewrite <- He, <- (wf_bytes s H). lia.
    + exists s. rewrite keep_all by (rewrite <- (wf_bytes s H); lia). split_and!; try done; lia.
    + exists s. rewrite (entries_nil s) by (done || lia). split_and!; try done; lia.
    + exists s. rewrite (entries_nil s) by (done || lia). split_and!; try done; lia.
Qed.

Lemma evict_spec s needed desired :
  wf s -> 0 <= needed < 2 ^ 31 ->
  exists n s', evict s needed desired = Some (n, s') /\ wf s' /\ frame s s' /\
    entries s' = keep (desired - needed) (entries s) /\
    (0 < size_ s -> desired < bytes_ s + needed -> 0 < n).
Proof.
  intros H Hn. pose proof (wf_size s H). pose proof (wf_len s H).
  destruct (evict_loop_spec (Z.to_nat (size_ s)) s needed desired H ltac:(lia) Hn)
    as (s' & HE & H' & Hfr & Hsz & He & Hp).
  unfold evict. rewrite HE. unfold mbind, option_bind. pose proof (wf_size s' H').
  eexists _, s'. split; [reflexivity|]. split_and!; try done.
  intros Hz Hd. specialize (Hp Hz Hd). rewrite u32_id by (unfold_ints; lia). lia.
Qed.

(** ** Inserting at the head *)

Lemma succ_mod_ring a j n : 0 < n -> (a + 1 - (j + 1)) mod n = (a - j) mod n.
Proof. intros. f_equal. lia. Qed.

(** The slot after the head is free when the ring is not full. *)
Lemma next_free s :
  wf s -> size_ s < len s -> (head_ s + 1) mod len s ∉ ring s.
Proof.
  intros H Hlt. unfold ring. rewrite list_elem_of_fmap. intros (j & E & Hj).
  apply elem_of_seqZ in Hj. pose proof (wf_size s H).
  assert (Hd : (head_ s + 1 - (head_ s - j)) mod len s = 0).
  { rewrite Zminus_mod, E, Z.sub_diag. apply Z.mod_0_l. lia. }
  rewrite Z.mod_small in Hd by lia. lia.
Qed.

Lemma get_insert_ne (l : list HPACKHeader.t) h i j :
  0 <= i -> 0 <= j -> i <> j -> get (<[Z.to_nat j := h]> l) i = get l i.
Proof. intros. unfold get. apply list_lookup_total_insert_ne. lia. Qed.

Lemma insert_head_spec s h :
  wf s -> size_ s < len s -> hsize h + bytes_ s <= capacity_ s ->
  exists s', insert_head s h = Some (true, s') /\ wf s' /\ entries s' = h :: entries s /\
    capacity_ s' = capacity_ s /\ indexNames_ s' = indexNames_ s /\
    insertCount_ s' = u32 (insertCount_ s + 1).
Proof.
  intros H Hlt Hb. pose proof (wf_size s H). pose proof (wf_len s H). pose proof (wf_head s H).
  pose proof (wf_cap s H). pose proof (hsize_min h).
  pose proof (total_nonneg (entries s)) as Ht. rewrite <- (wf_bytes s H) in Ht.
  assert (Hh : hsize h < 2 ^ 31) by lia.
  set (i := (head_ s + 1) mod len s).
  assert (Hi : 0 <= i < len s) by (apply Z.mod_pos_bound; lia).
  pose proof (next_free s H Hlt) as Hfree. fold i in Hfree.
  set (names := if indexNames_ s then <[name h := default [] (names_ s !! name h) ++ [i]]> (names_ s)
                else names_ s).
  set (s' := mk (capacity_ s) (bytes_ s + hsize h) (<[Z.to_nat i := h]> (table_ s)) (size_ s + 1) i
               (u32 (insertCount_ s + 1)) (indexNames_ s) names).
  assert (Hlen' : len s' = len s) by (unfold len, zlen, s'; simpl; by rewrite length_insert).
  assert (Hring : ring s' = i :: ring s).
  { unfold ring. rewrite Hlen'. unfold s'. simpl. replace (size_ s + 1) with (1 + size_ s) by lia.
    rewrite seqZ_app, fmap_app by lia. change (seqZ 0 1) with [0]. cbn [fmap list_fmap app]. f_equal.
    - unfold i. rewrite Z.sub_0_r, Z.mod_mod by lia. done.
    - rewrite <- (fmap_add_seqZ 1 0), <- list_fmap_compose. apply list_fmap_ext. intros _ j _. simpl.
      unfold i. rewrite Zminus_mod_idemp_l. f_equal. lia. }
  assert (Hkeep : forall j, j ∈ ring s -> get (table_ s') j = get (table_ s) j).
  { intros j Hj. pose proof (ring_range s j H Hj). unfold s'. simpl.
    apply get_insert_ne; try lia. by intros ->. }
  assert (Hnew : get (table_ s') i = h).
  { unfold get, s'. simpl. apply list_lookup_total_insert_eq. unfold len, zlen in Hi. lia. }
  assert (Hent : entries s' = h :: entries s).
  { unfold entries. rewrite Hring. cbn [fmap list_fmap]. f_equal; [done|].
    apply list_fmap_ext. intros k j Hj. apply Hkeep. by eapply list_elem_of_lookup_2. }
  exists s'. split; [|split; [|done]].
  - unfold insert_head, next. destruct (Z.eqb_spec (len s) 0); [lia|]. unfold mbind, option_bind.
    rewrite !(u32_id (head_ s + 1)) by (unfold_ints; lia). fold i.
    rewrite (u32_id i), (proj2 (Z.ltb_lt i _)) by (try (unfold_ints; lia); lia).
    rewrite (bytes_exact h Hh), (u32_id (bytes_ s + _)), (u32_id (size_ s + 1)) by (unfold_ints; lia).
    done.
  - constructor; rewrite ?Hent, ?Hlen'; unfold s'; simpl; try lia; try done.
    + fold (total (entries s)). rewrite <- (wf_bytes s H). lia.
    + intros Hb'. fold s'. rewrite Hring, reverse_cons. unfold names. rewrite Hb'.
      assert (Hn : name_in s' i = name h) by (unfold name_in; by rewrite Hnew).
      rewrite <- Hn. apply (indexes_push _ (name_in s)); [exact (wf_names s H Hb')|].
      intros j Hj. rewrite elem_of_reverse in Hj. unfold name_in. by rewrite (Hkeep j Hj).
Qed.

(** ** Growing the ring *)

Lemma length_swap l i j : length (swap l i j) = length l.
Proof. unfold swap. destruct (l !! i), (l !! j); rewrite ?length_insert; done. Qed.

Lemma swap_ne l i j k : k <> i -> k <> j -> swap l i j !! k = l !! k.
Proof.
  intros. unfold swap. destruct (l !! i), (l !! j); try done.
  by rewrite !list_lookup_insert_ne by done.
Qed.

Lemma swap_r l i j : (i < length l)%nat -> (j < length l)%nat -> swap l i j !! j = l !! i.
Proof.
  intros Hi Hj. unfold swap. destruct (lookup_lt_is_Some_2 l i Hi) as [a Ha].
  destruct (lookup_lt_is_Some_2 l j Hj) as [b Hb]. rewrite Ha, Hb.
  destruct (decide (i = j)) as [->|].
  - rewrite list_lookup_insert_eq by (by rewrite length_insert). congruence.
  - rewrite list_lookup_insert_ne, list_lookup_insert_eq by done. done.
Qed.

Lemma length_move_backward n : forall l first d, length (move_backward l first d n) = length l.
Proof. induction n as [|n IH]; intros; simpl; [done|]. by rewrite IH, length_swap. Qed.

(** Slots in front of the range and behind its image stay. *)
Lemma move_backward_stay n : forall l first d k,
  (k < first \/ first + n + d <= k)%nat -> move_backward l first d n !! k = l !! k.
Proof.
  induction n as [|n IH]; intros l first d k Hk; [done|]. simpl.
  rewrite IH by lia. apply swap_ne; lia.
Qed.

(** Slot [first + j] moves [d] slots further. *)
Lemma move_backward_moved n : forall l first d j,
  (j < n)%nat -> (first + n + d <= length l)%nat ->
  move_backward l first d n !! (first + j + d)%nat = l !! (first + j)%nat.
Proof.
  induction n as [|n IH]; intros l first d j Hj Hl; [lia|]. simpl.
  destruct (decide (j = n)) as [->|Hne].
  - rewrite move_backward_stay by lia. apply swap_r; lia.
  - rewrite IH by (rewrite ?length_swap; lia). apply swap_ne; lia.
Qed.

Lemma length_resizeTable l n : zlen l <= n -> zlen (resizeTable l n) = n.
Proof.
  intros H. unfold resizeTable, zlen in *.
  rewrite length_app, length_take, length_replicate. lia.
Qed.

Lemma resizeTable_lookup l n (i : nat) :
  zlen l <= n -> (i < length l)%nat -> resizeTable l n !! i = l !! i.
Proof.
  intros H Hi. unfold resizeTable, zlen in *. rewrite firstn_all2 by lia.
  by apply lookup_app_l.
Qed.

Lemma get_eq l l' i i' : l !! Z.to_nat i = l' !! Z.to_nat i' -> get l i = get l' i'.
Proof. unfold get. intros E. by rewrite !list_lookup_total_alt, E. Qed.

Lemma shift_slots_fmap T d l1 l2 :
  (forall i, i ∈ l1 -> T <= i /\ is_u32 (i + d)) -> (forall i, i ∈ l2 -> i < T) ->
  shift_slots T d (l1 ++ l2) = (fun i => if T <=? i then i + d else i) <$> (l1 ++ l2).
Proof.
  intros H1 H2. induction l1 as [|i l1 IH]; cbn [app].
  - destruct l2 as [|i l2]; [done|]. cbn [shift_slots].
    rewrite Z.geb_leb, (proj2 (Z.leb_gt _ _)) by (apply H2; left).
    symmetry. transitivity (id <$> i :: l2); [|apply list_fmap_id].
    apply list_fmap_ext. intros k j Hj%list_elem_of_lookup_2.
    by rewrite (proj2 (Z.leb_gt _ _)) by auto.
  - cbn [shift_slots fmap list_fmap]. destruct (H1 i) as [HT Hu]; [left|].
    rewrite Z.geb_leb, (proj2 (Z.leb_le _ _)), u32_id by done. f_equal.
    apply IH. intros j Hj. apply H1. by right.
Qed.

(** The new ring in terms of the old one: the part that wrapped around moves. *)
Definition moved (s : t) (T d i : Z) : Z :=
  if (head_ s <? T) && (T <=? i) then i + d else i.

Lemma slot_cases s j :
  wf s -> 0 <= j < size_ s ->
  (head_ s - j) mod len s = if j <=? head_ s then head_ s - j else head_ s - j + len s.
Proof.
  intros H Hj. pose proof (wf_size s H). pose proof (wf_head s H).
  destruct (Z.leb_spec j (head_ s)).
  - apply Z.mod_small. lia.
  - rewrite <- (Z.mod_small (head_ s - j + len s) (len s)) by lia.
    rewrite <- (Z.mod_add (head_ s - j) 1 (len s)) by lia. f_equal. lia.
Qed.

Lemma ring_grow s n table names :
  wf s -> zlen table = n -> len s <= n ->
  let T := if size_ s >? 0 then (head_ s - (size_ s - 1)) mod len s else 0 in
  ring (mk (capacity_ s) (bytes_ s) table (size_ s) (head_ s) (insertCount_ s) (indexNames_ s) names)
  = moved s T (n - len s) <$> ring s.
Proof.
  intros H Ht Hn T. unfold ring, len at 1. simpl. rewrite Ht, <- list_fmap_compose.
  apply list_fmap_ext. intros _ j Hj%list_elem_of_lookup_2%elem_of_seqZ. simpl.
  pose proof (wf_size s H). pose proof (wf_head s H).
  unfold moved, T. rewrite (proj2 (Z.gtb_lt (size_ s) 0)) by lia.
  rewrite !(slot_cases s) by (done || lia).
  destruct (Z.leb_spec j (head_ s)), (Z.leb_spec (size_ s - 1) (head_ s)); try lia.
  - rewrite (proj2 (Z.ltb_ge (head_ s) _)) by lia. simpl. apply Z.mod_small. lia.
  - rewrite (proj2 (Z.leb_gt _ (head_ s - j))) by lia. rewrite andb_false_r. apply Z.mod_small. lia.
  - rewrite (proj2 (Z.ltb_lt (head_ s) _)), (proj2 (Z.leb_le _ (head_ s - j + len s))) by lia.
    simpl. rewrite <- (Z.mod_add _ 1) by lia. rewrite Z.mod_small by lia. lia.
Qed.

(** The slots of a name are ordered as the loop of the names update needs. *)
Lemma reverse_ring_split s :
  wf s -> head_ s < size_ s - 1 ->
  exists l1 l2, reverse (ring s) = l1 ++ l2 /\
    (forall i, i ∈ l1 -> (head_ s - (size_ s - 1)) mod len s <= i < len s) /\
    (forall i, i ∈ l2 -> 0 <= i <= head_ s).
Proof.
  intros H Hw. pose proof (wf_size s H). pose proof (wf_head s H).
  assert (E : seqZ 0 (size_ s) = seqZ 0 (head_ s + 1) ++ seqZ (head_ s + 1) (size_ s - (head_ s + 1))).
  { rewrite <- (seqZ_app 0) by lia. f_equal. lia. }
  unfold ring. rewrite E, fmap_app, reverse_app. eexists _, _. split; [reflexivity|].
  rewrite (slot_cases s (size_ s - 1)) by (done || lia).
  rewrite (proj2 (Z.leb_gt (size_ s - 1) (head_ s))) by lia.
  split; intros i; rewrite elem_of_reverse, list_elem_of_fmap; intros (j & -> & Hj%elem_of_seqZ);
    rewrite slot_cases by (done || lia);
    destruct (Z.leb_spec j (head_ s)); lia.
Qed.

(** The slots in use keep their contents when the table is replaced by [table],
    which holds at a slot's new place what [table_] held at its old place. *)
Lemma grow_wf s n table names T :
  wf s -> zlen table = n -> len s <= n <= 2 ^ 26 ->
  T = (if size_ s >? 0 then (head_ s - (size_ s - 1)) mod len s else 0) ->
  (forall i, i ∈ ring s -> get table (moved s T (n - len s) i) = get (table_ s) i) ->
  (indexNames_ s = true ->
     indexes names (fun i => name (get table i)) (moved s T (n - len s) <$> reverse (ring s))) ->
  let s' := mk (capacity_ s) (bytes_ s) table (size_ s) (head_ s) (insertCount_ s)
              (indexNames_ s) names in
  wf s' /\ entries s' = entries s.
Proof.
  intros H Ht Hn HT Hget Hix s'.
  pose proof (ring_grow s n table names H Ht ltac:(lia)) as Hring. cbv zeta in Hring.
  rewrite <- HT in Hring. fold s' in Hring.
  assert (Hent : entries s' = entries s).
  { unfold entries. rewrite Hring, <- list_fmap_compose. apply list_fmap_ext.
    intros k i Hi%list_elem_of_lookup_2. by apply Hget. }
  assert (Hlen : len s' = n) by done.
  pose proof (wf_size s H). pose proof (wf_head s H).
  split; [|done]. constructor; rewrite ?Hent, ?Hlen; simpl; try lia.
  - apply (wf_cap s H).
  - apply (wf_bytes s H).
  - apply (wf_le s H).
  - intros Hc. pose proof (wf_room s H Hc). lia.
  - intros Hb. rewrite Hring, <- fmap_reverse. by apply Hix.
Qed.

(** The slot of the oldest entry, as [increaseTableLengthTo] computes it. *)
Definition old_tail (s : t) : Z :=
  if size_ s >? 0 then (head_ s - (size_ s - 1)) mod len s else 0.

Lemma old_tail_spec s : wf s -> (if size_ s >? 0 then tail s else Some 0) = Some (old_tail s).
Proof.
  intros H. unfold old_tail. rewrite Z.gtb_ltb.
  destruct (Z.ltb_spec 0 (size_ s)); [by apply tail_ring|done].
Qed.

Lemma resize_keeps s n i :
  len s <= n -> 0 <= i < len s -> resizeTable (table_ s) n !! Z.to_nat i = table_ s !! Z.to_nat i.
Proof. intros. apply resizeTable_lookup; unfold len, zlen in *; lia. Qed.

Lemma increase_wrapped s n :
  wf s -> len s <= n <= 2 ^ 26 -> 0 < size_ s -> head_ s < old_tail s ->
  let T := old_tail s in
  let table := updateResizedTable (resizeTable (table_ s) n) T (len s) n in
  let s' := mk (capacity_ s) (bytes_ s) table (size_ s) (head_ s) (insertCount_ s) (indexNames_ s)
    (if indexNames_ s then shift_slots T (n - len s) <$> names_ s else names_ s) in
  zlen table = n /\ wf s' /\ entries s' = entries s.
Proof.
  intros H Hn H0 Hh T table s'. pose proof (wf_size s H). pose proof (wf_head s H).
  assert (HTe : T = (head_ s - (size_ s - 1)) mod len s).
  { unfold T, old_tail. by rewrite (proj2 (Z.gtb_lt _ _)) by lia. }
  assert (HTr : 0 <= T < len s) by (rewrite HTe; apply Z.mod_pos_bound; lia).
  assert (Hwrap : head_ s < size_ s - 1).
  { pose proof (slot_cases s (size_ s - 1) H ltac:(lia)) as E. rewrite <- HTe in E. fold T in Hh.
    destruct (Z.leb_spec (size_ s - 1) (head_ s)); lia. }
  assert (Hlt : (head_ s <? T) = true) by (by apply Z.ltb_lt).
  assert (Htl : zlen table = n).
  { unfold table, updateResizedTable, zlen. rewrite length_move_backward.
    apply length_resizeTable. fold (len s). lia. }
  split; [done|].
  assert (Hmoved : forall i, i ∈ ring s -> get table (moved s T (n - len s) i) = get (table_ s) i).
  { intros i Hi. pose proof (ring_range s i H Hi). unfold moved. rewrite Hlt. cbn [andb].
    unfold table, updateResizedTable. apply get_eq.
    pose proof (length_resizeTable (table_ s) n ltac:(unfold len in *; lia)).
    destruct (Z.leb_spec T i).
    - rewrite <- (resize_keeps s n) by lia.
      replace (Z.to_nat (i + (n - len s)))
        with (Z.to_nat T + (Z.to_nat i - Z.to_nat T) + Z.to_nat (n - len s))%nat by lia.
      rewrite move_backward_moved by (unfold zlen in *; lia). f_equal. lia.
    - rewrite move_backward_stay by lia. apply resize_keeps; lia. }
  refine (grow_wf s n table _ T H Htl Hn eq_refl Hmoved _). intros Hb. rewrite Hb.
  apply (indexes_map _ (name_in s)); [exact (wf_names s H Hb)| |].
  - intros i Hi. rewrite elem_of_reverse in Hi. unfold name_in. by rewrite (Hmoved i Hi).
  - intros nm. destruct (reverse_ring_split s H Hwrap) as (l1 & l2 & -> & Hl1 & Hl2).
    rewrite filter_app, shift_slots_fmap.
    + apply list_fmap_ext. intros. unfold moved. by rewrite Hlt.
    + intros i [_ Hi]%list_elem_of_filter. rewrite HTe. specialize (Hl1 i Hi). unfold_ints. lia.
    + intros i [_ Hi]%list_elem_of_filter. specialize (Hl2 i Hi). fold T in Hh. lia.
Qed.

Lemma increase_straight s n :
  wf s -> len s <= n <= 2 ^ 26 -> ~ (0 < size_ s /\ head_ s < old_tail s) ->
  let s' := mk (capacity_ s) (bytes_ s) (resizeTable (table_ s) n) (size_ s) (head_ s)
              (insertCount_ s) (indexNames_ s) (names_ s) in
  wf s' /\ entries s' = entries s.
Proof.
  intros H Hn Hw s'. assert (Htl : zlen (resizeTable (table_ s) n) = n)
    by (apply length_resizeTable; fold (len s); lia).
  assert (Hstay : forall i, i ∈ ring s -> moved s (old_tail s) (n - len s) i = i).
  { intros i Hi. unfold moved. destruct (Z.ltb_spec (head_ s) (old_tail s)); [|done].
    unfold ring in Hi. rewrite list_elem_of_fmap in Hi. destruct Hi as (j & _ & Hj%elem_of_seqZ).
    destruct Hw. lia. }
  assert (Hget : forall i, i ∈ ring s -> get (resizeTable (table_ s) n) i = get (table_ s) i).
  { intros i Hi. apply get_eq, resize_keeps; [lia|]. by apply (ring_range s). }
  refine (grow_wf s n _ _ (old_tail s) H Htl Hn eq_refl _ _).
  - intros i Hi. rewrite Hstay by done. by apply Hget.
  - intros Hb. assert (moved s (old_tail s) (n - len s) <$> reverse (ring s) = reverse (ring s)) as ->.
    { transitivity (id <$> reverse (ring s)); [|apply list_fmap_id]. apply list_fmap_ext.
      intros k i Hi%list_elem_of_lookup_2. rewrite elem_of_reverse in Hi. by apply Hstay. }
    apply (indexes_ext _ (name_in s)); [exact (wf_names s H Hb)|].
    intros i Hi. rewrite elem_of_reverse in Hi. unfold name_in. by rewrite (Hget i Hi).
Qed.

Lemma increase_spec s n :
  wf s -> len s <= n <= 2 ^ 26 ->
  exists s', increaseTableLengthTo s n = Some s' /\ wf s' /\ entries s' = entries s /\
    frame s s' /\ len s' = n /\ size_ s' = size_ s /\ bytes_ s' = bytes_ s.
Proof.
  intros H Hn. unfold increaseTableLengthTo. rewrite old_tail_spec by done.
  unfold mbind, option_bind. rewrite !Z.gtb_ltb.
  destruct (Z.ltb_spec 0 (size_ s)), (Z.ltb_spec (head_ s) (old_tail s)); cbn [andb].
  1: destruct (increase_wrapped s n) as (Htl & Hwf & Hent); try done.
  1: rewrite Htl; eexists; split; [reflexivity|]; by split_and!.
  all: destruct (increase_straight s n) as (Hwf & Hent); [done|done|lia|];
    eexists; split; [reflexivity|]; split_and!; try done.
  all: unfold len; simpl; apply length_resizeTable; fold (len s); lia.
Qed.

(** ** The operations *)

Lemma initialTableLength_range c :
  0 <= c < 2 ^ 31 -> 0 <= initialTableLength c <= 2 ^ 26 /\ (32 <= c -> 1 <= initialTableLength c).
Proof.
  intros Hc. unfold initialTableLength, getMaxTableLength. rewrite Z.shiftr_div_pow2 by lia.
  change (2 ^ 5) with 32. destruct (Z.eqb_spec (c / 32) 1); ilia.
Qed.

Lemma create_wf c : 0 <= c < 2 ^ 31 -> wf (create c) /\ entries (create c) = [].
Proof.
  intros Hc. split; [|done]. pose proof (initialTableLength_range c Hc) as [Hr Hr'].
  assert (Hlen : len (create c) = initialTableLength c).
  { unfold len, zlen, create. simpl. rewrite length_replicate. lia. }
  constructor; rewrite ?Hlen; simpl; try lia; done.
Qed.

Lemma reset_wf s : wf s -> wf (reset s) /\ entries (reset s) = [].
Proof.
  intros H. split; [|done]. pose proof (wf_cap s H). pose proof (wf_size s H).
  constructor; simpl; try done; try lia.
  - unfold len in *. simpl. lia.
  - apply (wf_len s H).
  - apply (wf_room s H).
  - apply (wf_head s H).
Qed.

Lemma disableNamesIndex_wf s :
  wf s -> wf (disableNamesIndex s) /\ entries (disableNamesIndex s) = entries s.
Proof. intros [? ? ? ? ? ? ? ?]. split; [|done]. by constructor. Qed.

Lemma add_sized_spec s h :
  wf s -> hsize h + bytes_ s <= capacity_ s ->
  exists s', add_sized s h = Some (true, s') /\ wf s' /\ entries s' = h :: entries s /\
    capacity_ s' = capacity_ s /\ indexNames_ s' = indexNames_ s /\
    insertCount_ s' = u32 (insertCount_ s + 1).
Proof.
  intros H Hb. unfold add_sized. pose proof (wf_size s H). pose proof (wf_cap s H).
  pose proof (hsize_min h).
  pose proof (total_length (entries s)) as Ht.
  rewrite (length_entries s H), <- (wf_bytes s H) in Ht.
  destruct (Z.eqb_spec (size_ s) (len s)) as [E|E].
  - pose proof (wf_room s H ltac:(lia)). pose proof (wf_len s H).
    destruct (increase_spec s (Z.min (ceil_3_2 (size_ s)) (getMaxTableLength (capacity_ s))) H)
      as (s1 & -> & Hw1 & He1 & (Hc1 & Hi1 & Hn1) & Hl1 & Hs1 & Hb1).
    + unfold ceil_3_2, getMaxTableLength. rewrite Z.shiftr_div_pow2 by lia. change (2 ^ 5) with 32.
      rewrite u32_id; ilia.
    + unfold mbind, option_bind.
      destruct (insert_head_spec s1 h Hw1) as (s' & -> & H' & He' & Hc' & Hi' & Hn').
      * rewrite Hl1, Hs1, E. unfold ceil_3_2, getMaxTableLength.
        rewrite Z.shiftr_div_pow2 by lia. change (2 ^ 5) with 32. rewrite u32_id; ilia.
      * congruence.
      * exists s'. split_and!; congruence || done.
  - unfold mbind, option_bind.
    destruct (insert_head_spec s h H) as (s' & -> & H' & He' & Hc' & Hi' & Hn'); [lia|done|].
    exists s'. by split_and!.
Qed.

Lemma add_spec s h :
  wf s -> hsize h < 2 ^ 31 ->
  exists s', HeaderTable.add s h = Some (hsize h <=? capacity_ s, s') /\ wf s' /\
    entries s' = HeaderSpec.add (capacity_ s) h (entries s) /\
    capacity_ s' = capacity_ s /\ indexNames_ s' = indexNames_ s.
Proof.
  intros H Hh. unfold HeaderTable.add, HeaderSpec.add. rewrite (bytes_exact h Hh), !Z.gtb_ltb.
  pose proof (wf_cap s H). pose proof (wf_le s H). pose proof (hsize_min h).
  pose proof (total_nonneg (entries s)) as Ht. rewrite <- (wf_bytes s H) in Ht.
  destruct (Z.ltb_spec (capacity_ s) (hsize h)), (Z.leb_spec (hsize h) (capacity_ s)); try lia.
  - exists (reset s). destruct (reset_wf s H). by split_and!.
  - rewrite u32_id by (unfold_ints; lia).
    destruct (Z.ltb_spec (capacity_ s) (bytes_ s + hsize h)) as [Hover|Hfit].
    + destruct (evict_spec s (hsize h) (capacity_ s) H ltac:(lia))
        as (n & s1 & -> & Hw1 & (Hc1 & Hi1 & _) & He1 & Hp).
      unfold mbind, option_bind.
      assert (0 < size_ s).
      { pose proof (wf_size s H). apply Z.nle_gt. intros ?.
        rewrite (wf_bytes s H), (entries_nil s H) in Hover by lia. simpl in Hover. lia. }
      rewrite (proj2 (Z.eqb_neq n 0)) by (specialize (Hp ltac:(done) ltac:(done)); lia).
      pose proof (keep_total (capacity_ s - hsize h) (entries s) ltac:(lia)) as Hk.
      rewrite <- He1, <- (wf_bytes s1 Hw1) in Hk.
      destruct (add_sized_spec s1 h Hw1 ltac:(lia)) as (s' & -> & H' & He' & Hc' & Hi' & _).
      exists s'. rewrite He', He1. split_and!; congruence || done.
    + destruct (add_sized_spec s h H ltac:(lia)) as (s' & -> & H' & He' & Hc' & Hi' & _).
      exists s'. rewrite keep_all by (rewrite <- (wf_bytes s H); lia). by split_and!.
Qed.

Lemma with_capacity_wf s c :
  wf s -> 0 <= c < 2 ^ 31 -> bytes_ s <= c -> (32 <= c -> 0 < len s) ->
  wf (with_capacity s c) /\ entries (with_capacity s c) = entries s.
Proof. intros [? ? ? ? ? ? ? ?] Hc Hb Hl. split; [|done]. by constructor. Qed.

Lemma lengthen_spec s c :
  wf s -> 0 <= c < 2 ^ 31 ->
  exists s', lengthen s c = Some s' /\ wf s' /\ entries s' = entries s /\ frame s s' /\
    bytes_ s' = bytes_ s /\ initialTableLength c <= len s'.
Proof.
  intros H Hc. pose proof (initialTableLength_range c Hc) as [Hr _]. unfold lengthen.
  rewrite Z.gtb_ltb. destruct (Z.ltb_spec (len s) (initialTableLength c)).
  - destruct (increase_spec s (initialTableLength c) H ltac:(lia)) as (s1 & -> & ? & ? & ? & Hl & ? & ?).
    exists s1. split_and!; try done. lia.
  - exists s. by split_and!.
Qed.

Lemma setCapacity_spec s c :
  wf s -> 0 <= c < 2 ^ 31 ->
  exists s', setCapacity s c = Some (true, s') /\ wf s' /\ entries s' = keep c (entries s) /\
    capacity_ s' = c /\ indexNames_ s' = indexNames_ s.
Proof.
  intros H Hc. unfold setCapacity. pose proof (wf_le s H). pose proof (wf_cap s H).
  destruct (Z.eqb_spec c (capacity_ s)) as [->|Hne].
  { exists s. rewrite keep_all by (rewrite <- (wf_bytes s H); lia). by split_and!. }
  destruct (Z.ltb_spec c (capacity_ s)).
  - destruct (evict_spec s 0 c H ltac:(lia)) as (n & s1 & -> & Hw1 & (Hc1 & Hi1 & _) & He1 & _).
    unfold mbind, option_bind. rewrite Z.sub_0_r in He1.
    pose proof (keep_total c (entries s) ltac:(lia)) as Hk. rewrite <- He1, <- (wf_bytes s1 Hw1) in Hk.
    rewrite Z.gtb_ltb, (proj2 (Z.ltb_ge _ _)) by lia.
    destruct (with_capacity_wf s1 c Hw1 Hc Hk) as [Hw Hew].
    { intros. apply (wf_room s1 Hw1). lia. }
    eexists. split; [reflexivity|]. rewrite Hew. by split_and!.
  - pose proof (initialTableLength_range c Hc) as [Hr Hr1].
    destruct (lengthen_spec s c H Hc) as (s1 & -> & Hw1 & He1 & (_ & Hi1 & _) & Hb1 & Hl1).
    unfold mbind, option_bind.
    destruct (with_capacity_wf s1 c Hw1 Hc) as [Hw Hew]; [lia|lia|].
    eexists. split; [reflexivity|]. rewrite Hew, keep_all by (rewrite <- (wf_bytes s H); lia).
    by split_and!.
Qed.

(** ** Lookups *)

Lemma entries_lookup s (j : nat) :
  Z.of_nat j < size_ s -> entries s !! j = Some (get (table_ s) ((head_ s - Z.of_nat j) mod len s)).
Proof. intros H. unfold entries. by rewrite list_lookup_fmap, ring_lookup. Qed.

Lemma toInternal_slot s i :
  wf s -> 1 <= i <= size_ s -> toInternal s i = Some ((head_ s - (i - 1)) mod len s).
Proof.
  intros H Hi. pose proof (wf_size s H). pose proof (wf_len s H). pose proof (wf_head s H).
  unfold toInternal, toInternal_of. rewrite (u32_id (len s)) by (unfold_ints; lia).
  destruct (Z.eqb_spec (len s) 0); [lia|].
  rewrite (u32_id (i - 1)), u32_id by (unfold_ints; lia). f_equal.
  rewrite <- (Z.mod_add (head_ s - (i - 1)) 1) by lia. f_equal. lia.
Qed.

(** The slot of position [j] (0 is the newest entry). *)
Lemma slot_entry s j :
  wf s -> 0 <= j < size_ s ->
  slot s ((head_ s - j) mod len s) = entries s !! Z.to_nat j.
Proof.
  intros H Hj. pose proof (wf_size s H). rewrite slot_get by (apply Z.mod_pos_bound; lia).
  rewrite entries_lookup by lia. by rewrite Z2Nat.id by lia.
Qed.

Lemma getHeader_spec s i :
  wf s -> is_u32 i ->
  HeaderTable.getHeader s i = if isValid s i then entries s !! Z.to_nat (i - 1) else None.
Proof.
  intros H Hi. unfold HeaderTable.getHeader, isValid.
  destruct (Z.ltb_spec 0 i), (Z.leb_spec i (size_ s)); cbn [andb]; try done.
  rewrite toInternal_slot by (done || lia). by apply slot_entry; [|lia].
Qed.

Lemma toExternal_slot s j :
  wf s -> 0 <= j < size_ s -> toExternal s ((head_ s - j) mod len s) = Some (j + 1).
Proof.
  intros H Hj. pose proof (wf_size s H). pose proof (wf_len s H). pose proof (wf_head s H).
  unfold toExternal, toExternal_of. rewrite (u32_id (len s)) by (unfold_ints; lia).
  destruct (Z.eqb_spec (len s) 0); [lia|]. f_equal. rewrite slot_cases by done.
  destruct (Z.leb_spec j (head_ s)).
  - replace (head_ s + len s - (head_ s - j)) with (j + 1 * len s) by lia.
    rewrite (u32_id (j + 1 * len s)) by (unfold_ints; lia). rewrite Z.mod_add, Z.mod_small by lia.
    apply u32_id. unfold_ints. lia.
  - replace (head_ s + len s - (head_ s - j + len s)) with j by lia.
    rewrite (u32_id j) by (unfold_ints; lia). rewrite Z.mod_small by lia.
    apply u32_id. unfold_ints. lia.
Qed.

(** A field matches a name, and a value unless only the name counts. *)
Definition matches (n v : list Z) (nameOnly : bool) (h : HPACKHeader.t) : bool :=
  bool_decide (name h = n) && (nameOnly || bool_decide (value h = v)).

(** The position of the first match at or after position [k]. *)
Definition find_from (P : HPACKHeader.t -> bool) (k : Z) (es : list HPACKHeader.t) : option Z :=
  match list_find (fun h => P h = true) es with
  | Some (i, _) => Some (k + Z.of_nat i + 1)
  | None => None
  end.

Lemma find_from_cons P k h es :
  find_from P k (h :: es) = if P h then Some (k + 1) else find_from P (k + 1) es.
Proof.
  unfold find_from. cbn [list_find]. destruct (P h) eqn:E.
  - rewrite decide_True by done. f_equal. lia.
  - rewrite decide_False by done. destruct (list_find _ es) as [[i e]|]; [|done].
    simpl. f_equal. lia.
Qed.

Lemma find_index_from P es : find_index P es = default 0 (find_from P 0 es).
Proof.
  unfold find_index, find_from. destruct (list_find _ es) as [[i e]|]; [|done]. simpl. lia.
Qed.

(** The slots of positions [k], [k + 1], ... *)
Definition ring_from (s : t) (k m : Z) : list Z :=
  (fun j => (head_ s - j) mod len s) <$> seqZ k m.

Lemma find_value_spec s n v nameOnly (m : nat) : forall k,
  wf s -> 0 <= k -> k + Z.of_nat m <= size_ s ->
  find_value s v nameOnly (filter (fun i => name_in s i = n) (ring_from s k (Z.of_nat m))) =
  Some (find_from (matches n v nameOnly) k (get (table_ s) <$> ring_from s k (Z.of_nat m))).
Proof.
  induction m as [|m IH]; intros k H Hk Hm; [done|]. unfold ring_from in *.
  rewrite seqZ_cons by lia. replace (Z.pred (Z.of_nat (S m))) with (Z.of_nat m) by lia.
  cbn [fmap list_fmap]. rewrite find_from_cons. unfold matches at 1.
  set (i := (head_ s - k) mod len s).
  assert (Hi : 0 <= i < len s) by (pose proof (wf_size s H); apply Z.mod_pos_bound; lia).
  specialize (IH (Z.succ k) H ltac:(lia) ltac:(lia)).
  destruct (decide (name_in s i = n)) as [E|E].
  - rewrite filter_cons_True by done. cbn [find_value]. rewrite slot_get by done.
    unfold mbind at 1, option_bind at 1. rewrite (bool_decide_eq_true_2 (name (get (table_ s) i) = n)) by exact E.
    cbn [andb]. destruct (nameOnly || _).
    + unfold i. rewrite toExternal_slot by (done || lia). done.
    + exact IH.
  - rewrite filter_cons_False by done. rewrite (bool_decide_eq_false_2 (name (get (table_ s) i) = n)) by exact E. exact IH.
Qed.

Lemma getIndexImpl_spec s n v nameOnly :
  wf s -> indexNames_ s = true ->
  getIndexImpl s n v nameOnly =
  Some (let i := find_index (matches n v nameOnly) (entries s) in
        (i, if i =? 0 then find_index (matches n v true) (entries s) else 0)).
Proof.
  intros H Hb. unfold getIndexImpl. rewrite Hb, (wf_names s H Hb n), filter_reverse.
  pose proof (wf_size s H).
  assert (Hall : forall no, find_value s v no (filter (fun i => name_in s i = n) (ring s)) =
                       Some (find_from (matches n v no) 0 (entries s))).
  { intros no. pose proof (find_value_spec s n v no (Z.to_nat (size_ s)) 0 H ltac:(lia) ltac:(lia)) as E.
    unfold ring_from in E. rewrite Z2Nat.id in E by lia. exact E. }
  rewrite !find_index_from. pose proof (Hall nameOnly) as H1. pose proof (Hall true) as H2.
  destruct (filter (fun i => name_in s i = n) (ring s)) as [|x l] eqn:Hf.
  - simpl in H1, H2. injection H1 as <-. injection H2 as <-. done.
  - assert (Hsome : some_list (reverse (x :: l)) = Some (reverse (x :: l))).
    { rewrite reverse_cons. by destruct (reverse l). }
    rewrite Hsome, reverse_involutive, H1. unfold mbind at 1, option_bind at 1.
    destruct (find_from (matches n v nameOnly) 0 (entries s)) as [e|] eqn:He.
    + assert (0 < e).
      { unfold find_from in He. destruct (list_find _ _) as [[? ?]|]; [|done]. injection He as <-. lia. }
      simpl. by rewrite (proj2 (Z.eqb_neq e 0)) by lia.
    + rewrite reverse_cons, last_snoc. unfold mbind at 1, option_bind at 1.
      cbn [find_value orb] in H2. destruct (slot s x); [|done]. unfold mbind at 1, option_bind at 1 in H2.
      destruct (toExternal s x) as [e|]; [|done]. simpl in H2. injection H2 as H2.
      rewrite <- H2. done.
Qed.

End Ring.

(** ** Results *)

Module HeaderTableResults.
Import HPACKHeader HeaderSpec HeaderTable Ring.

Lemma find_index_spec P es :
  match find_index P es with
  | 0 => forall h, h ∈ es -> P h = false
  | i => 0 < i /\ exists h, es !! Z.to_nat (i - 1) = Some h /\ P h = true /\
           forall k h', (k < Z.to_nat (i - 1))%nat -> es !! k = Some h' -> P h' = false
  end.
Proof.
  unfold find_index. destruct (list_find (fun h => P h = true) es) as [[i h]|] eqn:E.
  - apply list_find_Some in E as (Hl & HP & Hmin).
    destruct (Z.of_nat i + 1) as [|p|p] eqn:Ei; [lia| |lia].
    split; [lia|]. exists h. replace (Z.to_nat (Z.pos p - 1)) with i by lia.
    split; [done|]. split; [done|]. intros k h' Hk Hh'.
    destruct (P h') eqn:EP; [|done]. exfalso. by apply (Hmin k h').
  - apply list_find_None in E. intros h Hh. rewrite Forall_forall in E.
    specialize (E h Hh). by destruct (P h).
Qed.

(** The indices [getIndex] returns. *)
Lemma getIndex_spec s n v :
  wf s -> indexNames_ s = true ->
  exists i j, HeaderTable.getIndex s n v = Some (i, j) /\
    0 <= i <= size_ s /\ 0 <= j <= size_ s /\
    (i <> 0 -> j = 0 /\ getHeader s i = Some (HPACKHeader.mk n v)) /\
    (i = 0 -> HPACKHeader.mk n v ∉ entries s) /\
    (j <> 0 -> exists v', getHeader s j = Some (HPACKHeader.mk n v')) /\
    (i = 0 -> j = 0 -> forall v', HPACKHeader.mk n v' ∉ entries s).
Proof.
  intros H Hb. unfold HeaderTable.getIndex. rewrite getIndexImpl_spec by done.
  cbv zeta. eexists _, _. split; [reflexivity|].
  pose proof (length_entries s H) as Hlen. pose proof (wf_size s H). pose proof (wf_len s H).
  set (i := find_index (matches n v false) (entries s)).
  set (j := find_index (matches n v true) (entries s)).
  assert (Hrange : forall P, 0 <= find_index P (entries s) <= size_ s).
  { intros P. pose proof (find_index_spec P (entries s)) as E. destruct (find_index P (entries s)) eqn:?;
      [lia| |destruct E; lia]. destruct E as (_ & h & Hl & _). apply lookup_lt_Some in Hl.
    unfold zlen in Hlen. lia. }
  assert (Hget : forall P k, find_index P (entries s) = k -> k <> 0 ->
    exists h, getHeader s k = Some h /\ P h = true).
  { intros P k Hk Hk0. pose proof (Hrange P) as Hr. pose proof (find_index_spec P (entries s)) as E.
    rewrite Hk in E, Hr. destruct k as [|p|p]; [done| |lia].
    destruct E as (_ & h & Hl & HP & _). exists h. split; [|done].
    rewrite getHeader_spec by (done || (unfold_ints; lia)). unfold isValid.
    rewrite (proj2 (Z.ltb_lt _ _)), (proj2 (Z.leb_le _ _)) by lia. exact Hl. }
  pose proof (Hrange (matches n v false)) as Hir. pose proof (Hrange (matches n v true)) as Hjr.
  fold i in Hir. fold j in Hjr.
  assert (Hnone : forall no h, find_index (matches n v no) (entries s) = 0 -> h ∈ entries s ->
            matches n v no h = false).
  { intros no h E Hh. pose proof (find_index_spec (matches n v no) (entries s)) as Hs.
    rewrite E in Hs. by apply Hs. }
  split_and!; try lia.
  - destruct (i =? 0); lia.
  - destruct (i =? 0); lia.
  - intros Hi. rewrite (proj2 (Z.eqb_neq _ _) Hi). split; [done|].
    destruct (Hget (matches n v false) i eq_refl Hi) as (h & -> & Hm). unfold matches in Hm.
    apply andb_prop in Hm as [Hm1%bool_decide_eq_true Hm2]. simpl in Hm2.
    apply bool_decide_eq_true in Hm2. destruct h; simpl in *; congruence.
  - intros Hi Hin. specialize (Hnone false _ Hi Hin). unfold matches in Hnone. simpl in Hnone.
    rewrite !bool_decide_eq_true_2 in Hnone by done. done.
  - destruct (Z.eqb_spec i 0); [|done]. intros Hj.
    destruct (Hget (matches n v true) j eq_refl Hj) as (h & -> & Hm). unfold matches in Hm.
    apply andb_prop in Hm as [Hm1%bool_decide_eq_true _]. destruct h as [hn hv]. simpl in *.
    exists hv. congruence.
  - intros Hi Hj v' Hin. rewrite Hi, Z.eqb_refl in Hj. specialize (Hnone true _ Hj Hin).
    unfold matches in Hnone. simpl in Hnone. by rewrite bool_decide_eq_true_2 in Hnone by done.
Qed.

(** Sequences of table operations, on the ring and on the abstract table. *)
Inductive op :=
| OpAdd (h : HPACKHeader.t)
| OpSetCapacity (c : Z).

Definition op_ok (o : op) : Prop :=
  match o with
  | OpAdd h => hsize h < 2 ^ 31
  | OpSetCapacity c => 0 <= c < 2 ^ 31
  end.

#[global] Instance op_ok_dec o : Decision (op_ok o).
Proof. destruct o; simpl; apply _. Defined.

Definition run_op (s : HeaderTable.t) (o : op) : option (bool * HeaderTable.t) :=
  match o with
  | OpAdd h => HeaderTable.add s h
  | OpSetCapacity c => HeaderTable.setCapacity s c
  end.

Fixpoint run (s : HeaderTable.t) (os : list op) : option (list bool * HeaderTable.t) :=
  match os with
  | [] => Some ([], s)
  | o :: os => '(b, s) ← run_op s o; '(bs, s) ← run s os; Some (b :: bs, s)
  end.

(** The abstract table: its capacity and its entries. *)
Definition spec_op (a : Z * list HPACKHeader.t) (o : op) : bool * (Z * list HPACKHeader.t) :=
  let '(c, es) := a in
  match o with
  | OpAdd h => (hsize h <=? c, (c, HeaderSpec.add c h es))
  | OpSetCapacity c' => (true, (c', keep c' es))
  end.

Fixpoint spec_run (a : Z * list HPACKHeader.t) (os : list op)
  : list bool * (Z * list HPACKHeader.t) :=
  match os with
  | [] => ([], a)
  | o :: os => let '(b, a) := spec_op a o in let '(bs, a) := spec_run a os in (b :: bs, a)
  end.

Lemma run_refines os : forall s,
  wf s -> Forall op_ok os ->
  exists s', run s os = Some (fst (spec_run (capacity_ s, entries s) os), s') /\ wf s' /\
    (capacity_ s', entries s') = snd (spec_run (capacity_ s, entries s) os) /\
    indexNames_ s' = indexNames_ s.
Proof.
  induction os as [|o os IH]; intros s H Hos; [by exists s|].
  inversion Hos as [|? ? Ho Hos']; subst. cbn [run spec_run].
  assert (Hstep : exists s1, run_op s o = Some (fst (spec_op (capacity_ s, entries s) o), s1) /\
    wf s1 /\ (capacity_ s1, entries s1) = snd (spec_op (capacity_ s, entries s) o) /\
    indexNames_ s1 = indexNames_ s).
  { destruct o as [h|c]; simpl in *.
    - destruct (add_spec s h H Ho) as (s1 & -> & ? & He & Hc & ?). exists s1. rewrite He, Hc. auto.
    - destruct (setCapacity_spec s c H Ho) as (s1 & -> & ? & He & Hc & ?). exists s1. rewrite He, Hc. auto. }
  destruct Hstep as (s1 & -> & H1 & He1 & Hi1). unfold mbind, option_bind.
  destruct (IH s1 H1 Hos') as (s' & -> & H' & He' & Hi'). rewrite He1 in *.
  destruct (spec_op (capacity_ s, entries s) o) as [b a]. cbn [fst snd] in *.
  destruct (spec_run a os) as [bs a']. exists s'. split_and!; try done. congruence.
Qed.

(** C23. The ring implements the table of RFC 7541: for every sequence of [add]s
    and [setCapacity]s on a new table of capacity below 2^31, with fields of
    fewer than 2^31 bytes, no operation leaves the vector, each returns what the
    list specification returns, and the entries (newest first), their total and
    their number are those of the specification after the evictions of section
    4.  [getHeader] reads entry [i] of that list, and aborts on an index that is
    not valid. *)
Theorem header_table_refines c os :
  0 <= c < 2 ^ 31 -> Forall op_ok os ->
  exists s, run (HeaderTable.create c) os = Some (fst (spec_run (c, []) os), s) /\
    (capacity_ s, entries s) = snd (spec_run (c, []) os) /\
    bytes_ s = total (entries s) /\ bytes_ s <= capacity_ s /\ size_ s = zlen (entries s) /\
    (forall i, is_u32 i -> HeaderTable.getHeader s i =
       if (0 <? i) && (i <=? size_ s) then entries s !! Z.to_nat (i - 1) else None).
Proof.
  intros Hc Hos. destruct (create_wf c Hc) as [H He].
  destruct (run_refines os (HeaderTable.create c) H Hos) as (s & HR & Hs & Hsp & _).
  rewrite He in *. exists s. split_and!; try done.
  - apply (wf_bytes s Hs).
  - apply (wf_le s Hs).
  - symmetry. by apply length_entries.
  - intros i Hi. by rewrite getHeader_spec.
Qed.

(** Six fields of 34 bytes through a table of 150 bytes, which then grows. *)
Definition demo_field (a b : Z) : HPACKHeader.t := HPACKHeader.mk [a] [b].
Definition demo_ops : list op :=
  [OpAdd (demo_field 1 1); OpAdd (demo_field 2 2); OpAdd (demo_field 1 3); OpAdd (demo_field 4 4);
   OpAdd (demo_field 3 1); OpSetCapacity 400; OpAdd (demo_field 1 7); OpSetCapacity 70].

Lemma demo_ops_ok : Forall op_ok demo_ops.
Proof. apply (bool_decide_unpack (Forall op_ok demo_ops)). vm_compute. exact I. Qed.

Lemma header_table_refines_witness :
  exists s, run (HeaderTable.create 150) demo_ops = Some (fst (spec_run (150, []) demo_ops), s) /\
    (capacity_ s, entries s) = (70, [demo_field 1 7; demo_field 3 1]) /\
    bytes_ s = total (entries s) /\ bytes_ s <= capacity_ s /\ size_ s = zlen (entries s) /\
    (forall i, is_u32 i -> HeaderTable.getHeader s i =
       if (0 <? i) && (i <=? size_ s) then entries s !! Z.to_nat (i - 1) else None).
Proof. apply (header_table_refines 150 demo_ops); [lia|exact demo_ops_ok]. Defined.

(** C24. The names index finds fields: after any such sequence, [getIndex] returns
    the index of a stored field equal to the one asked for, if there is one; else
    the index of a field with the same name, if there is one; else (0, 0). *)
Theorem header_table_getIndex c os s n v :
  0 <= c < 2 ^ 31 -> Forall op_ok os ->
  run (HeaderTable.create c) os = Some (fst (spec_run (c, []) os), s) ->
  exists i j, HeaderTable.getIndex s n v = Some (i, j) /\
    (i <> 0 -> j = 0 /\ HeaderTable.getHeader s i = Some (HPACKHeader.mk n v)) /\
    (i = 0 -> HPACKHeader.mk n v ∉ snd (snd (spec_run (c, []) os))) /\
    (j <> 0 -> exists v', HeaderTable.getHeader s j = Some (HPACKHeader.mk n v')) /\
    (i = 0 -> j = 0 -> forall v', HPACKHeader.mk n v' ∉ snd (snd (spec_run (c, []) os))).
Proof.
  intros Hc Hos HR. destruct (create_wf c Hc) as [H He].
  destruct (run_refines os (HeaderTable.create c) H Hos) as (s' & HR' & Hs & Hsp & Hix).
  rewrite He in *. assert (s' = s) as -> by (simpl in HR'; congruence).
  destruct (getIndex_spec s n v Hs Hix) as (i & j & HG & _ & _ & Hi & Hi0 & Hj & Hj0).
  simpl in Hsp. rewrite <- Hsp. by exists i, j.
Qed.

Lemma header_table_getIndex_witness :
  exists s, run (HeaderTable.create 150) demo_ops = Some (fst (spec_run (150, []) demo_ops), s) /\
  exists i j, HeaderTable.getIndex s [3] [1] = Some (i, j) /\
    (i <> 0 -> j = 0 /\ HeaderTable.getHeader s i = Some (demo_field 3 1)) /\
    (i = 0 -> demo_field 3 1 ∉ snd (snd (spec_run (150, []) demo_ops))) /\
    (j <> 0 -> exists v', HeaderTable.getHeader s j = Some (HPACKHeader.mk [3] v')) /\
    (i = 0 -> j = 0 -> forall v', HPACKHeader.mk [3] v' ∉ snd (snd (spec_run (150, []) demo_ops))).
Proof.
  destruct (run (HeaderTable.create 150) demo_ops) as [[bs s]|] eqn:E; [|vm_compute in E; discriminate].
  assert (Hb : bs = fst (spec_run (150, []) demo_ops))
    by (vm_compute in E; injection E as <- _; vm_compute; reflexivity).
  subst bs. exists s. split; [reflexivity|].
  apply (header_table_getIndex 150 demo_ops s [3] [1]); [lia|exact demo_ops_ok|exact E].
Defined.

End HeaderTableResults.
