(* ===== verification/HPACKContext.v ===== *)
(** * The indexing context of HPACK
    ([src/proxygen/proxygen/lib/http/codec/compress/HPACKContext.cpp],
    [StaticHeaderTable.cpp], [HeaderIndexingStrategy.cpp], [HPACKHeaderName.h])

    [HPACKContext] joins the static table of RFC 7541, appendix A (indices 1 to
    61) and a dynamic [HeaderTable] (indices from 62 on).  Names are canonical
    (lower case) strings; the perfect hash that recognises the common names is
    generated at build time and enters as the class [CommonHeaders].

    The results are that the static table holds the 61 fields in order, and that
    [getIndex] only ever returns an index at which the field, or one with the
    same name, can be read back. *)

From Stdlib Require Import Ascii String.
From stdpp Require Import gmap.
From S2P Require Import Prelude HeaderTable.

(** The bytes of a literal of the source. *)
Definition str (s : string) : list Z :=
  (fun a => Z.of_nat (nat_of_ascii a)) <$> list_ascii_of_string s.

(** ** Header names *)

Module HPACKHeaderName.

(** [folly::toLowerAscii]. *)
Definition toLower_byte (b : Z) : Z := if (65 <=? b) && (b <=? 90) then b + 32 else b.
Definition toLowerAscii (s : list Z) : list Z := toLower_byte <$> s.

Definition HTTP_HEADER_NONE : Z := 0.
Definition HTTP_HEADER_OTHER : Z := 1.

(** The generated class [HTTPCommonHeaders]: [hash] gives the code of a common
    name, compared without case, or [HTTP_HEADER_OTHER]; [getPointerToName] reads
    the lower-case table.  [HTTPCommonHeaders.txt] lists the common names, the
    ones the sources name among them. *)
Class CommonHeaders := {
  hash : list Z -> Z;
  getPointerToName : Z -> list Z;
  hash_range : forall n, HTTP_HEADER_NONE <= hash n;
  hash_name : forall n, HTTP_HEADER_OTHER < hash n -> getPointerToName (hash n) = toLowerAscii n;
  hash_date : HTTP_HEADER_OTHER < hash (str "date") }.

Section names.
Context `{CH : CommonHeaders}.

(** [storeAddress]: the string the object refers to. *)
Definition storeAddress (name : list Z) : list Z :=
  let headerCode := hash name in
  if (headerCode =? HTTP_HEADER_NONE) || (headerCode =? HTTP_HEADER_OTHER)
  then toLowerAscii name else getPointerToName headerCode.

(** A code is recovered from the address; for a stored name it is the hash. *)
Definition getHeaderCode (name : list Z) : Z :=
  if (hash name =? HTTP_HEADER_NONE) || (hash name =? HTTP_HEADER_OTHER)
  then HTTP_HEADER_OTHER else hash name.

Definition isCommonHeader (name : list Z) : bool := HTTP_HEADER_OTHER <? getHeaderCode name.

(** [name.getHeaderCode() == HTTP_HEADER_X], for the common name [x]. *)
Definition has_code (name : list Z) (x : string) : bool :=
  getHeaderCode name =? hash (str x).

(** A name as [HPACKHeaderName] stores it. *)
Definition canonical (name : list Z) : Prop := toLowerAscii name = name.

Lemma storeAddress_lower name : storeAddress name = toLowerAscii name.
Proof.
  pose proof (hash_range name) as H. revert H.
  unfold storeAddress, HTTP_HEADER_NONE, HTTP_HEADER_OTHER. intros H.
  destruct (Z.eqb_spec (hash name) 0), (Z.eqb_spec (hash name) 1); try done. simpl.
  apply hash_name. unfold HTTP_HEADER_OTHER. lia.
Qed.

Lemma date_code name : canonical name -> has_code name "date" = true -> name = str "date".
Proof.
  unfold canonical, has_code, getHeaderCode. intros Hc H. pose proof hash_date as Hd.
  unfold HTTP_HEADER_OTHER in *. destruct (_ || _); bool_cases; [lia|].
  rewrite <- Hc, <- hash_name by (unfold HTTP_HEADER_OTHER; lia). rewrite H.
  by apply hash_name.
Qed.

End names.
End HPACKHeaderName.

(** ** Indexing strategies *)

Module HeaderIndexingStrategy.
Import HPACKHeaderName.

(** [value.find(x) != npos]. *)
Fixpoint contains (x value : list Z) : bool :=
  bool_decide (x `prefix_of` value) ||
  match value with [] => false | _ :: value' => contains x value' end.

Section strategy.
Context `{CH : CommonHeaders}.

(** The default strategy. *)
Definition indexHeader (name value : list Z) (nameExists : bool) : bool :=
  if has_code name ":path" then
    negb (contains (str "=") value) && negb (contains (str "jpg") value)
  else
    negb ((getHeaderCode name =? HTTP_HEADER_NONE) || has_code name "content-length" ||
          has_code name "if-modified-since" || has_code name "last-modified").

(** [getHuffmanLimits] of the base class. *)
Definition getHuffmanLimits : Z * Z := (0, UINT32_MAX).

End strategy.
End HeaderIndexingStrategy.

(** ** The static table *)

Module StaticHeaderTable.
Import HPACKHeader HeaderTable HeaderSpec Ring HPACKHeaderName.

Definition s_tableEntries : list (string * string) :=
  [(":authority", EmptyString);
   (":method", "GET");
   (":method", "POST");
   (":path", "/");
   (":path", "/index.html");
   (":scheme", "http");
   (":scheme", "https");
   (":status", "200");
   (":status", "204");
   (":status", "206");
   (":status", "304");
   (":status", "400");
   (":status", "404");
   (":status", "500");
   ("accept-charset", EmptyString);
   ("accept-encoding", "gzip, deflate");
   ("accept-language", EmptyString);
   ("accept-ranges", EmptyString);
   ("accept", EmptyString);
   ("access-control-allow-origin", EmptyString);
   ("age", EmptyString);
   ("allow", EmptyString);
   ("authorization", EmptyString);
   ("cache-control", EmptyString);
   ("content-disposition", EmptyString);
   ("content-encoding", EmptyString);
   ("content-language", EmptyString);
   ("content-length", EmptyString);
   ("content-location", EmptyString);
   ("content-range", EmptyString);
   ("content-type", EmptyString);
   ("cookie", EmptyString);
   ("date", EmptyString);
   ("etag", EmptyString);
   ("expect", EmptyString);
   ("expires", EmptyString);
   ("from", EmptyString);
   ("host", EmptyString);
   ("if-match", EmptyString);
   ("if-modified-since", EmptyString);
   ("if-none-match", EmptyString);
   ("if-range", EmptyString);
   ("if-unmodified-since", EmptyString);
   ("last-modified", EmptyString);
   ("link", EmptyString);
   ("location", EmptyString);
   ("max-forwards", EmptyString);
   ("proxy-authenticate", EmptyString);
   ("proxy-authorization", EmptyString);
   ("range", EmptyString);
   ("referer", EmptyString);
   ("refresh", EmptyString);
   ("retry-after", EmptyString);
   ("server", EmptyString);
   ("set-cookie", EmptyString);
   ("strict-transport-security", EmptyString);
   ("transfer-encoding", EmptyString);
   ("user-agent", EmptyString);
   ("vary", EmptyString);
   ("via", EmptyString);
   ("www-authenticate", EmptyString)]%string.

(** [CHECK(add(header))] for each header, as the constructor and
    [HPACKContext::seedHeaderTable] do it. *)
Fixpoint addAll (s : HeaderTable.t) (headers : list HPACKHeader.t) : option HeaderTable.t :=
  match headers with
  | [] => Some s
  | h :: headers => '(ok, s) ← HeaderTable.add s h; if (ok : bool) then addAll s headers else None
  end.

(** The fields of the entries; their names are common or lower case already. *)
Definition fields (entries : list (string * string)) : list HPACKHeader.t :=
  (fun e => HPACKHeader.mk (str (fst e)) (str (snd e))) <$> entries.

Definition create (entries : list (string * string)) : option HeaderTable.t :=
  let hlist := fields entries in
  let byteCount := foldl (fun n h => u32 (n + bytes h)) 0 hlist in
  addAll (HeaderTable.init (HeaderTable.create 0) byteCount) (reverse hlist).

Definition staticTable : HeaderTable.t :=
  default (HeaderTable.create 0) (create s_tableEntries).

Definition kEntriesSize : Z := 61.

Section static.
Context `{CH : CommonHeaders}.

Definition isHeaderCodeInTableWithNonEmptyValue (name : list Z) : bool :=
  has_code name ":method" || has_code name ":path" || has_code name ":scheme" ||
  has_code name ":status" || has_code name "accept-encoding".

End static.

(** Adding fields that fit puts them, newest first, in front. *)
Lemma addAll_spec hs : forall s,
  wf s -> total hs + bytes_ s <= capacity_ s ->
  exists s', addAll s hs = Some s' /\ wf s' /\ entries s' = reverse hs ++ entries s /\
    indexNames_ s' = indexNames_ s.
Proof.
  induction hs as [|h hs IH]; intros s H Ht; [by exists s|]. cbn [addAll].
  cbn [total foldr] in Ht. fold (total hs) in Ht.
  pose proof (total_nonneg hs). pose proof (wf_cap s H). pose proof (hsize_min h).
  pose proof (total_nonneg (entries s)) as Hb. rewrite <- (wf_bytes s H) in Hb.
  destruct (add_spec s h H ltac:(lia)) as (s1 & -> & Hw1 & He & Hc & Hi).
  unfold mbind, option_bind. rewrite (proj2 (Z.leb_le _ _)) by lia.
  assert (He1 : entries s1 = h :: entries s).
  { rewrite He. unfold HeaderSpec.add. rewrite (proj2 (Z.leb_le _ _)) by lia.
    by rewrite keep_all by (rewrite <- (wf_bytes s H); lia). }
  destruct (IH s1 Hw1) as (s' & -> & H' & He' & Hi').
  - rewrite (wf_bytes s1 Hw1), He1, Hc. cbn [total foldr]. fold (total (entries s)).
    rewrite <- (wf_bytes s H). lia.
  - exists s'. rewrite He', He1, reverse_cons, <- app_assoc. split_and!; try done. congruence.
Qed.

Lemma static_create_is_some : (if create s_tableEntries is Some _ then true else false) = true.
Proof. vm_compute. reflexivity. Qed.

(** The bytes of the 61 fields. *)
Definition byteCount : Z := 2636.

Lemma byteCount_eq :
  foldl (fun n h => u32 (n + bytes h)) 0 (fields s_tableEntries) = byteCount.
Proof. vm_compute. reflexivity. Qed.

Lemma total_static : total (reverse (fields s_tableEntries)) = byteCount.
Proof. vm_compute. reflexivity. Qed.

Lemma init_create c : HeaderTable.init (HeaderTable.create 0) c = HeaderTable.create c.
Proof. reflexivity. Qed.

Lemma create_some : create s_tableEntries = Some staticTable.
Proof.
  unfold staticTable. generalize static_create_is_some. generalize (create s_tableEntries).
  intros [s|] H; [reflexivity|discriminate H].
Qed.

#[global] Opaque staticTable.

Lemma create_spec es c :
  foldl (fun n h => u32 (n + bytes h)) 0 (fields es) = c -> total (reverse (fields es)) = c ->
  0 <= c < 2 ^ 31 ->
  exists s, create es = Some s /\ wf s /\ entries s = fields es /\ indexNames_ s = true.
Proof.
  intros Hf Ht Hc. unfold create. rewrite Hf, init_create. destruct (create_wf c Hc) as [Hw He].
  destruct (addAll_spec (reverse (fields es)) _ Hw) as (s' & HA & Hw' & He' & Hi').
  { rewrite Ht. simpl. lia. }
  exists s'. rewrite He', He, reverse_involutive, app_nil_r. done.
Qed.

(** The constructor's [CHECK]s hold; the table is well formed and lists the
    fields in their order. *)
Lemma staticTable_ok :
  create s_tableEntries = Some staticTable /\ wf staticTable /\
  entries staticTable = fields s_tableEntries /\ indexNames_ staticTable = true.
Proof.
  destruct (create_spec s_tableEntries byteCount byteCount_eq total_static
    ltac:(unfold byteCount; lia)) as (s & Hs & Hw & He & Hi).
  pose proof create_some as Hc. rewrite Hs in Hc.
  apply (inj Some) in Hc. subst s.
  split; [exact Hs|]. split; [exact Hw|]. split; [exact He|exact Hi].
Qed.

Lemma static_size : size_ staticTable = kEntriesSize.
Proof.
  destruct staticTable_ok as (_ & Hw & He & _). rewrite <- (length_entries _ Hw), He.
  vm_compute. reflexivity.
Qed.

End StaticHeaderTable.

(** ** The context *)

Module HPACKContext.
Import HPACKHeaderName StaticHeaderTable.

(** [staticRefs_] counts references to the static table. *)
Record t := mk { table_ : HeaderTable.t; staticRefs_ : Z }.

Definition create (tableSize : Z) : t := mk (HeaderTable.create tableSize) 0.

Definition globalToDynamicIndex (index : Z) : Z := u32 (index - HeaderTable.size_ staticTable).
Definition globalToStaticIndex (index : Z) : Z := index.
Definition dynamicToGlobalIndex (index : Z) : Z := u32 (index + HeaderTable.size_ staticTable).
Definition staticToGlobalIndex (index : Z) : Z := index.

Definition isStatic (index : Z) : bool := index <=? HeaderTable.size_ staticTable.

Definition static_ref (c : t) : t := mk (table_ c) (u32 (staticRefs_ c + 1)).
Definition with_table (c : t) (tbl : HeaderTable.t) : t := mk tbl (staticRefs_ c).

Section context.
Context `{CH : CommonHeaders}.

Definition getIndex (c : t) (name value : list Z) (checkDynamicTable : bool)
  : option ((Z * Z) * t) :=
  let getIndexOnStaticTable :=
    if zlen value =? 0 then isCommonHeader name
    else isHeaderCodeInTableWithNonEmptyValue name in
  staticIndex ← (if getIndexOnStaticTable then HeaderTable.getIndex staticTable name value
                 else Some (0, 0));
  if truth (fst staticIndex) then
    Some ((staticToGlobalIndex (fst staticIndex), 0), static_ref c)
  else
    dynamicIndex ← (if checkDynamicTable && (HeaderTable.capacity_ (table_ c) >? 0)
                    then HeaderTable.getIndex (table_ c) name value else Some (0, 0));
    if truth (fst dynamicIndex) then
      Some ((dynamicToGlobalIndex (fst dynamicIndex), 0), c)
    else if truth (snd staticIndex) then
      Some ((0, staticToGlobalIndex (snd staticIndex)), static_ref c)
    else if has_code name "date" then
      dateIndex ← HeaderTable.nameIndex staticTable (str "date");
      Some ((0, staticToGlobalIndex dateIndex), static_ref c)
    else if truth (snd dynamicIndex) then
      Some ((0, dynamicToGlobalIndex (snd dynamicIndex)), c)
    else if negb getIndexOnStaticTable && isCommonHeader name then
      second ← HeaderTable.nameIndex staticTable name;
      if truth second then Some ((0, staticToGlobalIndex second), static_ref c)
      else Some ((0, 0), c)
    else Some ((0, 0), c).

Definition nameIndex (c : t) (headerName : list Z) : option (Z * t) :=
  index ← HeaderTable.nameIndex staticTable headerName;
  if truth index then Some (staticToGlobalIndex index, static_ref c)
  else
    index ← HeaderTable.nameIndex (table_ c) headerName;
    if truth index then Some (dynamicToGlobalIndex index, c) else Some (0, c).

End context.

Definition getHeader (c : t) (index : Z) : option (HPACKHeader.t * t) :=
  if isStatic index then
    h ← HeaderTable.getHeader staticTable (globalToStaticIndex index);
    Some (h, static_ref c)
  else
    h ← HeaderTable.getHeader (table_ c) (globalToDynamicIndex index);
    Some (h, c).

Definition seedHeaderTable (c : t) (headers : list HPACKHeader.t) : option t :=
  with_table c <$> addAll (table_ c) headers.

End HPACKContext.

(** ** Global indices *)

Module ContextSpec.
Import HPACKHeader HeaderSpec Ring HPACKHeaderName StaticHeaderTable HPACKContext.

(** The field at a global index, for the dynamic entries [es]. *)
Definition field_at (es : list HPACKHeader.t) (i : Z) : option HPACKHeader.t :=
  if (1 <=? i) && (i <=? kEntriesSize) then fields s_tableEntries !! Z.to_nat (i - 1)
  else if kEntriesSize <? i then es !! Z.to_nat (i - kEntriesSize - 1)
  else None.

Definition wf_ctx (c : t) : Prop := wf (table_ c).

Lemma static_getHeader i :
  is_u32 i -> HeaderTable.getHeader staticTable i =
  if (1 <=? i) && (i <=? kEntriesSize) then fields s_tableEntries !! Z.to_nat (i - 1) else None.
Proof.
  intros Hi. destruct staticTable_ok as (_ & Hw & He & _).
  rewrite (getHeader_spec _ _ Hw Hi), He. unfold HeaderTable.isValid. rewrite static_size.
  by replace (0 <? i) with (1 <=? i) by (destruct (Z.ltb_spec 0 i), (Z.leb_spec 1 i); lia || done).
Qed.

(** [getHeader] reads the field at its global index. *)
Lemma getHeader_field c i :
  wf_ctx c -> is_u32 i ->
  fst <$> HPACKContext.getHeader c i = field_at (entries (table_ c)) i.
Proof.
  intros H Hi. unfold HPACKContext.getHeader, field_at, isStatic. rewrite static_size.
  unfold globalToStaticIndex, globalToDynamicIndex. rewrite static_size.
  destruct (Z.leb_spec i kEntriesSize) as [Hs|Hs].
  - rewrite static_getHeader by done. rewrite (proj2 (Z.leb_le i _)) by lia.
    rewrite (proj2 (Z.ltb_ge _ i)) by lia. rewrite andb_true_r.
    destruct (1 <=? i); [|done]. by destruct (fields s_tableEntries !! _).
  - rewrite andb_false_r, (proj2 (Z.ltb_lt _ i)) by lia. unfold kEntriesSize in *.
    rewrite u32_id by (unfold_ints; lia).
    rewrite getHeader_spec by (done || (unfold_ints; lia)). unfold HeaderTable.isValid.
    rewrite (proj2 (Z.ltb_lt 0 (i - 61))) by lia. cbn [andb].
    destruct (Z.leb_spec (i - 61) (HeaderTable.size_ (table_ c))) as [Hle|Hgt].
    + by destruct (entries (table_ c) !! _).
    + symmetry. apply lookup_ge_None. pose proof (length_entries _ H) as Hlen. unfold zlen in Hlen. lia.
Qed.

(** The part of the context that does not count references. *)
Definition same_table (c c' : t) : Prop := table_ c' = table_ c.

(** What [getIndex] may answer: a position of the field itself, or of a field
    with the same name. *)
Definition answer_ok (es : list HPACKHeader.t) (n v : list Z) (r : Z * Z) : Prop :=
  let '(i, j) := r in
  0 <= i <= kEntriesSize + zlen es /\ 0 <= j <= kEntriesSize + zlen es /\
  (i <> 0 -> field_at es i = Some (HPACKHeader.mk n v)) /\
  (j <> 0 -> exists v', field_at es j = Some (HPACKHeader.mk n v')).

Lemma answer_none es n v : answer_ok es n v (0, 0).
Proof. unfold answer_ok, kEntriesSize, zlen. split_and!; try lia; done. Qed.

Lemma answer_first es n v i j : answer_ok es n v (i, j) -> answer_ok es n v (i, 0).
Proof.
  unfold answer_ok, kEntriesSize, zlen. intros (? & ? & ? & ?). split_and!; try lia; done.
Qed.

(** A static answer, as the static table gives it. *)
Lemma static_answer es n v :
  exists i j, HeaderTable.getIndex staticTable n v = Some (i, j) /\ answer_ok es n v (i, j) /\
    i <= kEntriesSize /\ j <= kEntriesSize.
Proof.
  destruct staticTable_ok as (_ & Hw & He & Hix). pose proof static_size as Hsz.
  destruct (HeaderTableResults.getIndex_spec staticTable n v Hw Hix)
    as (i & j & HG & Hi & Hj & HiS & _ & HjS & _).
  exists i, j. rewrite Hsz in *. unfold kEntriesSize in *. split; [done|].
  split; [|lia]. unfold answer_ok. unfold kEntriesSize, zlen.
  assert (Hf : forall k, k <> 0 -> 0 <= k <= 61 -> HeaderTable.getHeader staticTable k = field_at es k).
  { intros k Hk0 Hk. rewrite static_getHeader by (unfold_ints; lia). unfold field_at, kEntriesSize.
    rewrite (proj2 (Z.leb_le 1 k)), (proj2 (Z.leb_le k 61)) by lia. done. }
  split_and!; try lia.
  - intros Hi0. rewrite <- Hf by done. by apply HiS.
  - intros Hj0. rewrite <- Hf by done. by apply HjS.
Qed.

Lemma static_name es n v :
  exists j, HeaderTable.nameIndex staticTable n = Some j /\ answer_ok es n v (0, j).
Proof.
  destruct staticTable_ok as (_ & Hw & He & Hix). pose proof static_size as Hsz.
  unfold HeaderTable.nameIndex. rewrite getIndexImpl_spec by done.
  eexists. split; [reflexivity|]. cbn [fst].
  set (j := find_index _ _). pose proof (HeaderTableResults.find_index_spec (matches n [] true) (entries staticTable)) as Hs.
  fold j in Hs. pose proof (length_entries _ Hw) as Hlen. rewrite Hsz in Hlen.
  unfold answer_ok, kEntriesSize, zlen in *.
  destruct j as [|p|p]; [split_and!; try lia; done| |destruct Hs; lia].
  destruct Hs as (_ & h & Hl & Hm & _). pose proof (lookup_lt_Some _ _ _ Hl).
  split_and!; try lia. intros _. unfold field_at, kEntriesSize.
  rewrite (proj2 (Z.leb_le 1 _)), (proj2 (Z.leb_le _ 61)) by lia. cbn [andb]. rewrite <- He, Hl.
  unfold matches in Hm. apply andb_prop in Hm as [Hm%bool_decide_eq_true _].
  destruct h as [hn hv]. simpl in Hm. exists hv. congruence.
Qed.

(** A dynamic answer, shifted to global indices. *)
Lemma dynamic_answer (tbl : HeaderTable.t) n v :
  wf tbl -> HeaderTable.indexNames_ tbl = true ->
  exists i j, HeaderTable.getIndex tbl n v = Some (i, j) /\
    (i <> 0 -> answer_ok (entries tbl) n v (dynamicToGlobalIndex i, 0)) /\
    (j <> 0 -> answer_ok (entries tbl) n v (0, dynamicToGlobalIndex j)).
Proof.
  intros Hw Hix. pose proof (wf_size _ Hw). pose proof (wf_len _ Hw).
  pose proof (length_entries _ Hw) as Hlen.
  destruct (HeaderTableResults.getIndex_spec tbl n v Hw Hix)
    as (i & j & HG & Hi & Hj & HiS & _ & HjS & _).
  exists i, j. split; [done|]. unfold dynamicToGlobalIndex. rewrite static_size.
  unfold answer_ok, kEntriesSize in *. rewrite Hlen.
  assert (Hf : forall k, 0 < k <= HeaderTable.size_ tbl ->
     HeaderTable.getHeader tbl k = field_at (entries tbl) (u32 (k + 61)) /\ u32 (k + 61) = k + 61).
  { intros k Hk. rewrite u32_id by (unfold_ints; lia). split; [|done].
    rewrite getHeader_spec by (done || (unfold_ints; lia)). unfold HeaderTable.isValid.
    rewrite (proj2 (Z.ltb_lt 0 k)), (proj2 (Z.leb_le k _)) by lia. cbn [andb].
    unfold field_at, kEntriesSize. rewrite (proj2 (Z.leb_gt (k + 61) 61)) by lia.
    rewrite andb_false_r, (proj2 (Z.ltb_lt 61 _)) by lia. f_equal. lia. }
  split; intros Hk0.
  - destruct (Hf i) as [Ei Eu]; [lia|]. rewrite Eu in *. split_and!; try lia; intros _.
    rewrite <- Ei. by apply HiS.
  - destruct (Hf j) as [Ej Eu]; [lia|]. rewrite Eu in *. split_and!; try lia; intros _.
    rewrite <- Ej. by apply HjS.
Qed.

Section getIndex.
Context `{CH : CommonHeaders}.

Lemma getIndex_ok c n v chk :
  wf_ctx c -> HeaderTable.indexNames_ (table_ c) = true -> canonical n ->
  exists r c', HPACKContext.getIndex c n v chk = Some (r, c') /\
    answer_ok (entries (table_ c)) n v r /\ same_table c c'.
Proof.
  intros Hw Hix Hn. unfold HPACKContext.getIndex.
  set (on := if zlen v =? 0 then _ else _). set (es := entries (table_ c)).
  assert (Hs : exists i j, (if on then HeaderTable.getIndex staticTable n v else Some (0, 0)) =
    Some (i, j) /\ answer_ok es n v (i, j)).
  { destruct on; [|by exists 0, 0; split; [|apply answer_none]].
    destruct (static_answer es n v) as (i & j & -> & Ha & _). by exists i, j. }
  destruct Hs as (si & sj & -> & Hs). unfold mbind at 1, option_bind at 1. cbn [fst snd].
  unfold truth. destruct (Z.eqb_spec si 0) as [->|Hsi]; cbn [negb].
  2: { eexists _, _. split; [reflexivity|]. split; [by apply (answer_first _ _ _ _ sj)|done]. }
  assert (Hd : exists i j, (if chk && (HeaderTable.capacity_ (table_ c) >? 0)
      then HeaderTable.getIndex (table_ c) n v else Some (0, 0)) = Some (i, j) /\
    (i <> 0 -> answer_ok es n v (dynamicToGlobalIndex i, 0)) /\
    (j <> 0 -> answer_ok es n v (0, dynamicToGlobalIndex j))).
  { destruct (_ && _); [by apply dynamic_answer|]. by exists 0, 0. }
  destruct Hd as (di & dj & -> & Hdi & Hdj). unfold mbind at 1, option_bind at 1. cbn [fst snd].
  destruct (Z.eqb_spec di 0) as [->|Hdi0]; cbn [negb].
  2: { eexists _, _. split; [reflexivity|]. split; [by apply Hdi|done]. }
  destruct (Z.eqb_spec sj 0) as [->|Hsj0]; cbn [negb].
  2: { eexists _, _. split; [reflexivity|]. split; [exact Hs|done]. }
  destruct (has_code n "date") eqn:Hdate.
  { rewrite (date_code n Hn Hdate) in *. destruct (static_name es (str "date") v) as (j & -> & Hj).
    eexists _, _. split; [reflexivity|]. split; [exact Hj|done]. }
  destruct (Z.eqb_spec dj 0) as [->|Hdj0]; cbn [negb].
  2: { eexists _, _. split; [reflexivity|]. split; [by apply Hdj|done]. }
  destruct (negb on && isCommonHeader n).
  - destruct (static_name es n v) as (j & -> & Hj). unfold mbind, option_bind.
    destruct (negb (j =? 0)); eexists _, _; (split; [reflexivity|]); (split; [|done]);
      [exact Hj|apply answer_none].
  - eexists _, _. split; [reflexivity|]. split; [apply answer_none|done].
Qed.

End getIndex.

(** The generated hash, instantiated with the names of
    [HTTPCommonHeaders.txt], in lower case. *)
Definition common_names : list (list Z) := str <$>
  [":authority"; ":method"; ":path"; ":scheme"; ":status"; ":protocol"; "accept";
   "accept-charset"; "accept-encoding"; "accept-language"; "accept-ranges";
   "access-control-allow-credentials"; "access-control-allow-headers";
   "access-control-allow-methods"; "access-control-allow-origin";
   "access-control-expose-headers"; "access-control-max-age";
   "access-control-request-headers"; "access-control-request-method"; "age"; "alt-svc";
   "authorization"; "cache-control"; "client_timeout"; "connection"; "content-digest";
   "content-disposition"; "content-encoding"; "content-language"; "content-length";
   "content-range"; "content-security-policy"; "content-type"; "cookie";
   "cross-origin-embedder-policy-report-only"; "cross-origin-opener-policy";
   "cross-origin-resource-policy"; "date"; "document-policy"; "edge-control"; "etag";
   "expect"; "expires"; "facebook-api-version"; "host"; "if-modified-since";
   "if-none-match"; "keep-alive"; "last-modified"; "link"; "location"; "origin";
   "origin-trial"; "permissions-policy"; "pragma"; "priority"; "proxy-authenticate";
   "proxy-authorization"; "proxy-connection"; "proxy-status"; "queue_timeout"; "range";
   "referer"; "report-to"; "retry-after"; "rpckind"; "sec-websocket-key";
   "sec-websocket-accept"; "server"; "set-cookie"; "strict-transport-security"; "te";
   "thrift_priority"; "timing-allow-origin"; "trailer"; "transfer-encoding"; "upgrade";
   "user-agent"; "vary"; "via"; "www-authenticate"; "x-content-type-options";
   "x-forwarded-for"; "x-forwarded-proto"; "x-frame-options"; "x-thrift-protocol";
   "x-xss-protection"]%string.

Definition common_hash (n : list Z) : Z :=
  match list_find (fun m => m = toLowerAscii n) common_names with
  | Some (i, _) => Z.of_nat i + 2
  | None => HTTP_HEADER_OTHER
  end.

Program Definition common_headers : CommonHeaders := {|
  hash := common_hash;
  getPointerToName c := default [] (common_names !! Z.to_nat (c - 2)) |}.
Next Obligation.
  intros n. unfold common_hash, HTTP_HEADER_NONE, HTTP_HEADER_OTHER.
  destruct (list_find _ _) as [[i m]|]; lia.
Qed.
Next Obligation.
  intros n. simpl. unfold common_hash. destruct (list_find _ _) as [[i m]|] eqn:E; [|done].
  apply list_find_Some in E as (Hl & Hm & _). intros _.
  replace (Z.to_nat (Z.of_nat i + 2 - 2)) with i by lia. rewrite Hl. exact Hm.
Qed.
Next Obligation. vm_compute. reflexivity. Qed.

(** The static table is the one of RFC 7541, appendix A, at its indices: the
    constructor's checks hold, entry [i] is field [i] of the source's array for 1
    to 61, and other indices are refused. *)
Theorem static_table_fields i :
  is_u32 i ->
  StaticHeaderTable.create s_tableEntries = Some staticTable /\
  HeaderTable.getHeader staticTable i =
  if (1 <=? i) && (i <=? 61) then fields s_tableEntries !! Z.to_nat (i - 1) else None.
Proof. intros Hi. split; [apply staticTable_ok|]. by apply static_getHeader. Qed.

Lemma static_table_fields_witness :
  is_u32 2 /\ HeaderTable.getHeader staticTable 2 = Some (HPACKHeader.mk (str ":method") (str "GET")).
Proof.
  assert (H : is_u32 2) by (unfold is_u32; lia). split; [exact H|].
  rewrite (proj2 (static_table_fields 2 H)). reflexivity.
Defined.

(** [getIndex] answers soundly on both tables: on a well-formed context and a
    canonical name it does not abort; an index it returns is in range and
    [getHeader] reads the field itself there; a name index it returns is in range
    and [getHeader] reads a field of that name there. *)
Theorem context_getIndex_sound (CH : CommonHeaders) c n v chk :
  wf_ctx c -> HeaderTable.indexNames_ (table_ c) = true -> canonical n ->
  exists i j c', HPACKContext.getIndex c n v chk = Some ((i, j), c') /\ table_ c' = table_ c /\
    (i <> 0 -> fst <$> HPACKContext.getHeader c' i = Some (HPACKHeader.mk n v)) /\
    (j <> 0 -> exists v', fst <$> HPACKContext.getHeader c' j = Some (HPACKHeader.mk n v')).
Proof.
  intros Hw Hix Hn. destruct (getIndex_ok c n v chk Hw Hix Hn) as ([i j] & c' & HG & Ha & Hs).
  exists i, j, c'. pose proof (length_entries _ Hw) as Hl. pose proof (wf_size _ Hw).
  pose proof (wf_len _ Hw). unfold same_table in Hs. destruct Ha as (Hi & Hj & Hfi & Hfj).
  rewrite Hl in *. unfold kEntriesSize in *.
  assert (Hw' : wf_ctx c') by (unfold wf_ctx in *; by rewrite Hs).
  split_and!; try done; intros Hnz; rewrite getHeader_field by (done || (unfold_ints; lia));
    rewrite Hs; auto.
Qed.

End ContextSpec.
