(* ===== verification/HPACKCodec.v ===== *)
(** * The HPACK encoder and decoder
    ([src/proxygen/proxygen/lib/http/codec/compress/HPACKEncoder.cpp],
    [HPACKEncoderBase.cpp], [HPACKDecoder.cpp], [HPACKDecoderBase.cpp],
    [HPACKCodec.cpp])

    The encoder turns a list of fields into a header block: an index, or a
    literal whose name may be an index, with or without an insertion into the
    dynamic table.  The decoder interprets a block and mirrors the insertions.

    The theorems are in [HPACKRoundTrip] (an encoder and a decoder stay in step) and
    [HPACKSafety] (decoding an arbitrary block neither aborts nor loops). *)

From stdpp Require Import gmap.
From S2P Require Import Prelude Huffman HPACKBuffers HeaderTable HPACKContext.

(** ** The encoder *)

Module HPACKEncoder.
Import HPACK HPACKHeaderName HPACKContext.

(** [HPACKEncoderBase] and [HPACKContext]; a strategy is its [indexHeader]. *)
Record t := mk {
  ctx : HPACKContext.t; streamBuffer_ : HPACKEncodeBuffer.t;
  indexingStrat_ : option (list Z -> list Z -> bool -> bool); pendingContextUpdate_ : bool }.

Definition kBufferGrowth : Z := 4000.

Definition table_ (e : t) : HeaderTable.t := HPACKContext.table_ (ctx e).
Definition with_ctx (e : t) (c : HPACKContext.t) : t :=
  mk c (streamBuffer_ e) (indexingStrat_ e) (pendingContextUpdate_ e).
Definition with_buf (e : t) (b : HPACKEncodeBuffer.t) : t :=
  mk (ctx e) b (indexingStrat_ e) (pendingContextUpdate_ e).

(** [setHeaderIndexingStrategy], with the limits of the strategy. *)
Definition setHeaderIndexingStrategy (e : t)
    (strat : option ((list Z -> list Z -> bool -> bool) * (Z * Z))) : t :=
  mk (ctx e)
    (match strat with
     | Some (_, limits) => HPACKEncodeBuffer.setHuffmanLimits (streamBuffer_ e) limits
     | None => streamBuffer_ e
     end)
    (fst <$> strat) (pendingContextUpdate_ e).

(** [HPACKEncoderBase::setHeaderTableSize]. *)
Definition setHeaderTableSize (e : t) (size : Z) : option t :=
  if negb (size =? HeaderTable.capacity_ (table_ e)) then
    '(ok, tbl) ← HeaderTable.setCapacity (table_ e) size;
    if (ok : bool)
    then Some (mk (with_table (ctx e) tbl) (streamBuffer_ e) (indexingStrat_ e) true)
    else None
  else Some e.

Definition handlePendingContextUpdate (e : t) (tableCapacity : Z) : option (Z * t) :=
  if pendingContextUpdate_ e then
    '(encoded, b) ← HPACKEncodeBuffer.encodeInteger_instr (streamBuffer_ e) tableCapacity
                      TABLE_SIZE_UPDATE;
    Some (encoded, mk (ctx e) b (indexingStrat_ e) false)
  else Some (0, e).

Definition encodeAsIndex (e : t) (index : Z) : option t :=
  '(_, b) ← HPACKEncodeBuffer.encodeInteger_instr (streamBuffer_ e) index INDEX_REF;
  Some (with_buf e b).

Definition encodeLiteral (e : t) (name value : list Z) (nameIndex : Z) (instruction : Instruction)
  : option t :=
  b ← (if truth nameIndex then
         '(_, b) ← HPACKEncodeBuffer.encodeInteger_instr (streamBuffer_ e) nameIndex instruction;
         Some b
       else
         '(_, b) ← HPACKEncodeBuffer.encodeInteger_instr (streamBuffer_ e) 0 instruction;
         '(_, b) ← HPACKEncodeBuffer.encodeLiteral b name;
         Some b);
  '(_, b) ← HPACKEncodeBuffer.encodeLiteral b value;
  Some (with_buf e b).

(** [indexing] is updated by reference. *)
Definition encodeAsLiteralImpl (e : t) (name : list Z) (nameIndex : Z) (value : list Z)
    (indexing : bool) : option (bool * t) :=
  let indexing :=
    if HPACKHeader.bytes_of (u32 (zlen name)) (zlen value) >? HeaderTable.capacity_ (table_ e)
    then false else indexing in
  let instruction := if indexing then LITERAL_INC_INDEX else LITERAL in
  e ← encodeLiteral e name value nameIndex instruction;
  Some (indexing, e).

Definition encodeAsLiteral (e : t) (name : list Z) (nameIndex : Z) (value : list Z)
    (indexing : bool) : option t :=
  '(indexing, e) ← encodeAsLiteralImpl e name nameIndex value indexing;
  if (indexing : bool) then
    '(ok, tbl) ← HeaderTable.add (table_ e) (HPACKHeader.mk name value);
    if (ok : bool) then Some (with_ctx e (with_table (ctx e) tbl)) else None
  else Some e.

Section encoder.
Context `{CH : CommonHeaders}.

(** The constructor: the default strategy, and its Huffman limits. *)
Definition create (huffman : bool) (tableSize : Z) : t :=
  mk (HPACKContext.create tableSize)
    (HPACKEncodeBuffer.setHuffmanLimits (HPACKEncodeBuffer.create kBufferGrowth huffman)
       HeaderIndexingStrategy.getHuffmanLimits)
    (Some HeaderIndexingStrategy.indexHeader) false.

(** The result is [None] when the header was encoded, else the name index. *)
Definition encodeHeaderImpl (e : t) (name value : list Z) : option (option Z * bool * t) :=
  '((index, nameIndex), c) ← HPACKContext.getIndex (ctx e) name value true;
  let e := with_ctx e c in
  if truth index then
    e ← encodeAsIndex e index; Some (None, false, e)
  else
    let indexable :=
      (HPACKHeader.bytes_of (u32 (zlen name)) (zlen value) <=? HeaderTable.capacity_ (table_ e)) &&
      match indexingStrat_ e with
      | None => true
      | Some indexHeader =>
          indexHeader name value ((nameIndex >? 0) && negb (isStatic nameIndex))
      end in
    Some (Some nameIndex, indexable, e).

Definition encodeHeader (e : t) (name value : list Z) : option t :=
  '(nameIndex, indexable, e) ← encodeHeaderImpl e name value;
  match nameIndex with
  | Some nameIndex => encodeAsLiteral e name nameIndex value indexable
  | None => Some e
  end.

(** [encodeHeader(const std::string&, const std::string&)]. *)
Definition encodeHeader_string (e : t) (nameStr value : list Z) : option (Z * t) :=
  let name := storeAddress nameStr in
  let uncompressed := u64 (u32 (zlen name) + zlen value + 2) in
  e ← encodeHeader e name value;
  Some (uncompressed, e).

(** [encodeHeader(HTTPHeaderCode, ..)]; [None] for a code without a name. *)
Definition encodeHeader_code (e : t) (code : Z) (value : list Z) : option (Z * t) :=
  if (code =? HTTP_HEADER_NONE) || (code =? HTTP_HEADER_OTHER) then None
  else
    let name := getPointerToName code in
    let uncompressed := u64 (u32 (zlen name) + zlen value + 2) in
    e ← encodeHeader e name value;
    Some (uncompressed, e).

Fixpoint encodeHeaders (e : t) (headers : list HPACKHeader.t) : option t :=
  match headers with
  | [] => Some e
  | h :: headers => e ← encodeHeader e (HPACKHeader.name h) (HPACKHeader.value h);
                    encodeHeaders e headers
  end.

(** [encode(headers, headroom)]: [addHeadroom] checks that nothing was written. *)
Definition encode (e : t) (headers : list HPACKHeader.t) (headroom : Z) : option (list Z * t) :=
  if truth headroom && negb (bool_decide (HPACKEncodeBuffer.buf_ (streamBuffer_ e) = [])) then None
  else
    '(_, e) ← handlePendingContextUpdate e (HeaderTable.capacity_ (table_ e));
    e ← encodeHeaders e headers;
    let '(out, b) := HPACKEncodeBuffer.release (streamBuffer_ e) in
    Some (out, with_buf e b).

(** Redirecting the buffer ([setWriteBuf]). *)
Definition set_queue (e : t) (q : list Z) : t :=
  with_buf e (HPACKEncodeBuffer.mk q (HPACKEncodeBuffer.growthSize_ (streamBuffer_ e))
    (HPACKEncodeBuffer.huffMin_ (streamBuffer_ e)) (HPACKEncodeBuffer.huffMax_ (streamBuffer_ e))).

Definition startEncode (e : t) (writeBuf : list Z) : option t :=
  '(_, e) ← handlePendingContextUpdate (set_queue e writeBuf) (HeaderTable.capacity_ (table_ e));
  Some e.

(** [completeEncode] goes back to the encoder's own queue [own]. *)
Definition completeEncode (e : t) (own : list Z) : list Z * t :=
  (HPACKEncodeBuffer.buf_ (streamBuffer_ e), set_queue e own).

(** [encode(headers, writeBuf)]. *)
Definition encode_to (e : t) (headers : list HPACKHeader.t) (writeBuf : list Z)
  : option (list Z * t) :=
  e' ← startEncode e writeBuf;
  e' ← encodeHeaders e' headers;
  Some (completeEncode e' (HPACKEncodeBuffer.buf_ (streamBuffer_ e))).

End encoder.
End HPACKEncoder.

(** ** The decoder *)

Module HPACKDecoder.
Import HPACK HPACKHeaderName HPACKContext.
Module DB := HPACKDecodeBuffer.

(** [HPACKDecoderBase] and [HPACKContext]. *)
Record t := mk {
  ctx : HPACKContext.t; err_ : DecodeError; maxTableSize_ : Z; maxUncompressed_ : Z }.

Definition table_ (d : t) : HeaderTable.t := HPACKContext.table_ (ctx d).
Definition with_ctx (d : t) (c : HPACKContext.t) : t :=
  mk c (err_ d) (maxTableSize_ d) (maxUncompressed_ d).
Definition set_err (d : t) (e : DecodeError) : t :=
  mk (ctx d) e (maxTableSize_ d) (maxUncompressed_ d).
Definition hasError (d : t) : bool := negb (bool_decide (err_ d = NONE)).

Definition create (tableSize maxUncompressed : Z) : t :=
  let c := HPACKContext.create tableSize in
  mk (with_table c (HeaderTable.disableNamesIndex (HPACKContext.table_ c))) NONE tableSize
    maxUncompressed.

Definition setMaxUncompressed (d : t) (maxUncompressed : Z) : t :=
  mk (ctx d) (err_ d) (maxTableSize_ d) maxUncompressed.

Definition setHeaderTableMaxSize (d : t) (maxSize : Z) : option t :=
  let d := mk (ctx d) (err_ d) maxSize (maxUncompressed_ d) in
  if maxSize <? HeaderTable.capacity_ (table_ d) then
    '(ok, tbl) ← HeaderTable.setCapacity (table_ d) maxSize;
    if (ok : bool) then Some (with_ctx d (with_table (ctx d) tbl)) else None
  else Some d.

(** The handlers return a value, or record an error in [err_] and stop; [None]
    is a failed [CHECK] or a read past the end. *)
Definition handler (A : Type) : Type := t * DB.t -> option (option A * (t * DB.t)).

#[global] Instance handler_ret : MRet handler := fun A a st => Some (Some a, st).
#[global] Instance handler_bind : MBind handler := fun A B k m st =>
  '(r, st) ← m st;
  match r with
  | Some a => k a st
  | None => Some (None, st)
  end.

(** [err_ = dbuf.decode..(); if (err_ != NONE) return 0;]. *)
Definition decode {A} (m : DB.decoder A) : handler A := fun '(d, b) =>
  match m b with
  | DB.DOk a b => Some (Some a, (set_err d NONE, b))
  | DB.DErr e b => Some (None, (set_err d e, b))
  | DB.DAbort => None
  end.

Definition fail {A} (e : DecodeError) : handler A := fun '(d, b) => Some (None, (set_err d e, b)).

(** Reads and changes of the decoder itself. *)
Definition decoder_op {A} (f : t -> option (A * t)) : handler A := fun '(d, b) =>
  '(a, d) ← f d; Some (Some a, (d, b)).

(** [dbuf.peek()] and [dbuf.next()], which do not touch [err_]. *)
Definition buffer_op {A} (m : DB.decoder A) : handler A := fun '(d, b) =>
  match m b with
  | DB.DOk a b => Some (Some a, (d, b))
  | _ => None
  end.

(** The argument is a [uint32_t]: the 64-bit index is truncated. *)
Definition isValid (d : t) (index : Z) : bool :=
  let index := u32 index in
  if isStatic index
  then HeaderTable.isValid StaticHeaderTable.staticTable (globalToStaticIndex index)
  else HeaderTable.isValid (table_ d) (globalToDynamicIndex index).

Definition getHeader (d : t) (index : Z) : option (HPACKHeader.t * t) :=
  '(h, c) ← HPACKContext.getHeader (ctx d) (u32 index); Some (h, with_ctx d c).

Definition check_index (index : Z) : handler unit := fun '(d, b) =>
  if isValid d index then Some (Some tt, (d, b)) else fail INVALID_INDEX (d, b).

(** [emit]: the callback receives the field; the size is returned. *)
Definition emit (h : HPACKHeader.t) : Z * option HPACKHeader.t := (HPACKHeader.realBytes h, Some h).

(** [table_.add], with the check on its result. *)
Definition add_checked (h : HPACKHeader.t) (d : t) : option (unit * t) :=
  '(ok, tbl) ← HeaderTable.add (table_ d) h;
  if (ok : bool) || (HPACKHeader.bytes h >? HeaderTable.capacity_ tbl)
  then Some (tt, with_ctx d (with_table (ctx d) tbl)) else None.

(** The second half of [handleTableSizeUpdate]. *)
Definition update_capacity (arg : Z) : handler (Z * option HPACKHeader.t) := fun '(d, b) =>
  if arg >? maxTableSize_ d then fail INVALID_TABLE_SIZE (d, b)
  else
    '(_, tbl) ← HeaderTable.setCapacity (table_ d) (u32 arg);
    Some (Some (0, None), (with_ctx d (with_table (ctx d) tbl), b)).

Definition handleTableSizeUpdate : handler (Z * option HPACKHeader.t) :=
  arg ← decode (DB.decodeInteger (prefixLength TABLE_SIZE_UPDATE));
  update_capacity arg.

Definition decodeIndexedHeader : handler (Z * option HPACKHeader.t) :=
  index ← decode (DB.decodeInteger (prefixLength INDEX_REF));
  if index =? 0 then fail INVALID_INDEX
  else
    check_index index;;
    header ← decoder_op (fun d => getHeader d index);
    mret (emit header).

Section decoder.
Context `{CH : CommonHeaders}.

Definition decodeLiteralHeader : handler (Z * option HPACKHeader.t) :=
  byte ← buffer_op DB.peek;
  let indexing := truth (Z.land byte (code LITERAL_INC_INDEX)) in
  let indexMask := if indexing then 0x3F else 0x0F in
  let length := if indexing then prefixLength LITERAL_INC_INDEX else prefixLength LITERAL in
  name ← (if truth (Z.land byte indexMask) then
            index ← decode (DB.decodeInteger length);
            check_index index;;
            header ← decoder_op (fun d => getHeader d index);
            mret (HPACKHeader.name header)
          else
            buffer_op DB.next;;
            headerName ← decode DB.decodeLiteral;
            mret (storeAddress headerName));
  value ← decode DB.decodeLiteral;
  let header := HPACKHeader.mk name value in
  let emittedSize := emit header in
  if indexing then
    decoder_op (add_checked header);; mret emittedSize
  else mret emittedSize.

Definition decodeHeader : handler (Z * option HPACKHeader.t) :=
  byte ← buffer_op DB.peek;
  if truth (Z.land byte (code INDEX_REF)) then decodeIndexedHeader
  else if truth (Z.land byte (code LITERAL_INC_INDEX)) then decodeLiteralHeader
  else if truth (Z.land byte (code TABLE_SIZE_UPDATE)) then handleTableSizeUpdate
  else decodeLiteralHeader.

(** The value a handler returns on an error is 0. *)
Definition emitted_size (r : option (Z * option HPACKHeader.t)) : Z :=
  match r with Some (n, _) => n | None => 0 end.
Definition emitted_header (r : option (Z * option HPACKHeader.t)) : list HPACKHeader.t :=
  match r with Some (_, Some h) => [h] | _ => [] end.

(** [while (!hasError() && !dbuf.empty())]: every round consumes a byte or sets
    [err_], so the bytes of the block bound the rounds. *)
Fixpoint decode_loop (fuel : nat) (d : t) (b : DB.t) (emittedSize : Z) (out : list HPACKHeader.t)
  : option (list HPACKHeader.t * Z * t * DB.t) :=
  if negb (hasError d) && negb (DB.empty b) then
    match fuel with
    | O => None
    | S fuel' =>
        '(r, (d, b)) ← decodeHeader (d, b);
        let emittedSize := u32 (emittedSize + emitted_size r) in
        let out := out ++ emitted_header r in
        if emittedSize >? maxUncompressed_ d
        then Some (out, emittedSize, set_err d HEADERS_TOO_LARGE, b)
        else decode_loop fuel' d b (u32 (emittedSize + 2)) out
    end
  else Some (out, emittedSize, d, b).

(** The last callback of a block. *)
Inductive completion :=
| onHeadersComplete (compressed compressedBlock uncompressed : Z)
| onDecodeError (e : DecodeError).

Definition completeDecode (d : t) (compressedSize compressedBlockSize emittedSize : Z) : completion :=
  if hasError d then onDecodeError (err_ d)
  else onHeadersComplete compressedSize compressedBlockSize emittedSize.

(** The fields passed to [onHeader], in order, and the last callback. *)
Definition decodeStreaming (d : t) (cursor : list Z) (totalBytes : Z)
  : option (list HPACKHeader.t * completion * t) :=
  let dbuf := DB.create cursor totalBytes (u32 (maxUncompressed_ d)) in
  '(out, emittedSize, d, dbuf) ← decode_loop (S (Z.to_nat totalBytes)) d dbuf 0 [];
  let compressedSize := DB.consumedBytes dbuf in
  Some (out, completeDecode d compressedSize compressedSize emittedSize, d).

End decoder.
End HPACKDecoder.

(** ** The codec *)

Module HPACKCodec.
Import HPACKHeaderName.

(** [HTTPHeaderSize]. *)
Record HTTPHeaderSize := mkSize { compressed : Z; uncompressed : Z; compressedBlock : Z }.

Record t := mk {
  encoder_ : HPACKEncoder.t; decoder_ : HPACKDecoder.t;
  encodedSize_ : HTTPHeaderSize; encodeHeadroom_ : Z }.

Section codec.
Context `{CH : CommonHeaders}.

(** The constructor, with the defaults of [HeaderCodec]. *)
Definition kMaxUncompressed : Z := 128 * 1024.

Definition create : t :=
  mk (HPACKEncoder.create true HPACK.kTableSize)
    (HPACKDecoder.create HPACK.kTableSize kMaxUncompressed) (mkSize 0 0 0) 0.

Definition setEncodeHeadroom (c : t) (headroom : Z) : t :=
  mk (encoder_ c) (decoder_ c) (encodedSize_ c) headroom.

Definition setMaxUncompressed (c : t) (maxUncompressed : Z) : t :=
  mk (encoder_ c) (HPACKDecoder.setMaxUncompressed (decoder_ c) maxUncompressed)
    (encodedSize_ c) (encodeHeadroom_ c).

Definition setHeaderIndexingStrategy (c : t)
    (strat : option ((list Z -> list Z -> bool -> bool) * (Z * Z))) : t :=
  mk (HPACKEncoder.setHeaderIndexingStrategy (encoder_ c) strat) (decoder_ c)
    (encodedSize_ c) (encodeHeadroom_ c).

Definition prepareHeaders (headers : list (list Z * list Z)) : Z * list HPACKHeader.t :=
  let converted := (fun h => HPACKHeader.mk (storeAddress (fst h)) (snd h)) <$> headers in
  (foldl (fun n h => u32 (n + u32 (zlen (HPACKHeader.name h)) + zlen (HPACKHeader.value h) + 2))
     0 converted, converted).

Definition recordCompressedSize (s : HTTPHeaderSize) (uncompressedSize size : Z) : HTTPHeaderSize :=
  mkSize (u32 size) uncompressedSize (u32 (compressedBlock s + size)).

Definition encode (c : t) (headers : list (list Z * list Z)) : option (list Z * t) :=
  let '(n, prepared) := prepareHeaders headers in
  '(buf, e) ← HPACKEncoder.encode (encoder_ c) prepared (encodeHeadroom_ c);
  Some (buf, mk e (decoder_ c) (recordCompressedSize (encodedSize_ c) n (zlen buf))
               (encodeHeadroom_ c)).

Definition encode_to (c : t) (headers : list (list Z * list Z)) (writeBuf : list Z)
  : option (list Z * t) :=
  let '(n, prepared) := prepareHeaders headers in
  '(out, e) ← HPACKEncoder.encode_to (encoder_ c) prepared writeBuf;
  Some (out, mk e (decoder_ c)
               (recordCompressedSize (encodedSize_ c) n (zlen out - zlen writeBuf))
               (encodeHeadroom_ c)).

Definition decodeStreaming (c : t) (cursor : list Z) (length : Z)
  : option (list HPACKHeader.t * HPACKDecoder.completion * t) :=
  '(out, r, d) ← HPACKDecoder.decodeStreaming (decoder_ c) cursor length;
  Some (out, r, mk (encoder_ c) d (encodedSize_ c) (encodeHeadroom_ c)).

Definition setEncoderHeaderTableSize (c : t) (size : Z) : option t :=
  e ← HPACKEncoder.setHeaderTableSize (encoder_ c) size;
  Some (mk e (decoder_ c) (encodedSize_ c) (encodeHeadroom_ c)).

Definition setDecoderHeaderTableMaxSize (c : t) (size : Z) : option t :=
  d ← HPACKDecoder.setHeaderTableMaxSize (decoder_ c) size;
  Some (mk (encoder_ c) d (encodedSize_ c) (encodeHeadroom_ c)).

End codec.
End HPACKCodec.
