(* ===== verification/HPACKRoundTrip.v ===== *)
(** * HPACK end to end

    Encoder and decoder of [HPACKCodec] connected.  The main theorem follows them
    through any sequence of header blocks and changes of the encoder's table size:
    every block is decoded to exactly the fields that were encoded.  The invariant that
    carries it is that the encoder's entries are a prefix of the decoder's, and that
    the capacities agree unless an update is pending. *)

From stdpp Require Import gmap.
From S2P Require Import Prelude Huffman HPACKBuffers HeaderTable HPACKContext HPACKCodec.

Module Link.
Import HPACK HPACKHeader HeaderSpec Ring HPACKHeaderName StaticHeaderTable HPACKContext
  ContextSpec DecodeSpec.
Module E := HPACKEncoder.
Module D := HPACKDecoder.
Module EB := HPACKEncodeBuffer.
Module DB := HPACKDecodeBuffer.

(** ** Linked tables

    The encoder's entries are the newest of the decoder's. *)
Record linked (te td : HeaderTable.t) : Prop := {
  l_enc : wf te;
  l_dec : wf td;
  l_names : HeaderTable.indexNames_ te = true;
  l_prefix : entries te `prefix_of` entries td;
  l_cap : HeaderTable.capacity_ te = HeaderTable.capacity_ td }.

Lemma keep_mono c es es' : es `prefix_of` es' -> keep c es `prefix_of` keep c es'.
Proof.
  intros [k ->]. revert c. induction es as [|h es IH]; intros c; simpl; [apply prefix_nil|].
  destruct (_ <=? _); [|done]. apply prefix_cons, IH.
Qed.

(** A prefix that fits survives an eviction. *)
Lemma keep_fits c es es' : es `prefix_of` es' -> total es <= c -> es `prefix_of` keep c es'.
Proof. intros Hp Ht. rewrite <- (keep_all c es Ht). by apply keep_mono. Qed.

Lemma linked_add te td h :
  linked te td -> hsize h < 2 ^ 31 ->
  exists te' td',
    HeaderTable.add te h = Some (hsize h <=? HeaderTable.capacity_ te, te') /\
    HeaderTable.add td h = Some (hsize h <=? HeaderTable.capacity_ te, td') /\
    linked te' td' /\ HeaderTable.capacity_ te' = HeaderTable.capacity_ te.
Proof.
  intros [He Hd Hn Hp Hc] Hh.
  destruct (add_spec te h He Hh) as (te' & HE & He' & Hee & Hce & Hie).
  destruct (add_spec td h Hd Hh) as (td' & HD & Hd' & Hed & Hcd & Hid).
  exists te', td'. rewrite <- Hc in HD. split_and!; try done. constructor; try done.
  - congruence.
  - rewrite Hee, Hed, <- Hc. unfold HeaderSpec.add. destruct (_ <=? _); [|done].
    by apply prefix_cons, keep_mono.
  - congruence.
Qed.

(** ** Fields at indices *)

Lemma field_at_prefix es es' i h :
  es `prefix_of` es' -> field_at es i = Some h -> field_at es' i = Some h.
Proof.
  intros Hp. unfold field_at. destruct (_ && _); [done|]. destruct (_ <? _); [|done].
  intros Hl. by eapply prefix_lookup_Some.
Qed.

Lemma field_at_valid d i h :
  wf (D.table_ d) -> is_u32 i -> field_at (entries (D.table_ d)) i = Some h -> D.isValid d i = true.
Proof.
  intros Hw Hi Hf. unfold D.isValid, isStatic, globalToStaticIndex, globalToDynamicIndex, HeaderTable.isValid.
  rewrite static_size. rewrite u32_id by done. unfold field_at in Hf.
  destruct (Z.leb_spec i kEntriesSize).
  - destruct (Z.leb_spec 1 i); cbn [andb] in Hf.
    + by rewrite (proj2 (Z.ltb_lt 0 i)) by lia.
    + by rewrite (proj2 (Z.ltb_ge kEntriesSize i)) in Hf by lia.
  - rewrite andb_false_r in Hf. rewrite (proj2 (Z.ltb_lt kEntriesSize i)) in Hf by lia. unfold kEntriesSize in *.
    rewrite u32_id by (unfold_ints; lia). apply lookup_lt_Some in Hf.
    pose proof (length_entries _ Hw) as Hl. unfold zlen in Hl.
    by rewrite (proj2 (Z.ltb_lt 0 _)), (proj2 (Z.leb_le _ _)) by lia.
Qed.

(** ** Running the decoder's handlers *)

Lemma hbind_ok {A B} (m : D.handler A) (k : A -> D.handler B) st a st' :
  m st = Some (Some a, st') -> (m ≫= k) st = k a st'.
Proof. intros H. unfold mbind, D.handler_bind. by rewrite H. Qed.

Lemma set_err_none d : D.err_ d = NONE -> D.set_err d NONE = d.
Proof. destruct d. simpl. by intros ->. Qed.

Lemma decode_ok {A} (m : DB.decoder A) d b a b' :
  D.err_ d = NONE -> m b = DB.DOk a b' -> D.decode m (d, b) = Some (Some a, (d, b')).
Proof. intros He H. unfold D.decode. by rewrite H, set_err_none. Qed.

Lemma peek_ok d b x l rest :
  holds b (x :: l) rest -> D.buffer_op DB.peek (d, b) = Some (Some x, (d, b)).
Proof. intros H. unfold D.buffer_op. by rewrite (peek_cons b x l rest H). Qed.

Lemma next_ok d b x l rest :
  holds b (x :: l) rest -> D.buffer_op DB.next (d, b) = Some (Some x, (d, DB.skip b 1)).
Proof. intros H. unfold D.buffer_op. by rewrite (next_cons b x l rest H). Qed.

(** An index that holds a field is accepted and the field is read. *)
Lemma read_index_ok d b i h :
  wf (D.table_ d) -> is_u32 i -> field_at (entries (D.table_ d)) i = Some h ->
  exists d', D.check_index i (d, b) = Some (Some tt, (d, b)) /\
    D.decoder_op (fun d => D.getHeader d i) (d, b) = Some (Some h, (d', b)) /\
    D.table_ d' = D.table_ d /\ D.err_ d' = D.err_ d /\
    D.maxTableSize_ d' = D.maxTableSize_ d /\ D.maxUncompressed_ d' = D.maxUncompressed_ d.
Proof.
  intros Hw Hi Hf. pose proof (field_at_valid d i h Hw Hi Hf) as Hv.
  pose proof (getHeader_field (D.ctx d) i Hw Hi) as Hg. unfold D.table_ in Hf. rewrite Hf in Hg.
  destruct (HPACKContext.getHeader (D.ctx d) i) as [[h' c]|] eqn:HG; [|done].
  simpl in Hg. injection Hg as ->. exists (D.with_ctx d c). split.
  { unfold D.check_index. by rewrite Hv. }
  split.
  { unfold D.decoder_op, D.getHeader. rewrite u32_id, HG by done. done. }
  split_and!; try done. unfold HPACKContext.getHeader in HG.
  destruct (isStatic i); [destruct (HeaderTable.getHeader staticTable _); [|done]|
    destruct (HeaderTable.getHeader (HPACKContext.table_ (D.ctx d)) _); [|done]];
    simpl in HG; injection HG as _ <-; done.
Qed.

(** ** First bytes *)

Lemma index_byte x : 0 <= x < 128 -> truth (Z.land (0x80 + x) 0x80) = true.
Proof. byte_bits 128. Qed.
Lemma inc_byte_7 x : 0 <= x < 64 -> truth (Z.land (0x40 + x) 0x80) = false.
Proof. byte_bits 64. Qed.
Lemma inc_byte_6 x : 0 <= x < 64 -> truth (Z.land (0x40 + x) 0x40) = true.
Proof. byte_bits 64. Qed.
Lemma inc_byte_low x : 0 <= x < 64 -> truth (Z.land (0x40 + x) 0x3F) = negb (x =? 0).
Proof. byte_bits 64. Qed.
Lemma lit_byte_7 x : 0 <= x < 16 -> truth (Z.land (0x00 + x) 0x80) = false.
Proof. byte_bits 16. Qed.
Lemma lit_byte_6 x : 0 <= x < 16 -> truth (Z.land (0x00 + x) 0x40) = false.
Proof. byte_bits 16. Qed.
Lemma lit_byte_5 x : 0 <= x < 16 -> truth (Z.land (0x00 + x) 0x20) = false.
Proof. byte_bits 16. Qed.
Lemma lit_byte_low x : 0 <= x < 16 -> truth (Z.land (0x00 + x) 0x0F) = negb (x =? 0).
Proof. byte_bits 16. Qed.
Lemma upd_byte_7 x : 0 <= x < 32 -> truth (Z.land (0x20 + x) 0x80) = false.
Proof. byte_bits 32. Qed.
Lemma upd_byte_6 x : 0 <= x < 32 -> truth (Z.land (0x20 + x) 0x40) = false.
Proof. byte_bits 32. Qed.
Lemma upd_byte_5 x : 0 <= x < 32 -> truth (Z.land (0x20 + x) 0x20) = true.
Proof. byte_bits 32. Qed.

(** ** One field *)

(** The fields the theorems are about. *)
Definition field_ok (h : HPACKHeader.t) : Prop :=
  canonical (name h) /\ bytes_ok (name h) /\ bytes_ok (value h) /\ hsize h < 2 ^ 27.

(** What the decoder keeps besides its table. *)
Definition same_limits (d d' : D.t) : Prop :=
  D.err_ d' = NONE /\ D.maxTableSize_ d' = D.maxTableSize_ d /\
  D.maxUncompressed_ d' = D.maxUncompressed_ d.

(** The two literal instructions the encoder uses. *)
Definition lit_code (indexing : bool) : Z := if indexing then 0x40 else 0x00.
Definition lit_len (indexing : bool) : Z := if indexing then 6 else 4.

Lemma lit_pattern indexing : Wire.pattern (lit_code indexing) (lit_len indexing).
Proof. destruct indexing; unfold Wire.pattern; simpl; split_and!; (lia || reflexivity). Qed.

Lemma index_pattern : Wire.pattern 0x80 7.
Proof. unfold Wire.pattern. split_and!; (lia || reflexivity). Qed.

Lemma update_pattern : Wire.pattern 0x20 5.
Proof. unfold Wire.pattern. split_and!; (lia || reflexivity). Qed.

Lemma string_pattern : Wire.pattern 0 8.
Proof. unfold Wire.pattern. split_and!; (lia || reflexivity). Qed.

(** The prefix of the first byte is zero exactly for the value zero. *)
Lemma enc_int_first j c len :
  Wire.pattern c len -> 0 <= j ->
  exists x l, Wire.enc_int j c len = c + x :: l /\ 0 <= x < 2 ^ len /\ (x =? 0) = (j =? 0) /\
    (j = 0 -> l = []).
Proof.
  intros Hp Hj. pose proof (Wire.ones_range len (proj1 Hp)). unfold Wire.enc_int.
  destruct (Z.ltb_spec j (Z.ones len)); eexists _, _; (split; [reflexivity|]).
  - split_and!; try lia; done.
  - destruct (Z.eqb_spec (Z.ones len) 0), (Z.eqb_spec j 0); split_and!; try lia; done.
Qed.

Section field.
Context `{CH : CommonHeaders}.

(** The field [h], written as [bytes] by an encoder with table [te], which then
    has table [te'], is read back by every decoder linked to [te]. *)
Definition decodes (te te' : HeaderTable.t) (bytes : list Z) (h : HPACKHeader.t) : Prop :=
  forall d b rest, linked te (D.table_ d) -> D.err_ d = NONE -> holds b bytes rest ->
  4 * hsize h <= DB.maxLiteralSize_ b ->
  exists d', D.decodeHeader (d, b) =
      Some (Some (realBytes h, Some h), (d', DB.skip b (zlen bytes))) /\
    linked te' (D.table_ d') /\ same_limits d d'.

Lemma decodes_index te i h :
  1 <= i <= kEntriesSize + HeaderTable.size_ te -> wf te -> field_at (entries te) i = Some h ->
  decodes te te (Wire.enc_int i 0x80 7) h.
Proof.
  intros Hi Hw Hf d b rest Hl He Hh _. pose proof (wf_size te Hw). pose proof (wf_len te Hw).
  unfold kEntriesSize in Hi. assert (Hu : is_u32 i) by (unfold_ints; lia).
  pose proof (field_at_prefix _ _ i h (l_prefix _ _ Hl) Hf) as Hf'.
  destruct (read_index_ok d (DB.skip b (zlen (Wire.enc_int i 0x80 7))) i h (l_dec _ _ Hl) Hu Hf')
    as (d' & Hck & Hrd & Ht & Herr & Hm1 & Hm2).
  exists d'. split; [|split; [by rewrite Ht|split_and!; congruence]].
  destruct (enc_int_first i 0x80 7 index_pattern ltac:(lia)) as (x & l & Hx & Hxr & _).
  assert (Hpk : D.buffer_op DB.peek (d, b) = Some (Some (0x80 + x), (d, b))).
  { apply (peek_ok _ _ _ l rest). by rewrite <- Hx. }
  unfold D.decodeHeader. rewrite (hbind_ok _ _ _ _ _ Hpk).
  change (code INDEX_REF) with 0x80. rewrite index_byte by exact Hxr.
  unfold D.decodeIndexedHeader. change (prefixLength INDEX_REF) with 7.
  assert (Hdi : D.decode (DB.decodeInteger 7) (d, b) =
     Some (Some i, (d, DB.skip b (zlen (Wire.enc_int i 0x80 7))))).
  { apply decode_ok; [done|]. apply (decodeInteger_spec _ _ _ _ rest index_pattern); [|done].
    unfold_ints. lia. }
  rewrite (hbind_ok _ _ _ _ _ Hdi). rewrite (proj2 (Z.eqb_neq i 0)) by lia.
  rewrite (hbind_ok _ _ _ _ _ Hck), (hbind_ok _ _ _ _ _ Hrd). done.
Qed.

(** The handler of the name of a literal, behind its first byte. *)
Definition name_handler (indexing : bool) (byte : Z) : D.handler (list Z) :=
  if truth (Z.land byte (if indexing then 0x3F else 0x0F)) then
    index ← D.decode (DB.decodeInteger (lit_len indexing));
    D.check_index index;;
    header ← D.decoder_op (fun d => D.getHeader d index);
    mret (HPACKHeader.name header)
  else
    D.buffer_op DB.next;;
    headerName ← D.decode DB.decodeLiteral;
    mret (storeAddress headerName).

Lemma lit_byte indexing x :
  0 <= x < 2 ^ lit_len indexing ->
  let byte := lit_code indexing + x in
  truth (Z.land byte 0x80) = false /\ truth (Z.land byte 0x40) = indexing /\
  (indexing = false -> truth (Z.land byte 0x20) = false) /\
  truth (Z.land byte (if indexing then 0x3F else 0x0F)) = negb (x =? 0).
Proof.
  intros Hx byte. unfold byte. destruct indexing; simpl lit_code; simpl lit_len in Hx.
  - change (2 ^ 6) with 64 in Hx. split_and!; [by apply inc_byte_7|by apply inc_byte_6|done|by apply inc_byte_low].
  - change (2 ^ 4) with 16 in Hx.
    split_and!; [by apply lit_byte_7|by apply lit_byte_6|intros _; by apply lit_byte_5|by apply lit_byte_low].
Qed.

(** A literal: its name, its value, and the insertion. *)
Lemma decodeHeader_literal indexing d b x l rest n d1 b1 v b2 :
  holds b (lit_code indexing + x :: l) rest -> 0 <= x < 2 ^ lit_len indexing ->
  name_handler indexing (lit_code indexing + x) (d, b) = Some (Some n, (d1, b1)) ->
  D.decode DB.decodeLiteral (d1, b1) = Some (Some v, (d1, b2)) ->
  D.decodeHeader (d, b) =
  (if indexing then (D.decoder_op (D.add_checked (HPACKHeader.mk n v));; mret (D.emit (HPACKHeader.mk n v)))
   else mret (D.emit (HPACKHeader.mk n v))) (d1, b2).
Proof.
  intros Hh Hx Hn Hv. destruct (lit_byte indexing x Hx) as (H7 & H6 & H5 & Hlow).
  assert (Hlit : D.decodeLiteralHeader (d, b) =
    (if indexing then (D.decoder_op (D.add_checked (HPACKHeader.mk n v));; mret (D.emit (HPACKHeader.mk n v)))
     else mret (D.emit (HPACKHeader.mk n v))) (d1, b2)).
  { unfold D.decodeLiteralHeader. rewrite (hbind_ok _ _ _ _ _ (peek_ok d b _ _ _ Hh)).
    change (code LITERAL_INC_INDEX) with 0x40. rewrite H6.
    change (prefixLength LITERAL_INC_INDEX) with 6. change (prefixLength LITERAL) with 4.
    rewrite (hbind_ok _ _ _ _ _ Hn), (hbind_ok _ _ _ _ _ Hv). by destruct indexing. }
  unfold D.decodeHeader. rewrite (hbind_ok _ _ _ _ _ (peek_ok d b _ _ _ Hh)).
  change (code INDEX_REF) with 0x80. change (code LITERAL_INC_INDEX) with 0x40.
  change (code TABLE_SIZE_UPDATE) with 0x20. rewrite H7, H6.
  destruct indexing; [done|]. by rewrite H5.
Qed.

(** The name, as an index or as a string. *)
Lemma name_index_ok indexing te d b j h rest :
  1 <= j <= kEntriesSize + HeaderTable.size_ te -> field_at (entries te) j = Some h ->
  linked te (D.table_ d) -> D.err_ d = NONE ->
  holds b (Wire.enc_int j (lit_code indexing) (lit_len indexing)) rest ->
  exists x l d', Wire.enc_int j (lit_code indexing) (lit_len indexing) = lit_code indexing + x :: l /\
    0 <= x < 2 ^ lit_len indexing /\
    name_handler indexing (lit_code indexing + x) (d, b) =
      Some (Some (name h),
        (d', DB.skip b (zlen (Wire.enc_int j (lit_code indexing) (lit_len indexing))))) /\
    D.table_ d' = D.table_ d /\ same_limits d d'.
Proof.
  intros Hj Hf Hl He Hh. pose proof (wf_size te (l_enc _ _ Hl)). pose proof (wf_len te (l_enc _ _ Hl)).
  unfold kEntriesSize in Hj. assert (Hu : is_u32 j) by (unfold_ints; lia).
  pose proof (field_at_prefix _ _ j h (l_prefix _ _ Hl) Hf) as Hf'.
  set (bytes := Wire.enc_int j (lit_code indexing) (lit_len indexing)) in *.
  destruct (read_index_ok d (DB.skip b (zlen bytes)) j h (l_dec _ _ Hl) Hu Hf')
    as (d' & Hck & Hrd & Ht & Herr & Hm1 & Hm2).
  destruct (enc_int_first j _ _ (lit_pattern indexing) ltac:(lia)) as (x & l & Hx & Hxr & Hx0 & _).
  exists x, l, d'. split; [exact Hx|]. split; [exact Hxr|].
  split; [|split; [done|split_and!; congruence]].
  destruct (lit_byte indexing x Hxr) as (_ & _ & _ & Hlow). unfold name_handler. rewrite Hlow, Hx0.
  rewrite (proj2 (Z.eqb_neq j 0)) by lia. cbn [negb].
  assert (Hdi : D.decode (DB.decodeInteger (lit_len indexing)) (d, b) =
     Some (Some j, (d, DB.skip b (zlen bytes)))).
  { apply decode_ok; [done|]. apply (decodeInteger_spec _ _ _ _ rest (lit_pattern indexing)); [|done].
    unfold_ints. lia. }
  rewrite (hbind_ok _ _ _ _ _ Hdi), (hbind_ok _ _ _ _ _ Hck), (hbind_ok _ _ _ _ _ Hrd). done.
Qed.

Lemma name_string_ok indexing d b n nb rest :
  D.err_ d = NONE -> canonical n -> holds b (lit_code indexing :: nb) rest ->
  DB.decodeLiteral (DB.skip b 1) = DB.DOk n (DB.skip b (1 + zlen nb)) ->
  name_handler indexing (lit_code indexing + 0) (d, b) =
    Some (Some n, (d, DB.skip b (1 + zlen nb))).
Proof.
  intros He Hc Hh Hd. destruct (lit_byte indexing 0) as (_ & _ & _ & Hlow); [by destruct indexing|].
  unfold name_handler. rewrite Hlow. cbn [negb Z.eqb].
  rewrite (hbind_ok _ _ _ _ _ (next_ok d b _ _ _ Hh)).
  rewrite (hbind_ok _ _ _ _ _ (decode_ok _ d _ _ _ He Hd)).
  rewrite storeAddress_lower, Hc. done.
Qed.

(** ** What the encoder writes *)

(** The rest of the encoder's state. *)
Definition same_encoder (e e' : E.t) : Prop :=
  E.pendingContextUpdate_ e' = E.pendingContextUpdate_ e /\
  E.indexingStrat_ e' = E.indexingStrat_ e /\
  HeaderTable.capacity_ (E.table_ e') = HeaderTable.capacity_ (E.table_ e) /\
  wf (E.table_ e') /\ HeaderTable.indexNames_ (E.table_ e') = true.

(** [bytes] are appended, the field is readable, and they are not too many. *)
Definition writes (e e' : E.t) (bytes : list Z) (h : HPACKHeader.t) : Prop :=
  E.streamBuffer_ e' = EB.push (E.streamBuffer_ e) bytes /\ same_encoder e e' /\
  bytes_ok bytes /\ 1 <= zlen bytes <= 4 * hsize h /\
  decodes (E.table_ e) (E.table_ e') bytes h.

Lemma decode_string d b hdr data n rest :
  D.err_ d = NONE -> holds b (hdr ++ data) rest -> zlen data <= DB.maxLiteralSize_ b ->
  (forall db rest, holds db (hdr ++ data) rest -> zlen data <= DB.maxLiteralSize_ db ->
     DB.decodeLiteral_at 7 db = DB.DOk n (DB.skip db (zlen (hdr ++ data)))) ->
  D.decode DB.decodeLiteral (d, b) = Some (Some n, (d, DB.skip b (zlen (hdr ++ data)))).
Proof. intros He Hh Hm HD. apply decode_ok; [done|]. by apply (HD b rest). Qed.

(** Name bytes: an index at which a field of the name is found, or the string. *)
Lemma encode_name e ix j n :
  canonical n -> bytes_ok n -> zlen n < 2 ^ 27 -> wf (E.table_ e) ->
  0 <= j <= kEntriesSize + HeaderTable.size_ (E.table_ e) ->
  (j <> 0 -> exists v', field_at (entries (E.table_ e)) j = Some (HPACKHeader.mk n v')) ->
  exists nb,
    (if truth j then
       '(_, b) ← EB.encodeInteger (E.streamBuffer_ e) j (lit_code ix) (lit_len ix); Some b
     else
       '(_, b) ← EB.encodeInteger (E.streamBuffer_ e) 0 (lit_code ix) (lit_len ix);
       '(_, b) ← EB.encodeLiteral b n; Some b) = Some (EB.push (E.streamBuffer_ e) nb) /\
    bytes_ok nb /\ 1 <= zlen nb <= 12 + 4 * zlen n /\
    forall d b rest, linked (E.table_ e) (D.table_ d) -> D.err_ d = NONE -> holds b nb rest ->
      4 * zlen n <= DB.maxLiteralSize_ b ->
      exists x l d', nb = lit_code ix + x :: l /\ 0 <= x < 2 ^ lit_len ix /\
        name_handler ix (lit_code ix + x) (d, b) = Some (Some n, (d', DB.skip b (zlen nb))) /\
        D.table_ d' = D.table_ d /\ same_limits d d'.
Proof.
  intros Hc Hb Hz Hw Hj Hf. pose proof (wf_size _ Hw). pose proof (wf_len _ Hw).
  pose proof (lit_pattern ix) as Hp. unfold kEntriesSize in Hj.
  assert (Hz0 : 0 <= zlen n) by (unfold zlen; lia).
  unfold truth. destruct (Z.eqb_spec j 0) as [->|Hj0]; cbn [negb].
  - assert (Hz1 : Wire.enc_int 0 (lit_code ix) (lit_len ix) = [lit_code ix]).
    { unfold Wire.enc_int. pose proof (Wire.ones_range _ (proj1 Hp)).
      rewrite (proj2 (Z.ltb_lt _ _)) by lia. f_equal. lia. }
    assert (Hb8 : bytes_ok [lit_code ix]).
    { rewrite <- Hz1. apply Wire.enc_int_ok; [done|unfold_ints; lia]. }
    rewrite EncodeSpec.encodeInteger_spec by (done || (unfold_ints; lia)). rewrite Hz1.
    unfold mbind, option_bind.
    destruct (encodeLiteral_decodes (EB.push (E.streamBuffer_ e) [lit_code ix]) 0 7 n
      ltac:(lia) string_pattern Hb Hz) as (hdr & data & HE & Hok & Hh & Hd & _ & HD).
    unfold EB.encodeLiteral. rewrite HE, EncodeSpec.push_push.
    exists ([lit_code ix] ++ (hdr ++ data)). rewrite !zlen_app. change (zlen [lit_code ix]) with 1.
    assert (0 <= zlen data) by (unfold zlen; lia).
    split_and!; try done; try lia; [by apply Forall_app|].
    intros d b rest Hl He Hho Hm. exists 0, (hdr ++ data), d.
    split; [by rewrite Z.add_0_r|]. split; [by destruct ix|]. split; [|done].
    rewrite <- zlen_app. apply (name_string_ok _ _ _ _ _ rest); try done.
    pose proof (holds_skip b [lit_code ix] _ rest Hho) as Hh2.
    rewrite <- skip_skip by (unfold zlen; lia). apply (HD _ rest Hh2). simpl. lia.
  - destruct (Hf Hj0) as [v' Hv'].
    rewrite EncodeSpec.encodeInteger_spec by (done || (unfold_ints; lia)).
    unfold mbind, option_bind. exists (Wire.enc_int j (lit_code ix) (lit_len ix)).
    pose proof (Wire.enc_int_length j (lit_code ix) (lit_len ix)).
    split; [done|]. split; [apply Wire.enc_int_ok; [done|unfold_ints; lia]|]. split; [lia|].
    intros d b rest Hl He Hho _.
    destruct (name_index_ok ix (E.table_ e) d b j _ rest ltac:(unfold kEntriesSize; lia) Hv' Hl He Hho)
      as (x & l & d' & ? & ? & ? & ? & ?). by exists x, l, d'.
Qed.

Lemma encodeLiteral_ok e ix j h :
  field_ok h -> wf (E.table_ e) -> 0 <= j <= kEntriesSize + HeaderTable.size_ (E.table_ e) ->
  (j <> 0 -> exists v', field_at (entries (E.table_ e)) j = Some (HPACKHeader.mk (name h) v')) ->
  exists bytes,
    E.encodeLiteral e (name h) (value h) j (mkInstruction (lit_code ix) (lit_len ix)) =
      Some (E.with_buf e (EB.push (E.streamBuffer_ e) bytes)) /\
    bytes_ok bytes /\ 1 <= zlen bytes <= 4 * hsize h /\
    forall d b rest, linked (E.table_ e) (D.table_ d) -> D.err_ d = NONE -> holds b bytes rest ->
      4 * hsize h <= DB.maxLiteralSize_ b ->
      exists d1, D.decodeHeader (d, b) =
        (if ix then (D.decoder_op (D.add_checked h);; mret (D.emit h)) else mret (D.emit h))
          (d1, DB.skip b (zlen bytes)) /\
        D.table_ d1 = D.table_ d /\ same_limits d d1.
Proof.
  intros (Hc & Hbn & Hbv & Hs) Hw Hj Hf. unfold hsize in Hs.
  assert (0 <= zlen (name h)) by (unfold zlen; lia). assert (0 <= zlen (value h)) by (unfold zlen; lia).
  destruct (encode_name e ix j (name h) Hc Hbn ltac:(lia) Hw Hj Hf) as (nb & HN & Hnok & Hnl & HnD).
  destruct (encodeLiteral_decodes (EB.push (E.streamBuffer_ e) nb) 0 7 (value h)
      ltac:(lia) string_pattern Hbv ltac:(lia)) as (hdr & data & HE & Hok & Hh & Hd & _ & HD).
  assert (0 <= zlen data) by (unfold zlen; lia).
  exists (nb ++ (hdr ++ data)). split.
  { unfold E.encodeLiteral, EB.encodeInteger_instr. cbn [code prefixLength]. rewrite HN.
    unfold mbind, option_bind. unfold EB.encodeLiteral. by rewrite HE, EncodeSpec.push_push. }
  split; [by apply Forall_app|]. split; [rewrite !zlen_app; unfold hsize; lia|].
  intros d b rest Hl He Hho Hm. unfold hsize in Hm.
  assert (Hh1 : holds b nb ((hdr ++ data) ++ rest)).
  { destruct Hho as (Hcu & Hle & Hu). split; [by rewrite Hcu, <- app_assoc|].
    split; [rewrite zlen_app in Hle; unfold zlen in *; lia|done]. }
  destruct (HnD d b _ Hl He Hh1 ltac:(lia)) as (x & l & d1 & Hx & Hxr & HH & Ht & Hsl).
  exists d1. split; [|done]. pose proof (holds_skip b nb _ rest Hho) as Hh2.
  rewrite zlen_app, <- skip_skip by (unfold zlen; lia).
  destruct h as [n v]. apply (decodeHeader_literal ix d b x l ((hdr ++ data) ++ rest) n d1
    (DB.skip b (zlen nb)) v); [by rewrite <- Hx|done|done|].
  apply (decode_string _ _ _ _ _ rest); [apply Hsl|done| |done]. simpl in *. lia.
Qed.

Lemma encodeAsLiteral_ok e j h indexing :
  field_ok h -> wf (E.table_ e) -> HeaderTable.indexNames_ (E.table_ e) = true ->
  0 <= j <= kEntriesSize + HeaderTable.size_ (E.table_ e) ->
  (j <> 0 -> exists v', field_at (entries (E.table_ e)) j = Some (HPACKHeader.mk (name h) v')) ->
  exists bytes e', E.encodeAsLiteral e (name h) j (value h) indexing = Some e' /\ writes e e' bytes h.
Proof.
  intros Hok Hw Hix Hj Hf. pose proof Hok as (_ & _ & _ & Hs).
  assert (Hs31 : hsize h < 2 ^ 31) by lia.
  unfold E.encodeAsLiteral, E.encodeAsLiteralImpl.
  change (HPACKHeader.bytes_of (u32 (zlen (name h))) (zlen (value h))) with (HPACKHeader.bytes h).
  rewrite bytes_exact, Z.gtb_ltb by done.
  set (cap := HeaderTable.capacity_ (E.table_ e)).
  set (ix := if cap <? hsize h then false else indexing).
  assert (Hins : (if ix then LITERAL_INC_INDEX else LITERAL) = mkInstruction (lit_code ix) (lit_len ix))
    by (by destruct ix).
  rewrite Hins. destruct (encodeLiteral_ok e ix j h Hok Hw Hj Hf) as (bytes & HE & Hbok & Hbl & HD).
  rewrite HE. cbn [mbind option_bind].
  destruct ix eqn:Eix.
  - assert (Hfit : (hsize h <=? cap) = true).
    { unfold ix in Eix. destruct (Z.ltb_spec cap (hsize h)); [done|]. apply Z.leb_le. lia. }
    destruct (add_spec (E.table_ e) h Hw Hs31) as (te' & HA & Hw' & He' & Hc' & Hi').
    fold cap in HA. rewrite Hfit in HA.
    assert (HA' : HeaderTable.add (E.table_ (E.with_buf e (EB.push (E.streamBuffer_ e) bytes)))
      (HPACKHeader.mk (name h) (value h)) = Some (true, te')) by (destruct h; exact HA).
    rewrite HA'. cbn [mbind option_bind]. exists bytes. eexists. split; [reflexivity|].
    split; [done|]. split; [split_and!; try done; unfold E.table_; simpl; congruence|].
    split; [done|]. split; [done|]. intros d b rest Hl He Hho Hm.
    destruct (HD d b rest Hl He Hho Hm) as (d1 & -> & Ht & Hsl).
    destruct (linked_add _ _ h Hl Hs31) as (te2 & td2 & HA2 & HD2 & Hl2 & _).
    assert (te2 = te') as -> by (fold cap in HA2; rewrite Hfit in HA2; congruence).
    fold cap in HD2. rewrite Hfit in HD2.
    exists (D.with_ctx d1 (with_table (D.ctx d1) td2)).
    split; [|split; [exact Hl2|exact Hsl]].
    assert (Hop : D.decoder_op (D.add_checked h) (d1, DB.skip b (zlen bytes)) =
      Some (Some tt, (D.with_ctx d1 (with_table (D.ctx d1) td2), DB.skip b (zlen bytes)))).
    { unfold D.decoder_op, D.add_checked. rewrite Ht, HD2. done. }
    rewrite (hbind_ok _ _ _ _ _ Hop). done.
  - exists bytes. eexists. split; [reflexivity|]. split; [done|].
    split; [by split_and!|]. split; [done|]. split; [done|].
    intros d b rest Hl He Hho Hm. destruct (HD d b rest Hl He Hho Hm) as (d1 & -> & Ht & Hsl).
    exists d1. split; [done|]. split; [by rewrite Ht|done].
Qed.

Lemma encodeHeader_ok e h :
  field_ok h -> wf (E.table_ e) -> HeaderTable.indexNames_ (E.table_ e) = true ->
  exists bytes e', E.encodeHeader e (name h) (value h) = Some e' /\ writes e e' bytes h.
Proof.
  intros Hok Hw Hix. pose proof Hok as (Hc & _). unfold E.encodeHeader, E.encodeHeaderImpl.
  destruct (getIndex_ok (E.ctx e) (name h) (value h) true Hw Hix Hc)
    as ([i j] & c & HG & (Hi & Hj & Hfi & Hfj) & Hst).
  rewrite HG. cbn [mbind option_bind]. unfold same_table in Hst.
  pose proof (length_entries _ Hw) as Hlen. unfold E.table_ in Hlen. rewrite Hlen in *.
  assert (Hte : E.table_ (E.with_ctx e c) = E.table_ e) by exact Hst.
  unfold truth at 1. destruct (Z.eqb_spec i 0) as [->|Hi0]; cbn [negb mbind option_bind].
  - match goal with |- context [E.encodeAsLiteral _ _ _ _ ?ix] =>
      destruct (encodeAsLiteral_ok (E.with_ctx e c) j h ix Hok) as (bytes & e' & HE & HW);
      [rewrite Hte; done..|] end.
    exists bytes, e'. split; [exact HE|]. unfold writes, same_encoder in *. rewrite Hte in HW.
    exact HW.
  - unfold E.encodeAsIndex, EB.encodeInteger_instr. cbn [code prefixLength INDEX_REF].
    pose proof (wf_size _ Hw). pose proof (wf_len _ Hw). unfold E.table_ in *. unfold kEntriesSize in *.
    rewrite EncodeSpec.encodeInteger_spec by (apply index_pattern || (unfold_ints; lia)).
    cbn [mbind option_bind]. eexists _, _. split; [reflexivity|]. split; [done|].
    pose proof (Wire.enc_int_length i 0x80 7). pose proof (hsize_min h).
    split; [unfold same_encoder, E.table_; simpl; rewrite Hst; by split_and!|].
    split; [apply Wire.enc_int_ok; [apply index_pattern|unfold_ints; lia]|].
    split; [lia|]. unfold E.table_. simpl. rewrite Hst.
    apply decodes_index; [unfold kEntriesSize; lia|done|]. destruct h. by apply Hfi.
Qed.

(** ** A header block *)

(** The uncompressed size the decoder reports: two bytes per field more. *)
Definition usize (hs : list HPACKHeader.t) : Z :=
  foldr (fun h n => zlen (name h) + zlen (value h) + 2 + n) 0 hs.

Lemma usize_nonneg hs : 0 <= usize hs.
Proof. induction hs; simpl; unfold zlen in *; lia. Qed.

Lemma push_nil b : EB.push b [] = b.
Proof. destruct b. unfold EB.push. simpl. by rewrite app_nil_r. Qed.

Lemma same_encoder_trans e1 e2 e3 : same_encoder e1 e2 -> same_encoder e2 e3 -> same_encoder e1 e3.
Proof. unfold same_encoder. intuition congruence. Qed.

Lemma same_limits_trans d1 d2 d3 : same_limits d1 d2 -> same_limits d2 d3 -> same_limits d1 d3.
Proof. unfold same_limits. intuition congruence. Qed.

Lemma loop_end fuel d b emitted out :
  DB.remainingBytes_ b = 0 -> D.decode_loop fuel d b emitted out = Some (out, emitted, d, b).
Proof.
  intros H. assert (Hem : DB.empty b = true) by (unfold DB.empty; by apply Z.eqb_eq).
  destruct fuel; cbn [D.decode_loop]; by rewrite Hem, andb_false_r.
Qed.

(** One round of the decoder's loop. *)
Lemma loop_round fuel d b emitted out r d' b' :
  D.err_ d = NONE -> DB.remainingBytes_ b <> 0 -> D.decodeHeader (d, b) = Some (r, (d', b')) ->
  u32 (emitted + D.emitted_size r) <= D.maxUncompressed_ d' ->
  D.decode_loop (S fuel) d b emitted out =
  D.decode_loop fuel d' b' (u32 (u32 (emitted + D.emitted_size r) + 2)) (out ++ D.emitted_header r).
Proof.
  intros He Hr HD Hm. cbn [D.decode_loop]. unfold D.hasError. rewrite He.
  rewrite bool_decide_eq_true_2 by done. unfold DB.empty. rewrite (proj2 (Z.eqb_neq _ 0)) by done.
  cbn [negb andb]. rewrite HD. cbn [mbind option_bind].
  by rewrite Z.gtb_ltb, (proj2 (Z.ltb_ge _ _)) by lia.
Qed.

(** The decoder's loop on the bytes of [hs]. *)
Definition block_decodes (te te' : HeaderTable.t) (bytes : list Z) (hs : list HPACKHeader.t) : Prop :=
  forall fuel d b emitted out rest,
  linked te (D.table_ d) -> D.err_ d = NONE -> holds b bytes rest ->
  DB.remainingBytes_ b = zlen bytes -> (length hs <= fuel)%nat ->
  4 * total hs <= DB.maxLiteralSize_ b -> 0 <= emitted -> D.maxUncompressed_ d <= 2 ^ 25 ->
  (hs = [] \/ emitted + total hs <= D.maxUncompressed_ d) ->
  exists d', D.decode_loop fuel d b emitted out =
      Some (out ++ hs, emitted + usize hs, d', DB.skip b (zlen bytes)) /\
    linked te' (D.table_ d') /\ same_limits d d'.

Lemma block_decodes_cons te te1 te' bytes1 bytes2 h hs :
  hsize h < 2 ^ 27 -> decodes te te1 bytes1 h -> 1 <= zlen bytes1 -> block_decodes te1 te' bytes2 hs ->
  block_decodes te te' (bytes1 ++ bytes2) (h :: hs).
Proof.
  intros Hs Hd Hz HB fuel d b emitted out rest Hl He Hho Hrem Hfuel Hlit Hem Hmax Hor.
  destruct Hor as [|Hor]; [done|]. cbn [total foldr] in Hlit, Hor. fold (total hs) in Hlit, Hor.
  pose proof (total_nonneg hs). pose proof (hsize_min h). rewrite zlen_app in Hrem.
  assert (Hz2 : 0 <= zlen bytes2) by (unfold zlen; lia).
  assert (Hh1 : holds b bytes1 (bytes2 ++ rest)).
  { destruct Hho as (Hcu & Hle & Hu). split; [by rewrite Hcu, <- app_assoc|]. split; [lia|done]. }
  destruct (Hd d b _ Hl He Hh1 ltac:(lia)) as (d1 & HD & Hl1 & Hsl1).
  destruct fuel as [|fuel]; [simpl in Hfuel; lia|].
  pose proof (realBytes_exact h ltac:(lia)) as Hrb. unfold hsize in Hor, H0, Hlit.
  destruct Hsl1 as (He1 & Hm1 & Hm2).
  assert (Hu : u32 (emitted + realBytes h) = emitted + realBytes h)
    by (apply u32_id; rewrite Hrb; unfold_ints; unfold zlen in *; lia).
  rewrite (loop_round fuel d b emitted out _ d1 _ He ltac:(lia) HD);
    cbn [D.emitted_size D.emitted_header].
  2: { rewrite Hu, Hm2, Hrb. lia. }
  rewrite Hu, u32_id by (rewrite Hrb; unfold_ints; unfold zlen in *; lia).
  pose proof (holds_skip b bytes1 bytes2 rest Hho) as Hh2.
  pose proof Hho as (_ & _ & Hur). 
  destruct (HB fuel d1 (DB.skip b (zlen bytes1)) (emitted + realBytes h + 2) (out ++ [h]) rest)
    as (d' & HL & Hl' & Hsl').
  - done.
  - done.
  - done.
  - simpl. rewrite u32_id; unfold_ints; lia.
  - simpl in Hfuel. lia.
  - simpl. unfold zlen in *. lia.
  - rewrite Hrb. unfold zlen in *. lia.
  - lia.
  - right. rewrite Hrb, Hm2. unfold zlen in *. lia.
  - exists d'. rewrite HL. split; [|split; [done|]].
    + rewrite <- app_assoc, skip_skip, zlen_app by (unfold zlen; lia). cbn [usize foldr].
      fold (usize hs). rewrite Hrb.
      by replace (emitted + (zlen (name h) + zlen (value h)) + 2 + usize hs)
        with (emitted + (zlen (name h) + zlen (value h) + 2 + usize hs)) by lia.
    + apply (same_limits_trans d d1); [by split_and!|done].
Qed.

Lemma encodeHeaders_ok hs : forall e,
  Forall field_ok hs -> wf (E.table_ e) -> HeaderTable.indexNames_ (E.table_ e) = true ->
  exists bytes e', E.encodeHeaders e hs = Some e' /\
    E.streamBuffer_ e' = EB.push (E.streamBuffer_ e) bytes /\ same_encoder e e' /\
    bytes_ok bytes /\ zlen hs <= zlen bytes <= 4 * total hs /\
    block_decodes (E.table_ e) (E.table_ e') bytes hs.
Proof.
  induction hs as [|h hs IH]; intros e Hok Hw Hix.
  - exists [], e. rewrite push_nil. split; [done|]. split; [done|]. split; [by split_and!|].
    split; [constructor|]. split; [done|].
    intros fuel d b emitted out rest Hl He Hho Hrem _ _ _ _ _.
    exists d. rewrite loop_end by done. rewrite app_nil_r, Z.add_0_r.
    split; [|split; [done|by split_and!]]. do 2 f_equal. unfold DB.skip, zlen. simpl.
    destruct Hho as (_ & _ & Hu). rewrite Z.sub_0_r, u32_id by done. by destruct b.
  - inversion Hok as [|? ? Hh Hok']; subst. cbn [E.encodeHeaders].
    destruct (encodeHeader_ok e h Hh Hw Hix) as (b1 & e1 & HE1 & Hb1 & Hs1 & Ho1 & Hz1 & Hd1).
    rewrite HE1. cbn [mbind option_bind]. pose proof Hs1 as (_ & _ & _ & Hw1 & Hix1).
    destruct (IH e1 Hok' Hw1 Hix1) as (b2 & e' & HE2 & Hb2 & Hs2 & Ho2 & Hz2 & Hd2).
    exists (b1 ++ b2), e'. split; [done|].
    split; [by rewrite Hb2, Hb1, EncodeSpec.push_push|].
    split; [by apply (same_encoder_trans e e1)|]. split; [by apply Forall_app|].
    split; [rewrite zlen_app; cbn [total foldr]; fold (total hs); unfold zlen in *; simpl length; lia|].
    apply (block_decodes_cons _ (E.table_ e1)); try done; [apply Hh|lia].
Qed.

(** ** Table size updates and whole blocks *)

(** Encoder and decoder between blocks: the capacities may differ while an
    update is pending. *)
Record synced (e : E.t) (d : D.t) : Prop := {
  s_enc : wf (E.table_ e);
  s_dec : wf (D.table_ d);
  s_names : HeaderTable.indexNames_ (E.table_ e) = true;
  s_prefix : entries (E.table_ e) `prefix_of` entries (D.table_ d);
  s_cap : E.pendingContextUpdate_ e = false ->
    HeaderTable.capacity_ (E.table_ e) = HeaderTable.capacity_ (D.table_ d);
  s_max : HeaderTable.capacity_ (E.table_ e) <= D.maxTableSize_ d;
  s_err : D.err_ d = NONE;
  s_buf : EB.buf_ (E.streamBuffer_ e) = [];
  s_limit : 0 <= D.maxUncompressed_ d <= 2 ^ 25 }.

Lemma update_ok e d b rest :
  synced e d ->
  holds b (Wire.enc_int (HeaderTable.capacity_ (E.table_ e)) 0x20 5) rest ->
  exists d', D.decodeHeader (d, b) = Some (Some (0, None),
      (d', DB.skip b (zlen (Wire.enc_int (HeaderTable.capacity_ (E.table_ e)) 0x20 5)))) /\
    linked (E.table_ e) (D.table_ d') /\ same_limits d d'.
Proof.
  intros [He Hd Hn Hp _ Hm Herr _ _] Hho. pose proof (wf_cap _ He) as Hc.
  set (c := HeaderTable.capacity_ (E.table_ e)) in *.
  destruct (enc_int_first c 0x20 5 update_pattern ltac:(lia)) as (x & l & Hx & Hxr & _).
  assert (Hpk : D.buffer_op DB.peek (d, b) = Some (Some (0x20 + x), (d, b))).
  { apply (peek_ok _ _ _ l rest). by rewrite <- Hx. }
  destruct (setCapacity_spec (D.table_ d) c Hd Hc) as (td' & HS & Hd' & Hed & Hcd & _).
  exists (D.with_ctx d (with_table (D.ctx d) td')). split; [|split; [|by split_and!]].
  - unfold D.decodeHeader. rewrite (hbind_ok _ _ _ _ _ Hpk).
    change (code INDEX_REF) with 0x80. change (code LITERAL_INC_INDEX) with 0x40.
    change (code TABLE_SIZE_UPDATE) with 0x20.
    rewrite upd_byte_7, upd_byte_6, upd_byte_5 by exact Hxr.
    unfold D.handleTableSizeUpdate. change (prefixLength TABLE_SIZE_UPDATE) with 5.
    assert (Hdi : D.decode (DB.decodeInteger 5) (d, b) =
       Some (Some c, (d, DB.skip b (zlen (Wire.enc_int c 0x20 5))))).
    { apply decode_ok; [done|]. apply (decodeInteger_spec _ _ _ _ rest update_pattern); [|done].
      unfold_ints. lia. }
    rewrite (hbind_ok _ _ _ _ _ Hdi). unfold D.update_capacity.
    rewrite Z.gtb_ltb, (proj2 (Z.ltb_ge _ _)), u32_id by (lia || (unfold_ints; lia)).
    by rewrite HS.
  - constructor; try done; unfold D.table_; simpl.
    rewrite Hed. apply keep_fits; [done|]. rewrite <- (wf_bytes _ He). apply (wf_le _ He).
Qed.

(** The decoder's buffer on a block of exactly [bytes]. *)
Lemma create_holds bytes m :
  bytes_ok bytes -> zlen bytes < 2 ^ 32 -> holds (DB.create bytes (zlen bytes) m) bytes [].
Proof.
  intros Hb Hz. split; [by rewrite app_nil_r|]. simpl. split; [lia|]. unfold is_u32, zlen in *. lia.
Qed.

(** The bytes of a pending update, and what the decoder does with them. *)
Lemma pending_ok e d :
  synced e d ->
  exists ub e1, E.handlePendingContextUpdate e (HeaderTable.capacity_ (E.table_ e)) =
      Some (zlen ub, e1) /\ E.streamBuffer_ e1 = EB.push (E.streamBuffer_ e) ub /\
    E.table_ e1 = E.table_ e /\ E.pendingContextUpdate_ e1 = false /\ bytes_ok ub /\ zlen ub <= 11 /\
    forall fuel b out rest, holds b ub rest ->
      exists d1 k fuel1, linked (E.table_ e) (D.table_ d1) /\ same_limits d d1 /\ 0 <= k <= 2 /\
        (fuel <= fuel1)%nat /\
        D.decode_loop (S fuel) d b 0 out = D.decode_loop fuel1 d1 (DB.skip b (zlen ub)) k out.
Proof.
  intros Hsy. pose proof Hsy as [He Hd Hn Hp Hcap Hm Herr Hbuf Hlim]. pose proof (wf_cap _ He) as Hc.
  unfold E.handlePendingContextUpdate. destruct (E.pendingContextUpdate_ e) eqn:Hpend.
  - unfold EB.encodeInteger_instr. cbn [code prefixLength TABLE_SIZE_UPDATE].
    rewrite EncodeSpec.encodeInteger_spec by (apply update_pattern || (unfold_ints; lia)).
    cbn [mbind option_bind]. eexists _, _. split; [reflexivity|].
    pose proof (Wire.enc_int_length (HeaderTable.capacity_ (E.table_ e)) 0x20 5).
    split; [done|]. split; [done|]. split; [done|].
    split; [apply Wire.enc_int_ok; [apply update_pattern|unfold_ints; lia]|]. split; [lia|].
    intros fuel b out rest Hho. destruct (update_ok e d b rest Hsy Hho) as (d1 & HD & Hl & Hsl).
    exists d1, 2, fuel. split; [done|]. split; [done|]. split; [lia|]. split; [done|].
    destruct Hsl as (? & ? & Hm2). destruct Hho as (_ & Hle & _).
    assert (Hr : DB.remainingBytes_ b <> 0) by lia.
    rewrite (loop_round fuel d b 0 out _ d1 _ Herr Hr HD); [|rewrite Hm2; simpl; rewrite u32_id; unfold_ints; lia].
    cbn [D.emitted_header]. by rewrite app_nil_r.
  - exists [], e. rewrite push_nil. split; [done|]. split; [done|]. split; [done|]. split; [done|].
    split; [constructor|]. split; [done|]. intros fuel b out rest Hho. exists d, 0, (S fuel).
    split; [constructor; auto|]. split; [by split_and!|]. split; [lia|]. split; [lia|].
    f_equal. unfold DB.skip, zlen. simpl. destruct Hho as (_ & _ & Hu).
    rewrite Z.sub_0_r, u32_id by done. by destruct b.
Qed.

Lemma block_ok e d hs :
  synced e d -> Forall field_ok hs -> 4 * total hs <= D.maxUncompressed_ d ->
  exists out e' d' n, E.encode e hs 0 = Some (out, e') /\
    D.decodeStreaming d out (zlen out) =
      Some (hs, D.onHeadersComplete (zlen out) (zlen out) n, d') /\
    synced e' d' /\ D.maxUncompressed_ d' = D.maxUncompressed_ d /\
    D.maxTableSize_ d' = D.maxTableSize_ d.
Proof.
  intros Hsy Hok Hmax. pose proof Hsy as [He Hd Hn Hp Hcap Hm Herr Hbuf Hlim].
  pose proof (total_nonneg hs) as Ht0. unfold E.encode.
  destruct (pending_ok e d Hsy) as (ub & e1 & HU & Hub & Ht1 & Hp1 & Huok & Hul & HUD).
  change (truth 0) with false. cbn [andb]. rewrite HU. cbn [mbind option_bind].
  destruct (encodeHeaders_ok hs e1 Hok) as (bytes & e' & HE & Hbb & Hse & Hbok & Hbz & HBD);
    [by rewrite Ht1..|].
  rewrite HE. cbn [mbind option_bind]. unfold EB.release.
  assert (Hout : EB.buf_ (E.streamBuffer_ e') = ub ++ bytes).
  { rewrite Hbb, Hub. unfold EB.push. simpl. by rewrite Hbuf. }
  rewrite Hout. set (out := ub ++ bytes).
  assert (Hoz : zlen out = zlen ub + zlen bytes) by apply zlen_app.
  assert (Hz0 : 0 <= zlen ub /\ 0 <= zlen bytes /\ 0 <= zlen hs) by (unfold zlen; lia).
  assert (Hook : bytes_ok out) by (by apply Forall_app).
  assert (Hmu : u32 (D.maxUncompressed_ d) = D.maxUncompressed_ d) by (apply u32_id; unfold_ints; lia).
  pose proof (create_holds out (D.maxUncompressed_ d) Hook ltac:(lia)) as Hho.
  set (b := DB.create out (zlen out) (D.maxUncompressed_ d)) in *.
  assert (Hh1 : holds b ub (bytes ++ [])).
  { destruct Hho as (Hcu & Hle & Hu). split; [rewrite Hcu; unfold out; by rewrite <- app_assoc|].
    split; [lia|done]. }
  destruct (HUD (Z.to_nat (zlen out)) b [] _ Hh1) as (d1 & k & fuel1 & Hl1 & Hsl1 & Hk & Hf1 & HL1).
  destruct Hse as (Hse1 & Hse2 & Hse3 & Hse4 & Hse5). rewrite Ht1 in *.
  pose proof Hsl1 as (He1 & Hm1 & Hm2).
  destruct (HBD fuel1 d1 (DB.skip b (zlen ub)) k [] []) as (d' & HL & Hl' & Hsl'); try done; try lia.
  - by apply holds_skip.
  - simpl. rewrite u32_id; unfold_ints; lia.
  - unfold zlen in *. lia.
  - destruct hs as [|h hs']; [by left|right]. rewrite Hm2. pose proof (total_length (h :: hs')) as Htl.
    unfold zlen in Htl. simpl length in Htl. lia.
  - eexists out, _, d', _. split; [reflexivity|]. destruct Hsl' as (He' & Hm1' & Hm2').
    split.
    { unfold D.decodeStreaming. rewrite Hmu. fold b. rewrite HL1, HL. cbn [mbind option_bind].
      rewrite skip_skip, <- Hoz by lia. unfold D.completeDecode, D.hasError. rewrite He'.
      rewrite bool_decide_eq_true_2 by done. cbn [negb]. unfold DB.consumedBytes, DB.skip, b. simpl.
      rewrite Z.sub_diag. change (u32 0) with 0. rewrite Z.sub_0_r, u32_id by (unfold_ints; lia).
      reflexivity. }
    split; [|split; congruence]. destruct Hl' as [? ? ? ? ?].
    constructor; try done; unfold E.table_ in *; simpl; try lia; congruence.
Qed.

(** ** Sessions *)

Inductive action :=
| Resize (size : Z)
| Block (headers : list HPACKHeader.t).

Definition action_ok (maxTable maxUncompressed : Z) (a : action) : Prop :=
  match a with
  | Resize n => 0 <= n <= maxTable
  | Block hs => Forall field_ok hs /\ 4 * total hs <= maxUncompressed
  end.

(** The blocks as the decoder delivers them; [None] when encoder or decoder
    aborts or reports an error. *)
Fixpoint session (e : E.t) (d : D.t) (acts : list action) : option (list (list HPACKHeader.t)) :=
  match acts with
  | [] => Some []
  | Resize n :: acts => e ← E.setHeaderTableSize e n; session e d acts
  | Block hs :: acts =>
      '(out, e) ← E.encode e hs 0;
      '(got, r, d) ← D.decodeStreaming d out (zlen out);
      match r with
      | D.onHeadersComplete _ _ _ => rest ← session e d acts; Some (got :: rest)
      | D.onDecodeError _ => None
      end
  end.

Definition blocks (acts : list action) : list (list HPACKHeader.t) :=
  omap (fun a => match a with Block hs => Some hs | Resize _ => None end) acts.

Lemma resize_ok e d n :
  synced e d -> 0 <= n <= D.maxTableSize_ d -> D.maxTableSize_ d < 2 ^ 31 ->
  exists e', E.setHeaderTableSize e n = Some e' /\ synced e' d.
Proof.
  intros [He Hd Hn Hp Hcap Hm Herr Hbuf Hlim] Hr Hmax. unfold E.setHeaderTableSize.
  destruct (Z.eqb_spec n (HeaderTable.capacity_ (E.table_ e))); cbn [negb]; [by eexists|].
  destruct (setCapacity_spec (E.table_ e) n He ltac:(lia)) as (te' & -> & He' & Hee & Hce & Hie).
  cbn [mbind option_bind]. eexists. split; [reflexivity|].
  constructor; unfold E.table_; simpl; try done; try lia; try congruence.
  rewrite Hee. etrans; [apply keep_prefix|done].
Qed.

Lemma session_ok acts : forall e d,
  synced e d -> D.maxTableSize_ d < 2 ^ 31 ->
  Forall (action_ok (D.maxTableSize_ d) (D.maxUncompressed_ d)) acts ->
  session e d acts = Some (blocks acts).
Proof.
  induction acts as [|a acts IH]; intros e d Hsy Hmax Hok; [done|].
  inversion Hok as [|? ? Ha Hok']; subst. destruct a as [n|hs]; cbn [session].
  - destruct (resize_ok e d n Hsy Ha Hmax) as (e' & -> & Hsy'). cbn [mbind option_bind].
    by rewrite (IH e' d Hsy' Hmax Hok').
  - destruct Ha as [Hf Ht].
    destruct (block_ok e d hs Hsy Hf Ht) as (out & e' & d' & n & -> & HD & Hsy' & Hmu & Hmt).
    cbn [mbind option_bind]. rewrite HD. cbn [mbind option_bind].
    by rewrite (IH e' d' Hsy') by (rewrite ?Hmu, ?Hmt; done).
Qed.

Lemma create_synced huffman c m :
  0 <= c < 2 ^ 31 -> 0 <= m <= 2 ^ 25 -> synced (E.create huffman c) (D.create c m).
Proof.
  intros Hc Hm. destruct (create_wf c Hc) as [Hw He].
  destruct (disableNamesIndex_wf _ Hw) as [Hw' He'].
  constructor; unfold E.table_, D.table_; simpl; try done; try lia; by destruct huffman.
Qed.

(** C1. HPACK sessions round-trip. A fresh encoder and a fresh decoder with the
    same table size, connected for any sequence of header blocks and of table size
    changes by the encoder within the decoder's limit: every block is encoded, and
    the decoder delivers exactly its fields, in order, whatever was indexed or
    evicted before, with Huffman coding on or off. The fields have lower-case names,
    as [HPACKHeaderName] stores them, and fit the decoder's limits. *)
Theorem hpack_session_roundtrip huffman c m acts :
  0 <= c < 2 ^ 31 -> 0 <= m <= 2 ^ 25 -> Forall (action_ok c m) acts ->
  session (E.create huffman c) (D.create c m) acts = Some (blocks acts).
Proof.
  intros Hc Hm Ha. apply session_ok; [by apply create_synced|simpl; lia|done].
Qed.

(** ** Codecs *)

(** The fields an [HPACKCodec] sends for [headers]: names are stored in lower
    case. *)
Definition sent (headers : list (list Z * list Z)) : list HPACKHeader.t :=
  (fun h => HPACKHeader.mk (toLowerAscii (fst h)) (snd h)) <$> headers.

Definition header_ok (h : list Z * list Z) : Prop :=
  bytes_ok (fst h) /\ bytes_ok (snd h) /\ 32 + zlen (fst h) + zlen (snd h) < 2 ^ 27.

Lemma prepareHeaders_sent headers : snd (HPACKCodec.prepareHeaders headers) = sent headers.
Proof.
  unfold HPACKCodec.prepareHeaders, sent. cbn [snd]. apply list_fmap_ext. intros i h _.
  by rewrite storeAddress_lower.
Qed.

Lemma toLower_idem n : toLowerAscii (toLowerAscii n) = toLowerAscii n.
Proof.
  unfold toLowerAscii. rewrite <- list_fmap_compose. apply list_fmap_ext. intros i x _.
  unfold compose, toLower_byte.
  destruct (Z.leb_spec 65 x), (Z.leb_spec x 90); simpl;
    repeat match goal with |- context [?a <=? ?b] => destruct (Z.leb_spec a b) end; simpl; lia.
Qed.

Lemma toLower_ok n : bytes_ok n -> bytes_ok (toLowerAscii n).
Proof.
  intros H. apply Forall_fmap. eapply Forall_impl; [exact H|]. intros x Hx. unfold compose, toLower_byte.
  unfold is_u8 in *. destruct (Z.leb_spec 65 x), (Z.leb_spec x 90); simpl; lia.
Qed.

Lemma sent_ok headers : Forall header_ok headers -> Forall field_ok (sent headers).
Proof.
  intros H. apply Forall_fmap. eapply Forall_impl; [exact H|]. intros [n v] (Hn & Hv & Hz).
  unfold compose, field_ok, hsize. simpl in *. split; [apply toLower_idem|].
  split; [by apply toLower_ok|]. split; [done|]. unfold zlen, toLowerAscii in *. by rewrite length_map.
Qed.

Lemma encode_headroom e hs n :
  EB.buf_ (E.streamBuffer_ e) = [] -> E.encode e hs n = E.encode e hs 0.
Proof. intros H. unfold E.encode. by rewrite H, bool_decide_eq_true_2, !andb_false_r. Qed.

(** Two codecs: what [HPACKCodec::encode] returns, another codec whose decoder
    is in step decodes to the same fields with their names in lower case, and both
    sides count the same compressed size; afterwards they are in step again, so
    this holds for every further block. *)
Theorem hpack_codec_roundtrip c c' headers :
  synced (HPACKCodec.encoder_ c) (HPACKCodec.decoder_ c') -> Forall header_ok headers ->
  4 * total (sent headers) <= D.maxUncompressed_ (HPACKCodec.decoder_ c') ->
  exists buf c1 c1' n, HPACKCodec.encode c headers = Some (buf, c1) /\
    HPACKCodec.decodeStreaming c' buf (zlen buf) =
      Some (sent headers, D.onHeadersComplete (zlen buf) (zlen buf) n, c1') /\
    HPACKCodec.compressed (HPACKCodec.encodedSize_ c1) = u32 (zlen buf) /\
    synced (HPACKCodec.encoder_ c1) (HPACKCodec.decoder_ c1').
Proof.
  intros Hsy Hok Hmax. pose proof (prepareHeaders_sent headers) as Hp.
  destruct (block_ok _ _ (sent headers) Hsy (sent_ok _ Hok) Hmax)
    as (out & e' & d' & n & HE & HD & Hsy' & _).
  unfold HPACKCodec.encode, HPACKCodec.decodeStreaming.
  destruct (HPACKCodec.prepareHeaders headers) as [k prepared]. cbn [snd] in Hp. subst prepared.
  rewrite (encode_headroom _ _ _ (s_buf _ _ Hsy)), HE. cbn [mbind option_bind].
  eexists out, _, _, n. split; [reflexivity|]. rewrite HD. cbn [mbind option_bind].
  split; [reflexivity|]. by split.
Qed.

End field.

(** Two requests that share fields, with the table resized in between. *)
Lemma hpack_session_roundtrip_witness :
  session (CH := common_headers) (E.create (CH := common_headers) true 4096) (D.create 4096 131072)
    [Block [HPACKHeader.mk (str ":method") (str "GET"); HPACKHeader.mk (str "x-id") (str "7")];
     Resize 100;
     Block [HPACKHeader.mk (str "x-id") (str "7"); HPACKHeader.mk (str "x-id") (str "8")]] =
  Some [[HPACKHeader.mk (str ":method") (str "GET"); HPACKHeader.mk (str "x-id") (str "7")];
        [HPACKHeader.mk (str "x-id") (str "7"); HPACKHeader.mk (str "x-id") (str "8")]].
Proof.
  apply (hpack_session_roundtrip (CH := common_headers) true 4096 131072).
  - lia.
  - lia.
  - repeat constructor; vm_compute; try reflexivity; try (split; discriminate); discriminate.
Defined.

(** An encoder that shrinks its table to nothing and restores it between two
    blocks: the bytes of the second block, and the entries both sides are left
    with. *)
Definition shrink_and_restore : option (list Z * list HPACKHeader.t * list HPACKHeader.t) :=
  '(b1, e) ← E.encode (CH := common_headers) (E.create (CH := common_headers) true 4096)
               [HPACKHeader.mk (str "x-id") (str "7")] 0;
  '(_, _, d) ← D.decodeStreaming (CH := common_headers) (D.create 4096 131072) b1 (zlen b1);
  e ← E.setHeaderTableSize e 0;
  e ← E.setHeaderTableSize e 4096;
  '(b2, e) ← E.encode (CH := common_headers) e [] 0;
  '(_, _, d) ← D.decodeStreaming (CH := common_headers) d b2 (zlen b2);
  Some (b2, entries (E.table_ e), entries (D.table_ d)).

(** Only the last of several size changes between two blocks is signalled: after
    shrinking the table to 0 and restoring it to 4096 the next block starts with
    the update to 4096 alone, where RFC 7541, 4.2 requires the smallest size to be
    signalled as well, and the decoder keeps an entry the encoder has evicted. *)
Theorem shrink_not_signalled :
  shrink_and_restore = Some ([63; 225; 31], [], [HPACKHeader.mk (str "x-id") (str "7")]).
Proof. vm_compute. reflexivity. Qed.

End Link.
