(* ===== verification/HPACKSafety.v ===== *)
(** * Decoding arbitrary HPACK blocks

    The decoder of [HPACKCodec] on input of an arbitrary peer: every block ends in
    one of the two callbacks, the dynamic table stays within the limit the owner
    has set, and no [CHECK] fails. *)

From stdpp Require Import gmap.
From S2P Require Import Prelude Huffman HPACKBuffers HeaderTable HPACKContext HPACKCodec.

Module Safety.
Import HPACK HPACKHeader HeaderSpec Ring HPACKHeaderName StaticHeaderTable HPACKContext
  ContextSpec DecodeSpec.
Module D := HPACKDecoder.
Module DB := HPACKDecodeBuffer.
Module DS := DecodeSafety.

(** ** The invariant *)

Definition MAX_LITERAL : Z := 2 ^ 25.

Record dwf (d : D.t) : Prop := {
  d_table : wf (D.table_ d);
  d_cap : HeaderTable.capacity_ (D.table_ d) <= D.maxTableSize_ d;
  d_max : D.maxTableSize_ d <= 2 ^ 30;
  d_limit : 0 <= D.maxUncompressed_ d <= MAX_LITERAL }.

Definition same_limits (d d' : D.t) : Prop :=
  D.maxTableSize_ d' = D.maxTableSize_ d /\ D.maxUncompressed_ d' = D.maxUncompressed_ d.

Lemma dwf_set_err d e : dwf d -> dwf (D.set_err d e).
Proof. intros []. by constructor. Qed.

Lemma dwf_table d tbl :
  dwf d -> wf tbl -> HeaderTable.capacity_ tbl <= D.maxTableSize_ d ->
  dwf (D.with_ctx d (with_table (D.ctx d) tbl)).
Proof. intros [? ? ? ?] ? ?. by constructor. Qed.

(** ** Safe handlers

    [hsafe need m lo Q]: from a good decoder without an error and a buffer with
    at least [need] bytes, [m] does not abort; when it returns a value it has
    consumed at least [lo] bytes and [Q] holds; otherwise [err_] is set. *)
Definition hsafe {A} (need : Z) (m : D.handler A) (lo : Z) (Q : A -> Prop) : Prop :=
  forall d b, dwf d -> D.err_ d = NONE -> DS.wf b -> DB.maxLiteralSize_ b <= MAX_LITERAL ->
  need <= DB.remainingBytes_ b ->
  match m (d, b) with
  | Some (Some a, (d', b')) => Q a /\ dwf d' /\ same_limits d d' /\ D.err_ d' = NONE /\
      exists n, lo <= n <= DB.remainingBytes_ b /\ b' = DB.skip b n
  | Some (None, (d', b')) => dwf d' /\ same_limits d d' /\ D.err_ d' <> NONE /\
      exists n, 0 <= n <= DB.remainingBytes_ b /\ b' = DB.skip b n
  | None => False
  end.

Lemma stay b : DS.wf b -> exists n, 0 <= n <= DB.remainingBytes_ b /\ b = DB.skip b n.
Proof.
  intros H. exists 0. rewrite DS.skip_0 by done. destruct H as (_ & ? & _). split; [lia|done].
Qed.

Lemma hsafe_ret {A} need (a : A) (Q : A -> Prop) : Q a -> hsafe need (mret a) 0 Q.
Proof. intros HQ d b Hd He Hb Hm Hn. split_and!; try done. by apply stay. Qed.

Lemma hsafe_fail {A} need lo e (Q : A -> Prop) : e <> NONE -> hsafe need (D.fail e) lo Q.
Proof.
  intros HQ d b Hd He Hb Hm Hn. split_and!; try done; [by apply dwf_set_err|by apply stay].
Qed.

Lemma hsafe_bind {A B} need (m : D.handler A) (k : A -> D.handler B) lo1 lo2 Q R :
  0 <= lo1 -> 0 <= lo2 -> hsafe need m lo1 Q -> (forall a, Q a -> hsafe 0 (k a) lo2 R) ->
  hsafe need (m ≫= k) (lo1 + lo2) R.
Proof.
  intros Hl1 Hl2 Hm Hk d b Hd He Hb HL Hn. specialize (Hm d b Hd He Hb HL Hn).
  unfold mbind, D.handler_bind. destruct (m (d, b)) as [[[a|] [d1 b1]]|]; cbn [mbind option_bind].
  - destruct Hm as (HQ & Hd1 & Hs & He1 & n & Hn1 & ->).
    pose proof (DS.wf_skip b n Hb ltac:(lia)) as Hb1.
    pose proof (DS.remaining_skip b n Hb ltac:(lia)) as Hr.
    specialize (Hk a HQ d1 (DB.skip b n) Hd1 He1 Hb1 HL ltac:(lia)). rewrite Hr in Hk.
    destruct (k a (d1, DB.skip b n)) as [[[c|] [d2 b2]]|]; [| |done].
    + destruct Hk as (HR & ? & Hs2 & ? & n' & Hn' & ->). split_and!; try done.
      * unfold same_limits in *. intuition congruence.
      * exists (n + n'). rewrite skip_skip by lia. split; [lia|done].
    + destruct Hk as (? & Hs2 & ? & n' & Hn' & ->). split_and!; try done.
      * unfold same_limits in *. intuition congruence.
      * exists (n + n'). rewrite skip_skip by lia. split; [lia|done].
  - done.
  - done.
Qed.

Lemma hsafe_weaken {A} lo lo' need (m : D.handler A) Q :
  lo' <= lo -> hsafe need m lo Q -> hsafe need m lo' Q.
Proof.
  intros Hl Hm d b Hd He Hb HL Hn. specialize (Hm d b Hd He Hb HL Hn).
  destruct (m (d, b)) as [[[a|] [d1 b1]]|]; [|done..].
  destruct Hm as (? & ? & ? & ? & n & ? & ?). split_and!; try done. exists n. split; [lia|done].
Qed.

(** A decoding function of the buffer. *)
Lemma hsafe_decode {A} need (m : DB.decoder A) lo Q :
  DS.safe MAX_LITERAL m lo Q -> hsafe need (D.decode m) lo Q.
Proof.
  intros Hm d b Hd He Hb HL Hn. specialize (Hm b Hb HL). unfold D.decode.
  destruct (m b) as [a b'|e b'|]; [| |done].
  - destruct Hm as (HQ & Hx). split_and!; try done. by apply dwf_set_err.
  - destruct Hm as (Hne & Hx). split_and!; try done. by apply dwf_set_err.
Qed.

Lemma hsafe_peek {A} (k : Z -> D.handler A) lo Q :
  (forall x, hsafe 1 (k x) lo Q) -> hsafe 1 (D.buffer_op DB.peek ≫= k) lo Q.
Proof.
  intros Hk d b Hd He Hb HL Hn. destruct (DS.safe_peek b Hb ltac:(lia)) as (x & Hp & _).
  unfold mbind, D.handler_bind, D.buffer_op. rewrite Hp. cbn [mbind option_bind]. by apply Hk.
Qed.

Lemma hsafe_next : hsafe 1 (D.buffer_op DB.next) 1 (fun _ => True).
Proof.
  intros d b Hd He Hb HL Hn. destruct (DS.wf_cons b Hb ltac:(lia)) as (x & l & Hc & _ & Hh).
  unfold D.buffer_op. rewrite (next_cons b x [] l Hh). split_and!; try done.
  exists 1. split; [lia|done].
Qed.

(** ** Reading an index *)

Lemma elem_hsize h es : h ∈ es -> hsize h <= total es.
Proof.
  induction es as [|x es IH]; intros Hin; [by apply elem_of_nil in Hin|].
  apply elem_of_cons in Hin as [->|Hin]; cbn [total foldr].
  - pose proof (total_nonneg es). fold (total es). lia.
  - specialize (IH Hin). pose proof (hsize_min x). fold (total es). lia.
Qed.

Lemma static_hsize h : h ∈ fields s_tableEntries -> hsize h <= 2 ^ 30.
Proof.
  intros H. apply elem_hsize in H. etrans; [exact H|]. by vm_compute.
Qed.

(** [isValid] and [getHeader] agree on the index, which both truncate. *)
Lemma valid_field d i :
  wf (D.table_ d) -> D.isValid d i = true ->
  exists h, field_at (entries (D.table_ d)) (u32 i) = Some h.
Proof.
  intros Hw. pose proof (u32_range i) as Hi.
  unfold D.isValid, isStatic, globalToStaticIndex, globalToDynamicIndex, HeaderTable.isValid, field_at.
  rewrite static_size. unfold kEntriesSize. set (j := u32 i) in *.
  destruct (Z.leb_spec j 61); intros Hv; apply andb_true_iff in Hv as [H0 H1];
    apply Z.ltb_lt in H0.
  - rewrite (proj2 (Z.leb_le 1 j)) by lia. cbn [andb].
    apply lookup_lt_is_Some. change (length (fields s_tableEntries)) with 61%nat. lia.
  - apply Z.leb_le in H1. rewrite andb_false_r, (proj2 (Z.ltb_lt 61 j)) by lia. apply lookup_lt_is_Some.
    rewrite u32_id in H1 by (unfold_ints; lia).
    pose proof (length_entries _ Hw) as Hl. unfold zlen in Hl. lia.
Qed.

Lemma field_hsize d i h :
  dwf d -> field_at (entries (D.table_ d)) i = Some h -> hsize h <= 2 ^ 30.
Proof.
  intros [Hw Hc Hm _] Hf. unfold field_at in Hf. destruct (_ && _).
  - apply static_hsize. by eapply list_elem_of_lookup_2.
  - destruct (_ <? _); [|done]. apply list_elem_of_lookup_2, elem_hsize in Hf.
    rewrite <- (wf_bytes _ Hw) in Hf. pose proof (wf_le _ Hw). lia.
Qed.

Lemma hsafe_index {A} need i (k : HPACKHeader.t -> D.handler A) lo Q :
  0 <= lo -> (forall h, hsize h <= 2 ^ 30 -> hsafe need (k h) lo Q) ->
  hsafe need (D.check_index i ;; h ← D.decoder_op (fun d => D.getHeader d i); k h) lo Q.
Proof.
  intros Hlo Hk d b Hd He Hb HL Hn. unfold mbind at 1, D.handler_bind at 1, D.check_index.
  destruct (D.isValid d i) eqn:Hv; cbn [mbind option_bind].
  - destruct (valid_field d i (d_table d Hd) Hv) as [h Hf].
    pose proof (getHeader_field (D.ctx d) (u32 i) (d_table d Hd) (u32_range i)) as Hg.
    fold (D.table_ d) in Hg. rewrite Hf in Hg.
    unfold mbind at 1, D.handler_bind at 1, D.decoder_op, D.getHeader.
    destruct (HPACKContext.getHeader (D.ctx d) (u32 i)) as [[h' c]|] eqn:HG; [|done].
    cbn [fmap option_fmap option_map fst] in Hg. apply (inj Some) in Hg. subst h'.
    cbn [mbind option_bind].
    assert (Hc : HPACKContext.table_ c = D.table_ d).
    { unfold HPACKContext.getHeader in HG. destruct (isStatic (u32 i)).
      - destruct (HeaderTable.getHeader staticTable _); [|done].
        cbn [mbind option_bind] in HG. apply (inj Some) in HG. by inversion HG.
      - destruct (HeaderTable.getHeader (HPACKContext.table_ (D.ctx d)) _); [|done].
        cbn [mbind option_bind] in HG. apply (inj Some) in HG. by inversion HG. }
    apply (Hk h (field_hsize d _ h Hd Hf) (D.with_ctx d c) b); try done.
    destruct Hd. by constructor; unfold D.table_; simpl; rewrite ?Hc.
  - split_and!; try done; [by apply dwf_set_err|by apply stay].
Qed.

(** ** The handlers *)

(** What a handler emits: its size is that of the field. *)
Definition emitted_ok (r : Z * option HPACKHeader.t) : Prop :=
  match r with
  | (n, Some h) => hsize h < 2 ^ 31 /\ n = zlen (name h) + zlen (value h)
  | (n, None) => n = 0
  end.

Lemma emit_ok h : hsize h < 2 ^ 31 -> emitted_ok (D.emit h).
Proof. intros H. split; [done|]. by apply realBytes_exact. Qed.

Lemma safe_update : hsafe 1 D.handleTableSizeUpdate 1 emitted_ok.
Proof.
  unfold D.handleTableSizeUpdate.
  apply (hsafe_bind _ _ _ 1 0 (fun v => 0 <= v < UINT64_MAX)); [lia|lia| |].
  { apply hsafe_decode, DS.safe_decodeInteger. cbn. lia. }
  intros arg Harg d b Hd He Hb HL Hn. unfold D.update_capacity. rewrite Z.gtb_ltb.
  destruct (Z.ltb_spec (D.maxTableSize_ d) arg).
  { split_and!; try done; [by apply dwf_set_err|by apply stay]. }
  pose proof (d_max d Hd). rewrite u32_id by (unfold_ints; lia).
  destruct (setCapacity_spec (D.table_ d) arg (d_table d Hd) ltac:(lia))
    as (tbl & -> & Hw & _ & Hc & _). cbn [mbind option_bind].
  split_and!; try done; [|by apply stay]. apply dwf_table; [done..|lia].
Qed.

Lemma safe_indexed : hsafe 1 D.decodeIndexedHeader 1 emitted_ok.
Proof.
  unfold D.decodeIndexedHeader.
  apply (hsafe_bind _ _ _ 1 0 (fun v => 0 <= v < UINT64_MAX)); [lia|lia| |].
  { apply hsafe_decode, DS.safe_decodeInteger. cbn. lia. }
  intros i Hi. destruct (i =? 0); [by apply hsafe_fail|].
  apply hsafe_index; [lia|]. intros h Hh. apply hsafe_ret, emit_ok. lia.
Qed.

Lemma safe_add h : hsize h < 2 ^ 31 -> hsafe 0 (D.decoder_op (D.add_checked h)) 0 (fun _ => True).
Proof.
  intros Hh d b Hd He Hb HL Hn. unfold D.decoder_op, D.add_checked.
  destruct (add_spec (D.table_ d) h (d_table d Hd) Hh) as (tbl & -> & Hw & _ & Hc & _).
  cbn [mbind option_bind]. rewrite (bytes_exact h Hh), Hc, Z.gtb_ltb.
  replace ((_ <=? _) || _) with true
    by (destruct (Z.leb_spec (hsize h) (HeaderTable.capacity_ (D.table_ d))),
          (Z.ltb_spec (HeaderTable.capacity_ (D.table_ d)) (hsize h)); (done || lia)).
  cbn [mbind option_bind]. split_and!; try done; [|by apply stay].
  apply dwf_table; [done..|]. rewrite Hc. apply (d_cap d Hd).
Qed.

Section decoder.
Context `{CH : CommonHeaders}.

Lemma storeAddress_length n : zlen (storeAddress n) = zlen n.
Proof. rewrite storeAddress_lower. unfold zlen, toLowerAscii. by rewrite length_map. Qed.

Lemma safe_literal_value indexing n :
  zlen n <= 2 ^ 30 ->
  hsafe 0 (value ← D.decode DB.decodeLiteral;
    let header := HPACKHeader.mk n value in
    let emittedSize := D.emit header in
    if (indexing : bool) then D.decoder_op (D.add_checked header) ;; mret emittedSize
    else mret emittedSize) 1 emitted_ok.
Proof.
  intros Hz. apply (hsafe_bind _ _ _ 1 0 (fun v => zlen v <= 16 * MAX_LITERAL + 4)); [lia|lia| |].
  { apply hsafe_decode. apply DS.safe_decodeLiteral. lia. }
  intros v Hv.
  assert (Hh : hsize (HPACKHeader.mk n v) < 2 ^ 31).
  { unfold hsize, MAX_LITERAL in *. simpl. lia. }
  destruct indexing; [|by apply hsafe_ret, emit_ok].
  apply (hsafe_bind _ _ _ 0 0 (fun _ => True)); [lia|lia|by apply safe_add|].
  intros _ _. by apply hsafe_ret, emit_ok.
Qed.

Lemma safe_literal : hsafe 1 D.decodeLiteralHeader 1 emitted_ok.
Proof.
  unfold D.decodeLiteralHeader. apply hsafe_peek. intros byte. cbv zeta.
  generalize (truth (Z.land byte (code LITERAL_INC_INDEX))) as indexing. intros indexing.
  apply (hsafe_weaken 2); [lia|].
  apply (hsafe_bind _ _ _ 1 1 (fun n => zlen n <= 2 ^ 30)); [lia|lia| |intros n Hn; by apply safe_literal_value].
  destruct (truth (Z.land byte (if indexing then 0x3F else 0x0F))).
  - apply (hsafe_bind _ _ _ 1 0 (fun v => 0 <= v < UINT64_MAX)); [lia|lia| |].
    { apply hsafe_decode, DS.safe_decodeInteger. destruct indexing; cbn; lia. }
    intros i Hi. apply hsafe_index; [lia|]. intros h Hh. apply hsafe_ret.
    unfold hsize, zlen in *. lia.
  - apply (hsafe_weaken 2); [lia|]. apply (hsafe_bind _ _ _ 1 1 (fun _ => True)); [lia|lia|apply hsafe_next|].
    intros _ _. apply (hsafe_bind _ _ _ 1 0 (fun v => zlen v <= 16 * MAX_LITERAL + 4)); [lia|lia| |].
    { apply hsafe_decode. apply DS.safe_decodeLiteral. lia. }
    intros n Hn. apply hsafe_ret. rewrite storeAddress_length. unfold MAX_LITERAL in *. lia.
Qed.

Lemma safe_header : hsafe 1 D.decodeHeader 1 emitted_ok.
Proof.
  unfold D.decodeHeader. apply hsafe_peek. intros byte.
  destruct (truth _); [apply safe_indexed|]. destruct (truth _); [apply safe_literal|].
  destruct (truth _); [apply safe_update|apply safe_literal].
Qed.

(** ** The loop *)

(** The bytes of the fields handed to the callback. *)
Definition field_bytes (hs : list HPACKHeader.t) : Z :=
  foldr (fun h n => zlen (name h) + zlen (value h) + n) 0 hs.

Lemma field_bytes_app hs hs' : field_bytes (hs ++ hs') = field_bytes hs + field_bytes hs'.
Proof. induction hs as [|h hs IH]; [done|]. simpl. lia. Qed.

Lemma emitted_bytes r :
  emitted_ok r ->
  field_bytes (D.emitted_header (Some r)) = D.emitted_size (Some r) /\
  0 <= D.emitted_size (Some r) < 2 ^ 31.
Proof.
  destruct r as [n [h|]]; cbn.
  - intros [Hh ->]. unfold hsize, zlen in *. lia.
  - intros ->. lia.
Qed.

(** What holds of the loop's variables at every test. *)
Definition loop_inv (d : D.t) (emitted : Z) (out : list HPACKHeader.t) : Prop :=
  0 <= emitted <= D.maxUncompressed_ d + 2 /\
  field_bytes out <= emitted /\ field_bytes out <= D.maxUncompressed_ d.

(** One call of [decodeHeader], with or without an error. *)
Lemma header_round d b :
  dwf d -> D.err_ d = NONE -> DS.wf b -> DB.maxLiteralSize_ b <= MAX_LITERAL ->
  1 <= DB.remainingBytes_ b ->
  exists r d1 n, D.decodeHeader (d, b) = Some (r, (d1, DB.skip b n)) /\
    dwf d1 /\ same_limits d d1 /\ 0 <= n <= DB.remainingBytes_ b /\
    (D.err_ d1 = NONE -> 1 <= n) /\
    field_bytes (D.emitted_header r) = D.emitted_size r /\ 0 <= D.emitted_size r < 2 ^ 31.
Proof.
  intros Hd He Hb HL Hr. pose proof (safe_header d b Hd He Hb HL Hr) as HS.
  destruct (D.decodeHeader (d, b)) as [[[r|] [d1 b1]]|]; [| |done].
  - destruct HS as (Hr1 & Hd1 & Hsl & He1 & n & Hn & ->). exists (Some r), d1, n.
    pose proof (emitted_bytes r Hr1). split_and!; try done; lia.
  - destruct HS as (Hd1 & Hsl & He1 & n & Hn & ->). by exists None, d1, n.
Qed.

Lemma loop_total fuel : forall d b emitted out,
  dwf d -> DS.wf b -> DB.maxLiteralSize_ b <= MAX_LITERAL -> loop_inv d emitted out ->
  (D.err_ d <> NONE \/ (Z.to_nat (DB.remainingBytes_ b) < fuel)%nat) ->
  exists out' emitted' d' n,
    D.decode_loop fuel d b emitted out = Some (out', emitted', d', DB.skip b n) /\
    dwf d' /\ same_limits d d' /\ 0 <= n <= DB.remainingBytes_ b /\
    (D.err_ d' = NONE -> D.err_ d = NONE /\ n = DB.remainingBytes_ b /\ loop_inv d' emitted' out').
Proof.
  induction fuel as [|fuel IH]; intros d b emitted out Hd Hb HL Hi Hf;
    assert (Hstop : D.err_ d <> NONE \/ DB.remainingBytes_ b = 0 ->
      exists out' emitted' d' n, Some (out, emitted, d, b) = Some (out', emitted', d', DB.skip b n) /\
        dwf d' /\ same_limits d d' /\ 0 <= n <= DB.remainingBytes_ b /\
        (D.err_ d' = NONE ->
         D.err_ d = NONE /\ n = DB.remainingBytes_ b /\ loop_inv d' emitted' out'))
      by (intros Hst; exists out, emitted, d, 0; rewrite DS.skip_0 by done; destruct Hb as (_ & ? & _);
          split_and!; try done; try lia; intros ?; destruct Hst; done);
    cbn [D.decode_loop]; unfold D.hasError; destruct (decide (D.err_ d = NONE)) as [He|He];
    rewrite ?(bool_decide_eq_true_2 _ He), ?(bool_decide_eq_false_2 _ He); cbn [negb andb];
    try (apply Hstop; by left);
    unfold DB.empty; destruct (Z.eqb_spec (DB.remainingBytes_ b) 0) as [Hem|Hem]; cbn [negb];
    try (apply Hstop; by right).
  { destruct Hf; [done|lia]. }
  pose proof Hb as (_ & Hr & _). destruct Hi as (Hi1 & Hi2 & Hi3).
  destruct (header_round d b Hd He Hb HL ltac:(lia))
    as (r & d1 & n & -> & Hd1 & [Hsl1 Hsl2] & Hn & Hn1 & Hfb & Hsz). cbn [mbind option_bind].
  pose proof (d_limit d Hd) as Hlim. unfold MAX_LITERAL in Hlim.
  rewrite (u32_id (emitted + _)), Z.gtb_ltb by (unfold_ints; lia).
  destruct (Z.ltb_spec (D.maxUncompressed_ d1) (emitted + D.emitted_size r)).
  { eexists _, _, _, n. split; [reflexivity|]. split_and!; try done; try lia. by apply dwf_set_err. }
  pose proof (DS.remaining_skip b n Hb ltac:(lia)) as Hrem. rewrite u32_id by (unfold_ints; lia).
  destruct (IH d1 (DB.skip b n) (emitted + D.emitted_size r + 2) (out ++ D.emitted_header r))
    as (out' & em' & d' & n' & HE & Hd' & [? ?] & Hn' & Hfin); try done.
  - apply DS.wf_skip; [done|lia].
  - unfold loop_inv. rewrite field_bytes_app, Hfb. lia.
  - destruct (decide (D.err_ d1 = NONE)) as [E|E]; [right|by left]. specialize (Hn1 E).
    rewrite Hrem. destruct Hf; [done|lia].
  - exists out', em', d', (n + n'). rewrite HE, skip_skip by lia. rewrite Hrem in *.
    split_and!; try done; try lia; try congruence; [split; congruence|].
    intros Hne. destruct (Hfin Hne) as (_ & -> & Hi'). split_and!; try done. lia.
Qed.

(** ** Blocks and limits *)

(** One block from a good state. *)
Lemma decode_block d cursor totalBytes :
  dwf d -> bytes_ok cursor -> 0 <= totalBytes <= zlen cursor -> is_u32 totalBytes ->
  exists out r d', D.decodeStreaming d cursor totalBytes = Some (out, r, d') /\
    dwf d' /\ same_limits d d' /\
    match r with
    | D.onHeadersComplete c cb u =>
        D.err_ d' = NONE /\ c = totalBytes /\ cb = totalBytes /\
        field_bytes out <= u <= D.maxUncompressed_ d + 2 /\ field_bytes out <= D.maxUncompressed_ d
    | D.onDecodeError e => e = D.err_ d' /\ e <> NONE
    end.
Proof.
  intros Hd Hc Ht Hu. pose proof (d_limit d Hd) as Hlim. unfold D.decodeStreaming.
  rewrite (u32_id (D.maxUncompressed_ d)) by (unfold MAX_LITERAL in *; unfold_ints; lia).
  set (b := D.DB.create cursor totalBytes (D.maxUncompressed_ d)).
  destruct (loop_total (S (Z.to_nat totalBytes)) d b 0 [])
    as (out & em & d' & n & HL & Hd' & [Hs1 Hs2] & Hn & Hfin).
  - done.
  - done.
  - simpl. lia.
  - unfold loop_inv. simpl. lia.
  - right. simpl. lia.
  - rewrite HL. cbn [mbind option_bind]. eexists out, _, d'. split; [reflexivity|].
    split; [done|]. split; [done|]. unfold D.completeDecode, D.hasError.
    destruct (decide (D.err_ d' = NONE)) as [He|He].
    + rewrite (bool_decide_eq_true_2 _ He). cbn [negb]. destruct (Hfin He) as (_ & -> & Hi).
      assert (Hcb : DB.consumedBytes (DB.skip b (DB.remainingBytes_ b)) = totalBytes).
      { unfold DB.consumedBytes, DB.skip, b. simpl. rewrite Z.sub_diag. change (u32 0) with 0.
        by rewrite Z.sub_0_r, u32_id. }
      unfold D.DB.consumedBytes in *. rewrite Hcb. unfold loop_inv in Hi. rewrite Hs2 in Hi. split_and!; lia || done.
    + by rewrite (bool_decide_eq_false_2 _ He).
Qed.

Lemma limit_total d n :
  dwf d -> 0 <= n <= 2 ^ 30 -> exists d', D.setHeaderTableMaxSize d n = Some d' /\ dwf d' /\
    D.maxTableSize_ d' = n.
Proof.
  intros [Hw Hc Hm Hl] Hn. unfold D.setHeaderTableMaxSize. cbv zeta. unfold D.table_ in *. cbn [D.ctx].
  destruct (Z.ltb_spec n (HeaderTable.capacity_ (HPACKContext.table_ (D.ctx d)))).
  - destruct (setCapacity_spec _ n Hw ltac:(lia)) as (tbl & -> & Hw' & _ & Hc' & _).
    cbn [mbind option_bind]. eexists. split; [reflexivity|]. split; [|done].
    constructor; unfold D.table_; simpl; (done || lia).
  - eexists. split; [reflexivity|]. split; [|done]. constructor; unfold D.table_; simpl; (done || lia).
Qed.

(** The states a decoder goes through: creation, blocks of arbitrary bytes, and
    the limits its owner sets. *)
Inductive reachable : D.t -> Prop :=
| reach_create c m : 0 <= c <= 2 ^ 30 -> 0 <= m <= MAX_LITERAL -> reachable (D.create c m)
| reach_block d cursor totalBytes out r d' :
    reachable d -> bytes_ok cursor -> 0 <= totalBytes <= zlen cursor -> is_u32 totalBytes ->
    D.decodeStreaming d cursor totalBytes = Some (out, r, d') -> reachable d'
| reach_limit d n d' :
    reachable d -> 0 <= n <= 2 ^ 30 -> D.setHeaderTableMaxSize d n = Some d' -> reachable d'
| reach_uncompressed d m :
    reachable d -> 0 <= m <= MAX_LITERAL -> reachable (D.setMaxUncompressed d m).

Lemma reachable_dwf d : reachable d -> dwf d.
Proof.
  induction 1 as [c m Hc Hm|d cur n out r d' _ IH Hb Hn Hu HD|d n d' _ IH Hn HS|d m _ IH Hm].
  - destruct (create_wf c ltac:(lia)) as [Hw _]. destruct (disableNamesIndex_wf _ Hw) as [Hw' _].
    constructor; unfold D.table_; simpl; (done || lia).
  - destruct (decode_block d cur n IH Hb Hn Hu) as (? & ? & ? & HE & ? & _). rewrite HD in HE.
    by inversion HE; subst.
  - destruct (limit_total d n IH Hn) as (? & HE & ? & _). rewrite HS in HE. by inversion HE; subst.
  - destruct IH. by constructor.
Qed.

(** C15. Decoding is total on arbitrary input. In every state a decoder reaches,
    through blocks of arbitrary bytes and changes of its limits: the dynamic
    table's byte count is the RFC 7541 size of its entries and within the capacity,
    which is within the limit last set; a new limit is accepted; and any further
    block makes [decodeStreaming] return (no [CHECK] fails, no read is out of
    bounds, the loop ends), with [onHeadersComplete] exactly when no error is
    recorded, after consuming the whole block and delivering fields of at most
    [maxUncompressed_] bytes in all, and with [onDecodeError] of a proper error
    code otherwise. *)
Theorem hpack_decode_total d :
  reachable d ->
  (HeaderTable.bytes_ (D.table_ d) = total (entries (D.table_ d)) /\
   HeaderTable.bytes_ (D.table_ d) <= HeaderTable.capacity_ (D.table_ d) <= D.maxTableSize_ d) /\
  (forall n, 0 <= n <= 2 ^ 30 ->
     exists d', D.setHeaderTableMaxSize d n = Some d' /\ HeaderTable.capacity_ (D.table_ d') <= n) /\
  (forall cursor totalBytes,
     bytes_ok cursor -> 0 <= totalBytes <= zlen cursor -> is_u32 totalBytes ->
     exists out r d', D.decodeStreaming d cursor totalBytes = Some (out, r, d') /\
       match r with
       | D.onHeadersComplete c cb u =>
           D.err_ d' = NONE /\ c = totalBytes /\ cb = totalBytes /\
           field_bytes out <= u <= D.maxUncompressed_ d + 2 /\
           field_bytes out <= D.maxUncompressed_ d
       | D.onDecodeError e => e = D.err_ d' /\ e <> NONE
       end).
Proof.
  intros Hr. pose proof (reachable_dwf d Hr) as Hd. split_and!.
  - apply (wf_bytes _ (d_table d Hd)).
  - apply (wf_le _ (d_table d Hd)).
  - apply (d_cap d Hd).
  - intros n Hn. destruct (limit_total d n Hd Hn) as (d' & HS & Hd' & Hm). exists d'.
    split; [done|]. rewrite <- Hm. apply (d_cap d' Hd').
  - intros cursor n Hb Hn Hu. destruct (decode_block d cursor n Hd Hb Hn Hu) as (out & r & d' & HD & _ & _ & HR).
    by exists out, r, d'.
Qed.

End decoder.

(** A fresh decoder on a block with an unknown index, then on any block. *)
Lemma hpack_decode_total_witness :
  reachable (CH := common_headers) (D.create 4096 131072) /\
  exists out r d', D.decodeStreaming (CH := common_headers) (D.create 4096 131072) [0x82; 0xff; 0x00] 3
    = Some (out, r, d').
Proof.
  assert (H : reachable (CH := common_headers) (D.create 4096 131072)).
  { apply reach_create; [lia|unfold MAX_LITERAL; lia]. }
  split; [exact H|].
  destruct (hpack_decode_total (CH := common_headers) _ H) as (_ & _ & HD).
  destruct (HD [0x82; 0xff; 0x00] 3) as (out & r & d' & HE & _).
  - repeat constructor; unfold is_u8; lia.
  - vm_compute. split; discriminate.
  - unfold_ints. lia.
  - exists out, r, d'. exact HE.
Defined.

(** An indexed field with index 2^32 + 2. *)
Definition long_index : list Z := [0xff; 0x83; 0xff; 0xff; 0xff; 0x0f].

(** The 64-bit index of an indexed field is truncated to 32 bits before it is
    checked and looked up: index 2^32 + 2, which no table holds, is accepted as
    index 2 and delivers ":method: GET" instead of an [INVALID_INDEX] error. *)
Theorem hpack_index_truncated :
  HPACKDecodeBuffer.decodeInteger 7
    (HPACKDecodeBuffer.create long_index 6 131072) =
    HPACKDecodeBuffer.DOk (2 ^ 32 + 2) (HPACKDecodeBuffer.mk [] 6 0 131072) /\
  exists d', HPACKDecoder.decodeStreaming (CH := common_headers) (HPACKDecoder.create 4096 131072)
    long_index 6 =
  Some ([HPACKHeader.mk (str ":method") (str "GET")], HPACKDecoder.onHeadersComplete 6 6 12, d').
Proof. split; [vm_compute; reflexivity|]. eexists. vm_compute. reflexivity. Qed.

End Safety.
