(* ===== verification/QPACKHeaderTable.v ===== *)
(** * The QPACK dynamic table
    ([src/proxygen/proxygen/lib/http/codec/compress/QPACKHeaderTable.cpp], [.h])

    [QPACKHeaderTable] extends the ring of [HeaderTable.v] for header blocks that
    are decoded out of order (RFC 9204).  An entry keeps its absolute index, the
    number of insertions up to and including it, for life.  The encoder's table
    tracks references: an entry that an unacknowledged header block uses
    ([minInUseIndex_] and above) or whose insertion has not been acknowledged
    ([ackedInsertCount_]) must not be evicted, so an insertion may be refused.  To
    keep that from happening, the oldest entries are drained: [minUsable_] moves
    past them, so that no new block refers to them, until [minFree_] bytes are free
    or draining ([drainedBytes_]).

    [removeLast], [evict], [add] and [setCapacity] override virtual functions that
    the base class calls; [base_evict], [base_add] and [base_setCapacity] are the
    base class's bodies with those calls dispatched to the overriders. *)

From stdpp Require Import gmap.
From S2P Require Import Prelude HeaderTable.

Module QPACKHeaderTable.
Import HPACKHeader.

(** The index of an entry that exists but is not acknowledged. *)
Definition UNACKED : Z := UINT32_MAX.

Definition kMinFreeSlice : Z := 8.
Definition kMinMinFree : Z := 48.
Definition kMaxMinFree : Z := 512.

Definition getMinFree (tableSize : Z) : Z :=
  Z.min (Z.max (tableSize / kMinFreeSlice) kMinMinFree) kMaxMinFree.

(** The base class and the members of the derived one. *)
Record t := mk {
  table : HeaderTable.t; drainedBytes_ : Z; minUsable_ : Z; ackedInsertCount_ : Z;
  minFree_ : Z; trackReferences_ : bool; minInUseIndex_ : Z }.

Definition with_table (s : t) (b : HeaderTable.t) : t :=
  mk b (drainedBytes_ s) (minUsable_ s) (ackedInsertCount_ s) (minFree_ s)
    (trackReferences_ s) (minInUseIndex_ s).
Definition with_draining (s : t) (drained usable : Z) : t :=
  mk (table s) drained usable (ackedInsertCount_ s) (minFree_ s)
    (trackReferences_ s) (minInUseIndex_ s).
Definition with_acked (s : t) (n : Z) : t :=
  mk (table s) (drainedBytes_ s) (minUsable_ s) n (minFree_ s)
    (trackReferences_ s) (minInUseIndex_ s).
Definition setMinFreeForTesting (s : t) (n : Z) : t :=
  mk (table s) (drainedBytes_ s) (minUsable_ s) (ackedInsertCount_ s) n
    (trackReferences_ s) (minInUseIndex_ s).
Definition setMinInUseIndex (s : t) (n : Z) : t :=
  mk (table s) (drainedBytes_ s) (minUsable_ s) (ackedInsertCount_ s) (minFree_ s)
    (trackReferences_ s) n.

Abbreviation capacity_ s := (HeaderTable.capacity_ (table s)).
Abbreviation bytes_ s := (HeaderTable.bytes_ (table s)).
Abbreviation size_ s := (HeaderTable.size_ (table s)).
Abbreviation insertCount_ s := (HeaderTable.insertCount_ (table s)).

Definition create (capacityVal : Z) (trackReferences : bool) : t :=
  if trackReferences then
    mk (HeaderTable.create capacityVal) 0 1 0 (getMinFree capacityVal) true UINT32_MAX
  else mk (HeaderTable.disableNamesIndex (HeaderTable.create capacityVal)) 0 1 0 0 false UINT32_MAX.

(** ** Indices *)

Definition relativeToAbsolute (s : t) (relativeIndex : Z) : Z :=
  u32 (insertCount_ s - relativeIndex + 1).

(** [CHECK_LE(absIndex, insertCount_)]. *)
Definition absoluteToRelative (s : t) (absIndex : Z) : option Z :=
  if absIndex <=? insertCount_ s then Some (u32 (insertCount_ s - absIndex + 1)) else None.

Definition internalToAbsolute (s : t) (internalIndex : Z) : option Z :=
  e ← HeaderTable.toExternal (table s) internalIndex; Some (relativeToAbsolute s e).

Definition toInternal (s : t) (externalIndex base : Z) : option Z :=
  e ← (if base >? 0 then absoluteToRelative s (u32 (base - externalIndex + 1))
       else Some externalIndex);
  HeaderTable.toInternal (table s) e.

Definition absoluteToInternal (s : t) (absoluteIndex : Z) : option Z :=
  r ← absoluteToRelative s absoluteIndex; toInternal s r 0.

(** The [int64_t] index is converted to [uint32_t] by the call. *)
Definition isValid (s : t) (index base : Z) : bool :=
  let testIndex := if base >? 0 then index - (base - insertCount_ s) else index in
  HeaderTable.isValid (table s) (u32 testIndex).

Definition getHeader (s : t) (index base : Z) : option HPACKHeader.t :=
  if isValid s index base then i ← toInternal s index base; HeaderTable.slot (table s) i
  else None.

Definition isVulnerable (s : t) (absIndex : Z) : bool := absIndex >? ackedInsertCount_ s.

Definition isDraining (s : t) (relativeIndex : Z) : bool :=
  relativeToAbsolute s relativeIndex <? minUsable_ s.

(** ** Eviction *)

Definition removeLast (s : t) : option (Z * t) :=
  idx ← HeaderTable.tail (table s);
  a ← (if trackReferences_ s then internalToAbsolute s idx else Some 0);
  if trackReferences_ s && negb (a <? minInUseIndex_ s) then None
  else
    '(removedBytes, b) ← HeaderTable.removeLast (table s);
    let s := with_table s b in
    if drainedBytes_ s >? 0 then
      if drainedBytes_ s >=? removedBytes
      then Some (removedBytes,
                 with_draining s (u32 (drainedBytes_ s - removedBytes)) (minUsable_ s))
      else None
    else if size_ s >? 0 then
      i ← HeaderTable.tail (table s);
      m ← internalToAbsolute s i;
      Some (removedBytes, with_draining s (drainedBytes_ s) m)
    else Some (removedBytes, with_draining s (drainedBytes_ s) (u32 (insertCount_ s + 1))).

(** [while (nChecked++ < size() && ...)]: the argument counts the checks left. *)
Fixpoint canEvict_loop (checks : nat) (s : t) (needed i freeable : Z) : option Z :=
  match checks with
  | O => Some freeable
  | S checks' =>
      if freeable <? needed then
        a ← internalToAbsolute s i;
        if (a <? minInUseIndex_ s) && (a <=? ackedInsertCount_ s) then
          h ← HeaderTable.slot (table s) i;
          i ← HeaderTable.next (table s) i;
          canEvict_loop checks' s needed i (u32 (freeable + HPACKHeader.bytes h))
        else Some freeable
      else Some freeable
  end.

Definition canEvict (s : t) (needed : Z) : option bool :=
  if (size_ s =? 0) || negb (trackReferences_ s) then Some (needed <=? capacity_ s)
  else
    i ← HeaderTable.tail (table s);
    freeable ← canEvict_loop (Z.to_nat (size_ s)) s needed i 0;
    Some (negb (freeable <? needed)).

Fixpoint base_evict_loop (fuel : nat) (s : t) (needed desiredCapacity : Z) : option t :=
  if (size_ s >? 0) && (u32 (bytes_ s + needed) >? desiredCapacity) then
    match fuel with
    | O => None
    | S fuel' => '(_, s) ← removeLast s; base_evict_loop fuel' s needed desiredCapacity
    end
  else Some s.

Definition base_evict (s : t) (needed desiredCapacity : Z) : option (Z * t) :=
  let previousSize := size_ s in
  s ← base_evict_loop (Z.to_nat (size_ s)) s needed desiredCapacity;
  Some (u32 (previousSize - size_ s), s).

Definition evict (s : t) (needed desiredCapacity : Z) : option (Z * t) :=
  if u32 (bytes_ s + needed) <? desiredCapacity then Some (0, s)
  else
    ok ← canEvict s (u32 (bytes_ s + needed - desiredCapacity));
    if (ok : bool) then base_evict s needed desiredCapacity else Some (0, s).

(** ** Insertion *)

Definition base_add_sized (s : t) (header : HPACKHeader.t) : option (bool * t) :=
  '(r, b) ← HeaderTable.add_sized (table s) header; Some (r, with_table s b).

Definition base_add (s : t) (header : HPACKHeader.t) : option (bool * t) :=
  if HPACKHeader.bytes header >? capacity_ s
  then Some (false, with_table s (HeaderTable.reset (table s)))
  else if u32 (bytes_ s + HPACKHeader.bytes header) >? capacity_ s then
    '(evicted, s) ← evict s (HPACKHeader.bytes header) (capacity_ s);
    if evicted =? 0 then Some (false, s) else base_add_sized s header
  else base_add_sized s header.

(** The draining loop of [add]: at most once per index up to [insertCount_]. *)
Fixpoint drain_loop (fuel : nat) (s : t) : option t :=
  if (u32 (capacity_ s - bytes_ s + drainedBytes_ s) <? minFree_ s) &&
     (minUsable_ s <=? insertCount_ s) then
    match fuel with
    | O => None
    | S fuel' =>
        i ← absoluteToInternal s (minUsable_ s);
        h ← HeaderTable.slot (table s) i;
        drain_loop fuel'
          (with_draining s (u32 (drainedBytes_ s + HPACKHeader.bytes h)) (u32 (minUsable_ s + 1)))
    end
  else Some s.

Definition add (s : t) (header : HPACKHeader.t) : option (bool * t) :=
  if insertCount_ s =? UINT32_MAX then Some (false, s)
  else
    '(ok, s) ← base_add s header;
    if (ok : bool) then
      s ← drain_loop (Z.to_nat (insertCount_ s + 1 - minUsable_ s)) s; Some (true, s)
    else Some (false, s).

Definition base_setCapacity (s : t) (newCapacity : Z) : option (bool * t) :=
  if newCapacity =? capacity_ s then Some (true, s)
  else if newCapacity <? capacity_ s then
    '(_, s) ← evict s 0 newCapacity;
    if bytes_ s >? newCapacity then Some (false, s)
    else Some (true, with_table s (HeaderTable.with_capacity (table s) newCapacity))
  else
    b ← HeaderTable.lengthen (table s) newCapacity;
    Some (true, with_table s (HeaderTable.with_capacity b newCapacity)).

Definition setCapacity (s : t) (capacity : Z) : option (bool * t) :=
  '(ok, s) ← base_setCapacity s capacity;
  if (ok : bool) then
    Some (true, if trackReferences_ s then setMinFreeForTesting s (getMinFree capacity) else s)
  else Some (false, s).

(** Whether a header may be inserted: it would not be drained at once, and there
    is room or room can be made. *)
Definition canIndex (s : t) (name value : list Z) : option bool :=
  let headerBytes := HPACKHeader.bytes_of (u32 (zlen name)) (zlen value) in
  let totalBytes := u32 (bytes_ s + headerBytes) in
  if headerBytes <=? u32 (capacity_ s - minFree_ s) then
    if totalBytes <=? capacity_ s then Some true
    else canEvict s (u32 (totalBytes - capacity_ s))
  else Some false.

(** ** Lookup *)

(** The loop over the slots of a name, newest first. *)
Fixpoint find_entry (s : t) (value : list Z) (nameOnly allowVulnerable : bool) (unacked : bool)
    (l : list Z) : option Z :=
  match l with
  | [] => Some (if unacked then UNACKED else 0)
  | i :: l' =>
      h ← HeaderTable.slot (table s) i;
      if nameOnly || bool_decide (HPACKHeader.value h = value) then
        ok ← (if allowVulnerable then Some true
              else a ← internalToAbsolute s i; Some (a <=? ackedInsertCount_ s));
        if (ok : bool) then HeaderTable.toExternal (table s) i
        else find_entry s value nameOnly allowVulnerable true l'
      else find_entry s value nameOnly allowVulnerable unacked l'
  end.

Definition getIndexImpl (s : t) (headerName value : list Z) (nameOnly allowVulnerable : bool)
  : option Z :=
  match HeaderTable.names_ (table s) !! headerName with
  | None => Some 0
  | Some l => find_entry s value nameOnly allowVulnerable false (reverse l)
  end.

Definition getIndex (s : t) (name value : list Z) (allowVulnerable : bool) : option Z :=
  getIndexImpl s name value false allowVulnerable.

Definition nameIndex (s : t) (headerName : list Z) (allowVulnerable : bool) : option Z :=
  getIndexImpl s headerName [] true allowVulnerable.

(** ** Draining and acknowledgements *)

Definition maybeDuplicate (s : t) (relativeIndex : Z) (allowVulnerable : bool)
  : option ((bool * Z) * t) :=
  if relativeIndex =? UNACKED then Some ((false, 0), s)
  else
    let absIndex := relativeToAbsolute s relativeIndex in
    if absIndex <? minUsable_ s then
      header ← getHeader s relativeIndex 0;
      ok ← canIndex s (HPACKHeader.name header) (HPACKHeader.value header);
      if (ok : bool) then
        '(added, s) ← add s header;
        if (added : bool) then
          Some ((true, if allowVulnerable then insertCount_ s else 0), s)
        else None
      else Some ((false, 0), s)
    else Some ((false, absIndex), s).

Definition onInsertCountIncrement (s : t) (numInserts : Z) : option (bool * t) :=
  if (numInserts >? insertCount_ s) ||
     (ackedInsertCount_ s >? u32 (insertCount_ s - numInserts))
  then Some (false, s)
  else
    let acked := u32 (ackedInsertCount_ s + numInserts) in
    if acked <=? insertCount_ s then Some (true, with_acked s acked) else None.

Definition setAcknowledgedInsertCount (s : t) (ackInsertCount : Z) : option t :=
  if ackInsertCount <? ackedInsertCount_ s then Some s
  else if ackInsertCount <=? insertCount_ s then Some (with_acked s ackInsertCount)
  else None.

End QPACKHeaderTable.

(** ** The abstract table

    The fields, newest first; field [j] (from 0) has absolute index [ins - j]. *)

Module QPACKTableSpec.
Import HPACKHeader HeaderSpec.

Record table := mkTable {
  cap : Z; fields : list HPACKHeader.t; ins : Z; acked : Z; inUse : Z; tracked : bool }.

(** An entry may be evicted if no outstanding block uses it and its insertion is
    acknowledged. *)
Definition evictable (a : table) (i : Z) : bool :=
  negb (tracked a) || ((i <? inUse a) && (i <=? acked a)).

(** The entries that do not fit into [c] bytes may all be evicted. *)
Definition fits (ev : Z -> bool) (n : Z) (es : list HPACKHeader.t) (c : Z) : bool :=
  let kept := zlen (keep c es) in (kept =? zlen es) || ev (n - kept).

Definition with_fields (a : table) (c : Z) (es : list HPACKHeader.t) (n : Z) : table :=
  mkTable c es n (acked a) (inUse a) (tracked a).

Definition add (a : table) (h : HPACKHeader.t) : bool * table :=
  if hsize h <=? cap a then
    let room := cap a - hsize h in
    if fits (evictable a) (ins a) (fields a) room
    then (true, with_fields a (cap a) (h :: keep room (fields a)) (ins a + 1))
    else (false, a)
  else (false, with_fields a (cap a) [] (ins a)).

Definition setCapacity (a : table) (c : Z) : bool * table :=
  if fits (evictable a) (ins a) (fields a) c
  then (true, with_fields a c (keep c (fields a)) (ins a)) else (false, a).

Definition acknowledge (a : table) (n : Z) : table :=
  mkTable (cap a) (fields a) (ins a) n (inUse a) (tracked a).

Definition use (a : table) (n : Z) : table :=
  mkTable (cap a) (fields a) (ins a) (acked a) n (tracked a).

(** The field of an absolute index. *)
Definition field (a : table) (i : Z) : option HPACKHeader.t :=
  if i <=? ins a then fields a !! Z.to_nat (ins a - i) else None.

Lemma add_frame a h :
  let a' := snd (add a h) in
  cap a' = cap a /\ tracked a' = tracked a /\ ins a <= ins a' <= ins a + 1.
Proof.
  unfold add. destruct (hsize h <=? cap a); [destruct (fits _ _ _ _)|]; simpl; split_and!; lia || done.
Qed.

Lemma setCapacity_frame a c :
  let a' := snd (setCapacity a c) in tracked a' = tracked a /\ ins a' = ins a.
Proof. unfold setCapacity. destruct (fits _ _ _ _); done. Qed.

(** What can be evicted is downward closed. *)
Definition down_closed (ev : Z -> bool) : Prop :=
  forall i j, i <= j -> ev j = true -> ev i = true.

Lemma evictable_down a : down_closed (evictable a).
Proof.
  intros i j Hij. unfold evictable. destruct (tracked a); simpl; [|done].
  rewrite !andb_true_iff, !Z.ltb_lt, !Z.leb_le. lia.
Qed.

Lemma keep_length c es : zlen (keep c es) <= zlen es.
Proof. pose proof (prefix_length _ _ (keep_prefix c es)). unfold zlen. lia. Qed.

Lemma fits_all ev n es c : total es <= c -> fits ev n es c = true.
Proof. intros H. unfold fits. rewrite keep_all by done. by rewrite Z.eqb_refl. Qed.

(** With one more entry than fits, that entry must go. *)
Lemma fits_snoc ev n es h c :
  down_closed ev -> c < total (es ++ [h]) ->
  fits ev n (es ++ [h]) c = ev (n - zlen es) && fits ev n es c.
Proof.
  intros Hd Hc. unfold fits. rewrite keep_snoc by done. rewrite zlen_app.
  pose proof (keep_length c es) as Hk. unfold zlen at 3. simpl.
  rewrite (proj2 (Z.eqb_neq _ _)) by lia. simpl.
  destruct (Z.eqb_spec (zlen (keep c es)) (zlen es)) as [->|Hne]; simpl.
  - by rewrite andb_true_r.
  - destruct (ev (n - zlen (keep c es))) eqn:E; [|by rewrite andb_false_r].
    rewrite (Hd (n - zlen es) (n - zlen (keep c es))); [done|lia|done].
Qed.

(** An entry that may not be evicted keeps its absolute index. *)
Lemma field_kept (a : table) c i es' n :
  fits (evictable a) (ins a) (fields a) c = true -> evictable a i = false -> i <= ins a ->
  es' = keep c (fields a) -> n = ins a ->
  es' !! Z.to_nat (n - i) = fields a !! Z.to_nat (ins a - i).
Proof.
  intros Hf He Hi -> ->. pose proof (keep_length c (fields a)) as Hk. unfold fits in Hf.
  destruct (keep_prefix c (fields a)) as [rest Hr].
  apply orb_true_iff in Hf as [Hf%Z.eqb_eq|Hf].
  - assert (rest = []) as ->.
    { apply (f_equal length) in Hr. rewrite length_app in Hr. unfold zlen in Hf.
      apply nil_length_inv. lia. }
    rewrite app_nil_r in Hr. by rewrite <- Hr.
  - assert (ins a - i < zlen (keep c (fields a))).
    { apply Z.nle_gt. intros Hle.
      rewrite (evictable_down a i (ins a - zlen (keep c (fields a)))) in He; [done|lia|done]. }
    rewrite Hr at 2. rewrite lookup_app_l; [done|]. unfold zlen in *. lia.
Qed.

Lemma add_keeps a h i :
  hsize h <= cap a -> evictable a i = false -> i <= ins a ->
  field (snd (add a h)) i = field a i.
Proof.
  intros Hh He Hi. unfold add. rewrite (proj2 (Z.leb_le _ _)) by done.
  destruct (fits _ _ _ _) eqn:Hf; [|done]. simpl. unfold field. simpl.
  rewrite !(proj2 (Z.leb_le _ _)) by lia.
  replace (Z.to_nat (ins a + 1 - i)) with (S (Z.to_nat (ins a - i))) by lia.
  by apply (field_kept a (cap a - hsize h)).
Qed.

Lemma setCapacity_keeps a c i :
  evictable a i = false -> i <= ins a -> field (snd (setCapacity a c)) i = field a i.
Proof.
  intros He Hi. unfold setCapacity. destruct (fits _ _ _ _) eqn:Hf; [|done]. simpl.
  unfold field. simpl. rewrite (proj2 (Z.leb_le _ _)) by lia.
  by apply (field_kept a c).
Qed.

End QPACKTableSpec.

(** ** The invariant and the operations *)

Module QPACKRing.
Import HPACKHeader HeaderSpec QPACKTableSpec QPACKHeaderTable.

Abbreviation wf s := (Ring.wf (table s)).
Abbreviation entries s := (Ring.entries (table s)).

(** How many of the newest entries new blocks may refer to. *)
Definition usable (s : t) : Z := insertCount_ s + 1 - minUsable_ s.

(** A tracking table drains from the old end. *)
Definition draining (s : t) : Prop :=
  if trackReferences_ s
  then 0 <= usable s <= size_ s /\ drainedBytes_ s = total (drop (Z.to_nat (usable s)) (entries s))
  else drainedBytes_ s = 0 /\ minFree_ s = 0.

Record inv (s : t) : Prop := {
  inv_wf : wf s;
  inv_size : size_ s <= insertCount_ s <= UINT32_MAX - 1;
  inv_draining : draining s;
  inv_acked : 0 <= ackedInsertCount_ s <= insertCount_ s;
  inv_free : is_u32 (minFree_ s);
  inv_names : HeaderTable.indexNames_ (table s) = trackReferences_ s }.

(** The abstract state. *)
Definition abs (s : t) : QPACKTableSpec.table :=
  mkTable (capacity_ s) (entries s) (insertCount_ s) (ackedInsertCount_ s) (minInUseIndex_ s)
    (trackReferences_ s).

(** What eviction leaves alone. *)
Definition frame (s s' : t) : Prop :=
  capacity_ s' = capacity_ s /\ insertCount_ s' = insertCount_ s /\
  ackedInsertCount_ s' = ackedInsertCount_ s /\ minFree_ s' = minFree_ s /\
  trackReferences_ s' = trackReferences_ s /\ minInUseIndex_ s' = minInUseIndex_ s.

Lemma q_frame_refl s : frame s s.
Proof. done. Qed.

Lemma q_frame_trans s1 s2 s3 : frame s1 s2 -> frame s2 s3 -> frame s1 s3.
Proof. unfold frame. intuition congruence. Qed.

Lemma frame_abs s s' :
  frame s s' -> abs s' = with_fields (abs s) (capacity_ s) (entries s') (insertCount_ s).
Proof. intros (Hc & Hi & Ha & _ & Ht & Hu). unfold abs, with_fields. simpl. congruence. Qed.

Lemma frame_evictable s s' : frame s s' -> evictable (abs s') = evictable (abs s).
Proof. intros H. by rewrite (frame_abs s s' H). Qed.

(** Position [j] holds absolute index [insertCount_ - j]. *)
Lemma slot_absolute s j :
  inv s -> 0 <= j < size_ s ->
  internalToAbsolute s ((HeaderTable.head_ (table s) - j) mod HeaderTable.len (table s)) =
  Some (insertCount_ s - j).
Proof.
  intros H Hj. unfold internalToAbsolute. rewrite Ring.toExternal_slot by (apply H || done).
  unfold mbind, option_bind, relativeToAbsolute. f_equal.
  replace (insertCount_ s - (j + 1) + 1) with (insertCount_ s - j) by lia.
  pose proof (inv_size s H). apply u32_id. unfold_ints. lia.
Qed.

Lemma next_slot s j :
  wf s -> 0 <= j < size_ s ->
  HeaderTable.next (table s) ((HeaderTable.head_ (table s) - j) mod HeaderTable.len (table s)) =
  Some ((HeaderTable.head_ (table s) - (j - 1)) mod HeaderTable.len (table s)).
Proof.
  intros H Hj. pose proof (Ring.wf_size _ H). pose proof (Ring.wf_len _ H).
  unfold HeaderTable.next. destruct (Z.eqb_spec (HeaderTable.len (table s)) 0); [lia|].
  set (L := HeaderTable.len (table s)) in *. set (hd := HeaderTable.head_ (table s)).
  pose proof (Z.mod_pos_bound (hd - j) L ltac:(lia)).
  rewrite (u32_id (_ + 1)) by (unfold_ints; lia). rewrite Zplus_mod_idemp_l.
  replace (hd - j + 1) with (hd - (j - 1)) by lia. f_equal.
  pose proof (Z.mod_pos_bound (hd - (j - 1)) L ltac:(lia)). apply u32_id. unfold_ints. lia.
Qed.

Lemma size_entries s : inv s -> zlen (entries s) = size_ s.
Proof. intros H. apply Ring.length_entries, H. Qed.

Lemma bytes_bound s : inv s -> 0 <= bytes_ s <= capacity_ s /\ capacity_ s < 2 ^ 31.
Proof.
  intros H. destruct (inv_wf s H) as [? Hb ? ? ? ? ? ?].
  pose proof (total_nonneg (entries s)). lia.
Qed.

Lemma entry_bytes s h : inv s -> h ∈ entries s -> HPACKHeader.bytes h = hsize h.
Proof. intros H Hh. apply bytes_exact, (Ring.entry_small (table s)); [apply H|done]. Qed.

Lemma total_drop_le n es : total (drop n es) <= total es.
Proof.
  rewrite <- (take_drop n es) at 2. rewrite total_app. pose proof (total_nonneg (take n es)). lia.
Qed.

(** Draining entries exist exactly when some entry is not usable. *)
Lemma drained_pos s :
  inv s -> trackReferences_ s = true -> (0 < drainedBytes_ s <-> usable s < size_ s).
Proof.
  intros H Ht. pose proof (inv_draining s H) as Hd. unfold draining in Hd. rewrite Ht in Hd.
  destruct Hd as [Hu ->]. pose proof (size_entries s H) as Hl.
  pose proof (total_length (drop (Z.to_nat (usable s)) (entries s))) as Hm.
  unfold zlen in *. rewrite length_drop in Hm.
  split; intros Hx; [|lia]. apply Z.nle_gt. intros Hle.
  rewrite drop_ge in Hx by lia. simpl in Hx. lia.
Qed.

(** ** Removing the oldest entry *)

(** The draining counters after the oldest entry [h] is gone. *)
Lemma removeLast_draining s b h :
  inv s -> 0 < size_ s -> entries s = Ring.entries b ++ [h] -> Ring.wf b ->
  HeaderTable.size_ b = size_ s - 1 -> HeaderTable.insertCount_ b = insertCount_ s ->
  let s1 := with_table s b in
  exists d m,
    (if drainedBytes_ s >? 0 then
       if drainedBytes_ s >=? hsize h
       then Some (hsize h, with_draining s1 (u32 (drainedBytes_ s - hsize h)) (minUsable_ s))
       else None
     else if HeaderTable.size_ b >? 0 then
       i ← HeaderTable.tail b; m ← internalToAbsolute s1 i;
       Some (hsize h, with_draining s1 (drainedBytes_ s) m)
     else Some (hsize h, with_draining s1 (drainedBytes_ s) (u32 (insertCount_ s1 + 1)))) =
    Some (hsize h, with_draining s1 d m) /\ draining (with_draining s1 d m).
Proof.
  intros H Hz He Hwb Hsb Hib s1. pose proof (bytes_bound s H). pose proof (inv_size s H).
  pose proof (inv_draining s H) as Hd. pose proof (hsize_min h).
  pose proof (size_entries s H) as Hl. rewrite He, zlen_app in Hl. unfold zlen at 2 in Hl.
  simpl in Hl. rewrite Z.gtb_ltb, Z.geb_leb.
  unfold draining in *. destruct (trackReferences_ s) eqn:Ht.
  - destruct Hd as [Hu Hd]. pose proof (drained_pos s H Ht) as Hp.
    destruct (Z.ltb_spec 0 (drainedBytes_ s)) as [Hd0|Hd0].
    + apply Hp in Hd0. rewrite He, drop_app_le, total_app in Hd by (unfold zlen in Hl; lia).
      simpl in Hd. pose proof (total_nonneg (drop (Z.to_nat (usable s)) (Ring.entries b))).
      pose proof (total_drop_le (Z.to_nat (usable s)) (Ring.entries b)).
      assert (total (Ring.entries b) <= bytes_ s).
      { rewrite (Ring.wf_bytes _ (inv_wf s H)), He, total_app. simpl. lia. }
      rewrite (proj2 (Z.leb_le _ _)) by lia. eexists _, _. split; [reflexivity|].
      simpl. rewrite Ht. unfold usable in *. simpl. rewrite Hib, Hsb, u32_id by (unfold_ints; lia). lia.
    + assert (Hus : usable s = size_ s) by lia.
      assert (Hz0 : drainedBytes_ s = 0).
      { rewrite Hd. rewrite drop_ge; [done|].
        pose proof (size_entries s H) as Hl'. unfold zlen in Hl'. lia. }
      rewrite Z.gtb_ltb. destruct (Z.ltb_spec 0 (HeaderTable.size_ b)) as [Hsz|Hsz].
      * rewrite (Ring.tail_ring b Hwb Hsz). unfold mbind, option_bind, internalToAbsolute. simpl.
        rewrite (Ring.toExternal_slot b _ Hwb) by lia. unfold mbind, option_bind, relativeToAbsolute.
        simpl. eexists _, _. split; [reflexivity|]. simpl. rewrite Ht. unfold usable. simpl.
        rewrite Hib, u32_id by (unfold_ints; lia). split; [lia|]. rewrite Hz0, drop_ge; [done|].
        unfold zlen in Hl. lia.
      * eexists _, _. split; [reflexivity|]. simpl. rewrite Ht. unfold usable. simpl.
        rewrite Hib, u32_id by (unfold_ints; lia). split; [lia|]. rewrite Hz0, drop_ge; [done|].
        unfold zlen in Hl. lia.
  - destruct Hd as [-> Hf]. rewrite (proj2 (Z.ltb_ge 0 0)) by lia. rewrite Z.gtb_ltb.
    destruct (Z.ltb_spec 0 (HeaderTable.size_ b)) as [Hsz|Hsz].
    + rewrite (Ring.tail_ring b Hwb Hsz). unfold mbind, option_bind, internalToAbsolute. simpl.
      rewrite (Ring.toExternal_slot b _ Hwb) by lia. unfold mbind, option_bind.
      eexists _, _. split; [reflexivity|]. simpl. by rewrite Ht.
    + eexists _, _. split; [reflexivity|]. simpl. by rewrite Ht.
Qed.

Lemma q_removeLast_spec s :
  inv s -> 0 < size_ s -> evictable (abs s) (insertCount_ s - (size_ s - 1)) = true ->
  exists h s', entries s = entries s' ++ [h] /\ removeLast s = Some (hsize h, s') /\ inv s' /\
    frame s s' /\ size_ s' = size_ s - 1.
Proof.
  intros H Hz Hev. pose proof (inv_wf s H) as Hw. pose proof (inv_size s H).
  destruct (Ring.removeLast_spec (table s) Hw Hz) as (h & b & He & HR & Hwb & Hsb & Hcb & Hib & Hnb).
  destruct (removeLast_draining s b h H Hz He Hwb Hsb Hnb) as (d & m & HD & Hd).
  exists h, (with_draining (with_table s b) d m). split; [done|].
  assert (Hchk : exists a, (if trackReferences_ s then internalToAbsolute s
      ((HeaderTable.head_ (table s) - (size_ s - 1)) mod HeaderTable.len (table s)) else Some 0) = Some a /\
      trackReferences_ s && negb (a <? minInUseIndex_ s) = false).
  { unfold evictable in Hev. simpl in Hev. destruct (trackReferences_ s); [|by eexists].
    rewrite slot_absolute by (done || lia). eexists. split; [done|]. simpl in *.
    apply andb_prop in Hev as [-> _]. done. }
  destruct Hchk as (a & Ha & Hchk). split.
  - unfold removeLast. rewrite Ring.tail_ring by done. unfold mbind at 1, option_bind at 1.
    rewrite Ha. unfold mbind at 1, option_bind at 1. rewrite Hchk, HR.
    unfold mbind at 1, option_bind at 1. exact HD.
  - split_and!; try done; simpl; try lia.
    constructor; simpl; rewrite ?Hsb, ?Hnb, ?Hib; try apply H; try done. lia.
Qed.

(** ** Making room *)

(** [canEvict] walks from the oldest entry; [es1] are the entries not yet seen. *)
Lemma canEvict_loop_spec s needed es1 : forall es2 i,
  inv s -> trackReferences_ s = true -> entries s = es1 ++ es2 -> needed <= total (entries s) ->
  (0 < zlen es1 ->
   i = (HeaderTable.head_ (table s) - (zlen es1 - 1)) mod HeaderTable.len (table s)) ->
  exists freeable, canEvict_loop (length es1) s needed i (total es2) = Some freeable /\
    negb (freeable <? needed) =
    fits (evictable (abs s)) (insertCount_ s) es1 (total (entries s) - needed).
Proof.
  induction es1 as [|h es1 IH] using rev_ind; intros es2 i H Ht He Hn Hi.
  - simpl in He. subst es2. exists (total (entries s)). split; [done|].
    rewrite fits_all by (simpl; lia). by rewrite (proj2 (Z.ltb_ge _ _)) by lia.
  - rewrite length_app, Nat.add_1_r. cbn [canEvict_loop].
    pose proof (size_entries s H) as Hl. rewrite He, !zlen_app in Hl.
    rewrite zlen_app in Hi. change (zlen [h]) with 1 in *.
    pose proof (bytes_bound s H) as Hb. rewrite (Ring.wf_bytes _ (inv_wf s H)) in Hb.
    assert (Hsum : total (entries s) = total es1 + hsize h + total es2).
    { rewrite He, !total_app. simpl. lia. }
    assert (0 <= zlen es1 /\ 0 <= zlen es2) by (unfold zlen; lia).
    assert (0 <= total es1 /\ 0 <= total es2) by (split; apply total_nonneg).
    replace (zlen es1 + 1 - 1) with (zlen es1) in Hi by lia.
    specialize (Hi ltac:(lia)). subst i.
    destruct (Z.ltb_spec (total es2) needed) as [Hlt|Hge].
    + rewrite slot_absolute by (done || lia). unfold mbind at 1, option_bind at 1.
      rewrite fits_snoc by (apply evictable_down || (rewrite total_app; simpl; lia)).
      unfold evictable at 1. simpl. rewrite Ht. simpl.
      destruct ((insertCount_ s - zlen es1 <? minInUseIndex_ s) &&
                (insertCount_ s - zlen es1 <=? ackedInsertCount_ s)).
      * assert (Hent : entries s !! Z.to_nat (zlen es1) = Some h).
        { rewrite He, <- app_assoc. apply list_lookup_middle. unfold zlen. lia. }
        rewrite Ring.slot_entry by (apply H || lia). rewrite Hent.
        unfold mbind at 1, option_bind at 1.
        rewrite next_slot by (apply H || lia). unfold mbind at 1, option_bind at 1.
        rewrite (entry_bytes s h H) by (by eapply list_elem_of_lookup_2).
        pose proof (hsize_min h). rewrite u32_id by (unfold_ints; lia).
        replace (total es2 + hsize h) with (total (h :: es2)) by (simpl; lia).
        destruct (IH (h :: es2) ((HeaderTable.head_ (table s) - (zlen es1 - 1))
                    mod HeaderTable.len (table s)) H Ht) as (f & Hf & Hok); try done.
        { by rewrite He, <- app_assoc. }
        exists f. split; [exact Hf|]. by rewrite Hok.
      * exists (total es2). split; [done|]. by rewrite (proj2 (Z.ltb_lt _ _)).
    + exists (total es2). split; [done|].
      rewrite fits_all by (rewrite total_app; simpl; lia).
      by rewrite (proj2 (Z.ltb_ge _ _)) by lia.
Qed.

Lemma canEvict_spec s needed :
  inv s -> 0 <= needed <= bytes_ s ->
  canEvict s needed =
  Some (fits (evictable (abs s)) (insertCount_ s) (entries s) (bytes_ s - needed)).
Proof.
  intros H Hn. pose proof (bytes_bound s H) as Hb. pose proof (Ring.wf_size _ (inv_wf s H)).
  unfold canEvict. destruct (Z.eqb_spec (size_ s) 0) as [Hz|Hz]; simpl.
  { rewrite fits_all by (rewrite (Ring.entries_nil _ (inv_wf s H) Hz); simpl; lia).
    by rewrite (proj2 (Z.leb_le _ _)) by lia. }
  destruct (trackReferences_ s) eqn:Ht; simpl.
  - rewrite Ring.tail_ring by (apply H || lia). unfold mbind at 1, option_bind at 1.
    pose proof (size_entries s H) as Hl.
    destruct (canEvict_loop_spec s needed (entries s) []
      ((HeaderTable.head_ (table s) - (size_ s - 1)) mod HeaderTable.len (table s)) H Ht)
      as (f & Hf & Hok); [by rewrite app_nil_r| |by rewrite Hl|].
    { rewrite <- (Ring.wf_bytes _ (inv_wf s H)). lia. }
    replace (Z.to_nat (size_ s)) with (length (entries s)) by (unfold zlen in Hl; lia).
    change 0 with (total []). rewrite Hf. unfold mbind, option_bind.
    by rewrite Hok, (Ring.wf_bytes _ (inv_wf s H)).
  - rewrite (proj2 (Z.leb_le _ _)) by lia. unfold fits, evictable. simpl. rewrite Ht. simpl.
    by rewrite orb_true_r.
Qed.

Lemma base_evict_loop_spec fuel : forall s needed desired,
  inv s -> size_ s <= Z.of_nat fuel -> 0 <= needed < 2 ^ 31 ->
  fits (evictable (abs s)) (insertCount_ s) (entries s) (desired - needed) = true ->
  exists s', base_evict_loop fuel s needed desired = Some s' /\ inv s' /\ frame s s' /\
    size_ s' <= size_ s /\ entries s' = keep (desired - needed) (entries s) /\
    (0 < size_ s -> desired < bytes_ s + needed -> size_ s' < size_ s).
Proof.
  induction fuel as [|fuel IH]; intros s needed desired H Hf Hn Hok; cbn [base_evict_loop];
    rewrite !Z.gtb_ltb; pose proof (Ring.wf_size _ (inv_wf s H)); pose proof (bytes_bound s H);
    pose proof (Ring.wf_bytes _ (inv_wf s H)) as Hb.
  - rewrite (proj2 (Z.ltb_ge 0 (size_ s))) by lia. exists s.
    rewrite (Ring.entries_nil _ (inv_wf s H)) by lia. split_and!; try done; lia.
  - rewrite u32_id by (unfold_ints; lia).
    destruct (Z.ltb_spec 0 (size_ s)) as [Hz|Hz], (Z.ltb_spec desired (bytes_ s + needed)) as [Hd|Hd];
      cbn [andb].
    + pose proof (size_entries s H) as Hl.
      destruct (exists_last (l := entries s)) as (es & h0 & He0).
      { intros E. rewrite E in Hl. unfold zlen in Hl. simpl in Hl. lia. }
      rewrite He0, fits_snoc in Hok by (apply evictable_down || (rewrite <- He0, <- Hb; lia)).
      apply andb_prop in Hok as [Hev Hok]. rewrite He0, zlen_app in Hl. unfold zlen at 2 in Hl.
      simpl in Hl. replace (zlen es) with (size_ s - 1) in Hev by lia.
      destruct (q_removeLast_spec s H Hz Hev) as (h & s1 & He & -> & Hi1 & Hfr & Hs1).
      unfold mbind, option_bind.
      assert (entries s1 = es) as Hes by (rewrite He0 in He; by apply app_inj_tail in He as [? _]).
      destruct (IH s1 needed desired Hi1 ltac:(lia) Hn) as (s' & -> & H' & Hfr' & Hsz & He' & _).
      { rewrite (frame_evictable s s1 Hfr), Hes. destruct Hfr as (_ & -> & _). done. }
      exists s'. split_and!; try done; try lia.
      * by apply (q_frame_trans s s1).
      * rewrite He', He, keep_snoc; [done|]. rewrite <- He, <- Hb. lia.
    + exists s. rewrite keep_all by (rewrite <- Hb; lia). split_and!; try done; lia.
    + exists s. rewrite (Ring.entries_nil _ (inv_wf s H)) by lia. split_and!; try done; lia.
    + exists s. rewrite (Ring.entries_nil _ (inv_wf s H)) by lia. split_and!; try done; lia.
Qed.

(** [evict] makes the room if the entries in the way may go, and does nothing
    otherwise. *)
Lemma q_evict_spec s needed desired :
  inv s -> 0 <= needed <= desired -> desired <= capacity_ s ->
  exists n s', evict s needed desired = Some (n, s') /\ inv s' /\ frame s s' /\
    if fits (evictable (abs s)) (insertCount_ s) (entries s) (desired - needed)
    then entries s' = keep (desired - needed) (entries s) /\
         (desired < bytes_ s + needed -> n <> 0)
    else n = 0 /\ s' = s.
Proof.
  intros H Hn Hd. pose proof (bytes_bound s H). pose proof (Ring.wf_size _ (inv_wf s H)).
  pose proof (Ring.wf_bytes _ (inv_wf s H)) as Hb. unfold evict.
  rewrite u32_id by (unfold_ints; lia).
  destruct (Z.ltb_spec (bytes_ s + needed) desired) as [Hlt|Hge].
  { exists 0, s. rewrite fits_all, keep_all by lia. split_and!; try done. lia. }
  rewrite u32_id by (unfold_ints; lia). rewrite canEvict_spec by (done || lia).
  replace (bytes_ s - (bytes_ s + needed - desired)) with (desired - needed) by lia.
  unfold mbind at 1, option_bind at 1.
  destruct (fits _ _ _ _) eqn:Hok; [|by exists 0, s].
  unfold base_evict.
  destruct (base_evict_loop_spec (Z.to_nat (size_ s)) s needed desired H ltac:(lia) ltac:(lia) Hok)
    as (s' & -> & H' & Hfr & Hsz & He & Hp).
  pose proof (Ring.wf_size _ (inv_wf s' H')). pose proof (inv_size s H).
  unfold mbind, option_bind. eexists _, s'. split; [reflexivity|]. split_and!; try done.
  intros Hover. assert (0 < size_ s).
  { apply Z.nle_gt. intros ?. rewrite Hb, (Ring.entries_nil _ (inv_wf s H)) in Hover by lia.
    simpl in Hover. lia. }
  specialize (Hp ltac:(done) Hover). rewrite u32_id by (unfold_ints; lia). lia.
Qed.

(** ** Insertion *)

Lemma base_add_sized_spec s h :
  inv s -> insertCount_ s < UINT32_MAX - 1 -> hsize h + bytes_ s <= capacity_ s ->
  exists s', base_add_sized s h = Some (true, s') /\ inv s' /\
    abs s' = with_fields (abs s) (capacity_ s) (h :: entries s) (insertCount_ s + 1) /\
    minFree_ s' = minFree_ s /\ (trackReferences_ s = true -> 0 < usable s').
Proof.
  intros H Hi Hb. pose proof (inv_size s H). pose proof (inv_acked s H).
  pose proof (Ring.wf_size _ (inv_wf s H)).
  destruct (Ring.add_sized_spec (table s) h (inv_wf s H) Hb) as (b & HA & Hw & He & Hc & Hn & Hic).
  rewrite u32_id in Hic by (unfold_ints; lia).
  assert (Hsz : HeaderTable.size_ b = size_ s + 1).
  { rewrite <- (Ring.length_entries b Hw), He, <- (size_entries s H). unfold zlen. simpl. lia. }
  exists (with_table s b). unfold base_add_sized. rewrite HA. unfold mbind, option_bind.
  split; [done|]. pose proof (inv_draining s H) as Hd. split;
    [|split; [unfold abs, with_fields; simpl; by rewrite He, Hc, Hic|split; [done|]];
      intros Ht; unfold draining, usable in *; rewrite Ht in Hd; simpl; lia].
  constructor; simpl; rewrite ?Hsz, ?Hic, ?Hn; try apply H; try done; try lia.
  unfold draining, usable in *. simpl.
  destruct (trackReferences_ s); [|done]. destruct Hd as [Hu Hd]. rewrite Hic, Hsz, He.
  split; [lia|]. rewrite Hd.
  replace (Z.to_nat (insertCount_ s + 1 + 1 - minUsable_ s))
    with (S (Z.to_nat (insertCount_ s + 1 - minUsable_ s))) by lia. done.
Qed.

(** The base class's [add]. *)
Lemma base_add_spec s h :
  inv s -> insertCount_ s < UINT32_MAX - 1 -> hsize h < 2 ^ 31 ->
  (trackReferences_ s = true -> hsize h <= capacity_ s) ->
  exists s', base_add s h = Some (fst (QPACKTableSpec.add (abs s) h), s') /\ inv s' /\
    abs s' = snd (QPACKTableSpec.add (abs s) h) /\ minFree_ s' = minFree_ s /\
    (fst (QPACKTableSpec.add (abs s) h) = true -> trackReferences_ s = true -> 0 < usable s').
Proof.
  intros H Hi Hh Hsm. unfold base_add, QPACKTableSpec.add. rewrite (bytes_exact h Hh), Z.gtb_ltb.
  pose proof (bytes_bound s H). pose proof (hsize_min h). simpl.
  destruct (Z.ltb_spec (capacity_ s) (hsize h)), (Z.leb_spec (hsize h) (capacity_ s)); try lia.
  - eexists. split; [reflexivity|]. destruct (Ring.reset_wf _ (inv_wf s H)) as [Hw He].
    split; [|done]. pose proof (inv_size s H). pose proof (Ring.wf_size _ (inv_wf s H)).
    constructor; simpl; try apply H; try done; [lia|].
    pose proof (inv_draining s H) as Hd. unfold draining in *. simpl.
    destruct (trackReferences_ s); [|done]. specialize (Hsm eq_refl). lia.
  - rewrite u32_id by (unfold_ints; lia). rewrite Z.gtb_ltb.
    pose proof (Ring.wf_bytes _ (inv_wf s H)) as Hb.
    destruct (Z.ltb_spec (capacity_ s) (bytes_ s + hsize h)) as [Hover|Hfit].
    + destruct (q_evict_spec s (hsize h) (capacity_ s) H ltac:(lia) ltac:(lia))
        as (n & s1 & -> & H1' & Hfr & Hok). unfold mbind, option_bind.
      destruct (fits _ _ _ _); cbn [fst snd].
      * destruct Hok as [He Hn]. rewrite (proj2 (Z.eqb_neq n 0)) by (by apply Hn).
        pose proof (keep_total (capacity_ s - hsize h) (entries s) ltac:(lia)) as Hk.
        rewrite <- He, <- (Ring.wf_bytes _ (inv_wf s1 H1')) in Hk.
        pose proof Hfr as (Hc1 & Hi1 & _ & Hf1 & _).
        destruct (base_add_sized_spec s1 h H1') as (s' & -> & H' & Ha & Hf' & Hu'); [lia|lia|].
        exists s'. split; [done|]. split; [done|].
        split; [|split; [congruence|intros _ Ht; apply Hu'; by destruct Hfr as (_ & _ & _ & _ & -> & _)]].
        rewrite Ha, (frame_abs s s1 Hfr), He, Hc1, Hi1. done.
      * destruct Hok as [-> ->]. exists s. done.
    + destruct (base_add_sized_spec s h H) as (s' & -> & H' & Ha & Hf' & Hu'); [lia|lia|].
      exists s'. rewrite fits_all, keep_all by lia. by split_and!.
Qed.

(** ** Draining *)

(** Enough is free or draining, or nothing is left to drain. *)
Definition drained_enough (s : t) : Prop :=
  minFree_ s <= capacity_ s - bytes_ s + drainedBytes_ s \/ usable s <= 0.

(** The newest entry is usable, and leaves [minFree_] bytes for the others. *)
Definition keeps_newest (s : t) : Prop :=
  0 < usable s /\ exists h es, entries s = h :: es /\ minFree_ s <= capacity_ s - hsize h.

Lemma drain_step s :
  inv s -> trackReferences_ s = true -> 0 < usable s ->
  exists i h, absoluteToInternal s (minUsable_ s) = Some i /\
    HeaderTable.slot (table s) i = Some h /\
    let s' := with_draining s (u32 (drainedBytes_ s + HPACKHeader.bytes h)) (u32 (minUsable_ s + 1)) in
    inv s' /\ usable s' = usable s - 1 /\ abs s' = abs s /\ minFree_ s' = minFree_ s.
Proof.
  intros H Ht Hu. pose proof (inv_size s H). pose proof (bytes_bound s H).
  pose proof (Ring.wf_size _ (inv_wf s H)). pose proof (Ring.wf_bytes _ (inv_wf s H)) as Hb.
  pose proof (inv_draining s H) as Hd. unfold draining in Hd. rewrite Ht in Hd.
  destruct Hd as [Hr Hd]. pose proof (size_entries s H) as Hl. unfold zlen in Hl.
  assert (Hmin : minUsable_ s = insertCount_ s - (usable s - 1)) by (unfold usable; lia).
  destruct (lookup_lt_is_Some_2 (entries s) (Z.to_nat (usable s - 1))) as [h Hh]; [lia|].
  assert (Hdrop : drop (Z.to_nat (usable s - 1)) (entries s) =
                  h :: drop (Z.to_nat (usable s)) (entries s)).
  { rewrite (drop_S _ _ _ Hh). do 2 f_equal. lia. }
  pose proof (total_drop_le (Z.to_nat (usable s - 1)) (entries s)) as Hle.
  rewrite Hdrop in Hle. simpl in Hle. pose proof (hsize_min h).
  pose proof (total_nonneg (drop (Z.to_nat (usable s)) (entries s))).
  exists ((HeaderTable.head_ (table s) - (usable s - 1)) mod HeaderTable.len (table s)), h.
  split_and!.
  - unfold absoluteToInternal, absoluteToRelative. rewrite (proj2 (Z.leb_le _ _)) by lia.
    unfold mbind, option_bind. rewrite u32_id by (unfold_ints; lia).
    unfold toInternal. change (0 >? 0) with false. unfold mbind, option_bind.
    rewrite Ring.toInternal_slot by (apply H || lia). do 3 f_equal. lia.
  - rewrite Ring.slot_entry by (apply H || lia). done.
  - rewrite (entry_bytes s h H) by (by eapply list_elem_of_lookup_2). intros s'.
    assert (Hus : usable s' = usable s - 1).
    { unfold usable, s'. simpl. rewrite u32_id by (unfold_ints; lia). lia. }
    split; [|split; [exact Hus|done]]. constructor; simpl; try apply H.
    unfold draining. rewrite Hus. simpl. rewrite Ht, Hdrop. simpl.
    rewrite u32_id by (unfold_ints; lia). split; lia.
Qed.

(** An iteration of the draining loop spares the newest entry. *)
Lemma keeps_newest_step s s' :
  inv s -> trackReferences_ s = true -> keeps_newest s ->
  capacity_ s - bytes_ s + drainedBytes_ s < minFree_ s ->
  usable s' = usable s - 1 -> abs s' = abs s -> minFree_ s' = minFree_ s -> keeps_newest s'.
Proof.
  intros H Ht (Hu & h & es & He & Hm) Hlt Hu' Ha Hf.
  pose proof (inv_draining s H) as Hd. unfold draining in Hd. rewrite Ht in Hd.
  destruct Hd as [_ Hd]. pose proof (Ring.wf_bytes _ (inv_wf s H)) as Hb.
  unfold abs in Ha. injection Ha as Hc He' _ _ _ _.
  split; [|exists h, es; rewrite He', Hc, Hf; done].
  apply Z.nle_gt. intros Hle. assert (E : usable s = 1) by lia.
  rewrite E, He in Hd. rewrite He in Hb. change (Z.to_nat 1) with 1%nat in Hd.
  change (drop 1 (h :: es)) with es in Hd. change (total (h :: es)) with (hsize h + total es) in Hb.
  lia.
Qed.

Lemma drain_loop_spec fuel : forall s,
  inv s -> (trackReferences_ s = true -> usable s <= Z.of_nat fuel) ->
  exists s', drain_loop fuel s = Some s' /\ inv s' /\ abs s' = abs s /\
    minFree_ s' = minFree_ s /\ drained_enough s' /\ (keeps_newest s -> keeps_newest s').
Proof.
  induction fuel as [|fuel IH]; intros s H Hf; cbn [drain_loop];
    pose proof (bytes_bound s H); pose proof (inv_draining s H) as Hd;
    pose proof (Ring.wf_bytes _ (inv_wf s H)) as Hb; unfold draining in Hd;
    destruct (trackReferences_ s) eqn:Ht.
  2, 4: destruct Hd as [Hd Hm]; rewrite Hm, Hd; pose proof (u32_range (capacity_ s - bytes_ s + 0));
    rewrite (proj2 (Z.ltb_ge _ 0)) by (unfold_ints; lia); exists s; split_and!; try done;
    left; lia.
  all: destruct Hd as [Hr Hd]; pose proof (total_drop_le (Z.to_nat (usable s)) (entries s)) as Hle;
    pose proof (total_nonneg (drop (Z.to_nat (usable s)) (entries s)));
    specialize (Hf eq_refl); rewrite u32_id by (unfold_ints; lia).
  - rewrite (proj2 (Z.leb_gt _ _)) by (unfold usable in *; lia). rewrite andb_false_r.
    exists s. split_and!; try done. right. lia.
  - destruct (Z.ltb_spec (capacity_ s - bytes_ s + drainedBytes_ s) (minFree_ s));
      [|exists s; split_and!; try done; by left].
    destruct (Z.leb_spec (minUsable_ s) (insertCount_ s)); cbn [andb].
    + destruct (drain_step s H Ht) as (i & h & -> & Hs & H' & Hu' & Ha' & Hf');
        [unfold usable; lia|].
      unfold mbind, option_bind. rewrite Hs.
      destruct (IH _ H') as (s' & -> & Hs' & Ha & Hm & Hde & Hkn); [intros; lia|].
      exists s'. split_and!; try congruence; try done. intros Hk. apply Hkn.
      apply (keeps_newest_step s); try done; lia.
    + exists s. split_and!; try done. right. unfold usable. lia.
Qed.

(** [add] on an allowed field. *)
Lemma q_add_spec s h :
  inv s -> insertCount_ s < UINT32_MAX - 1 -> hsize h < 2 ^ 31 ->
  (trackReferences_ s = true -> hsize h <= capacity_ s) ->
  exists s', QPACKHeaderTable.add s h = Some (fst (QPACKTableSpec.add (abs s) h), s') /\ inv s' /\
    abs s' = snd (QPACKTableSpec.add (abs s) h) /\ minFree_ s' = minFree_ s /\
    (fst (QPACKTableSpec.add (abs s) h) = true ->
     drained_enough s' /\
     (trackReferences_ s = true -> minFree_ s <= capacity_ s - hsize h -> keeps_newest s')).
Proof.
  intros H Hi Hh Hsm. unfold QPACKHeaderTable.add.
  rewrite (proj2 (Z.eqb_neq _ _)) by (unfold_ints; lia).
  destruct (base_add_spec s h H Hi Hh Hsm) as (s1 & -> & H1 & Ha & Hf & Hk).
  unfold mbind at 1, option_bind at 1. destruct (fst _) eqn:Eok; [|by exists s1].
  destruct (drain_loop_spec (Z.to_nat (insertCount_ s1 + 1 - minUsable_ s1)) s1 H1)
    as (s' & -> & H' & Ha' & Hf' & Hd & Hkn).
  { intros. unfold usable. lia. }
  unfold mbind, option_bind. exists s'. split_and!; try congruence; try done.
  intros _. split; [done|]. intros Ht Hm. apply Hkn. split; [by apply Hk|].
  pose proof (f_equal fields Ha) as He. pose proof (f_equal cap Ha) as Hc.
  unfold QPACKTableSpec.add in He, Hc, Eok. simpl in He, Hc, Eok.
  destruct (hsize h <=? capacity_ s); [|done]. destruct (fits _ _ _ _); [|done].
  simpl in He, Hc. eexists h, _. split; [exact He|]. rewrite Hf, Hc. exact Hm.
Qed.

(** ** Changing the capacity *)

Lemma q_setCapacity_spec s c :
  inv s -> 0 <= c < 2 ^ 31 ->
  exists s', QPACKHeaderTable.setCapacity s c =
      Some (fst (QPACKTableSpec.setCapacity (abs s) c), s') /\ inv s' /\
    abs s' = snd (QPACKTableSpec.setCapacity (abs s) c) /\
    (minFree_ s = (if trackReferences_ s then getMinFree (capacity_ s) else 0) ->
     minFree_ s' = if trackReferences_ s' then getMinFree (capacity_ s') else 0).
Proof.
  intros H Hc.
  assert (HB : exists s', base_setCapacity s c =
      Some (fst (QPACKTableSpec.setCapacity (abs s) c), s') /\ inv s' /\
    abs s' = snd (QPACKTableSpec.setCapacity (abs s) c) /\ minFree_ s' = minFree_ s).
  { pose proof (bytes_bound s H). pose proof (Ring.wf_bytes _ (inv_wf s H)) as Hb.
    unfold base_setCapacity, QPACKTableSpec.setCapacity. simpl.
    destruct (Z.eqb_spec c (capacity_ s)) as [->|Hne].
    { exists s. rewrite fits_all, keep_all by lia. by split_and!. }
    destruct (Z.ltb_spec c (capacity_ s)).
    - destruct (q_evict_spec s 0 c H ltac:(lia) ltac:(lia)) as (n & s1 & -> & Hv1 & Hfr & Hok).
      unfold mbind, option_bind. rewrite !Z.sub_0_r in Hok. rewrite Z.gtb_ltb.
      destruct (fits _ _ _ c) eqn:Hfit; cbn [fst snd].
      + destruct Hok as [He _].
        pose proof (keep_total c (entries s) ltac:(lia)) as Hk.
        rewrite <- He, <- (Ring.wf_bytes _ (inv_wf s1 Hv1)) in Hk.
        rewrite (proj2 (Z.ltb_ge _ _)) by lia. eexists. split; [reflexivity|].
        pose proof Hfr as (Hc1 & Hi1 & Ha1 & Hf1 & Ht1 & Hu1).
        destruct (Ring.with_capacity_wf (table s1) c (inv_wf s1 Hv1) Hc Hk) as [Hw Hew].
        { intros. apply (Ring.wf_room _ (inv_wf s1 Hv1)). lia. }
        split; [by constructor; try apply Hv1|]. split; [|done].
        unfold abs, with_fields. simpl. rewrite Hew, He. congruence.
      + destruct Hok as [_ ->]. destruct (Z.ltb_spec c (bytes_ s)); [by exists s|].
        rewrite fits_all in Hfit by lia. done.
    - destruct (Ring.lengthen_spec (table s) c (inv_wf s H) Hc)
        as (b & -> & Hw & He & (_ & Hn & Hic) & Hbb & Hl). unfold mbind, option_bind.
      rewrite fits_all, keep_all by lia. cbn [fst snd].
      pose proof (Ring.initialTableLength_range c Hc) as [_ Hr].
      destruct (Ring.with_capacity_wf b c Hw Hc) as [Hw' Hew]; [lia|intros; lia|].
      eexists. split; [reflexivity|].
      assert (Hsz : HeaderTable.size_ b = size_ s).
      { rewrite <- (Ring.length_entries b Hw), He. apply size_entries, H. }
      split; [|split; [unfold abs, with_fields; simpl; by rewrite Hew, He, Hic|done]].
      pose proof (inv_draining s H) as Hd. pose proof (inv_size s H).
      constructor; simpl; rewrite ?Hn, ?Hic, ?Hsz; try apply H; try done.
      unfold draining, usable in *. simpl. rewrite Hew, He, Hic, Hsz. done. }
  destruct HB as (s1 & HE & H1 & Ha & Hf). unfold QPACKHeaderTable.setCapacity. rewrite HE.
  unfold mbind, option_bind.
  assert (Ht : trackReferences_ s1 = trackReferences_ s).
  { change (tracked (abs s1) = trackReferences_ s). rewrite Ha.
    unfold QPACKTableSpec.setCapacity. by destruct (fits _ _ _ _). }
  unfold QPACKTableSpec.setCapacity in *.
  destruct (fits _ _ _ c); cbn [fst snd] in *.
  - assert (Hcap : capacity_ s1 = c) by (change (cap (abs s1) = c); by rewrite Ha).
    eexists. split; [reflexivity|]. destruct (trackReferences_ s1) eqn:Et.
    + split_and!; try done.
      * destruct H1. constructor; try done.
        -- unfold draining, usable in *. simpl. by rewrite Et in *.
        -- unfold getMinFree, kMinFreeSlice, kMinMinFree, kMaxMinFree. simpl. unfold_ints. lia.
      * intros _. simpl. by rewrite Et, Hcap.
    + split_and!; try done. rewrite <- Ht, Et in *. congruence.
  - eexists. split; [reflexivity|]. split_and!; try done. rewrite Hf, Ht.
    assert (Hcap : capacity_ s1 = capacity_ s) by (change (cap (abs s1) = capacity_ s); by rewrite Ha).
    by rewrite Hcap.
Qed.

(** ** Lookups *)

Lemma getHeader_relative s i :
  inv s -> 1 <= i < 2 ^ 32 ->
  QPACKHeaderTable.getHeader s i 0 = entries s !! Z.to_nat (i - 1).
Proof.
  intros H Hi. pose proof (size_entries s H) as Hl. unfold QPACKHeaderTable.getHeader, isValid.
  change (0 >? 0) with false. rewrite u32_id by (unfold_ints; lia).
  unfold HeaderTable.isValid. rewrite (proj2 (Z.ltb_lt _ _)) by lia. cbn [andb].
  destruct (Z.leb_spec i (size_ s)).
  - unfold toInternal. change (0 >? 0) with false. unfold mbind, option_bind.
    rewrite Ring.toInternal_slot by (apply H || lia). apply Ring.slot_entry; [apply H|lia].
  - symmetry. apply lookup_ge_None. unfold zlen in Hl. lia.
Qed.

(** An index below a base is an absolute index. *)
Lemma getHeader_based s i base :
  inv s -> 1 <= i <= base -> base < 2 ^ 32 ->
  QPACKHeaderTable.getHeader s i base = field (abs s) (base - i + 1).
Proof.
  intros H Hi Hb. pose proof (size_entries s H) as Hl. pose proof (inv_size s H).
  pose proof (Ring.wf_size _ (inv_wf s H)).
  unfold QPACKHeaderTable.getHeader, isValid, field. rewrite Z.gtb_ltb, (proj2 (Z.ltb_lt _ _)) by lia.
  replace (i - (base - insertCount_ s)) with (insertCount_ s - (base - i + 1) + 1) by lia. simpl.
  set (a := base - i + 1). destruct (Z.leb_spec a (insertCount_ s)).
  - rewrite u32_id by (unfold_ints; lia). unfold HeaderTable.isValid.
    rewrite (proj2 (Z.ltb_lt _ _)) by lia. cbn [andb].
    destruct (Z.leb_spec (insertCount_ s - a + 1) (size_ s)).
    + unfold toInternal, absoluteToRelative. rewrite Z.gtb_ltb, (proj2 (Z.ltb_lt _ _)) by lia.
      fold a. rewrite u32_id, (proj2 (Z.leb_le _ _)) by (unfold_ints; lia).
      unfold mbind, option_bind. rewrite u32_id by (unfold_ints; lia).
      rewrite Ring.toInternal_slot by (apply H || lia). rewrite Ring.slot_entry by (apply H || lia).
      do 2 f_equal. lia.
    + symmetry. apply lookup_ge_None. unfold zlen in Hl. lia.
  - assert (E : u32 (insertCount_ s - a + 1) = insertCount_ s - a + 1 \/
            u32 (insertCount_ s - a + 1) = insertCount_ s - a + 1 + 2 ^ 32) by ilia.
    unfold HeaderTable.isValid.
    rewrite (proj2 (andb_false_iff _ _)); [done|]. rewrite Z.ltb_ge, Z.leb_gt.
    subst a. unfold_ints. lia.
Qed.

Lemma getHeader_absolute s i :
  inv s -> 1 <= i <= insertCount_ s ->
  QPACKHeaderTable.getHeader s 1 i = entries s !! Z.to_nat (insertCount_ s - i).
Proof.
  intros H Hi. pose proof (inv_size s H). rewrite getHeader_based by (done || unfold_ints; lia).
  unfold field. simpl. rewrite (proj2 (Z.leb_le _ _)) by lia. do 2 f_equal. lia.
Qed.

(** Position [j] matches and may be referred to. *)
Definition found (s : t) (n v : list Z) (nameOnly : bool) (j : Z) : Prop :=
  exists h, entries s !! Z.to_nat j = Some h /\ Ring.matches n v nameOnly h = true.

(** What a search of positions [k] to [k + m - 1] returns; [unacked] tells whether a
    match that is not acknowledged was passed. *)
Definition outcome (s : t) (n v : list Z) (nameOnly av unacked : bool) (k m r : Z) : Prop :=
  (exists j, k <= j < k + m /\ r = j + 1 /\ found s n v nameOnly j /\
     (av = true \/ insertCount_ s - j <= ackedInsertCount_ s)) \/
  (r = UNACKED /\ av = false /\
     (unacked = true \/ exists j, k <= j < k + m /\ found s n v nameOnly j) /\
     forall j, k <= j < k + m -> found s n v nameOnly j -> ackedInsertCount_ s < insertCount_ s - j) \/
  (r = 0 /\ unacked = false /\ forall j, k <= j < k + m -> ~ found s n v nameOnly j).

Lemma outcome_skip s n v no av un k m r :
  0 <= m -> outcome s n v no av un (k + 1) m r -> ~ found s n v no k ->
  outcome s n v no av un k (m + 1) r.
Proof.
  intros Hm Ho Hf.
  assert (Hne : forall j, k <= j < k + (m + 1) -> found s n v no j -> k + 1 <= j < k + 1 + m).
  { intros j Hj Hfj. destruct (decide (j = k)) as [->|]; [done|lia]. }
  destruct Ho as [(j & Hj & Hr)|[(-> & Hav & Hw & Hall)|(-> & Hun & Hall)]].
  - left. exists j. split; [lia|done].
  - right; left. split_and!; try done; [|intros j Hj Hfj; apply Hall; auto].
    destruct Hw as [|(j & Hj & Hfj)]; [by left|right; exists j; split; [lia|done]].
  - right; right. split_and!; try done. intros j Hj Hfj. apply (Hall j); auto.
Qed.

Lemma outcome_unacked s n v no un k m r :
  0 <= m -> outcome s n v no false true (k + 1) m r -> found s n v no k ->
  ackedInsertCount_ s < insertCount_ s - k -> outcome s n v no false un k (m + 1) r.
Proof.
  intros Hm Ho Hf Hack.
  destruct Ho as [(j & Hj & Hr)|[(-> & Hav & _ & Hall)|(_ & ? & _)]]; [| |done].
  - left. exists j. split; [lia|done].
  - right; left. split_and!; try done; [right; exists k; split; [lia|done]|].
    intros j Hj Hfj. destruct (decide (j = k)) as [->|]; [done|]. apply Hall; [lia|done].
Qed.

Lemma find_entry_spec s n v nameOnly av (m : nat) : forall k unacked,
  inv s -> 0 <= k -> k + Z.of_nat m <= size_ s -> (unacked = true -> av = false) ->
  exists r, find_entry s v nameOnly av unacked
      (filter (fun i => Ring.name_in (table s) i = n) (Ring.ring_from (table s) k (Z.of_nat m)))
      = Some r /\ outcome s n v nameOnly av unacked k (Z.of_nat m) r.
Proof.
  induction m as [|m IH]; intros k un H Hk Hm Hun.
  { eexists. split; [reflexivity|]. destruct un.
    - right; left. split_and!; try done; [by apply Hun|by left|lia].
    - right; right. split_and!; try done. lia. }
  replace (Z.of_nat (S m)) with (Z.of_nat m + 1) in * by lia.
  pose proof (Ring.wf_size _ (inv_wf s H)) as Hsz. pose proof (size_entries s H) as Hl.
  unfold Ring.ring_from. rewrite seqZ_cons by lia.
  replace (Z.pred (Z.of_nat m + 1)) with (Z.of_nat m) by lia. cbn [fmap list_fmap].
  fold (Ring.ring_from (table s) (Z.succ k) (Z.of_nat m)). change (Z.succ k) with (k + 1).
  set (i := (HeaderTable.head_ (table s) - k) mod HeaderTable.len (table s)).
  destruct (lookup_lt_is_Some_2 (entries s) (Z.to_nat k)) as [h Hh]; [unfold zlen in Hl; lia|].
  pose proof (Ring.slot_entry (table s) k (inv_wf s H) ltac:(lia)) as Hslot. fold i in Hslot.
  rewrite Hh in Hslot.
  assert (Hname : Ring.name_in (table s) i = name h).
  { rewrite Ring.slot_get in Hslot by (apply Z.mod_pos_bound; lia). injection Hslot as <-. done. }
  assert (Hfound : found s n v nameOnly k <-> Ring.matches n v nameOnly h = true).
  { unfold found. rewrite Hh. split; [by intros (? & [= <-] & ?)|eauto]. }
  unfold Ring.matches in Hfound. rewrite <- Hname in Hfound.
  destruct (decide (Ring.name_in (table s) i = n)) as [E|E].
  - rewrite filter_cons_True by done. cbn [find_entry]. rewrite Hslot.
    unfold mbind at 1, option_bind at 1. rewrite bool_decide_eq_true_2 in Hfound by done.
    cbn [andb] in Hfound. destruct (nameOnly || bool_decide (value h = v)).
    + assert (Hext : HeaderTable.toExternal (table s) i = Some (k + 1))
        by (apply Ring.toExternal_slot; [apply H|lia]).
      destruct av; unfold mbind at 1, option_bind at 1.
      * exists (k + 1). split; [done|]. left. exists k.
        split_and!; first [lia | by apply Hfound | by left].
      * unfold i at 1. rewrite slot_absolute by (done || lia). fold i.
        unfold mbind at 1, option_bind at 1.
        destruct (Z.leb_spec (insertCount_ s - k) (ackedInsertCount_ s)).
        -- exists (k + 1). split; [done|]. left. exists k.
           split_and!; first [lia | by apply Hfound | by right].
        -- destruct (IH (k + 1) true H ltac:(lia) ltac:(lia) ltac:(done)) as (r & -> & Ho).
           exists r. split; [done|]. by apply outcome_unacked; [lia| |apply Hfound|].
    + destruct (IH (k + 1) un H ltac:(lia) ltac:(lia) Hun) as (r & -> & Ho).
      exists r. split; [done|]. apply outcome_skip; [lia|done|]. by rewrite Hfound.
  - rewrite filter_cons_False by done.
    destruct (IH (k + 1) un H ltac:(lia) ltac:(lia) Hun) as (r & -> & Ho).
    exists r. split; [done|]. apply outcome_skip; [lia|done|].
    rewrite Hfound, bool_decide_eq_false_2 by done. done.
Qed.

Lemma q_getIndexImpl_spec s n v nameOnly av :
  inv s -> trackReferences_ s = true ->
  exists r, getIndexImpl s n v nameOnly av = Some r /\
    outcome s n v nameOnly av false 0 (size_ s) r.
Proof.
  intros H Ht. pose proof (Ring.wf_size _ (inv_wf s H)).
  assert (Hx : HeaderTable.indexNames_ (table s) = true) by (by rewrite (inv_names s H)).
  destruct (find_entry_spec s n v nameOnly av (Z.to_nat (size_ s)) 0 false H) as (r & Hr & Ho);
    [lia|lia|done|].
  rewrite Z2Nat.id in Hr, Ho by lia. exists r. split; [|done].
  unfold getIndexImpl. rewrite (Ring.wf_names _ (inv_wf s H) Hx n), filter_reverse.
  unfold Ring.ring_from in Hr. fold (Ring.ring (table s)) in Hr.
  destruct (filter _ (Ring.ring (table s))) as [|x l] eqn:Ef; [exact Hr|].
  assert (Hs : NamesIndex.some_list (reverse (x :: l)) = Some (reverse (x :: l))).
  { rewrite reverse_cons. by destruct (reverse l). }
  by rewrite Hs, reverse_involutive.
Qed.

(** ** Deciding to insert *)

Lemma canIndex_spec s h :
  inv s -> hsize h < 2 ^ 31 -> minFree_ s <= capacity_ s ->
  canIndex s (name h) (value h) =
  Some ((hsize h <=? capacity_ s - minFree_ s) &&
        fits (evictable (abs s)) (insertCount_ s) (entries s) (capacity_ s - hsize h)).
Proof.
  intros H Hh Hm. pose proof (bytes_bound s H). pose proof (hsize_min h).
  pose proof (inv_free s H) as Hf. pose proof (Ring.wf_bytes _ (inv_wf s H)) as Hb.
  assert (E : HPACKHeader.bytes_of (u32 (zlen (name h))) (zlen (value h)) = hsize h)
    by exact (bytes_exact h Hh).
  unfold canIndex. rewrite E, (u32_id (capacity_ s - minFree_ s)) by (unfold_ints; lia).
  destruct (Z.leb_spec (hsize h) (capacity_ s - minFree_ s)) as [Hle|]; [|done]. cbn [andb].
  assert (0 <= minFree_ s) by (unfold_ints; lia).
  rewrite u32_id by (unfold_ints; lia).
  destruct (Z.leb_spec (bytes_ s + hsize h) (capacity_ s)).
  - by rewrite fits_all by lia.
  - rewrite u32_id by (unfold_ints; lia). rewrite canEvict_spec by (done || lia).
    do 2 f_equal. lia.
Qed.

End QPACKRing.

(** ** Results *)

Module QPACKTableResults.
Import HPACKHeader HeaderSpec QPACKTableSpec QPACKHeaderTable QPACKRing.

(** What the encoder or the decoder does to its table. *)
Inductive op :=
| OpAdd (h : HPACKHeader.t)
| OpSetCapacity (c : Z)
| OpInsertCountIncrement (n : Z)
| OpSetAcknowledged (n : Z)
| OpSetMinInUse (n : Z).

(** A table that tracks references is not offered a field larger than itself (the
    encoder's [shouldIndex]), and is not told of insertions it has not made. *)
Definition allowed (a : QPACKTableSpec.table) (o : op) : Prop :=
  match o with
  | OpAdd h => hsize h < 2 ^ 31 /\ (tracked a = true -> hsize h <= cap a)
  | OpSetCapacity c => 0 <= c < 2 ^ 31
  | OpInsertCountIncrement n => is_u32 n
  | OpSetAcknowledged n => 0 <= n <= ins a
  | OpSetMinInUse n => is_u32 n
  end.

#[global] Instance allowed_dec a o : Decision (allowed a o).
Proof. destruct o; simpl; unfold is_u32; apply _. Defined.

Definition spec_op (a : QPACKTableSpec.table) (o : op) : bool * QPACKTableSpec.table :=
  match o with
  | OpAdd h => QPACKTableSpec.add a h
  | OpSetCapacity c => QPACKTableSpec.setCapacity a c
  | OpInsertCountIncrement n =>
      if acked a + n <=? ins a then (true, acknowledge a (acked a + n)) else (false, a)
  | OpSetAcknowledged n => (true, acknowledge a (Z.max n (acked a)))
  | OpSetMinInUse n => (true, use a n)
  end.

Definition run_op (s : t) (o : op) : option (bool * t) :=
  match o with
  | OpAdd h => QPACKHeaderTable.add s h
  | OpSetCapacity c => QPACKHeaderTable.setCapacity s c
  | OpInsertCountIncrement n => onInsertCountIncrement s n
  | OpSetAcknowledged n => s ← setAcknowledgedInsertCount s n; Some (true, s)
  | OpSetMinInUse n => Some (true, setMinInUseIndex s n)
  end.

Fixpoint run (s : t) (os : list op) : option (list bool * t) :=
  match os with
  | [] => Some ([], s)
  | o :: os => '(b, s) ← run_op s o; '(bs, s) ← run s os; Some (b :: bs, s)
  end.

Fixpoint spec_run (a : QPACKTableSpec.table) (os : list op) : list bool * QPACKTableSpec.table :=
  match os with
  | [] => ([], a)
  | o :: os => let '(b, a) := spec_op a o in let '(bs, a) := spec_run a os in (b :: bs, a)
  end.

Fixpoint all_allowed (a : QPACKTableSpec.table) (os : list op) : Prop :=
  match os with
  | [] => True
  | o :: os => allowed a o /\ all_allowed (snd (spec_op a o)) os
  end.

#[global] Instance all_allowed_dec a os : Decision (all_allowed a os).
Proof. revert a. induction os; intros; simpl; apply _. Defined.

Definition empty (c : Z) (track : bool) : QPACKTableSpec.table :=
  mkTable c [] 0 0 UINT32_MAX track.

(** The space kept free is the one of the capacity. *)
Definition free_ok (s : t) : Prop :=
  minFree_ s = if trackReferences_ s then getMinFree (capacity_ s) else 0.

Lemma getMinFree_range c : 48 <= getMinFree c <= 512.
Proof. unfold getMinFree, kMinFreeSlice, kMinMinFree, kMaxMinFree. lia. Qed.

Lemma getMinFree_le c : 48 <= c -> getMinFree c <= c.
Proof. unfold getMinFree, kMinFreeSlice, kMinMinFree, kMaxMinFree. ilia. Qed.

Lemma q_create_spec c track :
  0 <= c < 2 ^ 31 ->
  inv (create c track) /\ abs (create c track) = empty c track /\ free_ok (create c track).
Proof.
  intros Hc. destruct (Ring.create_wf c Hc) as [Hw He]. unfold create, free_ok.
  pose proof (getMinFree_range c). destruct track; (split; [|done]).
  - constructor; try done. unfold draining, usable. simpl. unfold_ints. lia.
  - destruct (Ring.disableNamesIndex_wf _ Hw) as [Hw' He']. constructor; try done.
Qed.

(** A change to the acknowledged count or to the index in use leaves the ring. *)
Lemma inv_with s n m :
  inv s -> 0 <= n <= insertCount_ s ->
  inv (setMinInUseIndex (with_acked s n) m).
Proof. intros [] Hn. by constructor. Qed.

Lemma step_refines s o :
  inv s -> free_ok s -> insertCount_ s < UINT32_MAX - 1 -> allowed (abs s) o ->
  exists s', run_op s o = Some (fst (spec_op (abs s) o), s') /\ inv s' /\ free_ok s' /\
    abs s' = snd (spec_op (abs s) o) /\ insertCount_ s' <= insertCount_ s + 1.
Proof.
  intros H Hf Hi Ha. pose proof (inv_acked s H) as Hk. destruct o as [h|c|n|n|n]; simpl in Ha.
  - destruct Ha as [Hh Hsm]. destruct (q_add_spec s h H Hi Hh Hsm) as (s' & HE & H' & Ha' & Hf' & _).
    exists s'. simpl. rewrite HE. destruct (add_frame (abs s) h) as (Hc & Ht & Hn).
    rewrite <- Ha' in *. simpl in Hc, Ht, Hn. split_and!; try done; [|lia].
    unfold free_ok in *. by rewrite Hf', Hf, Ht, Hc.
  - destruct (q_setCapacity_spec s c H Ha) as (s' & HE & H' & Ha' & Hf').
    exists s'. simpl. rewrite HE. destruct (setCapacity_frame (abs s) c) as (_ & Hn).
    rewrite <- Ha' in *. simpl in Hn. split_and!; try done; [by apply Hf'|lia].
  - simpl. unfold onInsertCountIncrement. rewrite !Z.gtb_ltb.
    assert (Hg : (insertCount_ s <? n) || (u32 (insertCount_ s - n) <? ackedInsertCount_ s) =
                 negb (ackedInsertCount_ s + n <=? insertCount_ s)).
    { destruct (Z.ltb_spec (insertCount_ s) n), (Z.leb_spec (ackedInsertCount_ s + n) (insertCount_ s));
        simpl; try lia; try done; rewrite u32_id by (unfold_ints; lia);
        [apply Z.ltb_ge|apply Z.ltb_lt]; lia. }
    rewrite Hg. destruct (Z.leb_spec (ackedInsertCount_ s + n) (insertCount_ s)) as [Hle|]; simpl.
    + rewrite u32_id, (proj2 (Z.leb_le _ _)) by (unfold_ints; lia).
      eexists. split; [reflexivity|]. unfold is_u32 in Ha.
      split_and!; try done; try (simpl; lia).
      exact (inv_with s (ackedInsertCount_ s + n) (minInUseIndex_ s) H ltac:(lia)).
    + exists s. split_and!; try done. lia.
  - simpl. unfold setAcknowledgedInsertCount. simpl in Ha.
    destruct (Z.ltb_spec n (ackedInsertCount_ s)).
    + exists s. rewrite Z.max_r by lia. split_and!; try done. lia.
    + rewrite (proj2 (Z.leb_le _ _)) by lia. eexists. split; [reflexivity|].
      rewrite Z.max_l by lia. split_and!; try done; try (simpl; lia).
      exact (inv_with s n (minInUseIndex_ s) H ltac:(lia)).
  - eexists. split; [reflexivity|]. split_and!; try done; try (simpl; lia).
    exact (inv_with s (ackedInsertCount_ s) n H ltac:(lia)).
Qed.

Lemma q_run_refines os : forall s,
  inv s -> free_ok s -> insertCount_ s + zlen os < UINT32_MAX -> all_allowed (abs s) os ->
  exists s', run s os = Some (fst (spec_run (abs s) os), s') /\ inv s' /\ free_ok s' /\
    abs s' = snd (spec_run (abs s) os) /\ insertCount_ s' <= insertCount_ s + zlen os.
Proof.
  induction os as [|o os IH]; intros s H Hf Hn Ha.
  { exists s. split_and!; try done. unfold zlen. simpl. lia. }
  unfold zlen in Hn |- *. cbn [length] in *. destruct Ha as [Ho Ha]. cbn [run spec_run].
  destruct (step_refines s o H Hf ltac:(lia) Ho) as (s1 & -> & H1 & Hf1 & Ha1 & Hn1).
  unfold mbind, option_bind. rewrite <- Ha1 in Ha.
  destruct (IH s1 H1 Hf1 ltac:(unfold zlen; lia) Ha) as (s' & -> & H' & Hf' & Ha' & Hn').
  rewrite Ha1 in *. destruct (spec_op (abs s) o) as [b a]. cbn [fst snd] in *.
  destruct (spec_run a os) as [bs a']. exists s'. unfold zlen in Hn'. split_and!; try done. lia.
Qed.

(** A table that a sequence of allowed operations leads to. *)
Definition reached (c : Z) (track : bool) (os : list op) (s : t) : Prop :=
  0 <= c < 2 ^ 31 /\ all_allowed (empty c track) os /\ zlen os < 2 ^ 32 - 2 /\
  exists bs, run (create c track) os = Some (bs, s).

Lemma reached_spec c track os s :
  reached c track os s ->
  inv s /\ free_ok s /\ abs s = snd (spec_run (empty c track) os) /\
  insertCount_ s <= zlen os.
Proof.
  intros (Hc & Ha & Hn & bs & HR). destruct (q_create_spec c track Hc) as (H & He & Hf).
  rewrite <- He in Ha.
  destruct (q_run_refines os _ H Hf) as (s' & HR' & H' & Hf' & Ha' & Hn').
  { destruct track; simpl; unfold_ints; lia. } { done. }
  rewrite HR in HR'. injection HR' as _ <-. rewrite He in Ha'. split_and!; try done.
  destruct track; simpl in Hn'; lia.
Qed.

Lemma tracked_run os : forall a, tracked (snd (spec_run a os)) = tracked a.
Proof.
  induction os as [|o os IH]; intros a; [done|]. cbn [spec_run].
  destruct (spec_op a o) as [b a'] eqn:E. specialize (IH a').
  destruct (spec_run a' os) as [bs a'']. simpl in *. rewrite IH.
  assert (a' = snd (spec_op a o)) as -> by (by rewrite E).
  destruct o; simpl; try done.
  - by destruct (add_frame a h) as (_ & -> & _).
  - by destruct (setCapacity_frame a c) as (-> & _).
  - by destruct (_ <=? _).
Qed.

(** C25. The QPACK table implements its specification. For any sequence of fewer than
    2^32 - 2 insertions, capacity changes, acknowledgements and changes of the
    lowest index in use, on a new table of capacity below 2^31, no [CHECK] fails
    and no access leaves the vector; each operation returns what the specification
    on lists returns, which refuses an insertion or a capacity that would evict an
    entry in use or not acknowledged; and [getHeader] reads the field at a relative
    index, and below a base the field with the absolute index [base - i + 1].
    Tables that do not track references (the decoder's) accept fields of any
    size. *)
Theorem qpack_table_refines c track os :
  0 <= c < 2 ^ 31 -> all_allowed (empty c track) os -> zlen os < 2 ^ 32 - 2 ->
  exists s, run (create c track) os = Some (fst (spec_run (empty c track) os), s) /\
    abs s = snd (spec_run (empty c track) os) /\
    bytes_ s = total (entries s) /\ bytes_ s <= capacity_ s /\
    (forall i, 1 <= i < 2 ^ 32 ->
       QPACKHeaderTable.getHeader s i 0 = entries s !! Z.to_nat (i - 1)) /\
    (forall i base, 1 <= i <= base -> base < 2 ^ 32 ->
       QPACKHeaderTable.getHeader s i base = field (abs s) (base - i + 1)).
Proof.
  intros Hc Ha Hn. destruct (q_create_spec c track Hc) as (H & He & Hf). rewrite <- He in Ha.
  destruct (q_run_refines os _ H Hf) as (s & HR & H' & _ & Ha' & _).
  { destruct track; simpl; unfold_ints; lia. } { done. }
  rewrite He in *. exists s. split_and!; try done.
  - apply (Ring.wf_bytes _ (inv_wf s H')).
  - apply (Ring.wf_le _ (inv_wf s H')).
  - intros. by apply getHeader_relative.
  - intros. by apply getHeader_based.
Qed.

(** Four fields of 34 bytes in a table of 150 bytes whose first entry is released and
    evicted, then a capacity below what is in use, which is refused. *)
Definition demo_field (a b : Z) : HPACKHeader.t := HPACKHeader.mk [a] [b].
Definition demo_ops : list op :=
  [OpAdd (demo_field 1 1); OpAdd (demo_field 2 2); OpSetMinInUse 1; OpAdd (demo_field 1 3);
   OpInsertCountIncrement 2; OpAdd (demo_field 4 4); OpAdd (demo_field 5 5); OpSetMinInUse 2;
   OpAdd (demo_field 5 5); OpSetCapacity 60].

Definition demo_table : t := default (create 150 true) (snd <$> run (create 150 true) demo_ops).

Lemma demo_ops_allowed : all_allowed (empty 150 true) demo_ops.
Proof. apply (bool_decide_unpack (all_allowed (empty 150 true) demo_ops)). vm_compute. exact I. Qed.

Lemma demo_reached : reached 150 true demo_ops demo_table.
Proof.
  split_and!; [lia|lia|exact demo_ops_allowed|vm_compute; reflexivity|].
  exists (fst (spec_run (empty 150 true) demo_ops)). vm_compute. reflexivity.
Qed.

Lemma qpack_table_refines_witness :
  exists s, run (create 150 true) demo_ops =
      Some ([true; true; true; true; true; true; false; true; true; false], s) /\
    abs s = mkTable 150 [demo_field 5 5; demo_field 4 4; demo_field 1 3; demo_field 2 2] 5 2 2 true /\
    bytes_ s = total (entries s) /\ bytes_ s <= capacity_ s /\
    (forall i, 1 <= i < 2 ^ 32 ->
       QPACKHeaderTable.getHeader s i 0 = entries s !! Z.to_nat (i - 1)) /\
    (forall i base, 1 <= i <= base -> base < 2 ^ 32 ->
       QPACKHeaderTable.getHeader s i base = field (abs s) (base - i + 1)).
Proof.
  apply (qpack_table_refines 150 true demo_ops); [lia|exact demo_ops_allowed|vm_compute; reflexivity].
Defined.

(** C26. Entries in use stay where they are: from any reachable state of an encoder's
    table, an entry at or above the lowest index in use, or not yet acknowledged,
    can be read at the same absolute index after any further operation. *)
Theorem qpack_entries_pinned c os s o i :
  reached c true os s -> zlen os < 2 ^ 32 - 3 -> allowed (abs s) o ->
  1 <= i <= insertCount_ s -> minInUseIndex_ s <= i \/ ackedInsertCount_ s < i ->
  exists b s', run_op s o = Some (b, s') /\
    QPACKHeaderTable.getHeader s' 1 i = QPACKHeaderTable.getHeader s 1 i.
Proof.
  intros HR Hn Ho Hi Hp. destruct (reached_spec c true os s HR) as (H & Hf & Ha & Hic).
  destruct (step_refines s o H Hf) as (s' & HE & H' & _ & Ha' & _); [unfold_ints; lia|done|].
  pose proof (inv_size s H).
  eexists _, s'. split; [exact HE|]. rewrite !getHeader_based by (done || unfold_ints; lia).
  replace (i - 1 + 1) with i by lia. rewrite Ha'.
  assert (Ht : tracked (abs s) = true).
  { rewrite Ha. apply tracked_run. }
  assert (Hev : evictable (abs s) i = false).
  { unfold evictable. rewrite Ht. simpl. apply andb_false_iff. rewrite Z.ltb_ge, Z.leb_gt. lia. }
  destruct o; simpl in *; try done.
  - apply add_keeps; [by apply Ho|done|simpl; lia].
  - by apply setCapacity_keeps; [|simpl; lia].
  - by destruct (_ <=? _).
Qed.

Lemma qpack_entries_pinned_witness :
  exists b s', run_op demo_table (OpSetCapacity 100) = Some (b, s') /\
    QPACKHeaderTable.getHeader s' 1 3 = QPACKHeaderTable.getHeader demo_table 1 3.
Proof.
  apply (qpack_entries_pinned 150 demo_ops demo_table (OpSetCapacity 100) 3 demo_reached).
  - vm_compute. reflexivity.
  - simpl. lia.
  - change (insertCount_ demo_table) with 5. lia.
  - right. vm_compute. reflexivity.
Defined.

(** What an insertion that [canIndex] lets through does. *)
Lemma insert_indexed s h :
  inv s -> free_ok s -> trackReferences_ s = true -> insertCount_ s < UINT32_MAX - 1 ->
  48 <= capacity_ s -> hsize h < 2 ^ 31 -> canIndex s (name h) (value h) = Some true ->
  exists s', QPACKHeaderTable.add s h = Some (true, s') /\
    QPACKHeaderTable.getHeader s' 1 0 = Some h /\
    QPACKHeaderTable.getHeader s' 1 (insertCount_ s') = Some h /\ minUsable_ s' <= insertCount_ s' /\
    insertCount_ s' = insertCount_ s + 1 /\ minFree_ s' = getMinFree (capacity_ s') /\
    minFree_ s' <= capacity_ s' - bytes_ s' + drainedBytes_ s'.
Proof.
  intros H Hf Ht Hi Hc Hh HC. unfold free_ok in Hf. rewrite Ht in Hf.
  pose proof (getMinFree_range (capacity_ s)). pose proof (getMinFree_le (capacity_ s) Hc).
  rewrite canIndex_spec in HC by (done || lia). injection HC as [Hsz%Z.leb_le Hfit]%andb_prop.
  destruct (q_add_spec s h H) as (s' & HE & H' & Ha' & Hf' & Hk); [done|done|lia|].
  unfold QPACKTableSpec.add in HE, Ha', Hk. simpl in HE, Ha', Hk.
  rewrite (proj2 (Z.leb_le _ _)), Hfit in HE, Ha', Hk by lia. simpl in HE, Ha', Hk.
  destruct (Hk eq_refl) as [Hd [Hu _]]; [done|lia|].
  exists s'. split; [done|]. unfold abs in Ha'. injection Ha' as Hc' He' Hi' _ _ _.
  pose proof (inv_size s' H'). pose proof (inv_size s H). pose proof (Ring.wf_size _ (inv_wf s H)).
  unfold usable in *. split_and!; try lia.
  - rewrite getHeader_relative by (done || lia). by rewrite He'.
  - rewrite getHeader_absolute by (done || lia). by rewrite Z.sub_diag, He'.
  - congruence.
  - destruct Hd; unfold usable in *; lia.
Qed.

(** [canIndex] is the guard [add] needs: in any reachable state of a table of at
    least 48 bytes it returns, and if it returns [true] then [add] succeeds (the
    encoder's [CHECK] holds), the new entry is the newest and is not draining, and
    the space that is free or draining is at least [minFree_]. *)
Theorem qpack_canIndex_add c os s h :
  reached c true os s -> zlen os < 2 ^ 32 - 3 -> 48 <= capacity_ s -> hsize h < 2 ^ 31 ->
  exists ok, canIndex s (name h) (value h) = Some ok /\
    (ok = true -> exists s', QPACKHeaderTable.add s h = Some (true, s') /\
       QPACKHeaderTable.getHeader s' 1 0 = Some h /\ isDraining s' 1 = false /\
       minFree_ s' = getMinFree (capacity_ s') /\
       minFree_ s' <= capacity_ s' - bytes_ s' + drainedBytes_ s').
Proof.
  intros HR Hn Hc Hh. destruct (reached_spec c true os s HR) as (H & Hf & Ha & Hic).
  assert (Ht : trackReferences_ s = true).
  { change (tracked (abs s) = true). rewrite Ha. apply tracked_run. }
  unfold free_ok in Hf. rewrite Ht in Hf. pose proof (getMinFree_range (capacity_ s)).
  pose proof (getMinFree_le (capacity_ s) Hc).
  rewrite canIndex_spec by (done || lia). eexists. split; [reflexivity|]. intros Hok.
  destruct (insert_indexed s h H) as (s' & HE & Hg & _ & Hu & Hi' & Hm & Hd); try done.
  { unfold free_ok. by rewrite Ht. } { unfold_ints; lia. }
  { rewrite canIndex_spec by (done || lia). by rewrite Hok. }
  exists s'. split_and!; try done. unfold isDraining, relativeToAbsolute. apply Z.ltb_ge.
  pose proof (Ring.wf_size _ (inv_wf s H)). pose proof (inv_size s H).
  rewrite u32_id by (unfold_ints; lia). lia.
Qed.

(** A larger table, where the draining starts before the table is full. *)
Definition big_ops : list op :=
  [OpAdd (demo_field 1 1); OpAdd (demo_field 2 2); OpInsertCountIncrement 2;
   OpSetMinInUse 2; OpAdd (demo_field 1 3)].
Definition big_table : t := default (create 150 true) (snd <$> run (create 150 true) big_ops).

Lemma big_reached : reached 150 true big_ops big_table.
Proof.
  split_and!; [lia|lia|vm_compute|vm_compute; reflexivity|]; [intuition discriminate|].
  exists [true; true; true; true; true]. vm_compute. reflexivity.
Qed.

(** Lookups of the encoder: [getIndex] returns 0 only if no entry has the field,
    [UNACKED] only if vulnerable references are not allowed and all entries with
    the field are unacknowledged, and otherwise the index of an entry with the
    field, acknowledged unless vulnerable references are allowed. *)
Theorem qpack_getIndex c os s n v allowVulnerable :
  reached c true os s ->
  exists r, QPACKHeaderTable.getIndex s n v allowVulnerable = Some r /\
    (r = 0 -> HPACKHeader.mk n v ∉ entries s) /\
    (r = UNACKED -> allowVulnerable = false /\ HPACKHeader.mk n v ∈ entries s /\
       forall j, entries s !! j = Some (HPACKHeader.mk n v) ->
         isVulnerable s (insertCount_ s - Z.of_nat j) = true) /\
    (r <> 0 -> r <> UNACKED ->
       QPACKHeaderTable.getHeader s r 0 = Some (HPACKHeader.mk n v) /\
       (allowVulnerable = false -> isVulnerable s (relativeToAbsolute s r) = false)).
Proof.
  intros HR. destruct (reached_spec c true os s HR) as (H & Hf & Ha & Hic).
  assert (Ht : trackReferences_ s = true).
  { change (tracked (abs s) = true). rewrite Ha. apply tracked_run. }
  destruct (q_getIndexImpl_spec s n v false allowVulnerable H Ht) as (r & HE & Ho).
  exists r. split; [exact HE|].
  pose proof (size_entries s H) as Hl. pose proof (Ring.wf_size _ (inv_wf s H)).
  pose proof (Ring.wf_len _ (inv_wf s H)). pose proof (inv_size s H).
  assert (Hm : forall j, found s n v false j <-> entries s !! Z.to_nat j = Some (HPACKHeader.mk n v)).
  { intros j. unfold found, Ring.matches. split.
    - intros ([hn hv] & Hj & [E1%bool_decide_eq_true E2%bool_decide_eq_true]%andb_prop).
      simpl in E1, E2. by subst.
    - intros Hj. eexists. split; [exact Hj|]. simpl. by rewrite !bool_decide_eq_true_2. }
  assert (Hin : HPACKHeader.mk n v ∈ entries s -> exists j, 0 <= j < 0 + size_ s /\ found s n v false j).
  { intros [j Hj]%list_elem_of_lookup_1. pose proof (lookup_lt_Some _ _ _ Hj).
    exists (Z.of_nat j). split; [unfold zlen in Hl; lia|]. apply Hm. by rewrite Nat2Z.id. }
  assert (HU : UNACKED = 4294967295) by done.
  destruct Ho as [(j & Hj & -> & Hfj & Hok)|[(-> & -> & Hex & Hall)|(-> & _ & Hall)]].
  - split_and!; [lia|rewrite HU; lia|]. intros _ _. apply Hm in Hfj.
    split; [rewrite getHeader_relative by (done || unfold_ints; lia)|].
    + by replace (j + 1 - 1) with j by lia.
    + intros ->. destruct Hok as [|Hok]; [done|]. unfold isVulnerable, relativeToAbsolute.
      rewrite Z.gtb_ltb, u32_id by (unfold_ints; lia). apply Z.ltb_ge. lia.
  - split_and!; [done| |done]. intros _. split; [done|]. split.
    + destruct Hex as [|(j & _ & Hfj)]; [done|]. apply Hm in Hfj. by eapply list_elem_of_lookup_2.
    + intros j Hj. pose proof (lookup_lt_Some _ _ _ Hj). unfold isVulnerable. rewrite Z.gtb_ltb.
      apply Z.ltb_lt, Hall; [unfold zlen in Hl; lia|]. apply Hm. by rewrite Nat2Z.id.
  - split_and!; [|done|done]. intros _ Hx. destruct (Hin Hx) as (j & Hj & Hfj). by apply (Hall j).
Qed.

(** References to draining entries are replaced: for a valid index, [maybeDuplicate]
    does not abort; an index it returns is the absolute index of the same field,
    and not draining; it reports a duplication exactly when the field was inserted
    again, and leaves the table alone otherwise. A duplicate is only returned as an
    index when vulnerable references are allowed. *)
Theorem qpack_maybeDuplicate c os s r allowVulnerable :
  reached c true os s -> zlen os < 2 ^ 32 - 3 -> 48 <= capacity_ s -> 1 <= r <= size_ s ->
  exists d i s', maybeDuplicate s r allowVulnerable = Some ((d, i), s') /\
    (d = false -> s' = s) /\
    (d = true -> insertCount_ s' = insertCount_ s + 1 /\
       QPACKHeaderTable.getHeader s' 1 0 = QPACKHeaderTable.getHeader s r 0) /\
    (i <> 0 -> minUsable_ s' <= i <= insertCount_ s' /\
       QPACKHeaderTable.getHeader s' 1 i = QPACKHeaderTable.getHeader s r 0 /\
       (d = true -> allowVulnerable = true)).
Proof.
  intros HR Hn Hc Hr. destruct (reached_spec c true os s HR) as (H & Hf & Ha & Hic).
  assert (Ht : trackReferences_ s = true).
  { change (tracked (abs s) = true). rewrite Ha. apply tracked_run. }
  pose proof (size_entries s H) as Hl. pose proof (Ring.wf_size _ (inv_wf s H)).
  pose proof (Ring.wf_len _ (inv_wf s H)). pose proof (inv_size s H).
  destruct (lookup_lt_is_Some_2 (entries s) (Z.to_nat (r - 1))) as [h Hh]; [unfold zlen in Hl; lia|].
  assert (Hg : QPACKHeaderTable.getHeader s r 0 = Some h)
    by (rewrite getHeader_relative by (done || unfold_ints; lia); done).
  assert (Hsz : hsize h < 2 ^ 31)
    by (apply (Ring.entry_small (table s)); [apply H|by eapply list_elem_of_lookup_2]).
  unfold maybeDuplicate. rewrite (proj2 (Z.eqb_neq r UNACKED)) by (unfold UNACKED; unfold_ints; lia).
  unfold relativeToAbsolute. rewrite u32_id by (unfold_ints; lia).
  destruct (Z.ltb_spec (insertCount_ s - r + 1) (minUsable_ s)) as [Hd|Hd].
  - rewrite Hg. unfold mbind, option_bind.
    destruct (canIndex s (name h) (value h)) as [[]|] eqn:EC.
    + destruct (insert_indexed s h H Hf Ht) as (s' & -> & Hg' & Hga & Hu & Hi' & _); try done;
        [unfold_ints; lia|].
      eexists true, _, s'. split; [reflexivity|]. split_and!; try done.
      destruct allowVulnerable; [|done]. intros _. split_and!; try done; lia.
    + by eexists false, 0, s.
    + exfalso. unfold free_ok in Hf. rewrite Ht in Hf. pose proof (getMinFree_le (capacity_ s) Hc).
      rewrite canIndex_spec in EC by (done || lia). done.
  - eexists false, _, s. split; [reflexivity|]. split_and!; try done. intros _.
    split_and!; try lia. rewrite Hg, getHeader_absolute by (done || lia).
    by replace (insertCount_ s - (insertCount_ s - r + 1)) with (r - 1) by lia.
Qed.

(** A relative index past the base wraps: with 5 insertions and base 3, index
    2^32 - 1 is taken for the newest entry. *)
Theorem qpack_isValid_wraps :
  isValid demo_table UINT32_MAX 3 = true /\
  QPACKHeaderTable.getHeader demo_table UINT32_MAX 3 = QPACKHeaderTable.getHeader demo_table 1 5.
Proof. vm_compute. split; reflexivity. Qed.

End QPACKTableResults.
