(* ===== verification/QPACKContext.v ===== *)
(** * The indexing context of QPACK
    ([src/proxygen/proxygen/lib/http/codec/compress/HPACKConstants.h],
    [QPACKStaticHeaderTable.cpp], [QPACKContext.cpp], [QPACKContext.h])

    [QPACK] holds the instruction patterns of RFC 9204, [QPACKStaticHeaderTable]
    its static table (numbered from 1 inside the program, from 0 on the wire), and
    [QPACKContext] the state that the encoder and the decoder share: a dynamic
    table and three counters.  [QPACKStaticSpec] says what a lookup in the static
    table returns. *)

From Stdlib Require Import Ascii String.
From stdpp Require Import gmap.
From S2P Require Import Prelude HPACKBuffers HeaderTable HPACKContext QPACKHeaderTable.

(** ** Instruction patterns *)

Module QPACK.
Import HPACK.

(** Encoder stream. *)
Definition Q_INSERT_NAME_REF : Instruction := mkInstruction 0x80 6.
Definition Q_INSERT_NO_NAME_REF : Instruction := mkInstruction 0x40 5.
Definition Q_TABLE_SIZE_UPDATE : Instruction := mkInstruction 0x20 5.
Definition Q_DUPLICATE : Instruction := mkInstruction 0x00 5.

(** Decoder stream. *)
Definition Q_HEADER_ACK : Instruction := mkInstruction 0x80 7.
Definition Q_CANCEL_STREAM : Instruction := mkInstruction 0x40 6.
Definition Q_INSERT_COUNT_INC : Instruction := mkInstruction 0x00 6.

(** The prefix of a header block. *)
Definition Q_DELTA_BASE_NEG : Z := 0x80.
Definition Q_DELTA_BASE_POS : Z := 0x00.
Definition Q_DELTA_BASE : Instruction := mkInstruction 0x00 7.

(** The fields of a header block. *)
Definition Q_INDEXED : Instruction := mkInstruction 0x80 6.
Definition Q_INDEXED_POST : Instruction := mkInstruction 0x10 4.
Definition Q_LITERAL_NAME_REF : Instruction := mkInstruction 0x40 4.
Definition Q_LITERAL_NAME_REF_POST : Instruction := mkInstruction 0x00 3.
Definition Q_LITERAL : Instruction := mkInstruction 0x20 3.

Definition Q_INDEXED_STATIC : Z := 0x40.
Definition Q_INSERT_NAME_REF_STATIC : Z := 0x40.
Definition Q_LITERAL_STATIC : Z := 0x10.

Definition kDefaultBlocking : Z := 100.

End QPACK.

(** ** The static table *)

Module QPACKStaticHeaderTable.

Definition s_tableEntries : list (string * string) :=
  [(":authority", EmptyString);
   (":path", "/");
   ("age", "0");
   ("content-disposition", EmptyString);
   ("content-length", "0");
   ("cookie", EmptyString);
   ("date", EmptyString);
   ("etag", EmptyString);
   ("if-modified-since", EmptyString);
   ("if-none-match", EmptyString);
   ("last-modified", EmptyString);
   ("link", EmptyString);
   ("location", EmptyString);
   ("referer", EmptyString);
   ("set-cookie", EmptyString);
   (":method", "CONNECT");
   (":method", "DELETE");
   (":method", "GET");
   (":method", "HEAD");
   (":method", "OPTIONS");
   (":method", "POST");
   (":method", "PUT");
   (":scheme", "http");
   (":scheme", "https");
   (":status", "103");
   (":status", "200");
   (":status", "304");
   (":status", "404");
   (":status", "503");
   ("accept", "*/*");
   ("accept", "application/dns-message");
   ("accept-encoding", "gzip, deflate, br");
   ("accept-ranges", "bytes");
   ("access-control-allow-headers", "cache-control");
   ("access-control-allow-headers", "content-type");
   ("access-control-allow-origin", "*");
   ("cache-control", "max-age=0");
   ("cache-control", "max-age=2592000");
   ("cache-control", "max-age=604800");
   ("cache-control", "no-cache");
   ("cache-control", "no-store");
   ("cache-control", "public, max-age=31536000");
   ("content-encoding", "br");
   ("content-encoding", "gzip");
   ("content-type", "application/dns-message");
   ("content-type", "application/javascript");
   ("content-type", "application/json");
   ("content-type", "application/x-www-form-urlencoded");
   ("content-type", "image/gif");
   ("content-type", "image/jpeg");
   ("content-type", "image/png");
   ("content-type", "text/css");
   ("content-type", "text/html; charset=utf-8");
   ("content-type", "text/plain");
   ("content-type", "text/plain;charset=utf-8");
   ("range", "bytes=0-");
   ("strict-transport-security", "max-age=31536000");
   ("strict-transport-security", "max-age=31536000; includesubdomains");
   ("strict-transport-security", "max-age=31536000; includesubdomains; preload");
   ("vary", "accept-encoding");
   ("vary", "origin");
   ("x-content-type-options", "nosniff");
   ("x-xss-protection", "1; mode=block");
   (":status", "100");
   (":status", "204");
   (":status", "206");
   (":status", "302");
   (":status", "400");
   (":status", "403");
   (":status", "421");
   (":status", "425");
   (":status", "500");
   ("accept-language", EmptyString);
   ("access-control-allow-credentials", "FALSE");
   ("access-control-allow-credentials", "TRUE");
   ("access-control-allow-headers", "*");
   ("access-control-allow-methods", "get");
   ("access-control-allow-methods", "get, post, options");
   ("access-control-allow-methods", "options");
   ("access-control-expose-headers", "content-length");
   ("access-control-request-headers", "content-type");
   ("access-control-request-method", "get");
   ("access-control-request-method", "post");
   ("alt-svc", "clear");
   ("authorization", EmptyString);
   ("content-security-policy", "script-src 'none'; object-src 'none'; base-uri 'none'");
   ("early-data", "1");
   ("expect-ct", EmptyString);
   ("forwarded", EmptyString);
   ("if-range", EmptyString);
   ("origin", EmptyString);
   ("purpose", "prefetch");
   ("server", EmptyString);
   ("timing-allow-origin", "*");
   ("upgrade-insecure-requests", "1");
   ("user-agent", EmptyString);
   ("x-forwarded-for", EmptyString);
   ("x-frame-options", "deny");
   ("x-frame-options", "sameorigin")]%string.

Definition kEntriesSize : Z := 99.

(** [QPACKStaticHeaderTable::get()]. *)
Definition staticTable : HeaderTable.t :=
  default (HeaderTable.create 0) (StaticHeaderTable.create s_tableEntries).

End QPACKStaticHeaderTable.

(** ** The context *)

Module QPACKContext.

Record t := mk {
  table_ : QPACKHeaderTable.t; blockedInsertions_ : Z; duplications_ : Z; staticRefs_ : Z }.

Definition create (tableSize : Z) (trackReferences : bool) : t :=
  mk (QPACKHeaderTable.create tableSize trackReferences) 0 0 0.

Definition with_table (c : t) (tbl : QPACKHeaderTable.t) : t :=
  mk tbl (blockedInsertions_ c) (duplications_ c) (staticRefs_ c).
Definition blocked_insertion (c : t) : t :=
  mk (table_ c) (u32 (blockedInsertions_ c + 1)) (duplications_ c) (staticRefs_ c).
Definition duplication (c : t) : t :=
  mk (table_ c) (blockedInsertions_ c) (u32 (duplications_ c + 1)) (staticRefs_ c).
Definition static_ref (c : t) : t :=
  mk (table_ c) (blockedInsertions_ c) (duplications_ c) (u32 (staticRefs_ c + 1)).

Definition getInsertCount (c : t) : Z := QPACKHeaderTable.insertCount_ (table_ c).

(** [HPACKHeader::kMinLength] is 32. *)
Definition getMaxEntries (tableSize : Z) : Z := tableSize / HPACKHeader.kMinLength.

Definition getHeader (c : t) (isStatic : bool) (index base : Z) (aboveBase : bool)
  : option (HPACKHeader.t * t) :=
  if isStatic then
    h ← HeaderTable.getHeader QPACKStaticHeaderTable.staticTable index;
    Some (h, static_ref c)
  else if aboveBase then
    if base <=? UINT32_MAX - index then
      h ← QPACKHeaderTable.getHeader (table_ c) 1 (u32 (base + index)); Some (h, c)
    else None
  else h ← QPACKHeaderTable.getHeader (table_ c) index base; Some (h, c).

(** [CHECK(table_.add(header))] for each header. *)
Fixpoint addAll (s : QPACKHeaderTable.t) (headers : list HPACKHeader.t)
  : option QPACKHeaderTable.t :=
  match headers with
  | [] => Some s
  | h :: headers =>
      '(ok, s) ← QPACKHeaderTable.add s h; if (ok : bool) then addAll s headers else None
  end.

Definition seedHeaderTable (c : t) (headers : list HPACKHeader.t) : option t :=
  with_table c <$> addAll (table_ c) headers.

End QPACKContext.

(** ** Lookups in the static table *)

Module QPACKStaticSpec.
Import HPACKHeader HeaderSpec Ring QPACKStaticHeaderTable.

Definition fields : list HPACKHeader.t := StaticHeaderTable.fields s_tableEntries.

Lemma q_static_is_some :
  (if StaticHeaderTable.create s_tableEntries is Some _ then true else false) = true.
Proof. vm_compute. reflexivity. Qed.

Lemma q_create_some : StaticHeaderTable.create s_tableEntries = Some staticTable.
Proof.
  unfold staticTable. generalize q_static_is_some.
  generalize (StaticHeaderTable.create s_tableEntries). intros [s|] H; [reflexivity|discriminate H].
Qed.

#[global] Opaque staticTable.

(** The bytes of the 99 fields. *)
Definition byteCount : Z := 5194.

Lemma q_byteCount : foldl (fun n h => u32 (n + bytes h)) 0 fields = byteCount.
Proof. vm_compute. reflexivity. Qed.

Lemma q_total_static : total (reverse fields) = byteCount.
Proof. vm_compute. reflexivity. Qed.

Lemma q_staticTable_ok :
  wf staticTable /\ entries staticTable = fields /\ HeaderTable.indexNames_ staticTable = true.
Proof.
  destruct (StaticHeaderTable.create_spec s_tableEntries byteCount q_byteCount q_total_static
    ltac:(unfold byteCount; lia)) as (s & Hs & Hok).
  pose proof q_create_some as Hc. rewrite Hs in Hc. by apply (inj Some) in Hc as <-.
Qed.

Lemma q_static_size : HeaderTable.size_ staticTable = kEntriesSize.
Proof.
  destruct q_staticTable_ok as (Hw & He & _). rewrite <- (length_entries _ Hw), He.
  vm_compute. reflexivity.
Qed.

(** The field at a position, counted from 1. *)
Definition static_field (i : Z) : option HPACKHeader.t :=
  if (1 <=? i) && (i <=? kEntriesSize) then fields !! Z.to_nat (i - 1) else None.

Lemma q_static_isValid i :
  HeaderTable.isValid staticTable i = (1 <=? i) && (i <=? kEntriesSize).
Proof.
  unfold HeaderTable.isValid. rewrite q_static_size. f_equal.
  destruct (Z.ltb_spec 0 i), (Z.leb_spec 1 i); lia || done.
Qed.

Lemma q_static_getHeader i : is_u32 i -> HeaderTable.getHeader staticTable i = static_field i.
Proof.
  intros Hi. destruct q_staticTable_ok as (Hw & He & _).
  by rewrite (getHeader_spec _ _ Hw Hi), He, q_static_isValid.
Qed.

Lemma static_field_is_Some i : 1 <= i <= kEntriesSize -> is_Some (static_field i).
Proof.
  intros Hi. unfold static_field. rewrite !(proj2 (Z.leb_le _ _)) by lia. cbn [andb].
  apply lookup_lt_is_Some_2. change (length fields) with 99%nat. unfold kEntriesSize in Hi. lia.
Qed.

(** A lookup of a field or a name. *)
Lemma q_static_getIndex n v :
  exists i j, HeaderTable.getIndex staticTable n v = Some (i, j) /\ 0 <= i <= kEntriesSize /\
    (i <> 0 -> static_field i = Some (HPACKHeader.mk n v)).
Proof.
  destruct q_staticTable_ok as (Hw & _ & Hx).
  destruct (HeaderTableResults.getIndex_spec staticTable n v Hw Hx)
    as (i & j & HG & Hi & _ & HiS & _).
  rewrite q_static_size in Hi. exists i, j.
  split; [exact HG|]. split; [exact Hi|]. intros Hi0.
  rewrite <- q_static_getHeader by (unfold kEntriesSize in Hi; unfold_ints; lia). by apply HiS.
Qed.

Lemma q_static_nameIndex n :
  exists j, HeaderTable.nameIndex staticTable n = Some j /\ 0 <= j <= kEntriesSize /\
    (j <> 0 -> exists v, static_field j = Some (HPACKHeader.mk n v)).
Proof.
  destruct q_staticTable_ok as (Hw & He & Hx). unfold HeaderTable.nameIndex.
  rewrite getIndexImpl_spec by done. eexists. split; [reflexivity|]. cbn [fst].
  pose proof (HeaderTableResults.find_index_spec (matches n [] true) (entries staticTable)) as Hs.
  pose proof (length_entries _ Hw) as Hlen. rewrite q_static_size in Hlen.
  unfold zlen, kEntriesSize in *.
  destruct (find_index _ _) as [|p|p]; [split; [lia|intros []; reflexivity]| |destruct Hs; lia].
  destruct Hs as (_ & h & Hl & Hm & _). pose proof (lookup_lt_Some _ _ _ Hl).
  split; [lia|]. intros _. unfold static_field, kEntriesSize.
  rewrite !(proj2 (Z.leb_le _ _)) by lia. cbn [andb]. rewrite <- He, Hl.
  unfold matches in Hm. apply andb_prop in Hm as [Hm%bool_decide_eq_true _].
  destruct h as [hn hv]. simpl in Hm. exists hv. congruence.
Qed.

End QPACKStaticSpec.
