(* ===== verification/QPACKEncoder.v ===== *)
(** * The QPACK encoder
    ([src/proxygen/proxygen/lib/http/codec/compress/QPACKEncoder.cpp], [.h],
    [HPACKEncoderBase.cpp], [.h])

    A field becomes a reference to the static or the dynamic table, or a literal
    whose name may be a reference; insertions and duplications go to the encoder
    stream.  A block that refers to the dynamic table is outstanding until the
    decoder acknowledges it or the stream is cancelled, and while it is, the
    smallest index it uses keeps the table from evicting what it needs.

    [encodeHeaderQ] is written in the four parts of the source's body: the lookup
    of the field, the insertion with the lookup of the name, the literal, and the
    reference.  [None] is a failed [CHECK], a division by zero, or an index out of
    range. *)

From stdpp Require Import gmap.
From S2P Require Import Prelude Huffman HPACKBuffers HeaderTable HPACKContext QPACKHeaderTable.
From S2P Require Import QPACKContext.

Module QPACKEncoder.
Import HPACK QPACK HPACKHeaderName QPACKContext.
Module DB := HPACKDecodeBuffer.

Definition kMaxHeaderTableSize : Z := Z.shiftl 1 16.
Definition kDefaultMaxOutstandingListSize : Z := Z.shiftl 1 8.
Definition kBufferGrowth : Z := 4000.

(** The dynamic table references of a block. *)
Record OutstandingBlock := mkBlock {
  minInUseIndex : Z; maxInUseIndex : Z; vulnerable : bool }.

Definition no_references : OutstandingBlock := mkBlock UINT32_MAX 0 false.

(** The members that track references; [outstanding_] maps a stream to its
    unacknowledged blocks, oldest first. *)
Record refs := mkRefs {
  outstanding_ : gmap Z (list OutstandingBlock); outstandingMins_ : list Z;
  minOutstandingMin_ : Z; curOutstanding_ : OutstandingBlock;
  numVulnerable_ : Z; numOutstandingBlocks_ : Z }.

(** The members that configure the encoder; a strategy is its [indexHeader]. *)
Record config := mkConfig {
  indexingStrat_ : option (list Z -> list Z -> bool -> bool);
  maxVulnerable_ : Z; maxTableSize_ : Z; maxNumOutstandingBlocks_ : Z }.

Record t := mk {
  ctx : QPACKContext.t; streamBuffer_ : HPACKEncodeBuffer.t; controlBuffer_ : HPACKEncodeBuffer.t;
  pendingContextUpdate_ : bool; maxEncoderStreamBytes_ : Z; decoderIngress_ : list Z;
  refs_ : refs; config_ : config }.

Definition table_ (e : t) : QPACKHeaderTable.t := QPACKContext.table_ (ctx e).

Definition with_ctx (e : t) (c : QPACKContext.t) : t :=
  mk c (streamBuffer_ e) (controlBuffer_ e) (pendingContextUpdate_ e) (maxEncoderStreamBytes_ e)
    (decoderIngress_ e) (refs_ e) (config_ e).
Definition with_table (e : t) (tbl : QPACKHeaderTable.t) : t :=
  with_ctx e (QPACKContext.with_table (ctx e) tbl).
Definition with_stream (e : t) (b : HPACKEncodeBuffer.t) : t :=
  mk (ctx e) b (controlBuffer_ e) (pendingContextUpdate_ e) (maxEncoderStreamBytes_ e)
    (decoderIngress_ e) (refs_ e) (config_ e).
(** The control buffer, and the bytes left for the encoder stream. *)
Definition with_control (e : t) (b : HPACKEncodeBuffer.t) (n : Z) : t :=
  mk (ctx e) (streamBuffer_ e) b (pendingContextUpdate_ e) n (decoderIngress_ e) (refs_ e)
    (config_ e).
Definition with_pending (e : t) (p : bool) : t :=
  mk (ctx e) (streamBuffer_ e) (controlBuffer_ e) p (maxEncoderStreamBytes_ e)
    (decoderIngress_ e) (refs_ e) (config_ e).
Definition with_ingress (e : t) (l : list Z) : t :=
  mk (ctx e) (streamBuffer_ e) (controlBuffer_ e) (pendingContextUpdate_ e)
    (maxEncoderStreamBytes_ e) l (refs_ e) (config_ e).
Definition with_refs (e : t) (r : refs) : t :=
  mk (ctx e) (streamBuffer_ e) (controlBuffer_ e) (pendingContextUpdate_ e)
    (maxEncoderStreamBytes_ e) (decoderIngress_ e) r (config_ e).
Definition with_config (e : t) (c : config) : t :=
  mk (ctx e) (streamBuffer_ e) (controlBuffer_ e) (pendingContextUpdate_ e)
    (maxEncoderStreamBytes_ e) (decoderIngress_ e) (refs_ e) c.

(** ** Configuration *)

Section create.
Context `{CH : CommonHeaders}.

(** The constructor: the default strategy, whose Huffman limits the stream buffer
    takes. *)
Definition create (huffman : bool) (tableSize : Z) : t :=
  mk (QPACKContext.create tableSize true)
    (HPACKEncodeBuffer.setHuffmanLimits (HPACKEncodeBuffer.create kBufferGrowth huffman)
       HeaderIndexingStrategy.getHuffmanLimits)
    (HPACKEncodeBuffer.create kBufferGrowth huffman) false 0 []
    (mkRefs ∅ [] UINT32_MAX no_references 0 0)
    (mkConfig (Some HeaderIndexingStrategy.indexHeader) kDefaultBlocking tableSize
       kDefaultMaxOutstandingListSize).

End create.

Definition setHeaderIndexingStrategy (e : t)
    (strat : option ((list Z -> list Z -> bool -> bool) * (Z * Z))) : t :=
  let e := with_config e (mkConfig (fst <$> strat) (maxVulnerable_ (config_ e))
             (maxTableSize_ (config_ e)) (maxNumOutstandingBlocks_ (config_ e))) in
  match strat with
  | Some (_, limits) => with_stream e (HPACKEncodeBuffer.setHuffmanLimits (streamBuffer_ e) limits)
  | None => e
  end.

Definition setMaxVulnerable (e : t) (n : Z) : t :=
  with_config e (mkConfig (indexingStrat_ (config_ e)) n (maxTableSize_ (config_ e))
    (maxNumOutstandingBlocks_ (config_ e))).

Definition setMaxNumOutstandingBlocks (e : t) (value : Z) : t :=
  with_config e (mkConfig (indexingStrat_ (config_ e)) (maxVulnerable_ (config_ e))
    (maxTableSize_ (config_ e)) value).

Definition setMaxTableSize (e : t) (n : Z) : t :=
  with_config e (mkConfig (indexingStrat_ (config_ e)) (maxVulnerable_ (config_ e)) n
    (maxNumOutstandingBlocks_ (config_ e))).

(** [HPACKEncoderBase::setHeaderTableSize]. *)
Definition base_setHeaderTableSize (e : t) (size : Z) : option t :=
  if negb (size =? QPACKHeaderTable.capacity_ (table_ e)) then
    '(ok, tbl) ← QPACKHeaderTable.setCapacity (table_ e) size;
    if (ok : bool) then Some (with_pending (with_table e tbl) true) else None
  else Some e.

Definition setHeaderTableSize (e : t) (tableSize : Z) (updateMax : bool) : option (bool * t) :=
  if updateMax && negb (maxTableSize_ (config_ e) =? 0) &&
     negb (maxTableSize_ (config_ e) =? tableSize)
  then Some (false, e)
  else
    let e := if updateMax then setMaxTableSize e tableSize else e in
    let tableSize := if tableSize >? kMaxHeaderTableSize then kMaxHeaderTableSize else tableSize in
    e ← base_setHeaderTableSize e tableSize;
    Some (true, e).

Definition allowVulnerable (e : t) : bool :=
  numVulnerable_ (refs_ e) <? maxVulnerable_ (config_ e).

Definition dynamicReferenceAllowed (e : t) : bool :=
  numOutstandingBlocks_ (refs_ e) <? maxNumOutstandingBlocks_ (config_ e).

Definition lastEntryAvailable (e : t) : bool := maxEncoderStreamBytes_ e >=? 0.

Definition shouldIndex (e : t) (name value : list Z) : bool :=
  (HPACKHeader.bytes_of (u32 (zlen name)) (zlen value) <=? QPACKHeaderTable.capacity_ (table_ e)) &&
  match indexingStrat_ (config_ e) with
  | None => true
  | Some indexHeader => indexHeader name value false
  end && dynamicReferenceAllowed e.

(** ** Writing *)

(** [maxEncoderStreamBytes_ -= encoded], with the buffer that was written. *)
Definition spend (e : t) (b : HPACKEncodeBuffer.t) (encoded : Z) : t :=
  with_control e b (i64 (maxEncoderStreamBytes_ e - encoded)).

Definition handlePendingContextUpdate (e : t) (buf : HPACKEncodeBuffer.t) (tableCapacity : Z)
  : option (Z * HPACKEncodeBuffer.t * t) :=
  if pendingContextUpdate_ e then
    '(encoded, buf) ← HPACKEncodeBuffer.encodeInteger_instr buf tableCapacity TABLE_SIZE_UPDATE;
    Some (encoded, buf, with_pending e false)
  else Some (0, buf, e).

(** [addHeadroom] checks that nothing was written; [controlQueue] is what the
    caller's queue holds. *)
Definition startEncode (e : t) (controlQueue : list Z) (headroom maxEncoderStreamBytes : Z)
  : option (Z * t) :=
  let b := HPACKEncodeBuffer.mk controlQueue (HPACKEncodeBuffer.growthSize_ (controlBuffer_ e))
             (HPACKEncodeBuffer.huffMin_ (controlBuffer_ e))
             (HPACKEncodeBuffer.huffMax_ (controlBuffer_ e)) in
  if truth headroom && negb (bool_decide (HPACKEncodeBuffer.buf_ (streamBuffer_ e) = [])) then None
  else
    let e := with_control e b maxEncoderStreamBytes in
    '(encoded, b, e) ← handlePendingContextUpdate e b (QPACKHeaderTable.capacity_ (table_ e));
    let e := spend e b encoded in
    Some (getInsertCount (ctx e), e).

Definition encodeLiteralQHelper (c : QPACKContext.t) (buffer : HPACKEncodeBuffer.t)
    (name value : list Z) (isStaticName : bool) (nameIndex staticFlag : Z)
    (idxInstr litInstr : Instruction) : option (Z * QPACKContext.t * HPACKEncodeBuffer.t) :=
  '(encoded, c, buffer) ←
    (if truth nameIndex then
       let nameIndex := u32 (nameIndex - 1) in
       let byte := if isStaticName then Z.lor (code idxInstr) staticFlag else code idxInstr in
       let c := if isStaticName then static_ref c else c in
       '(encoded, buffer) ← HPACKEncodeBuffer.encodeInteger buffer nameIndex byte
                              (prefixLength idxInstr);
       Some (encoded, c, buffer)
     else
       '(encoded, buffer) ← HPACKEncodeBuffer.encodeLiteral_at buffer (code litInstr)
                              (prefixLength litInstr) name;
       Some (encoded, c, buffer));
  '(n, buffer) ← HPACKEncodeBuffer.encodeLiteral buffer value;
  Some (u32 (encoded + n), c, buffer).

Definition encodeInsertQ (e : t) (name value : list Z) (isStaticName : bool) (nameIndex : Z)
  : option t :=
  '(encoded, c, b) ← encodeLiteralQHelper (ctx e) (controlBuffer_ e) name value isStaticName
      nameIndex Q_INSERT_NAME_REF_STATIC Q_INSERT_NAME_REF Q_INSERT_NO_NAME_REF;
  Some (spend (with_ctx e c) b encoded).

Definition encodeLiteralQ (e : t) (name value : list Z) (isStaticName : bool) (nameIndex : Z)
    (idxInstr : Instruction) : option t :=
  '(_, c, b) ← encodeLiteralQHelper (ctx e) (streamBuffer_ e) name value isStaticName nameIndex
      Q_LITERAL_STATIC idxInstr Q_LITERAL;
  Some (with_stream (with_ctx e c) b).

Definition encodeDuplicate (e : t) (index : Z) : option t :=
  '(encoded, b) ← HPACKEncodeBuffer.encodeInteger_instr (controlBuffer_ e) (u32 (index - 1))
                    Q_DUPLICATE;
  Some (spend e b encoded).

(** ** References *)

(** [requiredInsertCount] is updated by reference. *)
Definition trackReference (e : t) (absoluteIndex requiredInsertCount : Z) : option (Z * t) :=
  if absoluteIndex =? 0 then None
  else
    let r := refs_ e in
    let cur := curOutstanding_ r in
    let '(requiredInsertCount, cur) :=
      if absoluteIndex >? requiredInsertCount
      then (absoluteIndex,
            mkBlock (minInUseIndex cur) absoluteIndex
              (QPACKHeaderTable.isVulnerable (table_ e) absoluteIndex || vulnerable cur))
      else (requiredInsertCount, cur) in
    if absoluteIndex <? minInUseIndex cur then
      let cur := mkBlock absoluteIndex (maxInUseIndex cur) (vulnerable cur) in
      let m := Z.min (minOutstandingMin_ r) absoluteIndex in
      let r := mkRefs (outstanding_ r) (outstandingMins_ r) m cur (numVulnerable_ r)
                 (numOutstandingBlocks_ r) in
      Some (requiredInsertCount,
            with_table (with_refs e r) (QPACKHeaderTable.setMinInUseIndex (table_ e) m))
    else
      let r := mkRefs (outstanding_ r) (outstandingMins_ r) (minOutstandingMin_ r) cur
                 (numVulnerable_ r) (numOutstandingBlocks_ r) in
      Some (requiredInsertCount, with_refs e r).

Definition maybeDuplicate (e : t) (relativeIndex : Z) : option ((bool * Z) * t) :=
  '(res, tbl) ← QPACKHeaderTable.maybeDuplicate (table_ e) relativeIndex (allowVulnerable e);
  let e := with_table e tbl in
  if fst res : bool then
    let e := with_ctx e (duplication (ctx e)) in
    e ← encodeDuplicate e relativeIndex;
    if lastEntryAvailable e then Some (res, e) else Some ((true, 0), e)
  else Some (res, e).

Definition getNameIndexQ (e : t) (headerName : list Z) : option ((bool * Z * Z) * t) :=
  nameIndex ← HeaderTable.nameIndex QPACKStaticHeaderTable.staticTable headerName;
  if (nameIndex =? 0) && dynamicReferenceAllowed e then
    nameIndex ← QPACKHeaderTable.nameIndex (table_ e) headerName (allowVulnerable e);
    if negb (nameIndex =? 0) then
      '((_, absoluteNameIndex), e) ← maybeDuplicate e nameIndex;
      if truth absoluteNameIndex then
        nameIndex ← QPACKHeaderTable.absoluteToRelative (table_ e) absoluteNameIndex;
        Some ((false, nameIndex, absoluteNameIndex), e)
      else Some ((true, 0, 0), e)
    else Some ((true, 0, 0), e)
  else Some ((true, nameIndex, 0), e).

(** ** Encoding a field *)

Definition encodeStreamLiteralQ (e : t) (name value : list Z) (isStaticName : bool)
    (nameIndex absoluteNameIndex baseIndex requiredInsertCount : Z) : option (Z * t) :=
  '(requiredInsertCount, e) ←
    (if absoluteNameIndex >? 0 then
       if (absoluteNameIndex <=? baseIndex) || allowVulnerable e
       then trackReference e absoluteNameIndex requiredInsertCount else None
     else Some (requiredInsertCount, e));
  e ← (if absoluteNameIndex >? baseIndex then
         encodeLiteralQ e name value false (u32 (absoluteNameIndex - baseIndex))
           Q_LITERAL_NAME_REF_POST
       else
         encodeLiteralQ e name value isStaticName
           (if isStaticName then nameIndex else u32 (baseIndex - absoluteNameIndex + 1))
           Q_LITERAL_NAME_REF);
  Some (requiredInsertCount, e).

(** A match in the dynamic table, duplicated when it is draining: 0 or an absolute
    index, and whether an insertion is still wanted. *)
Definition lookupQ (e : t) (name value : list Z) : option (Z * bool * t) :=
  '(index, indexable) ←
    (if shouldIndex e name value then
       index ← QPACKHeaderTable.getIndex (table_ e) name value (allowVulnerable e);
       Some (if index =? QPACKHeaderTable.UNACKED then (0, false) else (index, true))
     else Some (0, false));
  if negb (index =? 0) then
    '((duplicated, index), e) ← maybeDuplicate e index;
    Some (index, indexable && ((duplicated : bool) && (index =? 0)), e)
  else Some (index, indexable, e).

(** No usable match: look for the name, and insert the field if that is wanted and
    possible.  The index of the new entry, or 0 with the name and its index. *)
Definition insertQ (e : t) (name value : list Z) (indexable : bool)
  : option (Z * list Z * bool * Z * Z * t) :=
  '((isStaticName, nameIndex, absoluteNameIndex), e) ← getNameIndexQ e name;
  if indexable && (maxEncoderStreamBytes_ e >? 0) then
    can ← QPACKHeaderTable.canIndex (table_ e) name value;
    if can : bool then
      e ← encodeInsertQ e name value isStaticName nameIndex;
      '(added, tbl) ← QPACKHeaderTable.add (table_ e) (HPACKHeader.mk name value);
      let e := with_table e tbl in
      if negb (added : bool) then None
      else if allowVulnerable e && lastEntryAvailable e then
        Some (getInsertCount (ctx e), name, isStaticName, nameIndex, absoluteNameIndex, e)
      else
        '(h, c) ← QPACKContext.getHeader (ctx e) false 1 (getInsertCount (ctx e)) false;
        let e := with_ctx e c in
        valid ← (if absoluteNameIndex >? 0 then
                   r ← QPACKHeaderTable.absoluteToRelative (table_ e) absoluteNameIndex;
                   Some (QPACKHeaderTable.isValid (table_ e) r 0)
                 else Some true);
        if valid : bool
        then Some (0, HPACKHeader.name h, isStaticName, nameIndex, absoluteNameIndex, e)
        else Some (0, HPACKHeader.name h, true, 0, 0, e)
    else
      Some (0, name, isStaticName, nameIndex, absoluteNameIndex,
            with_ctx e (blocked_insertion (ctx e)))
  else Some (0, name, isStaticName, nameIndex, absoluteNameIndex, e).

(** A reference to the dynamic table. *)
Definition encodeReferenceQ (e : t) (index baseIndex requiredInsertCount : Z) : option (Z * t) :=
  '(requiredInsertCount, e) ← trackReference e index requiredInsertCount;
  '(_, b) ←
    (if index >? baseIndex
     then HPACKEncodeBuffer.encodeInteger_instr (streamBuffer_ e) (u32 (index - baseIndex - 1))
            Q_INDEXED_POST
     else HPACKEncodeBuffer.encodeInteger_instr (streamBuffer_ e) (u32 (baseIndex - index)) Q_INDEXED);
  Some (requiredInsertCount, with_stream e b).

(** The uncompressed size, and [requiredInsertCount]. *)
Definition encodeHeaderQ (e : t) (name value : list Z) (baseIndex requiredInsertCount : Z)
  : option (Z * Z * t) :=
  let uncompressed := u64 (HPACKHeader.realBytes_of (u32 (zlen name)) (zlen value) + 2) in
  '(index, _) ← HeaderTable.getIndex QPACKStaticHeaderTable.staticTable name value;
  if index >? 0 then
    '(_, b) ← HPACKEncodeBuffer.encodeInteger (streamBuffer_ e) (u32 (index - 1))
                (Z.lor (code Q_INDEXED) Q_INDEXED_STATIC) (prefixLength Q_INDEXED);
    Some (uncompressed, requiredInsertCount, with_stream (with_ctx e (static_ref (ctx e))) b)
  else
    '(index, indexable, e) ← lookupQ e name value;
    if index =? 0 then
      '(index, name, isStaticName, nameIndex, absoluteNameIndex, e) ←
        insertQ e name value indexable;
      if index =? 0 then
        '(requiredInsertCount, e) ← encodeStreamLiteralQ e name value isStaticName nameIndex
                                      absoluteNameIndex baseIndex requiredInsertCount;
        Some (uncompressed, requiredInsertCount, e)
      else
        '(requiredInsertCount, e) ← encodeReferenceQ e index baseIndex requiredInsertCount;
        Some (uncompressed, requiredInsertCount, e)
    else
      '(requiredInsertCount, e) ← encodeReferenceQ e index baseIndex requiredInsertCount;
      Some (uncompressed, requiredInsertCount, e).

(** ** Encoding a block *)

(** The prefix; the modulus is 0 for a table of less than 32 bytes. *)
Definition encodePrefix (b : HPACKEncodeBuffer.t) (maxTableSize baseIndex requiredInsertCount : Z)
  : option HPACKEncodeBuffer.t :=
  if requiredInsertCount =? 0 then
    '(_, b) ← HPACKEncodeBuffer.encodeInteger b 0 0 8;
    '(_, b) ← HPACKEncodeBuffer.encodeInteger b 0 0 8;
    Some b
  else
    let fullRange := u32 (2 * getMaxEntries maxTableSize) in
    if fullRange =? 0 then None
    else
      let wireRIC := u32 (requiredInsertCount mod fullRange + 1) in
      '(_, b) ← HPACKEncodeBuffer.encodeInteger b wireRIC 0 8;
      '(_, b) ←
        (if requiredInsertCount >? baseIndex
         then HPACKEncodeBuffer.encodeInteger b (u32 (requiredInsertCount - baseIndex - 1))
                Q_DELTA_BASE_NEG (prefixLength Q_DELTA_BASE)
         else HPACKEncodeBuffer.encodeInteger b (u32 (baseIndex - requiredInsertCount))
                Q_DELTA_BASE_POS (prefixLength Q_DELTA_BASE));
      Some b.

(** Recording the references of the block that ends. *)
Definition recordOutstanding (r : refs) (streamId : Z) : refs :=
  let cur := curOutstanding_ r in
  if negb (minInUseIndex cur =? UINT32_MAX) then
    mkRefs (<[streamId := default [] (outstanding_ r !! streamId) ++ [cur]]> (outstanding_ r))
      (outstandingMins_ r ++ [minInUseIndex cur]) (minOutstandingMin_ r) no_references
      (if vulnerable cur then u32 (numVulnerable_ r + 1) else numVulnerable_ r)
      (u32 (numOutstandingBlocks_ r + 1))
  else r.

(** The block, and what is in the control queue; the control buffer goes back to
    its own, empty, queue. *)
Definition completeEncode (e : t) (streamId baseIndex requiredInsertCount : Z)
  : option (list Z * list Z * t) :=
  let '(streamBlock, b) := HPACKEncodeBuffer.release (streamBuffer_ e) in
  b ← encodePrefix b (maxTableSize_ (config_ e)) baseIndex requiredInsertCount;
  let '(prefix, b) := HPACKEncodeBuffer.release b in
  let '(control, cb) := HPACKEncodeBuffer.release (controlBuffer_ e) in
  let e := with_control (with_stream e b) cb (maxEncoderStreamBytes_ e) in
  Some (prefix ++ streamBlock, control, with_refs e (recordOutstanding (refs_ e) streamId)).

Fixpoint encodeHeadersQ (e : t) (headers : list HPACKHeader.t) (baseIndex requiredInsertCount : Z)
  : option (Z * t) :=
  match headers with
  | [] => Some (requiredInsertCount, e)
  | h :: headers =>
      '(_, requiredInsertCount, e) ← encodeHeaderQ e (HPACKHeader.name h) (HPACKHeader.value h)
                                       baseIndex requiredInsertCount;
      encodeHeadersQ e headers baseIndex requiredInsertCount
  end.

(** The bytes for the encoder stream, and the block. *)
Definition encode (e : t) (headers : list HPACKHeader.t)
    (headroom streamId maxEncoderStreamBytes : Z) : option ((list Z * list Z) * t) :=
  '(baseIndex, e) ← startEncode e [] headroom maxEncoderStreamBytes;
  '(requiredInsertCount, e) ← encodeHeadersQ e headers baseIndex 0;
  '(block, control, e) ← completeEncode e streamId baseIndex requiredInsertCount;
  Some ((control, block), e).

(** ** Acknowledgements *)

(** The first loop: the position of [val], and the minimum of what precedes it. *)
Fixpoint find_min (val : Z) (mins : list Z) (i : nat) (newMin : Z) : nat * Z :=
  match mins with
  | [] => (i, newMin)
  | value :: mins' =>
      if value =? val then (i, newMin) else find_min val mins' (S i) (Z.min newMin value)
  end.

(** [outstandingMins_.at(i) = outstandingMins_.back(); outstandingMins_.pop_back()]. *)
Definition swap_pop (mins : list Z) (i : nat) : list Z :=
  match last mins with
  | Some back => take (pred (length mins)) (<[i := back]> mins)
  | None => mins
  end.

Definition removeFromMinOutstanding (r : refs) (valToRemove : Z) : option refs :=
  if bool_decide (outstandingMins_ r = []) then None
  else
    let recomputeMin := valToRemove =? minOutstandingMin_ r in
    let '(i, newMin) := find_min valToRemove (outstandingMins_ r) 0 UINT32_MAX in
    let mins := if decide (i < length (outstandingMins_ r))%nat
                then swap_pop (outstandingMins_ r) i else outstandingMins_ r in
    let m := if recomputeMin then foldl Z.min newMin (drop i mins) else minOutstandingMin_ r in
    Some (mkRefs (outstanding_ r) mins m (curOutstanding_ r) (numVulnerable_ r)
            (numOutstandingBlocks_ r)).

Definition with_counts (r : refs) (v n : Z) : refs :=
  mkRefs (outstanding_ r) (outstandingMins_ r) (minOutstandingMin_ r) (curOutstanding_ r) v n.
Definition with_outstanding (r : refs) (m : gmap Z (list OutstandingBlock)) : refs :=
  mkRefs m (outstandingMins_ r) (minOutstandingMin_ r) (curOutstanding_ r) (numVulnerable_ r)
    (numOutstandingBlocks_ r).

Definition uncount_vulnerable (r : refs) (block : OutstandingBlock) : refs :=
  if vulnerable block then with_counts r (u32 (numVulnerable_ r - 1)) (numOutstandingBlocks_ r)
  else r.

(** The loop over the blocks of a cancelled stream. *)
Fixpoint cancelBlocks (r : refs) (blocks : list OutstandingBlock) : option refs :=
  match blocks with
  | [] => Some r
  | block :: blocks =>
      r ← removeFromMinOutstanding (uncount_vulnerable r block) (minInUseIndex block);
      cancelBlocks r blocks
  end.

Definition onHeaderAck (e : t) (streamId : Z) (all : bool) : option (DecodeError * t) :=
  match outstanding_ (refs_ e) !! streamId with
  | None => Some (if all then NONE else INVALID_ACK, e)
  | Some blocks =>
      '(blocks, r, tbl) ←
        (if all then
           r ← cancelBlocks (refs_ e) blocks;
           Some ([], with_counts r (numVulnerable_ r)
                       (u32 (numOutstandingBlocks_ r - zlen blocks)), table_ e)
         else
           match blocks with
           | [] => None
           | block :: rest =>
               let r := with_counts (refs_ e) (numVulnerable_ (refs_ e))
                          (u32 (numOutstandingBlocks_ (refs_ e) - 1)) in
               let r := uncount_vulnerable r block in
               if minInUseIndex block =? UINT32_MAX then None
               else
                 r ← removeFromMinOutstanding r (minInUseIndex block);
                 tbl ← QPACKHeaderTable.setAcknowledgedInsertCount (table_ e) (maxInUseIndex block);
                 Some (rest, r, tbl)
           end);
      let outstanding := match blocks with
                         | [] => delete streamId (outstanding_ r)
                         | _ => <[streamId := blocks]> (outstanding_ r)
                         end in
      Some (NONE, with_table (with_refs e (with_outstanding r outstanding))
                    (QPACKHeaderTable.setMinInUseIndex tbl (minOutstandingMin_ r)))
  end.

Definition onInsertCountIncrement (e : t) (inserts : Z) : option (DecodeError * t) :=
  if inserts =? 0 then Some (INVALID_ACK, e)
  else
    '(ok, tbl) ← QPACKHeaderTable.onInsertCountIncrement (table_ e) inserts;
    if ok : bool then Some (NONE, with_table e tbl) else Some (INVALID_ACK, with_table e tbl).

(** [err = dbuf.decodeInteger(..); if (err == NONE) err = k(value)]. *)
Definition decode_then (e : t) (dbuf : DB.t) (prefixLength : Z)
    (k : Z -> option (DecodeError * t)) : option (DecodeError * t * DB.t) :=
  match DB.decodeInteger prefixLength dbuf with
  | DB.DOk v dbuf => '(err, e) ← k v; Some (err, e, dbuf)
  | DB.DErr err dbuf => Some (err, e, dbuf)
  | DB.DAbort => None
  end.

Definition decodeHeaderAck (e : t) (dbuf : DB.t) (prefixLength : Z) (all : bool)
  : option (DecodeError * t * DB.t) :=
  decode_then e dbuf prefixLength (fun streamId => onHeaderAck e streamId all).

(** One instruction; the increment is converted to [uint32_t] by the call. *)
Definition decodeDecoderInstruction (e : t) (dbuf : DB.t) : option (DecodeError * t * DB.t) :=
  match DB.peek dbuf with
  | DB.DOk byte _ =>
      if truth (Z.land byte (code Q_HEADER_ACK)) then
        decodeHeaderAck e dbuf (prefixLength Q_HEADER_ACK) false
      else if truth (Z.land byte (code Q_CANCEL_STREAM)) then
        decodeHeaderAck e dbuf (prefixLength Q_CANCEL_STREAM) true
      else
        decode_then e dbuf (prefixLength Q_INSERT_COUNT_INC)
          (fun numInserts => onInsertCountIncrement e (u32 numInserts))
  | _ => None
  end.

(** [while (err == NONE && !dbuf.empty())]: every round consumes a byte or ends. *)
Fixpoint decodeDecoderStream_loop (fuel : nat) (e : t) (dbuf : DB.t) (consumed : Z)
  : option (DecodeError * Z * t * DB.t) :=
  if DB.empty dbuf then Some (NONE, consumed, e, dbuf)
  else
    match fuel with
    | O => None
    | S fuel' =>
        let consumed := DB.consumedBytes dbuf in
        '(err, e, dbuf) ← decodeDecoderInstruction e dbuf;
        if bool_decide (err = NONE) then decodeDecoderStream_loop fuel' e dbuf consumed
        else Some (err, consumed, e, dbuf)
    end.

Definition decodeDecoderStream (e : t) (buf : list Z) : option (DecodeError * t) :=
  let ingress := decoderIngress_ e ++ buf in
  let dbuf := DB.create ingress (u32 (zlen ingress)) 0 in
  '(err, consumed, e, dbuf) ← decodeDecoderStream_loop (S (length ingress)) e dbuf 0;
  if bool_decide (err = BUFFER_UNDERFLOW)
  then Some (NONE, with_ingress e (drop (Z.to_nat consumed) ingress))
  else Some (err, with_ingress e (drop (Z.to_nat (DB.consumedBytes dbuf)) ingress)).

Definition decoderStreamEnd (e : t) : DecodeError :=
  if negb (bool_decide (decoderIngress_ e = [])) then BUFFER_UNDERFLOW else NONE.

End QPACKEncoder.
