(* ===== verification/QPACKDecoder.v ===== *)
(** * The QPACK decoder
    ([src/proxygen/proxygen/lib/http/codec/compress/QPACKDecoder.cpp], [.h],
    [HPACKDecoderBase.cpp])

    The encoder stream carries insertions, duplications and size updates, in
    pieces of any length: an instruction that is cut off is resumed with the next
    piece ([Partial] keeps a name that was read already).  A header block whose
    required insert count is not reached waits in [queue_] until the encoder stream
    has caught up.  A block ends with one callback, [onHeadersComplete] or
    [onDecodeError]; the callbacks are returned as a list of events.  A callback
    that destroys the decoder is not modelled. *)

From stdpp Require Import gmap.
From S2P Require Import Prelude Huffman HPACKBuffers HeaderTable HPACKContext QPACKHeaderTable.
From S2P Require Import QPACKContext.

Module QPACKDecoder.
Import HPACK QPACK HPACKHeaderName QPACKContext.
Module DB := HPACKDecodeBuffer.

Definition kGrowth : Z := 100.

(** The callbacks of a block; a callback object is a number. *)
Inductive event :=
| onHeader (cb : Z) (h : HPACKHeader.t)
| onHeadersComplete (cb compressed compressedBlock uncompressed : Z) (acknowledge : bool)
| onDecodeError (cb : Z) (e : DecodeError).

Record PendingBlock := mkPending {
  streamID : Z; baseIndex : Z; length : Z; consumed : Z; block : list Z; cb : Z }.

Inductive PartialState := NAME | VALUE.

#[global] Instance PartialState_eq_dec : EqDecision PartialState.
Proof. solve_decision. Defined.

(** A partially decoded insertion; the value is not read before it is complete. *)
Record Partial := mkPartial { state : PartialState; p_consumed : Z; header_name : list Z }.

(** [HPACKDecoderBase], [QPACKContext] and the decoder's own members; [queue_] is
    ordered by the required insert count. *)
Record t := mk {
  ctx : QPACKContext.t; err_ : DecodeError; maxTableSize_ : Z; maxUncompressed_ : Z;
  maxBlocking_ : Z; baseIndex_ : Z; lastAcked_ : Z; holBlockCount_ : Z;
  pendingEncoderBytes_ : Z; queuedBytes_ : Z; queue_ : list (Z * PendingBlock);
  partial_ : Partial; ingress_ : list Z }.

Definition table_ (d : t) : QPACKHeaderTable.t := QPACKContext.table_ (ctx d).
Definition getInsertCount (d : t) : Z := QPACKContext.getInsertCount (ctx d).

Definition with_ctx (d : t) (c : QPACKContext.t) : t :=
  mk c (err_ d) (maxTableSize_ d) (maxUncompressed_ d) (maxBlocking_ d) (baseIndex_ d)
    (lastAcked_ d) (holBlockCount_ d) (pendingEncoderBytes_ d) (queuedBytes_ d) (queue_ d)
    (partial_ d) (ingress_ d).
Definition with_table (d : t) (tbl : QPACKHeaderTable.t) : t :=
  with_ctx d (QPACKContext.with_table (ctx d) tbl).
Definition set_err (d : t) (e : DecodeError) : t :=
  mk (ctx d) e (maxTableSize_ d) (maxUncompressed_ d) (maxBlocking_ d) (baseIndex_ d)
    (lastAcked_ d) (holBlockCount_ d) (pendingEncoderBytes_ d) (queuedBytes_ d) (queue_ d)
    (partial_ d) (ingress_ d).
Definition set_base (d : t) (n : Z) : t :=
  mk (ctx d) (err_ d) (maxTableSize_ d) (maxUncompressed_ d) (maxBlocking_ d) n
    (lastAcked_ d) (holBlockCount_ d) (pendingEncoderBytes_ d) (queuedBytes_ d) (queue_ d)
    (partial_ d) (ingress_ d).
Definition set_limits (d : t) (maxTable maxUncompressed maxBlocking : Z) : t :=
  mk (ctx d) (err_ d) maxTable maxUncompressed maxBlocking (baseIndex_ d)
    (lastAcked_ d) (holBlockCount_ d) (pendingEncoderBytes_ d) (queuedBytes_ d) (queue_ d)
    (partial_ d) (ingress_ d).
Definition set_lastAcked (d : t) (n : Z) : t :=
  mk (ctx d) (err_ d) (maxTableSize_ d) (maxUncompressed_ d) (maxBlocking_ d) (baseIndex_ d)
    n (holBlockCount_ d) (pendingEncoderBytes_ d) (queuedBytes_ d) (queue_ d)
    (partial_ d) (ingress_ d).
Definition set_encoderBytes (d : t) (n : Z) : t :=
  mk (ctx d) (err_ d) (maxTableSize_ d) (maxUncompressed_ d) (maxBlocking_ d) (baseIndex_ d)
    (lastAcked_ d) (holBlockCount_ d) n (queuedBytes_ d) (queue_ d) (partial_ d) (ingress_ d).
Definition set_queue (d : t) (hol bytes : Z) (q : list (Z * PendingBlock)) : t :=
  mk (ctx d) (err_ d) (maxTableSize_ d) (maxUncompressed_ d) (maxBlocking_ d) (baseIndex_ d)
    (lastAcked_ d) hol (pendingEncoderBytes_ d) bytes q (partial_ d) (ingress_ d).
Definition set_partial (d : t) (p : Partial) : t :=
  mk (ctx d) (err_ d) (maxTableSize_ d) (maxUncompressed_ d) (maxBlocking_ d) (baseIndex_ d)
    (lastAcked_ d) (holBlockCount_ d) (pendingEncoderBytes_ d) (queuedBytes_ d) (queue_ d)
    p (ingress_ d).
Definition set_ingress (d : t) (l : list Z) : t :=
  mk (ctx d) (err_ d) (maxTableSize_ d) (maxUncompressed_ d) (maxBlocking_ d) (baseIndex_ d)
    (lastAcked_ d) (holBlockCount_ d) (pendingEncoderBytes_ d) (queuedBytes_ d) (queue_ d)
    (partial_ d) l.

Definition hasError (d : t) : bool := negb (bool_decide (err_ d = HPACK.NONE)).

(** ** Configuration *)

(** The constructor; [Partial::consumed] is not initialised, and set before it is
    read. *)
Definition create (tableSize maxUncompressed : Z) : t :=
  mk (QPACKContext.create tableSize false) HPACK.NONE tableSize maxUncompressed kDefaultBlocking 0 0
    0 0 0 [] (mkPartial NAME 0 []) [].

Definition setMaxUncompressed (d : t) (n : Z) : t :=
  set_limits d (maxTableSize_ d) n (maxBlocking_ d).
Definition setMaxBlocking (d : t) (n : Z) : t :=
  set_limits d (maxTableSize_ d) (maxUncompressed_ d) n.

(** [HPACKDecoderBase::setHeaderTableMaxSize]. *)
Definition base_setHeaderTableMaxSize (d : t) (maxSize : Z) : option t :=
  let d := set_limits d maxSize (maxUncompressed_ d) (maxBlocking_ d) in
  if maxSize <? QPACKHeaderTable.capacity_ (table_ d) then
    '(ok, tbl) ← QPACKHeaderTable.setCapacity (table_ d) maxSize;
    if (ok : bool) then Some (with_table d tbl) else None
  else Some d.

Definition setHeaderTableMaxSize (d : t) (maxSize : Z) : option t :=
  if (maxTableSize_ d =? 0) || (maxTableSize_ d =? maxSize)
  then base_setHeaderTableMaxSize d maxSize else None.

(** ** Handlers

    A handler returns a value, or records an error in [err_] and stops. *)

Definition handler (A : Type) : Type := t * DB.t -> option (option A * (t * DB.t)).

#[global] Instance handler_ret : MRet handler := fun A a st => Some (Some a, st).
#[global] Instance handler_bind : MBind handler := fun A B k m st =>
  '(r, st) ← m st;
  match r with
  | Some a => k a st
  | None => Some (None, st)
  end.

(** [err_ = dbuf.decode..(); if (err_ != NONE) return 0;]. *)
Definition decode {A} (m : DB.decoder A) : handler A := fun '(d, b) =>
  match m b with
  | DB.DOk a b => Some (Some a, (set_err d HPACK.NONE, b))
  | DB.DErr e b => Some (None, (set_err d e, b))
  | DB.DAbort => None
  end.

Definition fail {A} (e : DecodeError) : handler A := fun '(d, b) => Some (None, (set_err d e, b)).

(** A failed [CHECK]. *)
Definition abort {A} : handler A := fun _ => None.

Definition gets {A} (f : t -> A) : handler A := fun '(d, b) => Some (Some (f d), (d, b)).
Definition modify (f : t -> t) : handler unit := fun '(d, b) => Some (Some tt, (f d, b)).

(** [dbuf.peek()], and other reads of the buffer. *)
Definition peek : handler Z := fun '(d, b) =>
  match DB.peek b with DB.DOk a b => Some (Some a, (d, b)) | _ => None end.
Definition reads {A} (f : DB.t -> A) : handler A := fun '(d, b) => Some (Some (f b), (d, b)).

Definition isValid (d : t) (isStatic : bool) (index : Z) (aboveBase : bool) : bool :=
  if index >? UINT32_MAX then false
  else if isStatic then HeaderTable.isValid QPACKStaticHeaderTable.staticTable index
  else if aboveBase then
    let base := u64 (baseIndex_ d + index) in
    if base >? UINT32_MAX then false else QPACKHeaderTable.isValid (table_ d) 1 base
  else QPACKHeaderTable.isValid (table_ d) index (baseIndex_ d).

(** [getHeader(isStatic, index, baseIndex_, aboveBase)] after the check of the
    index. *)
Definition checked_header (isStatic : bool) (index : Z) (aboveBase : bool)
  : handler HPACKHeader.t := fun '(d, b) =>
  if isValid d isStatic index aboveBase then
    '(h, c) ← QPACKContext.getHeader (ctx d) isStatic (u32 index) (baseIndex_ d) aboveBase;
    Some (Some h, (with_ctx d c, b))
  else fail INVALID_INDEX (d, b).

(** [table_.add], whose failure is an error. *)
Definition insert (h : HPACKHeader.t) : handler unit := fun '(d, b) =>
  '(ok, tbl) ← QPACKHeaderTable.add (table_ d) h;
  let d := with_table d tbl in
  if (ok : bool) then Some (Some tt, (d, b)) else fail INSERT_TOO_LARGE (d, b).

(** ** Fields *)

Definition decodeIndexedHeaderQ (prefixLength : Z) (aboveBase : bool) : handler HPACKHeader.t :=
  byte ← peek;
  let isStatic := negb aboveBase && truth (Z.land byte (Z.shiftl 1 prefixLength)) in
  index ← decode (DB.decodeInteger prefixLength);
  if index <? UINT64_MAX then
    let index := u64 (index + 1) in
    if index =? 0 then fail INVALID_INDEX else checked_header isStatic index aboveBase
  else abort.

Section decoder.
Context `{CH : CommonHeaders}.

(** The name of a literal. *)
Definition decodeName (nameIndexed : bool) (prefixLength : Z) (aboveBase : bool)
  : handler (list Z) :=
  if nameIndexed then
    byte ← peek;
    let isStaticName := negb aboveBase && truth (Z.land byte (Z.shiftl 1 prefixLength)) in
    nameIndex ← decode (DB.decodeInteger prefixLength);
    let nameIndex := u64 (nameIndex + 1) in
    header ← checked_header isStaticName nameIndex aboveBase;
    mret (HPACKHeader.name header)
  else
    headerName ← decode (DB.decodeLiteral_at prefixLength);
    mret (storeAddress headerName).

(** A literal of a header block ([streamingCb] is set): the partial state is
    local. *)
Definition decodeLiteralHeaderQ (nameIndexed : bool) (prefixLength : Z) (aboveBase : bool)
  : handler HPACKHeader.t :=
  name ← decodeName nameIndexed prefixLength aboveBase;
  value ← decode DB.decodeLiteral;
  mret (HPACKHeader.mk name value).

(** A literal of the encoder stream ([streamingCb] is null, [indexing] is set): the
    name is kept in [partial_] until the value is there. *)
Definition decodeInsertQ (nameIndexed : bool) (prefixLength : Z) : handler unit :=
  partial ← gets partial_;
  name ← (if bool_decide (state partial = NAME) then
            name ← decodeName nameIndexed prefixLength false;
            consumed ← reads DB.consumedBytes;
            modify (fun d => set_partial d (mkPartial VALUE consumed name));;
            mret name
          else mret (header_name partial));
  value ← decode DB.decodeLiteral;
  modify (fun d => set_partial d (mkPartial NAME (p_consumed (partial_ d)) (header_name (partial_ d))));;
  insert (HPACKHeader.mk name value).

Definition decodeHeaderQ : handler HPACKHeader.t :=
  byte ← peek;
  if truth (Z.land byte (code Q_INDEXED)) then
    decodeIndexedHeaderQ (prefixLength Q_INDEXED) false
  else if truth (Z.land byte (code Q_LITERAL_NAME_REF)) then
    decodeLiteralHeaderQ true (prefixLength Q_LITERAL_NAME_REF) false
  else if truth (Z.land byte (code Q_LITERAL)) then
    decodeLiteralHeaderQ false (prefixLength Q_LITERAL) false
  else if truth (Z.land byte (code Q_INDEXED_POST)) then
    decodeIndexedHeaderQ (prefixLength Q_INDEXED_POST) true
  else decodeLiteralHeaderQ true (prefixLength Q_LITERAL_NAME_REF_POST) true.

(** ** Header blocks *)

(** The required insert count of the wire value. *)
Definition decodeRIC (wireRIC maxEntries insertCount : Z) : option Z :=
  let fullRange := u64 (2 * maxEntries) in
  if wireRIC =? 0 then Some 0
  else if maxEntries =? 0 then None
  else
    let maxValue := u64 (insertCount + maxEntries) in
    let maxWrapped := u64 (maxValue / fullRange * fullRange) in
    let requiredInsertCount := u64 (maxWrapped + wireRIC - 1) in
    if requiredInsertCount >? maxValue then
      if (wireRIC >? fullRange) || (requiredInsertCount <? fullRange) then None
      else Some (u64 (requiredInsertCount - fullRange))
    else Some requiredInsertCount.

(** [baseIndex_] is set on the way; the count is returned as [uint32_t]. *)
Definition decodePrefix : handler Z :=
  maxEntries ← gets (fun d => getMaxEntries (maxTableSize_ d));
  insertCount ← gets getInsertCount;
  wireRIC ← decode (DB.decodeInteger 8);
  match decodeRIC wireRIC maxEntries insertCount with
  | None => fail INVALID_INDEX
  | Some requiredInsertCount =>
      empty ← reads DB.empty;
      if empty : bool then fail BUFFER_UNDERFLOW
      else
        byte ← peek;
        let neg := truth (Z.land byte Q_DELTA_BASE_NEG) in
        delta ← decode (DB.decodeInteger (prefixLength Q_DELTA_BASE));
        if neg then
          if delta >=? requiredInsertCount then fail INVALID_INDEX
          else if u64 (requiredInsertCount - delta - 1) <=? UINT32_MAX then
            modify (fun d => set_base d (u32 (requiredInsertCount - delta - 1)));;
            mret (u32 requiredInsertCount)
          else abort
        else if (delta >? UINT32_MAX) || (requiredInsertCount >=? UINT32_MAX - delta) then
          fail INVALID_INDEX
        else
          modify (fun d => set_base d (u32 (requiredInsertCount + delta)));;
          mret (u32 requiredInsertCount)
  end.

Definition emitted_size (r : option HPACKHeader.t) : Z :=
  match r with Some h => HPACKHeader.realBytes h | None => 0 end.
Definition emitted (cb : Z) (r : option HPACKHeader.t) : list event :=
  match r with Some h => [onHeader cb h] | None => [] end.

(** [while (!hasError() && !dbuf.empty())]: every round consumes a byte or sets
    [err_]. *)
Fixpoint decode_loop (fuel : nat) (d : t) (b : DB.t) (cb emittedSize : Z)
  : option (list event * Z * t * DB.t) :=
  if negb (hasError d) && negb (DB.empty b) then
    match fuel with
    | O => None
    | S fuel' =>
        '(r, (d, b)) ← decodeHeaderQ (d, b);
        let emittedSize := u32 (emittedSize + emitted_size r) in
        if emittedSize >? maxUncompressed_ d
        then Some (emitted cb r, emittedSize, set_err d HEADERS_TOO_LARGE, b)
        else
          '(evs, n, d, b) ← decode_loop fuel' d b cb (u32 (emittedSize + 2));
          Some (emitted cb r ++ evs, n, d, b)
    end
  else Some ([], emittedSize, d, b).

Definition completeDecode (d : t) (cb compressedSize compressedBlockSize emittedSize : Z)
    (acknowledge : bool) : event :=
  if hasError d then onDecodeError cb (err_ d)
  else onHeadersComplete cb compressedSize compressedBlockSize emittedSize acknowledge.

Definition decodeStreamingImpl (d : t) (requiredInsertCount consumed : Z) (dbuf : DB.t) (cb : Z)
  : option (list event * t) :=
  '(evs, emittedSize, d, dbuf) ← decode_loop (S (Z.to_nat (DB.remainingBytes_ dbuf))) d dbuf cb 0;
  let acknowledge := negb (requiredInsertCount =? 0) in
  let d := if hasError d then d else set_lastAcked d (Z.max (lastAcked_ d) requiredInsertCount) in
  let blockSize := u32 (consumed + DB.consumedBytes dbuf) in
  let compressedSize := u32 (pendingEncoderBytes_ d + blockSize) in
  let d := set_encoderBytes d 0 in
  Some (evs ++ [completeDecode d cb compressedSize blockSize emittedSize acknowledge], d).

(** [std::multimap::emplace]: behind the entries with the same key. *)
Fixpoint emplace (k : Z) (p : PendingBlock) (q : list (Z * PendingBlock))
  : list (Z * PendingBlock) :=
  match q with
  | [] => [(k, p)]
  | (k', p') :: q' => if k <? k' then (k, p) :: q else (k', p') :: emplace k p q'
  end.

Definition enqueueHeaderBlock (d : t) (streamID requiredInsertCount baseIndex consumed : Z)
    (block : list Z) (length cb : Z) : option t :=
  if requiredInsertCount >? getInsertCount d then
    Some (set_queue d (u32 (holBlockCount_ d + 1)) (u64 (queuedBytes_ d + length))
            (emplace requiredInsertCount
               (mkPending streamID baseIndex (u32 length) consumed block cb) (queue_ d)))
  else None.

Definition decodeStreaming (d : t) (streamID : Z) (block : list Z) (totalBytes cb : Z)
  : option (list event * t) :=
  let dbuf := DB.create block totalBytes (u32 (maxUncompressed_ d)) in
  '(r, (d, dbuf)) ← decodePrefix (set_err d HPACK.NONE, dbuf);
  let requiredInsertCount := default 0 r in
  if requiredInsertCount >? getInsertCount d then
    if zlen (queue_ d) >=? maxBlocking_ d then
      let d := set_err d TOO_MANY_BLOCKING in
      Some ([completeDecode d cb 0 0 0 false], d)
    else
      d ← enqueueHeaderBlock d streamID requiredInsertCount (baseIndex_ d) (DB.consumedBytes dbuf)
            (drop (Z.to_nat (DB.consumedBytes dbuf)) block)
            (u32 (totalBytes - DB.consumedBytes dbuf)) cb;
      Some ([], d)
  else decodeStreamingImpl d requiredInsertCount 0 dbuf cb.

(** ** The queue *)

Definition decodeBlock (d : t) (requiredInsertCount : Z) (pending : PendingBlock)
  : option (list event * t) :=
  if length pending >? 0 then
    let dbuf := DB.create (block pending) (length pending) (u32 (maxUncompressed_ d)) in
    let d := set_queue d (holBlockCount_ d) (u64 (queuedBytes_ d - length pending)) (queue_ d) in
    let d := set_base d (baseIndex pending) in
    decodeStreamingImpl d requiredInsertCount (consumed pending) dbuf (cb pending)
  else Some ([], d).

(** Every round takes a block off the queue. *)
Fixpoint drain_loop (fuel : nat) (d : t) : option (list event * t) :=
  match queue_ d with
  | (id, pending) :: q =>
      if (id <=? getInsertCount d) && negb (hasError d) then
        match fuel with
        | O => None
        | S fuel' =>
            '(evs, d) ← decodeBlock (set_queue d (holBlockCount_ d) (queuedBytes_ d) q) id pending;
            '(evs', d) ← drain_loop fuel' d;
            Some (evs ++ evs', d)
        end
      else Some ([], d)
  | [] => Some ([], d)
  end.

Definition drainQueue (d : t) : option (list event * t) := drain_loop (List.length (queue_ d)) d.

Definition errorQueue (d : t) : list event * t :=
  ((fun p => onDecodeError (cb (snd p)) ENCODER_STREAM_CLOSED) <$> queue_ d,
   set_queue d (holBlockCount_ d) (queuedBytes_ d) []).

(** ** The encoder stream *)

(** The second half of [handleTableSizeUpdate]; the result of [setCapacity] is
    ignored. *)
Definition update_capacity (arg : Z) : handler unit := fun '(d, b) =>
  if arg >? maxTableSize_ d then fail INVALID_TABLE_SIZE (d, b)
  else
    '(_, tbl) ← QPACKHeaderTable.setCapacity (table_ d) (u32 arg);
    Some (Some tt, (with_table d tbl, b)).

Definition handleTableSizeUpdate : handler unit :=
  arg ← decode (DB.decodeInteger (prefixLength TABLE_SIZE_UPDATE));
  update_capacity arg.

(** The copy in [emitted] is built from the string of the name. *)
Definition decodeDuplicate : handler unit :=
  header ← decodeIndexedHeaderQ (prefixLength Q_DUPLICATE) false;
  insert (HPACKHeader.mk (storeAddress (HPACKHeader.name header)) (HPACKHeader.value header));;
  modify (fun d => with_ctx d (duplication (ctx d))).

Definition decodeEncoderStreamInstruction : handler unit :=
  byte ← peek;
  consumed ← reads DB.consumedBytes;
  modify (fun d => set_partial d (mkPartial (state (partial_ d)) consumed (header_name (partial_ d))));;
  partial ← gets partial_;
  if bool_decide (state partial = VALUE) || truth (Z.land byte (code Q_INSERT_NAME_REF)) then
    decodeInsertQ true (prefixLength Q_INSERT_NAME_REF)
  else if truth (Z.land byte (code Q_INSERT_NO_NAME_REF)) then
    decodeInsertQ false (prefixLength Q_INSERT_NO_NAME_REF)
  else if truth (Z.land byte (code Q_TABLE_SIZE_UPDATE)) then handleTableSizeUpdate
  else decodeDuplicate.

(** Ends with [err_] set, at the end of the buffer, or with an instruction that is
    cut off. *)
Fixpoint encoderStream_loop (fuel : nat) (d : t) (b : DB.t) : option (t * DB.t) :=
  if negb (hasError d) && negb (DB.empty b) then
    match fuel with
    | O => None
    | S fuel' =>
        '(_, (d, b)) ← decodeEncoderStreamInstruction (d, b);
        encoderStream_loop fuel' d b
    end
  else Some (d, b).

Definition decodeEncoderStream (d : t) (buf : list Z) : option (DecodeError * list event * t) :=
  let ingress := ingress_ d ++ buf in
  let dbuf := DB.create ingress (u32 (zlen ingress)) (u32 (maxUncompressed_ d)) in
  let d := set_err (set_base (set_ingress d ingress) 0) HPACK.NONE in
  '(d, dbuf) ← encoderStream_loop (S (List.length ingress)) d dbuf;
  if bool_decide (err_ d = BUFFER_UNDERFLOW) then
    let d := set_ingress d (drop (Z.to_nat (p_consumed (partial_ d))) ingress) in
    '(evs, d) ← drainQueue d;
    Some (HPACK.NONE, evs, d)
  else
    let d := set_encoderBytes d (u32 (pendingEncoderBytes_ d + DB.consumedBytes dbuf)) in
    let d := set_ingress d (drop (Z.to_nat (DB.consumedBytes dbuf)) ingress) in
    if hasError d then Some (err_ d, [], d)
    else '(evs, d) ← drainQueue d; Some (HPACK.NONE, evs, d).

Definition encoderStreamEnd (d : t) : DecodeError * list event * t :=
  let d := if negb (bool_decide (ingress_ d = [])) then set_err d BUFFER_UNDERFLOW else d in
  if negb (bool_decide (queue_ d = [])) then
    let d := if hasError d then set_err d ENCODER_STREAM_CLOSED else d in
    let '(evs, d) := errorQueue d in
    (err_ d, evs, d)
  else (err_ d, [], d).

End decoder.

(** ** The decoder stream *)

(** The bytes of an integer, from a fresh buffer. *)
Definition encodeInstruction (value : Z) (i : Instruction) : option (list Z) :=
  '(_, b) ← HPACKEncodeBuffer.encodeInteger_instr (HPACKEncodeBuffer.create kGrowth false) value i;
  Some (HPACKEncodeBuffer.buf_ b).

(** [None] inside is a null buffer. *)
Definition encodeInsertCountInc (d : t) : option (option (list Z) * t) :=
  let toAck := u32 (getInsertCount d - lastAcked_ d) in
  if toAck >? 0 then
    out ← encodeInstruction toAck Q_INSERT_COUNT_INC;
    Some (Some out, set_lastAcked d (getInsertCount d))
  else Some (None, d).

Definition encodeHeaderAck (streamId : Z) : option (list Z) :=
  encodeInstruction streamId Q_HEADER_ACK.

(** The blocks of the stream leave the queue; [queuedBytes_] is not adjusted. *)
Definition encodeCancelStream (d : t) (streamId : Z) : option (list Z * t) :=
  let q := filter (fun p : Z * PendingBlock => streamID (snd p) <> streamId) (queue_ d) in
  out ← encodeInstruction streamId Q_CANCEL_STREAM;
  Some (out, set_queue d (holBlockCount_ d) (queuedBytes_ d) q).

End QPACKDecoder.
