(* ===== verification/QPACKWire.v ===== *)
(** * Resumable decoding

    The two QPACK control streams arrive in pieces of any length.  A decoding
    function of [HPACKDecodeBuffer] reads a value off a buffer that holds all of
    its bytes, and reports [BUFFER_UNDERFLOW] on a buffer that ends before; [codes]
    joins the two facts, for integers and for literals.  The second one follows
    from [stable]: on a longer buffer a decoding function does the same, unless it
    ran out of bytes. *)

From S2P Require Import Prelude Huffman HPACKBuffers.

Module Codes.
Import HPACK HPACKDecodeBuffer DecodeSpec DecodeSafety.

(** The budget is what the cursor holds. *)
Definition whole (b : t) : Prop := remainingBytes_ b = zlen (cursor_ b).

(** The buffer with [q] behind it. *)
Definition extend (b : t) (q : list Z) : t :=
  mk (cursor_ b ++ q) (totalBytes_ b + zlen q) (remainingBytes_ b + zlen q) (maxLiteralSize_ b).

(** [Q] holds of the value. *)
Definition stable {A} (m : decoder A) (Q : A -> Prop) : Prop :=
  forall b q, whole b -> zlen (cursor_ b) + zlen q < 2 ^ 32 ->
  match m b with
  | DOk a b' => Q a /\ whole b' /\ zlen (cursor_ b') <= zlen (cursor_ b) /\
                m (extend b q) = DOk a (extend b' q)
  | DErr e _ => e = BUFFER_UNDERFLOW \/ exists b', m (extend b q) = DErr e b'
  | DAbort => True
  end.

Lemma zlen_nonneg {A} (l : list A) : 0 <= zlen l.
Proof. unfold zlen. lia. Qed.

Lemma stable_ret {A} (a : A) (Q : A -> Prop) : Q a -> stable (mret a) Q.
Proof. intros HQ b q Hw Hq. split; [done|]. split; [done|]. split; [lia|done]. Qed.

Lemma stable_err {A} e (Q : A -> Prop) : stable (derr e) Q.
Proof. intros b q Hw Hq. right. by eexists. Qed.

Lemma stable_abort {A} (Q : A -> Prop) : stable dabort Q.
Proof. intros b q Hw Hq. done. Qed.

Lemma stable_bind {A B} (m : decoder A) (k : A -> decoder B) Q R :
  stable m Q -> (forall a, Q a -> stable (k a) R) -> stable (m ≫= k) R.
Proof.
  intros Hm Hk b q Hw Hq. specialize (Hm b q Hw Hq). unfold mbind, decoder_bind.
  destruct (m b) as [a b1|e b1|]; [| |done].
  - destruct Hm as (HQ & Hw1 & Hl & ->). specialize (Hk a HQ b1 q Hw1 ltac:(lia)).
    destruct (k a b1) as [a' b2|e b2|]; [|done..]. destruct Hk as (? & ? & ? & ->).
    split_and!; [done|done|lia|done].
  - destruct Hm as [->|[b' ->]]; [by left|right; by eexists].
Qed.

Lemma stable_nonempty : stable nonempty (fun _ => True).
Proof.
  intros b q Hw Hq. unfold nonempty, whole in *. pose proof (zlen_nonneg q).
  pose proof (zlen_nonneg (cursor_ b)).
  destruct (Z.eqb_spec (remainingBytes_ b) 0); [by left|]. simpl.
  rewrite (proj2 (Z.eqb_neq _ _)) by lia. split_and!; done || lia.
Qed.

Lemma extend_skip b q n :
  whole b -> 0 <= n <= zlen (cursor_ b) -> zlen (cursor_ b) + zlen q < 2 ^ 32 ->
  skip (extend b q) n = extend (skip b n) q /\ whole (skip b n) /\
  zlen (cursor_ (skip b n)) = zlen (cursor_ b) - n.
Proof.
  intros Hw Hn Hq. unfold whole, extend, skip in *. simpl. rewrite Hw.
  pose proof (zlen_nonneg q). rewrite !u32_id by (unfold is_u32; lia).
  unfold zlen in *. rewrite length_drop, drop_app_le by lia.
  split; [f_equal; lia|]. lia.
Qed.

Lemma stable_next : stable next (fun _ => True).
Proof.
  intros b q Hw Hq. unfold next, mbind, decoder_bind, peek, advance.
  rewrite !Z.gtb_ltb. unfold whole in Hw. pose proof (zlen_nonneg q).
  destruct (Z.ltb_spec 0 (remainingBytes_ b)); [|done].
  destruct (cursor_ b) as [|x l] eqn:Hc; [done|].
  assert (Hn : 1 <= zlen (cursor_ b)) by (rewrite Hc; unfold zlen; simpl; lia).
  rewrite <- Hc in Hw, Hq. destruct (extend_skip b q 1 Hw ltac:(lia) Hq) as (E & Hs & Hl).
  split; [done|]. split; [done|]. split; [rewrite Hl, Hc; unfold zlen; simpl; lia|].
  simpl (remainingBytes_ (extend b q)). rewrite (proj2 (Z.ltb_lt _ _)) by lia.
  simpl (cursor_ (extend b q)). rewrite Hc. simpl. by rewrite <- E.
Qed.

Lemma stable_peek : stable peek (fun _ => True).
Proof.
  intros b q Hw Hq. unfold peek. rewrite !Z.gtb_ltb. unfold whole in Hw. pose proof (zlen_nonneg q).
  destruct (Z.ltb_spec 0 (remainingBytes_ b)); [|done].
  destruct (cursor_ b) as [|x l] eqn:Hc; [done|]. split; [done|]. split; [unfold whole; by rewrite Hc|].
  split; [rewrite Hc; lia|]. simpl. rewrite (proj2 (Z.ltb_lt _ _)) by lia. by rewrite Hc.
Qed.

Lemma stable_loop fuel : forall integer f fexp,
  stable (decodeInteger_loop fuel integer f fexp) (fun v => 0 <= v).
Proof.
  induction fuel as [|fuel IH]; intros; simpl; [apply stable_abort|].
  eapply stable_bind; [apply stable_nonempty|intros _ _].
  eapply stable_bind; [apply stable_next|intros x _].
  destruct (_ >? _); [apply stable_err|]. destruct (_ <=? _); [apply stable_err|].
  destruct (truth _); [apply IH|apply stable_ret, u64_range].
Qed.

Lemma stable_decodeInteger nbit : 1 <= nbit <= 8 -> stable (decodeInteger nbit) (fun v => 0 <= v).
Proof.
  intros Hn. unfold decodeInteger. eapply stable_bind; [apply stable_nonempty|intros _ _].
  eapply stable_bind; [apply stable_next|intros x _]. rewrite nbit_mask by done.
  destruct (negb _); [|apply stable_loop]. apply stable_ret. rewrite Z.land_ones by lia.
  apply Z.mod_pos_bound. apply Z.pow_pos_nonneg; lia.
Qed.

(** The rest of a literal: the size is compared with what is left. *)
Lemma stable_data {A} size (k : list Z -> decoder A) Q :
  0 <= size -> (forall l, stable (k l) Q) ->
  stable (b ← get;
    if size >? remainingBytes_ b then derr BUFFER_UNDERFLOW
    else if size >? maxLiteralSize_ b then derr LITERAL_TOO_LARGE
    else data ← pull size; k data) Q.
Proof.
  intros Hs Hk b q Hw Hq. unfold mbind, decoder_bind, get. pose proof (zlen_nonneg q).
  rewrite !Z.gtb_ltb. simpl (remainingBytes_ (extend b q)). simpl (maxLiteralSize_ (extend b q)).
  unfold whole in Hw. destruct (Z.ltb_spec (remainingBytes_ b) size); [by left|].
  rewrite (proj2 (Z.ltb_ge (_ + _) size)) by lia.
  destruct (Z.ltb_spec (maxLiteralSize_ b) size); [right; by eexists|].
  unfold pull. simpl (cursor_ (extend b q)). rewrite zlen_app.
  rewrite !(proj2 (Z.ltb_ge _ _)) by lia.
  destruct (extend_skip b q size Hw ltac:(lia) Hq) as (-> & Hw' & Hl).
  rewrite take_app_le by (unfold zlen in *; lia).
  specialize (Hk (take (Z.to_nat size) (cursor_ b)) (skip b size) q Hw' ltac:(lia)).
  destruct (k _ (skip b size)) as [a b2|e b2|]; [|done..].
  destruct Hk as (? & ? & ? & ->). split_and!; done || lia.
Qed.

Lemma stable_decodeLiteral nbit :
  1 <= nbit <= 7 -> stable (decodeLiteral_at nbit) (fun _ => True).
Proof.
  intros Hn. unfold decodeLiteral_at. eapply stable_bind; [apply stable_nonempty|intros _ _].
  eapply stable_bind; [apply stable_peek|intros x _].
  eapply stable_bind; [apply stable_decodeInteger; lia|intros size Hs].
  apply stable_data; [done|]. intros l. destruct (truth _); [|by apply stable_ret].
  destruct (Huffman.decode _ _ _) as [[]|]; [by apply stable_ret|apply stable_abort].
Qed.

(** ** Bytes that code a value *)

(** The buffer ends inside [bytes]. *)
Definition short (b : t) (bytes : list Z) : Prop :=
  whole b /\ exists q, q <> [] /\ bytes = cursor_ b ++ q.

Record codes {A} (m : decoder A) (lim : Z) (bytes : list Z) (a : A) : Prop := {
  codes_ok : bytes_ok bytes;
  codes_ne : bytes <> [];
  codes_small : zlen bytes < 2 ^ 32;
  codes_full b rest : holds b bytes rest -> lim <= maxLiteralSize_ b ->
    m b = DOk a (skip b (zlen bytes));
  codes_short b : short b bytes -> lim <= maxLiteralSize_ b ->
    exists b', m b = DErr BUFFER_UNDERFLOW b' }.

Lemma codes_intro {A} (m : decoder A) lim bytes a (Q : A -> Prop) :
  bytes_ok bytes -> bytes <> [] -> zlen bytes < 2 ^ 32 -> stable m Q ->
  (forall L, safe L m 0 (fun _ => True)) ->
  (forall b rest, holds b bytes rest -> lim <= maxLiteralSize_ b -> m b = DOk a (skip b (zlen bytes))) ->
  codes m lim bytes a.
Proof.
  intros Hb Hne Hz Hst Hsafe Hfull. constructor; try done.
  intros b (Hw & q & Hq & E) Hlim.
  assert (Hsum : zlen (cursor_ b) + zlen q = zlen bytes) by (by rewrite E, zlen_app).
  pose proof (zlen_nonneg (cursor_ b)). pose proof (zlen_nonneg q).
  assert (Hq0 : 0 < zlen q) by (destruct q; [done|unfold zlen; simpl; lia]).
  assert (Hwf : wf b).
  { unfold whole in Hw. split_and!; try lia.
    - rewrite E in Hb. by apply Forall_app in Hb as [? _].
    - unfold is_u32. lia. }
  pose proof (Hsafe (maxLiteralSize_ b) b Hwf ltac:(lia)) as HS.
  pose proof (Hst b q Hw ltac:(lia)) as HE.
  assert (HF : m (extend b q) = DOk a (skip (extend b q) (zlen bytes))).
  { apply (Hfull _ []); [|done]. split; [simpl; by rewrite E, app_nil_r|].
    unfold whole in Hw. simpl. rewrite Hw. unfold is_u32. lia. }
  destruct (m b) as [a' b'|e b'|]; [| |done].
  - destruct HE as (_ & Hw' & Hl' & HE). rewrite HE in HF. injection HF as _ _ _ HF.
    unfold whole in *. rewrite Hw, Hw', Hsum, Z.sub_diag in HF. change (u32 0) with 0 in HF.
    pose proof (zlen_nonneg (cursor_ b')). lia.
  - destruct HE as [->|[b2 HE]]; [by eexists|]. by rewrite HE in HF.
Qed.

(** A buffer that ends inside [x ++ y] ends inside [x], or holds [x] and ends
    inside [y]. *)
Lemma short_app b x y :
  short b (x ++ y) -> zlen (x ++ y) < 2 ^ 32 ->
  short b x \/ (holds b x (cursor_ (skip b (zlen x))) /\ short (skip b (zlen x)) y).
Proof.
  intros (Hw & q & Hq & E) Hz. rewrite zlen_app in Hz. pose proof (zlen_nonneg y).
  destruct (decide (length (cursor_ b) < length x)%nat) as [Hlt|Hge].
  - left. split; [done|]. exists (drop (length (cursor_ b)) x). split.
    + intros Hd. apply (f_equal length) in Hd. rewrite length_drop in Hd. simpl in Hd. lia.
    + apply (f_equal (take (length x))) in E. rewrite take_app_length in E.
      rewrite take_app_ge in E by lia. rewrite E at 1.
      rewrite E at 2. rewrite drop_app_length. done.
  - right. assert (Ec : cursor_ b = x ++ drop (length x) (cursor_ b)).
    { apply (f_equal (take (length x))) in E. rewrite take_app_length in E.
      rewrite take_app_le in E by lia. rewrite E at 1. by rewrite take_drop. }
    assert (Hs : cursor_ (skip b (zlen x)) = drop (length x) (cursor_ b))
      by (simpl; unfold zlen; by rewrite Nat2Z.id).
    assert (Hl : zlen x <= zlen (cursor_ b)) by (unfold zlen; lia).
    assert (Ey : y = drop (length x) (cursor_ b) ++ q).
    { apply (app_inv_head x). rewrite app_assoc, <- Ec. exact E. }
    assert (Hlc : zlen (cursor_ b) <= zlen x + zlen y).
    { rewrite <- zlen_app, E, zlen_app. pose proof (zlen_nonneg q). lia. }
    unfold whole in Hw. split.
    + unfold holds. rewrite Hs. split; [exact Ec|]. rewrite Hw. unfold is_u32, zlen in *. lia.
    + split; [|by exists q; rewrite Hs].
      unfold whole. rewrite Hs. simpl. rewrite Hw. unfold zlen in *. rewrite length_drop.
      rewrite u32_id; [lia|unfold is_u32; lia].
Qed.

Lemma codes_int v instruction nbit :
  Wire.pattern instruction nbit -> 0 <= v < UINT64_MAX ->
  codes (decodeInteger nbit) 0 (Wire.enc_int v instruction nbit) v.
Proof.
  intros Hp Hv. pose proof (Wire.enc_int_length v instruction nbit) as Hl.
  eapply codes_intro.
  - apply Wire.enc_int_ok; [done|]. unfold_ints. lia.
  - intros E. rewrite E in Hl. unfold zlen in Hl. simpl in Hl. lia.
  - lia.
  - apply stable_decodeInteger, Hp.
  - intros L. eapply safe_weaken; [| |apply safe_decodeInteger, Hp]; [lia|done].
  - intros b rest Hh _. by apply (decodeInteger_spec b v instruction nbit rest).
Qed.

(** What [encodeLiteral_at] writes. *)
Lemma codes_literal eb instruction nbit literal :
  1 <= nbit <= 7 -> Wire.pattern instruction (nbit + 1) -> bytes_ok literal ->
  zlen literal < 2 ^ 27 ->
  exists bytes, HPACKEncodeBuffer.encodeLiteral_at eb instruction nbit literal =
      Some (zlen bytes, HPACKEncodeBuffer.push eb bytes) /\
    codes (decodeLiteral_at nbit) (4 * zlen literal) bytes literal /\
    zlen bytes <= 11 + 4 * zlen literal /\
    exists x l, bytes = instruction + x :: l /\ 0 <= x < 2 ^ (nbit + 1).
Proof.
  intros Hn Hp Hl Hz.
  destruct (encodeLiteral_decodes eb instruction nbit literal Hn Hp Hl Hz)
    as (hdr & data & HE & Hok & Hh & Hd & (x & l & Hx & Hxr) & HD).
  exists (hdr ++ data). rewrite zlen_app in *. split; [done|].
  split; [|split; [lia|exists x, (l ++ data); by rewrite Hx]].
  eapply codes_intro; try done.
  - intros E. apply app_eq_nil in E as [-> _]. unfold zlen in Hh. simpl in Hh. lia.
  - rewrite zlen_app. lia.
  - by apply stable_decodeLiteral.
  - intros L. eapply safe_weaken; [| |by apply safe_decodeLiteral]; [lia|done].
  - intros b rest Hb Hm. rewrite zlen_app. apply (HD b rest); [done|lia].
Qed.

End Codes.
