(* ===== verification/QPACKTables.v ===== *)
(** * Two dynamic tables in step

    [Dyn] is what the encoder's and the decoder's dynamic tables have in common: a
    capacity, the fields, and the number of insertions.  The encoder stream is a
    list of instructions ([instr]) on it; the decoder's table is the encoder's at an
    earlier point of that list.  Since an entry that is gone never comes back, what
    the encoder's table still holds, the decoder's holds too as soon as it was
    inserted there ([field_back]).  That is the argument that makes references safe
    whatever order header blocks arrive in.

    [TrackedTable] restates the operations the encoder uses in these terms, for
    tables of any capacity. *)

From stdpp Require Import gmap.
From S2P Require Import Prelude HeaderTable QPACKHeaderTable.

Module Dyn.
Import HPACKHeader HeaderSpec QPACKHeaderTable QPACKRing.

Record dyn := mkDyn { cap : Z; fields : list HPACKHeader.t; ins : Z }.

(** A duplication inserts a field that is there already. *)
Inductive instr :=
| ISize (c : Z)
| IInsert (h : HPACKHeader.t).

Definition apply (T : dyn) (i : instr) : dyn :=
  match i with
  | ISize c => mkDyn c (keep c (fields T)) (ins T)
  | IInsert h => mkDyn (cap T) (h :: keep (cap T - hsize h) (fields T)) (ins T + 1)
  end.

Definition replay (T : dyn) (l : list instr) : dyn := foldl apply T l.

(** The field with absolute index [i]. *)
Definition field (T : dyn) (i : Z) : option HPACKHeader.t :=
  if i <=? ins T then fields T !! Z.to_nat (ins T - i) else None.

Definition view (s : QPACKHeaderTable.t) : dyn := mkDyn (capacity_ s) (entries s) (insertCount_ s).

Lemma field_abs s i : QPACKTableSpec.field (abs s) i = field (view s) i.
Proof. done. Qed.

Lemma replay_app T l1 l2 : replay T (l1 ++ l2) = replay (replay T l1) l2.
Proof. apply foldl_app. Qed.

Lemma keep_lookup c es k h : keep c es !! k = Some h -> es !! k = Some h.
Proof. intros Hl. exact (prefix_lookup_Some _ _ _ _ Hl (keep_prefix c es)). Qed.

Lemma field_back_apply T x i h :
  field (apply T x) i = Some h -> i <= ins T -> field T i = Some h.
Proof.
  unfold field. intros Hf Hi. rewrite (proj2 (Z.leb_le i (ins T))) by done.
  destruct x as [c|h']; simpl in Hf; rewrite (proj2 (Z.leb_le _ _)) in Hf by lia.
  - by apply keep_lookup in Hf.
  - replace (Z.to_nat (ins T + 1 - i)) with (S (Z.to_nat (ins T - i))) in Hf by lia.
    simpl in Hf. by apply keep_lookup in Hf.
Qed.

Lemma ins_apply T x : ins T <= ins (apply T x) <= ins T + 1.
Proof. destruct x; simpl; lia. Qed.

Lemma ins_replay T l : ins T <= ins (replay T l).
Proof.
  revert T. induction l as [|x l IH]; intros T; unfold replay in *; cbn [foldl]; [lia|].
  pose proof (ins_apply T x). specialize (IH (apply T x)). lia.
Qed.

(** A field that is still there after further instructions is there now. *)
Lemma field_back l : forall T i h,
  field (replay T l) i = Some h -> i <= ins T -> field T i = Some h.
Proof.
  induction l as [|x l IH]; intros T i h Hf Hi; [done|].
  apply (field_back_apply T x); [|done]. apply IH; [done|]. pose proof (ins_apply T x). lia.
Qed.

(** ** Changes of an untracked table *)

Lemma fits_untracked a n es c :
  QPACKTableSpec.tracked a = false ->
  QPACKTableSpec.fits (QPACKTableSpec.evictable a) n es c = true.
Proof. intros Ht. unfold QPACKTableSpec.fits, QPACKTableSpec.evictable. rewrite Ht. by destruct (_ =? _). Qed.

Lemma untracked_add s h :
  inv s -> trackReferences_ s = false -> insertCount_ s < UINT32_MAX - 1 ->
  hsize h <= capacity_ s ->
  exists s', QPACKHeaderTable.add s h = Some (true, s') /\ inv s' /\ trackReferences_ s' = false /\
    view s' = apply (view s) (IInsert h).
Proof.
  intros H Ht Hi Hh. pose proof (bytes_bound s H).
  destruct (q_add_spec s h H Hi ltac:(lia)) as (s' & HE & H' & Ha & _); [congruence|].
  unfold QPACKTableSpec.add in HE, Ha. simpl in HE, Ha.
  rewrite (proj2 (Z.leb_le _ _)), fits_untracked in HE, Ha by done. simpl in HE, Ha.
  exists s'. split_and!; try done.
  - change (QPACKTableSpec.tracked (abs s') = false). by rewrite Ha.
  - unfold abs in Ha. injection Ha as Hc He Hn _ _ _. unfold view. simpl. by rewrite Hc, He, Hn.
Qed.

Lemma untracked_setCapacity s c :
  inv s -> trackReferences_ s = false -> 0 <= c < 2 ^ 31 ->
  exists s', QPACKHeaderTable.setCapacity s c = Some (true, s') /\ inv s' /\
    trackReferences_ s' = false /\ view s' = apply (view s) (ISize c).
Proof.
  intros H Ht Hc. destruct (q_setCapacity_spec s c H Hc) as (s' & HE & H' & Ha & _).
  unfold QPACKTableSpec.setCapacity in HE, Ha. rewrite fits_untracked in HE, Ha by done.
  simpl in HE, Ha. exists s'. split_and!; try done.
  - change (QPACKTableSpec.tracked (abs s') = false). by rewrite Ha.
  - unfold abs in Ha. injection Ha as Hc' He Hn _ _ _. unfold view. simpl. by rewrite Hc', He, Hn.
Qed.

Lemma field_range s i h : inv s -> field (view s) i = Some h -> 1 <= i <= insertCount_ s.
Proof.
  unfold field. simpl. intros H. destruct (Z.leb_spec i (insertCount_ s)); [|done]. intros Hl.
  apply lookup_lt_Some in Hl. pose proof (size_entries s H) as Hz. pose proof (inv_size s H).
  unfold zlen in Hz. lia.
Qed.

(** ** Reading by absolute index *)

Lemma table_getHeader_field s i base h :
  inv s -> field (view s) i = Some h -> i <= base < 2 ^ 32 ->
  QPACKHeaderTable.getHeader s (base - i + 1) base = Some h.
Proof.
  intros H Hf Hb. pose proof (field_range s i h H Hf).
  rewrite getHeader_based, field_abs by (done || lia).
  by replace (base - (base - i + 1) + 1) with i by lia.
Qed.

End Dyn.

(** ** The encoder's operations *)

Module TrackedTable.
Import HPACKHeader HeaderSpec QPACKHeaderTable QPACKRing Dyn.

(** What lookups and insertions leave alone. *)
Definition same_marks (s s' : QPACKHeaderTable.t) : Prop :=
  ackedInsertCount_ s' = ackedInsertCount_ s /\ minInUseIndex_ s' = minInUseIndex_ s /\
  trackReferences_ s' = trackReferences_ s /\ capacity_ s' = capacity_ s.

Lemma same_marks_refl s : same_marks s s.
Proof. done. Qed.

Lemma same_marks_trans s1 s2 s3 : same_marks s1 s2 -> same_marks s2 s3 -> same_marks s1 s3.
Proof. unfold same_marks. intuition congruence. Qed.

(** Entries from [minInUseIndex_] on, and unacknowledged ones, stay. *)
Definition keeps (s s' : QPACKHeaderTable.t) : Prop :=
  forall i h, minInUseIndex_ s <= i \/ ackedInsertCount_ s < i ->
    field (view s) i = Some h -> field (view s') i = Some h.

Lemma keeps_refl s : keeps s s.
Proof. by intros i h. Qed.

Lemma keeps_trans s1 s2 s3 : same_marks s1 s2 -> keeps s1 s2 -> keeps s2 s3 -> keeps s1 s3.
Proof.
  intros (Ha & Hm & _) H12 H23 i h Hi Hf. apply H23; [by rewrite Ha, Hm|]. by apply H12.
Qed.

Lemma canIndex_total s h :
  inv s -> hsize h <= capacity_ s ->
  exists ok, canIndex s (name h) (value h) = Some ok /\
    (ok = true ->
     QPACKTableSpec.fits (QPACKTableSpec.evictable (abs s)) (insertCount_ s) (entries s)
       (capacity_ s - hsize h) = true).
Proof.
  intros H Hh. pose proof (bytes_bound s H). pose proof (hsize_min h).
  pose proof (Ring.wf_bytes _ (inv_wf s H)) as Hb.
  assert (E : HPACKHeader.bytes_of (u32 (zlen (name h))) (zlen (value h)) = hsize h)
    by (apply (bytes_exact h); lia).
  unfold canIndex. rewrite E. destruct (hsize h <=? u32 _); [|by exists false].
  rewrite u32_id by (unfold_ints; lia).
  destruct (Z.leb_spec (bytes_ s + hsize h) (capacity_ s)).
  - exists true. split; [done|]. intros _. apply QPACKTableSpec.fits_all. lia.
  - rewrite u32_id by (unfold_ints; lia). rewrite canEvict_spec by (done || lia).
    eexists. split; [reflexivity|]. intros Hok. rewrite <- Hok. f_equal. lia.
Qed.

Lemma tracked_insert s h :
  inv s -> trackReferences_ s = true -> insertCount_ s < UINT32_MAX - 1 -> hsize h <= capacity_ s ->
  canIndex s (name h) (value h) = Some true ->
  exists s', QPACKHeaderTable.add s h = Some (true, s') /\ inv s' /\ same_marks s s' /\
    view s' = apply (view s) (IInsert h) /\ keeps s s'.
Proof.
  intros H Ht Hi Hh HC. pose proof (bytes_bound s H).
  destruct (canIndex_total s h H Hh) as (ok & HC' & Hfit). rewrite HC in HC'.
  injection HC' as <-. specialize (Hfit eq_refl).
  destruct (q_add_spec s h H Hi ltac:(lia) ltac:(done)) as (s' & HE & H' & Ha & _).
  pose proof Ha as Ha0. unfold QPACKTableSpec.add in HE, Ha. simpl in HE, Ha.
  rewrite (proj2 (Z.leb_le _ _)), Hfit in HE, Ha by done. simpl in HE, Ha.
  exists s'. unfold abs in Ha. injection Ha as Hc He Hn Hk Hu Htr.
  split_and!; try done.
  - unfold view. simpl. by rewrite Hc, He, Hn.
  - intros i f Hi' Hf. rewrite <- field_abs, Ha0. rewrite QPACKTableSpec.add_keeps; [by rewrite field_abs|done| |].
    + unfold QPACKTableSpec.evictable. simpl. rewrite Ht. simpl.
      rewrite andb_false_iff, Z.ltb_ge, Z.leb_gt. lia.
    + by apply (field_range s i f H).
Qed.

(** The space of the indices [getIndex] returns. *)
Lemma lookup_spec s n v nameOnly av :
  inv s -> trackReferences_ s = true ->
  exists r, getIndexImpl s n v nameOnly av = Some r /\
    (r = 0 \/ r = UNACKED \/
     1 <= r <= size_ s /\ exists h, entries s !! Z.to_nat (r - 1) = Some h /\ name h = n /\
       (nameOnly = false -> value h = v) /\
       (av = true \/ insertCount_ s - r + 1 <= ackedInsertCount_ s)).
Proof.
  intros H Ht. destruct (q_getIndexImpl_spec s n v nameOnly av H Ht) as (r & Hr & Ho).
  exists r. split; [done|]. destruct Ho as [(j & Hj & -> & (h & Hl & Hm) & Hav)|[(-> & _)|(-> & _)]];
    [|by right; left|by left].
  right; right. split; [lia|]. exists h. replace (Z.to_nat (j + 1 - 1)) with (Z.to_nat j) by lia.
  unfold Ring.matches in Hm. apply andb_prop in Hm as [Hn%bool_decide_eq_true Hv].
  split_and!; try done.
  - intros ->. by apply bool_decide_eq_true in Hv.
  - destruct Hav; [by left|right; lia].
Qed.

(** The newest [r]-th entry has absolute index [insertCount_ - r + 1]. *)
Lemma entry_field s r h :
  1 <= r <= insertCount_ s -> entries s !! Z.to_nat (r - 1) = Some h ->
  field (view s) (insertCount_ s - r + 1) = Some h.
Proof.
  intros Hr Hl. unfold field. simpl. rewrite (proj2 (Z.leb_le _ _)) by lia.
  by replace (insertCount_ s - (insertCount_ s - r + 1)) with (r - 1) by lia.
Qed.

(** A duplicate of [h] was inserted, or the table is as it was; an index that is
    returned refers to [h]. *)
Lemma maybeDuplicate_spec s r h av :
  inv s -> trackReferences_ s = true -> insertCount_ s < UINT32_MAX - 1 ->
  1 <= r <= size_ s -> entries s !! Z.to_nat (r - 1) = Some h ->
  exists (dup : bool) i s', maybeDuplicate s r av = Some ((dup, i), s') /\ inv s' /\
    same_marks s s' /\ keeps s s' /\
    view s' = (if dup then apply (view s) (IInsert h) else view s) /\
    (dup = true -> hsize h <= capacity_ s) /\
    (i <> 0 -> field (view s') i = Some h /\
       (dup = true -> av = true) /\ (dup = false -> i = insertCount_ s - r + 1)).
Proof.
  intros H Ht Hi Hr Hl. pose proof (size_entries s H) as Hz. pose proof (inv_size s H).
  pose proof (Ring.wf_size _ (inv_wf s H)). pose proof (Ring.wf_len _ (inv_wf s H)).
  unfold maybeDuplicate. rewrite (proj2 (Z.eqb_neq r UNACKED)) by (unfold UNACKED; unfold_ints; lia).
  unfold relativeToAbsolute. rewrite u32_id by (unfold_ints; lia).
  pose proof (entry_field s r h ltac:(lia) Hl) as Hf.
  assert (Hin : h ∈ entries s) by (by eapply list_elem_of_lookup_2).
  assert (Hcap : hsize h <= capacity_ s).
  { pose proof (Ring.wf_bytes _ (inv_wf s H)) as Hb. pose proof (bytes_bound s H).
    apply list_elem_of_split in Hin as (l1 & l2 & El). rewrite El, total_app in Hb. simpl in Hb.
    pose proof (total_nonneg l1). pose proof (total_nonneg l2). fold (total l2) in Hb. lia. }
  pose proof (bytes_bound s H).
  destruct (Z.ltb_spec (insertCount_ s - r + 1) (minUsable_ s)) as [Hd|Hd].
  - rewrite getHeader_relative, Hl by (done || unfold_ints; lia). unfold mbind, option_bind.
    destruct (canIndex_total s h H Hcap) as ([] & HC & _); rewrite HC.
    + destruct (tracked_insert s h H Ht Hi Hcap HC) as (s' & -> & H' & Hs & Hv & Hk).
      eexists true, _, s'. split; [reflexivity|]. split_and!; try done.
      destruct av; [|done]. intros _. split_and!; try done.
      change (insertCount_ s') with (ins (view s')). unfold field.
      rewrite Z.leb_refl, Z.sub_diag, Hv. done.
    + eexists false, _, s. split; [reflexivity|]. split_and!; try done. apply keeps_refl.
  - eexists false, _, s. split; [reflexivity|]. split_and!; try done.
    apply keeps_refl.
Qed.

End TrackedTable.
