(* ===== verification/QPACKReads.v ===== *)
(** * What the QPACK decoder reads

    The forms in which a field can be written to a header block ([reads]) and what the
    decoder makes of them: a block whose references are in the decoder's table is
    decoded to its fields, and the prefix gives back the required insert count and the
    base.  The encoder stream is in [QPACKFeed]. *)

From stdpp Require Import gmap.
From S2P Require Import Prelude Huffman HPACKBuffers HeaderTable HPACKContext QPACKHeaderTable.
From S2P Require Import QPACKContext QPACKDecoder QPACKWire QPACKTables.

Module QPACKReads.
Import HPACK QPACK HPACKHeader HPACKHeaderName QPACKRing QPACKStaticSpec Dyn.
Import DecodeSpec Codes.
Module D := QPACKDecoder.
Module DB := HPACKDecodeBuffer.

(** ** Handlers *)

Lemma qbind_ok {A B} (m : D.handler A) (k : A -> D.handler B) st a st' :
  m st = Some (Some a, st') -> (m ≫= k) st = k a st'.
Proof. intros H. unfold mbind, D.handler_bind. by rewrite H. Qed.

Lemma qbind_fail {A B} (m : D.handler A) (k : A -> D.handler B) st st' :
  m st = Some (None, st') -> (m ≫= k) st = Some (None, st').
Proof. intros H. unfold mbind, D.handler_bind. by rewrite H. Qed.

Lemma q_set_err_none d : D.err_ d = NONE -> D.set_err d NONE = d.
Proof. destruct d. simpl. by intros ->. Qed.

Lemma decode_full {A} (m : DB.decoder A) lim bytes a d b rest :
  codes m lim bytes a -> D.err_ d = NONE -> holds b bytes rest -> lim <= DB.maxLiteralSize_ b ->
  D.decode m (d, b) = Some (Some a, (d, DB.skip b (zlen bytes))).
Proof.
  intros Hc He Hh Hl. unfold D.decode. rewrite (codes_full _ _ _ _ Hc b rest Hh Hl).
  by rewrite q_set_err_none.
Qed.

Lemma decode_short {A} (m : DB.decoder A) lim bytes a d b :
  codes m lim bytes a -> short b bytes -> lim <= DB.maxLiteralSize_ b ->
  exists b', D.decode m (d, b) = Some (None, (D.set_err d BUFFER_UNDERFLOW, b')).
Proof.
  intros Hc Hs Hl. destruct (codes_short _ _ _ _ Hc b Hs Hl) as [b' E]. exists b'.
  unfold D.decode. by rewrite E.
Qed.

Lemma q_peek_ok d b x l rest : holds b (x :: l) rest -> D.peek (d, b) = Some (Some x, (d, b)).
Proof. intros H. unfold D.peek. by rewrite (peek_cons b x l rest H). Qed.

(** The first byte of something that is cut off. *)
Lemma q_peek_short d b x l :
  short b (x :: l) -> 0 < DB.remainingBytes_ b -> D.peek (d, b) = Some (Some x, (d, b)).
Proof.
  intros (Hw & q & _ & E) Hr. unfold D.peek, DB.peek. rewrite Z.gtb_ltb, (proj2 (Z.ltb_lt _ _)) by done.
  unfold whole in Hw. destruct (DB.cursor_ b) as [|y c]; [unfold zlen in Hw; simpl in Hw; lia|].
  by injection E as -> _.
Qed.

(** ** The decoder's state *)

Definition dinv (d : D.t) : Prop :=
  inv (D.table_ d) /\ QPACKHeaderTable.trackReferences_ (D.table_ d) = false.

(** Nothing but the counters of the context differs. *)
Definition upto (d d' : D.t) : Prop :=
  exists c, d' = D.with_ctx d c /\ QPACKContext.table_ c = D.table_ d.

Lemma upto_refl d : upto d d.
Proof. exists (D.ctx d). by destruct d. Qed.

Lemma upto_trans d1 d2 d3 : upto d1 d2 -> upto d2 d3 -> upto d1 d3.
Proof. intros (c & -> & Hc) (c' & -> & Hc'). exists c'. split; [done|]. by rewrite Hc'. Qed.

Lemma upto_table d d' : upto d d' -> D.table_ d' = D.table_ d.
Proof. by intros (c & -> & Hc). Qed.

Lemma upto_err d d' : upto d d' -> D.err_ d' = D.err_ d.
Proof. by intros (c & -> & Hc). Qed.

Lemma upto_base d d' : upto d d' -> D.baseIndex_ d' = D.baseIndex_ d.
Proof. by intros (c & -> & Hc). Qed.

Lemma upto_dinv d d' : upto d d' -> dinv d -> dinv d'.
Proof. intros H. unfold dinv. by rewrite (upto_table d d' H). Qed.

(** ** References *)

Lemma static_field_range i h : static_field i = Some h -> 1 <= i <= QPACKStaticHeaderTable.kEntriesSize.
Proof.
  unfold static_field. destruct (Z.leb_spec 1 i), (Z.leb_spec i QPACKStaticHeaderTable.kEntriesSize);
    simpl; done || lia.
Qed.

Lemma checked_static d b i h :
  static_field i = Some h ->
  exists d', D.checked_header true i false (d, b) = Some (Some h, (d', b)) /\ upto d d'.
Proof.
  intros Hf. pose proof (static_field_range i h Hf) as Hi.
  unfold QPACKStaticHeaderTable.kEntriesSize in Hi.
  exists (D.with_ctx d (QPACKContext.static_ref (D.ctx d))). split; [|by eexists].
  unfold D.checked_header, D.isValid. rewrite Z.gtb_ltb, (proj2 (Z.ltb_ge _ _)) by (unfold_ints; lia).
  rewrite q_static_isValid. unfold QPACKStaticHeaderTable.kEntriesSize.
  rewrite !(proj2 (Z.leb_le _ _)) by lia. simpl.
  rewrite u32_id, q_static_getHeader, Hf by (unfold_ints; lia). done.
Qed.

Lemma getHeader_isValid s i base h :
  QPACKHeaderTable.getHeader s i base = Some h -> QPACKHeaderTable.isValid s i base = true.
Proof. unfold QPACKHeaderTable.getHeader. by destruct (QPACKHeaderTable.isValid s i base). Qed.

Lemma checked_dynamic d b i h :
  0 <= i <= UINT32_MAX -> QPACKHeaderTable.getHeader (D.table_ d) i (D.baseIndex_ d) = Some h ->
  D.checked_header false i false (d, b) = Some (Some h, (d, b)).
Proof.
  intros Hi Hg. unfold D.checked_header, D.isValid.
  rewrite Z.gtb_ltb, (proj2 (Z.ltb_ge _ _)), (getHeader_isValid _ _ _ _ Hg) by lia.
  rewrite u32_id by (unfold_ints; lia). unfold QPACKContext.getHeader.
  change (QPACKContext.table_ (D.ctx d)) with (D.table_ d). rewrite Hg. simpl. by destruct d.
Qed.

Lemma checked_post d b i h :
  0 <= i -> 0 <= D.baseIndex_ d -> D.baseIndex_ d + i <= UINT32_MAX ->
  QPACKHeaderTable.getHeader (D.table_ d) 1 (D.baseIndex_ d + i) = Some h ->
  D.checked_header false i true (d, b) = Some (Some h, (d, b)).
Proof.
  intros Hi Hb Hs Hg. unfold D.checked_header, D.isValid.
  rewrite !Z.gtb_ltb, u64_id by (unfold_ints; lia).
  rewrite !(proj2 (Z.ltb_ge _ _)), (getHeader_isValid _ _ _ _ Hg) by lia.
  unfold QPACKContext.getHeader. rewrite (u32_id i) by (unfold_ints; lia).
  rewrite (proj2 (Z.leb_le _ _)), u32_id by (unfold_ints; lia).
  change (QPACKContext.table_ (D.ctx d)) with (D.table_ d). rewrite Hg. simpl. by destruct d.
Qed.

(** An index that is read: the form, whether it is static, and the entry. *)
Definition refers (d : D.t) (above isStatic : bool) (index : Z) (h : HPACKHeader.t) : Prop :=
  1 <= index < UINT64_MAX /\
  forall b, exists d', D.checked_header isStatic index above (d, b) = Some (Some h, (d', b)) /\ upto d d'.

Lemma refers_static d i h : static_field i = Some h -> refers d false true i h.
Proof.
  intros Hf. split; [|intros b; by apply checked_static].
  pose proof (static_field_range i h Hf) as Hi. unfold QPACKStaticHeaderTable.kEntriesSize in Hi.
  unfold_ints. lia.
Qed.

(** Relative to the newest entry, on the encoder stream. *)
Lemma refers_relative d i h :
  dinv d -> D.baseIndex_ d = 0 -> 1 <= i < 2 ^ 32 ->
  fields (view (D.table_ d)) !! Z.to_nat (i - 1) = Some h -> refers d false false i h.
Proof.
  intros [Hd _] Hb Hi Hf. split; [unfold_ints; lia|]. intros b. exists d. split; [|apply upto_refl].
  apply checked_dynamic; [unfold_ints; lia|]. rewrite Hb. by rewrite getHeader_relative.
Qed.

(** Relative to the base, in a block. *)
Lemma refers_based d i h :
  dinv d -> D.baseIndex_ d < 2 ^ 32 -> i <= D.baseIndex_ d ->
  field (view (D.table_ d)) i = Some h -> refers d false false (D.baseIndex_ d - i + 1) h.
Proof.
  intros [Hd _] Hb Hi Hf. pose proof (field_range _ _ _ Hd Hf). split; [unfold_ints; lia|].
  intros b. exists d. split; [|apply upto_refl].
  apply checked_dynamic; [unfold_ints; lia|]. by apply table_getHeader_field.
Qed.

Lemma refers_post d i h :
  dinv d -> 0 <= D.baseIndex_ d < i -> i < 2 ^ 32 ->
  field (view (D.table_ d)) i = Some h -> refers d true false (i - D.baseIndex_ d) h.
Proof.
  intros [Hd _] Hb Hi Hf. pose proof (field_range _ _ _ Hd Hf). split; [unfold_ints; lia|].
  intros b. exists d. split; [|apply upto_refl].
  apply checked_post; [lia|lia|unfold_ints; lia|].
  replace (D.baseIndex_ d + (i - D.baseIndex_ d)) with i by lia.
  pose proof (table_getHeader_field (D.table_ d) i i h Hd Hf ltac:(lia)) as Hg.
  by rewrite Z.sub_diag in Hg.
Qed.

(** ** Names and indices on the wire *)

(** The bit above the prefix marks a static index. *)
Definition marks (instruction prefixLength : Z) (above isStatic : bool) : Prop :=
  forall x, 0 <= x < 2 ^ prefixLength ->
  negb above && truth (Z.land (instruction + x) (Z.shiftl 1 prefixLength)) = isStatic.

Lemma enc_int_head v instruction nbit :
  Wire.pattern instruction nbit -> 0 <= v ->
  exists x l, Wire.enc_int v instruction nbit = instruction + x :: l /\ 0 <= x < 2 ^ nbit.
Proof. intros Hp Hv. by apply enc_int_cons. Qed.

(** Tests of the bits of a first byte. *)
Ltac solve_marks :=
  let y := fresh "y" in let Hy := fresh "Hy" in
  intros y Hy; cbn [negb andb];
  first [ reflexivity
        | change (2 ^ 6) with 64 in Hy; clear -Hy; byte_bits 64
        | change (2 ^ 5) with 32 in Hy; clear -Hy; byte_bits 32
        | change (2 ^ 4) with 16 in Hy; clear -Hy; byte_bits 16 ].
Ltac solve_pattern := unfold Wire.pattern; split_and!; (lia || reflexivity).

Section decoder.
Context `{CH : CommonHeaders}.

(** The decoder reads [bytes] as the name [n], or finds that it is cut off. *)
Record names (d : D.t) (nameIndexed : bool) (prefixLength : Z) (above : bool) (lim : Z)
    (bytes n : list Z) : Prop := {
  names_full b rest : D.err_ d = NONE -> holds b bytes rest -> lim <= DB.maxLiteralSize_ b ->
    exists d', D.decodeName nameIndexed prefixLength above (d, b) =
      Some (Some n, (d', DB.skip b (zlen bytes))) /\ upto d d';
  names_short b : D.err_ d = NONE -> short b bytes -> 0 < DB.remainingBytes_ b ->
    lim <= DB.maxLiteralSize_ b ->
    exists b', D.decodeName nameIndexed prefixLength above (d, b) =
      Some (None, (D.set_err d BUFFER_UNDERFLOW, b')) }.

Lemma names_index d prefixLength above isStatic instruction index h :
  Wire.pattern instruction prefixLength -> marks instruction prefixLength above isStatic ->
  refers d above isStatic index h ->
  names d true prefixLength above 0 (Wire.enc_int (index - 1) instruction prefixLength) (name h).
Proof.
  intros Hp Hm [Hi Hr].
  destruct (enc_int_head (index - 1) instruction prefixLength Hp ltac:(lia)) as (x & l & Hx & Hxr).
  pose proof (codes_int (index - 1) instruction prefixLength Hp ltac:(lia)) as Hc.
  constructor.
  - intros b rest He Hh Hlim. unfold D.decodeName.
    assert (Hpk := Hh). rewrite Hx in Hpk. rewrite (qbind_ok _ _ _ _ _ (q_peek_ok d b _ _ _ Hpk)).
    cbv zeta. rewrite (Hm x Hxr). rewrite (qbind_ok _ _ _ _ _ (decode_full _ _ _ _ d b rest Hc He Hh Hlim)).
    rewrite u64_id by (unfold_ints; lia). replace (index - 1 + 1) with index by lia.
    destruct (Hr (DB.skip b (zlen (Wire.enc_int (index - 1) instruction prefixLength))))
      as (d' & HC & Hu).
    exists d'. split; [|done]. rewrite (qbind_ok _ _ _ _ _ HC). done.
  - intros b He Hs Hrem Hlim. unfold D.decodeName.
    assert (Hpk := Hs). rewrite Hx in Hpk. rewrite (qbind_ok _ _ _ _ _ (q_peek_short d b _ _ Hpk Hrem)).
    cbv zeta. destruct (decode_short _ _ _ _ d b Hc Hs Hlim) as [b' E]. exists b'.
    by rewrite (qbind_fail _ _ _ _ E).
Qed.

Lemma names_literal d prefixLength lim bytes n :
  codes (DB.decodeLiteral_at prefixLength) lim bytes n -> canonical n ->
  names d false prefixLength false lim bytes n.
Proof.
  intros Hc Hn. constructor.
  - intros b rest He Hh Hlim. exists d. split; [|apply upto_refl]. unfold D.decodeName.
    rewrite (qbind_ok _ _ _ _ _ (decode_full _ _ _ _ d b rest Hc He Hh Hlim)).
    rewrite storeAddress_lower, Hn. done.
  - intros b He Hs Hrem Hlim. unfold D.decodeName.
    destruct (decode_short _ _ _ _ d b Hc Hs Hlim) as [b' E]. exists b'.
    by rewrite (qbind_fail _ _ _ _ E).
Qed.

(** The decoder reads [bytes] as an index, and finds [h] there. *)
Lemma indexed_full d b rest prefixLength above isStatic instruction index h :
  Wire.pattern instruction prefixLength -> marks instruction prefixLength above isStatic ->
  refers d above isStatic index h -> D.err_ d = NONE ->
  holds b (Wire.enc_int (index - 1) instruction prefixLength) rest ->
  0 <= DB.maxLiteralSize_ b ->
  exists d', D.decodeIndexedHeaderQ prefixLength above (d, b) =
    Some (Some h, (d', DB.skip b (zlen (Wire.enc_int (index - 1) instruction prefixLength)))) /\
    upto d d'.
Proof.
  intros Hp Hm [Hi Hr] He Hh Hlim.
  destruct (enc_int_head (index - 1) instruction prefixLength Hp ltac:(lia)) as (x & l & Hx & Hxr).
  pose proof (codes_int (index - 1) instruction prefixLength Hp ltac:(lia)) as Hc.
  unfold D.decodeIndexedHeaderQ. assert (Hpk := Hh). rewrite Hx in Hpk.
  rewrite (qbind_ok _ _ _ _ _ (q_peek_ok d b _ _ _ Hpk)). cbv zeta. rewrite (Hm x Hxr).
  rewrite (qbind_ok _ _ _ _ _ (decode_full _ _ _ _ d b rest Hc He Hh Hlim)).
  rewrite (proj2 (Z.ltb_lt _ _)), u64_id by (unfold_ints; lia).
  replace (index - 1 + 1) with index by lia. rewrite (proj2 (Z.eqb_neq index 0)) by lia. apply Hr.
Qed.

Lemma indexed_short d b prefixLength above isStatic instruction index h :
  Wire.pattern instruction prefixLength ->
  refers d above isStatic index h -> D.err_ d = NONE ->
  short b (Wire.enc_int (index - 1) instruction prefixLength) -> 0 < DB.remainingBytes_ b ->
  0 <= DB.maxLiteralSize_ b ->
  exists b', D.decodeIndexedHeaderQ prefixLength above (d, b) =
    Some (None, (D.set_err d BUFFER_UNDERFLOW, b')).
Proof.
  intros Hp [Hi _] He Hs Hrem Hlim.
  destruct (enc_int_head (index - 1) instruction prefixLength Hp ltac:(lia)) as (x & l & Hx & Hxr).
  pose proof (codes_int (index - 1) instruction prefixLength Hp ltac:(lia)) as Hc.
  unfold D.decodeIndexedHeaderQ. assert (Hpk := Hs). rewrite Hx in Hpk.
  rewrite (qbind_ok _ _ _ _ _ (q_peek_short d b _ _ Hpk Hrem)). cbv zeta.
  destruct (decode_short _ _ _ _ d b Hc Hs Hlim) as [b' E]. exists b'.
  by rewrite (qbind_fail _ _ _ _ E).
Qed.

(** ** Fields of a header block *)

(** [bytes] are read as [h] by a decoder with this base whose table has [need]. *)
Definition reads (base : Z) (need : list (Z * HPACKHeader.t)) (bytes : list Z)
    (h : HPACKHeader.t) : Prop :=
  forall d b rest, dinv d -> D.err_ d = NONE -> D.baseIndex_ d = base ->
  (forall i f, (i, f) ∈ need -> field (view (D.table_ d)) i = Some f) ->
  holds b bytes rest -> 4 * hsize h <= DB.maxLiteralSize_ b ->
  exists d', D.decodeHeaderQ (d, b) = Some (Some h, (d', DB.skip b (zlen bytes))) /\ upto d d'.

(** Which handler a first byte selects. *)
Lemma dispatch_indexed d b x l rest :
  holds b (0x80 + x :: l) rest -> 0 <= x < 128 ->
  D.decodeHeaderQ (d, b) = D.decodeIndexedHeaderQ 6 false (d, b).
Proof.
  intros Hh Hx. unfold D.decodeHeaderQ. rewrite (qbind_ok _ _ _ _ _ (q_peek_ok d b _ _ _ Hh)).
  change (code Q_INDEXED) with 0x80.
  assert (E : truth (Z.land (0x80 + x) 0x80) = true) by (clear -Hx; byte_bits 128). by rewrite E.
Qed.

Lemma dispatch_name_ref d b x l rest :
  holds b (0x40 + x :: l) rest -> 0 <= x < 32 ->
  D.decodeHeaderQ (d, b) = D.decodeLiteralHeaderQ true 4 false (d, b).
Proof.
  intros Hh Hx. unfold D.decodeHeaderQ. rewrite (qbind_ok _ _ _ _ _ (q_peek_ok d b _ _ _ Hh)).
  change (code Q_INDEXED) with 0x80. change (code Q_LITERAL_NAME_REF) with 0x40.
  assert (E7 : truth (Z.land (0x40 + x) 0x80) = false) by (clear -Hx; byte_bits 32).
  assert (E6 : truth (Z.land (0x40 + x) 0x40) = true) by (clear -Hx; byte_bits 32).
  by rewrite E7, E6.
Qed.

Lemma dispatch_literal d b x l rest :
  holds b (0x20 + x :: l) rest -> 0 <= x < 16 ->
  D.decodeHeaderQ (d, b) = D.decodeLiteralHeaderQ false 3 false (d, b).
Proof.
  intros Hh Hx. unfold D.decodeHeaderQ. rewrite (qbind_ok _ _ _ _ _ (q_peek_ok d b _ _ _ Hh)).
  change (code Q_INDEXED) with 0x80. change (code Q_LITERAL_NAME_REF) with 0x40.
  change (code Q_LITERAL) with 0x20.
  assert (E7 : truth (Z.land (0x20 + x) 0x80) = false) by (clear -Hx; byte_bits 16).
  assert (E6 : truth (Z.land (0x20 + x) 0x40) = false) by (clear -Hx; byte_bits 16).
  assert (E5 : truth (Z.land (0x20 + x) 0x20) = true) by (clear -Hx; byte_bits 16).
  by rewrite E7, E6, E5.
Qed.

Lemma dispatch_post d b x l rest (lit : bool) :
  let c := if lit then 0x00 else 0x10 in
  holds b (c + x :: l) rest -> 0 <= x < (if lit then 8 else 16) ->
  D.decodeHeaderQ (d, b) =
  if lit then D.decodeLiteralHeaderQ true 3 true (d, b) else D.decodeIndexedHeaderQ 4 true (d, b).
Proof.
  intros c Hh Hx. unfold D.decodeHeaderQ. rewrite (qbind_ok _ _ _ _ _ (q_peek_ok d b _ _ _ Hh)).
  change (code Q_INDEXED) with 0x80. change (code Q_LITERAL_NAME_REF) with 0x40.
  change (code Q_LITERAL) with 0x20. change (code Q_INDEXED_POST) with 0x10.
  assert (E7 : truth (Z.land (c + x) 0x80) = false)
    by (subst c; clear -Hx; destruct lit; [byte_bits 8|byte_bits 16]).
  assert (E6 : truth (Z.land (c + x) 0x40) = false)
    by (subst c; clear -Hx; destruct lit; [byte_bits 8|byte_bits 16]).
  assert (E5 : truth (Z.land (c + x) 0x20) = false)
    by (subst c; clear -Hx; destruct lit; [byte_bits 8|byte_bits 16]).
  assert (E4 : truth (Z.land (c + x) 0x10) = negb lit)
    by (subst c; clear -Hx; destruct lit; simpl negb; [byte_bits 8|byte_bits 16]).
  rewrite E7, E6, E5, E4. by destruct lit.
Qed.

(** A reference to a whole field. *)
Lemma reads_static base i h :
  static_field i = Some h -> reads base [] (Wire.enc_int (i - 1) 0xC0 6) h.
Proof.
  intros Hf d b rest Hd He Hb _ Hh Hl. pose proof (refers_static d i h Hf) as Hr.
  assert (Hp : Wire.pattern 0xC0 6) by solve_pattern.
  destruct (enc_int_head (i - 1) 0xC0 6 Hp) as (x & l & Hx & Hxr); [destruct Hr; lia|].
  rewrite (dispatch_indexed d b (0x40 + x) l rest).
  - eapply (indexed_full d b rest 6 false true 0xC0); try done; [solve_marks|].
    pose proof (hsize_min h). lia.
  - rewrite Hx in Hh. by replace (0x80 + (0x40 + x)) with (0xC0 + x) by lia.
  - change (2 ^ 6) with 64 in Hxr. lia.
Qed.

Lemma reads_based base i h :
  i <= base < 2 ^ 32 -> reads base [(i, h)] (Wire.enc_int (base - i) 0x80 6) h.
Proof.
  intros Hi d b rest Hd He Hb Hn Hh Hl. subst base.
  pose proof (refers_based d i h Hd ltac:(lia) ltac:(lia) (Hn i h ltac:(by constructor))) as Hr.
  assert (Hp : Wire.pattern 0x80 6) by solve_pattern.
  destruct (enc_int_head (D.baseIndex_ d - i) 0x80 6 Hp) as (x & l & Hx & Hxr); [lia|].
  rewrite (dispatch_indexed d b x l rest);
    [|by rewrite <- Hx|change (2 ^ 6) with 64 in Hxr; lia].
  replace (D.baseIndex_ d - i) with (D.baseIndex_ d - i + 1 - 1) in Hh |- * by lia.
  eapply (indexed_full d b rest 6 false false 0x80); try done; [solve_marks|].
  pose proof (hsize_min h). lia.
Qed.

Lemma reads_post base i h :
  0 <= base < i -> i < 2 ^ 32 -> reads base [(i, h)] (Wire.enc_int (i - base - 1) 0x10 4) h.
Proof.
  intros Hi Hi2 d b rest Hd He Hb Hn Hh Hl. subst base.
  pose proof (refers_post d i h Hd ltac:(lia) ltac:(lia) (Hn i h ltac:(by constructor))) as Hr.
  assert (Hp : Wire.pattern 0x10 4) by solve_pattern.
  destruct (enc_int_head (i - D.baseIndex_ d - 1) 0x10 4 Hp) as (x & l & Hx & Hxr); [lia|].
  rewrite (dispatch_post d b x l rest false); [|by rewrite <- Hx|done].
  eapply (indexed_full d b rest 4 true false 0x10); try done. pose proof (hsize_min h). lia.
Qed.

(** A literal: a name, and a value. *)
Lemma literal_full d b rest nameIndexed prefixLength above lim nb n vb v :
  names d nameIndexed prefixLength above lim nb n -> codes DB.decodeLiteral (4 * zlen v) vb v ->
  D.err_ d = NONE -> holds b (nb ++ vb) rest ->
  lim <= DB.maxLiteralSize_ b -> 4 * zlen v <= DB.maxLiteralSize_ b ->
  exists d', D.decodeLiteralHeaderQ nameIndexed prefixLength above (d, b) =
    Some (Some (HPACKHeader.mk n v), (d', DB.skip b (zlen (nb ++ vb)))) /\ upto d d'.
Proof.
  intros Hn Hv He Hh Hl1 Hl2. pose proof (holds_skip b nb vb rest Hh) as Hh2.
  assert (Hh1 : holds b nb (vb ++ rest)).
  { destruct Hh as (Hc & Hr & Hu). rewrite zlen_app in Hr. pose proof (zlen_nonneg vb).
    split; [by rewrite app_assoc|]. split; [lia|done]. }
  destruct (names_full _ _ _ _ _ _ _ Hn b _ He Hh1 Hl1) as (d' & HN & Hu).
  exists d'. split; [|done]. unfold D.decodeLiteralHeaderQ. rewrite (qbind_ok _ _ _ _ _ HN).
  assert (He' : D.err_ d' = NONE) by (by rewrite (upto_err d d' Hu)).
  rewrite (qbind_ok _ _ _ _ _ (decode_full _ _ _ _ d' _ rest Hv He' Hh2 Hl2)).
  rewrite skip_skip, zlen_app by apply zlen_nonneg. done.
Qed.

(** The four forms of a literal in a block. *)
Lemma reads_literal base need h nameIndexed prefixLength above lim nb vb :
  (forall d b rest, dinv d -> D.baseIndex_ d = base ->
     (forall i f, (i, f) ∈ need -> field (view (D.table_ d)) i = Some f) ->
     names d nameIndexed prefixLength above lim nb (name h) /\
     (holds b (nb ++ vb) rest ->
      D.decodeHeaderQ (d, b) = D.decodeLiteralHeaderQ nameIndexed prefixLength above (d, b))) ->
  codes DB.decodeLiteral (4 * zlen (value h)) vb (value h) -> lim <= 4 * hsize h ->
  reads base need (nb ++ vb) h.
Proof.
  intros Hform Hv Hlim d b rest Hd He Hb Hn Hh Hl.
  destruct (Hform d b rest Hd Hb Hn) as [HN HD]. rewrite (HD Hh).
  destruct h as [n v]. unfold hsize in *. simpl in *. pose proof (zlen_nonneg n).
  eapply literal_full; try done; lia.
Qed.

Lemma reads_static_name base j f h vb :
  static_field j = Some f -> name f = name h ->
  codes DB.decodeLiteral (4 * zlen (value h)) vb (value h) ->
  reads base [] (Wire.enc_int (j - 1) 0x50 4 ++ vb) h.
Proof.
  intros Hj Hnm Hv. pose proof (hsize_min h).
  eapply (reads_literal base [] h true 4 false 0); [|done|lia].
  intros d b rest Hd Hb _. pose proof (refers_static d j f Hj) as Hr.
  assert (Hp : Wire.pattern 0x50 4) by solve_pattern.
  split; [rewrite <- Hnm; eapply (names_index d 4 false true); [done|solve_marks|done]|]. intros Hh.
  destruct (enc_int_head (j - 1) 0x50 4 Hp) as (x & l & Hx & Hxr); [destruct Hr; lia|].
  apply (dispatch_name_ref d b (0x10 + x) (l ++ vb) rest).
  - rewrite Hx in Hh. by replace (0x40 + (0x10 + x)) with (0x50 + x) by lia.
  - change (2 ^ 4) with 16 in Hxr. lia.
Qed.

Lemma reads_based_name base i f h vb :
  i <= base < 2 ^ 32 -> name f = name h ->
  codes DB.decodeLiteral (4 * zlen (value h)) vb (value h) ->
  reads base [(i, f)] (Wire.enc_int (base - i) 0x40 4 ++ vb) h.
Proof.
  intros Hi Hnm Hv. pose proof (hsize_min h).
  eapply (reads_literal base [(i, f)] h true 4 false 0); [|done|lia].
  intros d b rest Hd Hb Hn. subst base.
  pose proof (refers_based d i f Hd ltac:(lia) ltac:(lia) (Hn i f ltac:(by constructor))) as Hr.
  assert (Hp : Wire.pattern 0x40 4) by solve_pattern. split.
  - rewrite <- Hnm. replace (D.baseIndex_ d - i) with (D.baseIndex_ d - i + 1 - 1) by lia.
    eapply (names_index d 4 false false); [done|solve_marks|done].
  - intros Hh. destruct (enc_int_head (D.baseIndex_ d - i) 0x40 4 Hp) as (x & l & Hx & Hxr); [lia|].
    apply (dispatch_name_ref d b x (l ++ vb) rest);
      [by rewrite Hx in Hh|change (2 ^ 4) with 16 in Hxr; lia].
Qed.

Lemma reads_post_name base i f h vb :
  0 <= base < i -> i < 2 ^ 32 -> name f = name h ->
  codes DB.decodeLiteral (4 * zlen (value h)) vb (value h) ->
  reads base [(i, f)] (Wire.enc_int (i - base - 1) 0x00 3 ++ vb) h.
Proof.
  intros Hi Hi2 Hnm Hv. pose proof (hsize_min h).
  eapply (reads_literal base [(i, f)] h true 3 true 0); [|done|lia].
  intros d b rest Hd Hb Hn. subst base.
  pose proof (refers_post d i f Hd ltac:(lia) ltac:(lia) (Hn i f ltac:(by constructor))) as Hr.
  assert (Hp : Wire.pattern 0x00 3) by solve_pattern. split.
  - rewrite <- Hnm. eapply (names_index d 3 true false); [done|solve_marks|done].
  - intros Hh. destruct (enc_int_head (i - D.baseIndex_ d - 1) 0x00 3 Hp) as (x & l & Hx & Hxr); [lia|].
    apply (dispatch_post d b x (l ++ vb) rest true); [by rewrite Hx in Hh|done].
Qed.

Lemma reads_literal_name base h nb vb x l :
  codes (DB.decodeLiteral_at 3) (4 * zlen (name h)) nb (name h) -> canonical (name h) ->
  nb = 0x20 + x :: l -> 0 <= x < 16 ->
  codes DB.decodeLiteral (4 * zlen (value h)) vb (value h) ->
  reads base [] (nb ++ vb) h.
Proof.
  intros Hc Hn Hnb Hx Hv. pose proof (zlen_nonneg (value h)).
  eapply (reads_literal base [] h false 3 false (4 * zlen (name h))); [|done|unfold hsize; lia].
  intros d b rest Hd Hb _. split; [by apply names_literal|]. intros Hh.
  apply (dispatch_literal d b x (l ++ vb) rest); [by rewrite Hnb in Hh|done].
Qed.

(** ** Header blocks *)

(** One field of a block; without references the base does not matter. *)
Record form (base : Z) (need : list (Z * HPACKHeader.t)) (bytes : list Z) (h : HPACKHeader.t)
  : Prop := {
  form_reads : reads base need bytes h;
  form_any : need = [] -> forall base', reads base' need bytes h;
  form_ne : bytes <> [];
  form_ok : bytes_ok bytes;
  form_len : zlen bytes <= 22 + 4 * (zlen (name h) + zlen (value h)) }.

(** The fields of a block, with references to [need]. *)
Inductive forms (base : Z) (need : list (Z * HPACKHeader.t))
  : list Z -> list HPACKHeader.t -> Prop :=
| forms_nil : forms base need [] []
| forms_cons n1 b1 h bs hs :
    form base n1 b1 h -> n1 ⊆ need -> forms base need bs hs ->
    forms base need (b1 ++ bs) (h :: hs).

Lemma forms_weaken base need need' bs hs :
  need ⊆ need' -> forms base need bs hs -> forms base need' bs hs.
Proof. intros Hs. induction 1; econstructor; [done|set_solver|done]. Qed.

Lemma forms_snoc base need bs hs n1 b1 h :
  forms base need bs hs -> form base n1 b1 h -> forms base (need ++ n1) (bs ++ b1) (hs ++ [h]).
Proof.
  intros Hf H1. induction Hf as [|n' b' h' bs hs Hh Hs Hf IH]; simpl.
  - rewrite <- (app_nil_r b1). econstructor; [done|set_solver|constructor].
  - rewrite <- app_assoc. econstructor; [done|set_solver|done].
Qed.

Lemma forms_empty base need hs : forms base need [] hs -> hs = [].
Proof.
  intros H. inversion H as [|n1 b1 h bs hs' Hh _ _ E]; [done|].
  apply app_eq_nil in E as [E _]. by destruct (form_ne _ _ _ _ Hh).
Qed.

Lemma forms_any base base' bs hs : forms base [] bs hs -> forms base' [] bs hs.
Proof.
  intros Hf. remember [] as need. induction Hf as [|n1 b1 h bs hs Hh Hs Hf IH]; [constructor|].
  subst need. assert (n1 = []) as -> by (destruct n1 as [|p n1]; [done|]; set_solver).
  econstructor; [|set_solver|by apply IH]. destruct Hh. constructor; auto.
Qed.

Lemma forms_ok base need bs hs : forms base need bs hs -> bytes_ok bs.
Proof. induction 1 as [|n1 b1 h bs hs Hh Hs Hf IH]; [constructor|]. apply Forall_app. split; [apply Hh|done]. Qed.

(** The uncompressed size of a block, as the decoder counts it. *)
Definition usize (hs : list HPACKHeader.t) : Z :=
  foldr (fun h n => zlen (name h) + zlen (value h) + 2 + n) 0 hs.

Lemma qusize_nonneg hs : 0 <= usize hs.
Proof.
  induction hs as [|h hs IH]; simpl; [lia|]. pose proof (zlen_nonneg (name h)).
  pose proof (zlen_nonneg (value h)). lia.
Qed.

Lemma forms_len base need bs hs : forms base need bs hs -> 0 <= zlen bs <= 11 * usize hs.
Proof.
  induction 1 as [|n1 b1 h bs hs Hh Hs Hf IH]; [done|]. pose proof (form_len _ _ _ _ Hh).
  rewrite zlen_app. simpl. pose proof (zlen_nonneg b1). pose proof (zlen_nonneg (name h)).
  pose proof (zlen_nonneg (value h)). lia.
Qed.

(** A block the decoder's limits admit. *)
Definition admitted (maxUncompressed : Z) (hs : list HPACKHeader.t) : Prop :=
  usize hs <= maxUncompressed /\ Forall (fun h => 4 * hsize h <= maxUncompressed) hs /\
  maxUncompressed < 2 ^ 31.

Lemma decode_loop_forms base need hs : forall bs fuel d b cb n,
  forms base need bs hs -> dinv d -> D.err_ d = NONE -> D.baseIndex_ d = base ->
  (forall i f, (i, f) ∈ need -> field (view (D.table_ d)) i = Some f) ->
  holds b bs [] -> DB.remainingBytes_ b = zlen bs -> (length hs <= fuel)%nat ->
  DB.maxLiteralSize_ b = D.maxUncompressed_ d -> 0 <= n -> n + usize hs <= D.maxUncompressed_ d ->
  Forall (fun h => 4 * hsize h <= D.maxUncompressed_ d) hs -> D.maxUncompressed_ d < 2 ^ 31 ->
  exists d' m, D.decode_loop fuel d b cb n =
    Some (D.onHeader cb <$> hs, m, d', DB.skip b (zlen bs)) /\ upto d d'.
Proof.
  induction hs as [|h hs IH]; intros bs fuel d b cb n Hf Hd He Hb Hn Hh Hr Hfu Hm Hn0 Hu Hl HM;
    inversion Hf as [|n1 b1 h' bs' hs' Hform Hs Hf' Eb Eh]; subst.
  { exists d, n. split; [|apply upto_refl]. destruct fuel; simpl; unfold D.hasError;
      rewrite bool_decide_eq_true_2 by done; unfold DB.empty;
      rewrite Hr; simpl; (rewrite DecodeSafety.skip_0; [done|]); destruct Hh as (Hc & _ & Hu32);
      (split; [rewrite Hc; exact (Forall_nil_2 _)|]); (split; [rewrite Hc; unfold DB.remainingBytes_, zlen in *; simpl in *; lia|exact Hu32]). }
  destruct fuel as [|fuel]; [simpl in Hfu; lia|]. cbn [D.decode_loop].
  unfold D.hasError. rewrite bool_decide_eq_true_2 by done. simpl.
  assert (Hb1 : 0 < zlen b1).
  { pose proof (form_ne _ _ _ _ Hform). destruct b1; [done|]. unfold zlen. simpl. lia. }
  rewrite zlen_app in Hr. pose proof (zlen_nonneg bs').
  unfold DB.empty. rewrite (proj2 (Z.eqb_neq _ _)) by lia. simpl.
  apply Forall_cons in Hl as [Hlh Hl]. simpl in Hu.
  pose proof (qusize_nonneg hs). pose proof (zlen_nonneg (name h)). pose proof (zlen_nonneg (value h)).
  assert (Hh1 : holds b b1 bs').
  { destruct Hh as (Hc & _ & Hu32). split; [by rewrite Hc, app_nil_r|]. split; [lia|done]. }
  destruct (form_reads _ _ _ _ Hform d b bs' Hd He eq_refl) as (d1 & -> & Hup).
  { intros i f Hif. apply Hn. set_solver. } { done. } { by rewrite Hm. }
  unfold mbind, option_bind. simpl (D.emitted_size _).
  rewrite realBytes_exact by (unfold hsize in *; lia).
  rewrite u32_id by (unfold_ints; lia).
  assert (HU : D.maxUncompressed_ d1 = D.maxUncompressed_ d) by (destruct Hup as (c & -> & _); done).
  rewrite Z.gtb_ltb, HU, (proj2 (Z.ltb_ge _ _)) by lia.
  destruct (IH bs' fuel d1 (DB.skip b (zlen b1)) cb
    (u32 (n + (zlen (name h) + zlen (value h)) + 2))) as (d2 & m & HE & Hup2).
  - done.
  - by apply (upto_dinv d).
  - by rewrite (upto_err d d1 Hup).
  - by rewrite (upto_base d d1 Hup).
  - by rewrite (upto_table d d1 Hup).
  - by apply (holds_skip b b1 bs' []).
  - simpl. destruct Hh as (_ & _ & Hu32). rewrite u32_id by (unfold_ints; lia). lia.
  - simpl in Hfu. lia.
  - simpl. by rewrite HU.
  - apply u32_range.
  - rewrite HU, u32_id by (unfold_ints; lia). lia.
  - by rewrite HU.
  - by rewrite HU.
  - rewrite HE. exists d2, m. split; [|by apply (upto_trans d d1)].
    rewrite skip_skip, zlen_app by lia. done.
Qed.

(** A block was passed to its callback, complete. *)
Definition completed (cb : Z) (hs : list HPACKHeader.t) (ack : bool) (evs : list D.event) : Prop :=
  exists compressed blockSize uncompressed,
    evs = (D.onHeader cb <$> hs) ++ [D.onHeadersComplete cb compressed blockSize uncompressed ack].

(** What decoding a block leaves alone. *)
Record same_streams (d d' : D.t) : Prop := {
  ss_table : D.table_ d' = D.table_ d;
  ss_maxTable : D.maxTableSize_ d' = D.maxTableSize_ d;
  ss_maxUncompressed : D.maxUncompressed_ d' = D.maxUncompressed_ d;
  ss_maxBlocking : D.maxBlocking_ d' = D.maxBlocking_ d;
  ss_partial : D.partial_ d' = D.partial_ d;
  ss_ingress : D.ingress_ d' = D.ingress_ d }.

Lemma same_streams_refl d : same_streams d d.
Proof. done. Qed.

Lemma same_streams_trans d1 d2 d3 : same_streams d1 d2 -> same_streams d2 d3 -> same_streams d1 d3.
Proof. intros [] []. constructor; congruence. Qed.

Lemma decodeStreamingImpl_ok base need bs hs d b cb ric consumed :
  forms base need bs hs -> dinv d -> D.err_ d = NONE -> D.baseIndex_ d = base ->
  (forall i f, (i, f) ∈ need -> field (view (D.table_ d)) i = Some f) ->
  holds b bs [] -> DB.remainingBytes_ b = zlen bs ->
  DB.maxLiteralSize_ b = D.maxUncompressed_ d -> admitted (D.maxUncompressed_ d) hs ->
  exists evs d', D.decodeStreamingImpl d ric consumed b cb = Some (evs, d') /\
    completed cb hs (negb (ric =? 0)) evs /\ same_streams d d' /\ D.err_ d' = NONE /\
    D.queue_ d' = D.queue_ d /\ D.lastAcked_ d' = Z.max (D.lastAcked_ d) ric.
Proof.
  intros Hf Hd He Hb Hn Hh Hr Hm (Hu & Hl & HM). unfold D.decodeStreamingImpl.
  destruct (decode_loop_forms base need hs bs (S (Z.to_nat (DB.remainingBytes_ b))) d b cb 0)
    as (d1 & m & -> & Hup); try done; try lia.
  { rewrite Hr. clear -Hf. unfold zlen. rewrite Nat2Z.id.
    induction Hf as [|n1 b1 h bs hs Hh Hs Hf IH]; simpl; [lia|]. rewrite length_app.
    pose proof (form_ne _ _ _ _ Hh). destruct b1; [done|]. simpl. lia. }
  unfold mbind, option_bind. unfold D.hasError.
  assert (He1 : D.err_ d1 = NONE) by (by rewrite (upto_err d d1 Hup)).
  rewrite bool_decide_eq_true_2 by done. eexists _, _. split; [reflexivity|].
  split.
  { eexists _, _, _. unfold D.completeDecode, D.hasError. simpl.
    rewrite bool_decide_eq_true_2 by done. reflexivity. }
  destruct Hup as (c & -> & Hc). split; [by constructor|]. done.
Qed.

(** ** The prefix *)

Definition prefix_bytes (maxTableSize base ric : Z) : list Z :=
  if ric =? 0 then [0; 0]
  else Wire.enc_int (ric mod (2 * QPACKContext.getMaxEntries maxTableSize) + 1) 0 8 ++
       (if base <? ric then Wire.enc_int (ric - base - 1) 0x80 7
        else Wire.enc_int (base - ric) 0 7).

(** The count is recovered from its value modulo twice the number of entries. *)
Lemma decodeRIC_ok ric maxEntries insertCount :
  0 < maxEntries < 2 ^ 31 -> 0 <= insertCount < 2 ^ 31 -> 1 <= ric ->
  insertCount - maxEntries < ric <= insertCount + maxEntries ->
  D.decodeRIC (ric mod (2 * maxEntries) + 1) maxEntries insertCount = Some ric.
Proof.
  intros HM Hi Hr Hw. unfold D.decodeRIC. set (F := 2 * maxEntries).
  assert (HF : 0 < F < 2 ^ 32) by (unfold F; lia).
  pose proof (Z.mod_pos_bound ric F ltac:(lia)) as Hm. pose proof (Z.div_mod ric F ltac:(lia)) as Hdm.
  set (V := insertCount + maxEntries). assert (HV : 0 <= V < 2 ^ 32) by (unfold V; lia).
  pose proof (Z.mod_pos_bound V F ltac:(lia)) as HVm. pose proof (Z.div_mod V F ltac:(lia)) as HVd.
  rewrite (proj2 (Z.eqb_neq _ _)), (proj2 (Z.eqb_neq maxEntries _)) by lia.
  rewrite (u64_id F), (u64_id V) by (unfold_ints; lia).
  set (q := V / F) in *. set (p := ric / F) in *.
  assert (Hq0 : 0 <= q) by (apply Z.div_pos; lia).
  assert (HqF : q * F <= V) by lia.
  assert (HqF0 : 0 <= q * F) by (apply Z.mul_nonneg_nonneg; lia).
  rewrite (u64_id (q * F)) by (unfold_ints; lia).
  replace (q * F + (ric mod F + 1) - 1) with (q * F + ric mod F) by lia.
  rewrite (u64_id (q * F + _)) by (unfold_ints; lia). rewrite !Z.gtb_ltb.
  assert (Hpq : p = q \/ p = q - 1).
  { assert (F * (q - 1) < F * (p + 1)) by (unfold V, F in *; lia).
    assert (F * p < F * (q + 1)) by (unfold V, F in *; lia). nia. }
  destruct Hpq as [E|E].
  - rewrite (proj2 (Z.ltb_ge _ _)) by (rewrite <- E; unfold V in *; lia). f_equal. rewrite <- E. lia.
  - replace (q * F + ric mod F) with (ric + F) by (rewrite Hdm at 1; rewrite E; lia).
    rewrite (proj2 (Z.ltb_lt V _)) by (unfold V, F; lia).
    rewrite (proj2 (Z.ltb_ge F _)), (proj2 (Z.ltb_ge _ F)) by lia. simpl.
    f_equal. rewrite u64_id by (unfold_ints; unfold V, F in *; lia). lia.
Qed.

Lemma prefix_ok maxTableSize base ric :
  0 <= base < 2 ^ 31 -> 0 <= ric < 2 ^ 31 -> 0 <= maxTableSize < 2 ^ 31 ->
  (ric <> 0 -> 32 <= maxTableSize) -> bytes_ok (prefix_bytes maxTableSize base ric) /\
  2 <= zlen (prefix_bytes maxTableSize base ric) <= 22.
Proof.
  intros Hb Hr HM Hne. unfold prefix_bytes. destruct (Z.eqb_spec ric 0) as [->|Hr0].
  { split; [by repeat constructor|]. unfold zlen. simpl. lia. }
  specialize (Hne Hr0). set (F := 2 * QPACKContext.getMaxEntries maxTableSize).
  assert (HF : 0 < F < 2 ^ 31).
  { unfold F, QPACKContext.getMaxEntries, kMinLength.
    pose proof (Z.div_le_mono 32 maxTableSize 32). pose proof (Z.div_lt maxTableSize 32).
    pose proof (Z.mul_div_le maxTableSize 32). change (32 / 32) with 1 in *. lia. }
  pose proof (Z.mod_pos_bound ric F ltac:(lia)).
  pose proof (Wire.enc_int_length (ric mod F + 1) 0 8).
  unfold bytes_ok. rewrite zlen_app, Forall_app.
  destruct (Z.ltb_spec base ric);
    [pose proof (Wire.enc_int_length (ric - base - 1) 0x80 7)
    |pose proof (Wire.enc_int_length (base - ric) 0 7)];
    (split; [|lia]); split; apply Wire.enc_int_ok; try solve_pattern; unfold_ints; lia.
Qed.

(** Reading the second part of the prefix. *)
Lemma delta_ok d b rest v c :
  (c = 0x80 \/ c = 0) -> 0 <= v < 2 ^ 31 -> D.err_ d = NONE ->
  holds b (Wire.enc_int v c 7) rest -> 0 <= DB.maxLiteralSize_ b ->
  exists byte, DB.empty b = false /\ D.peek (d, b) = Some (Some byte, (d, b)) /\
    truth (Z.land byte Q_DELTA_BASE_NEG) = negb (c =? 0) /\
    D.decode (DB.decodeInteger (prefixLength Q_DELTA_BASE)) (d, b) =
      Some (Some v, (d, DB.skip b (zlen (Wire.enc_int v c 7)))).
Proof.
  intros Hc Hv He Hh Hl.
  assert (Hp : Wire.pattern c 7) by (destruct Hc as [-> | ->]; solve_pattern).
  destruct (enc_int_head v c 7 Hp ltac:(lia)) as (x & l & Hx & Hxr).
  exists (c + x). assert (Hpk := Hh). rewrite Hx in Hpk. split_and!.
  - destruct Hpk as (_ & Hr & _). unfold DB.empty, zlen in *. simpl in Hr.
    rewrite (proj2 (Z.eqb_neq _ _)); [done|]. unfold DB.remainingBytes_ in *. lia.
  - by apply (q_peek_ok d b _ l rest).
  - change Q_DELTA_BASE_NEG with 0x80. change (2 ^ 7) with 128 in Hxr. clear -Hc Hxr.
    destruct Hc as [-> | ->]; [change (negb (128 =? 0)) with true|change (negb (0 =? 0)) with false];
      byte_bits 128.
  - apply (decode_full _ 0 _ _ d b rest); [|done..]. apply codes_int; [done|]. unfold_ints. lia.
Qed.

Lemma decodePrefix_ok d b rest base ric :
  D.err_ d = NONE -> 0 <= base < 2 ^ 31 -> 0 <= ric < 2 ^ 31 -> 0 <= DB.maxLiteralSize_ b ->
  0 <= D.maxTableSize_ d < 2 ^ 31 ->
  (ric <> 0 ->
   let M := QPACKContext.getMaxEntries (D.maxTableSize_ d) in
   0 < M /\ 0 <= D.getInsertCount d < 2 ^ 31 /\
   D.getInsertCount d - M < ric <= D.getInsertCount d + M) ->
  holds b (prefix_bytes (D.maxTableSize_ d) base ric) rest ->
  D.decodePrefix (d, b) =
  Some (Some ric, (D.set_base d (if ric =? 0 then 0 else base),
                   DB.skip b (zlen (prefix_bytes (D.maxTableSize_ d) base ric)))).
Proof.
  intros He Hb Hr Hl HT HM Hh. unfold D.decodePrefix.
  erewrite qbind_ok by reflexivity. erewrite qbind_ok by reflexivity.
  set (M := QPACKContext.getMaxEntries (D.maxTableSize_ d)) in *.
  (* the bytes of the prefix, as two integers *)
  assert (E : exists w v c, prefix_bytes (D.maxTableSize_ d) base ric =
      Wire.enc_int w 0 8 ++ Wire.enc_int v c 7 /\ 0 <= w < UINT64_MAX /\ 0 <= v < 2 ^ 31 /\
      (c = 0x80 \/ c = 0) /\ D.decodeRIC w M (D.getInsertCount d) = Some ric /\
      if c =? 0 then ric + v = (if ric =? 0 then 0 else base)
      else v = ric - base - 1 /\ ric <> 0).
  { unfold prefix_bytes. destruct (Z.eqb_spec ric 0) as [->|Hr0].
    - exists 0, 0, 0. split_and!; try done; try (unfold_ints; lia).
    - destruct (HM Hr0) as (HM0 & Hic & Hw). fold M.
      assert (HMb : M < 2 ^ 31).
      { unfold M, QPACKContext.getMaxEntries, kMinLength. pose proof (Z.mul_div_le (D.maxTableSize_ d) 32).
        lia. }
      pose proof (Z.mod_pos_bound ric (2 * M) ltac:(lia)).
      pose proof (decodeRIC_ok ric M (D.getInsertCount d) ltac:(lia) Hic ltac:(lia) Hw) as HR.
      destruct (Z.ltb_spec base ric).
      + exists (ric mod (2 * M) + 1), (ric - base - 1), 0x80.
        split_and!; try done; try (unfold_ints; lia).
      + exists (ric mod (2 * M) + 1), (base - ric), 0.
        split_and!; try done; try (unfold_ints; lia). simpl. lia. }
  destruct E as (w & v & c & E & Hw & Hv & Hc & HR & HB). rewrite E in *.
  assert (Hp8 : Wire.pattern 0 8) by solve_pattern.
  pose proof (holds_skip b _ _ rest Hh) as Hh2.
  assert (Hh1 : holds b (Wire.enc_int w 0 8) (Wire.enc_int v c 7 ++ rest)).
  { destruct Hh as (Hcu & Hre & Hu). rewrite zlen_app in Hre. pose proof (zlen_nonneg (Wire.enc_int v c 7)).
    split; [by rewrite app_assoc|]. split; [lia|done]. }
  rewrite (qbind_ok _ _ _ _ _ (decode_full _ _ _ _ d b _ (codes_int w 0 8 Hp8 Hw) He Hh1 Hl)).
  rewrite HR.
  destruct (delta_ok d (DB.skip b (zlen (Wire.enc_int w 0 8))) rest v c Hc Hv He Hh2 Hl)
    as (byte & Hem & Hpk & Hneg & Hde).
  erewrite qbind_ok by reflexivity. rewrite Hem.
  rewrite (qbind_ok _ _ _ _ _ Hpk). cbv zeta. rewrite Hneg, (qbind_ok _ _ _ _ _ Hde).
  rewrite skip_skip, <- zlen_app by apply zlen_nonneg. rewrite Z.geb_leb, Z.gtb_ltb.
  destruct Hc as [-> | ->].
  - change (negb (128 =? 0)) with true. destruct HB as [-> Hr0].
    rewrite (proj2 (Z.leb_gt _ _)) by lia.
    replace (ric - (ric - base - 1) - 1) with base by lia.
    rewrite u64_id, (proj2 (Z.leb_le _ _)), !u32_id by (unfold_ints; lia).
    erewrite qbind_ok by reflexivity. by rewrite (proj2 (Z.eqb_neq ric 0)).
  - change (negb (0 =? 0)) with false. change (0 =? 0) with true in HB.
    assert (Hsum : ric + v < UINT32_MAX) by (rewrite HB; destruct (ric =? 0); unfold_ints; lia).
    rewrite Z.geb_leb, (proj2 (Z.ltb_ge _ _)), (proj2 (Z.leb_gt _ ric)) by (unfold_ints; lia).
    simpl. erewrite qbind_ok by reflexivity. rewrite HB, !u32_id; [done|unfold_ints; lia|].
    destruct (ric =? 0); unfold_ints; lia.
Qed.

(** What decoding a block requires of the decoder. *)
Record ready (d : D.t) : Prop := {
  ready_inv : dinv d;
  ready_ins : D.getInsertCount d < 2 ^ 31;
  ready_table : 0 <= D.maxTableSize_ d < 2 ^ 31;
  ready_max : 0 <= D.maxUncompressed_ d < 2 ^ 31 }.

Lemma ready_count d : ready d -> 0 <= D.getInsertCount d.
Proof.
  intros [[H _] _ _ _]. pose proof (inv_size _ H). pose proof (Ring.wf_size _ (inv_wf _ H)).
  unfold D.getInsertCount, QPACKContext.getInsertCount.
  change (QPACKContext.table_ (D.ctx d)) with (D.table_ d). lia.
Qed.

(** A block arrives whose count is reached: it is decoded. *)
Lemma decodeStreaming_now d sid block cb base ric need bs hs :
  ready d -> 0 <= base < 2 ^ 31 -> 0 <= ric <= D.getInsertCount d ->
  (ric <> 0 -> D.getInsertCount d - QPACKContext.getMaxEntries (D.maxTableSize_ d) < ric) ->
  (ric = 0 -> need = []) -> forms base need bs hs ->
  (forall i f, (i, f) ∈ need -> field (view (D.table_ d)) i = Some f) ->
  block = prefix_bytes (D.maxTableSize_ d) base ric ++ bs -> zlen block < 2 ^ 32 ->
  admitted (D.maxUncompressed_ d) hs ->
  exists evs d', D.decodeStreaming d sid block (zlen block) cb = Some (evs, d') /\
    completed cb hs (negb (ric =? 0)) evs /\ same_streams d d' /\ D.err_ d' = NONE /\
    D.queue_ d' = D.queue_ d /\ D.lastAcked_ d' = Z.max (D.lastAcked_ d) ric.
Proof.
  intros Hrd Hb Hr Hw H0 Hf Hn -> Hz Ha. pose proof (ready_ins d Hrd). pose proof (ready_count d Hrd).
  pose proof (ready_table d Hrd) as HT. pose proof (ready_max d Hrd) as HU.
  set (d0 := D.set_err d NONE). set (pre := prefix_bytes (D.maxTableSize_ d) base ric) in *.
  set (b0 := DB.create (pre ++ bs) (zlen (pre ++ bs)) (u32 (D.maxUncompressed_ d))).
  pose proof (zlen_nonneg (pre ++ bs)). pose proof (zlen_nonneg bs). pose proof (zlen_nonneg pre).
  assert (Hh : holds b0 (pre ++ bs) []).
  { split; [simpl; by rewrite app_nil_r|]. simpl. split; [lia|unfold_ints; lia]. }
  assert (Hh1 : holds b0 pre bs).
  { split; [done|]. pose proof (zlen_app pre bs). simpl. split; [lia|unfold_ints; lia]. }
  assert (Hlim : 0 <= DB.maxLiteralSize_ b0) by (simpl; apply u32_range).
  assert (HP : D.decodePrefix (d0, b0) = Some (Some ric,
     (D.set_base d0 (if ric =? 0 then 0 else base), DB.skip b0 (zlen pre)))).
  { apply (decodePrefix_ok d0 b0 bs base ric); try done; [lia|].
    change (D.maxTableSize_ d0) with (D.maxTableSize_ d).
    change (D.getInsertCount d0) with (D.getInsertCount d). intros Hne. specialize (Hw Hne).
    cbv zeta. lia. }
  unfold D.decodeStreaming. fold d0 b0. rewrite HP. unfold mbind at 1, option_bind at 1.
  change (default 0 (Some ric)) with ric. change (D.getInsertCount (D.set_base d0 _)) with (D.getInsertCount d).
  rewrite Z.gtb_ltb, (proj2 (Z.ltb_ge _ _)) by lia.
  assert (Hf' : forms (if ric =? 0 then 0 else base) need bs hs).
  { destruct (Z.eqb_spec ric 0) as [E|]; [|done]. rewrite (H0 E) in *. by apply (forms_any base). }
  destruct (decodeStreamingImpl_ok (if ric =? 0 then 0 else base) need bs hs
    (D.set_base d0 (if ric =? 0 then 0 else base)) (DB.skip b0 (zlen pre)) cb ric 0 Hf')
    as (evs & d' & -> & Hev & Hss & He & Hq & Hla); try done.
  - by destruct (ready_inv d Hrd).
  - by apply (holds_skip b0 pre bs []).
  - pose proof (zlen_app pre bs). simpl. rewrite u32_id by (unfold_ints; lia). lia.
  - simpl. rewrite u32_id by (unfold_ints; lia). done.
  - exists evs, d'. split_and!; try done. eapply same_streams_trans; [|done]. done.
Qed.

(** A block arrives too early: it waits. *)
Definition pending_of (sid base ric : Z) (pre bs : list Z) (cb : Z) : Z * D.PendingBlock :=
  (ric, D.mkPending sid base (zlen bs) (zlen pre) bs cb).

Lemma decodeStreaming_later d sid block cb base ric bs :
  ready d -> 0 <= base < 2 ^ 31 -> D.getInsertCount d < ric < 2 ^ 31 ->
  ric <= D.getInsertCount d + QPACKContext.getMaxEntries (D.maxTableSize_ d) ->
  block = prefix_bytes (D.maxTableSize_ d) base ric ++ bs -> zlen block < 2 ^ 32 ->
  zlen (D.queue_ d) < D.maxBlocking_ d ->
  exists d', D.decodeStreaming d sid block (zlen block) cb = Some ([], d') /\
    same_streams d d' /\ D.lastAcked_ d' = D.lastAcked_ d /\
    D.queue_ d' = D.emplace ric
      (snd (pending_of sid base ric (prefix_bytes (D.maxTableSize_ d) base ric) bs cb)) (D.queue_ d).
Proof.
  intros Hrd Hb Hr Hw -> Hz Hq. pose proof (ready_ins d Hrd). pose proof (ready_count d Hrd).
  pose proof (ready_table d Hrd) as HT. pose proof (ready_max d Hrd) as HU.
  set (d0 := D.set_err d NONE). set (pre := prefix_bytes (D.maxTableSize_ d) base ric) in *.
  set (b0 := DB.create (pre ++ bs) (zlen (pre ++ bs)) (u32 (D.maxUncompressed_ d))).
  rewrite zlen_app in Hz. pose proof (zlen_nonneg bs). pose proof (zlen_nonneg pre).
  assert (Hh1 : holds b0 pre bs).
  { split; [done|]. simpl. rewrite zlen_app. split; [lia|unfold_ints; lia]. }
  assert (Hlim : 0 <= DB.maxLiteralSize_ b0) by (simpl; apply u32_range).
  assert (HP : D.decodePrefix (d0, b0) = Some (Some ric,
     (D.set_base d0 base, DB.skip b0 (zlen pre)))).
  { pose proof (decodePrefix_ok d0 b0 bs base ric eq_refl Hb ltac:(lia) Hlim HT) as HP.
    rewrite (proj2 (Z.eqb_neq ric 0)) in HP by lia. apply HP; [|done].
    change (D.maxTableSize_ d0) with (D.maxTableSize_ d).
    change (D.getInsertCount d0) with (D.getInsertCount d). intros _. cbv zeta. lia. }
  unfold D.decodeStreaming. fold d0 b0. rewrite HP. unfold mbind at 1, option_bind at 1.
  change (default 0 (Some ric)) with ric. change (D.getInsertCount (D.set_base d0 base)) with (D.getInsertCount d).
  rewrite Z.gtb_ltb, (proj2 (Z.ltb_lt _ _)) by lia.
  change (D.queue_ (D.set_base d0 base)) with (D.queue_ d).
  change (D.maxBlocking_ (D.set_base d0 base)) with (D.maxBlocking_ d).
  rewrite Z.geb_leb, (proj2 (Z.leb_gt _ _)) by lia.
  unfold D.enqueueHeaderBlock. change (D.getInsertCount (D.set_base d0 base)) with (D.getInsertCount d).
  rewrite Z.gtb_ltb, (proj2 (Z.ltb_lt _ _)) by lia.
  assert (Hcons : DB.consumedBytes (DB.skip b0 (zlen pre)) = zlen pre).
  { unfold DB.consumedBytes, DB.skip. simpl. rewrite zlen_app.
    rewrite (u32_id (_ - zlen pre)), u32_id by (unfold_ints; lia). lia. }
  rewrite Hcons. unfold mbind, option_bind. eexists. split; [reflexivity|]. split; [done|].
  assert (Hlen : u32 (u32 (zlen (pre ++ bs) - zlen pre)) = zlen bs).
  { rewrite zlen_app. replace (zlen pre + zlen bs - zlen pre) with (zlen bs) by lia.
    assert (is_u32 (zlen bs)) by (unfold_ints; lia). rewrite (u32_id (zlen bs)) by done. by apply u32_id. }
  assert (Hdrop : drop (Z.to_nat (zlen pre)) (pre ++ bs) = bs)
    by (unfold zlen; by rewrite Nat2Z.id, drop_app_length).
  split; [done|]. unfold D.queue_ at 1, D.set_queue. by rewrite Hlen, Hdrop.
Qed.

End decoder.
End QPACKReads.
