(* ===== verification/QPACKFeed.v ===== *)
(** * The encoder stream, in pieces

    [owes T p bytes l]: to a decoder with table [T] that has read the name [p] of an
    insertion (or none), [bytes] are the instructions [l].  [feed] cuts the bytes
    anywhere: the decoder carries out the instructions that are complete, and is owed
    the rest.  [drain] then decodes the blocks that were waiting for them. *)

From stdpp Require Import gmap.
From S2P Require Import Prelude Huffman HPACKBuffers HeaderTable HPACKContext QPACKHeaderTable.
From S2P Require Import QPACKContext QPACKDecoder QPACKWire QPACKTables QPACKReads.

Module QPACKFeed.
Import HPACK QPACK HPACKHeader HPACKHeaderName QPACKRing QPACKStaticSpec Dyn.
Import DecodeSpec Codes QPACKReads.
Module D := QPACKDecoder.
Module DB := HPACKDecodeBuffer.

(** ** Lists that overlap *)

(** [c] ends inside [x], or contains it. *)
Lemma app_overlap {A} (c chan x rest : list A) :
  c ++ chan = x ++ rest ->
  (exists c', c = x ++ c' /\ rest = c' ++ chan) \/
  (exists q, q <> [] /\ x = c ++ q /\ chan = q ++ rest).
Proof.
  intros E. apply app_eq_inv in E as [(k & -> & ->)|(k & -> & ->)].
  - left. by exists k.
  - destruct k as [|a k]; [left; exists []; by rewrite !app_nil_r|right; by exists (a :: k)].
Qed.

(** ** What is owed *)

Section owes.
Context `{CH : CommonHeaders}.

(** The largest literal and the largest table the decoder admits. *)
Variables lim maxTable : Z.

(** How a name is written for a decoder with table [T]. *)
Inductive name_form (T : dyn) : list Z -> list Z -> Prop :=
| name_static j f :
    static_field j = Some f -> name_form T (Wire.enc_int (j - 1) 0xC0 6) (name f)
| name_dynamic i f :
    1 <= i < 2 ^ 31 -> fields T !! Z.to_nat (i - 1) = Some f ->
    name_form T (Wire.enc_int (i - 1) 0x80 6) (name f)
| name_literal x l n :
    codes (DB.decodeLiteral_at 5) (4 * zlen n) (0x40 + x :: l) n -> 4 * zlen n <= lim ->
    0 <= x < 64 -> canonical n -> name_form T (0x40 + x :: l) n.

Inductive owes : dyn -> option (list Z) -> list Z -> list instr -> Prop :=
| owes_nil T : owes T None [] []
| owes_name T nb n bytes l :
    name_form T nb n -> owes T (Some n) bytes l -> owes T None (nb ++ bytes) l
| owes_value T n v vb rest l :
    codes DB.decodeLiteral (4 * zlen v) vb v -> 4 * zlen v <= lim ->
    hsize (HPACKHeader.mk n v) <= cap T ->
    owes (apply T (IInsert (HPACKHeader.mk n v))) None rest l ->
    owes T (Some n) (vb ++ rest) (IInsert (HPACKHeader.mk n v) :: l)
| owes_size T c rest l :
    0 <= c <= maxTable -> owes (apply T (ISize c)) None rest l ->
    owes T None (Wire.enc_int c 0x20 5 ++ rest) (ISize c :: l)
| owes_dup T i h rest l :
    1 <= i < 2 ^ 31 -> fields T !! Z.to_nat (i - 1) = Some h -> canonical (name h) ->
    hsize h <= cap T -> owes (apply T (IInsert h)) None rest l ->
    owes T None (Wire.enc_int (i - 1) 0x00 5 ++ rest) (IInsert h :: l).

(** What is owed can be followed by more. *)
Lemma owes_app T p bytes l bytes' l' :
  owes T p bytes l -> owes (replay T l) None bytes' l' -> owes T p (bytes ++ bytes') (l ++ l').
Proof.
  induction 1; intros H'; simpl in *; rewrite <- ?app_assoc; try (econstructor; eauto; fail).
  done.
Qed.

(** ** One instruction *)

(** The name that was read already. *)
Definition pstate (d : D.t) : option (list Z) :=
  match D.state (D.partial_ d) with
  | D.NAME => None
  | D.VALUE => Some (D.header_name (D.partial_ d))
  end.

(** What the encoder stream leaves alone. *)
Record same_blocks (d d' : D.t) : Prop := {
  sb_maxTable : D.maxTableSize_ d' = D.maxTableSize_ d;
  sb_maxUncompressed : D.maxUncompressed_ d' = D.maxUncompressed_ d;
  sb_maxBlocking : D.maxBlocking_ d' = D.maxBlocking_ d;
  sb_base : D.baseIndex_ d' = D.baseIndex_ d;
  sb_lastAcked : D.lastAcked_ d' = D.lastAcked_ d;
  sb_queue : D.queue_ d' = D.queue_ d }.

Lemma same_blocks_refl d : same_blocks d d.
Proof. done. Qed.

Lemma same_blocks_trans d1 d2 d3 : same_blocks d1 d2 -> same_blocks d2 d3 -> same_blocks d1 d3.
Proof. intros [] []. constructor; congruence. Qed.

Lemma upto_blocks d d' : upto d d' -> same_blocks d d'.
Proof. by intros (c & -> & _). Qed.

(** The state between two instructions. *)
Record reading (d : D.t) (b : DB.t) (T : dyn) (p : option (list Z)) : Prop := {
  r_inv : dinv d;
  r_err : D.err_ d = NONE;
  r_view : view (D.table_ d) = T;
  r_partial : pstate d = p;
  r_base : D.baseIndex_ d = 0;
  r_limit : lim <= DB.maxLiteralSize_ b;
  r_max : maxTable <= D.maxTableSize_ d;
  r_whole : whole b;
  r_small : zlen (DB.cursor_ b) < 2 ^ 32;
  r_total : DB.totalBytes_ b < 2 ^ 32 /\ zlen (DB.cursor_ b) <= DB.totalBytes_ b }.

(** [n] bytes were consumed: an instruction was carried out, or [p'] was read. *)
Definition advanced (d d' : D.t) (b b' : DB.t) (n : nat) : Prop :=
  same_blocks d d' /\ dinv d' /\ b' = DB.skip b (Z.of_nat n) /\ (n <= length (DB.cursor_ b))%nat.

Lemma skip_whole b (n : nat) :
  whole b -> (n <= length (DB.cursor_ b))%nat -> zlen (DB.cursor_ b) < 2 ^ 32 ->
  whole (DB.skip b (Z.of_nat n)) /\ zlen (DB.cursor_ (DB.skip b (Z.of_nat n))) = zlen (DB.cursor_ b) - Z.of_nat n.
Proof.
  intros Hw Hn Hz. destruct (extend_skip b [] (Z.of_nat n) Hw) as (_ & H1 & H2);
    [unfold zlen; lia|unfold zlen in *; simpl; lia|]. done.
Qed.

(** [table_.add] of a field that fits. *)
Lemma insert_ok d b T h :
  dinv d -> view (D.table_ d) = T -> ins T < 2 ^ 31 -> hsize h <= cap T ->
  exists d', D.insert h (d, b) = Some (Some tt, (d', b)) /\ dinv d' /\
    view (D.table_ d') = apply T (IInsert h) /\ same_blocks d d' /\ D.err_ d' = D.err_ d /\
    pstate d' = pstate d /\ D.partial_ d' = D.partial_ d.
Proof.
  intros [Hd Ht] <- Hi Hh. simpl in Hi, Hh.
  destruct (untracked_add (D.table_ d) h Hd Ht) as (s' & HA & Hs & Ht' & Hv); [unfold_ints; lia|done|].
  exists (D.with_table d s'). unfold D.insert. rewrite HA. done.
Qed.

(** The next bytes owed are in the buffer, or it ends inside of them. *)
Lemma cut b x chan rest :
  whole b -> zlen (DB.cursor_ b) < 2 ^ 32 -> DB.cursor_ b ++ chan = x ++ rest ->
  (exists c', DB.cursor_ b = x ++ c' /\ rest = c' ++ chan /\ holds b x c') \/
  (chan <> [] /\ short b x).
Proof.
  intros Hw Hz E. destruct (app_overlap _ _ _ _ E) as [(c' & E1 & E2)|(q & Hq & E1 & E2)].
  - left. exists c'. split_and!; try done. unfold whole in Hw. split; [done|]. rewrite Hw.
    split; [|unfold_ints; lia]. rewrite E1, zlen_app. pose proof (zlen_nonneg c'). lia.
  - right. split; [by rewrite E2; destruct q|]. split; [done|]. by exists q.
Qed.

(** An instruction was carried out, or it is cut off and [k] bytes of it are done
    with. *)
Definition stepped (d : D.t) (b : DB.t) (T : dyn) (chan : list Z) (l : list instr)
    (d' : D.t) (b' : DB.t) : Prop :=
  same_blocks d d' /\ dinv d' /\
  ((exists x l' (k : nat), l = x :: l' /\ (0 < k <= length (DB.cursor_ b))%nat /\
      b' = DB.skip b (Z.of_nat k) /\ D.err_ d' = NONE /\ view (D.table_ d') = apply T x /\
      pstate d' = None /\ owes (apply T x) None (drop k (DB.cursor_ b) ++ chan) l') \/
   (chan <> [] /\ D.err_ d' = BUFFER_UNDERFLOW /\ view (D.table_ d') = T /\
    exists k : nat, (k <= length (DB.cursor_ b))%nat /\
      D.p_consumed (D.partial_ d') = DB.consumedBytes b + Z.of_nat k /\
      owes T (pstate d') (drop k (DB.cursor_ b) ++ chan) l)).

(** The second half of an insertion. *)
Definition value_part (n : list Z) : D.handler unit :=
  value ← D.decode DB.decodeLiteral;
  D.modify (fun d => D.set_partial d
    (D.mkPartial D.NAME (D.p_consumed (D.partial_ d)) (D.header_name (D.partial_ d))));;
  D.insert (HPACKHeader.mk n value).

Lemma value_part_ok d b T n v vb chan rest :
  dinv d -> D.err_ d = NONE -> view (D.table_ d) = T -> ins T < 2 ^ 31 ->
  codes DB.decodeLiteral (4 * zlen v) vb v -> 4 * zlen v <= lim -> lim <= DB.maxLiteralSize_ b ->
  hsize (HPACKHeader.mk n v) <= cap T -> whole b -> zlen (DB.cursor_ b) < 2 ^ 32 ->
  DB.cursor_ b ++ chan = vb ++ rest ->
  exists r d' b', value_part n (d, b) = Some (r, (d', b')) /\ same_blocks d d' /\ dinv d' /\
    ((exists c', DB.cursor_ b = vb ++ c' /\ rest = c' ++ chan /\ b' = DB.skip b (zlen vb) /\
        D.err_ d' = NONE /\ view (D.table_ d') = apply T (IInsert (HPACKHeader.mk n v)) /\
        pstate d' = None) \/
     (chan <> [] /\ D.err_ d' = BUFFER_UNDERFLOW /\ view (D.table_ d') = T /\
      D.partial_ d' = D.partial_ d)).
Proof.
  intros Hd He Hv Hi Hc Hvl Hl Hh Hw Hz E. unfold value_part.
  destruct (cut b vb chan rest Hw Hz E) as [(c' & E1 & E2 & Hho)|[Hch Hs]].
  - rewrite (qbind_ok _ _ _ _ _ (decode_full _ _ _ _ d b c' Hc He Hho ltac:(lia))).
    erewrite qbind_ok by reflexivity.
    set (d1 := D.set_partial d
      (D.mkPartial D.NAME (D.p_consumed (D.partial_ d)) (D.header_name (D.partial_ d)))).
    destruct (insert_ok d1 (DB.skip b (zlen vb)) T (HPACKHeader.mk n v) Hd Hv Hi Hh)
      as (d' & -> & Hd' & Hv' & Hb' & He' & Hp' & _).
    exists (Some tt), d', (DB.skip b (zlen vb)). split; [done|]. split; [|split; [done|left]].
    + eapply same_blocks_trans; [|done]. done.
    + exists c'. split_and!; try done; by rewrite ?He', ?Hp'.
  - destruct (decode_short _ _ _ _ d b Hc Hs ltac:(lia)) as [b' Eb].
    exists None, (D.set_err d BUFFER_UNDERFLOW), b'. rewrite (qbind_fail _ _ _ _ Eb).
    split_and!; try done. by right.
Qed.

(** The dispatch on the first byte. *)
Lemma dispatch_instruction d b byte c :
  DB.cursor_ b = byte :: c -> whole b ->
  let d1 := D.set_partial d (D.mkPartial (D.state (D.partial_ d)) (DB.consumedBytes b)
              (D.header_name (D.partial_ d))) in
  D.decodeEncoderStreamInstruction (d, b) =
  (if bool_decide (D.state (D.partial_ d) = D.VALUE) || truth (Z.land byte 0x80)
   then D.decodeInsertQ true 6
   else if truth (Z.land byte 0x40) then D.decodeInsertQ false 5
   else if truth (Z.land byte 0x20) then D.handleTableSizeUpdate
   else D.decodeDuplicate) (d1, b).
Proof.
  intros Hc Hw d1. unfold D.decodeEncoderStreamInstruction.
  assert (Hpk : D.peek (d, b) = Some (Some byte, (d, b))).
  { unfold D.peek, DB.peek. unfold whole in Hw. rewrite Hw, Hc, Z.gtb_ltb.
    rewrite (proj2 (Z.ltb_lt _ _)) by (unfold zlen; simpl; lia). done. }
  rewrite (qbind_ok _ _ _ _ _ Hpk).
  erewrite qbind_ok by reflexivity. erewrite qbind_ok by reflexivity.
  erewrite qbind_ok by reflexivity. done.
Qed.

(** The name of an insertion, and which handler reads it. *)
Lemma name_form_names d T nb n byte c :
  dinv d -> view (D.table_ d) = T -> D.baseIndex_ d = 0 -> name_form T nb n -> nb = byte :: c ->
  exists nameIndexed prefixLength nlim,
    names d nameIndexed prefixLength false nlim nb n /\ (nlim <= lim \/ nlim = 0) /\
    (truth (Z.land byte 0x80) = nameIndexed) /\
    (nameIndexed = false -> truth (Z.land byte 0x40) = true) /\
    prefixLength = (if nameIndexed then 6 else 5).
Proof.
  intros Hd Hv Hb Hf Hnb. destruct Hf as [j f Hj|i f Hi Hl|x l n Hc Hn Hx Hcan].
  - pose proof (refers_static d j f Hj) as Hr. assert (Hp : Wire.pattern 0xC0 6) by solve_pattern.
    destruct (enc_int_head (j - 1) 0xC0 6 Hp) as (x & l & Hx & Hxr); [destruct Hr; lia|].
    rewrite Hx in Hnb. injection Hnb as <- _. exists true, 6, 0.
    split; [eapply (names_index d 6 false true); [done|solve_marks|done]|].
    split_and!; try done; [by right|]. change (2 ^ 6) with 64 in Hxr. clear -Hxr. byte_bits 64.
  - pose proof (refers_relative d i f Hd Hb ltac:(lia) ltac:(by rewrite Hv)) as Hr.
    assert (Hp : Wire.pattern 0x80 6) by solve_pattern.
    destruct (enc_int_head (i - 1) 0x80 6 Hp) as (x & l & Hx & Hxr); [lia|].
    rewrite Hx in Hnb. injection Hnb as <- _. exists true, 6, 0.
    split; [eapply (names_index d 6 false false); [done|solve_marks|done]|].
    split_and!; try done; [by right|]. change (2 ^ 6) with 64 in Hxr. clear -Hxr. byte_bits 64.
  - injection Hnb as <- _. exists false, 5, (4 * zlen n). split; [by apply names_literal|].
    split; [by left|]. split; [clear -Hx; byte_bits 64|]. split; [|done]. intros _.
    clear -Hx. byte_bits 64.
Qed.

Lemma name_form_cons T nb n : name_form T nb n -> exists byte c, nb = byte :: c.
Proof.
  destruct 1 as [j f Hj|i f Hi Hl|x l n Hc Hn Hx Hcan]; [| |by eexists _, _].
  - destruct (enc_int_head (j - 1) 0xC0 6) as (x & l & -> & _);
      [solve_pattern|apply static_field_range in Hj; lia|by eexists _, _].
  - destruct (enc_int_head (i - 1) 0x80 6) as (x & l & -> & _); [solve_pattern|lia|by eexists _, _].
Qed.

Lemma consumed_skip b (n : nat) :
  whole b -> (n <= length (DB.cursor_ b))%nat -> DB.totalBytes_ b < 2 ^ 32 ->
  zlen (DB.cursor_ b) <= DB.totalBytes_ b ->
  DB.consumedBytes (DB.skip b (Z.of_nat n)) = DB.consumedBytes b + Z.of_nat n.
Proof.
  intros Hw Hn Ht Hz. unfold DB.consumedBytes, DB.skip, whole in *. simpl. rewrite Hw.
  unfold zlen in *. rewrite (u32_id (Z.of_nat _ - Z.of_nat n)) by (unfold_ints; lia).
  rewrite !u32_id by (unfold_ints; lia). lia.
Qed.

Lemma short_cursor b x : short b x -> DB.cursor_ b <> [] -> exists byte c c', DB.cursor_ b = byte :: c /\ x = byte :: c'.
Proof.
  intros (_ & q & _ & E) Hne. destruct (DB.cursor_ b) as [|byte c]; [done|].
  exists byte, c, (c ++ q). done.
Qed.

Lemma remaining_pos b : whole b -> DB.cursor_ b <> [] -> 0 < DB.remainingBytes_ b.
Proof. unfold whole. intros -> H. destruct (DB.cursor_ b); [done|]. unfold zlen. simpl. lia. Qed.

Lemma drop_app_zlen (x c : list Z) : drop (length x) (x ++ c) = c.
Proof. apply drop_app_length. Qed.

(** A value is owed: its name was read with an earlier piece. *)
Lemma step_value d b T n v vb chan rest l :
  reading d b T (Some n) -> DB.cursor_ b <> [] -> DB.cursor_ b ++ chan = vb ++ rest ->
  codes DB.decodeLiteral (4 * zlen v) vb v -> 4 * zlen v <= lim ->
  hsize (HPACKHeader.mk n v) <= cap T -> ins T < 2 ^ 31 ->
  owes (apply T (IInsert (HPACKHeader.mk n v))) None rest l ->
  exists r d' b', D.decodeEncoderStreamInstruction (d, b) = Some (r, (d', b')) /\
    stepped d b T chan (IInsert (HPACKHeader.mk n v) :: l) d' b'.
Proof.
  intros [Hd He Hv Hp Hb Hl Hm Hw Hz _] Hne E Hc Hvl Hh Hi Ho.
  destruct (DB.cursor_ b) as [|byte c] eqn:Ec; [done|]. rewrite <- Ec in *.
  unfold pstate in Hp. destruct (D.state (D.partial_ d)) eqn:Es; [done|]. injection Hp as Hp.
  rewrite (dispatch_instruction d b byte c) by done. rewrite Es, bool_decide_eq_true_2 by done.
  cbn [orb]. set (d1 := D.set_partial d _).
  unfold D.decodeInsertQ. erewrite qbind_ok by reflexivity. simpl (D.state (D.partial_ d1)).
  rewrite bool_decide_eq_false_2 by done. erewrite qbind_ok by reflexivity.
  simpl (D.header_name (D.partial_ d1)). rewrite Hp.
  destruct (value_part_ok d1 b T n v vb chan rest) as (r & d' & b' & HV & Hsb & Hd' & HO); try done.
  exists r, d', b'. split; [exact HV|]. split; [eapply same_blocks_trans; [|exact Hsb]; done|].
  split; [done|]. destruct HO as [(c' & E1 & E2 & Eb & He' & Hv' & Hp')|(Hch & He' & Hv' & Hp')].
  - left. eexists _, _, (length vb). rewrite E1, drop_app_zlen, <- E2, length_app.
    pose proof (codes_ne _ _ _ _ Hc) as Hvb. destruct vb as [|y vb]; [done|].
    split_and!; try done; simpl; lia.
  - right. split_and!; try done. exists 0%nat. rewrite Hp'. simpl. split; [lia|]. split; [lia|].
    rewrite drop_0, E. unfold pstate. rewrite Hp'. cbn. rewrite Hp. by constructor.
Qed.

(** An insertion is owed. *)
Lemma step_insert d b T nb n v vb chan rest l :
  reading d b T None -> DB.cursor_ b <> [] -> DB.cursor_ b ++ chan = nb ++ vb ++ rest ->
  name_form T nb n -> codes DB.decodeLiteral (4 * zlen v) vb v -> 4 * zlen v <= lim ->
  0 <= lim -> hsize (HPACKHeader.mk n v) <= cap T -> ins T < 2 ^ 31 ->
  owes (apply T (IInsert (HPACKHeader.mk n v))) None rest l ->
  exists r d' b', D.decodeEncoderStreamInstruction (d, b) = Some (r, (d', b')) /\
    stepped d b T chan (IInsert (HPACKHeader.mk n v) :: l) d' b'.
Proof.
  intros [Hd He Hv Hp Hb Hl Hm Hw Hz [Ht1 Ht2]] Hne E Hnf Hc Hvl Hl0 Hh Hi Ho.
  destruct (name_form_cons T nb n Hnf) as (byte & cn & Enb).
  assert (Ec : exists c, DB.cursor_ b = byte :: c).
  { destruct (DB.cursor_ b) as [|y c]; [done|]. rewrite Enb in E. injection E as -> _. by eexists. }
  destruct Ec as [c Ec].
  unfold pstate in Hp. destruct (D.state (D.partial_ d)) eqn:Es; [|done].
  rewrite (dispatch_instruction d b byte c) by done. rewrite Es, bool_decide_eq_false_2 by done.
  cbn [orb]. set (d1 := D.set_partial d _).
  destruct (name_form_names d1 T nb n byte cn Hd Hv Hb Hnf Enb)
    as (ni & pl & nlim & HN & Hnl & Hb7 & Hb6 & Hpl).
  assert (Hdis : (if truth (Z.land byte 0x80) then D.decodeInsertQ true 6
     else if truth (Z.land byte 0x40) then D.decodeInsertQ false 5
     else if truth (Z.land byte 0x20) then D.handleTableSizeUpdate else D.decodeDuplicate) =
     D.decodeInsertQ ni pl).
  { rewrite Hb7, Hpl. destruct ni; [done|]. by rewrite Hb6. }
  rewrite Hdis. unfold D.decodeInsertQ. erewrite qbind_ok by reflexivity.
  simpl (D.state (D.partial_ d1)). rewrite bool_decide_eq_true_2 by done.
  destruct (cut b nb chan (vb ++ rest) Hw Hz E) as [(c1 & E1 & E2 & Hho)|[Hch Hs]].
  - destruct (names_full _ _ _ _ _ _ _ HN b c1 He Hho ltac:(lia)) as (d2 & HD & Hup).
    assert (Hinner : (name ← D.decodeName ni pl false;
        consumed ← D.reads DB.consumedBytes;
        D.modify (fun d => D.set_partial d (D.mkPartial D.VALUE consumed name));; mret name)
        (d1, b) = Some (Some n, (D.set_partial d2 (D.mkPartial D.VALUE
          (DB.consumedBytes (DB.skip b (zlen nb))) n), DB.skip b (zlen nb)))).
    { rewrite (qbind_ok _ _ _ _ _ HD). erewrite qbind_ok by reflexivity.
      by erewrite qbind_ok by reflexivity. }
    rewrite (qbind_ok _ _ _ _ _ Hinner). set (d3 := D.set_partial d2 _).
    assert (Hlen : (length nb <= length (DB.cursor_ b))%nat) by (rewrite E1, length_app; lia).
    destruct (skip_whole b (length nb) Hw Hlen Hz) as [Hw3 Hz3].
    fold (zlen nb) in Hw3, Hz3. pose proof (zlen_nonneg nb).
    assert (Ec3 : DB.cursor_ (DB.skip b (zlen nb)) = c1).
    { unfold DB.skip, zlen. simpl. by rewrite Nat2Z.id, E1, drop_app_zlen. }
    assert (Hv3 : view (D.table_ d3) = T) by (change (D.table_ d3) with (D.table_ d2); by rewrite (upto_table d1 d2 Hup)).
    assert (Hd3 : dinv d3) by (apply (upto_dinv d1 d2 Hup Hd)).
    assert (He3 : D.err_ d3 = NONE) by (change (D.err_ d3) with (D.err_ d2); by rewrite (upto_err d1 d2 Hup)).
    destruct (value_part_ok d3 (DB.skip b (zlen nb)) T n v vb chan rest)
      as (r & d' & b' & HV & Hsb & Hd' & HO); try done; [lia|by rewrite Ec3|].
    exists r, d', b'. split; [exact HV|].
    assert (Hb13 : same_blocks d1 d3) by (destruct (upto_blocks d1 d2 Hup); by constructor).
    split; [eapply same_blocks_trans; [|eapply same_blocks_trans; [exact Hb13|exact Hsb]]; done|].
    split; [done|]. rewrite Ec3 in HO.
    destruct HO as [(c' & E1' & E2' & Eb & He' & Hv' & Hp')|(Hch & He' & Hv' & Hp')].
    + left. eexists _, _, (length nb + length vb)%nat.
      rewrite E1, E1', <- drop_drop, !drop_app_zlen, <- E2', !length_app.
      pose proof (codes_ne _ _ _ _ Hc) as Hvb. destruct vb as [|y vb]; [done|].
      split_and!; try done; try (simpl; lia).
      rewrite Eb, skip_skip by apply zlen_nonneg. f_equal. unfold zlen. lia.
    + right. split_and!; try done. exists (length nb). split; [done|]. rewrite Hp'. split.
      * simpl. by apply consumed_skip.
      * unfold pstate. rewrite Hp'. simpl. rewrite E1, drop_app_zlen, <- E2. by constructor.
  - assert (Hrem : 0 < DB.remainingBytes_ b) by (by apply remaining_pos).
    destruct (names_short _ _ _ _ _ _ _ HN b He Hs Hrem ltac:(lia)) as (b' & HD).
    assert (Hinner : (name ← D.decodeName ni pl false;
        consumed ← D.reads DB.consumedBytes;
        D.modify (fun d => D.set_partial d (D.mkPartial D.VALUE consumed name));; mret name)
        (d1, b) = Some (None, (D.set_err d1 BUFFER_UNDERFLOW, b'))) by (by rewrite (qbind_fail _ _ _ _ HD)).
    rewrite (qbind_fail _ _ _ _ Hinner). eexists _, _, _. split; [reflexivity|].
    split; [done|]. split; [done|]. right. split_and!; try done. exists 0%nat.
    split; [lia|]. split; [simpl; lia|]. rewrite drop_0, E. unfold pstate. cbn.
    econstructor; [done|]. by constructor.
Qed.

(** The state and the first byte of an instruction that is not an insertion. *)
Lemma step_other d b T chan bytes rest (c : Z) v :
  reading d b T None -> DB.cursor_ b <> [] -> DB.cursor_ b ++ chan = bytes ++ rest ->
  bytes = Wire.enc_int v c 5 -> 0 <= v -> (c = 0x20 \/ c = 0) ->
  let d1 := D.set_partial d (D.mkPartial D.NAME (DB.consumedBytes b) (D.header_name (D.partial_ d))) in
  D.decodeEncoderStreamInstruction (d, b) =
    (if c =? 0 then D.decodeDuplicate else D.handleTableSizeUpdate) (d1, b) /\
  Wire.pattern c 5.
Proof.
  intros [Hd He Hv Hp Hb Hl Hm Hw Hz _] Hne E Eb Hv0 Hc d1.
  assert (Hpat : Wire.pattern c 5) by (destruct Hc as [-> | ->]; solve_pattern). split; [|done].
  destruct (enc_int_head v c 5 Hpat Hv0) as (x & l & Hx & Hxr). change (2 ^ 5) with 32 in Hxr.
  unfold pstate in Hp. destruct (D.state (D.partial_ d)) eqn:Es; [|done].
  rewrite Eb, Hx in E. destruct (DB.cursor_ b) as [|y l'] eqn:Ec; [done|]. injection E as -> _.
  rewrite (dispatch_instruction d b (c + x) l') by done. rewrite Es, bool_decide_eq_false_2 by done.
  cbn [orb].
  assert (E7 : truth (Z.land (c + x) 0x80) = false)
    by (clear -Hc Hxr; destruct Hc as [-> | ->]; byte_bits 32).
  assert (E6 : truth (Z.land (c + x) 0x40) = false)
    by (clear -Hc Hxr; destruct Hc as [-> | ->]; byte_bits 32).
  assert (E5 : truth (Z.land (c + x) 0x20) = negb (c =? 0)).
  { clear -Hc Hxr. destruct Hc as [-> | ->];
      [change (negb (32 =? 0)) with true|change (negb (0 =? 0)) with false]; byte_bits 32. }
  rewrite E7, E6, E5. by destruct (c =? 0).
Qed.

(** It is cut off: nothing has happened. *)
Lemma stepped_short d b T chan l (d1 : D.t) b' :
  reading d b T None -> chan <> [] -> owes T None (DB.cursor_ b ++ chan) l ->
  d1 = D.set_partial d (D.mkPartial D.NAME (DB.consumedBytes b) (D.header_name (D.partial_ d))) ->
  stepped d b T chan l (D.set_err d1 BUFFER_UNDERFLOW) b'.
Proof.
  intros [Hd He Hv Hp Hb Hl Hm Hw Hz _] Hch Ho ->. split; [done|]. split; [done|]. right.
  split_and!; try done. exists 0%nat. rewrite drop_0. split; [lia|]. split; [simpl; lia|done].
Qed.

(** It is complete: [k] bytes were read. *)
Lemma stepped_full d b T chan x l d' bytes c' :
  reading d b T None -> DB.cursor_ b = bytes ++ c' -> bytes <> [] ->
  owes (apply T x) None (c' ++ chan) l -> same_blocks d d' -> dinv d' -> D.err_ d' = NONE ->
  view (D.table_ d') = apply T x -> pstate d' = None ->
  stepped d b T chan (x :: l) d' (DB.skip b (zlen bytes)).
Proof.
  intros Hr E Hne Ho Hs Hd He Hv Hp. split; [done|]. split; [done|]. left.
  eexists _, _, (length bytes). rewrite E, drop_app_zlen, length_app.
  destruct bytes as [|y bytes]; [done|]. split_and!; try done; simpl; lia.
Qed.

Lemma step_size d b T c chan rest l :
  reading d b T None -> DB.cursor_ b <> [] ->
  DB.cursor_ b ++ chan = Wire.enc_int c 0x20 5 ++ rest -> 0 <= lim -> maxTable < 2 ^ 31 ->
  0 <= c <= maxTable -> owes (apply T (ISize c)) None rest l ->
  exists r d' b', D.decodeEncoderStreamInstruction (d, b) = Some (r, (d', b')) /\
    stepped d b T chan (ISize c :: l) d' b'.
Proof.
  intros Hrd Hne E Hl0 HM Hc Ho.
  destruct (step_other d b T chan _ rest 0x20 c Hrd Hne E eq_refl) as [-> Hpat]; [lia|by left|].
  change (0x20 =? 0) with false. cbv iota. set (d1 := D.set_partial d _).
  pose proof (codes_int c 0x20 5 Hpat ltac:(unfold_ints; lia)) as HC.
  pose proof Hrd as [Hd He Hv Hp Hb Hl Hm Hw Hz _].
  unfold D.handleTableSizeUpdate. change (prefixLength TABLE_SIZE_UPDATE) with 5.
  destruct (cut b _ chan rest Hw Hz E) as [(c' & E1 & E2 & Hho)|[Hch Hs]].
  - rewrite (qbind_ok _ _ _ _ _ (decode_full _ _ _ _ d1 b c' HC He Hho ltac:(lia))).
    unfold D.update_capacity. rewrite Z.gtb_ltb, (proj2 (Z.ltb_ge _ _)) by (simpl; lia).
    rewrite u32_id by (unfold_ints; lia). destruct Hd as [Hd Ht].
    destruct (untracked_setCapacity (D.table_ d) c Hd Ht ltac:(lia)) as (s' & HS & Hs' & Ht' & Hv').
    change (D.table_ d1) with (D.table_ d). rewrite HS. unfold mbind, option_bind.
    eexists _, _, _. split; [reflexivity|].
    eapply stepped_full; try done; [apply HC|by rewrite <- E2|by rewrite <- Hv].
  - destruct (decode_short _ _ _ _ d1 b HC Hs ltac:(lia)) as [b' Eb].
    rewrite (qbind_fail _ _ _ _ Eb). eexists _, _, _. split; [reflexivity|].
    eapply stepped_short; try done. rewrite E. by constructor.
Qed.

Lemma step_dup d b T i h chan rest l :
  reading d b T None -> DB.cursor_ b <> [] ->
  DB.cursor_ b ++ chan = Wire.enc_int (i - 1) 0x00 5 ++ rest -> 0 <= lim -> ins T < 2 ^ 31 ->
  1 <= i < 2 ^ 31 -> fields T !! Z.to_nat (i - 1) = Some h -> canonical (name h) -> hsize h <= cap T ->
  owes (apply T (IInsert h)) None rest l ->
  exists r d' b', D.decodeEncoderStreamInstruction (d, b) = Some (r, (d', b')) /\
    stepped d b T chan (IInsert h :: l) d' b'.
Proof.
  intros Hrd Hne E Hl0 HI Hi Hf Hcan Hh Ho.
  destruct (step_other d b T chan _ rest 0x00 (i - 1) Hrd Hne E eq_refl) as [-> Hpat]; [lia|by right|].
  change (0x00 =? 0) with true. cbv iota. set (d1 := D.set_partial d _).
  pose proof Hrd as [Hd He Hv Hp Hb Hl Hm Hw Hz _].
  assert (Hr : refers d1 false false i h)
    by (apply refers_relative; [done|done|lia|by change (D.table_ d1) with (D.table_ d); rewrite Hv]).
  unfold D.decodeDuplicate. change (prefixLength Q_DUPLICATE) with 5.
  destruct (cut b _ chan rest Hw Hz E) as [(c' & E1 & E2 & Hho)|[Hch Hs]].
  - destruct (indexed_full d1 b c' 5 false false 0x00 i h) as (d2 & HD & Hup); try done;
      [solve_marks|lia|].
    rewrite (qbind_ok _ _ _ _ _ HD). rewrite storeAddress_lower, Hcan.
    assert (Eh : HPACKHeader.mk (name h) (value h) = h) by (by destruct h). rewrite Eh.
    assert (Hv2 : view (D.table_ d2) = T) by (by rewrite (upto_table d1 d2 Hup)).
    destruct (insert_ok d2 (DB.skip b (zlen (Wire.enc_int (i - 1) 0 5))) T h
      (upto_dinv d1 d2 Hup Hd) Hv2 HI Hh) as (d3 & HI3 & Hd3 & Hv3 & Hb3 & He3 & Hp3 & _).
    rewrite (qbind_ok _ _ _ _ _ HI3). eexists _, _, _. split; [reflexivity|].
    assert (He2 : D.err_ d2 = NONE) by (by rewrite (upto_err d1 d2 Hup)).
    assert (Hp2 : pstate d2 = None) by (destruct Hup as (? & -> & _); done).
    assert (Hb2 : same_blocks d d2) by (destruct (upto_blocks d1 d2 Hup); by constructor).
    eapply (stepped_full d b T chan (IInsert h) l _ _ c'); try done.
    + apply (codes_ne _ _ _ _ (codes_int (i - 1) 0 5 Hpat ltac:(unfold_ints; lia))).
    + by rewrite <- E2.
    + destruct (same_blocks_trans d d2 d3 Hb2 Hb3). by constructor.
    + simpl. by rewrite He3.
    + change (pstate d3 = None). by rewrite Hp3.
  - destruct (indexed_short d1 b 5 false false 0x00 i h) as (b' & HD); try done;
      [by apply remaining_pos|lia|].
    rewrite (qbind_fail _ _ _ _ HD). eexists _, _, _. split; [reflexivity|].
    eapply stepped_short; try done. rewrite E. by constructor.
Qed.

Lemma instruction_step d b T p chan l :
  reading d b T p -> owes T p (DB.cursor_ b ++ chan) l -> DB.cursor_ b <> [] ->
  ins (replay T l) < 2 ^ 31 -> 0 <= lim -> maxTable < 2 ^ 31 ->
  exists r d' b', D.decodeEncoderStreamInstruction (d, b) = Some (r, (d', b')) /\
    stepped d b T chan l d' b'.
Proof.
  intros Hr Ho Hne Hi Hl HM. assert (HI : ins T < 2 ^ 31) by (pose proof (ins_replay T l); lia).
  inversion Ho as [T0 E1 E2 E3 E4|T0 nb n bytes l0 Hnf Ho1 E1 E2 E3 E4
    |T0 n v vb rest l0 Hc Hv Hh Ho1 E1 E2 E3 E4|T0 c rest l0 Hc Ho1 E1 E2 E3 E4
    |T0 i h rest l0 Hc Hf Hcan Hh Ho1 E1 E2 E3 E4]; subst.
  - symmetry in E3. apply app_eq_nil in E3 as [E3 _]. done.
  - symmetry in E3. inversion Ho1 as [| |T1 n1 v vb rest l1 Hc Hv Hh Ho2 F1 F2 F3 F4| |]; subst.
    by apply (step_insert d b T nb n v vb chan rest l1).
  - symmetry in E3. by apply (step_value d b T n v vb chan rest l0).
  - symmetry in E3. by apply (step_size d b T c chan rest l0).
  - symmetry in E3. by apply (step_dup d b T i h chan rest l0).
Qed.

(** ** A piece of the encoder stream *)

(** Where reading a piece stops: at an instruction boundary or inside a value that
    is owed whole, or inside an instruction. *)
Definition stopped (T : dyn) (chan : list Z) (l : list instr) (c0 consumed0 : Z) (cursor : list Z)
    (d' : D.t) (b' : DB.t) : Prop :=
  (D.err_ d' = NONE /\ DB.consumedBytes b' = consumed0 + c0 /\ owes T (pstate d') chan l) \/
  (chan <> [] /\ D.err_ d' = BUFFER_UNDERFLOW /\ exists k : nat, (k <= length cursor)%nat /\
     D.p_consumed (D.partial_ d') = consumed0 + Z.of_nat k /\
     owes T (pstate d') (drop k cursor ++ chan) l).

Lemma loop_feed (n : nat) : forall d b T p chan l fuel,
  (length (DB.cursor_ b) <= n)%nat -> (n < fuel)%nat -> reading d b T p ->
  owes T p (DB.cursor_ b ++ chan) l -> ins (replay T l) < 2 ^ 31 -> 0 <= lim -> maxTable < 2 ^ 31 ->
  exists d' b' l1 l2, D.encoderStream_loop fuel d b = Some (d', b') /\ l = l1 ++ l2 /\
    same_blocks d d' /\ dinv d' /\ view (D.table_ d') = replay T l1 /\
    stopped (replay T l1) chan l2 (zlen (DB.cursor_ b)) (DB.consumedBytes b) (DB.cursor_ b) d' b'.
Proof.
  induction n as [|n IH]; intros d b T p chan l fuel Hn Hf Hr Ho Hi Hl HM;
    pose proof Hr as [Hd He Hv Hp Hb Hlim Hm Hw Hz [Ht1 Ht2]];
    (destruct fuel as [|fuel]; [lia|]); cbn [D.encoderStream_loop]; unfold D.hasError;
    rewrite bool_decide_eq_true_2 by done; cbn [negb andb].
  - destruct (DB.cursor_ b) as [|y c] eqn:Ec; [|simpl in Hn; lia].
    assert (Hem : DB.empty b = true) by (unfold DB.empty; unfold whole in Hw; rewrite Hw, Ec; done).
    rewrite Hem. cbn [negb]. exists d, b, [], l. split_and!; try done. left.
    split_and!; [done|unfold zlen; simpl; lia|]. by rewrite Hp.
  - destruct (DB.cursor_ b) as [|y c] eqn:Ec.
    { assert (Hem : DB.empty b = true) by (unfold DB.empty; unfold whole in Hw; rewrite Hw, Ec; done).
      rewrite Hem. cbn [negb]. exists d, b, [], l. split_and!; try done. left.
      split_and!; [done|unfold zlen; simpl; lia|]. by rewrite Hp. }
    rewrite <- Ec in *. assert (Hne : DB.cursor_ b <> []) by (by rewrite Ec).
    assert (Hem : DB.empty b = false).
    { unfold DB.empty. rewrite (proj2 (Z.eqb_neq _ _)); [done|]. pose proof (remaining_pos b Hw Hne). lia. }
    rewrite Hem. cbn [negb].
    destruct (instruction_step d b T p chan l Hr Ho Hne Hi Hl HM) as (r & d1 & b1 & -> & Hsb & Hd1 & Hst).
    unfold mbind, option_bind.
    destruct Hst as [(x & l' & k & -> & Hk & -> & He1 & Hv1 & Hp1 & Ho1)|
                     (Hch & He1 & Hv1 & k & Hk & Hpc & Ho1)].
    + destruct (skip_whole b k Hw ltac:(lia) ltac:(lia)) as [Hw1 Hz1].
      assert (Ec1 : DB.cursor_ (DB.skip b (Z.of_nat k)) = drop k (DB.cursor_ b))
        by (simpl; by rewrite Nat2Z.id).
      destruct (IH d1 (DB.skip b (Z.of_nat k)) (apply T x) None chan l' fuel)
        as (d' & b' & l1 & l2 & HL & El & Hsb' & Hd' & Hv' & Hstop).
      * rewrite Ec1, length_drop. lia.
      * lia.
      * destruct Hsb. constructor; first [done | lia | congruence | (simpl in *; lia)].
      * by rewrite Ec1.
      * done.
      * done.
      * done.
      * exists d', b', (x :: l1), l2. split; [exact HL|]. split; [by rewrite El|].
        split; [by apply (same_blocks_trans d d1)|]. split; [done|]. split; [done|].
        pose proof (consumed_skip b k Hw ltac:(lia) Ht1 Ht2) as Hcs.
        destruct Hstop as [(? & Hcb & ?)|(? & ? & k' & Hk' & Hpc & Ho')]; [left|right].
        -- split_and!; try done. rewrite Hcb, Hcs, Hz1. lia.
        -- split_and!; try done. exists (k + k')%nat. rewrite Ec1 in Hk', Ho'.
           rewrite length_drop in Hk'. rewrite drop_drop in Ho'. split; [lia|]. split; [lia|done].
    + exists d1, b1, [], l. split.
      { destruct fuel; cbn [D.encoderStream_loop]; unfold D.hasError; rewrite He1;
          rewrite bool_decide_eq_false_2 by done; done. }
      split_and!; try done. right. split_and!; try done. by exists k.
Qed.

(** What a piece of the encoder stream leaves alone. *)
Record same_config (d d' : D.t) : Prop := {
  sc_maxTable : D.maxTableSize_ d' = D.maxTableSize_ d;
  sc_maxUncompressed : D.maxUncompressed_ d' = D.maxUncompressed_ d;
  sc_maxBlocking : D.maxBlocking_ d' = D.maxBlocking_ d;
  sc_lastAcked : D.lastAcked_ d' = D.lastAcked_ d;
  sc_queue : D.queue_ d' = D.queue_ d }.

(** The complete instructions of the piece are carried out, the rest stays owed, and
    the queue is drained, unless an instruction is cut off. *)
Lemma feed d buf chan l :
  dinv d -> owes (view (D.table_ d)) (pstate d) (D.ingress_ d ++ buf ++ chan) l ->
  ins (replay (view (D.table_ d)) l) < 2 ^ 31 -> 0 <= lim <= D.maxUncompressed_ d ->
  D.maxUncompressed_ d < 2 ^ 31 -> maxTable <= D.maxTableSize_ d -> maxTable < 2 ^ 31 ->
  zlen (D.ingress_ d ++ buf) < 2 ^ 32 ->
  exists d1 l1 l2, l = l1 ++ l2 /\ dinv d1 /\ same_config d d1 /\
    view (D.table_ d1) = replay (view (D.table_ d)) l1 /\
    owes (view (D.table_ d1)) (pstate d1) (D.ingress_ d1 ++ chan) l2 /\
    (D.err_ d1 = NONE /\ D.ingress_ d1 = [] \/ D.err_ d1 = BUFFER_UNDERFLOW /\ chan <> []) /\
    D.decodeEncoderStream d buf =
      '(evs, d2) ← D.drainQueue d1; Some (NONE, evs, d2).
Proof.
  intros Hd Ho Hi Hl HU HT HM Hz. set (I := D.ingress_ d ++ buf) in *.
  pose proof (zlen_nonneg I) as HzI. set (T := view (D.table_ d)) in *.
  unfold D.decodeEncoderStream. fold I.
  set (d0 := D.set_err (D.set_base (D.set_ingress d I) 0) NONE).
  set (b0 := DB.create I (u32 (zlen I)) (u32 (D.maxUncompressed_ d))).
  assert (HuI : u32 (zlen I) = zlen I) by (apply u32_id; unfold_ints; lia).
  assert (HuU : u32 (D.maxUncompressed_ d) = D.maxUncompressed_ d) by (apply u32_id; unfold_ints; lia).
  assert (Hr : reading d0 b0 T (pstate d)).
  { constructor; first [done | (simpl; lia) | (unfold whole; simpl; by rewrite HuI)]. }
  assert (Ho0 : owes T (pstate d) (DB.cursor_ b0 ++ chan) l) by (simpl; unfold I; by rewrite <- app_assoc).
  destruct (loop_feed (length I) d0 b0 T (pstate d) chan l (S (length I)))
    as (d1 & b1 & l1 & l2 & -> & -> & Hsb & Hd1 & Hv1 & Hstop); try done; try lia.
  unfold mbind at 1, option_bind at 1.
  assert (Hc0 : DB.consumedBytes b0 = 0).
  { unfold DB.consumedBytes. simpl. by rewrite Z.sub_diag. }
  rewrite Hc0 in Hstop. simpl (DB.cursor_ b0) in Hstop.
  destruct Hstop as [(He & Hcb & Ho1)|(Hch & He & k & Hk & Hpc & Ho1)]; rewrite He.
  - rewrite bool_decide_eq_false_2 by done.
    assert (Hdrop : drop (Z.to_nat (DB.consumedBytes b1)) I = [])
      by (rewrite Hcb; unfold zlen; by rewrite Z.add_0_l, Nat2Z.id, drop_all).
    exists (D.set_ingress (D.set_encoderBytes d1 (u32 (D.pendingEncoderBytes_ d1 + DB.consumedBytes b1)))
      (drop (Z.to_nat (DB.consumedBytes b1)) I)), l1, l2. rewrite Hdrop. split_and!; try done.
    + destruct Hsb. by constructor.
    + cbn [D.ingress_ D.set_ingress app]. change (D.table_ (D.set_ingress _ _)) with (D.table_ d1).
      by rewrite Hv1.
    + by left.
    + unfold D.hasError at 1. simpl (D.err_ (D.set_ingress _ _)). rewrite He.
      rewrite bool_decide_eq_true_2 by done. done.
  - rewrite bool_decide_eq_true_2 by done.
    exists (D.set_ingress d1 (drop (Z.to_nat (D.p_consumed (D.partial_ d1))) I)), l1, l2.
    split_and!; try done.
    + destruct Hsb. by constructor.
    + cbn [D.ingress_ D.set_ingress]. rewrite Hpc, Z.add_0_l, Nat2Z.id.
      change (D.table_ (D.set_ingress _ _)) with (D.table_ d1). by rewrite Hv1.
    + by right.
Qed.

(** ** Waiting blocks *)

(** A queued block, for a decoder with table [T]: its fields are [hs], and once its
    count is reached its references are in the table. *)
Record waiting (T : dyn) (maxUncompressed : Z) (q : Z * D.PendingBlock) (hs : list HPACKHeader.t)
  : Prop := {
  w_forms : exists need, forms (D.baseIndex (snd q)) need (D.block (snd q)) hs /\
    (fst q <= ins T -> forall i f, (i, f) ∈ need -> field T i = Some f);
  w_ric : 1 <= fst q;
  w_length : D.length (snd q) = zlen (D.block (snd q)) /\ 0 < zlen (D.block (snd q)) < 2 ^ 32;
  w_admitted : admitted maxUncompressed hs }.

Lemma decodeBlock_ok d q hs :
  dinv d -> D.err_ d = NONE -> waiting (view (D.table_ d)) (D.maxUncompressed_ d) q hs ->
  fst q <= D.getInsertCount d -> 0 <= D.maxUncompressed_ d ->
  exists evs d', D.decodeBlock d (fst q) (snd q) = Some (evs, d') /\
    completed (D.cb (snd q)) hs true evs /\ same_streams d d' /\ D.err_ d' = NONE /\
    D.queue_ d' = D.queue_ d /\ D.lastAcked_ d' = Z.max (D.lastAcked_ d) (fst q).
Proof.
  intros Hd He [(need & Hf & Hn) Hr [Hlen Hz] Ha] Hq HU. unfold D.decodeBlock.
  destruct Ha as (Hu & Hl & HM). rewrite Z.gtb_ltb, Hlen, (proj2 (Z.ltb_lt _ _)) by lia.
  set (b := DB.create _ _ _). set (d0 := D.set_base _ _).
  destruct (decodeStreamingImpl_ok (D.baseIndex (snd q)) need (D.block (snd q)) hs d0 b
    (D.cb (snd q)) (fst q) (D.consumed (snd q)) Hf) as (evs & d' & -> & Hev & Hss & He' & Hq' & Hla);
    try done.
  - intros i f Hif. by apply Hn.
  - split; [simpl; by rewrite app_nil_r|]. simpl. split; [lia|unfold_ints; lia].
  - simpl. apply u32_id. unfold_ints. lia.
  - rewrite (proj2 (Z.eqb_neq (fst q) 0)) in Hev by lia.
    exists evs, d'. split_and!; try done. eapply same_streams_trans; [|done]. done.
Qed.

(** The events of blocks decoded one after the other. *)
Inductive drained : list (Z * D.PendingBlock) -> list (list HPACKHeader.t) -> list D.event -> Prop :=
| drained_nil : drained [] [] []
| drained_cons q hs qs hss evs evs' :
    completed (D.cb (snd q)) hs true evs -> drained qs hss evs' ->
    drained (q :: qs) (hs :: hss) (evs ++ evs').

(** The blocks that are ready are decoded; the first that is left is not ready. *)
Lemma drain_ok qs : forall d hss,
  D.queue_ d = qs -> dinv d -> D.err_ d = NONE -> 0 <= D.maxUncompressed_ d ->
  Forall2 (waiting (view (D.table_ d)) (D.maxUncompressed_ d)) qs hss ->
  exists (k : nat) evs d', D.drain_loop (length qs) d = Some (evs, d') /\
    D.queue_ d' = drop k qs /\ drained (take k qs) (take k hss) evs /\
    Forall (fun q => fst q <= D.getInsertCount d) (take k qs) /\
    (forall q, head (drop k qs) = Some q -> D.getInsertCount d < fst q) /\
    same_streams d d' /\ D.err_ d' = NONE /\
    D.lastAcked_ d' = foldl Z.max (D.lastAcked_ d) (fst <$> take k qs).
Proof.
  induction qs as [|[ric p] qs IH]; intros d hss Hq Hd He HU Hw.
  { exists 0%nat, [], d. simpl. rewrite Hq. split_and!; try done; try constructor. }
  inversion Hw as [|q hs qs' hss' Hw1 Hw2]; subst.
  cbn [length D.drain_loop]. rewrite Hq. unfold D.hasError. rewrite bool_decide_eq_true_2 by done.
  rewrite andb_true_r. destruct (Z.leb_spec ric (D.getInsertCount d)) as [Hle|Hgt].
  - set (d0 := D.set_queue d (D.holBlockCount_ d) (D.queuedBytes_ d) qs).
    destruct (decodeBlock_ok d0 (ric, p) hs Hd He Hw1 Hle HU)
      as (evs & d1 & HE & Hev & Hss & He1 & Hq1 & Hla). simpl in HE. rewrite HE.
    unfold mbind at 1, option_bind at 1.
    assert (Ht : D.table_ d1 = D.table_ d) by apply (ss_table _ _ Hss).
    assert (Hm : D.maxUncompressed_ d1 = D.maxUncompressed_ d) by apply (ss_maxUncompressed _ _ Hss).
    destruct (IH d1 hss') as (k & evs' & d' & HL & Hq' & Hdr & Hall & Hhd & Hss' & He' & Hla').
    + by rewrite Hq1.
    + unfold dinv. by rewrite Ht.
    + done.
    + by rewrite Hm.
    + by rewrite Ht, Hm.
    + assert (HG : D.getInsertCount d1 = D.getInsertCount d).
      { unfold D.getInsertCount, QPACKContext.getInsertCount.
        change (QPACKContext.table_ (D.ctx d1)) with (D.table_ d1). by rewrite Ht. }
      rewrite HG in *. exists (S k), (evs ++ evs'), d'. rewrite HL. unfold mbind, option_bind.
      split_and!; try done.
      * simpl. by constructor.
      * simpl. by constructor.
      * eapply same_streams_trans; [|exact Hss']. destruct Hss. by constructor.
      * rewrite Hla'. simpl in Hla. simpl. by rewrite Hla.
  - exists 0%nat, [], d. rewrite Hq. split_and!; try done; try constructor.
    simpl. by intros q [= <-].
Qed.

(** With an error pending the queue is not touched. *)
Lemma drain_error d : D.err_ d <> NONE -> D.drainQueue d = Some ([], d).
Proof.
  intros He. unfold D.drainQueue. destruct (D.queue_ d) as [|[ric p] q] eqn:Eq; simpl; rewrite Eq; [done|].
  unfold D.hasError. rewrite bool_decide_eq_false_2 by done. by rewrite andb_false_r.
Qed.

End owes.
End QPACKFeed.
