(* ===== verification/QPACKTracking.v ===== *)
(** * The references the QPACK encoder tracks

    [tracked] is the invariant of the bookkeeping in [QPACKEncoder]: the vector of
    minima is a permutation of the minima of the outstanding blocks,
    [minOutstandingMin_] is their minimum, and the counters count.
    [removeFromMinOutstanding] keeps it, and so do [completeEncode], header
    acknowledgements and cancellations, whose [CHECK]s never fail. *)

From stdpp Require Import gmap.
From S2P Require Import Prelude HPACKBuffers HeaderTable HPACKContext QPACKHeaderTable.
From S2P Require Import QPACKContext QPACKEncoder QPACKTables.

Module QPACKTracking.
Import HPACK HPACKHeader QPACKRing Dyn QPACKEncoder.

(** ** Minima *)

Definition min_of (l : list Z) : Z := foldr Z.min UINT32_MAX l.

Lemma foldl_min l : forall m, foldl Z.min m l = foldr Z.min m l.
Proof.
  induction l as [|x l IH]; intros m; simpl; [done|]. rewrite IH. clear IH.
  revert m. induction l as [|y l IH]; intros m; simpl; [lia|]. rewrite IH. lia.
Qed.

Lemma foldr_min_min l m : m <= UINT32_MAX -> foldr Z.min m l = Z.min m (min_of l).
Proof. intros Hm. induction l as [|x l IH]; simpl; [lia|]. rewrite IH. unfold min_of. simpl. lia. Qed.

Lemma min_of_max l : min_of l <= UINT32_MAX.
Proof. induction l; unfold min_of in *; simpl; lia. Qed.

Lemma min_of_app l1 l2 : min_of (l1 ++ l2) = Z.min (min_of l1) (min_of l2).
Proof.
  unfold min_of at 1. rewrite foldr_app. fold (min_of l2).
  rewrite foldr_min_min by apply min_of_max. lia.
Qed.

Lemma min_of_perm l1 l2 : l1 ≡ₚ l2 -> min_of l1 = min_of l2.
Proof. induction 1; unfold min_of in *; simpl; lia. Qed.

Lemma min_of_le l x : x ∈ l -> min_of l <= x.
Proof.
  induction 1 as [x l|x y l Hx IH]; unfold min_of in *; simpl; lia.
Qed.

(** ** Removing a minimum *)

Lemma find_min_spec val pre post : forall i m,
  val ∉ pre -> m <= UINT32_MAX ->
  find_min val (pre ++ val :: post) i m = ((i + length pre)%nat, Z.min m (min_of pre)).
Proof.
  induction pre as [|x pre IH]; intros i m Hn Hm; simpl.
  - rewrite Z.eqb_refl. f_equal; [lia|]. unfold min_of. simpl. lia.
  - rewrite (proj2 (Z.eqb_neq x val)) by set_solver.
    rewrite IH by (set_solver || lia). f_equal; [lia|]. unfold min_of. simpl. lia.
Qed.

Lemma swap_pop_spec val pre post :
  exists l, swap_pop (pre ++ val :: post) (length pre) = pre ++ l /\ l ≡ₚ post.
Proof.
  unfold swap_pop. rewrite last_app, last_cons.
  destruct post as [|z post' _] using rev_ind.
  - simpl. exists []. rewrite length_app. simpl. split; [|done].
    replace (pred (length pre + 1)) with (length pre) by lia.
    rewrite insert_app_r_alt, Nat.sub_diag by lia. simpl. by rewrite take_app_length, app_nil_r.
  - rewrite last_snoc. exists (z :: post'). split; [|by rewrite <- Permutation_cons_append].
    rewrite insert_app_r_alt, Nat.sub_diag by lia. simpl.
    rewrite !length_app. simpl. rewrite length_app. simpl.
    replace (pred (length pre + S (length post' + 1))) with (length (pre ++ z :: post'))
      by (rewrite length_app; simpl; lia).
    replace (pre ++ z :: post' ++ [z]) with ((pre ++ z :: post') ++ [z])
      by (by rewrite <- app_assoc).
    apply take_app_length.
Qed.

(** One occurrence of [val] is removed, and the minimum stays the minimum. *)
Lemma removeFromMinOutstanding_spec r val :
  val ∈ outstandingMins_ r -> minOutstandingMin_ r = min_of (outstandingMins_ r) ->
  exists mins, removeFromMinOutstanding r val =
      Some (mkRefs (outstanding_ r) mins (min_of mins) (curOutstanding_ r) (numVulnerable_ r)
              (numOutstandingBlocks_ r)) /\
    val :: mins ≡ₚ outstandingMins_ r.
Proof.
  intros Hin Hm. unfold removeFromMinOutstanding.
  rewrite bool_decide_eq_false_2 by (intros E; rewrite E in Hin; set_solver).
  apply list_elem_of_split_l in Hin as (pre & post & E & Hpre). rewrite E in *.
  rewrite find_min_spec by (done || unfold_ints; lia). cbn [Nat.add].
  rewrite decide_True by (rewrite length_app; simpl; lia).
  destruct (swap_pop_spec val pre post) as (l & -> & Hl).
  exists (pre ++ l). assert (Hp : val :: pre ++ l ≡ₚ pre ++ val :: post).
  { by rewrite Hl, Permutation_middle. }
  split; [|done]. do 2 f_equal. pose proof (min_of_perm _ _ Hp) as Hmp.
  change (min_of (val :: pre ++ l)) with (Z.min val (min_of (pre ++ l))) in Hmp.
  pose proof (min_of_max pre).
  destruct (Z.eqb_spec val (minOutstandingMin_ r)) as [->|Hne].
  - rewrite drop_app_length, foldl_min, foldr_min_min by lia. rewrite min_of_app. lia.
  - rewrite Hm. pose proof (min_of_le (pre ++ val :: post) val ltac:(set_solver)). lia.
Qed.

(** ** The blocks of all streams *)

Definition blocks (m : gmap Z (list OutstandingBlock)) : list OutstandingBlock :=
  concat (snd <$> map_to_list m).

Lemma blocks_delete m sid l :
  m !! sid = Some l -> blocks m ≡ₚ l ++ blocks (delete sid m).
Proof.
  intros Hl. unfold blocks.
  transitivity (concat (snd <$> ((sid, l) :: map_to_list (delete sid m)))); [|done].
  f_equiv. f_equiv. symmetry. by apply map_to_list_delete.
Qed.

Lemma blocks_insert m sid l : blocks (<[sid := l]> m) ≡ₚ l ++ blocks (delete sid m).
Proof. rewrite (blocks_delete _ sid l) by apply lookup_insert_eq. by rewrite delete_insert_eq. Qed.

Lemma delete_none (m : gmap Z (list OutstandingBlock)) sid : m !! sid = None -> delete sid m = m.
Proof. apply delete_id. Qed.

Lemma blocks_elem m sid l b : m !! sid = Some l -> b ∈ l -> b ∈ blocks m.
Proof. intros Hl Hb. rewrite (blocks_delete m sid l Hl). set_solver. Qed.

Lemma blocks_snoc m sid b : blocks (<[sid := default [] (m !! sid) ++ [b]]> m) ≡ₚ b :: blocks m.
Proof.
  rewrite blocks_insert. destruct (m !! sid) as [l|] eqn:El; simpl.
  - rewrite (blocks_delete _ sid l El), <- app_assoc. simpl. by rewrite <- Permutation_middle.
  - by rewrite (delete_none _ _ El).
Qed.

(** ** The invariant *)

Definition vulnerables (l : list OutstandingBlock) : Z := zlen (filter (fun b => vulnerable b = true) l).

Lemma vulnerables_app l1 l2 : vulnerables (l1 ++ l2) = vulnerables l1 + vulnerables l2.
Proof. unfold vulnerables. by rewrite filter_app, zlen_app. Qed.

Lemma vulnerables_perm l1 l2 : l1 ≡ₚ l2 -> vulnerables l1 = vulnerables l2.
Proof. intros H. unfold vulnerables, zlen. f_equal. apply Permutation_length. by rewrite H. Qed.

Lemma vulnerables_le l : 0 <= vulnerables l <= zlen l.
Proof. unfold vulnerables, zlen. pose proof (length_filter (fun b => vulnerable b = true) l). lia. Qed.

(** Every stream of [sids] has a vulnerable block: there are as many. *)
Lemma vulnerable_streams sids : forall m,
  NoDup sids ->
  (forall sid, sid ∈ sids -> exists l b, m !! sid = Some l /\ b ∈ l /\ vulnerable b = true) ->
  zlen sids <= vulnerables (blocks m).
Proof.
  induction sids as [|sid sids IH]; intros m Hn H; [unfold zlen; simpl; apply vulnerables_le|].
  apply NoDup_cons in Hn as [Hni Hn]. destruct (H sid) as (l & b & Hl & Hb & Hv); [by left|].
  rewrite (vulnerables_perm _ _ (blocks_delete m sid l Hl)), vulnerables_app.
  assert (Hr : zlen sids <= vulnerables (blocks (delete sid m))).
  { apply IH; [done|]. intros sid' Hin. rewrite lookup_delete_ne by (intros ->; done). apply H. by right. }
  assert (H1 : 1 <= vulnerables l).
  { unfold vulnerables. assert (Hin : b ∈ filter (fun b => vulnerable b = true) l)
      by (by apply list_elem_of_filter).
    destruct (filter _ l); [by apply elem_of_nil in Hin|]. unfold zlen. simpl. lia. }
  unfold zlen in *. cbn [length]. lia.
Qed.

Lemma zlen_perm {A} (l1 l2 : list A) : l1 ≡ₚ l2 -> zlen l1 = zlen l2.
Proof. intros H. unfold zlen. f_equal. by apply Permutation_length. Qed.

(** A block's references lie between its smallest and its largest. *)
Definition block_ok (ins : Z) (b : OutstandingBlock) : Prop :=
  1 <= minInUseIndex b <= maxInUseIndex b /\ maxInUseIndex b <= ins.

Record tracked (r : refs) (ins : Z) : Prop := {
  t_mins : outstandingMins_ r ≡ₚ minInUseIndex <$> blocks (outstanding_ r);
  t_min : minOutstandingMin_ r =
    Z.min (minInUseIndex (curOutstanding_ r)) (min_of (outstandingMins_ r));
  t_vulnerable : numVulnerable_ r = vulnerables (blocks (outstanding_ r));
  t_count : numOutstandingBlocks_ r = zlen (blocks (outstanding_ r));
  t_blocks : Forall (block_ok ins) (blocks (outstanding_ r));
  t_nonempty : forall sid l, outstanding_ r !! sid = Some l -> l <> [];
  t_small : zlen (blocks (outstanding_ r)) < 2 ^ 32 }.

(** Between blocks. *)
Definition idle (r : refs) : Prop := curOutstanding_ r = no_references.

Lemma idle_min r ins : tracked r ins -> idle r -> minOutstandingMin_ r = min_of (outstandingMins_ r).
Proof.
  intros H Hi. rewrite (t_min r ins H), Hi. simpl. pose proof (min_of_max (outstandingMins_ r)). lia.
Qed.

Lemma tracked_mono r ins ins' : ins <= ins' -> tracked r ins -> tracked r ins'.
Proof.
  intros Hi []. constructor; try done. eapply Forall_impl; [done|]. intros b []. split; [done|lia].
Qed.

(** ** A block ends *)

Lemma recordOutstanding_spec r ins sid :
  tracked r ins -> minInUseIndex (curOutstanding_ r) <> UINT32_MAX ->
  block_ok ins (curOutstanding_ r) -> zlen (blocks (outstanding_ r)) < 2 ^ 32 - 1 ->
  let r' := recordOutstanding r sid in
  tracked r' ins /\ idle r' /\ minOutstandingMin_ r' = minOutstandingMin_ r /\
  outstanding_ r' =
    <[sid := default [] (outstanding_ r !! sid) ++ [curOutstanding_ r]]> (outstanding_ r).
Proof.
  intros H Hne Hok Hz. unfold recordOutstanding. rewrite (proj2 (Z.eqb_neq _ _)) by done. cbn [negb].
  set (cur := curOutstanding_ r) in *. set (old := default [] (outstanding_ r !! sid)).
  pose proof (blocks_snoc (outstanding_ r) sid cur) as Hb. fold old in Hb.
  split; [|done]. pose proof (vulnerables_le (blocks (outstanding_ r))). constructor; simpl.
  - rewrite Hb. simpl. rewrite (t_mins r ins H), <- Permutation_cons_append. done.
  - rewrite (t_min r ins H), min_of_app. fold cur. unfold min_of at 3. simpl.
    pose proof (min_of_max (outstandingMins_ r)). lia.
  - rewrite (vulnerables_perm _ _ Hb), (t_vulnerable r ins H).
    unfold vulnerables at 3. rewrite filter_cons. destruct (vulnerable cur) eqn:Ev.
    + rewrite decide_True by done. unfold zlen. cbn [length]. rewrite u32_id by (unfold_ints; lia).
      unfold vulnerables, zlen. lia.
    + rewrite decide_False by congruence. done.
  - rewrite (zlen_perm _ _ Hb), (t_count r ins H). unfold zlen in *. cbn [length].
    rewrite u32_id by (unfold_ints; lia). lia.
  - rewrite Hb. constructor; [done|apply H].
  - intros sid' l. destruct (decide (sid = sid')) as [<-|Hs].
    + rewrite lookup_insert_eq. intros [= <-]. by destruct old.
    + rewrite lookup_insert_ne by done. apply H.
  - rewrite (zlen_perm _ _ Hb). unfold zlen in *. cbn [length]. lia.
Qed.

(** ** Blocks are acknowledged or cancelled *)

(** The invariant for an explicit list of blocks, while [outstanding_] is behind. *)
Record tracks (r : refs) (bl : list OutstandingBlock) : Prop := {
  ts_mins : outstandingMins_ r ≡ₚ minInUseIndex <$> bl;
  ts_min : minOutstandingMin_ r = min_of (outstandingMins_ r);
  ts_vulnerable : numVulnerable_ r = vulnerables bl;
  ts_small : zlen bl < 2 ^ 32 }.

Lemma tracks_perm r bl bl' : bl ≡ₚ bl' -> tracks r bl -> tracks r bl'.
Proof.
  intros Hp [H1 H2 H3 H4]. constructor; try done; [by rewrite H1, Hp| |].
  - by rewrite H3, (vulnerables_perm _ _ Hp).
  - by rewrite <- (zlen_perm _ _ Hp).
Qed.

(** What removing a block leaves alone. *)
Definition same_rest (r r' : refs) : Prop :=
  outstanding_ r' = outstanding_ r /\ curOutstanding_ r' = curOutstanding_ r /\
  numOutstandingBlocks_ r' = numOutstandingBlocks_ r.

Lemma remove_block r b bl :
  tracks r (b :: bl) ->
  exists r', removeFromMinOutstanding (uncount_vulnerable r b) (minInUseIndex b) = Some r' /\
    tracks r' bl /\ same_rest r r'.
Proof.
  intros [Hm Hmin Hv Hz]. set (r1 := uncount_vulnerable r b).
  assert (Hr1 : outstandingMins_ r1 = outstandingMins_ r /\ minOutstandingMin_ r1 = minOutstandingMin_ r /\
    same_rest r r1 /\ numVulnerable_ r1 = vulnerables bl).
  { unfold r1, uncount_vulnerable. pose proof (vulnerables_le bl). unfold zlen in Hz. cbn [length] in Hz.
    unfold vulnerables in Hv. rewrite filter_cons in Hv. unfold zlen in H. destruct (vulnerable b) eqn:Eb.
    - rewrite decide_True in Hv by done. unfold zlen in Hv. cbn [length] in Hv. split_and!; try done.
      simpl. rewrite Hv. rewrite u32_id by (unfold vulnerables, zlen in *; unfold_ints; lia).
      unfold vulnerables, zlen. lia.
    - rewrite decide_False in Hv by congruence. done. }
  destruct Hr1 as (E1 & E2 & (E3 & E4 & E5) & E6).
  destruct (removeFromMinOutstanding_spec r1 (minInUseIndex b)) as (mins & -> & Hp).
  { rewrite E1, Hm. set_solver. } { by rewrite E1, E2. }
  eexists. split; [reflexivity|]. split; [|done]. constructor; try done.
  - simpl. rewrite E1, Hm in Hp. simpl in Hp. by apply Permutation_cons_inv in Hp.
  - unfold zlen in *. cbn [length] in Hz. lia.
Qed.

Lemma cancelBlocks_spec l : forall r bl,
  tracks r (l ++ bl) ->
  exists r', cancelBlocks r l = Some r' /\ tracks r' bl /\ same_rest r r'.
Proof.
  induction l as [|b l IH]; intros r bl H; [by exists r|]. cbn [cancelBlocks].
  destruct (remove_block r b (l ++ bl) H) as (r1 & -> & H1 & (E1 & E2 & E3)).
  unfold mbind, option_bind. destruct (IH r1 bl H1) as (r' & -> & H' & (F1 & F2 & F3)).
  exists r'. split_and!; try done. unfold same_rest. split_and!; congruence.
Qed.

(** The outstanding blocks after those of [sid] were replaced by [rest]. *)
Definition replaced (m : gmap Z (list OutstandingBlock)) (sid : Z) (rest : list OutstandingBlock)
  : gmap Z (list OutstandingBlock) :=
  match rest with [] => delete sid m | _ => <[sid := rest]> m end.

Lemma blocks_replaced m sid rest : blocks (replaced m sid rest) ≡ₚ rest ++ blocks (delete sid m).
Proof. destruct rest as [|b rest]; [done|]. apply blocks_insert. Qed.

Lemma replaced_lookup m sid rest sid' :
  replaced m sid rest !! sid' =
  if decide (sid = sid') then (match rest with [] => None | _ => Some rest end) else m !! sid'.
Proof.
  destruct rest as [|b rest]; simpl; destruct (decide (sid = sid')) as [<-|Hs].
  - apply lookup_delete_eq.
  - by apply lookup_delete_ne.
  - apply lookup_insert_eq.
  - by apply lookup_insert_ne.
Qed.

Lemma tracked_replaced r r' ins sid l1 rest :
  tracked r ins -> idle r -> outstanding_ r !! sid = Some (l1 ++ rest) ->
  tracks r' (rest ++ blocks (delete sid (outstanding_ r))) ->
  curOutstanding_ r' = curOutstanding_ r -> outstanding_ r' = replaced (outstanding_ r) sid rest ->
  numOutstandingBlocks_ r' = u32 (numOutstandingBlocks_ r - zlen l1) ->
  tracked r' ins /\ idle r' /\ minOutstandingMin_ r' = min_of (outstandingMins_ r').
Proof.
  intros H Hi Hl [H1 H2 H3 H4] Hc Ho Hn. pose proof (blocks_delete _ sid _ Hl) as Hb.
  pose proof (blocks_replaced (outstanding_ r) sid rest) as Hb'. rewrite <- Ho in Hb'.
  assert (Hsum : zlen (blocks (outstanding_ r)) = zlen l1 + zlen (blocks (outstanding_ r'))).
  { rewrite (zlen_perm _ _ Hb), (zlen_perm _ _ Hb'), <- app_assoc, !zlen_app. lia. }
  pose proof (t_small r ins H) as Hsm. split; [|by split; [unfold idle; rewrite Hc|]]. constructor.
  - by rewrite H1, Hb'.
  - rewrite Hc, Hi, H2. simpl. pose proof (min_of_max (outstandingMins_ r')). lia.
  - by rewrite H3, (vulnerables_perm _ _ Hb').
  - rewrite Hn, (t_count r ins H). unfold zlen in *. rewrite u32_id by (unfold_ints; lia). lia.
  - rewrite Hb'. pose proof (t_blocks r ins H) as Hf. rewrite Hb, <- app_assoc in Hf.
    by apply Forall_app in Hf as [_ Hf].
  - intros sid' l. rewrite Ho, replaced_lookup. destruct (decide _); [by destruct rest; intros [= <-]|].
    apply H.
  - unfold zlen in *. lia.
Qed.

(** What acknowledgements leave alone. *)
Definition same_encoder (e e' : t) : Prop :=
  streamBuffer_ e' = streamBuffer_ e /\ controlBuffer_ e' = controlBuffer_ e /\
  pendingContextUpdate_ e' = pendingContextUpdate_ e /\ config_ e' = config_ e /\
  view (table_ e') = view (table_ e) /\
  QPACKHeaderTable.trackReferences_ (table_ e') = QPACKHeaderTable.trackReferences_ (table_ e).

(** The state between blocks. *)
Record settled (e : t) : Prop := {
  s_inv : inv (table_ e);
  s_tracked : tracked (refs_ e) (QPACKHeaderTable.insertCount_ (table_ e));
  s_idle : idle (refs_ e);
  s_inUse : QPACKHeaderTable.minInUseIndex_ (table_ e) = minOutstandingMin_ (refs_ e) }.

(** [e'] has acknowledged [acked] insertions and [out] is outstanding. *)
Definition acked_to (e e' : t) (acked : Z) (out : gmap Z (list OutstandingBlock)) : Prop :=
  settled e' /\ same_encoder e e' /\ QPACKHeaderTable.ackedInsertCount_ (table_ e') = acked /\
  outstanding_ (refs_ e') = out /\ decoderIngress_ e' = decoderIngress_ e.

Lemma acked_to_intro e r' tbl acked :
  settled e -> inv tbl -> view tbl = view (table_ e) ->
  QPACKHeaderTable.trackReferences_ tbl = QPACKHeaderTable.trackReferences_ (table_ e) ->
  QPACKHeaderTable.ackedInsertCount_ tbl = acked ->
  tracked r' (QPACKHeaderTable.insertCount_ (table_ e)) -> idle r' ->
  acked_to e (with_table (with_refs e r')
    (QPACKHeaderTable.setMinInUseIndex tbl (minOutstandingMin_ r'))) acked (outstanding_ r').
Proof.
  intros H Ht Hv Htr Ha Hr Hi. assert (Hins : QPACKHeaderTable.insertCount_ tbl = QPACKHeaderTable.insertCount_ (table_ e))
    by (change (Dyn.ins (view tbl) = Dyn.ins (view (table_ e))); by rewrite Hv).
  split; [|split; [done|done]]. constructor; try done.
  - apply (QPACKTableResults.inv_with tbl (QPACKHeaderTable.ackedInsertCount_ tbl) _ Ht).
    pose proof (inv_acked tbl Ht). lia.
  - simpl. by rewrite Hins.
Qed.

Lemma settled_tracks e sid l :
  settled e -> outstanding_ (refs_ e) !! sid = Some l ->
  tracks (refs_ e) (l ++ blocks (delete sid (outstanding_ (refs_ e)))).
Proof.
  intros [_ Ht Hi _] Hl. pose proof (blocks_delete _ sid _ Hl) as Hb.
  eapply tracks_perm; [exact Hb|]. constructor; try apply Ht. by apply (idle_min _ _ Ht).
Qed.

(** A header acknowledgement takes the oldest block of the stream. *)
Lemma onHeaderAck_ack e sid b rest :
  settled e -> outstanding_ (refs_ e) !! sid = Some (b :: rest) ->
  exists e', onHeaderAck e sid false = Some (NONE, e') /\
    acked_to e e' (Z.max (QPACKHeaderTable.ackedInsertCount_ (table_ e)) (maxInUseIndex b))
      (replaced (outstanding_ (refs_ e)) sid rest).
Proof.
  intros H Hl. pose proof H as [Hinv Ht Hi Hu]. pose proof (settled_tracks e sid _ H Hl) as Hts.
  pose proof (t_blocks _ _ Ht) as Hbl. rewrite Forall_forall in Hbl.
  destruct (Hbl b (blocks_elem _ sid _ b Hl ltac:(set_solver))) as [Hb1 Hb2].
  pose proof (inv_size _ Hinv). pose proof (inv_acked _ Hinv).
  unfold onHeaderAck. rewrite Hl. rewrite (proj2 (Z.eqb_neq (minInUseIndex b) UINT32_MAX)) by lia.
  set (r0 := with_counts _ _ _).
  assert (Hts0 : tracks r0 (b :: rest ++ blocks (delete sid (outstanding_ (refs_ e))))) by (by destruct Hts).
  destruct (remove_block r0 b _ Hts0) as (r1 & -> & Hts1 & (E1 & E2 & E3)).
  unfold mbind, option_bind.
  assert (Hset : exists tbl, QPACKHeaderTable.setAcknowledgedInsertCount (table_ e) (maxInUseIndex b) = Some tbl /\
    inv tbl /\ view tbl = view (table_ e) /\
    QPACKHeaderTable.trackReferences_ tbl = QPACKHeaderTable.trackReferences_ (table_ e) /\
    QPACKHeaderTable.ackedInsertCount_ tbl =
      Z.max (QPACKHeaderTable.ackedInsertCount_ (table_ e)) (maxInUseIndex b)).
  { unfold QPACKHeaderTable.setAcknowledgedInsertCount.
    destruct (Z.ltb_spec (maxInUseIndex b) (QPACKHeaderTable.ackedInsertCount_ (table_ e))).
    - eexists. split; [reflexivity|]. split_and!; try done. lia.
    - rewrite (proj2 (Z.leb_le _ _)) by lia. eexists. split; [reflexivity|].
      split; [apply (QPACKTableResults.inv_with (table_ e) (maxInUseIndex b) (QPACKHeaderTable.minInUseIndex_ (table_ e)) Hinv); lia|].
      split_and!; try done. simpl. lia. }
  destruct Hset as (tbl & -> & Hi' & Hv' & Htr' & Ha').
  set (r2 := with_outstanding r1 (replaced (outstanding_ r1) sid rest)).
  destruct (tracked_replaced (refs_ e) r2 (QPACKHeaderTable.insertCount_ (table_ e)) sid [b] rest Ht Hi Hl)
    as (Ht2 & Hi2 & _).
  { by destruct Hts1. } { done. } { simpl. by rewrite E1. } { simpl. by rewrite E3. }
  eexists. split; [reflexivity|].
  assert (Eo : outstanding_ r2 = replaced (outstanding_ (refs_ e)) sid rest) by (simpl; by rewrite E1).
  rewrite <- Eo. by apply (acked_to_intro e r2 tbl).
Qed.

(** A cancellation takes all of them. *)
Lemma onHeaderAck_cancel e sid :
  settled e ->
  exists e', onHeaderAck e sid true = Some (NONE, e') /\
    acked_to e e' (QPACKHeaderTable.ackedInsertCount_ (table_ e)) (delete sid (outstanding_ (refs_ e))).
Proof.
  intros H. pose proof H as [Hinv Ht Hi Hu]. unfold onHeaderAck.
  destruct (outstanding_ (refs_ e) !! sid) as [l|] eqn:Hl.
  2: { exists e. split; [done|]. rewrite (delete_none _ _ Hl). done. }
  pose proof (settled_tracks e sid _ H Hl) as Hts.
  destruct (cancelBlocks_spec l (refs_ e) _ Hts) as (r1 & -> & Hts1 & (E1 & E2 & E3)).
  unfold mbind, option_bind.
  set (r2 := with_outstanding (with_counts r1 (numVulnerable_ r1) (u32 (numOutstandingBlocks_ r1 - zlen l)))
               (delete sid (outstanding_ r1))).
  rewrite <- (app_nil_r l) in Hl.
  destruct (tracked_replaced (refs_ e) r2 (QPACKHeaderTable.insertCount_ (table_ e)) sid l [] Ht Hi Hl)
    as (Ht2 & Hi2 & _).
  { by destruct Hts1. } { done. } { simpl. by rewrite E1. } { simpl. by rewrite E3. }
  eexists. split; [reflexivity|].
  assert (Eo : outstanding_ r2 = delete sid (outstanding_ (refs_ e))) by (simpl; by rewrite E1).
  rewrite <- Eo. by apply (acked_to_intro e r2 (table_ e)).
Qed.

(** An increment within what was inserted. *)
Lemma onInsertCountIncrement_spec e n :
  settled e -> 1 <= n ->
  QPACKHeaderTable.ackedInsertCount_ (table_ e) + n <= QPACKHeaderTable.insertCount_ (table_ e) ->
  exists e', onInsertCountIncrement e n = Some (NONE, e') /\
    acked_to e e' (QPACKHeaderTable.ackedInsertCount_ (table_ e) + n) (outstanding_ (refs_ e)).
Proof.
  intros H Hn Ha. pose proof H as [Hinv Ht Hi Hu]. pose proof (inv_size _ Hinv).
  pose proof (inv_acked _ Hinv). pose proof (Ring.wf_size _ (inv_wf _ Hinv)).
  unfold onInsertCountIncrement, QPACKHeaderTable.onInsertCountIncrement.
  rewrite (proj2 (Z.eqb_neq n 0)) by lia. rewrite !Z.gtb_ltb, (proj2 (Z.ltb_ge _ n)) by lia.
  rewrite u32_id by (unfold_ints; lia). rewrite (proj2 (Z.ltb_ge _ _)) by lia. cbn [orb].
  rewrite u32_id by (unfold_ints; lia). rewrite (proj2 (Z.leb_le _ _)) by lia.
  unfold mbind, option_bind. eexists. split; [reflexivity|].
  split; [|split; [done|done]]. constructor; try done.
  apply (QPACKTableResults.inv_with (table_ e) (QPACKHeaderTable.ackedInsertCount_ (table_ e) + n) (QPACKHeaderTable.minInUseIndex_ (table_ e)) Hinv). lia.
Qed.

End QPACKTracking.
