(* ===== verification/QPACKEncoding.v ===== *)
(** * What the QPACK encoder writes

    [advance] is a step that may insert entries: the bytes it adds to the encoder
    stream are the instructions it carried out on its own table ([owes]), and what
    is in use or unacknowledged stays.  [mid] is the state inside a block: every
    reference made so far ([need]) is in the table, between the smallest and the
    largest index recorded for the block.  [encode_spec] puts the block together:
    the bytes are a prefix and the fields, in forms the decoder reads. *)

From stdpp Require Import gmap.
From S2P Require Import Prelude Huffman HPACKBuffers HeaderTable HPACKContext QPACKHeaderTable.
From S2P Require Import QPACKContext QPACKEncoder QPACKWire QPACKTables QPACKReads QPACKFeed.
From S2P Require Import QPACKTracking.

Module QPACKEncoding.
Import HPACK QPACK HPACKHeader HPACKHeaderName HeaderSpec QPACKRing QPACKStaticSpec Dyn TrackedTable.
Import Codes QPACKReads QPACKFeed QPACKTracking QPACKEncoder.
Module EB := HPACKEncodeBuffer.
Module QT := QPACKHeaderTable.

Section encoding.
Context `{CH : CommonHeaders}.

(** The largest literal and the largest table the peer admits. *)
Variables lim maxTable : Z.

Definition encodable (h : HPACKHeader.t) : Prop :=
  canonical (name h) /\ bytes_ok (name h) /\ bytes_ok (value h) /\ hsize h < 2 ^ 27 /\
  4 * hsize h <= lim.

(** ** The encoder between two steps *)

Record einv (e : t) : Prop := {
  e_inv : inv (table_ e);
  e_track : QT.trackReferences_ (table_ e) = true;
  e_fields : Forall encodable (fields (view (table_ e)));
  e_unacked : QT.insertCount_ (table_ e) - QT.ackedInsertCount_ (table_ e) <= QT.size_ (table_ e) }.

(** What a step leaves alone. *)
Definition same_other (e e' : t) : Prop :=
  streamBuffer_ e' = streamBuffer_ e /\ pendingContextUpdate_ e' = pendingContextUpdate_ e /\
  decoderIngress_ e' = decoderIngress_ e /\ refs_ e' = refs_ e /\ config_ e' = config_ e.

(** [e'] has carried out [l] and written them as [cb]. *)
Record advance (e e' : t) (cb : list Z) (l : list instr) : Prop := {
  a_einv : einv e';
  a_rest : same_other e e';
  a_control : controlBuffer_ e' = EB.push (controlBuffer_ e) cb;
  a_ok : bytes_ok cb;
  a_owes : owes lim maxTable (view (table_ e)) None cb l;
  a_view : view (table_ e') = replay (view (table_ e)) l;
  a_marks : same_marks (table_ e) (table_ e');
  a_keeps : keeps (table_ e) (table_ e') }.

Lemma push_nothing b : EB.push b [] = b.
Proof. destruct b. unfold EB.push. simpl. by rewrite app_nil_r. Qed.

Lemma advance_refl e : einv e -> advance e e [] [].
Proof.
  intros H. constructor; try done; [by rewrite push_nothing|constructor|constructor|apply keeps_refl].
Qed.

Lemma advance_trans e1 e2 e3 cb1 cb2 l1 l2 :
  advance e1 e2 cb1 l1 -> advance e2 e3 cb2 l2 -> advance e1 e3 (cb1 ++ cb2) (l1 ++ l2).
Proof.
  intros [H1 R1 C1 K1 O1 V1 M1 P1] [H2 R2 C2 K2 O2 V2 M2 P2]. constructor; try done.
  - unfold same_other in *. intuition congruence.
  - by rewrite C2, C1, EncodeSpec.push_push.
  - by apply Forall_app.
  - eapply owes_app; [done|]. by rewrite <- V1.
  - by rewrite V2, V1, replay_app.
  - by eapply same_marks_trans.
  - by eapply keeps_trans.
Qed.

(** Only counters of the context change. *)
Lemma advance_ctx e e' c cb l :
  QPACKContext.table_ c = QPACKContext.table_ (ctx e') -> advance e e' cb l ->
  advance e (with_ctx e' c) cb l.
Proof.
  intros Hc [H R C K O V M P]. assert (E : table_ (with_ctx e' c) = table_ e') by exact Hc.
  constructor; rewrite ?E; try done. destruct H. constructor; by rewrite E.
Qed.

(** ** Insertions *)

Lemma einv_size e : einv e -> 0 <= QT.size_ (table_ e) <= QT.insertCount_ (table_ e).
Proof.
  intros [H _ _ _]. pose proof (inv_size _ H). pose proof (Ring.wf_size _ (inv_wf _ H)). lia.
Qed.

(** The table after an insertion of [h]. *)
Definition inserted (e : t) (h : HPACKHeader.t) (s' : QT.t) : Prop :=
  inv s' /\ same_marks (table_ e) s' /\ view s' = apply (view (table_ e)) (IInsert h) /\
  keeps (table_ e) s'.

Lemma inserted_einv e e' h :
  einv e -> encodable h -> inserted e h (table_ e') -> einv e'.
Proof.
  intros He Hh (Hi & (Ha & _ & Ht & _) & Hv & Hk). pose proof (einv_size e He) as Hs.
  destruct He as [H Htr Hf Hu].
  assert (Hins : QT.insertCount_ (table_ e') = QT.insertCount_ (table_ e) + 1)
    by (change (ins (view (table_ e')) = ins (view (table_ e)) + 1); by rewrite Hv).
  constructor; [done|by rewrite Ht| |].
  - rewrite Hv. simpl. constructor; [done|].
    destruct (HeaderSpec.keep_prefix (cap (view (table_ e)) - hsize h) (fields (view (table_ e)))) as [r Er].
    rewrite Er in Hf. by apply Forall_app in Hf as [Hf _].
  - rewrite Hins, Ha. set (k := QT.ackedInsertCount_ (table_ e)) in *.
    pose proof (size_entries (table_ e') Hi) as Hz. unfold zlen in Hz.
    pose proof (inv_acked _ H) as Hac. fold k in Hac.
    destruct (decide (k = QT.insertCount_ (table_ e))) as [E|E].
    + assert (length (fields (view (table_ e'))) <> 0%nat) by (rewrite Hv; simpl; lia).
      change (fields (view (table_ e'))) with (entries (table_ e')) in *. lia.
    + assert (Hsome : is_Some (field (view (table_ e)) (k + 1))).
      { unfold field. simpl. rewrite (proj2 (Z.leb_le _ _)) by lia. apply lookup_lt_is_Some.
        pose proof (size_entries (table_ e) H) as Hz0. unfold zlen in Hz0. lia. }
      destruct Hsome as [f Hf']. apply Hk in Hf'; [|right; fold k; lia].
      unfold field in Hf'. simpl in Hf'. rewrite Hins, (proj2 (Z.leb_le _ _)) in Hf' by lia.
      apply lookup_lt_Some in Hf'. lia.
Qed.

Lemma advance_insert e e' h bytes :
  einv e -> encodable h -> inserted e h (table_ e') -> same_other e e' ->
  controlBuffer_ e' = EB.push (controlBuffer_ e) bytes -> bytes_ok bytes ->
  owes lim maxTable (view (table_ e)) None bytes [IInsert h] ->
  advance e e' bytes [IInsert h].
Proof.
  intros He Hh Hi Ho Hc Hb Hw. pose proof (inserted_einv e e' h He Hh Hi) as He'.
  destruct Hi as (_ & Hm & Hv & Hk). by constructor.
Qed.

(** Room for [n] more insertions. *)
Definition room (e : t) (n : Z) : Prop := QT.insertCount_ (table_ e) + n < 2 ^ 31.

Lemma ins_replay_le T l : ins (replay T l) <= ins T + zlen l.
Proof.
  revert T. induction l as [|x l IH]; intros T; unfold replay in *; cbn [foldl]; [unfold zlen; simpl; lia|].
  specialize (IH (apply T x)). pose proof (ins_apply T x). unfold zlen in *. cbn [length]. lia.
Qed.

Lemma advance_count e e' cb l :
  advance e e' cb l -> QT.insertCount_ (table_ e') <= QT.insertCount_ (table_ e) + zlen l.
Proof.
  intros H. change (ins (view (table_ e')) <= ins (view (table_ e)) + zlen l). rewrite (a_view _ _ _ _ H).
  apply ins_replay_le.
Qed.

Lemma advance_room e e' cb l n m :
  advance e e' cb l -> zlen l <= m -> room e (m + n) -> room e' n.
Proof. intros H Hl Hr. pose proof (advance_count _ _ _ _ H). unfold room in *. lia. Qed.

Lemma advance_allow e e' cb l : advance e e' cb l -> allowVulnerable e' = allowVulnerable e.
Proof. intros [_ (_ & _ & _ & Hr & Hc) _ _ _ _ _ _]. unfold allowVulnerable. by rewrite Hr, Hc. Qed.

Lemma advance_dynamic e e' cb l :
  advance e e' cb l -> dynamicReferenceAllowed e' = dynamicReferenceAllowed e.
Proof. intros [_ (_ & _ & _ & Hr & Hc) _ _ _ _ _ _]. unfold dynamicReferenceAllowed. by rewrite Hr, Hc. Qed.

(** The entry [i] holds [h], and may be referenced. *)
Definition avail (e : t) (i : Z) (h : HPACKHeader.t) : Prop :=
  field (view (table_ e)) i = Some h /\
  (QT.ackedInsertCount_ (table_ e) < i -> allowVulnerable e = true).

Lemma avail_range e i h : einv e -> avail e i h -> 1 <= i <= QT.insertCount_ (table_ e).
Proof. intros He [Hf _]. by apply (field_range _ _ h (e_inv e He)). Qed.

Lemma entry_encodable e k h : einv e -> entries (table_ e) !! k = Some h -> encodable h.
Proof. intros He Hl. exact (Forall_lookup_1 _ _ _ _ (e_fields e He) Hl). Qed.

(** ** Duplicates and names *)

Lemma maybeDuplicate_ok e r h :
  einv e -> room e 1 -> 1 <= r <= QT.size_ (table_ e) ->
  entries (table_ e) !! Z.to_nat (r - 1) = Some h ->
  (allowVulnerable e = true \/
   QT.insertCount_ (table_ e) - r + 1 <= QT.ackedInsertCount_ (table_ e)) ->
  exists dup i e' cb l, maybeDuplicate e r = Some ((dup, i), e') /\ advance e e' cb l /\
    zlen l <= 1 /\ (i <> 0 -> avail e' i h).
Proof.
  intros He Hroom Hr Hl Hav. pose proof (einv_size e He) as Hs. pose proof (entry_encodable e _ h He Hl) as Hh.
  unfold room in Hroom.
  destruct (maybeDuplicate_spec (table_ e) r h (allowVulnerable e) (e_inv e He) (e_track e He))
    as (dup & i & s' & HM & Hi' & Hm & Hk & Hv & Hc & Hf); [unfold_ints; lia|lia|done|].
  unfold maybeDuplicate. rewrite HM. unfold mbind at 1, option_bind at 1. destruct dup; cbn [fst].
  - unfold encodeDuplicate, HPACKEncodeBuffer.encodeInteger_instr.
    assert (Hp : Wire.pattern 0 5) by solve_pattern.
    rewrite (u32_id (r - 1)) by (unfold_ints; lia).
    change (code Q_DUPLICATE) with 0x00. change (prefixLength Q_DUPLICATE) with 5.
    rewrite EncodeSpec.encodeInteger_spec by (done || unfold_ints; lia).
    unfold mbind, option_bind.
    set (e1 := spend _ _ _).
    assert (Ha : advance e e1 (Wire.enc_int (r - 1) 0 5) [IInsert h]).
    { apply advance_insert; try done; [apply Wire.enc_int_ok; [done|unfold_ints; lia]|].
      rewrite <- (app_nil_r (Wire.enc_int _ _ _)).
      apply owes_dup; [lia|done|apply Hh|by apply Hc|constructor]. }
    destruct (lastEntryAvailable e1).
    + exists true, i, e1, (Wire.enc_int (r - 1) 0 5), [IInsert h]. split; [reflexivity|]. split; [exact Ha|].
      split; [by unfold zlen|]. intros Hi. destruct (Hf Hi) as (Hf1 & Hav' & _).
      split; [done|]. intros _. by apply Hav'.
    + exists true, 0, e1, (Wire.enc_int (r - 1) 0 5), [IInsert h]. split; [reflexivity|]. split; [exact Ha|]. split; [by unfold zlen|done].
  - exists false, i, (with_table e s'), [], []. split; [reflexivity|]. split.
    { constructor; try done; [|by rewrite push_nothing|constructor|constructor].
      destruct He as [H1 H2 H3 H4]. destruct Hm as (M1 & M2 & M3 & M4).
      constructor; [done|by rewrite <- H2|by change (table_ (with_table e s')) with s'; rewrite Hv|].
      change (table_ (with_table e s')) with s'.
      pose proof (size_entries (table_ e) H1). pose proof (size_entries s' Hi').
      change (entries s') with (fields (view s')) in *. rewrite Hv in *.
      change (QT.insertCount_ s') with (ins (view s')). rewrite Hv, M1. simpl in *. lia. }
    split; [by unfold zlen|]. intros Hi. destruct (Hf Hi) as (Hf1 & _ & Hf3).
    split; [done|]. specialize (Hf3 eq_refl). destruct Hav as [Hav|Hav]; [done|].
    destruct Hm as (M1 & _). change (table_ (with_table e s')) with s'. rewrite M1, Hf3. lia.
Qed.

(** A name that can be referred to: not at all, in the static table, or in the
    dynamic one. *)
Inductive name_ref (e : t) (n : list Z) : bool -> Z -> Z -> Prop :=
| ref_none : name_ref e n true 0 0
| ref_static j v : static_field j = Some (HPACKHeader.mk n v) -> name_ref e n true j 0
| ref_dynamic j i f :
    avail e i f -> name f = n -> dynamicReferenceAllowed e = true -> name_ref e n false j i.

(** [j] is relative to the newest entry. *)
Definition relative (e : t) (st : bool) (j a : Z) : Prop :=
  st = false -> j = QT.insertCount_ (table_ e) - a + 1.

Lemma getNameIndexQ_ok e n :
  einv e -> room e 1 ->
  exists st j a e' cb l, getNameIndexQ e n = Some ((st, j, a), e') /\ advance e e' cb l /\
    zlen l <= 1 /\ name_ref e' n st j a /\ relative e' st j a.
Proof.
  intros He Hroom. pose proof (advance_refl e He) as Hrefl. unfold getNameIndexQ.
  destruct (q_static_nameIndex n) as (j & -> & Hj & HjS). unfold mbind at 1, option_bind at 1.
  destruct (Z.eqb_spec j 0) as [->|Hj0].
  2: { destruct (HjS Hj0) as [v Hv]. cbn [andb]. exists true, j, 0, e, [], [].
       split_and!; [reflexivity|exact Hrefl|by unfold zlen|by apply (ref_static e n j v)|done]. }
  cbn [andb]. assert (Hnone : exists cb l, advance e e cb l /\ zlen l <= 1 /\ name_ref e n true 0 0 /\ relative e true 0 0)
    by (exists [], []; split_and!; [exact Hrefl|by unfold zlen|constructor|done]).
  destruct (dynamicReferenceAllowed e) eqn:Hd.
  2: { destruct Hnone as (cb & l & Hn). exists true, 0, 0, e, cb, l. split; [reflexivity|exact Hn]. }
  unfold QT.nameIndex.
  destruct (lookup_spec (table_ e) n [] true (allowVulnerable e) (e_inv e He) (e_track e He))
    as (r & -> & Hr). unfold mbind at 1, option_bind at 1.
  destruct (Z.eqb_spec r 0) as [->|Hr0]; cbn [negb].
  { destruct Hnone as (cb & l & Hn). exists true, 0, 0, e, cb, l. split; [reflexivity|exact Hn]. }
  destruct Hr as [Hr|[->|(Hr & h & Hl & Hnm & _ & Hav)]]; [done| |].
  { assert (HM : maybeDuplicate e QT.UNACKED = Some ((false, 0), e))
      by (unfold maybeDuplicate, QT.maybeDuplicate; rewrite Z.eqb_refl; by destruct e, ctx0).
    rewrite HM. destruct Hnone as (cb & l & Hn). exists true, 0, 0, e, cb, l. split; [reflexivity|exact Hn]. }
  destruct (maybeDuplicate_ok e r h He Hroom Hr Hl Hav) as (dup & i & e' & cb & l & -> & Ha & Hz & Hi).
  unfold mbind at 1, option_bind at 1. unfold truth. destruct (Z.eqb_spec i 0) as [->|Hi0]; cbn [negb].
  { exists true, 0, 0, e', cb, l. split_and!; [reflexivity|done|done|constructor|done]. }
  pose proof (avail_range e' i h (a_einv _ _ _ _ Ha) (Hi Hi0)) as Hir.
  pose proof (advance_count _ _ _ _ Ha). unfold room in Hroom.
  unfold QT.absoluteToRelative. rewrite (proj2 (Z.leb_le _ _)) by lia. unfold mbind, option_bind.
  rewrite u32_id by (unfold_ints; lia).
  eexists false, _, i, e', cb, l. split; [reflexivity|]. split; [done|]. split; [done|].
  split; [|done]. apply (ref_dynamic e' n _ i h); [by apply Hi|done|]. by rewrite (advance_dynamic _ _ _ _ Ha).
Qed.

(** ** Literals *)

Lemma value_written b v :
  bytes_ok v -> zlen v < 2 ^ 27 ->
  exists vb, EB.encodeLiteral b v = Some (zlen vb, EB.push b vb) /\
    codes DB.decodeLiteral (4 * zlen v) vb v /\ zlen vb <= 11 + 4 * zlen v.
Proof.
  intros Hv Hz. destruct (codes_literal b 0 7 v ltac:(lia) ltac:(solve_pattern) Hv Hz)
    as (vb & HE & HC & HL & _). by exists vb.
Qed.

(** With a reference to the name. *)
Lemma helper_indexed c b n v st j flag idx lit byte :
  1 <= j < 2 ^ 31 -> (if st : bool then Z.lor (code idx) flag else code idx) = byte ->
  Wire.pattern byte (prefixLength idx) -> bytes_ok v -> zlen v < 2 ^ 27 ->
  exists vb c' k, encodeLiteralQHelper c b n v st j flag idx lit =
      Some (k, c', EB.push b (Wire.enc_int (j - 1) byte (prefixLength idx) ++ vb)) /\
    QPACKContext.table_ c' = QPACKContext.table_ c /\ codes DB.decodeLiteral (4 * zlen v) vb v /\
    zlen vb <= 11 + 4 * zlen v.
Proof.
  intros Hj <- Hp Hv Hz. unfold encodeLiteralQHelper, truth.
  rewrite (proj2 (Z.eqb_neq j 0)) by lia. cbn [negb]. rewrite u32_id by (unfold_ints; lia).
  rewrite EncodeSpec.encodeInteger_spec by (done || unfold_ints; lia). unfold mbind, option_bind.
  destruct (value_written (EB.push b (Wire.enc_int (j - 1)
    (if st then Z.lor (code idx) flag else code idx) (prefixLength idx))) v Hv Hz) as (vb & -> & HC & HL).
  eexists vb, _, _. rewrite EncodeSpec.push_push. split; [reflexivity|]. split; [by destruct st|done].
Qed.

(** With the name itself. *)
Lemma helper_literal c b n v st flag idx lit :
  1 <= prefixLength lit <= 7 -> Wire.pattern (code lit) (prefixLength lit + 1) ->
  bytes_ok n -> zlen n < 2 ^ 27 -> bytes_ok v -> zlen v < 2 ^ 27 ->
  exists x nl vb k, encodeLiteralQHelper c b n v st 0 flag idx lit =
      Some (k, c, EB.push b ((code lit + x :: nl) ++ vb)) /\
    0 <= x < 2 ^ (prefixLength lit + 1) /\
    codes (DB.decodeLiteral_at (prefixLength lit)) (4 * zlen n) (code lit + x :: nl) n /\
    codes DB.decodeLiteral (4 * zlen v) vb v /\
    zlen ((code lit + x :: nl) ++ vb) <= 22 + 4 * (zlen n + zlen v).
Proof.
  intros Hl Hp Hn Hnz Hv Hz. unfold encodeLiteralQHelper, truth. cbn [Z.eqb negb].
  destruct (codes_literal b (code lit) (prefixLength lit) n Hl Hp Hn Hnz)
    as (nb & -> & HC & HNL & x & nl & -> & Hx). unfold mbind, option_bind.
  destruct (value_written (EB.push b (code lit + x :: nl)) v Hv Hz) as (vb & -> & HV & HL).
  eexists x, nl, vb, _. rewrite EncodeSpec.push_push. split; [reflexivity|].
  split; [exact Hx|]. split; [done|]. split; [done|]. rewrite zlen_app. lia.
Qed.

Lemma encodable_literals h :
  encodable h -> bytes_ok (name h) /\ zlen (name h) < 2 ^ 27 /\ bytes_ok (value h) /\
  zlen (value h) < 2 ^ 27 /\ 4 * zlen (name h) <= lim /\ 4 * zlen (value h) <= lim.
Proof.
  intros (_ & Hn & Hv & Hz & Hl). pose proof (zlen_nonneg (name h)). pose proof (zlen_nonneg (value h)).
  unfold hsize in *. split_and!; try done; lia.
Qed.

(** An insertion on the encoder stream. *)
Lemma encodeInsertQ_ok e h st j a :
  einv e -> encodable h -> room e 1 -> hsize h <= QT.capacity_ (table_ e) ->
  name_ref e (name h) st j a -> relative e st j a ->
  exists e' bytes, encodeInsertQ e (name h) (value h) st j = Some e' /\
    table_ e' = table_ e /\ same_other e e' /\ controlBuffer_ e' = EB.push (controlBuffer_ e) bytes /\
    bytes_ok bytes /\ owes lim maxTable (view (table_ e)) None bytes [IInsert h].
Proof.
  intros He Hh Hroom Hcap Href Hrel. pose proof (encodable_literals h Hh) as (Hn & Hnz & Hv & Hvz & Hnl & Hvl).
  assert (Hend : forall vb nb, name_form lim (view (table_ e)) nb (name h) -> bytes_ok nb ->
    codes DB.decodeLiteral (4 * zlen (value h)) vb (value h) ->
    bytes_ok (nb ++ vb) /\ owes lim maxTable (view (table_ e)) None (nb ++ vb) [IInsert h]).
  { intros vb nb Hnf Hnb HC. split; [apply Forall_app; split; [done|by apply (codes_ok _ _ _ _ HC)]|].
    eapply owes_name; [done|]. rewrite <- (app_nil_r vb). destruct h as [hn hv].
    apply owes_value; [done|done|done|constructor]. }
  unfold encodeInsertQ. assert (Hidx : forall byte, (if st then Z.lor (code Q_INSERT_NAME_REF)
      Q_INSERT_NAME_REF_STATIC else code Q_INSERT_NAME_REF) = byte -> 1 <= j < 2 ^ 31 ->
      name_form lim (view (table_ e)) (Wire.enc_int (j - 1) byte 6) (name h) ->
      Wire.pattern byte 6 -> exists e' bytes,
      encodeInsertQ e (name h) (value h) st j = Some e' /\
      table_ e' = table_ e /\ same_other e e' /\ controlBuffer_ e' = EB.push (controlBuffer_ e) bytes /\
      bytes_ok bytes /\ owes lim maxTable (view (table_ e)) None bytes [IInsert h]).
  { intros byte Eb Hj Hnf Hp. unfold encodeInsertQ.
    destruct (helper_indexed (ctx e) (controlBuffer_ e) (name h) (value h) st j
      Q_INSERT_NAME_REF_STATIC Q_INSERT_NAME_REF Q_INSERT_NO_NAME_REF byte Hj Eb Hp Hv Hvz)
      as (vb & c' & k & -> & Hc & HC & _). unfold mbind, option_bind. eexists _, _. split; [reflexivity|].
    destruct (Hend vb _ Hnf ltac:(apply Wire.enc_int_ok; [done|unfold_ints; lia]) HC) as [Hok How].
    split_and!; try done. }
  destruct Href as [|j v Hst|j i f Hav Hnm Hdyn].
  - destruct (helper_literal (ctx e) (controlBuffer_ e) (name h) (value h) true
      Q_INSERT_NAME_REF_STATIC Q_INSERT_NAME_REF Q_INSERT_NO_NAME_REF ltac:(simpl; lia)
      ltac:(simpl; solve_pattern) Hn Hnz Hv Hvz) as (x & nl & vb & k & -> & Hx & HN & HC & _).
    unfold mbind, option_bind. eexists _, _. split; [reflexivity|].
    destruct (Hend vb (0x40 + x :: nl)) as [Hok How]; [|by apply (codes_ok _ _ _ _ HN)|done|by split_and!].
    apply name_literal; [done|done|exact Hx|apply Hh].
  - apply (Hidx 0xC0); [done| | |solve_pattern].
    + apply static_field_range in Hst. unfold QPACKStaticHeaderTable.kEntriesSize in Hst. lia.
    + exact (name_static lim (view (table_ e)) j _ Hst).
  - pose proof (avail_range e i f He Hav) as Hir. unfold room in Hroom. specialize (Hrel eq_refl).
    apply (Hidx 0x80); [done|lia| |solve_pattern]. rewrite <- Hnm. apply name_dynamic; [lia|].
    destruct Hav as [Hf _]. unfold field in Hf. simpl in Hf. rewrite (proj2 (Z.leb_le _ _)) in Hf by lia.
    simpl. rewrite <- Hf. f_equal. lia.
Qed.

(** ** Lookups and insertions of fields *)

Lemma shouldIndex_fits e h :
  encodable h -> shouldIndex e (name h) (value h) = true ->
  hsize h <= QT.capacity_ (table_ e) /\ dynamicReferenceAllowed e = true.
Proof.
  intros Hh Hs. unfold shouldIndex in Hs. apply andb_prop in Hs as [[Hb _]%andb_prop Hd].
  split; [|done]. apply Z.leb_le in Hb.
  assert (E : HPACKHeader.bytes_of (u32 (zlen (name h))) (zlen (value h)) = hsize h).
  { destruct Hh as (_ & _ & _ & Hz & _). apply (bytes_exact h). unfold_ints. lia. }
  by rewrite E in Hb.
Qed.

(** A reference to the dynamic table that may be made. *)
Definition indexed (e : t) (i : Z) (h : HPACKHeader.t) : Prop :=
  avail e i h /\ dynamicReferenceAllowed e = true.

(** An insertion that may be made. *)
Definition insertable (e : t) (h : HPACKHeader.t) (indexable : bool) : Prop :=
  indexable = true -> hsize h <= QT.capacity_ (table_ e) /\ dynamicReferenceAllowed e = true.

Lemma insertable_advance e e' cb l h ix : advance e e' cb l -> insertable e h ix -> insertable e' h ix.
Proof.
  intros Ha Hi E. destruct (Hi E) as [Hc Hd]. rewrite (advance_dynamic _ _ _ _ Ha).
  destruct (a_marks _ _ _ _ Ha) as (_ & _ & _ & Hcap). by rewrite Hcap.
Qed.

Lemma lookupQ_ok e h :
  einv e -> encodable h -> room e 1 ->
  exists i ix e' cb l, lookupQ e (name h) (value h) = Some (i, ix, e') /\ advance e e' cb l /\
    zlen l <= 1 /\ (i <> 0 -> indexed e' i h) /\ insertable e' h ix.
Proof.
  intros He Hh Hroom. pose proof (advance_refl e He) as Hrefl. unfold lookupQ.
  destruct (shouldIndex e (name h) (value h)) eqn:Hs.
  2: { exists 0, false, e, [], []. split; [reflexivity|]. split; [done|]. by split; [unfold zlen|]. }
  destruct (shouldIndex_fits e h Hh Hs) as [Hc Hd]. unfold QT.getIndex.
  destruct (lookup_spec (table_ e) (name h) (value h) false (allowVulnerable e) (e_inv e He) (e_track e He))
    as (r & -> & Hr). unfold mbind, option_bind.
  destruct (Z.eqb_spec r QT.UNACKED) as [->|Hru].
  { exists 0, false, e, [], []. split; [reflexivity|]. split; [done|]. by split; [unfold zlen|]. }
  destruct (Z.eqb_spec r 0) as [->|Hr0]; cbn [negb].
  { exists 0, true, e, [], []. split; [reflexivity|]. split; [done|]. by split; [unfold zlen|]. }
  destruct Hr as [Hr|[Hr|(Hr & f & Hl & Hnm & Hvl & Hav)]]; [done|done|].
  assert (f = h) as -> by (destruct f, h; simpl in *; by rewrite Hnm, Hvl).
  destruct (maybeDuplicate_ok e r h He Hroom Hr Hl Hav) as (dup & i & e' & cb & l & -> & Ha & Hz & Hi).
  eexists i, _, e', cb, l. split; [reflexivity|]. split; [done|]. split; [done|].
  split; [intros Hi0; split; [by apply Hi|by rewrite (advance_dynamic _ _ _ _ Ha)]|].
  intros _. destruct (a_marks _ _ _ _ Ha) as (_ & _ & _ & Hcap).
  by rewrite Hcap, (advance_dynamic _ _ _ _ Ha).
Qed.

Lemma field_newest T h : field (apply T (IInsert h)) (ins T + 1) = Some h.
Proof. unfold field. simpl. by rewrite Z.leb_refl, Z.sub_diag. Qed.

(** [table_.add] of a field that [canIndex] admits and [encodeInsertQ] wrote. *)
Lemma encoder_add_ok e h st j a :
  einv e -> encodable h -> room e 1 -> hsize h <= QT.capacity_ (table_ e) ->
  name_ref e (name h) st j a -> relative e st j a ->
  QT.canIndex (table_ e) (name h) (value h) = Some true ->
  exists e1 s' cb, encodeInsertQ e (name h) (value h) st j = Some e1 /\
    QT.add (table_ e1) (HPACKHeader.mk (name h) (value h)) = Some (true, s') /\
    advance e (with_table e1 s') cb [IInsert h].
Proof.
  intros He Hh Hroom Hc Href Hrel HC.
  destruct (encodeInsertQ_ok e h st j a He Hh Hroom Hc Href Hrel)
    as (e1 & cb & HE & Ht & Ho & Hcb & Hok & How).
  destruct (tracked_insert (table_ e) h (e_inv e He) (e_track e He) ltac:(unfold room in Hroom; unfold_ints; lia)
    Hc HC) as (s' & HA & Hi' & Hm & Hv & Hk).
  exists e1, s', cb. split; [done|]. rewrite Ht. split; [by destruct h|].
  apply advance_insert; try done.
Qed.

(** The name reference after an insertion that may have evicted it. *)
Lemma still_valid e e' cb h n j a f :
  einv e -> room e 1 -> advance e e' cb [IInsert h] -> avail e a f -> name f = n ->
  dynamicReferenceAllowed e = true ->
  exists r, QT.absoluteToRelative (table_ e') a = Some r /\
    (QT.isValid (table_ e') r 0 = true -> name_ref e' n false j a).
Proof.
  intros He Hroom Ha Hav Hn Hd. pose proof (a_einv _ _ _ _ Ha) as He'.
  pose proof (avail_range e a f He Hav) as Hr. unfold room in Hroom. pose proof (einv_size e' He') as Hs'.
  assert (Hins : QT.insertCount_ (table_ e') = QT.insertCount_ (table_ e) + 1)
    by (change (ins (view (table_ e')) = ins (view (table_ e)) + 1); by rewrite (a_view _ _ _ _ Ha)).
  unfold QT.absoluteToRelative. rewrite (proj2 (Z.leb_le _ _)) by lia.
  rewrite u32_id by (unfold_ints; lia). eexists. split; [reflexivity|]. intros Hval.
  unfold QT.isValid in Hval. change (0 >? 0) with false in Hval.
  rewrite u32_id in Hval by (unfold_ints; lia). unfold HeaderTable.isValid in Hval.
  apply andb_prop in Hval as [_ Hval%Z.leb_le].
  assert (Hsome : is_Some (field (view (table_ e')) a)).
  { unfold field. simpl. rewrite (proj2 (Z.leb_le _ _)) by lia. apply lookup_lt_is_Some.
    pose proof (size_entries (table_ e') (e_inv e' He')) as Hz. unfold zlen in Hz. lia. }
  destruct Hsome as [f' Hf']. pose proof Hf' as Hb. rewrite (a_view _ _ _ _ Ha) in Hb.
  apply (field_back [IInsert h]) in Hb; [|simpl; lia]. destruct Hav as [Hf Hallow].
  assert (f' = f) as -> by congruence. apply (ref_dynamic e' n j a f); [|done|].
  - split; [done|]. destruct (a_marks _ _ _ _ Ha) as (-> & _). by rewrite (advance_allow _ _ _ _ Ha).
  - by rewrite (advance_dynamic _ _ _ _ Ha).
Qed.

Lemma with_ctx_same e : with_ctx e (ctx e) = e.
Proof. by destruct e. Qed.

(** What [insertQ] leaves for the block: a reference to the new entry, or a literal
    with a reference to its name. *)
Lemma insertQ_ok e h ix :
  einv e -> encodable h -> room e 2 -> insertable e h ix ->
  exists i st j a e' cb l, insertQ e (name h) (value h) ix = Some (i, name h, st, j, a, e') /\
    advance e e' cb l /\ zlen l <= 2 /\
    (i <> 0 -> indexed e' i h) /\ (i = 0 -> name_ref e' (name h) st j a).
Proof.
  intros He Hh Hroom Hix.
  destruct (getNameIndexQ_ok e (name h) He ltac:(unfold room in *; lia))
    as (st & j & a & e1 & cb1 & l1 & HN & A1 & Hz1 & Href & Hrel).
  unfold insertQ. rewrite HN. clear HN. unfold mbind at 1, option_bind at 1.
  assert (Hstay : forall c, QPACKContext.table_ c = QPACKContext.table_ (ctx e1) ->
     exists i st' j' a' e' cb l, Some (0, name h, st, j, a, with_ctx e1 c) =
       Some (i, name h, st', j', a', e') /\ advance e e' cb l /\ zlen l <= 2 /\
      (i <> 0 -> indexed e' i h) /\ (i = 0 -> name_ref e' (name h) st' j' a')).
  { intros c Hc. exists 0, st, j, a, (with_ctx e1 c), cb1, l1. split; [done|].
    split; [by apply advance_ctx|]. split; [lia|]. split; [done|]. intros _.
    destruct Href as [|j0 v Hst|j0 i f Hav Hnm Hd]; [constructor|by apply (ref_static _ _ j0 v)|].
    apply (ref_dynamic _ _ _ i f); [|done|done]. destruct Hav as [Hf Hal].
    assert (E : table_ (with_ctx e1 c) = table_ e1) by exact Hc. split; by rewrite E. }
  destruct ix; cbn [andb].
  2: { specialize (Hstay (ctx e1) eq_refl). rewrite with_ctx_same in Hstay. exact Hstay. }
  destruct (maxEncoderStreamBytes_ e1 >? 0).
  2: { specialize (Hstay (ctx e1) eq_refl). rewrite with_ctx_same in Hstay. exact Hstay. }
  pose proof (a_einv _ _ _ _ A1) as He1. assert (Hroom1 : room e1 1) by (by eapply advance_room).
  destruct (insertable_advance _ _ _ _ _ _ A1 Hix eq_refl) as [Hcap Hdyn].
  destruct (canIndex_total (table_ e1) h (e_inv e1 He1) Hcap) as ([] & HC & _); rewrite HC;
    unfold mbind at 1, option_bind at 1; [|by apply Hstay].
  destruct (encoder_add_ok e1 h st j a He1 Hh Hroom1 Hcap Href Hrel HC) as (e2 & s' & cb2 & HE & HA & A2).
  rewrite HE. unfold mbind at 1, option_bind at 1. rewrite HA. clear HE HA. unfold mbind at 1, option_bind at 1.
  cbn [negb]. set (e3 := with_table e2 s') in *. pose proof (advance_trans _ _ _ _ _ _ _ A1 A2) as A3.
  pose proof (a_einv _ _ _ _ A3) as He3.
  assert (Hz3 : zlen (l1 ++ [IInsert h]) <= 2) by (rewrite zlen_app; unfold zlen in *; simpl; lia).
  assert (Hins : ins (view (table_ e3)) = ins (view (table_ e1)) + 1)
    by (by rewrite (a_view _ _ _ _ A2)).
  assert (Hnew : field (view (table_ e3)) (QPACKContext.getInsertCount (ctx e3)) = Some h).
  { change (QPACKContext.getInsertCount (ctx e3)) with (ins (view (table_ e3))). rewrite Hins.
    rewrite (a_view _ _ _ _ A2). apply field_newest. }
  destruct (allowVulnerable e3 && lastEntryAvailable e3) eqn:Hal.
  { apply andb_prop in Hal as [Hal _].
    eexists _, st, j, a, e3, _, _. split; [reflexivity|]. split; [exact A3|]. split; [done|].
    pose proof (einv_size e1 He1). split.
    - intros _. split; [by split|]. by rewrite (advance_dynamic _ _ _ _ A2).
    - intros Hz. change (QPACKContext.getInsertCount (ctx e3)) with (ins (view (table_ e3))) in Hz.
      rewrite Hins in Hz. simpl in Hz. lia. }
  assert (Hget : QPACKContext.getHeader (ctx e3) false 1 (QPACKContext.getInsertCount (ctx e3)) false =
    Some (h, ctx e3)).
  { unfold QPACKContext.getHeader. pose proof (table_getHeader_field (table_ e3) _
      (QPACKContext.getInsertCount (ctx e3)) h (e_inv e3 He3) Hnew) as HG.
    rewrite Z.sub_diag in HG. change (QPACKContext.table_ (ctx e3)) with (table_ e3).
    change (0 + 1) with 1 in HG. rewrite HG; [done|]. split; [lia|].
    change (QPACKContext.getInsertCount (ctx e3)) with (ins (view (table_ e3))). rewrite Hins.
    unfold room in Hroom1. simpl. lia. }
  rewrite Hget. unfold mbind at 1, option_bind at 1.
  rewrite with_ctx_same.
  destruct (Z.gtb_spec a 0) as [Ha0|Ha0].
  - destruct Href as [|j v Hst|j i f Hav Hnm Hd]; [lia|lia|].
    destruct (still_valid e1 e3 cb2 h (name h) j i f He1 Hroom1 A2 Hav Hnm Hd) as (r & -> & Hv).
    unfold mbind, option_bind. destruct (QT.isValid (table_ e3) r 0).
    + eexists 0, false, j, i, e3, _, _. split; [reflexivity|]. split; [exact A3|]. split; [done|].
      split; [done|]. intros _. by apply Hv.
    + eexists 0, true, 0, 0, e3, _, _. split; [reflexivity|]. split; [exact A3|]. split; [done|].
      split; [done|]. intros _. constructor.
  - unfold mbind, option_bind. eexists 0, st, j, a, e3, _, _. split; [reflexivity|].
    split; [exact A3|]. split; [done|]. split; [done|]. intros _.
    destruct Href as [|j v Hst|j i f Hav Hnm Hd]; [constructor|by apply (ref_static _ _ j v)|].
    pose proof (avail_range e1 i f He1 Hav). lia.
Qed.

(** ** Inside a block *)

(** The references [need] were made; the largest is [ric]. *)
Record mid (e : t) (base ric : Z) (need : list (Z * HPACKHeader.t)) : Prop := {
  m_einv : einv e;
  m_tracked : tracked (refs_ e) (QT.insertCount_ (table_ e));
  m_inUse : QT.minInUseIndex_ (table_ e) = minOutstandingMin_ (refs_ e);
  m_base : QT.ackedInsertCount_ (table_ e) <= base <= QT.insertCount_ (table_ e);
  m_none : need = [] -> ric = 0 /\ curOutstanding_ (refs_ e) = no_references;
  m_some : need <> [] -> block_ok (QT.insertCount_ (table_ e)) (curOutstanding_ (refs_ e)) /\
    maxInUseIndex (curOutstanding_ (refs_ e)) = ric /\ dynamicReferenceAllowed e = true /\
    exists f, (ric, f) ∈ need;
  m_need i f : (i, f) ∈ need -> minInUseIndex (curOutstanding_ (refs_ e)) <= i <= ric /\
    field (view (table_ e)) i = Some f;
  m_vulnerable : QT.ackedInsertCount_ (table_ e) < ric -> vulnerable (curOutstanding_ (refs_ e)) = true;
  m_allowed : vulnerable (curOutstanding_ (refs_ e)) = true -> allowVulnerable e = true }.

(** From [e] to [e'], within a block. *)
Record during (e e' : t) (cb : list Z) (l : list instr) : Prop := {
  d_control : controlBuffer_ e' = EB.push (controlBuffer_ e) cb;
  d_ok : bytes_ok cb;
  d_owes : owes lim maxTable (view (table_ e)) None cb l;
  d_view : view (table_ e') = replay (view (table_ e)) l;
  d_config : config_ e' = config_ e;
  d_pending : pendingContextUpdate_ e' = pendingContextUpdate_ e;
  d_ingress : decoderIngress_ e' = decoderIngress_ e;
  d_outstanding : outstanding_ (refs_ e') = outstanding_ (refs_ e);
  d_acked : QT.ackedInsertCount_ (table_ e') = QT.ackedInsertCount_ (table_ e);
  d_capacity : QT.capacity_ (table_ e') = QT.capacity_ (table_ e);
  d_min : QT.minInUseIndex_ (table_ e') <= QT.minInUseIndex_ (table_ e);
  d_keeps : keeps (table_ e) (table_ e') }.

Lemma during_trans e1 e2 e3 cb1 cb2 l1 l2 :
  during e1 e2 cb1 l1 -> during e2 e3 cb2 l2 -> during e1 e3 (cb1 ++ cb2) (l1 ++ l2).
Proof.
  intros [C1 K1 O1 V1 F1 P1 I1 U1 A1 W1 M1 E1] [C2 K2 O2 V2 F2 P2 I2 U2 A2 W2 M2 E2].
  constructor; try congruence; try lia.
  - by rewrite C2, C1, EncodeSpec.push_push.
  - by apply Forall_app.
  - eapply owes_app; [done|]. by rewrite <- V1.
  - by rewrite V2, V1, replay_app.
  - intros i h Hi Hf. apply E2; [|by apply E1]. rewrite A1. lia.
Qed.

Lemma during_advance e e' cb l : advance e e' cb l -> during e e' cb l.
Proof.
  intros [H (R1 & R2 & R3 & R4 & R5) C K O V (M1 & M2 & M3 & M4) P]. constructor; try done; [by rewrite R4|lia].
Qed.

Lemma mid_advance e e' base ric need cb l :
  mid e base ric need -> advance e e' cb l -> mid e' base ric need.
Proof.
  intros H A. pose proof (a_marks _ _ _ _ A) as (M1 & M2 & _ & _).
  pose proof (a_rest _ _ _ _ A) as (_ & _ & _ & R & _).
  assert (Hi : QT.insertCount_ (table_ e) <= QT.insertCount_ (table_ e')).
  { change (ins (view (table_ e)) <= ins (view (table_ e'))). rewrite (a_view _ _ _ _ A). apply ins_replay. }
  assert (Hmin : minOutstandingMin_ (refs_ e) <= minInUseIndex (curOutstanding_ (refs_ e)))
    by (rewrite (t_min _ _ (m_tracked _ _ _ _ H)); lia).
  destruct H as [H1 H2 H3 H4 H5 H6 H7 H8 H9]. constructor.
  - apply A.
  - rewrite R. by apply (tracked_mono _ (QT.insertCount_ (table_ e))).
  - by rewrite R, M2.
  - rewrite M1. lia.
  - by rewrite R.
  - intros Hn. destruct (H6 Hn) as ([] & ? & ? & ?). rewrite R, (advance_dynamic _ _ _ _ A).
    split_and!; try done. split; [done|lia].
  - intros i f Hif. rewrite R. destruct (H7 i f Hif) as [Hr Hf]. split; [done|].
    apply (a_keeps _ _ _ _ A); [left; lia|done].
  - rewrite M1, R. done.
  - rewrite R, (advance_allow _ _ _ _ A). done.
Qed.

(** The state after a reference to [i]. *)
Definition noted (e : t) (i ric : Z) : t :=
  let r := refs_ e in
  let cur := curOutstanding_ r in
  let m := Z.min (minOutstandingMin_ r) i in
  with_table
    (with_refs e (mkRefs (outstanding_ r) (outstandingMins_ r) m
       (mkBlock (Z.min (minInUseIndex cur) i) (Z.max ric i)
          ((ric <? i) && QT.isVulnerable (table_ e) i || vulnerable cur))
       (numVulnerable_ r) (numOutstandingBlocks_ r)))
    (QT.setMinInUseIndex (table_ e) m).

Lemma trackReference_eq e i ric :
  1 <= i -> maxInUseIndex (curOutstanding_ (refs_ e)) = ric ->
  QT.minInUseIndex_ (table_ e) = minOutstandingMin_ (refs_ e) ->
  minOutstandingMin_ (refs_ e) <= minInUseIndex (curOutstanding_ (refs_ e)) ->
  trackReference e i ric = Some (Z.max ric i, noted e i ric).
Proof.
  intros Hi Hmx Hu Hmin. unfold trackReference, noted. rewrite (proj2 (Z.eqb_neq i 0)) by lia.
  set (cur := curOutstanding_ (refs_ e)) in *. rewrite Z.gtb_ltb.
  destruct (Z.ltb_spec ric i); cbn [minInUseIndex andb orb];
    (destruct (Z.ltb_spec i (minInUseIndex cur));
     [rewrite !(Z.min_r (minInUseIndex cur)) by lia|rewrite !(Z.min_l (minInUseIndex cur)) by lia]);
    rewrite ?(Z.max_r ric), ?(Z.max_l ric) by lia; rewrite ?Hmx; try reflexivity.
  all: rewrite (Z.min_l (minOutstandingMin_ (refs_ e))) by lia; unfold with_refs, with_table, with_ctx.
  all: rewrite <- Hu; destruct cur; simpl in *; subst; by destruct e, ctx0, table_0.
Qed.

Lemma trackReference_ok e base ric need i h :
  mid e base ric need -> indexed e i h -> room e 0 ->
  exists ric' e', trackReference e i ric = Some (ric', e') /\ mid e' base ric' (need ++ [(i, h)]) /\
    during e e' [] [] /\ streamBuffer_ e' = streamBuffer_ e /\ view (table_ e') = view (table_ e).
Proof.
  intros H [[Hf Hal] Hd] Hroom. pose proof (field_range _ _ h (e_inv e (m_einv _ _ _ _ H)) Hf) as Hir.
  destruct H as [H1 H2 H3 H4 H5 H6 H7 H8 H9]. unfold room in Hroom.
  pose proof (inv_acked _ (e_inv e H1)) as Hack.
  assert (Hmin : minOutstandingMin_ (refs_ e) <= minInUseIndex (curOutstanding_ (refs_ e)))
    by (rewrite (t_min _ _ H2); lia).
  assert (Hcur : ric = 0 /\ curOutstanding_ (refs_ e) = no_references \/
    block_ok (QT.insertCount_ (table_ e)) (curOutstanding_ (refs_ e)) /\
    maxInUseIndex (curOutstanding_ (refs_ e)) = ric /\ exists f, (ric, f) ∈ need).
  { destruct need as [|p need]; [left; destruct (H5 eq_refl); done|right].
    destruct (H6 ltac:(done)) as (? & ? & _ & ?). done. }
  exists (Z.max ric i), (noted e i ric).
  split; [apply trackReference_eq; [lia| |done|done];
          destruct Hcur as [(-> & E)|(_ & ? & _)]; [by rewrite E|done]|].
  split; [|split; [|done]].
  - constructor; cbn [refs_ noted curOutstanding_ minInUseIndex maxInUseIndex vulnerable].
    + constructor; try apply H1.
      apply (QPACKTableResults.inv_with (table_ e) (QT.ackedInsertCount_ (table_ e)) _ (e_inv e H1)). lia.
    + destruct H2 as [T1 T2 T3 T4 T5 T6 T7]. constructor; try done. simpl. lia.
    + reflexivity.
    + exact H4.
    + by destruct need.
    + intros _. split_and!; [|done|exact Hd|].
      * destruct Hcur as [(E1 & E2)|([[Hb1 Hb2] Hb3] & Hb4 & _)]; unfold block_ok; simpl;
          rewrite ?E2; simpl; unfold_ints; lia.
      * destruct (Z.max_spec ric i) as [[_ ->]|[Hge ->]]; [exists h; apply elem_of_app; right; by left|].
        destruct Hcur as [(-> & _)|(_ & _ & f & Hfin)]; [lia|]. exists f. apply elem_of_app. by left.
    + intros k f [Hk|Hk]%elem_of_app.
      * destruct (H7 k f Hk) as [? ?]. split; [simpl; lia|done].
      * apply list_elem_of_singleton in Hk as [= -> ->]. split; [simpl; lia|done].
    + intros Hlt. change (QT.ackedInsertCount_ (table_ e) < Z.max ric i) in Hlt. simpl.
      unfold QT.isVulnerable. destruct (Z.ltb_spec ric i); cbn [andb].
      * rewrite (proj2 (Z.gtb_lt i _)) by lia. done.
      * apply H8. lia.
    + simpl. intros [[_ Hv%Z.gtb_lt]%andb_prop|Hv]%orb_prop; [by apply Hal|by apply H9].
  - constructor; first [done|by rewrite push_nothing|constructor|idtac].
    + simpl. lia.
    + by intros k f.
Qed.

(** Changes of the stream buffer, and of the counters of the context. *)
Lemma mid_stream e base ric need c b :
  QPACKContext.table_ c = QPACKContext.table_ (ctx e) ->
  mid e base ric need -> mid (with_stream (with_ctx e c) b) base ric need.
Proof.
  intros Hc H. set (e' := with_stream _ _). assert (E : table_ e' = table_ e) by exact Hc.
  destruct H as [[I1 I2 I3 I4] H2 H3 H4 H5 H6 H7 H8 H9]. constructor; rewrite ?E; try done.
  constructor; by rewrite E.
Qed.

Lemma during_stream e e1 cb l c b :
  QPACKContext.table_ c = QPACKContext.table_ (ctx e1) ->
  during e e1 cb l -> during e (with_stream (with_ctx e1 c) b) cb l.
Proof.
  intros Hc []. set (e' := with_stream _ _). assert (E : table_ e' = table_ e1) by exact Hc.
  constructor; by rewrite ?E.
Qed.

(** The field [h] was written, with references to [need1]. *)
Definition emitted (e e' : t) (base ric : Z) (need : list (Z * HPACKHeader.t)) (h : HPACKHeader.t)
    (cb : list Z) (l : list instr) : Prop :=
  exists need1 sb, mid e' base ric (need ++ need1) /\ during e e' cb l /\
    streamBuffer_ e' = EB.push (streamBuffer_ e) sb /\ form base need1 sb h.

(** A field written after an insertion. *)
Lemma emitted_after e e1 e' base ric need h cb l cb' l' :
  advance e e1 cb l -> emitted e1 e' base ric need h cb' l' ->
  emitted e e' base ric need h (cb ++ cb') (l ++ l').
Proof.
  intros A (need1 & sb & Hm & Hd & Hs & Hf). exists need1, sb. split_and!; try done.
  - eapply during_trans; [by apply during_advance|done].
  - destruct (a_rest _ _ _ _ A) as (R & _). by rewrite Hs, R.
Qed.

Lemma enc_int_form v c n :
  Wire.pattern c n -> 0 <= v < 2 ^ 32 ->
  Wire.enc_int v c n <> [] /\ bytes_ok (Wire.enc_int v c n) /\ zlen (Wire.enc_int v c n) <= 11.
Proof.
  intros Hp Hv. pose proof (Wire.enc_int_length v c n) as Hl. split_and!; [| |lia].
  - intros E. rewrite E in Hl. unfold zlen in Hl. simpl in Hl. lia.
  - apply Wire.enc_int_ok; [done|unfold_ints; lia].
Qed.

(** A form with a reference is read with its base only. *)
Lemma form_dynamic base p bytes h :
  reads base [p] bytes h -> bytes <> [] /\ bytes_ok bytes /\ zlen bytes <= 11 -> form base [p] bytes h.
Proof.
  intros Hr (? & ? & ?). constructor; try done. pose proof (zlen_nonneg (name h)).
  pose proof (zlen_nonneg (value h)). lia.
Qed.

Lemma form_static base bytes h :
  (forall base', reads base' [] bytes h) ->
  bytes <> [] /\ bytes_ok bytes /\ zlen bytes <= 22 + 4 * (zlen (name h) + zlen (value h)) ->
  form base [] bytes h.
Proof. intros Hr (? & ? & ?). by constructor. Qed.

Lemma encodeReferenceQ_ok e base ric need i h :
  mid e base ric need -> indexed e i h -> room e 0 ->
  exists ric' e', encodeReferenceQ e i base ric = Some (ric', e') /\
    emitted e e' base ric' need h [] [].
Proof.
  intros H Hi Hroom. pose proof (m_base _ _ _ _ H) as Hb.
  pose proof (inv_acked _ (e_inv e (m_einv _ _ _ _ H))) as Hack.
  pose proof (avail_range e i h (m_einv _ _ _ _ H) (proj1 Hi)) as Hir.
  destruct (trackReference_ok e base ric need i h H Hi Hroom) as (ric' & e1 & HT & Hm & Hd & Hs & _).
  unfold encodeReferenceQ. rewrite HT. unfold mbind at 1, option_bind at 1. unfold room in Hroom.
  unfold HPACKEncodeBuffer.encodeInteger_instr. rewrite Z.gtb_ltb.
  assert (Hw : forall sb, form base [(i, h)] sb h -> exists ric2 e2,
      Some (ric', with_stream e1 (EB.push (streamBuffer_ e1) sb)) = Some (ric2, e2) /\
      emitted e e2 base ric2 need h [] []).
  { intros sb Hf. eexists _, _. split; [reflexivity|]. exists [(i, h)], sb. rewrite <- Hs.
    rewrite <- (with_ctx_same e1) at 1 2. split_and!; try done; [by apply mid_stream|by apply during_stream]. }
  destruct (Z.ltb_spec base i).
  - assert (Hp : Wire.pattern 0x10 4) by solve_pattern. rewrite (u32_id (i - base - 1)) by (unfold_ints; lia).
    rewrite EncodeSpec.encodeInteger_spec by (done || unfold_ints; lia). unfold mbind, option_bind.
    apply Hw. apply form_dynamic; [apply reads_post; lia|apply enc_int_form; [done|lia]].
  - assert (Hp : Wire.pattern 0x80 6) by solve_pattern. rewrite (u32_id (base - i)) by (unfold_ints; lia).
    rewrite EncodeSpec.encodeInteger_spec by (done || unfold_ints; lia). unfold mbind, option_bind.
    apply Hw. apply form_dynamic; [apply reads_based; lia|apply enc_int_form; [done|lia]].
Qed.

(** A literal with a reference to its name was written. *)
Lemma literal_emitted e e1 base ric need need1 h st j idx byte :
  mid e1 base ric (need ++ need1) -> during e e1 [] [] -> streamBuffer_ e1 = streamBuffer_ e ->
  encodable h -> 1 <= j < 2 ^ 31 ->
  (if st : bool then Z.lor (code idx) Q_LITERAL_STATIC else code idx) = byte ->
  Wire.pattern byte (prefixLength idx) ->
  (forall vb, codes DB.decodeLiteral (4 * zlen (value h)) vb (value h) ->
     (need1 = [] -> forall base', reads base' need1 (Wire.enc_int (j - 1) byte (prefixLength idx) ++ vb) h) /\
     reads base need1 (Wire.enc_int (j - 1) byte (prefixLength idx) ++ vb) h) ->
  exists e', encodeLiteralQ e1 (name h) (value h) st j idx = Some e' /\
    emitted e e' base ric need h [] [].
Proof.
  intros Hm Hd Hs Hh Hj Hbyte Hp Hr. destruct (encodable_literals h Hh) as (_ & _ & Hv & Hvz & _).
  destruct (helper_indexed (ctx e1) (streamBuffer_ e1) (name h) (value h) st j Q_LITERAL_STATIC idx
    Q_LITERAL byte Hj Hbyte Hp Hv Hvz) as (vb & c' & k & HE & Hc & HC & HL).
  unfold encodeLiteralQ. rewrite HE. unfold mbind, option_bind. eexists. split; [reflexivity|].
  destruct (Hr vb HC) as [Hany Hrd].
  destruct (enc_int_form (j - 1) byte (prefixLength idx) Hp ltac:(lia)) as (Hne & Hok & Hle).
  eexists need1, _. split; [by apply mid_stream|]. split; [by apply during_stream|].
  split; [simpl; by rewrite Hs|]. constructor; [done|done| | |].
  - intros [E _]%app_eq_nil. by apply Hne.
  - apply Forall_app. split; [done|]. apply (codes_ok _ _ _ _ HC).
  - rewrite zlen_app. pose proof (zlen_nonneg (name h)). lia.
Qed.

(** A literal with its name was written. *)
Lemma plain_emitted e base ric need h st idx :
  mid e base ric need -> encodable h ->
  exists e', encodeLiteralQ e (name h) (value h) st 0 idx = Some e' /\
    emitted e e' base ric need h [] [].
Proof.
  intros Hm Hh. destruct (encodable_literals h Hh) as (Hn & Hnz & Hv & Hvz & _).
  destruct (helper_literal (ctx e) (streamBuffer_ e) (name h) (value h) st Q_LITERAL_STATIC idx Q_LITERAL
    ltac:(simpl; lia) ltac:(simpl; solve_pattern) Hn Hnz Hv Hvz) as (x & nl & vb & k & HE & Hx & HN & HC & HL).
  unfold encodeLiteralQ. rewrite HE. unfold mbind, option_bind. eexists. split; [reflexivity|].
  eexists [], _. rewrite app_nil_r. split; [by apply mid_stream|].
  split; [apply during_stream; [done|]; apply during_advance, advance_refl, (m_einv _ _ _ _ Hm)|].
  split; [reflexivity|]. apply form_static.
  - intros base'. eapply reads_literal_name; try done. apply Hh.
  - split; [done|]. split; [|done].
    apply Forall_app. split; [apply (codes_ok _ _ _ _ HN)|apply (codes_ok _ _ _ _ HC)].
Qed.

Lemma encodeStreamLiteralQ_ok e base ric need h st j a :
  mid e base ric need -> encodable h -> name_ref e (name h) st j a -> room e 0 ->
  exists ric' e', encodeStreamLiteralQ e (name h) (value h) st j a base ric = Some (ric', e') /\
    emitted e e' base ric' need h [] [].
Proof.
  intros H Hh Href Hroom. pose proof (m_base _ _ _ _ H) as Hb.
  pose proof (m_einv _ _ _ _ H) as He. pose proof (inv_acked _ (e_inv e He)) as Hack.
  unfold encodeStreamLiteralQ. rewrite !Z.gtb_ltb.
  destruct Href as [|j v Hst|j i f Hav Hnm Hd].
  - change (0 <? 0) with false. rewrite (proj2 (Z.ltb_ge base 0)) by lia. unfold mbind, option_bind.
    destruct (plain_emitted e base ric need h true Q_LITERAL_NAME_REF H Hh) as (e' & -> & Hem).
    by exists ric, e'.
  - change (0 <? 0) with false. rewrite (proj2 (Z.ltb_ge base 0)) by lia. unfold mbind, option_bind.
    pose proof (static_field_range j _ Hst) as Hj. unfold QPACKStaticHeaderTable.kEntriesSize in Hj.
    destruct (literal_emitted e e base ric need [] h true j Q_LITERAL_NAME_REF 0x50
      ltac:(by rewrite app_nil_r) (during_advance _ _ _ _ (advance_refl e He)) eq_refl Hh ltac:(lia) eq_refl
      ltac:(simpl; solve_pattern)) as (e' & -> & Hem); [|by exists ric, e'].
    intros vb HC. split; [intros _ base'|]; eapply reads_static_name; try done; reflexivity.
  - pose proof (avail_range e i f He Hav) as Hir. unfold room in Hroom.
    rewrite (proj2 (Z.ltb_lt 0 i)) by lia.
    assert (Hallow : (i <=? base) || allowVulnerable e = true).
    { destruct (Z.leb_spec i base); [done|]. destruct Hav as [_ Hal]. by rewrite Hal by lia. }
    rewrite Hallow.
    destruct (trackReference_ok e base ric need i f H (conj Hav Hd) Hroom) as (ric' & e1 & -> & Hm & Hdu & Hs & _).
    unfold mbind, option_bind. destruct (Z.ltb_spec base i).
    + rewrite u32_id by (unfold_ints; lia).
      destruct (literal_emitted e e1 base ric' need [(i, f)] h false (i - base) Q_LITERAL_NAME_REF_POST 0
        Hm Hdu Hs Hh ltac:(lia) eq_refl ltac:(simpl; solve_pattern)) as (e' & -> & Hem); [|by exists ric', e'].
      intros vb HC. split; [done|]. by apply reads_post_name; try lia.
    + rewrite u32_id by (unfold_ints; lia).
      destruct (literal_emitted e e1 base ric' need [(i, f)] h false (base - i + 1) Q_LITERAL_NAME_REF 0x40
        Hm Hdu Hs Hh ltac:(lia) eq_refl ltac:(simpl; solve_pattern)) as (e' & -> & Hem); [|by exists ric', e'].
      intros vb HC. split; [done|]. replace (base - i + 1 - 1) with (base - i) by lia.
      by apply reads_based_name; try lia.
Qed.

(** A field of the static table. *)
Lemma static_emitted e base ric need h i :
  mid e base ric need -> static_field i = Some h ->
  exists n, HPACKEncodeBuffer.encodeInteger (streamBuffer_ e) (u32 (i - 1))
      (Z.lor (code Q_INDEXED) Q_INDEXED_STATIC) (prefixLength Q_INDEXED) =
      Some (n, EB.push (streamBuffer_ e) (Wire.enc_int (i - 1) 0xC0 6)) /\
    emitted e (with_stream (with_ctx e (QPACKContext.static_ref (ctx e)))
      (EB.push (streamBuffer_ e) (Wire.enc_int (i - 1) 0xC0 6))) base ric need h [] [].
Proof.
  intros H Hst. pose proof (static_field_range i h Hst) as Hi. unfold QPACKStaticHeaderTable.kEntriesSize in Hi.
  assert (Hp : Wire.pattern 0xC0 6) by solve_pattern. rewrite u32_id by (unfold_ints; lia).
  change (Z.lor (code Q_INDEXED) Q_INDEXED_STATIC) with 0xC0. change (prefixLength Q_INDEXED) with 6.
  rewrite EncodeSpec.encodeInteger_spec by (done || unfold_ints; lia).
  eexists. split; [reflexivity|]. eexists [], _. rewrite app_nil_r. split; [by apply mid_stream|].
  split; [apply during_stream; [done|]; apply during_advance, advance_refl, (m_einv _ _ _ _ H)|].
  split; [reflexivity|]. apply form_static; [intros base'; by apply reads_static|].
  destruct (enc_int_form (i - 1) 0xC0 6 Hp ltac:(lia)) as (? & ? & ?). split_and!; try done.
  pose proof (zlen_nonneg (name h)). pose proof (zlen_nonneg (value h)). lia.
Qed.

Lemma encodeHeaderQ_ok e base ric need h :
  mid e base ric need -> encodable h -> room e 3 ->
  exists u ric' e' cb l, encodeHeaderQ e (name h) (value h) base ric = Some (u, ric', e') /\
    emitted e e' base ric' need h cb l /\ zlen l <= 3.
Proof.
  intros H Hh Hroom. unfold encodeHeaderQ. cbv zeta. set (u := u64 _). clearbody u.
  destruct (q_static_getIndex (name h) (value h)) as (i & i' & HG & Hi & HiS). rewrite HG. clear HG.
  unfold mbind at 1, option_bind at 1. rewrite Z.gtb_ltb. destruct (Z.ltb_spec 0 i) as [Hi0|Hi0].
  { specialize (HiS ltac:(lia)). destruct (static_emitted e base ric need h i H) as (n & HE & Hem);
      [rewrite HiS; by destruct h|]. rewrite HE. unfold mbind, option_bind.
    eexists u, ric, _, [], []. split; [reflexivity|]. split; [exact Hem|]. by unfold zlen. }
  clear HiS. destruct (lookupQ_ok e h (m_einv _ _ _ _ H) Hh ltac:(unfold room in *; lia))
    as (i1 & ix & e1 & cb1 & l1 & HL & A1 & Hz1 & Hi1 & Hix). rewrite HL. clear HL.
  unfold mbind at 1, option_bind at 1. pose proof (mid_advance _ _ _ _ _ _ _ H A1) as H1.
  assert (Hroom1 : room e1 2) by (by eapply advance_room).
  assert (Hroom0 : forall e2 cb l, advance e1 e2 cb l -> zlen l <= 2 -> room e2 0)
    by (intros e2 cb l A Hz; by eapply advance_room).
  destruct (Z.eqb_spec i1 0) as [->|Hne].
  2: { destruct (encodeReferenceQ_ok e1 base ric need i1 h H1 (Hi1 Hne) ltac:(unfold room in *; lia))
         as (ric' & e' & -> & Hem). unfold mbind, option_bind.
       eexists u, ric', e', _, _. split; [reflexivity|]. split; [by eapply emitted_after|].
       rewrite app_nil_r. lia. }
  destruct (insertQ_ok e1 h ix (m_einv _ _ _ _ H1) Hh Hroom1 Hix)
    as (i2 & st & j & a & e2 & cb2 & l2 & HI & A2 & Hz2 & Hi2 & Href). rewrite HI. clear HI.
  unfold mbind at 1, option_bind at 1. pose proof (mid_advance _ _ _ _ _ _ _ H1 A2) as H2.
  pose proof (advance_trans _ _ _ _ _ _ _ A1 A2) as A.
  assert (Hz : zlen ((l1 ++ l2) ++ []) <= 3) by (rewrite app_nil_r, zlen_app; lia).
  destruct (Z.eqb_spec i2 0) as [->|Hne2].
  - destruct (encodeStreamLiteralQ_ok e2 base ric need h st j a H2 Hh (Href eq_refl) (Hroom0 _ _ _ A2 Hz2))
      as (ric' & e' & HE & Hem). rewrite HE. clear HE. unfold mbind, option_bind.
    eexists u, ric', e', _, _. split; [reflexivity|]. split; [by eapply emitted_after|exact Hz].
  - destruct (encodeReferenceQ_ok e2 base ric need i2 h H2 (Hi2 Hne2) (Hroom0 _ _ _ A2 Hz2))
      as (ric' & e' & HE & Hem). rewrite HE. clear HE. unfold mbind, option_bind.
    eexists u, ric', e', _, _. split; [reflexivity|]. split; [by eapply emitted_after|exact Hz].
Qed.

(** All fields of a block. *)
Lemma encodeHeadersQ_ok hs : forall e base ric need sb0 hs0,
  mid e base ric need -> Forall encodable hs -> room e (3 * zlen hs) ->
  forms base need sb0 hs0 ->
  exists ric' e' cb l need' sb, encodeHeadersQ e hs base ric = Some (ric', e') /\
    mid e' base ric' need' /\ during e e' cb l /\ zlen l <= 3 * zlen hs /\
    streamBuffer_ e' = EB.push (streamBuffer_ e) sb /\ forms base need' (sb0 ++ sb) (hs0 ++ hs).
Proof.
  induction hs as [|h hs IH]; intros e base ric need sb0 hs0 Hm Hall Hroom Hfs.
  { exists ric, e, [], [], need, []. rewrite !app_nil_r, push_nothing. split; [done|]. split; [done|].
    split; [apply during_advance, advance_refl, (m_einv _ _ _ _ Hm)|]. by split; [unfold zlen|]. }
  inversion Hall as [|h' hs' Hh Hall']; subst. unfold room in Hroom.
  assert (Ez : zlen (h :: hs) = zlen hs + 1) by (unfold zlen; simpl; lia). rewrite Ez in *.
  pose proof (zlen_nonneg hs).
  destruct (encodeHeaderQ_ok e base ric need h Hm Hh ltac:(unfold room; lia))
    as (u & ric1 & e1 & cb1 & l1 & HE & (need1 & sb1 & Hm1 & Hd1 & Hs1 & Hf1) & Hz1).
  cbn [encodeHeadersQ]. rewrite HE. clear HE. unfold mbind, option_bind.
  pose proof (forms_snoc base need sb0 hs0 need1 sb1 h Hfs Hf1) as Hfs1.
  assert (Hins : QT.insertCount_ (table_ e1) <= QT.insertCount_ (table_ e) + zlen l1).
  { change (ins (view (table_ e1)) <= ins (view (table_ e)) + zlen l1). rewrite (d_view _ _ _ _ Hd1).
    apply ins_replay_le. }
  destruct (IH e1 base ric1 (need ++ need1) (sb0 ++ sb1) (hs0 ++ [h]) Hm1 Hall' ltac:(unfold room; lia) Hfs1)
    as (ric' & e' & cb & l & need' & sb & HE & Hm' & Hd & Hz & Hs & Hf).
  exists ric', e', (cb1 ++ cb), (l1 ++ l), need', (sb1 ++ sb).
  split; [exact HE|]. split; [done|]. split; [by eapply during_trans|].
  split; [rewrite zlen_app; lia|]. split; [by rewrite Hs, Hs1, EncodeSpec.push_push|].
  by rewrite <- !app_assoc in Hf.
Qed.

(** ** A whole block *)

Lemma encodePrefix_ok b maxTableSize base ric :
  0 <= base < 2 ^ 31 -> 0 <= ric < 2 ^ 31 -> 0 <= maxTableSize < 2 ^ 31 ->
  (ric <> 0 -> 32 <= maxTableSize) ->
  encodePrefix b maxTableSize base ric = Some (EB.push b (prefix_bytes maxTableSize base ric)).
Proof.
  intros Hb Hr HM Hne. unfold encodePrefix, prefix_bytes.
  assert (P8 : Wire.pattern 0 8) by solve_pattern. assert (P7 : Wire.pattern 0 7) by solve_pattern.
  assert (P7' : Wire.pattern 0x80 7) by solve_pattern.
  destruct (Z.eqb_spec ric 0) as [->|Hr0].
  { rewrite !EncodeSpec.encodeInteger_spec by (done || unfold_ints; lia). unfold mbind, option_bind.
    rewrite EncodeSpec.encodeInteger_spec by (done || unfold_ints; lia).
    rewrite EncodeSpec.push_push. reflexivity. }
  specialize (Hne Hr0).
  assert (HF : 0 < 2 * QPACKContext.getMaxEntries maxTableSize < 2 ^ 31).
  { unfold QPACKContext.getMaxEntries, kMinLength.
    pose proof (Z.div_le_mono 32 maxTableSize 32). pose proof (Z.mul_div_le maxTableSize 32).
    change (32 / 32) with 1 in *. lia. }
  set (F := 2 * QPACKContext.getMaxEntries maxTableSize) in *.
  pose proof (Z.mod_pos_bound ric F ltac:(lia)).
  rewrite (u32_id F), (proj2 (Z.eqb_neq F 0)), (u32_id (ric mod F + 1)) by (unfold_ints; lia).
  rewrite EncodeSpec.encodeInteger_spec by (done || unfold_ints; lia). unfold mbind, option_bind.
  rewrite Z.gtb_ltb. change (prefixLength Q_DELTA_BASE) with 7.
  change Q_DELTA_BASE_NEG with 0x80. change Q_DELTA_BASE_POS with 0x00.
  destruct (Z.ltb_spec base ric); rewrite u32_id by (unfold_ints; lia);
    rewrite EncodeSpec.encodeInteger_spec by (done || unfold_ints; lia); by rewrite EncodeSpec.push_push.
Qed.

(** The change of capacity that was not sent yet. *)
Definition pend (e : t) : list instr :=
  if pendingContextUpdate_ e then [ISize (QT.capacity_ (table_ e))] else [].

(** Between blocks. *)
Record quiet (e : t) : Prop := {
  q_einv : einv e;
  q_settled : settled e;
  q_stream : EB.buf_ (streamBuffer_ e) = [];
  q_capacity : QT.capacity_ (table_ e) <= maxTableSize_ (config_ e);
  q_wire : 0 <= QT.capacity_ (table_ e) <= maxTable;
  q_table : maxTableSize_ (config_ e) < 2 ^ 31;
  q_blocks : maxNumOutstandingBlocks_ (config_ e) <= UINT32_MAX }.

Lemma capacity_nonneg e : einv e -> 0 <= QT.capacity_ (table_ e).
Proof. intros H. pose proof (bytes_bound _ (e_inv e H)). lia. Qed.

(** What [startEncode] does; [T] is the table without the change of capacity. *)
Lemma startEncode_ok e headroom n T :
  quiet e -> view (table_ e) = replay T (pend e) ->
  exists e1 cb, startEncode e [] headroom n = Some (QT.insertCount_ (table_ e), e1) /\
    mid e1 (QT.insertCount_ (table_ e)) 0 [] /\ table_ e1 = table_ e /\ refs_ e1 = refs_ e /\
    config_ e1 = config_ e /\ streamBuffer_ e1 = streamBuffer_ e /\ decoderIngress_ e1 = decoderIngress_ e /\
    pendingContextUpdate_ e1 = false /\ EB.buf_ (controlBuffer_ e1) = cb /\ bytes_ok cb /\
    owes lim maxTable T None cb (pend e).
Proof.
  intros Hq HT. destruct Hq as [He [S1 S2 S3 S4] Hs Hc Hw Hm Hb].
  pose proof (einv_size e He) as Hz. pose proof (inv_acked _ (e_inv e He)) as Hack.
  assert (Hmid : forall e1, table_ e1 = table_ e -> refs_ e1 = refs_ e -> config_ e1 = config_ e ->
    mid e1 (QT.insertCount_ (table_ e)) 0 []).
  { intros e1 E1 E2 E3. constructor; rewrite ?E1, ?E2; try done; try lia.
    - destruct He. constructor; by rewrite E1.
    - intros i f Hi. by apply elem_of_nil in Hi.
    - rewrite S3. done. }
  unfold startEncode. rewrite Hs, bool_decide_eq_true_2 by done. cbn [negb]. rewrite andb_false_r.
  unfold handlePendingContextUpdate, pend in *.
  set (e0 := with_control e _ n). change (pendingContextUpdate_ e0) with (pendingContextUpdate_ e).
  destruct (pendingContextUpdate_ e) eqn:Ep.
  - unfold HPACKEncodeBuffer.encodeInteger_instr. change (code TABLE_SIZE_UPDATE) with 0x20.
    change (prefixLength TABLE_SIZE_UPDATE) with 5. assert (Hp : Wire.pattern 0x20 5) by solve_pattern.
    rewrite EncodeSpec.encodeInteger_spec
      by (done || change (table_ e0) with (table_ e); unfold_ints; lia).
    unfold mbind, option_bind. eexists _, _. split; [reflexivity|]. split; [by apply Hmid|].
    split_and!; try done.
    + change (bytes_ok (Wire.enc_int (QT.capacity_ (table_ e)) 0x20 5)).
      apply Wire.enc_int_ok; [done|unfold_ints; lia].
    + simpl. rewrite <- (app_nil_r (Wire.enc_int _ _ _)). apply owes_size; [exact Hw|constructor].
  - unfold mbind, option_bind. eexists _, []. split; [reflexivity|]. split; [by apply Hmid|].
    split_and!; try done; [constructor|]. constructor.
Qed.

(** The block that was written, and what is recorded for it. *)
Record encoded (e e' : t) (sid : Z) (hs : list HPACKHeader.t) (block : list Z) (base ric : Z)
    (need : list (Z * HPACKHeader.t)) : Prop := {
  n_quiet : quiet e';
  n_block : exists bs, block = prefix_bytes (maxTableSize_ (config_ e)) base ric ++ bs /\
    forms base need bs hs;
  n_base : 0 <= base <= QT.insertCount_ (table_ e');
  n_ric : 0 <= ric <= QT.insertCount_ (table_ e');
  n_none : ric = 0 -> need = [] /\ outstanding_ (refs_ e') = outstanding_ (refs_ e);
  n_some : ric <> 0 -> (exists f, (ric, f) ∈ need) /\ exists b,
    outstanding_ (refs_ e') =
      <[sid := default [] (outstanding_ (refs_ e) !! sid) ++ [b]]> (outstanding_ (refs_ e)) /\
    maxInUseIndex b = ric /\ (forall i f, (i, f) ∈ need -> minInUseIndex b <= i) /\
    (QT.ackedInsertCount_ (table_ e) < ric -> vulnerable b = true) /\
    (vulnerable b = true -> allowVulnerable e = true);
  n_need i f : (i, f) ∈ need -> i <= ric /\ field (view (table_ e')) i = Some f;
  n_config : config_ e' = config_ e;
  n_ingress : decoderIngress_ e' = decoderIngress_ e;
  n_acked : QT.ackedInsertCount_ (table_ e') = QT.ackedInsertCount_ (table_ e);
  n_pending : pendingContextUpdate_ e' = false;
  n_keeps : keeps (table_ e) (table_ e');
  n_empty : hs = [] -> ric = 0 }.

(** [recordOutstanding], in both cases. *)
Lemma record_mid e base ric need sid :
  mid e base ric need -> room e 0 -> maxNumOutstandingBlocks_ (config_ e) <= UINT32_MAX ->
  let r := refs_ e in let r' := recordOutstanding r sid in
  tracked r' (QT.insertCount_ (table_ e)) /\ idle r' /\
  minOutstandingMin_ r' = QT.minInUseIndex_ (table_ e) /\
  (need = [] -> outstanding_ r' = outstanding_ r) /\
  (need <> [] -> outstanding_ r' =
     <[sid := default [] (outstanding_ r !! sid) ++ [curOutstanding_ r]]> (outstanding_ r)).
Proof.
  intros H Hroom Hmax r r'. destruct H as [H1 H2 H3 H4 H5 H6 H7 H8 H9]. unfold room in Hroom.
  destruct need as [|p need].
  - destruct (H5 eq_refl) as [_ Hc].
    assert (E : r' = r) by (unfold r', recordOutstanding; fold r; unfold r; rewrite Hc; done).
    rewrite E. split_and!; done.
  - destruct (H6 ltac:(done)) as (Hb & _ & Hd & _). pose proof Hb as [[Hb1 Hb2] Hb3].
    destruct (recordOutstanding_spec r (QT.insertCount_ (table_ e)) sid H2) as (T & I & M & O).
    + unfold r in *. unfold_ints. lia.
    + done.
    + pose proof (t_count _ _ H2) as Hct. unfold r in *. rewrite <- Hct.
      unfold dynamicReferenceAllowed in Hd. apply Z.ltb_lt in Hd. unfold UINT32_MAX in Hmax. lia.
    + fold r' in T, I, M, O. rewrite H3. split_and!; done.
Qed.

(** A block has a required insert count exactly if it has references; then the table
    is not empty. *)
Lemma mid_ric e base ric need :
  mid e base ric need ->
  0 <= ric <= QT.insertCount_ (table_ e) /\ (ric = 0 <-> need = []) /\
  (ric <> 0 -> 32 <= QT.capacity_ (table_ e)).
Proof.
  intros Hm. pose proof (einv_size e (m_einv _ _ _ _ Hm)) as Hsz.
  pose proof (e_inv _ (m_einv _ _ _ _ Hm)) as Hinv.
  destruct (decide (need = [])) as [E|E].
  { destruct (m_none _ _ _ _ Hm E) as [-> _]. split_and!; [lia|lia|done|done]. }
  destruct (m_some _ _ _ _ Hm E) as ([? ?] & Hmx & _ & f & Hf). rewrite Hmx in *.
  split; [lia|]. split; [split; [lia|done]|]. intros _.
  destruct (m_need _ _ _ _ Hm _ f Hf) as [_ Hl]. unfold field in Hl. simpl in Hl.
  rewrite (proj2 (Z.leb_le _ _)) in Hl by lia. apply list_elem_of_lookup_2 in Hl.
  pose proof (Ring.wf_bytes _ (inv_wf _ Hinv)) as Hbytes. pose proof (bytes_bound _ Hinv).
  apply list_elem_of_split in Hl as (la & lb & El). rewrite El, total_app in Hbytes. simpl in Hbytes.
  pose proof (total_nonneg la). pose proof (total_nonneg lb). fold (total lb) in Hbytes.
  pose proof (hsize_min f). lia.
Qed.

Lemma completeEncode_ok e e1 sid base ric need hs sb :
  mid e1 base ric need -> room e1 0 -> EB.buf_ (streamBuffer_ e1) = sb -> forms base need sb hs ->
  pendingContextUpdate_ e1 = false -> config_ e1 = config_ e -> outstanding_ (refs_ e1) = outstanding_ (refs_ e) ->
  decoderIngress_ e1 = decoderIngress_ e ->
  QT.ackedInsertCount_ (table_ e1) = QT.ackedInsertCount_ (table_ e) ->
  QT.capacity_ (table_ e1) = QT.capacity_ (table_ e) -> keeps (table_ e) (table_ e1) ->
  quiet e -> (hs = [] -> ric = 0) ->
  exists block e', completeEncode e1 sid base ric = Some (block, EB.buf_ (controlBuffer_ e1), e') /\
    encoded e e' sid hs block base ric need /\ table_ e' = table_ e1.
Proof.
  intros Hm Hroom Hsb Hfs Hp Hcf Ho Hin Hac Hcap Hk [Q1 Q2 Q3 Q4 Q5 Q6 Q7] Hemp.
  destruct (record_mid e1 base ric need sid Hm Hroom ltac:(by rewrite Hcf)) as (T & I & M & O0 & O1).
  pose proof (einv_size e1 (m_einv _ _ _ _ Hm)) as Hsz.
  pose proof (inv_acked _ (e_inv _ (m_einv _ _ _ _ Hm))) as Hack1. pose proof (m_base _ _ _ _ Hm) as Hb.
  unfold room in Hroom.
  destruct (mid_ric e1 base ric need Hm) as (Hr0 & Hric & Hne).
  assert (Hnv : numVulnerable_ (refs_ e1) = numVulnerable_ (refs_ e))
    by (by rewrite (t_vulnerable _ _ (m_tracked _ _ _ _ Hm)), (t_vulnerable _ _ (s_tracked _ Q2)), Ho).
  pose proof (capacity_nonneg e1 (m_einv _ _ _ _ Hm)).
  unfold completeEncode. cbn [HPACKEncodeBuffer.release].
  rewrite encodePrefix_ok; [|lia|lia|rewrite Hcf; lia|intros E; specialize (Hne E); rewrite Hcf; lia].
  unfold mbind, option_bind. cbn. rewrite Hsb. eexists _, _. split; [reflexivity|]. split; [|done].
  set (e' := with_refs _ _). assert (Et : table_ e' = table_ e1) by done.
  constructor; try done; rewrite ?Et; try done.
  - constructor; rewrite ?Et; try done.
    + destruct (m_einv _ _ _ _ Hm). by constructor.
    + constructor; try done. apply (e_inv _ (m_einv _ _ _ _ Hm)).
    + simpl. by rewrite Hcf, Hcap.
    + by rewrite Hcap.
    + simpl. by rewrite Hcf.
    + simpl. by rewrite Hcf.
  - exists sb. split; [|done]. simpl. by rewrite Hcf.
  - lia.
  - intros E%Hric. split; [done|]. simpl. rewrite O0 by done. done.
  - intros E. assert (En : need <> []) by (intros E'; apply E; by apply Hric).
    destruct (m_some _ _ _ _ Hm En) as (_ & Hmx & _ & Hex). split; [done|].
    exists (curOutstanding_ (refs_ e1)). simpl. rewrite O1, Ho by done. split_and!; try done.
    + intros i f Hif. destruct (m_need _ _ _ _ Hm i f Hif) as [? _]. lia.
    + intros Hlt. apply (m_vulnerable _ _ _ _ Hm). lia.
    + intros Hv. pose proof (m_allowed _ _ _ _ Hm Hv) as Ha. unfold allowVulnerable in *.
      by rewrite <- Hnv, <- Hcf.
  - intros i f Hif. destruct (m_need _ _ _ _ Hm i f Hif) as [? ?]. split; [lia|done].
Qed.

(** [encode] returns; the encoder stream carries the insertions it made, and the block
    is the fields. *)
Lemma encode_spec e hs headroom sid n T :
  quiet e -> view (table_ e) = replay T (pend e) -> Forall encodable hs -> room e (3 * zlen hs) ->
  exists control block e' base ric need l,
    encode e hs headroom sid n = Some ((control, block), e') /\
    encoded e e' sid hs block base ric need /\
    owes lim maxTable T None control l /\ view (table_ e') = replay T l /\ bytes_ok control /\
    QT.insertCount_ (table_ e') <= QT.insertCount_ (table_ e) + 3 * zlen hs.
Proof.
  intros Hq HT Hall Hroom.
  destruct (startEncode_ok e headroom n T Hq HT)
    as (e1 & cb & HS & Hm & E1 & E2 & E3 & E4 & E5 & E6 & E7 & Hcb & How).
  unfold encode. rewrite HS. unfold mbind at 1, option_bind at 1.
  destruct (encodeHeadersQ_ok hs e1 (QT.insertCount_ (table_ e)) 0 [] [] [] Hm Hall
    ltac:(unfold room in *; by rewrite E1) (forms_nil _ _)) as (ric & e2 & cb2 & l2 & need & sb & HE & Hm2 & Hd & Hz & Hs & Hf).
  rewrite HE. unfold mbind at 1, option_bind at 1.
  assert (Hins : QT.insertCount_ (table_ e2) <= QT.insertCount_ (table_ e) + zlen l2).
  { change (ins (view (table_ e2)) <= ins (view (table_ e)) + zlen l2). rewrite (d_view _ _ _ _ Hd), E1.
    apply ins_replay_le. }
  destruct (completeEncode_ok e e2 sid (QT.insertCount_ (table_ e)) ric need hs sb) as (block & e' & HC & Hen & Et).
  - done.
  - unfold room in *. lia.
  - rewrite Hs, E4. simpl. by rewrite (q_stream e Hq).
  - done.
  - by rewrite (d_pending _ _ _ _ Hd).
  - by rewrite (d_config _ _ _ _ Hd).
  - by rewrite (d_outstanding _ _ _ _ Hd), E2.
  - by rewrite (d_ingress _ _ _ _ Hd).
  - by rewrite (d_acked _ _ _ _ Hd), E1.
  - by rewrite (d_capacity _ _ _ _ Hd), E1.
  - rewrite <- E1. apply (d_keeps _ _ _ _ Hd).
  - done.
  - intros ->. simpl in HE. by injection HE.
  - rewrite HC. unfold mbind, option_bind.
    eexists _, block, e', _, ric, need, (pend e ++ l2). split; [reflexivity|]. split; [exact Hen|].
    rewrite (d_control _ _ _ _ Hd). simpl. rewrite E7. split_and!.
    + eapply owes_app; [exact How|]. rewrite <- HT, <- E1. apply (d_owes _ _ _ _ Hd).
    + by rewrite Et, (d_view _ _ _ _ Hd), E1, HT, replay_app.
    + apply Forall_app. split; [done|]. apply (d_ok _ _ _ _ Hd).
    + change (QPACKContext.table_ (ctx e')) with (table_ e'). rewrite Et. lia.
Qed.

End encoding.
End QPACKEncoding.
