(* ===== verification/QPACKAcks.v ===== *)
(** * The decoder stream, in pieces

    [ack_bytes] are the three instructions a decoder sends, [ack_run] is what they
    mean: the encoder forgets the oldest block of a stream and knows what it
    referred to, forgets all blocks of a stream, or knows of more insertions.
    [acks_feed] cuts the bytes anywhere: the encoder carries out the instructions
    that are complete, and keeps the rest. *)

From stdpp Require Import gmap.
From S2P Require Import Prelude HPACKBuffers HeaderTable HPACKContext QPACKHeaderTable.
From S2P Require Import QPACKContext QPACKEncoder QPACKDecoder QPACKWire QPACKTables.
From S2P Require Import QPACKReads QPACKFeed QPACKTracking.

Module QPACKAcks.
Import HPACK QPACK QPACKRing Dyn DecodeSpec Codes QPACKReads QPACKFeed QPACKTracking QPACKEncoder.
Module DB := HPACKDecodeBuffer.
Module QT := QPACKHeaderTable.

Inductive ack :=
| AHeader (sid : Z)
| ACancel (sid : Z)
| AIncrement (n : Z).

Definition ack_bytes (a : ack) : list Z :=
  match a with
  | AHeader sid => Wire.enc_int sid 0x80 7
  | ACancel sid => Wire.enc_int sid 0x40 6
  | AIncrement n => Wire.enc_int n 0x00 6
  end.

Definition acks_bytes (l : list ack) : list Z := concat (ack_bytes <$> l).

(** The blocks that are outstanding, and the insertions that are known. *)
Definition ack_state : Type := gmap Z (list OutstandingBlock) * Z.

Definition ack_step (s : ack_state) (a : ack) : option ack_state :=
  match a with
  | AHeader sid =>
      match fst s !! sid with
      | Some (b :: rest) => Some (replaced (fst s) sid rest, Z.max (snd s) (maxInUseIndex b))
      | _ => None
      end
  | ACancel sid => Some (delete sid (fst s), snd s)
  | AIncrement n => if 1 <=? n then Some (fst s, snd s + n) else None
  end.

Fixpoint ack_run (s : ack_state) (l : list ack) : option ack_state :=
  match l with
  | [] => Some s
  | a :: l => s ← ack_step s a; ack_run s l
  end.

Lemma ack_run_app s l1 l2 : ack_run s (l1 ++ l2) = s1 ← ack_run s l1; ack_run s1 l2.
Proof.
  revert s. induction l1 as [|a l1 IH]; intros s; simpl; [done|].
  destruct (ack_step s a); simpl; [apply IH|done].
Qed.

Lemma ack_step_mono s a s' : ack_step s a = Some s' -> snd s <= snd s'.
Proof.
  destruct a as [sid|sid|n]; simpl.
  - destruct (fst s !! sid) as [[|b rest]|]; try done. intros [= <-]. simpl. lia.
  - intros [= <-]. simpl. lia.
  - destruct (Z.leb_spec 1 n); [|done]. intros [= <-]. simpl. lia.
Qed.

Lemma ack_run_mono l : forall s s', ack_run s l = Some s' -> snd s <= snd s'.
Proof.
  induction l as [|a l IH]; intros s s' H; simpl in H; [by injection H as <-|].
  destruct (ack_step s a) as [s1|] eqn:E; [|done]. simpl in H.
  apply ack_step_mono in E. apply IH in H. lia.
Qed.

(** Numbers that fit the instructions. *)
Definition ack_small (a : ack) : Prop :=
  match a with
  | AHeader sid | ACancel sid => 0 <= sid < 2 ^ 62
  | AIncrement n => 0 <= n < 2 ^ 32
  end.

(** ** One instruction *)

(** The state of the encoder that acknowledgements change. *)
Definition astate (e : t) : ack_state :=
  (outstanding_ (refs_ e), QT.ackedInsertCount_ (table_ e)).

(** [e'] is [e] after acknowledgements. *)
Definition informed (e e' : t) : Prop := settled e' /\ same_encoder e e'.

Lemma same_encoder_refl e : same_encoder e e.
Proof. done. Qed.

Lemma informed_trans e1 e2 e3 : informed e1 e2 -> informed e2 e3 -> informed e1 e3.
Proof. unfold informed, same_encoder. intros [_ ?] [? ?]. intuition congruence. Qed.

Lemma informed_count e e' :
  informed e e' -> QT.insertCount_ (table_ e') = QT.insertCount_ (table_ e).
Proof.
  intros (_ & _ & _ & _ & _ & Hv & _). change (ins (view (table_ e')) = ins (view (table_ e))). by rewrite Hv.
Qed.

Lemma acked_to_informed e e' k m :
  acked_to e e' k m -> informed e e' /\ astate e' = (m, k) /\ decoderIngress_ e' = decoderIngress_ e.
Proof. intros (Hs & He & Ha & Ho & Hi). unfold astate. by rewrite Ha, Ho. Qed.

(** What an instruction does. *)
Definition perform (e : t) (a : ack) : option (DecodeError * t) :=
  match a with
  | AHeader sid => onHeaderAck e sid false
  | ACancel sid => onHeaderAck e sid true
  | AIncrement n => onInsertCountIncrement e (u32 n)
  end.

Lemma perform_ok e a s' :
  settled e -> ack_small a -> ack_step (astate e) a = Some s' -> snd s' <= QT.insertCount_ (table_ e) ->
  exists e', perform e a = Some (NONE, e') /\ informed e e' /\ astate e' = s' /\
    decoderIngress_ e' = decoderIngress_ e.
Proof.
  intros He Hs Ha Hle. destruct a as [sid|sid|n]; simpl in Ha, Hs.
  - destruct (outstanding_ (refs_ e) !! sid) as [[|b rest]|] eqn:El; try done. injection Ha as <-.
    destruct (onHeaderAck_ack e sid b rest He El) as (e' & HE & Hk). exists e'. split; [done|].
    by apply acked_to_informed.
  - injection Ha as <-. destruct (onHeaderAck_cancel e sid He) as (e' & HE & Hk). exists e'. split; [done|].
    by apply acked_to_informed.
  - destruct (Z.leb_spec 1 n); [|done]. injection Ha as <-. simpl in Hle.
    destruct (onInsertCountIncrement_spec e n He ltac:(lia) Hle) as (e' & HE & Hk). exists e'.
    split; [simpl; by rewrite u32_id by (unfold_ints; lia)|]. by apply acked_to_informed.
Qed.

Definition ack_prefix (a : ack) : Z := match a with AHeader _ => 7 | _ => 6 end.
Definition ack_value (a : ack) : Z := match a with AHeader n | ACancel n | AIncrement n => n end.

(** The first byte selects the instruction. *)
Lemma ack_dispatch e b byte c a q :
  ack_small a -> DB.cursor_ b = byte :: c -> whole b -> ack_bytes a = byte :: q ->
  decodeDecoderInstruction e b =
  decode_then e b (ack_prefix a) (fun v => perform e (match a with
    | AHeader _ => AHeader v | ACancel _ => ACancel v | AIncrement _ => AIncrement v end)).
Proof.
  intros Hs Hc Hw Hb. unfold decodeDecoderInstruction.
  assert (Hpk : DB.peek b = DB.DOk byte b).
  { unfold DB.peek. unfold whole in Hw. rewrite Hw, Hc, Z.gtb_ltb.
    rewrite (proj2 (Z.ltb_lt _ _)) by (unfold zlen; simpl; lia). done. }
  rewrite Hpk. change (code Q_HEADER_ACK) with 0x80. change (code Q_CANCEL_STREAM) with 0x40.
  destruct a as [sid|sid|n]; simpl in Hb, Hs.
  - destruct (enc_int_head sid 0x80 7 ltac:(solve_pattern) ltac:(lia)) as (x & l & E & Hx).
    rewrite E in Hb. injection Hb as <- _. change (2 ^ 7) with 128 in Hx.
    assert (E7 : truth (Z.land (0x80 + x) 0x80) = true) by (clear -Hx; byte_bits 128).
    by rewrite E7.
  - destruct (enc_int_head sid 0x40 6 ltac:(solve_pattern) ltac:(lia)) as (x & l & E & Hx).
    rewrite E in Hb. injection Hb as <- _. change (2 ^ 6) with 64 in Hx.
    assert (E7 : truth (Z.land (0x40 + x) 0x80) = false) by (clear -Hx; byte_bits 64).
    assert (E6 : truth (Z.land (0x40 + x) 0x40) = true) by (clear -Hx; byte_bits 64).
    by rewrite E7, E6.
  - destruct (enc_int_head n 0x00 6 ltac:(solve_pattern) ltac:(lia)) as (x & l & E & Hx).
    rewrite E in Hb. injection Hb as <- _. change (2 ^ 6) with 64 in Hx.
    assert (E7 : truth (Z.land (0x00 + x) 0x80) = false) by (clear -Hx; byte_bits 64).
    assert (E6 : truth (Z.land (0x00 + x) 0x40) = false) by (clear -Hx; byte_bits 64).
    by rewrite E7, E6.
Qed.

Lemma ack_codes a :
  ack_small a -> codes (DB.decodeInteger (ack_prefix a)) 0 (ack_bytes a) (ack_value a).
Proof.
  intros Hs. destruct a as [sid|sid|n]; simpl in *; apply codes_int; try solve_pattern; unfold_ints; lia.
Qed.

(** ** The loop *)

(** All of the buffer was used, or it ends inside of an instruction. *)
Definition ended (b : DB.t) (rest : list Z) (al : list ack) (err : DecodeError) (consumed : Z) (b' : DB.t)
  : Prop :=
  (err = NONE /\ DB.consumedBytes b' = DB.consumedBytes b + zlen (DB.cursor_ b) /\ rest = acks_bytes al) \/
  (err = BUFFER_UNDERFLOW /\ rest <> [] /\ exists j : nat, (j <= length (DB.cursor_ b))%nat /\
     consumed = DB.consumedBytes b + Z.of_nat j /\ drop j (DB.cursor_ b) ++ rest = acks_bytes al).

Lemma acks_loop (n : nat) : forall e b rest al fuel c s',
  (length (DB.cursor_ b) <= n)%nat -> (n < fuel)%nat -> settled e -> whole b ->
  zlen (DB.cursor_ b) <= DB.totalBytes_ b < 2 ^ 32 -> DB.maxLiteralSize_ b = 0 ->
  DB.cursor_ b ++ rest = acks_bytes al -> Forall ack_small al ->
  ack_run (astate e) al = Some s' -> snd s' <= QT.insertCount_ (table_ e) ->
  exists err k e' b' al1 al2, decodeDecoderStream_loop fuel e b c = Some (err, k, e', b') /\
    al = al1 ++ al2 /\ informed e e' /\ decoderIngress_ e' = decoderIngress_ e /\
    ack_run (astate e) al1 = Some (astate e') /\ ended b rest al2 err k b'.
Proof.
  induction n as [|n IH]; intros e b rest al fuel c s' Hn Hf He Hw Hz Hm E Hsm Hrun Hle;
    (destruct fuel as [|fuel]; [lia|]); cbn [decodeDecoderStream_loop].
  all: destruct (DB.cursor_ b) as [|byte cur] eqn:Ec.
  all: try (assert (Hem : DB.empty b = true) by (unfold DB.empty; unfold whole in Hw; rewrite Hw, Ec; done);
    rewrite Hem; exists NONE, c, e, b, [], al; split_and!; try done; left;
    rewrite Ec; split_and!; [done|unfold zlen; simpl; lia|done]).
  { simpl in Hn. lia. }
  assert (Hem : DB.empty b = false).
  { unfold DB.empty. unfold whole in Hw. rewrite Hw, Ec. apply Z.eqb_neq. unfold zlen. simpl. lia. }
  rewrite Hem. rewrite <- Ec in *.
  destruct al as [|a al]; [rewrite Ec in E; discriminate E|].
  inversion Hsm as [|a' al' Hs Hsm']; subst. unfold acks_bytes in E. cbn [fmap list_fmap concat] in E.
  pose proof (ack_codes a Hs) as HC.
  destruct (ack_bytes a) as [|y q] eqn:Ea; [exfalso; by apply (codes_ne _ _ _ _ HC)|].
  assert (y = byte) as -> by (rewrite Ec in E; by injection E as ? _). rewrite <- Ea in *.
  rewrite (ack_dispatch e b byte cur a q Hs Ec Hw Ea). unfold decode_then.
  destruct (cut b (ack_bytes a) rest _ Hw ltac:(lia) E) as [(c' & E1 & E2 & Hho)|[Hch Hsh]].
  - rewrite (codes_full _ _ _ _ HC b c' Hho ltac:(lia)).
    cbn [ack_run] in Hrun. destruct (ack_step (astate e) a) as [s1|] eqn:Es; [|done]. simpl in Hrun.
    pose proof (ack_run_mono _ _ _ Hrun) as Hmono.
    destruct (perform_ok e a s1 He Hs Es ltac:(lia)) as (e1 & HP & Hin & Hst & Hig).
    replace (match a with AHeader _ => AHeader (ack_value a) | ACancel _ => ACancel (ack_value a)
      | AIncrement _ => AIncrement (ack_value a) end) with a by (by destruct a).
    rewrite HP. unfold mbind, option_bind. rewrite bool_decide_eq_true_2 by done.
    set (k := length (ack_bytes a)). assert (Hk : (1 <= k)%nat) by (unfold k; rewrite Ea; simpl; lia).
    assert (Hkl : (k <= length (DB.cursor_ b))%nat) by (rewrite E1, length_app; fold k; lia).
    change (zlen (ack_bytes a)) with (Z.of_nat k).
    destruct (skip_whole b k Hw Hkl ltac:(lia)) as [Hw1 Hz1].
    pose proof (consumed_skip b k Hw Hkl ltac:(lia) ltac:(lia)) as Hcs.
    assert (Hc1 : DB.cursor_ (DB.skip b (Z.of_nat k)) = c')
      by (unfold DB.skip; simpl; rewrite Nat2Z.id, E1; apply drop_app_length).
    destruct (IH e1 (DB.skip b (Z.of_nat k)) rest al fuel (DB.consumedBytes b) s') as
      (err & kk & e' & b' & al1 & al2 & HL & -> & Hin' & Hig' & Hr' & Hend); try done.
    + rewrite E1, length_app in Hn. fold k in Hn. rewrite Hc1. lia.
    + lia.
    + apply Hin.
    + change (DB.totalBytes_ (DB.skip b (Z.of_nat k))) with (DB.totalBytes_ b). lia.
    + by rewrite Hc1.
    + by rewrite Hst.
    + by rewrite (informed_count e e1 Hin).
    + exists err, kk, e', b', (a :: al1), al2. split; [exact HL|]. split; [done|].
      split; [by eapply informed_trans|]. split; [congruence|].
      split; [simpl; rewrite Es; simpl; by rewrite <- Hst|].
      destruct Hend as [(-> & Hco & Hre)|(-> & Hne & j & Hj & -> & Hre)]; [left|right]; split_and!; try done; try lia.
      exists (k + j)%nat. rewrite Hc1 in *. split; [rewrite E1, length_app; fold k; lia|]. split; [lia|].
      rewrite E1. unfold k. rewrite drop_app_add. done.
  - destruct (codes_short _ _ _ _ HC b Hsh ltac:(lia)) as [b' ->]. unfold mbind, option_bind.
    rewrite bool_decide_eq_false_2 by done. eexists _, _, e, b', [], (a :: al). split; [reflexivity|].
    split_and!; try done. right. split_and!; try done. exists 0%nat. rewrite drop_0. split_and!; [lia|lia|exact E].
Qed.

(** A piece of the decoder stream. *)
Lemma acks_feed e buf rest al s' :
  settled e -> decoderIngress_ e ++ buf ++ rest = acks_bytes al -> Forall ack_small al ->
  ack_run (astate e) al = Some s' -> snd s' <= QT.insertCount_ (table_ e) ->
  zlen (decoderIngress_ e ++ buf) < 2 ^ 32 ->
  exists e' al1 al2, decodeDecoderStream e buf = Some (NONE, e') /\ al = al1 ++ al2 /\
    informed e e' /\ ack_run (astate e) al1 = Some (astate e') /\
    decoderIngress_ e' ++ rest = acks_bytes al2 /\ (rest = [] -> al2 = []).
Proof.
  intros He E Hsm Hrun Hle Hz. unfold decodeDecoderStream. set (I := decoderIngress_ e ++ buf) in *.
  pose proof (zlen_nonneg I). rewrite (u32_id (zlen I)) by (unfold_ints; lia).
  set (b := DB.create I (zlen I) 0). rewrite app_assoc in E. fold I in E.
  destruct (acks_loop (length I) e b rest al (S (length I)) 0 s') as
    (err & k & e' & b' & al1 & al2 & HL & -> & Hin & Hig & Hr & Hend); try done; try lia.
  rewrite HL. unfold mbind, option_bind.
  assert (Hc0 : DB.consumedBytes b = 0) by (unfold DB.consumedBytes; simpl; by rewrite Z.sub_diag).
  assert (Hw : forall ing, informed e (with_ingress e' ing) /\ astate (with_ingress e' ing) = astate e').
  { intros ing. destruct Hin as [[] ?]. split; [|done]. split; [by constructor|done]. }
  destruct Hend as [(-> & Hco & Hre)|(-> & Hne & j & Hj & -> & Hre)].
  - rewrite bool_decide_eq_false_2 by done. eexists _, al1, al2. split; [reflexivity|]. split; [done|].
    split; [apply Hw|]. split; [done|]. rewrite Hco, Hc0. simpl. unfold zlen. rewrite Z.add_0_l, Nat2Z.id, drop_all.
    split; [done|]. intros ->. destruct al2 as [|a al2]; [done|].
    apply Forall_app in Hsm as [_ Hsm]. inversion Hsm as [|a' al' Hs _]; subst.
    exfalso. apply (codes_ne _ _ _ _ (ack_codes a Hs)). unfold acks_bytes in Hre. simpl in Hre.
    symmetry in Hre. by apply app_eq_nil in Hre as [-> _].
  - rewrite bool_decide_eq_true_2 by done. eexists _, al1, al2. split; [reflexivity|]. split; [done|].
    split; [apply Hw|]. split; [done|]. rewrite Hc0. simpl. rewrite Z.add_0_l, Nat2Z.id. done.
Qed.

(** ** Blocks that are added while acknowledgements are in flight *)

Definition add_block (m : gmap Z (list OutstandingBlock)) (sid : Z) (b : OutstandingBlock)
  : gmap Z (list OutstandingBlock) :=
  <[sid := default [] (m !! sid) ++ [b]]> m.

Lemma add_block_lookup m sid b sid' :
  default [] (add_block m sid b !! sid') =
  if decide (sid' = sid) then default [] (m !! sid) ++ [b] else default [] (m !! sid').
Proof.
  unfold add_block. destruct (decide (sid' = sid)) as [->|Hne].
  - by rewrite lookup_insert_eq.
  - by rewrite lookup_insert_ne.
Qed.

Lemma replaced_add m sid b sid' b0 rest :
  m !! sid' = Some (b0 :: rest) ->
  exists rest', add_block m sid b !! sid' = Some (b0 :: rest') /\
    replaced (add_block m sid b) sid' rest' = add_block (replaced m sid' rest) sid b.
Proof.
  intros Hl. unfold add_block. destruct (decide (sid = sid')) as [<-|Hne].
  - exists (rest ++ [b]). rewrite Hl. simpl. rewrite lookup_insert_eq. split; [done|].
    destruct rest as [|b1 rest]; simpl; rewrite insert_insert_eq.
    + by rewrite lookup_delete_eq, insert_delete_eq.
    + by rewrite lookup_insert_eq, insert_insert_eq.
  - exists rest. rewrite lookup_insert_ne by done. split; [done|].
    destruct rest as [|b1 rest]; simpl.
    + by rewrite delete_insert_ne, lookup_delete_ne.
    + by rewrite insert_insert_ne, (lookup_insert_ne m) by done.
Qed.

Lemma ack_run_add l sid b : forall m k m' k',
  ack_run (m, k) l = Some (m', k') -> ACancel sid ∉ l ->
  ack_run (add_block m sid b, k) l = Some (add_block m' sid b, k').
Proof.
  induction l as [|a l IH]; intros m k m' k' Hr Hn; simpl in *; [by injection Hr as -> ->|].
  destruct a as [s|s|n]; simpl in *.
  - destruct (m !! s) as [[|b0 rest]|] eqn:El; try done. simpl in Hr.
    destruct (replaced_add m sid b s b0 rest El) as (rest' & -> & E). simpl. rewrite E.
    apply IH; [done|set_solver].
  - simpl in *. replace (delete s (add_block m sid b)) with (add_block (delete s m) sid b).
    + apply IH; [done|set_solver].
    + unfold add_block. rewrite delete_insert_ne, lookup_delete_ne by set_solver. done.
  - destruct (1 <=? n); [|done]. simpl in *. apply IH; [done|set_solver].
Qed.

(** What is left of a stream was there before. *)
Lemma ack_run_suffix l : forall s s' sid l',
  ack_run s l = Some s' -> fst s' !! sid = Some l' -> exists l0, fst s !! sid = Some (l0 ++ l').
Proof.
  induction l as [|a l IH]; intros s s' sid l' Hr Hl; simpl in Hr; [injection Hr as <-; by exists []|].
  destruct (ack_step s a) as [s1|] eqn:Es; [|done]. simpl in Hr.
  destruct (IH s1 s' sid l' Hr Hl) as [l0 H0]. destruct a as [x|x|n]; simpl in Es.
  - destruct (fst s !! x) as [[|b rest]|] eqn:El; try done. injection Es as <-. simpl in H0.
    rewrite replaced_lookup in H0. destruct (decide (x = sid)) as [<-|]; [|by exists l0].
    exists (b :: l0). rewrite El. destruct rest; [done|]. by injection H0 as ->.
  - injection Es as <-. simpl in H0. apply lookup_delete_Some in H0 as [_ H0]. by exists l0.
  - destruct (1 <=? n); [|done]. injection Es as <-. by exists l0.
Qed.

End QPACKAcks.
