(* ===== verification/QPACKSession.v ===== *)
(** * An encoder and a decoder, connected

    A session is a [QPACKEncoder], the peer's [QPACKDecoder], and what is under way
    between them: the bytes of the encoder stream, those of the decoder stream, and
    header blocks, each on a stream of its own.  [step] is one thing that happens: a
    block is encoded, bytes of either stream or a block arrive, the decoder reports
    insertions or gives up a stream.  The three kinds of channel are independent, so
    a block can arrive before the insertions it refers to; then the decoder holds it
    back, and the parser of its stream is paused ([HQStreamCodec]). *)

From stdpp Require Import gmap.
From S2P Require Import Prelude HPACKBuffers HeaderTable HPACKContext QPACKHeaderTable.
From S2P Require Import QPACKContext QPACKEncoder QPACKDecoder.

Module QPACKSession.
Import HPACK HPACKHeaderName QPACKDecoder.
Module E := QPACKEncoder.
Module D := QPACKDecoder.

(** [paused]: the streams with [parserPaused_] set; [building]: the fields reported
    for a block that is not complete; [received]: the blocks that are. *)
Record session := mkSession {
  enc : E.t; dec : D.t; control : list Z; acks : list Z;
  inflight : gmap Z (list (list Z)); paused : gset Z; closed : gset Z;
  building : gmap Z (list HPACKHeader.t); received : gmap Z (list (list HPACKHeader.t));
  failed : bool }.

Definition with_enc (s : session) (e : E.t) : session :=
  mkSession e (dec s) (control s) (acks s) (inflight s) (paused s) (closed s) (building s) (received s)
    (failed s).
Definition with_dec (s : session) (d : D.t) : session :=
  mkSession (enc s) d (control s) (acks s) (inflight s) (paused s) (closed s) (building s) (received s)
    (failed s).
Definition with_bytes (s : session) (c a : list Z) : session :=
  mkSession (enc s) (dec s) c a (inflight s) (paused s) (closed s) (building s) (received s) (failed s).
Definition with_inflight (s : session) (m : gmap Z (list (list Z))) : session :=
  mkSession (enc s) (dec s) (control s) (acks s) m (paused s) (closed s) (building s) (received s)
    (failed s).
Definition with_paused (s : session) (p : gset Z) : session :=
  mkSession (enc s) (dec s) (control s) (acks s) (inflight s) p (closed s) (building s) (received s)
    (failed s).
Definition with_closed (s : session) (c : gset Z) : session :=
  mkSession (enc s) (dec s) (control s) (acks s) (inflight s) (paused s) c (building s) (received s)
    (failed s).
Definition with_fields (s : session) (b : gmap Z (list HPACKHeader.t))
    (r : gmap Z (list (list HPACKHeader.t))) : session :=
  mkSession (enc s) (dec s) (control s) (acks s) (inflight s) (paused s) (closed s) b r (failed s).
Definition fail (s : session) (err : DecodeError) : session :=
  mkSession (enc s) (dec s) (control s) (acks s) (inflight s) (paused s) (closed s) (building s)
    (received s) (failed s || negb (bool_decide (err = NONE))).

Definition fields_of {A} (m : gmap Z (list A)) (sid : Z) : list A := default [] (m !! sid).

(** The callbacks of [HQStreamCodec]; its callback object is the stream. *)
Definition handle (s : session) (ev : event) : option session :=
  match ev with
  | onHeader sid h =>
      Some (with_fields s (<[sid := fields_of (building s) sid ++ [h]]> (building s)) (received s))
  | onHeadersComplete sid _ _ _ acknowledge =>
      out ← (if acknowledge then encodeHeaderAck sid else Some []);
      let s := with_fields s (<[sid := []]> (building s))
                 (<[sid := fields_of (received s) sid ++ [fields_of (building s) sid]]> (received s)) in
      Some (with_paused (with_bytes s (control s) (acks s ++ out)) (paused s ∖ {[sid]}))
  | onDecodeError _ err => Some (fail s err)
  end.

Fixpoint handle_all (s : session) (evs : list event) : option session :=
  match evs with
  | [] => Some s
  | ev :: evs => s ← handle s ev; handle_all s evs
  end.

Inductive op :=
| Encode (sid : Z) (headers : list HPACKHeader.t) (headroom maxEncoderStreamBytes : Z)
| DeliverControl (n : nat)
| DeliverBlock (sid : Z)
| DeliverAcks (n : nat)
| Increment
| Cancel (sid : Z).

Section step.
Context `{CH : CommonHeaders}.

Definition encode_op (s : session) (sid : Z) (headers : list HPACKHeader.t) (headroom n : Z)
  : option session :=
  '((c, block), e) ← E.encode (enc s) headers headroom sid n;
  let s := with_bytes (with_enc s e) (control s ++ c) (acks s) in
  Some (with_inflight s (<[sid := fields_of (inflight s) sid ++ [block]]> (inflight s))).

Definition control_op (s : session) (n : nat) : option session :=
  '(err, evs, d) ← decodeEncoderStream (dec s) (take n (control s));
  handle_all (fail (with_bytes (with_dec s d) (drop n (control s)) (acks s)) err) evs.

(** Nothing is read from a stream that is paused. *)
Definition block_op (s : session) (sid : Z) : option session :=
  match fields_of (inflight s) sid with
  | block :: rest =>
      if decide (sid ∈ paused s) then Some s
      else
        '(evs, d) ← decodeStreaming (dec s) sid block (zlen block) sid;
        handle_all (with_paused (with_inflight (with_dec s d) (<[sid := rest]> (inflight s)))
                      ({[sid]} ∪ paused s)) evs
  | [] => Some s
  end.

Definition acks_op (s : session) (n : nat) : option session :=
  '(err, e) ← E.decodeDecoderStream (enc s) (take n (acks s));
  Some (fail (with_bytes (with_enc s e) (control s) (drop n (acks s))) err).

Definition increment_op (s : session) : option session :=
  '(out, d) ← encodeInsertCountInc (dec s);
  Some (with_bytes (with_dec s d) (control s) (acks s ++ default [] out)).

Definition cancel_op (s : session) (sid : Z) : option session :=
  '(out, d) ← encodeCancelStream (dec s) sid;
  let s := with_bytes (with_dec s d) (control s) (acks s ++ out) in
  Some (with_closed (with_paused (with_inflight s (delete sid (inflight s))) (paused s ∖ {[sid]}))
          ({[sid]} ∪ closed s)).

Definition step (s : session) (o : op) : option session :=
  match o with
  | Encode sid headers headroom n => encode_op s sid headers headroom n
  | DeliverControl n => control_op s n
  | DeliverBlock sid => block_op s sid
  | DeliverAcks n => acks_op s n
  | Increment => increment_op s
  | Cancel sid => cancel_op s sid
  end.

Fixpoint run (s : session) (ops : list op) : option session :=
  match ops with
  | [] => Some s
  | o :: ops => s ← step s o; run s ops
  end.

(** Two [QPACKCodec]s after the exchange of settings: the decoder admits a table of
    [tableSize] bytes and [maxBlocking] blocks that wait. *)
Definition start (tableSize maxUncompressed maxBlocking : Z) : option session :=
  '(_, e) ← E.setHeaderTableSize (E.setMaxVulnerable (E.create true 0) maxBlocking) tableSize true;
  d ← setHeaderTableMaxSize (setMaxBlocking (D.create 0 maxUncompressed) maxBlocking) tableSize;
  Some (mkSession e d [] [] ∅ ∅ ∅ ∅ ∅ false).

End step.

(** The blocks under way on all streams. *)
Definition in_flight (s : session) : list (list Z) := concat (snd <$> map_to_list (inflight s)).

(** The decoder would hold the block back if it arrived now: it requires insertions that
    have not arrived. *)
Definition would_block (d : D.t) (block : list Z) : bool :=
  match decodePrefix (set_err d HPACK.NONE, DB.create block (zlen block) (u32 (maxUncompressed_ d))) with
  | Some (r, (d, _)) => default 0 r >? getInsertCount d
  | None => false
  end.

(** What was encoded for a stream. *)
Fixpoint sent (ops : list op) (sid : Z) : list (list HPACKHeader.t) :=
  match ops with
  | [] => []
  | Encode sid' headers _ _ :: ops => if decide (sid' = sid) then headers :: sent ops sid else sent ops sid
  | _ :: ops => sent ops sid
  end.

End QPACKSession.
