(* ===== verification/QPACKBooks.v ===== *)
(** * The blocks of a QPACK session

    [books] ties what the two sides know of the blocks that are under way: the
    encoder's [outstanding_] after the acknowledgements in flight is what the decoder
    has not completed, stream by stream; the blocks that wait in the decoder are the
    first ones of the streams that are paused; and what was received, followed by what
    is under way, is what was encoded.  Every event of a session keeps it. *)

From stdpp Require Import gmap.
From S2P Require Import Prelude Huffman HPACKBuffers HeaderTable HPACKContext QPACKHeaderTable.
From S2P Require Import QPACKContext QPACKEncoder QPACKDecoder QPACKWire QPACKTables.
From S2P Require Import QPACKReads QPACKFeed QPACKTracking QPACKEncoding QPACKAcks.
From S2P Require Import QPACKSession.

#[local] Set Warnings "-clear-no-such-hyp".

Module QPACKBooks.
Import HPACK HPACKHeader HPACKHeaderName HeaderSpec QPACKRing Dyn QPACKReads QPACKFeed QPACKTracking
  QPACKEncoding QPACKAcks QPACKSession.
Import QPACKEncoder (OutstandingBlock, minInUseIndex, maxInUseIndex, vulnerable).
Module E := QPACKEncoder.
Module D := QPACKDecoder.
Module QT := QPACKHeaderTable.

(** ** Blocks that are under way *)

Record msg := mkMsg {
  m_fields : list HPACKHeader.t; m_body : list Z; m_base : Z; m_ric : Z;
  m_needs : list (Z * HPACKHeader.t); m_ob : option OutstandingBlock }.

Definition m_block (maxTable : Z) (m : msg) : list Z :=
  prefix_bytes maxTable (m_base m) (m_ric m) ++ m_body m.

(** Its entry in the decoder's queue. *)
Definition entry (maxTable sid : Z) (m : msg) : Z * D.PendingBlock :=
  pending_of sid (m_base m) (m_ric m) (prefix_bytes maxTable (m_base m) (m_ric m)) (m_body m) sid.

(** The function [f] with another value at [k]. *)
Definition upd {A} (f : Z -> A) (k : Z) (x : A) : Z -> A := fun k' => if decide (k' = k) then x else f k'.

Lemma upd_eq {A} (f : Z -> A) k x : upd f k x k = x.
Proof. unfold upd. by rewrite decide_True. Qed.

Lemma upd_ne {A} (f : Z -> A) k x k' : k' <> k -> upd f k x k' = f k'.
Proof. intros H. unfold upd. by rewrite decide_False. Qed.

Lemma fields_of_insert {A} (m : gmap Z (list A)) k x k' :
  fields_of (<[k := x]> m) k' = if decide (k' = k) then x else fields_of m k'.
Proof.
  unfold fields_of. destruct (decide (k' = k)) as [->|Hne].
  - by rewrite lookup_insert_eq.
  - by rewrite lookup_insert_ne.
Qed.

Lemma fields_of_delete {A} (m : gmap Z (list A)) k k' :
  fields_of (delete k m) k' = if decide (k' = k) then [] else fields_of m k'.
Proof.
  unfold fields_of. destruct (decide (k' = k)) as [->|Hne].
  - by rewrite lookup_delete_eq.
  - by rewrite lookup_delete_ne.
Qed.

Lemma fields_of_replaced m sid rest sid' :
  fields_of (replaced m sid rest) sid' = if decide (sid' = sid) then rest else fields_of m sid'.
Proof.
  unfold fields_of. rewrite replaced_lookup. destruct (decide (sid = sid')) as [<-|Hne].
  - rewrite decide_True by done. by destruct rest.
  - by rewrite decide_False by done.
Qed.

Section session.
Context `{CH : CommonHeaders}.

(** The settings of the decoder. *)
Variables maxTable maxUncompressed : Z.

(** What the encoder knows of a block that is under way. *)
Record msg_ok (e : E.t) (m : msg) : Prop := {
  k_forms : forms (m_base m) (m_needs m) (m_body m) (m_fields m);
  k_base : 0 <= m_base m <= QT.insertCount_ (E.table_ e);
  k_ric : 0 <= m_ric m <= QT.insertCount_ (E.table_ e);
  k_need i f : (i, f) ∈ m_needs m -> i <= m_ric m /\ field (view (E.table_ e)) i = Some f;
  k_none : m_ric m = 0 -> m_needs m = [] /\ m_ob m = None;
  k_some : m_ric m <> 0 -> (exists f, (m_ric m, f) ∈ m_needs m) /\ exists b, m_ob m = Some b /\
    maxInUseIndex b = m_ric m /\ (forall i f, (i, f) ∈ m_needs m -> minInUseIndex b <= i) /\
    (vulnerable b = true \/ m_ric m <= QT.ackedInsertCount_ (E.table_ e));
  k_admitted : admitted maxUncompressed (m_fields m);
  k_body : m_ric m <> 0 -> m_body m <> [] }.

(** The blocks [P sid] of each stream are under way, the acknowledgements [al] in
    flight, those of the streams [sids] wait in the decoder, which has acknowledged
    [a] insertions. *)
Record books (s : session) (a : Z) (q : list (Z * D.PendingBlock)) (sids : list Z) (P : Z -> list msg)
    (al : list ack) (history : Z -> list (list HPACKHeader.t)) : Prop := {
  b_acks : E.decoderIngress_ (enc s) ++ acks s = acks_bytes al;
  b_small : Forall ack_small al;
  b_run : exists m', ack_run (astate (enc s)) al = Some (m', a) /\
    forall sid, fields_of m' sid = omap m_ob (P sid);
  b_cancel sid : ACancel sid ∈ al -> sid ∈ closed s;
  b_closed sid : sid ∈ closed s -> P sid = [];
  b_msgs sid m : m ∈ P sid -> msg_ok (enc s) m /\ 0 <= sid < 2 ^ 62;
  b_flight sid : fields_of (inflight s) sid =
    m_block maxTable <$> (if decide (sid ∈ paused s) then tail (P sid) else P sid);
  b_paused sid : sid ∈ paused s <-> sid ∈ sids;
  b_nodup : NoDup sids;
  b_queue : Forall2 (fun p sid => exists m, head (P sid) = Some m /\ p = entry maxTable sid m) q sids;
  b_building sid : fields_of (building s) sid = [];
  b_received sid : sid ∉ closed s ->
    fields_of (received s) sid ++ (m_fields <$> P sid) = history sid;
  b_prefix sid : fields_of (received s) sid `prefix_of` history sid;
  b_failed : failed s = false;
  b_nonneg : 0 <= a }.

(** ** A block is complete *)

Definition finish (s : session) (sid : Z) (hs : list HPACKHeader.t) (ack : bool) : session :=
  with_paused
    (with_bytes
       (with_fields s (<[sid := []]> (building s))
          (<[sid := fields_of (received s) sid ++ [hs]]> (received s)))
       (control s) (acks s ++ if ack then ack_bytes (AHeader sid) else []))
    (paused s ∖ {[sid]}).

Lemma headers_handled sid hs evs : forall s,
  exists B, handle_all s ((D.onHeader sid <$> hs) ++ evs) =
      handle_all (with_fields s B (received s)) evs /\
    fields_of B sid = fields_of (building s) sid ++ hs /\
    <[sid := []]> B = <[sid := []]> (building s).
Proof.
  induction hs as [|h hs IH]; intros s.
  { exists (building s). rewrite app_nil_r. by destruct s. }
  cbn [fmap list_fmap app handle_all handle]. unfold mbind, option_bind.
  set (s1 := with_fields s _ _). destruct (IH s1) as (B & -> & HB & HI). exists B. split; [done|].
  unfold s1 in HB, HI. cbn [building with_fields] in HB, HI.
  rewrite fields_of_insert, decide_True, <- app_assoc in HB by done. split; [done|].
  by rewrite HI, insert_insert_eq.
Qed.

Lemma handle_all_app s evs1 evs2 :
  handle_all s (evs1 ++ evs2) = s1 ← handle_all s evs1; handle_all s1 evs2.
Proof.
  revert s. induction evs1 as [|ev evs1 IH]; intros s; simpl; [done|].
  destruct (handle s ev); simpl; [apply IH|done].
Qed.

Lemma encodeHeaderAck_bytes sid :
  0 <= sid < 2 ^ 62 -> D.encodeHeaderAck sid = Some (ack_bytes (AHeader sid)).
Proof.
  intros Hs. unfold D.encodeHeaderAck, D.encodeInstruction, HPACKEncodeBuffer.encodeInteger_instr.
  rewrite EncodeSpec.encodeInteger_spec; [done|simpl; solve_pattern|unfold_ints; lia].
Qed.

Lemma handle_completed s sid hs ack evs :
  completed sid hs ack evs -> fields_of (building s) sid = [] -> 0 <= sid < 2 ^ 62 ->
  handle_all s evs = Some (finish s sid hs ack).
Proof.
  intros (x & y & z & ->) Hb Hs.
  destruct (headers_handled sid hs [D.onHeadersComplete sid x y z ack] s) as (B & -> & HB & HI).
  rewrite Hb in HB. simpl in HB. cbn [handle_all handle].
  assert (Ho : (if ack then D.encodeHeaderAck sid else Some []) =
    Some (if ack then ack_bytes (AHeader sid) else []))
    by (destruct ack; [by apply encodeHeaderAck_bytes|done]).
  rewrite Ho. unfold mbind, option_bind, finish. cbn [building received with_fields].
  by rewrite HI, HB.
Qed.

(** What [books] is about. *)
Definition same_books (s s' : session) : Prop :=
  enc s' = enc s /\ acks s' = acks s /\ inflight s' = inflight s /\ paused s' = paused s /\
  closed s' = closed s /\ building s' = building s /\ received s' = received s /\ failed s' = failed s.

Lemma books_same s s' a q sids P al h : same_books s s' -> books s a q sids P al h -> books s' a q sids P al h.
Proof.
  intros (E1 & E2 & E3 & E4 & E5 & E6 & E7 & E8) []. constructor; by rewrite ?E1, ?E2, ?E3, ?E4, ?E5, ?E6, ?E7, ?E8.
Qed.

(** The block leaves the stream and joins the queue, anywhere. *)
Lemma books_enqueue s a q1 q2 sids P al h sid m rest :
  books s a (q1 ++ q2) sids P al h -> sid ∉ paused s -> P sid = m :: rest ->
  exists sids', books (with_paused (with_inflight s (<[sid := m_block maxTable <$> rest]> (inflight s)))
      ({[sid]} ∪ paused s)) a (q1 ++ entry maxTable sid m :: q2) sids' P al h.
Proof.
  intros H Hp HP. destruct H as [H1 H2 H3 H4 H5 H6 H7 H8 H9 H10 H11 H12 H13 H14 H15].
  apply Forall2_app_inv_l in H10 as (s1 & s2 & F1 & F2 & ->).
  exists (s1 ++ sid :: s2). constructor; try done; cbn [inflight paused with_paused with_inflight].
  - intros sid'. rewrite fields_of_insert. destruct (decide (sid' = sid)) as [->|Hne].
    + rewrite decide_True by set_solver. by rewrite HP.
    + rewrite H7. destruct (decide (sid' ∈ paused s)); [rewrite decide_True by set_solver; done|].
      by rewrite decide_False by set_solver.
  - intros sid'. specialize (H8 sid'). set_solver.
  - rewrite H8 in Hp. apply NoDup_app in H9 as (N1 & N2 & N3). apply NoDup_app. split; [done|].
    split; [set_solver|]. apply NoDup_cons. set_solver.
  - apply Forall2_app; [done|]. constructor; [|done]. exists m. by rewrite HP.
Qed.

(** The first block of the queue is complete. *)
Lemma books_finish s a p q sid sids P al h m rest :
  books s a (p :: q) (sid :: sids) P al h -> P sid = m :: rest ->
  books (finish s sid (m_fields m) (negb (m_ric m =? 0))) (Z.max a (m_ric m)) q sids (upd P sid rest)
    (al ++ if m_ric m =? 0 then [] else [AHeader sid]) h.
Proof.
  intros H HP. destruct H as [H1 H2 H3 H4 H5 H6 H7 H8 H9 H10 H11 H12 H13 H14 H15].
  apply NoDup_cons in H9 as [N1 N2]. inversion H10 as [|x1 x2 x3 x4 _ F2]; subst.
  destruct (H6 sid m) as [Hm Hsid]; [rewrite HP; by left|].
  assert (Hcl : sid ∉ closed s) by (intros Hc; rewrite (H5 sid Hc) in HP; done).
  assert (Hpa : sid ∈ paused s) by (apply H8; by left).
  constructor; cbn [enc acks inflight paused closed building received failed finish with_paused with_bytes with_fields].
  - rewrite app_assoc, H1. unfold acks_bytes. rewrite fmap_app, concat_app.
    destruct (m_ric m =? 0); simpl; by rewrite ?app_nil_r.
  - apply Forall_app. split; [done|]. destruct (m_ric m =? 0); repeat constructor; simpl; lia.
  - destruct H3 as (m' & Hr & Hom). destruct (Z.eqb_spec (m_ric m) 0) as [E|E].
    + exists m'. rewrite app_nil_r, Z.max_l.
      * split; [done|]. intros sid'. rewrite Hom. unfold upd. destruct (decide (sid' = sid)) as [->|]; [|done].
        rewrite HP. simpl. destruct (k_none _ _ Hm E) as [_ ->]. done.
      * lia.
    + destruct (k_some _ _ Hm E) as (_ & b & Hb & Hbm & _).
      assert (Hl : m' !! sid = Some (b :: omap m_ob rest)).
      { specialize (Hom sid). rewrite HP in Hom. simpl in Hom. rewrite Hb in Hom. unfold fields_of in Hom.
        destruct (m' !! sid) as [l|]; simpl in Hom; [by rewrite Hom|done]. }
      exists (replaced m' sid (omap m_ob rest)). rewrite ack_run_app, Hr. simpl. rewrite Hl, Hbm. split; [done|].
      intros sid'. rewrite fields_of_replaced. unfold upd. destruct (decide (sid' = sid)); [done|]. apply Hom.
  - intros sid' [Hin|Hin]%elem_of_app; [by apply H4|]. destruct (m_ric m =? 0); set_solver.
  - intros sid' Hc. rewrite upd_ne by (intros ->; done). by apply H5.
  - intros sid' m' Hin. unfold upd in Hin. destruct (decide (sid' = sid)) as [->|]; [|by apply H6].
    apply H6. rewrite HP. by right.
  - intros sid'. rewrite H7. unfold upd. destruct (decide (sid' = sid)) as [->|].
    + rewrite decide_True by done. rewrite decide_False by set_solver. by rewrite HP.
    + destruct (decide (sid' ∈ paused s)); [by rewrite decide_True by set_solver|by rewrite decide_False by set_solver].
  - intros sid'. specialize (H8 sid'). set_solver.
  - done.
  - clear -F2 N1. induction F2 as [|p' sid' q sids (m' & Hm & ->) F2 IH]; constructor.
    + exists m'. rewrite upd_ne by set_solver. done.
    + apply IH. set_solver.
  - intros sid'. rewrite fields_of_insert. by destruct (decide _).
  - intros sid' Hc. rewrite fields_of_insert. unfold upd. destruct (decide (sid' = sid)) as [->|]; [|by apply H12].
    rewrite <- app_assoc. rewrite <- (H12 sid Hc), HP. done.
  - intros sid'. rewrite fields_of_insert. destruct (decide (sid' = sid)) as [->|]; [|done].
    rewrite <- (H12 sid Hcl), HP. simpl. exists (m_fields <$> rest). by rewrite <- app_assoc.
  - done.
  - lia.
Qed.

(** The blocks that are ready are complete, one after the other. *)
Definition fields_at (P : Z -> list msg) (sid : Z) : list HPACKHeader.t :=
  match P sid with m :: _ => m_fields m | [] => [] end.

(** What handling a block leaves alone. *)
Definition same_peers (s s' : session) : Prop :=
  enc s' = enc s /\ dec s' = dec s /\ control s' = control s /\ closed s' = closed s /\
  paused s' ⊆ paused s.

Lemma books_drained q1 : forall sids1 evs s a q2 sids2 P al h,
  drained q1 (fields_at P <$> sids1) evs -> length q1 = length sids1 ->
  books s a (q1 ++ q2) (sids1 ++ sids2) P al h ->
  (forall sid, sid ∈ sids1 -> exists m rest, P sid = m :: rest /\ m_ric m <> 0) ->
  exists s' P' al', handle_all s evs = Some s' /\ same_peers s s' /\
    books s' (foldl Z.max a (fst <$> q1)) q2 sids2 P' al' h /\
    (forall sid, sid ∈ sids2 -> P' sid = P sid).
Proof.
  induction q1 as [|p q1 IH]; intros sids1 evs s a q2 sids2 P al h Hd Hlen Hb Hric.
  { destruct sids1; [|done]. inversion Hd; subst. exists s, P, al. by split_and!. }
  destruct sids1 as [|sid sids1]; [done|]. inversion Hd as [|x1 x2 x3 x4 ev1 ev2 Hc Hd' E1 E2 E3]; subst.
  destruct (Hric sid) as (m & rest & HP & Hr0); [by left|].
  pose proof (b_queue _ _ _ _ _ _ _ Hb) as HQ. simpl in HQ. inversion HQ as [|y1 y2 y3 y4 (m' & Hm' & ->) _]; subst.
  rewrite HP in Hm'. injection Hm' as <-. unfold fields_at in Hc. rewrite HP in Hc.
  change (D.cb (snd (entry maxTable sid m))) with sid in Hc.
  destruct (b_msgs _ _ _ _ _ _ _ Hb sid m) as [_ Hsid]; [rewrite HP; by left|].
  rewrite handle_all_app, (handle_completed s sid (m_fields m) true ev1 Hc (b_building _ _ _ _ _ _ _ Hb sid) Hsid).
  unfold mbind, option_bind.
  pose proof (books_finish s a _ (q1 ++ q2) sid (sids1 ++ sids2) P al h m rest Hb HP) as Hb'.
  rewrite (proj2 (Z.eqb_neq (m_ric m) 0)) in Hb' by done. cbn [negb] in Hb'.
  pose proof (b_nodup _ _ _ _ _ _ _ Hb) as Hnd. simpl in Hnd. apply NoDup_cons in Hnd as [Hnd _].
  assert (Hsame : forall sid', sid' ∈ sids1 ++ sids2 -> upd P sid rest sid' = P sid')
    by (intros sid' Hin; apply upd_ne; intros ->; done).
  destruct (IH sids1 ev2 (finish s sid (m_fields m) true) (Z.max a (m_ric m)) q2 sids2 (upd P sid rest)
    (al ++ [AHeader sid]) h) as (s' & P' & al' & -> & Hp & Hb2 & HP2); try exact Hb'.
  - replace (fields_at (upd P sid rest) <$> sids1) with (fields_at P <$> sids1); [done|].
    apply list_fmap_ext. intros i sid' Hl. unfold fields_at. rewrite Hsame; [done|].
    apply elem_of_app. left. by eapply list_elem_of_lookup_2.
  - by injection Hlen.
  - intros sid' Hin. rewrite Hsame by set_solver. apply Hric. by right.
  - exists s', P', al'. split; [done|]. split_and!.
    + destruct Hp as (? & ? & ? & ? & Hp). unfold same_peers. split_and!; try done. simpl in Hp. set_solver.
    + exact Hb2.
    + intros sid' Hin. rewrite HP2, Hsame by set_solver. done.
Qed.

(** A stream that is paused has a block that waits. *)
Lemma books_head s a q sids P al h sid :
  books s a q sids P al h -> sid ∈ paused s -> exists m rest, P sid = m :: rest.
Proof.
  intros Hb Hp. apply (b_paused _ _ _ _ _ _ _ Hb) in Hp. pose proof (b_queue _ _ _ _ _ _ _ Hb) as HQ. clear Hb.
  induction HQ as [|p sid' q sids (m & Hm & _) HF IH]; [by apply elem_of_nil in Hp|].
  apply elem_of_cons in Hp as [->|Hp]; [|by apply IH].
  destruct (P sid') as [|m0 rest]; [done|]. by exists m0, rest.
Qed.

(** ** The encoder writes a block *)

Lemma outstanding_min e sid l b :
  settled e -> E.outstanding_ (E.refs_ e) !! sid = Some l -> b ∈ l ->
  QT.minInUseIndex_ (E.table_ e) <= minInUseIndex b.
Proof.
  intros [_ Ht Hi Hu] Hl Hb. rewrite Hu, (idle_min _ _ Ht Hi). apply min_of_le.
  rewrite (t_mins _ _ Ht). apply list_elem_of_fmap_2. by eapply blocks_elem.
Qed.

Lemma books_outstanding s a q sids P al h sid m b :
  books s a q sids P al h -> m ∈ P sid -> m_ob m = Some b ->
  exists l, E.outstanding_ (E.refs_ (enc s)) !! sid = Some l /\ b ∈ l.
Proof.
  intros Hb Hm Hob. destruct (b_run _ _ _ _ _ _ _ Hb) as (m' & Hr & Hom). specialize (Hom sid).
  assert (Hin : b ∈ fields_of m' sid) by (rewrite Hom; by apply list_elem_of_omap; exists m).
  unfold fields_of in Hin. destruct (m' !! sid) as [l|] eqn:El; [|by apply elem_of_nil in Hin].
  destruct (ack_run_suffix _ _ _ sid l Hr El) as [l0 Hl]. exists (l0 ++ l).
  split; [done|]. apply elem_of_app. by right.
Qed.

Lemma msg_encode s a q sids P al h sid m e' :
  books s a q sids P al h -> m ∈ P sid -> settled (enc s) -> TrackedTable.keeps (E.table_ (enc s)) (E.table_ e') ->
  QT.ackedInsertCount_ (E.table_ e') = QT.ackedInsertCount_ (E.table_ (enc s)) ->
  QT.insertCount_ (E.table_ (enc s)) <= QT.insertCount_ (E.table_ e') -> msg_ok e' m.
Proof.
  intros Hb Hm Hs Hk Ha Hi. destruct (b_msgs _ _ _ _ _ _ _ Hb sid m Hm) as [[K1 K2 K3 K4 K5 K6 K7 K8] _].
  constructor; try done; try lia.
  - intros i f Hif. destruct (K4 i f Hif) as [Hir Hf]. split; [done|]. apply Hk; [left|done].
    destruct (Z.eq_dec (m_ric m) 0) as [E|E].
    + destruct (K5 E) as [E' _]. rewrite E' in Hif. by apply elem_of_nil in Hif.
    + destruct (K6 E) as (_ & b & Hob & _ & Hmin & _).
      destruct (books_outstanding s a q sids P al h sid m b Hb Hm Hob) as (l & Hl & Hbl).
      pose proof (outstanding_min _ sid l b Hs Hl Hbl). specialize (Hmin i f Hif). lia.
  - intros E. destruct (K6 E) as (? & b & ? & ? & ? & Hv). split; [done|]. exists b. by rewrite Ha.
Qed.

(** The block [encode] wrote. *)
Lemma encoded_msg e e' sid hs block base ric need :
  encoded maxUncompressed maxTable e e' sid hs block base ric need -> E.maxTableSize_ (E.config_ e) = maxTable ->
  admitted maxUncompressed hs ->
  exists m, msg_ok e' m /\ m_fields m = hs /\ m_block maxTable m = block /\
    match m_ob m with
    | Some b => E.outstanding_ (E.refs_ e') = add_block (E.outstanding_ (E.refs_ e)) sid b /\
        (vulnerable b = true -> E.allowVulnerable e = true)
    | None => E.outstanding_ (E.refs_ e') = E.outstanding_ (E.refs_ e)
    end.
Proof.
  intros H Hmt Had. destruct (n_block _ _ _ _ _ _ _ _ _ _ H) as (bs & Hbl & Hf). rewrite Hmt in Hbl.
  assert (Hbody : ric <> 0 -> bs <> []).
  { intros E Eb. apply E, (n_empty _ _ _ _ _ _ _ _ _ _ H). subst bs. by apply forms_empty in Hf. }
  destruct (Z.eq_dec ric 0) as [E|E].
  - destruct (n_none _ _ _ _ _ _ _ _ _ _ H E) as [En Eo].
    exists (mkMsg hs bs base ric need None). split; [|done].
    constructor; simpl; try done; [apply H|apply H|]. intros i f. rewrite En. by intros Hin%elem_of_nil.
  - destruct (n_some _ _ _ _ _ _ _ _ _ _ H E) as (Hex & b & Ho & Hmx & Hmn & Hv & Hal).
    exists (mkMsg hs bs base ric need (Some b)). split; [|done].
    constructor; simpl; try done; [apply H|apply H| |].
    + intros i f Hif. by apply (n_need _ _ _ _ _ _ _ _ _ _ H).
    + intros _. split; [done|]. exists b. split_and!; try done.
      rewrite (n_acked _ _ _ _ _ _ _ _ _ _ H).
      destruct (Z.lt_ge_cases (QT.ackedInsertCount_ (E.table_ e)) ric); [left; by apply Hv|by right].
Qed.

Lemma books_encode s a q sids P al h sid hs c block e' base ric need :
  books s a q sids P al h ->
  encoded maxUncompressed maxTable (enc s) e' sid hs block base ric need ->
  settled (enc s) -> E.maxTableSize_ (E.config_ (enc s)) = maxTable ->
  QT.insertCount_ (E.table_ (enc s)) <= QT.insertCount_ (E.table_ e') ->
  admitted maxUncompressed hs -> sid ∉ closed s -> 0 <= sid < 2 ^ 62 ->
  exists m, books (with_inflight (with_bytes (with_enc s e') c (acks s))
      (<[sid := fields_of (inflight s) sid ++ [block]]> (inflight s)))
    a q sids (upd P sid (P sid ++ [m])) al (upd h sid (h sid ++ [hs])).
Proof.
  intros Hb Hen Hs Hmt Hins Had Hcl Hsid.
  destruct (encoded_msg _ _ _ _ _ _ _ _ Hen Hmt Had) as (m & Hm & Hf & Hbl & Ho).
  assert (Hmsg : forall sid' m', m' ∈ P sid' -> msg_ok e' m')
    by (intros sid' m' Hin; apply (msg_encode s a q sids P al h sid'); try done; apply Hen).
  pose proof (books_head s a q sids P al h sid Hb) as Hpa.
  destruct Hb as [H1 H2 H3 H4 H5 H6 H7 H8 H9 H10 H11 H12 H13 H14 H15].
  exists m. constructor; cbn [enc acks inflight paused closed building received failed with_enc with_bytes with_inflight].
  - by rewrite (n_ingress _ _ _ _ _ _ _ _ _ _ Hen).
  - done.
  - destruct H3 as (m' & Hr & Hom). unfold astate in *.
    rewrite (n_acked _ _ _ _ _ _ _ _ _ _ Hen). destruct (m_ob m) as [b|] eqn:Eb.
    + destruct Ho as [-> _]. exists (add_block m' sid b).
      split; [apply ack_run_add; [done|intros Hin; by apply Hcl, H4]|].
      intros sid'. unfold fields_of. rewrite add_block_lookup. unfold upd.
      destruct (decide (sid' = sid)) as [->|]; [|apply Hom].
      rewrite omap_app. simpl. rewrite Eb. f_equal. apply Hom.
    + rewrite Ho. exists m'. split; [done|]. intros sid'. rewrite Hom. unfold upd.
      destruct (decide (sid' = sid)) as [->|]; [|done]. rewrite omap_app. simpl. by rewrite Eb, app_nil_r.
  - done.
  - intros sid' Hc. rewrite upd_ne by (intros ->; done). by apply H5.
  - intros sid' m' Hin. unfold upd in Hin. destruct (decide (sid' = sid)) as [->|].
    + apply elem_of_app in Hin as [Hin|Hin].
      * split; [by apply (Hmsg sid)|done].
      * apply list_elem_of_singleton in Hin as ->. done.
    + split; [by apply (Hmsg sid')|by apply (H6 sid' m')].
  - intros sid'. rewrite fields_of_insert. unfold upd. destruct (decide (sid' = sid)) as [->|]; [|apply H7].
    rewrite H7. destruct (decide (sid ∈ paused s)) as [Hp|Hp].
    + destruct (Hpa Hp) as (m0 & rest & ->). simpl. by rewrite fmap_app, <- Hbl.
    + by rewrite fmap_app, <- Hbl.
  - done.
  - done.
  - apply (Forall2_impl _ _ _ _ H10). intros p sid' (m0 & Hh & ->). exists m0. split; [|done].
    unfold upd. destruct (decide (sid' = sid)) as [->|]; [|done]. by destruct (P sid).
  - done.
  - intros sid' Hc. unfold upd. destruct (decide (sid' = sid)) as [->|]; [|by apply H12].
    rewrite fmap_app, app_assoc, H12 by done. simpl. by rewrite Hf.
  - intros sid'. unfold upd. destruct (decide (sid' = sid)) as [->|]; [|done].
    destruct (H13 sid) as [k Hk]. exists (k ++ [hs]). by rewrite Hk, app_assoc.
  - done.
  - done.
Qed.

(** ** The decoder reports, or gives up *)

Lemma acks_bytes_snoc al x : acks_bytes (al ++ [x]) = acks_bytes al ++ ack_bytes x.
Proof. unfold acks_bytes. rewrite fmap_app, concat_app. simpl. by rewrite app_nil_r. Qed.

Lemma books_increment s a q sids P al h n d :
  books s a q sids P al h -> 1 <= n < 2 ^ 32 ->
  books (with_bytes (with_dec s d) (control s) (acks s ++ ack_bytes (AIncrement n))) (a + n) q sids P
    (al ++ [AIncrement n]) h.
Proof.
  intros [H1 H2 H3 H4 H5 H6 H7 H8 H9 H10 H11 H12 H13 H14 H15] Hn. constructor; try done; try (simpl; lia).
  - simpl acks. rewrite app_assoc. simpl enc. by rewrite H1, acks_bytes_snoc.
  - apply Forall_app. split; [done|]. repeat constructor; simpl; lia.
  - destruct H3 as (m' & Hr & Hom). exists m'. simpl enc. rewrite ack_run_app, Hr. simpl.
    rewrite (proj2 (Z.leb_le 1 n)) by lia. done.
  - intros sid [Hin|Hin]%elem_of_app; [by apply H4|]. by apply list_elem_of_singleton in Hin.
Qed.

Lemma books_acks s a q sids P al1 al2 h e' c rest :
  books s a q sids P (al1 ++ al2) h -> informed (enc s) e' ->
  ack_run (astate (enc s)) al1 = Some (astate e') ->
  E.decoderIngress_ e' ++ rest = acks_bytes al2 ->
  books (with_bytes (with_enc s e') c rest) a q sids P al2 h.
Proof.
  intros [H1 H2 H3 H4 H5 H6 H7 H8 H9 H10 H11 H12 H13 H14 H15] Hin Hr Hig. constructor; try done.
  - by apply Forall_app in H2 as [_ H2].
  - destruct H3 as (m' & Hr' & Hom). exists m'. rewrite ack_run_app, Hr in Hr'. done.
  - intros sid Hc. apply H4, elem_of_app. by right.
  - intros sid m Hm. destruct (H6 sid m Hm) as [[K1 K2 K3 K4 K5 K6 K7 K8] ?]. split; [|done].
    pose proof (informed_count _ _ Hin) as Hic. destruct Hin as (_ & _ & _ & _ & _ & Hv & _).
    constructor; cbn [enc with_enc with_bytes]; rewrite ?Hic; try done.
    + intros i f Hif. rewrite Hv. by apply K4.
    + intros E. destruct (K6 E) as (? & b & ? & ? & ? & Hvu). split; [done|]. exists b. split_and!; try done.
      destruct Hvu as [?|Hle]; [by left|right]. apply ack_run_mono in Hr. unfold astate in Hr. simpl in Hr. lia.
Qed.

(** The entries of the other streams. *)
Lemma filter_queue q sids P sid :
  Forall2 (fun p sid => exists m, head (P sid) = Some m /\ p = entry maxTable sid m) q sids ->
  Forall2 (fun p sid' => exists m, head (upd P sid [] sid') = Some m /\ p = entry maxTable sid' m)
    (filter (fun p : Z * D.PendingBlock => D.streamID (snd p) <> sid) q) (filter (fun x => x <> sid) sids).
Proof.
  induction 1 as [|p sid' q sids (m & Hm & ->) HF IH]; [constructor|]. rewrite !filter_cons.
  change (D.streamID (snd (entry maxTable sid' m))) with sid'. destruct (decide (sid' <> sid)) as [Hn|Hn].
  - constructor; [|done]. exists m. by rewrite upd_ne.
  - done.
Qed.

Lemma books_cancel s a q sids P al h sid d :
  books s a q sids P al h -> 0 <= sid < 2 ^ 62 ->
  books (with_closed (with_paused (with_inflight (with_bytes (with_dec s d) (control s)
      (acks s ++ ack_bytes (ACancel sid))) (delete sid (inflight s))) (paused s ∖ {[sid]})) ({[sid]} ∪ closed s))
    a (filter (fun p : Z * D.PendingBlock => D.streamID (snd p) <> sid) q) (filter (fun x => x <> sid) sids)
    (upd P sid []) (al ++ [ACancel sid]) h.
Proof.
  intros [H1 H2 H3 H4 H5 H6 H7 H8 H9 H10 H11 H12 H13 H14 H15] Hsid. constructor; try done;
    cbn [enc acks inflight paused closed building received failed with_closed with_dec with_bytes with_inflight with_paused].
  - by rewrite app_assoc, H1, acks_bytes_snoc.
  - apply Forall_app. split; [done|]. repeat constructor; simpl; lia.
  - destruct H3 as (m' & Hr & Hom). exists (delete sid m'). rewrite ack_run_app, Hr. split; [done|].
    intros sid'. rewrite fields_of_delete. unfold upd. destruct (decide (sid' = sid)); [done|apply Hom].
  - intros sid' [Hin|Hin]%elem_of_app; [apply H4 in Hin; set_solver|].
    apply list_elem_of_singleton in Hin as [= ->]. set_solver.
  - intros sid' Hc. unfold upd. destruct (decide (sid' = sid)); [done|]. apply H5. set_solver.
  - intros sid' m Hin. unfold upd in Hin. destruct (decide (sid' = sid)); [by apply elem_of_nil in Hin|by apply H6].
  - intros sid'. rewrite fields_of_delete. unfold upd. destruct (decide (sid' = sid)) as [->|].
    + by rewrite decide_False by set_solver.
    + rewrite H7. destruct (decide (sid' ∈ paused s)); [by rewrite decide_True by set_solver|by rewrite decide_False by set_solver].
  - intros sid'. rewrite list_elem_of_filter, elem_of_difference, H8. set_solver.
  - by apply NoDup_filter.
  - by apply filter_queue.
  - intros sid' Hc. rewrite upd_ne by set_solver. apply H12. set_solver.
Qed.

End session.
End QPACKBooks.
