(* ===== verification/QPACKEndToEnd.v ===== *)
(** * QPACK from end to end

    [tables] ties the two dynamic tables of a session: the encoder's is the decoder's
    after the instructions in flight.  With [books] it is the invariant of a session,
    which every event keeps.  So every block is decoded to the fields that were
    encoded, whatever the order in which blocks, insertions and acknowledgements
    arrive, and no [CHECK] fails on the way.  [linked_blocked]: the encoder keeps the
    blocks that could be held back within the decoder's limit. *)

From stdpp Require Import gmap.
From S2P Require Import Prelude Huffman HPACKBuffers HeaderTable HPACKContext QPACKHeaderTable.
From S2P Require Import QPACKContext QPACKEncoder QPACKDecoder QPACKWire QPACKTables.
From S2P Require Import QPACKReads QPACKFeed QPACKTracking QPACKEncoding QPACKAcks.
From S2P Require Import QPACKSession QPACKBooks.

#[local] Set Warnings "-clear-no-such-hyp".

Module QPACKEndToEnd.
Import HPACK HPACKHeader HPACKHeaderName HeaderSpec QPACKRing Dyn QPACKReads QPACKFeed QPACKTracking
  QPACKEncoding QPACKAcks QPACKSession QPACKBooks.
Import QPACKEncoder (OutstandingBlock, minInUseIndex, maxInUseIndex, vulnerable).
Module E := QPACKEncoder.
Module D := QPACKDecoder.
Module QT := QPACKHeaderTable.

Section session.
Context `{CH : CommonHeaders}.

(** The settings of the decoder. *)
Variables maxTable maxUncompressed maxBlocking : Z.
Hypothesis Htable : 0 <= maxTable < 2 ^ 31.
Hypothesis Huncompressed : 0 <= maxUncompressed < 2 ^ 27.

#[local] Abbreviation books := (books maxTable maxUncompressed).
#[local] Abbreviation msg_ok := (msg_ok maxUncompressed).

Record tables (s : session) (l : list instr) (P : Z -> list msg) : Prop := {
  x_quiet : quiet maxUncompressed maxTable (enc s);
  x_config : E.maxTableSize_ (E.config_ (enc s)) = maxTable /\
    E.maxVulnerable_ (E.config_ (enc s)) = maxBlocking;
  x_limit : vulnerables (blocks (E.outstanding_ (E.refs_ (enc s)))) <= maxBlocking;
  x_small : QT.insertCount_ (E.table_ (enc s)) < 2 ^ 31;
  x_dinv : dinv (dec s);
  x_settings : D.maxTableSize_ (dec s) = maxTable /\ D.maxUncompressed_ (dec s) = maxUncompressed /\
    D.maxBlocking_ (dec s) = maxBlocking;
  x_owes : owes maxUncompressed maxTable (view (D.table_ (dec s))) (pstate (dec s))
    (D.ingress_ (dec s) ++ control s) l;
  x_view : view (E.table_ (enc s)) = replay (view (D.table_ (dec s))) (l ++ pend (enc s));
  x_last : D.lastAcked_ (dec s) <= D.getInsertCount (dec s);
  x_waiting sid : sid ∈ paused s ->
    exists m rest b, P sid = m :: rest /\ m_ob m = Some b /\ vulnerable b = true }.

(** Without bytes in flight nothing waits. *)
Definition caught_up (s : session) : Prop :=
  control s = [] -> D.ingress_ (dec s) = [] /\ D.queue_ (dec s) = [].

(** The invariant: [history] was encoded. *)
Definition linked (s : session) (history : Z -> list (list HPACKHeader.t)) : Prop :=
  exists sids P al l,
    books s (D.lastAcked_ (dec s)) (D.queue_ (dec s)) sids P al history /\ tables s l P /\
    caught_up s.

(** ** The two tables *)

Lemma pend_ins e T : ins (replay T (pend e)) = ins T.
Proof. unfold pend. by destruct (E.pendingContextUpdate_ e). Qed.

Lemma tables_ins s l P :
  tables s l P -> D.getInsertCount (dec s) <= QT.insertCount_ (E.table_ (enc s)).
Proof.
  intros H. change (ins (view (D.table_ (dec s))) <= ins (view (E.table_ (enc s)))).
  rewrite (x_view _ _ _ H). apply ins_replay.
Qed.

Lemma tables_ready s l P : tables s l P -> ready (dec s).
Proof.
  intros H. pose proof (tables_ins _ _ _ H). pose proof (x_small _ _ _ H).
  destruct (x_settings _ _ _ H) as (E1 & E2 & _). constructor; rewrite ?E1, ?E2; [apply H|lia|lia|lia].
Qed.

(** What the encoder's table holds, the decoder's holds as soon as it was inserted. *)
Lemma tables_need s l P m :
  tables s l P -> msg_ok (enc s) m -> m_ric m <= D.getInsertCount (dec s) ->
  forall i f, (i, f) ∈ m_needs m -> field (view (D.table_ (dec s))) i = Some f.
Proof.
  intros H Hm Hr i f Hif. destruct (k_need _ _ _ Hm i f Hif) as [Hi Hf]. rewrite (x_view _ _ _ H) in Hf.
  apply (field_back (l ++ pend (enc s))); [done|]. change (i <= D.getInsertCount (dec s)). lia.
Qed.

(** The acknowledgements that arrived and those in flight. *)
Lemma books_acked s q sids P al h :
  books s (D.lastAcked_ (dec s)) q sids P al h ->
  QT.ackedInsertCount_ (E.table_ (enc s)) <= D.lastAcked_ (dec s).
Proof.
  intros H. destruct (b_run _ _ _ _ _ _ _ _ _ H) as (m' & Hr & _). by apply ack_run_mono in Hr.
Qed.

(** The required insert count is within reach of the decoder's. *)
Lemma tables_window s l P m :
  tables s l P -> msg_ok (enc s) m -> m_ric m <> 0 ->
  QT.ackedInsertCount_ (E.table_ (enc s)) <= D.getInsertCount (dec s) ->
  let M := QPACKContext.getMaxEntries (D.maxTableSize_ (dec s)) in
  D.getInsertCount (dec s) - M < m_ric m <= D.getInsertCount (dec s) + M.
Proof.
  intros H Hm Hr Hack. pose proof (tables_ins _ _ _ H) as Hle.
  destruct (x_settings _ _ _ H) as (-> & _). destruct (x_quiet _ _ _ H) as [He _ _ Hc Hw _ _].
  destruct (x_config _ _ _ H) as [Ec _]. rewrite Ec in Hc. set (s0 := E.table_ (enc s)) in *.
  pose proof (k_ric _ _ _ Hm) as Hric. fold s0 in Hric.
  assert (Hsize : QT.size_ s0 <= QPACKContext.getMaxEntries maxTable).
  { pose proof (e_inv _ _ He) as Hinv. fold s0 in Hinv. pose proof (bytes_bound _ Hinv).
    pose proof (Ring.wf_bytes _ (inv_wf _ Hinv)) as Hb. pose proof (size_entries _ Hinv) as Hz.
    pose proof (total_length (entries s0)) as Ht. unfold QPACKContext.getMaxEntries, kMinLength.
    apply Z.div_le_lower_bound; [lia|]. unfold zlen in *. lia. }
  destruct (k_some _ _ _ Hm Hr) as ((f & Hf) & _). destruct (k_need _ _ _ Hm _ f Hf) as [_ Hfl].
  fold s0 in Hfl. unfold field in Hfl. simpl in Hfl. rewrite (proj2 (Z.leb_le _ _)) in Hfl by lia.
  apply lookup_lt_Some in Hfl. pose proof (size_entries _ (e_inv _ _ He)) as Hz. unfold zlen in Hz. fold s0 in Hz.
  pose proof (e_unacked _ _ He) as Hu. fold s0 in Hu. cbv zeta. lia.
Qed.

(** ** Encoding a block *)

(** The fields a session carries. *)
Definition block_allowed (s : session) (sid : Z) (hs : list HPACKHeader.t) : Prop :=
  (sid ∉ closed s) /\ 0 <= sid < 2 ^ 62 /\ Forall (encodable maxUncompressed) hs /\
  admitted maxUncompressed hs /\ room (enc s) (3 * zlen hs).

Lemma encoded_limit e e' sid hs block base ric need :
  encoded maxUncompressed maxTable e e' sid hs block base ric need -> settled e ->
  E.maxVulnerable_ (E.config_ e) = maxBlocking ->
  vulnerables (blocks (E.outstanding_ (E.refs_ e))) <= maxBlocking ->
  vulnerables (blocks (E.outstanding_ (E.refs_ e'))) <= maxBlocking.
Proof.
  intros H Hs Hm Hv. destruct (Z.eq_dec ric 0) as [Er|Er].
  - destruct (n_none _ _ _ _ _ _ _ _ _ _ H Er) as [_ ->]. done.
  - destruct (n_some _ _ _ _ _ _ _ _ _ _ H Er) as (_ & b & -> & _ & _ & _ & Hal).
    rewrite (vulnerables_perm _ _ (blocks_snoc _ sid b)). unfold vulnerables at 1. rewrite filter_cons.
    destruct (vulnerable b) eqn:Eb.
    + specialize (Hal eq_refl). unfold E.allowVulnerable in Hal. apply Z.ltb_lt in Hal.
      rewrite Hm, (t_vulnerable _ _ (s_tracked _ Hs)) in Hal.
      rewrite decide_True by done. unfold vulnerables, zlen in *. cbn [length]. lia.
    + rewrite decide_False by congruence. exact Hv.
Qed.

Lemma step_encode s h sid hs headroom n :
  linked s h -> block_allowed s sid hs ->
  exists s', encode_op s sid hs headroom n = Some s' /\ linked s' (upd h sid (h sid ++ [hs])).
Proof.
  intros (sids & P & al & l & Hb & Ht & Hc) (Hcl & Hsid & Hall & Had & Hroom).
  destruct (x_config _ _ _ Ht) as [Emt Emv]. pose proof (x_quiet _ _ _ Ht) as Hq.
  destruct (encode_spec maxUncompressed maxTable (enc s) hs headroom sid n
    (replay (view (D.table_ (dec s))) l) Hq) as (c & block & e' & base & ric & need & l' & HE & Hen & How & Hv & _ & Hins).
  { by rewrite (x_view _ _ _ Ht), replay_app. } { done. } { done. }
  unfold encode_op. rewrite HE. unfold mbind, option_bind. eexists. split; [reflexivity|].
  assert (Hge : QT.insertCount_ (E.table_ (enc s)) <= QT.insertCount_ (E.table_ e')).
  { change (ins (view (E.table_ (enc s))) <= ins (view (E.table_ e'))). rewrite (x_view _ _ _ Ht), Hv.
    rewrite replay_app, pend_ins. apply ins_replay. }
  destruct (books_encode maxTable maxUncompressed s _ _ sids P al h sid hs (control s ++ c) block e' base ric need
    Hb Hen (q_settled _ _ _ Hq) Emt Hge Had Hcl Hsid) as (m & Hb').
  exists sids, (upd P sid (P sid ++ [m])), al, (l ++ l'). split; [exact Hb'|].
  split; [|intros [E _]%app_eq_nil; by apply Hc].
  destruct Ht as [X1 X2 X3 X4 X5 X6 X7 X8 X9 X10]. constructor; cbn [enc dec control paused with_inflight with_bytes with_enc];
    try done.
  - apply Hen.
  - by rewrite (n_config _ _ _ _ _ _ _ _ _ _ Hen).
  - by eapply encoded_limit; [exact Hen|apply Hq| |].
  - unfold room in Hroom. lia.
  - rewrite app_assoc. by eapply owes_app.
  - unfold pend. rewrite (n_pending _ _ _ _ _ _ _ _ _ _ Hen), app_nil_r, replay_app. exact Hv.
  - intros sid' Hp. destruct (X10 sid' Hp) as (m0 & rest & b & HP & Hb0). unfold upd.
    destruct (decide (sid' = sid)) as [->|]; [|by exists m0, rest, b]. exists m0, (rest ++ [m]), b. by rewrite HP.
Qed.

(** ** Acknowledgements arrive *)

Lemma informed_quiet e e' :
  informed e e' -> quiet maxUncompressed maxTable e ->
  QT.ackedInsertCount_ (E.table_ e) <= QT.ackedInsertCount_ (E.table_ e') ->
  quiet maxUncompressed maxTable e'.
Proof.
  intros (Hs & S1 & S2 & S3 & S4 & Sv & St) [[I1 I2 I3 I4] Q2 Q3 Q4 Q5 Q6 Q7] Ha.
  pose proof (size_entries _ (s_inv _ Hs)) as Z1. pose proof (size_entries _ I1) as Z2.
  assert (Ef : entries (E.table_ e') = entries (E.table_ e)) by (by injection Sv as _ -> _).
  assert (Ei : QT.insertCount_ (E.table_ e') = QT.insertCount_ (E.table_ e)) by (by injection Sv as _ _ ->).
  assert (Ec : QT.capacity_ (E.table_ e') = QT.capacity_ (E.table_ e)) by (by injection Sv as -> _ _).
  rewrite Ef in Z1. constructor; try done; try congruence.
  - constructor; [apply Hs|by rewrite St|by rewrite Sv|]. rewrite Ei. lia.
Qed.

Lemma ack_run_vulnerables al : forall s s',
  ack_run s al = Some s' -> vulnerables (blocks (fst s')) <= vulnerables (blocks (fst s)).
Proof.
  induction al as [|a al IH]; intros s s' Hr; simpl in Hr; [injection Hr as <-; lia|].
  destruct (ack_step s a) as [s1|] eqn:Es; [|done]. apply IH in Hr.
  assert (vulnerables (blocks (fst s1)) <= vulnerables (blocks (fst s))); [|lia].
  assert (Hdel : forall sid l rest, fst s !! sid = Some (l ++ rest) ->
    vulnerables (rest ++ blocks (delete sid (fst s))) <= vulnerables (blocks (fst s))).
  { intros sid l rest Hl. rewrite (vulnerables_perm _ _ (blocks_delete _ sid _ Hl)), !vulnerables_app.
    pose proof (vulnerables_le l). lia. }
  destruct a as [sid|sid|n]; simpl in Es.
  - destruct (fst s !! sid) as [[|b rest]|] eqn:El; try done. injection Es as <-. simpl.
    rewrite (vulnerables_perm _ _ (blocks_replaced _ sid rest)). by apply (Hdel sid [b]).
  - injection Es as <-. simpl. destruct (fst s !! sid) as [lb|] eqn:El.
    + apply (Hdel sid lb []). by rewrite app_nil_r.
    + rewrite (delete_none _ _ El). lia.
  - destruct (1 <=? n); [|done]. injection Es as <-. simpl. lia.
Qed.

Lemma step_acks s h n :
  linked s h -> zlen (E.decoderIngress_ (enc s) ++ take n (acks s)) < 2 ^ 32 ->
  exists s', acks_op s n = Some s' /\ linked s' h.
Proof.
  intros (sids & P & al & l & Hb & Ht & Hc) Hz. pose proof (b_acks _ _ _ _ _ _ _ _ _ Hb) as Ha.
  destruct (b_run _ _ _ _ _ _ _ _ _ Hb) as (m' & Hr & _). pose proof (tables_ins _ _ _ Ht) as Hle.
  pose proof (x_last _ _ _ Ht) as Hla. rewrite <- (take_drop n (acks s)) in Ha.
  destruct (acks_feed (enc s) (take n (acks s)) (drop n (acks s)) al _ (q_settled _ _ _ (x_quiet _ _ _ Ht)) Ha
    (b_small _ _ _ _ _ _ _ _ _ Hb) Hr ltac:(simpl; lia) Hz) as (e' & al1 & al2 & HE & -> & Hin & Hr1 & Hig & _).
  unfold acks_op. rewrite HE. unfold mbind, option_bind. eexists. split; [reflexivity|].
  pose proof (books_acks _ _ _ _ _ _ _ _ _ _ e' (control s) (drop n (acks s)) Hb Hin Hr1 Hig) as Hb'.
  exists sids, P, al2, l. split.
  { eapply books_same; [|exact Hb']. unfold same_books. simpl. split_and!; try done. by rewrite orb_false_r. }
  split; [|exact Hc].
  pose proof (ack_run_mono _ _ _ Hr1) as Hmono. pose proof (informed_count _ _ Hin) as Hic.
  pose proof Hin as (Hs & S1 & S2 & S3 & S4 & Sv & St).
  destruct Ht as [X1 X2 X3 X4 X5 X6 X7 X8 X9 X10]. constructor; cbn [enc dec control paused fail with_bytes with_enc];
    try done.
  - by eapply informed_quiet.
  - by rewrite S4.
  - apply ack_run_vulnerables in Hr1. simpl in Hr1. lia.
  - by rewrite Hic.
  - rewrite Sv, X8. unfold pend. rewrite S3. injection Sv as -> _ _. done.
Qed.

(** ** The decoder reports insertions, or gives up a stream *)

Lemma step_increment s h : linked s h -> exists s', increment_op s = Some s' /\ linked s' h.
Proof.
  intros (sids & P & al & l & Hb & Ht & Hc). pose proof (tables_ins _ _ _ Ht). pose proof (x_small _ _ _ Ht).
  pose proof (x_last _ _ _ Ht) as Hla. pose proof (b_nonneg _ _ _ _ _ _ _ _ _ Hb).
  unfold increment_op, D.encodeInsertCountInc. rewrite u32_id by (unfold_ints; lia). rewrite Z.gtb_ltb.
  destruct (Z.ltb_spec 0 (D.getInsertCount (dec s) - D.lastAcked_ (dec s))) as [Hlt|Hge].
  - set (n := D.getInsertCount (dec s) - D.lastAcked_ (dec s)) in *.
    assert (HE : D.encodeInstruction n QPACK.Q_INSERT_COUNT_INC = Some (ack_bytes (AIncrement n))).
    { unfold D.encodeInstruction, HPACKEncodeBuffer.encodeInteger_instr.
      rewrite EncodeSpec.encodeInteger_spec; [done|simpl; solve_pattern|unfold_ints; lia]. }
    rewrite HE. unfold mbind, option_bind. eexists. split; [reflexivity|].
    set (d := D.set_lastAcked _ _).
    pose proof (books_increment _ _ s _ _ sids P al h n d Hb ltac:(lia)) as Hb'.
    exists sids, P, (al ++ [AIncrement n]), l. split; [|split; [|exact Hc]].
    + replace (D.lastAcked_ (dec s) + n) with (D.getInsertCount (dec s)) in Hb' by lia. exact Hb'.
    + destruct Ht as [X1 X2 X3 X4 X5 X6 X7 X8 X9 X10]. constructor; try done.
  - unfold mbind, option_bind. eexists. split; [reflexivity|]. exists sids, P, al, l.
    split; [|split; [by destruct Ht|exact Hc]]. eapply books_same; [|exact Hb]. unfold same_books. simpl. by rewrite app_nil_r.
Qed.

Lemma step_cancel s h sid :
  linked s h -> 0 <= sid < 2 ^ 62 -> exists s', cancel_op s sid = Some s' /\ linked s' h.
Proof.
  intros (sids & P & al & l & Hb & Ht & Hc) Hsid. unfold cancel_op, D.encodeCancelStream.
  assert (HE : D.encodeInstruction sid QPACK.Q_CANCEL_STREAM = Some (ack_bytes (ACancel sid))).
  { unfold D.encodeInstruction, HPACKEncodeBuffer.encodeInteger_instr.
    rewrite EncodeSpec.encodeInteger_spec; [done|simpl; solve_pattern|unfold_ints; lia]. }
  rewrite HE. unfold mbind, option_bind. eexists. split; [reflexivity|]. set (d := D.set_queue _ _ _ _).
  pose proof (books_cancel _ _ s _ _ sids P al h sid d Hb Hsid) as Hb'.
  eexists _, _, _, l. split; [exact Hb'|].
  split; [|intros E; destruct (Hc E) as [? Eq]; split; [done|]; simpl; by rewrite Eq].
  destruct Ht as [X1 X2 X3 X4 X5 X6 X7 X8 X9 X10]. constructor; try done.
  - intros sid' Hp. cbn [paused with_closed with_paused] in Hp. apply elem_of_difference in Hp as [Hp Hn].
    rewrite upd_ne by set_solver. by apply X10.
Qed.

(** ** Insertions arrive *)

(** The blocks that wait, as the decoder sees them. *)
Lemma tables_queue s l P q sids al h :
  books s (D.lastAcked_ (dec s)) q sids P al h -> tables s l P ->
  Forall2 (waiting (view (D.table_ (dec s))) maxUncompressed) q (fields_at P <$> sids).
Proof.
  intros Hb Ht. pose proof (b_queue _ _ _ _ _ _ _ _ _ Hb) as HQ.
  assert (Hw : forall sid, sid ∈ sids -> exists m rest b, P sid = m :: rest /\ m_ob m = Some b).
  { intros sid Hin. apply (b_paused _ _ _ _ _ _ _ _ _ Hb) in Hin.
    destruct (x_waiting _ _ _ Ht sid Hin) as (m & rest & b & ? & ? & _). by exists m, rest, b. }
  pose proof (b_msgs _ _ _ _ _ _ _ _ _ Hb) as Hmsg. clear Hb.
  induction HQ as [|p sid q sids (m & Hm & ->) HF IH]; [constructor|]. cbn [fmap list_fmap].
  constructor; [|apply IH; intros sid' Hin; apply Hw; by right].
  destruct (Hw sid) as (m0 & rest & b & HP & Hob); [by left|]. rewrite HP in Hm. injection Hm as ->.
  destruct (Hmsg sid m) as [Hok _]; [rewrite HP; by left|]. unfold fields_at. rewrite HP.
  assert (Hr : m_ric m <> 0) by (intros E; destruct (k_none _ _ _ Hok E) as [_ E']; congruence).
  pose proof (k_ric _ _ _ Hok). pose proof (k_admitted _ _ _ Hok) as (Hu & ? & ?).
  pose proof (forms_len _ _ _ _ (k_forms _ _ _ Hok)).
  constructor; simpl.
  - exists (m_needs m). split; [apply Hok|]. intros Hle. by apply (tables_need s l P m).
  - lia.
  - split; [done|]. pose proof (k_body _ _ _ Hok Hr) as Hne.
    destruct (m_body m) as [|x body] eqn:Eb; [done|]. unfold zlen in *. simpl in *. lia.
  - apply Hok.
Qed.

Lemma foldl_max_le l : forall a n, a <= n -> Forall (fun x => x <= n) l -> foldl Z.max a l <= n.
Proof.
  induction l as [|x l IH]; intros a n Ha Hl; simpl; [done|]. inversion Hl; subst. apply IH; [lia|done].
Qed.

(** The state after some instructions, before the queue is drained. *)
Lemma tables_fed s l P d1 c l1 l2 :
  tables s l P -> l = l1 ++ l2 -> dinv d1 -> same_config (dec s) d1 ->
  view (D.table_ d1) = replay (view (D.table_ (dec s))) l1 ->
  owes maxUncompressed maxTable (view (D.table_ d1)) (pstate d1) (D.ingress_ d1 ++ c) l2 ->
  tables (with_bytes (with_dec s d1) c (acks s)) l2 P.
Proof.
  intros [X1 X2 X3 X4 X5 X6 X7 X8 X9 X10] -> Hd [C1 C2 C3 C4 C5] Hv Ho.
  constructor; cbn [enc dec control paused with_bytes with_dec]; try done.
  - by rewrite C1, C2, C3.
  - by rewrite X8, Hv, <- app_assoc, replay_app.
  - rewrite C4. change (D.lastAcked_ (dec s) <= ins (view (D.table_ d1))). rewrite Hv.
    pose proof (ins_replay (view (D.table_ (dec s))) l1).
    change (D.getInsertCount (dec s)) with (ins (view (D.table_ (dec s)))) in X9. lia.
Qed.

(** No bytes, no instructions. *)
Lemma owes_nothing T p l : owes maxUncompressed maxTable T p [] l -> l = [].
Proof.
  intros H. inversion H as [|T0 nb n bytes l0 Hnf _|T0 n v vb rest l0 Hc _ _ _|T0 c rest l0 _ _|T0 i f rest l0 _ _ _ _ _];
    subst; [done| | | |].
  all: match goal with E : _ ++ _ = [] |- _ => apply app_eq_nil in E as [Enil _] end.
  - destruct (name_form_cons _ _ _ _ Hnf) as (? & ? & ?). congruence.
  - by destruct (Codes.codes_ne _ _ _ _ Hc).
  - pose proof (Wire.enc_int_length c 0x20 5) as Hl. rewrite Enil in Hl. unfold zlen in Hl. simpl in Hl. lia.
  - pose proof (Wire.enc_int_length (i - 1) 0x00 5) as Hl. rewrite Enil in Hl. unfold zlen in Hl. simpl in Hl. lia.
Qed.

(** With all instructions carried out, every block is ready. *)
Lemma tables_all s l P q sids al h :
  books s (D.lastAcked_ (dec s)) q sids P al h -> tables s l P -> control s = [] -> D.ingress_ (dec s) = [] ->
  Forall (fun p => fst p <= D.getInsertCount (dec s)) q.
Proof.
  intros Hb Ht Hc Hi. pose proof (x_owes _ _ _ Ht) as Ho. rewrite Hc, Hi in Ho. apply owes_nothing in Ho as ->.
  pose proof (x_view _ _ _ Ht) as Hv. simpl in Hv.
  assert (Hins : D.getInsertCount (dec s) = QT.insertCount_ (E.table_ (enc s))).
  { change (ins (view (D.table_ (dec s))) = ins (view (E.table_ (enc s)))). by rewrite Hv, pend_ins. }
  pose proof (b_msgs _ _ _ _ _ _ _ _ _ Hb) as Hmsg. pose proof (b_queue _ _ _ _ _ _ _ _ _ Hb) as HQ. clear Hb.
  induction HQ as [|p sid q sids (m & Hm & ->) HF IH]; constructor; [|done].
  destruct (P sid) as [|m0 rest] eqn:HP; [done|]. injection Hm as ->.
  destruct (Hmsg sid m) as [Hok _]; [rewrite HP; by left|]. pose proof (k_ric _ _ _ Hok). simpl. lia.
Qed.

(** The queue is drained. *)
Lemma step_drain s l P sids al h :
  books s (D.lastAcked_ (dec s)) (D.queue_ (dec s)) sids P al h -> tables s l P ->
  D.err_ (dec s) = NONE -> D.ingress_ (dec s) = [] ->
  exists evs d s', D.drainQueue (dec s) = Some (evs, d) /\ handle_all (with_dec s d) evs = Some s' /\
    linked s' h.
Proof.
  intros Hb Ht He Hi. destruct (x_settings _ _ _ Ht) as (_ & EU & _).
  destruct (drain_ok (D.queue_ (dec s)) (dec s) (fields_at P <$> sids) eq_refl (x_dinv _ _ _ Ht) He
    ltac:(lia) ltac:(rewrite EU; by apply (tables_queue s l P _ sids al h)))
    as (k & evs & d & HD & Hq & Hdr & Hall & Hhd & Hss & He' & Hla).
  set (qs := D.queue_ (dec s)) in *.
  assert (Hlen : length qs = length sids) by (eapply Forall2_length; apply (b_queue _ _ _ _ _ _ _ _ _ Hb)).
  assert (Hb1 : books (with_dec s d) (D.lastAcked_ (dec s)) (take k qs ++ drop k qs) (take k sids ++ drop k sids) P al h).
  { rewrite !take_drop. by eapply books_same; [|exact Hb]. }
  destruct (books_drained maxTable maxUncompressed (take k qs) (take k sids) evs (with_dec s d)
    (D.lastAcked_ (dec s)) (drop k qs) (drop k sids) P al h)
    as (s' & P' & al' & HH & (P1 & P2 & P3 & P4 & P5) & Hb' & HP'); try exact Hb1.
  { by rewrite fmap_take. } { rewrite !length_take. lia. }
  { intros sid Hin. assert (Hin' : sid ∈ sids) by (rewrite <- (take_drop k sids); apply elem_of_app; by left).
    clear Hin. rename Hin' into Hin. apply (b_paused _ _ _ _ _ _ _ _ _ Hb) in Hin.
    destruct (x_waiting _ _ _ Ht sid Hin) as (m & rest & b & HP & Hob & _). exists m, rest. split; [done|].
    destruct (b_msgs _ _ _ _ _ _ _ _ _ Hb sid m) as [Hok _]; [rewrite HP; by left|].
    intros Hr. destruct (k_none _ _ _ Hok Hr). congruence. }
  exists evs, d, s'. split; [exact HD|]. split; [exact HH|]. simpl in P1, P2, P3, P4, P5.
  exists (drop k sids), P', al', l. rewrite P2, Hq.
  split; [rewrite Hla; exact Hb'|]. destruct Hss as [S1 S2 S3 S4 S5 S6].
  assert (HG : D.getInsertCount d = D.getInsertCount (dec s)).
  { unfold D.getInsertCount, QPACKContext.getInsertCount.
    change (QPACKContext.table_ (D.ctx d)) with (D.table_ d). by rewrite S1. }
  split.
  - pose proof Ht as [X1 X2 X3 X4 X5 X6 X7 X8 X9 X10]. constructor; rewrite ?P1, ?P2, ?P3; try done.
    + unfold dinv in *. by rewrite S1.
    + by rewrite S2, S3, S4.
    + unfold pstate. rewrite S1, S5, S6. exact X7.
    + by rewrite S1.
    + rewrite Hla, HG. apply foldl_max_le; [done|]. by apply Forall_fmap.
    + intros sid Hp. rewrite HP' by (by apply (b_paused _ _ _ _ _ _ _ _ _ Hb')). apply X10, P5, Hp.
  - intros Hc. rewrite P3 in Hc. rewrite P2, S6, Hq. split; [done|].
    pose proof (tables_all s l P _ sids al h Hb Ht Hc Hi) as Hr. fold qs in Hr.
    rewrite <- (take_drop k qs) in Hr. apply Forall_app in Hr as [_ Hr].
    destruct (drop k qs) as [|p q] eqn:Ed; [done|]. inversion Hr; subst. specialize (Hhd p eq_refl). lia.
Qed.

Lemma step_control s h n :
  linked s h -> zlen (D.ingress_ (dec s) ++ take n (control s)) < 2 ^ 32 ->
  exists s', control_op s n = Some s' /\ linked s' h.
Proof.
  intros (sids & P & al & l & Hb & Ht & Hc) Hz. destruct (x_settings _ _ _ Ht) as (ET & EU & _).
  pose proof (x_owes _ _ _ Ht) as Ho. rewrite <- (take_drop n (control s)) in Ho.
  destruct (feed maxUncompressed maxTable (dec s) (take n (control s)) (drop n (control s)) l
    (x_dinv _ _ _ Ht) Ho) as (d1 & l1 & l2 & El & Hd1 & Hsc & Hv1 & Ho1 & Herr & HE); try lia.
  { pose proof (x_small _ _ _ Ht) as Hs. change (ins (view (E.table_ (enc s))) < 2 ^ 31) in Hs.
    by rewrite (x_view _ _ _ Ht), replay_app, pend_ins in Hs. }
  set (s1 := with_bytes (with_dec s d1) (drop n (control s)) (acks s)).
  pose proof (tables_fed s l P d1 (drop n (control s)) l1 l2 Ht El Hd1 Hsc Hv1 Ho1) as Ht1.
  assert (Hb1 : books s1 (D.lastAcked_ (dec s1)) (D.queue_ (dec s1)) sids P al h).
  { simpl. destruct Hsc as [_ _ _ -> ->]. by eapply books_same; [|exact Hb]. }
  assert (Hf : forall s', fail s' NONE = s') by (intros []; unfold fail; simpl; by rewrite orb_false_r).
  unfold control_op. rewrite HE. destruct Herr as [[He Hi]|[He Hne]].
  - destruct (step_drain s1 l2 P sids al h Hb1 Ht1 He Hi) as (evs & d & s' & HD & HH & HL).
    simpl in HD. rewrite HD. unfold mbind, option_bind. rewrite Hf. by exists s'.
  - rewrite drain_error by congruence. unfold mbind, option_bind. rewrite Hf. exists s1. split; [done|].
    exists sids, P, al, l2. split; [done|]. split; [done|]. intros E. by destruct (Hne E).
Qed.

(** ** A block arrives *)

Lemma emplace_split k p q :
  exists q1 q2, q = q1 ++ q2 /\ D.emplace k p q = q1 ++ (k, p) :: q2.
Proof.
  induction q as [|[k' p'] q (q1 & q2 & -> & IH)]; simpl; [by exists [], []|].
  destruct (k <? k'); [by exists [], ((k', p') :: q1 ++ q2)|].
  exists ((k', p') :: q1), q2. by rewrite IH.
Qed.

Lemma m_block_small m e : msg_ok e m -> QT.insertCount_ (E.table_ e) < 2 ^ 31 ->
  (m_ric m <> 0 -> 32 <= maxTable) -> zlen (m_block maxTable m) < 2 ^ 32.
Proof.
  intros Hok Hs Hne. pose proof (forms_len _ _ _ _ (k_forms _ _ _ Hok)).
  pose proof (k_base _ _ _ Hok). pose proof (k_ric _ _ _ Hok). destruct (k_admitted _ _ _ Hok) as (Hu & _).
  destruct (prefix_ok maxTable (m_base m) (m_ric m)) as [_ Hp]; [lia|lia|lia|done|].
  unfold m_block. rewrite zlen_app. lia.
Qed.

(** A change of the decoder that leaves the tables alone. *)
Lemma tables_dec s s' l P P' d :
  tables s l P -> same_streams (dec s) d -> D.lastAcked_ d <= D.getInsertCount (dec s) ->
  enc s' = enc s -> dec s' = d -> control s' = control s ->
  (forall sid, sid ∈ paused s' -> exists m rest b, P' sid = m :: rest /\ m_ob m = Some b /\ vulnerable b = true) ->
  tables s' l P'.
Proof.
  intros [X1 X2 X3 X4 X5 X6 X7 X8 X9 X10] [S1 S2 S3 S4 S5 S6] Hla E1 E2 E3 Hw.
  constructor; rewrite ?E1, ?E2, ?E3; try done.
  - unfold dinv in *. by rewrite S1.
  - by rewrite S2, S3, S4.
  - unfold pstate. rewrite S1, S5, S6. exact X7.
  - by rewrite S1.
  - unfold D.getInsertCount, QPACKContext.getInsertCount in *.
    change (QPACKContext.table_ (D.ctx d)) with (D.table_ d). rewrite S1. exact Hla.
Qed.

(** Streams with a vulnerable block in front are no more than the limit. *)
Lemma waiting_count s a q sids sids' P al h l :
  books s a q sids P al h -> tables s l P -> NoDup sids' ->
  (forall sid, sid ∈ sids' -> exists m rest b, P sid = m :: rest /\ m_ob m = Some b /\ vulnerable b = true) ->
  zlen sids' <= maxBlocking.
Proof.
  intros Hb Ht Hnd Hw. transitivity (vulnerables (blocks (E.outstanding_ (E.refs_ (enc s))))); [|apply Ht].
  apply vulnerable_streams; [done|]. intros sid Hin. destruct (Hw sid Hin) as (m & rest & b & HP & Hob & Hv).
  destruct (books_outstanding _ _ s a q sids P al h sid m b Hb) as (lb & Hl & Hbl);
    [rewrite HP; by left|done|]. by exists lb, b.
Qed.

(** Its insertions are there: it is decoded. *)
Lemma block_now s h sids P al l sid m rest :
  books s (D.lastAcked_ (dec s)) (D.queue_ (dec s)) sids P al h -> tables s l P -> caught_up s ->
  (sid ∉ paused s) -> P sid = m :: rest -> m_ric m <= D.getInsertCount (dec s) ->
  zlen (m_block maxTable m) < 2 ^ 32 ->
  exists evs d s', D.decodeStreaming (dec s) sid (m_block maxTable m) (zlen (m_block maxTable m)) sid = Some (evs, d) /\
    handle_all (with_paused (with_inflight (with_dec s d)
      (<[sid := m_block maxTable <$> rest]> (inflight s))) ({[sid]} ∪ paused s)) evs = Some s' /\ linked s' h.
Proof.
  intros Hb Ht Hc Hp HP Hr Hz. destruct (x_settings _ _ _ Ht) as (ET & EU & _).
  destruct (b_msgs _ _ _ _ _ _ _ _ _ Hb sid m) as [Hok Hsid]; [rewrite HP; by left|].
  pose proof (x_small _ _ _ Ht). pose proof (k_base _ _ _ Hok). pose proof (k_ric _ _ _ Hok).
  pose proof (books_acked _ _ _ _ _ _ Hb) as Hack. pose proof (x_last _ _ _ Ht) as Hla0.
  destruct (decodeStreaming_now (dec s) sid (m_block maxTable m) sid (m_base m) (m_ric m) (m_needs m)
    (m_body m) (m_fields m) (tables_ready _ _ _ Ht)) as (evs & d & HE & Hco & Hss & He & Hq & Hla); try done; try lia.
  { intros Hne. pose proof (tables_window s l P m Ht Hok Hne ltac:(lia)) as Hw. cbv zeta in Hw. lia. }
  { intros E. by destruct (k_none _ _ _ Hok E). } { apply Hok. } { by apply (tables_need s l P m). }
  { unfold m_block. by rewrite ET. } { rewrite EU. apply Hok. }
  set (s0 := with_paused (with_inflight (with_dec s d) (<[sid := m_block maxTable <$> rest]> (inflight s)))
    ({[sid]} ∪ paused s)).
  destruct (books_enqueue maxTable maxUncompressed s _ [] (D.queue_ (dec s)) sids P al h sid m rest Hb Hp HP)
    as (sids' & Hb0). simpl in Hb0.
  assert (Hs' : exists sids2, sids' = sid :: sids2).
  { pose proof (b_queue _ _ _ _ _ _ _ _ _ Hb0) as HQ. inversion HQ as [|x sid' y sids2 (m' & _ & He') _ Ex Es]; subst.
    injection He' as _ E _ _ _ _. subst sid'. by exists sids2. }
  destruct Hs' as [sids2 ->].
  exists evs, d, (finish s0 sid (m_fields m) (negb (m_ric m =? 0))). split; [exact HE|].
  split; [apply handle_completed; [done|apply (b_building _ _ _ _ _ _ _ _ _ Hb)|done]|].
  assert (Hb1 : books s0 (D.lastAcked_ (dec s)) (entry maxTable sid m :: D.queue_ (dec s)) (sid :: sids2) P al h)
    by (by eapply books_same; [|exact Hb0]).
  pose proof (books_finish maxTable maxUncompressed s0 _ _ _ sid sids2 P al h m rest Hb1 HP) as Hb2.
  eexists sids2, (upd P sid rest), _, l. split; [|split].
  - change (dec (finish _ _ _ _)) with d. rewrite Hq, Hla. exact Hb2.
  - eapply (tables_dec s); try done; [lia|]. intros sid' Hp'. cbn [paused finish with_paused with_bytes with_fields s0] in Hp'.
    apply elem_of_difference in Hp' as [Hp' Hne]. rewrite upd_ne by set_solver. apply (x_waiting _ _ _ Ht). set_solver.
  - intros Hcc. change (dec (finish _ _ _ _)) with d. rewrite (ss_ingress _ _ Hss), Hq. by apply Hc.
Qed.

(** They are not: it waits. *)
Lemma block_later s h sids P al l sid m rest :
  books s (D.lastAcked_ (dec s)) (D.queue_ (dec s)) sids P al h -> tables s l P -> caught_up s ->
  (sid ∉ paused s) -> P sid = m :: rest -> D.getInsertCount (dec s) < m_ric m ->
  zlen (m_block maxTable m) < 2 ^ 32 ->
  exists d, D.decodeStreaming (dec s) sid (m_block maxTable m) (zlen (m_block maxTable m)) sid = Some ([], d) /\
    linked (with_paused (with_inflight (with_dec s d)
      (<[sid := m_block maxTable <$> rest]> (inflight s))) ({[sid]} ∪ paused s)) h.
Proof.
  intros Hb Ht Hc Hp HP Hr Hz. destruct (x_settings _ _ _ Ht) as (ET & EU & EB).
  destruct (b_msgs _ _ _ _ _ _ _ _ _ Hb sid m) as [Hok Hsid]; [rewrite HP; by left|].
  pose proof (x_small _ _ _ Ht). pose proof (k_base _ _ _ Hok). pose proof (k_ric _ _ _ Hok).
  pose proof (books_acked _ _ _ _ _ _ Hb) as Hack. pose proof (x_last _ _ _ Ht) as Hla0.
  pose proof (ready_count _ (tables_ready _ _ _ Ht)).
  destruct (k_some _ _ _ Hok ltac:(lia)) as (_ & b & Hob & _ & _ & Hvu).
  assert (Hv : vulnerable b = true) by (destruct Hvu; [done|lia]).
  assert (Hwait : forall sid', sid' ∈ ({[sid]} ∪ paused s : gset Z) ->
    exists m rest b, P sid' = m :: rest /\ m_ob m = Some b /\ vulnerable b = true).
  { intros sid' [Hin|Hin]%elem_of_union; [|by apply (x_waiting _ _ _ Ht)].
    apply elem_of_singleton in Hin as ->. by exists m, rest, b. }
  assert (Hcount : zlen (D.queue_ (dec s)) < maxBlocking).
  { pose proof (waiting_count s _ _ sids (sid :: sids) P al h l Hb Ht) as Hle.
    pose proof (Forall2_length _ _ _ (b_queue _ _ _ _ _ _ _ _ _ Hb)) as Hlen.
    unfold zlen in *. simpl in Hle. rewrite Hlen. cut (Z.of_nat (S (length sids)) <= maxBlocking); [lia|]. apply Hle.
    - apply NoDup_cons. split; [|apply Hb]. intros Hin. by apply (b_paused _ _ _ _ _ _ _ _ _ Hb) in Hin.
    - intros sid' [->|Hin]%elem_of_cons; apply Hwait; [set_solver|].
      apply (b_paused _ _ _ _ _ _ _ _ _ Hb) in Hin. set_solver. }
  pose proof (tables_window s l P m Ht Hok ltac:(lia) ltac:(lia)) as Hw. cbv zeta in Hw.
  destruct (decodeStreaming_later (dec s) sid (m_block maxTable m) sid (m_base m) (m_ric m) (m_body m)
    (tables_ready _ _ _ Ht)) as (d & HE & Hss & Hla & Hq); try done; try lia.
  { unfold m_block. by rewrite ET. }
  exists d. split; [exact HE|].
  destruct (emplace_split (m_ric m) (snd (entry maxTable sid m)) (D.queue_ (dec s))) as (q1 & q2 & Eq & Eem).
  assert (Hq' : D.queue_ d = q1 ++ entry maxTable sid m :: q2) by (rewrite Hq, ET; exact Eem).
  assert (Hb' : books s (D.lastAcked_ (dec s)) (q1 ++ q2) sids P al h) by (by rewrite <- Eq).
  destruct (books_enqueue maxTable maxUncompressed s _ q1 q2 sids P al h sid m rest Hb' Hp HP) as (sids' & Hb0).
  exists sids', P, al, l. split; [|split].
  - change (dec (with_paused _ _)) with d. rewrite Hla, Hq'. by eapply books_same; [|exact Hb0].
  - eapply (tables_dec s); try done. lia.
  - intros Hcc. exfalso. destruct (Hc Hcc) as [Hi _].
    assert (Hall : Forall (fun p : Z * D.PendingBlock => fst p <= D.getInsertCount (dec s)) (q1 ++ entry maxTable sid m :: q2)).
    { apply (tables_all (with_paused (with_inflight s (<[sid := m_block maxTable <$> rest]> (inflight s)))
        ({[sid]} ∪ paused s)) l P _ sids' al h); try done.
      apply (tables_dec s _ l P P (dec s) Ht (same_streams_refl (dec s)) Hla0); done. }
    apply Forall_app in Hall as [_ Hall]. inversion Hall; subst. simpl in *. lia.
Qed.

Lemma step_block s h sid : linked s h -> exists s', block_op s sid = Some s' /\ linked s' h.
Proof.
  intros Hl. pose proof Hl as (sids & P & al & l & Hb & Ht & Hc). unfold block_op.
  destruct (fields_of (inflight s) sid) as [|block blocks'] eqn:Ef; [by exists s|].
  destruct (decide (sid ∈ paused s)) as [Hp|Hp]; [by exists s|].
  rewrite (b_flight _ _ _ _ _ _ _ _ _ Hb), decide_False in Ef by done.
  destruct (P sid) as [|m rest] eqn:HP; [done|]. injection Ef as <- <-.
  destruct (b_msgs _ _ _ _ _ _ _ _ _ Hb sid m) as [Hok _]; [rewrite HP; by left|].
  assert (Hz : zlen (m_block maxTable m) < 2 ^ 32).
  { apply (m_block_small m (enc s) Hok (x_small _ _ _ Ht)). intros Hr.
    pose proof (books_acked _ _ _ _ _ _ Hb). pose proof (x_last _ _ _ Ht).
    pose proof (tables_window s l P m Ht Hok Hr ltac:(lia)) as Hw. cbv zeta in Hw.
    destruct (x_settings _ _ _ Ht) as (ET & _). rewrite ET in Hw. unfold QPACKContext.getMaxEntries, kMinLength in Hw.
    destruct (Z.lt_ge_cases maxTable 32) as [Hlt|]; [|done]. rewrite Z.div_small in Hw by lia. lia. }
  destruct (Z.le_gt_cases (m_ric m) (D.getInsertCount (dec s))) as [Hr|Hr].
  - destruct (block_now s h sids P al l sid m rest Hb Ht Hc Hp HP Hr Hz) as (evs & d & s' & HE & HH & HL).
    rewrite HE. unfold mbind, option_bind. by exists s'.
  - destruct (block_later s h sids P al l sid m rest Hb Ht Hc Hp HP Hr Hz) as (d & HE & HL).
    rewrite HE. unfold mbind, option_bind. eexists. by split.
Qed.

(** ** A session starts *)

Lemma empty_settled e :
  inv (E.table_ e) -> E.refs_ e = E.mkRefs ∅ [] UINT32_MAX E.no_references 0 0 ->
  QT.minInUseIndex_ (E.table_ e) = UINT32_MAX -> settled e.
Proof.
  intros Hi Hr Hm. constructor; rewrite ?Hr; done.
Qed.

(** The encoder of the codec after the settings: an empty table, whose capacity is to
    be sent. *)
Lemma start_encoder :
  exists e, E.setHeaderTableSize (E.setMaxVulnerable (E.create true 0) maxBlocking) maxTable true = Some (true, e) /\
    quiet maxUncompressed maxTable e /\ E.maxTableSize_ (E.config_ e) = maxTable /\
    E.maxVulnerable_ (E.config_ e) = maxBlocking /\ E.decoderIngress_ e = [] /\
    E.outstanding_ (E.refs_ e) = ∅ /\ QT.ackedInsertCount_ (E.table_ e) = 0 /\
    view (E.table_ e) = replay (mkDyn 0 [] 0) (pend e).
Proof.
  destruct (QPACKTableResults.q_create_spec 0 true ltac:(lia)) as (Hi0 & Ha0 & Hf0).
  set (c := if maxTable >? E.kMaxHeaderTableSize then E.kMaxHeaderTableSize else maxTable).
  assert (Hc : 0 <= c <= maxTable /\ c < 2 ^ 31).
  { unfold c. rewrite Z.gtb_ltb. change E.kMaxHeaderTableSize with 65536. destruct (Z.ltb_spec 65536 maxTable); lia. }
  assert (Hq : forall e s', E.table_ e = s' -> inv s' -> abs s' = QPACKTableResults.empty c true ->
    E.refs_ e = E.mkRefs ∅ [] UINT32_MAX E.no_references 0 0 -> HPACKEncodeBuffer.buf_ (E.streamBuffer_ e) = [] ->
    E.maxTableSize_ (E.config_ e) = maxTable -> E.maxNumOutstandingBlocks_ (E.config_ e) = 256 ->
    quiet maxUncompressed maxTable e).
  { intros e s' Et Hi Ha Hr Hb Hm Hn. unfold abs, QPACKTableResults.empty in Ha. injection Ha as A1 A2 A3 A4 A5 A6.
    constructor; rewrite ?Et, ?Hm, ?Hn; try done; try lia.
    - constructor; rewrite ?Et; try done; [cbn [fields view]; by rewrite A2|].
      pose proof (Ring.wf_size _ (inv_wf _ Hi)). lia.
    - apply empty_settled; by rewrite ?Et. }
  unfold E.setHeaderTableSize. cbn [andb negb].
  change (E.maxTableSize_ (E.config_ (E.setMaxVulnerable (E.create true 0) maxBlocking))) with 0.
  cbn [Z.eqb negb andb]. fold c. unfold E.base_setHeaderTableSize.
  set (e1 := E.setMaxTableSize _ _). change (QT.capacity_ (E.table_ e1)) with 0.
  change (E.table_ e1) with (QT.create 0 true).
  destruct (Z.eqb_spec c 0) as [E0|E0]; cbn [negb].
  - unfold mbind, option_bind. exists e1. split; [reflexivity|].
    split; [|done]. apply (Hq e1 (QT.create 0 true)); try done. by rewrite Ha0, E0.
  - destruct (q_setCapacity_spec (QT.create 0 true) c Hi0 ltac:(lia)) as (s' & HS & Hi' & Ha' & _).
    assert (HF : QPACKTableSpec.setCapacity (QPACKTableResults.empty 0 true) c =
      (true, QPACKTableResults.empty c true)) by reflexivity.
    rewrite Ha0, HF in HS, Ha'. cbn [fst snd] in HS, Ha'. rewrite HS. unfold mbind, option_bind.
    eexists. split; [reflexivity|]. split; [apply (Hq _ s'); done|].
    unfold abs, QPACKTableResults.empty in Ha'. injection Ha' as A1 A2 A3 A4 A5 A6.
    split_and!; try done. unfold view, pend. simpl. change (E.table_ (E.with_pending _ _)) with s'.
    rewrite A1, A2, A3. done.
Qed.

Lemma start_linked :
  0 <= maxBlocking ->
  exists s, start maxTable maxUncompressed maxBlocking = Some s /\ linked s (fun _ => []).
Proof.
  intros HB. destruct start_encoder as (e & HE & Hq & Em & Ev & Ei & Eo & Ea & Evw).
  destruct (QPACKTableResults.q_create_spec 0 false ltac:(lia)) as (Hi0 & Ha0 & _).
  unfold start. rewrite HE. unfold mbind, option_bind, D.setHeaderTableMaxSize.
  change (D.maxTableSize_ (D.setMaxBlocking (D.create 0 maxUncompressed) maxBlocking)) with 0. cbn [Z.eqb orb].
  unfold D.base_setHeaderTableMaxSize. set (d := D.set_limits _ _ _ _).
  change (QT.capacity_ (D.table_ d)) with 0. rewrite (proj2 (Z.ltb_ge maxTable 0)) by lia.
  eexists. split; [reflexivity|]. exists [], (fun _ => []), [], []. split; [|split; [|done]].
  - constructor; cbn [enc dec acks inflight paused closed building received failed]; try done; try set_solver.
    + by rewrite Ei.
    + exists ∅. unfold astate. rewrite Eo, Ea. done.
    + constructor.
  - constructor; cbn [enc dec control paused]; try done; try set_solver.
    + rewrite Eo. done.
    + assert (Hin : ins (view (E.table_ e)) = 0) by (rewrite Evw; apply pend_ins). simpl in Hin. lia.
    + constructor.
Qed.

End session.

(** ** Sessions *)

Section results.
Context `{CH : CommonHeaders}.

(** The fields and sizes the theorems are about; nothing is assumed of the order. *)
Definition allowed (maxUncompressed : Z) (s : session) (o : op) : Prop :=
  match o with
  | Encode sid hs _ _ => block_allowed maxUncompressed s sid hs
  | DeliverControl n => zlen (D.ingress_ (dec s) ++ take n (control s)) < 2 ^ 32
  | DeliverAcks n => zlen (E.decoderIngress_ (enc s) ++ take n (acks s)) < 2 ^ 32
  | Cancel sid => 0 <= sid < 2 ^ 62
  | DeliverBlock _ | Increment => True
  end.

Fixpoint all_allowed (maxUncompressed : Z) (s : session) (ops : list op) : Prop :=
  match ops with
  | [] => True
  | o :: ops =>
      allowed maxUncompressed s o /\
      match step s o with Some s' => all_allowed maxUncompressed s' ops | None => True end
  end.

#[global] Instance encodable_dec lim h : Decision (encodable lim h).
Proof. unfold encodable, canonical, bytes_ok, is_u8. apply _. Defined.

#[global] Instance allowed_dec m s o : Decision (allowed m s o).
Proof. destruct o; unfold allowed, block_allowed, admitted, room; apply _. Defined.

#[global] Instance all_allowed_dec m ops : forall s, Decision (all_allowed m s ops).
Proof.
  induction ops as [|o ops IH]; intros s; simpl; [apply _|].
  apply and_dec; [apply _|]. destruct (step s o); [apply IH|apply _].
Defined.

(** ** Blocks that would be held back *)

(** On each stream there are as many vulnerable blocks as blocks with [f] and, on the streams
    [sids], one more; then so it is in all. *)
Lemma vulnerable_flight {B} (f : B -> bool) (M : gmap Z (list B)) : forall m' sids, NoDup sids ->
  (forall sid, zlen (filter (fun b => f b = true) (fields_of M sid)) + (if decide (sid ∈ sids) then 1 else 0) <= vulnerables (fields_of m' sid)) ->
  zlen (filter (fun b => f b = true) (concat (snd <$> map_to_list M))) + zlen sids <= vulnerables (blocks m').
Proof.
  induction M as [|i x M Hi IH] using map_ind; intros m' sids Hnd H.
  - rewrite map_to_list_empty. change (0 + zlen sids <= vulnerables (blocks m')). rewrite Z.add_0_l. apply vulnerable_streams; [done|].
    intros sid Hin. specialize (H sid). rewrite decide_True in H by done. unfold fields_of in H. rewrite lookup_empty in H.
    change (0 + 1 <= vulnerables (default [] (m' !! sid))) in H. destruct (m' !! sid) as [l|]; [|done]. exists l. simpl in H.
    unfold vulnerables in H. destruct (filter _ l) as [|b k] eqn:E; [done|].
    assert (Hb : b ∈ filter (fun b => vulnerable b = true) l) by (rewrite E; by left). apply list_elem_of_filter in Hb as [? ?]. by exists b.
  - assert (Hp : filter (fun b => f b = true) (concat (snd <$> map_to_list (<[i := x]> M))) ≡ₚ
        filter (fun b => f b = true) (concat ((i, x) :: map_to_list M).*2)) by (by rewrite map_to_list_insert).
    rewrite (zlen_perm _ _ Hp). cbn [fmap list_fmap snd concat]. rewrite filter_app, zlen_app.
    assert (Hrest : exists sids', NoDup sids' /\ (i ∉ sids') /\ zlen sids = zlen sids' + (if decide (i ∈ sids) then 1 else 0) /\ forall k, k <> i -> k ∈ sids' <-> k ∈ sids).
    { destruct (decide (i ∈ sids)) as [Hin|Hin]; [|exists sids; split_and!; [done|done|lia|done]].
      apply elem_of_Permutation in Hin as [k Hk]. exists k. rewrite Hk in Hnd. apply NoDup_cons in Hnd as [? ?]. split_and!; [done|done| |].
      - rewrite (zlen_perm _ _ Hk). unfold zlen. cbn [length]. lia.
      - intros j Hj. rewrite Hk. set_solver. }
    destruct Hrest as (sids' & Hnd' & Hni & Hz & Hel).
    assert (HM : fields_of M i = []) by (unfold fields_of; by rewrite Hi).
    specialize (IH (delete i m') sids' Hnd'). assert (Hle : zlen (filter (fun b => f b = true) (concat (snd <$> map_to_list M))) + zlen sids' <= vulnerables (blocks (delete i m'))).
    { apply IH. intros sid. rewrite fields_of_delete. destruct (decide (sid = i)) as [->|Hne].
      - rewrite HM, decide_False by done. done.
      - specialize (H sid). rewrite fields_of_insert, decide_False in H by done. destruct (decide (sid ∈ sids')) as [Hs|Hs].
        + rewrite decide_True in H by (by apply Hel). exact H.
        + rewrite decide_False in H by (by rewrite <- Hel). exact H. }
    specialize (H i). rewrite fields_of_insert, decide_True in H by done.
    assert (Hsplit : vulnerables (blocks m') = vulnerables (fields_of m' i) + vulnerables (blocks (delete i m'))).
    { unfold fields_of. destruct (m' !! i) as [y|] eqn:Ey; simpl.
      - by rewrite (vulnerables_perm _ _ (blocks_delete m' i y Ey)), vulnerables_app.
      - by rewrite (delete_none _ _ Ey). }
    rewrite Hsplit, Hz. lia.
Qed.

Lemma vulnerable_msgs {B} (g : msg -> B) (f : B -> bool) l : (forall m, m ∈ l -> f (g m) = true -> exists b, m_ob m = Some b /\ vulnerable b = true) ->
  zlen (filter (fun b => f b = true) (g <$> l)) <= vulnerables (omap m_ob l).
Proof.
  induction l as [|m l IH]; intros H; [done|]. specialize (IH (fun m' Hm' => H m' (list_elem_of_further _ _ _ Hm'))).
  cbn [fmap list_fmap omap list_omap]. rewrite filter_cons. destruct (f (g m)) eqn:E.
  - destruct (H m) as (b & -> & Hv); [by left|done|]. rewrite decide_True by done. unfold vulnerables. rewrite filter_cons, decide_True by done.
    unfold vulnerables, zlen in *. cbn [length]. lia.
  - rewrite decide_False by done. destruct (m_ob m) as [b|]; [|done]. unfold vulnerables in *. rewrite filter_cons.
    destruct (decide (vulnerable b = true)); [unfold zlen in *; cbn [length]|]; lia.
Qed.

Section settings.
Variables maxTable maxUncompressed maxBlocking : Z.
Hypothesis Htable : 0 <= maxTable < 2 ^ 31.
Hypothesis Huncompressed : 0 <= maxUncompressed < 2 ^ 27.

#[local] Abbreviation linked := (linked maxTable maxUncompressed maxBlocking).

Lemma step_linked s h o :
  linked s h -> allowed maxUncompressed s o ->
  exists s', step s o = Some s' /\
    linked s' (match o with Encode sid hs _ _ => upd h sid (h sid ++ [hs]) | _ => h end).
Proof.
  intros Hl Ha. destruct o as [sid hs hr n|n|sid|n| |sid]; simpl in *.
  - by apply step_encode.
  - by apply step_control.
  - by apply step_block.
  - by apply step_acks.
  - by apply step_increment.
  - by apply step_cancel.
Qed.

(** The invariant along a run. *)
Lemma run_linked ops : forall s h,
  linked s h -> all_allowed maxUncompressed s ops ->
  exists s' h', run s ops = Some s' /\ linked s' h' /\ forall sid, h' sid = h sid ++ sent ops sid.
Proof.
  induction ops as [|o ops IH]; intros s h Hl Ha.
  { exists s, h. split_and!; try done. intros sid. by rewrite app_nil_r. }
  destruct Ha as [Ha Has]. destruct (step_linked s h o Hl Ha) as (s1 & HS & Hl1).
  rewrite HS in Has. destruct (IH s1 _ Hl1 Has) as (s' & h' & HR & Hl' & Hh). exists s', h'.
  split; [simpl; by rewrite HS|]. split; [done|]. intros sid. rewrite Hh.
  destruct o as [sid' hs hr n|n|sid'|n| |sid']; try done. simpl. unfold upd.
  destruct (decide (sid' = sid)) as [->|Hne]; [rewrite decide_True by done; by rewrite <- app_assoc|].
  by rewrite decide_False by done.
Qed.

(** A stream with nothing under way. *)
Lemma linked_received s h sid :
  linked s h -> control s = [] -> (sid ∉ closed s) -> fields_of (inflight s) sid = [] ->
  fields_of (received s) sid = h sid.
Proof.
  intros (sids & P & al & l & Hb & Ht & Hc) Hco Hcl Hf. destruct (Hc Hco) as [_ Hq].
  pose proof (b_queue _ _ _ _ _ _ _ _ _ Hb) as HQ. rewrite Hq in HQ. inversion HQ; subst.
  rewrite (b_flight _ _ _ _ _ _ _ _ _ Hb), decide_False in Hf
    by (intros Hp; apply (b_paused _ _ _ _ _ _ _ _ _ Hb) in Hp; by apply elem_of_nil in Hp).
  rewrite <- (b_received _ _ _ _ _ _ _ _ _ Hb sid Hcl). apply fmap_nil_inv in Hf as ->. by rewrite app_nil_r.
Qed.

(** A block that would be held back is one that the encoder counts as vulnerable. *)
Lemma would_block_vulnerable s l P m :
  tables maxTable maxUncompressed maxBlocking s l P -> msg_ok maxUncompressed (enc s) m -> QT.ackedInsertCount_ (E.table_ (enc s)) <= D.getInsertCount (dec s) ->
  would_block (dec s) (m_block maxTable m) = true -> exists b, m_ob m = Some b /\ vulnerable b = true.
Proof.
  intros Ht Hok Hack. destruct (x_settings _ _ _ _ _ _ Ht) as (ET & _). pose proof (x_small _ _ _ _ _ _ Ht).
  pose proof (k_base _ _ _ Hok). pose proof (k_ric _ _ _ Hok). pose proof (tables_ready _ _ _ Htable Huncompressed _ _ _ Ht) as Hrd.
  pose proof (ready_count _ Hrd). pose proof (ready_ins _ Hrd).
  assert (Hw : m_ric m <> 0 -> let M := QPACKContext.getMaxEntries (D.maxTableSize_ (dec s)) in 0 < M /\ D.getInsertCount (dec s) - M < m_ric m <= D.getInsertCount (dec s) + M).
  { intros Hr. pose proof (tables_window _ _ _ s l P m Ht Hok Hr Hack) as Hw. cbv zeta in *. lia. }
  assert (Hz : zlen (m_block maxTable m) < 2 ^ 32).
  { apply (m_block_small maxTable maxUncompressed Htable Huncompressed m (enc s) Hok H). intros Hr. specialize (Hw Hr). rewrite ET in Hw. unfold QPACKContext.getMaxEntries, kMinLength in Hw.
    destruct (Z.lt_ge_cases maxTable 32) as [Hlt|]; [|done]. rewrite Z.div_small in Hw by lia. cbv zeta in Hw. lia. }
  unfold would_block. set (block := m_block maxTable m) in *. set (dbuf := HPACKDecodeBuffer.create _ _ _).
  assert (Hh : DecodeSpec.holds dbuf (prefix_bytes (D.maxTableSize_ (D.set_err (dec s) NONE)) (m_base m) (m_ric m)) (m_body m)).
  { split; [simpl; rewrite ET; done|]. simpl. split; [|unfold_ints; pose proof (Codes.zlen_nonneg block); lia].
    unfold block, m_block. rewrite ET, zlen_app. pose proof (Codes.zlen_nonneg (m_body m)). lia. }
  rewrite (decodePrefix_ok (D.set_err (dec s) NONE) dbuf (m_body m) (m_base m) (m_ric m)); try done; [|lia|lia|simpl; apply u32_range|simpl; lia|].
  2: { intros Hr. specialize (Hw Hr). cbv zeta in *. change (D.getInsertCount (D.set_err (dec s) NONE)) with (D.getInsertCount (dec s)).
       change (D.maxTableSize_ (D.set_err (dec s) NONE)) with (D.maxTableSize_ (dec s)). lia. }
  change (default 0 (Some (m_ric m))) with (m_ric m). change (D.getInsertCount (D.set_base _ _)) with (D.getInsertCount (dec s)).
  intros Hlt%Z.gtb_lt. destruct (k_some _ _ _ Hok ltac:(lia)) as (_ & b & Hob & _ & _ & [Hv|]); [by exists b|lia].
Qed.

(** The blocks in the queue and those in flight that would join it. *)
Lemma linked_blocked s h :
  linked s h -> zlen (D.queue_ (dec s)) + zlen (filter (fun b => would_block (dec s) b = true) (in_flight s)) <= maxBlocking.
Proof.
  intros (sids & P & al & l & Hb & Ht & Hc).
  pose proof (Forall2_length _ _ _ (b_queue _ _ _ _ _ _ _ _ _ Hb)) as Hlen.
  pose proof (books_acked _ _ _ _ _ _ _ _ Hb) as Hack. pose proof (x_last _ _ _ _ _ _ Ht) as Hla.
  destruct (b_run _ _ _ _ _ _ _ _ _ Hb) as (m' & Hr & Hom).
  transitivity (vulnerables (blocks m')); [|pose proof (ack_run_vulnerables _ _ _ Hr); pose proof (x_limit _ _ _ _ _ _ Ht); simpl in *; lia].
  replace (zlen (D.queue_ (dec s))) with (zlen sids) by (unfold zlen; by rewrite Hlen). rewrite Z.add_comm.
  apply vulnerable_flight; [apply Hb|]. intros sid. rewrite Hom, (b_flight _ _ _ _ _ _ _ _ _ Hb).
  assert (Hwb : forall m, m ∈ P sid -> would_block (dec s) (m_block maxTable m) = true -> exists b, m_ob m = Some b /\ vulnerable b = true).
  { intros m Hm. destruct (b_msgs _ _ _ _ _ _ _ _ _ Hb sid m Hm) as [Hok _]. apply (would_block_vulnerable s l P); [done|done|lia]. }
  destruct (decide (sid ∈ sids)) as [Hin|Hin].
  - apply (b_paused _ _ _ _ _ _ _ _ _ Hb) in Hin. rewrite decide_True by done.
    destruct (x_waiting _ _ _ _ _ _ Ht sid Hin) as (m & rest & b & HP & Hob & Hv). rewrite HP in *. cbn [tail]. change (omap m_ob (m :: rest)) with (match m_ob m with Some b => b :: omap m_ob rest | None => omap m_ob rest end). rewrite Hob.
    unfold vulnerables. rewrite filter_cons, decide_True by done.
    pose proof (vulnerable_msgs (m_block maxTable) (would_block (dec s)) rest (fun m Hm => Hwb m (list_elem_of_further _ _ _ Hm))). unfold vulnerables, zlen in *. cbn [length]. lia.
  - rewrite decide_False by (rewrite (b_paused _ _ _ _ _ _ _ _ _ Hb); done). pose proof (vulnerable_msgs (m_block maxTable) (would_block (dec s)) (P sid) Hwb). lia.
Qed.

(** All acknowledgements arrived, and nothing is under way. *)
Lemma linked_quiescent s h :
  linked s h -> control s = [] -> E.decoderIngress_ (enc s) ++ acks s = [] ->
  (forall sid, fields_of (inflight s) sid = []) ->
  E.outstanding_ (E.refs_ (enc s)) = ∅ /\
  QT.ackedInsertCount_ (E.table_ (enc s)) = D.lastAcked_ (dec s) /\ settled (enc s).
Proof.
  intros (sids & P & al & l & Hb & Ht & Hc) Hco Hac Hf. destruct (Hc Hco) as [_ Hq].
  pose proof (b_queue _ _ _ _ _ _ _ _ _ Hb) as HQ. rewrite Hq in HQ. inversion HQ; subst.
  pose proof (q_settled _ _ _ (x_quiet _ _ _ _ _ _ Ht)) as Hs.
  assert (al = []) as ->.
  { pose proof (b_acks _ _ _ _ _ _ _ _ _ Hb) as E. rewrite Hac in E. pose proof (b_small _ _ _ _ _ _ _ _ _ Hb) as Hsm.
    destruct al as [|x al]; [done|]. inversion Hsm as [|x' al' Hx _]; subst.
    exfalso. apply (Codes.codes_ne _ _ _ _ (ack_codes x Hx)). unfold acks_bytes in E. simpl in E.
    symmetry in E. by apply app_eq_nil in E as [-> _]. }
  destruct (b_run _ _ _ _ _ _ _ _ _ Hb) as (m' & Hr & Hom). injection Hr as <- Ha. split; [|done].
  apply map_eq. intros sid. rewrite lookup_empty. specialize (Hom sid). specialize (Hf sid).
  rewrite (b_flight _ _ _ _ _ _ _ _ _ Hb), decide_False in Hf
    by (intros Hp; apply (b_paused _ _ _ _ _ _ _ _ _ Hb) in Hp; by apply elem_of_nil in Hp).
  apply fmap_nil_inv in Hf. rewrite Hf in Hom. unfold fields_of in Hom. simpl in Hom.
  destruct (E.outstanding_ (E.refs_ (enc s)) !! sid) as [lb|] eqn:El; [|done].
  simpl in Hom. subst lb. by destruct (t_nonempty _ _ (s_tracked _ Hs) sid [] El).
Qed.

(** The tables, once every instruction was carried out; and before. *)
Lemma linked_tables s h :
  linked s h ->
  (forall i f, field (view (E.table_ (enc s))) i = Some f -> i <= D.getInsertCount (dec s) ->
     field (view (D.table_ (dec s))) i = Some f) /\
  (control s = [] -> view (E.table_ (enc s)) = replay (view (D.table_ (dec s))) (pend (enc s))).
Proof.
  intros (sids & P & al & l & Hb & Ht & Hc). pose proof (x_view _ _ _ _ _ _ Ht) as Hv. split.
  - intros i f Hf Hi. rewrite Hv in Hf. by apply (field_back (l ++ pend (enc s))).
  - intros Hco. destruct (Hc Hco) as [Hi _]. pose proof (x_owes _ _ _ _ _ _ Ht) as Ho.
    rewrite Hco, Hi in Ho. by apply owes_nothing in Ho as ->.
Qed.

End settings.
End results.

End QPACKEndToEnd.
