(* ===== verification/QPACKResults.v ===== *)
(** * QPACK: the theorems

    What the encoder and the decoder promise together, for sessions of any length
    and any order of events, and for the parts that stand on their own. *)

From stdpp Require Import gmap.
From S2P Require Import Prelude Huffman HPACKBuffers HeaderTable HPACKContext QPACKHeaderTable.
From S2P Require Import QPACKContext QPACKEncoder QPACKDecoder QPACKWire QPACKTables.
From S2P Require Import QPACKReads QPACKFeed QPACKTracking QPACKEncoding QPACKAcks.
From S2P Require Import QPACKSession QPACKBooks QPACKEndToEnd.

Module QPACKResults.
Import HPACK HPACKHeader HPACKHeaderName QPACKRing Dyn QPACKTracking QPACKEncoding QPACKAcks
  QPACKSession QPACKBooks QPACKEndToEnd ContextSpec.
Module E := QPACKEncoder.
Module D := QPACKDecoder.
Module QT := QPACKHeaderTable.

(** ** Sessions *)

(** The settings two endpoints may agree on. *)
Definition settings_ok (maxTable maxUncompressed maxBlocking : Z) : Prop :=
  0 <= maxTable < 2 ^ 31 /\ 0 <= maxUncompressed < 2 ^ 27 /\ 0 <= maxBlocking.

(** The states of a session: [ops] may be performed, one after the other, and lead
    to [s]. *)
Definition reaches `{CH : CommonHeaders} (maxTable maxUncompressed maxBlocking : Z)
    (ops : list op) (s : session) : Prop :=
  exists s0, start maxTable maxUncompressed maxBlocking = Some s0 /\
    all_allowed maxUncompressed s0 ops /\ run s0 ops = Some s.

(** C2. An encoder and a decoder that are connected by an encoder stream, a decoder
    stream and header blocks never abort and never report an error, in whatever
    order and in whatever pieces bytes and blocks arrive; what was received on a
    stream is a prefix of what was encoded for it; and when the encoder stream and
    the blocks of the stream have arrived, it is all of it. *)
Theorem qpack_session `{CH : CommonHeaders} maxTable maxUncompressed maxBlocking ops :
  settings_ok maxTable maxUncompressed maxBlocking ->
  exists s0, start maxTable maxUncompressed maxBlocking = Some s0 /\
    (all_allowed maxUncompressed s0 ops ->
     exists s, run s0 ops = Some s /\ failed s = false /\
       (forall sid, fields_of (received s) sid `prefix_of` sent ops sid) /\
       (forall sid, sid ∉ closed s -> control s = [] -> fields_of (inflight s) sid = [] ->
          fields_of (received s) sid = sent ops sid)).
Proof.
  intros (HT & HU & HB). destruct (start_linked maxTable maxUncompressed maxBlocking HT HU HB) as (s0 & Hs & Hl).
  exists s0. split; [done|]. intros Ha.
  destruct (run_linked maxTable maxUncompressed maxBlocking HT HU ops s0 _ Hl Ha) as (s & h & HR & Hl' & Hh).
  exists s. split; [done|]. pose proof Hl' as (sids & P & al & l & Hb & _).
  split; [apply Hb|]. split.
  - intros sid. specialize (Hh sid). simpl in Hh. rewrite <- Hh. apply Hb.
  - intros sid Hc Hco Hf. specialize (Hh sid). simpl in Hh. rewrite <- Hh.
    by apply (linked_received maxTable maxUncompressed maxBlocking s h sid).
Qed.

Definition hdr (n v : string) : HPACKHeader.t := HPACKHeader.mk (str n) (str v).

(** Two blocks that share fields; the second arrives first, and both before the
    insertions, which arrive in two pieces. *)
Definition demo_ops : list op :=
  [Encode 4 [hdr ":path" "/"; hdr "foo" "bar"; hdr "foo" "baz"] 0 1000;
   Encode 8 [hdr "foo" "bar"; hdr "foo" "new"] 0 1000;
   DeliverBlock 8; DeliverBlock 4; DeliverControl 5; DeliverControl 100; DeliverAcks 1; Increment;
   Encode 4 [hdr "foo" "bar"] 0 100; DeliverAcks 100; DeliverBlock 4; DeliverAcks 100].

Definition demo_start : option session := start (CH := common_headers) 200 10000 10.

(** What the demonstration satisfies, by evaluation. *)
Definition demo_check (P : session -> session -> bool) : bool :=
  match demo_start with
  | Some s0 => match run (CH := common_headers) s0 demo_ops with Some s => P s0 s | None => false end
  | None => false
  end.

Lemma demo_holds :
  demo_check (fun s0 s => bool_decide (all_allowed (CH := common_headers) 10000 s0 demo_ops) &&
    bool_decide (control s = []) && bool_decide (acks s = []) &&
    bool_decide (E.decoderIngress_ (enc s) = []) && bool_decide (inflight s = {[4 := []; 8 := []]}) &&
    bool_decide (closed s = ∅) && bool_decide (E.pendingContextUpdate_ (enc s) = false)) = true.
Proof. vm_compute. reflexivity. Qed.

Lemma demo_started : exists s0, demo_start = Some s0.
Proof.
  pose proof demo_holds as H. unfold demo_check in H. destruct demo_start as [s0|]; [by exists s0|discriminate H].
Qed.

Lemma demo_facts s0 :
  demo_start = Some s0 -> all_allowed (CH := common_headers) 10000 s0 demo_ops /\
  exists s, run (CH := common_headers) s0 demo_ops = Some s /\ control s = [] /\
    E.decoderIngress_ (enc s) ++ acks s = [] /\ (forall sid, fields_of (inflight s) sid = []) /\
    closed s = ∅ /\ E.pendingContextUpdate_ (enc s) = false.
Proof.
  intros Hs. pose proof demo_holds as H. unfold demo_check in H. rewrite Hs in H.
  destruct (run s0 demo_ops) as [s|]; [|discriminate H].
  repeat (apply andb_prop in H as [H ?%bool_decide_eq_true]). apply bool_decide_eq_true in H.
  split; [exact H|]. exists s. split; [reflexivity|]. split; [assumption|]. split.
  { match goal with E1 : E.decoderIngress_ _ = _, E2 : acks _ = _ |- _ => rewrite E1, E2; reflexivity end. }
  split; [|split; assumption]. intros sid.
  match goal with E1 : inflight _ = _ |- _ => rewrite E1 end. rewrite fields_of_insert.
  destruct (decide (sid = 4)); [reflexivity|]. unfold fields_of.
  destruct (decide (sid = 8)) as [->|Hn]; [by rewrite lookup_singleton_eq|by rewrite lookup_singleton_ne].
Qed.

Lemma qpack_session_witness :
  exists s0 s, demo_start = Some s0 /\ run (CH := common_headers) s0 demo_ops = Some s /\
    failed s = false /\ fields_of (received s) 8 = [[hdr "foo" "bar"; hdr "foo" "new"]].
Proof.
  destruct (qpack_session (CH := common_headers) 200 10000 10 demo_ops) as (s0 & Hs & Hrun);
    [unfold settings_ok; lia|].
  destruct (demo_facts s0 Hs) as (Ha & s' & HR & Hc & _ & Hf & Hcl & _).
  destruct (Hrun Ha) as (s & HR' & Hfa & _ & Hall).
  assert (s' = s) as -> by (rewrite HR in HR'; by injection HR').
  exists s0, s. split; [exact Hs|]. split; [exact HR|]. split; [exact Hfa|].
  rewrite (Hall 8); [reflexivity|rewrite Hcl; apply not_elem_of_empty|exact Hc|apply Hf].
Defined.

(** The invariant in the states a session reaches. *)
Lemma reached_linked `{CH : CommonHeaders} maxTable maxUncompressed maxBlocking ops s :
  settings_ok maxTable maxUncompressed maxBlocking ->
  reaches maxTable maxUncompressed maxBlocking ops s ->
  exists h, linked maxTable maxUncompressed maxBlocking s h.
Proof.
  intros (HT & HU & HB) (s0 & Hs & Ha & HR).
  destruct (start_linked maxTable maxUncompressed maxBlocking HT HU HB) as (s0' & Hs' & Hl).
  rewrite Hs in Hs'. injection Hs' as <-.
  destruct (run_linked maxTable maxUncompressed maxBlocking HT HU ops s0 _ Hl Ha) as (s' & h & HR' & Hl' & _).
  rewrite HR in HR'. injection HR' as <-. by exists h.
Qed.

(** C3. In every state of a session, an entry of the encoder's dynamic table whose
    insertion has arrived is in the decoder's table under the same absolute index;
    when the encoder stream has arrived and no change of the capacity is pending, the
    two tables are equal. *)
Theorem qpack_tables_agree `{CH : CommonHeaders} maxTable maxUncompressed maxBlocking ops s :
  settings_ok maxTable maxUncompressed maxBlocking ->
  reaches maxTable maxUncompressed maxBlocking ops s ->
  (forall i f, field (view (E.table_ (enc s))) i = Some f -> i <= D.getInsertCount (dec s) ->
     field (view (D.table_ (dec s))) i = Some f) /\
  (control s = [] -> E.pendingContextUpdate_ (enc s) = false ->
     view (E.table_ (enc s)) = view (D.table_ (dec s))).
Proof.
  intros HS HR.
  destruct (reached_linked maxTable maxUncompressed maxBlocking ops s HS HR) as (h & Hl').
  destruct (linked_tables maxTable maxUncompressed maxBlocking (proj1 (proj2 HS)) s h Hl') as [H1 H2].
  split; [exact H1|]. intros Hc Hp. rewrite (H2 Hc). unfold pend. by rewrite Hp.
Qed.

Lemma qpack_tables_agree_witness :
  exists s0 s, demo_start = Some s0 /\ run (CH := common_headers) s0 demo_ops = Some s /\
    view (E.table_ (enc s)) = view (D.table_ (dec s)).
Proof.
  destruct demo_started as [s0 Hs].
  destruct (demo_facts s0 Hs) as (Ha & s & HR & Hc & _ & _ & _ & Hp). exists s0, s. split; [exact Hs|].
  split; [exact HR|].
  apply (qpack_tables_agree (CH := common_headers) 200 10000 10 demo_ops s);
    first [assumption|unfold settings_ok; lia|exists s0; split_and!; assumption].
Defined.

(** C27. When a session has come to rest, with everything delivered and acknowledged,
    the encoder has no outstanding block, counts none and no vulnerable one, pins no
    entry of its table, and knows of the insertions the decoder acknowledged. *)
Theorem qpack_acknowledged `{CH : CommonHeaders} maxTable maxUncompressed maxBlocking ops s :
  settings_ok maxTable maxUncompressed maxBlocking ->
  reaches maxTable maxUncompressed maxBlocking ops s ->
  control s = [] -> E.decoderIngress_ (enc s) ++ acks s = [] ->
  (forall sid, fields_of (inflight s) sid = []) ->
  E.numOutstandingBlocks_ (E.refs_ (enc s)) = 0 /\ E.numVulnerable_ (E.refs_ (enc s)) = 0 /\
  QT.minInUseIndex_ (E.table_ (enc s)) = UINT32_MAX /\
  QT.ackedInsertCount_ (E.table_ (enc s)) = D.lastAcked_ (dec s).
Proof.
  intros HS HR Hc Hac Hf.
  destruct (reached_linked maxTable maxUncompressed maxBlocking ops s HS HR) as (h & Hl').
  destruct (linked_quiescent maxTable maxUncompressed maxBlocking s h Hl' Hc Hac Hf) as (Ho & Hk & [_ Ht Hi Hu]).
  rewrite (t_count _ _ Ht), (t_vulnerable _ _ Ht), Hu, (idle_min _ _ Ht Hi), Ho. split_and!; try done.
  pose proof (t_mins _ _ Ht) as Hm. rewrite Ho in Hm. by rewrite (min_of_perm _ _ Hm).
Qed.

Lemma qpack_acknowledged_witness :
  exists s0 s, demo_start = Some s0 /\ run (CH := common_headers) s0 demo_ops = Some s /\
    E.numOutstandingBlocks_ (E.refs_ (enc s)) = 0.
Proof.
  destruct demo_started as [s0 Hs].
  destruct (demo_facts s0 Hs) as (Ha & s & HR & Hc & Hac & Hf & _ & _). exists s0, s. split; [exact Hs|].
  split; [exact HR|].
  apply (qpack_acknowledged (CH := common_headers) 200 10000 10 demo_ops s);
    first [assumption|unfold settings_ok; lia|exists s0; split_and!; assumption].
Defined.

(** C28. The encoder never risks more blocked blocks than the decoder allows: in every
    state, the blocks that the decoder holds back and the blocks in flight that it
    would hold back if they arrived now, because they require insertions that it has not
    got, are together no more than the limit of the settings.  The check of the decoder
    ([TOO_MANY_BLOCKING]) sees only the former. *)
Theorem qpack_blocking_limit `{CH : CommonHeaders} maxTable maxUncompressed maxBlocking ops s :
  settings_ok maxTable maxUncompressed maxBlocking ->
  reaches maxTable maxUncompressed maxBlocking ops s ->
  zlen (D.queue_ (dec s)) + zlen (filter (fun b => would_block (dec s) b = true) (in_flight s)) <= maxBlocking.
Proof.
  intros HS HR. destruct (reached_linked maxTable maxUncompressed maxBlocking ops s HS HR) as (h & Hl'). destruct HS as (HT & HU & _).
  by apply (linked_blocked maxTable maxUncompressed maxBlocking HT HU s h).
Qed.

(** Three blocks that could refer to insertions that have not arrived, of which two may: one
    waits in the decoder, one would wait, and the third makes no such reference. *)
Definition blocking_ops : list op :=
  [Encode 4 [hdr "foo" "bar"] 0 1000; Encode 8 [hdr "foo" "bar"; hdr "foo" "new"] 0 1000; Encode 12 [hdr "foo" "bar"] 0 1000; DeliverBlock 8].

Definition blocking_start : option session := start (CH := common_headers) 200 10000 2.

Lemma blocking_holds :
  match blocking_start with
  | Some s0 =>
      match run (CH := common_headers) s0 blocking_ops with
      | Some s => bool_decide (all_allowed (CH := common_headers) 10000 s0 blocking_ops) &&
          (zlen (D.queue_ (dec s)) =? 1) && (zlen (in_flight s) =? 2) &&
          (zlen (filter (fun b => would_block (dec s) b = true) (in_flight s)) =? 1)
      | None => false
      end
  | None => false
  end = true.
Proof. vm_compute. reflexivity. Qed.

Lemma qpack_blocking_limit_witness :
  exists s0 s, blocking_start = Some s0 /\ run (CH := common_headers) s0 blocking_ops = Some s /\
    zlen (D.queue_ (dec s)) = 1 /\ zlen (in_flight s) = 2 /\
    zlen (D.queue_ (dec s)) + zlen (filter (fun b => would_block (dec s) b = true) (in_flight s)) <= 2.
Proof.
  pose proof blocking_holds as H. destruct blocking_start as [s0|] eqn:Hs; [|discriminate H].
  destruct (run s0 blocking_ops) as [s|] eqn:HR; [|discriminate H].
  apply andb_prop in H as [H _]. apply andb_prop in H as [H Hf%Z.eqb_eq]. apply andb_prop in H as [H Hq%Z.eqb_eq]. apply bool_decide_eq_true in H.
  exists s0, s. split; [reflexivity|]. split; [exact HR|]. split; [exact Hq|]. split; [exact Hf|].
  apply (qpack_blocking_limit (CH := common_headers) 200 10000 2 blocking_ops s);
    first [unfold settings_ok; lia|exists s0; split_and!; assumption].
Defined.

(** ** The prefix of a block *)

(** A count that the decoder can recover from its value modulo [2 * MaxEntries]. *)
Definition recoverable (d : D.t) (ric : Z) : Prop :=
  let M := QPACKContext.getMaxEntries (D.maxTableSize_ d) in
  D.getInsertCount d - M < ric <= D.getInsertCount d + M.

(** The required insert count and the base that [completeEncode] writes before a
    block are read back by [decodePrefix], if the count is less than [MaxEntries]
    away from the decoder's insert count. *)
Theorem qpack_prefix_roundtrip `{CH : CommonHeaders} b d base ric rest :
  0 <= base < 2 ^ 31 -> 0 <= ric < 2 ^ 31 -> 32 <= D.maxTableSize_ d < 2 ^ 31 ->
  0 <= D.getInsertCount d < 2 ^ 31 ->
  recoverable d ric ->
  D.err_ d = NONE -> HPACKEncodeBuffer.buf_ b = [] -> zlen rest < 2 ^ 31 ->
  exists b', E.encodePrefix b (D.maxTableSize_ d) base ric = Some b' /\
    let block := HPACKEncodeBuffer.buf_ b' ++ rest in
    let dbuf := HPACKDecodeBuffer.create block (zlen block) 0 in
    exists dbuf', D.decodePrefix (d, dbuf) =
      Some (Some ric, (D.set_base d (if ric =? 0 then 0 else base), dbuf')) /\
      HPACKDecodeBuffer.cursor_ dbuf' = rest /\ HPACKDecodeBuffer.remainingBytes_ dbuf' = zlen rest.
Proof.
  intros Hb Hr HT Hi HM He Hbuf Hz.
  rewrite encodePrefix_ok by lia. eexists. split; [reflexivity|]. simpl. rewrite Hbuf. simpl.
  set (pre := QPACKReads.prefix_bytes (D.maxTableSize_ d) base ric).
  destruct (QPACKReads.prefix_ok (D.maxTableSize_ d) base ric Hb Hr) as [_ Hpz]; [lia|lia|]. fold pre in Hpz.
  set (dbuf := HPACKDecodeBuffer.create _ _ _).
  assert (Hmax : 0 < QPACKContext.getMaxEntries (D.maxTableSize_ d)).
  { unfold QPACKContext.getMaxEntries, kMinLength. apply Z.div_str_pos. lia. }
  pose proof (Codes.zlen_nonneg rest) as Hr0.
  assert (Hh : DecodeSpec.holds dbuf pre rest).
  { split; [done|]. simpl. rewrite zlen_app. split; [lia|unfold_ints; lia]. }
  eexists. split.
  - apply (QPACKReads.decodePrefix_ok d dbuf rest base ric); try done; try lia.
  - simpl. fold pre. rewrite zlen_app. split; [unfold zlen; rewrite Nat2Z.id; apply drop_app_length|].
    rewrite u32_id by (unfold_ints; lia). lia.
Qed.

Definition demo_decoder : D.t := D.create 200 10000.

(** ** The references of the encoder *)

(** [minOutstandingMin_] is the minimum of the vector. *)
Definition min_tracked (r : E.refs) : Prop := E.minOutstandingMin_ r = min_of (E.outstandingMins_ r).

(** [removeFromMinOutstanding] removes one occurrence of the value from the
    vector of minima and leaves [minOutstandingMin_] the minimum of the rest. *)
Theorem qpack_min_outstanding r val :
  val ∈ E.outstandingMins_ r -> min_tracked r ->
  exists r', E.removeFromMinOutstanding r val = Some r' /\
    val :: E.outstandingMins_ r' ≡ₚ E.outstandingMins_ r /\ min_tracked r'.
Proof.
  intros Hin Hm. destruct (removeFromMinOutstanding_spec r val Hin Hm) as (mins & -> & Hp).
  eexists. split; [reflexivity|]. done.
Qed.

(** Acknowledgements that the encoder can expect: of blocks that are outstanding and
    of insertions that were made. *)
Definition expected (e : E.t) (al : list ack) : Prop :=
  Forall ack_small al /\
  exists s', ack_run (astate e) al = Some s' /\ snd s' <= QT.insertCount_ (E.table_ e).

(** Bytes of the decoder stream, cut anywhere, have the effect of the
    acknowledgements that are complete ([ack_run]) on the encoder: no check of the
    encoder fails, no error is reported, and the rest is kept for the next piece. *)
Theorem qpack_acks_in_pieces e buf rest al :
  settled e -> E.decoderIngress_ e ++ buf ++ rest = acks_bytes al -> expected e al ->
  zlen (E.decoderIngress_ e ++ buf) < 2 ^ 32 ->
  exists e' al1 al2, E.decodeDecoderStream e buf = Some (NONE, e') /\ al = al1 ++ al2 /\
    settled e' /\ ack_run (astate e) al1 = Some (astate e') /\
    E.decoderIngress_ e' ++ rest = acks_bytes al2 /\ (rest = [] -> al2 = []).
Proof.
  intros He E (Hs & s' & Hr & Hle) Hz.
  destruct (acks_feed e buf rest al s' He E Hs Hr Hle Hz) as (e' & al1 & al2 & HE & Hal & [Hin _] & H').
  by exists e', al1, al2.
Qed.

(** An encoder that waits for the acknowledgement of one block. *)
Definition demo_block : list op := [Encode 4 [hdr "foo" "bar"] 0 1000].

Lemma demo_encoder_holds :
  match demo_start with
  | Some s0 => match run (CH := common_headers) s0 demo_block with
    | Some s => bool_decide (all_allowed (CH := common_headers) 10000 s0 demo_block) &&
        bool_decide (E.decoderIngress_ (enc s) = []) &&
        bool_decide (QT.insertCount_ (E.table_ (enc s)) = 1) &&
        match ack_run (astate (enc s)) [AHeader 4] with
        | Some (m, k) => Nat.eqb (size m) 0 && (k =? 1)
        | None => false end
    | None => false end
  | None => false end = true.
Proof. vm_compute. reflexivity. Qed.

Lemma demo_encoder :
  exists s0 s, demo_start = Some s0 /\ run (CH := common_headers) s0 demo_block = Some s /\
    settled (enc s) /\ E.decoderIngress_ (enc s) = [] /\ QT.insertCount_ (E.table_ (enc s)) = 1 /\
    ack_run (astate (enc s)) [AHeader 4] = Some (∅, 1).
Proof.
  pose proof demo_encoder_holds as H. destruct demo_started as [s0 Hs]. rewrite Hs in H.
  destruct (run s0 demo_block) as [s|] eqn:HR; [|discriminate H].
  apply andb_prop in H as [H Hack]. repeat (apply andb_prop in H as [H ?%bool_decide_eq_true]).
  apply bool_decide_eq_true in H.
  destruct (reached_linked (CH := common_headers) 200 10000 10 demo_block s) as (h & sids & P & al & l & _ & Ht & _);
    [unfold settings_ok; lia|exists s0; split_and!; assumption|].
  exists s0, s. split; [exact Hs|]. split; [exact HR|].
  split; [apply (q_settled _ _ _ (x_quiet _ _ _ _ _ _ Ht))|]. split; [assumption|]. split; [assumption|].
  destruct (ack_run (astate (enc s)) [AHeader 4]) as [[m k]|]; [|discriminate Hack].
  apply andb_prop in Hack as [Hm Hk]. apply Z.eqb_eq in Hk as ->. apply Nat.eqb_eq in Hm.
  by apply map_size_empty_inv in Hm as ->.
Qed.

(** ** Where the decoder holds blocks back longer than it must *)

(** A block whose insertions have arrived stays in the queue when the piece of
    the encoder stream that brought them ends inside of the next instruction: [err_]
    is still [BUFFER_UNDERFLOW] when [drainQueue] looks at it.  It is decoded when the
    rest of that instruction arrives. *)
Theorem qpack_ready_block_waits :
  let ops := [Encode 4 [hdr "foo" "bar"] 0 1000; DeliverBlock 4; Encode 8 [hdr "key" "value"] 0 1000;
              DeliverControl 13] in
  (s0 ← demo_start; s ← run (CH := common_headers) s0 ops;
   Some (D.getInsertCount (dec s), fst <$> D.queue_ (dec s), size (received s))) =
    Some (1, [1], 0%nat) /\
  (s0 ← demo_start; s ← run (CH := common_headers) s0 (ops ++ [DeliverControl 6]);
   Some (D.getInsertCount (dec s), fst <$> D.queue_ (dec s), size (received s))) =
    Some (2, [], 1%nat).
Proof. vm_compute. split; reflexivity. Qed.

End QPACKResults.
