(* ===== verification/IntervalSet.v ===== *)
(** * Sets of intervals

    [quic/common/IntervalSet.h] and [IntervalSet-inl.h] of mvfst, at [uint64_t] with unit 1
    as the acknowledged parts of a stream and of a packet number space use it: a sorted
    list of closed intervals that neither overlap nor touch.  An exception is [None].
    [interval_set_refines]: the operations are those of a set of integers. *)

From stdpp Require Import list.
From S2P Require Import Prelude.

Module IntervalSet.

Record Interval := mkInterval { start : Z; end_ : Z }.

#[global] Instance Interval_eq_dec : EqDecision Interval.
Proof. solve_decision. Defined.

Definition unitValue : Z := 1.

(** The constructor. *)
Definition make (s e : Z) : option Interval :=
  if s >? e then None else if e >? UINT64_MAX - unitValue then None else Some (mkInterval s e).

Record IntervalSet := mkSet { intervals : list Interval; insertVersion : Z }.
Definition empty : IntervalSet := mkSet [] 0.

(** [std::lower_bound] and the loop of [intersectingRange], as positions. *)
Fixpoint first_touching (l : list Interval) (i : Interval) : nat :=
  match l with
  | [] => O
  | a :: l => if u64 (end_ a + unitValue) <? start i then S (first_touching l i) else O
  end.
Fixpoint touching_run (l : list Interval) (i : Interval) : nat :=
  match l with
  | [] => O
  | a :: l => if start a <=? u64 (end_ i + unitValue) then S (touching_run l i) else O
  end.
Definition intersectingRange (l : list Interval) (i : Interval) : nat * nat :=
  let first := first_touching l i in (first, (first + touching_run (drop first l) i)%nat).

(** [erase(first, last)] and [insert(pos, i)] of the container. *)
Definition erase (l : list Interval) (first last : nat) : list Interval := take first l ++ drop last l.
Definition insert_at (l : list Interval) (pos : nat) (i : Interval) : list Interval := take pos l ++ i :: drop pos l.

Definition insert (s : IntervalSet) (i : Interval) : IntervalSet :=
  let l := intervals s in
  let '(firstIt, endIt) := intersectingRange l i in
  if decide (firstIt = endIt) then mkSet (insert_at l firstIt i) (u64 (insertVersion s + 1))
  else
    match l !! firstIt, l !! (endIt - 1)%nat with
    | Some first, Some last =>
        let merged := mkInterval (Z.min (start i) (start first)) (Z.max (end_ i) (end_ last)) in
        let grown := u64 (end_ merged - start merged) >? u64 (end_ first - start first) in
        mkSet (erase (<[firstIt := merged]> l) (S firstIt) endIt)
          (if grown then u64 (insertVersion s + 1) else insertVersion s)
    | _, _ => s   (* both iterators are in range *)
    end.

Definition insert_range (s : IntervalSet) (a b : Z) : option IntervalSet :=
  if a >? b then None else i ← make a b; Some (insert s i).
Definition insert_point (s : IntervalSet) (p : Z) : option IntervalSet := i ← make p p; Some (insert s i).

Definition withdraw (s : IntervalSet) (i : Interval) : IntervalSet :=
  let l := intervals s in
  let '(first, end') := intersectingRange l i in
  let last := (end' - 1)%nat in
  if decide (first = end') then s
  else
    match l !! first, l !! last with
    | Some f, Some e =>
        let left := mkInterval (start f) (u64 (start i - unitValue)) in
        let right := mkInterval (u64 (end_ i + unitValue)) (end_ e) in
        if bool_decide (last = first) && (u64 (start f + unitValue) <=? start i) && (end_ e >=? u64 (end_ i + unitValue))
        then mkSet (insert_at (<[last := right]> l) last left) (insertVersion s)
        else
          let '(l, erasureStart) :=
            if u64 (start f + unitValue) <=? start i then (<[first := left]> l, S first) else (l, first) in
          match l !! last with
          | Some e =>
              let '(l, erasureEnd) :=
                if end_ e >=? u64 (end_ i + unitValue)
                then (<[last := mkInterval (u64 (end_ i + unitValue)) (end_ e)]> l, last) else (l, end') in
              mkSet (erase l erasureStart erasureEnd) (insertVersion s)
          | None => s
          end
    | _, _ => s
    end.

Fixpoint contains (l : list Interval) (a b : Z) : bool :=
  match l with
  | [] => false
  | i :: l =>
      if (a >=? start i) && (b <=? end_ i) then true
      else if a <? end_ i then false
      else contains l a b
  end.

(** ** The invariant and what a set holds *)

Definition has (i : Interval) (p : Z) : Prop := start i <= p <= end_ i.
Definition member (l : list Interval) (p : Z) : Prop := Exists (fun i => has i p) l.

(** An interval that the constructor accepts. *)
Definition valid (i : Interval) : Prop := 0 <= start i <= end_ i /\ end_ i < UINT64_MAX.

(** In order, and at least one number apart. *)
Fixpoint ordered (lo : Z) (l : list Interval) : Prop :=
  match l with [] => True | i :: l => lo < start i /\ valid i /\ ordered (end_ i + 1) l end.

Definition wf (s : IntervalSet) : Prop := ordered (-1) (intervals s).

Lemma make_valid s e i : 0 <= s -> make s e = Some i -> valid i /\ i = mkInterval s e.
Proof.
  unfold make, valid, unitValue. intros Hs. destruct (Z.gtb_spec s e); [done|]. destruct (Z.gtb_spec e (UINT64_MAX - 1)); [done|].
  intros [= <-]. simpl. split; [lia|done].
Qed.

Lemma ordered_weaken lo lo' l : lo' <= lo -> ordered lo l -> ordered lo' l.
Proof. destruct l; simpl; [done|]. intros ? (?&?&?). split_and!; [lia|done..]. Qed.

Lemma ordered_Forall lo l : ordered lo l -> Forall (fun i => valid i /\ lo < start i) l.
Proof.
  revert lo. induction l as [|i l IH]; intros lo; [constructor|]. simpl. intros (H1 & H2 & H3).
  apply Forall_cons. split; [done|]. apply IH. eapply ordered_weaken; [|done]. destruct H2. lia.
Qed.

Lemma intervals_app lo l m hi :
  ordered lo l -> Forall (fun i => end_ i + 1 < hi) l -> lo < hi -> (forall lo', lo' < hi -> ordered lo' m) -> ordered lo (l ++ m).
Proof.
  revert lo. induction l as [|b l IH]; intros lo; simpl; [intros _ _ H1 H2; by apply H2|].
  intros (H1 & H2 & H3) [H4 H5]%Forall_cons H6 H7. split_and!; [done..|]. by apply IH.
Qed.

Lemma ordered_split lo l m : ordered lo (l ++ m) -> ordered lo l /\ ordered lo m.
Proof.
  revert lo. induction l as [|b l IH]; intros lo; simpl; [done|]. intros (H1 & H2 & [H3 H4]%IH).
  split; [done|]. eapply ordered_weaken; [|done]. destruct H2. lia.
Qed.

Lemma member_cons i l p : member (i :: l) p <-> has i p \/ member l p.
Proof. apply Exists_cons. Qed.
Lemma member_app l m p : member (l ++ m) p <-> member l p \/ member m p.
Proof. apply Exists_app. Qed.
Lemma member_nil p : ~ member [] p.
Proof. intros H. by apply Exists_nil in H. Qed.

Lemma succ_valid i : valid i -> u64 (end_ i + unitValue) = end_ i + 1.
Proof. intros [? ?]. unfold unitValue. apply u64_id. ilia. Qed.

(** ** The range that an interval touches *)

(** The list in three parts: before, touching or overlapping, after. *)
Lemma range_parts lo l i :
  ordered lo l -> valid i ->
  exists pre mid post, l = pre ++ mid ++ post /\
    intersectingRange l i = (length pre, length pre + length mid)%nat /\
    Forall (fun a => end_ a + 1 < start i) pre /\
    Forall (fun a => start a <= end_ i + 1 /\ start i <= end_ a + 1) mid /\
    Forall (fun a => end_ i + 1 < start a) post.
Proof.
  intros Ho Hi. unfold intersectingRange.
  assert (Hpre : exists pre rest, l = pre ++ rest /\ first_touching l i = length pre /\
    Forall (fun a => end_ a + 1 < start i) pre /\ Forall (fun a => start i <= end_ a + 1) rest).
  { revert lo Ho. induction l as [|a l IH]; intros lo Ho; [by exists [], []|]. destruct Ho as (H1 & H2 & H3). simpl.
    rewrite succ_valid by done. destruct (Z.ltb_spec (end_ a + 1) (start i)).
    - destruct (IH _ H3) as (pre & rest & -> & -> & H5 & H6). exists (a :: pre), rest. by rewrite Forall_cons.
    - exists [], (a :: l). split_and!; [done..|]. apply Forall_cons. split; [done|].
      apply ordered_Forall in H3. eapply Forall_impl; [exact H3|]. simpl. intros b [[? ?] ?]. lia. }
  destruct Hpre as (pre & rest & -> & -> & H1 & H2). rewrite drop_app_length.
  apply ordered_split in Ho as [_ Ho].
  assert (Hmid : exists mid post, rest = mid ++ post /\ touching_run rest i = length mid /\
    Forall (fun a => start a <= end_ i + 1) mid /\ Forall (fun a => end_ i + 1 < start a) post).
  { clear H2. revert lo Ho. induction rest as [|a l IH]; intros lo Ho; [by exists [], []|]. destruct Ho as (H3 & H4 & H5). simpl.
    rewrite succ_valid by done. destruct (Z.leb_spec (start a) (end_ i + 1)).
    - destruct (IH _ H5) as (mid & post & -> & -> & H6 & H7). exists (a :: mid), post. by rewrite Forall_cons.
    - exists [], (a :: l). split_and!; [done..|]. apply Forall_cons. split; [done|].
      apply ordered_Forall in H5. eapply Forall_impl; [exact H5|]. simpl. intros b [[? ?] ?]. destruct H4. lia. }
  destruct Hmid as (mid & post & -> & -> & H3 & H4). exists pre, mid, post. apply Forall_app in H2 as [H2 _].
  split_and!; try done. apply Forall_and. done.
Qed.

(** ** Insertion *)

Lemma update_middle {A} (pre post : list A) x y : <[length pre := y]> (pre ++ x :: post) = pre ++ y :: post.
Proof. rewrite <- (Nat.add_0_r (length pre)), insert_app_r. done. Qed.

Lemma take_S_middle {A} (pre post : list A) x : take (S (length pre)) (pre ++ x :: post) = pre ++ [x].
Proof. replace (pre ++ x :: post) with ((pre ++ [x]) ++ post) by by rewrite <- app_assoc.
  replace (S (length pre)) with (length (pre ++ [x])) by (rewrite length_app; simpl; lia). apply take_app_length. Qed.

(** The bounds of an ordered list of intervals. *)
Lemma ordered_bounds lo f m e :
  ordered lo (f :: m) -> last (f :: m) = Some e ->
  valid f /\ valid e /\ lo < start f /\ end_ f <= end_ e /\ (m = [] /\ e = f \/ end_ f + 1 < start e) /\
  Forall (fun a => start f <= start a /\ end_ a <= end_ e /\ (a = f \/ end_ f + 1 < start a) /\ (a = e \/ end_ a + 1 < start e)) (f :: m).
Proof.
  revert lo f. induction m as [|g m IH]; intros lo f (H1 & H2 & H3) He.
  { injection He as <-. split_and!; try done; [by left|]. apply Forall_singleton. split_and!; (done || lia || by left). }
  rewrite last_cons_cons in He. destruct (IH _ _ H3 He) as (I1 & I2 & I3 & I4 & I5 & I6).
  pose proof H2 as [? ?]. pose proof I1 as [? ?]. pose proof I2 as [? ?].
  assert (end_ f + 1 < start e) by (destruct I5 as [[_ ->]|?]; lia).
  split_and!; try done; try lia. apply Forall_cons. split; [split_and!; (lia || by left || by right)|].
  eapply Forall_impl; [exact I6|]. simpl. intros a (J1 & J2 & J3 & J4). split_and!; first [lia|done|right; lia].
Qed.

Lemma insert_parts pre mid post i s :
  intervals s = pre ++ mid ++ post -> intersectingRange (intervals s) i = (length pre, length pre + length mid)%nat ->
  match mid, last mid with
  | f :: _, Some e =>
      insert s i = mkSet (pre ++ mkInterval (Z.min (start i) (start f)) (Z.max (end_ i) (end_ e)) :: post)
        (if u64 (Z.max (end_ i) (end_ e) - Z.min (start i) (start f)) >? u64 (end_ f - start f)
         then u64 (insertVersion s + 1) else insertVersion s)
  | _, _ => insert s i = mkSet (pre ++ i :: post) (u64 (insertVersion s + 1))
  end.
Proof.
  intros Hl Hr. unfold insert. rewrite Hr, Hl. destruct mid as [|f m].
  - rewrite decide_True by (simpl; lia). unfold insert_at. simpl. by rewrite take_app_length, drop_app_length.
  - destruct (last (f :: m)) as [e|] eqn:He; [|by apply last_None in He].
    rewrite decide_False by (simpl; lia). simpl app at 2. rewrite list_lookup_middle by done.
    rewrite last_lookup in He. simpl pred in He.
    replace (length pre + length (f :: m) - 1)%nat with (length pre + length m)%nat by (simpl; lia).
    assert ((pre ++ (f :: m) ++ post) !! (length pre + length m)%nat = Some e) as ->.
    { rewrite lookup_app_r by lia. replace (length pre + length m - length pre)%nat with (length m) by lia.
      rewrite lookup_app_l by (simpl; lia). done. }
    simpl. f_equal. unfold erase. rewrite update_middle, take_S_middle, <- app_assoc. simpl. do 2 f_equal.
    rewrite drop_app_ge by lia. replace (length pre + S (length m) - length pre)%nat with (S (length m)) by lia.
    simpl. apply drop_app_length.
Qed.

Lemma ordered_before lo pre f r : ordered lo (pre ++ f :: r) -> Forall (fun a => end_ a + 1 < start f) pre.
Proof.
  revert lo. induction pre as [|x pre IH]; intros lo; simpl; [done|]. intros (H1 & H2 & H3).
  apply Forall_cons. split; [|by eapply IH]. apply ordered_Forall, Forall_app in H3 as [_ [[_ H3] _]%Forall_cons]. done.
Qed.

Lemma ordered_after lo m post e : ordered lo (m ++ post) -> last m = Some e -> ordered (end_ e + 1) post.
Proof.
  revert lo. induction m as [|x m IH]; intros lo Ho He; [done|]. destruct Ho as (_ & _ & Ho).
  destruct m as [|y m]; [injection He as <-; done|]. rewrite last_cons_cons in He. by eapply IH.
Qed.

(** The parts again, with what separates them. *)
Lemma parts_apart pre f m post e :
  ordered (-1) (pre ++ (f :: m) ++ post) -> last (f :: m) = Some e ->
  ordered (-1) pre /\ Forall (fun a => end_ a + 1 < start f) pre /\ ordered (-1) (f :: m) /\ ordered (end_ e + 1) post.
Proof.
  intros Hs He. destruct (ordered_split _ _ _ Hs) as [Hpre Hrest]. destruct (ordered_split _ _ _ Hrest) as [Hmid _].
  split_and!; [done|by eapply ordered_before|apply Hmid..|by eapply ordered_after].
Qed.

Lemma merge_ok pre f m post e i :
  ordered (-1) (pre ++ (f :: m) ++ post) -> last (f :: m) = Some e -> valid i ->
  Forall (fun a => end_ a + 1 < start i) pre -> Forall (fun a => start a <= end_ i + 1 /\ start i <= end_ a + 1) (f :: m) ->
  Forall (fun a => end_ i + 1 < start a) post ->
  let g := mkInterval (Z.min (start i) (start f)) (Z.max (end_ i) (end_ e)) in
  ordered (-1) (pre ++ g :: post) /\
  (forall p, member (pre ++ g :: post) p <-> member (pre ++ (f :: m) ++ post) p \/ has i p).
Proof.
  intros Hs He Hi P1 P2 P3 g. destruct (parts_apart _ _ _ _ _ Hs He) as (Hpre & Hpf & Hmid & Hpost).
  destruct (ordered_bounds _ _ _ _ Hmid He) as (B1 & B2 & B3 & B4 & B5 & B6).
  pose proof Hi as [I1 I2]. pose proof B1 as [F1 F2]. pose proof B2 as [E1 E2].
  assert (Hf : start f <= end_ i + 1 /\ start i <= end_ f + 1) by by apply Forall_cons in P2 as [? _].
  assert (Hee : start e <= end_ i + 1 /\ start i <= end_ e + 1).
  { rewrite Forall_forall in P2. apply P2. by apply last_Some_elem_of. }
  split.
  - apply (intervals_app _ _ _ (start g)); [done| |unfold g; simpl; lia|].
    + eapply Forall_impl; [apply Forall_and; split; [exact P1|exact Hpf]|]. unfold g. simpl. intros a [? ?]. lia.
    + intros lo' Hlo. unfold g. simpl. split_and!; [done| |].
      * unfold valid. simpl. lia.
      * destruct post as [|a post]; [done|]. apply Forall_cons in P3 as [P3 _]. destruct Hpost as (? & ? & ?). simpl. split_and!; [lia|done..].
  - intros p. rewrite !member_app, member_cons. unfold has at 1, g. simpl start. simpl end_. split.
    + intros [?|[?|?]]; [tauto| |tauto]. destruct (decide (start i <= p <= end_ i)); [by right|]. left. right. left.
      apply Exists_exists. destruct (Z.lt_ge_cases p (start i)).
      * exists f. split; [apply list_elem_of_here|]. unfold has. lia.
      * exists e. split; [by apply last_Some_elem_of|]. unfold has. lia.
    + intros [[?|[H|?]]|H]; [tauto| |tauto|unfold has in H; right; left; lia]. right. left.
      apply Exists_exists in H as (a & Ha & Hp). rewrite Forall_forall in B6. destruct (B6 a Ha) as (? & ? & _). unfold has in Hp. lia.
Qed.

Lemma interval_insert_ok s i :
  wf s -> valid i -> wf (insert s i) /\ (forall p, member (intervals (insert s i)) p <-> member (intervals s) p \/ has i p).
Proof.
  intros Hs Hi. destruct (range_parts (-1) (intervals s) i Hs Hi) as (pre & mid & post & Hl & Hr & P1 & P2 & P3).
  pose proof (insert_parts pre mid post i s Hl Hr) as H. unfold wf in *. rewrite Hl in Hs |- *.
  destruct (ordered_split _ _ _ Hs) as [Hpre Hrest]. destruct (ordered_split _ _ _ Hrest) as [Hmid Hpost].
  pose proof Hi as [? ?]. destruct mid as [|f m].
  - rewrite H. simpl in Hs |- *. split.
    + apply (intervals_app _ _ _ (start i)); [done..|lia|]. intros lo' Hlo. simpl. split_and!; [done..|].
      destruct post as [|a post]; [done|]. apply Forall_cons in P3 as [P3 _]. destruct Hpost as (? & ? & ?). simpl. done.
    + intros p. rewrite !member_app, member_cons. tauto.
  - destruct (last (f :: m)) as [e|] eqn:He; [|by apply last_None in He]. rewrite H. clear H. simpl intervals.
    by apply merge_ok.
Qed.

(** The version changes when, and only when, the set grows. *)
Lemma version_ok s i :
  wf s -> valid i -> insertVersion (insert s i) <> insertVersion s <-> exists p, has i p /\ ~ member (intervals s) p.
Proof.
  intros Hs Hi. destruct (range_parts (-1) (intervals s) i Hs Hi) as (pre & mid & post & Hl & Hr & P1 & P2 & P3).
  pose proof (insert_parts pre mid post i s Hl Hr) as H. unfold wf in *. rewrite Hl in Hs |- *.
  assert (Hnext : u64 (insertVersion s + 1) <> insertVersion s) by ilia. pose proof Hi as [I1 I2].
  assert (Hout : forall p, has i p -> ~ member pre p /\ ~ member post p).
  { intros p Hp. unfold has in Hp. rewrite Forall_forall in P1, P3.
    split; intros (a & Ha & Hpa)%Exists_exists; [specialize (P1 a Ha)|specialize (P3 a Ha)]; unfold has in Hpa; simpl in *; lia. }
  destruct mid as [|f m].
  - rewrite H. simpl. split; [|done]. intros _. exists (start i). assert (Hp : has i (start i)) by (unfold has; lia).
    split; [done|]. rewrite member_app. specialize (Hout _ Hp). tauto.
  - destruct (last (f :: m)) as [e|] eqn:He; [|by apply last_None in He]. rewrite H. clear H. simpl insertVersion.
    destruct (parts_apart _ _ _ _ _ Hs He) as (_ & _ & Hmid & _).
    destruct (ordered_bounds _ _ _ _ Hmid He) as (B1 & B2 & B3 & B4 & B5 & B6).
    pose proof B1 as [F1 F2]. pose proof B2 as [E1 E2]. rewrite !u64_id by (revert I1 I2; ilia).
    destruct (Z.gtb_spec (Z.max (end_ i) (end_ e) - Z.min (start i) (start f)) (end_ f - start f)) as [G|G]; (split; [|done || intros (p & Hp & Hn)]).
    + intros _. assert (Hf : start f <= end_ i + 1 /\ start i <= end_ f + 1) by by apply Forall_cons in P2 as [? _].
      assert (Hee : start e <= end_ i + 1) by (rewrite Forall_forall in P2; apply P2; by apply last_Some_elem_of).
      assert (Hp : exists p, has i p /\ (p < start f \/ p = end_ f + 1)).
      { unfold has. destruct (Z.lt_ge_cases (start i) (start f)); [exists (start i); lia|exists (end_ f + 1)].
        destruct B5 as [[_ ->]|?]; lia. }
      destruct Hp as (p & Hp & Hpf). exists p. split; [done|]. rewrite !member_app. destruct (Hout p Hp) as [O1 O2].
      intros [?|[(a & Ha & Hpa)%Exists_exists|?]]; [done| |done]. rewrite Forall_forall in B6.
      destruct (B6 a Ha) as (? & ? & [->|?] & _); unfold has in Hpa; lia.
    + done.
    + destruct Hn. rewrite member_app, member_app, member_cons. right. left. left. unfold has in *. lia.
Qed.

(** ** Withdrawal *)

(** What is left of the interval at the left and at the right end of [i]. *)
Definition left_of (f i : Interval) : list Interval := if start f <? start i then [mkInterval (start f) (start i - 1)] else [].
Definition right_of (e i : Interval) : list Interval := if end_ i <? end_ e then [mkInterval (end_ i + 1) (end_ e)] else [].

Lemma keep_first f i : valid f -> valid i -> (u64 (start f + unitValue) <=? start i) = (start f <? start i).
Proof. intros [? ?] [? ?]. unfold unitValue. rewrite u64_id by ilia. by destruct (Z.leb_spec (start f + 1) (start i)), (Z.ltb_spec (start f) (start i)); try lia. Qed.
Lemma keep_last e i : valid i -> (end_ e >=? u64 (end_ i + unitValue)) = (end_ i <? end_ e).
Proof. intros Hi. rewrite succ_valid by done. by destruct (Z.geb_spec (end_ e) (end_ i + 1)), (Z.ltb_spec (end_ i) (end_ e)); try lia. Qed.

Lemma drop_middle {A} (pre post : list A) x : drop (length pre + 1) (pre ++ x :: post) = post.
Proof. rewrite <- drop_drop, drop_app_length. done. Qed.

Lemma withdraw_one pre f post i s :
  valid f -> valid i -> intervals s = pre ++ [f] ++ post ->
  intersectingRange (intervals s) i = (length pre, length pre + 1)%nat ->
  intervals (withdraw s i) = pre ++ left_of f i ++ right_of f i ++ post.
Proof.
  intros Hf Hi Hl Hr. unfold withdraw. rewrite Hr, Hl. simpl app. rewrite decide_False by lia.
  replace (length pre + 1 - 1)%nat with (length pre) by lia. rewrite list_lookup_middle, bool_decide_eq_true_2 by done.
  rewrite keep_first, keep_last, succ_valid by done. unfold left_of, right_of.
  destruct (Z.ltb_spec (start f) (start i)) as [L|L]; simpl.
  - rewrite (u64_id (start i - unitValue)) by (unfold unitValue; destruct Hf, Hi; ilia). unfold unitValue.
    destruct (Z.ltb_spec (end_ i) (end_ f)) as [R|R]; simpl.
    + unfold insert_at. by rewrite update_middle, take_app_length, drop_app_length.
    + rewrite update_middle, list_lookup_middle by done. simpl end_. destruct (Z.geb_spec (start i - 1) (end_ i + 1)); [destruct Hi; lia|].
      simpl. unfold erase. rewrite take_S_middle, drop_middle, <- app_assoc. done.
  - rewrite list_lookup_middle by done. destruct (Z.geb_spec (end_ f) (end_ i + 1)), (Z.ltb_spec (end_ i) (end_ f)); try lia; simpl.
    + unfold erase. by rewrite update_middle, take_app_length, drop_app_length.
    + unfold erase. by rewrite take_app_length, drop_middle.
Qed.

Lemma withdraw_many pre f m e post i s :
  valid f -> valid i -> start i <= end_ f + 1 -> intervals s = pre ++ (f :: m ++ [e]) ++ post ->
  intersectingRange (intervals s) i = (length pre, length pre + length (f :: m ++ [e]))%nat ->
  intervals (withdraw s i) = pre ++ left_of f i ++ right_of e i ++ post.
Proof.
  intros Hf Hi Hfi Hl Hr. unfold withdraw. rewrite Hr, Hl. clear Hl Hr.
  assert (El : forall x, pre ++ (x :: m ++ [e]) ++ post = (pre ++ x :: m) ++ e :: post) by (intros x; simpl; rewrite <- !app_assoc; done).
  rewrite decide_False by (simpl; lia).
  replace (length pre + length (f :: m ++ [e]) - 1)%nat with (length (pre ++ f :: m)) by (rewrite !length_app; simpl; rewrite length_app; simpl; lia).
  rewrite bool_decide_eq_false_2 by (rewrite length_app; simpl; lia). simpl andb.
  assert ((pre ++ (f :: m ++ [e]) ++ post) !! length pre = Some f) as -> by by apply list_lookup_middle.
  rewrite (El f), list_lookup_middle by done. rewrite keep_first by done. unfold left_of, right_of.
  replace (length pre + length (f :: m ++ [e]))%nat with (length (pre ++ f :: m) + 1)%nat by (rewrite !length_app; simpl; rewrite length_app; simpl; lia).
  destruct (Z.ltb_spec (start f) (start i)) as [L|L].
  - rewrite (u64_id (start i - unitValue)) by (unfold unitValue; destruct Hf, Hi; ilia). unfold unitValue.
    rewrite <- (El f). cbn [app]. rewrite update_middle. set (g := mkInterval (start f) (start i - 1)).
    change (g :: (m ++ [e]) ++ post) with ((g :: m ++ [e]) ++ post). rewrite (El g).
    replace (length (pre ++ f :: m)) with (length (pre ++ g :: m)) by (rewrite !length_app; done).
    rewrite list_lookup_middle by done. change (end_ i + 1) with (end_ i + unitValue). rewrite keep_last by done.
    destruct (end_ i <? end_ e); simpl; unfold erase; rewrite ?update_middle, <- ?app_assoc; simpl; rewrite take_S_middle, <- app_assoc; simpl; do 2 f_equal.
    + rewrite succ_valid by done. rewrite app_comm_cons, app_assoc. by rewrite drop_app_length.
    + rewrite app_comm_cons, app_assoc. by rewrite drop_middle.
  - rewrite list_lookup_middle, keep_last by done.
    assert (Ht : forall r, take (length pre) ((pre ++ f :: m) ++ r) = pre) by (intros r; rewrite <- app_assoc; apply take_app_length).
    destruct (end_ i <? end_ e); simpl; unfold erase; rewrite ?update_middle, Ht; f_equal; simpl.
    + by rewrite drop_app_length, succ_valid.
    + by rewrite drop_middle.
Qed.

Lemma left_member f i p : member (left_of f i) p <-> start f <= p < start i.
Proof.
  unfold left_of. destruct (Z.ltb_spec (start f) (start i)).
  - rewrite member_cons. unfold has. simpl. pose proof (member_nil p). split; [intros [?|?]; [lia|done]|left; lia].
  - pose proof (member_nil p). split; [done|lia].
Qed.
Lemma right_member e i p : member (right_of e i) p <-> end_ i < p <= end_ e.
Proof.
  unfold right_of. destruct (Z.ltb_spec (end_ i) (end_ e)).
  - rewrite member_cons. unfold has. simpl. pose proof (member_nil p). split; [intros [?|?]; [lia|done]|left; lia].
  - pose proof (member_nil p). split; [done|lia].
Qed.

Lemma cut_ok pre f m post e i :
  ordered (-1) (pre ++ (f :: m) ++ post) -> last (f :: m) = Some e -> valid i ->
  Forall (fun a => end_ a + 1 < start i) pre -> Forall (fun a => start a <= end_ i + 1 /\ start i <= end_ a + 1) (f :: m) ->
  Forall (fun a => end_ i + 1 < start a) post ->
  ordered (-1) (pre ++ left_of f i ++ right_of e i ++ post) /\
  (forall p, member (pre ++ left_of f i ++ right_of e i ++ post) p <-> member (pre ++ (f :: m) ++ post) p /\ ~ has i p).
Proof.
  intros Hs He Hi P1 P2 P3. destruct (parts_apart _ _ _ _ _ Hs He) as (Hpre & Hpf & Hmid & Hpost).
  destruct (ordered_bounds _ _ _ _ Hmid He) as (B1 & B2 & B3 & B4 & B5 & B6).
  pose proof Hi as [I1 I2]. pose proof B1 as [F1 F2]. pose proof B2 as [E1 E2].
  assert (Hf : start f <= end_ i + 1 /\ start i <= end_ f + 1) by by apply Forall_cons in P2 as [? _].
  assert (Hee : start e <= end_ i + 1 /\ start i <= end_ e + 1).
  { rewrite Forall_forall in P2. apply P2. by apply last_Some_elem_of. }
  assert (Hpost' : forall lo, lo <= end_ i + 1 -> ordered lo post).
  { intros lo Hlo. destruct post as [|a post]; [done|]. apply Forall_cons in P3 as [P3 _]. destruct Hpost as (? & ? & ?).
    simpl. split_and!; [lia|done..]. }
  assert (Hrp : forall lo, lo <= end_ i -> ordered lo (right_of e i ++ post)).
  { intros lo Hlo. unfold right_of. destruct (Z.ltb_spec (end_ i) (end_ e)); simpl; [|apply Hpost'; lia].
    split_and!; [lia| |done]. unfold valid. simpl. lia. }
  split.
  - apply (intervals_app _ _ _ (Z.min (start f) (start i))); [done| |lia|].
    + eapply Forall_impl; [apply Forall_and; split; [exact P1|exact Hpf]|]. simpl. intros a [? ?]. lia.
    + intros lo Hlo. unfold left_of. destruct (Z.ltb_spec (start f) (start i)); simpl; [|apply Hrp; lia].
      split_and!; [lia| |apply Hrp; lia]. unfold valid. simpl. lia.
  - intros p. rewrite !member_app, left_member, right_member.
    assert (Hmem : member (f :: m) p /\ ~ has i p <-> start f <= p < start i \/ end_ i < p <= end_ e).
    { unfold member. rewrite Exists_exists. unfold has. split.
      - intros [(a & Ha & Hp) Hn]. rewrite Forall_forall in B6. destruct (B6 a Ha) as (? & ? & Ha1 & Ha2).
        destruct (Z.lt_ge_cases p (start i)); [destruct Ha1 as [->|?]|destruct Ha2 as [->|?]]; lia.
      - intros [?|?]; (split; [|lia]); [exists f|exists e]; (split; [|lia]); [apply list_elem_of_here|by apply last_Some_elem_of]. }
    assert (Hout : has i p -> ~ member pre p /\ ~ member post p).
    { rewrite Forall_forall in P1, P3. unfold has. intros Hp.
      split; intros (a & Ha & Hpa)%Exists_exists; [specialize (P1 a Ha)|specialize (P3 a Ha)]; unfold has in Hpa; simpl in *; lia. }
    assert (Hdec : has i p \/ ~ has i p) by (unfold has; lia). tauto.
Qed.

Lemma withdraw_ok s i :
  wf s -> valid i ->
  wf (withdraw s i) /\ (forall p, member (intervals (withdraw s i)) p <-> member (intervals s) p /\ ~ has i p).
Proof.
  intros Hs Hi. destruct (range_parts (-1) (intervals s) i Hs Hi) as (pre & mid & post & Hl & Hr & P1 & P2 & P3).
  unfold wf in *. destruct mid as [|f m].
  { assert (withdraw s i = s) as ->.
    { unfold withdraw. rewrite Hr. by rewrite decide_True by (simpl; lia). }
    split; [done|]. intros p. split; [|tauto]. intros Hp. split; [done|]. rewrite Hl in Hp. simpl in Hp.
    unfold member in Hp. rewrite Exists_app, !Exists_exists in Hp. rewrite Forall_forall in P1, P3. unfold has in *.
    destruct Hp as [(a & Ha & Hp)|(a & Ha & Hp)]; [specialize (P1 a Ha)|specialize (P3 a Ha)]; simpl in *; lia. }
  rewrite Hl in Hs. destruct (last (f :: m)) as [e|] eqn:He; [|by apply last_None in He].
  destruct (parts_apart _ _ _ _ _ Hs He) as (Hpre & Hpf & Hmid & Hpost).
  destruct (ordered_bounds _ _ _ _ Hmid He) as (B1 & B2 & B3 & B4 & B5 & B6).
  assert (Hf : start f <= end_ i + 1 /\ start i <= end_ f + 1) by by apply Forall_cons in P2 as [? _].
  assert (Hw : intervals (withdraw s i) = pre ++ left_of f i ++ right_of e i ++ post).
  { pose proof He as He'. apply last_Some in He' as (m' & Hm'). destruct m' as [|f' m']; simpl in Hm'.
    - injection Hm' as -> ->. by apply withdraw_one.
    - injection Hm' as <- ->. apply (withdraw_many pre f m' e post); [done|done|apply Hf|done|done]. }
  rewrite Hw, Hl. by apply (cut_ok pre f m).
Qed.

(** ** Containment *)

Lemma below_not_member lo l p : ordered lo l -> p <= lo -> ~ member l p.
Proof.
  intros Ho Hp (a & Ha & Hpa)%Exists_exists. apply ordered_Forall in Ho. rewrite Forall_forall in Ho.
  destruct (Ho a Ha). unfold has in Hpa. lia.
Qed.

Lemma contains_ok lo l a b :
  ordered lo l -> a <= b -> contains l a b = true <-> forall p, a <= p <= b -> member l p.
Proof.
  revert lo. induction l as [|i l IH]; intros lo Ho Hab; simpl.
  { split; [done|]. intros H. specialize (H a ltac:(lia)). by apply member_nil in H. }
  destruct Ho as (H1 & H2 & H3). pose proof H2 as [V1 V2]. specialize (IH _ H3 Hab).
  assert (Hlow : forall p, p <= end_ i + 1 -> ~ has i p -> ~ member (i :: l) p).
  { intros p Hp Hn. rewrite member_cons. intros [?|H]; [done|]. by apply (below_not_member (end_ i + 1)) in H. }
  destruct (Z.lt_ge_cases (end_ i) a) as [L|L].
  { destruct (Z.geb_spec a (start i)), (Z.leb_spec b (end_ i)), (Z.ltb_spec a (end_ i)); try lia; simpl. rewrite IH.
    split; intros Hm p Hp; specialize (Hm p Hp); [by apply member_cons; right|].
    apply member_cons in Hm as [Hm|Hm]; [unfold has in Hm; lia|done]. }
  destruct (Z.geb_spec a (start i)) as [G|G], (Z.leb_spec b (end_ i)) as [B|B]; simpl.
  { split; [|done]. intros _ p Hp. apply member_cons. left. unfold has. lia. }
  - assert (Hf : ~ forall p, a <= p <= b -> member (i :: l) p).
    { intros H. apply (Hlow (end_ i + 1)); [lia|unfold has; lia|apply H; lia]. }
    destruct (Z.ltb_spec a (end_ i)); [by split|]. split; [|done]. intros Hc. exfalso.
    apply (below_not_member (end_ i + 1) l a); [done|lia|]. apply IH; [done|lia].
  - destruct (Z.ltb_spec a (end_ i)); [|lia]. split; [done|]. intros Hm. exfalso.
    apply (Hlow a); [lia|unfold has; lia|apply Hm; lia].
  - destruct (Z.ltb_spec a (end_ i)); [|lia]. split; [done|]. intros Hm. exfalso.
    apply (Hlow a); [lia|unfold has; lia|apply Hm; lia].
Qed.

End IntervalSet.

(** ** A set of integers *)

Module IntervalSetResults.
Import IntervalSet.

Inductive Op := Insert (a b : Z) | InsertPoint (p : Z) | Withdraw (a b : Z).

Definition op_ok (o : Op) : Prop :=
  match o with
  | Insert a b | Withdraw a b => 0 <= a <= b /\ b < UINT64_MAX
  | InsertPoint p => 0 <= p < UINT64_MAX
  end.

Definition apply (s : IntervalSet) (o : Op) : option IntervalSet :=
  match o with
  | Insert a b => insert_range s a b
  | InsertPoint p => insert_point s p
  | Withdraw a b => i ← make a b; Some (withdraw s i)
  end.

(** What the set should hold after an operation. *)
Definition spec_step (o : Op) (S : Z -> bool) (p : Z) : bool :=
  match o with
  | Insert a b => S p || (a <=? p) && (p <=? b)
  | InsertPoint q => S p || (p =? q)
  | Withdraw a b => S p && negb ((a <=? p) && (p <=? b))
  end.

Definition grows (o : Op) (S : Z -> bool) : Prop := exists p, spec_step o S p = true /\ S p = false.

Definition denotes (s : IntervalSet) (S : Z -> bool) : Prop :=
  wf s /\ (forall p, member (intervals s) p <-> S p = true) /\
  (forall a b, a <= b -> contains (intervals s) a b = true <-> forall p, a <= p <= b -> S p = true).

Lemma denotes_intro s S : wf s -> (forall p, member (intervals s) p <-> S p = true) -> denotes s S.
Proof.
  intros H1 H2. split_and!; [done..|]. intros a b Hab. rewrite (contains_ok (-1)) by done.
  split; intros H p Hp; apply H2, H, Hp.
Qed.

Lemma make_ok a b : 0 <= a <= b -> b < UINT64_MAX -> make a b = Some (mkInterval a b).
Proof. intros ? ?. unfold make, unitValue. destruct (Z.gtb_spec a b), (Z.gtb_spec b (UINT64_MAX - 1)); (done || lia). Qed.

Lemma apply_insert s S i (f : Z -> bool) :
  denotes s S -> valid i -> (forall p, f p = true <-> has i p) ->
  denotes (insert s i) (fun p => S p || f p) /\
  (insertVersion (insert s i) <> insertVersion s <-> exists p, S p || f p = true /\ S p = false).
Proof.
  intros (H1 & H2 & _) Hi Hf. destruct (interval_insert_ok s i H1 Hi) as [W1 W2]. split.
  - apply denotes_intro; [done|]. intros p. by rewrite W2, H2, orb_true_iff, Hf.
  - rewrite (version_ok s i H1 Hi). split; intros (p & P1 & P2); exists p.
    + rewrite H2 in P2. destruct (S p); [done|]. split; [by apply Hf|done].
    + rewrite P2 in P1. rewrite H2, P2. split; [by apply Hf|done].
Qed.

Lemma version_step s i : insertVersion (insert s i) = insertVersion s \/ insertVersion (insert s i) = u64 (insertVersion s + 1).
Proof. unfold insert. repeat case_match; auto. Qed.

Lemma apply_insert_counts s S i (f : Z -> bool) :
  denotes s S -> valid i -> (forall p, f p = true <-> has i p) ->
  forall add : bool, (add = true <-> exists p, S p || f p = true /\ S p = false) ->
  insertVersion (insert s i) = if add then u64 (insertVersion s + 1) else insertVersion s.
Proof.
  intros Hs Hi Hf add Ha. destruct (apply_insert s S i f Hs Hi Hf) as [_ Hv]. destruct (version_step s i) as [E|E]; rewrite E in Hv |- *; destruct add; try done.
  - exfalso. by apply Hv; [apply Ha|].
  - destruct (Z.eq_dec (u64 (insertVersion s + 1)) (insertVersion s)) as [|Hn]; [done|]. apply Hv in Hn. apply Ha in Hn. done.
Qed.

(** The points that an operation inserts, and whether one of them is new. *)
Definition points (o : Op) : list Z :=
  match o with Insert a b => seqZ a (b - a + 1) | InsertPoint p => [p] | Withdraw _ _ => [] end.
Definition adds (o : Op) (S : Z -> bool) : bool := existsb (fun p => negb (S p)) (points o).

Lemma adds_grows o S : adds o S = true <-> match o with Withdraw _ _ => False | _ => grows o S end.
Proof.
  unfold adds, grows. rewrite existsb_exists. destruct o as [a b|q|a b]; simpl; [| |by split; [intros (? & [] & _)|]].
  - split; intros (p & H1 & H2); exists p.
    + apply list_elem_of_In, elem_of_seqZ in H1. destruct (S p); [done|]. split; [simpl; lia|done].
    + rewrite H2 in H1 |- *. split; [|done]. apply list_elem_of_In, elem_of_seqZ. simpl in H1. lia.
  - split; [intros (p & [->|[]] & H); exists p|intros (p & H1 & H2); exists p; rewrite H2 in *; simpl in H1].
    + destruct (S p); [done|]. split; [simpl; lia|done].
    + split; [left; lia|done].
Qed.

(** ** Sequences of operations *)

Fixpoint apply_all (s : IntervalSet) (os : list Op) : option IntervalSet :=
  match os with [] => Some s | o :: os => s ← apply s o; apply_all s os end.

Definition spec_all (os : list Op) (S : Z -> bool) : Z -> bool := foldl (fun S o => spec_step o S) S os.

(** The insertions that add a point. *)
Fixpoint additions (os : list Op) (S : Z -> bool) : Z :=
  match os with [] => 0 | o :: os => (if adds o S then 1 else 0) + additions os (spec_step o S) end.

Lemma apply_ok s S o :
  denotes s S -> op_ok o ->
  exists s', apply s o = Some s' /\ denotes s' (spec_step o S) /\
    insertVersion s' = if adds o S then u64 (insertVersion s + 1) else insertVersion s.
Proof.
  intros Hs Ho. pose proof (adds_grows o S) as Ha. destruct o as [a b|q|a b]; simpl in Ho |- *.
  - unfold insert_range. destruct Ho as [Ho1 Ho2]. destruct (Z.gtb_spec a b); [lia|]. rewrite make_ok by done. simpl.
    assert (Hf : forall p, (a <=? p) && (p <=? b) = true <-> has (mkInterval a b) p) by (intros p; unfold has; simpl; lia).
    assert (Hv : valid (mkInterval a b)) by (unfold valid; simpl; lia).
    eexists. split; [done|]. split; [by apply (apply_insert s S (mkInterval a b))|exact (apply_insert_counts s S _ _ Hs Hv Hf _ Ha)].
  - unfold insert_point. rewrite make_ok by lia. simpl.
    assert (Hf : forall p, (p =? q) = true <-> has (mkInterval q q) p) by (intros p; unfold has; simpl; lia).
    assert (Hv : valid (mkInterval q q)) by (unfold valid; simpl; lia).
    eexists. split; [done|]. split; [by apply (apply_insert s S (mkInterval q q))|exact (apply_insert_counts s S _ _ Hs Hv Hf _ Ha)].
  - destruct Ho as [Ho1 Ho2]. rewrite make_ok by done. simpl. eexists. split; [done|]. destruct Hs as (H1 & H2 & _).
    destruct (withdraw_ok s (mkInterval a b) H1) as [W1 W2]; [done|]. split.
    + apply denotes_intro; [done|]. intros p. rewrite W2, H2. unfold spec_step, has. rewrite andb_true_iff, negb_true_iff. simpl. destruct (Z.leb_spec a p), (Z.leb_spec p b); simpl; (split; intros [? ?]; split; done || lia).
    + unfold withdraw. by repeat case_match.
Qed.

Lemma apply_all_ok os : forall s S, denotes s S -> is_u64 (insertVersion s) -> Forall op_ok os ->
  exists s', apply_all s os = Some s' /\ denotes s' (spec_all os S) /\ insertVersion s' = u64 (insertVersion s + additions os S).
Proof.
  induction os as [|o os IH]; intros s S Hs Hv Hos.
  { exists s. split_and!; [done|done|]. simpl. by rewrite Z.add_0_r, u64_id. }
  inversion Hos as [|? ? Ho Hos']; subst. destruct (apply_ok s S o Hs Ho) as (s1 & E1 & D1 & V1).
  assert (Hv1 : is_u64 (insertVersion s1)) by (rewrite V1; destruct (adds o S); [apply u64_range|done]).
  destruct (IH s1 _ D1 Hv1 Hos') as (s' & E & D & V). exists s'. simpl. rewrite E1. split_and!; [done|done|].
  rewrite V, V1. destruct (adds o S); [|f_equal; lia]. unfold u64. rewrite Zplus_mod_idemp_l. f_equal. lia.
Qed.

(** C34. An interval set is a set of integers: any sequence of insertions and withdrawals of
    intervals that the constructor accepts (start at most end, and end less than the largest
    number, otherwise it throws) gives, from the empty set, the set that the same unions and
    differences give, sorted, without overlap and without neighbours that touch; [contains]
    answers for whole ranges; and the version is the number of insertions that added a
    point, modulo 2^64. *)
Theorem interval_set_refines os :
  Forall op_ok os ->
  exists s, apply_all empty os = Some s /\ denotes s (spec_all os (fun _ => false)) /\
    insertVersion s = u64 (additions os (fun _ => false)).
Proof.
  intros Hos. apply (apply_all_ok os empty (fun _ => false)); [|by split; vm_compute|done].
  apply denotes_intro; [done|]. intros p. split; [by intros ?%member_nil|done].
Qed.

(** Three intervals, an insertion that joins two of them, one that adds nothing, a hole. *)
Definition exampleOps : list Op := [Insert 0 4; InsertPoint 8; Insert 20 30; Insert 5 10; Insert 2 9; Withdraw 22 24].

Lemma interval_set_refines_witness :
  exists s, apply_all empty exampleOps = Some s /\ denotes s (spec_all exampleOps (fun _ => false)) /\
    intervals s = [mkInterval 0 10; mkInterval 20 21; mkInterval 25 30] /\ contains (intervals s) 0 10 = true /\ insertVersion s = 4.
Proof.
  destruct (interval_set_refines exampleOps) as (s & H1 & H2 & H3); [repeat (apply Forall_cons; split); [by vm_compute..|by apply Forall_nil]|].
  exists s. split; [done|]. split; [done|]. rewrite H3. vm_compute in H1. injection H1 as <-. by vm_compute.
Defined.

End IntervalSetResults.
