(* ===== verification/QuicStream.v ===== *)
(** * The receiving side of a QUIC stream

    [quic/state/QuicStreamFunctions.cpp] of mvfst: the buffer that puts the segments of a
    stream in order and the reads from it.

    A [BufQueue] is its list of bytes.  Iterators of [readBuffer] are positions; the
    pointer [current] of the insertion is the new segment or a position ([Current]).
    An exception is the left side of a sum; the connection is closed by it, so what it
    leaves behind is not modelled.  [None] is a failed [CHECK] or an access past the end. *)

From stdpp Require Import list.
From S2P Require Import Prelude.

Module QuicStream.

Inductive Exception :=
| FINAL_SIZE_ERROR | FLOW_CONTROL_ERROR   (* [QuicTransportException] *)
| STREAM_STATE_ERROR
| INTERNAL_ERROR_.                        (* [QuicInternalException] *)

#[global] Instance Exception_eq_dec : EqDecision Exception.
Proof. solve_decision. Defined.

(** ** Data *)

Record StreamBuffer := mkBuffer { data : list Z; offset : Z; eof : bool }.

(** [QuicStreamLike], the members of the receiving side. *)
Record StreamLike := mkLike {
  readBuffer : list StreamBuffer;
  currentReadOffset : Z;
  maxOffsetObserved : Z;
  finalReadOffset : option Z
}.

Definition set_buffer (s : StreamLike) b := mkLike b (currentReadOffset s) (maxOffsetObserved s) (finalReadOffset s).
Definition set_read (s : StreamLike) n := mkLike (readBuffer s) n (maxOffsetObserved s) (finalReadOffset s).
Definition set_max (s : StreamLike) n := mkLike (readBuffer s) (currentReadOffset s) n (finalReadOffset s).
Definition set_final (s : StreamLike) n := mkLike (readBuffer s) (currentReadOffset s) (maxOffsetObserved s) n.

Definition emptyLike : StreamLike := mkLike [] 0 0 None.

Definition endOf (b : StreamBuffer) : Z := u64 (offset b + zlen (data b)).

(** [BufQueue::trimStartAtMost]. *)
Definition trimStartAtMost (b : StreamBuffer) (n : Z) : StreamBuffer :=
  mkBuffer (drop (Z.to_nat n) (data b)) (offset b) (eof b).
Definition append_data (b : StreamBuffer) (d : list Z) : StreamBuffer := mkBuffer (data b ++ d) (offset b) (eof b).
Definition move_data (b : StreamBuffer) : StreamBuffer := mkBuffer [] (offset b) (eof b).

(** ** Inserting a segment *)

(** [current] points to the new segment or to an element of the deque. *)
Inductive Current := Own | At (k : nat).

Record Insertion := mkInsertion {
  buffers : list StreamBuffer;
  own : StreamBuffer;
  current : Current;
  startOverlap : option nat;
  endOverlap : option nat
}.

Definition cur (i : Insertion) : option StreamBuffer :=
  match current i with Own => Some (own i) | At k => buffers i !! k end.

Definition set_cur (i : Insertion) (b : StreamBuffer) : Insertion :=
  match current i with
  | Own => mkInsertion (buffers i) b Own (startOverlap i) (endOverlap i)
  | At k => mkInsertion (<[k := b]> (buffers i)) (own i) (At k) (startOverlap i) (endOverlap i)
  end.
Definition set_at (i : Insertion) (k : nat) (b : StreamBuffer) : Insertion :=
  mkInsertion (<[k := b]> (buffers i)) (own i) (current i) (startOverlap i) (endOverlap i).
Definition set_overlap (i : Insertion) (s e : option nat) : Insertion :=
  mkInsertion (buffers i) (own i) (current i) s e.

(** [std::lower_bound]: the first element whose end is not before [off]. *)
Fixpoint lower_bound (l : list StreamBuffer) (off : Z) : nat :=
  match l with
  | [] => O
  | b :: l => if endOf b <? off then S (lower_bound l off) else O
  end.

(** One round of the loop, at the element [b] in position [it]; [true] for [done]. *)
Definition insertion_step (i : Insertion) (it : nat) (c b : StreamBuffer) : Insertion * bool :=
  let currentEnd := endOf c in
  let itEnd := endOf b in
  let start := match startOverlap i with Some k => Some k | None => Some it end in
  if (offset c =? offset b) && (currentEnd =? itEnd) then (i, true)
  else if (offset c >=? offset b) && (currentEnd <=? itEnd) then (i, true)
  else if (offset c <=? offset b) && (currentEnd >=? offset b) && (currentEnd <=? itEnd) then
    let b := trimStartAtMost b (u64 (currentEnd - offset b)) in
    let i := if zlen (data b) >? 0
             then set_cur (set_at i it (move_data b)) (append_data c (data b))
             else set_at i it b in
    (set_overlap i start (Some (S it)), true)
  else if (offset c <? offset b) && (currentEnd <? offset b) then
    (match startOverlap i with None => set_overlap i (Some it) (Some it) | Some _ => i end, true)
  else if (offset c <=? offset b) && (currentEnd >? offset b) then
    (set_overlap i start (Some (S it)), false)
  else if (offset c >=? offset b) && (offset c <=? itEnd) && (currentEnd >? itEnd) then
    let c := trimStartAtMost c (u64 (itEnd - offset c)) in
    let i := set_at (set_cur i (move_data c)) it (append_data b (data c)) in
    (mkInsertion (buffers i) (own i) (At it) (Some (S it)) (Some (S it)), false)
  else (i, false).

(** [for (; it != readBuffer.end() && !done; ++it)]. *)
Fixpoint insertion_loop (fuel : nat) (i : Insertion) (it : nat) : option Insertion :=
  match fuel with
  | O => Some i
  | S fuel =>
      match buffers i !! it, cur i with
      | Some b, Some c =>
          let '(i, done) := insertion_step i it c b in
          if done then Some i else insertion_loop fuel i (S it)
      | None, _ => Some i
      | _, None => None
      end
  end.

(** [erase(first, last)]. *)
Definition erase (l : list StreamBuffer) (s e : nat) : list StreamBuffer := take s l ++ drop e l.

(** What is done after the loop. *)
Definition finish (i : Insertion) : option (list StreamBuffer) :=
  match startOverlap i, endOverlap i, current i with
  | Some s, Some e, Own => Some (take s (buffers i) ++ own i :: drop e (buffers i))
  | Some s, Some e, At _ => Some (erase (buffers i) s e)
  | None, _, Own =>
      b ← last (buffers i);
      if offset (own i) >? endOf b then Some (buffers i ++ [own i]) else Some (buffers i)
  | _, _, _ => None
  end.

Definition insertBuffer (readBuffer : list StreamBuffer) (buffer : StreamBuffer) : option (list StreamBuffer) :=
  match readBuffer with
  | [] => Some [buffer]
  | _ =>
      i ← insertion_loop (length readBuffer) (mkInsertion readBuffer buffer Own None None)
            (lower_bound readBuffer (offset buffer));
      finish i
  end.

(** What is known of the end of the stream. *)
Definition checkFinalSize (stream : StreamLike) (buffer : StreamBuffer) : Exception + StreamLike :=
  let bufferEndOffset := endOf buffer in
  let bufferEofOffset := if eof buffer then Some bufferEndOffset else None in
  match finalReadOffset stream, bufferEofOffset with
  | Some fin, Some off =>
      if negb (fin =? off) then inl FINAL_SIZE_ERROR
      else if maxOffsetObserved stream >? off then inl FINAL_SIZE_ERROR
      else inr (set_final stream (Some off))
  | None, Some off =>
      if maxOffsetObserved stream >? off then inl FINAL_SIZE_ERROR
      else inr (set_final stream (Some off))
  | Some fin, None => if bufferEndOffset >? fin then inl FINAL_SIZE_ERROR else inr stream
  | None, None => inr stream
  end.

(** What has been read is cut off, and the rest goes to the deque. *)
Definition storeBuffer (stream : StreamLike) (buffer : StreamBuffer) : option StreamLike :=
  if zlen (data buffer) =? 0 then Some stream
  else
    let buffer :=
      if offset buffer <? currentReadOffset stream
      then let b := trimStartAtMost buffer (currentReadOffset stream - offset buffer) in
           mkBuffer (data b) (currentReadOffset stream) (eof b)
      else buffer in
    if zlen (data buffer) =? 0 then Some stream
    else
      l ← insertBuffer (readBuffer stream) buffer;
      Some (set_buffer stream l).

(** [connFlowControlVisitor] is given the largest offset so far and the end of the
    segment; [F] is what it updates. *)
Definition appendDataToReadBufferCommon {F : Type} (visitor : Z -> Z -> F -> Exception + F)
    (stream : StreamLike) (f : F) (buffer : StreamBuffer) : option (Exception + StreamLike * F) :=
  let bufferEndOffset := endOf buffer in
  if negb (eof buffer) && (zlen (data buffer) =? 0) then Some (inr (stream, f))
  else
    match checkFinalSize stream buffer with
    | inl err => Some (inl err)
    | inr stream =>
        match visitor (maxOffsetObserved stream) bufferEndOffset f with
        | inl err => Some (inl err)
        | inr f =>
            stream ← storeBuffer (set_max stream (Z.max (maxOffsetObserved stream) bufferEndOffset)) buffer;
            Some (inr (stream, f))
        end
    end.

(** Crypto streams have no flow control. *)
Definition appendDataToReadBuffer_crypto (stream : StreamLike) (buffer : StreamBuffer) : option (Exception + StreamLike) :=
  r ← appendDataToReadBufferCommon (fun _ _ f => inr f) stream tt buffer;
  Some (match r with inl err => inl err | inr (stream, _) => inr stream end).

(** ** Reading *)

(** The data and whether the last buffer that was emptied had the EOF mark; [None] is a
    failed [CHECK]. *)
Fixpoint read_loop (fuel : nat) (stream : StreamLike) (amount remaining : Z) (sinkData : bool)
    (out : list Z) (eof_ : bool) : option (list Z * bool * StreamLike) :=
  if (amount =? 0) || negb (remaining =? 0) then
    match readBuffer stream with
    | [] => Some (out, eof_, stream)
    | b :: l =>
        if offset b >? currentReadOffset stream then Some (out, eof_, stream)
        else
          match fuel with
          | O => None
          | S fuel =>
              if negb (offset b =? currentReadOffset stream) then None
              else
                let currSize := zlen (data b) in
                let toRead := Z.min currSize (if amount =? 0 then currSize else remaining) in
                let splice := take (Z.to_nat toRead) (data b) in
                let b := mkBuffer (drop (Z.to_nat toRead) (data b)) (u64 (offset b + toRead)) (eof b) in
                let out := if sinkData then out else out ++ splice in
                let remaining := if amount =? 0 then remaining else remaining - toRead in
                let next := u64 (currentReadOffset stream + toRead) in
                if zlen (data b) =? 0
                then read_loop fuel (set_read (set_buffer stream l) next) amount remaining sinkData out (eof b)
                else read_loop fuel (set_read (set_buffer stream (b :: l)) next) amount remaining sinkData out eof_
          end
    end
  else Some (out, eof_, stream).

Definition readDataInOrderFromReadBuffer (stream : StreamLike) (amount : Z) (sinkData : bool)
  : option (list Z * bool * StreamLike) :=
  read_loop (S (length (readBuffer stream))) stream amount amount sinkData [] false.

Definition readDataFromCryptoStream (stream : StreamLike) (amount : Z) : option (list Z * StreamLike) :=
  '(data, _, stream) ← readDataInOrderFromReadBuffer stream amount false; Some (data, stream).

End QuicStream.
