(* ===== verification/QuicReassembly.v ===== *)
(** * Putting the segments of a stream in order

    The deque of [QuicStream] holds stretches of the peer's stream that are in order and
    apart by at least one byte ([apart]).  Inserting a segment — whatever it overlaps —
    and reading keep that, and the deque holds exactly the bytes that have come and have
    not been read.  The loop of the insertion works on iterators and a pointer into the
    deque; [absorb] says what it does once the new segment has been placed. *)

From stdpp Require Import list sorting.
From S2P Require Import Prelude QuicStream.

Module QuicReassembly.
Import QuicStream.

(** ** Segments of a stream *)

(** What the buffers of a stream are known to hold at an offset, closed under cutting and
    joining. *)
Class Content := {
  holds : Z -> list Z -> Prop;
  holds_drop o d k : 0 <= o -> 0 <= k -> holds o d -> holds (o + k) (drop (Z.to_nat k) d);
  holds_take o d k : holds o d -> holds o (take k d);
  holds_app o d e : 0 <= o -> holds o d -> holds (o + zlen d) e -> holds o (d ++ e)
}.

(** The position one past the last byte. *)
Definition stop (b : StreamBuffer) : Z := offset b + zlen (data b).

Definition covers (b : StreamBuffer) (p : Z) : Prop := offset b <= p < stop b.
Definition covered (l : list StreamBuffer) (p : Z) : Prop := Exists (fun b => covers b p) l.

(** In order, and no two of them touch. *)
Fixpoint apart (lo : Z) (l : list StreamBuffer) : Prop :=
  match l with [] => True | b :: l => lo < offset b /\ 0 < zlen (data b) /\ apart (stop b) l end.

(** The bytes of a stream [X] that the peer sends: all copies of a byte agree. *)
Lemma prefix_drop {A} (d l : list A) k : d `prefix_of` l -> drop k d `prefix_of` drop k l.
Proof. intros [m ->]. rewrite drop_app. by eexists. Qed.

Lemma prefix_join {A} (d e l : list A) : d `prefix_of` l -> e `prefix_of` drop (length d) l -> d ++ e `prefix_of` l.
Proof. intros [m ->] He. rewrite drop_app_length in He. by apply prefix_app. Qed.

#[refine] Definition of_stream (X : list Z) : Content :=
  {| holds o d := d `prefix_of` drop (Z.to_nat o) X |}.
Proof.
  - intros o d k Ho Hk H. apply prefix_drop with (k := Z.to_nat k) in H. rewrite drop_drop in H.
    by rewrite Z2Nat.inj_add.
  - intros o d k H. etransitivity; [apply prefix_take|done].
  - intros o d e Ho H1 H2. apply prefix_join; [done|]. rewrite drop_drop. unfold zlen in H2.
    rewrite Z2Nat.inj_add, Nat2Z.id in H2 by lia. done.
Defined.

(** A peer that sends anything. *)
Definition anything : Content :=
  {| holds _ _ := True; holds_drop _ _ _ _ _ _ := I; holds_take _ _ _ _ := I; holds_app _ _ _ _ _ _ := I |}.

Section Stream.
Context {C : Content} (M : Z) (HM : M < 2 ^ 64).

(** A buffer that is not empty, ends at [M] or before and holds what it should. *)
Definition segment (b : StreamBuffer) : Prop :=
  0 <= offset b /\ 0 < zlen (data b) /\ stop b <= M /\ holds (offset b) (data b).

Lemma segment_stop b : segment b -> 0 <= offset b < stop b /\ stop b <= M.
Proof using. intros (H0 & H1 & H2 & _). unfold stop in *. lia. Qed.

Lemma endOf_stop b : segment b -> endOf b = stop b.
Proof using HM. intros Hb. apply segment_stop in Hb. apply u64_id. unfold stop in *. ilia. Qed.

(** Cutting the front of a segment, and joining two that touch. *)
Lemma segment_trim b n e :
  segment b -> offset b <= n < stop b -> segment (mkBuffer (drop (Z.to_nat (n - offset b)) (data b)) n e).
Proof using.
  intros (H0 & H1 & H2 & H3) Hn. unfold segment, stop, zlen in *. simpl. rewrite length_drop.
  split_and!; [lia..|]. replace n with (offset b + (n - offset b)) at 1 by lia. apply holds_drop; (lia || done).
Qed.

Lemma segment_join b c e :
  segment b -> segment c -> offset b <= offset c <= stop b -> stop b < stop c ->
  segment (mkBuffer (data b ++ drop (Z.to_nat (stop b - offset c)) (data c)) (offset b) e).
Proof using.
  intros Hb Hc H1 H2. pose proof (segment_trim c (stop b) e Hc ltac:(lia)) as (H3 & H4 & H5 & H6).
  destruct Hb as (H7 & H8 & H9 & H10). unfold segment, stop in *. simpl in *. rewrite zlen_app. split_and!; [lia..|].
  by apply holds_app.
Qed.

Lemma stop_join b c e :
  offset c <= stop b <= stop c ->
  stop (mkBuffer (data b ++ drop (Z.to_nat (stop b - offset c)) (data c)) (offset b) e) = stop c.
Proof. unfold stop, zlen. simpl. rewrite length_app, length_drop. lia. Qed.

Lemma apart_weaken lo lo' l : lo' <= lo -> apart lo l -> apart lo' l.
Proof. destruct l; simpl; [done|]. intros ? (?&?&?). split_and!; [lia|done..]. Qed.

Lemma apart_above lo l : apart lo l -> Forall (fun b => lo < offset b) l.
Proof.
  revert lo. induction l as [|b l IH]; intros lo; [constructor|]. simpl. intros (H1 & H2 & H3).
  constructor; [done|]. apply IH. eapply apart_weaken; [|done]. unfold stop. lia.
Qed.

Lemma apart_app lo l m hi :
  apart lo l -> Forall (fun b => stop b < hi) l -> lo < hi -> (forall lo', lo' < hi -> apart lo' m) -> apart lo (l ++ m).
Proof.
  revert lo. induction l as [|b l IH]; intros lo; simpl; [intros _ _ H1 H2; by apply H2|].
  intros (H1 & H2 & H3) [H4 H5]%Forall_cons H6 H7. split_and!; [done..|]. by apply IH.
Qed.

Lemma apart_drop lo l m : apart lo (l ++ m) -> apart lo l /\ apart lo m.
Proof.
  revert lo. induction l as [|b l IH]; intros lo; simpl; [done|]. intros (H1 & H2 & [H3 H4]%IH).
  split; [done|]. eapply apart_weaken; [|done]. unfold stop. lia.
Qed.

Lemma covered_cons b l p : covered (b :: l) p <-> covers b p \/ covered l p.
Proof. apply Exists_cons. Qed.
Lemma covered_app l m p : covered (l ++ m) p <-> covered l p \/ covered m p.
Proof. apply Exists_app. Qed.
Lemma covered_nil p : ~ covered [] p.
Proof. intros H. by apply Exists_nil in H. Qed.

(** ** What the loop makes of the segments behind the new one *)

Fixpoint absorb (c : StreamBuffer) (rest : list StreamBuffer) : list StreamBuffer :=
  match rest with
  | [] => [c]
  | b :: rest =>
      if endOf c <? offset b then c :: b :: rest
      else if endOf c <=? endOf b then
        mkBuffer (data c ++ drop (Z.to_nat (endOf c - offset b)) (data b)) (offset c) (eof c) :: rest
      else absorb c rest
  end.


Lemma absorb_ok c rest :
  segment c -> Forall segment rest -> apart (offset c) rest ->
  Forall segment (absorb c rest) /\ (forall lo, lo < offset c -> apart lo (absorb c rest)) /\
  (forall p, covered (absorb c rest) p <-> covers c p \/ covered rest p).
Proof.
  intros Hc. induction rest as [|b rest IH]; simpl; intros Hr Ha.
  { split_and!; [by apply Forall_singleton| |].
    - intros lo Hlo. simpl. split_and!; [done|apply Hc|done].
    - intros p. rewrite covered_cons. done. }
  apply Forall_cons in Hr as [Hb Hr]. destruct Ha as (A1 & A2 & A3).
  rewrite !endOf_stop by done. destruct (Z.ltb_spec (stop c) (offset b)) as [L|L].
  { split_and!; [by rewrite !Forall_cons| |intros p; by rewrite covered_cons].
    intros lo Hlo. simpl. split_and!; [done|apply Hc|done|apply Hb|done]. }
  destruct (Z.leb_spec (stop c) (stop b)) as [L2|L2].
  - assert (Hj : segment (mkBuffer (data c ++ drop (Z.to_nat (stop c - offset b)) (data b)) (offset c) (eof c))).
    { destruct (decide (stop c = stop b)) as [E|E].
      - replace (drop _ _) with (@nil Z); [by rewrite app_nil_r; destruct c|].
        symmetry. apply drop_ge. unfold stop, zlen in *. lia.
      - apply segment_join; [done..|lia|lia]. }
    split_and!; [by apply Forall_cons| |].
    + intros lo Hlo. cbn [apart]. split_and!; [done|apply Hj|]. by rewrite stop_join by lia.
    + intros p. rewrite !covered_cons. unfold covers at 1. rewrite stop_join by lia. simpl.
      unfold covers. split; [|intros [?|[?|?]]; [left; lia|left; lia|by right]].
      intros [?|?]; [|by right; right]. destruct (Z.lt_ge_cases p (stop c)); [left; lia|right; left; lia].
  - destruct IH as (I1 & I2 & I3); [done|eapply apart_weaken; [|done]; unfold stop in *; lia|].
    split_and!; [done..|]. intros p. rewrite I3, covered_cons. unfold covers. split; [tauto|].
    intros [?|[?|?]]; [by left| |by right]. left. lia.
Qed.

(** ** The loop over positions *)

(** The new segment [c] has its place in front of position [e]: it is still apart from the
    deque and will go to position [s], or it is the element at [s]. *)
Definition placed (s e : nat) (c : StreamBuffer) (i : Insertion) : Prop :=
  (s <= e <= length (buffers i))%nat /\ endOverlap i = Some e /\ cur i = Some c /\
  match current i with
  | Own => startOverlap i = Some s
  | At k => k = s /\ startOverlap i = Some (S s) /\ (s < e)%nat
  end.

Lemma placed_finish s e c i :
  placed s e c i -> finish i = Some (take s (buffers i) ++ c :: drop e (buffers i)).
Proof.
  intros (H1 & H2 & H3 & H4). unfold finish, cur in *. rewrite H2.
  destruct (current i) as [|k].
  - rewrite H4. by simplify_eq.
  - destruct H4 as (-> & -> & H4). f_equal. unfold erase. by rewrite (take_S_r _ _ _ H3), <- app_assoc.
Qed.

Lemma placed_left s e c i c' b' :
  placed s e c i -> (e < length (buffers i))%nat ->
  placed s (S e) c' (set_overlap (set_cur (set_at i e b') c') (startOverlap i) (Some (S e))) /\
  take s (buffers (set_cur (set_at i e b') c')) = take s (buffers i) /\
  drop (S e) (buffers (set_cur (set_at i e b') c')) = drop (S e) (buffers i).
Proof.
  intros (H1 & H2 & H3 & H4) He. unfold placed, set_overlap, set_cur, set_at, cur in *.
  destruct i as [l o cu so eo]; simpl in *. destruct cu as [|k]; simpl in *.
  - rewrite length_insert, take_insert_ge, drop_insert_lt by lia. split_and!; (lia || done).
  - destruct H4 as (-> & H4 & H5).
    rewrite !length_insert, !take_insert_ge, !drop_insert_lt by lia.
    rewrite list_lookup_insert_eq by (rewrite length_insert; lia). split_and!; (lia || done).
Qed.

Lemma set_cur_same i c : cur i = Some c -> set_cur i c = i.
Proof.
  unfold cur, set_cur. destruct i as [l o [|k] so eo]; simpl; intros H; [by simplify_eq|].
  by rewrite list_insert_id.
Qed.

Lemma cur_set_at s e c i b : placed s e c i -> cur (set_at i e b) = Some c.
Proof.
  intros (_ & _ & H3 & H4). unfold cur, set_at in *. simpl. destruct (current i) as [|k]; [done|].
  rewrite list_lookup_insert_ne; [done|]. lia.
Qed.

(** What is left of an element that is joined is appended, also when nothing is left. *)
Lemma joined s e c i d o f :
  placed s e c i ->
  (if zlen d >? 0 then set_cur (set_at i e (mkBuffer [] o f)) (mkBuffer (data c ++ d) (offset c) (eof c))
   else set_at i e (mkBuffer d o f)) =
  set_cur (set_at i e (mkBuffer [] o f)) (mkBuffer (data c ++ d) (offset c) (eof c)).
Proof.
  intros Hp. destruct d as [|x d]; [|done]. cbn [app]. rewrite app_nil_r. symmetry.
  apply set_cur_same. destruct c. by eapply cur_set_at.
Qed.

Lemma placed_next s e c i :
  placed s e c i -> (e < length (buffers i))%nat -> placed s (S e) c (set_overlap i (startOverlap i) (Some (S e))).
Proof.
  unfold placed, cur. simpl. intros (H1 & H2 & H3 & H4) He. split_and!; [lia..|done|done|].
  destruct (current i); [done|]. destruct H4 as (? & ? & ?). split_and!; [done..|lia].
Qed.

(** One round on an element behind the new segment. *)
Lemma placed_step s e c b i :
  placed s e c i -> segment c -> segment b -> buffers i !! e = Some b -> offset c < offset b ->
  let '(i', stopped) := insertion_step i e c b in
  if endOf c <? offset b then
    stopped = true /\ i' = i
  else if endOf c <=? endOf b then
    stopped = true /\ take s (buffers i') = take s (buffers i) /\ drop (S e) (buffers i') = drop (S e) (buffers i) /\
    placed s (S e) (mkBuffer (data c ++ drop (Z.to_nat (endOf c - offset b)) (data b)) (offset c) (eof c)) i'
  else stopped = false /\ buffers i' = buffers i /\ placed s (S e) c i'.
Proof.
  intros Hp Hc Hb Hl Ho. pose proof (segment_stop _ Hc). pose proof (segment_stop _ Hb).
  pose proof (lookup_lt_Some _ _ _ Hl) as Hlt.
  assert (Hst : exists k, startOverlap i = Some k) by (destruct Hp as (_&_&_&Hp); destruct (current i); [eauto|destruct Hp as (_&?&_); eauto]).
  destruct Hst as [k Hst]. unfold insertion_step. rewrite !endOf_stop, Hst by done.
  unfold trimStartAtMost, append_data, move_data; cbn [data offset eof].
  pose proof (fun b' c' => placed_left s e c i c' b' Hp Hlt) as Hleft.
  pose proof (placed_next s e c i Hp Hlt) as Hnext. rewrite Hst in Hleft, Hnext.
  destruct (Z.ltb_spec (stop c) (offset b)); [|rewrite u64_id, (joined s e c) by (done || unfold stop in *; ilia)];
    (destruct (Z.leb_spec (stop c) (stop b)); [|try (exfalso; lia)]); zcases; try done.
  all: destruct (Hleft (mkBuffer [] (offset b) (eof b)) (mkBuffer (data c ++ drop (Z.to_nat (stop c - offset b)) (data b)) (offset c) (eof c)))
    as (? & ? & ?); done.
Qed.

Lemma absorb_loop rest : forall s e c i fuel,
  placed s e c i -> segment c -> Forall segment rest -> apart (offset c) rest ->
  drop e (buffers i) = rest -> (length rest <= fuel)%nat ->
  exists i', insertion_loop fuel i e = Some i' /\ finish i' = Some (take s (buffers i) ++ absorb c rest).
Proof.
  induction rest as [|b rest IH]; intros s e c i fuel Hp Hc Hr Ha Hd Hf.
  { exists i. rewrite (placed_finish _ _ _ _ Hp), Hd. split; [|done]. destruct fuel; [done|]. simpl.
    by rewrite <- (Nat.add_0_r e), <- lookup_drop, Hd. }
  destruct fuel as [|fuel]; simpl in Hf; [lia|].
  pose proof Hd as Hl. apply (f_equal (.!! 0%nat)) in Hl. rewrite lookup_drop, Nat.add_0_r in Hl. simpl in Hl.
  apply Forall_cons in Hr as [Hb Hr]. destruct Ha as (A1 & A2 & A3).
  assert (Hd' : drop (S e) (buffers i) = rest) by (by rewrite <- Nat.add_1_r, <- drop_drop, Hd).
  pose proof (placed_step s e c b i Hp Hc Hb Hl A1) as Hs.
  simpl. rewrite Hl. pose proof Hp as (_ & _ & -> & _). destruct (insertion_step i e c b) as [i' stopped].
  destruct (endOf c <? offset b); [|destruct (endOf c <=? endOf b)].
  - destruct Hs as [-> ->]. exists i. by rewrite (placed_finish _ _ _ _ Hp), Hd.
  - destruct Hs as (-> & H1 & H2 & H3). exists i'. rewrite (placed_finish _ _ _ _ H3), H1, H2. by rewrite Hd'.
  - destruct Hs as (-> & H1 & H2).
    destruct (IH s (S e) c i' fuel) as (i'' & -> & Hi); [done..| |by rewrite H1|lia|].
    { eapply apart_weaken; [|done]. unfold stop. lia. }
    exists i''. by rewrite Hi, H1.
Qed.

(** ** The first round *)

Lemma lower_bound_split l off :
  Forall segment l ->
  Forall (fun b => stop b < off) (take (lower_bound l off) l) /\
  match drop (lower_bound l off) l with [] => True | b :: _ => off <= stop b end.
Proof.
  induction l as [|b l IH]; simpl; [done|]. intros [Hb Hl]%Forall_cons. rewrite endOf_stop by done.
  destruct (Z.ltb_spec (stop b) off); simpl; [|done]. destruct (IH Hl). by rewrite Forall_cons.
Qed.

Lemma lower_bound_le l off : (lower_bound l off <= length l)%nat.
Proof. induction l as [|b l IH]; simpl; [done|]. destruct (endOf b <? off); lia. Qed.

(** A segment that begins before the element is placed there. *)
Lemma begin_left l c b e fuel :
  segment c -> segment b -> offset c < offset b -> l !! e = Some b ->
  insertion_loop fuel (mkInsertion l c Own None None) e =
  insertion_loop fuel (mkInsertion l c Own (Some e) (Some e)) e \/ fuel = O.
Proof.
  intros Hc Hb Ho Hl. destruct fuel as [|fuel]; [by right|left]. simpl. rewrite Hl. unfold cur. simpl.
  pose proof (segment_stop _ Hc). pose proof (segment_stop _ Hb).
  unfold insertion_step. rewrite !endOf_stop by done. unfold set_cur, set_at, set_overlap. simpl.
  zcases; try done; by destruct (_ >? _).
Qed.

Definition right_join (b c : StreamBuffer) : StreamBuffer :=
  mkBuffer (data b ++ drop (Z.to_nat (stop b - offset c)) (data c)) (offset b) (eof b).

(** A segment that begins in the element, or where it begins. *)
Lemma begin_inside l c b e fuel :
  segment c -> segment b -> offset b <= offset c <= stop b -> l !! e = Some b ->
  exists i, insertion_loop (S fuel) (mkInsertion l c Own None None) e =
    (if stop c <=? stop b then Some (mkInsertion l c Own None None) else insertion_loop fuel i (S e)) /\
  (stop b < stop c ->
   exists c', placed e (S e) c' i /\ segment c' /\ offset c' = offset b /\ stop c' = stop c /\
     take e (buffers i) = take e l /\ drop (S e) (buffers i) = drop (S e) l).
Proof.
  intros Hc Hb Ho Hl. simpl. rewrite Hl. unfold cur. simpl.
  pose proof (segment_stop _ Hc). pose proof (segment_stop _ Hb).
  pose proof (lookup_lt_Some _ _ _ Hl) as Hlt.
  exists (fst (insertion_step (mkInsertion l c Own None None) e c b)).
  unfold insertion_step. rewrite !endOf_stop by done. cbn [startOverlap]. unfold set_overlap. cbn [buffers own current].
  rewrite (u64_id (stop b - offset c)) by (unfold stop in *; ilia).
  zcases; (split; [done|]); try lia; intros _; cbn [fst].
  1, 2: exists c; unfold placed, cur; simpl; split_and!; (done || lia).
  exists (right_join b c). unfold set_cur, set_at, trimStartAtMost, append_data, placed, cur. simpl.
  rewrite length_insert, list_lookup_insert_eq, take_insert_ge, drop_insert_lt by lia.
  split_and!; try (done || lia); [apply segment_join; (done || lia)|apply stop_join; lia].
Qed.

(** ** Inserting *)

(** The segments in front of the new one stay; behind them is what [absorb] makes. *)
Lemma absorb_behind lo pre c rest :
  Forall segment pre -> apart lo pre -> Forall (fun b => stop b < offset c) pre -> lo < offset c ->
  segment c -> Forall segment rest -> apart (offset c) rest ->
  Forall segment (pre ++ absorb c rest) /\ apart lo (pre ++ absorb c rest) /\
  (forall p, covered (pre ++ absorb c rest) p <-> covered pre p \/ covers c p \/ covered rest p).
Proof.
  intros H1 H2 H3 H4 H5 H6 H7. destruct (absorb_ok c rest H5 H6 H7) as (A1 & A2 & A3). split_and!.
  - by apply Forall_app.
  - by eapply apart_app.
  - intros p. by rewrite covered_app, A3.
Qed.

Lemma apart_before lo pre b rest :
  apart lo (pre ++ b :: rest) -> Forall (fun x => stop x < offset b) pre /\ lo < offset b /\ apart (stop b) rest.
Proof.
  revert lo. induction pre as [|x pre IH]; intros lo; simpl; [intros (? & ? & ?); done|].
  intros (H1 & H2 & (H3 & H4 & H5)%IH). rewrite Forall_cons. split_and!; try done. unfold stop in *. lia.
Qed.

(** The last element of the deque ends behind any other. *)
Lemma last_stop lo l b :
  Forall segment l -> apart lo l -> b ∈ l -> exists x, last l = Some x /\ segment x /\ stop b <= stop x.
Proof.
  revert lo b. induction l as [|y l IH]; intros lo b Hl Ha Hb; [by apply elem_of_nil in Hb|].
  apply Forall_cons in Hl as [Hy Hl]. destruct Ha as (_ & _ & Ha). destruct l as [|z l].
  { apply list_elem_of_singleton in Hb as ->. exists y. done. }
  apply elem_of_cons in Hb as [->|Hb].
  - destruct (IH (stop y) z Hl Ha (list_elem_of_here _ _)) as (x & H1 & H2 & H3). exists x. split_and!; [done..|].
    destruct Ha as (Ha & _). apply Forall_cons in Hl as [Hz _]. apply segment_stop in Hz. lia.
  - by apply (IH (stop y)).
Qed.

Definition inserts (lo : Z) (l : list StreamBuffer) (c : StreamBuffer) (n : nat) : Prop :=
  exists i l', insertion_loop (length l) (mkInsertion l c Own None None) n = Some i /\
    finish i = Some l' /\ Forall segment l' /\ apart lo l' /\
    (forall p, covered l' p <-> covered l p \/ covers c p).

Section Insert.
Context (lo : Z) (pre : list StreamBuffer) (b : StreamBuffer) (rest : list StreamBuffer) (c : StreamBuffer).
Let l := pre ++ b :: rest.
Context (Hl : Forall segment l) (Ha : apart lo l) (Hc : segment c).

Lemma at_pre : l !! length pre = Some b /\ take (length pre) l = pre /\ drop (length pre) l = b :: rest /\
  drop (S (length pre)) l = rest.
Proof using.
  assert (Hd : drop (length pre) l = b :: rest) by apply drop_app_length. split_and!; [|apply take_app_length|done|].
  - by apply list_lookup_middle.
  - by rewrite <- Nat.add_1_r, <- drop_drop, Hd.
Qed.

Lemma insert_left :
  lo < offset c -> Forall (fun b => stop b < offset c) pre -> offset c < offset b -> inserts lo l c (length pre).
Proof.
  intros Hlo Hpre Hcb. destruct at_pre as (Hb & Ht & Hd & _). pose proof Hl as [Hlp Hlb]%Forall_app.
  destruct (apart_drop _ _ _ Ha) as [Hap _]. destruct (apart_before _ _ _ _ Ha) as (_ & _ & Har).
  assert (Hab : apart (offset c) (b :: rest)).
  { apply Forall_cons in Hlb as [Hb' _]. simpl. split_and!; [done|apply Hb'|done]. }
  destruct (absorb_loop (b :: rest) (length pre) (length pre) c (mkInsertion l c Own (Some (length pre)) (Some (length pre))) (length l))
    as (i & Hi & Hf); [|done..| |].
  { unfold placed, cur. simpl. split_and!; try done. unfold l. rewrite length_app. lia. }
  { unfold l. rewrite length_app. simpl. lia. }
  cbn [buffers] in Hf. rewrite Ht in Hf. destruct (absorb_behind lo pre c (b :: rest)) as (B1 & B2 & B3); [done..|].
  exists i, (pre ++ absorb c (b :: rest)). split_and!; try done.
  - destruct (begin_left l c b (length pre) (length l)) as [->|E]; [done|by apply Forall_cons in Hlb as []|done..|].
    unfold l in E. rewrite length_app in E. simpl in E. lia.
  - intros p. rewrite B3. unfold l. rewrite covered_app. tauto.
Qed.

Lemma insert_inside : offset b <= offset c <= stop b -> inserts lo l c (length pre).
Proof.
  intros Hcb. destruct at_pre as (Hb & Ht & Hd & Hd'). pose proof Hl as [Hlp [Hlb Hlr]%Forall_cons]%Forall_app.
  destruct (apart_drop _ _ _ Ha) as [Hap _]. destruct (apart_before _ _ _ _ Ha) as (Hpb & Hlob & Har).
  assert (Hlen : exists f, length l = S f /\ (length rest <= f)%nat).
  { exists (length pre + length rest)%nat. unfold l. rewrite length_app. simpl. lia. }
  destruct Hlen as (f & Hf1 & Hf2).
  destruct (begin_inside l c b (length pre) f Hc Hlb Hcb Hb) as (i & Hi & Hs). unfold inserts. rewrite Hf1, Hi.
  destruct (Z.leb_spec (stop c) (stop b)) as [L|L].
  - exists (mkInsertion l c Own None None), l. split_and!; try done.
    + destruct (last_stop lo l b Hl Ha) as (x & Hx & Hxs & Hxe); [apply elem_of_app; right; apply list_elem_of_here|].
      unfold finish. simpl. rewrite Hx. simpl. rewrite endOf_stop by done. zcases; done.
    + intros p. split; [by left|]. intros [?|Hp]; [done|]. unfold l. rewrite covered_app, covered_cons.
      right. left. unfold covers in *. lia.
  - destruct (Hs L) as (c' & Hp & Hc' & Ho & Hst & Ht' & Hdr). rewrite Hd' in Hdr. rewrite Ht in Ht'.
    assert (Hac : apart (offset c') rest).
    { eapply apart_weaken; [|done]. apply segment_stop in Hlb. lia. }
    destruct (absorb_loop rest (length pre) (S (length pre)) c' i f) as (i' & -> & Hf); [done..|].
    destruct (absorb_behind lo pre c' rest) as (B1 & B2 & B3); [done|done|by rewrite Ho|lia|done..|].
    exists i', (pre ++ absorb c' rest). rewrite Hf, Ht'. split_and!; try done.
    intros p. rewrite B3. unfold l. rewrite covered_app, covered_cons. unfold covers. rewrite Ho, Hst.
    apply segment_stop in Hlb. split; [|intros [[?|[?|?]]|?]; [tauto| |tauto|]; right; left; lia].
    intros [?|[?|?]]; [tauto| |tauto]. destruct (Z.lt_ge_cases p (stop b)); [left; right; left; lia|right; lia].
Qed.
End Insert.

(** Behind the last element. *)
Lemma insert_end lo l c :
  l <> [] -> Forall segment l -> apart lo l -> segment c -> lo < offset c ->
  Forall (fun b => stop b < offset c) l -> inserts lo l c (length l).
Proof.
  intros Hn Hl Ha Hc Hlo Hpre. exists (mkInsertion l c Own None None), (l ++ [c]). split_and!.
  - destruct l; [done|]. simpl. by rewrite (proj2 (lookup_ge_None _ _)).
  - destruct (last l) as [x|] eqn:Hx; [|by apply last_None in Hx]. unfold finish. simpl. rewrite Hx. simpl.
    apply last_Some_elem_of in Hx. rewrite Forall_forall in Hl, Hpre. rewrite endOf_stop by auto.
    specialize (Hpre x Hx). simpl in Hpre. by zcases.
  - by apply Forall_app; split; [|apply Forall_singleton].
  - apply (absorb_behind lo l c []); try done.
  - intros p. rewrite covered_app, covered_cons. pose proof (covered_nil p). tauto.
Qed.

(** Inserting a segment: the deque stays in order and apart, and holds what it held and
    the bytes of the segment. *)
Lemma insertBuffer_ok lo l c :
  Forall segment l -> apart lo l -> segment c -> lo < offset c ->
  exists l', insertBuffer l c = Some l' /\ Forall segment l' /\ apart lo l' /\
    (forall p, covered l' p <-> covered l p \/ covers c p).
Proof.
  intros Hl Ha Hc Hlo. destruct (lower_bound_split l (offset c) Hl) as [H1 H2].
  destruct (decide (l = [])) as [->|Hn].
  { exists [c]. split_and!; [done|by apply Forall_singleton|simpl; split_and!; [done|apply Hc|done]|].
    intros p. rewrite covered_cons. pose proof (covered_nil p). tauto. }
  assert (Hi : inserts lo l c (lower_bound l (offset c))).
  { pose proof (lower_bound_le l (offset c)) as Hle. set (n := lower_bound l (offset c)) in *.
    pose proof (take_drop n l) as E. destruct (drop n l) as [|b rest] eqn:E'.
    - rewrite app_nil_r in E. rewrite E in H1. assert (n = length l) as -> by (apply (f_equal length) in E'; rewrite length_drop in E'; simpl in E'; lia). by apply insert_end.
    - replace n with (length (take n l)) by (rewrite length_take; lia). set (pre := take n l) in *. rewrite <- E in *.
      destruct (Z.lt_ge_cases (offset c) (offset b)); [by apply insert_left|apply insert_inside; [done..|lia]]. }
  destruct Hi as (i & l' & H3 & H4 & H5). exists l'. split; [|done].
  unfold insertBuffer. destruct l; [done|]. rewrite H3. done.
Qed.

(** ** Reading *)

(** What a read does: [d] is the bytes at the read offset; [s'] the stream afterwards. *)
Definition reads (s : StreamLike) (amount : Z) (d : list Z) (s' : StreamLike) : Prop :=
  currentReadOffset s' = currentReadOffset s + zlen d /\
  maxOffsetObserved s' = maxOffsetObserved s /\ finalReadOffset s' = finalReadOffset s /\
  (d = [] \/ holds (currentReadOffset s) d /\ currentReadOffset s' <= M) /\
  Forall segment (readBuffer s') /\ apart (currentReadOffset s' - 1) (readBuffer s') /\
  (forall p, currentReadOffset s <= p < currentReadOffset s' -> covered (readBuffer s) p) /\
  (forall p, currentReadOffset s' <= p -> covered (readBuffer s') p <-> covered (readBuffer s) p) /\
  (amount = 0 \/ zlen d < amount -> ~ covered (readBuffer s) (currentReadOffset s')) /\
  (amount <> 0 -> zlen d <= amount).

(** There is nothing to read. *)
Definition gap (s : StreamLike) : Prop :=
  match readBuffer s with [] => True | b :: _ => currentReadOffset s < offset b end.

Lemma apart_not_covered lo l p : apart lo l -> p <= lo -> ~ covered l p.
Proof using.
  intros Ha Hp Hc. apply Exists_exists in Hc as (b & Hb & Hc). apply apart_above in Ha.
  rewrite Forall_forall in Ha. specialize (Ha b Hb). unfold covers in Hc. simpl in Ha. lia.
Qed.

Lemma read_gap fuel s amount remaining sink out e :
  gap s -> read_loop fuel s amount remaining sink out e = Some (out, e, s).
Proof using.
  unfold gap. destruct fuel; simpl; destruct (_ || _); try done; destruct (readBuffer s) as [|b l]; try done;
    intros H; by zcases.
Qed.

Lemma read_done fuel s amount sink out e :
  amount <> 0 -> read_loop fuel s amount 0 sink out e = Some (out, e, s).
Proof using. intros H. destruct fuel; simpl; by zcases. Qed.

Lemma read_all b l s amount sink :
  readBuffer s = b :: l -> offset b = currentReadOffset s -> segment b -> apart (stop b) l ->
  amount = 0 \/ zlen (data b) <= amount ->
  readDataInOrderFromReadBuffer s amount sink =
  Some (if sink then [] else data b, eof b, set_read (set_buffer s l) (stop b)).
Proof using HM.
  intros Hl Ho Hb Ha Hn. pose proof (segment_stop _ Hb) as Hs. unfold readDataInOrderFromReadBuffer. rewrite Hl.
  assert (Hg : gap (set_read (set_buffer s l) (stop b))).
  { unfold gap. simpl. destruct l; [done|]. apply Ha. }
  generalize (length (b :: l)) as fuel. intros fuel. cbn [read_loop]. rewrite Hl, Ho, Z.eqb_refl. unfold stop in *.
  assert (0 < zlen (data b)) by apply Hb.
  replace (Z.min _ _) with (zlen (data b)) by (zcases; lia). rewrite <- Ho.
  rewrite u64_id by (revert HM; ilia). 
  replace (Z.to_nat (zlen (data b))) with (length (data b)) by (unfold zlen; lia). rewrite firstn_all, drop_all.
  zcases; cbn [data eof app]; rewrite ?read_gap by done; by destruct sink.
Qed.

Lemma read_part b l s amount sink :
  readBuffer s = b :: l -> offset b = currentReadOffset s -> segment b -> 0 < amount < zlen (data b) ->
  readDataInOrderFromReadBuffer s amount sink =
  Some (if sink then [] else take (Z.to_nat amount) (data b), false,
        set_read (set_buffer s (mkBuffer (drop (Z.to_nat amount) (data b)) (offset b + amount) (eof b) :: l))
          (offset b + amount)).
Proof using HM.
  intros Hl Ho Hb Hn. pose proof (segment_stop _ Hb) as Hs. unfold readDataInOrderFromReadBuffer. rewrite Hl.
  generalize (length (b :: l)) as fuel. intros fuel. cbn [read_loop]. rewrite Hl, Ho, Z.eqb_refl. unfold stop in *.
  replace (Z.min _ _) with amount by (zcases; lia). rewrite <- Ho, u64_id by (revert HM; ilia). cbn [data eof app].
  assert (0 < zlen (drop (Z.to_nat amount) (data b))) by (unfold zlen in *; rewrite length_drop; lia).
  zcases. rewrite Z.sub_diag. by destruct sink; rewrite read_done by lia.
Qed.

Lemma read_nothing s amount sink :
  0 <= amount -> Forall segment (readBuffer s) -> apart (currentReadOffset s - 1) (readBuffer s) -> gap s ->
  exists d e s', readDataInOrderFromReadBuffer s amount sink = Some (if sink then [] else d, e, s') /\ reads s amount d s'.
Proof using.
  intros Hn Hl Ha Hg. exists [], false, s. unfold readDataInOrderFromReadBuffer. rewrite read_gap by done.
  split; [by destruct sink|]. unfold reads. change (zlen []) with 0. rewrite Z.add_0_r.
  split_and!; try (done || lia); [by left|]. intros _ Hc. unfold gap in Hg.
  destruct (readBuffer s) as [|b l]; [by apply covered_nil in Hc|]. destruct Ha as (A1 & A2 & A3).
  by apply (apart_not_covered (currentReadOffset s) (b :: l) (currentReadOffset s)).
Qed.

Lemma read_ok s amount sink :
  0 <= amount -> 0 <= currentReadOffset s -> Forall segment (readBuffer s) ->
  apart (currentReadOffset s - 1) (readBuffer s) ->
  exists d e s', readDataInOrderFromReadBuffer s amount sink = Some (if sink then [] else d, e, s') /\ reads s amount d s'.
Proof.
  intros Hn Hc Hl Ha. destruct (readBuffer s) as [|b l] eqn:E.
  { apply read_nothing; rewrite ?E; [done..|]. unfold gap. by rewrite E. }
  destruct (Z.lt_ge_cases (currentReadOffset s) (offset b)) as [L|L].
  { apply read_nothing; rewrite ?E; [done..|]. unfold gap. by rewrite E. }
  apply Forall_cons in Hl as [Hb Hl]. destruct Ha as (A1 & A2 & A3). assert (Ho : offset b = currentReadOffset s) by lia.
  pose proof (segment_stop _ Hb) as Hs. destruct Hb as (B1 & B2 & B3 & B4) eqn:EB. clear EB.
  destruct (decide (amount = 0 \/ zlen (data b) <= amount)) as [Ham|Ham].
  - eexists (data b), _, _. split; [by eapply read_all|]. unfold reads. simpl. rewrite E.
    unfold stop in *. split_and!; try (done || lia).
    + rewrite <- Ho. by right.
    + eapply apart_weaken; [|done]. lia.
    + intros p Hp. apply covered_cons. left. unfold covers, stop. lia.
    + intros p Hp. rewrite covered_cons. unfold covers, stop. split; [by right|intros [?|?]; [lia|done]].
    + intros _. rewrite covered_cons. intros [?|?]; [unfold covers, stop in *; lia|].
      by apply (apart_not_covered (offset b + zlen (data b)) l (offset b + zlen (data b))) in H.
  - eexists (take (Z.to_nat amount) (data b)), _, _. split; [eapply read_part; (done || lia)|].
    assert (Ht : zlen (take (Z.to_nat amount) (data b)) = amount) by (unfold zlen in *; rewrite length_take; lia).
    unfold reads. simpl. rewrite E, Ht.
    assert (Hseg : segment (mkBuffer (drop (Z.to_nat amount) (data b)) (offset b + amount) (eof b))).
    { replace amount with (offset b + amount - offset b) at 1 by lia. apply segment_trim; [done|]. unfold stop in *. lia. }
    assert (Hst : stop (mkBuffer (drop (Z.to_nat amount) (data b)) (offset b + amount) (eof b)) = stop b).
    { unfold stop, zlen in *. simpl. rewrite length_drop. lia. }
    split_and!; try (done || lia).
    + right. rewrite <- Ho. split; [by apply holds_take|]. unfold stop in *. lia.
    + by apply Forall_cons.
    + apply Hseg.
    + by rewrite Hst.
    + intros p Hp. apply covered_cons. left. unfold covers, stop in *. lia.
    + intros p Hp. rewrite !covered_cons. unfold covers. rewrite Hst. simpl. split; (intros [?|?]; [left; lia|by right]).
Qed.


(** ** A stream that is in order *)

Definition ready (s : StreamLike) : Prop :=
  0 <= currentReadOffset s /\ Forall segment (readBuffer s) /\ apart (currentReadOffset s - 1) (readBuffer s).

(** The buffer's bytes from the read offset on. *)
Lemma store_nothing s b : data b = [] \/ stop b <= currentReadOffset s -> storeBuffer s b = Some s.
Proof using.
  intros [H|H]; unfold storeBuffer, stop in *; [by rewrite H|].
  destruct (Z.eqb_spec (zlen (data b)) 0); [done|].
  destruct (Z.ltb_spec (offset b) (currentReadOffset s)); [|unfold zlen in *; lia].
  cbn [data trimStartAtMost]. by rewrite drop_ge by (unfold zlen in *; lia).
Qed.

Lemma store_something s b :
  data b <> [] -> currentReadOffset s < stop b -> 0 <= currentReadOffset s -> 0 <= offset b -> stop b <= M ->
  holds (offset b) (data b) ->
  exists c, segment c /\ stop c = stop b /\ offset c = Z.max (offset b) (currentReadOffset s) /\
    storeBuffer s b = (l ← insertBuffer (readBuffer s) c; Some (set_buffer s l)).
Proof using.
  intros Hd Hlt H0 Ho Hs Hh. unfold storeBuffer.
  assert (0 < zlen (data b)) by (destruct (data b); [done|unfold zlen; simpl; lia]).
  assert (Hb : segment b) by done. destruct (Z.eqb_spec (zlen (data b)) 0); [lia|].
  destruct (Z.ltb_spec (offset b) (currentReadOffset s)).
  - pose proof (segment_trim b (currentReadOffset s) (eof b) Hb ltac:(lia)) as Hc. eexists. split; [exact Hc|].
    cbn [data offset eof trimStartAtMost]. destruct Hc as (_ & Hc & _ & _). simpl in Hc.
    destruct (Z.eqb_spec (zlen (drop (Z.to_nat (currentReadOffset s - offset b)) (data b))) 0); [lia|].
    split_and!; [|lia|done]. unfold stop, zlen in *. simpl. rewrite length_drop. lia.
  - exists b. destruct (Z.eqb_spec (zlen (data b)) 0); [lia|]. split_and!; (done || lia).
Qed.

(** Storing a buffer keeps the stream in order and adds the buffer's bytes. *)
Lemma store_ok s b :
  ready s -> 0 <= offset b -> stop b <= M -> holds (offset b) (data b) ->
  exists l, storeBuffer s b = Some (set_buffer s l) /\ ready (set_buffer s l) /\
    (forall p, currentReadOffset s <= p -> covered l p <-> covered (readBuffer s) p \/ covers b p).
Proof.
  intros (H0 & H1 & H2) Ho Hs Hh.
  destruct (decide (data b = [] \/ stop b <= currentReadOffset s)) as [Hn|Hn].
  - exists (readBuffer s). rewrite store_nothing by done. split_and!; [by destruct s|done..|].
    intros p Hp. split; [tauto|]. intros [?|Hc]; [done|]. unfold covers, stop in *.
    destruct Hn as [Hn|Hn]; [rewrite Hn in Hc; change (zlen []) with 0 in Hc|]; lia.
  - destruct (store_something s b) as (c & Hc & C1 & C2 & ->); [tauto|lia|done..|].
    destruct (insertBuffer_ok (currentReadOffset s - 1) (readBuffer s) c) as (l & -> & L1 & L2 & L3); [done..|lia|].
    exists l. split_and!; [done..|]. intros p Hp. rewrite L3. unfold covers. rewrite C1, C2.
    split; (intros [?|?]; [by left|right; lia]).
Qed.
End Stream.
End QuicReassembly.
