(* ===== verification/QuicFlowControl.v ===== *)
(** * Flow control of a QUIC connection

    [quic/flowcontrol/QuicFlowController.cpp], the receiving state machine of
    [quic/state/stream/StreamReceiveHandlers.cpp] and [StreamStateFunctions.cpp], and the
    reads of [QuicStreamFunctions.cpp] that keep both up to date.

    A [Stream] is what [QuicStreamState] has of these parts, and [Conn] what the
    connection has; the stream manager's sets of streams with a window update, with a
    blocked frame, with new room to write, readable, peekable and closed are sets of the
    connection.  The set of writable streams and the head-of-line statistics are left out,
    and so are [QUIC_STATS] and the qlog.  Times are nanoseconds, the round-trip time is in
    microseconds.  A result [None] is a failed [CHECK]; an exception is on the left. *)

From stdpp Require Import gmap.
From S2P Require Import Prelude QuicStream.

Module QuicFlowControl.
Import QuicStream.

(** ** State *)

Record TransportSettings := mkSettings {
  flowControlRttFrequency : Z;
  flowControlWindowFrequency : Z;
  autotuneReceiveConnFlowControl : bool;
  autotuneReceiveStreamFlowControl : bool;
  useNewStreamBlockedCondition : bool;
  disableFlowControlTimeBasedUpdates : bool;
  unidirectionalStreamsReadCallbacksFirst : bool;
  advertisedInitialConnectionFlowControlWindow : Z
}.

Record ConnectionFlowControlState := mkConnFlow {
  windowSize : Z;
  advertisedMaxOffset : Z;
  peerAdvertisedMaxOffset : Z;
  sumCurReadOffset : Z;
  sumMaxObservedOffset : Z;
  sumCurWriteOffset : Z;
  sumCurStreamBufferLen : Z;
  timeOfLastFlowControlUpdate : option Z
}.

Record StreamFlowControlState := mkStreamFlow {
  s_windowSize : Z;
  s_advertisedMaxOffset : Z;
  s_peerAdvertisedMaxOffset : Z;
  s_timeOfLastFlowControlUpdate : option Z;
  pendingBlockedFrame : bool
}.

Inductive StreamSendState := SendOpen | ResetSent | SendClosed | SendInvalid.
Inductive StreamRecvState := RecvOpen | RecvClosed | RecvInvalid.
Inductive QuicNodeType := Client | Server.

#[global] Instance StreamSendState_eq_dec : EqDecision StreamSendState.
Proof. solve_decision. Defined.
#[global] Instance StreamRecvState_eq_dec : EqDecision StreamRecvState.
Proof. solve_decision. Defined.
#[global] Instance QuicNodeType_eq_dec : EqDecision QuicNodeType.
Proof. solve_decision. Defined.

Record WriteBufferMeta := mkMeta { meta_length : Z; meta_offset : Z; meta_eof : bool }.

Record Conn := mkConn {
  nodeType : QuicNodeType;
  flowControlState : ConnectionFlowControlState;
  connWindowUpdate : bool;
  sendDataBlocked : bool;
  srtt : Z;
  transportSettings : TransportSettings;
  windowUpdates : gset Z;
  blockedStreams : gmap Z Z;
  flowControlUpdated : gset Z;
  readableStreams : gset Z;
  unidirectionalReadableStreams : gset Z;
  peekableStreams : gset Z;
  closedStreams : gset Z
}.

Record Stream := mkStream {
  id : Z;
  like : StreamLike;
  flow : StreamFlowControlState;
  sendState : StreamSendState;
  recvState : StreamRecvState;
  streamReadError : option Z;
  streamWriteError : option Z;
  pendingWrites : list Z;
  writeBuffer : list Z;
  currentWriteOffset : Z;
  finalWriteOffset : option Z;
  writeBufMeta : WriteBufferMeta;
  dsrSender : bool
}.

Definition set_flow (c : Conn) f := mkConn (nodeType c) f (connWindowUpdate c) (sendDataBlocked c) (srtt c) (transportSettings c) (windowUpdates c) (blockedStreams c) (flowControlUpdated c) (readableStreams c) (unidirectionalReadableStreams c) (peekableStreams c) (closedStreams c).
Definition set_connWindowUpdate (c : Conn) b := mkConn (nodeType c) (flowControlState c) b (sendDataBlocked c) (srtt c) (transportSettings c) (windowUpdates c) (blockedStreams c) (flowControlUpdated c) (readableStreams c) (unidirectionalReadableStreams c) (peekableStreams c) (closedStreams c).
Definition set_sendDataBlocked (c : Conn) b := mkConn (nodeType c) (flowControlState c) (connWindowUpdate c) b (srtt c) (transportSettings c) (windowUpdates c) (blockedStreams c) (flowControlUpdated c) (readableStreams c) (unidirectionalReadableStreams c) (peekableStreams c) (closedStreams c).
Definition set_windowUpdates (c : Conn) m := mkConn (nodeType c) (flowControlState c) (connWindowUpdate c) (sendDataBlocked c) (srtt c) (transportSettings c) m (blockedStreams c) (flowControlUpdated c) (readableStreams c) (unidirectionalReadableStreams c) (peekableStreams c) (closedStreams c).
Definition set_blocked (c : Conn) m := mkConn (nodeType c) (flowControlState c) (connWindowUpdate c) (sendDataBlocked c) (srtt c) (transportSettings c) (windowUpdates c) m (flowControlUpdated c) (readableStreams c) (unidirectionalReadableStreams c) (peekableStreams c) (closedStreams c).
Definition set_updated (c : Conn) m := mkConn (nodeType c) (flowControlState c) (connWindowUpdate c) (sendDataBlocked c) (srtt c) (transportSettings c) (windowUpdates c) (blockedStreams c) m (readableStreams c) (unidirectionalReadableStreams c) (peekableStreams c) (closedStreams c).
Definition set_readable (c : Conn) m u := mkConn (nodeType c) (flowControlState c) (connWindowUpdate c) (sendDataBlocked c) (srtt c) (transportSettings c) (windowUpdates c) (blockedStreams c) (flowControlUpdated c) m u (peekableStreams c) (closedStreams c).
Definition set_peekable (c : Conn) m := mkConn (nodeType c) (flowControlState c) (connWindowUpdate c) (sendDataBlocked c) (srtt c) (transportSettings c) (windowUpdates c) (blockedStreams c) (flowControlUpdated c) (readableStreams c) (unidirectionalReadableStreams c) m (closedStreams c).
Definition set_closed (c : Conn) m := mkConn (nodeType c) (flowControlState c) (connWindowUpdate c) (sendDataBlocked c) (srtt c) (transportSettings c) (windowUpdates c) (blockedStreams c) (flowControlUpdated c) (readableStreams c) (unidirectionalReadableStreams c) (peekableStreams c) m.

Definition set_window (f : ConnectionFlowControlState) w := mkConnFlow w (advertisedMaxOffset f) (peerAdvertisedMaxOffset f) (sumCurReadOffset f) (sumMaxObservedOffset f) (sumCurWriteOffset f) (sumCurStreamBufferLen f) (timeOfLastFlowControlUpdate f).
Definition set_advertised (f : ConnectionFlowControlState) a t := mkConnFlow (windowSize f) a (peerAdvertisedMaxOffset f) (sumCurReadOffset f) (sumMaxObservedOffset f) (sumCurWriteOffset f) (sumCurStreamBufferLen f) t.
Definition set_peer (f : ConnectionFlowControlState) a := mkConnFlow (windowSize f) (advertisedMaxOffset f) a (sumCurReadOffset f) (sumMaxObservedOffset f) (sumCurWriteOffset f) (sumCurStreamBufferLen f) (timeOfLastFlowControlUpdate f).
Definition set_sumRead (f : ConnectionFlowControlState) n := mkConnFlow (windowSize f) (advertisedMaxOffset f) (peerAdvertisedMaxOffset f) n (sumMaxObservedOffset f) (sumCurWriteOffset f) (sumCurStreamBufferLen f) (timeOfLastFlowControlUpdate f).
Definition set_sumMax (f : ConnectionFlowControlState) n := mkConnFlow (windowSize f) (advertisedMaxOffset f) (peerAdvertisedMaxOffset f) (sumCurReadOffset f) n (sumCurWriteOffset f) (sumCurStreamBufferLen f) (timeOfLastFlowControlUpdate f).
Definition set_sumWrite (f : ConnectionFlowControlState) n := mkConnFlow (windowSize f) (advertisedMaxOffset f) (peerAdvertisedMaxOffset f) (sumCurReadOffset f) (sumMaxObservedOffset f) n (sumCurStreamBufferLen f) (timeOfLastFlowControlUpdate f).
Definition set_sumBuffer (f : ConnectionFlowControlState) n := mkConnFlow (windowSize f) (advertisedMaxOffset f) (peerAdvertisedMaxOffset f) (sumCurReadOffset f) (sumMaxObservedOffset f) (sumCurWriteOffset f) n (timeOfLastFlowControlUpdate f).

Definition set_like (s : Stream) l := mkStream (id s) l (flow s) (sendState s) (recvState s) (streamReadError s) (streamWriteError s) (pendingWrites s) (writeBuffer s) (currentWriteOffset s) (finalWriteOffset s) (writeBufMeta s) (dsrSender s).
Definition set_sflow (s : Stream) f := mkStream (id s) (like s) f (sendState s) (recvState s) (streamReadError s) (streamWriteError s) (pendingWrites s) (writeBuffer s) (currentWriteOffset s) (finalWriteOffset s) (writeBufMeta s) (dsrSender s).
Definition set_recvState (s : Stream) r := mkStream (id s) (like s) (flow s) (sendState s) r (streamReadError s) (streamWriteError s) (pendingWrites s) (writeBuffer s) (currentWriteOffset s) (finalWriteOffset s) (writeBufMeta s) (dsrSender s).
Definition set_readError (s : Stream) e := mkStream (id s) (like s) (flow s) (sendState s) (recvState s) e (streamWriteError s) (pendingWrites s) (writeBuffer s) (currentWriteOffset s) (finalWriteOffset s) (writeBufMeta s) (dsrSender s).
Definition set_writes (s : Stream) p w f := mkStream (id s) (like s) (flow s) (sendState s) (recvState s) (streamReadError s) (streamWriteError s) p w (currentWriteOffset s) f (writeBufMeta s) (dsrSender s).
Definition set_meta (s : Stream) m f := mkStream (id s) (like s) (flow s) (sendState s) (recvState s) (streamReadError s) (streamWriteError s) (pendingWrites s) (writeBuffer s) (currentWriteOffset s) f m (dsrSender s).
Definition set_sendState (s : Stream) r := mkStream (id s) (like s) (flow s) r (recvState s) (streamReadError s) (streamWriteError s) (pendingWrites s) (writeBuffer s) (currentWriteOffset s) (finalWriteOffset s) (writeBufMeta s) (dsrSender s).
Definition set_pending (s : Stream) p o := mkStream (id s) (like s) (flow s) (sendState s) (recvState s) (streamReadError s) (streamWriteError s) p (writeBuffer s) o (finalWriteOffset s) (writeBufMeta s) (dsrSender s).

(** ** Stream identifiers and queries *)

Definition isClientStream (stream : Z) : bool := Z.land stream 1 =? 0.
Definition isServerStream (stream : Z) : bool := truth (Z.land stream 1).
Definition isUnidirectionalStream (stream : Z) : bool := truth (Z.land stream 2).
Definition isSendingStream (node : QuicNodeType) (stream : Z) : bool :=
  isUnidirectionalStream stream &&
  match node with Client => isClientStream stream | Server => isServerStream stream end.

Definition inTerminalStates (s : Stream) : bool :=
  match sendState s with SendClosed | SendInvalid => true | _ => false end &&
  match recvState s with RecvClosed | RecvInvalid => true | _ => false end.
Definition shouldSendFlowControl (s : Stream) : bool :=
  match recvState s with RecvOpen => true | _ => false end.
Definition hasSentFIN (s : Stream) : bool :=
  match finalWriteOffset s with
  | None => false
  | Some off => (currentWriteOffset s >? off) || (meta_offset (writeBufMeta s) >? off)
  end.
Definition nextOffsetToWrite (s : Stream) : Z :=
  if meta_offset (writeBufMeta s) =? 0 then currentWriteOffset s
  else if negb (zlen (pendingWrites s) =? 0) then currentWriteOffset s
  else meta_offset (writeBufMeta s).
Definition hasReadableData (l : StreamLike) : bool :=
  match readBuffer l with b :: _ => currentReadOffset l =? offset b | [] => false end ||
  match finalReadOffset l with Some f => currentReadOffset l =? f | None => false end.
Definition hasPeekableData (l : StreamLike) : bool := match readBuffer l with [] => false | _ => true end.

Definition updateReadableStreams (s : Stream) (c : Conn) : Conn :=
  let uni := unidirectionalStreamsReadCallbacksFirst (transportSettings c) && isUnidirectionalStream (id s) in
  if hasReadableData (like s) || bool_decide (is_Some (streamReadError s)) then
    if uni then set_readable c (readableStreams c) ({[id s]} ∪ unidirectionalReadableStreams c)
    else set_readable c ({[id s]} ∪ readableStreams c) (unidirectionalReadableStreams c)
  else if uni then set_readable c (readableStreams c) (unidirectionalReadableStreams c ∖ {[id s]})
  else set_readable c (readableStreams c ∖ {[id s]}) (unidirectionalReadableStreams c).
Definition updatePeekableStreams (s : Stream) (c : Conn) : Conn :=
  if hasPeekableData (like s) || bool_decide (is_Some (streamReadError s))
  then set_peekable c ({[id s]} ∪ peekableStreams c)
  else set_peekable c (peekableStreams c ∖ {[id s]}).

Definition queueWindowUpdate (n : Z) (c : Conn) : Conn := set_windowUpdates c ({[n]} ∪ windowUpdates c).
Definition removeWindowUpdate (n : Z) (c : Conn) : Conn := set_windowUpdates c (windowUpdates c ∖ {[n]}).
Definition pendingWindowUpdate (n : Z) (c : Conn) : bool := bool_decide (n ∈ windowUpdates c).
(** [emplace]: a frame that is there stays. *)
Definition queueBlocked (n off : Z) (c : Conn) : Conn :=
  match blockedStreams c !! n with Some _ => c | None => set_blocked c (<[n := off]> (blockedStreams c)) end.
Definition queueFlowControlUpdated (n : Z) (c : Conn) : Conn := set_updated c ({[n]} ∪ flowControlUpdated c).
Definition addClosed (n : Z) (c : Conn) : Conn := set_closed c ({[n]} ∪ closedStreams c).

(** ** Windows *)

Definition calculateNewWindowUpdate (curReadOffset curAdvertisedOffset windowSize srtt : Z)
    (ts : TransportSettings) (lastSendTime : option Z) (updateTime : Z) : option Z :=
  let nextAdvertisedOffset := u64 (curReadOffset + windowSize) in
  if nextAdvertisedOffset =? curAdvertisedOffset then None
  else
    let enoughTimeElapsed :=
      match lastSendTime with
      | Some last => (updateTime >? last) && (updateTime - last >? flowControlRttFrequency ts * srtt * 1000)
      | None => false
      end in
    if negb (disableFlowControlTimeBasedUpdates ts) && enoughTimeElapsed && negb (autotuneReceiveConnFlowControl ts)
    then Some nextAdvertisedOffset
    else if u64 (u64 (curAdvertisedOffset - curReadOffset) * flowControlWindowFrequency ts) <? windowSize
    then Some nextAdvertisedOffset
    else None.

Definition incrementWithOverFlowCheck (num diff : Z) : Exception + Z :=
  if num >? UINT64_MAX - diff then inl INTERNAL_ERROR_ else inr (u64 (num + diff)).
Definition decrementWithOverFlowCheck (num diff : Z) : Exception + Z :=
  if num <? diff then inl INTERNAL_ERROR_ else inr (u64 (num - diff)).

Definition calculateMaximumData (s : Stream) : Z :=
  Z.max (u64 (currentReadOffset (like s) + s_windowSize (flow s))) (s_advertisedMaxOffset (flow s)).

(** The window, doubled if the last update was less than two round trips ago. *)
Definition maybeIncreaseFlowControlWindow (timeOfLast : option Z) (updateTime srtt windowSize : Z) : option Z :=
  match timeOfLast with
  | None => Some windowSize
  | Some last =>
      if srtt =? 0 then Some windowSize
      else if negb (updateTime >? last) then None
      else Some (if Z.quot (updateTime - last) 1000 <? 2 * srtt then u64 (windowSize * 2) else windowSize)
  end.

Definition maybeIncreaseConnectionFlowControlWindow (c : Conn) (updateTime : Z) : option Conn :=
  let f := flowControlState c in
  w ← maybeIncreaseFlowControlWindow (timeOfLastFlowControlUpdate f) updateTime (srtt c) (windowSize f);
  Some (set_flow c (set_window f w)).

Definition maybeIncreaseStreamFlowControlWindow (f : StreamFlowControlState) (updateTime srtt : Z)
  : option StreamFlowControlState :=
  w ← maybeIncreaseFlowControlWindow (s_timeOfLastFlowControlUpdate f) updateTime srtt (s_windowSize f);
  Some (mkStreamFlow w (s_advertisedMaxOffset f) (s_peerAdvertisedMaxOffset f)
          (s_timeOfLastFlowControlUpdate f) (pendingBlockedFrame f)).

(** [true] if an update is now pending. *)
Definition maybeSendConnWindowUpdate (c : Conn) (updateTime : Z) : option (bool * Conn) :=
  if connWindowUpdate c then Some (false, c)
  else
    let f := flowControlState c in
    match calculateNewWindowUpdate (sumCurReadOffset f) (advertisedMaxOffset f) (windowSize f) (srtt c)
            (transportSettings c) (timeOfLastFlowControlUpdate f) updateTime with
    | Some _ =>
        let c := set_connWindowUpdate c true in
        c ← (if autotuneReceiveConnFlowControl (transportSettings c)
             then maybeIncreaseConnectionFlowControlWindow c updateTime else Some c);
        Some (true, c)
    | None => Some (false, c)
    end.

Definition maybeSendStreamWindowUpdate (s : Stream) (c : Conn) (updateTime : Z) : bool * Conn :=
  if negb (shouldSendFlowControl s) then (false, c)
  else if pendingWindowUpdate (id s) c then (false, c)
  else
    match calculateNewWindowUpdate (currentReadOffset (like s)) (s_advertisedMaxOffset (flow s))
            (s_windowSize (flow s)) (srtt c) (transportSettings c)
            (s_timeOfLastFlowControlUpdate (flow s)) updateTime with
    | Some _ => (true, queueWindowUpdate (id s) c)
    | None => (false, c)
    end.

(** ** Receiving and reading *)

Definition updateFlowControlOnStreamData (s : Stream) (previousMaxOffsetObserved bufferEndOffset : Z) (c : Conn)
  : Exception + Conn :=
  if s_advertisedMaxOffset (flow s) <? bufferEndOffset then inl FLOW_CONTROL_ERROR
  else
    let curMaxOffsetObserved := Z.max previousMaxOffsetObserved bufferEndOffset in
    let f := flowControlState c in
    let diff := u64 (curMaxOffsetObserved - previousMaxOffsetObserved) in
    match incrementWithOverFlowCheck (sumMaxObservedOffset f) diff with
    | inl err => inl err
    | inr connMaxObservedOffset =>
        if connMaxObservedOffset >? advertisedMaxOffset f then inl FLOW_CONTROL_ERROR
        else
          match incrementWithOverFlowCheck (sumMaxObservedOffset f) diff with
          | inl err => inl err
          | inr n => inr (set_flow c (set_sumMax f n))
          end
    end.

Definition updateFlowControlOnRead (s : Stream) (lastReadOffset readTime : Z) (c : Conn) : option (Exception + Conn) :=
  let diff := u64 (currentReadOffset (like s) - lastReadOffset) in
  match incrementWithOverFlowCheck (sumCurReadOffset (flowControlState c)) diff with
  | inl err => Some (inl err)
  | inr n =>
      let c := set_flow c (set_sumRead (flowControlState c) n) in
      '(_, c) ← maybeSendConnWindowUpdate c readTime;
      let '(_, c) := maybeSendStreamWindowUpdate s c readTime in
      Some (inr c)
  end.

Definition appendDataToReadBuffer (s : Stream) (c : Conn) (buffer : StreamBuffer) : option (Exception + Stream * Conn) :=
  r ← appendDataToReadBufferCommon (updateFlowControlOnStreamData s) (like s) c buffer;
  Some (match r with inl err => inl err | inr (l, c) => inr (set_like s l, c) end).

(** Whether everything up to the final offset has been read, and the mark that this has
    been told: the read offset is one past the final offset. *)
Definition atEnd (l : StreamLike) : bool :=
  match finalReadOffset l with Some f => currentReadOffset l >=? f | None => false end.
Definition reachedEnd (l : StreamLike) : bool :=
  match finalReadOffset l with Some f => currentReadOffset l =? f | None => false end.
Definition passEnd (l : StreamLike) : StreamLike :=
  if reachedEnd l then set_read l (u64 (currentReadOffset l + 1)) else l.

(** [readDataFromQuicStream] and, with [sinkData], [consumeDataFromQuicStream]. *)
Definition readDataFromQuicStream (s : Stream) (c : Conn) (amount : Z) (sinkData : bool) (now : Z)
  : option (Exception + (list Z * bool * Stream * Conn)) :=
  if atEnd (like s) then
    let s := set_like s (passEnd (like s)) in
    Some (inr ([], true, s, updatePeekableStreams s (updateReadableStreams s c)))
  else
    let lastReadOffset := currentReadOffset (like s) in
    '(data, _, l) ← readDataInOrderFromReadBuffer (like s) amount sinkData;
    let s := set_like s l in
    r ← updateFlowControlOnRead s lastReadOffset now c;
    match r with
    | inl err => Some (inl err)
    | inr c =>
        let eof := reachedEnd l in
        let s := set_like s (passEnd l) in
        Some (inr (data, eof, s, updatePeekableStreams s (updateReadableStreams s c)))
    end.

Definition consumeDataFromQuicStream (s : Stream) (c : Conn) (amount now : Z) : option (Exception + Stream * Conn) :=
  r ← readDataFromQuicStream s c amount true now;
  Some (match r with inl err => inl err | inr (_, _, s, c) => inr (s, c) end).

(** ** The receiving state machine *)

Definition isAllDataReceived (l : StreamLike) : bool :=
  match finalReadOffset l with
  | None => false
  | Some f =>
      if f <=? currentReadOffset l then true
      else match readBuffer l with
           | [b] => (currentReadOffset l =? offset b) && (endOf b =? f)
           | _ => false
           end
  end.

Definition closeRecv (s : Stream) (c : Conn) : Stream * Conn :=
  let s := set_recvState s RecvClosed in
  (s, if inTerminalStates s then addClosed (id s) c else c).

Definition receiveReadStreamFrameSMHandler (s : Stream) (c : Conn) (frame : StreamBuffer)
  : option (Exception + Stream * Conn) :=
  match recvState s with
  | RecvOpen =>
      r ← appendDataToReadBuffer s c frame;
      match r with
      | inl err => Some (inl err)
      | inr (s, c) =>
          let '(s, c) := if isAllDataReceived (like s) then closeRecv s c else (s, c) in
          Some (inr (s, updatePeekableStreams s (updateReadableStreams s c)))
      end
  | RecvClosed => if isSendingStream (nodeType c) (id s) then None else Some (inr (s, c))
  | RecvInvalid => Some (inl STREAM_STATE_ERROR)
  end.

Definition onResetQuicStream (s : Stream) (c : Conn) (frameOffset errorCode now : Z) : option (Exception + Stream * Conn) :=
  let l := like s in
  if match finalReadOffset l with Some f => negb (f =? frameOffset) | None => false end then Some (inl FINAL_SIZE_ERROR)
  else if maxOffsetObserved l >? frameOffset then Some (inl FINAL_SIZE_ERROR)
  else
    match updateFlowControlOnStreamData s (maxOffsetObserved l) frameOffset c with
    | inl err => Some (inl err)
    | inr c =>
        let l := set_final (set_buffer l []) (Some frameOffset) in
        let s := set_readError s (Some errorCode) in
        let appReadAllBytes := currentReadOffset l >? frameOffset in
        r ← (if appReadAllBytes then Some (inr (set_like s l, c))
             else
               let lastReadOffset := currentReadOffset l in
               let s := set_like s (set_max (set_read l frameOffset) frameOffset) in
               r ← updateFlowControlOnRead s lastReadOffset now c;
               Some (match r with inl err => inl err | inr c => inr (s, c) end));
        Some (match r with inl err => inl err | inr (s, c) => inr (s, updateReadableStreams s c) end)
    end.

Definition receiveRstStreamSMHandler (s : Stream) (c : Conn) (frameOffset errorCode now : Z) : option (Exception + Stream * Conn) :=
  match recvState s with
  | RecvClosed => onResetQuicStream s c frameOffset errorCode now
  | RecvOpen => let '(s, c) := closeRecv s c in onResetQuicStream s c frameOffset errorCode now
  | RecvInvalid => Some (inl STREAM_STATE_ERROR)
  end.

Definition processTxStopSending (s : Stream) (c : Conn) : Stream * Conn :=
  let s := set_like (set_recvState s RecvClosed) (set_buffer (like s) []) in
  let c := set_readable c (readableStreams c ∖ {[id s]}) (unidirectionalReadableStreams c) in
  (s, if inTerminalStates s then addClosed (id s) c else c).


(** ** Sending *)

Definition getSendStreamFlowControlBytesWire (s : Stream) : Z :=
  u64 (s_peerAdvertisedMaxOffset (flow s) - nextOffsetToWrite s).
Definition dataInBuffer (s : Stream) : Z := u64 (zlen (pendingWrites s) + meta_length (writeBufMeta s)).
Definition getSendStreamFlowControlBytesAPI (s : Stream) : Z :=
  let sendFlowControlBytes := getSendStreamFlowControlBytesWire s in
  if dataInBuffer s >? sendFlowControlBytes then 0 else u64 (sendFlowControlBytes - dataInBuffer s).
Definition getSendConnFlowControlBytesWire (c : Conn) : Z :=
  u64 (peerAdvertisedMaxOffset (flowControlState c) - sumCurWriteOffset (flowControlState c)).
Definition getSendConnFlowControlBytesAPI (c : Conn) : Z :=
  let connFlowControlBytes := getSendConnFlowControlBytesWire c in
  if sumCurStreamBufferLen (flowControlState c) >? connFlowControlBytes then 0
  else u64 (connFlowControlBytes - sumCurStreamBufferLen (flowControlState c)).
Definition getRecvStreamFlowControlBytes (s : Stream) : Z :=
  if s_advertisedMaxOffset (flow s) <? currentReadOffset (like s) then 0
  else u64 (s_advertisedMaxOffset (flow s) - currentReadOffset (like s)).
Definition getRecvConnFlowControlBytes (c : Conn) : Z :=
  u64 (advertisedMaxOffset (flowControlState c) - sumCurReadOffset (flowControlState c)).

Definition updateFlowControlOnWriteToSocket (length : Z) (c : Conn) : Exception + Conn :=
  let f := flowControlState c in
  match incrementWithOverFlowCheck (sumCurWriteOffset f) length with
  | inl err => inl err
  | inr n => inr (set_flow c (set_sumBuffer (set_sumWrite f n) (u64 (sumCurStreamBufferLen f - length))))
  end.
Definition updateFlowControlOnWriteToStream (length : Z) (c : Conn) : Exception + Conn :=
  let f := flowControlState c in
  match incrementWithOverFlowCheck (sumCurStreamBufferLen f) length with
  | inl err => inl err
  | inr n => inr (set_flow c (set_sumBuffer f n))
  end.
Definition updateFlowControlOnResetStream (s : Stream) (c : Conn) : Exception + Conn :=
  let f := flowControlState c in
  match decrementWithOverFlowCheck (sumCurStreamBufferLen f) (dataInBuffer s) with
  | inl err => inl err
  | inr n => inr (set_flow c (set_sumBuffer f n))
  end.

Definition maybeWriteBlockAfterAPIWrite (s : Stream) (c : Conn) : Conn :=
  if (getSendStreamFlowControlBytesWire s =? 0) && (zlen (pendingWrites s) =? 0) && (meta_length (writeBufMeta s) =? 0)
  then queueBlocked (id s) (s_peerAdvertisedMaxOffset (flow s)) c else c.

Definition maybeWriteDataBlockedAfterSocketWrite (c : Conn) : Conn :=
  if getSendConnFlowControlBytesWire c =? 0 then set_sendDataBlocked c true else c.

Definition set_pendingBlocked (s : Stream) (b : bool) : Stream :=
  let f := flow s in
  set_sflow s (mkStreamFlow (s_windowSize f) (s_advertisedMaxOffset f) (s_peerAdvertisedMaxOffset f) (s_timeOfLastFlowControlUpdate f) b).

Definition maybeWriteBlockAfterSocketWrite (s : Stream) (c : Conn) : Stream * Conn :=
  if bool_decide (is_Some (streamWriteError s)) then (s, c)
  else if bool_decide (is_Some (finalWriteOffset s)) && hasSentFIN s then (s, c)
  else
    let shouldEmitStreamBlockedFrame :=
      if useNewStreamBlockedCondition (transportSettings c) then getSendStreamFlowControlBytesWire s =? 0
      else (getSendStreamFlowControlBytesWire s =? 0) &&
           (negb (zlen (pendingWrites s) =? 0) || (meta_length (writeBufMeta s) >? 0)) in
    if shouldEmitStreamBlockedFrame && negb (pendingBlockedFrame (flow s)) then
      (set_pendingBlocked s true, queueBlocked (id s) (s_peerAdvertisedMaxOffset (flow s)) c)
    else (s, c).

Definition handleStreamWindowUpdate (s : Stream) (c : Conn) (maximumData : Z) : Stream * Conn :=
  if s_peerAdvertisedMaxOffset (flow s) <=? maximumData then
    let f := flow s in
    let s := set_sflow s (mkStreamFlow (s_windowSize f) (s_advertisedMaxOffset f) maximumData (s_timeOfLastFlowControlUpdate f) false) in
    (s, if maximumData >? u64 (currentWriteOffset s + zlen (pendingWrites s) + meta_length (writeBufMeta s))
        then queueFlowControlUpdated (id s) c else c)
  else (s, c).

Definition handleConnWindowUpdate (c : Conn) (maximumData : Z) : Conn :=
  if peerAdvertisedMaxOffset (flowControlState c) <=? maximumData
  then set_flow c (set_peer (flowControlState c) maximumData) else c.

(** [eof] with a DSR sender, or data behind buffer metas, is fatal. *)
Definition writeDataToQuicStream (s : Stream) (c : Conn) (data : list Z) (eof : bool) : option (Exception + Stream * Conn) :=
  if negb (meta_offset (writeBufMeta s) =? 0) then None
  else if eof && dsrSender s then None
  else
    let len := zlen data in
    let c := if len >? 0 then maybeWriteBlockAfterAPIWrite s c else c in
    let pending := pendingWrites s ++ data in
    let s := set_writes s pending (writeBuffer s ++ data)
               (if eof then Some (u64 (currentWriteOffset s + zlen pending)) else finalWriteOffset s) in
    match updateFlowControlOnWriteToStream len c with
    | inl err => Some (inl err)
    | inr c => Some (inr (s, c))
    end.

Definition writeBufMetaToQuicStream (s : Stream) (c : Conn) (length : Z) (eof : bool) : option (Exception + Stream * Conn) :=
  let c := if length >? 0 then maybeWriteBlockAfterAPIWrite s c else c in
  let realDataLength := u64 (currentWriteOffset s + zlen (pendingWrites s)) in
  if negb (realDataLength >? 0) then None
  else if (meta_offset (writeBufMeta s) =? 0) && bool_decide (is_Some (finalWriteOffset s)) then None
  else
    let m := writeBufMeta s in
    let off := if meta_offset m =? 0 then realDataLength else meta_offset m in
    let len := u64 (meta_length m + length) in
    let s := set_meta s (mkMeta len off (if eof then true else meta_eof m))
               (if eof then Some (u64 (off + len)) else finalWriteOffset s) in
    match updateFlowControlOnWriteToStream length c with
    | inl err => Some (inl err)
    | inr c => Some (inr (s, c))
    end.

(** ** Window updates *)

Definition handleConnBlocked (c : Conn) : Conn := set_connWindowUpdate c true.
Definition handleStreamBlocked (s : Stream) (c : Conn) (now : Z) : option (Stream * Conn) :=
  s ← (if autotuneReceiveStreamFlowControl (transportSettings c)
       then f ← maybeIncreaseStreamFlowControlWindow (flow s) now (srtt c); Some (set_sflow s f)
       else Some s);
  Some (s, queueWindowUpdate (id s) c).

Definition onConnWindowUpdateSent (c : Conn) (maximumDataSent sentTime : Z) : Conn :=
  set_connWindowUpdate (set_flow c (set_advertised (flowControlState c) maximumDataSent (Some sentTime))) false.
Definition onStreamWindowUpdateSent (s : Stream) (c : Conn) (maximumDataSent sentTime : Z) : Stream * Conn :=
  let f := flow s in
  (set_sflow s (mkStreamFlow (s_windowSize f) maximumDataSent (s_peerAdvertisedMaxOffset f) (Some sentTime) (pendingBlockedFrame f)),
   removeWindowUpdate (id s) c).
Definition onConnWindowUpdateLost (c : Conn) : Conn := set_connWindowUpdate c true.
Definition onStreamWindowUpdateLost (s : Stream) (c : Conn) : Conn :=
  if negb (shouldSendFlowControl s) then c else queueWindowUpdate (id s) c.
Definition onBlockedLost := maybeWriteBlockAfterSocketWrite.
Definition onDataBlockedLost := maybeWriteDataBlockedAfterSocketWrite.
Definition updateFlowControlStateWithSettings (f : ConnectionFlowControlState) (ts : TransportSettings) : ConnectionFlowControlState :=
  let w := advertisedInitialConnectionFlowControlWindow ts in
  set_advertised (set_window f w) w (timeOfLastFlowControlUpdate f).

(** The values of the frames [MAX_DATA] and [MAX_STREAM_DATA]. *)
Definition generateMaxDataFrame (c : Conn) : Z :=
  Z.max (u64 (sumCurReadOffset (flowControlState c) + windowSize (flowControlState c))) (advertisedMaxOffset (flowControlState c)).
Definition generateMaxStreamDataFrame (s : Stream) : Z := calculateMaximumData s.


End QuicFlowControl.
