(* ===== verification/QuicReceive.v ===== *)
(** * Receiving on a connection with any peer

    The streams of a connection, what can happen to them, and the account that flow
    control keeps: whatever frames arrive and whatever is read, the connection knows how
    much it has received and how much has been read, never takes more than it has
    advertised, and no check of the code fails. *)

From stdpp Require Import gmap.
From S2P Require Import Prelude QuicStream QuicReassembly QuicFlowControl.

Module QuicReceive.
Import QuicStream QuicReassembly QuicFlowControl.

(** ** Events *)

(** The streams, the connection, and what the application has been given: the stream, the
    data and whether the stream has ended. *)
Record Connection := mkConnection {
  streams : gmap Z Stream;
  conn : Conn;
  given : list (Z * list Z * bool)
}.

Inductive Event :=
| StreamFrame (n : Z) (frame : StreamBuffer)
| RstStreamFrame (n finalOffset errorCode : Z)
| StreamDataBlockedFrame (n : Z)
| DataBlockedFrame
| MaxDataSent
| MaxStreamDataSent (n : Z)
| MaxDataLost
| MaxStreamDataLost (n : Z)
| StopSendingSent (n : Z)
| Read (n amount : Z)
| Consume (n amount : Z).

Definition Result (A : Type) : Type := option (Exception + A).

Definition quiet (r : Result (Stream * Conn)) : Result (list (list Z * bool) * Stream * Conn) :=
  match r with Some (inr (s, c)) => Some (inr ([], s, c)) | Some (inl e) => Some (inl e) | None => None end.

(** What happens on a stream; a stream that is not there is left alone. *)
Definition on (n : Z) (f : Stream -> Conn -> Result (list (list Z * bool) * Stream * Conn)) (k : Connection) : Result Connection :=
  match streams k !! n with
  | None => Some (inr k)
  | Some s =>
      match f s (conn k) with
      | Some (inr (out, s, c)) =>
          Some (inr (mkConnection (<[n := s]> (streams k)) c (given k ++ ((fun '(d, e) => (n, d, e)) <$> out))))
      | Some (inl e) => Some (inl e)
      | None => None
      end
  end.

Definition step (now : Z) (e : Event) (k : Connection) : Result Connection :=
  match e with
  | StreamFrame n frame => on n (fun s c => quiet (receiveReadStreamFrameSMHandler s c frame)) k
  | RstStreamFrame n off err => on n (fun s c => quiet (receiveRstStreamSMHandler s c off err now)) k
  | StreamDataBlockedFrame n => on n (fun s c => quiet (r ← handleStreamBlocked s c now; Some (inr r))) k
  | DataBlockedFrame => Some (inr (mkConnection (streams k) (handleConnBlocked (conn k)) (given k)))
  | MaxDataSent =>
      Some (inr (mkConnection (streams k) (onConnWindowUpdateSent (conn k) (generateMaxDataFrame (conn k)) now) (given k)))
  | MaxStreamDataSent n => on n (fun s c => quiet (Some (inr (onStreamWindowUpdateSent s c (generateMaxStreamDataFrame s) now)))) k
  | MaxDataLost => Some (inr (mkConnection (streams k) (onConnWindowUpdateLost (conn k)) (given k)))
  | MaxStreamDataLost n => on n (fun s c => quiet (Some (inr (s, onStreamWindowUpdateLost s c)))) k
  | StopSendingSent n => on n (fun s c => quiet (Some (inr (processTxStopSending s c)))) k
  | Read n amount =>
      on n (fun s c => r ← readDataFromQuicStream s c amount false now;
                       Some (match r with inl e => inl e | inr (d, e, s, c) => inr ([(d, e)], s, c) end)) k
  | Consume n amount => on n (fun s c => quiet (consumeDataFromQuicStream s c amount now)) k
  end.

(** A history of events, each at its time. *)
Fixpoint run (h : list (Z * Event)) (k : Connection) : Result Connection :=
  match h with
  | [] => Some (inr k)
  | (now, e) :: h =>
      match step now e k with Some (inr k) => run h k | r => r end
  end.

(** What a packet can carry: an offset and a length are 62-bit integers at most. *)
Definition event_ok (e : Event) : Prop :=
  match e with
  | StreamFrame _ frame => 0 <= offset frame /\ stop frame < 2 ^ 63
  | RstStreamFrame _ off _ => 0 <= off < 2 ^ 63
  | Read _ amount | Consume _ amount => 0 <= amount
  | _ => True
  end.

(** The clock moves between events.  A [steady_clock] promises only that it does not go
    back; two events at the same time can fail the check of
    [maybeIncreaseFlowControlWindow] ([same_time_aborts] below). *)
Fixpoint history_ok (t : Z) (h : list (Z * Event)) : Prop :=
  match h with [] => True | (now, e) :: h => t < now /\ event_ok e /\ history_ok now h end.

(** ** The account *)

(** What a stream counts as read: the mark for the end is not a byte. *)
Definition counted (l : StreamLike) : Z := Z.min (currentReadOffset l) (maxOffsetObserved l).

Definition stream_ok (C : Content) (s : Stream) : Prop :=
  let l := like s in
  ready (maxOffsetObserved l) l /\ maxOffsetObserved l < 2 ^ 63 /\
  0 <= maxOffsetObserved l <= s_advertisedMaxOffset (flow s) /\ s_advertisedMaxOffset (flow s) < 2 ^ 64 /\
  match finalReadOffset l with
  | Some f => maxOffsetObserved l = f /\ currentReadOffset l <= f + 1
  | None => currentReadOffset l <= maxOffsetObserved l
  end.

(** No update was sent later than [t]. *)
Definition before (t : Z) (last : option Z) : Prop := match last with Some u => u <= t | None => True end.

Definition sum (f : Stream -> Z) (m : gmap Z Stream) : Z := map_fold (fun _ s acc => f s + acc) 0 m.

Definition connection_ok (C : Z -> Content) (t : Z) (k : Connection) : Prop :=
  let f := flowControlState (conn k) in
  map_Forall (fun n s => id s = n /\ stream_ok (C n) s /\ before t (s_timeOfLastFlowControlUpdate (flow s)) /\
                         isSendingStream (nodeType (conn k)) n = false) (streams k) /\
  sumMaxObservedOffset f = sum (fun s => maxOffsetObserved (like s)) (streams k) /\
  sumCurReadOffset f = sum (fun s => counted (like s)) (streams k) /\
  sumMaxObservedOffset f <= advertisedMaxOffset f < 2 ^ 64 /\
  before t (timeOfLastFlowControlUpdate f).

Lemma sum_insert f (m : gmap Z Stream) n s s' :
  m !! n = Some s -> sum f (<[n := s']> m) = sum f m - f s + f s'.
Proof.
  intros H. unfold sum. rewrite <- insert_delete_eq.
  rewrite map_fold_insert_L by (try apply lookup_delete_eq; intros; lia).
  rewrite (map_fold_delete_L _ _ n s m) by (try done; intros; lia). lia.
Qed.

Lemma sum_le f g (m : gmap Z Stream) n s :
  map_Forall (fun _ s => f s <= g s) m -> m !! n = Some s -> sum f m - f s <= sum g m - g s.
Proof.
  intros Hle H. unfold sum. rewrite !(map_fold_delete_L _ _ n s m) by (try done; intros; lia).
  assert (Hd : map_Forall (fun _ s => f s <= g s) (delete n m)) by by apply map_Forall_delete.
  enough (sum f (delete n m) <= sum g (delete n m)) by (unfold sum in *; lia).
  clear Hle H. revert Hd. generalize (delete n m) as m'. unfold sum.
  induction m' as [|i x m' Hi IH] using map_ind; [done|]. intros [H1 H2]%map_Forall_insert; [|done].
  rewrite !map_fold_insert_L by (done || intros; lia). specialize (IH H2). lia.
Qed.

(** ** What an operation on a stream may change *)

Definition view (c : Conn) : QuicNodeType * Z * Z * Z * option Z :=
  let f := flowControlState c in
  (nodeType c, sumCurReadOffset f, sumMaxObservedOffset f, advertisedMaxOffset f, timeOfLastFlowControlUpdate f).

Lemma view_readable s c : view (updateReadableStreams s c) = view c.
Proof. unfold updateReadableStreams. by repeat case_match. Qed.
Lemma view_peekable s c : view (updatePeekableStreams s c) = view c.
Proof. unfold updatePeekableStreams. by case_match. Qed.
Lemma view_stream_update s c t : view (maybeSendStreamWindowUpdate s c t).2 = view c.
Proof. unfold maybeSendStreamWindowUpdate. by repeat case_match. Qed.
Lemma view_close s c : view (closeRecv s c).2 = view c.
Proof. unfold closeRecv. simpl. by case_match. Qed.

(** A stream with its share of the account. *)
Definition local_ok (C : Content) (t : Z) (s : Stream) (c : Conn) : Prop :=
  let f := flowControlState c in
  stream_ok C s /\ before t (s_timeOfLastFlowControlUpdate (flow s)) /\
  isSendingStream (nodeType c) (id s) = false /\ before t (timeOfLastFlowControlUpdate f) /\
  0 <= sumCurReadOffset f /\
  sumCurReadOffset f + (maxOffsetObserved (like s) - counted (like s)) <= sumMaxObservedOffset f /\
  sumMaxObservedOffset f <= advertisedMaxOffset f < 2 ^ 64.

(** What was received and read on the stream is in the account. *)
Definition accounted (C : Content) (t : Z) (s : Stream) (c : Conn) (s' : Stream) (c' : Conn) : Prop :=
  let f := flowControlState c in
  let f' := flowControlState c' in
  id s' = id s /\ nodeType c' = nodeType c /\ stream_ok C s' /\
  before t (s_timeOfLastFlowControlUpdate (flow s')) /\ before t (timeOfLastFlowControlUpdate f') /\
  sumMaxObservedOffset f' = sumMaxObservedOffset f + maxOffsetObserved (like s') - maxOffsetObserved (like s) /\
  sumCurReadOffset f' = sumCurReadOffset f + counted (like s') - counted (like s) /\
  sumMaxObservedOffset f' <= advertisedMaxOffset f' < 2 ^ 64.

(** ** Flow control on data that arrives *)

(** The offsets of the frame go beyond what has been advertised. *)
Definition exceeds (s : Stream) (c : Conn) (fin : Z) : Prop :=
  let f := flowControlState c in
  s_advertisedMaxOffset (flow s) < fin \/
  advertisedMaxOffset f < sumMaxObservedOffset f + (Z.max (maxOffsetObserved (like s)) fin - maxOffsetObserved (like s)).

Lemma stream_data_ok C t s c fin :
  local_ok C t s c -> 0 <= fin < 2 ^ 63 ->
  match updateFlowControlOnStreamData s (maxOffsetObserved (like s)) fin c with
  | inl e => exceeds s c fin /\ (e = FLOW_CONTROL_ERROR \/ e = INTERNAL_ERROR_)
  | inr c' => ~ exceeds s c fin /\
      c' = set_flow c (set_sumMax (flowControlState c)
             (sumMaxObservedOffset (flowControlState c) + (Z.max (maxOffsetObserved (like s)) fin - maxOffsetObserved (like s))))
  end.
Proof.
  intros (Hs & _ & _ & _ & H0 & H1 & H2) Hf. destruct Hs as (_ & Hm & Ha & _).
  unfold updateFlowControlOnStreamData, incrementWithOverFlowCheck, exceeds.
  assert (0 <= sumMaxObservedOffset (flowControlState c)) by (unfold counted in *; lia).
  set (d := Z.max (maxOffsetObserved (like s)) fin - maxOffsetObserved (like s)) in *.
  assert (Hd : 0 <= d < 2 ^ 63) by lia. rewrite (u64_id d) by ilia.
  destruct (Z.ltb_spec (s_advertisedMaxOffset (flow s)) fin); [by split; [left|left]|].
  destruct (Z.gtb_spec (sumMaxObservedOffset (flowControlState c)) (UINT64_MAX - d)).
  { split; [right; ilia|by right]. }
  rewrite (u64_id (_ + d)) by ilia.
  destruct (Z.gtb_spec (sumMaxObservedOffset (flowControlState c) + d) (advertisedMaxOffset (flowControlState c))).
  - split; [right; lia|by left].
  - split; [|done]. lia.
Qed.

Lemma conn_update_ok c t now :
  before t (timeOfLastFlowControlUpdate (flowControlState c)) -> t < now ->
  exists b c', maybeSendConnWindowUpdate c now = Some (b, c') /\ view c' = view c.
Proof.
  intros Hb Ht. unfold maybeSendConnWindowUpdate. destruct (connWindowUpdate c); [by eauto|].
  destruct (calculateNewWindowUpdate _ _ _ _ _ _ _); [|by eauto].
  unfold maybeIncreaseConnectionFlowControlWindow, maybeIncreaseFlowControlWindow. simpl.
  destruct (autotuneReceiveConnFlowControl _); simpl; [|by eauto].
  destruct (timeOfLastFlowControlUpdate (flowControlState c)) as [u|] eqn:E; simpl in *.
  - destruct (srtt c =? 0); simpl; [eexists _, _; split; [done|]; unfold view; simpl; by rewrite E|].
    destruct (Z.gtb_spec now u); [|lia]. simpl. eexists _, _. split; [done|]. unfold view. simpl. by rewrite E.
  - eexists _, _. split; [done|]. unfold view. simpl. by rewrite E.
Qed.

Lemma read_update_ok s c last t now :
  before t (timeOfLastFlowControlUpdate (flowControlState c)) -> t < now ->
  0 <= last <= currentReadOffset (like s) -> 0 <= sumCurReadOffset (flowControlState c) ->
  sumCurReadOffset (flowControlState c) + (currentReadOffset (like s) - last) < 2 ^ 64 ->
  exists c', updateFlowControlOnRead s last now c = Some (inr c') /\
    view c' = view (set_flow c (set_sumRead (flowControlState c)
                (sumCurReadOffset (flowControlState c) + (currentReadOffset (like s) - last)))).
Proof.
  intros Hb Ht Hl H0 Hs. unfold updateFlowControlOnRead, incrementWithOverFlowCheck.
  rewrite (u64_id (_ - last)) by ilia. zcases; [ilia|]. rewrite u64_id by ilia.
  set (c1 := set_flow _ _). destruct (conn_update_ok c1 t now) as (b & c' & -> & Hv); [done..|]. simpl.
  pose proof (view_stream_update s c' now) as Hw. destruct (maybeSendStreamWindowUpdate s c' now) as [b2 c2].
  exists c2. simpl in Hw. by rewrite Hw, Hv.
Qed.


(** ** A frame *)

(** The frame agrees with what is known of the end of the stream. *)
Definition consistent (l : StreamLike) (b : StreamBuffer) : Prop :=
  match finalReadOffset l with
  | Some f => stop b <= f /\ (eof b = true -> stop b = f)
  | None => eof b = true -> maxOffsetObserved l <= stop b
  end.

(** The buffer [b] has been taken in. *)
Definition arrived (l : StreamLike) (b : StreamBuffer) (l' : StreamLike) : Prop :=
  currentReadOffset l' = currentReadOffset l /\
  maxOffsetObserved l' = Z.max (maxOffsetObserved l) (stop b) /\
  finalReadOffset l' = (if eof b then Some (stop b) else finalReadOffset l) /\
  (forall p, currentReadOffset l <= p -> covered (readBuffer l') p <-> covered (readBuffer l) p \/ covers b p).

Lemma final_size_ok C s b :
  stream_ok C s -> endOf b = stop b ->
  match checkFinalSize (like s) b with
  | inl e => e = FINAL_SIZE_ERROR /\ ~ consistent (like s) b
  | inr l => l = (if eof b then set_final (like s) (Some (stop b)) else like s) /\ consistent (like s) b
  end.
Proof.
  intros (_ & _ & _ & Hf) Hb. unfold checkFinalSize, consistent. rewrite Hb.
  destruct (finalReadOffset (like s)) as [f|], (eof b); zcases; (split; [done|]); try done;
    try (intros [? E]; specialize (E eq_refl); lia); try (intros E; specialize (E eq_refl)); try lia.
  all: split; [lia|]; intros; try done; lia.
Qed.

Lemma segment_weaken C M M' b : M <= M' -> segment (C := C) M b -> segment (C := C) M' b.
Proof. intros H (H1 & H2 & H3 & H4). split_and!; (done || lia). Qed.

Lemma store_arrived C s b :
  stream_ok C s -> 0 <= offset b -> stop b < 2 ^ 63 -> holds (offset b) (data b) ->
  let l1 := if eof b then set_final (like s) (Some (stop b)) else like s in
  exists l', storeBuffer (set_max l1 (Z.max (maxOffsetObserved (like s)) (stop b))) b = Some l' /\
    arrived (like s) b l' /\ ready (C := C) (maxOffsetObserved l') l'.
Proof.
  intros ((R1 & R2 & R3) & Hm & Ha & Ha' & Hf) Ho Hs Hh l1. set (M := Z.max _ _).
  destruct (store_ok (C := C) M ltac:(unfold M; lia) (set_max l1 M) b) as (l & -> & L1 & L2); [|done|unfold M; lia|done|].
  - unfold l1. split_and!; [by destruct (eof b)| |by destruct (eof b)].
    apply (Forall_impl (segment (C := C) (maxOffsetObserved (like s)))); [by destruct (eof b)|].
    intros x. apply segment_weaken. unfold M. lia.
  - exists (set_buffer (set_max l1 M) l). split; [done|]. split; [|done].
    unfold l1, arrived in *. destruct (eof b); split_and!; done.
Qed.

(** A stream that has taken a consistent frame within its limits is in order. *)
Lemma arrived_ok C s b l' :
  stream_ok C s -> consistent (like s) b -> 0 <= stop b < 2 ^ 63 -> stop b <= s_advertisedMaxOffset (flow s) ->
  arrived (like s) b l' -> ready (C := C) (maxOffsetObserved l') l' ->
  stream_ok C (set_like s l') /\ counted l' = counted (like s).
Proof.
  intros (_ & Hm & Ha & Ha' & Hf) Hc Hs Hadv (A1 & A2 & A3 & _) Hr. unfold consistent in Hc.
  assert (Hcro : 0 <= currentReadOffset l') by apply Hr. unfold stream_ok, counted. simpl. rewrite A1, A2, A3 in *.
  destruct (eof b), (finalReadOffset (like s)) as [f|]; try specialize (proj2 Hc eq_refl) as Hc';
    try specialize (Hc eq_refl); split_and!; (done || lia).
Qed.

Lemma append_ok C t s c b :
  local_ok C t s c -> 0 <= offset b -> stop b < 2 ^ 63 -> holds (offset b) (data b) ->
  match appendDataToReadBuffer s c b with
  | Some (inr (s', c')) =>
      accounted C t s c s' c' /\ s' = set_like s (like s') /\
      (data b = [] /\ eof b = false /\ like s' = like s \/
       consistent (like s) b /\ ~ exceeds s c (stop b) /\ arrived (like s) b (like s'))
  | Some (inl e) => e = FINAL_SIZE_ERROR /\ ~ consistent (like s) b \/
      exceeds s c (stop b) /\ (e = FLOW_CONTROL_ERROR \/ e = INTERNAL_ERROR_)
  | None => False
  end.
Proof.
  intros Hl Ho Hs Hh. pose proof Hl as (Hst & Htm & Hns & Htc & H0 & H1 & H2).
  pose proof Hst as (Hr & Hm & Ha & Ha' & Hfin).
  assert (He : endOf b = stop b) by (apply u64_id; unfold stop, zlen in *; ilia).
  assert (Hsb : 0 <= stop b) by (unfold stop, zlen in *; lia).
  unfold appendDataToReadBuffer, appendDataToReadBufferCommon. rewrite He.
  destruct (negb (eof b) && (zlen (data b) =? 0)) eqn:Ee; simpl.
  { apply andb_true_iff in Ee as [Ee1%negb_true_iff Ee2%Z.eqb_eq].
    split_and!; [|by destruct s|left; split_and!; [by apply nil_length_inv; unfold zlen in *; lia|done..]].
    unfold accounted. simpl. split_and!; (done || lia). }
  pose proof (final_size_ok C s b Hst He) as Hfs. destruct (checkFinalSize (like s) b) as [e|l]; simpl; [by left|].
  destruct Hfs as [-> Hcons]. set (l1 := if eof b then _ else _).
  assert (maxOffsetObserved l1 = maxOffsetObserved (like s)) as -> by (unfold l1; by destruct (eof b)).
  pose proof (stream_data_ok C t s c (stop b) Hl ltac:(lia)) as Hd.
  destruct (updateFlowControlOnStreamData _ _ _ _) as [e|c1]; simpl; [by right|]. destruct Hd as [Hex ->].
  unfold l1. destruct (store_arrived C s b Hst Ho Hs Hh) as (l' & -> & Harr & Hrdy). simpl.
  pose proof Hex as Hex'. unfold exceeds in Hex'.
  destruct (arrived_ok C s b l') as [Hok Hcnt]; [done|done|lia|lia|done..|].
  split_and!; [|done|by right]. unfold accounted. simpl. destruct Harr as (A1 & A2 & A3 & A4).
  rewrite Hcnt, A2. split_and!; (done || lia).
Qed.


Lemma accounted_view C t s c s1 c1 s' c' :
  accounted C t s c s1 c1 -> like s' = like s1 -> flow s' = flow s1 -> id s' = id s1 -> view c' = view c1 ->
  accounted C t s c s' c'.
Proof.
  unfold accounted, stream_ok, view. intros H -> -> -> [= -> -> -> -> ->]. done.
Qed.

Lemma accounted_refl C t s c : local_ok C t s c -> accounted C t s c s c.
Proof. intros (H1 & H2 & H3 & H4 & H5 & H6 & H7). unfold accounted. split_and!; (done || lia). Qed.

(** What a frame does to the receiving side. *)
Lemma frame_ok C t s c b :
  local_ok C t s c -> 0 <= offset b -> stop b < 2 ^ 63 -> holds (offset b) (data b) ->
  match receiveReadStreamFrameSMHandler s c b with
  | Some (inr (s', c')) =>
      accounted C t s c s' c' /\
      (recvState s = RecvClosed /\ s' = s \/ recvState s = RecvOpen /\
       recvState s' = (if isAllDataReceived (like s') then RecvClosed else RecvOpen) /\
       (data b = [] /\ eof b = false /\ like s' = like s \/
        consistent (like s) b /\ ~ exceeds s c (stop b) /\ arrived (like s) b (like s')))
  | Some (inl e) => recvState s = RecvInvalid \/ e = FINAL_SIZE_ERROR /\ ~ consistent (like s) b \/
      exceeds s c (stop b) /\ (e = FLOW_CONTROL_ERROR \/ e = INTERNAL_ERROR_)
  | None => False
  end.
Proof.
  intros Hl Ho Hs Hh. unfold receiveReadStreamFrameSMHandler. destruct (recvState s) eqn:Er; [|..|by left].
  - pose proof (append_ok C t s c b Hl Ho Hs Hh) as H. destruct (appendDataToReadBuffer s c b) as [[e|[s1 c1]]|]; [|..|done].
    { by right. }
    destruct H as (H1 & H2 & H3). simpl. pose proof (view_close s1 c1) as Hv.
    destruct (isAllDataReceived (like s1)) eqn:Ea; simpl.
    + split; [|right; simpl; by rewrite Ea].
      eapply accounted_view; [done..|]. by rewrite view_peekable, view_readable.
    + split; [|right; rewrite Ea; split_and!; [done| |done]].
      * eapply accounted_view; [done..|]. by rewrite view_peekable, view_readable.
      * by rewrite H2.
  - pose proof Hl as (_ & _ & -> & _). split; [by apply accounted_refl|by left].
Qed.

(** ** Reading *)

(** A deque whose segments are to be behind their end is empty. *)
Lemma nothing_left C M lo l : Forall (segment (C := C) M) l -> apart lo l -> M <= lo + 1 -> l = [].
Proof.
  destruct l as [|b l]; [done|]. intros [Hb _]%Forall_cons (Ha & _) HM. apply segment_stop in Hb. lia.
Qed.

Lemma max_passEnd l : maxOffsetObserved (passEnd l) = maxOffsetObserved l.
Proof. unfold passEnd. by case_match. Qed.

(** Telling the end moves the read offset past it, and counts nothing. *)
Lemma passEnd_ok C s l :
  stream_ok C s -> ready (C := C) (maxOffsetObserved l) l -> maxOffsetObserved l = maxOffsetObserved (like s) ->
  finalReadOffset l = finalReadOffset (like s) ->
  match finalReadOffset l with Some f => currentReadOffset l <= f + 1 | None => currentReadOffset l <= maxOffsetObserved l end ->
  stream_ok C (set_like s (passEnd l)) /\ counted (passEnd l) = counted l.
Proof.
  intros (_ & Hm & Ha & Ha' & Hf) (R1 & R2 & R3) Em Ef Hc. unfold stream_ok, passEnd, reachedEnd, counted. simpl.
  rewrite <- Em, <- Ef in *. destruct (finalReadOffset l) as [f|] eqn:El; simpl.
  - destruct (Z.eqb_spec (currentReadOffset l) f) as [E|E]; simpl; rewrite El; [|split_and!; (done || lia)].
    rewrite u64_id by ilia. split; [|lia]. split_and!; try (done || lia).
    assert (E' : readBuffer l = []) by (eapply (nothing_left C); [done..|lia]). unfold ready. simpl. rewrite E'. split_and!; (done || lia).
  - rewrite El. split_and!; (done || lia).
Qed.

Lemma quic_read_ok C t s c amount sink now :
  local_ok C t s c -> t < now -> 0 <= amount ->
  match readDataFromQuicStream s c amount sink now with
  | Some (inr (out, e, s', c')) =>
      accounted C t s c s' c' /\
      exists d l, out = (if sink then [] else d) /\ s' = set_like s (passEnd l) /\
        (if atEnd (like s) then d = [] /\ l = like s /\ e = true
         else reads (C := C) (maxOffsetObserved (like s)) (like s) amount d l /\ e = reachedEnd l)
  | _ => False
  end.
Proof.
  intros Hl Ht Hn. pose proof Hl as (Hst & Htm & Hns & Htc & H0 & H1 & H2).
  pose proof Hst as ((R1 & R2 & R3) & Hm & Ha & Ha' & Hfin).
  unfold readDataFromQuicStream. destruct (atEnd (like s)) eqn:Eend.
  { split; [|exists [], (like s); by destruct sink].
    destruct (passEnd_ok C s (like s)) as [P1 P2]; [done..| |].
    { destruct (finalReadOffset (like s)); [by destruct Hfin|done]. }
    eapply (accounted_view C t s c _ c); [|done..|by rewrite view_peekable, view_readable].
    unfold accounted. simpl. rewrite P2, max_passEnd. split_and!; (done || lia). }
  destruct (read_ok (C := C) (maxOffsetObserved (like s)) ltac:(lia) (like s) amount sink) as (d & e & l & -> & Hr); [done..|].
  simpl. pose proof Hr as (A1 & A2 & A3 & A4 & A5 & A6 & _).
  assert (Hcro : currentReadOffset l <= maxOffsetObserved (like s)).
  { destruct A4 as [->|[_ ?]]; [|done]. change (zlen []) with 0 in A1. unfold atEnd in Eend.
    destruct (finalReadOffset (like s)) as [f|]; [|lia]. destruct (Z.geb_spec (currentReadOffset (like s)) f); [done|lia]. }
  assert (Hnn : 0 <= zlen d) by (unfold zlen; lia).
  destruct (read_update_ok (set_like s l) c (currentReadOffset (like s)) t now) as (c1 & Hu & Hv);
    simpl; [done|done|lia|lia|unfold counted in *; lia|].
  rewrite Hu. simpl in *. split; [|exists d, l; done].
  destruct (passEnd_ok C s l) as [P1 P2]; rewrite ?A2, ?A3; try done.
  { split_and!; (done || lia). }
  { destruct (finalReadOffset (like s)) as [f|]; lia. }
  eapply (accounted_view C t s c (set_like s (passEnd l)) (set_flow c (set_sumRead (flowControlState c) _)));
    [|done..|rewrite view_peekable, view_readable; exact Hv].
  unfold accounted. simpl. rewrite P2, max_passEnd. unfold counted in *. rewrite A2. split_and!; (done || lia).
Qed.
(** ** The other events of a stream *)

Lemma reset_ok C t s c off err now :
  local_ok C t s c -> 0 <= off < 2 ^ 63 -> t < now ->
  match onResetQuicStream s c off err now with
  | Some (inr (s', c')) => accounted C t s c s' c'
  | Some (inl _) => True
  | None => False
  end.
Proof.
  intros Hl Ho Ht. pose proof Hl as (Hst & Htm & Hns & Htc & H0 & H1 & H2).
  pose proof Hst as ((R1 & R2 & R3) & Hm & Ha & Ha' & Hfin). unfold onResetQuicStream.
  destruct (match finalReadOffset (like s) with Some f => _ | None => _ end) eqn:Ef; [done|].
  destruct (Z.gtb_spec (maxOffsetObserved (like s)) off); [done|].
  pose proof (stream_data_ok C t s c off Hl Ho) as Hd.
  destruct (updateFlowControlOnStreamData _ _ _ _) as [e|c1]; [done|]. destruct Hd as [Hex ->]. unfold exceeds in Hex. simpl.
  assert (Hf : forall f, finalReadOffset (like s) = Some f -> f = off).
  { intros f Hf. rewrite Hf in Ef. destruct (Z.eqb_spec f off); [done|discriminate]. }
  destruct (Z.gtb_spec (currentReadOffset (like s)) off); simpl.
  - eapply accounted_view; [|done..|by rewrite view_readable].
    destruct (finalReadOffset (like s)) as [f|]; [|lia]. specialize (Hf f eq_refl) as ->.
    unfold accounted, stream_ok, ready, counted in *. simpl. split_and!; (done || lia).
  - assert (counted (like s) = currentReadOffset (like s)) as Hc.
    { unfold counted. destruct (finalReadOffset (like s)) as [f|]; [specialize (Hf f eq_refl)|]; lia. }
    match goal with |- context [updateFlowControlOnRead ?s' _ _ ?c'] =>
      destruct (read_update_ok s' c' (currentReadOffset (like s)) t now) as (c2 & -> & Hv) end; simpl; [done|done|lia|done|lia|].
    eapply accounted_view; [|done..|rewrite view_readable; exact Hv].
    unfold accounted, stream_ok, ready, counted in *. simpl. split_and!; (done || lia).
Qed.

Lemma rst_ok C t s c off err now :
  local_ok C t s c -> 0 <= off < 2 ^ 63 -> t < now ->
  match receiveRstStreamSMHandler s c off err now with
  | Some (inr (s', c')) => accounted C t s c s' c'
  | Some (inl _) => True
  | None => False
  end.
Proof.
  intros Hl Ho Ht. unfold receiveRstStreamSMHandler. destruct (recvState s); [|by apply reset_ok|done].
  pose proof (view_close s c) as Hv. assert (Hs : (closeRecv s c).1 = set_recvState s RecvClosed) by done.
  destruct (closeRecv s c) as [s1 c1]. simpl in Hv, Hs. subst s1.
  assert (Hl1 : local_ok C t (set_recvState s RecvClosed) c1).
  { unfold local_ok, stream_ok, view in *. simpl. injection Hv as -> -> -> -> ->. done. }
  pose proof (reset_ok C t _ c1 off err now Hl1 Ho Ht) as H. destruct (onResetQuicStream _ _ _ _ _) as [[?|[s' c']]|]; [done| |done].
  unfold accounted, view in *. simpl in H. injection Hv as E1 E2 E3 E4 E5. by rewrite <- E1, <- E2, <- E3.
Qed.

Lemma blocked_ok C t s c now :
  local_ok C t s c -> t < now ->
  exists s' c', handleStreamBlocked s c now = Some (s', c') /\ accounted C t s c s' c' /\ like s' = like s.
Proof.
  intros Hl Ht. pose proof Hl as (_ & Hb & _). pose proof (accounted_refl _ _ _ _ Hl) as Hr. unfold handleStreamBlocked.
  destruct (autotuneReceiveStreamFlowControl (transportSettings c)); simpl; [|by eauto].
  unfold maybeIncreaseStreamFlowControlWindow, maybeIncreaseFlowControlWindow.
  destruct (s_timeOfLastFlowControlUpdate (flow s)) as [u|] eqn:E; simpl in *.
  - destruct (srtt c =? 0); simpl; [|destruct (Z.gtb_spec now u); [|lia]; simpl];
      (eexists _, _; split; [done|split; [|done]]; unfold accounted, stream_ok in *; simpl; by rewrite E in Hr).
  - eexists _, _; split; [done|split; [|done]]. unfold accounted, stream_ok in *. simpl. by rewrite E in Hr.
Qed.

(** Sending a window update only raises the limit. *)
Lemma update_sent_ok C t s c now :
  local_ok C t s c -> t < now ->
  let '(s', c') := onStreamWindowUpdateSent s c (generateMaxStreamDataFrame s) now in
  accounted C now s c s' c' /\ like s' = like s.
Proof.
  intros (Hst & Htm & Hns & Htc & H0 & H1 & H2) Ht. simpl. destruct Hst as (Hr & Hm & Ha & Ha' & Hf).
  pose proof (u64_range (currentReadOffset (like s) + s_windowSize (flow s))) as Hu. split; [|done].
  unfold accounted, stream_ok, generateMaxStreamDataFrame, calculateMaximumData. simpl. unfold is_u64 in Hu.
  split_and!; try (done || lia). unfold before in *. case_match; [lia|done].
Qed.

Lemma stop_sending_ok C t s c :
  local_ok C t s c ->
  let '(s', c') := processTxStopSending s c in accounted C t s c s' c'.
Proof.
  intros Hl. pose proof (accounted_refl _ _ _ _ Hl) as Hr. destruct Hl as ((Hrdy & _) & _).
  apply (accounted_view C t s c (set_like s (set_buffer (like s) [])) c); [|done..|simpl; by case_match].
  destruct Hr as (? & ? & (_ & ? & ? & ? & ?) & ? & ? & ? & ? & ?). destruct Hrdy as (? & _).
  unfold accounted, stream_ok, ready, counted in *. simpl. split_and!; (done || lia).
Qed.


(** ** The connection *)

Lemma sum_nonneg f (m : gmap Z Stream) : map_Forall (fun _ s => 0 <= f s) m -> 0 <= sum f m.
Proof.
  unfold sum. induction m as [|i x m Hi IH] using map_ind; [done|]. intros [H1 H2]%map_Forall_insert; [|done].
  rewrite map_fold_insert_L by (done || intros; lia). specialize (IH H2). lia.
Qed.

Lemma counted_range C s : stream_ok C s -> 0 <= counted (like s) <= maxOffsetObserved (like s).
Proof. intros ((H1 & _) & _ & H2 & _). unfold counted. lia. Qed.

Lemma before_later t t' last : t <= t' -> before t last -> before t' last.
Proof. destruct last; simpl; [lia|done]. Qed.

(** A stream's share. *)
Lemma local_of C t k n s :
  connection_ok C t k -> streams k !! n = Some s -> local_ok (C n) t s (conn k) /\ id s = n.
Proof.
  intros (H1 & H2 & H3 & H4 & H5) Hs. destruct (H1 n s Hs) as (H6 & H7 & H8 & H9). split; [|done].
  assert (Hle : map_Forall (fun _ s => counted (like s) <= maxOffsetObserved (like s)) (streams k)).
  { intros m x Hx. destruct (H1 m x Hx) as (_ & Hx' & _). by apply counted_range in Hx' as []. }
  assert (Hnn : map_Forall (fun _ s => 0 <= counted (like s)) (streams k)).
  { intros m x Hx. destruct (H1 m x Hx) as (_ & Hx' & _). by apply counted_range in Hx' as []. }
  pose proof (sum_le _ _ _ n s Hle Hs) as Hsum. apply sum_nonneg in Hnn. unfold local_ok. rewrite H6. simpl in *.
  split_and!; try done; lia.
Qed.

Lemma connection_on C t t' k n s s' c' g :
  connection_ok C t k -> streams k !! n = Some s -> t <= t' -> accounted (C n) t' s (conn k) s' c' ->
  connection_ok C t' (mkConnection (<[n := s']> (streams k)) c' g).
Proof.
  intros (H1 & H2 & H3 & H4 & H5) Hs Ht (A1 & A2 & A3 & A4 & A5 & A6 & A7 & A8).
  unfold connection_ok. cbn [streams conn]. rewrite !(sum_insert _ _ n s) by done.
  split_and!; [|lia|lia|lia|lia|done]. intros m x Hx.
  apply lookup_insert_Some in Hx as [[<- <-]|[Hm Hx]].
  - destruct (H1 n s Hs) as (E & _ & _ & E'). rewrite A2. by rewrite <- E at 1.
  - destruct (H1 m x Hx) as (? & ? & ? & ?). rewrite A2. split_and!; try done. by eapply before_later.
Qed.

(** What the peer's frames hold. *)
Definition content_ok (C : Z -> Content) (e : Event) : Prop :=
  match e with StreamFrame n b => holds (Content := C n) (offset b) (data b) | _ => True end.

Definition safe (P : Connection -> Prop) (r : Result Connection) : Prop :=
  match r with None => False | Some (inl _) => True | Some (inr k) => P k end.

Lemma connection_later C t t' k c' g :
  connection_ok C t k -> t <= t' -> view c' = view (conn k) -> connection_ok C t' (mkConnection (streams k) c' g).
Proof.
  intros (H1 & H2 & H3 & H4 & H5) Ht Hv. unfold connection_ok, view in *. simpl. injection Hv as -> -> -> -> ->.
  split_and!; try (done || lia); [|by eapply before_later].
  intros m x Hx. destruct (H1 m x Hx) as (? & ? & ? & ?). split_and!; try done. by eapply before_later.
Qed.

Lemma on_ok C t t' n f k :
  connection_ok C t k -> t <= t' ->
  (forall s, streams k !! n = Some s -> local_ok (C n) t s (conn k) ->
     match f s (conn k) with
     | None => False
     | Some (inl _) => True
     | Some (inr (_, s', c')) => accounted (C n) t' s (conn k) s' c'
     end) ->
  safe (connection_ok C t') (on n f k).
Proof.
  intros Hk Ht Hf. unfold on. destruct (streams k !! n) as [s|] eqn:Hs.
  - destruct (local_of C t k n s Hk Hs) as [Hl _]. specialize (Hf s eq_refl Hl).
    destruct (f s (conn k)) as [[?|[[out s'] c']]|]; [done| |done]. by eapply connection_on.
  - pose proof (connection_later C t t' k (conn k) (given k) Hk Ht eq_refl) as H. by destruct k.
Qed.

Lemma accounted_later C t t' s c s' c' : t <= t' -> accounted C t s c s' c' -> accounted C t' s c s' c'.
Proof.
  intros Ht (A1 & A2 & A3 & A4 & A5 & A6 & A7 & A8). unfold accounted. split_and!; try done; try lia; by eapply before_later.
Qed.


Lemma step_ok C t now e k :
  connection_ok C t k -> t < now -> event_ok e -> content_ok C e -> safe (connection_ok C now) (step now e k).
Proof.
  intros Hk Ht He Hc. destruct e; simpl in He, Hc |- *.
  all: try (apply (on_ok C t now); [done|lia|]; intros s Hs Hl).
  - pose proof (frame_ok (C n) t s (conn k) frame Hl (proj1 He) (proj2 He) Hc) as H.
    destruct (receiveReadStreamFrameSMHandler _ _ _) as [[?|[s' c']]|]; [done| |done].
    eapply accounted_later; [|apply H]. lia.
  - pose proof (rst_ok (C n) t s (conn k) finalOffset errorCode now Hl He Ht) as H.
    destruct (receiveRstStreamSMHandler _ _ _ _ _) as [[?|[s' c']]|]; [done| |done].
    eapply accounted_later; [|done]. lia.
  - destruct (blocked_ok (C n) t s (conn k) now Hl Ht) as (s' & c' & -> & H & _). simpl.
    eapply accounted_later; [|done]. lia.
  - apply (connection_later C t); [done|lia|done].
  - destruct Hk as (H1 & H2 & H3 & H4 & H5).
    pose proof (u64_range (sumCurReadOffset (flowControlState (conn k)) + windowSize (flowControlState (conn k)))) as Hu.
    unfold is_u64 in Hu. unfold connection_ok, onConnWindowUpdateSent, generateMaxDataFrame. simpl.
    split_and!; try (done || lia).
    intros m x Hx. destruct (H1 m x Hx) as (? & ? & ? & ?). split_and!; try done. eapply before_later; [|done]. lia.
  - pose proof (update_sent_ok (C n) t s (conn k) now Hl Ht) as H. simpl in H |- *. apply H.
  - apply (connection_later C t); [done|lia|done].
  - simpl. eapply accounted_later; [|eapply (accounted_view _ t); [by apply accounted_refl|done..|]]; [lia|].
    unfold onStreamWindowUpdateLost. by case_match.
  - pose proof (stop_sending_ok (C n) t s (conn k) Hl) as H. simpl in H |- *. eapply accounted_later; [|done]. lia.
  - pose proof (quic_read_ok (C n) t s (conn k) amount false now Hl Ht He) as H.
    destruct (readDataFromQuicStream _ _ _ _ _) as [[?|[[[d e] s'] c']]|]; [done| |done]. simpl.
    eapply accounted_later; [|apply H]. lia.
  - pose proof (quic_read_ok (C n) t s (conn k) amount true now Hl Ht He) as H. unfold consumeDataFromQuicStream.
    destruct (readDataFromQuicStream _ _ _ _ _) as [[?|[[[d e] s'] c']]|]; [done| |done]. simpl.
    eapply accounted_later; [|apply H]. lia.
Qed.

(** ** The start *)

(** Streams and a connection on which nothing has happened. *)
Definition fresh_stream (node : QuicNodeType) (n : Z) (s : Stream) : Prop :=
  id s = n /\ like s = emptyLike /\ recvState s = RecvOpen /\ 0 <= s_advertisedMaxOffset (flow s) < 2 ^ 64 /\
  s_timeOfLastFlowControlUpdate (flow s) = None /\ isSendingStream node n = false.
Definition fresh (k : Connection) : Prop :=
  let f := flowControlState (conn k) in
  map_Forall (fresh_stream (nodeType (conn k))) (streams k) /\ given k = [] /\
  sumMaxObservedOffset f = 0 /\ sumCurReadOffset f = 0 /\ 0 <= advertisedMaxOffset f < 2 ^ 64 /\
  timeOfLastFlowControlUpdate f = None.

Lemma sum_zero f (m : gmap Z Stream) : map_Forall (fun _ s => f s = 0) m -> sum f m = 0.
Proof.
  unfold sum. induction m as [|i x m Hi IH] using map_ind; [done|]. intros [H1 H2]%map_Forall_insert; [|done].
  rewrite map_fold_insert_L by (done || intros; lia). specialize (IH H2). lia.
Qed.

Lemma fresh_ok C t k : fresh k -> connection_ok C t k.
Proof.
  intros (H1 & _ & H3 & H4 & H5 & H6). unfold connection_ok. rewrite H6.
  assert (Hz : forall f, f emptyLike = 0 -> sum (fun s => f (like s)) (streams k) = 0).
  { intros f Hf. apply sum_zero. intros n s Hs. by destruct (H1 n s Hs) as (_ & -> & _). }
  split_and!; [|rewrite Hz; done|rewrite Hz; done|lia|lia|done].
  intros n s Hs. destruct (H1 n s Hs) as (E1 & E2 & E3 & E4 & E5 & E6). unfold stream_ok, ready. rewrite E2, E5. simpl.
  split_and!; (done || lia || by constructor).
Qed.

(** A client with two streams of the server. *)
Definition exampleStream (n : Z) : Stream :=
  mkStream n emptyLike (mkStreamFlow 100 100 0 None false) SendOpen RecvOpen None None [] [] 0 None (mkMeta 0 0 false) false.
Definition exampleConn : Conn :=
  mkConn Client (mkConnFlow 150 150 0 0 0 0 0 None) false false 1000
    (mkSettings 2 2 true true false false true 150) ∅ ∅ ∅ ∅ ∅ ∅ ∅.
Definition exampleConnection : Connection :=
  mkConnection (<[3 := exampleStream 3]> (<[0 := exampleStream 0]> ∅)) exampleConn [].

Lemma example_fresh : fresh exampleConnection.
Proof.
  split_and!; try (done || lia || reflexivity).
  intros n s Hs. unfold exampleConnection in Hs. simpl in Hs.
  apply lookup_insert_Some in Hs as [[<- <-]|[_ Hs]]; [by vm_compute|].
  apply lookup_insert_Some in Hs as [[<- <-]|[_ Hs]]; [by vm_compute|by rewrite lookup_empty in Hs].
Qed.

(** ** Results *)

(** C10. Whatever frames a peer sends — in any order, overlapping, contradicting each other
    — and whatever is read, discarded, reset or advertised in between, on any number of
    streams: no check of the code fails, and while the connection lives its flow control
    account is exact.  What it counts as received is the sum of the largest offsets of the
    streams and never more than it has advertised; what it counts as read is the sum of
    what was read; on each stream the data that waits is in order, without overlap, between
    the read offset and the largest offset, and the latter within the stream's limit.  The
    times of the events strictly increase, without which a check can fail
    ([same_time_aborts]). *)
Theorem quic_receive_account t h k :
  connection_ok (fun _ => anything) t k -> history_ok t h ->
  match run h k with
  | Some (inr k') => exists t', connection_ok (fun _ => anything) t' k'
  | Some (inl _) => True
  | None => False
  end.
Proof.
  revert t k. induction h as [|[now e] h IH]; intros t k Hk Hh; simpl; [by eauto|].
  destruct Hh as (Ht & He & Hh). pose proof (step_ok _ t now e k Hk Ht He) as Hs.
  destruct (step now e k) as [[err|k']|]; [done| |by apply Hs; destruct e].
  apply (IH now); [|done]. apply Hs. by destruct e.
Qed.

(** Two events at the same time: the update of a stream's limit is sent, and the peer's
    STREAM_DATA_BLOCKED is handled before the clock has moved.  [CHECK(updateTime >
    *timeOfLastFlowControlUpdate)] ends the process. *)
Lemma same_time_aborts :
  run [(1, StreamDataBlockedFrame 0); (2, MaxStreamDataSent 0); (2, StreamDataBlockedFrame 0)] exampleConnection = None /\
  run [(1, StreamDataBlockedFrame 0); (2, MaxStreamDataSent 0); (3, StreamDataBlockedFrame 0)] exampleConnection <> None.
Proof. by vm_compute. Qed.

(** A peer that sends contradicting data, an end without data, and a reset after it. *)
Definition hostileHistory : list (Z * Event) :=
  [(1, StreamFrame 0 (mkBuffer [1; 2; 3] 2 false)); (2, StreamFrame 0 (mkBuffer [9; 9; 9; 9] 0 false));
   (3, Read 0 3); (4, StreamDataBlockedFrame 0); (5, MaxDataSent); (6, MaxStreamDataSent 0); (7, Consume 0 0);
   (8, StreamFrame 3 (mkBuffer [] 4 true)); (9, RstStreamFrame 3 4 7); (10, Read 3 0); (11, Read 3 0)].

Lemma hostile_run :
  match run hostileHistory exampleConnection with
  | Some (inr k) => given k = [(0, [9; 9; 9], false); (3, [], true); (3, [], true)] /\
      sumMaxObservedOffset (flowControlState (conn k)) = 9 /\ sumCurReadOffset (flowControlState (conn k)) = 9
  | _ => False
  end.
Proof. vm_compute. done. Qed.

Lemma quic_receive_account_witness :
  exists k t', run hostileHistory exampleConnection = Some (inr k) /\ connection_ok (fun _ => anything) t' k /\
    given k = [(0, [9; 9; 9], false); (3, [], true); (3, [], true)] /\
    sumMaxObservedOffset (flowControlState (conn k)) = 9 /\ sumCurReadOffset (flowControlState (conn k)) = 9.
Proof.
  assert (Hh : history_ok 0 hostileHistory).
  { unfold hostileHistory, stop, zlen. simpl. split_and!; (lia || done || by vm_compute). }
  pose proof (quic_receive_account 0 hostileHistory exampleConnection (fresh_ok _ 0 _ example_fresh) Hh) as H.
  pose proof hostile_run as Hr. destruct (run hostileHistory exampleConnection) as [[e|k]|]; [done| |done].
  destruct H as [t' H]. exists k, t'. done.
Defined.

(** C11. The verdict on a frame: on a stream that is open, a frame that carries something is
    refused with [FINAL_SIZE_ERROR] exactly when it contradicts what is known of the end of
    the stream, and otherwise with an error of flow control exactly when it goes beyond what
    was advertised for the stream or for the connection; every other frame is taken in, and
    the stream then has the bytes it had and those of the frame. *)
Theorem quic_frame_verdict t now k n s b :
  connection_ok (fun _ => anything) t k -> streams k !! n = Some s -> recvState s = RecvOpen ->
  0 <= offset b -> stop b < 2 ^ 63 -> data b <> [] \/ eof b = true ->
  match step now (StreamFrame n b) k with
  | None => False
  | Some (inl e) => e = FINAL_SIZE_ERROR /\ ~ consistent (like s) b \/
      (e = FLOW_CONTROL_ERROR \/ e = INTERNAL_ERROR_) /\ exceeds s (conn k) (stop b)
  | Some (inr k') => consistent (like s) b /\ ~ exceeds s (conn k) (stop b) /\
      exists s', streams k' !! n = Some s' /\ arrived (like s) b (like s')
  end.
Proof.
  intros Hk Hs Ho H1 H2 H3. destruct (local_of _ t k n s Hk Hs) as [Hl _].
  pose proof (frame_ok _ t s (conn k) b Hl H1 H2 I) as H. simpl. unfold on. rewrite Hs.
  destruct (receiveReadStreamFrameSMHandler s (conn k) b) as [[e|[s' c']]|]; simpl; [|..|done].
  - rewrite Ho in H. destruct H as [?|[?|[? ?]]]; [done|by left|by right].
  - destruct H as [_ [[? _]|(_ & _ & H)]]; [congruence|]. destruct H as [(? & ? & _)|(H4 & H5 & H6)].
    + destruct H3; congruence.
    + split_and!; [done..|]. exists s'. by rewrite lookup_insert_eq.
Qed.

Lemma quic_frame_verdict_witness :
  match step 1 (StreamFrame 0 (mkBuffer [1; 2] 99 false)) exampleConnection with
  | Some (inl e) => e = FLOW_CONTROL_ERROR /\ exceeds (exampleStream 0) (conn exampleConnection) 101
  | _ => False
  end.
Proof.
  pose proof (quic_frame_verdict 0 1 exampleConnection 0 (exampleStream 0) (mkBuffer [1; 2] 99 false)
    (fresh_ok _ 0 _ example_fresh)) as H.
  specialize (H ltac:(by vm_compute) ltac:(by vm_compute) ltac:(by vm_compute) ltac:(by vm_compute) ltac:(by left)).
  destruct (step 1 _ exampleConnection) as [[e|k]|] eqn:E; [|by vm_compute in E|done].
  vm_compute in E. injection E as <-. split; [done|]. destruct H as [[? _]|[_ H]]; [done|]. exact H.
Defined.

End QuicReceive.
