(* ===== verification/QuicDelivery.v ===== *)
(** * The streams of a peer that keeps to the protocol

    The peer of a connection sends, on each stream [n], parts of a byte string [X n]: in
    any order, cut in any way, some more than once.  What the application is given is the
    string, in order; everything that has come without a gap can be read, and the end is
    told when all of it has been read. *)

From stdpp Require Import gmap.
From S2P Require Import Prelude QuicStream QuicReassembly QuicFlowControl QuicReceive.

Module QuicDelivery.
Import QuicStream QuicReassembly QuicFlowControl QuicReceive.

(** ** The peer, and the application *)

(** A frame with a part of [X]; the end is marked where it is. *)
Definition part_of (X : list Z) (b : StreamBuffer) : Prop :=
  0 <= offset b /\ stop b <= zlen X /\ data b `prefix_of` drop (Z.to_nat (offset b)) X /\
  (eof b = true -> stop b = zlen X).

(** No stream is reset or given up. *)
Definition honest (X : Z -> list Z) (e : Event) : Prop :=
  match e with
  | StreamFrame n b => part_of (X n) b
  | RstStreamFrame _ _ _ | StopSendingSent _ | Consume _ _ => False
  | Read _ amount => 0 <= amount
  | _ => True
  end.

Fixpoint honest_history (X : Z -> list Z) (t : Z) (h : list (Z * Event)) : Prop :=
  match h with [] => True | (now, e) :: h => t < now /\ honest X e /\ honest_history X now h end.

(** The frames of stream [n]. *)
Definition frame_on (n : Z) (e : Event) : list StreamBuffer :=
  match e with StreamFrame m b => if decide (m = n) then [b] else [] | _ => [] end.
Definition frames (n : Z) (h : list (Z * Event)) : list StreamBuffer := h ≫= (fun '(_, e) => frame_on n e).

(** What the application has been given on stream [n], and whether it was told the end. *)
Definition data_of (n : Z) (g : list (Z * list Z * bool)) : list Z :=
  g ≫= (fun '(m, d, _) => if decide (m = n) then d else []).
Definition ended (n : Z) (g : list (Z * list Z * bool)) : bool :=
  existsb (fun '(m, _, e) => bool_decide (m = n) && e) g.

(** ** One stream *)

Definition complete (X : list Z) (fs : list StreamBuffer) : Prop :=
  existsb eof fs = true /\ forall p, 0 <= p < zlen X -> covered fs p.

(** After the frames [fs] the application has [out], and knows the end or not. *)
Definition progress (X : list Z) (fs : list StreamBuffer) (out : list Z) (told : bool) (s : Stream) : Prop :=
  let l := like s in
  maxOffsetObserved l <= zlen X /\
  finalReadOffset l = (if existsb eof fs then Some (zlen X) else None) /\
  (forall p, currentReadOffset l <= p -> covered (readBuffer l) p <-> covered fs p) /\
  (forall p, 0 <= p < currentReadOffset l -> p < zlen X -> covered fs p) /\
  out = take (Z.to_nat (currentReadOffset l)) X /\ told = (currentReadOffset l >? zlen X) /\
  recvState s <> RecvInvalid /\ (recvState s = RecvClosed -> complete X fs).

Lemma take_prefix {A} (n : nat) (d X : list A) :
  d `prefix_of` drop n X -> take n X ++ d = take (n + length d) X.
Proof.
  intros [m H]. rewrite <- (take_drop n X) at 2. rewrite H. destruct (decide (n <= length X)%nat).
  - rewrite take_app_ge by (rewrite length_take; lia). f_equal. rewrite length_take.
    replace (n + length d - n `min` length X)%nat with (length d) by lia. by rewrite take_app_length.
  - rewrite drop_ge in H by lia. symmetry in H. apply app_eq_nil in H as [-> ->].
    rewrite !app_nil_r. simpl. rewrite Nat.add_0_r, take_take. f_equal. lia.
Qed.

Lemma covered_snoc fs b p : covered (fs ++ [b]) p <-> covered fs p \/ covers b p.
Proof. rewrite covered_app, covered_cons. pose proof (covered_nil p). tauto. Qed.

Lemma eof_snoc fs b : existsb eof (fs ++ [b]) = existsb eof fs || eof b.
Proof. rewrite existsb_app. simpl. by rewrite orb_false_r. Qed.

Lemma part_consistent X fs out told s b :
  progress X fs out told s -> part_of X b -> consistent (like s) b.
Proof.
  intros (H1 & H2 & _) (B1 & B2 & B3 & B4). unfold consistent. rewrite H2.
  destruct (existsb eof fs); [done|]. intros E. specialize (B4 E). lia.
Qed.

(** When the code takes the stream to be complete, it is. *)
Lemma all_received X fs l :
  finalReadOffset l = (if existsb eof fs then Some (zlen X) else None) -> 0 <= currentReadOffset l ->
  (forall b, b ∈ readBuffer l -> endOf b = stop b) ->
  (forall p, currentReadOffset l <= p -> covered (readBuffer l) p <-> covered fs p) ->
  (forall p, 0 <= p < currentReadOffset l -> p < zlen X -> covered fs p) ->
  isAllDataReceived l = true -> complete X fs.
Proof.
  intros Hf H0 He H1 H2. unfold isAllDataReceived. rewrite Hf. destruct (existsb eof fs) eqn:Ee; [|done].
  destruct (Z.leb_spec (zlen X) (currentReadOffset l)).
  - intros _. split; [done|]. intros p Hp. apply H2; lia.
  - destruct (readBuffer l) as [|b [|]] eqn:El; try done. rewrite He by (rewrite list_elem_of_singleton; done).
    intros [E1%Z.eqb_eq E2%Z.eqb_eq]%andb_true_iff. split; [done|]. intros p Hp.
    destruct (Z.lt_ge_cases p (currentReadOffset l)); [apply H2; lia|].
    apply H1; [done|]. apply covered_cons. left. unfold covers. lia.
Qed.

Lemma buffers_stop C s b : stream_ok C s -> b ∈ readBuffer (like s) -> endOf b = stop b.
Proof.
  intros ((_ & R2 & _) & Hm & _) Hb. rewrite Forall_forall in R2.
  eapply (endOf_stop (C := C)); [|by apply R2]. lia.
Qed.

(** A complete stream has every byte that a frame can bring. *)
Lemma progress_closed X fs out told s b :
  progress X fs out told s -> part_of X b -> recvState s = RecvClosed -> progress X (fs ++ [b]) out told s.
Proof.
  intros (P1 & P2 & P3 & P4 & P5 & P6 & P7 & P8) (B1 & B2 & _) Er. destruct (P8 Er) as [C1 C2].
  assert (Hsnoc : forall p, covered (fs ++ [b]) p <-> covered fs p).
  { intros p. rewrite covered_snoc. split; [|tauto]. intros [?|Hc]; [done|]. apply C2. unfold covers in Hc. lia. }
  unfold progress, complete. rewrite eof_snoc, C1. rewrite C1 in P2.
  split_and!; try done; intros; rewrite ?Hsnoc; try done; [by apply P3|by apply P4|].
  split; [done|]. intros p Hpp. rewrite Hsnoc. by apply C2.
Qed.

(** What a frame that is taken does to the data. *)
Lemma progress_arrived X fs out told s b l' :
  progress X fs out told s -> part_of X b ->
  data b = [] /\ eof b = false /\ l' = like s \/ arrived (like s) b l' ->
  maxOffsetObserved l' <= zlen X /\ currentReadOffset l' = currentReadOffset (like s) /\
  finalReadOffset l' = (if existsb eof (fs ++ [b]) then Some (zlen X) else None) /\
  (forall p, currentReadOffset l' <= p -> covered (readBuffer l') p <-> covered (fs ++ [b]) p) /\
  (forall p, 0 <= p < currentReadOffset l' -> p < zlen X -> covered (fs ++ [b]) p).
Proof.
  intros (P1 & P2 & P3 & P4 & _) (B1 & B2 & B3 & B4) [(E1 & E2 & ->)|(A1 & A2 & A3 & A4)]; rewrite eof_snoc.
  - rewrite E2, orb_false_r. split_and!; try done; intros p Hpp; rewrite covered_snoc.
    + rewrite P3 by done. split; [tauto|]. intros [?|Hc]; [done|]. unfold covers, stop in Hc.
      rewrite E1 in Hc. change (zlen []) with 0 in Hc. lia.
    + left. by apply P4.
  - rewrite A1, A2, A3, P2. split_and!; [lia|done| | |].
    + destruct (eof b), (existsb eof fs); simpl; try done; f_equal; auto.
    + intros p Hpp. by rewrite covered_snoc, A4, P3.
    + intros p Hp1 Hp2. rewrite covered_snoc. left. by apply P4.
Qed.

(** A frame of the peer. *)
Lemma progress_frame X t s c b fs out told :
  local_ok (of_stream X) t s c -> progress X fs out told s -> part_of X b -> zlen X < 2 ^ 63 ->
  match receiveReadStreamFrameSMHandler s c b with
  | Some (inr (s', c')) => accounted (of_stream X) t s c s' c' /\ progress X (fs ++ [b]) out told s'
  | Some (inl e) => e = FLOW_CONTROL_ERROR \/ e = INTERNAL_ERROR_
  | None => False
  end.
Proof.
  intros Hl Hp Hb HX. pose proof Hb as (B1 & B2 & B3 & B4).
  pose proof (part_consistent X fs out told s b Hp Hb) as Hcons.
  pose proof (frame_ok (of_stream X) t s c b Hl B1 ltac:(lia) B3) as Hf. pose proof Hp as (_ & _ & _ & _ & P5 & P6 & P7 & P8).
  destruct (receiveReadStreamFrameSMHandler s c b) as [[e|[s' c']]|]; [|..|done].
  { destruct Hf as [?|[[_ ?]|[_ ?]]]; done. }
  destruct Hf as [Hacc Hf]. split; [done|]. destruct Hf as [[Er ->]|(Er & Er' & Hf)]; [by apply progress_closed|].
  destruct (progress_arrived X fs out told s b (like s') Hp Hb) as (Q1 & Q2 & Q3 & Q4 & Q5); [tauto|].
  pose proof Hacc as (_ & _ & Hst & _). pose proof Hst as ((R1 & _) & _).
  unfold progress. rewrite Er'. split_and!; try done; rewrite ?Q2; try done; destruct (isAllDataReceived (like s')) eqn:Ea; try done.
  intros _. eapply all_received; try done. intros x. by eapply buffers_stop.
Qed.

(** Telling the end. *)
Lemma progress_passEnd X fs out told s l :
  zlen X < 2 ^ 63 -> 0 <= currentReadOffset l <= zlen X + 1 ->
  finalReadOffset l = (if existsb eof fs then Some (zlen X) else None) ->
  progress X fs out told (set_like s l) ->
  progress X fs out (told || reachedEnd l) (set_like s (passEnd l)) /\ currentReadOffset l <= currentReadOffset (passEnd l).
Proof.
  intros HX Hc Hf (P1 & P2 & P3 & P4 & P5 & P6 & P7 & P8). simpl in *. unfold passEnd.
  destruct (reachedEnd l) eqn:E; [|by rewrite orb_false_r; split; [unfold progress; split_and!|]].
  unfold reachedEnd in E. rewrite Hf in E. destruct (existsb eof fs) eqn:Ee; [|done]. apply Z.eqb_eq in E.
  rewrite u64_id by ilia. split; [|simpl; lia]. unfold progress. simpl. rewrite Ee, E. split_and!; try done.
  - intros p Hpp. apply P3. lia.
  - intros p Hp1 Hp2. apply P4; lia.
  - rewrite P5, E. unfold zlen. rewrite !take_ge by lia. done.
  - rewrite orb_true_r. symmetry. apply Z.gtb_lt. lia.
Qed.

(** Reading what is there. *)
Lemma progress_reads X fs out told s amount d l :
  progress X fs out told s -> 0 <= currentReadOffset (like s) <= zlen X -> maxOffsetObserved (like s) <= zlen X ->
  reads (C := of_stream X) (maxOffsetObserved (like s)) (like s) amount d l ->
  progress X fs (out ++ d) told (set_like s l) /\ currentReadOffset l <= zlen X /\
  (amount = 0 -> forall m, m <= zlen X -> (forall p, 0 <= p < m -> covered fs p) -> m <= currentReadOffset l).
Proof.
  intros (P1 & P2 & P3 & P4 & P5 & P6 & P7 & P8) Hc Hm (A1 & A2 & A3 & A4 & _ & _ & A7 & A8 & A9 & _).
  assert (Hnn : 0 <= zlen d) by (unfold zlen; lia).
  assert (Hle : currentReadOffset l <= zlen X).
  { destruct A4 as [->|[_ ?]]; [change (zlen []) with 0 in A1|]; lia. }
  split_and!; [|done|].
  - unfold progress. simpl. rewrite A2, A3. split_and!; try done.
    + intros p Hpp. rewrite A8 by done. apply P3. lia.
    + intros p Hp1 Hp2. destruct (Z.lt_ge_cases p (currentReadOffset (like s))); [apply P4; lia|].
      apply P3; [done|]. apply A7. lia.
    + rewrite P5, A1. destruct A4 as [->|[A4 _]].
      * rewrite app_nil_r. change (zlen []) with 0. by rewrite Z.add_0_r.
      * rewrite (take_prefix _ d X A4). f_equal. unfold zlen. lia.
    + rewrite P6. destruct (Z.gtb_spec (currentReadOffset (like s)) (zlen X)), (Z.gtb_spec (currentReadOffset l) (zlen X)); (done || lia).
  - intros H0 m Hm1 Hm2. destruct (Z.lt_ge_cases (currentReadOffset l) m); [|lia]. exfalso.
    apply A9; [by left|]. apply P3; [lia|]. apply Hm2. lia.
Qed.

Lemma passEnd_past l f : finalReadOffset (passEnd l) = Some f -> currentReadOffset (passEnd l) <> f.
Proof.
  unfold passEnd. destruct (reachedEnd l) eqn:E; unfold reachedEnd in E; simpl; intros Hf; rewrite Hf in E.
  - apply Z.eqb_eq in E. rewrite E. ilia.
  - by apply Z.eqb_neq in E.
Qed.

(** What the application reads. *)
Lemma progress_read X t s c fs out told amount now :
  local_ok (of_stream X) t s c -> progress X fs out told s -> t < now -> 0 <= amount -> zlen X < 2 ^ 63 ->
  match readDataFromQuicStream s c amount false now with
  | Some (inr (d, e, s', c')) =>
      accounted (of_stream X) t s c s' c' /\ progress X fs (out ++ d) (told || e) s' /\
      (forall f, finalReadOffset (like s') = Some f -> currentReadOffset (like s') <> f) /\
      (amount = 0 -> forall m, m <= zlen X -> (forall p, 0 <= p < m -> covered fs p) -> m <= currentReadOffset (like s'))
  | _ => False
  end.
Proof.
  intros Hl Hp Ht Hn HX. pose proof (quic_read_ok (of_stream X) t s c amount false now Hl Ht Hn) as H.
  destruct (readDataFromQuicStream s c amount false now) as [[?|[[[d e] s'] c']]|]; [done| |done].
  destruct H as [Hacc (d' & l & -> & -> & H)]. split; [done|].
  pose proof Hp as (P1 & P2 & _). destruct Hl as (((R1 & _) & _ & _ & _ & Hfin) & _).
  assert (Hcro : currentReadOffset (like s) <= zlen X + 1).
  { rewrite P2 in Hfin. destruct (existsb eof fs); lia. }
  destruct (atEnd (like s)) eqn:Ea; unfold atEnd in Ea; rewrite P2 in Ea, Hfin.
  - destruct H as (-> & -> & ->). rewrite app_nil_r. destruct (existsb eof fs) eqn:Ee; [|done]. apply Z.geb_le in Ea.
    destruct (progress_passEnd X fs out told s (like s)) as [Q1 Q2]; [done|done|by rewrite Ee|by destruct s|].
    simpl. split_and!; [|apply passEnd_past|intros; lia]. replace (told || true) with (told || reachedEnd (like s)); [done|].
    pose proof Hp as (_ & _ & _ & _ & _ & -> & _). rewrite orb_true_r. unfold reachedEnd. rewrite P2.
    destruct (Z.gtb_spec (currentReadOffset (like s)) (zlen X)); [done|]. simpl. apply Z.eqb_eq. lia.
  - assert (Hle : currentReadOffset (like s) <= zlen X).
    { destruct (existsb eof fs); [|lia]. destruct (Z.geb_spec (currentReadOffset (like s)) (zlen X)); [done|lia]. }
    destruct H as [Hr ->]. destruct (progress_reads X fs out told s amount d' l Hp) as (Q1 & Q2 & Q3); [lia|lia|done|].
    assert (Hnn : 0 <= currentReadOffset l) by (destruct Hr as (-> & _); unfold zlen; lia).
    destruct (progress_passEnd X fs (out ++ d') told s l) as [Q4 Q5]; [done|lia|by apply Q1|done|].
    split_and!; [done|apply passEnd_past|]. intros H0 m Hm1 Hm2. simpl. specialize (Q3 H0 m Hm1 Hm2). lia.
Qed.

(** ** The connection *)

Definition delivers (X : Z -> list Z) (fs : Z -> list StreamBuffer) (k : Connection) : Prop :=
  map_Forall (fun n s => progress (X n) (fs n) (data_of n (given k)) (ended n (given k)) s) (streams k).

(** An honest peer's connection ends only when the limits are exceeded. *)
Definition alive (P : Connection -> Prop) (r : Result Connection) : Prop :=
  match r with
  | None => False
  | Some (inl e) => e = FLOW_CONTROL_ERROR \/ e = INTERNAL_ERROR_
  | Some (inr k) => P k
  end.

Definition label (n : Z) (out : list (list Z * bool)) : list (Z * list Z * bool) := (fun '(d, e) => (n, d, e)) <$> out.

Lemma data_of_other m n g out : m <> n -> data_of m (g ++ label n out) = data_of m g.
Proof.
  intros H. unfold data_of. rewrite bind_app. replace (label n out ≫= _) with (@nil Z); [by rewrite app_nil_r|].
  induction out as [|[d e] out IH]; [done|]. simpl. rewrite decide_False by done. simpl. exact IH.
Qed.

Lemma ended_other m n g out : m <> n -> ended m (g ++ label n out) = ended m g.
Proof.
  intros H. unfold ended. rewrite existsb_app. replace (existsb _ (label n out)) with false; [by rewrite orb_false_r|].
  induction out as [|[d e] out IH]; [done|]. simpl. rewrite bool_decide_eq_false_2 by done. exact IH.
Qed.

Lemma given_read n g d e :
  data_of n (g ++ label n [(d, e)]) = data_of n g ++ d /\ ended n (g ++ label n [(d, e)]) = ended n g || e.
Proof.
  unfold data_of, ended. rewrite bind_app, existsb_app. simpl. rewrite decide_True, bool_decide_eq_true_2 by done.
  by rewrite app_nil_r, orb_false_r.
Qed.

Lemma on_delivers X fs fs' n f k :
  delivers X fs k -> (forall m, m <> n -> fs' m = fs m) ->
  (forall s, streams k !! n = Some s ->
     progress (X n) (fs n) (data_of n (given k)) (ended n (given k)) s ->
     match f s (conn k) with
     | None => False
     | Some (inl e) => e = FLOW_CONTROL_ERROR \/ e = INTERNAL_ERROR_
     | Some (inr (out, s', c')) =>
         progress (X n) (fs' n) (data_of n (given k ++ label n out)) (ended n (given k ++ label n out)) s'
     end) ->
  alive (delivers X fs') (on n f k).
Proof.
  intros Hk Hfs Hf. unfold on. destruct (streams k !! n) as [s|] eqn:Hs.
  - specialize (Hf s eq_refl (Hk n s Hs)). destruct (f s (conn k)) as [[?|[[out s'] c']]|]; [done| |done].
    intros m x Hx. simpl in *. apply lookup_insert_Some in Hx as [[<- <-]|[Hm Hx]]; [done|].
    change ((fun '(d, e) => (n, d, e)) <$> out) with (label n out).
    rewrite data_of_other, ended_other, Hfs by done. by apply Hk.
  - intros m x Hx. destruct (decide (m = n)) as [->|Hm]; [by rewrite Hs in Hx|]. rewrite Hfs by done. by apply Hk.
Qed.

(** An event that leaves the data of a stream alone. *)
Lemma progress_same X fs out told s s' :
  like s' = like s -> recvState s' = recvState s -> progress X fs out told s -> progress X fs out told s'.
Proof. unfold progress. by intros -> ->. Qed.

Lemma blocked_state s c now s' c' : handleStreamBlocked s c now = Some (s', c') -> recvState s' = recvState s.
Proof.
  unfold handleStreamBlocked. destruct (autotuneReceiveStreamFlowControl _); simpl; [|by intros [= <- _]].
  destruct (maybeIncreaseStreamFlowControlWindow _ _ _); simpl; [by intros [= <- _]|done].
Qed.

Lemma honest_ok X e : (forall n, zlen (X n) < 2 ^ 63) -> honest X e -> event_ok e /\ content_ok (fun n => of_stream (X n)) e.
Proof.
  intros HX. destruct e; simpl; try done. intros (H1 & H2 & H3 & _). specialize (HX n). split; [lia|done].
Qed.

Lemma step_delivers X fs t now e k :
  connection_ok (fun n => of_stream (X n)) t k -> delivers X fs k -> t < now -> honest X e ->
  (forall n, zlen (X n) < 2 ^ 63) ->
  alive (delivers X (fun n => fs n ++ frame_on n e)) (step now e k).
Proof.
  intros Hk Hd Ht He HX. pose proof (fun n s Hs => proj1 (local_of _ t k n s Hk Hs)) as Hloc.
  destruct e; try done; simpl in He |- *.
  all: try (apply (on_delivers X fs); [done|intros m Hm; simpl; rewrite ?decide_False by done; by rewrite app_nil_r|];
    intros s Hs Hp; specialize (Hloc n s Hs)).
  all: try (intros m x Hx; simpl in *; rewrite app_nil_r; by apply Hd).
  - rewrite decide_True by done. pose proof (progress_frame _ t s (conn k) frame _ _ _ Hloc Hp He (HX n)) as H.
    destruct (receiveReadStreamFrameSMHandler _ _ _) as [[?|[s' c']]|]; [done| |done]. simpl. rewrite app_nil_r. apply H.
  - rewrite app_nil_r. destruct (blocked_ok _ t s (conn k) now Hloc Ht) as (s' & c' & E & _ & El). rewrite E. simpl.
    rewrite app_nil_r. eapply progress_same; [done| |done]. by eapply blocked_state.
  - rewrite !app_nil_r. by eapply progress_same.
  - rewrite !app_nil_r. done.
  - rewrite app_nil_r. pose proof (progress_read _ t s (conn k) _ _ _ amount now Hloc Hp Ht He (HX n)) as H.
    destruct (readDataFromQuicStream _ _ _ _ _) as [[?|[[[d e] s'] c']]|]; [done| |done]. simpl.
    destruct (given_read n (given k) d e) as [E1 E2]. simpl in E1, E2. rewrite E1, E2. apply H.
Qed.


(** ** Histories *)

Definition last_time (t : Z) (h : list (Z * Event)) : Z := default t (fst <$> last h).

Lemma fresh_delivers X k : fresh k -> delivers X (fun _ => []) k.
Proof.
  intros (H1 & H2 & _) n s Hs. destruct (H1 n s Hs) as (_ & E2 & E3 & _). unfold progress. rewrite E2, E3, H2. simpl.
  split_and!; try (done || lia); [unfold zlen; lia|]. unfold ended. simpl. symmetry. zcases; [unfold zlen in *; lia|done].
Qed.

Lemma last_time_cons t now e h : last_time t ((now, e) :: h) = last_time now h.
Proof. unfold last_time. destruct h as [|x h]; [done|]. rewrite last_cons_cons. destruct (last (x :: h)) eqn:E; [done|]. by apply last_None in E. Qed.

Lemma run_delivers X h : forall fs t k,
  connection_ok (fun n => of_stream (X n)) t k -> delivers X fs k -> honest_history X t h ->
  (forall n, zlen (X n) < 2 ^ 63) ->
  alive (fun k' => connection_ok (fun n => of_stream (X n)) (last_time t h) k' /\ delivers X (fun n => fs n ++ frames n h) k')
    (run h k).
Proof.
  induction h as [|[now e] h IH]; intros fs t k Hk Hd Hh HX; simpl.
  { split; [done|]. intros n s Hs. rewrite app_nil_r. by apply Hd. }
  destruct Hh as (Ht & He & Hh). destruct (honest_ok X e HX He) as [He1 He2].
  pose proof (step_ok _ t now e k Hk Ht He1 He2) as Hs. pose proof (step_delivers X fs t now e k Hk Hd Ht He HX) as Hs'.
  destruct (step now e k) as [[err|k']|]; [done| |done]. rewrite last_time_cons.
  specialize (IH (fun n => fs n ++ frame_on n e) now k' Hs Hs' Hh HX).
  destruct (run h k') as [[?|k'']|]; [done| |done]. destruct IH as [I1 I2]. split; [done|].
  intros n s Hn. specialize (I2 n s Hn). cbn beta in I2. by rewrite <- app_assoc in I2.
Qed.


(** Reading all that is there. *)
Lemma read_everything X fs t k n s now :
  connection_ok (fun n => of_stream (X n)) t k -> delivers X fs k -> (forall n, zlen (X n) < 2 ^ 63) ->
  streams k !! n = Some s -> t < now ->
  exists k', step now (Read n 0) k = Some (inr k') /\
    data_of n (given k') `prefix_of` X n /\
    (forall m, m <= zlen (X n) -> (forall p, 0 <= p < m -> covered (fs n) p) -> m <= zlen (data_of n (given k'))) /\
    (complete (X n) (fs n) -> data_of n (given k') = X n /\ ended n (given k') = true).
Proof.
  intros Hk Hd HX Hs Ht. destruct (local_of _ t k n s Hk Hs) as [Hl _].
  pose proof (progress_read (X n) t s (conn k) (fs n) _ _ 0 now Hl (Hd n s Hs) Ht ltac:(lia) (HX n)) as H.
  simpl. unfold on. rewrite Hs. destruct (readDataFromQuicStream _ _ _ _ _) as [[?|[[[d e] s'] c']]|]; [done| |done].
  destruct H as (_ & Hp & Hpast & Hall). specialize (Hall eq_refl). eexists. split; [done|]. cbn [given].
  change (_ <$> [(d, e)]) with (label n [(d, e)]). destruct (given_read n (given k) d e) as [-> ->].
  destruct Hp as (P1 & P2 & _ & _ & P5 & P6 & _). rewrite P5, P6.
  assert (Hlen : forall m, m <= zlen (X n) -> m <= currentReadOffset (like s') ->
    m <= zlen (take (Z.to_nat (currentReadOffset (like s'))) (X n))).
  { intros m M1 M2. unfold zlen in *. rewrite length_take. lia. }
  split_and!; [apply prefix_take|intros m M1 M2; apply Hlen; [done|by apply Hall]|].
  intros [C1 C2]. specialize (Hall (zlen (X n)) ltac:(lia) C2). rewrite C1 in P2. specialize (Hpast _ P2).
  split; [apply take_ge; unfold zlen in *; lia|]. apply Z.gtb_lt. lia.
Qed.

(** C9. A peer sends on each stream parts of a byte string, in any order, cut in any way,
    some again and again, with the end of the string marked; the application reads now and
    then any amounts, and window updates go out and are lost.  No check of the code fails,
    and the connection is closed only when a limit of flow control is exceeded.  The
    application has been given the string's bytes in order; when it is told the end it has
    them all.  Reading without limit gives everything that has come without a gap, and when
    all has come the rest of the string and the end.  The times of the events strictly
    increase, as in [QuicReceive.history_ok]. *)
Theorem quic_delivery X t h k :
  fresh k -> (forall n, zlen (X n) < 2 ^ 63) -> honest_history X t h ->
  match run h k with
  | None => False
  | Some (inl e) => e = FLOW_CONTROL_ERROR \/ e = INTERNAL_ERROR_
  | Some (inr k') => forall n s, streams k' !! n = Some s ->
      data_of n (given k') `prefix_of` X n /\
      (ended n (given k') = true -> data_of n (given k') = X n) /\
      forall now, last_time t h < now ->
        exists k'', step now (Read n 0) k' = Some (inr k'') /\
          data_of n (given k'') `prefix_of` X n /\
          (forall m, m <= zlen (X n) -> (forall p, 0 <= p < m -> covered (frames n h) p) ->
                     m <= zlen (data_of n (given k''))) /\
          (complete (X n) (frames n h) -> data_of n (given k'') = X n /\ ended n (given k'') = true)
  end.
Proof.
  intros Hf HX Hh.
  pose proof (run_delivers X h (fun _ => []) t k (fresh_ok _ t k Hf) (fresh_delivers X k Hf) Hh HX) as H.
  destruct (run h k) as [[?|k']|]; [done| |done]. destruct H as [Hk Hd]. intros n s Hs.
  pose proof (Hd n s Hs) as (_ & _ & _ & _ & P5 & P6 & _). split_and!.
  - rewrite P5. apply prefix_take.
  - rewrite P5, P6. intros E%Z.gtb_lt. apply take_ge. unfold zlen in E. lia.
  - intros now Ht. by apply (read_everything X (fun n => frames n h) (last_time t h) k' n s).
Qed.

(** ** Examples *)

Definition exampleX (n : Z) : list Z :=
  if n =? 0 then [10; 11; 12; 13; 14; 15; 16; 17] else if n =? 3 then [20; 21; 22] else [].

(** Parts out of order, overlapping on the left, on the right, contained and containing. *)
Definition exampleHistory : list (Z * Event) :=
  [(1, StreamFrame 0 (mkBuffer [14; 15] 4 false));
   (2, StreamFrame 3 (mkBuffer [21; 22] 1 true));
   (3, StreamFrame 0 (mkBuffer [11] 1 false));
   (4, Read 0 0);
   (5, StreamFrame 0 (mkBuffer [10; 11; 12; 13; 14] 0 false));
   (6, Read 0 4);
   (7, MaxStreamDataSent 0);
   (8, StreamFrame 3 (mkBuffer [20; 21; 22] 0 true));
   (9, Read 3 0);
   (10, StreamFrame 0 (mkBuffer [17] 7 true));
   (11, StreamFrame 0 (mkBuffer [12; 13; 14; 15; 16] 2 false))].

Lemma example_honest : honest_history exampleX 0 exampleHistory.
Proof.
  unfold exampleHistory. simpl. unfold part_of, stop, zlen. simpl.
  split_and!; try (lia || done); try (by eexists); by vm_compute.
Qed.

Lemma quic_delivery_witness :
  match run exampleHistory exampleConnection with
  | Some (inr k) => given k = [(0, [], false); (0, [10; 11; 12; 13], false); (3, [20; 21; 22], true)] /\
      exists k', step 12 (Read 0 0) k = Some (inr k') /\ data_of 0 (given k') = exampleX 0
  | _ => False
  end.
Proof.
  assert (HX : forall n, zlen (exampleX n) < 2 ^ 63) by (intros n; unfold exampleX; repeat case_match; by vm_compute).
  pose proof (quic_delivery exampleX 0 exampleHistory exampleConnection example_fresh HX example_honest) as H.
  destruct (run exampleHistory exampleConnection) as [[e|k]|] eqn:E; [by vm_compute in E| |done].
  split; [by vm_compute in E; injection E as <-|].
  assert (Hs : exists s, streams k !! 0 = Some s) by (vm_compute in E; injection E as <-; by eexists).
  destruct Hs as [s Hs]. destruct (H 0 s Hs) as (_ & _ & Hr). destruct (Hr 12 ltac:(by vm_compute)) as (k' & Hk & _ & _ & Hc).
  exists k'. split; [done|]. apply Hc. split; [done|]. intros p Hp.
  assert (Hp' : p = 0 \/ p = 1 \/ p = 2 \/ p = 3 \/ p = 4 \/ p = 5 \/ p = 6 \/ p = 7) by (unfold zlen in Hp; simpl in Hp; lia).
  unfold covered. simpl. rewrite !Exists_cons. unfold covers, stop, zlen. simpl. lia.
Defined.

End QuicDelivery.
