(* ===== verification/QuicSend.v ===== *)
(** * The sending side of a QUIC stream

    What happens to the bytes of a stream between the application's write and their
    acknowledgement: the frames that the scheduler writes ([codec/QuicWriteCodec.cpp],
    [api/QuicPacketScheduler.cpp]), the buffers they are kept in until they are acknowledged
    ([api/QuicTransportFunctions.cpp]), the buffers of what was lost
    ([state/StreamData.h], [loss/QuicLossFunctions.cpp]) and the sending state machine
    ([state/stream/StreamSendHandlers.cpp]).

    [Sender] is [QuicStreamState] with the buffers of this side; a [WriteStreamBuffer] has
    the members of a [StreamBuffer].  Frames of streams that are sent directly by a server
    ([fromBufMeta]), copies of packets that are sent again before they are lost, streams
    whose retransmission is disabled, stream groups and counters are left out. *)

From stdpp Require Import gmap.
From S2P Require Import Prelude QuicInteger IntervalSet QuicStream QuicFlowControl.

Module QuicSend.
Import QuicStream QuicFlowControl.

Record Sender := mkSender {
  stream : Stream;
  retransmissionBuffer : gmap Z StreamBuffer;
  lossBuffer : list StreamBuffer;
  ackedIntervals : IntervalSet.IntervalSet
}.

Definition set_stream (s : Sender) x := mkSender x (retransmissionBuffer s) (lossBuffer s) (ackedIntervals s).
Definition set_retransmission (s : Sender) x := mkSender (stream s) x (lossBuffer s) (ackedIntervals s).
Definition set_loss (s : Sender) x := mkSender (stream s) (retransmissionBuffer s) x (ackedIntervals s).
Definition set_acked (s : Sender) x := mkSender (stream s) (retransmissionBuffer s) (lossBuffer s) x.

(** ** Frames *)

(** [writeStreamFrameHeader]: how much of [writeBufferLen] bytes fits into a packet with
    [remaining] bytes left, and whether the frame has the FIN bit; [None] if nothing can be
    written.  The sizes of the header are computed as in the code. *)
Definition writeStreamFrameHeader (remaining id offset writeBufferLen flowControlLen : Z) (fin : bool)
  : Exception + option (Z * bool) :=
  if remaining =? 0 then inr None
  else if (writeBufferLen =? 0) && negb fin then inl INTERNAL_ERROR_
  else
    match QuicInteger.getQuicIntegerSize id with
    | None => inl INTERNAL_ERROR_
    | Some idSize =>
        let headerSize := 1 + idSize in
        if remaining <? headerSize then inr None
        else
          match (if offset =? 0 then Some 0 else QuicInteger.getQuicIntegerSize offset) with
          | None => inl INTERNAL_ERROR_
          | Some offsetSize =>
              let headerSize := headerSize + offsetSize in
              let dataLen := Z.min writeBufferLen flowControlLen in
              let shouldSkipLengthField := (dataLen >? 0) && (dataLen >=? u64 (remaining - headerSize)) in
              let dataLen := Z.min dataLen (u64 (remaining - headerSize)) in
              let lenLen :=
                if shouldSkipLengthField then Some 0
                else if dataLen <=? QuicInteger.kOneByteLimit - 1 then Some 1
                else if dataLen <=? QuicInteger.kTwoByteLimit - 2 then Some 2
                else if dataLen <=? QuicInteger.kFourByteLimit - 4 then Some 4
                else if dataLen <=? QuicInteger.kEightByteLimit - 8 then Some 8
                else None in
              match lenLen with
              | None => inl INTERNAL_ERROR_
              | Some dataLenLen =>
                  if (dataLenLen >? 0) && negb (dataLen =? 0) && (headerSize + dataLenLen >=? remaining) then inr None
                  else
                    let headerSize := headerSize + dataLenLen in
                    let dataLen :=
                      if (dataLenLen >? 0) && (remaining <? u64 (dataLen + headerSize)) then u64 (remaining - headerSize)
                      else dataLen in
                    let shouldSetFin := fin && (dataLen =? writeBufferLen) in
                    if (dataLen =? 0) && negb shouldSetFin then inr None
                    else if remaining <? headerSize then inr None
                    else inr (Some (dataLen, shouldSetFin))
              end
          end
    end.

Definition hasWritableData (s : Stream) : option bool :=
  if negb (zlen (pendingWrites s) =? 0) then
    if s_peerAdvertisedMaxOffset (flow s) <? currentWriteOffset s then None
    else Some (u64 (s_peerAdvertisedMaxOffset (flow s) - currentWriteOffset s) >? 0)
  else match finalWriteOffset s with
       | Some f => Some ((meta_offset (writeBufMeta s) =? 0) && (currentWriteOffset s <=? f))
       | None => Some false
       end.

(** [StreamFrameScheduler::writeStreamFrame]: the frame with new data, if one is written. *)
Definition writeStreamFrame (s : Stream) (remaining connWritableBytes : Z) : option (Exception + option StreamBuffer) :=
  if remaining =? 0 then Some (inr None)
  else
    w ← hasWritableData s;
    if negb w then None
    else
      let flowControlLen := Z.min (getSendStreamFlowControlBytesWire s) connWritableBytes in
      let bufferLen := zlen (pendingWrites s) in
      let canWriteFin := bool_decide (is_Some (finalWriteOffset s)) && (bufferLen <=? flowControlLen) &&
                         (meta_offset (writeBufMeta s) =? 0) in
      Some match writeStreamFrameHeader remaining (id s) (currentWriteOffset s) bufferLen flowControlLen canWriteFin with
           | inl e => inl e
           | inr None => inr None
           | inr (Some (dataLen, fin)) =>
               inr (Some (mkBuffer (take (Z.to_nat dataLen) (pendingWrites s)) (currentWriteOffset s) fin))
           end.

(** One round of [writeStreamLossBuffers]. *)
Definition writeLossBuffer (s : Stream) (buffer : StreamBuffer) (remaining : Z) : Exception + option StreamBuffer :=
  let bufferLen := zlen (data buffer) in
  match writeStreamFrameHeader remaining (id s) (offset buffer) bufferLen bufferLen (eof buffer) with
  | inl e => inl e
  | inr None => inr None
  | inr (Some (dataLen, fin)) => inr (Some (mkBuffer (take (Z.to_nat dataLen) (data buffer)) (offset buffer) fin))
  end.

(** ** A packet with a frame has been sent *)

(** [CHECK(retransmissionBuffer.emplace(...).second)]. *)
Definition emplaceRetransmission (s : Sender) (off : Z) (b : StreamBuffer) : option Sender :=
  match retransmissionBuffer s !! off with
  | Some _ => None
  | None => Some (set_retransmission s (<[off := b]> (retransmissionBuffer s)))
  end.

Definition handleNewStreamDataWritten (s : Sender) (frameLen : Z) (frameFin : bool) : option Sender :=
  let x := stream s in
  let originalOffset := currentWriteOffset x in
  let bufWritten := take (Z.to_nat frameLen) (pendingWrites x) in
  let x := set_pending x (drop (Z.to_nat frameLen) (pendingWrites x))
             (u64 (u64 (originalOffset + frameLen) + (if frameFin then 1 else 0))) in
  emplaceRetransmission (set_stream s x) originalOffset (mkBuffer bufWritten originalOffset frameFin).

Definition handleRetransmissionWritten (s : Sender) (frameOffset frameLen : Z) (frameFin : bool) (k : nat) : option Sender :=
  b ← lossBuffer s !! k;
  if (frameLen =? zlen (data b)) && Bool.eqb frameFin (eof b) then
    emplaceRetransmission (set_loss s (delete k (lossBuffer s))) frameOffset (mkBuffer (data b) frameOffset frameFin)
  else
    let rest := mkBuffer (drop (Z.to_nat frameLen) (data b)) (u64 (offset b + frameLen)) (eof b) in
    emplaceRetransmission (set_loss s (<[k := rest]> (lossBuffer s))) frameOffset
      (mkBuffer (take (Z.to_nat frameLen) (data b)) frameOffset frameFin).

(** [std::lower_bound] over the offsets. *)
Fixpoint lower_bound_offset (l : list StreamBuffer) (off : Z) : nat :=
  match l with
  | [] => O
  | b :: l => if offset b <? off then S (lower_bound_offset l off) else O
  end.

(** [true] if the data is new. *)
Definition handleStreamWritten (s : Sender) (frameOffset frameLen : Z) (frameFin : bool) : option (Exception + bool * Sender) :=
  if frameOffset =? currentWriteOffset (stream s) then
    s ← handleNewStreamDataWritten s frameLen frameFin; Some (inr (true, s))
  else if frameOffset >? currentWriteOffset (stream s) then Some (inl INTERNAL_ERROR_)
  else
    let k := lower_bound_offset (lossBuffer s) frameOffset in
    match lossBuffer s !! k with
    | Some b =>
        if offset b =? frameOffset then
          s ← handleRetransmissionWritten s frameOffset frameLen frameFin k; Some (inr (false, s))
        else Some (inr (false, s))
    | None => Some (inr (false, s))
    end.

(** The stream frame's case of [updateConnection]. *)
Definition updateConnection_stream (s : Sender) (c : Conn) (frameOffset frameLen : Z) (frameFin : bool)
  : option (Exception + Sender * Conn) :=
  r ← handleStreamWritten s frameOffset frameLen frameFin;
  Some match r with
       | inl e => inl e
       | inr (false, s) => inr (s, c)
       | inr (true, s) =>
           match updateFlowControlOnWriteToSocket frameLen c with
           | inl e => inl e
           | inr c =>
               let '(x, c) := maybeWriteBlockAfterSocketWrite (stream s) c in
               inr (set_stream s x, maybeWriteDataBlockedAfterSocketWrite c)
           end
       end.

(** ** Loss *)

(** [std::upper_bound] over the offsets. *)
Fixpoint upper_bound_offset (l : list StreamBuffer) (off : Z) : nat :=
  match l with
  | [] => O
  | b :: l => if off <? offset b then O else S (upper_bound_offset l off)
  end.

Definition insertIntoLossBuffer (l : list StreamBuffer) (buf : StreamBuffer) : list StreamBuffer :=
  let lossItr := upper_bound_offset l (offset buf) in
  match (if decide (lossItr = O) then None else l !! (lossItr - 1)%nat) with
  | Some prev =>
      if u64 (offset prev + zlen (data prev)) =? offset buf
      then <[(lossItr - 1)%nat := mkBuffer (data prev ++ data buf) (offset prev) (eof buf)]> l
      else take lossItr l ++ buf :: drop lossItr l
  | None => take lossItr l ++ buf :: drop lossItr l
  end.

(** The stream frame's case of [markPacketLoss], for a packet that is no clone. *)
Definition markPacketLoss_stream (s : Sender) (frameOffset : Z) : Sender :=
  match retransmissionBuffer s !! frameOffset with
  | None => s
  | Some b =>
      set_retransmission (set_loss s (insertIntoLossBuffer (lossBuffer s) b)) (delete frameOffset (retransmissionBuffer s))
  end.

(** ** Acknowledgement *)

(** An acknowledged EOF counts as the byte behind the last; [None] is [LOG(FATAL)] or an
    exception of the interval. *)
Definition updateAckedIntervals (s : Sender) (off len : Z) (eof : bool) : option Sender :=
  let lenAdjustment := if eof then 0 else 1 in
  if negb (lenAdjustment =? 0) && (len =? 0) then None
  else
    i ← IntervalSet.insert_range (ackedIntervals s) off (u64 (off + len - lenAdjustment));
    Some (set_acked s i).

(** The element of the loss buffer that the removed range lies in, or that lies in it. *)
Fixpoint removal_position (l : list StreamBuffer) (off len : Z) : option nat :=
  match l with
  | [] => None
  | b :: l =>
      let lossEndOffset := u64 (offset b + zlen (data b)) in
      let removedEndOffset := u64 (off + len) in
      if offset b >? removedEndOffset then None
      else if (off >=? offset b) && (removedEndOffset <=? lossEndOffset) ||
              (offset b >=? off) && (lossEndOffset <=? removedEndOffset) then Some O
      else S <$> removal_position l off len
  end.

Definition removeFromLossBuffer (l : list StreamBuffer) (off len : Z) (fin : bool) : list StreamBuffer :=
  if len =? 0 then l
  else
    match removal_position l off len with
    | None => l
    | Some k =>
        match l !! k with
        | None => l
        | Some b =>
            let amountToSplit := if off >? offset b then off - offset b else 0 in
            let splitBuf := take (Z.to_nat amountToSplit) (data b) in
            let left := drop (Z.to_nat amountToSplit) (data b) in
            let trimmed := Z.min len (zlen left) in
            let rest := mkBuffer (drop (Z.to_nat len) left) (u64 (u64 (offset b + amountToSplit) + trimmed)) (eof b) in
            let l := if (zlen (data rest) =? 0) && Bool.eqb (eof rest) fin then delete k l else <[k := rest]> l in
            if zlen splitBuf =? 0 then l else insertIntoLossBuffer l (mkBuffer splitBuf (offset b) false)
        end
    end.

(** A stream frame of a packet that was declared lost and is acknowledged after all, with
    [removeFromLossBufferOnSpurious]. *)
Definition modifyStateForSpuriousLoss_stream (s : Sender) (frameOffset frameLen : Z) (frameFin : bool) : option Sender :=
  updateAckedIntervals (set_loss s (removeFromLossBuffer (lossBuffer s) frameOffset frameLen frameFin)) frameOffset frameLen frameFin.

Definition allBytesTillFinAcked (s : Sender) : bool :=
  hasSentFIN (stream s) && bool_decide (retransmissionBuffer s = ∅) && (zlen (pendingWrites (stream s)) =? 0) &&
  match lossBuffer s with [] => true | _ => false end.

Definition sendAckSMHandler (s : Sender) (c : Conn) (frameOffset frameLen : Z) (frameFin : bool) : option (Exception + Sender * Conn) :=
  match sendState (stream s) with
  | SendOpen =>
      s ← match retransmissionBuffer s !! frameOffset with
          | None => Some s
          | Some b =>
              if negb (frameOffset =? offset b) then None
              else if negb (frameLen =? zlen (data b)) then None
              else if negb (Bool.eqb frameFin (eof b)) then None
              else
                s ← updateAckedIntervals s (offset b) (zlen (data b)) (eof b);
                Some (set_retransmission s (delete frameOffset (retransmissionBuffer s)))
          end;
      if allBytesTillFinAcked s then
        let x := set_sendState (stream s) SendClosed in
        Some (inr (set_stream s x, if inTerminalStates x then addClosed (id x) c else c))
      else Some (inr (s, c))
  | SendClosed | ResetSent => Some (inr (s, c))
  | SendInvalid => Some (inl STREAM_STATE_ERROR)
  end.

End QuicSend.
