(* ===== verification/QuicSendBuffers.v ===== *)
(** * The buffers of the sending side

    Every byte that has been sent — and the end of the stream, which counts as one more —
    is in one place: in the retransmission buffer, where the frame that carries it waits
    for its acknowledgement, in the loss buffer, where it waits to be sent again, or in the
    set of what is acknowledged.  [sender_ok] says so for a sender that has been given the
    bytes [W]; the lemmas show that each operation keeps it and that its checks hold. *)

From stdpp Require Import gmap.
From S2P Require Import Prelude QuicInteger IntervalSet QuicStream QuicReassembly QuicFlowControl QuicSend.

Module QuicSendBuffers.
Import QuicStream QuicReassembly QuicFlowControl QuicSend.

(** ** What a buffer occupies *)

(** One past the last position; an EOF occupies the position behind the data. *)
Definition span_end (b : StreamBuffer) : Z := stop b + (if eof b then 1 else 0).
Definition occupies (b : StreamBuffer) (p : Z) : Prop := offset b <= p < span_end b.

(** A buffer with bytes of [W] from below [sent]; [fin] is the final offset. *)
Definition kept (W : list Z) (sent : Z) (fin : option Z) (b : StreamBuffer) : Prop :=
  0 <= offset b /\ data b `prefix_of` drop (Z.to_nat (offset b)) W /\
  offset b < span_end b /\ span_end b <= sent /\ (eof b = true -> fin = Some (stop b)).

Definition in_map (R : gmap Z StreamBuffer) (p : Z) : Prop := exists off b, R !! off = Some b /\ occupies b p.
Definition in_list (l : list StreamBuffer) (p : Z) : Prop := Exists (fun b => occupies b p) l.

(** A list of buffers in order. *)
Fixpoint spaced (lo : Z) (l : list StreamBuffer) : Prop :=
  match l with [] => True | b :: l => lo <= offset b /\ offset b < span_end b /\ spaced (span_end b) l end.

Lemma spaced_weaken lo lo' l : lo' <= lo -> spaced lo l -> spaced lo' l.
Proof. destruct l; simpl; [done|]. intros ? (?&?&?). split_and!; [lia|done..]. Qed.

Lemma spaced_above lo l : spaced lo l -> Forall (fun b => lo <= offset b < span_end b) l.
Proof.
  revert lo. induction l as [|b l IH]; intros lo; [constructor|]. simpl. intros (H1 & H2 & H3).
  apply Forall_cons. split; [done|]. apply IH. eapply spaced_weaken; [|done]. lia.
Qed.

Lemma spaced_app lo l m hi :
  spaced lo l -> Forall (fun b => span_end b <= hi) l -> lo <= hi -> (forall lo', lo' <= hi -> spaced lo' m) -> spaced lo (l ++ m).
Proof.
  revert lo. induction l as [|b l IH]; intros lo; simpl; [intros _ _ H1 H2; by apply H2|].
  intros (H1 & H2 & H3) [H4 H5]%Forall_cons H6 H7. split_and!; [done..|]. by apply IH.
Qed.

Lemma spaced_split lo l m : spaced lo (l ++ m) -> spaced lo l /\ spaced lo m.
Proof.
  revert lo. induction l as [|b l IH]; intros lo; simpl; [done|]. intros (H1 & H2 & [H3 H4]%IH).
  split; [done|]. eapply spaced_weaken; [|done]. lia.
Qed.

(** The elements in front of [b], and behind it. *)
Lemma spaced_around lo pre b post :
  spaced lo (pre ++ b :: post) ->
  Forall (fun x => span_end x <= offset b) pre /\ lo <= offset b /\ offset b < span_end b /\ spaced (span_end b) post.
Proof.
  revert lo. induction pre as [|x pre IH]; intros lo; simpl; [intros (? & ? & ?); done|].
  intros (H1 & H2 & (H3 & H4 & H5 & H6)%IH). rewrite Forall_cons. split_and!; (done || lia).
Qed.

Lemma in_list_cons b l p : in_list (b :: l) p <-> occupies b p \/ in_list l p.
Proof. apply Exists_cons. Qed.
Lemma in_list_app l m p : in_list (l ++ m) p <-> in_list l p \/ in_list m p.
Proof. apply Exists_app. Qed.
Lemma in_list_nil p : ~ in_list [] p.
Proof. intros H. by apply Exists_nil in H. Qed.

(** ** Joining and cutting *)

Lemma span_join a b :
  stop a = offset b -> eof a = false ->
  span_end (mkBuffer (data a ++ data b) (offset a) (eof b)) = span_end b.
Proof. unfold span_end, stop. simpl. rewrite zlen_app. lia. Qed.

Lemma kept_join W sent fin a b :
  kept W sent fin a -> kept W sent fin b -> stop a = offset b -> eof a = false ->
  kept W sent fin (mkBuffer (data a ++ data b) (offset a) (eof b)).
Proof.
  intros (A1 & A2 & A3 & A4 & A5) (B1 & B2 & B3 & B4 & B5) E1 E2. unfold kept. rewrite span_join by done. simpl.
  split_and!; [done| |unfold span_end in *; rewrite E2 in A3; lia|done|].
  - apply prefix_join; [done|]. rewrite drop_drop. unfold stop, zlen in E1.
    by replace (Z.to_nat (offset a) + length (data a))%nat with (Z.to_nat (offset b)) by lia.
  - intros E. rewrite (B5 E). f_equal. unfold stop in *. simpl. rewrite zlen_app. lia.
Qed.

(** The first [n] bytes of a buffer and the rest. *)
Lemma kept_cut W sent fin b n :
  kept W sent fin b -> 0 < n < zlen (data b) ->
  let front := mkBuffer (take (Z.to_nat n) (data b)) (offset b) false in
  let rest := mkBuffer (drop (Z.to_nat n) (data b)) (offset b + n) (eof b) in
  kept W sent fin front /\ kept W sent fin rest /\ span_end front = offset b + n /\ span_end rest = span_end b.
Proof.
  intros (A1 & A2 & A3 & A4 & A5) Hn front rest.
  assert (H1 : span_end front = offset b + n) by (unfold span_end, stop, zlen in *; simpl; rewrite length_take; lia).
  assert (H2 : stop rest = stop b) by (unfold stop, zlen in *; simpl; rewrite length_drop; lia).
  assert (H3 : span_end rest = span_end b) by (unfold span_end; rewrite H2; done).
  assert (stop b <= span_end b) by (unfold span_end; destruct (eof b); lia). unfold stop in *.
  split_and!; try done; unfold kept; rewrite ?H1, ?H3; simpl; split_and!; try (done || lia).
  - etransitivity; [apply prefix_take|done].
  - apply prefix_drop with (k := Z.to_nat n) in A2. rewrite drop_drop in A2. by rewrite Z2Nat.inj_add by lia.
  - intros E. rewrite (A5 E). f_equal. symmetry. exact H2.
Qed.

Lemma kept_more W W' sent sent' fin fin' b :
  kept W sent fin b -> W `prefix_of` W' -> sent <= sent' -> (fin = Some (stop b) -> fin' = Some (stop b)) ->
  kept W' sent' fin' b.
Proof.
  intros (A1 & A2 & A3 & A4 & A5) HW Hs Hf. unfold kept. split_and!; try (done || lia); [|intros E; by apply Hf, A5].
  etransitivity; [exact A2|]. by apply prefix_drop.
Qed.

(** ** The loss buffer *)

Lemma upper_bound_parts l off :
  exists pre post, l = pre ++ post /\ upper_bound_offset l off = length pre /\ Forall (fun b => offset b <= off) pre /\
    match post with [] => True | b :: _ => off < offset b end.
Proof.
  induction l as [|b l (pre & post & -> & E & H1 & H2)]; [by exists [], []|]. simpl.
  destruct (Z.ltb_spec off (offset b)); [by exists [], (b :: pre ++ post)|].
  exists (b :: pre), post. simpl. rewrite E, Forall_cons. split_and!; (done || lia).
Qed.

Section Loss.
Context (W : list Z) (sent : Z) (fin : option Z) (pre post : list StreamBuffer) (buf : StreamBuffer).
Context (Hl : Forall (kept W sent fin) (pre ++ post)) (Hsp : spaced 0 (pre ++ post)) (Hb : kept W sent fin buf).
Context (Hdis : forall p, occupies buf p -> ~ in_list (pre ++ post) p).
Context (Hpre : Forall (fun b => offset b <= offset buf) pre).
Context (Hpost : match post with [] => True | b :: _ => offset buf < offset b end).

Lemma loss_after lo : lo <= span_end buf -> spaced lo post.
Proof.
  intros Hlo. destruct (spaced_split _ _ _ Hsp) as [_ Hs2]. destruct post as [|b post']; [done|].
  destruct Hs2 as (S1 & S2 & S3). simpl. split_and!; [|done..].
  destruct (Z.le_gt_cases (span_end buf) (offset b)); [lia|]. exfalso. apply (Hdis (offset b)); [unfold occupies; lia|].
  apply in_list_app. right. apply in_list_cons. left. unfold occupies. lia.
Qed.

Lemma loss_before : Forall (fun x => span_end x <= offset buf) pre.
Proof.
  apply Forall_forall. intros x Hx. rewrite Forall_forall in Hpre. specialize (Hpre x Hx). simpl in Hpre.
  destruct (Z.le_gt_cases (span_end x) (offset buf)); [done|]. exfalso. destruct Hb as (_ & _ & B3 & _).
  apply (Hdis (offset buf)); [unfold occupies; lia|].
  apply in_list_app. left. apply Exists_exists. exists x. split; [done|]. unfold occupies. lia.
Qed.

Lemma loss_insert :
  Forall (kept W sent fin) (pre ++ buf :: post) /\ spaced 0 (pre ++ buf :: post) /\
  (forall p, in_list (pre ++ buf :: post) p <-> in_list (pre ++ post) p \/ occupies buf p).
Proof.
  pose proof Hl as [Hl1 Hl2]%Forall_app. destruct (spaced_split _ _ _ Hsp) as [Hs1 _]. pose proof Hb as (B1 & B2 & B3 & _). split_and!.
  - apply Forall_app. split; [done|]. by apply Forall_cons.
  - apply (spaced_app _ _ _ (offset buf)); [done|apply loss_before|done|].
    intros lo Hlo. simpl. split_and!; [done..|]. by apply loss_after.
  - intros p. rewrite !in_list_app, in_list_cons. tauto.
Qed.
End Loss.

Lemma loss_join W sent fin pre prev post buf :
  Forall (kept W sent fin) ((pre ++ [prev]) ++ post) -> spaced 0 ((pre ++ [prev]) ++ post) -> kept W sent fin buf ->
  (forall lo, lo <= span_end buf -> spaced lo post) -> span_end prev <= offset buf -> stop prev = offset buf ->
  let j := mkBuffer (data prev ++ data buf) (offset prev) (eof buf) in
  Forall (kept W sent fin) (pre ++ j :: post) /\ spaced 0 (pre ++ j :: post) /\
  (forall p, in_list (pre ++ j :: post) p <-> in_list ((pre ++ [prev]) ++ post) p \/ occupies buf p).
Proof.
  intros Hl Hsp Hb Hafter Hle Hst j. rewrite <- app_assoc in Hl, Hsp |- *. simpl in Hl, Hsp |- *.
  destruct (spaced_around _ _ _ _ Hsp) as (S1 & S2 & S3 & _). destruct (spaced_split _ _ _ Hsp) as [Hs1 _].
  apply Forall_app in Hl as [Hl1 [Hp Hl2]%Forall_cons].
  assert (He : eof prev = false) by (unfold span_end in Hle; destruct (eof prev); [lia|done]).
  assert (Hspan : span_end j = span_end buf) by by apply span_join.
  assert (Hj : kept W sent fin j) by by apply kept_join.
  assert (Hprev : span_end prev = offset buf) by (unfold span_end; rewrite He; lia).
  pose proof Hb as (_ & _ & B3 & _). split_and!.
  - apply Forall_app. split; [done|]. by apply Forall_cons.
  - apply (spaced_app _ _ _ (offset prev)); [done..|]. intros lo Hlo. simpl. rewrite Hspan.
    split_and!; [done|lia|by apply Hafter].
  - intros p. rewrite !in_list_app, !in_list_cons. unfold occupies. rewrite Hspan. simpl.
    split; [intros [?|[?|?]]; [tauto| |tauto]|intros [[?|[?|?]]|?]; [tauto| |tauto|]; right; left; lia].
    destruct (Z.lt_ge_cases p (offset buf)); [left; right; left; lia|right; lia].
Qed.

(** What has been lost goes in order into the loss buffer. *)
Lemma loss_ok W sent fin l buf :
  sent < 2 ^ 64 -> Forall (kept W sent fin) l -> spaced 0 l -> kept W sent fin buf ->
  (forall p, occupies buf p -> ~ in_list l p) ->
  Forall (kept W sent fin) (insertIntoLossBuffer l buf) /\ spaced 0 (insertIntoLossBuffer l buf) /\
  (forall p, in_list (insertIntoLossBuffer l buf) p <-> in_list l p \/ occupies buf p).
Proof.
  intros Hsent Hl Hsp Hb Hdis. unfold insertIntoLossBuffer.
  destruct (upper_bound_parts l (offset buf)) as (pre & post & -> & -> & Hpre & Hpost).
  pose proof (loss_insert W sent fin pre post buf Hl Hsp Hb Hdis Hpre Hpost) as Hins.
  destruct pre as [|prev pre' _] using rev_ind; [done|].
  rewrite take_app_length, drop_app_length. rewrite length_app. simpl length.
  rewrite decide_False by lia. replace (length pre' + 1 - 1)%nat with (length pre') by lia.
  assert (Hlk : ((pre' ++ [prev]) ++ post) !! length pre' = Some prev) by (rewrite <- app_assoc; by apply list_lookup_middle).
  assert (Hup : forall j, <[length pre' := j]> ((pre' ++ [prev]) ++ post) = pre' ++ j :: post).
  { intros j. rewrite <- app_assoc. apply IntervalSet.update_middle. }
  assert (Hst : u64 (offset prev + zlen (data prev)) = stop prev).
  { apply Forall_app in Hl as [[_ [Hp _]%Forall_cons]%Forall_app _]. destruct Hp as (P1 & _ & P3 & P4 & _).
    apply u64_id. unfold span_end, stop, zlen in *. destruct (eof prev); ilia. }
  rewrite Hlk, Hst. destruct (Z.eqb_spec (stop prev) (offset buf)); [|done]. rewrite Hup.
  apply loss_join; [done..| | |done].
  - intros lo. by apply (loss_after W sent fin (pre' ++ [prev])).
  - pose proof (loss_before W sent fin (pre' ++ [prev]) post buf Hb Hdis Hpre) as Hbef.
    apply Forall_app in Hbef as [_ [Hbef _]%Forall_cons]. done.
Qed.

(** ** The invariant *)

Definition written (s : Sender) : Z := currentWriteOffset (stream s).

Definition stream_part (W : list Z) (s : Sender) : Prop :=
  let x := stream s in
  zlen W < 2 ^ 61 /\ 0 <= currentWriteOffset x /\ meta_offset (writeBufMeta x) = 0 /\ meta_length (writeBufMeta x) = 0 /\
  pendingWrites x = drop (Z.to_nat (currentWriteOffset x)) W /\
  match finalWriteOffset x with
  | Some f => f = zlen W /\ currentWriteOffset x <= f + 1
  | None => currentWriteOffset x <= zlen W
  end.

Definition buffer_part (W : list Z) (s : Sender) : Prop :=
  let sent := written s in
  let fin := finalWriteOffset (stream s) in
  map_Forall (fun off b => offset b = off /\ kept W sent fin b) (retransmissionBuffer s) /\
  Forall (kept W sent fin) (lossBuffer s) /\ spaced 0 (lossBuffer s) /\ IntervalSet.wf (ackedIntervals s).

(** No position is in two places, and none is nowhere. *)
Definition place_part (s : Sender) : Prop :=
  let R := retransmissionBuffer s in
  (forall off b off' b' p, R !! off = Some b -> R !! off' = Some b' -> occupies b p -> occupies b' p -> off = off') /\
  (forall p, in_map R p -> ~ in_list (lossBuffer s) p) /\
  (forall p, 0 <= p < written s ->
     in_map R p \/ in_list (lossBuffer s) p \/ IntervalSet.member (IntervalSet.intervals (ackedIntervals s)) p).

Definition sender_ok (W : list Z) (s : Sender) : Prop := stream_part W s /\ buffer_part W s /\ place_part s.

Lemma written_bound W s : stream_part W s -> 0 <= written s < 2 ^ 63.
Proof. intros (H1 & H2 & _ & _ & _ & H3). unfold written. destruct (finalWriteOffset (stream s)); lia. Qed.

(** ** The map of frames in flight *)

Lemma in_map_insert R off b p :
  R !! off = None -> in_map (<[off := b]> R) p <-> in_map R p \/ occupies b p.
Proof.
  intros Hn. unfold in_map. split.
  - intros (o & b' & H & Hp). apply lookup_insert_Some in H as [[<- <-]|[_ H]]; eauto.
  - intros [(o & b' & H & Hp)|Hp].
    + exists o, b'. split; [|done]. rewrite lookup_insert_ne; [done|]. intros ->. by rewrite Hn in H.
    + exists off, b. by rewrite lookup_insert_eq.
Qed.

Lemma in_map_delete R off b p :
  (forall off b off' b' p, R !! off = Some b -> R !! off' = Some b' -> occupies b p -> occupies b' p -> off = off') ->
  R !! off = Some b -> in_map (delete off R) p <-> in_map R p /\ ~ occupies b p.
Proof.
  intros Hinj Hb. unfold in_map. split.
  - intros (o & b' & H & Hp). apply lookup_delete_Some in H as [Hne H]. split; [eauto|]. intros Hp'.
    apply Hne. by eapply (Hinj off b o b' p).
  - intros [(o & b' & H & Hp) Hn]. exists o, b'. split; [|done]. apply lookup_delete_Some. split; [|done].
    intros <-. rewrite Hb in H. injection H as <-. done.
Qed.

(** A frame enters the map at a free place. *)
Lemma emplace_ok W sent fin s b :
  map_Forall (fun off b => offset b = off /\ kept W sent fin b) (retransmissionBuffer s) ->
  kept W sent fin b -> (forall p, occupies b p -> ~ in_map (retransmissionBuffer s) p) ->
  (forall off b off' b' p, retransmissionBuffer s !! off = Some b -> retransmissionBuffer s !! off' = Some b' ->
     occupies b p -> occupies b' p -> off = off') ->
  exists R, emplaceRetransmission s (offset b) b = Some (set_retransmission s R) /\
    R = <[offset b := b]> (retransmissionBuffer s) /\ retransmissionBuffer s !! offset b = None /\
    map_Forall (fun off b => offset b = off /\ kept W sent fin b) R /\
    (forall off b off' b' p, R !! off = Some b -> R !! off' = Some b' -> occupies b p -> occupies b' p -> off = off') /\
    (forall p, in_map R p <-> in_map (retransmissionBuffer s) p \/ occupies b p).
Proof.
  intros HR Hb Hfree Hinj. assert (Hnone : retransmissionBuffer s !! offset b = None).
  { destruct (retransmissionBuffer s !! offset b) as [b'|] eqn:E; [|done]. exfalso.
    destruct (HR _ _ E) as [E' (_ & _ & K & _)]. pose proof Hb as (_ & _ & K' & _).
    apply (Hfree (offset b)); [unfold occupies; lia|]. exists (offset b), b'. split; [done|]. unfold occupies. lia. }
  unfold emplaceRetransmission. rewrite Hnone. eexists. split; [done|]. split_and!; [done|done| | |].
  - by apply map_Forall_insert_2.
  - intros o1 b1 o2 b2 p H1 H2 Hp1 Hp2.
    apply lookup_insert_Some in H1 as [[<- <-]|[N1 H1]], H2 as [[<- <-]|[N2 H2]]; [done| | |by eapply Hinj].
    + destruct (Hfree p Hp1). by exists o2, b2.
    + destruct (Hfree p Hp2). by exists o1, b1.
  - intros p. by apply in_map_insert.
Qed.


(** ** Frames *)

Lemma integer_size v n : QuicInteger.getQuicIntegerSize v = Some n -> 1 <= n <= 8.
Proof.
  unfold QuicInteger.getQuicIntegerSize. intros H. repeat (case_match; [injection H as <-; lia|]). done.
Qed.

(** A frame header promises no more than there is, than flow control allows and than fits
    into the packet; a frame is empty only if it has the FIN bit, and has it only if it
    takes all. *)
Lemma header_ok remaining id off len flow fin dataLen fin' :
  0 <= remaining < 2 ^ 32 -> 0 <= len < 2 ^ 63 -> 0 <= flow < 2 ^ 64 ->
  writeStreamFrameHeader remaining id off len flow fin = inr (Some (dataLen, fin')) ->
  0 <= dataLen <= len /\ dataLen <= flow /\ dataLen < remaining /\ (dataLen = 0 -> fin' = true) /\
  fin' = fin && (dataLen =? len).
Proof.
  intros Hr Hlen Hflow. unfold writeStreamFrameHeader.
  destruct (remaining =? 0); [done|]. destruct ((len =? 0) && negb fin); [done|].
  destruct (QuicInteger.getQuicIntegerSize id) as [idSize|] eqn:Eid; [|done]. apply integer_size in Eid.
  destruct (Z.ltb_spec remaining (1 + idSize)); [done|].
  destruct (if off =? 0 then Some 0 else QuicInteger.getQuicIntegerSize off) as [offSize|] eqn:Eoff; [|done].
  assert (Hoff : 0 <= offSize <= 8).
  { destruct (off =? 0); [injection Eoff as <-; lia|]. apply integer_size in Eoff. lia. }
  set (hs := 1 + idSize + offSize). set (room := u64 (remaining - hs)).
  assert (Hroom : 0 <= room < 2 ^ 64) by apply u64_range.
  set (skip := (Z.min len flow >? 0) && (Z.min len flow >=? room)). set (d := Z.min (Z.min len flow) room).
  assert (Hd : 0 <= d <= len /\ d <= flow /\ d <= room) by (unfold d; lia).
  destruct (if skip then Some 0 else _) as [ll|] eqn:Ell; [|done].
  assert (Hll : 0 <= ll <= 8 /\ (skip = true -> ll = 0)).
  { destruct skip; [injection Ell as <-; lia|]. split; [|done]. repeat (case_match; [injection Ell as <-; lia|]). done. }
  destruct ((ll >? 0) && negb (d =? 0) && (hs + ll >=? remaining)) eqn:Efull; [done|].
  set (d2 := if (ll >? 0) && (remaining <? u64 (d + (hs + ll))) then u64 (remaining - (hs + ll)) else d). destruct ((d2 =? 0) && negb (fin && (d2 =? len))) eqn:E0; [done|].
  destruct (Z.ltb_spec remaining (hs + ll)) as [|Hfit]; [done|]. intros [= <- <-].
  assert (Hroom' : room = remaining - hs) by (apply u64_id; unfold hs in *; ilia).
  assert (H2 : 0 <= d2 <= d /\ d2 < remaining).
  { unfold d2. rewrite (u64_id (d + (hs + ll))) by (unfold hs in *; ilia).
    destruct (Z.gtb_spec ll 0), (Z.ltb_spec remaining (d + (hs + ll))); simpl; rewrite ?u64_id by (unfold hs in *; ilia); unfold hs in *; lia. }
  split_and!; [lia..| |done]. intros E. destruct (fin && (d2 =? len)); [done|]. by rewrite E in E0.
Qed.


Lemma header_total remaining id off len flow fin :
  0 <= remaining < 2 ^ 32 -> 0 <= id < 2 ^ 62 -> 0 <= off < 2 ^ 62 -> 0 <= len < 2 ^ 61 -> 0 <= flow ->
  (len = 0 -> fin = true) ->
  exists r, writeStreamFrameHeader remaining id off len flow fin = inr r.
Proof.
  intros Hr Hid Hoff Hlen Hflow Hfin. unfold writeStreamFrameHeader.
  assert (Hsize : forall v, 0 <= v < 2 ^ 62 -> exists n, QuicInteger.getQuicIntegerSize v = Some n).
  { intros v Hv. unfold QuicInteger.getQuicIntegerSize. repeat (case_match; [by eexists|]).
    exfalso. destruct (Z.leb_spec v QuicInteger.kEightByteLimit); [done|]. unfold QuicInteger.kEightByteLimit in *. lia. }
  destruct (remaining =? 0); [by eexists|].
  destruct ((len =? 0) && negb fin) eqn:E0.
  { exfalso. apply andb_true_iff in E0 as [E0%Z.eqb_eq E1]. by rewrite (Hfin E0) in E1. }
  destruct (Hsize id Hid) as [idSize ->]. destruct (remaining <? 1 + idSize); [by eexists|].
  assert (Hos : exists n, (if off =? 0 then Some 0 else QuicInteger.getQuicIntegerSize off) = Some n).
  { destruct (off =? 0); [by eexists|by apply Hsize]. }
  destruct Hos as [offSize ->]. set (d := Z.min _ (u64 _)).
  assert (Hd : d < 2 ^ 61) by (unfold d; lia).
  destruct (if _ && _ then Some 0 else _) as [ll|] eqn:Ell; [|].
  { cbv zeta. do 3 (lazymatch goal with |- exists r, (if ?b then _ else _) = _ => destruct b end; [by eexists|]). by eexists. }
  exfalso. destruct (_ && _) in Ell; [done|]. repeat (case_match; [done|]).
  destruct (Z.leb_spec d (QuicInteger.kEightByteLimit - 8)); [done|]. unfold QuicInteger.kEightByteLimit in *. lia.
Qed.


(** ** Loss and acknowledgement *)

Lemma mark_loss_ok W s off :
  sender_ok W s ->
  sender_ok W (markPacketLoss_stream s off) /\ stream (markPacketLoss_stream s off) = stream s /\
  retransmissionBuffer (markPacketLoss_stream s off) = delete off (retransmissionBuffer s) /\
  ackedIntervals (markPacketLoss_stream s off) = ackedIntervals s.
Proof.
  intros (HS & (B1 & B2 & B3 & B4) & (P1 & P2 & P3)). unfold markPacketLoss_stream.
  destruct (retransmissionBuffer s !! off) as [b|] eqn:E; cycle 1.
  { split_and!; try done. by rewrite delete_id. }
  destruct (B1 _ _ E) as [Eo Hb]. pose proof (written_bound W s HS) as Hw.
  assert (Hfree : forall p, occupies b p -> ~ in_list (lossBuffer s) p) by (intros p Hp; apply P2; by exists off, b).
  destruct (loss_ok W (written s) (finalWriteOffset (stream s)) (lossBuffer s) b) as (L1 & L2 & L3); [lia|done..|].
  pose proof (fun p => in_map_delete (retransmissionBuffer s) off b p P1 E) as Hdel.
  split_and!; try done. unfold sender_ok, buffer_part, place_part. simpl. split_and!; try done.
  - by apply map_Forall_delete.
  - intros o1 b1 o2 b2 p [_ H1]%lookup_delete_Some [_ H2]%lookup_delete_Some. by eapply P1.
  - intros p. rewrite Hdel, L3. intros [H1 H2] [H3|H3]; [by apply (P2 p)|done].
  - intros p Hp. rewrite Hdel, L3. specialize (P3 p Hp). assert (occupies b p \/ ~ occupies b p) by (unfold occupies; lia). tauto.
Qed.

Lemma acked_ok W s b :
  stream_part W s -> IntervalSet.wf (ackedIntervals s) -> kept W (written s) (finalWriteOffset (stream s)) b ->
  exists i, updateAckedIntervals s (offset b) (zlen (data b)) (eof b) = Some (set_acked s i) /\ IntervalSet.wf i /\
    (forall p, IntervalSet.member (IntervalSet.intervals i) p <->
       IntervalSet.member (IntervalSet.intervals (ackedIntervals s)) p \/ occupies b p).
Proof.
  intros HS Hwf (K1 & _ & K3 & K4 & _). pose proof (written_bound W s HS) as Hw. unfold updateAckedIntervals, occupies.
  unfold span_end, stop in *. set (len := zlen (data b)) in *. set (adj := if eof b then 0 else 1).
  assert (Hadj : adj = (if eof b then 0 else 1)) by done. clearbody adj.
  assert (Hlen : negb (adj =? 0) && (len =? 0) = false).
  { destruct (eof b); rewrite Hadj; [done|]. simpl. apply Z.eqb_neq. lia. }
  rewrite Hlen. assert (Hend : offset b <= offset b + len - adj /\ offset b + len - adj < 2 ^ 63) by (destruct (eof b); lia).
  rewrite u64_id by ilia. unfold IntervalSet.insert_range. destruct (Z.gtb_spec (offset b) (offset b + len - adj)); [lia|].
  unfold IntervalSet.make, IntervalSet.unitValue. destruct (Z.gtb_spec (offset b) (offset b + len - adj)); [lia|].
  destruct (Z.gtb_spec (offset b + len - adj) (UINT64_MAX - 1)); [ilia|]. simpl.
  destruct (IntervalSet.interval_insert_ok (ackedIntervals s) (IntervalSet.mkInterval (offset b) (offset b + len - adj)) Hwf) as [W1 W2].
  { unfold IntervalSet.valid. simpl. ilia. }
  eexists. split; [done|]. split; [done|]. intros p. rewrite W2. unfold IntervalSet.has. simpl.
  destruct (eof b); (split; intros [?|?]; [by left|right; lia|by left|right; lia]).
Qed.

(** Everything up to the end has been acknowledged. *)
Definition all_acked (W : list Z) (s : Sender) : Prop :=
  finalWriteOffset (stream s) = Some (zlen W) /\
  forall p, 0 <= p <= zlen W -> IntervalSet.member (IntervalSet.intervals (ackedIntervals s)) p.

Lemma all_bytes_acked W s : sender_ok W s -> allBytesTillFinAcked s = true -> all_acked W s.
Proof.
  intros ((_ & _ & M1 & _ & _ & HF) & _ & (_ & _ & P3)). unfold allBytesTillFinAcked, hasSentFIN. rewrite M1.
  destruct (finalWriteOffset (stream s)) as [f|] eqn:Ef; [|done]. destruct HF as [-> Hle].
  intros [[[H1 H2%bool_decide_eq_true]%andb_true_iff _]%andb_true_iff H4]%andb_true_iff.
  destruct (lossBuffer s) as [|? ?] eqn:El; [|done]. split; [done|]. intros p Hp.
  assert (Hs : currentWriteOffset (stream s) > zlen W).
  { apply orb_true_iff in H1 as [H1%Z.gtb_lt|H1%Z.gtb_lt]; [lia|]. unfold zlen in H1. lia. }
  destruct (P3 p) as [(o & b & E & _)|[H|H]]; [unfold written; lia| | |done].
  - by rewrite H2, lookup_empty in E.
  - by apply in_list_nil in H.
Qed.

Lemma ack_ok W s c b :
  sender_ok W s -> sendState (stream s) = SendOpen -> retransmissionBuffer s !! offset b = Some b ->
  exists s' c', sendAckSMHandler s c (offset b) (zlen (data b)) (eof b) = Some (inr (s', c')) /\ sender_ok W s' /\
    stream s' = set_sendState (stream s) (sendState (stream s')) /\
    retransmissionBuffer s' = delete (offset b) (retransmissionBuffer s) /\
    (forall p, IntervalSet.member (IntervalSet.intervals (ackedIntervals s')) p <->
       IntervalSet.member (IntervalSet.intervals (ackedIntervals s)) p \/ occupies b p) /\
    flowControlState c' = flowControlState c /\
    sendState (stream s') = (if allBytesTillFinAcked s' then SendClosed else SendOpen).
Proof.
  intros Hs Ho E. pose proof Hs as (HS & (B1 & B2 & B3 & B4) & (P1 & P2 & P3)). destruct (B1 _ _ E) as [_ Hb].
  unfold sendAckSMHandler. rewrite Ho, E, !Z.eqb_refl, Bool.eqb_reflx. simpl.
  destruct (acked_ok W s b HS B4 Hb) as (i & -> & I1 & I2). simpl.
  set (s1 := set_retransmission _ _).
  pose proof (fun p => in_map_delete (retransmissionBuffer s) (offset b) b p P1 E) as Hdel.
  assert (Hok : sender_ok W s1).
  { unfold sender_ok, buffer_part, place_part, s1. simpl. split_and!; try done.
    - by apply map_Forall_delete.
    - intros o1 b1 o2 b2 p [_ H1]%lookup_delete_Some [_ H2]%lookup_delete_Some. by eapply P1.
    - intros p. rewrite Hdel. intros [H1 _]. by apply P2.
    - intros p Hp. rewrite Hdel, I2. specialize (P3 p Hp). assert (occupies b p \/ ~ occupies b p) by (unfold occupies; lia). tauto. }
  destruct (allBytesTillFinAcked s1) eqn:Ea; eexists _, _; (split; [done|]).
  - split_and!; [by destruct Hok as (H1 & H2 & H3)|done|done|done|simpl; by destruct (inTerminalStates _)|].
    simpl. change (allBytesTillFinAcked (set_stream s1 _)) with (allBytesTillFinAcked s1). by rewrite Ea.
  - split_and!; try done; [by destruct s as [[] ? ? ?]|by rewrite Ea].
Qed.


(** ** Writing and sending *)

Definition writable (x : Stream) : bool :=
  match sendState x with SendOpen => true | _ => false end && negb (bool_decide (is_Some (finalWriteOffset x))).

(** How many bytes have been sent; the FIN is none. *)
Definition bytesSent (x : Stream) : Z :=
  match finalWriteOffset x with Some f => Z.min (currentWriteOffset x) f | None => currentWriteOffset x end.

(** The sending state machine, and the peer's limit. *)
Definition send_part (s : Sender) : Prop :=
  let x := stream s in
  dsrSender x = false /\ 0 <= id x < 2 ^ 62 /\ bytesSent x <= s_peerAdvertisedMaxOffset (flow x) < 2 ^ 62 /\
  sendState x = (if allBytesTillFinAcked s then SendClosed else SendOpen).

(** A frame in flight, or a lost one, keeps the stream open. *)
Lemma waiting_open s o b : retransmissionBuffer s !! o = Some b -> allBytesTillFinAcked s = false.
Proof.
  intros H. unfold allBytesTillFinAcked. rewrite (bool_decide_eq_false_2 (retransmissionBuffer s = ∅)); [by rewrite andb_false_r|].
  intros E. by rewrite E, lookup_empty in H.
Qed.

Lemma lost_open s : lossBuffer s <> [] -> allBytesTillFinAcked s = false.
Proof. intros H. unfold allBytesTillFinAcked. destruct (lossBuffer s); [done|]. apply andb_false_r. Qed.

Lemma unsent_open s : hasSentFIN (stream s) = false -> allBytesTillFinAcked s = false.
Proof. intros E. unfold allBytesTillFinAcked. by rewrite E. Qed.

Lemma sent_and_pending W s :
  stream_part W s -> bytesSent (stream s) + zlen (pendingWrites (stream s)) = zlen W /\ 0 <= bytesSent (stream s).
Proof.
  intros (H1 & H2 & _ & _ & -> & H3). unfold bytesSent, zlen in *. rewrite length_drop.
  destruct (finalWriteOffset (stream s)); lia.
Qed.

Lemma pending_sent W s :
  stream_part W s -> pendingWrites (stream s) = drop (Z.to_nat (bytesSent (stream s))) W.
Proof.
  intros (H1 & H2 & _ & _ & -> & H3). unfold bytesSent. destruct (finalWriteOffset (stream s)) as [f|]; [|done].
  destruct H3 as [-> H3]. destruct (Z.le_gt_cases (currentWriteOffset (stream s)) (zlen W)); [by rewrite Z.min_l|].
  unfold zlen in *. by rewrite !drop_ge by lia.
Qed.

Lemma blocked_flow x c : flowControlState (maybeWriteBlockAfterAPIWrite x c) = flowControlState c.
Proof. unfold maybeWriteBlockAfterAPIWrite, queueBlocked. by repeat case_match. Qed.

(** The application writes. *)
Lemma write_ok W s c d e :
  sender_ok W s -> send_part s -> writable (stream s) = true -> zlen (W ++ d) < 2 ^ 61 ->
  0 <= sumCurStreamBufferLen (flowControlState c) -> sumCurStreamBufferLen (flowControlState c) + zlen d < 2 ^ 64 ->
  exists x c', writeDataToQuicStream (stream s) c d e = Some (inr (x, c')) /\
    sender_ok (W ++ d) (set_stream s x) /\ send_part (set_stream s x) /\ id x = id (stream s) /\
    bytesSent x = bytesSent (stream s) /\ zlen (pendingWrites x) = zlen (pendingWrites (stream s)) + zlen d /\
    finalWriteOffset x = (if e then Some (zlen (W ++ d)) else None) /\ currentWriteOffset x = currentWriteOffset (stream s) /\
    flow x = flow (stream s) /\
    flowControlState c' = set_sumBuffer (flowControlState c) (sumCurStreamBufferLen (flowControlState c) + zlen d).
Proof.
  intros (HS & (B1 & B2 & B3 & B4) & HP) (S1 & S2 & S3 & S4) Hw HW H0 Hsum. pose proof (sent_and_pending W s HS) as [Hsp Hnn].
  destruct HS as (T1 & T2 & T3 & T4 & T5 & T6). unfold writable in Hw. apply andb_true_iff in Hw as [Hw1 Hw2].
  destruct (finalWriteOffset (stream s)) as [f|] eqn:Ef; [done|]. unfold bytesSent in *. rewrite Ef in *.
  assert (Hopen : sendState (stream s) = SendOpen) by by destruct (sendState (stream s)).
  assert (Hd : 0 <= zlen d) by (unfold zlen; lia).
  assert (Hpend : pendingWrites (stream s) ++ d = drop (Z.to_nat (currentWriteOffset (stream s))) (W ++ d)).
  { rewrite T5, drop_app_le; [done|]. unfold zlen in *. lia. }
  rewrite zlen_app in HW |- *.
  assert (Hfin : u64 (currentWriteOffset (stream s) + zlen (pendingWrites (stream s) ++ d)) = zlen W + zlen d).
  { rewrite zlen_app. rewrite u64_id; [lia|]. unfold zlen in *. ilia. }
  unfold writeDataToQuicStream, updateFlowControlOnWriteToStream, incrementWithOverFlowCheck. rewrite T3, S1, andb_false_r, Hfin, Ef. simpl.
  assert (Hc : flowControlState (if zlen d >? 0 then maybeWriteBlockAfterAPIWrite (stream s) c else c) = flowControlState c).
  { destruct (zlen d >? 0); [apply blocked_flow|done]. }
  set (c1 := if zlen d >? 0 then _ else c) in *. rewrite Hc.
  destruct (Z.gtb_spec (sumCurStreamBufferLen (flowControlState c)) (UINT64_MAX - zlen d)); [ilia|]. rewrite u64_id by ilia.
  eexists _, _. split; [done|].
  assert (Hkept : forall b, kept W (written s) None b -> kept (W ++ d) (written s) (if e then Some (zlen W + zlen d) else None) b).
  { intros b Hb. eapply kept_more; [done|by apply prefix_app_r|done|done]. }
  split_and!.
  - unfold sender_ok, stream_part, buffer_part, place_part. simpl. rewrite zlen_app, <- Hpend. split_and!; try done; try apply HP; [by destruct e; lia| |].
    + eapply map_Forall_impl; [exact B1|]. intros o b [? ?]. split; [done|by apply Hkept].
    + eapply Forall_impl; [exact B2|]. intros b. apply Hkept.
  - unfold send_part. rewrite unsent_open; [unfold bytesSent; simpl; destruct e; (split_and!; (done || lia))|].
    unfold hasSentFIN. simpl. rewrite T3. destruct e; [|done]. apply orb_false_iff. unfold zlen in *. split; zcases; (done || lia).
  - done.
  - simpl. unfold bytesSent. simpl. destruct e; lia.
  - simpl. apply zlen_app.
  - done.
  - done.
  - done.
  - done.
Qed.


(** A stream with something to write has not sent its FIN. *)
Lemma writable_offset W s :
  stream_part W s -> send_part s ->
  exists w, hasWritableData (stream s) = Some w /\
    (w = true -> currentWriteOffset (stream s) = bytesSent (stream s) /\
                 (zlen (pendingWrites (stream s)) = 0 -> finalWriteOffset (stream s) = Some (zlen W))).
Proof.
  intros HS (_ & _ & S3 & _). pose proof (sent_and_pending W s HS) as [Hsp Hnn]. destruct HS as (T1 & T2 & T3 & _ & T5 & T6).
  unfold hasWritableData. rewrite T3. destruct (Z.eqb_spec (zlen (pendingWrites (stream s))) 0) as [E|E]; simpl.
  - destruct (finalWriteOffset (stream s)) as [f|] eqn:Ef; [|by exists false]. destruct T6 as [-> T6].
    eexists. split; [done|]. intros Hle%Z.leb_le. split; [|done]. unfold bytesSent. rewrite Ef. lia.
  - assert (Hlt : currentWriteOffset (stream s) = bytesSent (stream s)).
    { unfold bytesSent in *. destruct (finalWriteOffset (stream s)); [|done]. unfold zlen in *. lia. }
    destruct (Z.ltb_spec (s_peerAdvertisedMaxOffset (flow (stream s))) (currentWriteOffset (stream s))); [lia|].
    eexists. split; [done|]. intros _. by split.
Qed.

(** The frame with new data. *)
Lemma new_frame W s remaining room :
  stream_part W s -> send_part s -> hasWritableData (stream s) = Some true -> 0 <= remaining < 2 ^ 32 -> 0 <= room < 2 ^ 64 ->
  exists r, writeStreamFrame (stream s) remaining room = Some (inr r) /\
    forall b, r = Some b ->
      offset b = written s /\ data b = take (length (data b)) (pendingWrites (stream s)) /\
      written s = bytesSent (stream s) /\ zlen (data b) <= room /\
      bytesSent (stream s) + zlen (data b) <= s_peerAdvertisedMaxOffset (flow (stream s)) /\
      kept W (span_end b) (finalWriteOffset (stream s)) b.
Proof.
  intros HS HP Hw Hr Hroom. pose proof (sent_and_pending W s HS) as [Hsp Hnn].
  destruct (writable_offset W s HS HP) as (w & Hw' & Hoff). rewrite Hw in Hw'. injection Hw' as <-.
  destruct (Hoff eq_refl) as [Hcwo Hempty]. destruct HS as (T1 & T2 & T3 & _ & T5 & T6). destruct HP as (_ & S2 & S3 & _).
  unfold writeStreamFrame. destruct (remaining =? 0); [exists None; by split|]. rewrite Hw. simpl.
  unfold getSendStreamFlowControlBytesWire, nextOffsetToWrite. rewrite T3. simpl. rewrite u64_id by ilia.
  set (flowLen := Z.min _ room). set (len := zlen (pendingWrites (stream s))) in *. rewrite andb_true_r.
  assert (Hlen : 0 <= len) by (unfold len, zlen; lia). assert (HW0 : 0 <= zlen W) by (unfold zlen; lia).
  assert (Hfin0 : len = 0 -> bool_decide (is_Some (finalWriteOffset (stream s))) && (len <=? flowLen) = true).
  { intros E. rewrite (Hempty E). simpl. apply Z.leb_le. unfold flowLen. lia. }
  set (fin := bool_decide (is_Some (finalWriteOffset (stream s))) && (len <=? flowLen)) in *.
  destruct (header_total remaining (id (stream s)) (currentWriteOffset (stream s)) len flowLen fin) as [r Er]; [lia|lia|lia|lia|unfold flowLen; lia|done|].
  rewrite Er. destruct r as [[dataLen fin']|]; [|exists None; by split]. eexists. split; [done|]. intros b [= <-].
  apply header_ok in Er as (D1 & D2 & _ & D3 & D4); [|lia|lia|unfold flowLen; lia].
  assert (Hd : length (take (Z.to_nat dataLen) (pendingWrites (stream s))) = Z.to_nat dataLen).
  { rewrite length_take. unfold len, zlen in *. lia. }
  assert (Hz : zlen (take (Z.to_nat dataLen) (pendingWrites (stream s))) = dataLen) by (unfold zlen; rewrite Hd; lia).
  unfold kept, span_end, stop. simpl. rewrite Hz, Hd. split_and!; try done; try (unfold flowLen in *; lia).
  - rewrite T5. apply prefix_take.
  - destruct fin'; [lia|]. destruct (Z.eq_dec dataLen 0) as [E|E]; [by specialize (D3 E)|lia].
  - intros ->. symmetry in D4. apply andb_true_iff in D4 as [D4 D5%Z.eqb_eq]. unfold fin in D4.
    destruct (finalWriteOffset (stream s)) as [f|]; [|done]. f_equal. lia.
Qed.

Lemma socket_write x c :
  (maybeWriteBlockAfterSocketWrite x c).1 = x \/ (maybeWriteBlockAfterSocketWrite x c).1 = set_pendingBlocked x true.
Proof. unfold maybeWriteBlockAfterSocketWrite. repeat case_match; simpl; auto. Qed.

Lemma socket_write_flow x c :
  flowControlState (maybeWriteDataBlockedAfterSocketWrite (maybeWriteBlockAfterSocketWrite x c).2) = flowControlState c.
Proof.
  unfold maybeWriteDataBlockedAfterSocketWrite, maybeWriteBlockAfterSocketWrite, queueBlocked. by repeat (simpl; case_match).
Qed.

Lemma pending_blocked W s : sender_ok W s -> sender_ok W (set_stream s (set_pendingBlocked (stream s) true)).
Proof. done. Qed.

(** The buffers after a frame with new data. *)
Lemma new_data_ok W s b :
  sender_ok W s -> offset b = written s -> data b = take (length (data b)) (pendingWrites (stream s)) ->
  written s = bytesSent (stream s) -> kept W (span_end b) (finalWriteOffset (stream s)) b ->
  exists s', handleNewStreamDataWritten s (zlen (data b)) (eof b) = Some s' /\ sender_ok W s' /\
    stream s' = set_pending (stream s) (drop (length (data b)) (pendingWrites (stream s))) (span_end b) /\
    retransmissionBuffer s' = <[offset b := b]> (retransmissionBuffer s) /\ retransmissionBuffer s !! offset b = None /\
    lossBuffer s' = lossBuffer s /\ ackedIntervals s' = ackedIntervals s.
Proof.
  intros (HS & (B1 & B2 & B3 & B4) & (P1 & P2 & P3)) Hoff Hdata Hsent Hb. pose proof (sent_and_pending W s HS) as [Hsp Hnn].
  destruct HS as (T1 & T2 & T3 & T4 & T5 & T6). pose proof Hb as (K1 & K2 & K3 & _ & K5).
  assert (Hle : zlen (data b) <= zlen (pendingWrites (stream s))) by (rewrite Hdata; unfold zlen; rewrite length_take; lia).
  assert (Hlt : 0 <= zlen (data b)) by (unfold zlen; lia). unfold written in *.
  assert (Hnext : u64 (u64 (currentWriteOffset (stream s) + zlen (data b)) + (if eof b then 1 else 0)) = span_end b).
  { unfold span_end, stop. rewrite Hoff. rewrite (u64_id (_ + zlen _)) by ilia. apply u64_id. destruct (eof b); ilia. }
  unfold handleNewStreamDataWritten. rewrite Hnext. unfold zlen at 1 2. rewrite Nat2Z.id, <- Hdata.
  set (x := set_pending _ _ _). rewrite <- Hoff.
  replace (mkBuffer (data b) (offset b) (eof b)) with b by by destruct b.
  assert (Hmore : forall y, kept W (currentWriteOffset (stream s)) (finalWriteOffset (stream s)) y -> kept W (span_end b) (finalWriteOffset (stream s)) y).
  { intros y Hy. eapply kept_more; try done. lia. }
  assert (Hnew : forall p, occupies b p -> ~ in_map (retransmissionBuffer s) p /\ ~ in_list (lossBuffer s) p).
  { intros p Hp. unfold occupies in Hp. split.
    - intros (o & y & Hy & Hy'). destruct (B1 o y Hy) as [_ (_ & _ & _ & Y & _)]. unfold occupies in Hy'. unfold written in Y. lia.
    - intros Hx. apply Exists_exists in Hx as (y & Hy & Hy'). rewrite Forall_forall in B2. destruct (B2 y Hy) as (_ & _ & _ & Y & _).
      unfold occupies in Hy'. unfold written in Y. lia. }
  destruct (emplace_ok W (span_end b) (finalWriteOffset (stream s)) (set_stream s x) b) as (R & -> & HR & Hnone & R1 & R2 & R3).
  { simpl. eapply map_Forall_impl; [exact B1|]. intros o y [? ?]. split; [done|by apply Hmore]. }
  { done. }
  { intros p Hp. by apply Hnew. }
  { done. }
  simpl in *. eexists. split; [done|]. split_and!; try done; simpl.
  unfold sender_ok, stream_part, buffer_part, place_part, written. simpl. split_and!; try done.
  - lia.
  - rewrite T5, drop_drop. destruct (eof b) eqn:Ee.
    + specialize (K5 eq_refl). rewrite K5 in T6. destruct T6 as [T6 _]. unfold span_end, stop, zlen in *. rewrite Ee. rewrite !drop_ge by lia. done.
    + f_equal. unfold span_end, stop, zlen in *. rewrite Ee. lia.
  - unfold span_end, stop. destruct (finalWriteOffset (stream s)) as [f|] eqn:Ef.
    + split; [apply T6|]. destruct (eof b); [specialize (K5 eq_refl); injection K5 as ->; unfold stop; lia|]. lia.
    + destruct (eof b); [by specialize (K5 eq_refl)|]. lia.
  - eapply Forall_impl; [exact B2|]. intros y. apply Hmore.
  - intros p. rewrite R3. intros [?|?]; [by apply P2|by apply Hnew].
  - intros p Hp. rewrite R3. destruct (Z.lt_ge_cases p (currentWriteOffset (stream s))).
    + destruct (P3 p) as [?|[?|?]]; [unfold written; lia|auto..].
    + left. right. unfold occupies. lia.
Qed.


(** What a frame that is sent does to the sender: it waits for its acknowledgement. *)
Definition departs (W : list Z) (s : Sender) (b : StreamBuffer) (s' : Sender) : Prop :=
  sender_ok W s' /\ send_part s' /\ id (stream s') = id (stream s) /\ finalWriteOffset (stream s') = finalWriteOffset (stream s) /\
  s_peerAdvertisedMaxOffset (flow (stream s')) = s_peerAdvertisedMaxOffset (flow (stream s)) /\
  bytesSent (stream s) <= bytesSent (stream s') /\ written s <= written s' /\ kept W (written s') (finalWriteOffset (stream s)) b /\ ackedIntervals s' = ackedIntervals s /\
  retransmissionBuffer s' = <[offset b := b]> (retransmissionBuffer s) /\ retransmissionBuffer s !! offset b = None.

Lemma new_ok W s c b :
  sender_ok W s -> send_part s -> offset b = written s -> data b = take (length (data b)) (pendingWrites (stream s)) ->
  written s = bytesSent (stream s) -> kept W (span_end b) (finalWriteOffset (stream s)) b ->
  bytesSent (stream s) + zlen (data b) <= s_peerAdvertisedMaxOffset (flow (stream s)) ->
  0 <= sumCurWriteOffset (flowControlState c) -> sumCurWriteOffset (flowControlState c) + zlen (data b) < 2 ^ 64 ->
  zlen (pendingWrites (stream s)) <= sumCurStreamBufferLen (flowControlState c) < 2 ^ 64 ->
  exists s' c', updateConnection_stream s c (offset b) (zlen (data b)) (eof b) = Some (inr (s', c')) /\
    departs W s b s' /\
    bytesSent (stream s') = bytesSent (stream s) + zlen (data b) /\
    zlen (pendingWrites (stream s')) = zlen (pendingWrites (stream s)) - zlen (data b) /\
    flowControlState c' = set_sumBuffer (set_sumWrite (flowControlState c) (sumCurWriteOffset (flowControlState c) + zlen (data b)))
                            (sumCurStreamBufferLen (flowControlState c) - zlen (data b)).
Proof.
  intros Hs Hp Hoff Hdata Hsent Hb Hpeer Hc0 Hc1 Hc2.
  destruct (new_data_ok W s b Hs Hoff Hdata Hsent Hb) as (s1 & Hnew & Hs1 & Hx & HR & Hnone & Hl & Ha).
  assert (Hopen : sendState (stream s) = SendOpen).
  { destruct Hp as (_ & _ & _ & ->). rewrite unsent_open; [done|]. destruct Hs as [(_ & _ & T3 & _ & _ & T6) _]. unfold hasSentFIN, bytesSent, written in *.
    rewrite T3. destruct (finalWriteOffset (stream s)) as [f|]; [|done]. destruct T6 as [-> _].
    apply orb_false_iff. split; zcases; try done; unfold zlen in *; lia. }
  assert (Hlt : 0 <= zlen (data b) <= zlen (pendingWrites (stream s))) by (split; [|rewrite Hdata]; unfold zlen; rewrite ?length_take; lia).
  destruct (sent_and_pending W s (proj1 Hs)) as [Hsp Hnn]. destruct (sent_and_pending W s1 (proj1 Hs1)) as [Hsp' Hnn'].
  assert (Hpend : zlen (pendingWrites (stream s1)) = zlen (pendingWrites (stream s)) - zlen (data b)).
  { rewrite Hx. simpl. unfold zlen in *. rewrite length_drop. lia. }
  unfold updateConnection_stream, handleStreamWritten. rewrite Hoff. unfold written. rewrite Z.eqb_refl, Hnew. simpl.
  unfold updateFlowControlOnWriteToSocket, incrementWithOverFlowCheck.
  destruct (Z.gtb_spec (sumCurWriteOffset (flowControlState c)) (UINT64_MAX - zlen (data b))); [ilia|]. rewrite !u64_id by ilia.
  set (c1 := set_flow c _). pose proof (socket_write (stream s1) c1) as Hw. pose proof (socket_write_flow (stream s1) c1) as Hf.
  destruct (maybeWriteBlockAfterSocketWrite (stream s1) c1) as [x c2]. simpl in Hw, Hf. eexists _, _. split; [done|].
  assert (Hok : sender_ok W (set_stream s1 x) /\ id x = id (stream s1) /\ finalWriteOffset x = finalWriteOffset (stream s1) /\
    bytesSent x = bytesSent (stream s1) /\ pendingWrites x = pendingWrites (stream s1) /\ currentWriteOffset x = currentWriteOffset (stream s1) /\
    dsrSender x = dsrSender (stream s1) /\ sendState x = sendState (stream s1) /\
    s_peerAdvertisedMaxOffset (flow x) = s_peerAdvertisedMaxOffset (flow (stream s1))).
  { destruct Hw as [->| ->]; [by destruct s1|]. split; [by apply pending_blocked|done]. }
  destruct Hok as (O1 & O2 & O3 & O4 & O5 & O6 & O7 & O8 & O9). split_and!; [|simpl; rewrite O4; lia|simpl; by rewrite O5|exact Hf].
  unfold departs, send_part, written. simpl. rewrite O2, O3, O4, O6, O7, O8, O9, Ha, HR, Hx. simpl.
  rewrite (waiting_open _ (offset b) b) by (simpl; rewrite HR; apply lookup_insert_eq).
  destruct Hp as (Q1 & Q2 & Q3 & _). rewrite Hx in Hsp'. split_and!; try done.
  all: rewrite Hx in Hpend; pose proof Hb as (_ & _ & K3 & _); unfold written in Hoff; lia.
Qed.


(** ** Sending again *)

(** The elements of the loss buffer around one of them. *)
Lemma lower_bound_middle lo pre b post :
  spaced lo (pre ++ b :: post) -> lower_bound_offset (pre ++ b :: post) (offset b) = length pre.
Proof.
  revert lo. induction pre as [|x pre IH]; intros lo; simpl; [by rewrite Z.ltb_irrefl|].
  intros (H1 & H2 & H3). rewrite (IH _ H3). destruct (spaced_around _ _ _ _ H3) as (_ & H4 & _).
  destruct (Z.ltb_spec (offset x) (offset b)); [done|lia].
Qed.

(** One element of the loss buffer becomes what is left of it; the front goes out. *)
Lemma loss_leaves W s pre lb post front rest :
  sender_ok W s -> lossBuffer s = pre ++ lb :: post ->
  kept W (written s) (finalWriteOffset (stream s)) front ->
  Forall (kept W (written s) (finalWriteOffset (stream s))) rest ->
  spaced 0 (pre ++ rest ++ post) ->
  (forall p, occupies lb p <-> occupies front p \/ in_list rest p) -> (forall p, occupies front p -> ~ in_list (pre ++ rest ++ post) p) ->
  exists s', emplaceRetransmission (set_loss s (pre ++ rest ++ post)) (offset front) front = Some s' /\
    sender_ok W s' /\ stream s' = stream s /\ ackedIntervals s' = ackedIntervals s /\
    retransmissionBuffer s' = <[offset front := front]> (retransmissionBuffer s) /\
    retransmissionBuffer s !! offset front = None.
Proof.
  intros (HS & (B1 & B2 & B3 & B4) & (P1 & P2 & P3)) El Hf Hr Hsp Hocc Hdis. rewrite El in B2, P2, P3.
  assert (Hin : forall p, in_list (pre ++ lb :: post) p <-> in_list (pre ++ rest ++ post) p \/ occupies front p).
  { intros p. rewrite !in_list_app, in_list_cons, Hocc. tauto. }
  destruct (emplace_ok W (written s) (finalWriteOffset (stream s)) (set_loss s (pre ++ rest ++ post)) front) as (R & -> & HR & Hnone & R1 & R2 & R3).
  { done. } { done. } { simpl. intros p Hp Hm. apply (P2 p Hm), Hin. by right. } { done. }
  eexists. split; [done|]. split_and!; try done. apply Forall_app in B2 as [B2 [_ B2']%Forall_cons].
  unfold sender_ok, buffer_part, place_part. simpl. split_and!; try done.
  - by rewrite !Forall_app.
  - intros p. rewrite R3. intros [Hm|Hm]; [|by apply Hdis]. intros Hl. apply (P2 p Hm), Hin. by left.
  - intros p Hp. rewrite R3. simpl. destruct (P3 p Hp) as [?|[?%Hin|?]]; tauto.
Qed.

Section Retransmission.
Context (W : list Z) (s : Sender) (c : Conn) (pre post : list StreamBuffer) (lb : StreamBuffer).
Context (Hs : sender_ok W s) (Hp : send_part s) (El : lossBuffer s = pre ++ lb :: post).

(** The frame finds the element it was made from. *)
Lemma retransmission_found n fin s' :
  handleRetransmissionWritten s (offset lb) n fin (length pre) = Some s' ->
  updateConnection_stream s c (offset lb) n fin = Some (inr (s', c)).
Proof.
  intros E. destruct Hs as (HS & (_ & B2 & B3 & _) & _). rewrite El in B2, B3.
  apply Forall_app in B2 as [_ [(_ & _ & K3 & K4 & _) _]%Forall_cons].
  unfold updateConnection_stream, handleStreamWritten. unfold written in K4.
  destruct (Z.eqb_spec (offset lb) (currentWriteOffset (stream s))); [lia|].
  destruct (Z.gtb_spec (offset lb) (currentWriteOffset (stream s))); [lia|].
  rewrite El, (lower_bound_middle _ _ _ _ B3), list_lookup_middle by done. by rewrite Z.eqb_refl, E.
Qed.

Lemma retransmission_departs front rest :
  kept W (written s) (finalWriteOffset (stream s)) front ->
  Forall (kept W (written s) (finalWriteOffset (stream s))) rest ->
  (forall lo, lo <= offset lb -> spaced lo (rest ++ post)) ->
  (forall p, occupies lb p <-> occupies front p \/ in_list rest p) ->
  (forall p, occupies front p -> ~ in_list rest p) ->
  exists s', emplaceRetransmission (set_loss s (pre ++ rest ++ post)) (offset front) front = Some s' /\
    departs W s front s' /\ stream s' = stream s.
Proof.
  intros F1 F2 F3 F4 F5. pose proof Hs as (HS & (_ & _ & B3 & _) & _). rewrite El in B3.
  destruct (spaced_around _ _ _ _ B3) as (A1 & A2 & _ & A3). apply spaced_split in B3 as [Hpre _].
  assert (Hsp : spaced 0 (pre ++ rest ++ post)) by by apply (spaced_app _ _ _ (offset lb)).
  destruct (loss_leaves W s pre lb post front rest Hs El F1 F2 Hsp F4) as (s' & E1 & E2 & E3 & E4 & E5 & E6).
  { intros p Hpp. assert (Hlb : occupies lb p) by (apply F4; by left). unfold occupies in Hlb.
    rewrite !in_list_app. intros [X|[X|X]]; [|by apply (F5 p)|]; apply Exists_exists in X as (y & Hy & Hy'); unfold occupies in Hy'.
    - rewrite Forall_forall in A1. specialize (A1 y Hy). simpl in A1. lia.
    - apply spaced_above in A3. rewrite Forall_forall in A3. specialize (A3 y Hy). simpl in A3. lia. }
  exists s'. split; [done|]. split; [|done]. destruct Hp as (Q1 & Q2 & Q3 & Q4). unfold departs, send_part, written. rewrite E3.
  rewrite (waiting_open s' (offset front) front) by (rewrite E5; apply lookup_insert_eq).
  split_and!; try done; try lia. rewrite Q4, lost_open; [done|]. rewrite El. by destruct pre.
Qed.

(** All of it is sent again. *)
Lemma retransmission_whole :
  exists s', updateConnection_stream s c (offset lb) (zlen (data lb)) (eof lb) = Some (inr (s', c)) /\
    departs W s lb s' /\ stream s' = stream s.
Proof.
  pose proof Hs as (_ & (_ & B2 & B3 & _) & _). rewrite El in B2, B3. apply Forall_app in B2 as [_ [Hlb _]%Forall_cons].
  destruct (spaced_around _ _ _ _ B3) as (_ & _ & A2 & A3).
  destruct (retransmission_departs lb []) as (s' & E1 & E2); [done..| | | |].
  - intros lo Hlo. eapply spaced_weaken; [|exact A3]. lia.
  - intros p. pose proof (in_list_nil p). tauto.
  - intros p _. apply in_list_nil.
  - exists s'. split; [|done]. apply retransmission_found. unfold handleRetransmissionWritten.
    rewrite El, list_lookup_middle by done. simpl. rewrite Z.eqb_refl, Bool.eqb_reflx. simpl.
    rewrite delete_middle, <- E1. f_equal. by destruct lb.
Qed.

(** The first [n] bytes are sent again. *)
Lemma retransmission_front n :
  0 < n < zlen (data lb) ->
  let front := mkBuffer (take (Z.to_nat n) (data lb)) (offset lb) false in
  exists s', updateConnection_stream s c (offset lb) n false = Some (inr (s', c)) /\
    departs W s front s' /\ stream s' = stream s.
Proof.
  intros Hn front. pose proof Hs as (HS & (_ & B2 & B3 & _) & _). pose proof (written_bound W s HS) as Hwb.
  rewrite El in B2, B3. apply Forall_app in B2 as [_ [Hlb _]%Forall_cons]. destruct (spaced_around _ _ _ _ B3) as (_ & A1 & _ & A3).
  destruct (kept_cut _ _ _ lb n Hlb Hn) as (C1 & C2 & C3 & C4). fold front in C1, C3.
  set (rest := mkBuffer (drop (Z.to_nat n) (data lb)) (offset lb + n) (eof lb)) in *. pose proof C2 as (_ & _ & C5 & C6 & _).
  destruct (retransmission_departs front [rest]) as (s' & E1 & E2); [done|by apply Forall_singleton| | | |].
  - intros lo Hlo. simpl. rewrite C4. split_and!; [lia|by rewrite <- C4|done].
  - intros p. rewrite in_list_cons. pose proof (in_list_nil p). unfold occupies. rewrite C3, C4. simpl in *.
    split; [intros ?; destruct (Z.lt_ge_cases p (offset lb + n)); [left; lia|right; left; lia]|intros [?|[?|?]]; (done || lia)].
  - intros p Hpp. rewrite in_list_cons. pose proof (in_list_nil p). unfold occupies in *. rewrite C3 in Hpp. simpl in *. intros [?|?]; (done || lia).
  - exists s'. split; [|done]. apply retransmission_found. unfold handleRetransmissionWritten.
    rewrite El, list_lookup_middle by done. simpl. destruct (Z.eqb_spec n (zlen (data lb))); [lia|]. simpl.
    rewrite u64_id by (simpl in *; ilia). rewrite <- E1. f_equal. f_equal. apply IntervalSet.update_middle.
Qed.
End Retransmission.

(** A lost frame, or its front, is sent again. *)
Lemma retransmission_ok W s c k lb remaining :
  sender_ok W s -> send_part s -> lossBuffer s !! k = Some lb -> 0 <= remaining < 2 ^ 32 ->
  exists r, writeLossBuffer (stream s) lb remaining = inr r /\
    forall b, r = Some b ->
      exists s', updateConnection_stream s c (offset b) (zlen (data b)) (eof b) = Some (inr (s', c)) /\
        departs W s b s' /\ stream s' = stream s.
Proof.
  intros Hs Hp Hk Hr. pose proof Hs as (HS & (_ & B2 & _ & _) & _). pose proof Hp as (_ & Q2 & _).
  pose proof (Forall_lookup_1 _ _ _ _ B2 Hk) as (K1 & K2 & K3 & K4 & _). apply list_elem_of_split_length in Hk as (pre & post & El & ->).
  assert (Hlen : zlen (data lb) < 2 ^ 61 /\ offset lb < 2 ^ 62).
  { destruct HS as (T1 & _ & _ & _ & _ & T6). pose proof (prefix_length _ _ K2) as Hl. rewrite length_drop in Hl. unfold written, zlen in *.
    destruct (finalWriteOffset (stream s)); lia. }
  assert (Hnn : 0 <= zlen (data lb)) by (unfold zlen; lia). unfold writeLossBuffer.
  destruct (header_total remaining (id (stream s)) (offset lb) (zlen (data lb)) (zlen (data lb)) (eof lb)) as [r Er]; [done|done|lia|lia|lia| |].
  { intros E. unfold span_end, stop in K3. destruct (eof lb); [done|lia]. }
  rewrite Er. destruct r as [[n fin]|]; [|exists None; by split]. eexists. split; [done|]. intros b [= <-].
  apply header_ok in Er as (D1 & _ & _ & D3 & D4); [|done|lia..]. simpl.
  assert (Hz : zlen (take (Z.to_nat n) (data lb)) = n) by (unfold zlen in *; rewrite length_take; lia).
  rewrite Hz. destruct (Z.eqb_spec n (zlen (data lb))) as [->|Hne].
  - rewrite andb_true_r in D4. rewrite D4.
    replace (mkBuffer _ _ _) with lb by (unfold zlen; rewrite Nat2Z.id, take_ge by lia; by destruct lb).
    by apply (retransmission_whole W s c pre post).
  - rewrite andb_false_r in D4. rewrite D4 in D3 |- *. apply (retransmission_front W s c pre post lb Hs Hp El n).
    destruct (Z.eq_dec n 0) as [E|E]; [by specialize (D3 E)|lia].
Qed.

Lemma loss_insert_nonempty l buf : insertIntoLossBuffer l buf <> [].
Proof.
  unfold insertIntoLossBuffer. set (k := upper_bound_offset _ _).
  destruct (if decide (k = O) then None else l !! (k - 1)%nat) as [prev|] eqn:E; [|by destruct (take k l)].
  destruct (_ =? _); [|by destruct (take k l)]. destruct (decide (k = O)); [done|]. destruct l as [|x l]; [done|].
  by destruct (k - 1)%nat.
Qed.

Lemma mark_loss_send W s off : sender_ok W s -> send_part s -> send_part (markPacketLoss_stream s off).
Proof.
  intros Hs (Q1 & Q2 & Q3 & Q4). destruct (mark_loss_ok W s off Hs) as (_ & E1 & _ & _). unfold send_part. rewrite E1.
  split_and!; try (done || lia). rewrite Q4. unfold markPacketLoss_stream.
  destruct (retransmissionBuffer s !! off) as [b|] eqn:E; [|done]. rewrite (waiting_open s off b E), lost_open; [done|]. apply loss_insert_nonempty.
Qed.

Lemma ack_send W s c b :
  sender_ok W s -> send_part s -> retransmissionBuffer s !! offset b = Some b ->
  exists s' c', sendAckSMHandler s c (offset b) (zlen (data b)) (eof b) = Some (inr (s', c')) /\
    sender_ok W s' /\ send_part s' /\ stream s' = set_sendState (stream s) (sendState (stream s')) /\
    retransmissionBuffer s' = delete (offset b) (retransmissionBuffer s) /\
    (forall p, IntervalSet.member (IntervalSet.intervals (ackedIntervals s')) p <->
       IntervalSet.member (IntervalSet.intervals (ackedIntervals s)) p \/ occupies b p) /\
    flowControlState c' = flowControlState c.
Proof.
  intros Hs (Q1 & Q2 & Q3 & Q4) E. rewrite (waiting_open s _ b E) in Q4.
  destruct (ack_ok W s c b Hs Q4 E) as (s' & c' & E1 & E2 & E3 & E4 & E5 & E6 & E7). exists s', c'. split_and!; try done.
  unfold send_part. rewrite <- E7. split_and!; try done; rewrite E3; try done; [apply Q2|apply Q2|apply Q3|apply Q3].
Qed.

End QuicSendBuffers.
