(* ===== verification/QuicSending.v ===== *)
(** * The sending side of a connection

    Any number of streams, one connection: the application writes, the scheduler sends
    frames with new data and with what was lost, packets are declared lost and are
    acknowledged, and the peer raises its limits.  A packet carries one stream frame; one
    with several is several packets here.

    [outstanding] are the frames of the packets that are neither acknowledged nor declared
    lost; [wire] is everything that was ever sent, [acknowledged] what was acknowledged and
    [accepted] what has been taken from the application. *)

From stdpp Require Import gmap.
From S2P Require Import Prelude QuicInteger IntervalSet QuicStream QuicReassembly QuicFlowControl QuicReceive QuicDelivery QuicSend QuicSendBuffers.

Module QuicSending.
Import QuicStream QuicReassembly QuicFlowControl QuicReceive QuicDelivery QuicSend QuicSendBuffers.

Record Endpoint := mkEndpoint {
  senders : gmap Z Sender;
  econn : Conn;
  outstanding : list (Z * StreamBuffer);
  wire : list (Z * StreamBuffer);
  acknowledged : list (Z * StreamBuffer);
  accepted : list (Z * list Z * bool)
}.

Inductive Action :=
| WriteChain (n : Z) (d : list Z) (e : bool)
| SendNew (n remaining : Z)
| SendAgain (n : Z) (k : nat) (remaining : Z)
| PacketLost (i : nat)
| PacketAcked (i : nat)
| MaxStreamDataFrame (n maximumData : Z)
| MaxDataFrame (maximumData : Z).

(** A packet with the frame [b] of stream [n] goes out. *)
Definition sendFrame (n : Z) (s : Sender) (b : StreamBuffer) (p : Endpoint) : option (Exception + Endpoint) :=
  r ← updateConnection_stream s (econn p) (offset b) (zlen (data b)) (eof b);
  Some match r with
       | inl e => inl e
       | inr (s, c) => inr (mkEndpoint (<[n := s]> (senders p)) c (outstanding p ++ [(n, b)]) (wire p ++ [(n, b)]) (acknowledged p) (accepted p))
       end.

(** The stream of an action; a stream that is not there is left alone. *)
Definition with_sender (n : Z) (p : Endpoint) (f : Sender -> option (Exception + Endpoint)) : option (Exception + Endpoint) :=
  match senders p !! n with None => Some (inr p) | Some s => f s end.

(** The application writes; nothing is taken on a stream that is not writable. *)
Definition writeChain (n : Z) (d : list Z) (e : bool) (p : Endpoint) : option (Exception + Endpoint) :=
  with_sender n p (fun s =>
    if negb (writable (stream s)) then Some (inr p)
    else
      r ← writeDataToQuicStream (stream s) (econn p) d e;
      Some match r with
           | inl err => inl err
           | inr (x, c) => inr (mkEndpoint (<[n := set_stream s x]> (senders p)) c (outstanding p) (wire p) (acknowledged p)
                                  (accepted p ++ [(n, d, e)]))
           end).

(** The scheduler comes to a stream: a packet with new data, if there is some to send. *)
Definition sendNewData (n remaining : Z) (p : Endpoint) : option (Exception + Endpoint) :=
  with_sender n p (fun s =>
    w ← hasWritableData (stream s);
    let connWritableBytes := getSendConnFlowControlBytesWire (econn p) in
    if w && (connWritableBytes >? 0) then
      match writeStreamFrame (stream s) remaining connWritableBytes with
      | None => None
      | Some (inl err) => Some (inl err)
      | Some (inr None) => Some (inr p)
      | Some (inr (Some b)) => sendFrame n s b p
      end
    else Some (inr p)).

(** The same with an element of the loss buffer. *)
Definition sendLossBuffer (n : Z) (k : nat) (remaining : Z) (p : Endpoint) : option (Exception + Endpoint) :=
  with_sender n p (fun s =>
    match lossBuffer s !! k with
    | None => Some (inr p)
    | Some lb =>
        match writeLossBuffer (stream s) lb remaining with
        | inl err => Some (inl err)
        | inr None => Some (inr p)
        | inr (Some b) => sendFrame n s b p
        end
    end).

Definition act (a : Action) (p : Endpoint) : option (Exception + Endpoint) :=
  match a with
  | WriteChain n d e => writeChain n d e p
  | SendNew n remaining => sendNewData n remaining p
  | SendAgain n k remaining => sendLossBuffer n k remaining p
  | PacketLost i =>
      match outstanding p !! i with
      | None => Some (inr p)
      | Some (n, b) =>
          with_sender n p (fun s =>
            Some (inr (mkEndpoint (<[n := markPacketLoss_stream s (offset b)]> (senders p)) (econn p)
                         (delete i (outstanding p)) (wire p) (acknowledged p) (accepted p))))
      end
  | PacketAcked i =>
      match outstanding p !! i with
      | None => Some (inr p)
      | Some (n, b) =>
          with_sender n p (fun s =>
            r ← sendAckSMHandler s (econn p) (offset b) (zlen (data b)) (eof b);
            Some match r with
                 | inl err => inl err
                 | inr (s, c) => inr (mkEndpoint (<[n := s]> (senders p)) c (delete i (outstanding p)) (wire p)
                                        (acknowledged p ++ [(n, b)]) (accepted p))
                 end)
      end
  | MaxStreamDataFrame n v =>
      with_sender n p (fun s =>
        let '(x, c) := handleStreamWindowUpdate (stream s) (econn p) v in
        Some (inr (mkEndpoint (<[n := set_stream s x]> (senders p)) c (outstanding p) (wire p) (acknowledged p) (accepted p))))
  | MaxDataFrame v =>
      Some (inr (mkEndpoint (senders p) (handleConnWindowUpdate (econn p) v) (outstanding p) (wire p) (acknowledged p) (accepted p)))
  end.

Fixpoint actions (h : list Action) (p : Endpoint) : option (Exception + Endpoint) :=
  match h with
  | [] => Some (inr p)
  | a :: h => match act a p with Some (inr p) => actions h p | r => r end
  end.

(** Sizes fit into the types and the wire format: a packet is no larger than a [size_t] of
    32 bits, a limit is a QUIC integer. *)
Definition action_ok (a : Action) : Prop :=
  match a with
  | SendNew _ remaining | SendAgain _ _ remaining => 0 <= remaining < 2 ^ 32
  | MaxStreamDataFrame _ v | MaxDataFrame v => 0 <= v < 2 ^ 62
  | _ => True
  end.

(** How many bytes the application writes. *)
Definition load (a : Action) : Z := match a with WriteChain _ d _ => zlen d | _ => 0 end.
Definition volume (h : list Action) : Z := foldr (fun a n => load a + n) 0 h.

(** ** One stream *)

(** The frames of stream [n]. *)
Definition carried (n : Z) (l : list (Z * StreamBuffer)) : list StreamBuffer :=
  omap (fun '(m, b) => if decide (m = n) then Some b else None) l.

Definition acked_at (s : Sender) (p : Z) : Prop := IntervalSet.member (IntervalSet.intervals (ackedIntervals s)) p.

(** The stream's part of the connection: it has been given [W], its frames in flight are
    [out], those ever sent [sent], those acknowledged [ack]. *)
Definition stream_inv (W : list Z) (told : bool) (out sent ack : list StreamBuffer) (n : Z) (s : Sender) : Prop :=
  id (stream s) = n /\ sender_ok W s /\ send_part s /\
  told = bool_decide (is_Some (finalWriteOffset (stream s))) /\
  (forall b, b ∈ out <-> retransmissionBuffer s !! offset b = Some b) /\ NoDup (offset <$> out) /\
  Forall (kept W (written s) (finalWriteOffset (stream s))) sent /\
  (forall p, acked_at s p <-> in_list ack p).

Lemma carried_app n l m : carried n (l ++ m) = carried n l ++ carried n m.
Proof. apply omap_app. Qed.
Lemma carried_one n b : carried n [(n, b)] = [b].
Proof. unfold carried. simpl. by rewrite decide_True. Qed.
Lemma carried_other m n b : m <> n -> carried m [(n, b)] = [].
Proof. intros H. unfold carried. simpl. by rewrite decide_False. Qed.
Lemma elem_of_carried n b l : b ∈ carried n l <-> (n, b) ∈ l.
Proof.
  unfold carried. rewrite list_elem_of_omap. split.
  - intros ([m b'] & H & E). case_decide; [|done]. by injection E as ->; subst.
  - intros H. exists (n, b). split; [done|]. by rewrite decide_True.
Qed.

(** A frame is sent. *)
Lemma stream_departs W told out sent ack n s b s' :
  stream_inv W told out sent ack n s -> departs W s b s' ->
  stream_inv W told (out ++ [b]) (sent ++ [b]) ack n s'.
Proof.
  intros (I1 & I2 & I3 & I4 & I5 & I6 & I7 & I8) (D1 & D2 & D3 & D4 & _ & _ & D9 & D5 & D6 & D7 & D8).
  assert (Hin : forall y, y ∈ out ++ [b] <-> retransmissionBuffer s' !! offset y = Some y).
  { intros y. rewrite D7, elem_of_app, list_elem_of_singleton, I5, lookup_insert_Some. split.
    - intros [H| ->]; [|by left]. right. split; [|done]. intros E. rewrite E in D8. congruence.
    - intros [[_ ->]|[_ H]]; [by right|by left]. }
  unfold stream_inv, acked_at. rewrite D3, D4, D6. split_and!; try done.
  - rewrite fmap_app. apply NoDup_app. split_and!; [done| |apply NoDup_singleton].
    intros o (y & -> & Hy)%list_elem_of_fmap. simpl. rewrite list_elem_of_singleton. intros E. apply I5 in Hy. rewrite E in Hy. congruence.
  - apply Forall_app. split; [|by apply Forall_singleton]. eapply Forall_impl; [exact I7|]. intros y Hy. by eapply kept_more.
Qed.

Lemma stream_outstanding W told out sent ack n s b :
  stream_inv W told out sent ack n s -> b ∈ out -> retransmissionBuffer s !! offset b = Some b.
Proof. intros (_ & _ & _ & _ & I5 & _) Hb. by apply I5. Qed.

(** The frames that stay in flight when one leaves. *)
Lemma out_delete (l1 l2 : list StreamBuffer) b (R : gmap Z StreamBuffer) :
  (forall y, y ∈ l1 ++ b :: l2 <-> R !! offset y = Some y) -> NoDup (offset <$> l1 ++ b :: l2) ->
  (forall y, y ∈ l1 ++ l2 <-> delete (offset b) R !! offset y = Some y) /\ NoDup (offset <$> l1 ++ l2).
Proof.
  intros H1 H2. rewrite fmap_app, fmap_cons in H2. apply NoDup_app in H2 as (N1 & N2 & [N3 N4]%NoDup_cons). split.
  - intros y. rewrite lookup_delete_Some, <- H1, !elem_of_app, elem_of_cons. split.
    + intros Hy. split; [|tauto]. intros E. destruct Hy as [Hy|Hy]; apply (list_elem_of_fmap_2 offset) in Hy; rewrite <- E in Hy; [|done].
      apply (N2 _ Hy). by left.
    + intros [Hne [?|[->|?]]]; [by left|done|by right].
  - rewrite fmap_app. apply NoDup_app. split_and!; [done| |done]. intros o Ho Ho'. apply (N2 o Ho). by right.
Qed.

(** A packet is lost. *)
Lemma stream_loses W told l1 b l2 sent ack n s :
  stream_inv W told (l1 ++ b :: l2) sent ack n s ->
  stream_inv W told (l1 ++ l2) sent ack n (markPacketLoss_stream s (offset b)).
Proof.
  intros (I1 & I2 & I3 & I4 & I5 & I6 & I7 & I8). destruct (mark_loss_ok W s (offset b) I2) as (L1 & L2 & L3 & L4).
  destruct (out_delete l1 l2 b _ I5 I6) as [O1 O2]. unfold stream_inv, written, acked_at. rewrite L2, L3, L4.
  split_and!; try done. by apply (mark_loss_send W).
Qed.

(** A packet is acknowledged. *)
Lemma stream_acks W told l1 b l2 sent ack n s c :
  stream_inv W told (l1 ++ b :: l2) sent ack n s ->
  exists s' c', sendAckSMHandler s c (offset b) (zlen (data b)) (eof b) = Some (inr (s', c')) /\
    stream_inv W told (l1 ++ l2) sent (ack ++ [b]) n s' /\ flowControlState c' = flowControlState c /\
    stream s' = set_sendState (stream s) (sendState (stream s')).
Proof.
  intros HI. pose proof HI as (I1 & I2 & I3 & I4 & I5 & I6 & I7 & I8).
  assert (Hb : retransmissionBuffer s !! offset b = Some b) by (apply I5; rewrite elem_of_app, elem_of_cons; tauto).
  destruct (ack_send W s c b I2 I3 Hb) as (s' & c' & E1 & E2 & E3 & E4 & E5 & E6 & E7).
  destruct (out_delete l1 l2 b _ I5 I6) as [O1 O2]. exists s', c'. split_and!; try done.
  unfold stream_inv, written. rewrite E5. split_and!; try done; try (by rewrite E4).
  intros p. unfold acked_at. rewrite E6, in_list_app, in_list_cons. pose proof (in_list_nil p). specialize (I8 p). unfold acked_at in I8. tauto.
Qed.

(** The application writes. *)
Lemma stream_writes W told out sent ack n s c d e :
  stream_inv W told out sent ack n s -> writable (stream s) = true -> zlen (W ++ d) < 2 ^ 61 ->
  0 <= sumCurStreamBufferLen (flowControlState c) -> sumCurStreamBufferLen (flowControlState c) + zlen d < 2 ^ 64 ->
  exists x c', writeDataToQuicStream (stream s) c d e = Some (inr (x, c')) /\
    stream_inv (W ++ d) (told || e) out sent ack n (set_stream s x) /\
    bytesSent x = bytesSent (stream s) /\ zlen (pendingWrites x) = zlen (pendingWrites (stream s)) + zlen d /\ flow x = flow (stream s) /\ told = false /\
    flowControlState c' = set_sumBuffer (flowControlState c) (sumCurStreamBufferLen (flowControlState c) + zlen d).
Proof.
  intros (I1 & I2 & I3 & I4 & I5 & I6 & I7 & I8) Hw HW H0 Hc.
  destruct (write_ok W s c d e I2 I3 Hw HW H0 Hc) as (x & c' & E1 & E2 & E3 & E4 & E5 & E6 & E7 & E8 & E9 & E10).
  exists x, c'. unfold writable in Hw. apply andb_true_iff in Hw as [_ Hw%negb_true_iff%bool_decide_eq_false].
  assert (Hnone : finalWriteOffset (stream s) = None) by (destruct (finalWriteOffset (stream s)); [by destruct Hw; eexists|done]).
  assert (Ht : told = false) by by rewrite I4, Hnone. split_and!; try done.
  unfold stream_inv. simpl. split_and!; try done.
  - by rewrite E4.
  - rewrite Ht, E7. by destruct e.
  - eapply Forall_impl; [exact I7|]. intros y Hy. eapply kept_more; [exact Hy|by apply prefix_app_r|by unfold written in *; simpl; rewrite E8|].
    by rewrite Hnone.
Qed.

(** The peer raises the stream's limit. *)
Lemma window_stream x c v :
  let x' := (handleStreamWindowUpdate x c v).1 in
  exists f, x' = set_sflow x f /\ s_peerAdvertisedMaxOffset f = Z.max (s_peerAdvertisedMaxOffset (flow x)) v.
Proof.
  unfold handleStreamWindowUpdate. destruct (Z.leb_spec (s_peerAdvertisedMaxOffset (flow x)) v); simpl.
  - eexists. split; [done|]. simpl. lia.
  - exists (flow x). split; [by destruct x|lia].
Qed.

Lemma window_stream_flow x c v : flowControlState (handleStreamWindowUpdate x c v).2 = flowControlState c.
Proof. unfold handleStreamWindowUpdate, queueFlowControlUpdated. by repeat (case_match; simpl). Qed.

Lemma stream_window W told out sent ack n s f :
  stream_inv W told out sent ack n s -> s_peerAdvertisedMaxOffset (flow (stream s)) <= s_peerAdvertisedMaxOffset f < 2 ^ 62 ->
  stream_inv W told out sent ack n (set_stream s (set_sflow (stream s) f)).
Proof.
  intros (I1 & I2 & (Q1 & Q2 & Q3 & Q4) & I4 & I5 & I6 & I7 & I8) Hf. unfold stream_inv. split_and!; try done.
  unfold send_part, bytesSent in *. simpl. split_and!; try (done || lia).
Qed.


(** ** The connection *)

Definition streams_of (p : Endpoint) : gmap Z Stream := stream <$> senders p.

(** Every stream has its part, and the connection's account is exact and within the peer's
    limit; [spare] is what the application may still write. *)
Definition endpoint_ok (spare : Z) (p : Endpoint) : Prop :=
  let f := flowControlState (econn p) in
  map_Forall (fun n s => stream_inv (data_of n (accepted p)) (ended n (accepted p)) (carried n (outstanding p))
                           (carried n (wire p)) (carried n (acknowledged p)) n s) (senders p) /\
  sumCurWriteOffset f = sum bytesSent (streams_of p) /\
  sumCurStreamBufferLen f = sum (fun x => zlen (pendingWrites x)) (streams_of p) /\
  sumCurWriteOffset f <= peerAdvertisedMaxOffset f < 2 ^ 62 /\
  sumCurWriteOffset f + sumCurStreamBufferLen f + spare < 2 ^ 61.

Lemma sum_member f (m : gmap Z Stream) n s : map_Forall (fun _ s => 0 <= f s) m -> m !! n = Some s -> f s <= sum f m.
Proof.
  intros H Hs. pose proof (sum_le (fun _ => 0) f m n s H Hs) as Hle.
  rewrite (sum_zero (fun _ => 0)) in Hle by done. lia.
Qed.

(** What one stream has of the account. *)
Lemma endpoint_share spare p :
  endpoint_ok spare p ->
  let f := flowControlState (econn p) in
  0 <= sumCurWriteOffset f /\ 0 <= sumCurStreamBufferLen f /\
  (forall n s, senders p !! n = Some s ->
     bytesSent (stream s) <= sumCurWriteOffset f /\ zlen (pendingWrites (stream s)) <= sumCurStreamBufferLen f /\
     bytesSent (stream s) + zlen (pendingWrites (stream s)) = zlen (data_of n (accepted p)) /\ 0 <= bytesSent (stream s)).
Proof.
  intros (H1 & H2 & H3 & _) f. unfold f. rewrite H2, H3.
  assert (Hn1 : map_Forall (fun _ x => 0 <= bytesSent x) (streams_of p)).
  { intros n x Hx. unfold streams_of in Hx. apply lookup_fmap_Some in Hx as (s & <- & Hs).
    destruct (H1 n s Hs) as (_ & [Hp _] & _). by apply sent_and_pending in Hp as [_ ?]. }
  assert (Hn2 : map_Forall (fun _ x => 0 <= zlen (pendingWrites x)) (streams_of p)) by (intros n x _; unfold zlen; lia).
  split_and!; [by apply sum_nonneg|by apply sum_nonneg|]. intros n s Hs.
  assert (Hx : streams_of p !! n = Some (stream s)) by (unfold streams_of; by rewrite lookup_fmap, Hs).
  destruct (H1 n s Hs) as (_ & [Hp _] & _). destruct (sent_and_pending _ _ Hp).
  pose proof (sum_member _ _ n _ Hn1 Hx). pose proof (sum_member _ _ n _ Hn2 Hx). done.
Qed.

(** One stream changes. *)
Lemma endpoint_on spare spare' p n s s' c' out' wire' ack' acc' :
  let f := flowControlState (econn p) in
  let f' := flowControlState c' in
  endpoint_ok spare p -> senders p !! n = Some s ->
  (forall m, m <> n -> carried m out' = carried m (outstanding p) /\ carried m wire' = carried m (wire p) /\
     carried m ack' = carried m (acknowledged p) /\ data_of m acc' = data_of m (accepted p) /\ ended m acc' = ended m (accepted p)) ->
  stream_inv (data_of n acc') (ended n acc') (carried n out') (carried n wire') (carried n ack') n s' ->
  sumCurWriteOffset f' = sumCurWriteOffset f - bytesSent (stream s) + bytesSent (stream s') ->
  sumCurStreamBufferLen f' = sumCurStreamBufferLen f - zlen (pendingWrites (stream s)) + zlen (pendingWrites (stream s')) ->
  sumCurWriteOffset f' <= peerAdvertisedMaxOffset f' < 2 ^ 62 ->
  sumCurWriteOffset f' + sumCurStreamBufferLen f' + spare' < 2 ^ 61 ->
  endpoint_ok spare' (mkEndpoint (<[n := s']> (senders p)) c' out' wire' ack' acc').
Proof.
  intros f f' (H1 & H2 & H3 & H4 & H5) Hs Hother Hinv E1 E2 E3 E4. unfold f, f', endpoint_ok, streams_of in *. simpl.
  assert (Hx : (stream <$> senders p) !! n = Some (stream s)) by by rewrite lookup_fmap, Hs.
  rewrite fmap_insert, !(sum_insert _ _ n (stream s)) by done. split_and!; [|lia|lia|apply E3|apply E3|lia].
  intros m x Hm. apply lookup_insert_Some in Hm as [[<- <-]|[Hne Hm]]; [done|].
  destruct (Hother m) as (-> & -> & -> & -> & ->); [done|]. by apply H1.
Qed.

(** Nothing but the connection's state changes. *)
Lemma endpoint_conn spare spare' p c' :
  let f := flowControlState (econn p) in
  let f' := flowControlState c' in
  endpoint_ok spare p -> spare' <= spare -> sumCurWriteOffset f' = sumCurWriteOffset f ->
  sumCurStreamBufferLen f' = sumCurStreamBufferLen f -> sumCurWriteOffset f' <= peerAdvertisedMaxOffset f' < 2 ^ 62 ->
  endpoint_ok spare' (mkEndpoint (senders p) c' (outstanding p) (wire p) (acknowledged p) (accepted p)).
Proof.
  intros f f' (H1 & H2 & H3 & H4 & H5) Hle E1 E2 E3. unfold f, f', endpoint_ok in *. simpl.
  split_and!; [done|by rewrite E1|by rewrite E2|lia..].
Qed.

Lemma carried_delete i l n b :
  l !! i = Some (n, b) ->
  (exists l1 l2, carried n l = l1 ++ b :: l2 /\ carried n (delete i l) = l1 ++ l2) /\
  (forall m, m <> n -> carried m (delete i l) = carried m l).
Proof.
  intros H. apply list_elem_of_split_length in H as (l1 & l2 & -> & ->). rewrite delete_middle. split.
  - exists (carried n l1), (carried n l2). rewrite !carried_app. split; [|done]. f_equal. unfold carried. simpl. by rewrite decide_True.
  - intros m Hm. rewrite !carried_app. f_equal. unfold carried at 2. simpl. by rewrite decide_False.
Qed.


(** What an action may change: the limits are those of the peer, a stream that has ended
    stays as it is, and only a packet that is outstanding is acknowledged. *)
Definition stream_limit (a : Action) (n : Z) : Z := match a with MaxStreamDataFrame m v => if decide (m = n) then v else 0 | _ => 0 end.
Definition conn_limit (a : Action) : Z := match a with MaxDataFrame v => v | _ => 0 end.

Definition advances (l : Z) (s s' : Sender) : Prop :=
  bytesSent (stream s) <= bytesSent (stream s') /\
  s_peerAdvertisedMaxOffset (flow (stream s')) <= Z.max (s_peerAdvertisedMaxOffset (flow (stream s))) l.

Definition evolves (a : Action) (p p' : Endpoint) : Prop :=
  (forall x, x ∈ wire p -> x ∈ wire p') /\
  (forall x, x ∈ acknowledged p' -> x ∈ acknowledged p \/ exists i, a = PacketAcked i /\ outstanding p !! i = Some x) /\
  (accepted p' = accepted p \/ exists n d e, accepted p' = accepted p ++ label n [(d, e)] /\ ended n (accepted p) = false /\ is_Some (senders p !! n)) /\
  peerAdvertisedMaxOffset (flowControlState (econn p')) <= Z.max (peerAdvertisedMaxOffset (flowControlState (econn p))) (conn_limit a) /\
  (forall n s, senders p !! n = Some s -> exists s', senders p' !! n = Some s' /\ advances (stream_limit a n) s s').

Lemma evolves_refl a p : evolves a p p.
Proof.
  unfold evolves, advances. split_and!; auto; [lia|]. intros n s Hs. exists s. split; [done|]. lia.
Qed.

Lemma evolves_on a p n s s' c' out' wire' ack' acc' :
  senders p !! n = Some s -> (forall x, x ∈ wire p -> x ∈ wire') ->
  (forall x, x ∈ ack' -> x ∈ acknowledged p \/ exists i, a = PacketAcked i /\ outstanding p !! i = Some x) ->
  (acc' = accepted p \/ exists n d e, acc' = accepted p ++ label n [(d, e)] /\ ended n (accepted p) = false /\ is_Some (senders p !! n)) ->
  peerAdvertisedMaxOffset (flowControlState c') = peerAdvertisedMaxOffset (flowControlState (econn p)) ->
  advances (stream_limit a n) s s' ->
  evolves a p (mkEndpoint (<[n := s']> (senders p)) c' out' wire' ack' acc').
Proof.
  intros Hs H1 H2 H3 H4 H5. unfold evolves. simpl. split_and!; try done; [lia|]. intros m x Hx.
  destruct (decide (m = n)) as [->|Hne].
  - rewrite lookup_insert_eq. exists s'. split; [done|]. by rewrite Hs in Hx; injection Hx as <-.
  - rewrite lookup_insert_ne by done. exists x. split; [done|]. unfold advances. lia.
Qed.

(** An action succeeds. *)
Definition done_ok (P : Endpoint -> Prop) (r : option (Exception + Endpoint)) : Prop :=
  match r with Some (inr p) => P p | _ => False end.
Definition act_result (spare : Z) (a : Action) (p p' : Endpoint) : Prop := endpoint_ok spare p' /\ evolves a p p'.

Lemma endpoint_less spare spare' p : spare' <= spare -> endpoint_ok spare p -> endpoint_ok spare' p.
Proof. intros H (H1 & H2 & H3 & H4 & H5). unfold endpoint_ok. split_and!; (done || lia). Qed.

Section Actions.
Context (spare : Z) (p : Endpoint) (Hp : endpoint_ok spare p) (Hspare : 0 <= spare).

Lemma with_sender_ok P n f :
  P p -> (forall s, senders p !! n = Some s ->
    stream_inv (data_of n (accepted p)) (ended n (accepted p)) (carried n (outstanding p)) (carried n (wire p))
      (carried n (acknowledged p)) n s -> done_ok P (f s)) ->
  done_ok P (with_sender n p f).
Proof.
  intros H1 H2. unfold with_sender. destruct (senders p !! n) as [s|] eqn:Hs; [|done]. apply H2; [done|].
  destruct Hp as (H & _). by apply H.
Qed.

(** A frame goes out. *)
Lemma send_ok a n s b s' c' :
  senders p !! n = Some s -> updateConnection_stream s (econn p) (offset b) (zlen (data b)) (eof b) = Some (inr (s', c')) ->
  departs (data_of n (accepted p)) s b s' ->
  (let f := flowControlState (econn p) in
   let f' := flowControlState c' in
   sumCurWriteOffset f' = sumCurWriteOffset f - bytesSent (stream s) + bytesSent (stream s') /\
   sumCurStreamBufferLen f' = sumCurStreamBufferLen f - zlen (pendingWrites (stream s)) + zlen (pendingWrites (stream s')) /\
   sumCurWriteOffset f' <= peerAdvertisedMaxOffset f' < 2 ^ 62 /\ peerAdvertisedMaxOffset f' = peerAdvertisedMaxOffset f) ->
  done_ok (act_result spare a p) (sendFrame n s b p).
Proof.
  intros Hs E Hd (F1 & F2 & F3 & F4). unfold sendFrame. rewrite E. simpl.
  destruct (endpoint_share spare p Hp) as (_ & _ & Hsh). destruct (Hsh n s Hs) as (_ & _ & S3 & _).
  pose proof Hp as (H1 & _ & _ & _ & H5). pose proof Hd as (D1 & _). pose proof (sent_and_pending _ _ (proj1 D1)) as [D2 _].
  split; cycle 1.
  { apply (evolves_on _ _ _ s); auto; [intros x Hx; rewrite elem_of_app; by left|].
    destruct Hd as (_ & _ & _ & _ & D3 & D4 & _). unfold advances. lia. }
  apply (endpoint_on spare _ p n s); try (done || lia).
  - intros m Hm. rewrite !carried_app, !carried_other by done. by rewrite !app_nil_r.
  - rewrite !carried_app, !carried_one. eapply stream_departs; [by apply H1|done].
Qed.

Lemma write_act n d e :
  zlen d <= spare -> done_ok (act_result (spare - zlen d) (WriteChain n d e) p) (act (WriteChain n d e) p).
Proof.
  intros Hd. assert (Hnn : 0 <= zlen d) by (unfold zlen; lia).
  apply with_sender_ok; [split; [apply (endpoint_less spare); [lia|done]|apply evolves_refl]|]. intros s Hs Hinv.
  destruct (writable (stream s)) eqn:Hw; simpl; [|split; [apply (endpoint_less spare); [lia|done]|apply evolves_refl]].
  destruct (endpoint_share spare p Hp) as (H0 & H0' & Hsh). destruct (Hsh n s Hs) as (S1 & S2 & S3 & S4). pose proof Hp as (_ & _ & _ & H4 & H5).
  destruct (stream_writes _ _ _ _ _ n s (econn p) d e Hinv Hw) as (x & c' & E1 & E2 & E3 & E4 & E6 & E7 & E5); [rewrite zlen_app; lia|done|lia|].
  rewrite E1. simpl. change [(n, d, e)] with (label n [(d, e)]).
  split; cycle 1.
  { apply (evolves_on _ _ _ s); auto; [right; by exists n, d, e|by rewrite E5|].
    unfold advances. simpl. rewrite E3, E6. lia. }
  apply (endpoint_on spare _ p n s); [done|done| | |rewrite E5; simpl; lia..].
  - intros m Hm. by rewrite data_of_other, ended_other.
  - destruct (given_read n (accepted p) d e) as [-> ->]. done.
Qed.

Lemma new_act n remaining : 0 <= remaining < 2 ^ 32 -> done_ok (act_result spare (SendNew n remaining) p) (act (SendNew n remaining) p).
Proof.
  intros Hr. apply with_sender_ok; [by split; [|apply evolves_refl]|]. intros s Hs Hinv. pose proof Hinv as (_ & I2 & I3 & _).
  pose proof Hp as (_ & _ & _ & H4 & H5). destruct (endpoint_share spare p Hp) as (H0 & H0' & Hsh). destruct (Hsh n s Hs) as (S1 & S2 & S3 & S4).
  destruct (writable_offset _ s (proj1 I2) I3) as (w & Hw & _). rewrite Hw. simpl. destruct w; [|by split; [|apply evolves_refl]]. simpl.
  assert (Hroom : getSendConnFlowControlBytesWire (econn p) =
    peerAdvertisedMaxOffset (flowControlState (econn p)) - sumCurWriteOffset (flowControlState (econn p))) by (apply u64_id; ilia).
  destruct (getSendConnFlowControlBytesWire (econn p) >? 0); [|by split; [|apply evolves_refl]].
  destruct (new_frame _ s remaining (getSendConnFlowControlBytesWire (econn p)) (proj1 I2) I3 Hw Hr) as (r & -> & Hb); [rewrite Hroom; lia|].
  destruct r as [b|]; [|by split; [|apply evolves_refl]]. destruct (Hb b eq_refl) as (B1 & B2 & B3 & B4 & B5 & B6). rewrite Hroom in B4.
  assert (Hlen : 0 <= zlen (data b)) by (unfold zlen; lia).
  destruct (new_ok _ s (econn p) b I2 I3 B1 B2 B3 B6 B5) as (s' & c' & E1 & E2 & E3 & E4 & E5); [lia..|].
  apply (send_ok _ n s b s' c' Hs E1 E2). rewrite E5. simpl. lia.
Qed.

Lemma again_act n k remaining : 0 <= remaining < 2 ^ 32 -> done_ok (act_result spare (SendAgain n k remaining) p) (act (SendAgain n k remaining) p).
Proof.
  intros Hr. apply with_sender_ok; [by split; [|apply evolves_refl]|]. intros s Hs Hinv. pose proof Hinv as (_ & I2 & I3 & _).
  destruct (lossBuffer s !! k) as [lb|] eqn:Hk; [|by split; [|apply evolves_refl]].
  destruct (retransmission_ok _ s (econn p) k lb remaining I2 I3 Hk Hr) as (r & -> & Hb).
  destruct r as [b|]; [|by split; [|apply evolves_refl]]. destruct (Hb b eq_refl) as (s' & E1 & E2 & E3). pose proof Hp as (_ & _ & _ & H4 & _).
  apply (send_ok _ n s b s' (econn p) Hs E1 E2). rewrite E3. simpl. lia.
Qed.

Lemma lost_act i : done_ok (act_result spare (PacketLost i) p) (act (PacketLost i) p).
Proof.
  simpl. destruct (outstanding p !! i) as [[n b]|] eqn:Ei; [|by split; [|apply evolves_refl]]. apply with_sender_ok; [by split; [|apply evolves_refl]|]. intros s Hs Hinv. simpl.
  destruct (carried_delete i _ n b Ei) as [(l1 & l2 & E1 & E2) Hother]. rewrite E1 in Hinv. pose proof Hp as (_ & _ & _ & H4 & H5).
  destruct (mark_loss_ok (data_of n (accepted p)) s (offset b)) as (_ & L2 & _); [apply Hinv|].
  split; [|apply (evolves_on _ _ _ s); auto; unfold advances; rewrite L2; lia].
  apply (endpoint_on spare _ p n s); rewrite ?L2; try (done || lia).
  - intros m Hm. by rewrite Hother.
  - rewrite E2. by apply stream_loses.
Qed.

Lemma acked_act i : done_ok (act_result spare (PacketAcked i) p) (act (PacketAcked i) p).
Proof.
  simpl. destruct (outstanding p !! i) as [[n b]|] eqn:Ei; [|by split; [|apply evolves_refl]]. apply with_sender_ok; [by split; [|apply evolves_refl]|]. intros s Hs Hinv.
  destruct (carried_delete i _ n b Ei) as [(l1 & l2 & E1 & E2) Hother]. rewrite E1 in Hinv. pose proof Hp as (_ & _ & _ & H4 & H5).
  destruct (stream_acks _ _ l1 b l2 _ _ n s (econn p) Hinv) as (s' & c' & -> & A2 & A3 & A4). simpl.
  assert (Hb : bytesSent (stream s') = bytesSent (stream s) /\ pendingWrites (stream s') = pendingWrites (stream s)) by by rewrite A4.
  destruct Hb as [Hb1 Hb2]. split; cycle 1.
  { apply (evolves_on _ _ _ s); auto; [|by rewrite A3|unfold advances; rewrite A4; simpl; unfold bytesSent; simpl; lia].
    intros x [Hx|Hx%list_elem_of_singleton]%elem_of_app; [by left|]. right. exists i. by rewrite Hx. }
  apply (endpoint_on spare _ p n s); rewrite ?A3, ?Hb1, ?Hb2; try (done || lia).
  - intros m Hm. by rewrite Hother, carried_app, carried_other, app_nil_r.
  - by rewrite E2, carried_app, carried_one.
Qed.

Lemma window_act n v : 0 <= v < 2 ^ 62 -> done_ok (act_result spare (MaxStreamDataFrame n v) p) (act (MaxStreamDataFrame n v) p).
Proof.
  intros Hv. apply with_sender_ok; [by split; [|apply evolves_refl]|]. intros s Hs Hinv. pose proof Hp as (_ & _ & _ & H4 & H5).
  destruct (window_stream (stream s) (econn p) v) as (f & E1 & E2). pose proof (window_stream_flow (stream s) (econn p) v) as E3.
  destruct (handleStreamWindowUpdate (stream s) (econn p) v) as [x c]. simpl in E1, E3 |- *. subst x.
  pose proof Hinv as (_ & _ & (_ & _ & Q & _) & _).
  assert (Hb : bytesSent (stream (set_stream s (set_sflow (stream s) f))) = bytesSent (stream s)) by done.
  assert (Hw : pendingWrites (stream (set_stream s (set_sflow (stream s) f))) = pendingWrites (stream s)) by done.
  split; cycle 1.
  { apply (evolves_on _ _ _ s); auto; [by rewrite E3|]. unfold advances. rewrite Hb. simpl. rewrite decide_True by done. lia. }
  apply (endpoint_on spare _ p n s); rewrite ?E3, ?Hb, ?Hw; try (done || lia).
  - apply stream_window; [done|]. lia.
Qed.

Lemma conn_window_act v : 0 <= v < 2 ^ 62 -> done_ok (act_result spare (MaxDataFrame v) p) (act (MaxDataFrame v) p).
Proof.
  intros Hv. simpl. pose proof Hp as (_ & _ & _ & H4 & _). unfold handleConnWindowUpdate.
  destruct (Z.leb_spec (peerAdvertisedMaxOffset (flowControlState (econn p))) v); (split; [apply (endpoint_conn spare); simpl; try done; lia|]).
  - unfold evolves, advances. simpl. split_and!; auto; [lia|]. intros n s Hs. exists s. split; [done|]. lia.
  - destruct p. apply evolves_refl.
Qed.

End Actions.

Lemma act_ok spare p a :
  endpoint_ok (load a + spare) p -> 0 <= spare -> action_ok a -> done_ok (act_result spare a p) (act a p).
Proof.
  intros Hp H0 Ha. destruct a as [n d e| | | | | |]; simpl in Ha, Hp.
  - assert (0 <= zlen d) by (unfold zlen; lia).
    pose proof (write_act (zlen d + spare) p Hp n d e ltac:(lia)) as H'. by replace (zlen d + spare - zlen d) with spare in H' by lia.
  - by apply new_act.
  - by apply again_act.
  - by apply lost_act.
  - by apply acked_act.
  - by apply window_act.
  - by apply conn_window_act.
Qed.

Lemma volume_nonneg h : 0 <= volume h.
Proof. induction h as [|a h IH]; simpl; [done|]. destruct a; simpl; unfold zlen; lia. Qed.

Lemma actions_ok h : forall spare p,
  endpoint_ok (volume h + spare) p -> 0 <= spare -> Forall action_ok h -> done_ok (endpoint_ok spare) (actions h p).
Proof.
  induction h as [|a h IH]; intros spare p Hp H0 Hh; simpl; [done|]. apply Forall_cons in Hh as [Ha Hh].
  pose proof (volume_nonneg h). simpl in Hp. rewrite <- Z.add_assoc in Hp.
  pose proof (act_ok (volume h + spare) p a Hp ltac:(lia) Ha) as H'. destruct (act a p) as [[?|p']|]; try done.
  destruct H' as [H' _]. by apply IH.
Qed.


(** ** The start *)

Definition fresh_sender (n : Z) (s : Sender) : Prop :=
  let x := stream s in
  id x = n /\ 0 <= n < 2 ^ 62 /\ currentWriteOffset x = 0 /\ finalWriteOffset x = None /\ pendingWrites x = [] /\
  meta_offset (writeBufMeta x) = 0 /\ meta_length (writeBufMeta x) = 0 /\ dsrSender x = false /\ sendState x = SendOpen /\
  0 <= s_peerAdvertisedMaxOffset (flow x) < 2 ^ 62 /\
  retransmissionBuffer s = ∅ /\ lossBuffer s = [] /\ IntervalSet.intervals (ackedIntervals s) = [].
Definition fresh_endpoint (p : Endpoint) : Prop :=
  let f := flowControlState (econn p) in
  map_Forall fresh_sender (senders p) /\ outstanding p = [] /\ wire p = [] /\ acknowledged p = [] /\ accepted p = [] /\
  sumCurWriteOffset f = 0 /\ sumCurStreamBufferLen f = 0 /\ 0 <= peerAdvertisedMaxOffset f < 2 ^ 62.

Lemma fresh_sender_ok n s : fresh_sender n s -> stream_inv [] false [] [] [] n s.
Proof.
  intros (F1 & F2 & F3 & F4 & F5 & F6 & F7 & F8 & F9 & F10 & F11 & F12 & F13).
  assert (Hm : forall q, ~ in_map ∅ q) by (intros q (o & b & H & _); by rewrite lookup_empty in H).
  assert (Hok : sender_ok [] s).
  { unfold sender_ok, stream_part, buffer_part, place_part, written. rewrite F3, F4, F5, F6, F7, F11, F12. split_and!; try done.
    - unfold IntervalSet.wf. by rewrite F13.
    - intros q Hq. by apply Hm in Hq.
    - intros. lia. }
  unfold stream_inv. rewrite F4, F11. split_and!; try done.
  - unfold send_part. rewrite unsent_open; [unfold bytesSent; rewrite F3, F4; split_and!; try (done || lia)|unfold hasSentFIN; by rewrite F4].
  - intros b. rewrite lookup_empty. split; [by intros ?%not_elem_of_nil|done].
  - by apply NoDup_nil.
  - intros q. unfold acked_at. rewrite F13. split; [|by intros ?%in_list_nil]. intros H. by apply Exists_nil in H.
Qed.

Lemma fresh_endpoint_ok spare p : fresh_endpoint p -> spare < 2 ^ 61 -> endpoint_ok spare p.
Proof.
  intros (F1 & F2 & F3 & F4 & F5 & F6 & F7 & F8) Hs. unfold endpoint_ok. rewrite F2, F3, F4, F5, F6, F7.
  assert (Hz : forall f, (forall n s, fresh_sender n s -> f (stream s) = 0) -> sum f (streams_of p) = 0).
  { intros f Hf. apply sum_zero. intros n x Hx. unfold streams_of in Hx. apply lookup_fmap_Some in Hx as (s & <- & Hx). by eapply Hf, F1. }
  split_and!; try (done || lia).
  - intros n s Hn. by apply fresh_sender_ok, F1.
  - rewrite Hz; [done|]. intros n s (_ & _ & E1 & E2 & _). unfold bytesSent. by rewrite E1, E2.
  - rewrite Hz; [done|]. intros n s (_ & _ & _ & _ & E & _). by rewrite E.
Qed.

(** ** What it means *)

Lemma kept_part W s b :
  stream_part W s -> kept W (written s) (finalWriteOffset (stream s)) b -> part_of W b.
Proof.
  intros (_ & _ & _ & _ & _ & H6) (K1 & K2 & K3 & K4 & K5). pose proof (prefix_length _ _ K2) as Hl. rewrite length_drop in Hl.
  assert (He : eof b = true -> stop b = zlen W).
  { intros E. rewrite (K5 E) in H6. apply H6. }
  split_and!; try done. destruct (eof b) eqn:E; [by rewrite He|]. unfold span_end, stop, zlen in *. rewrite E in K3. lia.
Qed.

(** The stream is closed when all has been sent, nothing is in flight and nothing is lost. *)
Lemma closed_iff W told out sent ack n s :
  stream_inv W told out sent ack n s ->
  sendState (stream s) = SendClosed <-> told = true /\ written s = zlen W + 1 /\ out = [] /\ lossBuffer s = [].
Proof.
  intros (_ & (HS & (B1 & _) & _) & (_ & _ & _ & Hst) & -> & I5 & _). rewrite Hst. destruct HS as (_ & T2 & T3 & _ & T5 & T6).
  assert (Hout : retransmissionBuffer s = ∅ <-> out = []).
  { split.
    - intros E. destruct out as [|b out]; [done|]. exfalso. assert (Hb : b ∈ b :: out) by (rewrite elem_of_cons; by left).
      apply I5 in Hb. by rewrite E, lookup_empty in Hb.
    - intros ->. apply map_empty. intros o. destruct (retransmissionBuffer s !! o) as [b|] eqn:E; [|done]. exfalso.
      destruct (B1 o b E) as [<- _]. apply I5 in E. by apply not_elem_of_nil in E. }
  unfold allBytesTillFinAcked, hasSentFIN, written in *. rewrite T3, <- Hout. assert (0 <= zlen W) by (unfold zlen; lia).
  destruct (finalWriteOffset (stream s)) as [f|]; simpl; [|split; [done|by intros [? _]]]. destruct T6 as [-> T6].
  assert (Hpend : currentWriteOffset (stream s) = zlen W + 1 -> zlen (pendingWrites (stream s)) = 0).
  { intros E. rewrite T5, E. unfold zlen in *. rewrite length_drop. lia. }
  assert ((0 >? zlen W) = false) as -> by (zcases; (done || lia)). rewrite orb_false_r.
  destruct (Z.gtb_spec (currentWriteOffset (stream s)) (zlen W)); simpl; [|split; [done|lia]].
  rewrite Hpend by lia. rewrite andb_true_r. destruct (decide (retransmissionBuffer s = ∅)) as [E|E].
  - rewrite bool_decide_eq_true_2 by done. simpl. destruct (lossBuffer s); (split; [|by intros (_ & _ & _ & ?)]); [|done]. intros _. split_and!; (done || lia).
  - rewrite bool_decide_eq_false_2 by done. simpl. split; [done|]. by intros (_ & _ & ? & _).
Qed.

Lemma in_flight W told out sent ack n s q :
  stream_inv W told out sent ack n s -> in_map (retransmissionBuffer s) q <-> in_list out q.
Proof.
  intros (_ & (_ & (B1 & _) & _) & _ & _ & I5 & _). unfold in_map, in_list. rewrite Exists_exists. split.
  - intros (o & b & Hb & Hq). exists b. split; [|done]. destruct (B1 o b Hb) as [<- _]. by apply I5.
  - intros (b & Hb%I5 & Hq). eauto.
Qed.


(** C5. The sending side of a connection, through any sequence of writes of the
    application, frames sent in packets of any size, packets declared lost, acknowledgements
    and new limits of the peer, in any order and on any number of streams: no check of the
    code fails and no exception is thrown.  The connection counts exactly the bytes sent and
    the bytes waiting, and neither it nor a stream sends more than the peer allows.  Every
    frame ever sent carries a part of what the application wrote, with the end marked where
    it is.  Every position that was sent is in flight, in the loss buffer to be sent again,
    or acknowledged, and what is in flight is not in the loss buffer; what is acknowledged
    was in an acknowledged frame.  A stream is closed exactly when the application has ended
    it, all is sent and nothing is in flight or lost — so an open stream always has
    something to wait for or to do — and then every byte and the end are acknowledged. *)
Theorem quic_sending h p0 :
  fresh_endpoint p0 -> Forall action_ok h -> volume h < 2 ^ 61 ->
  exists p, actions h p0 = Some (inr p) /\
    sumCurWriteOffset (flowControlState (econn p)) = sum bytesSent (streams_of p) /\
    sumCurStreamBufferLen (flowControlState (econn p)) = sum (fun x => zlen (pendingWrites x)) (streams_of p) /\
    sumCurWriteOffset (flowControlState (econn p)) <= peerAdvertisedMaxOffset (flowControlState (econn p)) /\
    forall n s, senders p !! n = Some s ->
      let W := data_of n (accepted p) in
      bytesSent (stream s) <= s_peerAdvertisedMaxOffset (flow (stream s)) /\
      pendingWrites (stream s) = drop (Z.to_nat (bytesSent (stream s))) W /\
      (forall b, (n, b) ∈ wire p -> part_of W b) /\
      (forall q, 0 <= q < written s ->
         in_list (carried n (outstanding p)) q \/ in_list (lossBuffer s) q \/ acked_at s q) /\
      (forall q, in_list (carried n (outstanding p)) q -> ~ in_list (lossBuffer s) q) /\
      (forall q, acked_at s q <-> in_list (carried n (acknowledged p)) q) /\
      (sendState (stream s) = SendClosed <->
         ended n (accepted p) = true /\ written s = zlen W + 1 /\ carried n (outstanding p) = [] /\ lossBuffer s = []) /\
      (sendState (stream s) = SendClosed -> forall q, 0 <= q <= zlen W -> acked_at s q).
Proof.
  intros Hf Hh Hv. pose proof (fresh_endpoint_ok (volume h + 0) p0 Hf ltac:(lia)) as H0.
  pose proof (actions_ok h 0 p0 H0 ltac:(lia) Hh) as H. destruct (actions h p0) as [[?|p]|]; try done.
  pose proof H as (E1 & E2 & E3 & E4 & E5). exists p. split_and!; [done..|lia|].
  intros n s Hs. cbv zeta. specialize (E1 n s Hs). pose proof (closed_iff _ _ _ _ _ _ _ E1) as Hc.
  pose proof (fun q => in_flight _ _ _ _ _ _ _ q E1) as Hfl. pose proof E1 as (_ & (HS & _ & (_ & P2 & P3)) & (_ & _ & Q3 & _) & _ & _ & _ & I7 & I8).
  assert (Hpos : forall q, 0 <= q < written s -> in_list (carried n (outstanding p)) q \/ in_list (lossBuffer s) q \/ acked_at s q).
  { intros q Hq. rewrite <- Hfl. by apply P3. }
  split_and!; try done; [lia| | | |].
  - by apply pending_sent.
  - intros b Hb%elem_of_carried. rewrite Forall_forall in I7. by apply (kept_part _ s), I7.
  - intros q. rewrite <- Hfl. apply P2.
  - intros (_ & C2 & C3 & C4)%Hc q Hq. destruct (Hpos q) as [X|[X|X]]; [lia| | |done].
    + rewrite C3 in X. by apply in_list_nil in X.
    + rewrite C4 in X. by apply in_list_nil in X.
Qed.

(** ** Examples *)

Definition exampleSender (n : Z) : Sender :=
  mkSender (mkStream n emptyLike (mkStreamFlow 0 0 6 None false) SendOpen RecvOpen None None [] [] 0 None (mkMeta 0 0 false) false)
    ∅ [] IntervalSet.empty.
Definition exampleEndpoint : Endpoint :=
  mkEndpoint (<[4 := exampleSender 4]> (<[0 := exampleSender 0]> ∅))
    (mkConn Client (mkConnFlow 0 0 8 0 0 0 0 None) false false 1000 (mkSettings 2 2 true true false false true 0) ∅ ∅ ∅ ∅ ∅ ∅ ∅)
    [] [] [] [].

Lemma example_fresh_endpoint : fresh_endpoint exampleEndpoint.
Proof.
  split_and!; try (done || lia || reflexivity).
  intros n s Hs. unfold exampleEndpoint in Hs. simpl in Hs.
  apply lookup_insert_Some in Hs as [[<- <-]|[_ Hs]]; [by vm_compute|].
  apply lookup_insert_Some in Hs as [[<- <-]|[_ Hs]]; [by vm_compute|by rewrite lookup_empty in Hs].
Qed.

(** Writes that the limits of the stream and of the connection cut, a frame that is lost
    and sent again in two parts, acknowledgements out of order. *)
Definition exampleActions : list Action :=
  [WriteChain 0 [1; 2; 3; 4; 5; 6; 7] true; WriteChain 4 [8; 9; 10] false; SendNew 0 100; SendNew 0 100; SendNew 4 100; SendNew 4 100;
   PacketLost 0; SendAgain 0 0 5; MaxStreamDataFrame 0 20; MaxDataFrame 20; SendNew 0 100; PacketAcked 2; WriteChain 0 [1] false;
   SendAgain 0 0 100; PacketAcked 1; PacketLost 0; SendAgain 0 0 100; PacketAcked 0; SendNew 4 100; PacketAcked 0].


Lemma example_actions :
  match actions exampleActions exampleEndpoint with
  | Some (inr p) =>
      match senders p !! 0 with Some s => sendState (stream s) = SendClosed /\ data_of 0 (accepted p) = [1; 2; 3; 4; 5; 6; 7] | None => False end
  | _ => False
  end.
Proof. vm_compute. done. Qed.

Lemma quic_sending_witness :
  exists p s, actions exampleActions exampleEndpoint = Some (inr p) /\ senders p !! 0 = Some s /\
    sendState (stream s) = SendClosed /\ forall q, 0 <= q <= 7 -> acked_at s q.
Proof.
  assert (Hok : Forall action_ok exampleActions) by (unfold exampleActions; rewrite !Forall_cons; simpl; split_and!; (done || lia)).
  destruct (quic_sending exampleActions exampleEndpoint example_fresh_endpoint Hok ltac:(by vm_compute)) as (p & E & _ & _ & _ & H).
  pose proof example_actions as Hex. rewrite E in Hex. destruct (senders p !! 0) as [s|] eqn:Hs; [|by destruct Hex].
  destruct Hex as [Hc HW]. exists p, s. destruct (H 0 s Hs) as (_ & _ & _ & _ & _ & _ & _ & Hall). rewrite HW in Hall.
  split; [exact E|]. split; [exact Hs|]. split; [exact Hc|]. exact (Hall Hc).
Defined.


(** ** Spurious losses *)







End QuicSending.
