(* ===== verification/QuicTransfer.v ===== *)
(** * Two endpoints and a network

    The sending side of one endpoint ([QuicSending]) and the receiving side of the other
    ([QuicDelivery]) with a network in between that loses, delays, reorders and repeats
    packets.  The network is the list of the frames that were ever sent: each of them may
    arrive, any number of times.  An acknowledgement arrives only for a packet that has
    arrived, and a limit only if the receiver has advertised it; an acknowledgement or a
    limit may be late, or never come. *)

From stdpp Require Import gmap.
From S2P Require Import Prelude QuicInteger IntervalSet QuicStream QuicReassembly QuicFlowControl QuicReceive QuicDelivery QuicSend QuicSendBuffers QuicSending.

Module QuicTransfer.
Import QuicStream QuicReassembly QuicFlowControl QuicReceive QuicDelivery QuicSend QuicSendBuffers QuicSending.

#[global] Instance StreamBuffer_eq_dec : EqDecision StreamBuffer.
Proof. solve_decision. Defined.

Record Pair := mkPair {
  sender : Endpoint;
  receiver : Connection;
  delivered : list (Z * StreamBuffer)
}.

Inductive Happening :=
| AtSender (a : Action)
| AtReceiver (e : Event)
| Arrives (i : nat).

(** What reaches the sender has its cause at the receiver. *)
Definition allowed (w : Pair) (a : Action) : bool :=
  match a with
  | PacketAcked i => match outstanding (sender w) !! i with Some x => bool_decide (x ∈ delivered w) | None => true end
  | MaxStreamDataFrame n v => match streams (receiver w) !! n with Some s => v <=? s_advertisedMaxOffset (flow s) | None => false end
  | MaxDataFrame v => v <=? advertisedMaxOffset (flowControlState (conn (receiver w)))
  | _ => true
  end.

(** What the receiver does by itself, and the frames without data that it is sent. *)
Definition own_event (e : Event) : bool :=
  match e with StreamFrame _ _ | RstStreamFrame _ _ _ | StopSendingSent _ | Consume _ _ => false | Read _ amount => 0 <=? amount | _ => true end.

Definition happen (now : Z) (x : Happening) (w : Pair) : option (Exception + Pair) :=
  match x with
  | AtSender a =>
      if allowed w a then
        match act a (sender w) with
        | Some (inr p) => Some (inr (mkPair p (receiver w) (delivered w)))
        | Some (inl e) => Some (inl e)
        | None => None
        end
      else Some (inr w)
  | AtReceiver e =>
      if own_event e then
        match step now e (receiver w) with
        | Some (inr k) => Some (inr (mkPair (sender w) k (delivered w)))
        | Some (inl e) => Some (inl e)
        | None => None
        end
      else Some (inr w)
  | Arrives i =>
      match wire (sender w) !! i with
      | None => Some (inr w)
      | Some (n, b) =>
          match step now (StreamFrame n b) (receiver w) with
          | Some (inr k) => Some (inr (mkPair (sender w) k (delivered w ++ [(n, b)])))
          | Some (inl e) => Some (inl e)
          | None => None
          end
      end
  end.

Fixpoint happens (h : list (Z * Happening)) (w : Pair) : option (Exception + Pair) :=
  match h with
  | [] => Some (inr w)
  | (now, x) :: h => match happen now x w with Some (inr w) => happens h w | r => r end
  end.

Fixpoint history_fits (t : Z) (h : list (Z * Happening)) : Prop :=
  match h with
  | [] => True
  | (now, x) :: h => t < now /\ match x with AtSender a => action_ok a | _ => True end /\ history_fits now h
  end.
Definition total (h : list (Z * Happening)) : Z :=
  foldr (fun '(_, x) n => match x with AtSender a => load a | _ => 0 end + n) 0 h.

(** ** The limits of the receiver *)

(** How far a frame reaches on stream [n]. *)
Definition reach (e : Event) (n : Z) : Z := match e with StreamFrame m b => if decide (m = n) then stop b else 0 | _ => 0 end.

(** The limits only grow, and the largest offset is that of a frame. *)
Definition keeps_limits (r : Z) (s s' : Stream) : Prop :=
  s_advertisedMaxOffset (flow s) <= s_advertisedMaxOffset (flow s') /\
  maxOffsetObserved (like s') <= Z.max (maxOffsetObserved (like s)) r.

Definition limits_grow (e : Event) (k k' : Connection) : Prop :=
  advertisedMaxOffset (flowControlState (conn k)) <= advertisedMaxOffset (flowControlState (conn k')) /\
  forall n s', streams k' !! n = Some s' -> exists s, streams k !! n = Some s /\ keeps_limits (reach e n) s s'.

Lemma limits_same e k c' :
  advertisedMaxOffset (flowControlState (conn k)) <= advertisedMaxOffset (flowControlState c') ->
  limits_grow e k (mkConnection (streams k) c' (given k)).
Proof. intros H. split; [done|]. intros n s Hs. exists s. split; [done|]. unfold keeps_limits. lia. Qed.

Lemma on_limits e n f k k' :
  (forall s, streams k !! n = Some s -> match f s (conn k) with
     | Some (inr (_, s', c')) => keeps_limits (reach e n) s s' /\
         advertisedMaxOffset (flowControlState (conn k)) <= advertisedMaxOffset (flowControlState c')
     | _ => True
     end) ->
  on n f k = Some (inr k') -> limits_grow e k k'.
Proof.
  intros Hf. unfold on. destruct (streams k !! n) as [s|] eqn:Hs.
  - specialize (Hf s eq_refl). destruct (f s (conn k)) as [[?|[[out s'] c']]|]; [done| |done]. intros [= <-].
    destruct Hf as [H1 H2]. split; [done|]. simpl. intros m x Hx.
    apply lookup_insert_Some in Hx as [[<- <-]|[Hne Hx]]; [by exists s|]. exists x. split; [done|]. unfold keeps_limits. lia.
  - intros [= <-]. destruct k as [st c g]. by apply (limits_same e (mkConnection st c g) c).
Qed.

Lemma view_advertised c c' : view c' = view c -> advertisedMaxOffset (flowControlState c') = advertisedMaxOffset (flowControlState c).
Proof. unfold view. by intros [= _ _ _ H _]. Qed.

Lemma append_limits s c b s' c' :
  appendDataToReadBuffer s c b = Some (inr (s', c')) ->
  flow s' = flow s /\ advertisedMaxOffset (flowControlState c') = advertisedMaxOffset (flowControlState c).
Proof.
  unfold appendDataToReadBuffer, appendDataToReadBufferCommon. destruct (negb (eof b) && _); [by intros [= <- <-]|].
  destruct (checkFinalSize (like s) b) as [?|l]; [done|]. simpl.
  destruct (updateFlowControlOnStreamData s (maxOffsetObserved l) (endOf b) c) as [?|c1] eqn:E; [done|]. simpl.
  destruct (storeBuffer _ b); simpl; [|done]. intros [= <- <-]. split; [done|].
  unfold updateFlowControlOnStreamData in E. repeat (case_match; try done). by injection E as <-.
Qed.

Lemma frame_limits C t s c b s' c' :
  local_ok C t s c -> 0 <= offset b -> stop b < 2 ^ 63 -> holds (Content := C) (offset b) (data b) ->
  receiveReadStreamFrameSMHandler s c b = Some (inr (s', c')) ->
  keeps_limits (stop b) s s' /\ advertisedMaxOffset (flowControlState c) <= advertisedMaxOffset (flowControlState c').
Proof.
  intros Hl H0 H1 H2 E. pose proof (frame_ok C t s c b Hl H0 H1 H2) as H. rewrite E in H. destruct H as [_ H].
  assert (Hmax : maxOffsetObserved (like s') <= Z.max (maxOffsetObserved (like s)) (stop b)).
  { destruct H as [[_ ->]|(_ & _ & [(_ & _ & ->)|(_ & _ & (_ & -> & _))])]; lia. }
  enough (flow s' = flow s /\ advertisedMaxOffset (flowControlState c') = advertisedMaxOffset (flowControlState c)) as [Hf Hc] by (unfold keeps_limits; rewrite Hf, Hc; lia).
  unfold receiveReadStreamFrameSMHandler in E. destruct (recvState s); [|destruct (isSendingStream _ _); [done|by injection E as <- <-]|done].
  destruct (appendDataToReadBuffer s c b) as [[?|[s1 c1]]|] eqn:Ea; [done| |done]. apply append_limits in Ea as [<- <-]. simpl in E.
  pose proof (view_close s1 c1) as Hv. destruct (isAllDataReceived (like s1)); simpl in E; injection E as <- <-.
  - split; [done|]. apply view_advertised. by rewrite view_peekable, view_readable.
  - split; [done|]. apply view_advertised. by rewrite view_peekable, view_readable.
Qed.

Lemma conn_update_limits c now b c' :
  maybeSendConnWindowUpdate c now = Some (b, c') -> advertisedMaxOffset (flowControlState c') = advertisedMaxOffset (flowControlState c).
Proof.
  unfold maybeSendConnWindowUpdate, maybeIncreaseConnectionFlowControlWindow. destruct (connWindowUpdate c); [by intros [= _ <-]|].
  destruct (calculateNewWindowUpdate _ _ _ _ _ _ _); [|by intros [= _ <-]]. simpl.
  destruct (autotuneReceiveConnFlowControl _); simpl; [|by intros [= _ <-]].
  destruct (maybeIncreaseFlowControlWindow _ _ _ _); simpl; [by intros [= _ <-]|done].
Qed.

Lemma read_limits C t s c amount now d e s' c' :
  local_ok C t s c -> t < now -> 0 <= amount -> readDataFromQuicStream s c amount false now = Some (inr (d, e, s', c')) ->
  keeps_limits 0 s s' /\ advertisedMaxOffset (flowControlState c) <= advertisedMaxOffset (flowControlState c').
Proof.
  intros Hl Ht Hn E. pose proof (quic_read_ok C t s c amount false now Hl Ht Hn) as H. rewrite E in H.
  destruct H as [_ (d' & l & _ & -> & H)]. unfold keeps_limits. simpl. rewrite max_passEnd.
  assert (maxOffsetObserved l = maxOffsetObserved (like s)) as ->.
  { destruct (atEnd (like s)); [by destruct H as (_ & -> & _)|]. by destruct H as [(_ & ? & _) _]. }
  enough (advertisedMaxOffset (flowControlState c') = advertisedMaxOffset (flowControlState c)) by lia. clear H.
  unfold readDataFromQuicStream in E. destruct (atEnd (like s)).
  - injection E as _ _ _ <-. apply view_advertised. by rewrite view_peekable, view_readable.
  - destruct (readDataInOrderFromReadBuffer _ _ _) as [[[d1 e1] l1]|]; [|done]. simpl in E. unfold updateFlowControlOnRead in E.
    destruct (incrementWithOverFlowCheck _ _) as [?|v]; [done|]. simpl in E.
    destruct (maybeSendConnWindowUpdate _ _) as [[b c1]|] eqn:E1; [|done]. simpl in E. apply conn_update_limits in E1.
    pose proof (view_stream_update (set_like s l1) c1 now) as Hv.
    destruct (maybeSendStreamWindowUpdate _ c1 now) as [b2 c2]. simpl in E, Hv. injection E as _ _ _ <-.
    rewrite (view_advertised c1) by by rewrite view_peekable, view_readable. exact E1.
Qed.

Lemma blocked_limits s c now s' c' :
  handleStreamBlocked s c now = Some (s', c') ->
  keeps_limits 0 s s' /\ advertisedMaxOffset (flowControlState c) <= advertisedMaxOffset (flowControlState c').
Proof.
  unfold handleStreamBlocked, maybeIncreaseStreamFlowControlWindow. destruct (autotuneReceiveStreamFlowControl _); simpl.
  - destruct (maybeIncreaseFlowControlWindow _ _ _ _); simpl; [|done]. intros [= <- <-]. unfold keeps_limits. simpl. lia.
  - intros [= <- <-]. unfold keeps_limits. simpl. lia.
Qed.

Lemma step_limits X t now e k k' :
  connection_ok (fun n => of_stream (X n)) t k -> t < now -> honest X e -> (forall n, zlen (X n) < 2 ^ 63) ->
  step now e k = Some (inr k') -> limits_grow e k k'.
Proof.
  intros Hk Ht He HX. pose proof (fun n s Hs => proj1 (local_of _ t k n s Hk Hs)) as Hloc.
  destruct e; try done; simpl in He |- *;
    try (apply on_limits; intros s Hs; specialize (Hloc n s Hs); unfold reach; rewrite ?decide_True by done);
    try (intros [= <-]; apply limits_same; simpl; lia).
  - destruct (receiveReadStreamFrameSMHandler s (conn k) frame) as [[?|[s' c']]|] eqn:E; try done. simpl.
    destruct He as (H1 & H2 & H3 & _). specialize (HX n). eapply frame_limits; [done|done|lia|exact H3|done].
  - destruct (handleStreamBlocked s (conn k) now) as [[s' c']|] eqn:E; [|done]. simpl. by eapply blocked_limits.
  - intros [= <-]. apply limits_same. unfold generateMaxDataFrame. simpl. lia.
  - unfold keeps_limits, generateMaxStreamDataFrame, calculateMaximumData. simpl. lia.
  - unfold keeps_limits, onStreamWindowUpdateLost, queueWindowUpdate. case_match; simpl; lia.
  - destruct (readDataFromQuicStream s (conn k) amount false now) as [[?|[[[d e] s'] c']]|] eqn:E; try done. simpl. by eapply read_limits.
Qed.

(** ** The receiver of an honest sender *)

Lemma sum_across f g (m1 : gmap Z Stream) : forall m2 : gmap Z Stream,
  (forall n s, m1 !! n = Some s -> exists x, m2 !! n = Some x /\ f s <= g x) -> map_Forall (fun _ x => 0 <= g x) m2 ->
  sum f m1 <= sum g m2.
Proof.
  induction m1 as [|i s m1 Hi IH] using map_ind; intros m2 H Hg; [rewrite (sum_zero f ∅) by done; by apply sum_nonneg|].
  destruct (H i s) as (x & Hx & Hle); [apply lookup_insert_eq|].
  assert (Hrest : sum f m1 <= sum g (delete i m2)).
  { apply IH; [|by apply map_Forall_delete]. intros n y Hn.
    assert (Hne : i <> n) by (intros ->; by rewrite Hi in Hn).
    destruct (H n y) as (z & Hz & Hz'); [by rewrite lookup_insert_ne|]. exists z. by rewrite lookup_delete_ne. }
  unfold sum in *. rewrite map_fold_insert_L by (done || intros; lia).
  rewrite (map_fold_delete_L _ _ i x m2) by (done || intros; lia). lia.
Qed.

(** A frame that is within the limits is taken in, and everything else succeeds. *)
Lemma step_succeeds X fs t now e k :
  connection_ok (fun n => of_stream (X n)) t k -> delivers X fs k -> t < now -> honest X e -> (forall n, zlen (X n) < 2 ^ 63) ->
  (forall n b s, e = StreamFrame n b -> streams k !! n = Some s -> ~ exceeds s (conn k) (stop b)) ->
  exists k', step now e k = Some (inr k').
Proof.
  intros Hk Hd Ht He HX Hex. pose proof (fun n s Hs => proj1 (local_of _ t k n s Hk Hs)) as Hloc.
  assert (Hon : forall n f, (forall s, streams k !! n = Some s -> exists r, f s (conn k) = Some (inr r)) -> exists k', on n f k = Some (inr k')).
  { intros n f Hf. unfold on. destruct (streams k !! n) as [s|]; [|by eexists]. destruct (Hf s eq_refl) as [[[o s'] c'] ->]. by eexists. }
  destruct e; try done; simpl in He |- *; try (by eexists); apply Hon; intros s Hs; specialize (Hloc n s Hs); try (by eexists).
  - destruct He as (H1 & H2 & H3 & H4). pose proof (part_consistent _ _ _ _ s frame (Hd n s Hs) (conj H1 (conj H2 (conj H3 H4)))) as Hc.
    specialize (HX n). pose proof (frame_ok (of_stream (X n)) t s (conn k) frame Hloc H1 ltac:(lia) H3) as H.
    destruct (receiveReadStreamFrameSMHandler s (conn k) frame) as [[?|[s' c']]|]; [|by eexists|done]. exfalso.
    destruct (Hd n s Hs) as (_ & _ & _ & _ & _ & _ & P7 & _). destruct H as [?|[[_ ?]|[? _]]]; [done..|]. by eapply Hex.
  - destruct (blocked_ok _ t s (conn k) now Hloc Ht) as (s' & c' & -> & _). by eexists.
  - pose proof (progress_read _ t s (conn k) _ _ _ amount now Hloc (Hd n s Hs) Ht He (HX n)) as H.
    destruct (readDataFromQuicStream _ _ _ _ _) as [[?|[[[d e] s'] c']]|]; [done|by eexists|done].
Qed.

(** The sender's application writes more. *)
Lemma stream_grows X X' s : X `prefix_of` X' -> stream_ok (of_stream X) s -> stream_ok (of_stream X') s.
Proof.
  intros HX ((R1 & R2 & R3) & H2 & H3 & H4 & H5). unfold stream_ok, ready. split_and!; try (done || lia).
  eapply Forall_impl; [exact R2|]. intros b (B1 & B2 & B3 & B4). split_and!; try done.
  simpl in *. etransitivity; [exact B4|]. by apply prefix_drop.
Qed.

Lemma connection_grows X X' t k :
  (forall n, X n `prefix_of` X' n) -> connection_ok (fun n => of_stream (X n)) t k -> connection_ok (fun n => of_stream (X' n)) t k.
Proof.
  intros HX (H1 & H2). split; [|done]. intros n s Hs. destruct (H1 n s Hs) as (E1 & E2 & E3). split_and!; try apply E3; [done|].
  by apply (stream_grows (X n)).
Qed.

Lemma progress_grows X d fs out told s :
  stream_ok (of_stream X) s -> existsb eof fs = false -> progress X fs out told s -> progress (X ++ d) fs out told s.
Proof.
  intros (Hr & _ & Hm & _ & Hf) He (P1 & P2 & P3 & P4 & P5 & P6 & P7 & P8). rewrite He in P2. rewrite P2 in Hf.
  destruct Hr as (Hr & _). unfold progress. rewrite He, zlen_app. assert (0 <= zlen d) by (unfold zlen; lia).
  split_and!; try done; [lia|..].
  - intros p Hp1 Hp2. apply P4; lia.
  - rewrite P5, take_app_le; [done|]. unfold zlen in *. lia.
  - rewrite P6. zcases; (done || lia).
  - intros E. destruct (P8 E) as [C _]. congruence.
Qed.

(** ** The pair *)

(** What the sender's application has written on stream [n]. *)
Definition wrote (w : Pair) (n : Z) : list Z := data_of n (accepted (sender w)).

Definition pair_ok (spare t : Z) (w : Pair) : Prop :=
  endpoint_ok spare (sender w) /\ (forall n, zlen (wrote w n) < 2 ^ 61) /\
  connection_ok (fun n => of_stream (wrote w n)) t (receiver w) /\
  delivers (wrote w) (fun n => carried n (delivered w)) (receiver w) /\
  (forall x, x ∈ delivered w -> x ∈ wire (sender w)) /\ (forall x, x ∈ acknowledged (sender w) -> x ∈ delivered w) /\
  peerAdvertisedMaxOffset (flowControlState (econn (sender w))) <= advertisedMaxOffset (flowControlState (conn (receiver w))) /\
  (forall n s, streams (receiver w) !! n = Some s ->
     exists x, senders (sender w) !! n = Some x /\ s_peerAdvertisedMaxOffset (flow (stream x)) <= s_advertisedMaxOffset (flow s) /\
       maxOffsetObserved (like s) <= bytesSent (stream x)).

Definition success (P : Pair -> Prop) (r : option (Exception + Pair)) : Prop :=
  match r with Some (inr w) => P w | _ => False end.

Lemma sent_part spare p n s b :
  endpoint_ok spare p -> senders p !! n = Some s -> (n, b) ∈ wire p ->
  part_of (data_of n (accepted p)) b /\ stop b <= bytesSent (stream s) /\ (eof b = true -> ended n (accepted p) = true).
Proof.
  intros (H1 & _) Hs Hb. destruct (H1 n s Hs) as (_ & (HS & _) & _ & -> & _ & _ & I7 & _).
  apply elem_of_carried in Hb. rewrite Forall_forall in I7. specialize (I7 b Hb). pose proof (kept_part _ s b HS I7) as Hp.
  destruct I7 as (_ & _ & _ & K4 & K5). destruct HS as (_ & _ & _ & _ & _ & T6). split_and!; [done| |intros E; by rewrite (K5 E)].
  destruct Hp as (_ & P2 & _). unfold bytesSent, written, span_end in *. destruct (finalWriteOffset (stream s)), (eof b); lia.
Qed.

(** The application of the sender has written more, or nothing has changed. *)
Lemma receiver_grows spare t w p' :
  pair_ok spare t w ->
  (accepted p' = accepted (sender w) \/
   exists n d e, accepted p' = accepted (sender w) ++ label n [(d, e)] /\ ended n (accepted (sender w)) = false /\ is_Some (senders (sender w) !! n)) ->
  let W n := data_of n (accepted p') in
  connection_ok (fun n => of_stream (W n)) t (receiver w) /\ delivers W (fun n => carried n (delivered w)) (receiver w).
Proof.
  intros (H1 & H2 & H3 & H4 & H5 & _) [E|(n & d & e & E & He & s & Hs)]; rewrite E; [done|].
  destruct (given_read n (accepted (sender w)) d e) as [En _]. unfold wrote in *.
  assert (Hpre : forall m, data_of m (accepted (sender w)) `prefix_of` data_of m (accepted (sender w) ++ label n [(d, e)])).
  { intros m. destruct (decide (m = n)) as [->|Hm]; [|by rewrite data_of_other]. rewrite En. by apply prefix_app_r. }
  split; [by apply (connection_grows (fun m => data_of m (accepted (sender w))))|]. intros m x Hx. specialize (H4 m x Hx). cbn beta in *.
  destruct (decide (m = n)) as [->|Hm]; [|by rewrite data_of_other]. rewrite En. apply progress_grows; [| |done].
  - destruct H3 as (H3 & _). by destruct (H3 n x Hx) as (_ & ? & _).
  - apply not_true_is_false. intros (b & Hb & Hbe)%existsb_exists.
    apply list_elem_of_In, elem_of_carried, H5 in Hb. destruct (sent_part _ _ n s b H1 Hs Hb) as (_ & _ & Hend). by rewrite (Hend Hbe) in He.
Qed.

Lemma sender_ok_pair spare t now w a :
  pair_ok (load a + spare) t w -> 0 <= spare -> action_ok a -> allowed w a = true -> t < now ->
  success (pair_ok spare now) (happen now (AtSender a) w).
Proof.
  intros Hw H0 Ha Hal Ht. pose proof Hw as (H1 & H2 & H3 & H4 & H5 & H6 & H7 & H8). simpl. rewrite Hal.
  pose proof (act_ok spare (sender w) a H1 H0 Ha) as H. destruct (act a (sender w)) as [[?|p']|]; try done.
  destruct H as [Hp' (V1 & V2 & V3 & V4 & V5)]. destruct (receiver_grows _ t w p' Hw V3) as [G1 G2].
  destruct (endpoint_share _ _ H1) as (S1 & _ & _). pose proof H1 as (_ & _ & _ & S2 & _).
  destruct (endpoint_share _ _ Hp') as (S1' & S1'' & S3). pose proof Hp' as (_ & _ & _ & _ & S4).
  unfold success, pair_ok, wrote. simpl. split_and!; try done.
  - intros n. destruct V3 as [->|(m & d & e & E & _ & s & Hs)]; [apply H2|].
    destruct (decide (n = m)) as [->|Hne]; [|rewrite E, data_of_other by done; apply H2].
    destruct (V5 m s Hs) as (s' & Hs' & _). destruct (S3 m s' Hs') as (? & ? & ? & ?). lia.
  - pose proof (connection_later _ t now (receiver w) (conn (receiver w)) (given (receiver w)) G1 ltac:(lia) eq_refl) as G. by destruct (receiver w).
  - intros x Hx. by apply V1, H5.
  - intros x Hx. destruct (V2 x Hx) as [Hx'|(i & -> & Hi)]; [by apply H6|]. simpl in Hal. rewrite Hi in Hal. by apply bool_decide_eq_true in Hal.
  - etransitivity; [exact V4|]. destruct a; simpl in *; try lia.
  - intros n s Hs. destruct (H8 n s Hs) as (x & Hx & L1 & L2). destruct (V5 n x Hx) as (x' & Hx' & A1 & A2). exists x'. split_and!; [done| |lia].
    destruct H3 as (H3 & _). destruct (H3 n s Hs) as (_ & (_ & _ & Hadv & _) & _).
    etransitivity; [exact A2|]. destruct a as [| | | | |m v|]; simpl in *; try lia.
    destruct (decide (m = n)) as [->|]; [|lia]. rewrite Hs in Hal. apply Z.leb_le in Hal. lia.
Qed.

(** The receiver's part after a step. *)
Lemma receiver_steps spare t now w e k' dl :
  pair_ok spare t w -> t < now -> honest (wrote w) e -> step now e (receiver w) = Some (inr k') ->
  (forall n, carried n dl = carried n (delivered w) ++ frame_on n e) ->
  (forall x, x ∈ dl -> x ∈ wire (sender w)) -> (forall x, x ∈ delivered w -> x ∈ dl) ->
  (forall n s, streams (receiver w) !! n = Some s -> exists x, senders (sender w) !! n = Some x /\ reach e n <= bytesSent (stream x)) ->
  pair_ok spare now (mkPair (sender w) k' dl).
Proof.
  intros (H1 & H2 & H3 & H4 & H5 & H6 & H7 & H8) Ht He E Hdl Hw1 Hw2 Hr.
  assert (HX : forall n, zlen (wrote w n) < 2 ^ 63) by (intros n; specialize (H2 n); lia).
  destruct (honest_ok _ e HX He) as [He1 He2].
  pose proof (step_ok _ t now e (receiver w) H3 Ht He1 He2) as G1. rewrite E in G1.
  pose proof (step_delivers _ _ t now e (receiver w) H3 H4 Ht He HX) as G2. rewrite E in G2.
  destruct (step_limits _ t now e _ _ H3 Ht He HX E) as [G3 G4].
  unfold pair_ok. change (wrote (mkPair (sender w) k' dl)) with (wrote w). simpl. split_and!; try done; [|by auto|lia|].
  - intros n s Hs. rewrite Hdl. by apply (G2 n s).
  - intros n s' Hs'. destruct (G4 n s' Hs') as (s & Hs & L1 & L2). destruct (H8 n s Hs) as (x & Hx & M1 & M2).
    destruct (Hr n s Hs) as (x' & Hx' & Hreach). rewrite Hx in Hx'. injection Hx' as <-. exists x. split_and!; [done|lia|lia].
Qed.

Lemma receiver_ok_pair spare t now w e :
  pair_ok spare t w -> t < now -> own_event e = true -> success (pair_ok spare now) (happen now (AtReceiver e) w).
Proof.
  intros Hw Ht He. pose proof Hw as (H1 & H2 & H3 & H4 & H5 & H6 & H7 & H8). simpl. rewrite He.
  assert (HX : forall n, zlen (wrote w n) < 2 ^ 63) by (intros n; specialize (H2 n); lia).
  assert (Hh : honest (wrote w) e) by (destruct e; try done; by apply Z.leb_le in He).
  destruct (step_succeeds _ _ t now e _ H3 H4 Ht Hh HX) as [k' E]; [by intros n b s ->|]. rewrite E. simpl.
  apply (receiver_steps _ t now w e); try done.
  - intros n. destruct e; try done; simpl; by rewrite app_nil_r.
  - intros n s Hs. destruct (H8 n s Hs) as (x & Hx & _). exists x. split; [done|].
    destruct (endpoint_share _ _ H1) as (_ & _ & Hsh). destruct (Hsh n x Hx) as (_ & _ & _ & Hnn). by destruct e.
Qed.

(** A frame that the sender has sent is within the limits. *)
Lemma within_limits spare t w n b s :
  pair_ok spare t w -> (n, b) ∈ wire (sender w) -> streams (receiver w) !! n = Some s -> ~ exceeds s (conn (receiver w)) (stop b).
Proof.
  intros (H1 & H2 & H3 & _ & _ & _ & H7 & H8) Hb Hs. destruct (H8 n s Hs) as (x & Hx & M1 & M2).
  destruct (sent_part _ _ n x b H1 Hx Hb) as (_ & Hstop & _). pose proof H1 as (I1 & E1 & _ & E3 & _).
  destruct (I1 n x Hx) as (_ & _ & (_ & _ & Q3 & _) & _). destruct H3 as (_ & Hsum & _).
  set (l := set_max (like s) (Z.max (maxOffsetObserved (like s)) (stop b))).
  assert (Hle : sum (fun s => maxOffsetObserved (like s)) (<[n := set_like s l]> (streams (receiver w))) <= sum bytesSent (streams_of (sender w))).
  { apply sum_across.
    - intros m y [[<- <-]|[Hne Hy]]%lookup_insert_Some.
      + exists (stream x). unfold streams_of. rewrite lookup_fmap, Hx. split; [done|]. simpl. lia.
      + destruct (H8 m y Hy) as (z & Hz & _ & Hz'). exists (stream z). unfold streams_of. by rewrite lookup_fmap, Hz.
    - intros m y Hy. unfold streams_of in Hy. apply lookup_fmap_Some in Hy as (z & <- & Hz).
      destruct (endpoint_share _ _ H1) as (_ & _ & Hsh). by destruct (Hsh m z Hz) as (_ & _ & _ & ?). }
  rewrite (sum_insert _ _ n s) in Hle by done. simpl in Hle. unfold exceeds. lia.
Qed.

Lemma arrival_ok_pair spare t now w i :
  pair_ok spare t w -> t < now -> success (pair_ok spare now) (happen now (Arrives i) w).
Proof.
  intros Hw Ht. pose proof Hw as (H1 & H2 & H3 & H4 & H5 & H6 & H7 & H8). simpl.
  assert (Hlater : forall dl, (forall x, x ∈ dl -> x ∈ wire (sender w)) -> (forall x, x ∈ delivered w -> x ∈ dl) ->
    (forall n s, streams (receiver w) !! n = Some s -> carried n dl = carried n (delivered w)) ->
    pair_ok spare now (mkPair (sender w) (receiver w) dl)).
  { intros dl D1 D2 D3. unfold pair_ok. change (wrote (mkPair _ _ dl)) with (wrote w). simpl. split_and!; try done; [|intros n s Hs; by rewrite (D3 n s Hs); apply H4|by auto].
    pose proof (connection_later _ t now _ (conn (receiver w)) (given (receiver w)) H3 ltac:(lia) eq_refl) as G. by destruct (receiver w). }
  destruct (wire (sender w) !! i) as [[n b]|] eqn:Ei; [|destruct w; by apply Hlater]. apply list_elem_of_lookup_2 in Ei.
  assert (Hdl : forall x, x ∈ delivered w ++ [(n, b)] -> x ∈ wire (sender w)).
  { intros x [Hx|Hx%list_elem_of_singleton]%elem_of_app; [by apply H5|by rewrite Hx]. }
  assert (Hmore : forall x, x ∈ delivered w -> x ∈ delivered w ++ [(n, b)]) by (intros x Hx; rewrite elem_of_app; by left).
  destruct (streams (receiver w) !! n) as [s|] eqn:Hs; cycle 1.
  { unfold step, on. rewrite Hs. simpl. apply Hlater; try done. intros m s' Hm. rewrite carried_app, carried_other, app_nil_r; [done|].
    intros ->. by rewrite Hs in Hm. }
  destruct (H8 n s Hs) as (x & Hx & _). destruct (sent_part _ _ n x b H1 Hx Ei) as (Hpart & Hstop & _).
  assert (HX : forall n, zlen (wrote w n) < 2 ^ 63) by (intros m; specialize (H2 m); lia).
  destruct (step_succeeds _ _ t now (StreamFrame n b) _ H3 H4 Ht Hpart HX) as [k' E].
  { intros m b' s' [= <- <-] Hs'. by eapply within_limits. }
  unfold step in E |- *. rewrite E. simpl. apply (receiver_steps _ t now w (StreamFrame n b)); try done.
  - intros m. rewrite carried_app. f_equal. unfold frame_on. destruct (decide (n = m)) as [->|Hne]; [apply carried_one|by apply carried_other].
  - intros m s' Hs'. destruct (H8 m s' Hs') as (y & Hy & _). exists y. split; [done|]. unfold reach. destruct (decide (n = m)) as [->|].
    + rewrite Hx in Hy. by injection Hy as <-.
    + destruct (endpoint_share _ _ H1) as (_ & _ & Hsh). by destruct (Hsh m y Hy) as (_ & _ & _ & ?).
Qed.

Lemma happen_ok spare t now x w :
  pair_ok (match x with AtSender a => load a | _ => 0 end + spare) t w -> 0 <= spare -> t < now ->
  match x with AtSender a => action_ok a | _ => True end -> success (pair_ok spare now) (happen now x w).
Proof.
  intros Hw H0 Ht Hx. destruct x as [a|e|i].
  - destruct (allowed w a) eqn:Ea; [by apply (sender_ok_pair spare t)|]. unfold happen. rewrite Ea. simpl.
    assert (Hl : 0 <= load a) by (destruct a; simpl; unfold zlen; lia). destruct Hw as (H1 & H2 & H3 & H4 & H5).
    split_and!; try done; [by apply (endpoint_less (load a + spare)); [lia|]|..]; try apply H5.
    pose proof (connection_later _ t now _ (conn (receiver w)) (given (receiver w)) H3 ltac:(lia) eq_refl) as G. by destruct (receiver w).
  - destruct (own_event e) eqn:Ee; [by apply (receiver_ok_pair spare t)|]. unfold happen. rewrite Ee. simpl.
    destruct Hw as (H1 & H2 & H3 & H4 & H5). split_and!; try done; try apply H5.
    pose proof (connection_later _ t now _ (conn (receiver w)) (given (receiver w)) H3 ltac:(lia) eq_refl) as G. by destruct (receiver w).
  - by apply (arrival_ok_pair spare t).
Qed.

Definition end_time (t : Z) (h : list (Z * Happening)) : Z := default t (fst <$> last h).

Lemma end_time_cons t now x h : end_time t ((now, x) :: h) = end_time now h.
Proof.
  unfold end_time. destruct h as [|y h]; [done|]. rewrite last_cons_cons. destruct (last (y :: h)) eqn:E; [done|]. by apply last_None in E.
Qed.

Lemma happens_ok h : forall t w,
  pair_ok (total h) t w -> history_fits t h -> success (pair_ok 0 (end_time t h)) (happens h w).
Proof.
  induction h as [|[now x] h IH]; intros t w Hw Hh; [done|]. destruct Hh as (Ht & Hx & Hh). simpl in Hw |- *. rewrite end_time_cons.
  assert (Hnn : 0 <= total h).
  { clear. induction h as [|[u y] h IH]; simpl; [done|]. destruct y as [a| |]; [destruct a|..]; simpl; unfold zlen; lia. }
  pose proof (happen_ok (total h) t now x w Hw Hnn Ht Hx) as H. destruct (happen now x w) as [[?|w']|]; try done. by apply IH.
Qed.

(** When the sender takes a stream for finished, the receiver has all of it. *)
Lemma closed_complete spare t w n x :
  pair_ok spare t w -> senders (sender w) !! n = Some x -> sendState (stream x) = SendClosed ->
  complete (wrote w n) (carried n (delivered w)) /\ ended n (accepted (sender w)) = true.
Proof.
  intros (H1 & _ & _ & _ & H5 & H6 & _) Hx Hc. pose proof H1 as (I & _). specialize (I n x Hx).
  apply (closed_iff _ _ _ _ _ _ _ I) in Hc as (C1 & C2 & C3 & C4). pose proof I as (_ & (_ & _ & (_ & _ & P3)) & _ & _ & _ & _ & _ & I8).
  assert (Hall : forall q, 0 <= q <= zlen (wrote w n) -> exists b, b ∈ carried n (delivered w) /\ occupies b q /\ part_of (wrote w n) b).
  { intros q Hq. destruct (P3 q) as [X|[X|X]]; [unfold wrote in Hq; lia| | |].
    - apply (in_flight _ _ _ _ _ _ _ q I) in X. rewrite C3 in X. by apply in_list_nil in X.
    - rewrite C4 in X. by apply in_list_nil in X.
    - apply I8, Exists_exists in X as (b & Hb & Hq'). apply elem_of_carried, H6 in Hb. exists b. split_and!; [by apply elem_of_carried|apply Hq'|].
      apply H5 in Hb. by apply (sent_part _ _ n x b H1 Hx). }
  split; [|done]. split.
  - destruct (Hall (zlen (wrote w n))) as (b & Hb & Hq & (_ & P2 & _)); [unfold zlen; lia|]. apply existsb_exists. exists b.
    split; [by apply list_elem_of_In|]. unfold occupies, span_end in Hq. destruct (eof b); [done|lia].
  - intros q Hq. destruct (Hall q) as (b & Hb & Hq' & (_ & _ & _ & P4)); [lia|]. apply Exists_exists. exists b. split; [done|].
    unfold covers, occupies, span_end in *. destruct (eof b); [specialize (P4 eq_refl)|]; lia.
Qed.

(** ** The start *)

Definition fresh_pair (w : Pair) : Prop :=
  fresh_endpoint (sender w) /\ fresh (receiver w) /\ delivered w = [] /\
  peerAdvertisedMaxOffset (flowControlState (econn (sender w))) <= advertisedMaxOffset (flowControlState (conn (receiver w))) /\
  (forall n s, streams (receiver w) !! n = Some s ->
     exists x, senders (sender w) !! n = Some x /\ s_peerAdvertisedMaxOffset (flow (stream x)) <= s_advertisedMaxOffset (flow s)).

Lemma fresh_pair_ok spare t w : fresh_pair w -> spare < 2 ^ 61 -> pair_ok spare t w.
Proof.
  intros (F1 & F2 & F3 & F4 & F5) Hs. pose proof F1 as (G1 & _ & _ & G4 & G5 & _). pose proof F2 as (K1 & _).
  unfold pair_ok, wrote. rewrite F3, G4, G5. split_and!; try done.
  - by apply fresh_endpoint_ok.
  - by apply fresh_ok.
  - by apply fresh_delivers.
  - by intros x ?%not_elem_of_nil.
  - intros n s Hn. destruct (F5 n s Hn) as (x & Hx & Hle). exists x. split_and!; [done..|].
    destruct (K1 n s Hn) as (_ & -> & _). destruct (G1 n x Hx) as (_ & _ & E1 & E2 & _). unfold bytesSent. by rewrite E1, E2.
Qed.

(** C4. Two endpoints and a network that loses, delays, reorders and repeats packets.  The
    sending application writes and ends streams, packets of any size go out and are declared
    lost rightly or wrongly, the receiving application reads when it likes, and
    acknowledgements and new limits come late or never.  On neither side a check of the code
    fails, an exception is thrown or the connection is closed for a violation of flow
    control.  On every stream the receiving application has been given, in order, the bytes
    that the sending application has written; when it is told the end it has all of them
    and the sender has ended the stream.  When the sender takes the stream for closed, the
    receiver has everything: reading without limit gives the rest and the end.  The times of
    the events strictly increase, as in [QuicReceive.history_ok]. *)
Theorem quic_transfer t h w0 :
  fresh_pair w0 -> history_fits t h -> total h < 2 ^ 61 ->
  exists w, happens h w0 = Some (inr w) /\
    forall n s, streams (receiver w) !! n = Some s ->
      exists x, senders (sender w) !! n = Some x /\
        data_of n (given (receiver w)) `prefix_of` wrote w n /\
        (ended n (given (receiver w)) = true ->
           data_of n (given (receiver w)) = wrote w n /\ ended n (accepted (sender w)) = true) /\
        (sendState (stream x) = SendClosed -> forall now, end_time t h < now ->
           exists k, step now (Read n 0) (receiver w) = Some (inr k) /\
             data_of n (given k) = wrote w n /\ ended n (given k) = true).
Proof.
  intros Hf Hh Hv. pose proof (happens_ok h t w0 (fresh_pair_ok _ t w0 Hf Hv) Hh) as H.
  destruct (happens h w0) as [[?|w]|]; try done. pose proof H as (H1 & H2 & H3 & H4 & H5 & H6 & H7 & H8). exists w. split; [done|].
  intros n s Hs. destruct (H8 n s Hs) as (x & Hx & _). exists x. split; [done|].
  destruct (H4 n s Hs) as (_ & P2 & _ & _ & P5 & P6 & _). split_and!.
  - rewrite P5. apply prefix_take.
  - intros E. rewrite P6 in E. apply Z.gtb_lt in E. split; [rewrite P5; apply take_ge; unfold zlen in E; lia|].
    destruct H3 as (H3 & _). destruct (H3 n s Hs) as (_ & (_ & _ & _ & _ & Hcro) & _). rewrite P2 in Hcro.
    destruct (existsb eof (carried n (delivered w))) eqn:Ee; [|destruct (H4 n s Hs) as (? & _); lia].
    apply existsb_exists in Ee as (b & Hb & Hbe). apply list_elem_of_In, elem_of_carried, H5 in Hb. by apply (sent_part _ _ n x b H1 Hx).
  - intros Hc now Hnow. destruct (closed_complete _ _ w n x H Hx Hc) as [Hall _].
    destruct (read_everything (wrote w) (fun n => carried n (delivered w)) (end_time t h) (receiver w) n s now) as (k & E1 & _ & _ & E2);
      [done|done|intros m; specialize (H2 m); lia|done|done|].
    exists k. split; [done|]. by apply E2.
Qed.

(** ** Examples *)

(** The server that listens to the client of [exampleEndpoint]. *)
Definition exampleServerStream (n : Z) : Stream :=
  mkStream n emptyLike (mkStreamFlow 6 6 0 None false) SendOpen RecvOpen None None [] [] 0 None (mkMeta 0 0 false) false.
Definition exampleServer : Connection :=
  mkConnection (<[4 := exampleServerStream 4]> (<[0 := exampleServerStream 0]> ∅))
    (mkConn Server (mkConnFlow 8 8 0 0 0 0 0 None) false false 1000 (mkSettings 2 2 true true false false true 8) ∅ ∅ ∅ ∅ ∅ ∅ ∅) [].
Definition examplePair : Pair := mkPair exampleEndpoint exampleServer [].

Lemma example_fresh_pair : fresh_pair examplePair.
Proof.
  assert (Hall : forall P : Z -> Stream -> Prop, P 4 (exampleServerStream 4) -> P 0 (exampleServerStream 0) -> map_Forall P (streams exampleServer)).
  { intros P H1 H2. unfold exampleServer. simpl. apply map_Forall_insert_2; [done|]. apply map_Forall_insert_2; [done|]. apply map_Forall_empty. }
  split; [apply example_fresh_endpoint|]. split_and!; try done; [|apply (Hall (fun n s => _)); cbn beta].
  - split_and!; try done. by apply Hall; vm_compute.
  - exists (exampleSender 4). by vm_compute.
  - exists (exampleSender 0). by vm_compute.
Qed.

(** The first frame is taken for lost, is sent again in two parts and arrives nevertheless,
    in the end twice; the limits keep the end back until the application has read. *)
Definition exampleHappenings : list (Z * Happening) :=
  [(1, AtSender (WriteChain 0 [1; 2; 3; 4; 5; 6; 7] true)); (2, AtSender (WriteChain 4 [8; 9; 10] false));
   (3, AtSender (SendNew 0 100)); (4, AtSender (SendNew 4 100)); (5, AtSender (PacketLost 0)); (6, AtSender (SendAgain 0 0 5));
   (7, AtSender (SendAgain 0 0 100)); (8, Arrives 3); (9, AtReceiver (Read 0 0)); (10, Arrives 0); (11, AtReceiver (Read 0 4));
   (12, AtReceiver (MaxStreamDataSent 0)); (13, AtReceiver MaxDataSent); (14, AtSender (PacketAcked 1)); (15, AtSender (PacketAcked 1));
   (16, AtSender (MaxStreamDataFrame 0 10)); (17, AtSender (MaxDataFrame 12)); (18, AtSender (SendNew 0 100));
   (19, Arrives 4); (20, Arrives 2); (21, Arrives 0); (22, AtSender (PacketAcked 1)); (23, AtSender (PacketAcked 1)); (24, AtSender (PacketAcked 1))].

Lemma example_happenings :
  match happens exampleHappenings examplePair with
  | Some (inr w) =>
      match streams (receiver w) !! 0, senders (sender w) !! 0 with
      | Some _, Some x => sendState (stream x) = SendClosed /\ given (receiver w) = [(0, [], false); (0, [1; 2; 3; 4], false)]
      | _, _ => False
      end
  | _ => False
  end.
Proof. vm_compute. done. Qed.

Lemma quic_transfer_witness :
  exists w k, happens exampleHappenings examplePair = Some (inr w) /\ step 25 (Read 0 0) (receiver w) = Some (inr k) /\
    data_of 0 (given k) = wrote w 0 /\ ended 0 (given k) = true.
Proof.
  assert (Hh : history_fits 0 exampleHappenings) by (simpl; split_and!; (done || lia)).
  destruct (quic_transfer 0 exampleHappenings examplePair example_fresh_pair Hh ltac:(by vm_compute)) as (w & E & H).
  pose proof example_happenings as Hex. rewrite E in Hex. destruct (streams (receiver w) !! 0) as [s|] eqn:Hs; [|by destruct Hex].
  destruct (H 0 s Hs) as (x & Hx & _ & _ & Hall). rewrite Hx in Hex. destruct Hex as [Hc _].
  destruct (Hall Hc 25 ltac:(by vm_compute)) as (k & Hk). exists w, k. split; [exact E|exact Hk].
Defined.

End QuicTransfer.
