(* ===== verification/QuicFrames.v ===== *)
(** * QUIC frames: reading

    The payload of a QUIC packet is a sequence of frames.  This file is the reading half of
    their codec, [codec/Decode.cpp]: one parser per frame, [parseFrame] that chooses among
    them, and [decodeRegularPacket] that reads frames until the payload is used up.  The
    frames are those of [codec/Types.h].

    A cursor and a [BufQueue] are the bytes that are left, in one contiguous piece.  An
    exception that [parseFrame] throws has the code FRAME_ENCODING_ERROR and a frame type;
    the messages are left out. *)

From S2P Require Import Prelude QuicInteger.

Module QuicFrames.

(** ** Frame types: [enum class FrameType : uint64_t] *)

Module FrameType.
Definition PADDING := 0x00.
Definition PING := 0x01.
Definition ACK := 0x02.
Definition ACK_ECN := 0x03.
Definition RST_STREAM := 0x04.
Definition STOP_SENDING := 0x05.
Definition CRYPTO_FRAME := 0x06.
Definition NEW_TOKEN := 0x07.
Definition STREAM := 0x08.
Definition STREAM_OFF_LEN_FIN := 0x0f.
Definition MAX_DATA := 0x10.
Definition MAX_STREAM_DATA := 0x11.
Definition MAX_STREAMS_BIDI := 0x12.
Definition MAX_STREAMS_UNI := 0x13.
Definition DATA_BLOCKED := 0x14.
Definition STREAM_DATA_BLOCKED := 0x15.
Definition STREAMS_BLOCKED_BIDI := 0x16.
Definition STREAMS_BLOCKED_UNI := 0x17.
Definition NEW_CONNECTION_ID := 0x18.
Definition RETIRE_CONNECTION_ID := 0x19.
Definition PATH_CHALLENGE := 0x1A.
Definition PATH_RESPONSE := 0x1B.
Definition CONNECTION_CLOSE := 0x1C.
Definition CONNECTION_CLOSE_APP_ERR := 0x1D.
Definition HANDSHAKE_DONE := 0x1E.
Definition DATAGRAM := 0x30.
Definition DATAGRAM_LEN := 0x31.
Definition KNOB := 0x1550.
Definition IMMEDIATE_ACK := 0xAC.
Definition ACK_FREQUENCY := 0xAF.
Definition GROUP_STREAM := 0x32.
Definition GROUP_STREAM_OFF_LEN_FIN := 0x39.
Definition ACK_RECEIVE_TIMESTAMPS := 0xB0.
End FrameType.

Definition kMaxMaxStreams : Z := Z.shiftl 1 60.
Definition kDefaultAckDelayExponent : Z := 3.
Definition kDefaultReceiveTimestampsExponent : Z := 3.
Definition kMaxReasonPhraseLength : Z := 1024.
Definition kMaxConnectionIdSize : Z := 20.
(** The size of a [StatelessResetToken]. *)
Definition kStatelessResetTokenLength : Z := 16.

(** ** Frames *)

Inductive QuicErrorCode :=
| ApplicationErrorCode (code : Z)
| LocalErrorCode (code : Z)
| TransportErrorCode (code : Z).

Inductive QuicSimpleFrame :=
| StopSendingFrame (streamId errorCode : Z)
| PathChallengeFrame (pathData : Z)
| PathResponseFrame (pathData : Z)
| NewConnectionIdFrame (sequenceNumber retirePriorTo : Z) (connectionId token : list Z)
| MaxStreamsFrame (maxStreams : Z) (isForBidirectional : bool)
| RetireConnectionIdFrame (sequenceNumber : Z)
| HandshakeDoneFrame
| KnobFrame (knobSpace id : Z) (blob : list Z)
| AckFrequencyFrame (sequenceNumber packetTolerance updateMaxAckDelay reorderThreshold : Z)
| NewTokenFrame (token : list Z).

#[global] Instance QuicSimpleFrame_eq_dec : EqDecision QuicSimpleFrame.
Proof. solve_decision. Defined.

Record AckBlock := mkBlock { startPacket : Z; endPacket : Z }.
Record RecvdPacketsTimestampsRange := mkRange { gap : Z; timestamp_delta_count : Z; deltas : list Z }.

Record AckFrame := mkAck {
  largestAcked : Z;
  ackDelay : Z;
  ackBlocks : list AckBlock;
  frameType : Z;
  maybeLatestRecvdPacketTime : option Z;
  maybeLatestRecvdPacketNum : option Z;
  recvdPacketsTimestampRanges : list RecvdPacketsTimestampsRange;
  ecnECT0Count : Z;
  ecnECT1Count : Z;
  ecnCECount : Z
}.

(** The frames that are read; a frame without members is a constant. *)
Inductive QuicFrame :=
| PaddingFrame (numFrames : Z)
| RstStreamFrame (streamId errorCode offset : Z)
| ConnectionCloseFrame (errorCode : QuicErrorCode) (reasonPhrase : list Z) (closingFrameType : Z)
| MaxDataFrame (maximumData : Z)
| MaxStreamDataFrame (streamId maximumData : Z)
| DataBlockedFrame (dataLimit : Z)
| StreamDataBlockedFrame (streamId dataLimit : Z)
| StreamsBlockedFrame (streamLimit : Z) (isForBidirectional : bool)
| ReadAckFrame (ack : AckFrame)
| ReadStreamFrame (streamId : Z) (streamGroupId : option Z) (offset : Z) (data : list Z) (fin : bool)
| ReadCryptoFrame (offset : Z) (data : list Z)
| ReadNewTokenFrame (token : list Z)
| SimpleFrame (f : QuicSimpleFrame)
| PingFrame
| DatagramFrame (length : Z) (data : list Z)
| ImmediateAckFrame.

(** [QuicTransportException] with FRAME_ENCODING_ERROR and the frame type it names. *)
Inductive FrameEncodingError := BadFrame (frameType : option Z).

(** What a packet's header and the negotiated parameters say to the codec. *)
Inductive HeaderForm := Long | Short.
Record CodecParameters := mkParams {
  peerAckDelayExponent : Z;
  receiveTimestampsExponent : option Z
}.

(** ** Reading integers *)

Section reading.
Variable t : Z.   (* the frame type that an exception names *)

Definition readInteger : parser FrameEncodingError Z := fun cursor =>
  match QuicInteger.decodeQuicInteger cursor 8 with
  | Some ((v, _), cursor) => POk v cursor
  | None => PErr (BadFrame (Some t))
  end.

(** With its size. *)
Definition readIntegerSized : parser FrameEncodingError (Z * Z) := fun cursor =>
  match QuicInteger.decodeQuicInteger cursor 8 with
  | Some (vn, cursor) => POk vn cursor
  | None => PErr (BadFrame (Some t))
  end.

(** As an optional value; the cursor does not move if there is none. *)
Definition tryInteger : parser FrameEncodingError (option Z) := fun cursor =>
  match QuicInteger.decodeQuicInteger cursor 8 with
  | Some ((v, _), cursor) => POk (Some v) cursor
  | None => POk None cursor
  end.

Definition check (b : bool) : parser FrameEncodingError () := if b then mret () else pfail (BadFrame (Some t)).

(** [cursor.totalLength()]. *)
Definition totalLength : parser FrameEncodingError Z := fun cursor => POk (zlen cursor) cursor.
End reading.

(** ** Acknowledgements *)

Definition nextAckedPacketGap (packetNum gap : Z) : parser FrameEncodingError Z :=
  let adjustedGap := u64 (gap + 2) in
  if packetNum <? adjustedGap then pfail (BadFrame (Some FrameType.ACK)) else mret (packetNum - adjustedGap).

Definition nextAckedPacketLen (packetNum ackBlockLen : Z) : parser FrameEncodingError Z :=
  if packetNum <? ackBlockLen then pfail (BadFrame (Some FrameType.ACK)) else mret (packetNum - ackBlockLen).

Definition convertEncodedDurationToMicroseconds (frameType exponentToUse delay : Z) : parser FrameEncodingError Z :=
  let delayValWidth := 64 in
  if (exponentToUse =? 0) || (exponentToUse >=? delayValWidth) then mret delay
  else
    let leftShift := delayValWidth - exponentToUse in
    let delayOverflowMask := u64 (Z.shiftl UINT64_MAX leftShift) in
    if negb (Z.land delay delayOverflowMask =? 0) then pfail (BadFrame (Some frameType))
    else
      let adjustedDelay := u64 (Z.shiftl delay exponentToUse) in
      if adjustedDelay >? INT64_MAX then pfail (BadFrame (Some frameType)) else mret adjustedDelay.

(** The loop over the additional blocks: [numBlocks] of [additionalAckBlocks] are read. *)
Fixpoint readAckBlocks (fuel : nat) (numBlocks additionalAckBlocks currentPacketNum : Z) (blocks : list AckBlock)
  : parser FrameEncodingError (list AckBlock) :=
  if numBlocks <? additionalAckBlocks then
    match fuel with
    | O => fun _ => PLoop
    | S fuel =>
        currentGap ← readInteger FrameType.ACK;
        blockLen ← readInteger FrameType.ACK;
        nextEndPacket ← nextAckedPacketGap currentPacketNum currentGap;
        currentPacketNum ← nextAckedPacketLen nextEndPacket blockLen;
        readAckBlocks fuel (numBlocks + 1) additionalAckBlocks currentPacketNum (blocks ++ [mkBlock currentPacketNum nextEndPacket])
    end
  else mret blocks.

(** Every block takes bytes of the cursor, so its length bounds the rounds. *)
Definition decodeAckFrame (header : HeaderForm) (params : CodecParameters) (frameType : Z) : parser FrameEncodingError AckFrame :=
  largestAcked ← readInteger FrameType.ACK;
  ackDelay ← readInteger FrameType.ACK;
  additionalAckBlocks ← readInteger FrameType.ACK;
  firstAckBlockLen ← readInteger FrameType.ACK;
  let ackDelayExponentToUse := match header with Long => kDefaultAckDelayExponent | Short => peerAckDelayExponent params end in
  currentPacketNum ← nextAckedPacketLen largestAcked firstAckBlockLen;
  adjustedDelay ← convertEncodedDurationToMicroseconds frameType ackDelayExponentToUse ackDelay;
  let adjustedDelay := if adjustedDelay >? 1000 * 1000 * 1000 then 0 else adjustedDelay in
  fuel ← (fun cursor => POk (S (length cursor)) cursor);
  blocks ← readAckBlocks fuel 0 additionalAckBlocks currentPacketNum [mkBlock currentPacketNum largestAcked];
  mret (mkAck largestAcked adjustedDelay blocks frameType None None [] 0 0 0).

Fixpoint readDeltas (fuel : nat) (t i count exponent : Z) (l : list Z) : parser FrameEncodingError (list Z) :=
  if i <? count then
    match fuel with
    | O => fun _ => PLoop
    | S fuel =>
        delta ← readInteger FrameType.ACK_RECEIVE_TIMESTAMPS;
        adjustedDelta ← convertEncodedDurationToMicroseconds t exponent delta;
        readDeltas fuel t (i + 1) count exponent (l ++ [adjustedDelta])
    end
  else mret l.

Fixpoint readTimestampRanges (fuel : nat) (t numRanges timeStampRangeCount exponent : Z) (l : list RecvdPacketsTimestampsRange)
  : parser FrameEncodingError (list RecvdPacketsTimestampsRange) :=
  if numRanges <? timeStampRangeCount then
    match fuel with
    | O => fun _ => PLoop
    | S fuel =>
        receiveTimeStampsGap ← readInteger FrameType.ACK_RECEIVE_TIMESTAMPS;
        receiveTimeStampsLen ← readInteger FrameType.ACK_RECEIVE_TIMESTAMPS;
        fuel' ← (fun cursor => POk (S (length cursor)) cursor);
        ds ← readDeltas fuel' t 0 receiveTimeStampsLen exponent [];
        readTimestampRanges fuel t (numRanges + 1) timeStampRangeCount exponent
          (l ++ [mkRange receiveTimeStampsGap receiveTimeStampsLen ds])
    end
  else mret l.

Definition decodeAckFrameWithReceivedTimestamps (header : HeaderForm) (params : CodecParameters) (frameType : Z)
  : parser FrameEncodingError AckFrame :=
  frame ← decodeAckFrame header params frameType;
  latestRecvdPacketNum ← readInteger FrameType.ACK_RECEIVE_TIMESTAMPS;
  latestRecvdPacketTimeDelta ← readInteger FrameType.ACK_RECEIVE_TIMESTAMPS;
  timeStampRangeCount ← readInteger FrameType.ACK_RECEIVE_TIMESTAMPS;
  let exponent := default kDefaultReceiveTimestampsExponent (receiveTimestampsExponent params) in
  fuel ← (fun cursor => POk (S (length cursor)) cursor);
  ranges ← readTimestampRanges fuel frameType 0 timeStampRangeCount exponent [];
  mret (mkAck (largestAcked frame) (ackDelay frame) (ackBlocks frame) frameType (Some latestRecvdPacketTimeDelta)
          (Some latestRecvdPacketNum) ranges 0 0 0).

(** The counts are kept in 32 bits. *)
Definition decodeAckFrameWithECN (header : HeaderForm) (params : CodecParameters) : parser FrameEncodingError AckFrame :=
  frame ← decodeAckFrame header params FrameType.ACK;
  ect_0 ← tryInteger;
  ect_1 ← tryInteger;
  ce ← tryInteger;
  match ect_0, ect_1, ce with
  | Some ect_0, Some ect_1, Some ce =>
      mret (mkAck (largestAcked frame) (ackDelay frame) (ackBlocks frame) FrameType.ACK_ECN None None []
              (u32 ect_0) (u32 ect_1) (u32 ce))
  | _, _, _ => pfail (BadFrame (Some FrameType.ACK_ECN))
  end.

(** ** The other frames *)

(** Padding up to the end of the packet is one frame: [memcmp] of the bytes with their
    successors. *)
Definition decodePaddingFrame : parser FrameEncodingError QuicFrame := fun cursor =>
  match cursor with
  | [] => POk (PaddingFrame 1) cursor
  | firstByte :: _ =>
      if negb (firstByte =? FrameType.PADDING) then POk (PaddingFrame 1) cursor
      else if bool_decide (take (length cursor - 1) cursor = drop 1 cursor) then POk (PaddingFrame 1) []
      else POk (PaddingFrame 1) cursor
  end.

Definition decodePingFrame : parser FrameEncodingError QuicFrame := mret PingFrame.
Definition decodeImmediateAckFrame : parser FrameEncodingError QuicFrame := mret ImmediateAckFrame.
Definition decodeHandshakeDoneFrame : parser FrameEncodingError QuicFrame := mret (SimpleFrame HandshakeDoneFrame).

(** [cursor.cloneAtMost]. *)
Definition cloneAtMost (n : Z) : parser FrameEncodingError (list Z) := fun cursor =>
  POk (take (Z.to_nat n) cursor) (drop (Z.to_nat n) cursor).

Definition decodeKnobFrame : parser FrameEncodingError QuicFrame :=
  knobSpace ← readInteger FrameType.KNOB;
  knobId ← readInteger FrameType.KNOB;
  knobLen ← readInteger FrameType.KNOB;
  knobBlob ← cloneAtMost knobLen;
  mret (SimpleFrame (KnobFrame knobSpace knobId knobBlob)).

Definition decodeAckFrequencyFrame : parser FrameEncodingError QuicFrame :=
  sequenceNumber ← readInteger FrameType.ACK_FREQUENCY;
  packetTolerance ← readInteger FrameType.ACK_FREQUENCY;
  updateMaxAckDelay ← readInteger FrameType.ACK_FREQUENCY;
  reorderThreshold ← readInteger FrameType.ACK_FREQUENCY;
  mret (SimpleFrame (AckFrequencyFrame sequenceNumber packetTolerance updateMaxAckDelay reorderThreshold)).

Definition decodeRstStreamFrame : parser FrameEncodingError QuicFrame :=
  streamId ← readInteger FrameType.RST_STREAM;
  errorCode ← readInteger FrameType.RST_STREAM;
  offset ← readInteger FrameType.RST_STREAM;
  mret (RstStreamFrame streamId errorCode offset).

Definition decodeStopSendingFrame : parser FrameEncodingError QuicFrame :=
  streamId ← readInteger FrameType.STOP_SENDING;
  errorCode ← readInteger FrameType.STOP_SENDING;
  mret (SimpleFrame (StopSendingFrame streamId errorCode)).

Definition decodeCryptoFrame : parser FrameEncodingError QuicFrame :=
  offset ← readInteger FrameType.CRYPTO_FRAME;
  dataLength ← readInteger FrameType.CRYPTO_FRAME;
  total ← totalLength;
  check FrameType.CRYPTO_FRAME (negb (total <? dataLength)) ;;
  data ← readBytes dataLength;
  mret (ReadCryptoFrame offset data).

Definition decodeNewTokenFrame : parser FrameEncodingError QuicFrame :=
  tokenLength ← readInteger FrameType.NEW_TOKEN;
  total ← totalLength;
  check FrameType.NEW_TOKEN (negb (total <? tokenLength)) ;;
  token ← readBytes tokenLength;
  mret (ReadNewTokenFrame token).

(** *** [StreamTypeField] *)

Definition kFinBit : Z := 0x01.
Definition kDataLengthBit : Z := 0x02.
Definition kOffsetBit : Z := 0x04.
Definition hasFin (field : Z) : bool := truth (Z.land field kFinBit).
Definition hasDataLength (field : Z) : bool := truth (Z.land field kDataLengthBit).
Definition hasOffset (field : Z) : bool := truth (Z.land field kOffsetBit).

(** Without a length the data goes up to the end of the packet. *)
Definition decodeStreamFrame (frameTypeField : Z) (isGroupFrame : bool) : parser FrameEncodingError QuicFrame :=
  let frameType := if isGroupFrame then FrameType.GROUP_STREAM else FrameType.STREAM in
  streamId ← readInteger frameType;
  groupId ← (if isGroupFrame then gId ← readInteger frameType; mret (Some gId) else mret None);
  offset ← (if hasOffset frameTypeField then readInteger frameType else mret 0);
  let fin := hasFin frameTypeField in
  dataLength ← (if hasDataLength frameTypeField then n ← readInteger frameType; mret (Some n) else mret None);
  match dataLength with
  | Some dataLength =>
      total ← totalLength;
      check frameType (negb (total <? dataLength)) ;;
      data ← cloneAtMost dataLength;
      mret (ReadStreamFrame streamId groupId offset data fin)
  | None =>
      total ← totalLength;
      data ← cloneAtMost total;
      mret (ReadStreamFrame streamId groupId offset data fin)
  end.

Definition decodeMaxDataFrame : parser FrameEncodingError QuicFrame :=
  maximumData ← readInteger FrameType.MAX_DATA; mret (MaxDataFrame maximumData).

Definition decodeMaxStreamDataFrame : parser FrameEncodingError QuicFrame :=
  streamId ← readInteger FrameType.MAX_STREAM_DATA;
  offset ← readInteger FrameType.MAX_STREAM_DATA;
  mret (MaxStreamDataFrame streamId offset).

Definition decodeBiDiMaxStreamsFrame : parser FrameEncodingError QuicFrame :=
  streamCount ← readInteger FrameType.MAX_STREAMS_BIDI;
  check FrameType.MAX_STREAMS_BIDI (negb (streamCount >? kMaxMaxStreams)) ;;
  mret (SimpleFrame (MaxStreamsFrame streamCount true)).

Definition decodeUniMaxStreamsFrame : parser FrameEncodingError QuicFrame :=
  streamCount ← readInteger FrameType.MAX_STREAMS_UNI;
  check FrameType.MAX_STREAMS_UNI (negb (streamCount >? kMaxMaxStreams)) ;;
  mret (SimpleFrame (MaxStreamsFrame streamCount false)).

Definition decodeDataBlockedFrame : parser FrameEncodingError QuicFrame :=
  dataLimit ← readInteger FrameType.DATA_BLOCKED; mret (DataBlockedFrame dataLimit).

Definition decodeStreamDataBlockedFrame : parser FrameEncodingError QuicFrame :=
  streamId ← readInteger FrameType.STREAM_DATA_BLOCKED;
  dataLimit ← readInteger FrameType.STREAM_DATA_BLOCKED;
  mret (StreamDataBlockedFrame streamId dataLimit).

Definition decodeBiDiStreamsBlockedFrame : parser FrameEncodingError QuicFrame :=
  streamId ← readInteger FrameType.STREAMS_BLOCKED_BIDI; mret (StreamsBlockedFrame streamId true).

Definition decodeUniStreamsBlockedFrame : parser FrameEncodingError QuicFrame :=
  streamId ← readInteger FrameType.STREAMS_BLOCKED_UNI; mret (StreamsBlockedFrame streamId false).

(** The token is pulled without a check of the length. *)
Definition decodeNewConnectionIdFrame : parser FrameEncodingError QuicFrame :=
  sequenceNumber ← readInteger FrameType.NEW_CONNECTION_ID;
  retirePriorTo ← readInteger FrameType.NEW_CONNECTION_ID;
  total ← totalLength;
  check FrameType.NEW_CONNECTION_ID (1 <=? total) ;;
  connIdLen ← readBE 1;
  total ← totalLength;
  check FrameType.NEW_CONNECTION_ID (negb (total <? connIdLen)) ;;
  check FrameType.NEW_CONNECTION_ID (negb (connIdLen >? kMaxConnectionIdSize)) ;;
  connId ← readBytes connIdLen;
  statelessResetToken ← readBytes kStatelessResetTokenLength;
  mret (SimpleFrame (NewConnectionIdFrame sequenceNumber retirePriorTo connId statelessResetToken)).

Definition decodeRetireConnectionIdFrame : parser FrameEncodingError QuicFrame :=
  sequenceNum ← readInteger FrameType.RETIRE_CONNECTION_ID; mret (SimpleFrame (RetireConnectionIdFrame sequenceNum)).

Definition decodePathChallengeFrame : parser FrameEncodingError QuicFrame :=
  total ← totalLength;
  check FrameType.PATH_CHALLENGE (8 <=? total) ;;
  pathData ← readBE 8;
  mret (SimpleFrame (PathChallengeFrame pathData)).

Definition decodePathResponseFrame : parser FrameEncodingError QuicFrame :=
  total ← totalLength;
  check FrameType.PATH_RESPONSE (8 <=? total) ;;
  pathData ← readBE 8;
  mret (SimpleFrame (PathResponseFrame pathData)).

(** The triggering frame type must be written in one byte. *)
Definition decodeConnectionCloseFrame : parser FrameEncodingError QuicFrame :=
  errorCode ← readInteger FrameType.CONNECTION_CLOSE;
  '(triggeringFrameType, size) ← readIntegerSized FrameType.CONNECTION_CLOSE;
  check FrameType.CONNECTION_CLOSE (size =? 1) ;;
  reasonPhraseLength ← readInteger FrameType.CONNECTION_CLOSE;
  check FrameType.CONNECTION_CLOSE (negb (reasonPhraseLength >? kMaxReasonPhraseLength)) ;;
  reasonPhrase ← readBytes reasonPhraseLength;
  mret (ConnectionCloseFrame (TransportErrorCode errorCode) reasonPhrase triggeringFrameType).

Definition decodeApplicationClose : parser FrameEncodingError QuicFrame :=
  errorCode ← readInteger FrameType.CONNECTION_CLOSE_APP_ERR;
  reasonPhraseLength ← readInteger FrameType.CONNECTION_CLOSE_APP_ERR;
  check FrameType.CONNECTION_CLOSE_APP_ERR (negb (reasonPhraseLength >? kMaxReasonPhraseLength)) ;;
  reasonPhrase ← readBytes reasonPhraseLength;
  mret (ConnectionCloseFrame (ApplicationErrorCode errorCode) reasonPhrase FrameType.PADDING).

Definition decodeDatagramFrame (hasLen : bool) : parser FrameEncodingError QuicFrame :=
  length ← (if hasLen then readInteger FrameType.DATAGRAM_LEN else totalLength);
  total ← totalLength;
  check FrameType.DATAGRAM_LEN (negb hasLen || negb (total <? length)) ;;
  data ← cloneAtMost length;
  mret (DatagramFrame length data).

(** ** Frames and packets *)

(** The [switch] of [parseFrame]; [None] for a type that it does not have. *)
Definition frameParser (header : HeaderForm) (params : CodecParameters) (t : Z) : option (parser FrameEncodingError QuicFrame) :=
  if t =? FrameType.PADDING then Some decodePaddingFrame
  else if t =? FrameType.PING then Some decodePingFrame
  else if t =? FrameType.ACK then Some (f ← decodeAckFrame header params FrameType.ACK; mret (ReadAckFrame f))
  else if t =? FrameType.ACK_ECN then Some (f ← decodeAckFrameWithECN header params; mret (ReadAckFrame f))
  else if t =? FrameType.RST_STREAM then Some decodeRstStreamFrame
  else if t =? FrameType.STOP_SENDING then Some decodeStopSendingFrame
  else if t =? FrameType.CRYPTO_FRAME then Some decodeCryptoFrame
  else if t =? FrameType.NEW_TOKEN then Some decodeNewTokenFrame
  else if (FrameType.STREAM <=? t) && (t <=? FrameType.STREAM_OFF_LEN_FIN) then Some (decodeStreamFrame (u8 t) false)
  else if (FrameType.GROUP_STREAM <=? t) && (t <=? FrameType.GROUP_STREAM_OFF_LEN_FIN) then Some (decodeStreamFrame (u8 t) true)
  else if t =? FrameType.MAX_DATA then Some decodeMaxDataFrame
  else if t =? FrameType.MAX_STREAM_DATA then Some decodeMaxStreamDataFrame
  else if t =? FrameType.MAX_STREAMS_BIDI then Some decodeBiDiMaxStreamsFrame
  else if t =? FrameType.MAX_STREAMS_UNI then Some decodeUniMaxStreamsFrame
  else if t =? FrameType.DATA_BLOCKED then Some decodeDataBlockedFrame
  else if t =? FrameType.STREAM_DATA_BLOCKED then Some decodeStreamDataBlockedFrame
  else if t =? FrameType.STREAMS_BLOCKED_BIDI then Some decodeBiDiStreamsBlockedFrame
  else if t =? FrameType.STREAMS_BLOCKED_UNI then Some decodeUniStreamsBlockedFrame
  else if t =? FrameType.NEW_CONNECTION_ID then Some decodeNewConnectionIdFrame
  else if t =? FrameType.RETIRE_CONNECTION_ID then Some decodeRetireConnectionIdFrame
  else if t =? FrameType.PATH_CHALLENGE then Some decodePathChallengeFrame
  else if t =? FrameType.PATH_RESPONSE then Some decodePathResponseFrame
  else if t =? FrameType.CONNECTION_CLOSE then Some decodeConnectionCloseFrame
  else if t =? FrameType.CONNECTION_CLOSE_APP_ERR then Some decodeApplicationClose
  else if t =? FrameType.HANDSHAKE_DONE then Some decodeHandshakeDoneFrame
  else if t =? FrameType.DATAGRAM then Some (decodeDatagramFrame false)
  else if t =? FrameType.DATAGRAM_LEN then Some (decodeDatagramFrame true)
  else if t =? FrameType.KNOB then Some decodeKnobFrame
  else if t =? FrameType.ACK_FREQUENCY then Some decodeAckFrequencyFrame
  else if t =? FrameType.IMMEDIATE_ACK then Some decodeImmediateAckFrame
  else if t =? FrameType.ACK_RECEIVE_TIMESTAMPS then
    Some (f ← decodeAckFrameWithReceivedTimestamps header params FrameType.ACK_RECEIVE_TIMESTAMPS; mret (ReadAckFrame f))
  else None.

(** Every exception of a frame's parser, also one of the cursor, is thrown again with the
    type of the frame. *)
Definition parseFrame (header : HeaderForm) (params : CodecParameters) : parser FrameEncodingError QuicFrame := fun queue =>
  match QuicInteger.decodeQuicInteger queue 8 with
  | None => PErr (BadFrame None)
  | Some ((frameTypeInt, _), queue) =>
      match frameParser header params frameTypeInt with
      | None => PErr (BadFrame (Some frameTypeInt))
      | Some p =>
          match p queue with
          | PErr _ | PThrow => PErr (BadFrame (Some frameTypeInt))
          | r => r
          end
      end
  end.

Definition isPadding (f : QuicFrame) : bool := match f with PaddingFrame _ => true | _ => false end.

(** A frame is added to those of the packet; consecutive padding is counted ([uint16_t]). *)
Definition push_frame (frames : list QuicFrame) (f : QuicFrame) : list QuicFrame :=
  match last frames, f with
  | Some (PaddingFrame n), PaddingFrame _ => removelast frames ++ [PaddingFrame (u16 (n + 1))]
  | _, _ => frames ++ [f]
  end.

(** The loop of [decodeRegularPacket], until the queue is empty. *)
Fixpoint parseFrames (fuel : nat) (header : HeaderForm) (params : CodecParameters) (frames : list QuicFrame)
  : parser FrameEncodingError (list QuicFrame) := fun queue =>
  match queue with
  | [] => POk frames []
  | _ =>
      match fuel with
      | O => PLoop
      | S fuel => (f ← parseFrame header params; parseFrames fuel header params (push_frame frames f)) queue
      end
  end.

Definition decodeRegularPacket (header : HeaderForm) (params : CodecParameters) (packetData : list Z)
  : presult FrameEncodingError (list QuicFrame) :=
  parseFrames (length packetData) header params [] packetData.


End QuicFrames.
