(* ===== verification/QuicFrameWriter.v ===== *)
(** * QUIC frames: writing

    The writing half of the frame codec, [codec/QuicWriteCodec.cpp], on the part of
    [RegularQuicPacketBuilder] ([codec/QuicPacketBuilder.cpp]) that it uses: the body of the
    packet, the bytes that may still be written ([uint32_t]) and the frames that were
    written.  A writer that finds too little space writes nothing.

    A failure is an exception or a failed [CHECK]; [W] is the monad of these. *)

From S2P Require Import Prelude QuicInteger IntervalSet QuicStream QuicFlowControl QuicSend QuicFrames.

Module QuicFrameWriter.
Import QuicFrames.

(** ** Failures *)

Inductive Failure :=
| ValueTooLarge                (* [QuicTransportException], INTERNAL_ERROR *)
| StreamFrameError             (* [QuicInternalException], INTERNAL_ERROR *)
| CodecError                   (* [QuicInternalException], CODEC_ERROR *)
| UnsupportedFrame             (* [QuicTransportException], FRAME_ENCODING_ERROR *)
| PacketNumberError            (* [QuicInternalException], PACKET_NUMBER_ENCODING *)
| CheckFailed.                 (* [CHECK], a null pointer *)

Definition W (A : Type) : Type := (Failure + A)%type.
#[global] Instance W_ret : MRet W := fun A a => inr a.
#[global] Instance W_bind : MBind W := fun A B k m => match m with inl e => inl e | inr a => k a end.
Definition fails {A} (e : Failure) : W A := inl e.

(** ** Frames that are written *)

Record WriteAck := mkWriteAck {
  w_ackBlocks : list IntervalSet.Interval;
  w_ackDelay : Z;
  w_frameType : Z;
  w_ect0 : Z;
  w_ect1 : Z;
  w_ce : Z;
  w_latestRecvdPacketTime : option Z;
  w_latestRecvdPacketNum : option Z;
  w_timestampRanges : list RecvdPacketsTimestampsRange
}.

Inductive QuicWriteFrame :=
| WPaddingFrame (numFrames : Z)
| WRstStreamFrame (streamId errorCode offset : Z)
| WConnectionCloseFrame (errorCode : QuicErrorCode) (reasonPhrase : list Z) (closingFrameType : Z)
| WMaxDataFrame (maximumData : Z)
| WMaxStreamDataFrame (streamId maximumData : Z)
| WDataBlockedFrame (dataLimit : Z)
| WStreamDataBlockedFrame (streamId dataLimit : Z)
| WStreamsBlockedFrame (streamLimit : Z) (isForBidirectional : bool)
| WriteAckFrame (ack : WriteAck)
| WriteStreamFrame (streamId : Z) (streamGroupId : option Z) (offset len : Z) (fin : bool)
| WriteCryptoFrame (offset len : Z)
| WSimpleFrame (f : QuicSimpleFrame)
| WPingFrame
| WNoopFrame
| WDatagramFrame (data : list Z)
| WImmediateAckFrame.

(** ** The packet builder *)

Record Builder := mkBuilder {
  shortHeader : bool;
  remainingBytes_ : Z;
  body_ : list Z;
  frames : list QuicWriteFrame;
  empty : bool
}.

(** Bytes go to the body and are taken off the space ([writeBE], [push], [insert]). *)
Definition append (bs : list Z) (b : Builder) : Builder :=
  mkBuilder (shortHeader b) (u32 (remainingBytes_ b - zlen bs)) (body_ b ++ bs) (frames b) (empty b).

Definition write (v : Z) (b : Builder) : W Builder :=
  match QuicInteger.encodeQuicInteger v with
  | Some (bs, _) => mret (append bs b)
  | None => fails ValueTooLarge
  end.

(** [insert(buf, limit)] of a [ChainedByteRangeHead]. *)
Definition insert_chain (d : list Z) (limit : Z) (b : Builder) : Builder := append (take (Z.to_nat limit) d) b.

Definition appendFrame (f : QuicWriteFrame) (b : Builder) : Builder :=
  mkBuilder (shortHeader b) (remainingBytes_ b) (body_ b) (frames b ++ [f]) false.

Definition appendPaddingFrame (b : Builder) : Builder :=
  let l := match last (frames b) with
           | Some (WPaddingFrame n) => removelast (frames b) ++ [WPaddingFrame (u16 (n + 1))]
           | _ => frames b ++ [WPaddingFrame 1]
           end in
  mkBuilder (shortHeader b) (remainingBytes_ b) (body_ b) l false.

Definition markNonEmpty (b : Builder) : Builder :=
  mkBuilder (shortHeader b) (remainingBytes_ b) (body_ b) (frames b) false.

(** [QuicInteger::getSize] and [getQuicIntegerSizeThrows]. *)
Definition getSize (v : Z) : W Z :=
  match QuicInteger.getQuicIntegerSize v with Some n => mret n | None => fails ValueTooLarge end.

Definition packetSpaceCheck (limit require : Z) : bool := require <=? limit.

(** ** Stream frames *)

Definition switchToStreamGroups (field : Z) : Z := FrameType.GROUP_STREAM.
Definition setFin (field : Z) : Z := Z.lor field kFinBit.
Definition setOffset (field : Z) : Z := Z.lor field kOffsetBit.
Definition setLength (field : Z) : Z := Z.lor field kDataLengthBit.

(** The bytes that the length of [dataLen] bytes of data takes. *)
Definition lengthFieldSize (dataLen : Z) : W Z :=
  if dataLen <=? QuicInteger.kOneByteLimit - 1 then mret 1
  else if dataLen <=? QuicInteger.kTwoByteLimit - 2 then mret 2
  else if dataLen <=? QuicInteger.kFourByteLimit - 4 then mret 4
  else if dataLen <=? QuicInteger.kEightByteLimit - 8 then mret 8
  else fails StreamFrameError.

(** The builder and the length of the data that is to follow, or [None] and the builder as
    it was. *)
Definition writeStreamFrameHeader (b : Builder) (id offset writeBufferLen flowControlLen : Z) (fin : bool)
    (skipLenHint : option bool) (streamGroupId : option Z) (append_frame : bool) : W (option Z * Builder) :=
  let remaining := remainingBytes_ b in
  if remaining =? 0 then mret (None, b)
  else if (writeBufferLen =? 0) && negb fin then fails StreamFrameError
  else
    let field := match streamGroupId with Some _ => switchToStreamGroups FrameType.STREAM | None => FrameType.STREAM end in
    idSize ← getSize id;
    groupSize ← match streamGroupId with Some g => getSize g | None => mret 0 end;
    let headerSize := 1 + idSize + groupSize in
    if remaining <? headerSize then mret (None, b)
    else
      offsetSize ← (if offset =? 0 then mret 0 else getSize offset);
      let field := if offset =? 0 then field else setOffset field in
      let headerSize := headerSize + offsetSize in
      let dataLen := Z.min writeBufferLen flowControlLen in
      let shouldSkipLengthField :=
        match skipLenHint with
        | Some h => h
        | None => (dataLen >? 0) && (dataLen >=? u64 (remaining - headerSize))
        end in
      let dataLen := Z.min dataLen (u64 (remaining - headerSize)) in
      dataLenLen ← (if shouldSkipLengthField then mret 0 else lengthFieldSize dataLen);
      if (dataLenLen >? 0) && negb (dataLen =? 0) && (headerSize + dataLenLen >=? remaining) then mret (None, b)
      else
        let headerSize := headerSize + dataLenLen in
        let dataLen :=
          if (dataLenLen >? 0) && (remaining <? u64 (dataLen + headerSize)) then u64 (remaining - headerSize) else dataLen in
        let shouldSetFin := fin && (dataLen =? writeBufferLen) in
        if (dataLen =? 0) && negb shouldSetFin then mret (None, b)
        else if remaining <? headerSize then mret (None, b)
        else
          let field := if dataLenLen >? 0 then setLength field else field in
          let field := if shouldSetFin then setFin field else field in
          let b := append (be_bytes 1 field) b in
          b ← write id b;
          b ← match streamGroupId with Some g => write g b | None => mret b end;
          b ← (if offset =? 0 then mret b else write offset b);
          b ← (if dataLenLen >? 0 then write dataLen b else mret b);
          let b := if append_frame then appendFrame (WriteStreamFrame id streamGroupId offset dataLen (hasFin field)) b
                   else markNonEmpty b in
          mret (Some dataLen, b).

Definition writeStreamFrameData (b : Builder) (writeBuffer : list Z) (dataLen : Z) : Builder :=
  if dataLen >? 0 then insert_chain writeBuffer dataLen b else b.

(** ** CRYPTO frames *)

Definition writeCryptoFrame (offsetIn : Z) (data : list Z) (b : Builder) : W (option Z * Builder) :=
  let spaceLeftInPkt := remainingBytes_ b in
  typeSize ← getSize FrameType.CRYPTO_FRAME;
  offsetSize ← getSize offsetIn;
  let lengthBytes := 2 in
  let cryptoFrameHeaderSize := typeSize + offsetSize + lengthBytes in
  if spaceLeftInPkt <=? cryptoFrameHeaderSize then mret (None, b)
  else
    let spaceRemaining := spaceLeftInPkt - cryptoFrameHeaderSize in
    let writableData := Z.min (zlen data) spaceRemaining in
    lengthSize ← getSize writableData;
    if lengthSize >? lengthBytes then fails CodecError
    else
      b ← write FrameType.CRYPTO_FRAME b;
      b ← write offsetIn b;
      b ← write writableData b;
      let b := insert_chain data writableData b in
      mret (Some writableData, appendFrame (WriteCryptoFrame offsetIn writableData) b).

(** ** ACK frames *)

(** Time points are in nanoseconds. *)
Record ReceivedPacket := mkReceived { pktNum : Z; receiveTimePoint : Z }.

Record WriteAckFrameState := mkAckState {
  acks : list IntervalSet.Interval;
  lastRecvdPacketInfo : option ReceivedPacket;
  recvdPacketInfos : list ReceivedPacket;
  ecnECT0CountReceived : Z;
  ecnECT1CountReceived : Z;
  ecnCECountReceived : Z
}.

Record WriteAckFrameMetaData := mkMeta {
  ackState : WriteAckFrameState;
  meta_ackDelay : Z;
  ackDelayExponent : Z;
  connTime : Z
}.

(** [duration_cast<microseconds>]. *)
Definition microseconds (nanoseconds : Z) : Z := Z.quot nanoseconds 1000.

(** [blocks] are the remaining blocks from the back of the set, [n] have been taken. *)
Fixpoint fillFrameWithAckBlocks (blocks : list IntervalSet.Interval) (currentSeqNum n bytesLimit : Z) : W (list IntervalSet.Interval) :=
  match blocks with
  | [] => mret []
  | currBlock :: blocks =>
      if currentSeqNum <? u64 (IntervalSet.end_ currBlock + 2) then fails CheckFailed
      else
        let gap := currentSeqNum - IntervalSet.end_ currBlock - 2 in
        let currBlockLen := IntervalSet.end_ currBlock - IntervalSet.start currBlock in
        gapSize ← getSize gap;
        currBlockLenSize ← getSize currBlockLen;
        numAdditionalAckBlocksSize ← getSize (n + 1);
        previousNumAckBlocksSize ← getSize n;
        let additionalSize := gapSize + currBlockLenSize + (numAdditionalAckBlocksSize - previousNumAckBlocksSize) in
        if bytesLimit <? additionalSize then mret []
        else
          l ← fillFrameWithAckBlocks blocks (IntervalSet.start currBlock) (n + 1) (bytesLimit - additionalSize);
          mret (currBlock :: l)
  end.

(** The gaps and lengths of the additional blocks. *)
Fixpoint writeAckBlocks (blocks : list IntervalSet.Interval) (currentSeqNum : Z) (b : Builder) : W Builder :=
  match blocks with
  | [] => mret b
  | it :: blocks =>
      if currentSeqNum <? u64 (IntervalSet.end_ it + 2) then fails CheckFailed
      else
        b ← write (currentSeqNum - IntervalSet.end_ it - 2) b;
        b ← write (IntervalSet.end_ it - IntervalSet.start it) b;
        writeAckBlocks blocks (IntervalSet.start it) b
  end.

Definition timestampDelta (m : WriteAckFrameMetaData) (r : ReceivedPacket) : Z :=
  if receiveTimePoint r >? connTime m then microseconds (receiveTimePoint r - connTime m) else 0.

(** The size of the fields that every ACK_RECEIVE_TIMESTAMPS frame has; the last packet is
    read without asking whether there is one. *)
Definition minTimestampFieldsSize (m : WriteAckFrameMetaData) (frameType : Z) : W Z :=
  if frameType =? FrameType.ACK_RECEIVE_TIMESTAMPS then
    match lastRecvdPacketInfo (ackState m) with
    | None => fails CheckFailed
    | Some r =>
        let size v := default 0 (QuicInteger.getQuicIntegerSize v) in
        mret (size 0 + size (pktNum r) + size (u64 (timestampDelta m r)))
    end
  else mret 0.

(** The sizes of the ECN counts are taken off the space before it is compared with
    anything. *)
Definition writeAckFrameToPacketBuilder (m : WriteAckFrameMetaData) (frameType : Z) (b : Builder) : W (option WriteAck * Builder) :=
  let st := ackState m in
  match reverse (acks st) with
  | [] => mret (None, b)
  | back :: others =>
      let largestAckedPacket := IntervalSet.end_ back in
      let firstAckBlockLength := largestAckedPacket - IntervalSet.start back in
      let ecn := frameType =? FrameType.ACK_ECN in
      spaceLeft ← (if ecn then
                     s0 ← getSize (ecnECT0CountReceived st);
                     s1 ← getSize (ecnECT1CountReceived st);
                     s2 ← getSize (ecnCECountReceived st);
                     mret (u64 (remainingBytes_ b - (s0 + s1 + s2)))
                   else mret (remainingBytes_ b));
      let encodedAckDelay := Z.shiftr (u64 (meta_ackDelay m)) (ackDelayExponent m) in
      typeSize ← getSize (u8 frameType);
      largestSize ← getSize largestAckedPacket;
      delaySize ← getSize encodedAckDelay;
      countSize ← getSize 0;
      firstSize ← getSize firstAckBlockLength;
      let headerSize := typeSize + largestSize + delaySize + countSize + firstSize in
      minSize ← minTimestampFieldsSize m frameType;
      if spaceLeft <? headerSize + minSize then mret (None, b)
      else
        let spaceLeft := spaceLeft - (headerSize + minSize) in
        additional ← fillFrameWithAckBlocks others (IntervalSet.start back) 0 spaceLeft;
        b ← write (u8 frameType) b;
        b ← write largestAckedPacket b;
        b ← write encodedAckDelay b;
        b ← write (zlen additional) b;
        b ← write firstAckBlockLength b;
        b ← writeAckBlocks additional (IntervalSet.start back) b;
        let frame := mkWriteAck (back :: additional) (meta_ackDelay m) frameType in
        if ecn then
          b ← write (ecnECT0CountReceived st) b;
          b ← write (ecnECT1CountReceived st) b;
          b ← write (ecnCECountReceived st) b;
          mret (Some (frame (ecnECT0CountReceived st) (ecnECT1CountReceived st) (ecnCECountReceived st) None None []), b)
        else mret (Some (frame 0 0 0 None None []), b)
  end.

Definition writeAckFrame (m : WriteAckFrameMetaData) (frameType : Z) (b : Builder) : W (option (Z * WriteAck) * Builder) :=
  let beginningSpace := remainingBytes_ b in
  '(r, b) ← writeAckFrameToPacketBuilder m frameType b;
  match r with
  | Some f => let b := appendFrame (WriteAckFrame f) b in mret (Some (u64 (beginningSpace - remainingBytes_ b), f), b)
  | None => mret (None, b)
  end.

(** *** Timestamps of received packets *)

(** The intervals of the packets whose timestamps are considered: the first
    [maxRecvTimestampsToSend] of those that are kept. *)
Fixpoint recvdIntervals (infos : list ReceivedPacket) (maxRecvTimestampsToSend : Z) (s : IntervalSet.IntervalSet) : W IntervalSet.IntervalSet :=
  match infos with
  | [] => mret s
  | recvdPkt :: infos =>
      if maxRecvTimestampsToSend =? 0 then mret s
      else
        match IntervalSet.insert_point s (pktNum recvdPkt) with
        | None => fails CheckFailed
        | Some s => recvdIntervals infos (maxRecvTimestampsToSend - 1) s
        end
  end.

Section timestamps.
Variables (m : WriteAckFrameMetaData) (spaceLeft receiveTimestampsExponent : Z).

(** The timestamps of one interval: the packets that remain, from the last received, with
    the one before ([None] at the first), the deltas of the range and the space it takes. *)
Fixpoint fillRange (interval : IntervalSet.Interval) (cumUsedSpace numRanges : Z) (its : list ReceivedPacket) (prev : option ReceivedPacket)
    (ds : list Z) (used : Z) : W (list Z * Z * list ReceivedPacket * option ReceivedPacket * bool) :=
  match its with
  | it :: its' =>
      if (pktNum it >=? IntervalSet.start interval) && (pktNum it <=? IntervalSet.end_ interval) then
        let deltaDuration :=
          match prev with
          | None => timestampDelta m it
          | Some newer => microseconds (receiveTimePoint newer - receiveTimePoint it)
          end in
        let delta := u64 (Z.shiftr deltaDuration receiveTimestampsExponent) in
        deltaSize ← getSize delta;
        countSize ← getSize (zlen ds + 1);
        rangesSize ← getSize (numRanges + 1);
        if spaceLeft <? cumUsedSpace + used + deltaSize + countSize + rangesSize then mret (ds, used, its, prev, true)
        else fillRange interval cumUsedSpace numRanges its' (Some it) (ds ++ [delta]) (used + deltaSize)
      else mret (ds, used, its, prev, false)
  | [] => mret (ds, used, its, prev, false)
  end.

(** [intervals] from the largest down. *)
Fixpoint fillRanges (intervals : list IntervalSet.Interval) (prevPktNum cumUsedSpace : Z) (its : list ReceivedPacket) (prev : option ReceivedPacket)
    (ranges : list RecvdPacketsTimestampsRange) : W (list RecvdPacketsTimestampsRange) :=
  match intervals with
  | [] => mret ranges
  | interval :: intervals =>
      let gap := match ranges with
                 | [] => u64 (prevPktNum - IntervalSet.end_ interval)
                 | _ => u64 (prevPktNum - 2 - IntervalSet.end_ interval)
                 end in
      gapSize ← getSize gap;
      '(ds, used, its, prev, outOfSpace) ← fillRange interval cumUsedSpace (zlen ranges) its prev [] gapSize;
      '(ranges, prevPktNum, cumUsedSpace) ←
        (if zlen ds >? 0 then
           countSize ← getSize (zlen ds);
           mret (ranges ++ [mkRange gap (zlen ds) ds], IntervalSet.start interval, cumUsedSpace + (used + countSize))
         else mret (ranges, prevPktNum, cumUsedSpace));
      if (outOfSpace : bool) then mret ranges else fillRanges intervals prevPktNum cumUsedSpace its prev ranges
  end.

Definition fillPacketReceiveTimestamps (largestAckedPacketNum maxRecvTimestampsToSend : Z) : W (list RecvdPacketsTimestampsRange) :=
  let infos := recvdPacketInfos (ackState m) in
  match infos with
  | [] => mret []
  | _ =>
      s ← recvdIntervals infos maxRecvTimestampsToSend IntervalSet.empty;
      fillRanges (reverse (IntervalSet.intervals s)) largestAckedPacketNum 0 (reverse infos) None []
  end.
End timestamps.

Fixpoint writeDeltas (ds : list Z) (b : Builder) : W Builder :=
  match ds with [] => mret b | d :: ds => b ← write d b; writeDeltas ds b end.

Fixpoint writeRanges (l : list RecvdPacketsTimestampsRange) (b : Builder) : W Builder :=
  match l with
  | [] => mret b
  | r :: l =>
      b ← write (gap r) b;
      b ← write (timestamp_delta_count r) b;
      b ← writeDeltas (deltas r) b;
      writeRanges l b
  end.

Definition writeAckFrameWithReceivedTimestamps (m : WriteAckFrameMetaData) (receiveTimestampsExponent maxRecvTimestampsToSend : Z) (b : Builder)
  : W (option (Z * WriteAck) * Builder) :=
  let beginningSpace := remainingBytes_ b in
  '(r, b) ← writeAckFrameToPacketBuilder m FrameType.ACK_RECEIVE_TIMESTAMPS b;
  match r with
  | None => mret (None, b)
  | Some ackFrame =>
      let '(lastPktNum, lastPktTsDelta) :=
        match lastRecvdPacketInfo (ackState m) with Some r => (pktNum r, u64 (timestampDelta m r)) | None => (0, 0) end in
      b ← write lastPktNum b;
      b ← write lastPktTsDelta b;
      let spaceLeft := remainingBytes_ b in
      '(ranges, b) ←
        (if spaceLeft >? 0 then
           let largestAckedPacket := default 0 (IntervalSet.end_ <$> last (acks (ackState m))) in
           ranges ← fillPacketReceiveTimestamps m spaceLeft receiveTimestampsExponent largestAckedPacket maxRecvTimestampsToSend;
           b ← write (zlen ranges) b;
           b ← writeRanges ranges b;
           mret (ranges, b)
         else mret ([], b));
      let f := mkWriteAck (w_ackBlocks ackFrame) (w_ackDelay ackFrame) (w_frameType ackFrame) 0 0 0 (Some lastPktTsDelta) (Some lastPktNum) ranges in
      let b' := appendFrame (WriteAckFrame f) b in
      mret (Some (u64 (beginningSpace - remainingBytes_ b), f), b')
  end.

(** ** Control frames *)

(** Fields in the order they are written; [writeFields] writes them if all of them fit,
    and then records the frame. *)
Inductive Field := Int (v : Z) | Bytes (bs : list Z).

Definition fieldSize (f : Field) : W Z := match f with Int v => getSize v | Bytes bs => mret (zlen bs) end.
Fixpoint fieldsSize (l : list Field) : W Z :=
  match l with
  | [] => mret 0
  | f :: l => n ← fieldSize f; m ← fieldsSize l; mret (n + m)
  end.
Definition writeField (f : Field) (b : Builder) : W Builder := match f with Int v => write v b | Bytes bs => mret (append bs b) end.
Fixpoint writeAll (l : list Field) (b : Builder) : W Builder :=
  match l with
  | [] => mret b
  | f :: l => b ← writeField f b; writeAll l b
  end.

Definition writeFields (l : list Field) (record : Builder -> Builder) (b : Builder) : W (Z * Builder) :=
  size ← fieldsSize l;
  if packetSpaceCheck (remainingBytes_ b) size then
    b ← writeAll l b;
    mret (size, record b)
  else mret (0, b).

Definition writeSimpleFrame (f : QuicSimpleFrame) (b : Builder) : W (Z * Builder) :=
  let record := appendFrame (WSimpleFrame f) in
  match f with
  | StopSendingFrame streamId errorCode => writeFields [Int FrameType.STOP_SENDING; Int streamId; Int errorCode] record b
  | PathChallengeFrame pathData => writeFields [Int FrameType.PATH_CHALLENGE; Bytes (be_bytes 8 pathData)] record b
  | PathResponseFrame pathData => writeFields [Int FrameType.PATH_RESPONSE; Bytes (be_bytes 8 pathData)] record b
  | NewConnectionIdFrame sequenceNumber retirePriorTo connectionId token =>
      writeFields [Int FrameType.NEW_CONNECTION_ID; Int sequenceNumber; Int retirePriorTo;
                   Bytes (be_bytes 1 (zlen connectionId)); Bytes connectionId; Bytes token] record b
  | MaxStreamsFrame maxStreams isForBidirectional =>
      writeFields [Int (if isForBidirectional then FrameType.MAX_STREAMS_BIDI else FrameType.MAX_STREAMS_UNI); Int maxStreams] record b
  | RetireConnectionIdFrame sequenceNumber => writeFields [Int FrameType.RETIRE_CONNECTION_ID; Int sequenceNumber] record b
  | HandshakeDoneFrame => if shortHeader b then writeFields [Int FrameType.HANDSHAKE_DONE] record b else fails CheckFailed
  | KnobFrame knobSpace id blob =>
      writeFields [Int FrameType.KNOB; Int knobSpace; Int id; Int (zlen blob); Bytes blob] record b
  | AckFrequencyFrame sequenceNumber packetTolerance updateMaxAckDelay reorderThreshold =>
      writeFields [Int FrameType.ACK_FREQUENCY; Int sequenceNumber; Int packetTolerance; Int updateMaxAckDelay; Int reorderThreshold] record b
  | NewTokenFrame token => writeFields [Int FrameType.NEW_TOKEN; Int (zlen token); Bytes token] record b
  end.

(** A close frame with a local error code reads through a null pointer. *)
Definition writeFrame (f : QuicWriteFrame) (b : Builder) : W (Z * Builder) :=
  let record := appendFrame f in
  match f with
  | WPaddingFrame _ => writeFields [Int FrameType.PADDING] appendPaddingFrame b
  | WRstStreamFrame streamId errorCode offset =>
      writeFields [Int FrameType.RST_STREAM; Int streamId; Int errorCode; Int offset] record b
  | WMaxDataFrame maximumData => writeFields [Int FrameType.MAX_DATA; Int maximumData] record b
  | WMaxStreamDataFrame streamId maximumData => writeFields [Int FrameType.MAX_STREAM_DATA; Int streamId; Int maximumData] record b
  | WDataBlockedFrame dataLimit => writeFields [Int FrameType.DATA_BLOCKED; Int dataLimit] record b
  | WStreamDataBlockedFrame streamId dataLimit => writeFields [Int FrameType.STREAM_DATA_BLOCKED; Int streamId; Int dataLimit] record b
  | WStreamsBlockedFrame streamLimit isForBidirectional =>
      writeFields [Int (if isForBidirectional then FrameType.STREAMS_BLOCKED_BIDI else FrameType.STREAMS_BLOCKED_UNI); Int streamLimit] record b
  | WConnectionCloseFrame (TransportErrorCode errorCode) reasonPhrase closingFrameType =>
      writeFields [Int FrameType.CONNECTION_CLOSE; Int errorCode; Int closingFrameType; Int (zlen reasonPhrase); Bytes reasonPhrase] record b
  | WConnectionCloseFrame (ApplicationErrorCode errorCode) reasonPhrase _ =>
      writeFields [Int FrameType.CONNECTION_CLOSE_APP_ERR; Int errorCode; Int (zlen reasonPhrase); Bytes reasonPhrase] record b
  | WConnectionCloseFrame (LocalErrorCode _) _ _ => fails CheckFailed
  | WPingFrame => writeFields [Int FrameType.PING] record b
  | WSimpleFrame f => writeSimpleFrame f b
  | WDatagramFrame data => writeFields [Int FrameType.DATAGRAM_LEN; Int (zlen data); Bytes data] record b
  | WImmediateAckFrame => writeFields [Int FrameType.IMMEDIATE_ACK] record b
  | WriteAckFrame _ | WriteStreamFrame _ _ _ _ _ | WriteCryptoFrame _ _ | WNoopFrame => fails UnsupportedFrame
  end.

(** ** The end of a packet *)

Definition kMaxPacketNumEncodingSize : Z := 4.
Definition kSampleSize : Z := 16.
Definition kMaxPacketLenSize : Z := 2.

(** The padding loop of [buildPacket]: a packet that is not empty gets a body that is long
    enough to sample, as far as there is space. *)
Fixpoint padBody (fuel : nat) (minBodySize bodyLength extraDataWritten cipherOverhead : Z) (b : Builder) : W Builder :=
  if (bodyLength + extraDataWritten + cipherOverhead <? minBodySize) && negb (empty b) && (remainingBytes_ b >? kMaxPacketLenSize) then
    match fuel with
    | O => fails CheckFailed
    | S fuel =>
        b ← write FrameType.PADDING b;
        padBody fuel minBodySize bodyLength (extraDataWritten + 1) cipherOverhead b
    end
  else mret b.

Definition buildPacket (packetNumberLength cipherOverhead : Z) (b : Builder) : W Builder :=
  let minBodySize := kMaxPacketNumEncodingSize - packetNumberLength + kSampleSize in
  padBody (Z.to_nat (minBodySize + 1)) minBodySize (zlen (body_ b)) 0 cipherOverhead b.


End QuicFrameWriter.
