(* ===== verification/QuicFramesResults.v ===== *)
(** * QUIC frames: what is written is read

    The theorems about the frame codec.  [reads p bs a]: the parser [p] takes exactly the
    bytes [bs] off any cursor and returns [a]; such facts compose along the binds of a parser
    as the bytes of the fields are concatenated. *)

From S2P Require Import Prelude QuicInteger IntervalSet QuicStream QuicFlowControl QuicSend QuicFrames QuicFrameWriter.

Module QuicFramesResults.
Import QuicFrames QuicFrameWriter.

(** ** Reading what was written *)

Definition reads {A} (p : parser FrameEncodingError A) (bs : list Z) (a : A) : Prop :=
  bytes_ok bs /\ forall rest, bytes_ok rest -> p (bs ++ rest) = POk a rest.

Lemma reads_ret {A} (a : A) : reads (mret a) [] a.
Proof. split; [constructor|]. done. Qed.

Lemma reads_bind {A B} (p : parser FrameEncodingError A) (k : A -> parser FrameEncodingError B) bs bs' a b :
  reads p bs a -> reads (k a) bs' b -> reads (p ≫= k) (bs ++ bs') b.
Proof.
  intros [Hb Hp] [Hb' Hk]. split; [by apply Forall_app|]. intros rest Hr. rewrite <- app_assoc.
  rewrite (pbind_ok _ _ _ a (bs' ++ rest)); [by apply Hk|]. apply Hp. by apply Forall_app.
Qed.

Lemma reads_bind_nil {A B} (p : parser FrameEncodingError A) (k : A -> parser FrameEncodingError B) bs a b :
  reads p [] a -> reads (k a) bs b -> reads (p ≫= k) bs b.
Proof. apply (reads_bind p k [] bs). Qed.

Lemma reads_last {A B} (p : parser FrameEncodingError A) (k : A -> parser FrameEncodingError B) bs a b :
  reads p bs a -> reads (k a) [] b -> reads (p ≫= k) bs b.
Proof. intros H1 H2. rewrite <- (app_nil_r bs). by apply (reads_bind p k bs []) with a. Qed.

(** The bytes of a field. *)
Definition int_bytes (v : Z) : list Z := match QuicInteger.encodeQuicInteger v with Some (bs, _) => bs | None => [] end.
Definition fits (v : Z) : Prop := 0 <= v <= QuicInteger.kEightByteLimit.

Lemma int_bytes_ok v : fits v ->
  QuicInteger.encodeQuicInteger v = Some (int_bytes v, zlen (int_bytes v)) /\
  getSize v = inr (zlen (int_bytes v)) /\ 1 <= zlen (int_bytes v) <= 8 /\ bytes_ok (int_bytes v) /\
  forall rest, bytes_ok rest -> QuicInteger.decodeQuicInteger (int_bytes v ++ rest) 8 = Some ((v, zlen (int_bytes v)), rest).
Proof.
  intros Hv. destruct (QuicInteger.integer_roundtrip v Hv) as (bs & n & E & S & <- & Hn & Hb & HD).
  unfold int_bytes, getSize. rewrite E, S. split_and!; try done; try lia. intros rest Hr. apply HD; [done|lia].
Qed.

Lemma reads_integer t v : fits v -> reads (readInteger t) (int_bytes v) v.
Proof.
  intros (_ & _ & _ & Hb & HD)%int_bytes_ok. split; [done|]. intros rest Hr. unfold readInteger. by rewrite HD.
Qed.

Lemma reads_integer_sized t v : fits v -> reads (readIntegerSized t) (int_bytes v) (v, zlen (int_bytes v)).
Proof.
  intros (_ & _ & _ & Hb & HD)%int_bytes_ok. split; [done|]. intros rest Hr. unfold readIntegerSized. by rewrite HD.
Qed.

Lemma reads_try v : fits v -> reads tryInteger (int_bytes v) (Some v).
Proof.
  intros (_ & _ & _ & Hb & HD)%int_bytes_ok. split; [done|]. intros rest Hr. unfold tryInteger. by rewrite HD.
Qed.

Lemma reads_check t c : c = true -> reads (check t c) [] ().
Proof. intros ->. apply reads_ret. Qed.

Lemma reads_readBE n z : 0 <= z < 2 ^ (8 * Z.of_nat n) -> reads (readBE n) (be_bytes n z) z.
Proof. intros Hz. split; [apply be_bytes_ok|]. intros rest _. by apply readBE_app. Qed.

Lemma reads_bytes n bs : bytes_ok bs -> zlen bs = n -> reads (readBytes n) bs bs.
Proof. intros Hb Hn. split; [done|]. intros rest _. by apply readBytes_app. Qed.

Lemma reads_clone n bs : bytes_ok bs -> zlen bs = n -> reads (cloneAtMost n) bs bs.
Proof.
  intros Hb <-. split; [done|]. intros rest _. unfold cloneAtMost, zlen. rewrite Nat2Z.id.
  by rewrite take_app_length, drop_app_length.
Qed.

(** A length is compared with what is left before the data is read. *)
Lemma reads_guarded {A} t n (k : parser FrameEncodingError A) bs a :
  n <= zlen bs -> reads k bs a -> reads (total ← totalLength; check t (negb (total <? n)) ;; k) bs a.
Proof.
  intros Hn [Hb Hk]. split; [done|]. intros rest Hr. unfold totalLength, mbind, parser_bind, check.
  destruct (Z.ltb_spec (zlen (bs ++ rest)) n) as [H|H].
  - rewrite zlen_app in H. unfold zlen in *. lia.
  - simpl. by apply Hk.
Qed.

Lemma reads_available {A} t n (k : parser FrameEncodingError A) bs a :
  n <= zlen bs -> reads k bs a -> reads (total ← totalLength; check t (n <=? total) ;; k) bs a.
Proof.
  intros Hn [Hb Hk]. split; [done|]. intros rest Hr. unfold totalLength, mbind, parser_bind, check.
  destruct (Z.leb_spec n (zlen (bs ++ rest))) as [H|H].
  - simpl. by apply Hk.
  - rewrite zlen_app in H. unfold zlen in *. lia.
Qed.

Create HintDb reads.
#[export] Hint Resolve reads_ret reads_integer reads_integer_sized reads_try reads_check reads_readBE reads_bytes reads_clone : reads.

(** ** Writing *)

Lemma append_append x y b : append y (append x b) = append (x ++ y) b.
Proof.
  unfold append. simpl. rewrite zlen_app, app_assoc. f_equal. unfold u32.
  rewrite Zminus_mod_idemp_l. f_equal. lia.
Qed.

Lemma write_fits v b : fits v -> write v b = inr (append (int_bytes v) b).
Proof. intros (E & _)%int_bytes_ok. unfold write. by rewrite E. Qed.

Definition field_fits (f : Field) : Prop := match f with Int v => fits v | Bytes bs => bytes_ok bs end.
Definition field_bytes (f : Field) : list Z := match f with Int v => int_bytes v | Bytes bs => bs end.
Definition fields_bytes (l : list Field) : list Z := mjoin (field_bytes <$> l).

Lemma fieldsSize_fits l : Forall field_fits l -> fieldsSize l = inr (zlen (fields_bytes l)).
Proof.
  induction 1 as [|f l Hf Hl IH]; [done|]. unfold fields_bytes in *. simpl. rewrite IH, zlen_app.
  destruct f as [v|bs]; simpl in *; [|done]. apply int_bytes_ok in Hf as (_ & -> & _). done.
Qed.

Definition builder_ok (b : Builder) : Prop := is_u32 (remainingBytes_ b).

Lemma append_nil b : builder_ok b -> append [] b = b.
Proof.
  destruct b. unfold append, builder_ok, zlen. simpl. intros H. rewrite app_nil_r, Z.sub_0_r, u32_id by done. done.
Qed.

Lemma builder_append_ok bs b : builder_ok (append bs b).
Proof. apply u32_range. Qed.

Lemma writeAll_fits l : forall b, builder_ok b -> Forall field_fits l -> writeAll l b = inr (append (fields_bytes l) b).
Proof.
  induction l as [|f l IH]; intros b Hb Hl; [by rewrite append_nil|]. inversion Hl as [|? ? Hf Hl']; subst. simpl.
  assert (E : writeField f b = inr (append (field_bytes f) b)).
  { destruct f as [v|bs]; [by apply write_fits|done]. }
  rewrite E. cbv [mbind W_bind]. rewrite IH by (done || apply builder_append_ok). unfold fields_bytes. simpl. by rewrite append_append.
Qed.

(** [l] is written whole or not at all. *)
Lemma writeFields_fits l record b : builder_ok b -> Forall field_fits l ->
  writeFields l record b =
    if zlen (fields_bytes l) <=? remainingBytes_ b then inr (zlen (fields_bytes l), record (append (fields_bytes l) b)) else inr (0, b).
Proof.
  intros Hb Hl. unfold writeFields, packetSpaceCheck. rewrite fieldsSize_fits by done. cbv [mbind W_bind].
  destruct (_ <=? _); [|done]. by rewrite writeAll_fits.
Qed.

(** ** Control frames *)

(** What the receiver of a control frame should get. *)
Definition as_read (f : QuicWriteFrame) : option QuicFrame :=
  match f with
  | WPaddingFrame _ => Some (PaddingFrame 1)
  | WRstStreamFrame s e o => Some (RstStreamFrame s e o)
  | WConnectionCloseFrame (TransportErrorCode e) r t => Some (ConnectionCloseFrame (TransportErrorCode e) r t)
  | WConnectionCloseFrame (ApplicationErrorCode e) r _ => Some (ConnectionCloseFrame (ApplicationErrorCode e) r FrameType.PADDING)
  | WMaxDataFrame m => Some (MaxDataFrame m)
  | WMaxStreamDataFrame s m => Some (MaxStreamDataFrame s m)
  | WDataBlockedFrame l => Some (DataBlockedFrame l)
  | WStreamDataBlockedFrame s l => Some (StreamDataBlockedFrame s l)
  | WStreamsBlockedFrame l b => Some (StreamsBlockedFrame l b)
  | WSimpleFrame (NewTokenFrame t) => Some (ReadNewTokenFrame t)
  | WSimpleFrame f => Some (SimpleFrame f)
  | WPingFrame => Some PingFrame
  | WDatagramFrame d => Some (DatagramFrame (zlen d) d)
  | WImmediateAckFrame => Some ImmediateAckFrame
  | _ => None
  end.

(** The frames that the codec can send: the numbers are QUIC integers, and the limits are
    those that the reader enforces.  A close frame names a frame type of one byte. *)
Definition simple_ok (f : QuicSimpleFrame) : Prop :=
  match f with
  | StopSendingFrame s e => fits s /\ fits e
  | PathChallengeFrame d | PathResponseFrame d => is_u64 d
  | NewConnectionIdFrame n r c t =>
      fits n /\ fits r /\ bytes_ok c /\ bytes_ok t /\ zlen c <= kMaxConnectionIdSize /\ zlen t = kStatelessResetTokenLength
  | MaxStreamsFrame n _ => 0 <= n <= kMaxMaxStreams
  | RetireConnectionIdFrame n => fits n
  | HandshakeDoneFrame => True
  | KnobFrame s i d => fits s /\ fits i /\ bytes_ok d /\ fits (zlen d)
  | AckFrequencyFrame a b c d => fits a /\ fits b /\ fits c /\ fits d
  | NewTokenFrame t => bytes_ok t /\ fits (zlen t)
  end.

Definition control_ok (f : QuicWriteFrame) : Prop :=
  match f with
  | WPaddingFrame _ | WPingFrame | WImmediateAckFrame => True
  | WRstStreamFrame s e o => fits s /\ fits e /\ fits o
  | WConnectionCloseFrame (TransportErrorCode e) r t => fits e /\ 0 <= t <= QuicInteger.kOneByteLimit /\ bytes_ok r /\ zlen r <= kMaxReasonPhraseLength
  | WConnectionCloseFrame (ApplicationErrorCode e) r _ => fits e /\ bytes_ok r /\ zlen r <= kMaxReasonPhraseLength
  | WMaxDataFrame m => fits m
  | WMaxStreamDataFrame s m => fits s /\ fits m
  | WDataBlockedFrame l => fits l
  | WStreamDataBlockedFrame s l => fits s /\ fits l
  | WStreamsBlockedFrame l _ => fits l
  | WSimpleFrame f => simple_ok f
  | WDatagramFrame d => bytes_ok d /\ fits (zlen d)
  | _ => False
  end.

(** A frame in a packet: padding is a zero byte; another frame starts with a byte that is not
    zero and is read from its bytes. *)
Definition frame_reads (header : HeaderForm) (params : CodecParameters) (bs : list Z) (f : QuicFrame) : Prop :=
  if isPadding f then bs = [0] else hd 0 bs <> 0 /\ reads (parseFrame header params) bs f.

Lemma int_bytes_hd v : fits v -> v <> 0 -> hd 0 (int_bytes v) <> 0.
Proof.
  intros Hv Hn. destruct (QuicInteger.quic_encode_spec v Hv) as (t & Ht & Hmin & Hlt & E & _).
  unfold int_bytes. rewrite E.
  assert (t = 0 \/ t = 1 \/ t = 2 \/ t = 3) as [-> | [-> | [-> | ->]]] by lia; simpl in *; unfold be_bytes, hd; simpl;
    unfold fits, QuicInteger.kEightByteLimit in Hv; Z.div_mod_to_equations; lia.
Qed.

Lemma parseFrame_reads header params t p bs f :
  fits t -> t <> 0 -> frameParser header params t = Some p -> reads p bs f -> isPadding f = false ->
  frame_reads header params (int_bytes t ++ bs) f.
Proof.
  intros Ht Hn Hp [Hb Hr] Hf. pose proof (int_bytes_ok t Ht) as (_ & _ & Hl & Hib & HD). unfold frame_reads. rewrite Hf. split.
  - pose proof (int_bytes_hd t Ht Hn). destruct (int_bytes t); [done|]. done.
  - split; [by apply Forall_app|]. intros rest Hrest. unfold parseFrame. rewrite <- app_assoc, HD by (by apply Forall_app).
    rewrite Hp, Hr by done. done.
Qed.

Lemma fits_small v : 0 <= v < 2 ^ 61 -> fits v.
Proof. unfold fits, QuicInteger.kEightByteLimit. lia. Qed.

Lemma int_bytes_small v : 0 <= v <= QuicInteger.kOneByteLimit -> int_bytes v = [v].
Proof.
  unfold QuicInteger.kOneByteLimit. intros Hv. unfold int_bytes, QuicInteger.encodeQuicInteger, QuicInteger.kOneByteLimit.
  destruct (Z.leb_spec v 0x3F); [|lia]. unfold QuicInteger.encodeOneByte, be_bytes. simpl. f_equal. ilia.
Qed.

Ltac limits :=
  unfold kMaxConnectionIdSize, kMaxReasonPhraseLength, kMaxMaxStreams, QuicInteger.kOneByteLimit in *;
  change (Z.shiftl 1 60) with (2 ^ 60) in *; unfold zlen in *; simpl; unfold_ints; lia.

Ltac int_fits :=
  match goal with
  | H : fits ?v |- fits ?v => exact H
  | _ => apply fits_small; first [limits | by vm_compute]
  end.

(** One step of a parser whose fields are the next bytes. *)
Ltac read_field :=
  first
    [ eapply reads_bind; [by (eapply reads_integer; int_fits)|]
    | eapply reads_bind; [by (eapply reads_integer_sized; apply fits_small; limits)|]
    | eapply reads_bind_nil; [by apply reads_check; zcases; limits|]
    | eapply reads_guarded; [rewrite ?zlen_app; unfold zlen; lia|]
    | eapply reads_available; [rewrite zlen_app; unfold zlen; rewrite length_be_bytes; lia|]
    | eapply reads_bind; [by eapply reads_readBE; limits|]
    | eapply reads_bind; [by apply reads_bytes|]
    | eapply reads_bind; [by apply reads_clone|]
    | apply reads_ret ].

Ltac frame_fits :=
  repeat match goal with |- Forall _ [] => apply Forall_nil_2 | |- Forall _ (_ :: _) => apply Forall_cons; split end; cbn [field_fits];
  first [exact I | match goal with H : bytes_ok ?d |- bytes_ok ?d => exact H end | apply be_bytes_ok | int_fits].

Ltac unfold_parser :=
  unfold decodeRstStreamFrame, decodeStopSendingFrame, decodeCryptoFrame, decodeNewTokenFrame, decodeMaxDataFrame, decodeMaxStreamDataFrame,
    decodeBiDiMaxStreamsFrame, decodeUniMaxStreamsFrame, decodeDataBlockedFrame, decodeStreamDataBlockedFrame, decodeBiDiStreamsBlockedFrame,
    decodeUniStreamsBlockedFrame, decodeNewConnectionIdFrame, decodeRetireConnectionIdFrame, decodePathChallengeFrame, decodePathResponseFrame,
    decodeConnectionCloseFrame, decodeApplicationClose, decodeDatagramFrame, decodeKnobFrame, decodeAckFrequencyFrame, decodePingFrame,
    decodeImmediateAckFrame, decodeHandshakeDoneFrame.

Section control.
Variables (header : HeaderForm) (params : CodecParameters).

(** [l] are the fields of the frame [f]. *)
Definition fields_of (l : list Field) (f : QuicFrame) : Prop :=
  Forall field_fits l /\ 1 <= zlen (fields_bytes l) /\ frame_reads header params (fields_bytes l) f.

Lemma fields_of_typed t l p f :
  0 < t < 2 ^ 61 -> frameParser header params t = Some p -> Forall field_fits l -> reads p (fields_bytes l) f -> isPadding f = false ->
  fields_of (Int t :: l) f.
Proof.
  intros Ht Hp Hl Hr Hf. assert (Hfit : fits t) by (apply fits_small; lia). split; [by constructor|].
  unfold fields_bytes in *. simpl. split.
  - rewrite zlen_app. pose proof (int_bytes_ok t Hfit) as (_ & _ & ? & _). unfold zlen in *. lia.
  - eapply parseFrame_reads; [done|lia|done..].
Qed.

Ltac frame_case := eapply fields_of_typed; [by vm_compute|reflexivity|frame_fits| |reflexivity];
  unfold_parser; unfold fields_bytes; cbn [fmap list_fmap mjoin list_join field_bytes]; repeat read_field.

Lemma simple_fields f : simple_ok f -> f <> HandshakeDoneFrame -> exists l g,
  as_read (WSimpleFrame f) = Some g /\ fields_of l g /\
  forall b, writeSimpleFrame f b = writeFields l (appendFrame (WSimpleFrame f)) b.
Proof.
  intros Hok Hh. destruct f; try done; simpl in Hok; destruct_and?; eexists _, _; (split; [reflexivity|]); (split; [|intros b; reflexivity]).
  - frame_case.
  - frame_case.
  - frame_case.
  - frame_case.
  - assert (Hn : maxStreams <= 2 ^ 60) by assumption. assert (fits maxStreams) by (apply fits_small; lia). clear H0.
    destruct isForBidirectional; frame_case.
  - frame_case.
  - frame_case.
  - frame_case.
  - frame_case.
Qed.

Definition recorded (f : QuicWriteFrame) : Builder -> Builder :=
  match f with WPaddingFrame _ => appendPaddingFrame | _ => appendFrame f end.

Lemma control_fields f b : control_ok f -> (f = WSimpleFrame HandshakeDoneFrame -> shortHeader b = true) -> exists l g,
  as_read f = Some g /\ fields_of l g /\ writeFrame f b = writeFields l (recorded f) b.
Proof.
  intros Hok Hs. destruct f as [n|s e o|[e|e|e] r t|m|s m|l|s l|l bi| | | |f| | |d| ]; try done; simpl in Hok; destruct_and?.
  - eexists _, _. split; [reflexivity|]. split; [|reflexivity]. split_and!; [frame_fits|by vm_compute|].
    unfold frame_reads, isPadding. by vm_compute.
  - eexists _, _. split; [reflexivity|]. split; [|reflexivity]. frame_case.
  - eexists _, _. split; [reflexivity|]. split; [|reflexivity]. frame_case.
  - eexists _, _. split; [reflexivity|]. split; [|reflexivity]. frame_case.
    rewrite (int_bytes_small t) by limits. change (zlen [t]) with 1. repeat read_field.
  - eexists _, _. split; [reflexivity|]. split; [|reflexivity]. frame_case.
  - eexists _, _. split; [reflexivity|]. split; [|reflexivity]. frame_case.
  - eexists _, _. split; [reflexivity|]. split; [|reflexivity]. frame_case.
  - eexists _, _. split; [reflexivity|]. split; [|reflexivity]. frame_case.
  - eexists _, _. split; [reflexivity|]. split; [|reflexivity]. destruct bi; frame_case.
  - destruct (decide (f = HandshakeDoneFrame)) as [->|Hf].
    + eexists _, _. split; [reflexivity|]. split; [|simpl; by rewrite Hs]. frame_case.
    + destruct (simple_fields f Hok Hf) as (l & g & H1 & H2 & H3). exists l, g. split_and!; [done..|apply H3].
  - eexists _, _. split; [reflexivity|]. split; [|reflexivity]. frame_case.
  - eexists _, _. split; [reflexivity|]. split; [|reflexivity]. frame_case.
  - eexists _, _. split; [reflexivity|]. split; [|reflexivity]. frame_case.
Qed.

End control.

(** ** Stream frames *)

Definition group_bytes (g : option Z) : list Z := match g with Some g => int_bytes g | None => [] end.
Definition offset_bytes (o : Z) : list Z := if o =? 0 then [] else int_bytes o.

(** The type of a stream frame, from the bits that are set. *)
Definition stream_type (g : option Z) (first len fin : bool) : Z :=
  let field := match g with Some _ => switchToStreamGroups FrameType.STREAM | None => FrameType.STREAM end in
  let field := if first then field else setOffset field in
  let field := if len then setLength field else field in
  if fin then setFin field else field.

Definition stream_header (id : Z) (g : option Z) (offset n : Z) (len fin : bool) : list Z :=
  be_bytes 1 (stream_type g (offset =? 0) len fin) ++ int_bytes id ++ group_bytes g ++ offset_bytes offset ++
    (if len then int_bytes n else []).

Definition group_fits (g : option Z) : Prop := match g with Some g => fits g | None => True end.

Lemma getSize_group g : group_fits g -> match g with Some g => getSize g | None => mret 0 end = inr (zlen (group_bytes g)) /\ 0 <= zlen (group_bytes g) <= 8.
Proof. destruct g as [g|]; simpl; [|done]. intros (_ & E & H & _)%int_bytes_ok. split; [done|lia]. Qed.

Lemma getSize_offset o : fits o -> (if o =? 0 then mret 0 else getSize o) = inr (zlen (offset_bytes o)) /\ 0 <= zlen (offset_bytes o) <= 8.
Proof. intros (_ & E & H & _)%int_bytes_ok. unfold offset_bytes. destruct (o =? 0); [done|]. split; [done|lia]. Qed.

Lemma int_bytes_size v : fits v ->
  zlen (int_bytes v) = if v <=? QuicInteger.kOneByteLimit then 1 else if v <=? QuicInteger.kTwoByteLimit then 2
                       else if v <=? QuicInteger.kFourByteLimit then 4 else 8.
Proof.
  intros Hv. pose proof (int_bytes_ok v Hv) as (_ & E & _). unfold getSize, QuicInteger.getQuicIntegerSize in E. destruct Hv as [_ Hv].
  apply Z.leb_le in Hv. rewrite Hv in E. revert E. repeat case_match; cbv [mret W_ret]; congruence.
Qed.

(** The size of the length field is enough for the length that is written into it. *)
Lemma lengthFieldSize_ok n : 0 <= n < 2 ^ 61 -> exists k, lengthFieldSize n = inr k /\ 1 <= k <= 8 /\
  forall m, 0 <= m <= n -> zlen (int_bytes m) <= k.
Proof.
  intros Hn. unfold lengthFieldSize. assert (Hm : forall m, 0 <= m <= n -> fits m) by (intros; apply fits_small; lia).
  unfold QuicInteger.kOneByteLimit, QuicInteger.kTwoByteLimit, QuicInteger.kFourByteLimit, QuicInteger.kEightByteLimit.
  zcases; eexists; (split; [reflexivity|]); (split; [lia|]); intros m Hmn; rewrite int_bytes_size by (by apply Hm);
    unfold QuicInteger.kOneByteLimit, QuicInteger.kTwoByteLimit, QuicInteger.kFourByteLimit; zcases; lia.
Qed.

Lemma stream_header_written {A} (k : Builder -> W A) id g offset n (len fin : bool) b :
  builder_ok b -> fits id -> group_fits g -> fits offset -> fits n ->
  (b ← write id (append (be_bytes 1 (stream_type g (offset =? 0) len fin)) b);
   b ← match g with Some g => write g b | None => mret b end;
   b ← (if offset =? 0 then mret b else write offset b);
   b ← (if len then write n b else mret b);
   k b) = k (append (stream_header id g offset n len fin) b).
Proof.
  intros Hb Hi Hg Ho Hn. cbv zeta. rewrite write_fits by done. cbv [mbind W_bind]. rewrite append_append. unfold stream_header.
  assert (E1 : forall b, builder_ok b -> match g with Some g => write g b | None => mret b end = inr (append (group_bytes g) b)).
  { intros b' Hb'. destruct g as [g|]; simpl; [by apply write_fits|]. by rewrite append_nil. }
  rewrite E1 by apply builder_append_ok. rewrite append_append.
  assert (E2 : forall b, builder_ok b -> (if offset =? 0 then mret b else write offset b) = inr (append (offset_bytes offset) b)).
  { intros b' Hb'. unfold offset_bytes. destruct (offset =? 0); [by rewrite append_nil|]. by apply write_fits. }
  rewrite E2 by apply builder_append_ok. rewrite append_append, <- !app_assoc.
  destruct len; [rewrite write_fits by done; rewrite append_append, <- !app_assoc; done|]. by rewrite app_nil_r.
Qed.

Lemma hasFin_type g off len fin : hasFin (stream_type g off len fin) = fin.
Proof. by destruct g, off, len, fin. Qed.

Lemma stream_header_size id g offset n (len fin : bool) :
  zlen (stream_header id g offset n len fin) =
    1 + zlen (int_bytes id) + zlen (group_bytes g) + zlen (offset_bytes offset) + (if len then zlen (int_bytes n) else 0).
Proof.
  unfold stream_header. rewrite !zlen_app. replace (zlen (be_bytes 1 _)) with 1 by (unfold zlen; by rewrite length_be_bytes).
  destruct len; unfold zlen; simpl; lia.
Qed.

Lemma W_bind_inr {A B} (a : A) (k : A -> W B) : ((inr a : W A) ≫= k) = k a.
Proof. done. Qed.
Lemma W_bind_ret {A B} (a : A) (k : A -> W B) : ((mret a : W A) ≫= k) = k a.
Proof. done. Qed.

Lemma stream_frame_written id g offset n (len fin : bool) b :
  builder_ok b -> fits id -> group_fits g -> fits offset -> fits n ->
  (b ← write id (append (be_bytes 1 (stream_type g (offset =? 0) len fin)) b);
   b ← match g with Some g => write g b | None => mret b end;
   b ← (if offset =? 0 then mret b else write offset b);
   b ← (if len then write n b else mret b);
   mret (Some n, appendFrame (WriteStreamFrame id g offset n (hasFin (stream_type g (offset =? 0) len fin))) b)) =
  inr (Some n, appendFrame (WriteStreamFrame id g offset n fin) (append (stream_header id g offset n len fin) b)).
Proof.
  intros. rewrite (stream_header_written (fun b => mret (Some n, appendFrame (WriteStreamFrame id g offset n
    (hasFin (stream_type g (offset =? 0) len fin))) b))) by done. by rewrite hasFin_type.
Qed.

(** How much data follows the header and whether it has a length. *)
Lemma writeStreamFrameHeader_ok id g offset (d : list Z) fc (fin : bool) hint b :
  builder_ok b -> fits id -> group_fits g -> fits offset -> 0 <= fc -> zlen d < 2 ^ 61 -> d <> [] \/ fin = true -> hint <> Some true ->
  let r := writeStreamFrameHeader b id offset (zlen d) fc fin hint g true in
  r = inr (None, b) \/ exists n (len : bool),
    let e := fin && (n =? zlen d) in
    let header := stream_header id g offset n len e in
    r = inr (Some n, appendFrame (WriteStreamFrame id g offset n e) (append header b)) /\
    0 <= n <= Z.min (zlen d) fc /\ zlen header + n <= remainingBytes_ b /\
    (len = false -> hint = None /\ 0 < n /\ zlen header + n = remainingBytes_ b).
Proof.
  intros Hb Hi Hg Ho Hfc Hd Hne Hh. cbv zeta. unfold writeStreamFrameHeader.
  assert (Hz : 0 <= zlen d) by (unfold zlen; lia).
  assert (Hr : 0 <= remainingBytes_ b < 2 ^ 32) by exact Hb. set (r := remainingBytes_ b) in *.
  destruct (Z.eqb_spec r 0) as [|Hr0]; [by left|].
  assert (Hx : (zlen d =? 0) && negb fin = false).
  { destruct Hne as [Hne| ->]; [|by rewrite andb_false_r]. destruct d; [done|]. destruct (Z.eqb_spec (zlen (z :: d)) 0); [unfold zlen in *; simpl in *; lia|done]. }
  rewrite Hx. destruct (int_bytes_ok id Hi) as (_ & -> & Hi8 & _). destruct (getSize_group g Hg) as [-> Hg8].
  rewrite !W_bind_inr. set (h := 1 + zlen (int_bytes id) + zlen (group_bytes g)) in *.
  destruct (Z.ltb_spec r h) as [|Hrh]; [by left|]. destruct (getSize_offset offset Ho) as [-> Ho8].
  rewrite W_bind_inr. set (h2 := h + zlen (offset_bytes offset)) in *. set (m := Z.min (zlen d) fc) in *.
  assert (Hm : 0 <= m < 2 ^ 61) by lia. assert (Hfm : forall n, 0 <= n <= m -> fits n) by (intros; apply fits_small; lia).
  assert (Hu : (h2 <= r /\ u64 (r - h2) = r - h2) \/ (r < h2 /\ 2 ^ 63 < u64 (r - h2))) by (unfold h2, h in *; ilia).
  assert (Hhint : match hint with Some h => h | None => (m >? 0) && (m >=? u64 (r - h2)) end = true ->
                  hint = None /\ 0 < m /\ u64 (r - h2) <= m).
  { destruct hint as [[]|]; [done..|]. intros [?%Z.gtb_lt ?%Z.geb_le]%andb_prop. split_and!; [done|lia|lia]. }
  destruct (match hint with Some h => h | None => (m >? 0) && (m >=? u64 (r - h2)) end).
  - destruct (Hhint eq_refl) as (-> & Hm0 & Hge). assert (h2 <= r /\ u64 (r - h2) = r - h2) as [Hr2 ->] by lia.
    rewrite W_bind_ret. cbn [Z.gtb Z.compare andb]. replace (Z.min m (r - h2)) with (r - h2) by lia. rewrite Z.add_0_r.
    destruct (Z.eqb_spec (r - h2) 0) as [E0|E0].
    + left. rewrite E0. destruct (Z.eqb_spec 0 (zlen d)); [lia|]. by rewrite andb_false_r.
    + cbn [andb]. destruct (Z.ltb_spec r h2); [lia|]. right. exists (r - h2), false.
      rewrite <- (stream_frame_written id g offset (r - h2) false) by (done || by apply Hfm; lia).
      rewrite stream_header_size. split; [done|]. unfold h2, h in *. split_and!; [lia..|]. intros _. split; [done|lia].
  - clear Hhint. destruct (lengthFieldSize_ok (Z.min m (u64 (r - h2)))) as (k & -> & Hk & Hsize); [lia|]. rewrite W_bind_inr.
    set (n0 := Z.min m (u64 (r - h2))) in *. destruct (Z.gtb_spec k 0); [|lia]. cbn [andb].
    destruct (Z.eqb_spec n0 0) as [E0|E0]; cbn [negb andb].
    + rewrite E0 in *. rewrite Z.add_0_l, (u64_id (h2 + k)) by (unfold h2, h in *; ilia). destruct (Z.ltb_spec r (h2 + k)) as [Hs|Hs].
      { left. replace (u64 (r - (h2 + k)) =? 0) with false; [done|]. symmetry. apply Z.eqb_neq. unfold h2, h in *. ilia. }
      destruct (fin && (0 =? zlen d)) eqn:Ef; [|by left]. simpl. right. exists 0, true. rewrite Ef.
      rewrite <- (stream_frame_written id g offset 0 true) by (done || apply Hfm; lia). rewrite stream_header_size.
      pose proof (Hsize 0 ltac:(lia)). split; [done|]. unfold h2, h in *. split_and!; [lia..|done].
    + destruct (Z.geb_spec (h2 + k) r); [by left|]. assert (Hr2 : u64 (r - h2) = r - h2) by lia. rewrite Hr2 in *.
      rewrite !u64_id by (unfold h2, h in *; ilia).
      set (n1 := if r <? n0 + (h2 + k) then r - (h2 + k) else n0).
      assert (Hn1 : 0 < n1 <= n0 /\ n1 + (h2 + k) <= r) by (unfold n1; destruct (Z.ltb_spec r (n0 + (h2 + k))); lia).
      destruct (Z.eqb_spec n1 0); [lia|]. cbn [andb]. destruct (Z.ltb_spec r (h2 + k)); [lia|]. right. exists n1, true.
      rewrite <- (stream_frame_written id g offset n1 true) by (done || apply Hfm; lia). rewrite stream_header_size.
      pose proof (Hsize n1 ltac:(lia)). split; [done|]. unfold h2, h in *. split_and!; [lia..|done].
Qed.


Section stream_reading.
Variables (header : HeaderForm) (params : CodecParameters).

(** Group frames always have the length bit. *)
Lemma stream_type_spec g first len fin : (len = true \/ g = None) ->
  let t := stream_type g first len fin in
  0 < t <= QuicInteger.kOneByteLimit /\ hasOffset (u8 t) = negb first /\ hasDataLength (u8 t) = len /\ hasFin (u8 t) = fin /\
  frameParser header params t = Some (decodeStreamFrame (u8 t) (match g with Some _ => true | None => false end)).
Proof. intros [-> | ->]; [destruct g|]; destruct first, fin; try destruct len; cbv zeta; (split; [by vm_compute|]); split_and!; reflexivity. Qed.

Lemma reads_group g : group_fits g ->
  reads (if match g with Some _ => true | None => false end then x ← readInteger FrameType.GROUP_STREAM; mret (Some x) else mret None)
    (group_bytes g) g.
Proof.
  destruct g as [g|]; simpl; intros Hg; [|apply reads_ret]. eapply reads_last; [by apply reads_integer|apply reads_ret].
Qed.

Lemma reads_offset t o : fits o -> reads (if negb (o =? 0) then readInteger t else mret 0) (offset_bytes o) o.
Proof.
  intros Ho. unfold offset_bytes. destruct (Z.eqb_spec o 0) as [->|]; [apply reads_ret|by apply reads_integer].
Qed.

(** The bytes in front of the length, for any rest of the parser. *)
Lemma reads_stream_front g first id offset (k : Z -> option Z -> Z -> parser FrameEncodingError QuicFrame) bs f :
  fits id -> group_fits g -> fits offset -> first = (offset =? 0) -> reads (k id g offset) bs f ->
  let isGroupFrame := match g with Some _ => true | None => false end in
  let t := if isGroupFrame then FrameType.GROUP_STREAM else FrameType.STREAM in
  reads (streamId ← readInteger t;
         groupId ← (if isGroupFrame then gId ← readInteger t; mret (Some gId) else mret None);
         offset ← (if negb first then readInteger t else mret 0);
         k streamId groupId offset) (int_bytes id ++ group_bytes g ++ offset_bytes offset ++ bs) f.
Proof.
  intros Hi Hg Ho -> Hk. cbv zeta. eapply reads_bind; [by apply reads_integer|]. eapply reads_bind; [|eapply reads_bind; [by apply reads_offset|done]].
  destruct g; apply reads_group; done.
Qed.

Lemma stream_frame_reads id g offset d fin :
  fits id -> group_fits g -> fits offset -> bytes_ok d -> fits (zlen d) ->
  frame_reads header params (stream_header id g offset (zlen d) true fin ++ d) (ReadStreamFrame id g offset d fin).
Proof.
  intros Hi Hg Ho Hd Hn. unfold stream_header. set (t := stream_type g (offset =? 0) true fin).
  destruct (stream_type_spec g (offset =? 0) true fin (or_introl eq_refl)) as (Ht & H1 & H2 & H3 & Hp). fold t in Ht, H1, H2, H3, Hp.
  assert (Hb : be_bytes 1 t = int_bytes t). { rewrite int_bytes_small by lia. unfold be_bytes, QuicInteger.kOneByteLimit in *. simpl. f_equal. ilia. }
  rewrite Hb, <- !app_assoc. eapply parseFrame_reads; [apply fits_small; unfold QuicInteger.kOneByteLimit in *; lia|lia|exact Hp| |done].
  unfold decodeStreamFrame. rewrite H1, H2, H3. apply reads_stream_front; try done.
  eapply reads_bind; [eapply reads_last; [by apply reads_integer|apply reads_ret]|]. eapply reads_guarded; [lia|].
  eapply reads_last; [by apply reads_clone|apply reads_ret].
Qed.

(** Without the length it is read at the end of a packet. *)
Definition closes (bs : list Z) (f : QuicFrame) : Prop :=
  bytes_ok bs /\ hd 0 bs <> 0 /\ isPadding f = false /\ parseFrame header params bs = POk f [].

Lemma stream_frame_closes id offset n d fin :
  fits id -> fits offset -> bytes_ok d ->
  closes (stream_header id None offset n false fin ++ d) (ReadStreamFrame id None offset d fin).
Proof.
  intros Hi Ho Hd. unfold stream_header. set (t := stream_type None (offset =? 0) false fin).
  destruct (stream_type_spec None (offset =? 0) false fin (or_intror eq_refl)) as (Ht & H1 & H2 & H3 & Hp). fold t in Ht, H1, H2, H3, Hp.
  assert (Hb : be_bytes 1 t = int_bytes t). { rewrite int_bytes_small by lia. unfold be_bytes, QuicInteger.kOneByteLimit in *. simpl. f_equal. ilia. }
  assert (Hft : fits t) by (apply fits_small; unfold QuicInteger.kOneByteLimit in *; lia).
  destruct (int_bytes_ok t Hft) as (_ & _ & _ & Htb & HD). destruct (int_bytes_ok id Hi) as (_ & _ & _ & Hib & _).
  assert (Hob : bytes_ok (offset_bytes offset)) by apply (reads_offset 0 offset Ho).
  rewrite Hb. cbn [group_bytes app]. rewrite app_nil_r, <- !app_assoc.
  assert (Hok : bytes_ok (int_bytes id ++ offset_bytes offset ++ d)) by (repeat (apply Forall_app; split); done).
  split_and!; [by apply Forall_app|rewrite int_bytes_small by lia; simpl; lia|done|].
  unfold parseFrame. rewrite HD, Hp by done. unfold decodeStreamFrame. rewrite H1, H2, H3.
  rewrite (pbind_ok _ _ _ id (offset_bytes offset ++ d)) by (apply (reads_integer _ id Hi); by apply Forall_app).
  rewrite (pbind_ok _ _ _ None (offset_bytes offset ++ d)) by done.
  rewrite (pbind_ok _ _ _ offset d) by (by apply (reads_offset _ offset Ho)).
  rewrite (pbind_ok _ _ _ None d) by done. unfold totalLength, cloneAtMost, mbind, parser_bind, zlen. rewrite Nat2Z.id.
  by rewrite firstn_all, skipn_all.
Qed.
End stream_reading.


(** ** Acknowledgements *)

Import IntervalSet.

(** Blocks from the largest down, each at least two below the one before, which starts at
    [cur]. *)
Fixpoint descending (cur : Z) (l : list Interval) : Prop :=
  match l with [] => True | i :: l => 0 <= start i <= end_ i /\ end_ i + 2 <= cur /\ descending (start i) l end.

Lemma ordered_last2 lo l i j : ordered lo (l ++ [j; i]) -> end_ j + 2 <= start i /\ ordered lo (l ++ [j]).
Proof.
  revert lo. induction l as [|x l IH]; intros lo; simpl.
  - intros (H1 & H2 & H3 & _). split; [lia|]. done.
  - intros (H1 & H2 & H3%IH). destruct H3. done.
Qed.

Lemma ordered_descending lo l : forall i, ordered lo (l ++ [i]) -> valid i /\ descending (start i) (reverse l).
Proof.
  induction l as [|j l IH] using rev_ind; intros i H.
  - simpl in H. by destruct H as (_ & H & _).
  - rewrite <- app_assoc in H. simpl in H. pose proof H as H'. apply ordered_last2 in H as [H1 H2].
    pose proof (IH _ H2) as [Hj Hd]. rewrite reverse_snoc. simpl. split; [|split_and!; [apply Hj|apply Hj|done|done]].
    apply ordered_Forall in H'. rewrite Forall_app in H'. destruct H' as [_ H']. inversion H' as [|? ? _ Hi]; subst. inversion Hi; subst. tauto.
Qed.

Fixpoint blocks_bytes (cur : Z) (l : list Interval) : list Z :=
  match l with
  | [] => []
  | i :: l => int_bytes (cur - end_ i - 2) ++ int_bytes (end_ i - start i) ++ blocks_bytes (start i) l
  end.

Lemma descending_fits cur i l : cur <= QuicInteger.kEightByteLimit -> descending cur (i :: l) ->
  fits (cur - end_ i - 2) /\ fits (end_ i - start i) /\ start i <= QuicInteger.kEightByteLimit /\ descending (start i) l /\ u64 (end_ i + 2) <= cur.
Proof. simpl. unfold fits, QuicInteger.kEightByteLimit. intros H (H1 & H2 & H3). rewrite u64_id by ilia. split_and!; (done || lia). Qed.

Lemma blocks_bytes_ok l : forall cur, descending cur l -> cur <= QuicInteger.kEightByteLimit -> bytes_ok (blocks_bytes cur l).
Proof.
  induction l as [|i l IH]; intros cur Hd Hc; [constructor|]. destruct (descending_fits _ _ _ Hc Hd) as (H1 & H2 & H3 & H4 & _).
  cbn [blocks_bytes]. repeat (apply Forall_app; split); [by apply int_bytes_ok..|by apply IH].
Qed.

Lemma taken_none (l : list Interval) cur n limit : 0 <= limit -> exists l1 l2, l = l1 ++ l2 /\ (inr [] : W (list Interval)) = inr l1 /\
  zlen (blocks_bytes cur l1) + zlen (int_bytes (n + zlen l1)) - zlen (int_bytes n) <= limit.
Proof. intros H. exists [], l. split_and!; [done..|]. simpl. rewrite Z.add_0_r. unfold zlen. simpl. lia. Qed.

Lemma descending_prefix l : forall cur l', descending cur (l ++ l') -> descending cur l.
Proof. induction l as [|i l IH]; intros cur l'; [done|]. simpl. intros (H1 & H2 & H3). split; [done|]. split; [done|]. by eapply IH. Qed.

(** Every block takes bytes. *)
Lemma blocks_bytes_length l : forall cur, descending cur l -> cur <= QuicInteger.kEightByteLimit -> (length l <= length (blocks_bytes cur l))%nat.
Proof.
  induction l as [|i l IH]; intros cur Hd Hc; [simpl; lia|]. destruct (descending_fits _ _ _ Hc Hd) as (H1 & H2 & H3 & H4 & _).
  cbn [blocks_bytes length]. rewrite !length_app. destruct (int_bytes_ok _ H1) as (_ & _ & ? & _). specialize (IH _ H4 H3). unfold zlen in *. lia.
Qed.

(** The blocks that are taken fit, with the growth of the field that counts them. *)
Lemma fillFrameWithAckBlocks_ok l : forall cur n limit, descending cur l -> cur <= QuicInteger.kEightByteLimit ->
  0 <= n -> n + zlen l < 2 ^ 61 -> 0 <= limit -> exists l1 l2, l = l1 ++ l2 /\ fillFrameWithAckBlocks l cur n limit = inr l1 /\
    zlen (blocks_bytes cur l1) + zlen (int_bytes (n + zlen l1)) - zlen (int_bytes n) <= limit.
Proof.
  induction l as [|i l IH]; intros cur n limit Hd Hc Hn Hl Hlim; [by apply taken_none|].
  destruct (descending_fits _ _ _ Hc Hd) as (H1 & H2 & H3 & H4 & H5). rewrite QuicInteger.zlen_cons in Hl. assert (0 <= zlen l) by (unfold zlen; lia).
  assert (Fn : fits n) by (apply fits_small; lia). assert (Fn1 : fits (n + 1)) by (apply fits_small; lia).
  cbn [fillFrameWithAckBlocks]. destruct (Z.ltb_spec cur (u64 (end_ i + 2))); [lia|].
  destruct (int_bytes_ok _ H1) as (_ & -> & _). destruct (int_bytes_ok _ H2) as (_ & -> & _).
  destruct (int_bytes_ok _ Fn1) as (_ & -> & _). destruct (int_bytes_ok _ Fn) as (_ & -> & _). rewrite !W_bind_inr.
  destruct (Z.ltb_spec limit (zlen (int_bytes (cur - end_ i - 2)) + zlen (int_bytes (end_ i - start i)) +
    (zlen (int_bytes (n + 1)) - zlen (int_bytes n)))); [by apply taken_none|].
  destruct (IH (start i) (n + 1) (limit - (zlen (int_bytes (cur - end_ i - 2)) + zlen (int_bytes (end_ i - start i)) +
    (zlen (int_bytes (n + 1)) - zlen (int_bytes n))))) as (l1 & l2 & -> & -> & Hle); [done|done|lia|lia|lia|].
  exists (i :: l1), l2. split_and!; [done..|]. cbn [blocks_bytes]. rewrite !zlen_app, QuicInteger.zlen_cons.
  replace (n + (1 + zlen l1)) with (n + 1 + zlen l1) by lia. lia.
Qed.

Lemma writeAckBlocks_ok l : forall cur b, descending cur l -> cur <= QuicInteger.kEightByteLimit -> builder_ok b ->
  writeAckBlocks l cur b = inr (append (blocks_bytes cur l) b).
Proof.
  induction l as [|i l IH]; intros cur b Hd Hc Hb; [by rewrite append_nil|].
  destruct (descending_fits _ _ _ Hc Hd) as (H1 & H2 & H3 & H4 & H5). cbn [writeAckBlocks blocks_bytes].
  destruct (Z.ltb_spec cur (u64 (end_ i + 2))); [lia|]. rewrite write_fits, W_bind_inr by done. rewrite write_fits, W_bind_inr by done.
  rewrite IH by (done || apply builder_append_ok). by rewrite !append_append.
Qed.

Definition to_block (i : Interval) : AckBlock := mkBlock (start i) (end_ i).

Lemma readAckBlocks_ok l : forall fuel cur k acc rest, descending cur l -> cur <= QuicInteger.kEightByteLimit ->
  (length l <= fuel)%nat -> bytes_ok rest ->
  readAckBlocks fuel k (k + zlen l) cur acc (blocks_bytes cur l ++ rest) = POk (acc ++ (to_block <$> l)) rest.
Proof.
  induction l as [|i l IH]; intros fuel cur k acc rest Hd Hc Hf Hr.
  - replace (k + zlen (@nil Interval)) with k by (unfold zlen; simpl; lia). destruct fuel; simpl; rewrite Z.ltb_irrefl, app_nil_r; done.
  - destruct (descending_fits _ _ _ Hc Hd) as (H1 & H2 & H3 & H4 & H5). destruct fuel as [|fuel]; simpl in Hf; [lia|].
    assert (Hi : 0 <= start i <= end_ i /\ end_ i + 2 <= cur) by (simpl in Hd; tauto).
    cbn [readAckBlocks blocks_bytes]. rewrite QuicInteger.zlen_cons. destruct (Z.ltb_spec k (k + (1 + zlen l))); [|unfold zlen in *; lia].
    rewrite <- !app_assoc.
    rewrite (pbind_ok _ _ _ (cur - end_ i - 2) (int_bytes (end_ i - start i) ++ blocks_bytes (start i) l ++ rest))
      by (apply (reads_integer _ _ H1); repeat (apply Forall_app; split); [apply int_bytes_ok; done|by apply blocks_bytes_ok|done]).
    rewrite (pbind_ok _ _ _ (end_ i - start i) (blocks_bytes (start i) l ++ rest))
      by (apply (reads_integer _ _ H2); apply Forall_app; split; [by apply blocks_bytes_ok|done]).
    unfold nextAckedPacketGap, nextAckedPacketLen. rewrite u64_id by (unfold fits, QuicInteger.kEightByteLimit in *; ilia).
    destruct (Z.ltb_spec cur (cur - end_ i - 2 + 2)); [lia|]. rewrite (pbind_ok _ _ _ (end_ i) (blocks_bytes (start i) l ++ rest)).
    2: { unfold mret, parser_ret. f_equal. lia. }
    destruct (Z.ltb_spec (end_ i) (end_ i - start i)); [lia|]. rewrite (pbind_ok _ _ _ (start i) (blocks_bytes (start i) l ++ rest)).
    2: { unfold mret, parser_ret. f_equal. lia. }
    replace (k + (1 + zlen l)) with (k + 1 + zlen l) by lia. rewrite IH by (done || lia). simpl. by rewrite <- app_assoc.
Qed.


(** A delay loses the bits below its exponent. *)
Definition rounded (exponent delay : Z) : Z := Z.shiftl (Z.shiftr delay exponent) exponent.

Lemma overflow_mask e : 0 < e < 64 -> u64 (Z.shiftl UINT64_MAX (64 - e)) = Z.shiftl (2 ^ e - 1) (64 - e).
Proof.
  intros He. rewrite !Z.shiftl_mul_pow2 by lia. unfold u64, UINT64_MAX.
  assert (E : 2 ^ 64 = 2 ^ e * 2 ^ (64 - e)) by (rewrite <- Z.pow_add_r by lia; f_equal; lia).
  pose proof (Z.pow_pos_nonneg 2 e ltac:(lia) ltac:(lia)). pose proof (Z.pow_pos_nonneg 2 (64 - e) ltac:(lia) ltac:(lia)).
  symmetry. apply Z.mod_unique with (2 ^ (64 - e) - 1); [left; nia|]. nia.
Qed.

Lemma reads_delay t e delay : 0 <= e < 64 -> 0 <= delay <= INT64_MAX ->
  reads (convertEncodedDurationToMicroseconds t e (Z.shiftr delay e)) [] (rounded e delay).
Proof.
  intros He Hd. unfold convertEncodedDurationToMicroseconds, rounded. destruct (Z.eqb_spec e 0) as [->|He0].
  { cbn [orb]. rewrite Z.shiftl_0_r. apply reads_ret. }
  destruct (Z.geb_spec e 64); [lia|]. cbn [orb]. rewrite overflow_mask by lia.
  assert (Hp : 0 < 2 ^ e) by (apply Z.pow_pos_nonneg; lia). assert (Hq : 0 < 2 ^ (64 - e)) by (apply Z.pow_pos_nonneg; lia).
  assert (E : 2 ^ 64 = 2 ^ e * 2 ^ (64 - e)) by (rewrite <- Z.pow_add_r by lia; f_equal; lia).
  assert (Hs : 0 <= Z.shiftr delay e < 2 ^ (64 - e) /\ 0 <= Z.shiftr delay e * 2 ^ e <= delay).
  { rewrite Z.shiftr_div_pow2 by lia. pose proof (Z.mul_div_le delay (2 ^ e) Hp). assert (0 <= delay / 2 ^ e) by (apply Z.div_pos; lia).
    split; [split; [done|apply Z.div_lt_upper_bound; [done|]; unfold INT64_MAX in *; lia]|nia]. }
  rewrite Z.land_comm, land_shiftl_low by lia. cbn [negb Z.eqb]. rewrite Z.shiftl_mul_pow2 by lia.
  rewrite u64_id by (unfold is_u64, INT64_MAX in *; lia). destruct (Z.gtb_spec (Z.shiftr delay e * 2 ^ e) INT64_MAX); [lia|]. apply reads_ret.
Qed.

(** What the receiver of an acknowledgement gets; a delay of more than 1000 s is dropped. *)
Definition received_delay (m : WriteAckFrameMetaData) : Z :=
  let d := rounded (ackDelayExponent m) (meta_ackDelay m) in if d >? 1000 * 1000 * 1000 then 0 else d.

Definition received_ack (m : WriteAckFrameMetaData) (w : WriteAck) : AckFrame :=
  mkAck (default 0 (end_ <$> head (w_ackBlocks w))) (received_delay m) (to_block <$> w_ackBlocks w) (w_frameType w) None None []
    (w_ect0 w) (w_ect1 w) (w_ce w).

Definition exponent_of (header : HeaderForm) (params : CodecParameters) : Z :=
  match header with Long => kDefaultAckDelayExponent | Short => peerAckDelayExponent params end.

Definition ack_ok (header : HeaderForm) (params : CodecParameters) (m : WriteAckFrameMetaData) : Prop :=
  ordered (-1) (acks (ackState m)) /\ Forall (fun i => end_ i <= QuicInteger.kEightByteLimit) (acks (ackState m)) /\
  zlen (acks (ackState m)) < 2 ^ 61 /\
  0 <= meta_ackDelay m <= QuicInteger.kEightByteLimit /\ ackDelayExponent m = exponent_of header params /\ 0 <= ackDelayExponent m < 64 /\
  is_u32 (ecnECT0CountReceived (ackState m)) /\ is_u32 (ecnECT1CountReceived (ackState m)) /\ is_u32 (ecnCECountReceived (ackState m)).

(** The fields between the type and the counts. *)
Definition ack_bytes (m : WriteAckFrameMetaData) (back : Interval) (additional : list Interval) : list Z :=
  int_bytes (end_ back) ++ int_bytes (Z.shiftr (meta_ackDelay m) (ackDelayExponent m)) ++ int_bytes (zlen additional) ++
  int_bytes (end_ back - start back) ++ blocks_bytes (start back) additional.

Lemma decodeAckFrame_ok header params m t back l :
  valid back -> end_ back <= QuicInteger.kEightByteLimit -> descending (start back) l -> zlen l < 2 ^ 61 ->
  0 <= meta_ackDelay m <= QuicInteger.kEightByteLimit -> ackDelayExponent m = exponent_of header params -> 0 <= ackDelayExponent m < 64 ->
  reads (decodeAckFrame header params t) (ack_bytes m back l)
    (mkAck (end_ back) (received_delay m) (to_block <$> back :: l) t None None [] 0 0 0).
Proof.
  intros [Hv _] Hb Hd Hl Hdel He He64. unfold decodeAckFrame, ack_bytes.
  assert (Hs : 0 <= Z.shiftr (meta_ackDelay m) (ackDelayExponent m) <= meta_ackDelay m).
  { rewrite Z.shiftr_div_pow2 by lia. pose proof (Z.pow_pos_nonneg 2 (ackDelayExponent m) ltac:(lia) ltac:(lia)).
    split; [apply Z.div_pos; lia|]. apply Z.div_le_upper_bound; nia. }
  eapply reads_bind; [apply reads_integer; unfold fits; lia|]. eapply reads_bind; [apply reads_integer; unfold fits; lia|].
  eapply reads_bind; [apply reads_integer, fits_small; unfold zlen in *; lia|]. eapply reads_bind; [apply reads_integer; unfold fits; lia|].
  eapply reads_bind_nil.
  { unfold nextAckedPacketLen. destruct (Z.ltb_spec (end_ back) (end_ back - start back)); [lia|]. apply reads_ret. }
  fold (exponent_of header params). rewrite <- He. eapply reads_bind_nil; [apply reads_delay; [done|]; unfold QuicInteger.kEightByteLimit, INT64_MAX in *; lia|].
  fold (received_delay m). replace (end_ back - (end_ back - start back)) with (start back) by lia.
  split; [apply blocks_bytes_ok; [done|lia]|]. intros rest Hr. rewrite (pbind_ok _ _ _ (S (length (blocks_bytes (start back) l ++ rest))) (blocks_bytes (start back) l ++ rest)) by done.
  rewrite (pbind_ok _ _ _ (to_block <$> back :: l) rest); [done|].
  pose proof (readAckBlocks_ok l (S (length (blocks_bytes (start back) l ++ rest))) (start back) 0 [mkBlock (start back) (end_ back)] rest) as Hread.
  rewrite Z.add_0_l in Hread. apply Hread; [done|lia| |done].
  pose proof (blocks_bytes_length l (start back) Hd ltac:(lia)). rewrite length_app. lia.
Qed.

Definition is_ack (t : Z) : Prop := t = FrameType.ACK \/ t = FrameType.ACK_ECN.

Definition ecn_bytes (m : WriteAckFrameMetaData) (t : Z) : list Z :=
  if t =? FrameType.ACK_ECN then
    int_bytes (ecnECT0CountReceived (ackState m)) ++ int_bytes (ecnECT1CountReceived (ackState m)) ++ int_bytes (ecnCECountReceived (ackState m))
  else [].

Definition written_ack (m : WriteAckFrameMetaData) (t : Z) (blocks : list Interval) : WriteAck :=
  if t =? FrameType.ACK_ECN then
    mkWriteAck blocks (meta_ackDelay m) t (ecnECT0CountReceived (ackState m)) (ecnECT1CountReceived (ackState m)) (ecnCECountReceived (ackState m))
      None None []
  else mkWriteAck blocks (meta_ackDelay m) t 0 0 0 None None [].

Lemma fits_u32 v : is_u32 v -> fits v.
Proof. intros H. apply fits_small. unfold_ints. lia. Qed.

Lemma ack_reads header params m t back l :
  is_ack t -> ack_ok header params m -> valid back -> end_ back <= QuicInteger.kEightByteLimit -> descending (start back) l -> zlen l < 2 ^ 61 ->
  frame_reads header params (int_bytes t ++ ack_bytes m back l ++ ecn_bytes m t) (ReadAckFrame (received_ack m (written_ack m t (back :: l)))).
Proof.
  intros Ht (_ & _ & _ & Hdel & He & He64 & H0 & H1 & H2) Hv Hb Hd Hl. pose proof (decodeAckFrame_ok header params m FrameType.ACK back l Hv Hb Hd Hl Hdel He He64) as Hr.
  destruct Ht as [-> | ->].
  - eapply parseFrame_reads; [apply fits_small; by vm_compute|done|reflexivity| |reflexivity].
    unfold ecn_bytes. cbn [Z.eqb]. change (FrameType.ACK =? FrameType.ACK_ECN) with false. rewrite app_nil_r. eapply reads_last; [exact Hr|apply reads_ret].
  - eapply parseFrame_reads; [apply fits_small; by vm_compute|done|reflexivity| |reflexivity].
    unfold ecn_bytes. change (FrameType.ACK_ECN =? FrameType.ACK_ECN) with true. cbv iota.
    eapply reads_last; [|apply reads_ret]. unfold decodeAckFrameWithECN. eapply reads_bind; [exact Hr|].
    eapply reads_bind; [apply reads_try; by apply fits_u32|]. eapply reads_bind; [apply reads_try; by apply fits_u32|].
    eapply reads_last; [apply reads_try; by apply fits_u32|]. rewrite !u32_id by done. apply reads_ret.
Qed.

Lemma reverse_acks (l : list Interval) back others : reverse l = back :: others -> ordered (-1) l ->
  valid back /\ back ∈ l /\ descending (start back) others /\ zlen others < zlen l.
Proof.
  intros E Ho. assert (El : l = reverse others ++ [back]) by (rewrite <- (reverse_involutive l), E; apply reverse_cons). rewrite El in Ho |- *.
  apply ordered_descending in Ho as [Hv Hd]. rewrite reverse_involutive in Hd. split_and!; try done.
  - set_solver.
  - rewrite zlen_app. unfold zlen. rewrite length_reverse. simpl. lia.
Qed.

(** The counts of an ACK_ECN frame fit into the packet. *)
Definition ecn_space (m : WriteAckFrameMetaData) (t : Z) (b : Builder) : Prop := zlen (ecn_bytes m t) <= remainingBytes_ b.

Lemma ack_space {A} m t b (k : Z -> W A) :
  builder_ok b -> ecn_space m t b ->
  is_u32 (ecnECT0CountReceived (ackState m)) -> is_u32 (ecnECT1CountReceived (ackState m)) -> is_u32 (ecnCECountReceived (ackState m)) ->
  ((if t =? FrameType.ACK_ECN then
      s0 ← getSize (ecnECT0CountReceived (ackState m));
      s1 ← getSize (ecnECT1CountReceived (ackState m));
      s2 ← getSize (ecnCECountReceived (ackState m));
      mret (u64 (remainingBytes_ b - (s0 + s1 + s2)))
    else mret (remainingBytes_ b)) ≫= k) = k (remainingBytes_ b - zlen (ecn_bytes m t)).
Proof.
  intros Hb Hs H0 H1 H2. unfold ecn_space, ecn_bytes in *. destruct (t =? FrameType.ACK_ECN).
  - rewrite !zlen_app in Hs. destruct (int_bytes_ok _ (fits_u32 _ H0)) as (_ & -> & ? & _). destruct (int_bytes_ok _ (fits_u32 _ H1)) as (_ & -> & ? & _).
    destruct (int_bytes_ok _ (fits_u32 _ H2)) as (_ & -> & ? & _). rewrite !W_bind_inr, W_bind_ret, !zlen_app. f_equal.
    unfold builder_ok in Hb. rewrite u64_id by ilia. lia.
  - rewrite W_bind_ret. f_equal. unfold zlen. simpl. lia.
Qed.

Lemma ack_counts_written m t blocks b :
  builder_ok b -> is_u32 (ecnECT0CountReceived (ackState m)) -> is_u32 (ecnECT1CountReceived (ackState m)) -> is_u32 (ecnCECountReceived (ackState m)) ->
  (if t =? FrameType.ACK_ECN then
     b ← write (ecnECT0CountReceived (ackState m)) b;
     b ← write (ecnECT1CountReceived (ackState m)) b;
     b ← write (ecnCECountReceived (ackState m)) b;
     mret (Some (mkWriteAck blocks (meta_ackDelay m) t (ecnECT0CountReceived (ackState m)) (ecnECT1CountReceived (ackState m))
                   (ecnCECountReceived (ackState m)) None None []), b)
   else mret (Some (mkWriteAck blocks (meta_ackDelay m) t 0 0 0 None None []), b)) = inr (Some (written_ack m t blocks), append (ecn_bytes m t) b).
Proof.
  intros Hb H0 H1 H2. unfold written_ack, ecn_bytes. destruct (t =? FrameType.ACK_ECN); [|by rewrite append_nil].
  do 3 (rewrite write_fits, W_bind_inr by (by apply fits_u32)). by rewrite !append_append.
Qed.

(** The fields that frames of every type have; [extra] bytes are kept free behind them. *)
Lemma writeAckFrameToPacketBuilder_ok header params m t b extra :
  is_ack t \/ t = FrameType.ACK_RECEIVE_TIMESTAMPS -> builder_ok b -> ack_ok header params m -> ecn_space m t b ->
  minTimestampFieldsSize m t = inr extra -> 0 <= extra ->
  writeAckFrameToPacketBuilder m t b = inr (None, b) \/ exists back l,
    let bs := int_bytes t ++ ack_bytes m back l ++ ecn_bytes m t in
    writeAckFrameToPacketBuilder m t b = inr (Some (written_ack m t (back :: l)), append bs b) /\
    1 <= zlen bs /\ zlen bs + extra <= remainingBytes_ b /\ last (acks (ackState m)) = Some back /\
    valid back /\ end_ back <= QuicInteger.kEightByteLimit /\ descending (start back) l /\ zlen l < 2 ^ 61.
Proof.
  intros Ht Hb Hok Hs Hextra Hx. pose proof Hok as (Ho & Hm & Hl & Hdel & He & He64 & H0 & H1 & H2). unfold writeAckFrameToPacketBuilder.
  destruct (reverse (acks (ackState m))) as [|back others] eqn:Erev; [by left|].
  destruct (reverse_acks _ _ _ Erev Ho) as (Hv & Hin & Hd & Hlen). rewrite Forall_forall in Hm. pose proof (Hm _ Hin) as Hmax. pose proof Hv as [Hv' _].
  rewrite ack_space by done. rewrite (u64_id (meta_ackDelay m)) by (unfold QuicInteger.kEightByteLimit in *; ilia).
  set (enc := Z.shiftr (meta_ackDelay m) (ackDelayExponent m)).
  assert (Fenc : fits enc).
  { unfold enc. rewrite Z.shiftr_div_pow2 by lia. pose proof (Z.pow_pos_nonneg 2 (ackDelayExponent m) ltac:(lia) ltac:(lia)).
    split; [apply Z.div_pos; lia|]. transitivity (meta_ackDelay m); [apply Z.div_le_upper_bound; nia|lia]. }
  assert (Ft : u8 t = t /\ fits t).
  { destruct Ht as [[-> | ->] | ->]; (split; [reflexivity|]); (apply fits_small; by vm_compute). }
  destruct Ft as (-> & Ft). assert (Fe : fits (end_ back)) by (unfold fits; lia).
  assert (Ff : fits (end_ back - start back)) by (unfold fits; lia). assert (F0 : fits 0) by (unfold fits; lia). rewrite Hextra.
  destruct (int_bytes_ok _ Ft) as (_ & -> & Ht8 & _). destruct (int_bytes_ok _ Fe) as (_ & -> & _). destruct (int_bytes_ok _ Fenc) as (_ & -> & _).
  destruct (int_bytes_ok _ F0) as (_ & -> & _). destruct (int_bytes_ok _ Ff) as (_ & -> & _). rewrite !W_bind_inr.
  set (size := _ + extra). set (space := remainingBytes_ b - _).
  destruct (Z.ltb_spec space size) as [|Hsp]; [by left|]. right.
  destruct (fillFrameWithAckBlocks_ok others (start back) 0 (space - size)) as (l1 & l2 & -> & -> & Hfit); [done|lia|lia|lia|lia|].
  assert (Hd1 : descending (start back) l1) by (by apply descending_prefix in Hd). rewrite zlen_app in Hlen.
  assert (Fl : fits (zlen l1)) by (apply fits_small; unfold zlen in *; lia).
  rewrite W_bind_inr. do 5 (rewrite write_fits, W_bind_inr by done). rewrite writeAckBlocks_ok, W_bind_inr by (done || lia || apply builder_append_ok).
  exists back, l1. cbv zeta. split.
  { rewrite ack_counts_written by (done || apply builder_append_ok). rewrite !append_append. unfold ack_bytes. rewrite <- !app_assoc. reflexivity. }
  split; [rewrite zlen_app; unfold zlen in *; lia|]. split.
  { unfold ack_bytes. fold enc. rewrite !zlen_app. rewrite Z.add_0_l in Hfit. unfold space, size in *. lia. }
  split; [rewrite <- (reverse_involutive (acks (ackState m))), Erev, reverse_cons; apply last_snoc|].
  split; [done|]. split; [done|]. split; [done|]. unfold zlen in *. lia.
Qed.

Lemma writeAckFrame_ok header params m t b :
  is_ack t -> builder_ok b -> ack_ok header params m -> ecn_space m t b ->
  (exists r, writeAckFrame m t b = inr (r, b) /\ r = None) \/ exists n w bs,
    writeAckFrame m t b = inr (Some (n, w), appendFrame (WriteAckFrame w) (append bs b)) /\
    1 <= zlen bs <= remainingBytes_ b /\ frame_reads header params bs (ReadAckFrame (received_ack m w)).
Proof.
  intros Ht Hb Hok Hs. unfold writeAckFrame.
  destruct (writeAckFrameToPacketBuilder_ok header params m t b 0) as [->|(back & l & -> & H1 & H2 & _ & H3 & H4 & H5 & H6)]; try done; [by left| | |].
  - unfold minTimestampFieldsSize. by destruct Ht as [-> | ->].
  - left. by eexists.
  - right. rewrite W_bind_inr. eexists _, _, _. split; [reflexivity|]. split; [lia|]. by apply ack_reads.
Qed.

End QuicFramesResults.
