(* ===== verification/QuicTimestamps.v ===== *)
(** * QUIC frames: timestamps of received packets

    An ACK_RECEIVE_TIMESTAMPS frame carries, besides the acknowledged packets, the times at
    which packets were received: for intervals of packet numbers from the largest down, the
    differences between the times of neighbours.  This file shows that what is written fits
    into the packet and is read back. *)

From S2P Require Import Prelude QuicInteger IntervalSet QuicFrames QuicFrameWriter QuicFramesResults.

Module QuicTimestamps.
Import IntervalSet QuicFrames QuicFrameWriter QuicFramesResults.

(** ** The bytes of ranges *)

Section ranges.
Variable e : Z.   (* the exponent of the deltas *)

Definition delta_ok (d : Z) : Prop := fits d /\ exists x, 0 <= x <= INT64_MAX /\ d = Z.shiftr x e.
Definition range_ok (r : RecvdPacketsTimestampsRange) : Prop :=
  fits (gap r) /\ timestamp_delta_count r = zlen (deltas r) /\ zlen (deltas r) < 2 ^ 60 /\ Forall delta_ok (deltas r).

Definition deltas_bytes (l : list Z) : list Z := mjoin (int_bytes <$> l).
Definition range_bytes (r : RecvdPacketsTimestampsRange) : list Z :=
  int_bytes (gap r) ++ int_bytes (timestamp_delta_count r) ++ deltas_bytes (deltas r).
Definition ranges_bytes (l : list RecvdPacketsTimestampsRange) : list Z := mjoin (range_bytes <$> l).

(** The deltas come back without the bits below the exponent. *)
Definition received_range (r : RecvdPacketsTimestampsRange) : RecvdPacketsTimestampsRange :=
  mkRange (gap r) (timestamp_delta_count r) ((fun d => Z.shiftl d e) <$> deltas r).

Lemma count_fits r : range_ok r -> fits (timestamp_delta_count r).
Proof. intros (_ & -> & H & _). apply fits_small. unfold zlen in *. lia. Qed.

Lemma writeDeltas_ok l : forall b, Forall delta_ok l -> builder_ok b -> writeDeltas l b = inr (append (deltas_bytes l) b).
Proof.
  induction l as [|d l IH]; intros b Hl Hb; [by rewrite append_nil|]. inversion Hl as [|? ? Hd Hl']; subst. simpl.
  rewrite write_fits by apply Hd. rewrite W_bind_inr, IH by (done || apply builder_append_ok). by rewrite append_append.
Qed.

Lemma writeRanges_ok l : forall b, Forall range_ok l -> builder_ok b -> writeRanges l b = inr (append (ranges_bytes l) b).
Proof.
  induction l as [|r l IH]; intros b Hl Hb; [by rewrite append_nil|]. inversion Hl as [|? ? Hr Hl']; subst. simpl.
  rewrite write_fits by apply Hr. rewrite W_bind_inr, write_fits by (by apply count_fits). rewrite W_bind_inr.
  rewrite writeDeltas_ok by (apply Hr || apply builder_append_ok). rewrite W_bind_inr, IH by (done || apply builder_append_ok).
  rewrite !append_append. unfold ranges_bytes, range_bytes. simpl. by rewrite <- !app_assoc.
Qed.

Lemma deltas_bytes_ok l : Forall delta_ok l -> bytes_ok (deltas_bytes l) /\ (length l <= length (deltas_bytes l))%nat.
Proof.
  induction 1 as [|d l Hd _ [IH1 IH2]]; [split; [constructor|simpl; lia]|]. destruct (int_bytes_ok d (proj1 Hd)) as (_ & _ & H1 & H2 & _).
  change (deltas_bytes (d :: l)) with (int_bytes d ++ deltas_bytes l). rewrite length_app. cbn [length]. split; [by apply Forall_app|unfold zlen in *; lia].
Qed.

Lemma range_bytes_ok r : range_ok r -> bytes_ok (range_bytes r) /\ (1 <= length (range_bytes r))%nat.
Proof.
  intros Hr. destruct (int_bytes_ok _ (proj1 Hr)) as (_ & _ & H1 & H2 & _). destruct (int_bytes_ok _ (count_fits r Hr)) as (_ & _ & _ & H3 & _).
  unfold range_bytes. rewrite length_app. split; [|unfold zlen in *; lia]. repeat (apply Forall_app; split); [done|done|].
  apply deltas_bytes_ok, Hr.
Qed.

Lemma ranges_bytes_ok l : Forall range_ok l -> bytes_ok (ranges_bytes l) /\ (length l <= length (ranges_bytes l))%nat.
Proof.
  induction 1 as [|r l Hr _ [IH1 IH2]]; [split; [constructor|simpl; lia]|]. destruct (range_bytes_ok r Hr) as [H1 H2].
  change (ranges_bytes (r :: l)) with (range_bytes r ++ ranges_bytes l). rewrite length_app. cbn [length]. split; [by apply Forall_app|lia].
Qed.

Hypothesis (He : 0 <= e < 64).

Lemma readDeltas_ok t l : forall fuel k acc rest, Forall delta_ok l -> (length l <= fuel)%nat -> bytes_ok rest ->
  readDeltas fuel t k (k + zlen l) e acc (deltas_bytes l ++ rest) = POk (acc ++ ((fun d => Z.shiftl d e) <$> l)) rest.
Proof.
  induction l as [|d l IH]; intros fuel k acc rest Hl Hf Hr.
  - replace (k + zlen (@nil Z)) with k by (unfold zlen; simpl; lia). destruct fuel; simpl; rewrite Z.ltb_irrefl, app_nil_r; done.
  - inversion Hl as [|? ? Hd Hl']; subst. destruct Hd as [Hfit (x & Hx & ->)]. destruct fuel as [|fuel]; simpl in Hf; [lia|].
    change (deltas_bytes (Z.shiftr x e :: l)) with (int_bytes (Z.shiftr x e) ++ deltas_bytes l). cbn [readDeltas].
    rewrite QuicInteger.zlen_cons. destruct (Z.ltb_spec k (k + (1 + zlen l))); [|unfold zlen in *; lia]. rewrite <- app_assoc.
    assert (Hrest : bytes_ok (deltas_bytes l ++ rest)) by (apply Forall_app; split; [by apply deltas_bytes_ok|done]).
    rewrite (pbind_ok _ _ _ (Z.shiftr x e) (deltas_bytes l ++ rest)) by (by apply (reads_integer _ _ Hfit)).
    destruct (reads_delay t e x He Hx) as [_ Hdel]. rewrite (pbind_ok _ _ _ (rounded e x) (deltas_bytes l ++ rest)) by (by apply Hdel).
    replace (k + (1 + zlen l)) with (k + 1 + zlen l) by lia. rewrite IH by (done || lia). simpl. by rewrite <- app_assoc.
Qed.

Lemma readTimestampRanges_ok t l : forall fuel k acc rest, Forall range_ok l -> (length l <= fuel)%nat -> bytes_ok rest ->
  readTimestampRanges fuel t k (k + zlen l) e acc (ranges_bytes l ++ rest) = POk (acc ++ (received_range <$> l)) rest.
Proof.
  induction l as [|r l IH]; intros fuel k acc rest Hl Hf Hr.
  - replace (k + zlen (@nil RecvdPacketsTimestampsRange)) with k by (unfold zlen; simpl; lia). destruct fuel; simpl; rewrite Z.ltb_irrefl, app_nil_r; done.
  - inversion Hl as [|? ? Hro Hl']; subst. destruct fuel as [|fuel]; simpl in Hf; [lia|].
    change (ranges_bytes (r :: l)) with (range_bytes r ++ ranges_bytes l). cbn [readTimestampRanges].
    rewrite QuicInteger.zlen_cons. destruct (Z.ltb_spec k (k + (1 + zlen l))); [|unfold zlen in *; lia]. unfold range_bytes. rewrite <- !app_assoc.
    set (tl := ranges_bytes l ++ rest). assert (Htl : bytes_ok tl) by (apply Forall_app; split; [by apply ranges_bytes_ok|done]).
    pose proof Hro as (Hg & Hcount & Hlen & Hds). pose proof (count_fits r Hro) as Hc. destruct (deltas_bytes_ok _ Hds) as [Hdb Hdl].
    assert (Hdt : bytes_ok (deltas_bytes (deltas r) ++ tl)) by (by apply Forall_app).
    assert (Hct : bytes_ok (int_bytes (timestamp_delta_count r) ++ deltas_bytes (deltas r) ++ tl)) by (apply Forall_app; split; [by apply int_bytes_ok|done]).
    rewrite (pbind_ok _ _ _ _ _ (proj2 (reads_integer FrameType.ACK_RECEIVE_TIMESTAMPS _ Hg) _ Hct)).
    rewrite (pbind_ok _ _ _ _ _ (proj2 (reads_integer FrameType.ACK_RECEIVE_TIMESTAMPS _ Hc) _ Hdt)).
    rewrite (pbind_ok _ _ _ (S (length (deltas_bytes (deltas r) ++ tl))) (deltas_bytes (deltas r) ++ tl)) by done.
    pose proof (readDeltas_ok t (deltas r) (S (length (deltas_bytes (deltas r) ++ tl))) 0 [] tl Hds) as Hread. rewrite Z.add_0_l, <- Hcount in Hread.
    rewrite (pbind_ok _ _ _ ([] ++ ((fun d => Z.shiftl d e) <$> deltas r)) tl) by (apply Hread; [rewrite length_app; lia|done]).
    replace (k + (1 + zlen l)) with (k + 1 + zlen l) by lia. unfold tl. rewrite IH by (done || lia). simpl. by rewrite <- app_assoc.
Qed.
End ranges.

(** ** Choosing the timestamps *)

(** The packets that are kept are in the order of their numbers and of their times, which are
    64-bit counts of nanoseconds. *)
Fixpoint newest_first (its : list ReceivedPacket) (prev : option ReceivedPacket) : Prop :=
  match its with
  | [] => True
  | it :: its => 0 <= receiveTimePoint it <= INT64_MAX /\
      match prev with Some p => receiveTimePoint it <= receiveTimePoint p <= INT64_MAX | None => True end /\ newest_first its (Some it)
  end.

Lemma microseconds_ok x : 0 <= x <= INT64_MAX -> 0 <= microseconds x < 2 ^ 54.
Proof. intros H. unfold microseconds, INT64_MAX in *. rewrite Z.quot_div_nonneg by lia. Z.div_mod_to_equations. lia. Qed.

Section choosing.
Variables (m : WriteAckFrameMetaData) (spaceLeft e : Z).
Hypotheses (He : 0 <= e < 64) (Hconn : 0 <= connTime m).

Definition duration (it : ReceivedPacket) (prev : option ReceivedPacket) : Z :=
  match prev with None => timestampDelta m it | Some newer => microseconds (receiveTimePoint newer - receiveTimePoint it) end.

Lemma duration_ok it its prev : newest_first (it :: its) prev -> 0 <= duration it prev < 2 ^ 54.
Proof.
  intros (H1 & H2 & _). unfold duration, timestampDelta. destruct prev as [p|]; [apply microseconds_ok; lia|].
  destruct (Z.gtb_spec (receiveTimePoint it) (connTime m)); [apply microseconds_ok; lia|lia].
Qed.

Lemma delta_duration x : 0 <= x < 2 ^ 54 -> u64 (Z.shiftr x e) = Z.shiftr x e /\ delta_ok e (Z.shiftr x e).
Proof.
  intros Hx. assert (H : 0 <= Z.shiftr x e <= x).
  { rewrite Z.shiftr_div_pow2 by lia. pose proof (Z.pow_pos_nonneg 2 e ltac:(lia) ltac:(lia)). split; [apply Z.div_pos; lia|apply Z.div_le_upper_bound; nia]. }
  split; [apply u64_id; ilia|]. split; [apply fits_small; lia|]. exists x. unfold INT64_MAX. split; [lia|done].
Qed.

(** The deltas of a range fit with its count and the count of the ranges. *)
Lemma fillRange_ok i cum n its : forall prev ds used, newest_first its prev -> Forall (delta_ok e) ds ->
  zlen ds + zlen its < 2 ^ 60 -> 0 <= n < 2 ^ 60 ->
  (ds = [] \/ cum + used + zlen (int_bytes (zlen ds)) + zlen (int_bytes (n + 1)) <= spaceLeft) ->
  exists ds' its' prev' (out : bool),
    fillRange m spaceLeft e i cum n its prev ds used = inr (ds', used + (zlen (deltas_bytes ds') - zlen (deltas_bytes ds)), its', prev', out) /\
    newest_first its' prev' /\ zlen its' <= zlen its /\ Forall (delta_ok e) ds' /\ zlen ds' < 2 ^ 60 /\
    (ds' = [] \/ cum + (used + (zlen (deltas_bytes ds') - zlen (deltas_bytes ds))) + zlen (int_bytes (zlen ds')) + zlen (int_bytes (n + 1)) <= spaceLeft).
Proof.
  induction its as [|it its IH]; intros prev ds used Hn Hd Hlen Hn0 Hs; cbn [fillRange].
  { exists ds, [], prev, false. replace (used + _) with used by lia. unfold zlen in *. simpl in *. split_and!; try done; lia. }
  destruct (_ && _).
  2: { exists ds, (it :: its), prev, false. replace (used + _) with used by lia. unfold zlen in *. simpl in *. split_and!; try done; try lia; apply Hn. }
  fold (duration it prev). pose proof (duration_ok _ _ _ Hn) as Hdur. destruct (delta_duration _ Hdur) as [-> Hok]. pose proof Hok as [Hfit _].
  set (d := Z.shiftr (duration it prev) e) in *. rewrite QuicInteger.zlen_cons in Hlen. assert (0 <= zlen its /\ 0 <= zlen ds) by (unfold zlen; lia).
  assert (F1 : fits (zlen ds + 1)) by (apply fits_small; lia). assert (F2 : fits (n + 1)) by (apply fits_small; lia).
  destruct (int_bytes_ok _ Hfit) as (_ & -> & _). destruct (int_bytes_ok _ F1) as (_ & -> & _). destruct (int_bytes_ok _ F2) as (_ & -> & _). rewrite !W_bind_inr.
  destruct (Z.ltb_spec spaceLeft (cum + used + zlen (int_bytes d) + zlen (int_bytes (zlen ds + 1)) + zlen (int_bytes (n + 1)))) as [Hlt|Hge].
  { exists ds, (it :: its), prev, true. replace (used + _) with used by lia. rewrite QuicInteger.zlen_cons. split_and!; try done; try lia; apply Hn. }
  assert (Hz : zlen (ds ++ [d]) = zlen ds + 1) by (rewrite zlen_app; done).
  assert (Hdb : zlen (deltas_bytes (ds ++ [d])) = zlen (deltas_bytes ds) + zlen (int_bytes d)).
  { unfold deltas_bytes. rewrite fmap_app, join_app, zlen_app. simpl. by rewrite app_nil_r. }
  destruct (IH (Some it) (ds ++ [d]) (used + zlen (int_bytes d))) as (ds' & its' & prev' & out & E & R1 & R2 & R3 & R4 & R5).
  - apply Hn.
  - apply Forall_app. split; [done|by constructor].
  - lia.
  - lia.
  - right. rewrite Hz. lia.
  - rewrite Hdb in E, R5. exists ds', its', prev', out. rewrite QuicInteger.zlen_cons.
    replace (used + (zlen (deltas_bytes ds') - zlen (deltas_bytes ds))) with (used + zlen (int_bytes d) + (zlen (deltas_bytes ds') - (zlen (deltas_bytes ds) + zlen (int_bytes d)))) by lia.
    split_and!; try done; lia.
Qed.

Lemma descending_below cur l : descending cur l -> Forall (fun i => 0 <= end_ i /\ end_ i + 2 <= cur) l.
Proof.
  revert cur. induction l as [|i l IH]; intros cur; [constructor|]. simpl. intros (H1 & H2 & H3). constructor; [lia|].
  eapply Forall_impl; [by apply IH|]. simpl. lia.
Qed.

(** The numbers below [prevPktNum] that the next gap can name. *)
Definition below (ranges : list RecvdPacketsTimestampsRange) (prevPktNum : Z) (i : Interval) : Prop :=
  0 <= end_ i /\ (match ranges with [] => end_ i | _ => end_ i + 2 end) <= prevPktNum.

Lemma fillRanges_ok ivs : forall cur prevPktNum cum its prev ranges,
  descending cur ivs -> Forall (below ranges prevPktNum) ivs -> prevPktNum <= QuicInteger.kEightByteLimit ->
  newest_first its prev -> zlen its < 2 ^ 60 -> zlen ranges + zlen ivs < 2 ^ 60 -> Forall (range_ok e) ranges ->
  cum = zlen (ranges_bytes ranges) -> (ranges = [] \/ cum + zlen (int_bytes (zlen ranges)) <= spaceLeft) ->
  exists l, fillRanges m spaceLeft e ivs prevPktNum cum its prev ranges = inr l /\ Forall (range_ok e) l /\ zlen l < 2 ^ 60 /\
    (l = [] \/ zlen (ranges_bytes l) + zlen (int_bytes (zlen l)) <= spaceLeft).
Proof.
  induction ivs as [|i ivs IH]; intros cur pn cum its prev ranges Hd Hb Hpn Hn Hits Hlen Hr Hcum Hsp; cbn [fillRanges].
  { exists ranges. unfold zlen in Hlen at 2. simpl in Hlen. split_and!; try done; [lia|]. by rewrite <- Hcum. }
  inversion Hb as [|? ? Hbi Hb']; subst. rewrite QuicInteger.zlen_cons in Hlen. assert (Hz : 0 <= zlen ranges /\ 0 <= zlen ivs) by (unfold zlen; lia).
  simpl in Hd. destruct Hd as (Hi & Hcur & Hd). set (g := match ranges with [] => u64 (pn - end_ i) | _ => u64 (pn - 2 - end_ i) end).
  assert (Hg : fits g).
  { unfold g, below, fits, QuicInteger.kEightByteLimit in *. destruct ranges; rewrite u64_id by ilia; lia. }
  destruct (int_bytes_ok _ Hg) as (_ & -> & _). rewrite W_bind_inr.
  destruct (fillRange_ok i (zlen (ranges_bytes ranges)) (zlen ranges) its prev [] (zlen (int_bytes g)) Hn (Forall_nil_2 _)) as (ds & its' & prev' & out & -> & R1 & R2 & R3 & R4 & R5);
    [unfold zlen in *; simpl; lia|lia|by left|]. rewrite W_bind_inr. change (zlen (deltas_bytes [])) with 0 in *. rewrite Z.sub_0_r in *.
  destruct (Z.gtb_spec (zlen ds) 0) as [Hds|Hds].
  - assert (Fd : fits (zlen ds)) by (apply fits_small; lia). destruct (int_bytes_ok _ Fd) as (_ & -> & _). rewrite !W_bind_inr, W_bind_ret.
    destruct R5 as [->|R5]; [unfold zlen in Hds; simpl in Hds; lia|].
    set (r := mkRange g (zlen ds) ds). assert (Hro : range_ok e r) by (split_and!; try done; apply Hg).
    assert (Hall : Forall (range_ok e) (ranges ++ [r])) by (apply Forall_app; split; [done|by constructor]).
    assert (Hzr : zlen (ranges ++ [r]) = zlen ranges + 1) by (by rewrite zlen_app).
    assert (Hbytes : zlen (ranges_bytes (ranges ++ [r])) = zlen (ranges_bytes ranges) + (zlen (int_bytes g) + zlen (deltas_bytes ds) + zlen (int_bytes (zlen ds)))).
    { unfold ranges_bytes. rewrite fmap_app, join_app, zlen_app. simpl. rewrite app_nil_r. unfold range_bytes. simpl. rewrite !zlen_app. lia. }
    destruct out.
    + exists (ranges ++ [r]). split_and!; try done; [lia|]. right. rewrite Hbytes, Hzr. lia.
    + apply (IH (start i)); try done; try lia.
      * eapply Forall_impl; [by apply descending_below|]. simpl. intros x Hx. unfold below. destruct (ranges ++ [r]) eqn:E; [by apply app_nil in E as [_ ?]|]. lia.
      * unfold QuicInteger.kEightByteLimit, below in *. destruct ranges; lia.
      * right. rewrite Hzr. lia.
  - rewrite W_bind_ret. destruct out; [exists ranges; split_and!; try done; lia|].
    apply (IH (start i)); try done; lia.
Qed.
End choosing.


(** The intervals of received packets. *)
Lemma length_interval_insert s i : (length (intervals (insert s i)) <= S (length (intervals s)))%nat.
Proof.
  unfold insert, intersectingRange. set (f := first_touching _ _). set (n := touching_run _ _). case_decide; simpl.
  - unfold insert_at. rewrite length_app, length_cons, length_take, length_drop. lia.
  - repeat case_match; simpl; try lia; unfold erase; rewrite length_app, length_take, length_drop, length_insert; lia.
Qed.

Lemma recvdIntervals_ok top infos : forall n s, top < UINT64_MAX -> Forall (fun r => 0 <= pktNum r <= top) infos ->
  wf s -> (forall p, member (intervals s) p -> p <= top) ->
  exists s', recvdIntervals infos n s = inr s' /\ wf s' /\ (forall p, member (intervals s') p -> p <= top) /\
    zlen (intervals s') <= zlen (intervals s) + zlen infos.
Proof.
  induction infos as [|r infos IH]; intros n s Ht Hi Hw Hm; cbn [recvdIntervals].
  { exists s. unfold zlen. simpl. split_and!; (done || lia). }
  inversion Hi as [|? ? Hr Hi']; subst. destruct (n =? 0).
  { exists s. rewrite QuicInteger.zlen_cons. unfold zlen. split_and!; (done || lia). }
  unfold insert_point. rewrite IntervalSetResults.make_ok by lia. simpl.
  destruct (interval_insert_ok s (mkInterval (pktNum r) (pktNum r)) Hw) as [Hw' Hm']; [split; simpl; lia|].
  destruct (IH (n - 1) (insert s (mkInterval (pktNum r) (pktNum r)))) as (s' & E & H1 & H2 & H3); try done.
  { intros p [H|H]%Hm'; [by apply Hm|]. unfold has in H. simpl in H. lia. }
  exists s'. split_and!; try done. pose proof (length_interval_insert s (mkInterval (pktNum r) (pktNum r))).
  rewrite QuicInteger.zlen_cons. unfold zlen in *. lia.
Qed.

Lemma wf_descending s top : wf s -> (forall p, member (intervals s) p -> p <= top) ->
  exists cur, descending cur (reverse (intervals s)) /\ Forall (fun i => 0 <= end_ i <= top) (reverse (intervals s)).
Proof.
  intros Hw Hm. unfold wf in Hw. assert (Hall : Forall (fun i => 0 <= end_ i <= top) (intervals s)).
  { apply Forall_forall. intros i Hi. pose proof (ordered_Forall _ _ Hw) as Hv. rewrite Forall_forall in Hv. destruct (Hv i Hi) as [[H1 H2] _].
    split; [lia|]. apply Hm, Exists_exists. exists i. split; [done|]. unfold has. lia. }
  destruct (intervals s) as [|i l _] using rev_ind; [exists 0; split; [done|constructor]|].
  destruct (ordered_descending _ _ _ Hw) as [Hv Hd]. exists (end_ i + 2). rewrite reverse_snoc. split.
  - simpl. destruct Hv. split_and!; [lia..|done].
  - apply Forall_app in Hall as [H1 H2]. inversion H2; subst. constructor; [done|]. rewrite Forall_forall in H1 |- *. intros x Hx%elem_of_reverse.
    rewrite reverse_involutive in Hx. by apply H1.
Qed.

(** ** The frame *)

Definition timestamps_ok (params : CodecParameters) (m : WriteAckFrameMetaData) (e : Z) : Prop :=
  e = default kDefaultReceiveTimestampsExponent (receiveTimestampsExponent params) /\ 0 <= e < 64 /\ 0 <= connTime m /\
  newest_first (reverse (recvdPacketInfos (ackState m))) None /\ zlen (recvdPacketInfos (ackState m)) < 2 ^ 59 /\
  Forall (fun r => 0 <= pktNum r <= default 0 (end_ <$> last (acks (ackState m)))) (recvdPacketInfos (ackState m)) /\
  match lastRecvdPacketInfo (ackState m) with Some r => fits (pktNum r) /\ 0 <= receiveTimePoint r <= INT64_MAX | None => False end.

Definition received_timestamps (e : Z) (m : WriteAckFrameMetaData) (w : WriteAck) : AckFrame :=
  mkAck (default 0 (end_ <$> head (w_ackBlocks w))) (received_delay m) (to_block <$> w_ackBlocks w) (w_frameType w)
    (w_latestRecvdPacketTime w) (w_latestRecvdPacketNum w) (received_range e <$> w_timestampRanges w) 0 0 0.

Lemma fillPacketReceiveTimestamps_ok m space e top n :
  0 <= e < 64 -> 0 <= connTime m -> newest_first (reverse (recvdPacketInfos (ackState m))) None -> zlen (recvdPacketInfos (ackState m)) < 2 ^ 59 ->
  Forall (fun r => 0 <= pktNum r <= top) (recvdPacketInfos (ackState m)) -> top <= QuicInteger.kEightByteLimit ->
  exists l, fillPacketReceiveTimestamps m space e top n = inr l /\ Forall (range_ok e) l /\ zlen l < 2 ^ 60 /\
    (l = [] \/ zlen (ranges_bytes l) + zlen (int_bytes (zlen l)) <= space).
Proof.
  intros He Hc Hn Hz Hp Ht. unfold fillPacketReceiveTimestamps. destruct (recvdPacketInfos (ackState m)) as [|r0 rs] eqn:E.
  { exists []. split_and!; [done|constructor|by vm_compute|by left]. }
  rewrite <- E in *. destruct (recvdIntervals_ok top (recvdPacketInfos (ackState m)) n IntervalSet.empty) as (s & -> & Hw & Hm & Hl);
    [unfold QuicInteger.kEightByteLimit, UINT64_MAX in *; lia|done|done|by intros p H%Exists_nil|]. rewrite W_bind_inr.
  destruct (wf_descending s top Hw Hm) as (cur & Hd & Hb). change (zlen (intervals IntervalSet.empty)) with 0 in Hl.
  assert (Hrev : forall A (l : list A), zlen (reverse l) = zlen l) by (intros A l; unfold zlen; by rewrite length_reverse).
  apply (fillRanges_ok m space e He Hc _ cur); try done; rewrite ?Hrev; try lia.
  - change (zlen (@nil RecvdPacketsTimestampsRange)) with 0. lia.
  - by left.
Qed.

(** The reader takes as many steps as there are bytes at most. *)
Lemma reads_ranges e t rs : 0 <= e < 64 -> Forall (range_ok e) rs ->
  reads (fuel ← (fun cursor => POk (S (length cursor)) cursor); readTimestampRanges fuel t 0 (zlen rs) e []) (ranges_bytes rs) (received_range e <$> rs).
Proof.
  intros He Hr. destruct (ranges_bytes_ok e rs Hr) as [Hb Hl]. split; [done|]. intros rest Hrest.
  rewrite (pbind_ok _ _ _ (S (length (ranges_bytes rs ++ rest))) (ranges_bytes rs ++ rest)) by done.
  change (zlen rs) with (0 + zlen rs). rewrite readTimestampRanges_ok by (done || (rewrite length_app; lia)). done.
Qed.

Lemma timestamps_reads header params m e back l n d rs :
  ack_ok header params m -> valid back -> end_ back <= QuicInteger.kEightByteLimit -> descending (start back) l -> zlen l < 2 ^ 61 ->
  e = default kDefaultReceiveTimestampsExponent (receiveTimestampsExponent params) -> 0 <= e < 64 ->
  fits n -> fits d -> fits (zlen rs) -> Forall (range_ok e) rs ->
  let t := FrameType.ACK_RECEIVE_TIMESTAMPS in
  frame_reads header params (int_bytes t ++ ack_bytes m back l ++ int_bytes n ++ int_bytes d ++ int_bytes (zlen rs) ++ ranges_bytes rs)
    (ReadAckFrame (mkAck (end_ back) (received_delay m) (to_block <$> back :: l) t (Some d) (Some n) (received_range e <$> rs) 0 0 0)).
Proof.
  intros (_ & _ & _ & Hdel & Hde & Hde64 & _) Hv Hb Hd Hl -> He Fn Fd Fr Hr t.
  eapply parseFrame_reads; [apply fits_small; by vm_compute|done|reflexivity| |reflexivity]. eapply reads_last; [|apply reads_ret].
  unfold decodeAckFrameWithReceivedTimestamps. eapply reads_bind; [by apply decodeAckFrame_ok|].
  eapply reads_bind; [by apply reads_integer|]. eapply reads_bind; [by apply reads_integer|]. eapply reads_bind; [by apply reads_integer|].
  destruct (reads_ranges _ t rs He Hr) as [Hbr Hrr]. split; [done|]. intros rest Hrest. specialize (Hrr rest Hrest).
  rewrite (pbind_ok _ _ _ (S (length (ranges_bytes rs ++ rest))) (ranges_bytes rs ++ rest)) in Hrr by done.
  rewrite (pbind_ok _ _ _ (S (length (ranges_bytes rs ++ rest))) (ranges_bytes rs ++ rest)) by done.
  by rewrite (pbind_ok _ _ _ _ _ Hrr).
Qed.

Lemma writeTimestamps_ok header params m e n b :
  builder_ok b -> ack_ok header params m -> timestamps_ok params m e ->
  writeAckFrameWithReceivedTimestamps m e n b = inr (None, b) \/ exists k w bs,
    writeAckFrameWithReceivedTimestamps m e n b = inr (Some (k, w), appendFrame (WriteAckFrame w) (append bs b)) /\
    1 <= zlen bs <= remainingBytes_ b /\ frame_reads header params bs (ReadAckFrame (received_timestamps e m w)).
Proof.
  intros Hb Hok (Hee & He & Hc & Hn & Hz & Hp & Hlast). unfold writeAckFrameWithReceivedTimestamps.
  destruct (lastRecvdPacketInfo (ackState m)) as [r|] eqn:El; [|done]. destruct Hlast as [Fp Htime].
  set (delta := timestampDelta m r). assert (Hdelta : 0 <= delta < 2 ^ 54).
  { unfold delta, timestampDelta. destruct (_ >? _) eqn:G; [|lia]. apply Z.gtb_lt in G. apply microseconds_ok. lia. }
  assert (Fd : fits delta) by (apply fits_small; lia). assert (Hud : u64 delta = delta) by (apply u64_id; ilia).
  assert (Hsz : forall v, fits v -> default 0 (QuicInteger.getQuicIntegerSize v) = zlen (int_bytes v)).
  { intros v Hv. destruct (int_bytes_ok v Hv) as (_ & E & _). unfold getSize in E. destruct (QuicInteger.getQuicIntegerSize v); [|done]. by injection E as ->. }
  set (t := FrameType.ACK_RECEIVE_TIMESTAMPS).
  destruct (writeAckFrameToPacketBuilder_ok header params m t b (1 + zlen (int_bytes (pktNum r)) + zlen (int_bytes delta)))
    as [->|(back & l & -> & H1 & H2 & Hback & H3 & H4 & H5 & H6)]; try done.
  - by right.
  - unfold ecn_space. change (zlen (ecn_bytes m t)) with 0. apply Hb.
  - unfold minTimestampFieldsSize. change (t =? FrameType.ACK_RECEIVE_TIMESTAMPS) with true. cbv iota. rewrite El. fold delta. rewrite Hud, !Hsz by (done || by apply fits_small). done.
  - unfold zlen. lia.
  - by left.
  - right. rewrite W_bind_inr, Hud. rewrite write_fits, W_bind_inr by done. rewrite write_fits, W_bind_inr by done.
    rewrite !append_append, <- !app_assoc. change (ecn_bytes m t) with (@nil Z) in *. rewrite app_nil_l. rewrite app_nil_r in *. set (bs0 := int_bytes t ++ _).
    assert (Hbs0 : zlen bs0 + 1 <= remainingBytes_ b) by (unfold bs0; rewrite !zlen_app in *; lia).
    assert (Hrem : remainingBytes_ (append bs0 b) = remainingBytes_ b - zlen bs0).
    { unfold append, builder_ok in *. simpl. apply u32_id. unfold zlen in *. ilia. }
    destruct (Z.gtb_spec (remainingBytes_ (append bs0 b)) 0); [|lia]. rewrite Hback in *.
    change (default 0 (end_ <$> Some back)) with (end_ back) in *.
    destruct (fillPacketReceiveTimestamps_ok m (remainingBytes_ (append bs0 b)) e (end_ back) n) as (rs & -> & Hr1 & Hr2 & Hr3); try done.
    rewrite W_bind_inr. assert (Fr : fits (zlen rs)) by (apply fits_small; unfold zlen in *; lia).
    rewrite write_fits, W_bind_inr by done. rewrite writeRanges_ok with (e := e) by (done || apply builder_append_ok). rewrite !W_bind_inr, W_bind_ret.
    rewrite !append_append. eexists _, _, _. split; [reflexivity|]. split.
    + assert (H0 : zlen rs = 0 -> zlen (int_bytes (zlen rs)) = 1) by (intros ->; done).
      assert (Hle : zlen (int_bytes (zlen rs) ++ ranges_bytes rs) <= remainingBytes_ (append bs0 b)).
      { rewrite zlen_app. destruct Hr3 as [-> |]; [|lia]. rewrite H0 by done. change (zlen (ranges_bytes [])) with 0. lia. }
      assert (H1' : zlen (bs0 ++ int_bytes (zlen rs) ++ ranges_bytes rs) = zlen bs0 + zlen (int_bytes (zlen rs) ++ ranges_bytes rs)) by apply zlen_app.
      assert (Hb0 : zlen (int_bytes t ++ ack_bytes m back l) <= zlen bs0) by (unfold bs0; rewrite !zlen_app; unfold zlen; lia).
      assert (0 <= zlen (int_bytes (zlen rs) ++ ranges_bytes rs)) by (unfold zlen; lia). lia.
    + unfold bs0. rewrite <- !app_assoc. by apply timestamps_reads.
Qed.


(** ** When more packets are kept than the peer asked for *)

Lemma recvdIntervals_enough x infos : forall n s, 0 <= n <= zlen infos -> recvdIntervals (infos ++ [x]) n s = recvdIntervals infos n s.
Proof.
  induction infos as [|r infos IH]; intros n s Hn; cbn [recvdIntervals app].
  - unfold zlen in Hn. simpl in Hn. by replace n with 0 by lia.
  - rewrite QuicInteger.zlen_cons in Hn. destruct (Z.eqb_spec n 0); [done|]. destruct (IntervalSet.insert_point s (pktNum r)); [|done]. apply IH. lia.
Qed.

(** Intervals that end below the newest packet take none of its timestamps, nor any other. *)
Lemma fillRanges_below m space e it its ivs : forall top cum,
  Forall (fun i => 0 <= end_ i < pktNum it) ivs -> pktNum it <= top <= QuicInteger.kEightByteLimit ->
  fillRanges m space e ivs top cum (it :: its) None [] = inr [].
Proof.
  induction ivs as [|i ivs IH]; intros top cum Hi Ht; [done|]. inversion Hi as [|? ? H1 H2]; subst. cbn [fillRanges].
  assert (Fg : fits (u64 (top - end_ i))) by (unfold fits, QuicInteger.kEightByteLimit in *; rewrite u64_id by ilia; lia).
  destruct (int_bytes_ok _ Fg) as (_ & -> & _). rewrite W_bind_inr. cbn [fillRange].
  destruct (Z.leb_spec (pktNum it) (end_ i)); [lia|]. rewrite andb_false_r. by apply IH.
Qed.

(** The intervals are made of the packets that were received first, but the timestamps are
    taken from the packet that was received last: if not all the packets that are kept may be
    sent, then none is. *)
Lemma timestamps_dropped m space e top n infos newest :
  recvdPacketInfos (ackState m) = infos ++ [newest] -> Forall (fun r => 0 <= pktNum r < pktNum newest) infos ->
  0 <= n <= zlen infos -> pktNum newest <= top <= QuicInteger.kEightByteLimit ->
  fillPacketReceiveTimestamps m space e top n = inr [].
Proof.
  intros Hi Hf Hn Ht. unfold fillPacketReceiveTimestamps. rewrite Hi, recvdIntervals_enough, reverse_snoc by done.
  destruct (recvdIntervals_ok (pktNum newest - 1) infos n IntervalSet.empty) as (s & -> & Hw & Hm & _); [|eapply Forall_impl; [exact Hf|simpl; lia]|done|by intros p H%Exists_nil|].
  { unfold QuicInteger.kEightByteLimit, UINT64_MAX in *. lia. }
  rewrite W_bind_inr. destruct (wf_descending s _ Hw Hm) as (_ & _ & Hb).
  assert (E : forall x : W (list RecvdPacketsTimestampsRange), x = inr [] -> match infos ++ [newest] with [] => mret [] | _ => x end = inr []) by (intros x ->; by destruct infos).
  apply E, fillRanges_below; [|done]. eapply Forall_impl; [exact Hb|simpl; lia].
Qed.

End QuicTimestamps.
