(* ===== verification/QuicPackets.v ===== *)
(** * QUIC packets: a packet is read as it was written

    A packet is built by a sequence of writes, each of which may find too little space and
    write nothing, and is padded at its end.  The theorems say that the payload is read back
    as the frames that were written, in their order, if they are frames that can be read
    back ([write_ok]); the three kinds of frames that are written and cannot are
    [group_frame_unreadable], [close_frame_unreadable] and [ack_ecn_overruns].  The reader
    survives any payload. *)

From S2P Require Import Prelude QuicInteger IntervalSet QuicStream QuicFlowControl QuicSend QuicFrames QuicFrameWriter QuicFramesResults QuicTimestamps.

Module QuicPackets.
Import QuicFrames QuicFrameWriter QuicFramesResults QuicTimestamps.

(** ** Writes *)

Inductive Write :=
| Control (f : QuicWriteFrame)
| StreamData (id : Z) (group : option Z) (offset : Z) (data : list Z) (flowControlLen : Z) (fin : bool) (skipLenHint : option bool)
| CryptoData (offset : Z) (data : list Z)
| Ack (m : WriteAckFrameMetaData) (frameType : Z)
| AckTimestamps (m : WriteAckFrameMetaData) (receiveTimestampsExponent maxRecvTimestampsToSend : Z).

(** The builder after a write and the frame that its receiver should get, if one was
    written. *)
Definition perform (w : Write) (b : Builder) : W (Builder * list QuicFrame) :=
  match w with
  | Control f =>
      '(n, b) ← writeFrame f b;
      mret (b, if n =? 0 then [] else match as_read f with Some g => [g] | None => [] end)
  | StreamData id group offset data flowControlLen fin skipLenHint =>
      '(r, b) ← writeStreamFrameHeader b id offset (zlen data) flowControlLen fin skipLenHint group true;
      match r with
      | None => mret (b, [])
      | Some n =>
          mret (writeStreamFrameData b data n, [ReadStreamFrame id group offset (take (Z.to_nat n) data) (fin && (n =? zlen data))])
      end
  | CryptoData offset data =>
      '(r, b) ← writeCryptoFrame offset data b;
      mret (b, match r with None => [] | Some n => [ReadCryptoFrame offset (take (Z.to_nat n) data)] end)
  | Ack m t =>
      '(r, b) ← writeAckFrame m t b;
      mret (b, match r with None => [] | Some (_, f) => [ReadAckFrame (received_ack m f)] end)
  | AckTimestamps m e max =>
      '(r, b) ← writeAckFrameWithReceivedTimestamps m e max b;
      mret (b, match r with None => [] | Some (_, f) => [ReadAckFrame (received_timestamps e m f)] end)
  end.

Fixpoint perform_all (ws : list Write) (b : Builder) : W (Builder * list QuicFrame) :=
  match ws with
  | [] => mret (b, [])
  | w :: ws =>
      '(b, f) ← perform w b;
      '(b, fs) ← perform_all ws b;
      mret (b, f ++ fs)
  end.

(** A stream frame that fills the rest of the packet is written without its length. *)
Definition fills (id : Z) (group : option Z) (offset : Z) (data : list Z) (flowControlLen : Z) (b : Builder) : bool :=
  let headerSize := 1 + zlen (int_bytes id) + zlen (group_bytes group) + zlen (offset_bytes offset) in
  (headerSize <? remainingBytes_ b) && (remainingBytes_ b <=? headerSize + Z.min (zlen data) flowControlLen).

(** The writes that can be read back.  The numbers are QUIC integers and the limits are those
    that the reader enforces; a stream frame has data or ends its stream, and the
    caller does not ask to leave out its length (the schedulers give no hint); CRYPTO data of a
    packet has a length of two bytes.  Three things that the writers do write are left out,
    because they are not read back: a frame of a stream group that fills the packet
    ([group_frame_unreadable]), a CONNECTION_CLOSE that names a frame type of more than one
    byte ([close_frame_unreadable], in [control_ok]), and an ACK_ECN frame without space for
    its counts ([ack_ecn_overruns]). *)
Definition write_ok (header : HeaderForm) (params : CodecParameters) (w : Write) (b : Builder) : Prop :=
  match w with
  | Control f => control_ok f /\ (f = WSimpleFrame HandshakeDoneFrame -> shortHeader b = true)
  | StreamData id group offset data flowControlLen fin hint =>
      fits id /\ group_fits group /\ fits offset /\ bytes_ok data /\ zlen data < 2 ^ 61 /\ 0 <= flowControlLen /\
      (data <> [] \/ fin = true) /\ hint <> Some true /\
      (group = None \/ hint = Some false \/ fills id group offset data flowControlLen b = false)
  | CryptoData offset data => fits offset /\ bytes_ok data /\ Z.min (zlen data) (remainingBytes_ b) <= QuicInteger.kTwoByteLimit
  | Ack m t => is_ack t /\ ack_ok header params m /\ ecn_space m t b
  | AckTimestamps m e _ => ack_ok header params m /\ timestamps_ok params m e
  end.

Fixpoint writes_ok (header : HeaderForm) (params : CodecParameters) (ws : list Write) (b : Builder) : Prop :=
  match ws with
  | [] => True
  | w :: ws => write_ok header params w b /\
      match perform w b with inr (b', _) => writes_ok header params ws b' | inl _ => True end
  end.

(** ** What the sender records *)

(** The frame that is kept for acknowledgement and loss says what the receiver gets. *)
Definition records (w : QuicWriteFrame) (f : QuicFrame) : Prop :=
  match w, f with
  | WPaddingFrame _, PaddingFrame _ => True
  | WriteStreamFrame id g o n e, ReadStreamFrame id' g' o' d e' => id = id' /\ g = g' /\ o = o' /\ n = zlen d /\ e = e'
  | WriteCryptoFrame o n, ReadCryptoFrame o' d => o = o' /\ n = zlen d
  | WriteAckFrame a, ReadAckFrame r => to_block <$> w_ackBlocks a = ackBlocks r /\ w_frameType a = frameType r
  | _, _ => as_read w = Some f
  end.

Definition isWPadding (w : QuicWriteFrame) : bool := match w with WPaddingFrame _ => true | _ => false end.

Definition push_write (l : list QuicWriteFrame) (w : QuicWriteFrame) : list QuicWriteFrame :=
  match last l, w with
  | Some (WPaddingFrame n), WPaddingFrame _ => removelast l ++ [WPaddingFrame (u16 (n + 1))]
  | _, WPaddingFrame _ => l ++ [WPaddingFrame 1]
  | _, _ => l ++ [w]
  end.

Lemma records_padding w f : records w f -> isWPadding w = isPadding f.
Proof.
  destruct w as [| |[]| | | | | | | | |[]| | | |], f; simpl; try done; intros [=].
Qed.

Lemma push_records l l' w f : Forall2 records l l' -> records w f -> Forall2 records (push_write l w) (push_frame l' f).
Proof.
  intros Hl Hw. pose proof (records_padding _ _ Hw) as Hp. unfold push_write, push_frame.
  destruct l as [|x l _] using rev_ind.
  - apply Forall2_nil_inv_l in Hl as ->. simpl. destruct w; by repeat constructor.
  - apply Forall2_app_inv_l in Hl as (l1 & l2 & Hl1 & Hl2 & ->). inversion Hl2 as [|? y ? ? Hxy Hnil]; subst. inversion Hnil; subst.
    pose proof (records_padding _ _ Hxy) as Hq. rewrite !last_snoc, !removelast_last.
    assert (Hall : Forall2 records ((l ++ [x]) ++ [w]) ((l1 ++ [y]) ++ [f])).
    { apply Forall2_app; [by apply Forall2_app|]. by constructor. }
    destruct x, y; try done; destruct w, f; try done;
      first [exact Hall | apply Forall2_app; [first [exact Hl1 | by apply Forall2_app]|by constructor]].
Qed.

(** ** What a write does to a packet *)

Section packets.
Variables (header : HeaderForm) (params : CodecParameters).

(** Nothing, or it adds the bytes of one frame.  A frame that can only be read at the end of
    a packet leaves no space. *)
Definition extends (b b' : Builder) (fs : list QuicFrame) : Prop :=
  shortHeader b' = shortHeader b /\ builder_ok b' /\
  (fs = [] /\ b' = b \/
   exists bs f w, fs = [f] /\ body_ b' = body_ b ++ bs /\ 1 <= zlen bs <= remainingBytes_ b /\
     remainingBytes_ b' = remainingBytes_ b - zlen bs /\ QuicFrameWriter.empty b' = false /\
     frames b' = push_write (frames b) w /\ records w f /\
     (frame_reads header params bs f \/ closes header params bs f /\ remainingBytes_ b' = 0)).

Lemma append_remaining bs b : builder_ok b -> zlen bs <= remainingBytes_ b -> remainingBytes_ (append bs b) = remainingBytes_ b - zlen bs.
Proof. intros Hb H. unfold append, builder_ok in *. simpl. apply u32_id. unfold zlen in *. ilia. Qed.

Lemma extends_one b b' bs f w :
  builder_ok b -> shortHeader b' = shortHeader b -> body_ b' = body_ (append bs b) -> remainingBytes_ b' = remainingBytes_ (append bs b) ->
  QuicFrameWriter.empty b' = false -> frames b' = push_write (frames b) w -> records w f -> 1 <= zlen bs <= remainingBytes_ b ->
  (frame_reads header params bs f \/ closes header params bs f /\ zlen bs = remainingBytes_ b) -> extends b b' [f].
Proof.
  intros Hb H1 H2 H3 H4 H5 H6 H7 H8. rewrite append_remaining in H3 by (done || lia).
  split_and!; [done|unfold builder_ok in *; rewrite H3; ilia|]. right. exists bs, f, w. split_and!; try done; try lia.
  destruct H8 as [H8|[H8 E]]; [by left|]. right. split; [done|lia].
Qed.

Lemma push_write_frame l w : isWPadding w = false -> push_write l w = l ++ [w].
Proof. unfold push_write. intros H. destruct (last l) as [[]|], w; done. Qed.

Lemma recorded_frames f b : as_read f <> None -> frames (recorded f b) = push_write (frames b) f /\
  shortHeader (recorded f b) = shortHeader b /\ body_ (recorded f b) = body_ b /\ remainingBytes_ (recorded f b) = remainingBytes_ b /\
  QuicFrameWriter.empty (recorded f b) = false.
Proof. intros H. destruct f; try done; simpl; split_and!; try done; unfold push_write; simpl; by destruct (last (frames b)) as [[]|]. Qed.

Lemma records_as_read f g : as_read f = Some g -> records f g.
Proof. destruct f; simpl; try done; intros [= <-]; done. Qed.

Lemma perform_control f b : builder_ok b -> write_ok header params (Control f) b ->
  exists b' fs, perform (Control f) b = inr (b', fs) /\ extends b b' fs.
Proof.
  intros Hb [Hok Hs]. destruct (control_fields header params f b Hok Hs) as (l & g & Hg & (Hl & H1 & Hr) & E).
  unfold perform. rewrite E, writeFields_fits by done. destruct (Z.leb_spec (zlen (fields_bytes l)) (remainingBytes_ b)) as [Hle|Hgt].
  - rewrite W_bind_inr. destruct (Z.eqb_spec (zlen (fields_bytes l)) 0); [lia|]. rewrite Hg. eexists _, _. split; [done|].
    destruct (recorded_frames f (append (fields_bytes l) b)) as (E1 & E2 & E3 & E4 & E5); [congruence|].
    apply (extends_one _ _ (fields_bytes l) _ f); try done; [by apply records_as_read|by left].
  - exists b, []. split; [done|]. split_and!; [done..|]. by left.
Qed.

Lemma perform_stream id g o d fc fin hint b : builder_ok b -> write_ok header params (StreamData id g o d fc fin hint) b ->
  exists b' fs, perform (StreamData id g o d fc fin hint) b = inr (b', fs) /\ extends b b' fs.
Proof.
  intros Hb (Hi & Hg & Ho & Hd & Hlen & Hfc & Hne & Hh & Hgh). unfold perform.
  destruct (writeStreamFrameHeader_ok id g o d fc fin hint b Hb Hi Hg Ho Hfc Hlen Hne Hh) as [->|(n & len & -> & Hn & Hle & Hlast)].
  - exists b, []. split; [done|]. split_and!; [done..|]. by left.
  - rewrite W_bind_inr. eexists _, _. split; [done|]. set (e := fin && (n =? zlen d)) in *. set (d' := take (Z.to_nat n) d).
    assert (Hd' : bytes_ok d') by (by apply Forall_take). assert (Hz : zlen d' = n) by (unfold d', zlen in *; rewrite length_take; lia).
    set (h := stream_header id g o n len e) in *. assert (Hh1 : 1 <= zlen h).
    { unfold h. rewrite stream_header_size. unfold zlen. destruct len; lia. }
    apply (extends_one _ _ (h ++ d') _ (WriteStreamFrame id g o n e)); try done.
    + unfold writeStreamFrameData. by destruct (n >? 0).
    + unfold writeStreamFrameData, insert_chain. destruct (Z.gtb_spec n 0); cbn [body_ append appendFrame]; [by rewrite app_assoc|].
      unfold d'. replace (Z.to_nat n) with 0%nat by lia. by rewrite app_nil_r.
    + unfold writeStreamFrameData, insert_chain. rewrite <- append_append. destruct (Z.gtb_spec n 0); [done|].
      unfold d'. replace (Z.to_nat n) with 0%nat by lia. by rewrite append_nil by apply builder_append_ok.
    + unfold writeStreamFrameData. by destruct (n >? 0).
    + unfold writeStreamFrameData. rewrite push_write_frame by done. by destruct (n >? 0).
    + rewrite zlen_app. unfold zlen in *. lia.
    + rewrite zlen_app, Hz. destruct len; [left; unfold h; rewrite <- Hz; apply stream_frame_reads; try done; apply fits_small; lia|].
      right. destruct (Hlast eq_refl) as (Hhint & Hn0 & E). split; [|done]. destruct Hgh as [-> | [->|Hf]]; [by apply stream_frame_closes|done|].
      exfalso. unfold h in E. rewrite stream_header_size in E. unfold fills in Hf. apply andb_false_iff in Hf as [?%Z.ltb_ge|?%Z.leb_gt]; lia.
Qed.

Lemma perform_crypto o d b : builder_ok b -> write_ok header params (CryptoData o d) b ->
  exists b' fs, perform (CryptoData o d) b = inr (b', fs) /\ extends b b' fs.
Proof.
  intros Hb (Ho & Hd & Hlen). unfold perform, writeCryptoFrame. assert (Ft : fits FrameType.CRYPTO_FRAME) by (apply fits_small; by vm_compute).
  destruct (int_bytes_ok _ Ft) as (_ & -> & Ht8 & _). destruct (int_bytes_ok _ Ho) as (_ & -> & Ho8 & _). rewrite !W_bind_inr.
  set (hs := zlen (int_bytes FrameType.CRYPTO_FRAME) + zlen (int_bytes o) + 2).
  destruct (Z.leb_spec (remainingBytes_ b) hs) as [|Hgt]; [exists b, []; split; [done|]; split_and!; [done..|]; by left|].
  set (n := Z.min (zlen d) (remainingBytes_ b - hs)). assert (Hn : 0 <= n <= zlen d /\ n <= remainingBytes_ b - hs) by (unfold zlen in *; lia).
  unfold builder_ok in Hb. assert (Fn : fits n) by (apply fits_small; unfold_ints; lia). destruct (int_bytes_ok _ Fn) as (_ & -> & Hn8 & _). rewrite W_bind_inr.
  assert (Hs2 : zlen (int_bytes n) <= 2).
  { rewrite int_bytes_size by done. unfold QuicInteger.kTwoByteLimit, QuicInteger.kOneByteLimit in *. zcases; lia. }
  destruct (Z.gtb_spec (zlen (int_bytes n)) 2); [lia|]. do 3 (rewrite write_fits, W_bind_inr by done).
  eexists _, _. split; [done|]. set (d' := take (Z.to_nat n) d). assert (Hz : zlen d' = n) by (unfold d', zlen in *; rewrite length_take; lia).
  assert (Hd' : bytes_ok d') by (by apply Forall_take). unfold insert_chain. rewrite !append_append. fold d'.
  eapply (extends_one _ _ _ _ (WriteCryptoFrame o n)); try reflexivity; try done.
  - by rewrite push_write_frame.
  - rewrite !zlen_app. lia.
  - left. eapply parseFrame_reads; [done|done|reflexivity| |done]. unfold decodeCryptoFrame.
    eapply reads_bind; [by apply reads_integer|]. eapply reads_bind; [by apply reads_integer|].
    eapply reads_guarded; [lia|]. eapply reads_last; [by apply reads_bytes|]. apply reads_ret.
Qed.

Lemma perform_ack m t b : builder_ok b -> write_ok header params (Ack m t) b ->
  exists b' fs, perform (Ack m t) b = inr (b', fs) /\ extends b b' fs.
Proof.
  intros Hb (Ht & Hok & Hs). unfold perform.
  destruct (writeAckFrame_ok header params m t b Ht Hb Hok Hs) as [(r & -> & ->)|(n & w & bs & -> & Hn & Hr)].
  - exists b, []. split; [done|]. split_and!; [done..|]. by left.
  - rewrite W_bind_inr. eexists _, _. split; [done|]. apply (extends_one _ _ bs _ (WriteAckFrame w)); try done; [by rewrite push_write_frame|by left].
Qed.

Lemma perform_timestamps m e n b : builder_ok b -> write_ok header params (AckTimestamps m e n) b ->
  exists b' fs, perform (AckTimestamps m e n) b = inr (b', fs) /\ extends b b' fs.
Proof.
  intros Hb (Hok & Ht). unfold perform.
  destruct (writeTimestamps_ok header params m e n b Hb Hok Ht) as [->|(k & w & bs & -> & Hn & Hr)].
  - exists b, []. split; [done|]. split_and!; [done..|]. by left.
  - rewrite W_bind_inr. eexists _, _. split; [done|]. apply (extends_one _ _ bs _ (WriteAckFrame w)); try done; [by rewrite push_write_frame|by left].
Qed.

Lemma perform_write_ok w b : builder_ok b -> write_ok header params w b -> exists b' fs, perform w b = inr (b', fs) /\ extends b b' fs.
Proof. intros Hb Hw. destruct w; [by apply perform_control|by apply perform_stream|by apply perform_crypto|by apply perform_ack|by apply perform_timestamps]. Qed.

End packets.

(** ** Reading a sequence of frames *)

(** Padding, up to how much of it there is. *)
Definition forget (f : QuicFrame) : QuicFrame := match f with PaddingFrame _ => PaddingFrame 0 | f => f end.

Definition push_forgotten (l : list QuicFrame) (f : QuicFrame) : list QuicFrame :=
  if match last l with Some x => isPadding x | None => false end && isPadding f then l else l ++ [forget f].

Lemma forget_push l f : forget <$> push_frame l f = push_forgotten (forget <$> l) f.
Proof.
  unfold push_frame, push_forgotten. destruct l as [|x l _] using rev_ind; [by destruct f|].
  assert (E : forget <$> l ++ [x] = (forget <$> l) ++ [forget x]) by (by rewrite fmap_app).
  rewrite last_snoc, removelast_last, E, last_snoc.
  destruct x, f; cbn [isPadding forget andb]; rewrite ?fmap_app, <- ?app_assoc; done.
Qed.

Lemma forget_pushes fs : forall l l', forget <$> l = forget <$> l' -> forget <$> foldl push_frame l fs = forget <$> foldl push_frame l' fs.
Proof. induction fs as [|f fs IH]; intros l l' E; [done|]. simpl. apply IH. by rewrite !forget_push, E. Qed.

(** More padding behind padding changes nothing. *)
Lemma push_paddings fs : forall l, Forall (fun f => isPadding f = true) fs ->
  forget <$> foldl push_frame (push_frame l (PaddingFrame 1)) fs = forget <$> push_frame l (PaddingFrame 1).
Proof.
  induction fs as [|f fs IH]; intros l Hf; [done|]. inversion Hf as [|? ? H1 H2]; subst. destruct f; try done. simpl.
  rewrite <- (IH l H2). apply forget_pushes. rewrite !forget_push. generalize (forget <$> l). intros m. unfold push_forgotten.
  cbn [isPadding forget]. rewrite !andb_true_r. destruct (match last m with Some x => isPadding x | None => false end) eqn:E; cbv iota.
  - by rewrite E.
  - by rewrite last_snoc.
Qed.

Section reading.
Variables (header : HeaderForm) (params : CodecParameters).

Definition bytes_of (items : list (list Z * QuicFrame)) : list Z := mjoin (fst <$> items).

Lemma same_bytes l : take (length l - 1) l = drop 1 l -> hd 0 l = 0 -> Forall (fun z => z = 0) l.
Proof.
  induction l as [|x l IH]; [done|]. simpl. intros E ->. constructor; [done|]. destruct l as [|y l]; [done|]. simpl in E.
  injection E as <- E. apply IH; [|done]. simpl. by rewrite Nat.sub_0_r.
Qed.

Lemma zero_items items : Forall (fun i => frame_reads header params i.1 i.2) items -> Forall (fun z => z = 0) (bytes_of items) ->
  Forall (fun f => isPadding f = true) items.*2.
Proof.
  induction 1 as [|[bs f] items Hi _ IH]; [done|]. unfold bytes_of in *. simpl. intros [Hb Hr]%Forall_app. constructor; [|by apply IH].
  unfold frame_reads in Hi. simpl in *. destruct (isPadding f); [done|]. destruct Hi as [Hh _]. destruct bs; [done|]. inversion Hb; subst. done.
Qed.

(** A zero byte is read alone, or with all the zeros up to the end. *)
Lemma parseFrame_padding rest :
  parseFrame header params (0 :: rest) = POk (PaddingFrame 1) rest \/
  parseFrame header params (0 :: rest) = POk (PaddingFrame 1) [] /\ Forall (fun z => z = 0) rest.
Proof.
  assert (E : QuicInteger.decodeQuicInteger (0 :: rest) 8 = Some ((0, 1), rest)).
  { unfold QuicInteger.decodeQuicInteger, QuicInteger.canAdvance. rewrite QuicInteger.zlen_cons.
    destruct (Z.leb_spec 1 (1 + zlen rest)); [|unfold zlen in *; lia]. simpl. by rewrite drop_0. }
  unfold parseFrame. rewrite E. change (frameParser header params 0) with (Some decodePaddingFrame). cbv iota. unfold decodePaddingFrame.
  destruct rest as [|x rest]; [by left|]. destruct (Z.eqb_spec x FrameType.PADDING) as [->|]; simpl; [|by left].
  case_bool_decide as Hd; [|by left]. right. split; [done|]. by apply same_bytes.
Qed.

Lemma parseFrames_nil fuel l : parseFrames fuel header params l [] = POk l [].
Proof. by destruct fuel. Qed.

Lemma parseFrames_step fuel l q f rest : q <> [] -> parseFrame header params q = POk f rest -> (length q <= S fuel)%nat ->
  parseFrames (S fuel) header params l q = parseFrames fuel header params (push_frame l f) rest.
Proof. intros Hq E _. destruct q; [done|]. simpl. by rewrite (pbind_ok _ _ _ f rest). Qed.

(** The frames of a payload, the last of which may be one that ends it. *)
Definition tail_ok (tl : option (list Z * QuicFrame)) : Prop := match tl with Some (bs, f) => closes header params bs f | None => True end.
Definition tail_bytes (tl : option (list Z * QuicFrame)) : list Z := match tl with Some (bs, _) => bs | None => [] end.
Definition tail_frames (tl : option (list Z * QuicFrame)) : list QuicFrame := match tl with Some (_, f) => [f] | None => [] end.

Lemma tail_bytes_ok tl : tail_ok tl -> bytes_ok (tail_bytes tl).
Proof. destruct tl as [[bs f]|]; [by intros (H & _)|constructor]. Qed.

Lemma bytes_of_ok items : Forall (fun i => frame_reads header params i.1 i.2) items -> bytes_ok (bytes_of items).
Proof.
  induction 1 as [|[bs f] items Hi _ IH]; [constructor|]. unfold bytes_of. simpl. apply Forall_app. split; [|done].
  unfold frame_reads in Hi. simpl in *. destruct (isPadding f); [subst bs; repeat constructor; unfold_ints; lia|apply Hi].
Qed.

Lemma parseFrames_items items tl : Forall (fun i => frame_reads header params i.1 i.2) items -> tail_ok tl -> forall fuel l,
  (length (bytes_of items ++ tail_bytes tl) <= fuel)%nat ->
  exists fs, parseFrames fuel header params l (bytes_of items ++ tail_bytes tl) = POk fs [] /\
    forget <$> fs = forget <$> foldl push_frame l (items.*2 ++ tail_frames tl).
Proof.
  intros Hi Ht. induction Hi as [|[bs f] items Hf Hi IH]; intros fuel l Hfuel.
  - unfold bytes_of. simpl. destruct tl as [[bs f]|]; simpl in *; [|exists l; by rewrite parseFrames_nil].
    destruct Ht as (_ & Hh & _ & E). destruct bs as [|x bs]; [done|]. destruct fuel as [|fuel]; [simpl in Hfuel; lia|].
    rewrite (parseFrames_step _ _ _ f []) by done. rewrite parseFrames_nil. by eexists.
  - change (bytes_of ((bs, f) :: items)) with (bs ++ bytes_of items) in *. rewrite <- app_assoc in *.
    change (((bs, f) :: items).*2) with (f :: items.*2). set (rest := bytes_of items ++ tail_bytes tl) in *.
    assert (Hrest : bytes_ok rest) by (apply Forall_app; split; [by apply bytes_of_ok|by apply tail_bytes_ok]).
    unfold frame_reads in Hf. simpl in Hf. rewrite length_app in Hfuel. destruct (isPadding f) eqn:Ep.
    + subst bs. destruct f; try done. destruct fuel as [|fuel]; [simpl in Hfuel; lia|]. simpl in Hfuel.
      assert (Epush : forall l, forget <$> push_frame l (PaddingFrame numFrames) = forget <$> push_frame l (PaddingFrame 1)) by (intros; by rewrite !forget_push).
      destruct (parseFrame_padding rest) as [E|[E Hz]].
      * simpl. rewrite (pbind_ok _ _ _ (PaddingFrame 1) rest) by done. destruct (IH fuel (push_frame l (PaddingFrame 1)) ltac:(lia)) as (fs & -> & Hfs).
        exists fs. split; [done|]. rewrite Hfs. apply forget_pushes. by rewrite Epush.
      * simpl. rewrite (pbind_ok _ _ _ (PaddingFrame 1) []) by done. rewrite parseFrames_nil. eexists. split; [done|].
        apply Forall_app in Hz as [Hz1 Hz2]. assert (tl = None) as ->.
        { destruct tl as [[bs f]|]; [|done]. destruct Ht as (_ & Hh & _). destruct bs; [done|]. inversion Hz2; subst. done. }
        simpl. rewrite app_nil_r. rewrite <- (push_paddings items.*2) by (by apply zero_items). apply forget_pushes. by rewrite Epush.
    + destruct Hf as [Hh [Hb Hr]]. destruct bs as [|x bs]; [done|]. destruct fuel as [|fuel]; [simpl in Hfuel; lia|]. simpl in Hfuel.
      rewrite (parseFrames_step _ _ _ f rest); [by apply IH; lia|done|by apply Hr|]. rewrite length_app. simpl. lia.
Qed.
End reading.

(** ** Packets *)

Section building.
Variables (header : HeaderForm) (params : CodecParameters).

(** A packet of [r] bytes that holds the frames [fs]. *)
Definition packet_inv (r : Z) (b : Builder) (fs : list QuicFrame) : Prop :=
  builder_ok b /\ zlen (body_ b) + remainingBytes_ b = r /\ Forall2 records (frames b) (foldl push_frame [] fs) /\
  exists items tl, body_ b = bytes_of items ++ tail_bytes tl /\ fs = items.*2 ++ tail_frames tl /\
    Forall (fun i => frame_reads header params i.1 i.2) items /\ tail_ok header params tl /\ (tl = None \/ remainingBytes_ b = 0).

Lemma packet_inv_item r b b' items fs bs f :
  packet_inv r b fs -> remainingBytes_ b <> 0 -> items = [(bs, f)] -> builder_ok b' ->
  body_ b' = body_ b ++ bs -> remainingBytes_ b' = remainingBytes_ b - zlen bs ->
  Forall2 records (frames b') (foldl push_frame [] (fs ++ [f])) ->
  frame_reads header params bs f \/ closes header params bs f /\ remainingBytes_ b' = 0 -> packet_inv r b' (fs ++ [f]).
Proof.
  intros (Hb & Hr & Hf & its & tl & E1 & E2 & Hi & Ht & Hl) Hr0 -> Hb' Hbody Hrem Hrec Hx. destruct Hl as [->|]; [|done]. simpl in *.
  rewrite app_nil_r in E1, E2. split_and!; [done|rewrite Hbody, zlen_app; lia|done|]. destruct Hx as [Hx|[Hx H0]].
  - exists (its ++ [(bs, f)]), None. unfold bytes_of in *. rewrite !fmap_app, join_app. simpl. rewrite !app_nil_r. split_and!; [by rewrite Hbody, E1|by rewrite E2| |done|by left].
    apply Forall_app. split; [done|]. by repeat constructor.
  - exists its, (Some (bs, f)). split_and!; [by rewrite Hbody, E1|by rewrite E2|done|done|by right].
Qed.

Lemma packet_inv_step r b b' fs f : packet_inv r b fs -> extends header params b b' f -> packet_inv r b' (fs ++ f).
Proof.
  intros Hp (_ & Hb' & [(-> & ->)|(bs & g & w & -> & Hbody & Hlen & Hrem & _ & Hfr & Hrec & Hx)]); [by rewrite app_nil_r|].
  eapply packet_inv_item; [done|lia|done|done|done|done| |done]. rewrite foldl_app, Hfr. simpl. apply push_records; [apply Hp|done].
Qed.

Lemma perform_all_ok ws : forall r b fs, packet_inv r b fs -> writes_ok header params ws b ->
  exists b' fs', perform_all ws b = inr (b', fs') /\ packet_inv r b' (fs ++ fs') /\ shortHeader b' = shortHeader b.
Proof.
  induction ws as [|w ws IH]; intros r b fs Hp Hw; [exists b, []; by rewrite app_nil_r|]. destruct Hw as [Hw Hws].
  destruct (perform_write_ok header params w b (proj1 Hp) Hw) as (b1 & f & E & Hx). rewrite E in Hws. pose proof (packet_inv_step _ _ _ _ _ Hp Hx) as Hp1.
  destruct (IH r b1 (fs ++ f) Hp1 Hws) as (b2 & fs' & E' & Hp2 & Hs). simpl. rewrite E, W_bind_inr, E', W_bind_inr.
  exists b2, (f ++ fs'). rewrite app_assoc. split_and!; [done..|]. rewrite Hs. apply Hx.
Qed.

(** The padding at the end of a packet. *)
Lemma padBody_ok minBodySize bodyLength overhead : forall fuel extra b, builder_ok b -> minBodySize - bodyLength - overhead - extra < Z.of_nat fuel ->
  exists k, padBody fuel minBodySize bodyLength extra overhead b = inr (append (replicate k 0) b) /\
    (k = O \/ Z.of_nat k + kMaxPacketLenSize <= remainingBytes_ b).
Proof.
  induction fuel as [|fuel IH]; intros extra b Hb Hf; cbn [padBody].
  - destruct (Z.ltb_spec (bodyLength + extra + overhead) minBodySize); [lia|]. exists O. cbn [andb replicate]. by rewrite append_nil; [split; [|left]|].
  - destruct (_ && _) eqn:E; [|exists O; cbn [replicate]; rewrite append_nil by done; split; [done|by left]].
    apply andb_prop in E as [_ E%Z.gtb_lt]. rewrite write_fits by (apply fits_small; by vm_compute). rewrite W_bind_inr.
    change (int_bytes FrameType.PADDING) with [0]. destruct (IH (extra + 1) (append [0] b) (builder_append_ok _ _) ltac:(lia)) as (k & -> & Hk).
    exists (S k). rewrite append_append. split; [done|]. right.
    rewrite append_remaining in Hk by (done || (unfold kMaxPacketLenSize, zlen in *; simpl; lia)). change (zlen [0]) with 1 in Hk.
    unfold kMaxPacketLenSize in *. lia.
Qed.

Lemma padded_packet r b fs k : packet_inv r b fs -> k = O \/ Z.of_nat k + kMaxPacketLenSize <= remainingBytes_ b ->
  exists its tl, body_ (append (replicate k 0) b) = bytes_of its ++ tail_bytes tl /\ fs ++ replicate k (PaddingFrame 1) = its.*2 ++ tail_frames tl /\
    Forall (fun i => frame_reads header params i.1 i.2) its /\ tail_ok header params tl /\
    zlen (body_ (append (replicate k 0) b)) + remainingBytes_ (append (replicate k 0) b) = r.
Proof.
  intros (Hb & Hr & _ & its & tl & E1 & E2 & Hi & Ht & Hl) [->|Hk].
  - cbn [replicate]. rewrite append_nil, app_nil_r by done. by exists its, tl.
  - unfold kMaxPacketLenSize in Hk. destruct Hl as [->|]; [|lia]. cbn [tail_bytes tail_frames] in E1, E2. rewrite app_nil_r in E1, E2.
    assert (Hz : zlen (replicate k 0) = Z.of_nat k) by (unfold zlen; by rewrite length_replicate).
    exists (its ++ replicate k ([0], PaddingFrame 1)), None. cbn [tail_bytes tail_frames]. rewrite !app_nil_r.
    assert (Hrep : bytes_of (replicate k ([0], PaddingFrame 1)) = replicate k 0 /\ (replicate k ([0], PaddingFrame 1)).*2 = replicate k (PaddingFrame 1)).
    { unfold bytes_of. rewrite !fmap_replicate. split; [|done]. simpl. clear. induction k as [|k IH]; [done|]. simpl. by f_equal. }
    destruct Hrep as [Hrep1 Hrep2]. split_and!.
    + unfold bytes_of in *. cbn [append body_]. by rewrite fmap_app, join_app, Hrep1, E1.
    + by rewrite fmap_app, Hrep2, E2.
    + apply Forall_app. split; [done|]. by apply Forall_replicate.
    + done.
    + rewrite append_remaining by (done || lia). unfold append. cbn [body_]. rewrite zlen_app. lia.
Qed.

End building.

Definition fresh_builder (b : Builder) : Prop := is_u32 (remainingBytes_ b) /\ body_ b = [] /\ frames b = [].

(** A packet that has frames is not empty. *)
Lemma perform_all_nonempty header params ws : forall b b' fs, builder_ok b -> writes_ok header params ws b -> (frames b = [] \/ QuicFrameWriter.empty b = false) ->
  perform_all ws b = inr (b', fs) -> frames b' = [] \/ QuicFrameWriter.empty b' = false.
Proof.
  induction ws as [|w ws IH]; intros b b' fs Hb Hw He E; [simpl in E; by injection E as <- <-|]. destruct Hw as [Hw Hws].
  destruct (perform_write_ok header params w b Hb Hw) as (b1 & f & E1 & _ & Hb1 & Hx). simpl in E. rewrite E1 in Hws, E. rewrite W_bind_inr in E.
  destruct (perform_all ws b1) as [|[b2 fs2]] eqn:E2; [done|]. injection E as <- <-. apply (IH b1 b2 fs2); try done.
  destruct Hx as [(_ & ->)|(? & ? & ? & _ & _ & _ & _ & He' & _)]; [done|by right].
Qed.

(** When the padding stops. *)
Lemma padBody_stops minBodySize bodyLength overhead : forall fuel extra b b', builder_ok b ->
  padBody fuel minBodySize bodyLength extra overhead b = inr b' -> QuicFrameWriter.empty b = false ->
  minBodySize <= bodyLength + extra + overhead + (zlen (body_ b') - zlen (body_ b)) \/ remainingBytes_ b' <= kMaxPacketLenSize.
Proof.
  induction fuel as [|fuel IH]; intros extra b b' Hb; cbn [padBody]; intros E He; rewrite He in E; cbn [negb] in E; rewrite andb_true_r in E.
  all: destruct (Z.ltb_spec (bodyLength + extra + overhead) minBodySize); [|injection E as <-; left; lia].
  all: destruct (Z.gtb_spec (remainingBytes_ b) kMaxPacketLenSize); [|injection E as <-; right; lia].
  - done.
  - cbn [andb] in E. rewrite write_fits in E by (apply fits_small; by vm_compute). rewrite W_bind_inr in E.
    destruct (IH _ _ _ (builder_append_ok _ _) E He) as [Hle|Hle]; [left|by right]. unfold append in Hle. cbn [body_] in Hle. rewrite zlen_app in Hle.
    change (zlen (int_bytes FrameType.PADDING)) with 1 in Hle. lia.
Qed.

(** A payload is read as it was written.  Whatever frames of [write_ok] are written, in whatever order,
    each write either fits or leaves the packet as it was, so that no more than its space is
    used; the padding that [buildPacket] adds does no harm and makes the packet long enough
    to be sampled; and the reader gets exactly the frames that were written, with their data,
    in their order, up to the amount of padding.  The frames that the sender records for
    acknowledgement and loss are the ones that the receiver gets. *)
Lemma payload_roundtrip header params ws b0 packetNumberLength cipherOverhead :
  fresh_builder b0 -> writes_ok header params ws b0 -> 1 <= packetNumberLength <= 4 -> 0 <= cipherOverhead ->
  exists b fs b' k received,
    perform_all ws b0 = inr (b, fs) /\ buildPacket packetNumberLength cipherOverhead b = inr b' /\
    body_ b' = body_ b ++ replicate k 0 /\ zlen (body_ b') + remainingBytes_ b' = remainingBytes_ b0 /\ is_u32 (remainingBytes_ b') /\ bytes_ok (body_ b') /\
    Forall2 records (frames b) (foldl push_frame [] fs) /\
    decodeRegularPacket header params (body_ b') = POk received [] /\
    forget <$> received = forget <$> foldl push_frame [] (fs ++ replicate k (PaddingFrame 1)) /\
    (frames b <> [] -> 5 <= remainingBytes_ b0 -> kSampleSize <= cipherOverhead ->
     kMaxPacketNumEncodingSize - packetNumberLength + kSampleSize <= zlen (body_ b') + cipherOverhead).
Proof.
  intros (Hr & Hbody & Hfr) Hw Hp Ho.
  assert (H0 : packet_inv header params (remainingBytes_ b0) b0 []).
  { split_and!; [done|by rewrite Hbody|rewrite Hfr; constructor|]. exists [], None. split_and!; try done. by left. }
  destruct (perform_all_ok header params ws _ _ _ H0 Hw) as (b & fs & E & Hinv & _). simpl in Hinv.
  pose proof (perform_all_nonempty header params ws b0 b fs Hr Hw (or_introl Hfr) E) as Hne.
  destruct (padBody_ok (kMaxPacketNumEncodingSize - packetNumberLength + kSampleSize) (zlen (body_ b)) cipherOverhead
    (Z.to_nat (kMaxPacketNumEncodingSize - packetNumberLength + kSampleSize + 1)) 0 b (proj1 Hinv)) as (k & Ek & Hk).
  { unfold kMaxPacketNumEncodingSize, kSampleSize, zlen. lia. }
  destruct (padded_packet header params _ _ _ k Hinv Hk) as (its & tl & E1 & E2 & Hi & Ht & Hlen).
  destruct (parseFrames_items header params its tl Hi Ht (length (body_ (append (replicate k 0) b))) []) as (received & Er & Hf); [by rewrite E1|].
  exists b, fs, (append (replicate k 0) b), k, received. split_and!; try done; [apply builder_append_ok| |apply Hinv| | |].
  - rewrite E1. apply Forall_app. split; [by eapply bytes_of_ok|by eapply tail_bytes_ok].
  - unfold decodeRegularPacket. by rewrite E1 in *.
  - by rewrite E2.
  - intros Hfs H5 H16. destruct Hne as [|Hne]; [done|]. destruct (padBody_stops _ _ _ _ _ _ _ (proj1 Hinv) Ek Hne) as [Hle|Hle]; [lia|].
    unfold kMaxPacketLenSize, kSampleSize, kMaxPacketNumEncodingSize in *. lia.
Qed.

(** An acknowledgement with the times of three packets, one with ECN counts, a limit, handshake data and padding, a frame of
    a stream group with its length, and a stream frame that fills the rest of the packet. *)
Definition exampleParams : CodecParameters := mkParams 3 None.
Definition exampleAck : WriteAckFrameMetaData :=
  mkMeta (mkAckState [IntervalSet.mkInterval 0 4; IntervalSet.mkInterval 8 9] None [] 7 0 1) 1000 3 0.
Definition exampleTimestamps : WriteAckFrameMetaData :=
  let r n t := mkReceived n t in
  mkMeta (mkAckState [IntervalSet.mkInterval 0 4; IntervalSet.mkInterval 8 9] (Some (r 9 90000)) [r 4 60000; r 8 80000; r 9 90000] 0 0 0) 1000 3 50000.
Definition exampleWrites : list Write :=
  [AckTimestamps exampleTimestamps 3 10; Ack exampleAck FrameType.ACK_ECN; Control (WMaxDataFrame 70000); CryptoData 0 [1; 2; 3]; Control (WPaddingFrame 1);
   StreamData 8 (Some 1) 0 [7; 8; 9] 1000 false None; StreamData 4 None 10 (replicate 100 5) 1000 true None].
Definition exampleBuilder : Builder := mkBuilder true 100 [] [] true.

Ltac performed :=
  match goal with |- context [perform ?w ?b] => let r := eval vm_compute in (perform w b) in change (perform w b) with r; cbv beta iota; cbn [writes_ok] end.

Ltac example_ack :=
  unfold ack_ok; simpl; unfold IntervalSet.valid; simpl;
  split_and!; try lia; try (unfold_ints; lia); try done; repeat (apply Forall_cons; split); [by vm_compute..|by constructor].

Lemma example_timestamps_ok : timestamps_ok exampleParams exampleTimestamps 3.
Proof.
  unfold timestamps_ok. simpl. change (reverse [mkReceived 4 60000; mkReceived 8 80000; mkReceived 9 90000])
    with [mkReceived 9 90000; mkReceived 8 80000; mkReceived 4 60000]. simpl. unfold INT64_MAX.
  split_and!; try lia; try done. repeat (apply Forall_cons; split); simpl; [lia..|by constructor].
Qed.

Lemma example_writes_ok : writes_ok Short exampleParams exampleWrites exampleBuilder.
Proof.
  unfold exampleWrites. cbn [writes_ok]. split.
  { split; [example_ack|exact example_timestamps_ok]. }
  performed. split; [split_and!; [by right|example_ack|by vm_compute]|].
  performed. split; [split; [simpl; unfold fits, QuicInteger.kEightByteLimit; lia|done]|].
  performed. split; [split_and!; [unfold fits, QuicInteger.kEightByteLimit; lia|repeat constructor; unfold_ints; lia|by vm_compute]|].
  performed. split; [by split|].
  performed. split.
  { split_and!; [by vm_compute|by vm_compute|by vm_compute|repeat constructor; unfold_ints; lia|by vm_compute|lia|by left|done|by right; right; vm_compute]. }
  performed. split; [|by performed].
  split_and!; [by vm_compute|done|by vm_compute|by apply Forall_replicate|by vm_compute|lia|by left|done|by left].
Qed.

(** ** What is written and not read back *)

(** A frame of a stream group that fills the packet: its type has the bit that announces a
    length, but no length is written, and the first byte of the data is taken for it. *)
Lemma group_frame_unreadable :
  match perform (StreamData 8 (Some 1) 0 (replicate 50 5) 1000 false None) (mkBuilder true 20 [] [] true) with
  | inr (b, fs) => fs = [ReadStreamFrame 8 (Some 1) 0 (replicate 17 5) false] /\ remainingBytes_ b = 0 /\
      forall rest, decodeRegularPacket Short exampleParams (body_ b) <> POk fs rest
  | inl _ => False
  end.
Proof. vm_compute. split; [done|]. by split. Qed.

(** A CONNECTION_CLOSE that was caused by a frame whose type takes two bytes is refused. *)
Lemma close_frame_unreadable :
  match perform (Control (WConnectionCloseFrame (TransportErrorCode 7) [] FrameType.ACK_RECEIVE_TIMESTAMPS)) (mkBuilder true 20 [] [] true) with
  | inr (b, fs) => fs = [ConnectionCloseFrame (TransportErrorCode 7) [] FrameType.ACK_RECEIVE_TIMESTAMPS] /\
      exists e, decodeRegularPacket Short exampleParams (body_ b) = PErr e
  | inl _ => False
  end.
Proof. vm_compute. split; [done|]. by eexists. Qed.

(** The counts of an ACK_ECN frame do not fit: more is written than the packet has space for. *)
Lemma ack_ecn_overruns :
  match perform (Ack exampleAck FrameType.ACK_ECN) (mkBuilder true 2 [] [] true) with
  | inr (b, _) => 2 < zlen (body_ b)
  | inl _ => False
  end.
Proof. by vm_compute. Qed.

(** ** The sender's view of a stream frame *)

Lemma stream_outcome id offset n wl (fin len : bool) b (x : W (option Z * Builder)) :
  let e := fin && (n =? wl) in
  x = inr (Some n, appendFrame (WriteStreamFrame id None offset n e) (append (stream_header id None offset n len e) b)) ->
  (inr (Some (n, e)) : QuicStream.Exception + option (Z * bool)) =
    match x with
    | inl _ => inl QuicStream.INTERNAL_ERROR_
    | inr (None, _) => inr None
    | inr (Some n, _) => inr (Some (n, fin && (n =? wl)))
    end.
Proof. by intros e ->. Qed.

(** [QuicSend] computes how much of a stream fits into a packet without its bytes; it is what
    the writer of the bytes returns. *)
Lemma writeStreamFrameHeader_agrees id offset wl fc (fin : bool) b :
  builder_ok b -> fits id -> fits offset -> 0 <= fc -> 0 <= wl < 2 ^ 61 ->
  QuicSend.writeStreamFrameHeader (remainingBytes_ b) id offset wl fc fin =
    match writeStreamFrameHeader b id offset wl fc fin None None true with
    | inl _ => inl QuicStream.INTERNAL_ERROR_
    | inr (None, _) => inr None
    | inr (Some n, _) => inr (Some (n, fin && (n =? wl)))
    end.
Proof.
  intros Hb Hi Ho Hfc Hwl. unfold QuicSend.writeStreamFrameHeader, writeStreamFrameHeader.
  assert (Hr : 0 <= remainingBytes_ b < 2 ^ 32) by exact Hb. set (r := remainingBytes_ b) in *.
  destruct (r =? 0); [done|]. destruct ((wl =? 0) && negb fin); [done|].
  assert (Hs : forall v, fits v -> QuicInteger.getQuicIntegerSize v = Some (zlen (int_bytes v))).
  { intros v Hv. destruct (int_bytes_ok v Hv) as (_ & E & _). unfold getSize in E. destruct (QuicInteger.getQuicIntegerSize v); [|done]. by injection E as ->. }
  destruct (int_bytes_ok id Hi) as (_ & -> & Hi8 & _). rewrite (Hs id Hi), W_bind_inr, W_bind_ret, Z.add_0_r.
  set (h := 1 + zlen (int_bytes id)) in *. destruct (Z.ltb_spec r h); [done|]. destruct (getSize_offset offset Ho) as [-> Ho8]. rewrite W_bind_inr.
  replace (if offset =? 0 then Some 0 else QuicInteger.getQuicIntegerSize offset) with (Some (zlen (offset_bytes offset))).
  2: { unfold offset_bytes. destruct (offset =? 0); [done|]. by rewrite Hs. }
  set (h2 := h + zlen (offset_bytes offset)) in *. set (m := Z.min wl fc). set (n0 := Z.min m (u64 (r - h2))).
  assert (Hn0 : 0 <= n0 < 2 ^ 61) by (unfold n0, m; pose proof (u64_range (r - h2)); ilia).
  destruct ((m >? 0) && (m >=? u64 (r - h2))).
  - rewrite W_bind_ret. cbn [Z.gtb Z.compare andb]. rewrite Z.add_0_r. destruct ((n0 =? 0) && _); [done|]. destruct (r <? h2); [done|].
    apply (stream_outcome id offset n0 wl fin false b). rewrite <- stream_frame_written by (done || apply fits_small; lia). done.
  - unfold lengthFieldSize. repeat match goal with |- context [if n0 <=? ?k then _ else _] => destruct (n0 <=? k) end; try done;
      rewrite W_bind_ret; cbn [Z.gtb Z.compare andb]; (destruct (negb _ && _); [done|]);
      match goal with |- context [if ?c then u64 ?x else n0] => set (n1 := if c then u64 x else n0) end;
      (destruct ((n1 =? 0) && _); [done|]); (match goal with |- context [if r <? ?x then inr None else _] => destruct (Z.ltb_spec r x); [done|] end);
      apply (stream_outcome id offset n1 wl fin true b); rewrite <- stream_frame_written; try done;
      (apply fits_small; unfold n1; destruct (r <? _); [|lia]; unfold h2, h in *; rewrite u64_id by ilia; lia).
Qed.

(** ** Any payload *)

(** [p] returns or throws, and does not give bytes back. *)
Definition advances {A} (p : parser FrameEncodingError A) : Prop := forall l, bytes_ok l ->
  match p l with POk _ r => bytes_ok r /\ (length r <= length l)%nat | PLoop => False | _ => True end.

Lemma advances_ret {A} (a : A) : advances (mret a).
Proof. by intros l Hl. Qed.

Lemma advances_fail {A} e : advances (A:=A) (pfail e).
Proof. by intros l Hl. Qed.

Lemma advances_bind {A B} (p : parser FrameEncodingError A) (k : A -> parser FrameEncodingError B) :
  advances p -> (forall a, advances (k a)) -> advances (p ≫= k).
Proof.
  intros Hp Hk l Hl. specialize (Hp l Hl). unfold mbind, parser_bind. destruct (p l) as [a r| | |]; try done. destruct Hp as [Hr Hle].
  specialize (Hk a r Hr). destruct (k a r); try done. destruct Hk. split; [done|lia].
Qed.

Lemma readInteger_consumes t l v r : bytes_ok l -> readInteger t l = POk v r -> bytes_ok r /\ (length r < length l)%nat.
Proof.
  intros Hl. unfold readInteger. destruct (QuicInteger.decodeQuicInteger l 8) as [[[v' n] r']|] eqn:E; [|done]. intros [= <- <-].
  apply QuicInteger.decode_some in E as (_ & Hn & _ & Hz & Hr & _); [|done|lia]. split; [done|]. unfold zlen in Hz. lia.
Qed.

Lemma advances_integer t : advances (readInteger t).
Proof.
  intros l Hl. destruct (readInteger t l) as [v r| | |] eqn:E; try done.
  - apply readInteger_consumes in E as [? ?]; [|done]. split; [done|lia].
  - unfold readInteger in E. by destruct (QuicInteger.decodeQuicInteger l 8) as [[[]]|].
Qed.

Lemma advances_integer_sized t : advances (readIntegerSized t).
Proof.
  intros l Hl. pose proof (advances_integer t l Hl) as H. unfold readInteger, readIntegerSized in *.
  by destruct (QuicInteger.decodeQuicInteger l 8) as [[[]]|].
Qed.

Lemma advances_try : advances tryInteger.
Proof.
  intros l Hl. pose proof (advances_integer 0 l Hl) as H. unfold readInteger, tryInteger in *.
  by destruct (QuicInteger.decodeQuicInteger l 8) as [[[]]|].
Qed.

Lemma advances_check t c : advances (check t c).
Proof. destruct c; [apply advances_ret|apply advances_fail]. Qed.

Lemma advances_total : advances totalLength.
Proof. by intros l Hl. Qed.

Lemma advances_bytes n : advances (readBytes n).
Proof.
  intros l Hl. unfold readBytes, ptake. case_decide; [done|]. split; [by apply Forall_drop|]. rewrite length_drop. lia.
Qed.

Lemma advances_clone n : advances (cloneAtMost n).
Proof. intros l Hl. unfold cloneAtMost. split; [by apply Forall_drop|]. rewrite length_drop. lia. Qed.

Lemma advances_readBE n : advances (readBE n).
Proof.
  intros l Hl. unfold readBE. case_decide; [done|]. split; [by apply Forall_drop|]. rewrite length_drop. lia.
Qed.

Lemma advances_gap a b : advances (nextAckedPacketGap a b).
Proof. unfold nextAckedPacketGap. destruct (_ <? _); [apply advances_fail|apply advances_ret]. Qed.
Lemma advances_len a b : advances (nextAckedPacketLen a b).
Proof. unfold nextAckedPacketLen. destruct (_ <? _); [apply advances_fail|apply advances_ret]. Qed.
Lemma advances_duration t e d : advances (convertEncodedDurationToMicroseconds t e d).
Proof. unfold convertEncodedDurationToMicroseconds. repeat case_match; apply advances_ret || apply advances_fail. Qed.

Create HintDb advances.
#[export] Hint Resolve advances_ret advances_fail advances_integer advances_integer_sized advances_try advances_check advances_total
  advances_bytes advances_clone advances_readBE advances_gap advances_len advances_duration : advances.

(** A loop whose rounds start with an integer ends before its fuel does. *)
Definition bounded {A} (n : nat) (p : parser FrameEncodingError A) : Prop := forall l, bytes_ok l -> (length l < n)%nat ->
  match p l with POk _ r => bytes_ok r /\ (length r <= length l)%nat | PLoop => False | _ => True end.

Lemma advances_bounded {A} n (p : parser FrameEncodingError A) : advances p -> bounded n p.
Proof. intros H l Hl _. by apply H. Qed.

Lemma bounded_bind {A B} n (p : parser FrameEncodingError A) (k : A -> parser FrameEncodingError B) :
  advances p -> (forall a, bounded n (k a)) -> bounded n (p ≫= k).
Proof.
  intros Hp Hk l Hl Hn. specialize (Hp l Hl). unfold mbind, parser_bind. destruct (p l) as [a r| | |]; try done. destruct Hp as [Hr Hle].
  specialize (Hk a r Hr ltac:(lia)). destruct (k a r); try done. destruct Hk. split; [done|lia].
Qed.

Lemma bounded_round {B} n t (k : Z -> parser FrameEncodingError B) : (forall a, bounded n (k a)) -> bounded (S n) (readInteger t ≫= k).
Proof.
  intros Hk l Hl Hn. unfold mbind, parser_bind. pose proof (advances_integer t l Hl) as Ha. destruct (readInteger t l) as [a r| | |] eqn:E; try done.
  apply readInteger_consumes in E as [Hr Hlt]; [|done]. specialize (Hk a r Hr ltac:(lia)). destruct (k a r); try done. destruct Hk. split; [done|lia].
Qed.

(** A loop that takes its fuel from the cursor, and what follows it. *)
Lemma bounded_fuel {A B} n (p : nat -> parser FrameEncodingError A) (k : A -> parser FrameEncodingError B) :
  (forall m, bounded m (p m)) -> (forall a, bounded n (k a)) -> bounded n (fuel ← (fun cursor => POk (S (length cursor)) cursor); a ← p fuel; k a).
Proof.
  intros Hp Hk l Hl Hn. unfold mbind, parser_bind. specialize (Hp (S (length l)) l Hl ltac:(lia)). destruct (p (S (length l)) l) as [a r| | |]; try done.
  destruct Hp as [Hr Hle]. specialize (Hk a r Hr ltac:(lia)). destruct (k a r); try done. destruct Hk. split; [done|lia].
Qed.

Lemma advances_fuel {A B} (p : nat -> parser FrameEncodingError A) (k : A -> parser FrameEncodingError B) :
  (forall m, bounded m (p m)) -> (forall a, advances (k a)) -> advances (fuel ← (fun cursor => POk (S (length cursor)) cursor); a ← p fuel; k a).
Proof. intros Hp Hk l Hl. apply (bounded_fuel (S (length l)) p k Hp); [|done|lia]. intros a. by apply advances_bounded. Qed.

Lemma readAckBlocks_bounded fuel : forall k count cur acc, bounded fuel (readAckBlocks fuel k count cur acc).
Proof.
  induction fuel as [|fuel IH]; intros k count cur acc; simpl; (destruct (_ <? _); [|by apply advances_bounded, advances_ret]).
  - intros l Hl Hn. lia.
  - apply bounded_round. intros g. repeat (apply bounded_bind; [auto with advances|]; intros ?). apply IH.
Qed.

Lemma readDeltas_bounded fuel : forall t i count e acc, bounded fuel (readDeltas fuel t i count e acc).
Proof.
  induction fuel as [|fuel IH]; intros t i count e acc; simpl; (destruct (_ <? _); [|by apply advances_bounded, advances_ret]).
  - intros l Hl Hn. lia.
  - apply bounded_round. intros g. apply bounded_bind; [auto with advances|]. intros ?. apply IH.
Qed.

Lemma readTimestampRanges_bounded fuel : forall t i count e acc, bounded fuel (readTimestampRanges fuel t i count e acc).
Proof.
  induction fuel as [|fuel IH]; intros t i count e acc; simpl; (destruct (_ <? _); [|by apply advances_bounded, advances_ret]).
  - intros l Hl Hn. lia.
  - apply bounded_round. intros g. apply bounded_bind; [auto with advances|]. intros n.
    apply (bounded_fuel fuel (fun f => readDeltas f t 0 n e [])); [intros m; apply readDeltas_bounded|]. intros ds. apply IH.
Qed.

Lemma decodeAckFrame_advances header params t : advances (decodeAckFrame header params t).
Proof.
  unfold decodeAckFrame. do 4 (apply advances_bind; [auto with advances|intros ?]). do 2 (apply advances_bind; [auto with advances|intros ?]).
  apply advances_fuel; [intros m; apply readAckBlocks_bounded|]. intros ?. apply advances_ret.
Qed.
#[local] Hint Resolve decodeAckFrame_advances : advances.

Lemma decodeTimestamps_advances header params t : advances (decodeAckFrameWithReceivedTimestamps header params t).
Proof.
  unfold decodeAckFrameWithReceivedTimestamps. do 4 (apply advances_bind; [auto with advances|intros ?]).
  apply advances_fuel; [intros m; apply readTimestampRanges_bounded|]. intros ?. apply advances_ret.
Qed.
#[local] Hint Resolve decodeTimestamps_advances : advances.

Lemma decodePaddingFrame_advances : advances decodePaddingFrame.
Proof.
  intros l Hl. unfold decodePaddingFrame. destruct l as [|x l]; [done|].
  destruct (negb _); [done|]. destruct (bool_decide _); [|done]. split; [constructor|simpl; lia].
Qed.

(** Parsers that are sequences of readers. *)
Ltac advance := repeat first [solve [auto with advances] | apply advances_bind; [|intros ?] | case_match].

Lemma decodeStreamFrame_advances t g : advances (decodeStreamFrame t g).
Proof. unfold decodeStreamFrame. advance. Qed.

Lemma decodeDatagramFrame_advances b : advances (decodeDatagramFrame b).
Proof. unfold decodeDatagramFrame. advance. Qed.

Lemma decodeAckFrameWithECN_advances header params : advances (decodeAckFrameWithECN header params).
Proof. unfold decodeAckFrameWithECN. advance. Qed.
#[local] Hint Resolve decodePaddingFrame_advances decodeStreamFrame_advances decodeDatagramFrame_advances decodeAckFrameWithECN_advances : advances.

Lemma frameParser_advances header params t p : frameParser header params t = Some p -> advances p.
Proof.
  unfold frameParser. intros E. repeat (case_match; [injection E as <-; try (by auto with advances); unfold_parser; by advance|]). done.
Qed.

(** A frame takes at least its type, and what goes wrong is an encoding error. *)
Lemma parseFrame_total header params q : bytes_ok q ->
  (exists f r, parseFrame header params q = POk f r /\ bytes_ok r /\ (length r < length q)%nat) \/ exists e, parseFrame header params q = PErr e.
Proof.
  intros Hq. unfold parseFrame. destruct (QuicInteger.decodeQuicInteger q 8) as [[[t n] r]|] eqn:E; [|right; by eexists].
  apply QuicInteger.decode_some in E as (_ & Hn & _ & Hz & Hr & _); [|done|lia].
  destruct (frameParser header params t) as [p|] eqn:Ep; [|right; by eexists].
  pose proof (frameParser_advances _ _ _ _ Ep r Hr) as Ha. destruct (p r) as [f r'| | |]; [|right; by eexists..|done].
  left. exists f, r'. destruct Ha. split_and!; [done..|]. unfold zlen in Hz. lia.
Qed.

(** Neighbouring padding is one frame. *)
Definition merged (l : list QuicFrame) : Prop :=
  forall i f g, l !! i = Some f -> l !! S i = Some g -> isPadding f && isPadding g = false.

Lemma merged_snoc l f : merged l -> (forall g, last l = Some g -> isPadding g && isPadding f = false) -> merged (l ++ [f]).
Proof.
  intros Hl Hf i g h Hg [Hh|[E <-]]%lookup_snoc_Some; [|].
  - apply (Hl i); [|apply Hh]. rewrite lookup_app_l in Hg; [done|]. lia.
  - apply Hf. rewrite last_lookup, <- E. simpl. rewrite lookup_app_l in Hg by lia. done.
Qed.

Lemma merged_push l f : merged l -> merged (push_frame l f) /\ (length (push_frame l f) <= S (length l))%nat.
Proof.
  intros Hl. unfold push_frame. destruct l as [|x l _] using rev_ind; [simpl; split; [by apply (merged_snoc [] f)|lia]|].
  rewrite last_snoc, removelast_last. assert (Hx : merged l /\ forall g, last l = Some g -> isPadding g && isPadding x = false).
  { split.
    - intros i g h Hg Hh. apply (Hl i); by rewrite lookup_app_l by (by eapply lookup_lt_Some).
    - intros g Hg. rewrite last_lookup in Hg. pose proof (lookup_lt_Some _ _ _ Hg). apply (Hl (pred (length l))); [by rewrite lookup_app_l|].
      rewrite lookup_app_r by lia. by replace (S (pred (length l)) - length l)%nat with 0%nat by lia. }
  destruct Hx as [H1 H2].
  assert (Hsnoc : isPadding x && isPadding f = false -> merged ((l ++ [x]) ++ [f]) /\ (length ((l ++ [x]) ++ [f]) <= S (length (l ++ [x])))%nat).
  { intros Hp. split; [|rewrite !length_app; simpl; lia]. apply merged_snoc; [done|]. rewrite last_snoc. by intros g [= <-]. }
  destruct x; try (by apply Hsnoc). destruct f; try (by apply Hsnoc). split; [|rewrite !length_app; simpl; lia]. by apply merged_snoc.
Qed.

Lemma parseFrames_total header params fuel : forall l q, bytes_ok q -> merged l -> (length q <= fuel)%nat ->
  (exists fs, parseFrames fuel header params l q = POk fs [] /\ merged fs /\ (length fs <= length l + length q)%nat) \/
  exists e, parseFrames fuel header params l q = PErr e.
Proof.
  induction fuel as [|fuel IH]; intros l q Hq Hl Hlen.
  - destruct q; [|simpl in Hlen; lia]. left. exists l. split_and!; (done || lia).
  - destruct q as [|x q]; [left; exists l; split_and!; (done || lia)|]. destruct (parseFrame_total header params (x :: q) Hq) as [(f & r & E & Hr & Hlt)|[e E]].
    + cbn [parseFrames]. rewrite (pbind_ok _ _ _ f r) by done. destruct (merged_push l f Hl) as [Hm Hn].
      destruct (IH (push_frame l f) r Hr Hm ltac:(lia)) as [(fs & -> & H1 & H2)|[e ->]]; [left|right; by eexists]. exists fs. split_and!; (done || lia).
    + right. exists e. cbn [parseFrames]. unfold mbind, parser_bind. by rewrite E.
Qed.

(** The reader of a packet's payload survives any bytes: it returns frames after it has
    used up the payload, no more of them than there are bytes and with neighbouring padding
    merged, or it throws a transport error with the code FRAME_ENCODING_ERROR.  It does not
    run past the end and does not loop, whatever counts and lengths the frames announce. *)
Lemma payload_total header params payload :
  bytes_ok payload ->
  (exists received, decodeRegularPacket header params payload = POk received [] /\ merged received /\ zlen received <= zlen payload) \/
  exists frameType, decodeRegularPacket header params payload = PErr (BadFrame frameType).
Proof.
  intros H. destruct (parseFrames_total header params (length payload) [] payload H) as [(fs & E & Hm & Hl)|[[t] E]]; [done..| |].
  - left. exists fs. split_and!; try done. unfold zlen. simpl in Hl. lia.
  - right. by eexists.
Qed.

End QuicPackets.
