(* ===== verification/IEEE754.v ===== *)
(** * Floating point

    [float] and [double] of the congestion controllers: IEEE 754 binary32 and
    binary64, round to nearest even, on the executable specification of the
    Standard Library ([SpecFloat]); no primitive floats are used.  Integers are
    converted by rounding; a conversion back truncates, and is undefined when the
    truncated value does not fit the target type. *)

From Stdlib Require Import SpecFloat.
From S2P Require Import Prelude.

Module IEEE754.

Definition float : Set := spec_float.

(** ** Operations *)

(** binary32. *)
Definition f32_of_Z (z : Z) : float := binary_normalize 24 128 z 0 false.
Definition f32_add : float -> float -> float := SFadd 24 128.
Definition f32_sub : float -> float -> float := SFsub 24 128.
Definition f32_mul : float -> float -> float := SFmul 24 128.
Definition f32_div : float -> float -> float := SFdiv 24 128.
Definition f32_opp : float -> float := SFopp.

(** binary64. *)
Definition f64_of_Z (z : Z) : float := binary_normalize 53 1024 z 0 false.
Definition f64_add : float -> float -> float := SFadd 53 1024.
Definition f64_mul : float -> float -> float := SFmul 53 1024.
Definition f64_div : float -> float -> float := SFdiv 53 1024.
Definition f64_ltb : float -> float -> bool := SFltb.

(** The nearest double to the decimal literal [num / den]. *)
Definition f64_lit (num den : Z) : float := f64_div (f64_of_Z num) (f64_of_Z den).

(** ** Conversion to an integer *)

(** The integer part, towards zero. *)
Definition trunc (x : float) : option Z :=
  match x with
  | S754_zero _ => Some 0
  | S754_finite s m e =>
      let v := if 0 <=? e then Z.pos m * 2 ^ e else Z.pos m / 2 ^ (- e) in
      Some (if s then - v else v)
  | _ => None
  end.

(** What an implementation yields for an undefined conversion to an unsigned
    type of [w] bits is arbitrary, but a value of that type. *)
Class UndefinedCast := {
  undefined : Z -> float -> Z;
  undefined_range : forall w x, 0 < w -> 0 <= undefined w x < 2 ^ w }.

Definition in_range (w : Z) (x : float) : bool :=
  match trunc x with
  | Some v => (0 <=? v) && (v <? 2 ^ w)
  | None => false
  end.

Definition cast `{UndefinedCast} (w : Z) (x : float) : Z :=
  match trunc x with
  | Some v => if (0 <=? v) && (v <? 2 ^ w) then v else undefined w x
  | None => undefined w x
  end.

Lemma cast_range `{UndefinedCast} w x : 0 < w -> 0 <= cast w x < 2 ^ w.
Proof.
  intros Hw. pose proof (undefined_range w x Hw) as Hu. unfold cast.
  destruct (trunc x) as [v|]; [|done].
  destruct (Z.leb_spec 0 v), (Z.ltb_spec v (2 ^ w)); simpl; lia.
Qed.

Lemma cast_u32 `{UndefinedCast} x : is_u32 (cast 32 x).
Proof. by apply cast_range. Qed.

Lemma cast_u64 `{UndefinedCast} x : is_u64 (cast 64 x).
Proof. by apply cast_range. Qed.

(** ** Exact results

    A binary32 operation on small multiples of a power of two is exact: no bit is
    lost as long as the result has at most 24 bits. *)

(** The float [n * 2 ^ k]. *)
Definition f32_scaled (n k : Z) : float := binary_normalize 24 128 n k false.

(** The number of bits of a positive integer. *)
Definition bits (n : Z) : Z := Z.log2 n + 1.

Lemma digits_bits p : Z.pos (digits2_pos p) = bits (Z.pos p).
Proof.
  unfold bits. induction p as [p IH|p IH|]; cbn [digits2_pos]; [| |done].
  - rewrite Pos2Z.inj_succ, IH, Pos2Z.inj_xI, Z.log2_succ_double by lia. lia.
  - rewrite Pos2Z.inj_succ, IH, Pos2Z.inj_xO, Z.log2_double by lia. lia.
Qed.

Lemma bits_mul_pow2 n j : 0 < n -> 0 <= j -> bits (n * 2 ^ j) = bits n + j.
Proof. intros Hn Hj. unfold bits. rewrite Z.log2_mul_pow2 by lia. lia. Qed.

Lemma bits_le n w : 0 < n < 2 ^ w -> bits n <= w.
Proof. intros [Hn Hw]. unfold bits. apply Z.log2_lt_pow2 in Hw; lia. Qed.

Lemma bits_pos n : 0 < n -> 1 <= bits n.
Proof. intros Hn. unfold bits. pose proof (Z.log2_nonneg n). lia. Qed.

(** Shifting out zeros. *)
Lemma shr_zeros p : forall m, 0 <= m ->
  SpecFloat.iter_pos shr_1 p (Build_shr_record (m * 2 ^ Z.pos p) false false) = Build_shr_record m false false.
Proof.
  assert (Hone : forall m, 0 <= m ->
    shr_1 (Build_shr_record (m * 2) false false) = Build_shr_record m false false).
  { intros m Hm. rewrite Z.mul_comm. destruct m as [|q|q]; [done|done|lia]. }
  induction p as [p IH|p IH|]; intros m Hm; cbn [SpecFloat.iter_pos].
  - replace (m * 2 ^ Z.pos p~1) with (m * 2 ^ Z.pos p * 2 ^ Z.pos p * 2).
    + rewrite Hone by (pose proof (Z.pow_nonneg 2 (Z.pos p)); nia).
      rewrite IH by (pose proof (Z.pow_nonneg 2 (Z.pos p)); nia). by apply IH.
    + replace (Z.pos p~1) with (Z.pos p + Z.pos p + 1) by lia. rewrite !Z.pow_add_r by lia. ring.
  - replace (m * 2 ^ Z.pos p~0) with (m * 2 ^ Z.pos p * 2 ^ Z.pos p).
    + rewrite IH by (pose proof (Z.pow_nonneg 2 (Z.pos p)); nia). by apply IH.
    + replace (Z.pos p~0) with (Z.pos p + Z.pos p) by lia. rewrite Z.pow_add_r by lia. ring.
  - by apply Hone.
Qed.

Lemma shr_exact q e j :
  0 <= q -> 0 <= j ->
  shr (Build_shr_record (q * 2 ^ j) false false) e j = (Build_shr_record q false false, e + j).
Proof.
  intros Hq Hj. destruct j as [|p|p]; [|by cbn [shr]; rewrite shr_zeros|lia].
  simpl. by rewrite Z.mul_1_r, Z.add_0_r.
Qed.

(** Rounding a mantissa of at least 24 bits whose excess bits are zero. *)
Lemma round_aux_exact q e j :
  0 < q -> bits q = 24 -> 0 <= j -> -149 <= e + j <= 104 ->
  binary_round_aux 24 128 false (q * 2 ^ j) e loc_Exact = S754_finite false (Z.to_pos q) (e + j).
Proof.
  intros Hq Hb Hj He. unfold binary_round_aux, shr_fexp. cbn [shr_record_of_loc].
  assert (Hd : forall n, 0 < n -> Zdigits2 n = bits n).
  { intros n Hn. destruct n as [|p|p]; [lia|apply digits_bits|lia]. }
  assert (Hfe : forall x, -149 <= x - 24 -> fexp 24 128 x = x - 24).
  { intros x Hx. unfold fexp, emin. lia. }
  rewrite (Hd (q * 2 ^ j)) by (pose proof (Z.pow_pos_nonneg 2 j); nia).
  rewrite bits_mul_pow2, Hb, Hfe by lia.
  replace (24 + j + e - 24 - e) with j by lia.
  rewrite shr_exact by lia. cbn [shr_m loc_of_shr_record round_nearest_even].
  rewrite Hd, Hb, Hfe by lia. replace (24 + (e + j) - 24 - (e + j)) with 0 by lia.
  cbn [shr shr_m]. destruct q as [|p|p]; [lia| |lia]. cbn [Z.to_pos].
  by rewrite (proj2 (Z.leb_le _ _)) by lia.
Qed.

Lemma iter_xO p y : Z.pos (Pos.iter xO p y) = Z.pos p * 2 ^ Z.pos y.
Proof.
  induction y as [|y IH] using Pos.peano_ind; [cbn; lia|].
  rewrite Pos.iter_succ, Pos2Z.inj_succ, Z.pow_succ_r, Pos2Z.inj_xO, IH by lia. ring.
Qed.

(** A mantissa of at least 24 bits is not shifted left. *)
Lemma normalize_long q e j :
  0 < q -> bits q = 24 -> 0 <= j -> -149 <= e + j <= 104 ->
  binary_normalize 24 128 (q * 2 ^ j) e false = S754_finite false (Z.to_pos q) (e + j).
Proof.
  intros Hq Hb Hj He. rewrite <- (round_aux_exact q e j Hq Hb Hj He).
  assert (Hp : 0 < q * 2 ^ j) by (pose proof (Z.pow_pos_nonneg 2 j); nia).
  assert (Hbits : bits (q * 2 ^ j) = 24 + j) by (rewrite bits_mul_pow2; lia).
  destruct (q * 2 ^ j) as [|p|p]; [lia| |lia]. cbn [binary_normalize]. unfold binary_round.
  rewrite digits_bits, Hbits.
  assert (fexp 24 128 (24 + j + e) = j + e) as -> by (unfold fexp, emin; lia).
  unfold shl_align. replace (j + e - e) with j by lia. by destruct j; [| |lia].
Qed.

(** The mantissa and the exponent of [n * 2 ^ k]. *)
Lemma scaled_normal n k :
  0 < n < 2 ^ 24 -> -100 <= k <= 80 ->
  f32_scaled n k = S754_finite false (Z.to_pos (n * 2 ^ (24 - bits n))) (k + bits n - 24).
Proof.
  intros Hn Hk. pose proof (bits_le n 24 Hn) as Hb. pose proof (bits_pos n ltac:(lia)) as Hb1.
  unfold f32_scaled, binary_normalize. destruct n as [|p|p]; [lia| |lia]. unfold binary_round.
  rewrite digits_bits. set (d := bits (Z.pos p)) in *.
  assert (fexp 24 128 (d + k) = d + k - 24) as -> by (unfold fexp, emin; lia).
  unfold shl_align. replace (d + k - 24 - k) with (d - 24) by lia.
  assert (Hbit : bits (Z.pos p * 2 ^ (24 - d)) = 24) by (rewrite bits_mul_pow2; unfold d in *; lia).
  assert (Hpow : 0 < Z.pos p * 2 ^ (24 - d)) by (pose proof (Z.pow_pos_nonneg 2 (24 - d)); nia).
  destruct (d - 24) as [|x|x] eqn:Hx.
  - replace (24 - d) with 0 in * by lia. rewrite Z.pow_0_r, Z.mul_1_r in *.
    rewrite <- (Z.mul_1_r (Z.pos p)) at 1. change 1 with (2 ^ 0).
    rewrite round_aux_exact by (done || lia). f_equal. lia.
  - lia.
  - replace (Z.pos (Pos.iter xO p x)) with (Z.pos p * 2 ^ (24 - d)).
    + rewrite <- (Z.mul_1_r (Z.pos p * 2 ^ (24 - d))) at 1. change 1 with (2 ^ 0).
      rewrite round_aux_exact by (done || lia). f_equal. lia.
    + replace (24 - d) with (Z.pos x) by lia.
      by rewrite iter_xO.
Qed.

Lemma f32_mul_exact n m k j :
  0 <= n < 2 ^ 24 -> 0 <= m < 2 ^ 24 -> n * m < 2 ^ 24 ->
  -50 <= k <= 40 -> -50 <= j <= 40 ->
  f32_mul (f32_scaled n k) (f32_scaled m j) = f32_scaled (n * m) (k + j).
Proof.
  intros Hn Hm Hnm Hk Hj.
  destruct (decide (n = 0)) as [->|Hn0].
  { rewrite Z.mul_0_l. destruct (decide (m = 0)) as [->|Hm0]; [done|].
    rewrite (scaled_normal m j) by lia. done. }
  destruct (decide (m = 0)) as [->|Hm0].
  { rewrite Z.mul_0_r. rewrite (scaled_normal n k) by lia. done. }
  assert (0 < n * m) by nia. rewrite !scaled_normal by lia.
  pose proof (bits_le n 24 ltac:(lia)). pose proof (bits_le m 24 ltac:(lia)).
  pose proof (bits_le (n * m) 24 ltac:(lia)). pose proof (bits_pos n ltac:(lia)). pose proof (bits_pos m ltac:(lia)).
  assert (Hbm : bits n + bits m - 1 <= bits (n * m) <= bits n + bits m).
  { unfold bits. pose proof (Z.log2_mul_below n m ltac:(lia) ltac:(lia)).
    pose proof (Z.log2_mul_above n m ltac:(lia) ltac:(lia)). lia. }
  unfold f32_mul. cbn [SFmul xorb]. rewrite Pos2Z.inj_mul, !Z2Pos.id
    by (apply Z.mul_pos_pos; [lia|apply Z.pow_pos_nonneg; lia]).
  set (q := n * m * 2 ^ (24 - bits (n * m))). set (w := 24 - bits n + (24 - bits m) - (24 - bits (n * m))).
  replace (n * 2 ^ (24 - bits n) * (m * 2 ^ (24 - bits m))) with (q * 2 ^ w).
  - rewrite round_aux_exact; unfold w, q; try lia.
    + f_equal. lia.
    + rewrite bits_mul_pow2; lia.
  - unfold q, w. rewrite <- Z.mul_assoc, <- Z.pow_add_r by lia.
    replace (24 - bits (n * m) + (24 - bits n + (24 - bits m) - (24 - bits (n * m))))
      with (24 - bits n + (24 - bits m)) by lia. rewrite Z.pow_add_r by lia. ring.
Qed.

(** A mantissa aligned to a smaller exponent. *)
Lemma shl_align_scaled n k ez :
  0 < n < 2 ^ 24 -> ez <= k + bits n - 24 ->
  Z.pos (fst (shl_align (Z.to_pos (n * 2 ^ (24 - bits n))) (k + bits n - 24) ez)) = n * 2 ^ (k - ez).
Proof.
  intros Hn He. pose proof (bits_le n 24 Hn). pose proof (bits_pos n ltac:(lia)).
  assert (Hp : 0 < n * 2 ^ (24 - bits n)) by (pose proof (Z.pow_pos_nonneg 2 (24 - bits n)); nia).
  unfold shl_align. destruct (ez - (k + bits n - 24)) as [|x|x] eqn:Hx; [|lia|].
  - cbn [fst]. rewrite Z2Pos.id by done. do 2 f_equal. lia.
  - cbn [fst]. rewrite iter_xO, Z2Pos.id by done. rewrite <- Z.mul_assoc, <- Z.pow_add_r by lia.
    do 2 f_equal. lia.
Qed.

Lemma f32_add_exact n m k :
  0 <= n < 2 ^ 24 -> 0 <= m < 2 ^ 24 -> n + m < 2 ^ 24 -> -50 <= k <= 40 ->
  f32_add (f32_scaled n k) (f32_scaled m k) = f32_scaled (n + m) k.
Proof.
  intros Hn Hm Hnm Hk.
  destruct (decide (n = 0)) as [->|Hn0].
  { rewrite Z.add_0_l. destruct (decide (m = 0)) as [->|Hm0]; [done|].
    rewrite (scaled_normal m k) by lia. done. }
  destruct (decide (m = 0)) as [->|Hm0].
  { rewrite Z.add_0_r. rewrite (scaled_normal n k) by lia. done. }
  rewrite (scaled_normal n k), (scaled_normal m k) by lia.
  unfold f32_add. cbn [SFadd cond_Zopp]. set (ez := Z.min _ _).
  assert (Hez : ez <= k + bits n - 24 /\ ez <= k + bits m - 24) by (unfold ez; lia).
  rewrite !shl_align_scaled by (done || lia). rewrite <- Z.mul_add_distr_r.
  pose proof (bits_le n 24 ltac:(lia)). pose proof (bits_le m 24 ltac:(lia)).
  pose proof (bits_pos n ltac:(lia)). pose proof (bits_pos m ltac:(lia)).
  pose proof (bits_le (n + m) 24 ltac:(lia)) as Hb.
  assert (bits n <= bits (n + m) /\ bits m <= bits (n + m)) as [Hb1 Hb2].
  { unfold bits. pose proof (Z.log2_le_mono n (n + m) ltac:(lia)).
    pose proof (Z.log2_le_mono m (n + m) ltac:(lia)). lia. }
  rewrite (scaled_normal (n + m) k) by lia.
  set (q := (n + m) * 2 ^ (24 - bits (n + m))). set (w := k - ez - (24 - bits (n + m))).
  assert (Hq : (n + m) * 2 ^ (k - ez) = q * 2 ^ w).
  { unfold q, w. rewrite <- Z.mul_assoc, <- Z.pow_add_r by lia. do 2 f_equal. lia. }
  assert (Hqb : 0 < q /\ bits q = 24).
  { unfold q. rewrite bits_mul_pow2 by lia. pose proof (Z.pow_pos_nonneg 2 (24 - bits (n + m))).
    split; [nia|lia]. }
  rewrite Hq, normalize_long by lia. f_equal. unfold w. lia.
Qed.

Lemma trunc_scaled n k :
  0 <= n < 2 ^ 24 -> -50 <= k <= 0 -> trunc (f32_scaled n k) = Some (n / 2 ^ (- k)).
Proof.
  intros Hn Hk. destruct (decide (n = 0)) as [->|Hn0].
  { simpl. by rewrite Z.div_0_l by (pose proof (Z.pow_pos_nonneg 2 (- k)); lia). }
  rewrite scaled_normal by lia. pose proof (bits_le n 24 ltac:(lia)). pose proof (bits_pos n ltac:(lia)).
  assert (Hp : 0 < n * 2 ^ (24 - bits n)) by (pose proof (Z.pow_pos_nonneg 2 (24 - bits n)); nia).
  cbn [trunc]. rewrite Z2Pos.id by done. f_equal. destruct (Z.leb_spec 0 (k + bits n - 24)).
  - replace (24 - bits n) with 0 by lia. replace (k + bits n - 24) with 0 by lia.
    replace (- k) with 0 by lia. by rewrite !Z.pow_0_r, Z.div_1_r, !Z.mul_1_r.
  - replace (- (k + bits n - 24)) with (- k + (24 - bits n)) by lia.
    rewrite Z.pow_add_r by lia. apply Z.div_mul_cancel_r; apply Z.pow_nonzero; lia.
Qed.

(** Conversions of x86-64: an unsigned conversion that is out of range yields a
    value with the top bit set. *)
#[program] Definition x86_64 : UndefinedCast := {| undefined w _ := 2 ^ (w - 1) |}.
Next Obligation.
  intros w x Hw. simpl. split; [apply Z.pow_nonneg; lia|]. apply Z.pow_lt_mono_r; lia.
Qed.

End IEEE754.
