(* ===== verification/CongestionControl.v ===== *)
(** * Congestion control: the interface and its clients
    ([src/proxygen/proxygen/_build/deps/mvfst/quic/congestion_control/]
    [CongestionController.h], [CongestionControlFunctions.cpp])

    The data the controllers share, the arithmetic helpers, and the interface of
    [CongestionController] as a type class with the laws a sender relies on.  The
    theorem about senders is proved from the laws alone; [NewReno.v], [Westwood.v]
    and [WestwoodOWD.v] discharge them. *)

From S2P Require Import Prelude.

Module CongestionControl.

(** ** Results: a value or a [QuicInternalException] *)

Inductive LocalErrorCode := CWND_OVERFLOW | LOST_BYTES_OVERFLOW | EMPTY_OPTIONAL.

Inductive res (A : Type) : Type :=
| Ok (a : A)
| Throw (e : LocalErrorCode).
#[global] Arguments Ok {A} a.
#[global] Arguments Throw {A} e.

#[global] Instance res_ret : MRet res := fun A a => Ok a.
#[global] Instance res_bind : MBind res := fun A B k m =>
  match m with
  | Ok a => k a
  | Throw e => Throw e
  end.

(** [*optional]. *)
Definition deref {A} (o : option A) : res A :=
  match o with Some a => Ok a | None => Throw EMPTY_OPTIONAL end.

(** ** Helpers *)

Definition boundedCwnd (cwndBytes packetLength maxCwndInMss minCwndInMss : Z) : Z :=
  Z.max (Z.min cwndBytes (u64 (maxCwndInMss * packetLength))) (u64 (minCwndInMss * packetLength)).

(** [T1] is [uint64_t] at every call. *)
Definition addAndCheckOverflow (value toAdd : Z) : res Z :=
  if u64 (UINT64_MAX - toAdd) <? value then Throw CWND_OVERFLOW else Ok (u64 (value + toAdd)).

Definition subtractAndCheckUnderflow (value toSub : Z) : res Z :=
  if value <? toSub then Throw CWND_OVERFLOW else Ok (u64 (value - toSub)).

Definition kDefaultUDPSendPacketLen : Z := 1232.
Definition kInitCwndInMss : Z := 10.
Definition kMinCwndInMss : Z := 2.
Definition kDefaultMaxCwndInMss : Z := 2000.

(** In range, the helpers are the operations on integers. *)
Lemma add_ok v n : is_u64 v -> 0 <= n -> v + n < 2 ^ 64 -> addAndCheckOverflow v n = Ok (v + n).
Proof.
  intros Hv Hn Hs. unfold addAndCheckOverflow. rewrite (u64_id (UINT64_MAX - n)) by (unfold_ints; lia).
  rewrite (proj2 (Z.ltb_ge _ _)) by (unfold_ints; lia). rewrite u64_id; [done|]. unfold_ints. lia.
Qed.

Lemma sub_ok v n : is_u64 v -> 0 <= n <= v -> subtractAndCheckUnderflow v n = Ok (v - n).
Proof.
  intros Hv Hn. unfold subtractAndCheckUnderflow. rewrite (proj2 (Z.ltb_ge _ _)) by lia.
  rewrite u64_id; [done|]. unfold_ints. lia.
Qed.

(** ** Data

    The fields of [QuicConnectionStateBase] in use: [udpSendPacketLen], the window
    limits of [transportSettings], and [lossState.inflightBytes].  A time point is a
    number of nanoseconds; a reading of the clock is an argument. *)
Record Conn := mkConn {
  udpSendPacketLen : Z; initCwndInMss : Z; minCwndInMss : Z; maxCwndInMss : Z;
  inflightBytes : Z }.

Definition with_inflight (c : Conn) (n : Z) : Conn :=
  mkConn (udpSendPacketLen c) (initCwndInMss c) (minCwndInMss c) (maxCwndInMss c) n.

Definition default_conn : Conn :=
  mkConn kDefaultUDPSendPacketLen kInitCwndInMss kMinCwndInMss kDefaultMaxCwndInMss 0.

(** [OutstandingPacketMetadata], and the receive time stamp of [AckPacket]. *)
Record Packet := mkPacket {
  packetNum : Z; time : Z; encodedSize : Z; receiveRelativeTimeStampUsec : option Z }.

Record AckEvent := mkAck {
  ackTime : Z; rttSample : option Z; ackedBytes : Z;
  largestNewlyAckedPacket : option Z; ackedPackets : list Packet }.

Record LossEvent := mkLoss {
  largestLostPacketNum : option Z; lostPacketNumbers : list Z; lostBytes : Z; lostPackets : Z;
  largestLostSentTime : option Z; smallestLostSentTime : option Z; persistentCongestion : bool }.

Definition emptyLoss : LossEvent := mkLoss None [] 0 0 None None false.

Definition addLostPacket (l : LossEvent) (p : Packet) : res LossEvent :=
  if u64 (UINT64_MAX - lostBytes l) <? encodedSize p then Throw LOST_BYTES_OVERFLOW
  else Ok (mkLoss
    (Some (Z.max (packetNum p) (default (packetNum p) (largestLostPacketNum l))))
    (lostPacketNumbers l ++ [packetNum p])
    (u64 (lostBytes l + encodedSize p))
    (u32 (lostPackets l + 1))
    (Some (Z.max (time p) (default (time p) (largestLostSentTime l))))
    (Some (Z.min (time p) (default (time p) (smallestLostSentTime l))))
    (persistentCongestion l)).

(** ** The interface *)

(** A handler may read the clock several times: [clock n] is the [n]-th reading. *)
Class CongestionController (T : Type) := {
  create : Conn -> Z -> T;
  conn : T -> Conn;
  getCongestionWindow : T -> Z;
  getWritableBytes : T -> res Z;
  onPacketSent : T -> Packet -> res T;
  onRemoveBytesFromInflight : T -> Z -> res T;
  onPacketAckOrLoss : T -> option AckEvent -> option LossEvent -> (nat -> Z) -> res T }.

Definition inflight `{CongestionController T} (s : T) : Z := inflightBytes (conn s).

(** ** Laws *)

(** The window limits in bytes. *)
Definition lo (c : Conn) : Z := minCwndInMss c * udpSendPacketLen c.
Definition hi (c : Conn) : Z := Z.max (lo c) (maxCwndInMss c * udpSendPacketLen c).

(** Settings for which no 64-bit product wraps and no window is empty. *)
Definition settings_ok (c : Conn) : Prop :=
  0 < udpSendPacketLen c < 2 ^ 16 /\ 0 < minCwndInMss c < 2 ^ 32 /\
  0 <= maxCwndInMss c < 2 ^ 32 /\ 0 <= initCwndInMss c < 2 ^ 32.

Lemma default_conn_ok : settings_ok default_conn.
Proof.
  unfold settings_ok, default_conn, kDefaultUDPSendPacketLen, kInitCwndInMss, kMinCwndInMss,
    kDefaultMaxCwndInMss. simpl. lia.
Qed.

Definition same_settings (c c' : Conn) : Prop :=
  udpSendPacketLen c' = udpSendPacketLen c /\ minCwndInMss c' = minCwndInMss c /\
  maxCwndInMss c' = maxCwndInMss c.

Definition packet_ok (p : Packet) : Prop := 0 < encodedSize p < 2 ^ 16.

(** Events about packets in flight: their bytes are counted in flight, and a loss
    event names a lost packet. *)
Definition acked (a : option AckEvent) : Z :=
  match a with
  | Some a => if bool_decide (is_Some (largestNewlyAckedPacket a)) then ackedBytes a else 0
  | None => 0
  end.
Definition lost (l : option LossEvent) : Z := from_option lostBytes 0 l.

Definition event_ok (a : option AckEvent) (l : option LossEvent) : Prop :=
  (forall e, a = Some e -> 0 <= ackedBytes e /\ Forall packet_ok (ackedPackets e) /\
     zlen (ackedPackets e) < 2 ^ 32) /\
  (forall e, l = Some e -> 0 <= lostBytes e /\ is_Some (largestLostSentTime e)).

Class CongestionControllerLaws (T : Type) `{CongestionController T} := {
  inv : T -> Prop;
  create_law c t : settings_ok c -> inflightBytes c = 0 ->
    inv (create c t) /\ inflight (create c t) = 0 /\ same_settings c (conn (create c t));
  window_law s : inv s -> lo (conn s) <= getCongestionWindow s <= hi (conn s);
  writable_law s : inv s ->
    getWritableBytes s = Ok (Z.max 0 (getCongestionWindow s - inflight s));
  sent_law s p : inv s -> packet_ok p -> inflight s + encodedSize p < 2 ^ 64 ->
    exists s', onPacketSent s p = Ok s' /\ inv s' /\ same_settings (conn s) (conn s') /\
      inflight s' = inflight s + encodedSize p /\
      getCongestionWindow s' = getCongestionWindow s;
  remove_law s n : inv s -> 0 <= n <= inflight s ->
    exists s', onRemoveBytesFromInflight s n = Ok s' /\ inv s' /\
      same_settings (conn s) (conn s') /\ inflight s' = inflight s - n /\
      getCongestionWindow s' = getCongestionWindow s;
  event_law s a l clock : inv s -> event_ok a l -> acked a + lost l <= inflight s ->
    exists s', onPacketAckOrLoss s a l clock = Ok s' /\ inv s' /\
      same_settings (conn s) (conn s') /\ inflight s' = inflight s - acked a - lost l }.

(** The settings of a connection as the controllers pass them. *)
Definition bounded (c : Conn) (cwnd : Z) : Z :=
  boundedCwnd cwnd (udpSendPacketLen c) (maxCwndInMss c) (minCwndInMss c).

Lemma products_small c :
  settings_ok c -> u64 (minCwndInMss c * udpSendPacketLen c) = lo c /\
  u64 (maxCwndInMss c * udpSendPacketLen c) = maxCwndInMss c * udpSendPacketLen c /\
  0 < lo c /\ lo c <= hi c < 2 ^ 48.
Proof.
  unfold settings_ok, hi, lo. intros (? & ? & ? & ?).
  rewrite !u64_id by (unfold_ints; nia). nia.
Qed.

Lemma bounded_range c cwnd : settings_ok c -> lo c <= bounded c cwnd <= hi c.
Proof.
  intros Hc. destruct (products_small c Hc) as (Hl & Hh & _).
  unfold bounded, boundedCwnd. rewrite Hl, Hh. unfold hi. lia.
Qed.

Lemma bounded_u64 c cwnd : settings_ok c -> is_u64 (bounded c cwnd).
Proof.
  intros Hc. pose proof (bounded_range c cwnd Hc). destruct (products_small c Hc) as (_ & _ & ? & ?).
  unfold_ints. lia.
Qed.

Lemma bounded_id c cwnd : settings_ok c -> lo c <= cwnd <= hi c -> bounded c cwnd = cwnd.
Proof.
  intros Hc. destruct (products_small c Hc) as (Hl & Hh & _).
  unfold bounded, boundedCwnd. rewrite Hl, Hh. unfold hi. lia.
Qed.

Lemma bounded_le c cwnd : settings_ok c -> bounded c cwnd <= Z.max cwnd (lo c).
Proof.
  intros Hc. destruct (products_small c Hc) as (Hl & Hh & _).
  unfold bounded, boundedCwnd. rewrite Hl, Hh. lia.
Qed.

Lemma same_settings_trans c1 c2 c3 :
  same_settings c1 c2 -> same_settings c2 c3 -> same_settings c1 c3.
Proof. unfold same_settings. intuition congruence. Qed.

Lemma event_nonneg a l : event_ok a l -> 0 <= acked a /\ 0 <= lost l.
Proof.
  intros [Ha Hl]. split.
  - destruct a as [a|]; simpl; [|done]. destruct (Ha a eq_refl) as (? & _). case_bool_decide; lia.
  - destruct l as [l|]; simpl; [|done]. by destruct (Hl l eq_refl).
Qed.

(** Adding lost packets to an event. *)
Fixpoint addLostPackets (l : LossEvent) (ps : list Packet) : res LossEvent :=
  match ps with
  | [] => mret l
  | p :: ps => l ← addLostPacket l p; addLostPackets l ps
  end.

Definition total_size (ps : list Packet) : Z := foldr (fun p n => encodedSize p + n) 0 ps.

Lemma total_size_nonneg ps : Forall packet_ok ps -> 0 <= total_size ps.
Proof. induction 1 as [|p ps Hp _ IH]; [done|]. unfold packet_ok in Hp. simpl. lia. Qed.

(** The event of some lost packets counts their bytes, and its time is that of the
    packet sent last: it is one of the events the laws are about. *)
Lemma addLostPackets_ok ps : forall l,
  Forall packet_ok ps -> 0 <= lostBytes l -> lostBytes l + total_size ps < 2 ^ 64 ->
  (ps <> [] \/ is_Some (largestLostSentTime l)) ->
  exists l', addLostPackets l ps = Ok l' /\ lostBytes l' = lostBytes l + total_size ps /\
    (exists ts, largestLostSentTime l' = Some ts /\ Forall (fun p => time p <= ts) ps /\
       forall ts0, largestLostSentTime l = Some ts0 -> ts0 <= ts).
Proof.
  induction ps as [|p ps IH]; intros l Hps Hl Hb Hne; cbn [addLostPackets total_size foldr].
  { exists l. split; [done|]. split; [lia|]. destruct Hne as [?|[ts Hts]]; [done|].
    exists ts. split; [done|]. split; [constructor|]. rewrite Hts. intros ? [= ->]. lia. }
  inversion Hps as [|? ? Hp Hps']; subst. cbn [total_size foldr] in Hb. fold (total_size ps) in *.
  pose proof (total_size_nonneg ps Hps'). unfold packet_ok in Hp. unfold addLostPacket.
  rewrite (u64_id (UINT64_MAX - _)) by (unfold_ints; lia).
  rewrite (proj2 (Z.ltb_ge _ _)) by (unfold_ints; lia). cbn [mbind res_bind].
  set (l1 := mkLoss _ _ _ _ _ _ _).
  destruct (IH l1 Hps') as (l' & -> & Hb' & ts & Hts & Hfa & Hmax).
  - cbn. apply u64_range.
  - cbn. rewrite u64_id by (unfold_ints; lia). lia.
  - right. cbn. by eexists.
  - cbn in *. rewrite u64_id in Hb' by (unfold_ints; lia). exists l'. split; [done|]. split; [lia|].
    exists ts. specialize (Hmax _ eq_refl). split; [done|].
    destruct (largestLostSentTime l) as [t0|]; cbn in Hmax.
    + split; [constructor; [lia|done]|]. intros ? [= ->]. lia.
    + split; [constructor; [lia|done]|done].
Qed.

(** The dispatch all the controllers share: the loss first, then the ack when it
    acknowledges something new. *)
Lemma dispatch_ok {T} (cn : T -> Conn) (I : T -> Prop) (onLoss : T -> LossEvent -> res T)
    (onAck : T -> AckEvent -> res T) s a l :
  (forall s loss, I s -> is_Some (largestLostSentTime loss) ->
     0 <= lostBytes loss <= inflightBytes (cn s) ->
     exists s', onLoss s loss = Ok s' /\ I s' /\ same_settings (cn s) (cn s') /\
       inflightBytes (cn s') = inflightBytes (cn s) - lostBytes loss) ->
  (forall s ack, I s -> Forall packet_ok (ackedPackets ack) -> zlen (ackedPackets ack) < 2 ^ 32 ->
     0 <= ackedBytes ack <= inflightBytes (cn s) ->
     exists s', onAck s ack = Ok s' /\ I s' /\ same_settings (cn s) (cn s') /\
       inflightBytes (cn s') = inflightBytes (cn s) - ackedBytes ack) ->
  I s -> event_ok a l -> acked a + lost l <= inflightBytes (cn s) ->
  exists s',
    (s ← match l with Some loss => onLoss s loss | None => mret s end;
     match a with
     | Some ack => if bool_decide (is_Some (largestNewlyAckedPacket ack)) then onAck s ack else mret s
     | None => mret s
     end) = Ok s' /\
    I s' /\ same_settings (cn s) (cn s') /\
    inflightBytes (cn s') = inflightBytes (cn s) - acked a - lost l.
Proof.
  intros HL HA Hi He Hle. destruct (event_nonneg a l He) as [Ha0 Hl0]. destruct He as [Ha Hl].
  assert (exists s1, match l with Some loss => onLoss s loss | None => mret s end = Ok s1 /\
    I s1 /\ same_settings (cn s) (cn s1) /\
    inflightBytes (cn s1) = inflightBytes (cn s) - lost l) as (s1 & -> & Hi1 & Hs1 & Hf1).
  { destruct l as [l|]; simpl in *.
    - destruct (Hl l eq_refl) as [Hlb Ht]. apply HL; try done. lia.
    - exists s. split; [done|]. split; [done|]. split; [by split_and!|lia]. }
  cbn [mbind res_bind]. destruct a as [a|]; simpl in *;
    [destruct (Ha a eq_refl) as (Hab & Hps & Hz); case_bool_decide|].
  - destruct (HA s1 a Hi1 Hps Hz) as (s2 & -> & Hi2 & Hs2 & Hf2); [lia|].
    exists s2. split; [done|]. split; [done|]. split; [by eapply same_settings_trans|lia].
  - exists s1. split; [done|]. split; [done|]. split; [done|lia].
  - exists s1. split; [done|]. split; [done|]. split; [done|lia].
Qed.

(** ** Senders *)

Section sender.
Context `{CC : CongestionController T}.

(** What a transport does with its controller: it writes a packet only when
    [getWritableBytes] covers it, and reports what happened to packets in flight. *)
Inductive move :=
| Send (p : Packet)
| Forget (bytes : Z)
| Report (a : option AckEvent) (l : option LossEvent) (clock : nat -> Z).

Definition perform (s : T) (m : move) : res T :=
  match m with
  | Send p => onPacketSent s p
  | Forget n => onRemoveBytesFromInflight s n
  | Report a l clock => onPacketAckOrLoss s a l clock
  end.

Definition allowed (s : T) (m : move) : Prop :=
  match m with
  | Send p => packet_ok p /\ exists n, getWritableBytes s = Ok n /\ encodedSize p <= n
  | Forget n => 0 <= n <= inflight s
  | Report a l _ => event_ok a l /\ acked a + lost l <= inflight s
  end.

(** The bytes a move puts into flight or takes out of it. *)
Definition effect (m : move) : Z :=
  match m with
  | Send p => encodedSize p
  | Forget n => - n
  | Report a l _ => - (acked a + lost l)
  end.

(** The states of a connection, with the bytes sent less those reported. *)
Inductive reachable (c : Conn) : T -> Z -> Prop :=
| reach_create t : reachable c (create c t) 0
| reach_move s n m s' :
    reachable c s n -> allowed s m -> perform s m = Ok s' -> reachable c s' (n + effect m).

Context `{!CongestionControllerLaws T}.

Definition bounded_in (c : Conn) (s : T) (n : Z) : Prop :=
  inv s /\ same_settings c (conn s) /\ inflight s = n /\ 0 <= n <= hi c.

Lemma same_limits c c' : same_settings c c' -> lo c' = lo c /\ hi c' = hi c.
Proof. unfold hi, lo. intros (-> & -> & ->). done. Qed.

Lemma hi_small c : settings_ok c -> 0 < lo c <= hi c /\ hi c < 2 ^ 48.
Proof. unfold settings_ok, hi, lo. intros (? & ? & ? & ?). nia. Qed.

(** Every allowed move succeeds and keeps the bounds. *)
Lemma move_ok c s n m :
  settings_ok c -> bounded_in c s n -> allowed s m ->
  exists s', perform s m = Ok s' /\ bounded_in c s' (n + effect m) /\
    (forall p, m = Send p -> inflight s' <= getCongestionWindow s').
Proof.
  intros Hc (Hi & Hs & Hn & Hr) Ha. pose proof (hi_small c Hc) as Hhi.
  pose proof (window_law s Hi) as Hw. destruct (same_limits _ _ Hs) as [Hlo Hhi'].
  rewrite Hlo, Hhi' in Hw. destruct m as [p|k|a l clock]; simpl in *.
  - destruct Ha as (Hp & k & Hk & Hle). rewrite (writable_law s Hi) in Hk. injection Hk as <-.
    unfold packet_ok in Hp.
    destruct (sent_law s p Hi Hp ltac:(lia)) as (s' & -> & Hi' & Hs' & Hn' & Hcw).
    exists s'. split; [done|]. split.
    + split; [done|]. split; [by eapply same_settings_trans|]. lia.
    + intros ? _. lia.
  - destruct (remove_law s k Hi Ha) as (s' & -> & Hi' & Hs' & Hn' & _).
    exists s'. split; [done|]. split; [|done].
    split; [done|]. split; [by eapply same_settings_trans|]. lia.
  - destruct Ha as [He Hle].
    destruct (event_law s a l clock Hi He Hle) as (s' & -> & Hi' & Hs' & Hn').
    exists s'. split; [done|]. split; [|done].
    split; [done|]. split; [by eapply same_settings_trans|].
    pose proof (event_nonneg a l He). lia.
Qed.

Lemma reachable_bounded c s n :
  settings_ok c -> inflightBytes c = 0 -> reachable c s n -> bounded_in c s n.
Proof.
  intros Hc H0. pose proof (hi_small c Hc).
  induction 1 as [t|s n m s' _ IH Ha Hp].
  - destruct (create_law c t Hc H0) as (? & Hf & ?). split_and!; try done; lia.
  - destruct (move_ok c s n m Hc IH Ha) as (s'' & Hp' & Hb & _). rewrite Hp in Hp'.
    by injection Hp' as ->.
Qed.

(** What the laws give a sender: in every reachable state the bytes in flight are
    those sent and not yet reported, at most the largest window; the window is
    within its limits; every allowed move succeeds; and a packet that was allowed
    leaves at most a window in flight. *)
Definition sender_safe (c : Conn) : Prop :=
  forall s n, reachable c s n ->
    inflight s = n /\ 0 <= n <= hi c /\ lo c <= getCongestionWindow s <= hi c /\
    (forall m, allowed s m -> exists s', perform s m = Ok s' /\
       (forall p, m = Send p -> inflight s' <= getCongestionWindow s')).

Lemma sender_is_safe c : settings_ok c -> inflightBytes c = 0 -> sender_safe c.
Proof.
  intros Hc H0 s n Hr. pose proof (reachable_bounded c s n Hc H0 Hr) as Hb.
  pose proof Hb as (Hi & Hs & Hn & Hle). pose proof (window_law s Hi) as Hw.
  destruct (same_limits _ _ Hs) as [Hlo Hhi]. rewrite Hlo, Hhi in Hw.
  split_and!; try done; try lia. intros m Ha.
  destruct (move_ok c s n m Hc Hb Ha) as (s' & ? & _ & ?). by exists s'.
Qed.

End sender.
End CongestionControl.
