(* ===== verification/NewReno.v ===== *)
(** * NewReno
    ([src/proxygen/proxygen/_build/deps/mvfst/quic/congestion_control/NewReno.cpp])

    The whole class; logging is left out. *)

From S2P Require Import Prelude CongestionControl.

Module NewReno.
Import CongestionControl.

Definition kRenoLossReductionFactorShift : Z := 1.

Record t := mk { conn_ : Conn; ssthresh_ : Z; cwndBytes_ : Z; endOfRecovery_ : option Z }.

Definition create (c : Conn) : t :=
  mk c UINT32_MAX (bounded c (u64 (initCwndInMss c * udpSendPacketLen c))) None.

Definition with_conn (s : t) (c : Conn) : t := mk c (ssthresh_ s) (cwndBytes_ s) (endOfRecovery_ s).
Definition with_cwnd (s : t) (n : Z) : t := mk (conn_ s) (ssthresh_ s) n (endOfRecovery_ s).

Definition getWritableBytes (s : t) : Z :=
  if inflightBytes (conn_ s) >? cwndBytes_ s then 0
  else u64 (cwndBytes_ s - inflightBytes (conn_ s)).

Definition getCongestionWindow (s : t) : Z := cwndBytes_ s.
Definition getSlowStartThreshold (s : t) : Z := ssthresh_ s.
Definition inSlowStart (s : t) : bool := cwndBytes_ s <? ssthresh_ s.
Definition getBytesInFlight (s : t) : Z := inflightBytes (conn_ s).

Definition onRemoveBytesFromInflight (s : t) (bytes : Z) : res t :=
  n ← subtractAndCheckUnderflow (inflightBytes (conn_ s)) bytes;
  mret (with_conn s (with_inflight (conn_ s) n)).

Definition onPacketSent (s : t) (p : Packet) : res t :=
  n ← addAndCheckOverflow (inflightBytes (conn_ s)) (encodedSize p);
  mret (with_conn s (with_inflight (conn_ s) n)).

(** [packet.time < *endOfRecovery_]. *)
Definition in_recovery (e : option Z) (sentTime : Z) : bool :=
  match e with Some e => sentTime <? e | None => false end.

Definition onPacketAcked (s : t) (p : Packet) : res t :=
  if in_recovery (endOfRecovery_ s) (time p) then mret s
  else if cwndBytes_ s <? ssthresh_ s then
    n ← addAndCheckOverflow (cwndBytes_ s) (encodedSize p);
    mret (with_cwnd s n)
  else
    let additionFactor := kDefaultUDPSendPacketLen * encodedSize p / cwndBytes_ s in
    n ← addAndCheckOverflow (cwndBytes_ s) additionFactor;
    mret (with_cwnd s n).

Fixpoint onPacketsAcked (s : t) (ps : list Packet) : res t :=
  match ps with
  | [] => mret s
  | p :: ps => s ← onPacketAcked s p; onPacketsAcked s ps
  end.

Definition onAckEvent (s : t) (ack : AckEvent) : res t :=
  n ← subtractAndCheckUnderflow (inflightBytes (conn_ s)) (ackedBytes ack);
  s ← onPacketsAcked (with_conn s (with_inflight (conn_ s) n)) (ackedPackets ack);
  mret (with_cwnd s (bounded (conn_ s) (cwndBytes_ s))).

(** [!endOfRecovery_ || *endOfRecovery_ < *loss.largestLostSentTime]. *)
Definition new_loss (e : option Z) (loss : LossEvent) : res bool :=
  match e with
  | None => mret true
  | Some e => t ← deref (largestLostSentTime loss); mret (e <? t)
  end.

Definition onPacketLoss (s : t) (loss : LossEvent) (clock : nat -> Z) : res t :=
  n ← subtractAndCheckUnderflow (inflightBytes (conn_ s)) (lostBytes loss);
  let s := with_conn s (with_inflight (conn_ s) n) in
  fresh ← new_loss (endOfRecovery_ s) loss;
  let s :=
    if (fresh : bool) then
      let cwnd := bounded (conn_ s) (Z.shiftr (cwndBytes_ s) kRenoLossReductionFactorShift) in
      mk (conn_ s) cwnd cwnd (Some (clock 0%nat))
    else s in
  mret (if persistentCongestion loss
        then with_cwnd s (u64 (minCwndInMss (conn_ s) * udpSendPacketLen (conn_ s)))
        else s).

Definition onPacketAckOrLoss (s : t) (ackEvent : option AckEvent) (lossEvent : option LossEvent)
    (clock : nat -> Z) : res t :=
  s ← match lossEvent with Some loss => onPacketLoss s loss clock | None => mret s end;
  match ackEvent with
  | Some ack => if bool_decide (is_Some (largestNewlyAckedPacket ack)) then onAckEvent s ack
                else mret s
  | None => mret s
  end.

#[global] Instance newreno : CongestionController t := {
  CongestionControl.create c _ := create c;
  CongestionControl.conn := conn_;
  CongestionControl.getCongestionWindow := getCongestionWindow;
  CongestionControl.getWritableBytes s := Ok (getWritableBytes s);
  CongestionControl.onPacketSent := onPacketSent;
  CongestionControl.onRemoveBytesFromInflight := onRemoveBytesFromInflight;
  CongestionControl.onPacketAckOrLoss := onPacketAckOrLoss }.

(** ** The laws *)

Record inv (s : t) : Prop := {
  i_settings : settings_ok (conn_ s);
  i_cwnd : lo (conn_ s) <= cwndBytes_ s <= hi (conn_ s);
  i_ssthresh : is_u64 (ssthresh_ s);
  i_inflight : is_u64 (inflightBytes (conn_ s)) }.

Lemma reno_with_inflight_inv s n : inv s -> is_u64 n -> inv (with_conn s (with_inflight (conn_ s) n)).
Proof. intros [? ? ? ?] Hn. by constructor. Qed.

Lemma reno_with_cwnd_inv s n : inv s -> lo (conn_ s) <= n <= hi (conn_ s) -> inv (with_cwnd s n).
Proof. intros [? ? ? ?] Hn. by constructor. Qed.

(** What a packet may change. *)
Definition frame (s s' : t) : Prop :=
  conn_ s' = conn_ s /\ ssthresh_ s' = ssthresh_ s /\ endOfRecovery_ s' = endOfRecovery_ s.

Lemma reno_onPacketAcked_ok s p :
  packet_ok p -> 0 < cwndBytes_ s < 2 ^ 63 ->
  exists s', onPacketAcked s p = Ok s' /\ frame s s' /\
    cwndBytes_ s <= cwndBytes_ s' <= cwndBytes_ s + kDefaultUDPSendPacketLen * encodedSize p.
Proof.
  unfold packet_ok, kDefaultUDPSendPacketLen. intros Hp Hc. unfold onPacketAcked, kDefaultUDPSendPacketLen.
  destruct (in_recovery _ _); [exists s; split; [done|]; split; [done|lia]|].
  destruct (_ <? _).
  - rewrite add_ok by (unfold_ints; lia). eexists. split; [reflexivity|]. simpl. split; [done|lia].
  - assert (0 <= 1232 * encodedSize p / cwndBytes_ s <= 1232 * encodedSize p).
    { split; [apply Z.div_pos; lia|]. apply Z.div_le_upper_bound; nia. }
    rewrite add_ok by (unfold_ints; lia). eexists. split; [reflexivity|]. simpl. split; [done|lia].
Qed.

Lemma reno_onPacketsAcked_ok ps : forall s,
  Forall packet_ok ps -> 0 < cwndBytes_ s -> cwndBytes_ s + zlen ps * 2 ^ 27 < 2 ^ 63 ->
  exists s', onPacketsAcked s ps = Ok s' /\ frame s s' /\ cwndBytes_ s <= cwndBytes_ s'.
Proof.
  induction ps as [|p ps IH]; intros s Hps Hc Hb; cbn [onPacketsAcked].
  { exists s. split; [done|]. by split. }
  inversion Hps as [|? ? Hp Hps']; subst. unfold zlen in *. cbn [length] in Hb.
  destruct (reno_onPacketAcked_ok s p Hp ltac:(lia)) as (s1 & -> & (Hf1 & Hf2 & Hf3) & Hc1).
  cbn [mbind res_bind]. unfold packet_ok, kDefaultUDPSendPacketLen in *.
  destruct (IH s1 Hps' ltac:(lia) ltac:(lia)) as (s2 & -> & (? & ? & ?) & ?).
  exists s2. split; [done|]. split; [|lia]. unfold frame. split_and!; congruence.
Qed.

Lemma reno_onAckEvent_ok s ack :
  inv s -> Forall packet_ok (ackedPackets ack) -> zlen (ackedPackets ack) < 2 ^ 32 ->
  0 <= ackedBytes ack <= inflightBytes (conn_ s) ->
  exists s', onAckEvent s ack = Ok s' /\ inv s' /\ same_settings (conn_ s) (conn_ s') /\
    inflightBytes (conn_ s') = inflightBytes (conn_ s) - ackedBytes ack.
Proof.
  intros Hi Hps Hl Ha. pose proof Hi as [Hs Hc Ht Hf]. destruct (products_small _ Hs) as (_ & _ & Hlo & Hhi).
  unfold onAckEvent. rewrite sub_ok by done. cbn [mbind res_bind].
  set (s1 := with_conn s _).
  destruct (reno_onPacketsAcked_ok (ackedPackets ack) s1 Hps) as (s2 & -> & (Hf1 & Hf2 & Hf3) & Hc2).
  { simpl. lia. } { simpl. unfold zlen in *. lia. }
  cbn [mbind res_bind]. eexists. split; [reflexivity|].
  assert (Hi1 : inv s1) by (apply reno_with_inflight_inv; [done|unfold_ints; lia]).
  assert (Hs1 : settings_ok (conn_ s1)) by apply Hi1.
  split; [|simpl; rewrite Hf1; split; [by split_and!|done]].
  destruct Hi1 as [? ? Ht1 Hf1']. constructor; simpl; rewrite ?Hf1, ?Hf2; try done.
  by apply bounded_range.
Qed.

Lemma reno_onPacketLoss_ok s loss clock :
  inv s -> is_Some (largestLostSentTime loss) -> 0 <= lostBytes loss <= inflightBytes (conn_ s) ->
  exists s', onPacketLoss s loss clock = Ok s' /\ inv s' /\ same_settings (conn_ s) (conn_ s') /\
    inflightBytes (conn_ s') = inflightBytes (conn_ s) - lostBytes loss.
Proof.
  intros Hi [t Ht] Hl. pose proof Hi as [Hs Hc Hss Hf]. destruct (products_small _ Hs) as (Hp & _ & Hlo & Hhi).
  unfold onPacketLoss. rewrite sub_ok by done. cbn [mbind res_bind].
  set (s1 := with_conn s _).
  assert (Hi1 : inv s1) by (apply reno_with_inflight_inv; [done|unfold_ints; lia]).
  assert (exists b, new_loss (endOfRecovery_ s1) loss = Ok b) as [b ->].
  { unfold new_loss. rewrite Ht. destruct (endOfRecovery_ s1); simpl; by eexists. }
  cbn [mbind res_bind]. set (s2 := if b then _ else s1).
  assert (inv s2 /\ conn_ s2 = conn_ s1) as [Hi2 Hc2].
  { unfold s2. destruct b; [|done]. split; [|done]. destruct Hi1 as [? ? ? ?].
    constructor; try done; [by apply bounded_range|by apply bounded_u64]. }
  eexists. split; [reflexivity|]. destruct (persistentCongestion loss).
  - split; [|simpl; rewrite Hc2; by split].
    apply reno_with_cwnd_inv; [done|]. rewrite Hc2. change (minCwndInMss (conn_ s1)) with (minCwndInMss (conn_ s)).
    change (udpSendPacketLen (conn_ s1)) with (udpSendPacketLen (conn_ s)). rewrite Hp.
    change (lo (conn_ s1)) with (lo (conn_ s)). change (hi (conn_ s1)) with (hi (conn_ s)). lia.
  - split; [done|]. rewrite Hc2. by split.
Qed.

#[global] Instance newreno_laws : CongestionControllerLaws t.
Proof.
  refine {| CongestionControl.inv := inv |}.
  - intros c t0 Hc H0. destruct (products_small c Hc) as (_ & _ & Hlo & Hhi).
    split; [|split; [done|by split_and!]]. constructor; simpl; try done.
    + by apply bounded_range.
    + rewrite H0. unfold_ints. lia.
  - intros s [? Hc ? ?]. exact Hc.
  - intros s [Hs Hc Ht Hf]. destruct (products_small _ Hs) as (_ & _ & Hlo & Hhi).
    simpl. unfold getWritableBytes, getCongestionWindow, inflight. simpl. rewrite Z.gtb_ltb. f_equal.
    destruct (Z.ltb_spec (cwndBytes_ s) (inflightBytes (conn_ s))); [lia|].
    rewrite u64_id; [lia|]. unfold_ints. lia.
  - intros s p Hi Hp Hs. unfold inflight in *. simpl in *. unfold onPacketSent, packet_ok in *.
    pose proof (i_inflight s Hi). rewrite add_ok by (done || lia).
    eexists. split; [reflexivity|]. split; [apply reno_with_inflight_inv; [done|unfold_ints; lia]|].
    by split_and!.
  - intros s n Hi Hn. unfold inflight in *. simpl in *. unfold onRemoveBytesFromInflight.
    pose proof (i_inflight s Hi). rewrite sub_ok by (done || lia).
    eexists. split; [reflexivity|]. split; [apply reno_with_inflight_inv; [done|unfold_ints; lia]|].
    by split_and!.
  - intros s a l clock Hi He Hle.
    apply (dispatch_ok conn_ inv (fun s loss => onPacketLoss s loss clock) onAckEvent); try done.
    + intros s' loss. apply reno_onPacketLoss_ok.
    + intros s' ack. apply reno_onAckEvent_ok.
Defined.

End NewReno.
