(* ===== verification/Westwood.v ===== *)
(** * QUIC Westwood+
    ([src/proxygen/proxygen/_build/deps/mvfst/quic/congestion_control/Westwood.cpp])

    The RTT sampler and the controller, with its bandwidth estimate in binary32
    and binary64 arithmetic.  [std::exp] is a parameter: the theorems hold for
    every function in its place, and so do they for every outcome of an undefined
    conversion to an integer.  Logging is left out. *)

From S2P Require Import Prelude IEEE754 CongestionControl.

(** [std::chrono::microseconds::max()]. *)
Definition MICROSECONDS_MAX : Z := INT64_MAX.

(** ** [WestwoodRttSampler] *)

Module WestwoodRttSampler.

(** [expiration_] in seconds, RTTs in microseconds, times in nanoseconds. *)
Record t := mk {
  expiration_ : Z; minRtt_ : Z; minRttTimestamp_ : option Z; rttExpired_ : bool }.

Definition create (expiration : Z) : t := mk expiration MICROSECONDS_MAX None true.

Definition minRtt (s : t) : Z := minRtt_ s.
Definition minRttExpired (s : t) : bool := rttExpired_ s.

Definition expired (s : t) (sampledTime : Z) : bool :=
  match minRttTimestamp_ s with
  | Some ts => sampledTime >? ts + expiration_ s * 10 ^ 9
  | None => false
  end.

Definition newRttSample (s : t) (rttSample sampledTime : Z) : bool * t :=
  let rttExpired := expired s sampledTime in
  if rttExpired || (rttSample <? minRtt_ s)
  then (true, mk (expiration_ s) rttSample (Some sampledTime) rttExpired)
  else (false, mk (expiration_ s) (minRtt_ s) (minRttTimestamp_ s) rttExpired).

Definition resetRttSample (s : t) (sampledTime : Z) : t :=
  mk (expiration_ s) MICROSECONDS_MAX (Some sampledTime) true.

(** ** What the sampler holds *)

Fixpoint feed (s : t) (samples : list (Z * Z)) : t :=
  match samples with
  | [] => s
  | (r, ts) :: samples => feed (snd (newRttSample s r ts)) samples
  end.

(** [(r, ts)] is one of the samples, none after it is smaller, and none after it
    was taken more than [w] nanoseconds later. *)
Definition current (w : Z) (samples : list (Z * Z)) (r ts : Z) : Prop :=
  exists before after, samples = before ++ (r, ts) :: after /\
    Forall (fun x => r <= fst x /\ snd x <= ts + w) after.

Lemma feed_app s l l' : feed s (l ++ l') = feed (feed s l) l'.
Proof. revert s. induction l as [|[r ts] l IH]; intros s; [done|]. simpl. apply IH. Qed.

Lemma feed_current e samples :
  samples <> [] -> Forall (fun x => fst x < MICROSECONDS_MAX) samples ->
  exists r ts, minRtt_ (feed (create e) samples) = r /\
    minRttTimestamp_ (feed (create e) samples) = Some ts /\ current (e * 10 ^ 9) samples r ts /\
    expiration_ (feed (create e) samples) = e.
Proof.
  induction samples as [|[r ts] samples IH] using rev_ind; [done|]. intros _ Hs.
  apply Forall_app in Hs as [Hs Hr]. rewrite Forall_singleton in Hr. simpl in Hr.
  rewrite feed_app. cbn [feed].
  destruct (decide (samples = [])) as [->|Hne].
  - assert ((r <? MICROSECONDS_MAX) = true) as Hlt by (by apply Z.ltb_lt).
    cbn [feed]. unfold newRttSample, create, expired. cbn [minRtt_ minRttTimestamp_]. rewrite Hlt. cbn [orb snd].
    exists r, ts. split_and!; try done. exists [], []. split; [done|constructor].
  - destruct (IH Hne Hs) as (r0 & ts0 & Hm & Ht & (bf & af & Hsp & Haf) & He). set (s := feed _ _) in *.
    unfold newRttSample, expired. rewrite Ht, Hm, He, Z.gtb_ltb.
    destruct (Z.ltb_spec (ts0 + e * 10 ^ 9) ts); simpl.
    { exists r, ts. split_and!; try done. exists samples, []. split; [done|constructor]. }
    destruct (Z.ltb_spec r r0); simpl.
    { exists r, ts. split_and!; try done. exists samples, []. split; [done|constructor]. }
    exists r0, ts0. split_and!; try done. exists bf, (af ++ [(r, ts)]).
    split; [by rewrite Hsp, <- app_assoc|]. apply Forall_app. split; [done|].
    apply Forall_singleton. simpl. lia.
Qed.

(** The sampler holds a recent minimum: after any non-empty sequence of samples
    its minimum and time stamp are those of one of the samples, no later sample is
    smaller, and every later sample was taken within the expiration time of it. *)
Theorem rtt_sampler_minimum e samples :
  samples <> [] -> Forall (fun x => fst x < MICROSECONDS_MAX) samples ->
  exists ts, minRttTimestamp_ (feed (create e) samples) = Some ts /\
    current (e * 10 ^ 9) samples (minRtt (feed (create e) samples)) ts.
Proof.
  intros Hne Hs. destruct (feed_current e samples Hne Hs) as (r & ts & <- & Ht & Hc & _).
  by exists ts.
Qed.

End WestwoodRttSampler.

(** ** [Westwood] *)

Module Westwood.
Import CongestionControl IEEE754.
Module Sampler := WestwoodRttSampler.

Definition kWestwoodMinRttMicroseconds : Z := 50000.
Definition kWestwoodInitialRttMicroseconds : Z := 20000000.
Definition kWestwoodRttExpirationSeconds : Z := 20.

Record t := mk {
  quicConnectionState_ : Conn; rttWindowStartTime_ : Z; latestRttSample_ : Z;
  bandwidthNewestEstimate_ : Z; bandwidthEstimate_ : Z; step_ : Z;
  bytesAckedInCurrentInterval_ : Z; ssthresh_ : Z; rttSampler_ : Sampler.t;
  cwndBytes_ : Z; endOfRecovery_ : option Z }.

Definition create (c : Conn) (now : Z) : t :=
  mk c now kWestwoodInitialRttMicroseconds 0 0 0 0 UINT64_MAX
    (Sampler.create kWestwoodRttExpirationSeconds)
    (bounded c (u64 (initCwndInMss c * udpSendPacketLen c))) None.

(** Assignments. *)
Definition set_conn (s : t) (c : Conn) : t :=
  mk c (rttWindowStartTime_ s) (latestRttSample_ s) (bandwidthNewestEstimate_ s)
    (bandwidthEstimate_ s) (step_ s) (bytesAckedInCurrentInterval_ s) (ssthresh_ s)
    (rttSampler_ s) (cwndBytes_ s) (endOfRecovery_ s).
Definition set_rtt (s : t) (sampler : Sampler.t) (latest : Z) : t :=
  mk (quicConnectionState_ s) (rttWindowStartTime_ s) latest (bandwidthNewestEstimate_ s)
    (bandwidthEstimate_ s) (step_ s) (bytesAckedInCurrentInterval_ s) (ssthresh_ s)
    sampler (cwndBytes_ s) (endOfRecovery_ s).
Definition set_window (s : t) (start step bytesAcked : Z) : t :=
  mk (quicConnectionState_ s) start (latestRttSample_ s) (bandwidthNewestEstimate_ s)
    (bandwidthEstimate_ s) step bytesAcked (ssthresh_ s) (rttSampler_ s) (cwndBytes_ s)
    (endOfRecovery_ s).
Definition set_bandwidth (s : t) (newest estimate : Z) : t :=
  mk (quicConnectionState_ s) (rttWindowStartTime_ s) (latestRttSample_ s) newest estimate
    (step_ s) (bytesAckedInCurrentInterval_ s) (ssthresh_ s) (rttSampler_ s) (cwndBytes_ s)
    (endOfRecovery_ s).
Definition set_cwnd (s : t) (n : Z) : t :=
  mk (quicConnectionState_ s) (rttWindowStartTime_ s) (latestRttSample_ s)
    (bandwidthNewestEstimate_ s) (bandwidthEstimate_ s) (step_ s)
    (bytesAckedInCurrentInterval_ s) (ssthresh_ s) (rttSampler_ s) n (endOfRecovery_ s).
Definition set_loss (s : t) (ssthresh cwnd : Z) (recovery : option Z) : t :=
  mk (quicConnectionState_ s) (rttWindowStartTime_ s) (latestRttSample_ s)
    (bandwidthNewestEstimate_ s) (bandwidthEstimate_ s) (step_ s)
    (bytesAckedInCurrentInterval_ s) ssthresh (rttSampler_ s) cwnd recovery.

Definition getCongestionWindow (s : t) : Z := cwndBytes_ s.
Definition getSlowStartThreshold (s : t) : Z := ssthresh_ s.
Definition inSlowStart (s : t) : bool := cwndBytes_ s <? ssthresh_ s.
Definition getBytesInFlight (s : t) : Z := inflightBytes (quicConnectionState_ s).

Definition getWritableBytes (s : t) : res Z :=
  if inflightBytes (quicConnectionState_ s) >? cwndBytes_ s then mret 0
  else subtractAndCheckUnderflow (getCongestionWindow s) (inflightBytes (quicConnectionState_ s)).

Record WestwoodStats := mkStats { bw_est : Z; rtt_min : Z; ssthresh : Z }.
Definition getStats (s : t) : WestwoodStats :=
  mkStats (bandwidthEstimate_ s) (u64 (Sampler.minRtt (rttSampler_ s))) (ssthresh_ s).

Definition onRemoveBytesFromInflight (s : t) (bytes : Z) : res t :=
  n ← subtractAndCheckUnderflow (inflightBytes (quicConnectionState_ s)) bytes;
  mret (set_conn s (with_inflight (quicConnectionState_ s) n)).

Definition onPacketSent (s : t) (p : Packet) : res t :=
  n ← addAndCheckOverflow (inflightBytes (quicConnectionState_ s)) (encodedSize p);
  mret (set_conn s (with_inflight (quicConnectionState_ s) n)).

(** [std::chrono::duration_cast<microseconds>(now - start).count()], as [uint64_t]. *)
Definition elapsed_us (start now : Z) : Z := u64 (Z.quot (now - start) 1000).

(** [bandwidthEstimate_ * (rttMinUs/1e6)]. *)
Definition bdp (bandwidth rttMinUs : Z) : float :=
  f64_mul (f64_of_Z bandwidth) (f64_div (f64_of_Z rttMinUs) (f64_of_Z 1000000)).

Section arithmetic.
Context `{UndefinedCast} (exp : float -> float).

(** [6.0f / 8.0f] times the sigmoid of the step. *)
Definition filter_coef (step : Z) : float :=
  let center := f32_of_Z 16 in
  let scale := f32_of_Z 1 in
  let s := f32_of_Z step in
  let one := f32_of_Z 1 in
  let sigmoid := f32_div one (f32_add one (exp (f32_opp (f32_div (f32_sub s center) scale)))) in
  f32_mul sigmoid (f32_div (f32_of_Z 6) (f32_of_Z 8)).

Definition westwoodLowPassFilter (s : t) (a b : Z) : Z :=
  let coef := filter_coef (step_ s) in
  let filtered := f32_add (f32_mul coef (f32_of_Z a))
                          (f32_mul (f32_sub (f32_of_Z 1) coef) (f32_of_Z b)) in
  cast 32 filtered.

(** [delta] has been converted to [uint32_t]; the conditional expression has type
    [double]; the second operand of the first filter is converted to [uint32_t]. *)
Definition updateWestwoodBandwidthEstimates (s : t) (delta : Z) : t :=
  if Sampler.minRtt (rttSampler_ s) =? MICROSECONDS_MAX then s
  else
    let rate := f64_div (f64_of_Z (bytesAckedInCurrentInterval_ s))
                        (f64_div (f64_of_Z delta) (f64_of_Z 1000000)) in
    let bw_ns_est :=
      if (bandwidthNewestEstimate_ s =? 0) && (bandwidthEstimate_ s =? 0) then cast 64 rate
      else westwoodLowPassFilter s (bandwidthNewestEstimate_ s) (cast 32 rate) in
    set_bandwidth s (u32 bw_ns_est)
      (westwoodLowPassFilter s (bandwidthEstimate_ s) (u32 bw_ns_est)).

(** [packet.time < *endOfRecovery_]. *)
Definition in_recovery (s : t) (sentTime : Z) : bool :=
  match endOfRecovery_ s with Some e => sentTime <? e | None => false end.

Definition grow (s : t) (ackedBytes : Z) : res t :=
  if cwndBytes_ s <? ssthresh_ s then
    n ← addAndCheckOverflow (cwndBytes_ s) ackedBytes;
    mret (set_cwnd s (bounded (quicConnectionState_ s) n))
  else
    let additionFactor := u64 (kDefaultUDPSendPacketLen * ackedBytes) / cwndBytes_ s in
    n ← addAndCheckOverflow (cwndBytes_ s) additionFactor;
    mret (set_cwnd s (bounded (quicConnectionState_ s) n)).

Definition sample_bandwidth (s : t) (now : Z) : t :=
  let delta := elapsed_us (rttWindowStartTime_ s) now in
  if delta >? Z.max (u64 (latestRttSample_ s)) kWestwoodMinRttMicroseconds then
    let s := set_window s (rttWindowStartTime_ s) (u32 (step_ s + 1))
               (bytesAckedInCurrentInterval_ s) in
    let s := updateWestwoodBandwidthEstimates s (u32 delta) in
    set_window s now (step_ s) 0
  else s.

Definition onPacketAcked (s : t) (p : Packet) (now : Z) : res t :=
  if in_recovery s (time p) then mret s
  else
    let ackedBytes := encodedSize p in
    let s := set_window s (rttWindowStartTime_ s) (step_ s)
               (u64 (bytesAckedInCurrentInterval_ s + ackedBytes)) in
    let s := sample_bandwidth s now in
    grow s ackedBytes.

Fixpoint onPacketsAcked (s : t) (ps : list Packet) (clock : nat -> Z) : res t :=
  match ps with
  | [] => mret s
  | p :: ps => s ← onPacketAcked s p (clock 0%nat); onPacketsAcked s ps (fun i => clock (S i))
  end.

Definition sample_rtt (s : t) (ack : AckEvent) : t :=
  match rttSample ack with
  | Some rtt => set_rtt s (snd (Sampler.newRttSample (rttSampler_ s) rtt (ackTime ack))) rtt
  | None => s
  end.

Definition onAckEvent (s : t) (ack : AckEvent) (clock : nat -> Z) : res t :=
  let s := sample_rtt s ack in
  n ← subtractAndCheckUnderflow (inflightBytes (quicConnectionState_ s)) (ackedBytes ack);
  s ← onPacketsAcked (set_conn s (with_inflight (quicConnectionState_ s) n)) (ackedPackets ack) clock;
  mret (set_cwnd s (bounded (quicConnectionState_ s) (cwndBytes_ s))).

(** [!endOfRecovery_ || *endOfRecovery_ < *loss.largestLostSentTime]. *)
Definition new_loss (s : t) (loss : LossEvent) : res bool :=
  match endOfRecovery_ s with
  | None => mret true
  | Some e => t ← deref (largestLostSentTime loss); mret (e <? t)
  end.

(** The first reading of the clock is for [resetRttSample], the second for
    [endOfRecovery_]. *)
Definition onPacketLoss (s : t) (loss : LossEvent) (clock : nat -> Z) : res t :=
  n ← subtractAndCheckUnderflow (inflightBytes (quicConnectionState_ s)) (lostBytes loss);
  let s := set_conn s (with_inflight (quicConnectionState_ s) n) in
  let s := if Sampler.minRttExpired (rttSampler_ s)
           then set_rtt s (Sampler.resetRttSample (rttSampler_ s) (clock 0%nat)) (latestRttSample_ s)
           else s in
  fresh ← new_loss s loss;
  let s :=
    if (fresh : bool) then
      let rttMinUs := u64 (Sampler.minRtt (rttSampler_ s)) in
      let ssthresh := Z.max (cast 64 (bdp (bandwidthEstimate_ s) rttMinUs))
                            (u64 (2 * udpSendPacketLen (quicConnectionState_ s))) in
      set_loss s ssthresh (bounded (quicConnectionState_ s) ssthresh) (Some (clock 1%nat))
    else s in
  mret (if persistentCongestion loss
        then set_cwnd s (bounded (quicConnectionState_ s)
               (u64 (minCwndInMss (quicConnectionState_ s) * udpSendPacketLen (quicConnectionState_ s))))
        else s).

Definition onPacketAckOrLoss (s : t) (ackEvent : option AckEvent) (lossEvent : option LossEvent)
    (clock : nat -> Z) : res t :=
  s ← match lossEvent with Some loss => onPacketLoss s loss clock | None => mret s end;
  match ackEvent with
  | Some ack => if bool_decide (is_Some (largestNewlyAckedPacket ack))
                then onAckEvent s ack (fun i => clock (2 + i)%nat) else mret s
  | None => mret s
  end.

#[global] Instance westwood : CongestionController t := {
  CongestionControl.create := create;
  CongestionControl.conn := quicConnectionState_;
  CongestionControl.getCongestionWindow := getCongestionWindow;
  CongestionControl.getWritableBytes := getWritableBytes;
  CongestionControl.onPacketSent := onPacketSent;
  CongestionControl.onRemoveBytesFromInflight := onRemoveBytesFromInflight;
  CongestionControl.onPacketAckOrLoss := onPacketAckOrLoss }.

(** ** The laws *)

Record inv (s : t) : Prop := {
  i_settings : settings_ok (quicConnectionState_ s);
  i_cwnd : lo (quicConnectionState_ s) <= cwndBytes_ s <= hi (quicConnectionState_ s);
  i_ssthresh : is_u64 (ssthresh_ s);
  i_floor : 2 * udpSendPacketLen (quicConnectionState_ s) <= ssthresh_ s;
  i_inflight : is_u64 (inflightBytes (quicConnectionState_ s)) }.

(** The fields the invariant is about. *)
Definition core (s : t) : Conn * Z * Z := (quicConnectionState_ s, cwndBytes_ s, ssthresh_ s).

Lemma inv_core s s' : core s' = core s -> inv s -> inv s'.
Proof. unfold core. intros [= H1 H2 H3] [? ? ? ? ?]. constructor; rewrite ?H1, ?H2, ?H3; done. Qed.

Lemma set_conn_inv s n :
  inv s -> is_u64 n -> inv (set_conn s (with_inflight (quicConnectionState_ s) n)).
Proof. intros [? ? ? ? ?] Hn. by constructor. Qed.

Lemma set_cwnd_inv s n : inv s -> inv (set_cwnd s (bounded (quicConnectionState_ s) n)).
Proof. intros [? ? ? ? ?]. constructor; try done. by apply bounded_range. Qed.

Lemma update_core s d : core (updateWestwoodBandwidthEstimates s d) = core s.
Proof. unfold updateWestwoodBandwidthEstimates. by destruct (_ =? _). Qed.

Lemma sample_bandwidth_core s now : core (sample_bandwidth s now) = core s.
Proof.
  unfold sample_bandwidth. destruct (_ >? _); [|done]. cbv zeta.
  set (s1 := set_window s _ _ _). etrans; [exact (update_core s1 _)|done].
Qed.

Lemma sample_rtt_core s ack : core (sample_rtt s ack) = core s.
Proof. unfold sample_rtt. by destruct (rttSample ack). Qed.

Lemma grow_ok s n :
  inv s -> 0 < n < 2 ^ 16 ->
  exists s' k, grow s n = Ok s' /\ s' = set_cwnd s (bounded (quicConnectionState_ s) k).
Proof.
  intros [Hs Hc _ _ _] Hn. destruct (products_small _ Hs) as (_ & _ & Hlo & Hhi). unfold grow.
  destruct (_ <? _).
  - rewrite add_ok by (unfold_ints; lia). eexists _, _. split; reflexivity.
  - assert (0 <= u64 (kDefaultUDPSendPacketLen * n) / cwndBytes_ s <= 2 ^ 27).
    { rewrite u64_id by (unfold kDefaultUDPSendPacketLen; unfold_ints; lia).
      unfold kDefaultUDPSendPacketLen. split; [apply Z.div_pos; lia|].
      apply Z.div_le_upper_bound; [lia|]. nia. }
    rewrite add_ok by (unfold_ints; lia). eexists _, _. split; reflexivity.
Qed.

Lemma onPacketAcked_ok s p now :
  inv s -> packet_ok p ->
  exists s', onPacketAcked s p now = Ok s' /\ inv s' /\
    quicConnectionState_ s' = quicConnectionState_ s.
Proof.
  intros Hi Hp. unfold onPacketAcked. destruct (in_recovery _ _); [by exists s|]. cbv zeta.
  set (s1 := sample_bandwidth _ now).
  assert (core s1 = core s) as Hc by (unfold s1; by rewrite sample_bandwidth_core).
  pose proof (inv_core s s1 Hc Hi) as Hi1. injection Hc as Hc1 _ _.
  destruct (grow_ok s1 (encodedSize p) Hi1 Hp) as (s' & k & -> & ->).
  eexists. split; [reflexivity|]. split; [by apply set_cwnd_inv|done].
Qed.

Lemma onPacketsAcked_ok ps : forall s clock,
  inv s -> Forall packet_ok ps ->
  exists s', onPacketsAcked s ps clock = Ok s' /\ inv s' /\
    quicConnectionState_ s' = quicConnectionState_ s.
Proof.
  induction ps as [|p ps IH]; intros s clock Hi Hps; cbn [onPacketsAcked]; [by exists s|].
  inversion Hps as [|? ? Hp Hps']; subst.
  destruct (onPacketAcked_ok s p (clock 0%nat) Hi Hp) as (s1 & -> & Hi1 & Hc1).
  cbn [mbind res_bind].
  destruct (IH s1 (fun i => clock (S i)) Hi1 Hps') as (s2 & -> & Hi2 & Hc2).
  exists s2. split; [done|]. split; [done|congruence].
Qed.

Lemma onAckEvent_ok s ack clock :
  inv s -> Forall packet_ok (ackedPackets ack) ->
  0 <= ackedBytes ack <= inflightBytes (quicConnectionState_ s) ->
  exists s', onAckEvent s ack clock = Ok s' /\ inv s' /\
    same_settings (quicConnectionState_ s) (quicConnectionState_ s') /\
    inflightBytes (quicConnectionState_ s') = inflightBytes (quicConnectionState_ s) - ackedBytes ack.
Proof.
  intros Hi Hps Ha. pose proof (sample_rtt_core s ack) as Hc. unfold onAckEvent. cbv zeta.
  set (s0 := sample_rtt s ack) in *. pose proof (inv_core s s0 Hc Hi) as Hi0.
  injection Hc as Hc0 _ _. rewrite <- Hc0 in *. pose proof (i_inflight s0 Hi0) as Hf.
  rewrite sub_ok by done. cbn [mbind res_bind].
  assert (Hi1 : inv (set_conn s0 (with_inflight (quicConnectionState_ s0)
    (inflightBytes (quicConnectionState_ s0) - ackedBytes ack)))).
  { apply set_conn_inv; [done|]. unfold_ints. lia. }
  destruct (onPacketsAcked_ok (ackedPackets ack) _ clock Hi1 Hps) as (s2 & -> & Hi2 & Hc2).
  cbn [mbind res_bind]. eexists. split; [reflexivity|]. split; [by apply set_cwnd_inv|].
  cbn [set_cwnd quicConnectionState_]. rewrite Hc2. by split.
Qed.

(** A new loss: the threshold is the estimated bandwidth-delay product, at least
    two packets. *)
Lemma set_loss_inv s x r :
  inv s -> is_u64 x ->
  let th := Z.max x (u64 (2 * udpSendPacketLen (quicConnectionState_ s))) in
  inv (set_loss s th (bounded (quicConnectionState_ s) th) r).
Proof.
  intros [Hs ? ? ? ?] Hx th.
  assert (u64 (2 * udpSendPacketLen (quicConnectionState_ s)) = 2 * udpSendPacketLen (quicConnectionState_ s))
    as Hu by (destruct Hs as (? & _); apply u64_id; unfold_ints; lia).
  assert (Hth : is_u64 th /\ 2 * udpSendPacketLen (quicConnectionState_ s) <= th).
  { unfold th. rewrite Hu. destruct Hs as (? & _). unfold_ints. lia. }
  constructor; try done; [by apply bounded_range|apply Hth..].
Qed.

Lemma onPacketLoss_ok s loss clock :
  inv s -> is_Some (largestLostSentTime loss) ->
  0 <= lostBytes loss <= inflightBytes (quicConnectionState_ s) ->
  exists s', onPacketLoss s loss clock = Ok s' /\ inv s' /\
    same_settings (quicConnectionState_ s) (quicConnectionState_ s') /\
    inflightBytes (quicConnectionState_ s') = inflightBytes (quicConnectionState_ s) - lostBytes loss.
Proof.
  intros Hi [ts Ht] Hl. unfold onPacketLoss. rewrite sub_ok by (apply Hi || done).
  cbn [mbind res_bind]. cbv zeta. set (s1 := set_conn s _).
  assert (Hi1 : inv s1) by (apply set_conn_inv; [done|pose proof (i_inflight s Hi); unfold_ints; lia]).
  set (s2 := if Sampler.minRttExpired _ then _ else s1).
  assert (Hc2 : core s2 = core s1) by (unfold s2; by destruct (Sampler.minRttExpired _)).
  pose proof (inv_core s1 s2 Hc2 Hi1) as Hi2. injection Hc2 as Hc2 _ _.
  assert (exists b, new_loss s2 loss = Ok b) as [b ->].
  { unfold new_loss. rewrite Ht. destruct (endOfRecovery_ s2); simpl; by eexists. }
  cbn [mbind res_bind]. set (s3 := if b then _ else s2).
  assert (inv s3 /\ quicConnectionState_ s3 = quicConnectionState_ s1) as [Hi3 Hc3].
  { unfold s3. destruct b; [|done]. split; [|done]. apply set_loss_inv; [done|apply cast_u64]. }
  eexists. split; [reflexivity|]. destruct (persistentCongestion loss).
  - split; [by apply set_cwnd_inv|]. cbn [set_cwnd quicConnectionState_]. rewrite Hc3. by split.
  - split; [done|]. rewrite Hc3. by split.
Qed.

#[global] Instance westwood_laws : CongestionControllerLaws t.
Proof.
  refine {| CongestionControl.inv := inv |}.
  - intros c t0 Hc H0. destruct (products_small c Hc) as (_ & _ & Hlo & Hhi).
    split; [|split; [done|by split_and!]]. constructor; simpl; try done.
    + by apply bounded_range.
    + destruct Hc as (? & _). unfold_ints. lia.
    + rewrite H0. unfold_ints. lia.
  - intros s Hi. apply Hi.
  - intros s [Hs Hc _ _ Hf]. destruct (products_small _ Hs) as (_ & _ & Hlo & Hhi).
    simpl. unfold getWritableBytes, getCongestionWindow, inflight. simpl. rewrite Z.gtb_ltb.
    destruct (Z.ltb_spec (cwndBytes_ s) (inflightBytes (quicConnectionState_ s))).
    { unfold mret, res_ret. f_equal. lia. }
    rewrite sub_ok by (unfold_ints; lia). f_equal. lia.
  - intros s p Hi Hp Hs. unfold inflight in *. simpl in *. unfold onPacketSent, packet_ok in *.
    pose proof (i_inflight s Hi). rewrite add_ok by (done || lia).
    eexists. split; [reflexivity|]. split; [apply set_conn_inv; [done|unfold_ints; lia]|].
    by split_and!.
  - intros s n Hi Hn. unfold inflight in *. simpl in *. unfold onRemoveBytesFromInflight.
    pose proof (i_inflight s Hi). rewrite sub_ok by (done || lia).
    eexists. split; [reflexivity|]. split; [apply set_conn_inv; [done|unfold_ints; lia]|].
    by split_and!.
  - intros s a l clock Hi He Hle.
    apply (dispatch_ok quicConnectionState_ inv (fun s loss => onPacketLoss s loss clock)
      (fun s ack => onAckEvent s ack (fun i => clock (2 + i)%nat))); try done.
    + intros s' loss. apply onPacketLoss_ok.
    + intros s' ack ? ? _. by apply onAckEvent_ok.
Defined.

(** ** Recovery *)

(** Packets sent before the recovery started change nothing. *)
Lemma onPacketsAcked_recovery ps : forall s clock,
  Forall (fun p => in_recovery s (time p) = true) ps -> onPacketsAcked s ps clock = Ok s.
Proof.
  induction ps as [|p ps IH]; intros s clock Hps; [done|].
  inversion Hps as [|? ? Hp Hps']; subst. cbn [onPacketsAcked]. unfold onPacketAcked at 1. rewrite Hp.
  cbn [mbind res_bind mret res_ret]. by apply IH.
Qed.

Lemma onPacketLoss_recovery s loss clock e ts :
  inv s -> 0 <= lostBytes loss <= inflightBytes (quicConnectionState_ s) ->
  endOfRecovery_ s = Some e -> largestLostSentTime loss = Some ts -> ts <= e ->
  persistentCongestion loss = false ->
  exists s', onPacketLoss s loss clock = Ok s' /\ inv s' /\ cwndBytes_ s' = cwndBytes_ s /\
    ssthresh_ s' = ssthresh_ s /\ bandwidthEstimate_ s' = bandwidthEstimate_ s /\
    endOfRecovery_ s' = Some e /\
    inflightBytes (quicConnectionState_ s') = inflightBytes (quicConnectionState_ s) - lostBytes loss.
Proof.
  intros Hi Hl He Ht Hle Hp. unfold onPacketLoss. rewrite sub_ok by (apply Hi || done).
  cbn [mbind res_bind]. cbv zeta. set (s1 := set_conn s _).
  assert (Hi1 : inv s1) by (apply set_conn_inv; [done|pose proof (i_inflight s Hi); unfold_ints; lia]).
  set (s2 := if Sampler.minRttExpired _ then _ else s1).
  assert (Hc2 : core s2 = core s1) by (unfold s2; by destruct (Sampler.minRttExpired _)).
  assert (Hr2 : endOfRecovery_ s2 = Some e /\ bandwidthEstimate_ s2 = bandwidthEstimate_ s)
    by (unfold s2; by destruct (Sampler.minRttExpired _)).
  destruct Hr2 as [Hr2 Hb2].
  assert (new_loss s2 loss = Ok false) as ->.
  { unfold new_loss. rewrite Hr2, Ht. cbn. by rewrite (proj2 (Z.ltb_ge _ _)). }
  cbn [mbind res_bind]. rewrite Hp. exists s2. split; [done|].
  split; [by apply (inv_core s1)|]. injection Hc2 as Hq Hw Hs. rewrite Hw, Hs, Hq. done.
Qed.

(** C31. One reduction per recovery period: while a recovery that started at [e] is
    under way, a loss event of packets sent no later than [e] (persistent congestion
    apart) and the acknowledgement of packets sent before [e] leave the window, the
    threshold and the bandwidth estimate as they are, and only take the bytes out of
    flight. *)
Theorem westwood_one_reduction s ack loss clock e ts :
  inv s -> event_ok (Some ack) (Some loss) ->
  acked (Some ack) + lost (Some loss) <= inflightBytes (quicConnectionState_ s) ->
  endOfRecovery_ s = Some e -> largestLostSentTime loss = Some ts -> ts <= e ->
  persistentCongestion loss = false -> Forall (fun p => time p < e) (ackedPackets ack) ->
  exists s', onPacketAckOrLoss s (Some ack) (Some loss) clock = Ok s' /\
    cwndBytes_ s' = cwndBytes_ s /\ ssthresh_ s' = ssthresh_ s /\
    bandwidthEstimate_ s' = bandwidthEstimate_ s /\ endOfRecovery_ s' = Some e /\
    inflightBytes (quicConnectionState_ s') =
      inflightBytes (quicConnectionState_ s) - acked (Some ack) - lost (Some loss).
Proof.
  intros Hi Hev Hle He Ht Hte Hp Hps. pose proof (event_nonneg _ _ Hev) as Hnn.
  unfold onPacketAckOrLoss. cbn [lost from_option] in *.
  destruct (onPacketLoss_recovery s loss clock e ts Hi) as
    (s1 & -> & Hi1 & Hw1 & Hs1 & Hb1 & He1 & Hf1); try done; [simpl in *; lia|].
  cbn [mbind res_bind]. unfold acked in *. case_bool_decide.
  - destruct Hev as [Ha _]. destruct (Ha ack eq_refl) as (? & _ & _).
    unfold onAckEvent. cbv zeta. set (s2 := sample_rtt s1 ack).
    assert (core s2 = core s1 /\ endOfRecovery_ s2 = Some e /\
      bandwidthEstimate_ s2 = bandwidthEstimate_ s) as (Hc2 & He2 & Hb2)
      by (unfold s2, sample_rtt; by destruct (rttSample ack)).
    pose proof (inv_core s1 s2 Hc2 Hi1) as Hi2. injection Hc2 as Hq2 Hw2 Hs2.
    rewrite sub_ok by (rewrite Hq2; (apply Hi1 || lia)). cbn [mbind res_bind].
    rewrite onPacketsAcked_recovery.
    + cbn [mbind res_bind]. eexists. split; [reflexivity|]. simpl. rewrite Hq2, Hs2, Hs1, Hb2, He2.
      split_and!; try done; [|lia]. rewrite Hw2, Hw1.
      apply (bounded_id (quicConnectionState_ s1)); [apply Hi1|]. rewrite <- Hw1. apply Hi1.
    + eapply Forall_impl; [exact Hps|]. intros p Htp. unfold in_recovery. simpl. rewrite He2.
      by apply Z.ltb_lt.
  - exists s1. split; [done|]. rewrite Hf1. split_and!; try done. lia.
Qed.

(** ** Slow start *)

Lemma onPacketAcked_slow_start s p now :
  inv s -> packet_ok p -> in_recovery s (time p) = false -> cwndBytes_ s < ssthresh_ s ->
  exists s', onPacketAcked s p now = Ok s' /\ inv s' /\
    quicConnectionState_ s' = quicConnectionState_ s /\ ssthresh_ s' = ssthresh_ s /\
    endOfRecovery_ s' = endOfRecovery_ s /\
    cwndBytes_ s' = Z.min (hi (quicConnectionState_ s)) (cwndBytes_ s + encodedSize p).
Proof.
  intros Hi Hp Hr Hlt. unfold onPacketAcked. rewrite Hr. cbv zeta. set (s1 := sample_bandwidth _ now).
  assert (Hc : core s1 = core s) by (unfold s1; by rewrite sample_bandwidth_core).
  assert (He : endOfRecovery_ s1 = endOfRecovery_ s).
  { unfold s1, sample_bandwidth, updateWestwoodBandwidthEstimates.
    destruct (_ >? _); [|done]. cbv zeta. by destruct (_ =? _). }
  pose proof (inv_core s s1 Hc Hi) as Hi1. injection Hc as Hq Hw Hs. unfold grow. rewrite Hw, Hs.
  rewrite (proj2 (Z.ltb_lt _ _)) by done. pose proof Hi as [Hset Hcw _ _ _].
  destruct (products_small _ Hset) as (Hp1 & Hp2 & Hlo & Hhi). unfold packet_ok in Hp.
  rewrite add_ok by (unfold_ints; lia). cbn [mbind res_bind]. eexists. split; [reflexivity|].
  split; [by apply set_cwnd_inv|]. simpl. rewrite Hq. split_and!; try done.
  unfold bounded, boundedCwnd. rewrite Hp1, Hp2. unfold hi. lia.
Qed.

Lemma onPacketsAcked_slow_start ps : forall s clock,
  inv s -> Forall packet_ok ps -> Forall (fun p => in_recovery s (time p) = false) ps ->
  cwndBytes_ s + total_size ps < ssthresh_ s ->
  exists s', onPacketsAcked s ps clock = Ok s' /\ inv s' /\
    quicConnectionState_ s' = quicConnectionState_ s /\
    cwndBytes_ s' = Z.min (hi (quicConnectionState_ s)) (cwndBytes_ s + total_size ps).
Proof.
  induction ps as [|p ps IH]; intros s clock Hi Hps Hr Hlt; cbn [onPacketsAcked total_size foldr].
  { exists s. pose proof (i_cwnd s Hi). split_and!; try done. lia. }
  inversion Hps as [|? ? Hp Hps']; inversion Hr as [|? ? Hr1 Hr']; subst.
  cbn [total_size foldr] in Hlt. pose proof (total_size_nonneg ps Hps'). fold (total_size ps) in *.
  pose proof Hp as Hp'. unfold packet_ok in Hp'.
  destruct (onPacketAcked_slow_start s p (clock 0%nat) Hi Hp Hr1 ltac:(lia))
    as (s1 & -> & Hi1 & Hq1 & Hs1 & He1 & Hw1). cbn [mbind res_bind].
  destruct (IH s1 (fun i => clock (S i)) Hi1 Hps') as (s2 & -> & Hi2 & Hq2 & Hw2).
  - eapply Forall_impl; [exact Hr'|]. intros p'. unfold in_recovery. by rewrite He1.
  - rewrite Hw1, Hs1. lia.
  - exists s2. split_and!; try done; [congruence|]. rewrite Hw2, Hq1, Hw1. lia.
Qed.

(** Slow start doubles the window: when acknowledged packets, none of them sent
    during a recovery, keep the window below the threshold, an ack event grows the
    window by exactly their size, up to the largest window. *)
Theorem westwood_slow_start s ack clock :
  inv s -> Forall packet_ok (ackedPackets ack) ->
  0 <= ackedBytes ack <= inflightBytes (quicConnectionState_ s) ->
  Forall (fun p => in_recovery s (time p) = false) (ackedPackets ack) ->
  cwndBytes_ s + total_size (ackedPackets ack) < ssthresh_ s ->
  exists s', onAckEvent s ack clock = Ok s' /\
    cwndBytes_ s' = Z.min (hi (quicConnectionState_ s))
                          (cwndBytes_ s + total_size (ackedPackets ack)).
Proof.
  intros Hi Hps Ha Hr Hlt. pose proof (sample_rtt_core s ack) as Hc. unfold onAckEvent. cbv zeta.
  assert (He : endOfRecovery_ (sample_rtt s ack) = endOfRecovery_ s)
    by (unfold sample_rtt; by destruct (rttSample ack)).
  set (s0 := sample_rtt s ack) in *. pose proof (inv_core s s0 Hc Hi) as Hi0.
  injection Hc as Hc0 Hw0 Hs0. rewrite <- Hc0, <- Hw0, <- Hs0 in *.
  rewrite sub_ok by (apply Hi0 || done). cbn [mbind res_bind].
  set (s1 := set_conn s0 _).
  assert (Hi1 : inv s1) by (apply set_conn_inv; [done|pose proof (i_inflight s0 Hi0); unfold_ints; lia]).
  destruct (onPacketsAcked_slow_start (ackedPackets ack) s1 clock Hi1 Hps) as (s2 & -> & Hi2 & Hq2 & Hw2).
  - eapply Forall_impl; [exact Hr|]. intros p. unfold in_recovery. simpl. by rewrite He.
  - done.
  - cbn [mbind res_bind]. eexists. split; [reflexivity|]. simpl.
    rewrite bounded_id by apply Hi2. exact Hw2.
Qed.

(** ** Idle periods *)

(** The length of a measurement interval is passed on as a 32-bit number of
    microseconds: after an idle period, an interval of 2^32 + k microseconds (over
    71 minutes) changes the bandwidth estimates exactly as one of k microseconds. *)
Theorem westwood_idle_truncated s k :
  Z.max (u64 (latestRttSample_ s)) kWestwoodMinRttMicroseconds < k < 2 ^ 32 ->
  let bandwidths s := (bandwidthNewestEstimate_ s, bandwidthEstimate_ s) in
  bandwidths (sample_bandwidth s (rttWindowStartTime_ s + (2 ^ 32 + k) * 1000)) =
  bandwidths (sample_bandwidth s (rttWindowStartTime_ s + k * 1000)).
Proof.
  intros Hk bandwidths. unfold sample_bandwidth, elapsed_us. unfold kWestwoodMinRttMicroseconds in *.
  replace (rttWindowStartTime_ s + (2 ^ 32 + k) * 1000 - rttWindowStartTime_ s) with ((2 ^ 32 + k) * 1000) by lia.
  replace (rttWindowStartTime_ s + k * 1000 - rttWindowStartTime_ s) with (k * 1000) by lia.
  rewrite !Z.quot_mul by lia.
  rewrite (u64_id (2 ^ 32 + k)), (u64_id k) by (unfold_ints; lia).
  rewrite !Z.gtb_ltb, !(proj2 (Z.ltb_lt _ _)) by lia. cbv zeta.
  replace (u32 (2 ^ 32 + k)) with (u32 k)
    by (unfold u32; rewrite Z.add_comm; symmetry; apply (Z_mod_plus_full k 1 (2 ^ 32))).
  done.
Qed.

End arithmetic.

(** ** Concrete runs *)

(** [n] packets of 1232 bytes sent at [ts]. *)
Definition burst (n : nat) (ts : Z) : list Packet := replicate n (mkPacket 0 ts 1232 None).

Definition ack_of (ts rtt : Z) (ps : list Packet) : AckEvent :=
  mkAck ts (Some rtt) (total_size ps) (Some 0) ps.

Definition loss_of (ps : list Packet) : LossEvent :=
  mkLoss (Some 0) [] (total_size ps) (zlen ps) (time <$> last ps) None false.

(** At step 1 [std::exp] is called with 15. *)
Definition exp_15 : float -> float := fun _ => f32_of_Z 3269017.

Fixpoint send_all (s : t) (ps : list Packet) : res t :=
  match ps with
  | [] => mret s
  | p :: ps => s ← onPacketSent s p; send_all s ps
  end.

Definition ms (n : Z) : Z := n * 10 ^ 6.

(** Ten packets, acknowledged after 100 ms; more than 20 s later ten more, of which
    two are acknowledged, again after 100 ms, and one is lost. *)
Definition expiry_run : res (t * t) :=
  s ← send_all (create default_conn 0) (burst 10 0);
  s ← onPacketAckOrLoss (H := x86_64) exp_15 s (Some (ack_of (ms 100) 100000 (burst 10 0))) None
        (fun _ => ms 101);
  s ← send_all s (burst 10 (ms 25000));
  s ← onPacketAckOrLoss (H := x86_64) exp_15 s (Some (ack_of (ms 25100) 100000 (burst 2 (ms 25000)))) None
        (fun _ => ms 25100);
  s' ← onPacketAckOrLoss (H := x86_64) exp_15 s None (Some (loss_of (burst 1 (ms 25000))))
        (fun _ => ms 25200);
  mret (s, s').

(** A loss after the minimal RTT has expired opens the window: the sample that
    finds the old minimum expired is stored as the new one, but the flag stays set,
    so the next loss event resets the minimum to [microseconds::max()], the
    bandwidth-delay product becomes astronomical, and the loss raises the window from
    27104 bytes to the largest one instead of reducing it. *)
Theorem westwood_loss_after_expiry :
  exists s s', expiry_run = Ok (s, s') /\ cwndBytes_ s = 27104 /\
    Sampler.minRtt (rttSampler_ s) = 100000 /\
    Sampler.minRtt (rttSampler_ s') = MICROSECONDS_MAX /\
    ssthresh_ s' = 4537899042132549 /\ cwndBytes_ s' = hi default_conn /\ hi default_conn = 2464000.
Proof. eexists _, _. split; [vm_compute; reflexivity|]. vm_compute. by split_and!. Qed.

(** A connection in recovery since 1 s, with four packets in flight. *)
Definition recovering : t :=
  set_loss (set_conn (create default_conn 0) (with_inflight default_conn 4928)) 5000 4928
    (Some (ms 1000)).

Lemma recovering_inv : inv recovering.
Proof.
  pose proof default_conn_ok. constructor; try done; vm_compute; try (split; [discriminate|reflexivity]);
    try (split; discriminate); discriminate.
Qed.

Lemma westwood_one_reduction_witness :
  exists s', onPacketAckOrLoss (H := x86_64) exp_15 recovering
      (Some (ack_of (ms 1100) 100000 (burst 2 (ms 900)))) (Some (loss_of (burst 1 (ms 950))))
      (fun _ => ms 1100) = Ok s' /\
    cwndBytes_ s' = 4928 /\ ssthresh_ s' = 5000 /\ bandwidthEstimate_ s' = 0 /\
    endOfRecovery_ s' = Some (ms 1000) /\ inflightBytes (quicConnectionState_ s') = 1232.
Proof.
  apply (westwood_one_reduction (H := x86_64) exp_15 recovering
    (ack_of (ms 1100) 100000 (burst 2 (ms 900))) (loss_of (burst 1 (ms 950))) (fun _ => ms 1100)
    (ms 1000) (ms 950)).
  - exact recovering_inv.
  - split.
    + intros e [= <-]. split; [vm_compute; discriminate|]. split; [repeat constructor|reflexivity].
    + intros e [= <-]. split; [vm_compute; discriminate|]. exists (ms 950). reflexivity.
  - vm_compute. discriminate.
  - reflexivity.
  - reflexivity.
  - vm_compute. discriminate.
  - reflexivity.
  - repeat constructor.
Defined.

(** An interval with 12320 bytes acknowledged and an RTT of 100 ms. *)
Definition measuring : t :=
  set_window (set_rtt (create default_conn 0)
    (snd (Sampler.newRttSample (Sampler.create 20) 100000 0)) 100000) 0 0 12320.

End Westwood.
