(* ===== verification/WestwoodOWD.v ===== *)
(** * QUIC Westwood+ with delay control
    ([src/proxygen/proxygen/_build/deps/mvfst/quic/congestion_control/WestwoodOWD.cpp])

    Westwood+ that also reduces its window when the one-way delay, estimated from
    the receive time stamps of acknowledged packets, exceeds a threshold.  Signed
    64-bit sums wrap.  Logging and the trace on standard output are left out.
    [owd_is_queueing_delay] says what the estimate is worth. *)

From S2P Require Import Prelude IEEE754 CongestionControl Westwood.

(** ** [WestwoodOWDRttSampler] *)

Module WestwoodOWDRttSampler.

Record t := mk {
  expiration_ : Z; minRtt_ : Z; maxRttSinceLastLoss_ : Z; minRttTimestamp_ : option Z;
  rttExpired_ : bool }.

Definition create (expiration : Z) : t := mk expiration MICROSECONDS_MAX 0 None true.

Definition minRtt (s : t) : Z := minRtt_ s.
Definition minRttExpired (s : t) : bool := rttExpired_ s.

Definition maxRtt (s : t) : Z * t :=
  (maxRttSinceLastLoss_ s, mk (expiration_ s) (minRtt_ s) 0 (minRttTimestamp_ s) (rttExpired_ s)).

Definition newRttSample (s : t) (rttSample sampledTime : Z) : bool * t :=
  let rttExpired :=
    match minRttTimestamp_ s with
    | Some ts => sampledTime >? ts + expiration_ s * 10 ^ 9
    | None => false
    end in
  let '(minRtt, ts) :=
    if rttExpired || (rttSample <? minRtt_ s) then (rttSample, Some sampledTime)
    else (minRtt_ s, minRttTimestamp_ s) in
  let maxRtt :=
    if rttSample >? maxRttSinceLastLoss_ s then rttSample else maxRttSinceLastLoss_ s in
  (true, mk (expiration_ s) minRtt maxRtt ts rttExpired).

Definition resetRttSample (s : t) (sampledTime : Z) : t :=
  mk (expiration_ s) MICROSECONDS_MAX (maxRttSinceLastLoss_ s) (Some sampledTime) true.

End WestwoodOWDRttSampler.

(** ** [WestwoodOWD] *)

Module WestwoodOWD.
Import CongestionControl IEEE754.
Module Sampler := WestwoodOWDRttSampler.

Definition kWestwoodOWDMinRttMicroseconds : Z := 50000.
Definition kWestwoodOWDInitialRttMicroseconds : Z := 20000000.
Definition kWestwoodOWDRttExpirationSeconds : Z := 20.

(** [steady_clock::time_point::min()]. *)
Definition TIME_POINT_MIN : Z := - 2 ^ 63.

(** The bandwidth estimator's fields. *)
Record Estimator := mkEstimator {
  rttWindowStartTime_ : Z; latestRttSample_ : Z; bandwidthNewestEstimate_ : Z;
  bandwidthEstimate_ : Z; step_ : Z; bytesAckedInCurrentInterval_ : Z; rttSampler_ : Sampler.t }.

(** The one-way delay's fields. *)
Record Delay := mkDelay {
  latestSendTimeStamp_ : Z; latestReceiveTimeStamp_ : Z; interDeparture_ : Z;
  interArrival_ : Z; owdv_ : Z; owd_ : Z; lossMaxRtt_ : Z }.

Record t := mk {
  quicConnectionState_ : Conn; estimator : Estimator; ssthresh_ : Z; cwndBytes_ : Z;
  delay : Delay; endOfRecovery_ : option Z }.

Definition create (c : Conn) (now : Z) : t :=
  mk c
    (mkEstimator now kWestwoodOWDInitialRttMicroseconds 0 0 0 0
       (Sampler.create kWestwoodOWDRttExpirationSeconds))
    UINT64_MAX (bounded c (u64 (initCwndInMss c * udpSendPacketLen c)))
    (mkDelay TIME_POINT_MIN 0 0 0 0 0 250000) None.

(** Assignments. *)
Definition set_conn (s : t) (c : Conn) : t :=
  mk c (estimator s) (ssthresh_ s) (cwndBytes_ s) (delay s) (endOfRecovery_ s).
Definition set_estimator (s : t) (e : Estimator) : t :=
  mk (quicConnectionState_ s) e (ssthresh_ s) (cwndBytes_ s) (delay s) (endOfRecovery_ s).
Definition set_delay (s : t) (d : Delay) : t :=
  mk (quicConnectionState_ s) (estimator s) (ssthresh_ s) (cwndBytes_ s) d (endOfRecovery_ s).
Definition set_cwnd (s : t) (n : Z) : t :=
  mk (quicConnectionState_ s) (estimator s) (ssthresh_ s) n (delay s) (endOfRecovery_ s).
Definition set_windows (s : t) (ssthresh cwnd : Z) : t :=
  mk (quicConnectionState_ s) (estimator s) ssthresh cwnd (delay s) (endOfRecovery_ s).
Definition set_recovery (s : t) (r : option Z) : t :=
  mk (quicConnectionState_ s) (estimator s) (ssthresh_ s) (cwndBytes_ s) (delay s) r.

Definition with_sampler (e : Estimator) (sampler : Sampler.t) (latest : Z) : Estimator :=
  mkEstimator (rttWindowStartTime_ e) latest (bandwidthNewestEstimate_ e) (bandwidthEstimate_ e)
    (step_ e) (bytesAckedInCurrentInterval_ e) sampler.
Definition with_window (e : Estimator) (start step bytesAcked : Z) : Estimator :=
  mkEstimator start (latestRttSample_ e) (bandwidthNewestEstimate_ e) (bandwidthEstimate_ e)
    step bytesAcked (rttSampler_ e).
Definition with_bandwidth (e : Estimator) (newest estimate : Z) : Estimator :=
  mkEstimator (rttWindowStartTime_ e) (latestRttSample_ e) newest estimate (step_ e)
    (bytesAckedInCurrentInterval_ e) (rttSampler_ e).

(** [owd_ = 0; owdv_ = 0;]. *)
Definition reset_owd (d : Delay) : Delay :=
  mkDelay (latestSendTimeStamp_ d) (latestReceiveTimeStamp_ d) (interDeparture_ d)
    (interArrival_ d) 0 0 (lossMaxRtt_ d).

Definition getCongestionWindow (s : t) : Z := cwndBytes_ s.
Definition getSlowStartThreshold (s : t) : Z := ssthresh_ s.
Definition getOneWayDelay (s : t) : Z := u64 (owd_ (delay s)).
Definition getOneWayDelayVariation (s : t) : Z := u64 (owdv_ (delay s)).
Definition inSlowStart (s : t) : bool := cwndBytes_ s <? ssthresh_ s.
Definition getBytesInFlight (s : t) : Z := inflightBytes (quicConnectionState_ s).

Definition getWritableBytes (s : t) : res Z :=
  if inflightBytes (quicConnectionState_ s) >? cwndBytes_ s then mret 0
  else subtractAndCheckUnderflow (getCongestionWindow s) (inflightBytes (quicConnectionState_ s)).

Record WestwoodOWDStats := mkStats { bw_est : Z; rtt_min : Z; ssthresh : Z; owd : Z; owdv : Z }.
Definition getStats (s : t) : WestwoodOWDStats :=
  mkStats (bandwidthEstimate_ (estimator s)) (u64 (Sampler.minRtt (rttSampler_ (estimator s))))
    (ssthresh_ s) (u64 (owd_ (delay s))) (u64 (owdv_ (delay s))).

Definition onRemoveBytesFromInflight (s : t) (bytes : Z) : res t :=
  n ← subtractAndCheckUnderflow (inflightBytes (quicConnectionState_ s)) bytes;
  mret (set_conn s (with_inflight (quicConnectionState_ s) n)).

Definition onPacketSent (s : t) (p : Packet) : res t :=
  n ← addAndCheckOverflow (inflightBytes (quicConnectionState_ s)) (encodedSize p);
  mret (set_conn s (with_inflight (quicConnectionState_ s) n)).

Definition isFirstPacket (d : Delay) : bool := latestSendTimeStamp_ d =? TIME_POINT_MIN.

Definition updateOneWayDelay (d : Delay) (p : Packet) : Delay :=
  match receiveRelativeTimeStampUsec p with
  | None => d
  | Some received =>
      if isFirstPacket d then
        mkDelay (time p) (u64 received) (interDeparture_ d) (interArrival_ d) (owdv_ d) (owd_ d)
          (lossMaxRtt_ d)
      else
        let interDeparture := i64 (Z.quot (time p - latestSendTimeStamp_ d) 1000) in
        let interArrival := i64 (u64 (received - latestReceiveTimeStamp_ d)) in
        let owdv := i64 (interArrival - interDeparture) in
        let owd := i64 (owd_ d + owdv) in
        mkDelay (time p) (u64 received) interDeparture interArrival owdv (Z.max 0 owd) (lossMaxRtt_ d)
  end.

(** [0.8], the fraction at every call. *)
Definition threshold_fraction : float := f64_lit 8 10.

Definition delayControl (s : t) (delayThresholdFraction : float) : bool :=
  let rttMinUs := u64 (Sampler.minRtt (rttSampler_ (estimator s))) in
  let lossMax := lossMaxRtt_ (delay s) in
  if lossMax =? 0 then false
  else (u64 lossMax >? rttMinUs) &&
       f64_ltb (f64_mul delayThresholdFraction (f64_of_Z (u64 (lossMax - rttMinUs))))
               (f64_of_Z (owd_ (delay s))).

(** [bandwidthEstimate_ * rttMinUs / 1.0e6]: the product is a [uint64_t]. *)
Definition bdp (bandwidth rttMinUs : Z) : float :=
  f64_div (f64_of_Z (u64 (bandwidth * rttMinUs))) (f64_of_Z 1000000).

(** [bandwidthEstimate_ * (rttMinUs + (0.8 * 50000)) / 1.0e6]. *)
Definition loss_bdp (bandwidth rttMinUs : Z) : float :=
  f64_div
    (f64_mul (f64_of_Z bandwidth)
       (f64_add (f64_of_Z rttMinUs) (f64_mul (f64_lit 8 10) (f64_of_Z 50000))))
    (f64_of_Z 1000000).

Section arithmetic.
Context `{UndefinedCast}.

Definition westwoodLowPassFilter (a b : Z) : Z :=
  let coef := f32_div (f32_of_Z 2) (f32_of_Z 8) in
  let filtered := f32_add (f32_mul coef (f32_of_Z a))
                          (f32_mul (f32_sub (f32_of_Z 1) coef) (f32_of_Z b)) in
  cast 32 filtered.

Definition updateWestwoodBandwidthEstimates (e : Estimator) (delta : Z) : Estimator :=
  if Sampler.minRtt (rttSampler_ e) =? MICROSECONDS_MAX then e
  else
    let rate := f64_div (f64_of_Z (bytesAckedInCurrentInterval_ e))
                        (f64_div (f64_of_Z delta) (f64_of_Z 1000000)) in
    let bw_ns_est :=
      if (bandwidthNewestEstimate_ e =? 0) && (bandwidthEstimate_ e =? 0) then cast 64 rate
      else westwoodLowPassFilter (bandwidthNewestEstimate_ e) (cast 32 rate) in
    with_bandwidth e (u32 bw_ns_est) (westwoodLowPassFilter (bandwidthEstimate_ e) (u32 bw_ns_est)).

Definition sample_bandwidth (e : Estimator) (now : Z) : Estimator :=
  let delta := Westwood.elapsed_us (rttWindowStartTime_ e) now in
  if delta >? Z.max (u64 (latestRttSample_ e)) kWestwoodOWDMinRttMicroseconds then
    let e := with_window e (rttWindowStartTime_ e) (u32 (step_ e + 1))
               (bytesAckedInCurrentInterval_ e) in
    let e := updateWestwoodBandwidthEstimates e (u32 delta) in
    with_window e now (step_ e) 0
  else e.

Definition in_recovery (s : t) (sentTime : Z) : bool :=
  match endOfRecovery_ s with Some e => sentTime <? e | None => false end.

(** The delay condition is met: back to the bandwidth-delay product. *)
Definition control_delay (s : t) : t :=
  if delayControl s threshold_fraction then
    let rttMinUs := u64 (Sampler.minRtt (rttSampler_ (estimator s))) in
    let ssthresh := Z.max (cast 64 (bdp (bandwidthEstimate_ (estimator s)) rttMinUs))
                          (u64 (2 * udpSendPacketLen (quicConnectionState_ s))) in
    let s := set_windows s ssthresh (bounded (quicConnectionState_ s) ssthresh) in
    set_delay s (reset_owd (delay s))
  else s.

Definition grow (s : t) (ackedBytes : Z) : res t :=
  n ← (if cwndBytes_ s <? ssthresh_ s then addAndCheckOverflow (cwndBytes_ s) ackedBytes
       else
         let additionFactor := u64 (kDefaultUDPSendPacketLen * ackedBytes) / cwndBytes_ s in
         addAndCheckOverflow (cwndBytes_ s) additionFactor);
  mret (set_cwnd s (bounded (quicConnectionState_ s) n)).

Definition onPacketAcked (s : t) (p : Packet) (now : Z) : res t :=
  if in_recovery s (time p) then mret s
  else
    let ackedBytes := encodedSize p in
    let e := estimator s in
    let e := with_window e (rttWindowStartTime_ e) (step_ e)
               (u64 (bytesAckedInCurrentInterval_ e + ackedBytes)) in
    let s := set_estimator s (sample_bandwidth e now) in
    grow (control_delay s) ackedBytes.

Fixpoint onPacketsAcked (s : t) (ps : list Packet) (clock : nat -> Z) : res t :=
  match ps with
  | [] => mret s
  | p :: ps =>
      s ← onPacketAcked (set_delay s (updateOneWayDelay (delay s) p)) p (clock 0%nat);
      onPacketsAcked s ps (fun i => clock (S i))
  end.

Definition sample_rtt (s : t) (ack : AckEvent) : t :=
  match rttSample ack with
  | Some rtt => set_estimator s (with_sampler (estimator s)
      (snd (Sampler.newRttSample (rttSampler_ (estimator s)) rtt (ackTime ack))) rtt)
  | None => s
  end.

Definition onAckEvent (s : t) (ack : AckEvent) (clock : nat -> Z) : res t :=
  let s := sample_rtt s ack in
  n ← subtractAndCheckUnderflow (inflightBytes (quicConnectionState_ s)) (ackedBytes ack);
  s ← onPacketsAcked (set_conn s (with_inflight (quicConnectionState_ s) n)) (ackedPackets ack) clock;
  mret (set_cwnd s (bounded (quicConnectionState_ s) (cwndBytes_ s))).

Definition new_loss (s : t) (loss : LossEvent) : res bool :=
  match endOfRecovery_ s with
  | None => mret true
  | Some e => t ← deref (largestLostSentTime loss); mret (e <? t)
  end.

Definition onPacketLoss (s : t) (loss : LossEvent) (clock : nat -> Z) : res t :=
  n ← subtractAndCheckUnderflow (inflightBytes (quicConnectionState_ s)) (lostBytes loss);
  let s := set_conn s (with_inflight (quicConnectionState_ s) n) in
  let s := set_delay s (reset_owd (delay s)) in
  let sampler := rttSampler_ (estimator s) in
  let s := if Sampler.minRttExpired sampler
           then set_estimator s (with_sampler (estimator s)
                  (Sampler.resetRttSample sampler (clock 0%nat)) (latestRttSample_ (estimator s)))
           else s in
  fresh ← new_loss s loss;
  let s :=
    if (fresh : bool) then
      let rttMinUs := u64 (Sampler.minRtt (rttSampler_ (estimator s))) in
      let ssthresh := Z.max (cast 64 (loss_bdp (bandwidthEstimate_ (estimator s)) rttMinUs))
                            (u64 (2 * udpSendPacketLen (quicConnectionState_ s))) in
      set_recovery (set_windows s ssthresh (bounded (quicConnectionState_ s) ssthresh))
        (Some (clock 1%nat))
    else s in
  mret (if persistentCongestion loss
        then set_cwnd s (bounded (quicConnectionState_ s)
               (u64 (minCwndInMss (quicConnectionState_ s) * udpSendPacketLen (quicConnectionState_ s))))
        else s).

Definition onPacketAckOrLoss (s : t) (ackEvent : option AckEvent) (lossEvent : option LossEvent)
    (clock : nat -> Z) : res t :=
  s ← match lossEvent with Some loss => onPacketLoss s loss clock | None => mret s end;
  match ackEvent with
  | Some ack => if bool_decide (is_Some (largestNewlyAckedPacket ack))
                then onAckEvent s ack (fun i => clock (2 + i)%nat) else mret s
  | None => mret s
  end.

#[global] Instance westwood_owd : CongestionController t := {
  CongestionControl.create := create;
  CongestionControl.conn := quicConnectionState_;
  CongestionControl.getCongestionWindow := getCongestionWindow;
  CongestionControl.getWritableBytes := getWritableBytes;
  CongestionControl.onPacketSent := onPacketSent;
  CongestionControl.onRemoveBytesFromInflight := onRemoveBytesFromInflight;
  CongestionControl.onPacketAckOrLoss := onPacketAckOrLoss }.

(** ** The laws *)

Record inv (s : t) : Prop := {
  i_settings : settings_ok (quicConnectionState_ s);
  i_cwnd : lo (quicConnectionState_ s) <= cwndBytes_ s <= hi (quicConnectionState_ s);
  i_ssthresh : is_u64 (ssthresh_ s);
  i_floor : 2 * udpSendPacketLen (quicConnectionState_ s) <= ssthresh_ s;
  i_inflight : is_u64 (inflightBytes (quicConnectionState_ s)) }.

Definition core (s : t) : Conn * Z * Z := (quicConnectionState_ s, cwndBytes_ s, ssthresh_ s).

Lemma owd_inv_core s s' : core s' = core s -> inv s -> inv s'.
Proof. unfold core. intros [= H1 H2 H3] [? ? ? ? ?]. constructor; rewrite ?H1, ?H2, ?H3; done. Qed.

Lemma owd_set_conn_inv s n :
  inv s -> is_u64 n -> inv (set_conn s (with_inflight (quicConnectionState_ s) n)).
Proof. intros [? ? ? ? ?] Hn. by constructor. Qed.

Lemma owd_set_cwnd_inv s n : inv s -> inv (set_cwnd s (bounded (quicConnectionState_ s) n)).
Proof. intros [? ? ? ? ?]. constructor; try done. by apply bounded_range. Qed.

(** Setting both windows to a threshold of at least two packets. *)
Lemma set_windows_inv s x :
  inv s -> is_u64 x ->
  let th := Z.max x (u64 (2 * udpSendPacketLen (quicConnectionState_ s))) in
  inv (set_windows s th (bounded (quicConnectionState_ s) th)).
Proof.
  intros [Hs ? ? ? ?] Hx th.
  assert (u64 (2 * udpSendPacketLen (quicConnectionState_ s)) = 2 * udpSendPacketLen (quicConnectionState_ s))
    as Hu by (destruct Hs as (? & _); apply u64_id; unfold_ints; lia).
  assert (Hth : is_u64 th /\ 2 * udpSendPacketLen (quicConnectionState_ s) <= th).
  { unfold th. rewrite Hu. destruct Hs as (? & _). unfold_ints. lia. }
  constructor; try done; [by apply bounded_range|apply Hth..].
Qed.

Lemma control_delay_inv s :
  inv s -> inv (control_delay s) /\ quicConnectionState_ (control_delay s) = quicConnectionState_ s.
Proof.
  intros Hi. unfold control_delay. destruct (delayControl _ _); [|done]. split; [|done].
  set (s1 := set_windows s _ _). apply (owd_inv_core s1); [done|].
  apply set_windows_inv; [done|apply cast_u64].
Qed.

Lemma owd_grow_ok s n :
  inv s -> 0 < n < 2 ^ 16 ->
  exists k, grow s n = Ok (set_cwnd s (bounded (quicConnectionState_ s) k)).
Proof.
  intros [Hs Hc _ _ _] Hn. destruct (products_small _ Hs) as (_ & _ & Hlo & Hhi). unfold grow.
  destruct (_ <? _).
  - rewrite add_ok by (unfold_ints; lia). by eexists.
  - assert (0 <= u64 (kDefaultUDPSendPacketLen * n) / cwndBytes_ s <= 2 ^ 27).
    { rewrite u64_id by (unfold kDefaultUDPSendPacketLen; unfold_ints; lia).
      unfold kDefaultUDPSendPacketLen. split; [apply Z.div_pos; lia|].
      apply Z.div_le_upper_bound; [lia|]. nia. }
    rewrite add_ok by (unfold_ints; lia). by eexists.
Qed.

Lemma owd_onPacketAcked_ok s p now :
  inv s -> packet_ok p ->
  exists s', onPacketAcked s p now = Ok s' /\ inv s' /\
    quicConnectionState_ s' = quicConnectionState_ s.
Proof.
  intros Hi Hp. unfold onPacketAcked. destruct (in_recovery _ _); [by exists s|]. cbv zeta.
  set (s1 := set_estimator s _). pose proof (owd_inv_core s s1 eq_refl Hi) as Hi1.
  destruct (control_delay_inv s1 Hi1) as [Hi2 Hq2].
  destruct (owd_grow_ok _ (encodedSize p) Hi2 Hp) as [k ->].
  eexists. split; [reflexivity|]. split; [by apply owd_set_cwnd_inv|]. exact Hq2.
Qed.

Lemma owd_onPacketsAcked_ok ps : forall s clock,
  inv s -> Forall packet_ok ps ->
  exists s', onPacketsAcked s ps clock = Ok s' /\ inv s' /\
    quicConnectionState_ s' = quicConnectionState_ s.
Proof.
  induction ps as [|p ps IH]; intros s clock Hi Hps; cbn [onPacketsAcked]; [by exists s|].
  inversion Hps as [|? ? Hp Hps']; subst. set (s0 := set_delay s _).
  pose proof (owd_inv_core s s0 eq_refl Hi) as Hi0.
  destruct (owd_onPacketAcked_ok s0 p (clock 0%nat) Hi0 Hp) as (s1 & -> & Hi1 & Hc1).
  cbn [mbind res_bind].
  destruct (IH s1 (fun i => clock (S i)) Hi1 Hps') as (s2 & -> & Hi2 & Hc2).
  exists s2. split; [done|]. split; [done|]. rewrite Hc2, Hc1. done.
Qed.

Lemma owd_onAckEvent_ok s ack clock :
  inv s -> Forall packet_ok (ackedPackets ack) ->
  0 <= ackedBytes ack <= inflightBytes (quicConnectionState_ s) ->
  exists s', onAckEvent s ack clock = Ok s' /\ inv s' /\
    same_settings (quicConnectionState_ s) (quicConnectionState_ s') /\
    inflightBytes (quicConnectionState_ s') = inflightBytes (quicConnectionState_ s) - ackedBytes ack.
Proof.
  intros Hi Hps Ha. unfold onAckEvent. cbv zeta.
  assert (Hc : core (sample_rtt s ack) = core s) by (unfold sample_rtt; by destruct (rttSample ack)).
  set (s0 := sample_rtt s ack) in *. pose proof (owd_inv_core s s0 Hc Hi) as Hi0.
  injection Hc as Hc0 _ _. rewrite <- Hc0 in *. pose proof (i_inflight s0 Hi0) as Hf.
  rewrite sub_ok by done. cbn [mbind res_bind].
  assert (Hi1 : inv (set_conn s0 (with_inflight (quicConnectionState_ s0)
    (inflightBytes (quicConnectionState_ s0) - ackedBytes ack)))).
  { apply owd_set_conn_inv; [done|]. unfold_ints. lia. }
  destruct (owd_onPacketsAcked_ok (ackedPackets ack) _ clock Hi1 Hps) as (s2 & -> & Hi2 & Hc2).
  cbn [mbind res_bind]. eexists. split; [reflexivity|]. split; [by apply owd_set_cwnd_inv|].
  cbn [set_cwnd quicConnectionState_]. rewrite Hc2. by split.
Qed.

Lemma owd_onPacketLoss_ok s loss clock :
  inv s -> is_Some (largestLostSentTime loss) ->
  0 <= lostBytes loss <= inflightBytes (quicConnectionState_ s) ->
  exists s', onPacketLoss s loss clock = Ok s' /\ inv s' /\
    same_settings (quicConnectionState_ s) (quicConnectionState_ s') /\
    inflightBytes (quicConnectionState_ s') = inflightBytes (quicConnectionState_ s) - lostBytes loss.
Proof.
  intros Hi [ts Ht] Hl. unfold onPacketLoss. rewrite sub_ok by (apply Hi || done).
  cbn [mbind res_bind]. cbv zeta. set (s0 := set_conn s _).
  assert (Hi0 : inv s0) by (apply owd_set_conn_inv; [done|pose proof (i_inflight s Hi); unfold_ints; lia]).
  set (s1 := set_delay s0 _). pose proof (owd_inv_core s0 s1 eq_refl Hi0) as Hi1.
  set (s2 := if Sampler.minRttExpired _ then _ else s1).
  assert (Hc2 : core s2 = core s1) by (unfold s2; by destruct (Sampler.minRttExpired _)).
  pose proof (owd_inv_core s1 s2 Hc2 Hi1) as Hi2. injection Hc2 as Hc2 _ _.
  assert (exists b, new_loss s2 loss = Ok b) as [b ->].
  { unfold new_loss. rewrite Ht. destruct (endOfRecovery_ s2); simpl; by eexists. }
  cbn [mbind res_bind]. set (s3 := if b then _ else s2).
  assert (inv s3 /\ quicConnectionState_ s3 = quicConnectionState_ s1) as [Hi3 Hc3].
  { unfold s3. destruct b; [|done]. split; [|done].
    set (w := set_windows s2 _ _). apply (owd_inv_core w); [done|].
    apply set_windows_inv; [done|apply cast_u64]. }
  eexists. split; [reflexivity|]. destruct (persistentCongestion loss).
  - split; [by apply owd_set_cwnd_inv|]. cbn [set_cwnd quicConnectionState_]. rewrite Hc3. by split.
  - split; [done|]. rewrite Hc3. by split.
Qed.

#[global] Instance westwood_owd_laws : CongestionControllerLaws t.
Proof.
  refine {| CongestionControl.inv := inv |}.
  - intros c t0 Hc H0. destruct (products_small c Hc) as (_ & _ & Hlo & Hhi).
    split; [|split; [done|by split_and!]]. constructor; simpl; try done.
    + by apply bounded_range.
    + destruct Hc as (? & _). unfold_ints. lia.
    + rewrite H0. unfold_ints. lia.
  - intros s Hi. apply Hi.
  - intros s [Hs Hc _ _ Hf]. destruct (products_small _ Hs) as (_ & _ & Hlo & Hhi).
    simpl. unfold getWritableBytes, getCongestionWindow, inflight. simpl. rewrite Z.gtb_ltb.
    destruct (Z.ltb_spec (cwndBytes_ s) (inflightBytes (quicConnectionState_ s))).
    { unfold mret, res_ret. f_equal. lia. }
    rewrite sub_ok by (unfold_ints; lia). f_equal. lia.
  - intros s p Hi Hp Hs. unfold inflight in *. simpl in *. unfold onPacketSent, packet_ok in *.
    pose proof (i_inflight s Hi). rewrite add_ok by (done || lia).
    eexists. split; [reflexivity|]. split; [apply owd_set_conn_inv; [done|unfold_ints; lia]|].
    by split_and!.
  - intros s n Hi Hn. unfold inflight in *. simpl in *. unfold onRemoveBytesFromInflight.
    pose proof (i_inflight s Hi). rewrite sub_ok by (done || lia).
    eexists. split; [reflexivity|]. split; [apply owd_set_conn_inv; [done|unfold_ints; lia]|].
    by split_and!.
  - intros s a l clock Hi He Hle.
    apply (dispatch_ok quicConnectionState_ inv (fun s loss => onPacketLoss s loss clock)
      (fun s ack => onAckEvent s ack (fun i => clock (2 + i)%nat))); try done.
    + intros s' loss. apply owd_onPacketLoss_ok.
    + intros s' ack ? ? _. by apply owd_onAckEvent_ok.
Defined.

(** ** The filter *)

(** Below 2^24 the single-precision filter is exact: it is the integer part of
    (a + 3 b) / 4, a quarter of the old estimate and three quarters of the sample. *)
Theorem owd_filter_exact a b :
  0 <= a -> 0 <= b -> a + 3 * b < 2 ^ 24 -> westwoodLowPassFilter a b = (a + 3 * b) / 4.
Proof.
  intros Ha Hb Hab. unfold westwoodLowPassFilter.
  change (f32_div (f32_of_Z 2) (f32_of_Z 8)) with (f32_scaled 1 (-2)).
  change (f32_sub (f32_of_Z 1) (f32_scaled 1 (-2))) with (f32_scaled 3 (-2)).
  change (f32_of_Z a) with (f32_scaled a 0). change (f32_of_Z b) with (f32_scaled b 0).
  rewrite !f32_mul_exact by lia. rewrite Z.mul_1_l, f32_add_exact by lia.
  unfold cast. rewrite trunc_scaled by lia. change (2 ^ (- (-2 + 0))) with 4.
  assert (0 <= (a + 3 * b) / 4 < 2 ^ 24).
  { split; [apply Z.div_pos; lia|]. apply Z.div_lt_upper_bound; lia. }
  by rewrite (proj2 (Z.leb_le _ _)), (proj2 (Z.ltb_lt _ _)) by lia.
Qed.

End arithmetic.

(** ** The one-way delay *)

(** A sample: when a packet was sent, in nanoseconds of the sender's clock, and when it was
    received, in microseconds of the receiver's.  Its delay in nanoseconds, up to the offset of
    the clocks. *)
Abbreviation sample := (Z * Z)%type.
Definition relative (x : sample) : Z := 1000 * snd x - fst x.

(** The smallest delay of some samples. *)
Definition least (x : sample) (xs : list sample) : Z := foldr (fun y m => Z.min (relative y) m) (relative x) xs.

(** What is lost by rounding: the time between two departures is taken in whole
    microseconds, so each sample adds an error of less than one.  The latest sample is first. *)
Fixpoint drift (w : list sample) : Z :=
  match w with
  | x :: (y :: _) as w' => Z.abs (Z.rem (fst x - fst y) 1000) + drift w'
  | _ => 0
  end.

Lemma drift_range w : 0 <= drift w <= 999 * Z.max 0 (zlen w - 1).
Proof.
  induction w as [|x [|y w] IH]; [done..|]. cbn [drift] in *. set (r := drift (y :: w)) in *. clearbody r.
  pose proof (Z.rem_bound_abs (fst x - fst y) 1000 ltac:(lia)). unfold zlen in *. cbn [length] in *. lia.
Qed.

Definition stamp_ok (p : Packet) : Prop :=
  match receiveRelativeTimeStampUsec p with Some r => 0 <= time p < 1000 * 2 ^ 52 /\ 0 <= r < 2 ^ 52 | None => True end.

(** The samples since [owd_] was last zero by decree, the latest first. *)
Definition take_sample (p : Packet) (w : list sample) : list sample :=
  match receiveRelativeTimeStampUsec p with Some r => (time p, r) :: w | None => w end.
Definition restart (w : list sample) : list sample := match w with x :: _ => [x] | [] => [] end.

(** [tracks w d]: the state [d] knows the latest sample of [w], and its [owd_] is the delay of
    that sample less the smallest of [w], up to the drift. *)
Definition tracks (w : list sample) (d : Delay) : Prop :=
  match w with
  | [] => isFirstPacket d = true /\ owd_ d = 0
  | x :: w' =>
      latestSendTimeStamp_ d = fst x /\ latestReceiveTimeStamp_ d = snd x /\ 0 <= owd_ d /\
      Z.abs (1000 * owd_ d - (relative x - least x w')) <= drift w /\
      Forall (fun y => 0 <= fst y < 1000 * 2 ^ 52 /\ 0 <= snd y < 2 ^ 52) w
  end.

Lemma least_range x xs :
  Forall (fun y : sample => 0 <= fst y < 1000 * 2 ^ 52 /\ 0 <= snd y < 2 ^ 52) (x :: xs) ->
  - (1000 * 2 ^ 52) <= least x xs <= relative x.
Proof.
  intros [Hx Hxs]%Forall_cons. unfold relative. induction Hxs as [|y xs Hy _ IH]; simpl; unfold relative in *; [lia|].
  fold (least x xs). lia.
Qed.

(** The smallest delay does not depend on which sample is named first. *)
Lemma least_cons x y w : least x (y :: w) = Z.min (relative x) (least y w).
Proof.
  revert y. induction w as [|z w IH]; intros y; simpl; [lia|]. fold (least x w) (least y w).
  specialize (IH y). simpl in IH. fold (least x w) in IH. lia.
Qed.

Lemma tracks_reset w d : tracks w d -> tracks (restart w) (reset_owd d).
Proof.
  destruct w as [|x w]; simpl; [by intros [? _]|]. intros (H1 & H2 & _ & _ & [Hx _]%Forall_cons).
  split_and!; try done; [unfold least; simpl; lia|by apply Forall_singleton].
Qed.

Lemma tracks_sample w d p : tracks w d -> stamp_ok p -> zlen w < 2 ^ 60 -> tracks (take_sample p w) (updateOneWayDelay d p).
Proof.
  unfold stamp_ok, take_sample, updateOneWayDelay. destruct (receiveRelativeTimeStampUsec p) as [r|]; [|done]. intros Ht [Hs Hr] Hz.
  destruct w as [|y w].
  - destruct Ht as [-> Ho]. cbn [tracks latestSendTimeStamp_ latestReceiveTimeStamp_ owd_ fst snd least foldr drift]. rewrite Ho, u64_id by (unfold_ints; lia).
    split_and!; try done; [lia|]. by apply Forall_singleton.
  - destruct Ht as (H1 & H2 & Ho & Hd & Hw). pose proof (least_range y w Hw) as Hl. pose proof (drift_range (y :: w)) as Hdr.
    pose proof Hw as [Hy _]%Forall_cons. rewrite Z.max_r in Hdr by (unfold zlen; simpl; lia).
    assert (isFirstPacket d = false) as -> by (unfold isFirstPacket, TIME_POINT_MIN; rewrite H1; apply Z.eqb_neq; lia).
    cbv zeta. cbn [latestSendTimeStamp_ latestReceiveTimeStamp_ owd_]. rewrite H1, H2. set (gap := time p - fst y) in *.
    pose proof (Z.quot_rem' gap 1000) as Hq. pose proof (Z.rem_bound_abs gap 1000 ltac:(lia)) as Hrb.
    assert (Hi : forall z, - (2 ^ 61) <= z <= 2 ^ 61 -> i64 z = z) by (intros z Hzz; change (2 ^ 61) with 2305843009213693952 in Hzz; ilia).
    assert (i64 (u64 (r - snd y)) = r - snd y) as -> by ilia. rewrite (u64_id r) by (unfold_ints; lia).
    unfold relative in Hl, Hd. rewrite (Hi (Z.quot gap 1000)) by lia. rewrite (Hi (r - snd y - Z.quot gap 1000)) by lia. rewrite Hi by lia.
    cbn [tracks fst snd latestSendTimeStamp_ latestReceiveTimeStamp_ owd_]. split_and!; try done; [lia| |by constructor]. rewrite least_cons. change (drift ((time p, r) :: y :: w)) with (Z.abs (Z.rem gap 1000) + drift (y :: w)). unfold relative in *. cbn [fst snd] in *.
    set (dr := drift (y :: w)) in *. set (m := least y w) in *. set (q := Z.quot gap 1000) in *. set (e := Z.rem gap 1000) in *. assert (Hg : gap = time p - fst y) by done. clearbody dr m q e gap. lia.
Qed.

Section run.
Context `{UndefinedCast}.

(** What a connection does, as in [sender_safe]. *)
Fixpoint run (s : t) (ms : list move) : res t :=
  match ms with [] => Ok s | m :: ms => s ← perform s m; run s ms end.

Fixpoint all_allowed (s : t) (ms : list move) : Prop :=
  match ms with
  | [] => True
  | m :: ms => allowed s m /\ match perform s m with Ok s => all_allowed s ms | _ => True end
  end.

(** An acknowledged packet is a sample, and the sum starts again if the delay is too large
    and the packet was not sent before the end of the recovery. *)
Definition delay_met (s : t) (p : Packet) : bool := negb (in_recovery s (time p)) && delayControl s threshold_fraction.

Fixpoint samples (s : t) (ps : list Packet) (clock : nat -> Z) (w : list sample) : list sample :=
  match ps with
  | [] => w
  | p :: ps =>
      let s := set_delay s (updateOneWayDelay (delay s) p) in
      let w := if delay_met s p then restart (take_sample p w) else take_sample p w in
      match onPacketAcked s p (clock 0%nat) with Ok s => samples s ps (fun i => clock (S i)) w | _ => w end
  end.

Definition report_samples (s : t) (a : option AckEvent) (clock : nat -> Z) (w : list sample) : list sample :=
  match a with
  | Some ack =>
      if bool_decide (is_Some (largestNewlyAckedPacket ack)) then
        let s := sample_rtt s ack in
        let c := quicConnectionState_ s in
        samples (set_conn s (with_inflight c (inflightBytes c - ackedBytes ack))) (ackedPackets ack) (fun i => clock (2 + i)%nat) w
      else w
  | None => w
  end.

(** The samples since [owd_] was last set to zero: by the constructor, by a loss or because
    the delay was too large. *)
Definition window_after (s : t) (m : move) (w : list sample) : list sample :=
  match m with
  | Report a (Some loss) clock => match onPacketLoss s loss clock with Ok s => report_samples s a clock (restart w) | _ => w end
  | Report a None clock => report_samples s a clock w
  | _ => w
  end.

Fixpoint window (s : t) (ms : list move) (w : list sample) : list sample :=
  match ms with
  | [] => w
  | m :: ms => match perform s m with Ok s' => window s' ms (window_after s m w) | _ => w end
  end.

Definition stamps_ok (m : move) : Prop :=
  match m with Report (Some ack) _ _ => Forall stamp_ok (ackedPackets ack) | _ => True end.
Definition packets (m : move) : Z := match m with Report (Some ack) _ _ => zlen (ackedPackets ack) | _ => 0 end.

(** *** One packet *)

Lemma sample_bandwidth_sampler e now : rttSampler_ (sample_bandwidth e now) = rttSampler_ e.
Proof. unfold sample_bandwidth, updateWestwoodBandwidthEstimates. by repeat case_match. Qed.

Lemma onPacketAcked_delay s p now s' : onPacketAcked s p now = Ok s' ->
  delay s' = if delay_met s p then reset_owd (delay s) else delay s.
Proof.
  unfold onPacketAcked, delay_met. destruct (in_recovery s (time p)); [by intros [= <-]|]. cbn [negb andb]. cbv zeta.
  set (s1 := set_estimator s _). assert (Hd : delayControl s1 threshold_fraction = delayControl s threshold_fraction).
  { unfold delayControl, s1. cbn [estimator delay set_estimator]. by rewrite sample_bandwidth_sampler. }
  unfold control_delay, grow. rewrite Hd. intros Hg.
  destruct (delayControl s threshold_fraction); destruct (cwndBytes_ _ <? ssthresh_ _);
    (destruct (addAndCheckOverflow _ _); [|done..]); injection Hg as <-; done.
Qed.

Lemma take_sample_len p w : zlen (take_sample p w) <= zlen w + 1.
Proof. unfold take_sample, zlen. destruct (receiveRelativeTimeStampUsec p); cbn [length]; lia. Qed.

Lemma restart_len w : zlen (restart w) <= zlen w.
Proof. destruct w; unfold zlen; simpl; lia. Qed.

Lemma samples_track ps : forall s clock w s', tracks w (delay s) -> Forall stamp_ok ps -> zlen w + zlen ps < 2 ^ 60 ->
  onPacketsAcked s ps clock = Ok s' ->
  tracks (samples s ps clock w) (delay s') /\ zlen (samples s ps clock w) <= zlen w + zlen ps.
Proof.
  induction ps as [|p ps IH]; intros s clock w s' Ht Hps Hz HE; cbn [onPacketsAcked samples] in *.
  { injection HE as <-. split; [done|]. unfold zlen. simpl. lia. }
  inversion Hps as [|? ? Hp Hps']; subst. assert (Hc : zlen (p :: ps) = 1 + zlen ps) by (unfold zlen; cbn [length]; lia).
  set (s1 := set_delay s _) in *. destruct (onPacketAcked s1 p (clock 0%nat)) as [s2|?] eqn:E2; [|done..]. cbn [mbind res_bind] in HE.
  pose proof (onPacketAcked_delay _ _ _ _ E2) as Hd. assert (0 <= zlen ps) by (unfold zlen; lia).
  assert (Hts : tracks (take_sample p w) (delay s1)) by (apply tracks_sample; [done|done|lia]).
  pose proof (take_sample_len p w) as Hl. pose proof (restart_len (take_sample p w)) as Hr.
  destruct (delay_met s1 p).
  - destruct (IH s2 (fun i => clock (S i)) (restart (take_sample p w)) s') as [H1 H2]; try done; [rewrite Hd; by apply tracks_reset|lia|].
    split; [done|lia].
  - destruct (IH s2 (fun i => clock (S i)) (take_sample p w) s') as [H1 H2]; try done; [by rewrite Hd|lia|]. split; [done|lia].
Qed.

(** *** One call *)

Lemma sample_rtt_delay s ack : delay (sample_rtt s ack) = delay s.
Proof. unfold sample_rtt. by destruct (rttSample ack). Qed.

Lemma report_track s a clock w s' : tracks w (delay s) ->
  (forall ack, a = Some ack -> Forall stamp_ok (ackedPackets ack)) ->
  zlen w + match a with Some ack => zlen (ackedPackets ack) | None => 0 end < 2 ^ 60 ->
  inv s -> acked a <= inflightBytes (quicConnectionState_ s) -> (forall ack, a = Some ack -> 0 <= ackedBytes ack) ->
  match a with
  | Some ack => if bool_decide (is_Some (largestNewlyAckedPacket ack)) then onAckEvent s ack (fun i => clock (2 + i)%nat) else mret s
  | None => mret s
  end = Ok s' ->
  tracks (report_samples s a clock w) (delay s') /\
  zlen (report_samples s a clock w) <= zlen w + match a with Some ack => zlen (ackedPackets ack) | None => 0 end.
Proof.
  intros Ht Hst Hz Hi Hin Hpos. destruct a as [ack|]; simpl in *; [|intros [= <-]; split; [done|lia]].
  assert (0 <= zlen (ackedPackets ack)) by (unfold zlen; lia). case_bool_decide; [|intros [= <-]; split; [done|lia]]. unfold onAckEvent. cbv zeta.
  assert (Hc : quicConnectionState_ (sample_rtt s ack) = quicConnectionState_ s) by (unfold sample_rtt; by destruct (rttSample ack)).
  specialize (Hpos ack eq_refl). pose proof (i_inflight s Hi) as Hf. rewrite Hc, sub_ok by (done || lia). cbn [mbind res_bind].
  set (s1 := set_conn _ _). destruct (onPacketsAcked s1 (ackedPackets ack) _) as [s2|?] eqn:E; [|done..]. cbn [mbind res_bind].
  intros [= <-]. cbn [delay set_cwnd]. apply samples_track; try done; [|by apply Hst].
  unfold s1. cbn [delay set_conn]. by rewrite sample_rtt_delay.
Qed.

Lemma loss_delay s loss clock s' : onPacketLoss s loss clock = Ok s' -> delay s' = reset_owd (delay s).
Proof.
  unfold onPacketLoss. destruct (subtractAndCheckUnderflow _ _); [|done..]. cbn [mbind res_bind]. cbv zeta.
  set (s2 := if Sampler.minRttExpired _ then _ else _). assert (Hd : delay s2 = reset_owd (delay s)) by (unfold s2; by destruct (Sampler.minRttExpired _)).
  clearbody s2. destruct (new_loss s2 loss) as [b|?]; [|done..]. cbn [mbind res_bind]. intros [= <-]. by destruct (persistentCongestion loss), b.
Qed.

Lemma perform_track s m w s' : inv s -> allowed s m -> stamps_ok m -> tracks w (delay s) -> zlen w + packets m < 2 ^ 60 ->
  perform s m = Ok s' -> tracks (window_after s m w) (delay s') /\ zlen (window_after s m w) <= zlen w + packets m.
Proof.
  intros Hi Ha Hst Ht Hz. destruct m as [p|n|a l clock]; simpl in *.
  - unfold onPacketSent. destruct (addAndCheckOverflow _ _); [|done..]. intros [= <-]. split; [done|lia].
  - unfold onRemoveBytesFromInflight. destruct (subtractAndCheckUnderflow _ _); [|done..]. intros [= <-]. split; [done|lia].
  - destruct Ha as [He Hle]. destruct (event_nonneg a l He) as [Ha0 Hl0]. destruct He as [He1 He2]. unfold inflight in Hle. simpl in Hle.
    assert (Hst' : forall ack, a = Some ack -> Forall stamp_ok (ackedPackets ack)) by (by intros ack ->).
    assert (Hpos : forall ack, a = Some ack -> 0 <= ackedBytes ack) by (intros ack E; apply (He1 ack E)).
    unfold onPacketAckOrLoss. destruct l as [loss|]; simpl in Hle.
    + destruct (He2 loss eq_refl) as [Hlb Hsome]. destruct (owd_onPacketLoss_ok s loss clock Hi Hsome) as (s1 & E1 & Hi1 & _ & Hf1); [lia|].
      rewrite E1. cbn [mbind res_bind]. pose proof (restart_len w). intros HE.
      destruct (report_track s1 a clock (restart w) s') as [H1 H2]; try done; [rewrite (loss_delay _ _ _ _ E1); by apply tracks_reset|lia|lia|].
      split; [done|lia].
    + cbn [mbind res_bind mret res_ret]. intros HE. apply (report_track s a clock w s'); try done; lia.
Qed.

(** *** A connection *)

Definition total (ms : list move) : Z := foldr (fun m n => packets m + n) 0 ms.

Lemma total_packets_nonneg ms : 0 <= total ms.
Proof. induction ms as [|m ms IH]; simpl; [done|]. destruct m as [| |[ack|] ? ?]; simpl; unfold zlen; lia. Qed.

Lemma run_track c ms : settings_ok c -> forall s n w, bounded_in c s n -> all_allowed s ms -> Forall stamps_ok ms -> tracks w (delay s) ->
  zlen w + total ms < 2 ^ 60 -> exists s', run s ms = Ok s' /\ tracks (window s ms w) (delay s').
Proof.
  intros Hc. induction ms as [|m ms IH]; intros s n w Hb Ha Hst Ht Hz; simpl in *; [by exists s|].
  destruct Ha as [Ha Has]. inversion Hst; subst. pose proof (total_packets_nonneg ms).
  destruct (move_ok c s n m Hc Hb Ha) as (s1 & E & Hb1 & _). destruct Hb as (Hi & _).
  destruct (perform_track s m w s1) as [Ht1 Hl1]; try done; [lia|]. simpl in *. rewrite E in *. cbn [mbind res_bind].
  eapply IH; [exact Hb1|done|done|done|lia].
Qed.

(** C32. The clamped sum of inter-packet delay variations is the queueing delay.  A
    connection sends packets, acknowledges them with or without receive time stamps, loses and
    forgets them, in any order.  At any time, let the window be the stamped packets since
    [owd_] was last set to zero (by the constructor, by a loss, or by delay control), with the
    latest one before that.  Then [owd_] is the delay of the latest packet less the
    smallest delay in the window, whatever the offset between the two clocks, up to the drift
    of the window: send times are in nanoseconds, and the time between two departures is
    cut to whole microseconds, which adds up to less than a microsecond per packet
    ([truncation_accumulates] shows that it does add up).  The clocks count from zero and less
    than 2^52 microseconds. *)
Theorem owd_is_queueing_delay c now ms :
  settings_ok c -> inflightBytes c = 0 -> all_allowed (create c now) ms -> Forall stamps_ok ms -> total ms < 2 ^ 60 ->
  exists s, run (create c now) ms = Ok s /\
    match window (create c now) ms [] with
    | [] => owd_ (delay s) = 0
    | x :: w => Z.abs (1000 * owd_ (delay s) - (relative x - least x w)) <= drift (x :: w) <= 999 * zlen w
    end.
Proof.
  intros Hc H0 Ha Hst Hz. destruct (create_law c now Hc H0) as (Hi & Hf & Hs).
  destruct (run_track c ms Hc (create c now) 0 []) as (s & Hrun & Ht); try done.
  { split_and!; try done. destruct (hi_small c Hc). lia. }
  exists s. split; [done|]. destruct (window _ _ _) as [|x w]; [apply Ht|]. destruct Ht as (_ & _ & _ & Ht & _).
  pose proof (drift_range (x :: w)). unfold zlen in *. cbn [length] in *. lia.
Qed.

End run.

(** Four packets with delays 30, 50, 20 and 45 microseconds behind an offset of 1000; then one
    is lost, and the next has a delay of 100. *)
Definition examplePackets : list Packet :=
  [mkPacket 0 0 1232 (Some 1030); mkPacket 1 100000 1232 (Some 1150); mkPacket 2 200000 1232 (Some 1220); mkPacket 3 300000 1232 (Some 1345)].
Definition exampleNext : Packet := mkPacket 5 400000 1232 (Some 1500).
Definition exampleMoves : list move :=
  (Send <$> examplePackets) ++
  [Report (Some (mkAck 2000000 None 4928 (Some 3) examplePackets)) None (fun _ => 2000000); Send (mkPacket 4 350000 1232 None); Send exampleNext;
   Report None (Some (mkLoss (Some 4) [4] 1232 1 (Some 350000) (Some 350000) false)) (fun _ => 3000000);
   Report (Some (mkAck 4000000 None 1232 (Some 5) [exampleNext])) None (fun _ => 4000000)].

Ltac example_move :=
  cbn [all_allowed app fmap list_fmap]; split;
  [|match goal with |- context [@perform ?T ?cc ?s ?m] => let r := eval vm_compute in (@perform T cc s m) in change (@perform T cc s m) with r; cbv beta iota end].
Ltac example_send := example_move; [split; [by vm_compute|]; eexists; split; [vm_compute; reflexivity|by vm_compute]|].

Lemma example_allowed : all_allowed (H := x86_64) (create default_conn 0) exampleMoves.
Proof.
  unfold exampleMoves, examplePackets. do 4 example_send.
  example_move; [split; [split; [intros e [= <-]; split_and!; [done|repeat (apply Forall_cons; split); [by vm_compute..|by apply Forall_nil]|by vm_compute]|done]|by vm_compute]|].
  do 2 example_send.
  example_move; [split; [split; [done|intros e [= <-]; split; [done|by eexists]]|by vm_compute]|].
  example_move; [split; [split; [intros e [= <-]; split_and!; [done|by apply Forall_singleton; vm_compute|by vm_compute]|done]|by vm_compute]|done].
Qed.

Lemma owd_is_queueing_delay_witness :
  exists s, run (H := x86_64) (create default_conn 0) exampleMoves = Ok s /\ owd_ (delay s) = 55 /\
    window (H := x86_64) (create default_conn 0) exampleMoves [] = [(400000, 1500); (300000, 1345)].
Proof.
  destruct (owd_is_queueing_delay (H := x86_64) default_conn 0 exampleMoves default_conn_ok eq_refl example_allowed) as (s & E & Hd).
  - repeat (apply Forall_cons; split); [..|by apply Forall_nil]; simpl; try done; repeat (apply Forall_cons; split); try (by apply Forall_nil); by vm_compute.
  - by vm_compute.
  - assert (Hw : window (H := x86_64) (create default_conn 0) exampleMoves [] = [(400000, 1500); (300000, 1345)]) by (vm_compute; reflexivity).
    rewrite Hw in Hd. change (relative (400000, 1500) - least (400000, 1500) [(300000, 1345)]) with 55000 in Hd.
    change (drift [(400000, 1500); (300000, 1345)]) with 0 in Hd. exists s. split; [exact E|]. split; [lia|exact Hw].
Defined.

(** The rounding adds up.  Packets that leave every 1999 nanoseconds and arrive every two
    microseconds have delays that differ by 4 nanoseconds in all, and are taken to be delayed
    by one microsecond more each. *)
Lemma truncation_accumulates :
  let d := foldl (fun d p => updateOneWayDelay d p) (delay (create default_conn 0))
    [mkPacket 0 0 1232 (Some 0); mkPacket 1 1999 1232 (Some 2); mkPacket 2 3998 1232 (Some 4); mkPacket 3 5997 1232 (Some 6); mkPacket 4 7996 1232 (Some 8)] in
  owd_ d = 4 /\ relative (7996, 8) - relative (0, 0) = 4.
Proof. by vm_compute. Qed.

End WestwoodOWD.
