(* ===== verification/CongestionResults.v ===== *)
(** * Senders and their controllers

    The theorem about senders of [CongestionControl.v] for every controller that is
    modelled. *)

From S2P Require Import Prelude IEEE754 CongestionControl NewReno Westwood WestwoodOWD.

Module CongestionResults.
Import CongestionControl IEEE754.

(** A connection as it is when its controller is created: the settings are in
    range and nothing is in flight. *)
Definition fresh_connection (c : Conn) : Prop :=
  settings_ok c /\ inflightBytes c = 0.

(** C30. NewReno, Westwood and WestwoodOWD keep a sender within its window: from
    creation, through any sequence of sends that [getWritableBytes] covers, acks
    and losses of packets in flight, and discarded packets, no call throws; the
    bytes in flight are those sent and not yet reported, never more than the
    largest window; the window stays between its limits; and a packet that was
    allowed leaves at most a window in flight. For the Westwood controllers this
    holds for every function in place of [std::exp] and every outcome of an
    undefined conversion. *)
Theorem controllers_sender_safe (U : UndefinedCast) exp c :
  fresh_connection c ->
  sender_safe (CC := NewReno.newreno) c /\
  sender_safe (CC := Westwood.westwood exp) c /\
  sender_safe (CC := WestwoodOWD.westwood_owd) c.
Proof.
  intros [Hc H0]. split; [|split].
  - apply (sender_is_safe (CC := NewReno.newreno)); done.
  - apply (sender_is_safe (CC := Westwood.westwood exp)); done.
  - apply (sender_is_safe (CC := WestwoodOWD.westwood_owd)); done.
Qed.

Lemma controllers_sender_safe_witness :
  fresh_connection default_conn /\
  sender_safe (CC := NewReno.newreno) default_conn /\
  sender_safe (CC := Westwood.westwood (H := x86_64) f32_opp) default_conn /\
  sender_safe (CC := WestwoodOWD.westwood_owd (H := x86_64)) default_conn.
Proof.
  pose proof (conj default_conn_ok eq_refl : fresh_connection default_conn) as H.
  split; [exact H|]. exact (controllers_sender_safe x86_64 f32_opp default_conn H).
Defined.

End CongestionResults.
