(* ===== verification/QuicHeaders.v ===== *)
(** * QUIC packet headers

    The headers of QUIC packets ([codec/Types.h]), their parsers ([codec/Decode.cpp],
    [codec/QuicHeaderCodec.cpp]) and the protection of the first byte and of the packet
    number ([codec/PacketNumberCipher.cpp]).  The functions that encrypt are those of a
    cryptographic library: they are the class [Crypto], and what is relied on is
    [CryptoLaws]. *)

From S2P Require Import Prelude QuicInteger QuicFrames QuicFrameWriter.

Module QuicHeaders.
Import QuicFrames QuicFrameWriter.

(** ** Headers *)

Inductive QuicNodeType := Client | Server.
Inductive ProtectionType := Initial | Handshake | ZeroRtt | KeyPhaseZero | KeyPhaseOne.
Inductive Types := TInitial | TZeroRtt | THandshake | TRetry.
Inductive TransportErrorCode := FRAME_ENCODING_ERROR | PROTOCOL_VIOLATION.

#[global] Instance ProtectionType_eq_dec : EqDecision ProtectionType.
Proof. solve_decision. Defined.
#[global] Instance Types_eq_dec : EqDecision Types.
Proof. solve_decision. Defined.
#[global] Instance QuicNodeType_eq_dec : EqDecision QuicNodeType.
Proof. solve_decision. Defined.

(** A connection id is its bytes, at most [kMaxConnectionIdSize] of them. *)
Record LongHeaderInvariant := mkInvariant { version : Z; srcConnId : list Z; dstConnId : list Z }.

Record LongHeader := mkLong {
  long_packetSequenceNum_ : Z;
  longHeaderType_ : Types;
  invariant_ : LongHeaderInvariant;
  token_ : list Z
}.

Record ShortHeader := mkShort {
  short_packetSequenceNum_ : Z;
  protectionType_ : ProtectionType;
  connectionId_ : list Z
}.

Inductive PacketHeader := HLong (h : LongHeader) | HShort (h : ShortHeader).

Definition header_form (h : PacketHeader) : HeaderForm := match h with HLong _ => Long | HShort _ => Short end.
Definition getPacketSequenceNum (h : PacketHeader) : Z :=
  match h with HLong h => long_packetSequenceNum_ h | HShort h => short_packetSequenceNum_ h end.

Definition longHeaderTypeToProtectionType (t : Types) : ProtectionType :=
  match t with TInitial | TRetry => Initial | THandshake => Handshake | TZeroRtt => ZeroRtt end.

Definition long_setPacketNumber (n : Z) (h : LongHeader) : LongHeader := mkLong n (longHeaderType_ h) (invariant_ h) (token_ h).
Definition short_setPacketNumber (n : Z) (h : ShortHeader) : ShortHeader := mkShort n (protectionType_ h) (connectionId_ h).

(** ** The first byte *)

Definition kHeaderFormMask : Z := 0x80.
Definition long_kFixedBitMask : Z := 0x40.
Definition kPacketTypeMask : Z := 0x30.
Definition long_kReservedBitsMask : Z := 0x0c.
Definition kPacketNumLenMask : Z := 0x03.
Definition long_kTypeBitsMask : Z := 0x0F.
Definition kTypeShift : Z := 4.
Definition short_kFixedBitMask : Z := 0x40.
Definition short_kReservedBitsMask : Z := 0x18.
Definition kKeyPhaseMask : Z := 0x04.
Definition short_kTypeBitsMask : Z := 0x1F.

Definition type_value (t : Types) : Z := match t with TInitial => 0 | TZeroRtt => 1 | THandshake => 2 | TRetry => 3 end.

Definition getHeaderForm (headerValue : Z) : HeaderForm := if truth (Z.land headerValue kHeaderFormMask) then Long else Short.

(** Two bits, so that the four types are all there is. *)
Definition parseLongHeaderType (initialByte : Z) : Types :=
  match Z.shiftr (Z.land initialByte kPacketTypeMask) kTypeShift with 0 => TInitial | 1 => TZeroRtt | 2 => THandshake | _ => TRetry end.

Definition parsePacketNumberLength (initialByte : Z) : Z := Z.land initialByte kPacketNumLenMask + 1.

(** The packet number and its length.  [None] is a read behind the range or a failed [CHECK]. *)
Definition parsePacketNumber (initialByte : Z) (packetNumberRange : list Z) (expectedNextPacketNum : Z) : option (Z * Z) :=
  let packetNumLen := parsePacketNumberLength initialByte in
  if zlen packetNumberRange <? packetNumLen then None
  else
    let encodedPacketNum := be_value (take (Z.to_nat packetNumLen) packetNumberRange) in
    match PacketNumber.decodePacketNumber encodedPacketNum packetNumLen expectedNextPacketNum with
    | Some n => Some (n, packetNumLen)
    | None => None
    end.

(** ** Parsers *)

Definition hcheck (e : TransportErrorCode) (b : bool) : parser TransportErrorCode () := if b then mret () else pfail e.
Definition remaining : parser TransportErrorCode Z := fun cursor => POk (zlen cursor) cursor.
Definition canAdvance (n : Z) : parser TransportErrorCode bool := fun cursor => POk (n <=? zlen cursor) cursor.
Definition required (n : Z) : parser TransportErrorCode () := ok ← canAdvance n; hcheck FRAME_ENCODING_ERROR ok.

(** [decodeQuicInteger(cursor)] and the error if it fails. *)
Definition hinteger : parser TransportErrorCode (Z * Z) := fun cursor =>
  match QuicInteger.decodeQuicInteger cursor 8 with
  | Some (v, rest) => POk v rest
  | None => PErr FRAME_ENCODING_ERROR
  end.

Record ParsedLongHeaderInvariant := mkParsedInvariant { initialByte : Z; invariant : LongHeaderInvariant; invariantLength : Z }.

Definition parseLongHeaderInvariant (initialByte : Z) : parser TransportErrorCode ParsedLongHeaderInvariant :=
  initialLength ← remaining;
  required 4 ;;
  version ← readBE 4;
  required 1 ;;
  destConnIdLen ← readBE 1;
  hcheck PROTOCOL_VIOLATION (negb (destConnIdLen >? kMaxConnectionIdSize)) ;;
  required destConnIdLen ;;
  destConnId ← readBytes destConnIdLen;
  required 1 ;;
  srcConnIdLen ← readBE 1;
  hcheck PROTOCOL_VIOLATION (negb (srcConnIdLen >? kMaxConnectionIdSize)) ;;
  required srcConnIdLen ;;
  srcConnId ← readBytes srcConnIdLen;
  currentLength ← remaining;
  mret (mkParsedInvariant initialByte (mkInvariant version srcConnId destConnId) (initialLength - currentLength)).

Definition VERSION_NEGOTIATION : Z := 0.
Definition kRetryIntegrityTagLen : Z := 16.
Definition kMinInitialDestinationConnIdLength : Z := 8.

Record PacketLength := mkPacketLength { packetLength : Z; lengthLength : Z }.
Record ParsedLongHeader := mkParsedLong { header : LongHeader; packet_length : PacketLength }.

(** The header as it was read, before its number is known. *)
Definition read_long (type : Types) (i : LongHeaderInvariant) (token : list Z) : LongHeader := mkLong 0 type i token.

Definition parseLongHeaderVariants (type : Types) (p : ParsedLongHeaderInvariant) (nodeType : QuicNodeType) : parser TransportErrorCode ParsedLongHeader :=
  if bool_decide (type = TRetry) then
    total ← remaining;
    hcheck FRAME_ENCODING_ERROR (negb (total <=? kRetryIntegrityTagLen)) ;;
    token ← readBytes (total - kRetryIntegrityTagLen);
    mret (mkParsedLong (read_long type (invariant p) token) (mkPacketLength 0 0))
  else
    hcheck FRAME_ENCODING_ERROR
      (negb (bool_decide (type = TInitial) && bool_decide (nodeType = Server) &&
             (zlen (dstConnId (invariant p)) <? kMinInitialDestinationConnIdLength))) ;;
    token ← (if bool_decide (type = TInitial) then
               '(tokenLen, _) ← hinteger;
               required tokenLen ;;
               if tokenLen >? 0 then readBytes tokenLen else mret []
             else mret []);
    '(pktLen, pktLenSize) ← hinteger;
    required pktLen ;;
    let packetNumLen := parsePacketNumberLength (initialByte p) in
    required packetNumLen ;;
    hcheck FRAME_ENCODING_ERROR (negb (packetNumLen >? kMaxPacketNumEncodingSize)) ;;
    mret (mkParsedLong (read_long type (invariant p) token) (mkPacketLength pktLen pktLenSize)).

(** The error of a part, replaced. *)
Definition as_error {A} (e : TransportErrorCode) (p : parser TransportErrorCode A) : parser TransportErrorCode A := fun cursor =>
  match p cursor with PErr _ => PErr e | r => r end.

(** [None] is a version negotiation packet. *)
Definition parseLongHeader (initialByte : Z) : parser TransportErrorCode (option ParsedLongHeader) :=
  hcheck FRAME_ENCODING_ERROR (match getHeaderForm initialByte with Long => true | Short => false end) ;;
  let type := parseLongHeaderType initialByte in
  p ← as_error FRAME_ENCODING_ERROR (parseLongHeaderInvariant initialByte);
  if version (invariant p) =? VERSION_NEGOTIATION then mret None
  else
    h ← parseLongHeaderVariants type p Server;
    mret (Some h).

Definition parseShortHeaderInvariants (initialByte dstConnIdSize : Z) : parser TransportErrorCode (list Z) :=
  hcheck FRAME_ENCODING_ERROR (match getHeaderForm initialByte with Short => true | Long => false end) ;;
  hcheck PROTOCOL_VIOLATION (negb (dstConnIdSize >? kMaxConnectionIdSize)) ;;
  required dstConnIdSize ;;
  readBytes dstConnIdSize.

Definition parseShortHeader (initialByte dstConnIdSize : Z) : parser TransportErrorCode ShortHeader :=
  hcheck FRAME_ENCODING_ERROR (match getHeaderForm initialByte with Short => true | Long => false end) ;;
  hcheck FRAME_ENCODING_ERROR (truth (Z.land initialByte short_kFixedBitMask)) ;;
  hcheck PROTOCOL_VIOLATION (negb (truth (Z.land initialByte short_kReservedBitsMask))) ;;
  connId ← as_error FRAME_ENCODING_ERROR (parseShortHeaderInvariants initialByte dstConnIdSize);
  mret (mkShort 0 (if truth (Z.land initialByte kKeyPhaseMask) then KeyPhaseOne else KeyPhaseZero) connId).

Definition kDefaultConnectionIdSize : Z := 8.

Definition parseHeader : parser TransportErrorCode (option PacketHeader) :=
  required 1 ;;
  initialByte ← readBE 1;
  match getHeaderForm initialByte with
  | Long =>
      r ← parseLongHeader initialByte;
      mret (match r with None => None | Some p => Some (HLong (header p)) end)
  | Short =>
      h ← parseShortHeader initialByte kDefaultConnectionIdSize;
      mret (Some (HShort h))
  end.

(** ** Version negotiation *)

Record VersionNegotiationPacket := mkVN { packetType : Z; vn_srcConnId : list Z; vn_dstConnId : list Z; versions : list Z }.

Fixpoint readVersions (fuel : nat) (l : list Z) : parser TransportErrorCode (list Z) := fun cursor =>
  match cursor with
  | [] => POk l []
  | _ => match fuel with O => PLoop | S fuel => (v ← readBE 4; readVersions fuel (l ++ [v])) cursor end
  end.

Definition decodeVersionNegotiation (p : ParsedLongHeaderInvariant) : parser TransportErrorCode (option VersionNegotiationPacket) := fun cursor =>
  let cursorLength := zlen cursor in
  if (cursorLength <? 4) || truth (cursorLength mod 4) then POk None cursor
  else
    (vs ← readVersions (length cursor) [];
     mret (Some (mkVN (initialByte p) (srcConnId (invariant p)) (dstConnId (invariant p)) vs))) cursor.

(** ** Cryptography *)

(** [Aead] and [PacketNumberCipher::mask].  A sequence number and associated data go into
    each encryption. *)
Class Crypto := {
  Aead : Type;
  HeaderCipher : Type;
  inplaceEncrypt : Aead -> list Z -> list Z -> Z -> list Z;
  tryDecrypt : Aead -> list Z -> list Z -> Z -> option (list Z);
  getCipherOverhead : Aead -> Z;
  mask : HeaderCipher -> list Z -> list Z
}.

(** What the interfaces promise: decryption undoes encryption, the overhead is what the
    ciphertext is longer by, a mask is an array of 16 bytes. *)
Class CryptoLaws (C : Crypto) := {
  decrypt_encrypt : forall a p d n, tryDecrypt a (inplaceEncrypt a p d n) d n = Some p;
  encrypt_length : forall a p d n, zlen (inplaceEncrypt a p d n) = zlen p + getCipherOverhead a;
  encrypt_bytes : forall a p d n, bytes_ok p -> bytes_ok (inplaceEncrypt a p d n);
  decrypt_bytes : forall a c d n p, bytes_ok c -> tryDecrypt a c d n = Some p -> bytes_ok p;
  mask_length : forall c s, zlen (mask c s) = 16;
  mask_bytes : forall c s, bytes_ok (mask c s)
}.

Section protection.
Context `{Crypto}.

(** The loop that masks the bytes of a packet number. *)
Definition maskBytes (n : Z) (bs headerMask : list Z) : list Z :=
  zip_with Z.lxor (take (Z.to_nat n) bs) (drop 1 headerMask) ++ drop (Z.to_nat n) bs.

(** The length of the number is taken from the first byte before it is masked, and after it
    is unmasked.  [None] is the failed [CHECK]. *)
Definition cipherHeader (c : HeaderCipher) (sample : list Z) (initialByte : Z) (packetNumberBytes : list Z) (initialByteMask : Z) : Z * list Z :=
  let headerMask := mask c sample in
  let packetNumLength := parsePacketNumberLength initialByte in
  (Z.lxor initialByte (Z.land (hd 0 headerMask) initialByteMask), maskBytes packetNumLength packetNumberBytes headerMask).

Definition decipherHeader (c : HeaderCipher) (sample : list Z) (initialByte : Z) (packetNumberBytes : list Z) (initialByteMask : Z)
  : option (Z * list Z) :=
  if zlen packetNumberBytes =? kMaxPacketNumEncodingSize then
    let headerMask := mask c sample in
    let initialByte := Z.lxor initialByte (Z.land (hd 0 headerMask) initialByteMask) in
    Some (initialByte, maskBytes (parsePacketNumberLength initialByte) packetNumberBytes headerMask)
  else None.

Definition form_mask (f : HeaderForm) : Z := match f with Long => long_kTypeBitsMask | Short => short_kTypeBitsMask end.

(** [encryptLongHeader] and [encryptShortHeader]; [decryptLongHeader] and
    [decryptShortHeader]. *)
Definition encryptHeader (f : HeaderForm) (c : HeaderCipher) (sample : list Z) (initialByte : Z) (packetNumberBytes : list Z) : Z * list Z :=
  cipherHeader c sample initialByte packetNumberBytes (form_mask f).
Definition decryptHeader (f : HeaderForm) (c : HeaderCipher) (sample : list Z) (initialByte : Z) (packetNumberBytes : list Z) : option (Z * list Z) :=
  decipherHeader c sample initialByte packetNumberBytes (form_mask f).
End protection.

End QuicHeaders.
