(* ===== verification/QuicReadCodec.v ===== *)
(** * Reading QUIC packets

    [codec/QuicReadCodec.cpp]: a datagram is a queue of packets; each is cut off, its
    header protection is removed, it is decrypted with the key of its kind and its frames
    are decoded.  The codec keeps the keys of each kind and, for the packets with a short
    header, the previous, the current and the next key. *)

From S2P Require Import Prelude QuicInteger QuicFrames QuicFrameWriter QuicHeaders.

Module QuicReadCodec.
Import QuicFrames QuicFrameWriter QuicHeaders.

Section codec.
Context `{C : Crypto}.

Record QuicReadCodec := mkCodec {
  nodeType_ : QuicNodeType;
  params_ : CodecParameters;
  initialReadCipher_ : option Aead;
  zeroRttReadCipher_ : option Aead;
  handshakeReadCipher_ : option Aead;
  previousOneRttReadCipher_ : option Aead;
  currentOneRttReadCipher_ : option Aead;
  nextOneRttReadCipher_ : option Aead;
  currentOneRttReadPhase_ : ProtectionType;
  currentOneRttReadPhaseStartPacketNum_ : option Z;
  initialHeaderCipher_ : option HeaderCipher;
  oneRttHeaderCipher_ : option HeaderCipher;
  zeroRttHeaderCipher_ : option HeaderCipher;
  handshakeHeaderCipher_ : option HeaderCipher;
  statelessResetToken_ : option (list Z);
  cryptoEqual_ : option (list Z -> list Z -> bool);
  handshakeDoneTime_ : option Z
}.

Definition create (nodeType : QuicNodeType) : QuicReadCodec :=
  mkCodec nodeType (mkParams kDefaultAckDelayExponent None) None None None None None None KeyPhaseZero (Some 0)
    None None None None None None None.

(** The members of the keys of packets with a short header. *)
Definition set_oneRtt (previous current next : option Aead) (phase : ProtectionType) (start : option Z) (c : QuicReadCodec) : QuicReadCodec :=
  mkCodec (nodeType_ c) (params_ c) (initialReadCipher_ c) (zeroRttReadCipher_ c) (handshakeReadCipher_ c)
    previous current next phase start (initialHeaderCipher_ c) (oneRttHeaderCipher_ c) (zeroRttHeaderCipher_ c) (handshakeHeaderCipher_ c)
    (statelessResetToken_ c) (cryptoEqual_ c) (handshakeDoneTime_ c).

(** The largest packet numbers that were received, per space; a space that has been dropped
    is a null pointer. *)
Record AckStates := mkAckStates {
  initialAckState : option (option Z);
  handshakeAckState : option (option Z);
  appDataAckState : option Z
}.

Inductive CodecResult :=
| RegularPacket (h : PacketHeader) (frames : list QuicFrame)
| RetryPacket (h : LongHeader) (integrityTag : list Z) (initialByte : Z)
| CipherUnavailable (packet : list Z) (protectionType : ProtectionType)
| StatelessReset (token : list Z)
| Nothing.

(** A call returns a result, throws what [decodeRegularPacket] throws or the internal error
    of a missing comparison, or goes wrong: a failed [CHECK], a null pointer, an exception of
    a cursor. *)
Inductive Outcome :=
| Result (r : CodecResult)
| ThrowsTransport (e : FrameEncodingError)
| ThrowsInternal
| Crash.

(** ** Packets with a long header *)

Definition tryParseLongHeader (nodeType : QuicNodeType) : parser TransportErrorCode ParsedLongHeader :=
  ok ← canAdvance 1;
  hcheck PROTOCOL_VIOLATION ok ;;
  initialByte ← readBE 1;
  p ← parseLongHeaderInvariant initialByte;
  hcheck PROTOCOL_VIOLATION (negb (version (invariant p) =? VERSION_NEGOTIATION)) ;;
  parseLongHeaderVariants (parseLongHeaderType initialByte) p nodeType.

(** The packet with its first byte and the bytes at [offset] replaced: protection is
    removed in place. *)
Definition unprotect (offset : Z) (initialByte : Z) (packetNumberBytes data : list Z) : list Z :=
  initialByte :: take (Z.to_nat (offset - 1)) (drop 1 data) ++ packetNumberBytes ++ drop (Z.to_nat (offset + zlen packetNumberBytes)) data.

Definition decoded (form : HeaderForm) (h : PacketHeader) (params : CodecParameters) (decrypted : list Z) : Outcome :=
  match decodeRegularPacket form params decrypted with
  | POk frames _ => Result (RegularPacket h frames)
  | PErr e => ThrowsTransport e
  | PThrow | PLoop => Crash
  end.

Definition kTimeToRetainZeroRttKeys : Z := 20 * 1000000000.

(** The ciphers of a protection type; [None] if its packets are dropped.  The types with a
    key phase belong to short headers. *)
Definition longCiphers (c : QuicReadCodec) (now : Z) (t : ProtectionType) : option (option HeaderCipher * option Aead) :=
  match t with
  | Initial => match initialHeaderCipher_ c with None => None | Some h => Some (Some h, initialReadCipher_ c) end
  | Handshake => Some (handshakeHeaderCipher_ c, handshakeReadCipher_ c)
  | _ =>
      match handshakeDoneTime_ c with
      | Some t => if now - t >? kTimeToRetainZeroRttKeys then None else Some (zeroRttHeaderCipher_ c, zeroRttReadCipher_ c)
      | None => Some (zeroRttHeaderCipher_ c, zeroRttReadCipher_ c)
      end
  end.

(** [None] is a null pointer. *)
Definition largestRecvdPacketNum (acks : AckStates) (t : ProtectionType) : option (option Z) :=
  match t with Initial => initialAckState acks | Handshake => handshakeAckState acks | _ => Some (appDataAckState acks) end.

Definition expectedNext (largest : option Z) : Z := match largest with Some n => u64 (1 + n) | None => 0 end.

(** The part behind the cut: the packet [data] has [kMaxPacketNumEncodingSize] and a sample
    behind its number's offset. *)
Definition readLongPacket (c : QuicReadCodec) (acks : AckStates) (now : Z) (longHeader : LongHeader) (packetNumberOffset pktLen : Z) (data : list Z)
  : Outcome :=
  let sample := take 16 (drop (Z.to_nat (packetNumberOffset + kMaxPacketNumEncodingSize)) data) in
  let protectionType := longHeaderTypeToProtectionType (longHeaderType_ longHeader) in
  match longCiphers c now protectionType with
  | None => Result Nothing
  | Some (Some headerCipher, Some cipher) =>
      match largestRecvdPacketNum acks protectionType with
      | None => Crash
      | Some largest =>
          let packetNumberBytes := take (Z.to_nat kMaxPacketNumEncodingSize) (drop (Z.to_nat packetNumberOffset) data) in
          match decryptHeader Long headerCipher sample (hd 0 data) packetNumberBytes with
          | None => Crash
          | Some (initialByte, packetNumberBytes) =>
              let data := unprotect packetNumberOffset initialByte packetNumberBytes data in
              match parsePacketNumber initialByte packetNumberBytes (expectedNext largest) with
              | None => Crash
              | Some (packetNum, packetNumLen) =>
                  let aadLen := packetNumberOffset + packetNumLen in
                  let headerData := take (Z.to_nat aadLen) data in
                  let encryptedData := take (Z.to_nat (u64 (pktLen - packetNumLen))) (drop (Z.to_nat aadLen) data) in
                  match tryDecrypt cipher encryptedData headerData packetNum with
                  | None => Result Nothing
                  | Some decrypted => decoded Long (HLong (long_setPacketNumber packetNum longHeader)) (params_ c) decrypted
                  end
              end
          end
      end
  | Some _ => Result (CipherUnavailable data protectionType)
  end.

(** The outcome and the rest of the queue. *)
Definition parseLongHeaderPacket (c : QuicReadCodec) (acks : AckStates) (now : Z) (queue : list Z) : Outcome * list Z :=
  let initialByte := hd 0 queue in
  match tryParseLongHeader (nodeType_ c) queue with
  | PErr _ => (Result Nothing, [])
  | PThrow | PLoop => (Crash, queue)
  | POk p cursor =>
      let longHeader := header p in
      let type := longHeaderType_ longHeader in
      if bool_decide (type = TRetry) then
        match readBytes (E:=TransportErrorCode) kRetryIntegrityTagLen cursor with
        | POk integrityTag _ => (Result (RetryPacket longHeader integrityTag initialByte), [])
        | _ => (Crash, queue)
        end
      else
        let packetNumberOffset := zlen queue - zlen cursor in
        let pktLen := packetLength (packet_length p) in
        let currentPacketLen := u64 (packetNumberOffset + pktLen) in
        if zlen queue <? currentPacketLen then (Result Nothing, [])
        else
          let data := take (Z.to_nat currentPacketLen) queue in
          let queue := drop (Z.to_nat currentPacketLen) queue in
          let cursorLength := zlen data - packetNumberOffset in
          if cursorLength <? kMaxPacketNumEncodingSize then (Result Nothing, [])
          else if cursorLength - kMaxPacketNumEncodingSize <? kSampleSize then (Result Nothing, [])
          else (readLongPacket c acks now longHeader packetNumberOffset pktLen data, queue)
  end.

(** ** Packets with a short header *)

(** The three places of a key. *)
Inductive Slot := Previous | Current | Next.

Definition slotCipher (c : QuicReadCodec) (s : Slot) : option Aead :=
  match s with Previous => previousOneRttReadCipher_ c | Current => currentOneRttReadCipher_ c | Next => nextOneRttReadCipher_ c end.

(** The lambda that chooses the key. *)
Definition oneRttSlot (c : QuicReadCodec) (phase : ProtectionType) (packetNum : Z) : Slot :=
  if bool_decide (phase = currentOneRttReadPhase_ c) then Current
  else
    match currentOneRttReadPhaseStartPacketNum_ c with
    | None => Previous
    | Some start => if packetNum <? start then Previous else Next
    end.

(** What a packet that was decrypted says about the phase. *)
Definition onDecrypted (s : Slot) (phase : ProtectionType) (packetNum : Z) (c : QuicReadCodec) : QuicReadCodec :=
  let c :=
    match s with
    | Next => set_oneRtt (currentOneRttReadCipher_ c) (nextOneRttReadCipher_ c) None phase None c
    | _ => c
    end in
  match currentOneRttReadPhaseStartPacketNum_ c, s with
  | None, (Current | Next) =>
      set_oneRtt (previousOneRttReadCipher_ c) (currentOneRttReadCipher_ c) (nextOneRttReadCipher_ c) (currentOneRttReadPhase_ c) (Some packetNum) c
  | _, _ => c
  end.

(** [cursor] is behind the first byte of [data]; what it reads is not masked. *)
Definition tryParseShortHeaderPacket (c : QuicReadCodec) (acks : AckStates) (dstConnIdSize : Z) (headerCipher : HeaderCipher) (data : list Z)
  : Outcome * QuicReadCodec :=
  let packetNumberOffset := 1 + dstConnIdSize in
  let expectedNextPacketNum := expectedNext (appDataAckState acks) in
  let sampleOffset := packetNumberOffset + kMaxPacketNumEncodingSize in
  if zlen data <? sampleOffset + kSampleSize then (Result Nothing, c)
  else
    let packetNumberBytes := take (Z.to_nat kMaxPacketNumEncodingSize) (drop (Z.to_nat packetNumberOffset) data) in
    let sample := take (Z.to_nat kSampleSize) (drop (Z.to_nat sampleOffset) data) in
    match decryptHeader Short headerCipher sample (hd 0 data) packetNumberBytes with
    | None => (Crash, c)
    | Some (initialByte, packetNumberBytes) =>
        let data := unprotect packetNumberOffset initialByte packetNumberBytes data in
        match parsePacketNumber initialByte packetNumberBytes expectedNextPacketNum with
        | None => (Crash, c)
        | Some (packetNum, packetNumLen) =>
            match parseShortHeader initialByte dstConnIdSize (drop 1 data) with
            | PErr _ => (Result Nothing, c)
            | PThrow | PLoop => (Crash, c)
            | POk shortHeader _ =>
                let shortHeader := short_setPacketNumber packetNum shortHeader in
                let phase := protectionType_ shortHeader in
                let slot := oneRttSlot c phase packetNum in
                match slotCipher c slot with
                | None => (Result (CipherUnavailable data phase), c)
                | Some cipher =>
                    let aadLen := packetNumberOffset + packetNumLen in
                    match tryDecrypt cipher (drop (Z.to_nat aadLen) data) (take (Z.to_nat aadLen) data) packetNum with
                    | None => (Result Nothing, c)
                    | Some decrypted => (decoded Short (HShort shortHeader) (params_ c) decrypted, onDecrypted slot phase packetNum c)
                    end
                end
            end
        end
    end.

(** ** Packets *)

Definition resetToken (c : QuicReadCodec) (data : list Z) : Outcome + () :=
  match nodeType_ c, statelessResetToken_ c with
  | Client, Some token =>
      if truth (Z.land (hd 0 data) short_kFixedBitMask) && (zlen data >? kStatelessResetTokenLength) then
        let tokenSource := drop (Z.to_nat (zlen data - kStatelessResetTokenLength)) data in
        match cryptoEqual_ c with
        | None => inl ThrowsInternal
        | Some equal => if equal tokenSource token then inl (Result (StatelessReset tokenSource)) else inr ()
        end
      else inr ()
  | _, _ => inr ()
  end.

Definition parsePacket (c : QuicReadCodec) (acks : AckStates) (now dstConnIdSize : Z) (queue : list Z) : Outcome * QuicReadCodec * list Z :=
  match queue with
  | [] => (Result Nothing, c, [])
  | initialByte :: _ =>
      match getHeaderForm initialByte with
      | Long => let '(r, queue) := parseLongHeaderPacket c acks now queue in (r, c, queue)
      | Short =>
          match currentOneRttReadCipher_ c, oneRttHeaderCipher_ c with
          | Some _, Some headerCipher =>
              match resetToken c queue with
              | inl r => (r, c, [])
              | inr _ => let '(r, c) := tryParseShortHeaderPacket c acks dstConnIdSize headerCipher queue in (r, c, [])
              end
          | _, _ => (Result (CipherUnavailable queue KeyPhaseZero), c, [])
          end
      end
  end.

Definition tryParsingVersionNegotiation (queue : list Z) : option VersionNegotiationPacket :=
  match queue with
  | [] => None
  | initialByte :: cursor =>
      match getHeaderForm initialByte with
      | Short => None
      | Long =>
          match parseLongHeaderInvariant initialByte cursor with
          | POk p cursor =>
              if negb (version (invariant p) =? VERSION_NEGOTIATION) then None
              else match decodeVersionNegotiation p cursor with POk r _ => r | _ => None end
          | _ => None
          end
      end
  end.

(** ** Keys *)

Definition canInitiateKeyUpdate (c : QuicReadCodec) : bool :=
  match nextOneRttReadCipher_ c, currentOneRttReadPhaseStartPacketNum_ c with Some _, Some _ => true | _, _ => false end.

Definition otherPhase (p : ProtectionType) : ProtectionType := if bool_decide (p = KeyPhaseZero) then KeyPhaseOne else KeyPhaseZero.

Definition advanceOneRttReadPhase (c : QuicReadCodec) : bool * QuicReadCodec :=
  if negb (canInitiateKeyUpdate c) then (false, c)
  else (true, set_oneRtt (currentOneRttReadCipher_ c) (nextOneRttReadCipher_ c) None (otherPhase (currentOneRttReadPhase_ c)) None c).

Definition setOneRttReadCipher (a : option Aead) (c : QuicReadCodec) : QuicReadCodec :=
  set_oneRtt (previousOneRttReadCipher_ c) a (nextOneRttReadCipher_ c) (currentOneRttReadPhase_ c) (currentOneRttReadPhaseStartPacketNum_ c) c.
Definition setNextOneRttReadCipher (a : option Aead) (c : QuicReadCodec) : QuicReadCodec :=
  set_oneRtt (previousOneRttReadCipher_ c) (currentOneRttReadCipher_ c) a (currentOneRttReadPhase_ c) (currentOneRttReadPhaseStartPacketNum_ c) c.

(** The setters of the other members. *)
Definition setInitialReadCipher (a : option Aead) (c : QuicReadCodec) : QuicReadCodec :=
  mkCodec (nodeType_ c) (params_ c) a (zeroRttReadCipher_ c) (handshakeReadCipher_ c) (previousOneRttReadCipher_ c)
    (currentOneRttReadCipher_ c) (nextOneRttReadCipher_ c) (currentOneRttReadPhase_ c) (currentOneRttReadPhaseStartPacketNum_ c)
    (initialHeaderCipher_ c) (oneRttHeaderCipher_ c) (zeroRttHeaderCipher_ c) (handshakeHeaderCipher_ c) (statelessResetToken_ c)
    (cryptoEqual_ c) (handshakeDoneTime_ c).
Definition setHandshakeReadCipher (a : option Aead) (c : QuicReadCodec) : QuicReadCodec :=
  mkCodec (nodeType_ c) (params_ c) (initialReadCipher_ c) (zeroRttReadCipher_ c) a (previousOneRttReadCipher_ c)
    (currentOneRttReadCipher_ c) (nextOneRttReadCipher_ c) (currentOneRttReadPhase_ c) (currentOneRttReadPhaseStartPacketNum_ c)
    (initialHeaderCipher_ c) (oneRttHeaderCipher_ c) (zeroRttHeaderCipher_ c) (handshakeHeaderCipher_ c) (statelessResetToken_ c)
    (cryptoEqual_ c) (handshakeDoneTime_ c).
Definition setInitialHeaderCipher (h : option HeaderCipher) (c : QuicReadCodec) : QuicReadCodec :=
  mkCodec (nodeType_ c) (params_ c) (initialReadCipher_ c) (zeroRttReadCipher_ c) (handshakeReadCipher_ c) (previousOneRttReadCipher_ c)
    (currentOneRttReadCipher_ c) (nextOneRttReadCipher_ c) (currentOneRttReadPhase_ c) (currentOneRttReadPhaseStartPacketNum_ c) h
    (oneRttHeaderCipher_ c) (zeroRttHeaderCipher_ c) (handshakeHeaderCipher_ c) (statelessResetToken_ c) (cryptoEqual_ c)
    (handshakeDoneTime_ c).
Definition setOneRttHeaderCipher (h : option HeaderCipher) (c : QuicReadCodec) : QuicReadCodec :=
  mkCodec (nodeType_ c) (params_ c) (initialReadCipher_ c) (zeroRttReadCipher_ c) (handshakeReadCipher_ c) (previousOneRttReadCipher_ c)
    (currentOneRttReadCipher_ c) (nextOneRttReadCipher_ c) (currentOneRttReadPhase_ c) (currentOneRttReadPhaseStartPacketNum_ c)
    (initialHeaderCipher_ c) h (zeroRttHeaderCipher_ c) (handshakeHeaderCipher_ c) (statelessResetToken_ c) (cryptoEqual_ c)
    (handshakeDoneTime_ c).
Definition setZeroRttHeaderCipher (h : option HeaderCipher) (c : QuicReadCodec) : QuicReadCodec :=
  mkCodec (nodeType_ c) (params_ c) (initialReadCipher_ c) (zeroRttReadCipher_ c) (handshakeReadCipher_ c) (previousOneRttReadCipher_ c)
    (currentOneRttReadCipher_ c) (nextOneRttReadCipher_ c) (currentOneRttReadPhase_ c) (currentOneRttReadPhaseStartPacketNum_ c)
    (initialHeaderCipher_ c) (oneRttHeaderCipher_ c) h (handshakeHeaderCipher_ c) (statelessResetToken_ c) (cryptoEqual_ c)
    (handshakeDoneTime_ c).
Definition setHandshakeHeaderCipher (h : option HeaderCipher) (c : QuicReadCodec) : QuicReadCodec :=
  mkCodec (nodeType_ c) (params_ c) (initialReadCipher_ c) (zeroRttReadCipher_ c) (handshakeReadCipher_ c) (previousOneRttReadCipher_ c)
    (currentOneRttReadCipher_ c) (nextOneRttReadCipher_ c) (currentOneRttReadPhase_ c) (currentOneRttReadPhaseStartPacketNum_ c)
    (initialHeaderCipher_ c) (oneRttHeaderCipher_ c) (zeroRttHeaderCipher_ c) h (statelessResetToken_ c) (cryptoEqual_ c)
    (handshakeDoneTime_ c).
Definition setCodecParameters (p : CodecParameters) (c : QuicReadCodec) : QuicReadCodec :=
  mkCodec (nodeType_ c) p (initialReadCipher_ c) (zeroRttReadCipher_ c) (handshakeReadCipher_ c) (previousOneRttReadCipher_ c)
    (currentOneRttReadCipher_ c) (nextOneRttReadCipher_ c) (currentOneRttReadPhase_ c) (currentOneRttReadPhaseStartPacketNum_ c)
    (initialHeaderCipher_ c) (oneRttHeaderCipher_ c) (zeroRttHeaderCipher_ c) (handshakeHeaderCipher_ c) (statelessResetToken_ c)
    (cryptoEqual_ c) (handshakeDoneTime_ c).
Definition setStatelessResetToken (token : list Z) (c : QuicReadCodec) : QuicReadCodec :=
  mkCodec (nodeType_ c) (params_ c) (initialReadCipher_ c) (zeroRttReadCipher_ c) (handshakeReadCipher_ c) (previousOneRttReadCipher_ c)
    (currentOneRttReadCipher_ c) (nextOneRttReadCipher_ c) (currentOneRttReadPhase_ c) (currentOneRttReadPhaseStartPacketNum_ c)
    (initialHeaderCipher_ c) (oneRttHeaderCipher_ c) (zeroRttHeaderCipher_ c) (handshakeHeaderCipher_ c) (Some token) (cryptoEqual_ c)
    (handshakeDoneTime_ c).
Definition setCryptoEqual (equal : list Z -> list Z -> bool) (c : QuicReadCodec) : QuicReadCodec :=
  mkCodec (nodeType_ c) (params_ c) (initialReadCipher_ c) (zeroRttReadCipher_ c) (handshakeReadCipher_ c) (previousOneRttReadCipher_ c)
    (currentOneRttReadCipher_ c) (nextOneRttReadCipher_ c) (currentOneRttReadPhase_ c) (currentOneRttReadPhaseStartPacketNum_ c)
    (initialHeaderCipher_ c) (oneRttHeaderCipher_ c) (zeroRttHeaderCipher_ c) (handshakeHeaderCipher_ c) (statelessResetToken_ c)
    (Some equal) (handshakeDoneTime_ c).

(** [None] is the transport exception: a client reads no 0-RTT packets. *)
Definition setZeroRttReadCipher (a : option Aead) (c : QuicReadCodec) : option QuicReadCodec :=
  if bool_decide (nodeType_ c = Client) then None else Some (
  mkCodec (nodeType_ c) (params_ c) (initialReadCipher_ c) a (handshakeReadCipher_ c) (previousOneRttReadCipher_ c)
    (currentOneRttReadCipher_ c) (nextOneRttReadCipher_ c) (currentOneRttReadPhase_ c) (currentOneRttReadPhaseStartPacketNum_ c)
    (initialHeaderCipher_ c) (oneRttHeaderCipher_ c) (zeroRttHeaderCipher_ c) (handshakeHeaderCipher_ c) (statelessResetToken_ c)
    (cryptoEqual_ c) (handshakeDoneTime_ c)).

Definition onHandshakeDone (handshakeDoneTime : Z) (c : QuicReadCodec) : QuicReadCodec :=
  mkCodec (nodeType_ c) (params_ c) (initialReadCipher_ c) (zeroRttReadCipher_ c) (handshakeReadCipher_ c) (previousOneRttReadCipher_ c)
    (currentOneRttReadCipher_ c) (nextOneRttReadCipher_ c) (currentOneRttReadPhase_ c) (currentOneRttReadPhaseStartPacketNum_ c)
    (initialHeaderCipher_ c) (oneRttHeaderCipher_ c) (zeroRttHeaderCipher_ c) (handshakeHeaderCipher_ c) (statelessResetToken_ c)
    (cryptoEqual_ c) (Some (default handshakeDoneTime (handshakeDoneTime_ c))).

End codec.
End QuicReadCodec.
