(* ===== verification/QuicPacketWriter.v ===== *)
(** * Writing QUIC packets

    The headers that [codec/QuicPacketBuilder.cpp] writes around the frames of
    [QuicFrameWriter], the packets without frames (version negotiation, retry, stateless
    reset), and the encryption of a packet in [api/QuicTransportFunctions.cpp]. *)

From S2P Require Import Prelude QuicInteger QuicFrames QuicFrameWriter QuicHeaders.

Module QuicPacketWriter.
Import QuicFrames QuicFrameWriter QuicHeaders.

Definition encodeNumber (packetNum largestAckedPacketNum : Z) : W (Z * Z) :=
  match PacketNumber.encodePacketNumber packetNum largestAckedPacketNum with Some r => mret r | None => fails PacketNumberError end.

(** [QuicInteger::encode] into a header. *)
Definition encodeInteger (v : Z) : W (list Z) :=
  match QuicInteger.encodeQuicInteger v with Some (bs, _) => mret bs | None => fails ValueTooLarge end.

(** ** Headers *)

(** The bytes that are written, the space that is left and the packet number, which comes
    later. *)
Definition encodeLongHeaderHelper (h : LongHeader) (spaceCounter largestAckedPacketNum : Z) : W (list Z * Z * (Z * Z)) :=
  let type := longHeaderType_ h in
  let isInitial := bool_decide (type = TInitial) in
  let isRetry := bool_decide (type = TRetry) in
  let initialByte := Z.lor (Z.lor kHeaderFormMask long_kFixedBitMask) (Z.shiftl (type_value type) kTypeShift) in
  '(result, len) ← encodeNumber (long_packetSequenceNum_ h) largestAckedPacketNum;
  let initialByte := if isRetry then initialByte else Z.lor (Z.land initialByte (Z.lnot long_kReservedBitsMask)) (len - 1) in
  let token := token_ h in
  tokenHeaderLength ← (if isInitial then n ← getSize (zlen token); mret (n + zlen token) else if isRetry then mret (zlen token) else mret 0);
  let longHeaderSize := 1 + 4 + 1 + zlen (srcConnId (invariant_ h)) + 1 + zlen (dstConnId (invariant_ h)) + tokenHeaderLength +
                        (if isRetry then 0 else kMaxPacketLenSize + len) in
  let space := if spaceCounter <? longHeaderSize then 0 else spaceCounter - longHeaderSize in
  tokenBytes ← (if isInitial then bs ← encodeInteger (zlen token); mret (bs ++ token)
                else if isRetry then match token with [] => fails CheckFailed | _ => mret token end
                else mret []);
  mret ([initialByte] ++ be_bytes 4 (version (invariant_ h)) ++
        be_bytes 1 (zlen (dstConnId (invariant_ h))) ++ dstConnId (invariant_ h) ++
        be_bytes 1 (zlen (srcConnId (invariant_ h))) ++ srcConnId (invariant_ h) ++ tokenBytes, space, (result, len)).

(** No bytes if there is not enough space. *)
Definition encodeShortHeaderHelper (h : ShortHeader) (spaceCounter largestAckedPacketNum : Z) : W (list Z * Z * option (Z * Z)) :=
  '(result, len) ← encodeNumber (short_packetSequenceNum_ h) largestAckedPacketNum;
  if spaceCounter <? 1 + len + zlen (connectionId_ h) then mret ([], 0, None)
  else
    let initialByte := Z.land (Z.lor short_kFixedBitMask (len - 1)) (Z.lnot short_kReservedBitsMask) in
    let initialByte := if bool_decide (protectionType_ h = KeyPhaseOne) then Z.lor initialByte kKeyPhaseMask else initialByte in
    mret ([initialByte] ++ connectionId_ h, u32 (spaceCounter - 1 - zlen (connectionId_ h)), Some (result, len)).

(** ** The builder of packets with frames *)

Record PacketBuilder := mkPacketBuilder {
  largestAckedPacketNum_ : Z;
  packet_header : PacketHeader;
  header_ : list Z;
  packetNumberEncoding_ : option (Z * Z);
  cipherOverhead_ : Z;
  frame_builder : Builder
}.

Definition isShort (h : PacketHeader) : bool := match h with HShort _ => true | HLong _ => false end.

Definition regularQuicPacketBuilder (remainingBytes : Z) (h : PacketHeader) (largestAckedPacketNum : Z) : PacketBuilder :=
  mkPacketBuilder largestAckedPacketNum h [] None 0 (mkBuilder (isShort h) remainingBytes [] [] true).

Definition with_remaining (r : Z) (b : Builder) : Builder := mkBuilder (shortHeader b) r (body_ b) (frames b) (empty b).

(** The overhead is an 8-bit argument. *)
Definition accountForCipherOverhead (overhead : Z) (b : PacketBuilder) : PacketBuilder :=
  let f := frame_builder b in
  mkPacketBuilder (largestAckedPacketNum_ b) (packet_header b) (header_ b) (packetNumberEncoding_ b) (u8 overhead)
    (with_remaining (u32 (remainingBytes_ f - u8 overhead)) f).

Definition encodeLongHeader (h : LongHeader) (b : PacketBuilder) : W PacketBuilder :=
  let f := frame_builder b in
  '(bs, space, enc) ← encodeLongHeaderHelper h (remainingBytes_ f) (largestAckedPacketNum_ b);
  mret (mkPacketBuilder (largestAckedPacketNum_ b) (packet_header b) (header_ b ++ bs) (Some enc) (cipherOverhead_ b) (with_remaining space f)).

(** The number of a short header is written at once. *)
Definition encodeShortHeader (h : ShortHeader) (b : PacketBuilder) : W PacketBuilder :=
  let f := frame_builder b in
  '(bs, space, enc) ← encodeShortHeaderHelper h (remainingBytes_ f) (largestAckedPacketNum_ b);
  match enc with
  | None =>
      mret (mkPacketBuilder (largestAckedPacketNum_ b) (packet_header b) (header_ b ++ bs) None (cipherOverhead_ b) (with_remaining space f))
  | Some (result, len) =>
      mret (mkPacketBuilder (largestAckedPacketNum_ b) (packet_header b) (header_ b ++ bs ++ be_bytes (Z.to_nat len) result) enc
              (cipherOverhead_ b) (with_remaining (u32 (space - len)) f))
  end.

Definition encodePacketHeader (b : PacketBuilder) : W PacketBuilder :=
  match packetNumberEncoding_ b with
  | Some _ => fails CheckFailed
  | None => match packet_header b with HLong h => encodeLongHeader h b | HShort h => encodeShortHeader h b end
  end.

Definition canBuildPacket (b : PacketBuilder) : bool :=
  negb (remainingBytes_ (frame_builder b) =? 0) && match packetNumberEncoding_ b with Some _ => true | None => false end.

(** [None] is a failed [CHECK]. *)
Definition getHeaderBytes (b : PacketBuilder) : option Z :=
  match packetNumberEncoding_ b with
  | None => None
  | Some (_, len) => Some (u32 (zlen (header_ b) + if isShort (packet_header b) then 0 else len + kMaxPacketLenSize))
  end.

(** The header and the body. *)
Definition buildWholePacket (b : PacketBuilder) : W (list Z * list Z) :=
  match packetNumberEncoding_ b with
  | None => fails CheckFailed
  | Some (result, len) =>
      f ← buildPacket len (cipherOverhead_ b) (frame_builder b);
      match packet_header b with
      | HLong h =>
          if bool_decide (longHeaderType_ h = TRetry) then mret (header_ b, body_ f)
          else
            pktLen ← encodeInteger (len + zlen (body_ f) + cipherOverhead_ b);
            mret (header_ b ++ pktLen ++ be_bytes (Z.to_nat len) result, body_ f)
      | HShort _ => mret (header_ b, body_ f)
      end
  end.

(** ** Encryption *)

Section encryption.
Context `{C : Crypto}.

(** The protected header.  The number is at the end of the header. *)
Definition encryptPacketHeader (form : HeaderForm) (hdr encryptedBody : list Z) (headerCipher : HeaderCipher) : W (list Z) :=
  let packetNumberLength := parsePacketNumberLength (hd 0 hdr) in
  let sampleBytesToUse := kMaxPacketNumEncodingSize - packetNumberLength in
  if zlen encryptedBody <? sampleBytesToUse + kSampleSize then fails CheckFailed
  else
    let sample := take (Z.to_nat kSampleSize) (drop (Z.to_nat sampleBytesToUse) encryptedBody) in
    let at_number := Z.to_nat (zlen hdr - packetNumberLength) in
    let '(initialByte, packetNum) := encryptHeader form headerCipher sample (hd 0 hdr) (drop at_number hdr) in
    mret (initialByte :: take (at_number - 1) (drop 1 hdr) ++ packetNum).

(** [iobufChainBasedBuildScheduleEncrypt] behind the scheduler: the datagram for the packet
    that was built, or nothing if it has no frames or no body. *)
Definition encryptPacket (b : PacketBuilder) (packetNum : Z) (aead : Aead) (headerCipher : HeaderCipher) : W (option (list Z)) :=
  '(hdr, body) ← buildWholePacket b;
  match frames (frame_builder b), body with
  | [], _ | _, [] => mret None
  | _, _ =>
      let encrypted := inplaceEncrypt aead body hdr packetNum in
      hdr ← encryptPacketHeader (header_form (packet_header b)) hdr encrypted headerCipher;
      mret (Some (hdr ++ encrypted))
  end.
End encryption.

(** ** Packets without frames *)

Definition kDefaultUDPSendPacketLen : Z := 1232.

Fixpoint writeVersions (vs : list Z) (remainingBytes : Z) : list Z * list Z :=
  match vs with
  | [] => ([], [])
  | v :: vs =>
      if remainingBytes <? 4 then ([], [])
      else let '(bs, written) := writeVersions vs (u32 (remainingBytes - 4)) in (be_bytes 4 v ++ bs, v :: written)
  end.

(** The packet and its bytes. *)
Definition versionNegotiationPacket (src dst : list Z) (vs : list Z) : VersionNegotiationPacket * list Z :=
  let packetType := kHeaderFormMask in
  let hdr := be_bytes 1 packetType ++ be_bytes 4 VERSION_NEGOTIATION ++ be_bytes 1 (zlen dst) ++ dst ++ be_bytes 1 (zlen src) ++ src in
  let '(bs, written) := writeVersions vs (u32 (kDefaultUDPSendPacketLen - zlen hdr)) in
  (mkVN packetType src dst written, hdr ++ bs).

(** The bytes and the space that is left. *)
Definition writeRetryPacket (src dst : list Z) (quicVersion : Z) (retryToken integrityTag : list Z) : W (list Z * Z) :=
  '(bs, space, _) ← encodeLongHeaderHelper (mkLong 0 TRetry (mkInvariant quicVersion src dst) retryToken) kDefaultUDPSendPacketLen 0;
  if space <=? kRetryIntegrityTagLen then mret (bs, 0)
  else mret (bs ++ integrityTag, space - kRetryIntegrityTagLen).

(** [random32] and [randomOctets] come from the generator of random numbers. *)
Definition statelessResetPacket (maxPacketSize random32 : Z) (randomOctets : Z -> list Z) (token : list Z) : list Z :=
  let randomOctetLength := u16 (maxPacketSize - zlen token - 1) in
  [Z.lor short_kFixedBitMask (Z.land 0x3f random32)] ++ randomOctets randomOctetLength ++ token.

End QuicPacketWriter.
