(* ===== verification/QuicProtection.v ===== *)
(** * QUIC packets: headers and their protection

    What protects a header is undone by the reader, and a header is read as it was
    written. *)

From S2P Require Import Prelude QuicInteger QuicFrames QuicFrameWriter QuicFramesResults QuicHeaders QuicReadCodec QuicPacketWriter.

Module QuicProtection.
Import QuicFrames QuicFrameWriter QuicFramesResults QuicHeaders QuicReadCodec QuicPacketWriter.

(** ** Masks *)

Lemma lxor_twice x y : Z.lxor (Z.lxor x y) y = x.
Proof. by rewrite Z.lxor_assoc, Z.lxor_nilpotent, Z.lxor_0_r. Qed.

Lemma zip_lxor_twice l : forall m, (length l <= length m)%nat -> zip_with Z.lxor (zip_with Z.lxor l m) m = l.
Proof. induction l as [|x l IH]; intros [|y m] H; simpl in *; try done; [lia|]. rewrite lxor_twice, IH by lia. done. Qed.

Lemma maskBytes_app n bs rest m : zlen bs = n -> n + 1 <= zlen m -> maskBytes n (bs ++ rest) m = maskBytes n bs m ++ rest.
Proof.
  intros <- Hm. unfold maskBytes, zlen. rewrite Nat2Z.id, take_app_length, drop_app_length, take_ge, (drop_ge bs), app_nil_r by lia. done.
Qed.

Lemma length_maskBytes n bs m : zlen bs = n -> n + 1 <= zlen m -> zlen (maskBytes n bs m) = n.
Proof.
  intros <- Hm. unfold maskBytes, zlen in *. rewrite Nat2Z.id, take_ge, (drop_ge bs), app_nil_r, length_zip_with, length_drop by lia. lia.
Qed.

Lemma maskBytes_twice n bs m : zlen bs = n -> n + 1 <= zlen m -> maskBytes n (maskBytes n bs m) m = bs.
Proof.
  intros Hn Hm. pose proof (length_maskBytes n bs m Hn Hm) as Hl. unfold maskBytes at 1. unfold zlen in Hl. rewrite take_ge, (drop_ge (maskBytes n bs m)), app_nil_r by lia.
  unfold maskBytes. unfold zlen in *. rewrite take_ge, (drop_ge bs), app_nil_r by lia. apply zip_lxor_twice. rewrite length_drop. lia.
Qed.

Lemma lxor_byte a b : is_u8 a -> is_u8 b -> is_u8 (Z.lxor a b).
Proof.
  intros [Ha Ha'] [Hb Hb']. split; [by apply Z.lxor_nonneg|]. destruct (Z.eq_dec (Z.lxor a b) 0) as [->|Hn]; [done|].
  assert (0 <= Z.lxor a b) by (by apply Z.lxor_nonneg). apply Z.log2_lt_pow2; [lia|]. eapply Z.le_lt_trans; [by apply Z.log2_lxor|].
  apply Z.max_lub_lt; [destruct (Z.eq_dec a 0) as [->|]; [done|apply Z.log2_lt_pow2; lia]|destruct (Z.eq_dec b 0) as [->|]; [done|apply Z.log2_lt_pow2; lia]].
Qed.

Lemma maskBytes_ok n bs m : bytes_ok bs -> bytes_ok m -> bytes_ok (maskBytes n bs m).
Proof.
  intros Hb Hm. apply Forall_app. split; [|by apply Forall_drop]. apply Forall_drop with (n := 1%nat) in Hm. revert Hm.
  generalize (drop 1 m). apply (Forall_take _ (Z.to_nat n)) in Hb. induction Hb as [|x l Hx Hl IH]; intros [|y k] Hk; simpl; try constructor.
  - inversion Hk; subst. by apply lxor_byte.
  - inversion Hk; subst. by apply IH.
Qed.

(** ** First bytes *)

(** The first byte of a packet, from its kind and the length of its number. *)
Definition long_first (t : Types) (n : Z) : Z :=
  let b := Z.lor (Z.lor kHeaderFormMask long_kFixedBitMask) (Z.shiftl (type_value t) kTypeShift) in
  if bool_decide (t = TRetry) then b else Z.lor (Z.land b (Z.lnot long_kReservedBitsMask)) (n - 1).
Definition short_first (p : ProtectionType) (n : Z) : Z :=
  let b := Z.land (Z.lor short_kFixedBitMask (n - 1)) (Z.lnot short_kReservedBitsMask) in
  if bool_decide (p = KeyPhaseOne) then Z.lor b kKeyPhaseMask else b.

Definition lengths : list Z := [1; 2; 3; 4].
Lemma in_lengths n : 1 <= n <= 4 -> n ∈ lengths.
Proof. intros Hn. unfold lengths. rewrite !elem_of_cons. lia. Qed.

Definition is_long (f : HeaderForm) : bool := match f with Long => true | Short => false end.

Definition long_first_ok (t : Types) (n x : Z) : bool :=
  let b := long_first t n in let b' := Z.lxor b x in
  (0 <=? b) && (b <? 256) && (0 <=? b') && (b' <? 256) && is_long (getHeaderForm b) && is_long (getHeaderForm b') &&
  bool_decide (parseLongHeaderType b' = t) && bool_decide (parseLongHeaderType b = t) && ((parsePacketNumberLength b =? n) || bool_decide (t = TRetry)).

Lemma long_first_bits t n m : 1 <= n <= 4 -> 0 <= m -> long_first_ok t n (Z.land m long_kTypeBitsMask) = true.
Proof.
  intros Hn Hm. unfold long_kTypeBitsMask. rewrite (land_mask m 15 4) by done. assert (Hx : 0 <= m mod 2 ^ 4 < 16) by (apply Z.mod_pos_bound; lia).
  set (x := m mod 2 ^ 4) in *. assert (Hall : forallb (fun x => forallb (fun n => long_first_ok t n x) lengths) (seqZ 0 16) = true) by (destruct t; by vm_compute).
  rewrite forallb_forall in Hall. specialize (Hall x). rewrite <- list_elem_of_In, elem_of_seqZ in Hall. specialize (Hall ltac:(lia)).
  rewrite forallb_forall in Hall. apply Hall. apply list_elem_of_In. by apply in_lengths.
Qed.

Definition short_first_ok (p : ProtectionType) (n x : Z) : bool :=
  let b := short_first p n in let b' := Z.lxor b x in
  (0 <=? b) && (b <? 256) && (0 <=? b') && (b' <? 256) && negb (is_long (getHeaderForm b)) && negb (is_long (getHeaderForm b')) &&
  truth (Z.land b short_kFixedBitMask) && negb (truth (Z.land b short_kReservedBitsMask)) &&
  Bool.eqb (truth (Z.land b kKeyPhaseMask)) (bool_decide (p = KeyPhaseOne)) && (parsePacketNumberLength b =? n).

Lemma short_first_bits p n m : 1 <= n <= 4 -> 0 <= m -> short_first_ok p n (Z.land m short_kTypeBitsMask) = true.
Proof.
  intros Hn Hm. unfold short_kTypeBitsMask. rewrite (land_mask m 31 5) by done. assert (Hx : 0 <= m mod 2 ^ 5 < 32) by (apply Z.mod_pos_bound; lia).
  set (x := m mod 2 ^ 5) in *. assert (Hall : forallb (fun x => forallb (fun n => short_first_ok p n x) lengths) (seqZ 0 32) = true) by (destruct p; by vm_compute).
  rewrite forallb_forall in Hall. specialize (Hall x). rewrite <- list_elem_of_In, elem_of_seqZ in Hall. specialize (Hall ltac:(lia)).
  rewrite forallb_forall in Hall. apply Hall. apply list_elem_of_In. by apply in_lengths.
Qed.

(** ** Unmasking *)

Section masking.
Context `{C : Crypto} `{CL : !CryptoLaws C}.

(** The reader has the number and what follows it in its four bytes. *)
Lemma decrypt_encrypt_header f c sample b pnb follow :
  zlen pnb = parsePacketNumberLength b -> 1 <= zlen pnb <= 4 -> zlen pnb + zlen follow = 4 ->
  let '(b', pnb') := encryptHeader f c sample b pnb in
  b' = Z.lxor b (Z.land (hd 0 (mask c sample)) (form_mask f)) /\ zlen pnb' = zlen pnb /\
  (bytes_ok pnb -> bytes_ok pnb') /\ decryptHeader f c sample b' (pnb' ++ follow) = Some (b, pnb ++ follow).
Proof.
  intros Hn Hn4 Hf. unfold encryptHeader, decryptHeader, cipherHeader, decipherHeader. pose proof (mask_length c sample) as Hm.
  set (m := mask c sample) in *. assert (Hm' : zlen pnb + 1 <= zlen m) by lia. rewrite <- Hn.
  pose proof (length_maskBytes _ pnb m eq_refl Hm') as Hl. split_and!; [done|done| |].
  - intros Hb. apply maskBytes_ok; [done|apply mask_bytes].
  - rewrite zlen_app, Hl, Hf. change (4 =? kMaxPacketNumEncodingSize) with true. cbv iota. rewrite lxor_twice, <- Hn.
    rewrite maskBytes_app, maskBytes_twice by done. done.
Qed.
End masking.

(** ** Packet numbers *)

(** The receiver is close enough to the sender. *)
Definition number_ok (pn la expected : Z) : Prop :=
  0 <= la <= pn /\ pn < 2 ^ 62 /\ pn - la < 2 ^ 31 /\ la <= expected < 2 ^ 62 /\
  forall bytes n, PacketNumber.encodePacketNumber pn la = Some (bytes, n) -> expected - pn < PacketNumber.half_window n.

Lemma encode_number pn la : 0 <= la <= pn -> pn < 2 ^ 62 -> pn - la < 2 ^ 31 ->
  exists n, 1 <= n <= 4 /\ pn - la < PacketNumber.half_window n /\ PacketNumber.encodePacketNumber pn la = Some (pn mod 2 ^ (8 * n), n).
Proof.
  intros H1 H2 H3. destruct (Z.eq_dec la pn) as [->|Hn]; [|apply PacketNumber.encode_length; lia].
  exists 1. split_and!; [lia|lia|unfold PacketNumber.half_window; lia|]. unfold PacketNumber.encodePacketNumber. rewrite Z.sub_diag. simpl.
  do 2 f_equal. by apply land_mask.
Qed.

Lemma number_roundtrip pn la expected : number_ok pn la expected ->
  exists bytes n, PacketNumber.encodePacketNumber pn la = Some (bytes, n) /\ 1 <= n <= 4 /\ 0 <= bytes < 2 ^ (8 * n) /\
    forall b follow, parsePacketNumberLength b = n -> parsePacketNumber b (be_bytes (Z.to_nat n) bytes ++ follow) expected = Some (pn, n).
Proof.
  intros (H1 & H2 & H3 & H4 & H5). destruct (encode_number pn la H1 H2 H3) as (n & Hn & Hw & E). exists (pn mod 2 ^ (8 * n)), n.
  assert (Hr : 0 <= pn mod 2 ^ (8 * n) < 2 ^ (8 * n)) by (apply Z.mod_pos_bound, Z.pow_pos_nonneg; lia).
  split_and!; try done; try lia. intros b follow Hb. unfold parsePacketNumber. rewrite Hb. set (x := pn mod 2 ^ (8 * n)) in *.
  assert (Hl : length (be_bytes (Z.to_nat n) x) = Z.to_nat n) by apply length_be_bytes.
  rewrite zlen_app. unfold zlen at 1. rewrite Hl. destruct (Z.ltb_spec (Z.of_nat (Z.to_nat n) + zlen follow) n); [unfold zlen in *; lia|].
  rewrite <- Hl at 1. rewrite take_app_length, be_value_bytes by (rewrite Z2Nat.id by lia; done).
  unfold x. rewrite (PacketNumber.decode_closest pn n expected) by (done || lia || (specialize (H5 _ _ E); lia)). done.
Qed.

(** ** Long headers *)

Definition token_bytes (h : LongHeader) : list Z :=
  match longHeaderType_ h with TInitial => int_bytes (zlen (token_ h)) ++ token_ h | TRetry => token_ h | _ => [] end.

Definition invariant_bytes (i : LongHeaderInvariant) : list Z :=
  be_bytes 4 (version i) ++ be_bytes 1 (zlen (dstConnId i)) ++ dstConnId i ++ be_bytes 1 (zlen (srcConnId i)) ++ srcConnId i.

Definition long_bytes (b : Z) (h : LongHeader) : list Z := [b] ++ invariant_bytes (invariant_ h) ++ token_bytes h.

Definition connId_ok (l : list Z) : Prop := bytes_ok l /\ zlen l <= kMaxConnectionIdSize.
Definition invariant_ok (i : LongHeaderInvariant) : Prop := is_u32 (version i) /\ connId_ok (srcConnId i) /\ connId_ok (dstConnId i).

(** A header that is written and that the receiver takes: only Initial and Retry packets
    carry a token, and a server wants at least eight bytes in the destination of an Initial
    packet. *)
Definition long_ok (receiver : QuicNodeType) (h : LongHeader) : Prop :=
  invariant_ok (invariant_ h) /\ version (invariant_ h) <> VERSION_NEGOTIATION /\ bytes_ok (token_ h) /\ zlen (token_ h) < 2 ^ 61 /\
  match longHeaderType_ h with
  | TInitial => receiver = Server -> kMinInitialDestinationConnIdLength <= zlen (dstConnId (invariant_ h))
  | TRetry => token_ h <> []
  | _ => token_ h = []
  end.

Lemma long_token_fits receiver h : long_ok receiver h -> fits (zlen (token_ h)).
Proof. intros (_ & _ & _ & H & _). apply fits_small. unfold zlen in *. lia. Qed.

Lemma connId_size l : connId_ok l -> 0 <= zlen l < 2 ^ (8 * Z.of_nat 1).
Proof. intros [_ H]. unfold kMaxConnectionIdSize, zlen in *. change (2 ^ (8 * Z.of_nat 1)) with 256. lia. Qed.

Lemma required_ok n cursor : n <= zlen cursor -> required n cursor = POk () cursor.
Proof. intros H. unfold required, canAdvance, mbind, parser_bind. by rewrite (proj2 (Z.leb_le n (zlen cursor))). Qed.

Lemma readBE_bytes n z rest : 0 <= z < 2 ^ (8 * Z.of_nat n) -> readBE n (be_bytes n z ++ rest) = (POk z rest : presult TransportErrorCode Z).
Proof. apply readBE_app. Qed.

Lemma hinteger_ok v rest : fits v -> bytes_ok rest -> hinteger (int_bytes v ++ rest) = POk (v, zlen (int_bytes v)) rest.
Proof. intros Hv Hr. destruct (int_bytes_ok v Hv) as (_ & _ & _ & _ & HD). unfold hinteger. by rewrite HD. Qed.

(** A connection id behind its length. *)
Lemma connId_read l rest B (k : list Z -> parser TransportErrorCode B) : connId_ok l ->
  (required 1 ;; n ← readBE 1; hcheck PROTOCOL_VIOLATION (negb (n >? kMaxConnectionIdSize)) ;; required n ;; x ← readBytes n; k x)
    (be_bytes 1 (zlen l) ++ l ++ rest) = k l rest.
Proof.
  intros Hl. pose proof (connId_size l Hl) as Hz. destruct Hl as [_ Hmax].
  rewrite (pbind_ok _ _ _ () (be_bytes 1 (zlen l) ++ l ++ rest)) by (apply required_ok; rewrite zlen_app; unfold zlen; simpl; lia).
  rewrite (pbind_ok _ _ _ (zlen l) (l ++ rest)) by (by apply readBE_bytes).
  rewrite (pbind_ok _ _ _ () (l ++ rest)) by (unfold hcheck; destruct (Z.gtb_spec (zlen l) kMaxConnectionIdSize); [lia|done]).
  rewrite (pbind_ok _ _ _ () (l ++ rest)) by (apply required_ok; rewrite zlen_app; unfold zlen; lia).
  by rewrite (pbind_ok _ _ _ l rest) by (by apply readBytes_app).
Qed.

Lemma parseInvariant_ok b i rest : invariant_ok i ->
  parseLongHeaderInvariant b (invariant_bytes i ++ rest) = POk (mkParsedInvariant b i (zlen (invariant_bytes i))) rest.
Proof.
  intros (Hv & Hs & Hd). set (total := zlen (invariant_bytes i ++ rest)). unfold parseLongHeaderInvariant.
  rewrite (pbind_ok _ _ _ total (invariant_bytes i ++ rest)) by done. unfold invariant_bytes at 1. rewrite <- !app_assoc.
  rewrite (pbind_ok _ _ _ () (be_bytes 4 (version i) ++ be_bytes 1 (zlen (dstConnId i)) ++ dstConnId i ++ be_bytes 1 (zlen (srcConnId i)) ++ srcConnId i ++ rest))
    by (apply required_ok; rewrite zlen_app; unfold zlen; rewrite length_be_bytes; lia).
  rewrite (pbind_ok _ _ _ (version i) (be_bytes 1 (zlen (dstConnId i)) ++ dstConnId i ++ be_bytes 1 (zlen (srcConnId i)) ++ srcConnId i ++ rest)) by (by apply readBE_bytes).
  rewrite (connId_read _ _ _ (fun destConnId => required 1 ;; n ← readBE 1; hcheck PROTOCOL_VIOLATION (negb (n >? kMaxConnectionIdSize)) ;; required n ;;
    x ← readBytes n; currentLength ← remaining; mret (mkParsedInvariant b (mkInvariant (version i) x destConnId) (total - currentLength)))) by done.
  rewrite (connId_read _ _ _ (fun x => currentLength ← remaining; mret (mkParsedInvariant b (mkInvariant (version i) x (dstConnId i)) (total - currentLength)))) by done.
  rewrite (pbind_ok _ _ _ (zlen rest) rest) by done. unfold mret, parser_ret. do 2 f_equal; [by destruct i|]. unfold total. rewrite zlen_app. lia.
Qed.

(** The token of an Initial packet. *)
Lemma token_read {B} (k : list Z -> parser TransportErrorCode B) token rest : bytes_ok token -> bytes_ok rest -> fits (zlen token) ->
  ((tokenLen ← hinteger; let '(tokenLen, _) := tokenLen in required tokenLen ;; if tokenLen >? 0 then readBytes tokenLen else mret []) ≫= k)
    (int_bytes (zlen token) ++ token ++ rest) = k token rest.
Proof.
  intros Ht Hr Hf. rewrite (pbind_ok _ k _ token rest); [done|].
  rewrite (pbind_ok _ _ _ (zlen token, zlen (int_bytes (zlen token))) (token ++ rest)) by (apply hinteger_ok; [done|by apply Forall_app]).
  rewrite (pbind_ok _ _ _ () (token ++ rest)) by (apply required_ok; rewrite zlen_app; unfold zlen; lia).
  destruct (Z.gtb_spec (zlen token) 0); [by apply readBytes_app|]. destruct token; [done|]. unfold zlen in *. simpl in *. lia.
Qed.

Lemma be_bytes_one b : is_u8 b -> be_bytes 1 b = [b].
Proof. intros Hb. unfold be_bytes. replace (2 ^ (8 * Z.of_nat 0)) with 1 by done. by rewrite Z.div_1_r, Z.mod_small. Qed.

Lemma tryParse_start nodeType b i rest : is_u8 b -> invariant_ok i -> version i <> VERSION_NEGOTIATION ->
  tryParseLongHeader nodeType ([b] ++ invariant_bytes i ++ rest) =
  parseLongHeaderVariants (parseLongHeaderType b) (mkParsedInvariant b i (zlen (invariant_bytes i))) nodeType rest.
Proof.
  intros Hb Hi Hv. unfold tryParseLongHeader. set (c := [b] ++ invariant_bytes i ++ rest).
  rewrite (pbind_ok _ _ c true c) by (unfold canAdvance, c; rewrite zlen_app; by rewrite (proj2 (Z.leb_le _ _)) by (unfold zlen; simpl; lia)).
  rewrite (pbind_ok _ _ c () c) by done. unfold c.
  rewrite (pbind_ok _ _ _ b (invariant_bytes i ++ rest)).
  2: { rewrite <- (be_bytes_one b Hb). by apply readBE_bytes. }
  rewrite (pbind_ok _ _ _ (mkParsedInvariant b i (zlen (invariant_bytes i))) rest) by (by apply parseInvariant_ok).
  rewrite (pbind_ok _ _ _ () rest); [done|]. unfold hcheck. cbn [invariant]. by rewrite (proj2 (Z.eqb_neq _ _) Hv).
Qed.

(** The length of the packet behind the header. *)
Lemma packet_length_read {B} (k : Z * Z -> parser TransportErrorCode B) pktLen tl b : fits pktLen -> bytes_ok tl -> pktLen <= zlen tl ->
  parsePacketNumberLength b <= 4 -> 4 <= zlen tl ->
  (p ← hinteger; let '(pktLen, pktLenSize) := p in required pktLen ;; required (parsePacketNumberLength b) ;;
    hcheck FRAME_ENCODING_ERROR (negb (parsePacketNumberLength b >? kMaxPacketNumEncodingSize)) ;; k (pktLen, pktLenSize)) (int_bytes pktLen ++ tl) =
  k (pktLen, zlen (int_bytes pktLen)) tl.
Proof.
  intros Hf Hb Hl Hn H4. rewrite (pbind_ok _ _ _ (pktLen, zlen (int_bytes pktLen)) tl) by (by apply hinteger_ok).
  rewrite (pbind_ok _ _ _ () tl) by (by apply required_ok). rewrite (pbind_ok _ _ _ () tl) by (apply required_ok; lia).
  rewrite (pbind_ok _ _ _ () tl); [done|]. unfold hcheck, kMaxPacketNumEncodingSize. destruct (Z.gtb_spec (parsePacketNumberLength b) 4); [lia|done].
Qed.

Lemma parsePacketNumberLength_range b : 0 <= b -> 1 <= parsePacketNumberLength b <= 4.
Proof. intros Hb. unfold parsePacketNumberLength. rewrite (land_mask b _ 2) by done. pose proof (Z.mod_pos_bound b (2 ^ 2)). lia. Qed.

(** A long header is read back, up to its number. *)
Lemma tryParseLongHeader_ok receiver b h pktLen tl :
  long_ok receiver h -> longHeaderType_ h <> TRetry -> is_u8 b -> parseLongHeaderType b = longHeaderType_ h ->
  fits pktLen -> bytes_ok tl -> pktLen <= zlen tl -> 4 <= zlen tl ->
  tryParseLongHeader receiver (long_bytes b h ++ int_bytes pktLen ++ tl) =
    POk (mkParsedLong (long_setPacketNumber 0 h) (mkPacketLength pktLen (zlen (int_bytes pktLen)))) tl.
Proof.
  intros Hok Hr Hb Ht Hf Htl Hl H4. pose proof (long_token_fits _ _ Hok) as Ftok. destruct Hok as (Hi & Hv & Htok & _ & Htype). unfold long_bytes. rewrite <- !app_assoc, tryParse_start by done.
  pose proof (parsePacketNumberLength_range b (proj1 Hb)) as Hn. rewrite Ht. unfold parseLongHeaderVariants. rewrite bool_decide_eq_false_2 by done.
  assert (Hint : bytes_ok (int_bytes pktLen ++ tl)) by (apply Forall_app; split; [by apply int_bytes_ok|done]).
  rewrite (pbind_ok _ _ _ () (token_bytes h ++ int_bytes pktLen ++ tl)).
  2: { unfold hcheck. cbn [invariant]. destruct (longHeaderType_ h); try done. destruct receiver; [done|]. specialize (Htype eq_refl).
       rewrite !bool_decide_eq_true_2 by done. cbn [andb]. destruct (Z.ltb_spec (zlen (dstConnId (invariant_ h))) kMinInitialDestinationConnIdLength); [lia|done]. }
  cbn [invariant initialByte]. set (k := fun (token : list Z) (p : Z * Z) =>
    (mret (mkParsedLong (read_long (longHeaderType_ h) (invariant_ h) token) (mkPacketLength p.1 p.2)) : parser TransportErrorCode ParsedLongHeader)).
  assert (Hrest : (p ← hinteger; let '(pktLen, pktLenSize) := p in required pktLen ;; required (parsePacketNumberLength b) ;;
    hcheck FRAME_ENCODING_ERROR (negb (parsePacketNumberLength b >? kMaxPacketNumEncodingSize)) ;; k (token_ h) (pktLen, pktLenSize)) (int_bytes pktLen ++ tl) =
    POk (mkParsedLong (long_setPacketNumber 0 h) (mkPacketLength pktLen (zlen (int_bytes pktLen)))) tl).
  { rewrite packet_length_read by (done || lia). by destruct h. }
  unfold token_bytes. destruct (longHeaderType_ h) eqn:Et; [|..|done].
  - rewrite bool_decide_eq_true_2 by done. rewrite <- app_assoc. rewrite token_read by done. exact Hrest.
  - rewrite bool_decide_eq_false_2 by done. rewrite (pbind_ok _ _ _ [] (int_bytes pktLen ++ tl)) by done. rewrite Htype in *. exact Hrest.
  - rewrite bool_decide_eq_false_2 by done. rewrite (pbind_ok _ _ _ [] (int_bytes pktLen ++ tl)) by done. rewrite Htype in *. exact Hrest.
Qed.

Lemma tryParseRetry_ok receiver b h tag :
  long_ok receiver h -> longHeaderType_ h = TRetry -> is_u8 b -> parseLongHeaderType b = TRetry -> zlen tag = kRetryIntegrityTagLen ->
  tryParseLongHeader receiver (long_bytes b h ++ tag) = POk (mkParsedLong (long_setPacketNumber 0 h) (mkPacketLength 0 0)) tag.
Proof.
  intros (Hi & Hv & Htok & _ & Htype) Er Hb Ht Htag. unfold long_bytes. rewrite <- !app_assoc, tryParse_start by done. rewrite Ht.
  unfold token_bytes. rewrite Er in *. unfold parseLongHeaderVariants. rewrite bool_decide_eq_true_2 by done.
  rewrite (pbind_ok _ _ _ (zlen (token_ h ++ tag)) (token_ h ++ tag)) by done. rewrite zlen_app, Htag.
  rewrite (pbind_ok _ _ _ () (token_ h ++ tag)).
  2: { unfold hcheck. destruct (Z.leb_spec (zlen (token_ h) + kRetryIntegrityTagLen) kRetryIntegrityTagLen); [|done]. destruct (token_ h); [done|]. unfold zlen in *. simpl in *. lia. }
  rewrite (pbind_ok _ _ _ (token_ h) tag) by (apply readBytes_app; lia). cbn [invariant]. destruct h; simpl in *. by rewrite Er.
Qed.

(** ** Writing headers *)

Definition long_size (h : LongHeader) (n : Z) : Z :=
  zlen (long_bytes 0 h) + match longHeaderType_ h with TRetry => 0 | _ => kMaxPacketLenSize + n end.

Lemma long_bytes_size b h : zlen (long_bytes b h) = zlen (long_bytes 0 h).
Proof. unfold long_bytes. by rewrite !zlen_app. Qed.

Lemma invariant_bytes_size i : zlen (invariant_bytes i) = 4 + 1 + zlen (srcConnId i) + 1 + zlen (dstConnId i).
Proof. unfold invariant_bytes. rewrite !zlen_app. unfold zlen. rewrite !length_be_bytes. lia. Qed.

Lemma long_bytes_length b h : zlen (long_bytes b h) = 1 + 4 + 1 + zlen (srcConnId (invariant_ h)) + 1 + zlen (dstConnId (invariant_ h)) + zlen (token_bytes h).
Proof. unfold long_bytes. rewrite !zlen_app, invariant_bytes_size. change (zlen [b]) with 1. lia. Qed.

Lemma encodeLong_ok receiver h space la bytes n :
  long_ok receiver h -> PacketNumber.encodePacketNumber (long_packetSequenceNum_ h) la = Some (bytes, n) ->
  encodeLongHeaderHelper h space la =
    inr (long_bytes (long_first (longHeaderType_ h) n) h, (if space <? long_size h n then 0 else space - long_size h n), (bytes, n)).
Proof.
  intros Hok E. pose proof (long_token_fits _ _ Hok) as Ftok. destruct Hok as (_ & _ & _ & _ & Htype). destruct (int_bytes_ok _ Ftok) as (Etok & Esz & _).
  unfold encodeLongHeaderHelper, encodeNumber. rewrite E. unfold long_size, long_first. rewrite long_bytes_length. unfold token_bytes, long_bytes, token_bytes, invariant_bytes, encodeInteger.
  rewrite Esz, Etok. destruct (longHeaderType_ h); repeat first [rewrite bool_decide_eq_true_2 by done | rewrite bool_decide_eq_false_2 by done]; cbv [mbind W_bind mret W_ret];
    rewrite ?zlen_app, <- ?app_assoc, ?app_nil_r.
  - done.
  - done.
  - done.
  - by destruct (token_ h).
Qed.

Lemma encodeShort_ok h space la bytes n :
  PacketNumber.encodePacketNumber (short_packetSequenceNum_ h) la = Some (bytes, n) ->
  encodeShortHeaderHelper h space la =
    if space <? 1 + n + zlen (connectionId_ h) then inr ([], 0, None)
    else inr ([short_first (protectionType_ h) n] ++ connectionId_ h, u32 (space - 1 - zlen (connectionId_ h)), Some (bytes, n)).
Proof. intros E. unfold encodeShortHeaderHelper, encodeNumber. by rewrite E. Qed.

(** ** Short headers *)

Definition short_ok (h : ShortHeader) : Prop := connId_ok (connectionId_ h) /\ (protectionType_ h = KeyPhaseZero \/ protectionType_ h = KeyPhaseOne).

Lemma parseShortHeader_ok h n rest : short_ok h -> 1 <= n <= 4 ->
  parseShortHeader (short_first (protectionType_ h) n) (zlen (connectionId_ h)) (connectionId_ h ++ rest) = POk (short_setPacketNumber 0 h) rest.
Proof.
  intros [[_ Hmax] Hp] Hn. pose proof (short_first_bits (protectionType_ h) n 0 Hn ltac:(lia)) as Hbits. unfold short_first_ok in Hbits.
  set (b := short_first (protectionType_ h) n) in *. rewrite !andb_true_iff in Hbits. destruct Hbits as (((((((((_ & _) & _) & _) & Hform) & _) & Hfix) & Hres) & Hkey) & _).
  set (c := connectionId_ h ++ rest). unfold parseShortHeader, parseShortHeaderInvariants, as_error.
  assert (Hf : match getHeaderForm b with Short => true | Long => false end = true) by (by destruct (getHeaderForm b)). rewrite Hf, Hfix, Hres.
  do 3 (rewrite (pbind_ok _ _ c () c) by done).
  rewrite (pbind_ok _ _ c (connectionId_ h) rest).
  - apply Bool.eqb_prop in Hkey. rewrite Hkey. destruct h as [? p ?]. simpl in *. by destruct Hp as [-> | ->].
  - rewrite (pbind_ok _ _ c () c) by done. rewrite (pbind_ok _ _ c () c) by (unfold hcheck; destruct (Z.gtb_spec (zlen (connectionId_ h)) kMaxConnectionIdSize); [lia|done]).
    rewrite (pbind_ok _ _ c () c) by (apply required_ok; unfold c; rewrite zlen_app; unfold zlen; lia).
    by rewrite (readBytes_app _ (connectionId_ h) rest).
Qed.

(** ** Protected packets *)

Section packets.
Context `{C : Crypto} `{CL : !CryptoLaws C}.

(** A packet whose header is [b :: pre] and the number [pnb], with its encrypted body [e]. *)
Lemma protect_ok f b pre pnb e hc :
  zlen pnb = parsePacketNumberLength b -> 1 <= zlen pnb <= 4 -> 20 <= zlen pnb + zlen e ->
  exists x pnb', let b' := Z.lxor b (Z.land x (form_mask f)) in
    encryptPacketHeader f ((b :: pre) ++ pnb) e hc = inr ((b' :: pre) ++ pnb') /\ 0 <= x /\ zlen pnb' = zlen pnb /\ (bytes_ok pnb -> bytes_ok pnb') /\
    let offset := zlen (b :: pre) in let data := (b' :: pre) ++ pnb' ++ e in
    let bytes := pnb ++ take (Z.to_nat (4 - zlen pnb)) e in
    decryptHeader f hc (take 16 (drop (Z.to_nat (offset + 4)) data)) b' (take 4 (drop (Z.to_nat offset) data)) = Some (b, bytes) /\
    unprotect offset b bytes data = (b :: pre) ++ pnb ++ e.
Proof.
  intros Hn Hn4 He. set (k := Z.to_nat (4 - zlen pnb)). set (sample := take 16 (drop k e)). exists (hd 0 (mask hc sample)).
  assert (Hf : zlen pnb + zlen (take k e) = 4) by (unfold zlen in *; rewrite length_take; lia).
  pose proof (decrypt_encrypt_header f hc sample b pnb (take k e) Hn Hn4 Hf) as Hdec.
  destruct (encryptHeader f hc sample b pnb) as [b' pnb'] eqn:Eenc. destruct Hdec as (-> & Hl & Hb & Hdec). exists pnb'. cbv zeta.
  set (b' := Z.lxor b _) in *. split_and!; try done.
  - unfold encryptPacketHeader. simpl hd. rewrite <- Hn. destruct (Z.ltb_spec (zlen e) (kMaxPacketNumEncodingSize - zlen pnb + kSampleSize)) as [Hlt|_];
      [unfold kMaxPacketNumEncodingSize, kSampleSize in *; lia|].
    change (kMaxPacketNumEncodingSize - zlen pnb) with (4 - zlen pnb). fold k. change (Z.to_nat kSampleSize) with 16%nat. fold sample.
    assert (Hat : Z.to_nat (zlen (b :: pre ++ pnb) - zlen pnb) = S (length pre)) by (unfold zlen; simpl; rewrite length_app; lia).
    change ((b :: pre) ++ pnb) with (b :: pre ++ pnb). rewrite Hat. cbn [drop]. rewrite drop_app_length, Eenc, drop_0.
    cbn [Nat.sub]. rewrite Nat.sub_0_r, take_app_length. done.
  - pose proof (mask_bytes hc sample) as Hm. destruct (mask hc sample) as [|x l]; [done|]. inversion Hm; subst. unfold is_u8 in *. simpl. lia.
  - assert (Ho : Z.to_nat (zlen (b :: pre)) = length (b' :: pre)) by (unfold zlen; simpl; lia). rewrite Ho, drop_app_length.
    assert (Ho4 : Z.to_nat (zlen (b :: pre) + 4) = (length (b' :: pre) + (length pnb' + k))%nat) by (unfold zlen in *; simpl; lia).
    rewrite Ho4, drop_app_add, drop_app_add. fold sample. rewrite take_app_ge by (unfold zlen in *; lia).
    replace (4 - length pnb')%nat with k by (unfold zlen in *; lia). exact Hdec.
  - unfold unprotect. assert (Hb4 : zlen (pnb ++ take k e) = 4) by (by rewrite zlen_app). rewrite Hb4.
    assert (Ho4 : Z.to_nat (zlen (b :: pre) + 4) = (length (b' :: pre) + (length pnb' + k))%nat) by (unfold zlen in *; simpl; lia).
    rewrite Ho4, drop_app_add, drop_app_add. change (drop 1 ((b' :: pre) ++ pnb' ++ e)) with (pre ++ pnb' ++ e).
    replace (Z.to_nat (zlen (b :: pre) - 1)) with (length pre) by (unfold zlen; simpl; lia).
    rewrite take_app_length, <- app_assoc, take_drop. done.
Qed.
End packets.

(** ** An instance *)

(** Masks with one byte of the key and a tag that names the key and the number: not secure,
    but lawful. *)
Definition example_tag (k n : Z) : list Z := be_bytes 8 k ++ be_bytes 8 n.

Definition example_decrypt (k : Z) (c d : list Z) (n : Z) : option (list Z) :=
  let l := (length c - 16)%nat in
  if bool_decide (drop l c = example_tag k n) then Some (Z.lxor (u8 k) <$> take l c) else None.

#[global] Instance exampleCrypto : Crypto := {|
  Aead := Z;
  HeaderCipher := Z;
  inplaceEncrypt := fun k p d n => (Z.lxor (u8 k) <$> p) ++ example_tag k n;
  tryDecrypt := example_decrypt;
  getCipherOverhead := fun _ => 16;
  mask := fun k sample => replicate 16 (u8 (k + hd 0 sample))
|}.

Lemma example_tag_length k n : length (example_tag k n) = 16%nat.
Proof. unfold example_tag. by rewrite length_app, !length_be_bytes. Qed.

Lemma example_cut k p n : let c := (Z.lxor (u8 k) <$> p) ++ example_tag k n in
  take (length c - 16) c = Z.lxor (u8 k) <$> p /\ drop (length c - 16) c = example_tag k n.
Proof.
  intros c. assert (E : (length c - 16)%nat = length (Z.lxor (u8 k) <$> p)) by (unfold c; rewrite length_app, example_tag_length; lia).
  rewrite E. unfold c. by rewrite take_app_length, drop_app_length.
Qed.

Lemma xor_bytes k l : bytes_ok l -> bytes_ok (Z.lxor (u8 k) <$> l).
Proof. induction 1; constructor; [apply lxor_byte; [apply u8_range|done]|done]. Qed.

#[global] Instance exampleCryptoLaws : CryptoLaws exampleCrypto.
Proof.
  split.
  - intros a p d n. simpl. unfold example_decrypt. destruct (example_cut a p n) as [E1 E2]. rewrite E2, bool_decide_eq_true_2, E1 by done. f_equal.
    rewrite <- list_fmap_compose. rewrite <- (list_fmap_id p) at 2. apply list_fmap_ext. intros i x _. simpl. by rewrite <- Z.lxor_assoc, Z.lxor_nilpotent, Z.lxor_0_l.
  - intros a p d n. simpl. rewrite zlen_app. unfold zlen. rewrite length_fmap, example_tag_length. lia.
  - intros a p d n Hp. apply Forall_app. split; [by apply xor_bytes|]. apply Forall_app. split; apply be_bytes_ok.
  - intros a c d n p Hc. simpl. unfold example_decrypt. case_bool_decide; [|done]. intros [= <-]. by apply xor_bytes, Forall_take.
  - intros c s. done.
  - intros c s. apply Forall_replicate, u8_range.
Qed.

(** Different keys have different tags. *)
Lemma example_keys_differ i j p d n : is_u64 i -> is_u64 j -> i <> j -> tryDecrypt i (inplaceEncrypt j p d n) d n = None.
Proof.
  intros Hi Hj Hn. simpl. unfold example_decrypt. destruct (example_cut j p n) as [_ ->]. rewrite bool_decide_eq_false_2; [done|].
  intros [E _]%app_inj_1; [|by rewrite !length_be_bytes]. apply Hn. rewrite <- (be_value_bytes 8 i), <- (be_value_bytes 8 j), E by done. done.
Qed.

End QuicProtection.
