(* ===== verification/QuicDatagrams.v ===== *)
(** * QUIC datagrams: a packet is received as it was sent

    From the frames of a sender to those of the receiver: header, packet number, payload,
    encryption and header protection, and the same in reverse. *)

From S2P Require Import Prelude QuicInteger QuicFrames QuicFrameWriter QuicFramesResults QuicPackets QuicHeaders QuicReadCodec QuicPacketWriter QuicProtection.

Module QuicDatagrams.
Import QuicFrames QuicFrameWriter QuicFramesResults QuicPackets QuicHeaders QuicReadCodec QuicPacketWriter QuicProtection.

Section datagrams.
Context `{C : Crypto} `{CL : !CryptoLaws C}.

(** ** Sending *)

Definition with_frames (b : PacketBuilder) (f : Builder) : PacketBuilder :=
  mkPacketBuilder (largestAckedPacketNum_ b) (packet_header b) (header_ b) (packetNumberEncoding_ b) (cipherOverhead_ b) f.

(** A packet with the writes [ws] of a scheduler: the datagram, if there is one, and the
    frames that were written. *)
Definition sendPacket (h : PacketHeader) (la udpSendPacketLen : Z) (aead : Aead) (hc : HeaderCipher) (ws : list Write)
  : W (option (list Z) * list QuicFrame) :=
  b ← encodePacketHeader (accountForCipherOverhead (getCipherOverhead aead) (regularQuicPacketBuilder udpSendPacketLen h la));
  '(f, fs) ← perform_all ws (frame_builder b);
  d ← encryptPacket (with_frames b f) (getPacketSequenceNum h) aead hc;
  mret (d, fs).

Definition header_ok (receiver : QuicNodeType) (h : PacketHeader) : Prop :=
  match h with HLong h => long_ok receiver h /\ longHeaderType_ h <> TRetry | HShort h => short_ok h end.

Definition first_byte (h : PacketHeader) (n : Z) : Z :=
  match h with HLong h => long_first (longHeaderType_ h) n | HShort h => short_first (protectionType_ h) n end.

(** What is between the first byte and the number. *)
Definition middle (h : PacketHeader) (pktLen : Z) : list Z :=
  match h with HLong h => invariant_bytes (invariant_ h) ++ token_bytes h ++ int_bytes pktLen | HShort h => connectionId_ h end.

Definition header_space (h : PacketHeader) (n : Z) : Z :=
  match h with HLong h => long_size h n | HShort h => 1 + n + zlen (connectionId_ h) end.

Definition header_start (h : PacketHeader) (n bytes : Z) : list Z :=
  match h with
  | HLong h => long_bytes (long_first (longHeaderType_ h) n) h
  | HShort h => ([short_first (protectionType_ h) n] ++ connectionId_ h) ++ be_bytes (Z.to_nat n) bytes
  end.

Lemma header_space_nonneg h n : 0 <= n -> 0 <= header_space h n.
Proof.
  intros Hn. destruct h as [h|h]; simpl; unfold long_size, kMaxPacketLenSize, zlen; [|lia]. destruct (longHeaderType_ h); lia.
Qed.

Lemma encodePacketHeader_ok receiver h la udp ov bytes n :
  header_ok receiver h -> PacketNumber.encodePacketNumber (getPacketSequenceNum h) la = Some (bytes, n) -> 1 <= n <= 4 ->
  0 <= ov <= 255 -> udp < 2 ^ 32 -> ov + header_space h n <= udp ->
  encodePacketHeader (accountForCipherOverhead ov (regularQuicPacketBuilder udp h la)) =
    inr (mkPacketBuilder la h (header_start h n bytes) (Some (bytes, n)) ov (mkBuilder (isShort h) (udp - ov - header_space h n) [] [] true)).
Proof.
  intros Hok E Hn Hov Hudp Hsp. pose proof (header_space_nonneg h n ltac:(lia)) as H0. unfold accountForCipherOverhead, regularQuicPacketBuilder, encodePacketHeader, encodeLongHeader, encodeShortHeader. simpl.
  rewrite (u8_id ov) by (unfold_ints; lia). rewrite (u32_id (udp - ov)) by (unfold_ints; lia). destruct h as [h|h]; simpl in *.
  - rewrite (encodeLong_ok receiver h _ la bytes n) by (apply Hok || done). rewrite W_bind_inr. cbv beta iota.
    destruct (Z.ltb_spec (udp - ov) (long_size h n)); [lia|]. done.
  - rewrite (encodeShort_ok h _ la bytes n) by done. destruct (Z.ltb_spec (udp - ov) (1 + n + zlen (connectionId_ h))); [lia|].
    rewrite W_bind_inr. cbv beta iota. unfold with_remaining. simpl. assert (0 <= zlen (connectionId_ h)) by (unfold zlen; lia).
    rewrite (u32_id (udp - ov - 1 - zlen (connectionId_ h))), u32_id by (unfold_ints; lia).
    unfold mret, W_ret. do 3 f_equal. lia.
Qed.

Lemma header_split h n bytes pktLen :
  header_start h n bytes ++ match h with HLong _ => int_bytes pktLen ++ be_bytes (Z.to_nat n) bytes | HShort _ => [] end =
  (first_byte h n :: middle h pktLen) ++ be_bytes (Z.to_nat n) bytes.
Proof. destruct h as [h|h]; simpl; [by rewrite <- !app_assoc|by rewrite app_nil_r]. Qed.

Lemma first_byte_number_length receiver h n : header_ok receiver h -> 1 <= n <= 4 -> parsePacketNumberLength (first_byte h n) = n.
Proof.
  intros Hok Hn. destruct h as [h|h]; simpl.
  - pose proof (long_first_bits (longHeaderType_ h) n 0 Hn ltac:(lia)) as Hb. unfold long_first_ok in Hb. rewrite !andb_true_iff, orb_true_iff in Hb.
    destruct Hb as [_ [Hb|Hb]]; [by apply Z.eqb_eq|]. apply bool_decide_eq_true_1 in Hb. by destruct Hok.
  - pose proof (short_first_bits (protectionType_ h) n 0 Hn ltac:(lia)) as Hb. unfold short_first_ok in Hb. rewrite !andb_true_iff in Hb. destruct Hb as [_ Hb]. by apply Z.eqb_eq.
Qed.

Lemma buildWhole_ok receiver h la ov bytes n f f' :
  header_ok receiver h -> buildPacket n ov f = inr f' -> fits (n + zlen (body_ f') + ov) ->
  buildWholePacket (mkPacketBuilder la h (header_start h n bytes) (Some (bytes, n)) ov f) =
    inr ((first_byte h n :: middle h (n + zlen (body_ f') + ov)) ++ be_bytes (Z.to_nat n) bytes, body_ f').
Proof.
  intros Hok Hb Fp. unfold buildWholePacket. cbn [packetNumberEncoding_ cipherOverhead_ frame_builder packet_header header_]. rewrite Hb, W_bind_inr.
  set (pktLen := n + zlen (body_ f') + ov) in *. pose proof (header_split h n bytes pktLen) as Hsplit. destruct h as [h|h].
  - destruct Hok as [_ Hr]. rewrite bool_decide_eq_false_2 by done. unfold encodeInteger. destruct (int_bytes_ok pktLen Fp) as [-> _].
    rewrite W_bind_ret. by rewrite Hsplit.
  - rewrite app_nil_r in Hsplit. by rewrite Hsplit.
Qed.

(** The datagram of a packet with frames. *)
Lemma encryptPacket_ok receiver h la ov bytes n f f' aead hc :
  header_ok receiver h -> buildPacket n ov f = inr f' -> fits (n + zlen (body_ f') + ov) -> (frames f <> [] -> body_ f' <> []) ->
  let hdr := (first_byte h n :: middle h (n + zlen (body_ f') + ov)) ++ be_bytes (Z.to_nat n) bytes in
  let e := inplaceEncrypt aead (body_ f') hdr (getPacketSequenceNum h) in
  encryptPacket (mkPacketBuilder la h (header_start h n bytes) (Some (bytes, n)) ov f) (getPacketSequenceNum h) aead hc =
    match frames f with
    | [] => inr None
    | _ => x ← encryptPacketHeader (header_form h) hdr e hc; mret (Some (x ++ e))
    end.
Proof.
  intros Hok Hb Fp Hbody hdr e. unfold encryptPacket. rewrite (buildWhole_ok receiver _ _ _ _ _ _ f'), W_bind_inr by done. cbn [frame_builder packet_header].
  destruct (frames f); [done|]. fold hdr e. specialize (Hbody ltac:(done)). by destruct (body_ f').
Qed.

(** ** Receiving *)

Lemma take_app_3 {A} (x y z rest : list A) n : n = (length x + length y + length z)%nat -> take n (x ++ y ++ z ++ rest) = x ++ y ++ z /\ drop n (x ++ y ++ z ++ rest) = rest.
Proof.
  intros ->. rewrite !app_assoc. split; [rewrite take_app_length' by (rewrite !length_app; lia); by rewrite <- app_assoc|].
  by rewrite drop_app_length' by (rewrite !length_app; lia).
Qed.

(** The packet of a datagram that [readLongPacket] gets: protection is removed, the number is
    found and the body is decrypted. *)
Lemma readLongPacket_ok c acks now h la largest bytes n aead hc body pktLen b' pnb' :
  longCiphers c now (longHeaderTypeToProtectionType (longHeaderType_ h)) = Some (Some hc, Some aead) ->
  largestRecvdPacketNum acks (longHeaderTypeToProtectionType (longHeaderType_ h)) = Some largest ->
  number_ok (long_packetSequenceNum_ h) la (expectedNext largest) ->
  PacketNumber.encodePacketNumber (long_packetSequenceNum_ h) la = Some (bytes, n) -> 1 <= n <= 4 ->
  parsePacketNumberLength (first_byte (HLong h) n) = n ->
  pktLen = n + zlen body + getCipherOverhead aead -> is_u64 pktLen ->
  let first := first_byte (HLong h) n in let pre := middle (HLong h) pktLen in let pnb := be_bytes (Z.to_nat n) bytes in
  let e := inplaceEncrypt aead body ((first :: pre) ++ pnb) (long_packetSequenceNum_ h) in
  let offset := zlen (first :: pre) in let data := (b' :: pre) ++ pnb' ++ e in let bs := pnb ++ take (Z.to_nat (4 - zlen pnb)) e in
  decryptHeader Long hc (take 16 (drop (Z.to_nat (offset + 4)) data)) b' (take 4 (drop (Z.to_nat offset) data)) = Some (first, bs) ->
  unprotect offset first bs data = (first :: pre) ++ pnb ++ e ->
  readLongPacket c acks now (long_setPacketNumber 0 h) offset pktLen data = decoded Long (HLong h) (params_ c) body.
Proof.
  intros Hciph Hlarge Hnum Henc Hn Hlen Hpkt Hp64 first pre pnb e offset data bs Hdec Hunp. unfold readLongPacket. cbn [long_setPacketNumber longHeaderType_].
  rewrite Hciph, Hlarge. change kMaxPacketNumEncodingSize with 4. change (Z.to_nat 4) with 4%nat. change (hd 0 data) with b'. rewrite Hdec, Hunp.
  destruct (number_roundtrip _ _ _ Hnum) as (bytes' & n' & Henc' & _ & _ & Hparse). rewrite Henc in Henc'. injection Henc' as <- <-.
  unfold bs, pnb. rewrite Hparse by done. fold pnb.
  assert (Hz : zlen e = zlen body + getCipherOverhead aead) by (unfold e; apply encrypt_length).
  assert (Hpn : zlen pnb = n) by (unfold pnb, zlen; rewrite length_be_bytes; lia).
  assert (Haad : Z.to_nat (offset + n) = length ((first :: pre) ++ pnb)) by (unfold offset, zlen in *; rewrite length_app; simpl; lia).
  rewrite Haad, app_assoc, take_app_length, drop_app_length. rewrite u64_id by (unfold_ints; lia).
  rewrite take_ge by (unfold zlen in *; lia). unfold e. rewrite decrypt_encrypt. unfold decoded. by destruct h.
Qed.

Lemma parseLong_ok c acks now dstConnIdSize h la largest bytes n aead hc body rest :
  long_ok (nodeType_ c) h -> longHeaderType_ h <> TRetry ->
  longCiphers c now (longHeaderTypeToProtectionType (longHeaderType_ h)) = Some (Some hc, Some aead) ->
  largestRecvdPacketNum acks (longHeaderTypeToProtectionType (longHeaderType_ h)) = Some largest ->
  number_ok (long_packetSequenceNum_ h) la (expectedNext largest) ->
  PacketNumber.encodePacketNumber (long_packetSequenceNum_ h) la = Some (bytes, n) -> 1 <= n <= 4 ->
  bytes_ok body -> bytes_ok rest -> 20 <= n + zlen body + getCipherOverhead aead <= QuicInteger.kTwoByteLimit -> zlen rest < 2 ^ 60 ->
  let pktLen := n + zlen body + getCipherOverhead aead in
  let hdr := (first_byte (HLong h) n :: middle (HLong h) pktLen) ++ be_bytes (Z.to_nat n) bytes in
  let e := inplaceEncrypt aead body hdr (long_packetSequenceNum_ h) in
  exists x, encryptPacketHeader Long hdr e hc = inr x /\ zlen x = zlen hdr /\
    parsePacket c acks now dstConnIdSize ((x ++ e) ++ rest) = (decoded Long (HLong h) (params_ c) body, c, rest).
Proof.
  intros Hok Hr Hciph Hlarge Hnum Henc Hn Hbody Hrest Hsz Hrl pktLen hdr e. set (pnb := be_bytes (Z.to_nat n) bytes) in *.
  pose proof (first_byte_number_length (nodeType_ c) (HLong h) n (conj Hok Hr) Hn) as Hlen. set (first := first_byte (HLong h) n) in *. set (pre := middle (HLong h) pktLen) in *.
  assert (Hpn : zlen pnb = n) by (unfold pnb, zlen; rewrite length_be_bytes; lia). assert (Hz : zlen e = zlen body + getCipherOverhead aead) by (unfold e; apply encrypt_length).
  destruct (protect_ok Long first pre pnb e hc) as (m & pnb' & Henct & Hm & Hpn' & Hpb & Hdec & Hunp); [congruence|lia|lia|]. set (b' := Z.lxor first _) in *.
  exists ((b' :: pre) ++ pnb'). split; [done|]. split; [unfold hdr; rewrite !zlen_app; unfold zlen in *; simpl; lia|].
  pose proof (long_first_bits (longHeaderType_ h) n m Hn Hm) as Hbits. unfold long_first_ok in Hbits. change (long_first (longHeaderType_ h) n) with first in Hbits.
  change (Z.lxor first (Z.land m long_kTypeBitsMask)) with b' in Hbits. rewrite !andb_true_iff in Hbits. destruct Hbits as ((((((((_ & _) & B1) & B2) & _) & Hform) & Htype) & _) & _).
  apply Z.leb_le in B1. apply Z.ltb_lt in B2. apply bool_decide_eq_true_1 in Htype.
  assert (Fp : fits pktLen) by (apply fits_small; unfold pktLen, QuicInteger.kTwoByteLimit in *; lia).
  set (tl := pnb' ++ e ++ rest). assert (Htl : bytes_ok tl).
  { apply Forall_app. split; [apply Hpb, be_bytes_ok|]. apply Forall_app. split; [by apply encrypt_bytes|done]. }
  assert (Hq : (((b' :: pre) ++ pnb') ++ e) ++ rest = long_bytes b' h ++ int_bytes pktLen ++ tl).
  { unfold long_bytes, pre, tl. simpl. by rewrite <- !app_assoc. }
  assert (Hztl : zlen tl = pktLen + zlen rest) by (unfold tl; rewrite !zlen_app; lia). assert (0 <= zlen rest) by (unfold zlen; lia).
  rewrite Hq. unfold parsePacket. change (long_bytes b' h ++ int_bytes pktLen ++ tl) with (b' :: (invariant_bytes (invariant_ h) ++ token_bytes h) ++ int_bytes pktLen ++ tl) at 1.
  cbv iota beta. destruct (getHeaderForm b'); [|done]. unfold parseLongHeaderPacket.
  rewrite (tryParseLongHeader_ok (nodeType_ c) b' h pktLen tl) by (done || lia). cbn [header packet_length packetLength].
  rewrite bool_decide_eq_false_2 by exact Hr. rewrite <- Hq. set (q := (((b' :: pre) ++ pnb') ++ e) ++ rest).
  assert (Ho : zlen q - zlen tl = zlen (first :: pre)) by (unfold q, tl; rewrite !zlen_app; unfold zlen; simpl; lia). rewrite Ho.
  assert (Hop : 0 <= zlen (first :: pre) /\ zlen q = zlen (first :: pre) + pktLen + zlen rest) by (split; [unfold zlen; lia|lia]).
  assert (Hsmall : zlen (first :: pre) < 2 ^ 62).
  { unfold pre, middle. rewrite QuicInteger.zlen_cons, !zlen_app, invariant_bytes_size. destruct Hok as ((_ & (_ & Hs) & (_ & Hd)) & _ & _ & Ht & _).
    unfold token_bytes, kMaxConnectionIdSize in *. destruct (int_bytes_ok pktLen Fp) as (_ & _ & Hi & _). assert (0 <= zlen (token_ h)) by (unfold zlen; lia).
    assert (Fz : fits (zlen (token_ h))) by (apply fits_small; lia). destruct (int_bytes_ok _ Fz) as (_ & _ & Hi' & _).
    destruct (longHeaderType_ h); rewrite ?zlen_app; change (zlen (@nil Z)) with 0; lia. }
  rewrite (u64_id (zlen (first :: pre) + pktLen)) by (unfold QuicInteger.kTwoByteLimit in *; unfold is_u64, UINT64_MAX; lia).
  destruct (Z.ltb_spec (zlen q) (zlen (first :: pre) + pktLen)); [lia|].
  destruct (take_app_3 (b' :: pre) pnb' e rest (Z.to_nat (zlen (first :: pre) + pktLen))) as [Et Ed]; [unfold zlen in *; simpl in *; lia|].
  unfold q. rewrite <- !app_assoc. rewrite Et, Ed.
  assert (Hzd : zlen ((b' :: pre) ++ pnb' ++ e) = zlen (first :: pre) + pktLen) by (rewrite !zlen_app; unfold zlen in *; simpl in *; lia). rewrite Hzd.
  destruct (Z.ltb_spec (zlen (first :: pre) + pktLen - zlen (first :: pre)) kMaxPacketNumEncodingSize); [unfold kMaxPacketNumEncodingSize in *; lia|].
  destruct (Z.ltb_spec (zlen (first :: pre) + pktLen - zlen (first :: pre) - kMaxPacketNumEncodingSize) kSampleSize); [unfold kMaxPacketNumEncodingSize, kSampleSize in *; lia|].
  assert (Hread : readLongPacket c acks now (long_setPacketNumber 0 h) (zlen (first :: pre)) pktLen ((b' :: pre) ++ pnb' ++ e) = decoded Long (HLong h) (params_ c) body).
  { apply (readLongPacket_ok c acks now h la largest bytes n aead hc body pktLen b' pnb'); try done. unfold is_u64, QuicInteger.kTwoByteLimit in *. lia. }
  by rewrite Hread.
Qed.

(** What becomes of a packet with a short header depends on the key that its phase and its
    number select. *)
Definition short_outcome (c : QuicReadCodec) (h : ShortHeader) (hdr e : list Z) : Outcome * QuicReadCodec :=
  let slot := oneRttSlot c (protectionType_ h) (short_packetSequenceNum_ h) in
  match slotCipher c slot with
  | None => (Result (CipherUnavailable (hdr ++ e) (protectionType_ h)), c)
  | Some k =>
      match tryDecrypt k e hdr (short_packetSequenceNum_ h) with
      | None => (Result Nothing, c)
      | Some p => (decoded Short (HShort h) (params_ c) p, onDecrypted slot (protectionType_ h) (short_packetSequenceNum_ h) c)
      end
  end.

Lemma parseShort_ok c acks now h la bytes n hc e :
  short_ok h -> oneRttHeaderCipher_ c = Some hc -> currentOneRttReadCipher_ c <> None ->
  number_ok (short_packetSequenceNum_ h) la (expectedNext (appDataAckState acks)) ->
  PacketNumber.encodePacketNumber (short_packetSequenceNum_ h) la = Some (bytes, n) -> 1 <= n <= 4 -> 20 <= n + zlen e ->
  let hdr := (first_byte (HShort h) n :: connectionId_ h) ++ be_bytes (Z.to_nat n) bytes in
  exists x, encryptPacketHeader Short hdr e hc = inr x /\ zlen x = zlen hdr /\
    (resetToken c (x ++ e) = inr () ->
     parsePacket c acks now (zlen (connectionId_ h)) (x ++ e) = (let '(r, c') := short_outcome c h hdr e in (r, c', []))).
Proof.
  intros Hok Hhc Hcur Hnum Henc Hn Hsz hdr. set (pnb := be_bytes (Z.to_nat n) bytes) in *.
  pose proof (first_byte_number_length Client (HShort h) n Hok Hn) as Hlen. set (first := first_byte (HShort h) n) in *. set (pre := connectionId_ h) in *.
  assert (Hpn : zlen pnb = n) by (unfold pnb, zlen; rewrite length_be_bytes; lia).
  destruct (protect_ok Short first pre pnb e hc) as (m & pnb' & Henct & Hm & Hpn' & _ & Hdec & Hunp); [congruence|lia|lia|]. set (b' := Z.lxor first _) in *.
  exists ((b' :: pre) ++ pnb'). split; [done|]. split; [unfold hdr; rewrite !zlen_app; unfold zlen in *; simpl; lia|]. intros Hreset.
  pose proof (short_first_bits (protectionType_ h) n m Hn Hm) as Hbits. unfold short_first_ok in Hbits. change (short_first (protectionType_ h) n) with first in Hbits.
  change (Z.lxor first (Z.land m short_kTypeBitsMask)) with b' in Hbits. rewrite !andb_true_iff in Hbits. destruct Hbits as (((((_ & Hform) & _) & _) & _) & _).
  rewrite <- app_assoc in *. set (q := (b' :: pre) ++ pnb' ++ e) in *. unfold parsePacket.
  change q with (b' :: pre ++ pnb' ++ e) at 1. cbv iota beta. destruct (getHeaderForm b'); [done|]. destruct (currentOneRttReadCipher_ c); [|done].
  rewrite Hhc, Hreset. unfold tryParseShortHeaderPacket. replace (1 + zlen pre) with (zlen (first :: pre)) by (unfold zlen; simpl; lia).
  change kMaxPacketNumEncodingSize with 4. change kSampleSize with 16. change (Z.to_nat 4) with 4%nat. change (Z.to_nat 16) with 16%nat.
  assert (Hq : zlen q = zlen (first :: pre) + n + zlen e) by (unfold q; rewrite !zlen_app; unfold zlen in *; simpl in *; lia).
  destruct (Z.ltb_spec (zlen q) (zlen (first :: pre) + 4 + 16)); [lia|]. change (hd 0 q) with b'. rewrite Hdec, Hunp.
  destruct (number_roundtrip _ _ _ Hnum) as (bytes' & n' & Henc' & _ & _ & Hparse). rewrite Henc in Henc'. injection Henc' as <- <-.
  rewrite Hparse by done. change (drop 1 ((first :: pre) ++ pnb ++ e)) with (pre ++ pnb ++ e).
  assert (Hshort : parseShortHeader first (zlen pre) (pre ++ pnb ++ e) = POk (short_setPacketNumber 0 h) (pnb ++ e)) by (by apply (parseShortHeader_ok h n)).
  rewrite Hshort. cbn [short_setPacketNumber protectionType_]. unfold short_outcome. set (slot := oneRttSlot c _ _).
  assert (Haad : Z.to_nat (zlen (first :: pre) + n) = length hdr) by (unfold hdr, zlen in *; rewrite length_app; simpl; lia).
  rewrite Haad, app_assoc. fold hdr. rewrite take_app_length, drop_app_length. replace (short_setPacketNumber (short_packetSequenceNum_ h) (short_setPacketNumber 0 h)) with h by (by destruct h).
  destruct (slotCipher c slot); [|done]. by destruct (tryDecrypt _ e hdr _).
Qed.

(** ** Sent and received *)

Definition number_length (h : PacketHeader) (la : Z) : Z :=
  match PacketNumber.encodePacketNumber (getPacketSequenceNum h) la with Some (_, n) => n | None => 0 end.

(** The space for frames in a datagram. *)
Definition room (h : PacketHeader) (la udpSendPacketLen : Z) (aead : Aead) : Z :=
  udpSendPacketLen - getCipherOverhead aead - header_space h (number_length h la).

Definition frame_space (h : PacketHeader) (la udpSendPacketLen : Z) (aead : Aead) : Builder :=
  mkBuilder (isShort h) (room h la udpSendPacketLen aead) [] [] true.

(** The receiver has the keys of the packet, and has not lost track of its numbers. *)
Definition ready (c : QuicReadCodec) (acks : AckStates) (now dstConnIdSize : Z) (h : PacketHeader) (la : Z) (aead : Aead) (hc : HeaderCipher) : Prop :=
  match h with
  | HLong h =>
      let t := longHeaderTypeToProtectionType (longHeaderType_ h) in
      longCiphers c now t = Some (Some hc, Some aead) /\
      exists largest, largestRecvdPacketNum acks t = Some largest /\ number_ok (long_packetSequenceNum_ h) la (expectedNext largest)
  | HShort h =>
      oneRttHeaderCipher_ c = Some hc /\ currentOneRttReadCipher_ c <> None /\
      slotCipher c (oneRttSlot c (protectionType_ h) (short_packetSequenceNum_ h)) = Some aead /\
      dstConnIdSize = zlen (connectionId_ h) /\ number_ok (short_packetSequenceNum_ h) la (expectedNext (appDataAckState acks))
  end.

Definition codec_after (c : QuicReadCodec) (h : PacketHeader) : QuicReadCodec :=
  match h with
  | HLong _ => c
  | HShort h => onDecrypted (oneRttSlot c (protectionType_ h) (short_packetSequenceNum_ h)) (protectionType_ h) (short_packetSequenceNum_ h) c
  end.

(** What may follow a packet in its datagram.  A packet with a short header has no length,
    and must not look like a stateless reset. *)
Definition arrives (c : QuicReadCodec) (h : PacketHeader) (datagram rest : list Z) : Prop :=
  match h with
  | HLong _ => bytes_ok rest /\ zlen rest < 2 ^ 60
  | HShort _ => rest = [] /\ resetToken c datagram = inr ()
  end.

Lemma foldl_push_nonnil fs : forall l, l <> [] -> foldl push_frame l fs <> [].
Proof.
  induction fs as [|f fs IH]; intros l Hl; [done|]. simpl. apply IH. unfold push_frame. intros E. destruct (last l) as [[]|]; destruct f; by apply app_nil in E as [_ E].
Qed.

Lemma ready_number c acks now sz h la aead hc : ready c acks now sz h la aead hc ->
  exists bytes n, PacketNumber.encodePacketNumber (getPacketSequenceNum h) la = Some (bytes, n) /\ 1 <= n <= 4 /\ number_length h la = n.
Proof.
  intros Hr. assert (exists e, number_ok (getPacketSequenceNum h) la e) as [e He].
  { destruct h as [h|h]; [destruct Hr as (_ & l & _ & H); by eexists|destruct Hr as (_ & _ & _ & _ & H); by eexists]. }
  destruct (number_roundtrip _ _ _ He) as (bytes & n & E & Hn & _). exists bytes, n. split_and!; try done; try lia. unfold number_length. by rewrite E.
Qed.

(** A packet, encrypted and protected, is read: [hdr] and the encrypted body. *)
Lemma datagram_read c acks now sz h la aead hc bytes n body :
  header_ok (nodeType_ c) h -> ready c acks now sz h la aead hc ->
  PacketNumber.encodePacketNumber (getPacketSequenceNum h) la = Some (bytes, n) -> 1 <= n <= 4 ->
  bytes_ok body -> 20 <= n + zlen body + getCipherOverhead aead <= QuicInteger.kTwoByteLimit ->
  let hdr := (first_byte h n :: middle h (n + zlen body + getCipherOverhead aead)) ++ be_bytes (Z.to_nat n) bytes in
  let e := inplaceEncrypt aead body hdr (getPacketSequenceNum h) in
  exists x, encryptPacketHeader (header_form h) hdr e hc = inr x /\ zlen x = zlen hdr /\
    forall rest, arrives c h (x ++ e) rest ->
      parsePacket c acks now sz ((x ++ e) ++ rest) = (decoded (header_form h) h (params_ c) body, codec_after c h, rest).
Proof.
  intros Hok Hr Henc Hn Hb Hsz hdr e. destruct h as [h|h]; simpl in Hok, Hr, Henc.
  - destruct Hok as [Hok Ht], Hr as (Hc & largest & Hl & Hnum). destruct (parseLong_ok c acks now sz h la largest bytes n aead hc body []) as (x & Hx & Hzx & _); try done; [constructor|].
    exists x. split_and!; try done. intros rest [Hrest Hrl].
    destruct (parseLong_ok c acks now sz h la largest bytes n aead hc body rest) as (x' & Hx' & _ & Hp); try done.
    rewrite Hx in Hx'. injection Hx' as <-. exact Hp.
  - destruct Hr as (Hhc & Hcur & Hslot & -> & Hnum).
    assert (Hze : zlen e = zlen body + getCipherOverhead aead) by apply encrypt_length.
    destruct (parseShort_ok c acks now h la bytes n hc e) as (x & Hx & Hzx & Hp); try done; [lia|].
    exists x. split_and!; try done. intros rest [-> Hreset]. rewrite app_nil_r, Hp by done. unfold short_outcome. rewrite Hslot.
    assert (Hdec : tryDecrypt aead e hdr (short_packetSequenceNum_ h) = Some body) by apply decrypt_encrypt.
    change ((first_byte (HShort h) n :: connectionId_ h) ++ be_bytes (Z.to_nat n) bytes) with hdr. by rewrite Hdec.
Qed.

Lemma header_size receiver h n bytes pktLen : header_ok receiver h -> 1 <= n <= 4 -> 0 <= pktLen <= QuicInteger.kTwoByteLimit ->
  zlen ((first_byte h n :: middle h pktLen) ++ be_bytes (Z.to_nat n) bytes) <= header_space h n.
Proof.
  intros Hok Hn Hp. assert (Hbe : zlen (be_bytes (Z.to_nat n) bytes) = n) by (unfold zlen; rewrite length_be_bytes; lia). rewrite zlen_app, Hbe, QuicInteger.zlen_cons.
  destruct h as [h|h]; cbn [middle header_space]; [|lia]. unfold long_size. rewrite long_bytes_length, !zlen_app, invariant_bytes_size.
  assert (Hi : zlen (int_bytes pktLen) <= 2).
  { unfold QuicInteger.kTwoByteLimit in Hp. rewrite int_bytes_size by (apply fits_small; lia). unfold QuicInteger.kOneByteLimit, QuicInteger.kTwoByteLimit. zcases; lia. }
  destruct Hok as [_ Hr]. unfold kMaxPacketLenSize. destruct (longHeaderType_ h); try done; lia.
Qed.

(** C6. A packet is received as it was sent.  A packet of any kind but Retry, with any sequence
    of frames that can be read back (see below), becomes a datagram of at most
    [udpSendPacketLen] bytes;
    with no frames, nothing is sent.  A receiver that has the keys of the packet, and has not
    fallen too far behind its number, removes the protection, decrypts it and reads the same
    header with the full number and exactly the frames that were written, up to padding.
    Packets behind it in the datagram are left alone, and the keys are those of the phase the
    packet belongs to.

    The frames are those of the schedulers, with numbers of at most 62 bits and within the
    limits of the reader, less three kinds that the writers write and a receiver does not
    read back: a frame of a stream group that fills the packet, so that it has no length
    ([group_frame_unreadable]); a CONNECTION_CLOSE that names a frame type of more than one
    byte ([close_frame_unreadable]); an ACK_ECN frame without space for its counts
    ([ack_ecn_overruns]).  Times of received packets are sent only by an endpoint that has
    received one.  A datagram has at most 16383 bytes, with five for frames, and the cipher
    adds at least the 16 bytes that header protection samples. *)
Theorem quic_datagram_roundtrip c acks now dstConnIdSize h la udpSendPacketLen aead hc ws :
  header_ok (nodeType_ c) h -> ready c acks now dstConnIdSize h la aead hc ->
  kSampleSize <= getCipherOverhead aead <= 255 -> udpSendPacketLen <= QuicInteger.kTwoByteLimit -> 5 <= room h la udpSendPacketLen aead ->
  writes_ok (header_form h) (params_ c) ws (frame_space h la udpSendPacketLen aead) ->
  exists d fs, sendPacket h la udpSendPacketLen aead hc ws = inr (d, fs) /\
    match d with
    | None => fs = []
    | Some datagram =>
        zlen datagram <= udpSendPacketLen /\
        exists k received, forget <$> received = forget <$> foldl push_frame [] (fs ++ replicate k (PaddingFrame 1)) /\
          forall rest, arrives c h datagram rest ->
            parsePacket c acks now dstConnIdSize (datagram ++ rest) = (Result (RegularPacket h received), codec_after c h, rest)
    end.
Proof.
  intros Hok Hr Hov Hudp Hroom Hw. destruct (ready_number _ _ _ _ _ _ _ _ Hr) as (bytes & n & Henc & Hn & Hnl). set (ov := getCipherOverhead aead) in *.
  unfold room, frame_space, room in *. rewrite Hnl in *. fold ov in Hroom, Hw. pose proof (header_space_nonneg h n ltac:(lia)) as Hsp. unfold kSampleSize in Hov.
  assert (H14 : QuicInteger.kTwoByteLimit < 2 ^ 32) by done. set (b0 := mkBuilder (isShort h) (udpSendPacketLen - ov - header_space h n) [] [] true) in *.
  unfold sendPacket. fold ov. rewrite (encodePacketHeader_ok (nodeType_ c) h la udpSendPacketLen ov bytes n), W_bind_inr by (done || lia).
  destruct (payload_roundtrip (header_form h) (params_ c) ws b0 n ov) as (f & fs & f' & k & received & E1 & E2 & _ & Hspace & Hrem & Hbytes & Hrec & Hdec & Hforget & Hlong); try done; [|lia|].
  { split_and!; try done. unfold is_u32. cbn [b0 remainingBytes_]. lia. }
  cbn [frame_builder]. fold b0. rewrite E1, W_bind_inr. cbv iota beta. unfold with_frames. cbn [largestAckedPacketNum_ packet_header header_ packetNumberEncoding_ cipherOverhead_].
  unfold is_u32 in Hrem. cbn [b0 remainingBytes_] in Hspace, Hlong. unfold kMaxPacketNumEncodingSize, kSampleSize in Hlong.
  assert (Hfs : frames f = [] -> fs = []).
  { intros Hf. rewrite Hf in Hrec. apply Forall2_nil_inv_l in Hrec. destruct fs as [|x fs]; [done|]. exfalso. by apply (foldl_push_nonnil fs (push_frame [] x)). }
  assert (Hbody : frames f <> [] -> body_ f' <> []).
  { intros Hf Hb. rewrite Hb in Hdec. injection Hdec as <-. destruct fs as [|x fs]; [by apply Forall2_nil_inv_r in Hrec|]. symmetry in Hforget. apply fmap_nil_inv in Hforget.
    by apply (foldl_push_nonnil (fs ++ replicate k (PaddingFrame 1)) (push_frame [] x)) in Hforget. }
  assert (Hz : 0 <= zlen (body_ f')) by (unfold zlen; lia). rewrite (encryptPacket_ok (nodeType_ c) h la ov bytes n f f' aead hc) by (done || (apply fits_small; lia)).
  destruct (frames f) eqn:Ef; [exists None, fs; rewrite W_bind_inr; split; [done|by apply Hfs]|]. specialize (Hlong ltac:(done) ltac:(lia) ltac:(lia)).
  assert (Hnh : n <= header_space h n).
  { destruct h as [h|h]; cbn [header_space]; unfold long_size, kMaxPacketLenSize, zlen; [|lia]. destruct Hok as [_ Hnr]. destruct (longHeaderType_ h); try done; lia. }
  destruct (datagram_read c acks now dstConnIdSize h la aead hc bytes n (body_ f')) as (x & Hx & Hzx & Hread); try done; [fold ov; lia|]. fold ov in Hx, Hzx, Hread.
  rewrite Hx, W_bind_inr, W_bind_ret. eexists _, fs. split; [done|]. split.
  - rewrite zlen_app, Hzx, encrypt_length. fold ov. pose proof (header_size (nodeType_ c) h n bytes (n + zlen (body_ f') + ov) Hok Hn). lia.
  - exists k, received. split; [done|]. intros rest Hrest. rewrite (Hread rest Hrest). unfold decoded. by rewrite Hdec.
Qed.

End datagrams.

(** ** An example *)

(** The packet of [example_writes_ok] from a client to a server. *)
Definition exampleHeader : PacketHeader := HShort (mkShort 1000 KeyPhaseZero [1; 2; 3; 4; 5; 6; 7; 8]).
Definition exampleReceiver : QuicReadCodec := setOneRttHeaderCipher (Some 7) (setOneRttReadCipher (Some 42) (create Server)).
Definition exampleAcks : AckStates := mkAckStates None None (Some 990).

Lemma example_number_ok pn la expected : 0 <= la <= pn -> pn < 2 ^ 62 -> pn - la < 2 ^ 31 -> la <= expected < 2 ^ 62 -> expected - pn < 128 -> number_ok pn la expected.
Proof.
  intros H1 H2 H3 H4 H5. split_and!; try lia. intros bytes n E. destruct (encode_number pn la H1 H2 H3) as (m & Hm & _ & E'). rewrite E in E'. injection E' as _ ->.
  unfold PacketNumber.half_window. eapply Z.lt_le_trans; [exact H5|]. change 128 with (2 ^ 7). apply Z.pow_le_mono_r; lia.
Qed.

Lemma quic_datagram_roundtrip_witness :
  exists datagram fs, sendPacket exampleHeader 980 126 42 7 exampleWrites = inr (Some datagram, fs) /\ fs <> [] /\ zlen datagram <= 126 /\
    exists k received, forget <$> received = forget <$> foldl push_frame [] (fs ++ replicate k (PaddingFrame 1)) /\
      parsePacket exampleReceiver exampleAcks 0 8 datagram = (Result (RegularPacket exampleHeader received), exampleReceiver, []).
Proof.
  destruct (quic_datagram_roundtrip exampleReceiver exampleAcks 0 8 exampleHeader 980 126 42 7 exampleWrites) as (d & fs & E & H).
  - split; [split; [repeat constructor; unfold_ints; lia|done]|by left].
  - split_and!; try done. change (number_ok 1000 980 991). apply example_number_ok; lia.
  - by vm_compute.
  - by vm_compute.
  - by vm_compute.
  - exact example_writes_ok.
  - destruct d as [d|]; [|by vm_compute in E]. exists d, fs. split; [done|]. split; [intros ->; by vm_compute in E|]. destruct H as (Hz & k & received & Hf & Hr). split; [done|]. exists k, received. split; [done|].
    specialize (Hr [] (conj eq_refl eq_refl)). by rewrite app_nil_r in Hr.
Defined.

(** A Handshake packet with another packet behind it, which is left for the next call. *)
Definition exampleHandshake : PacketHeader := HLong (mkLong 3 THandshake (mkInvariant 1 [9; 9] [1; 2; 3; 4; 5; 6; 7; 8]) []).

Example handshake_coalesced :
  let c := setHandshakeHeaderCipher (Some 7) (setHandshakeReadCipher (Some 42) (create Server)) in
  match sendPacket exampleHandshake 0 1232 42 7 [CryptoData 0 (replicate 30 5); Control (WMaxDataFrame 70000)] with
  | inr (Some d, fs) =>
      let '(r, _, q) := parsePacket c (mkAckStates None (Some (Some 2)) None) 0 8 (d ++ [0xe0; 1; 2]) in
      r = Result (RegularPacket exampleHandshake fs) /\ q = [0xe0; 1; 2]
  | _ => False
  end.
Proof. by vm_compute. Qed.

End QuicDatagrams.
