(* ===== verification/QuicReading.v ===== *)
(** * Reading any datagram

    Whatever arrives, the reader of packets returns a result or throws one of the errors that
    its callers handle, and it gets on with the datagram. *)

From S2P Require Import Prelude QuicInteger QuicFrames QuicFrameWriter QuicPackets QuicHeaders QuicReadCodec QuicProtection.

Module QuicReading.
Import QuicFrames QuicFrameWriter QuicPackets QuicHeaders QuicReadCodec QuicProtection.

(** ** Parsers that stay within the cursor *)

Definition safe {A} (p : parser TransportErrorCode A) (Q : A -> list Z -> Prop) (c : list Z) : Prop :=
  match p c with POk a r => (exists pre, c = pre ++ r) /\ Q a r | PErr _ => True | PThrow | PLoop => False end.

Lemma cursor_safe_bind {A B} (p : parser TransportErrorCode A) (k : A -> parser TransportErrorCode B) Q c : safe p (fun a r => safe (k a) Q r) c -> safe (p ≫= k) Q c.
Proof.
  unfold safe, mbind, parser_bind. destruct (p c) as [a r| | |]; try done. intros [[pre ->] Hk]. destruct (k a r) as [b r'| | |]; try done.
  destruct Hk as [[pre' ->] HQ]. split; [|done]. exists (pre ++ pre'). by rewrite app_assoc.
Qed.

Lemma cursor_safe_ret {A} (a : A) (Q : A -> list Z -> Prop) c : Q a c -> safe (mret a) Q c.
Proof. intros H. split; [by exists []|done]. Qed.

Lemma safe_check e b (Q : () -> list Z -> Prop) c : (b = true -> Q () c) -> safe (hcheck e b) Q c.
Proof. unfold safe, hcheck. destruct b; [|done]. intros H. split; [by exists []|by apply H]. Qed.

Lemma safe_required n (Q : () -> list Z -> Prop) c : (n <= zlen c -> Q () c) -> safe (required n) Q c.
Proof.
  intros H. unfold safe, required, canAdvance, mbind, parser_bind, hcheck. destruct (Z.leb_spec n (zlen c)); [|done]. split; [by exists []|by apply H].
Qed.

Lemma safe_remaining (Q : Z -> list Z -> Prop) c : Q (zlen c) c -> safe remaining Q c.
Proof. intros H. split; [by exists []|done]. Qed.

Lemma safe_readBE n (Q : Z -> list Z -> Prop) c : bytes_ok c -> Z.of_nat n <= zlen c ->
  (forall v r, 0 <= v < 2 ^ (8 * Z.of_nat n) -> bytes_ok r -> zlen r = zlen c - Z.of_nat n -> Q v r) -> safe (readBE n) Q c.
Proof.
  intros Hc Hn HQ. unfold safe. destruct (readBE (E:=TransportErrorCode) n c) as [v r| | |] eqn:E.
  - destruct (readBE_ok n c v r Hc E) as (-> & Hv & Hr). split; [by eexists|]. apply HQ; try done. rewrite zlen_app. unfold zlen. rewrite length_be_bytes. lia.
  - done.
  - unfold readBE in E. unfold zlen in Hn. by rewrite decide_False in E by lia.
  - unfold readBE in E. by case_decide.
Qed.

Lemma safe_readBytes n (Q : list Z -> list Z -> Prop) c : bytes_ok c -> 0 <= n <= zlen c ->
  (forall bs r, c = bs ++ r -> zlen bs = n -> bytes_ok r -> Q bs r) -> safe (readBytes n) Q c.
Proof.
  intros Hc Hn HQ. unfold safe, readBytes, ptake. unfold zlen in Hn. rewrite decide_False by lia. split; [exists (take (Z.to_nat n) c); by rewrite take_drop|].
  apply HQ; [by rewrite take_drop|unfold zlen; rewrite length_take; lia|by apply Forall_drop].
Qed.

Lemma safe_hinteger (Q : Z * Z -> list Z -> Prop) c : bytes_ok c ->
  (forall v n r, 0 <= v <= QuicInteger.kEightByteLimit -> bytes_ok r -> zlen r < zlen c -> Q (v, n) r) -> safe hinteger Q c.
Proof.
  intros Hc HQ. unfold safe, hinteger. destruct (QuicInteger.decodeQuicInteger c 8) as [[[v n] r]|] eqn:E; [|done].
  apply QuicInteger.decode_some in E as (Hv & Hn & _ & Hz & Hr & (p & -> & _) & _); [|done|lia]. split; [by eexists|]. apply HQ; [done|done|lia].
Qed.

(** ** Headers *)

(** A connection id behind its length. *)
Lemma safe_connId {A} (k : list Z -> parser TransportErrorCode A) Q c : bytes_ok c ->
  (forall l r, bytes_ok r -> safe (k l) Q r) ->
  safe (required 1 ;; n ← readBE 1; hcheck PROTOCOL_VIOLATION (negb (n >? kMaxConnectionIdSize)) ;; required n ;; x ← readBytes n; k x) Q c.
Proof.
  intros Hc Hk. apply cursor_safe_bind, safe_required. intros H1. apply cursor_safe_bind, safe_readBE; [done|lia|]. intros n r Hn Hr _.
  apply cursor_safe_bind, safe_check. intros _. apply cursor_safe_bind, safe_required. intros H2. apply cursor_safe_bind, safe_readBytes; [done|lia|]. intros bs r' _ _ Hr'. by apply Hk.
Qed.

Lemma parseInvariant_safe b Q c : bytes_ok c -> (forall i r, initialByte i = b -> bytes_ok r -> Q i r) -> safe (parseLongHeaderInvariant b) Q c.
Proof.
  intros Hc HQ. apply cursor_safe_bind, safe_remaining. apply cursor_safe_bind, safe_required. intros H4. apply cursor_safe_bind, safe_readBE; [done|lia|]. intros v r _ Hr _.
  apply safe_connId; [done|]. intros dst r1 Hr1. apply safe_connId; [done|]. intros src r2 Hr2. apply cursor_safe_bind, safe_remaining, cursor_safe_ret. by apply HQ.
Qed.

(** What is known of a header that was accepted: of a Retry packet the tag is left, of
    another there is as much as its length says. *)
Definition accepted (type : Types) (p : ParsedLongHeader) (r : list Z) : Prop :=
  longHeaderType_ (header p) = type /\ bytes_ok r /\
  if bool_decide (type = TRetry) then zlen r = kRetryIntegrityTagLen else 0 <= packetLength (packet_length p) <= zlen r.

Lemma parseVariants_safe type i nodeType c : bytes_ok c -> safe (parseLongHeaderVariants type i nodeType) (accepted type) c.
Proof.
  intros Hc. unfold parseLongHeaderVariants, accepted. destruct (bool_decide (type = TRetry)) eqn:Et.
  - apply cursor_safe_bind, safe_remaining. apply cursor_safe_bind, safe_check. intros Hle. apply cursor_safe_bind, safe_readBytes; [done| |].
    { apply negb_true_iff, Z.leb_gt in Hle. unfold kRetryIntegrityTagLen in *. lia. }
    intros bs r -> Hz Hr. apply cursor_safe_ret. split_and!; try done. rewrite zlen_app in Hz. lia.
  - apply cursor_safe_bind, safe_check. intros _. apply cursor_safe_bind.
    assert (Hrest : forall token r, bytes_ok r -> safe ('(pktLen, pktLenSize) ← hinteger; required pktLen ;; required (parsePacketNumberLength (initialByte i)) ;;
      hcheck FRAME_ENCODING_ERROR (negb (parsePacketNumberLength (initialByte i) >? kMaxPacketNumEncodingSize)) ;;
      mret (mkParsedLong (read_long type (invariant i) token) (mkPacketLength pktLen pktLenSize)))
      (fun p r => longHeaderType_ (header p) = type /\ bytes_ok r /\ 0 <= packetLength (packet_length p) <= zlen r) r).
    { intros token r Hr. apply cursor_safe_bind, safe_hinteger; [done|]. intros v n r' Hv Hr' _. apply cursor_safe_bind, safe_required. intros Hle. apply cursor_safe_bind, safe_required. intros _.
      apply cursor_safe_bind, safe_check. intros _. apply cursor_safe_ret. split_and!; (done || simpl; lia). }
    destruct (bool_decide (type = TInitial)); [|apply cursor_safe_ret; by apply Hrest].
    apply cursor_safe_bind, safe_hinteger; [done|]. intros v n r Hv Hr _. apply cursor_safe_bind, safe_required. intros Hle. destruct (v >? 0); [|apply cursor_safe_ret; by apply Hrest].
    apply safe_readBytes; [done|lia|]. intros bs r' _ _ Hr'. by apply Hrest.
Qed.

Lemma safe_shrinks {A} (p : parser TransportErrorCode A) (Q Q' : A -> list Z -> Prop) c :
  safe p Q c -> (forall a r, zlen r <= zlen c -> Q a r -> Q' a r) -> safe p Q' c.
Proof.
  unfold safe. destruct (p c) as [a r| | |]; try done. intros [[pre ->] HQ] H. split; [by eexists|]. apply H; [|done]. rewrite zlen_app. unfold zlen. lia.
Qed.

Lemma tryParse_safe nodeType c : bytes_ok c ->
  safe (tryParseLongHeader nodeType) (fun p r => zlen r < zlen c /\ accepted (longHeaderType_ (header p)) p r) c.
Proof.
  intros Hc. apply cursor_safe_bind. unfold safe at 1, canAdvance. split; [by exists []|]. apply cursor_safe_bind, safe_check. intros H1%Z.leb_le.
  apply cursor_safe_bind, safe_readBE; [done|lia|]. intros b r Hb Hr Hz.
  apply (safe_shrinks _ (fun p r' => accepted (longHeaderType_ (header p)) p r')); [|intros p r' Hle Ha; split; [lia|exact Ha]].
  apply cursor_safe_bind, parseInvariant_safe; [done|]. intros i r1 <- Hr1. apply cursor_safe_bind, safe_check. intros _.
  eapply safe_shrinks; [by apply parseVariants_safe|]. intros p r' _ Ha. pose proof Ha as [E _]. by rewrite E.
Qed.

Lemma parseShort_safe b n c : bytes_ok c -> 0 <= n -> safe (parseShortHeader b n) (fun h _ => protectionType_ h = KeyPhaseZero \/ protectionType_ h = KeyPhaseOne) c.
Proof.
  intros Hc Hn. do 3 (apply cursor_safe_bind, safe_check; intros _). apply cursor_safe_bind. unfold safe, as_error.
  assert (Hs : safe (parseShortHeaderInvariants b n) (fun _ _ => True) c).
  { do 2 (apply cursor_safe_bind, safe_check; intros _). apply cursor_safe_bind, safe_required. intros Hle. by apply safe_readBytes. }
  unfold safe in Hs. destruct (parseShortHeaderInvariants b n c) as [l r| | |]; try done. split; [apply Hs|]. split; [by exists []|]. simpl. destruct (truth _); auto.
Qed.

(** ** Removing protection *)

Section reading.
Context `{C : Crypto} `{CL : !CryptoLaws C}.

Lemma decodePacketNumber_some bytes n e : n <= 4 -> exists pn, PacketNumber.decodePacketNumber bytes n e = Some pn.
Proof. intros Hn. unfold PacketNumber.decodePacketNumber. rewrite (proj2 (Z.leb_le n 4)) by lia. cbv zeta. repeat case_match; by eexists. Qed.

(** Four bytes of number are enough to unmask the header and to find the number. *)
Lemma decryptHeader_some f hc sample b bytes expected : is_u8 b -> bytes_ok bytes -> zlen bytes = 4 ->
  exists b' bytes' pn n, decryptHeader f hc sample b bytes = Some (b', bytes') /\ is_u8 b' /\ bytes_ok bytes' /\ zlen bytes' = 4 /\
    parsePacketNumber b' bytes' expected = Some (pn, n) /\ 1 <= n <= 4.
Proof.
  intros Hb Hbs Hz. unfold decryptHeader, decipherHeader. rewrite Hz. change (4 =? kMaxPacketNumEncodingSize) with true. cbv iota.
  set (m := mask hc sample). pose proof (mask_bytes hc sample) as Hm. pose proof (mask_length hc sample) as Hml. fold m in Hm, Hml.
  assert (Hx : is_u8 (Z.land (hd 0 m) (form_mask f))).
  { destruct m as [|x m]; [done|]. inversion Hm as [|? ? Hx ?]; subst. simpl. destruct f; simpl; unfold long_kTypeBitsMask, short_kTypeBitsMask.
    - rewrite (land_mask x 15 4) by done. pose proof (Z.mod_pos_bound x (2 ^ 4)). unfold_ints. lia.
    - rewrite (land_mask x 31 5) by done. pose proof (Z.mod_pos_bound x (2 ^ 5)). unfold_ints. lia. }
  set (b' := Z.lxor b _). assert (Hb' : is_u8 b') by (by apply lxor_byte). pose proof (parsePacketNumberLength_range b' (proj1 Hb')) as Hn.
  set (n := parsePacketNumberLength b') in *. assert (Hl : zlen (maskBytes n bytes m) = 4).
  { unfold maskBytes, zlen in *. rewrite length_app, length_zip_with, length_take, !length_drop. lia. }
  destruct (decodePacketNumber_some (be_value (take (Z.to_nat n) (maskBytes n bytes m))) n expected) as [pn Hpn]; [lia|].
  exists b', (maskBytes n bytes m), pn, n. split_and!; try done; try lia.
  - by apply maskBytes_ok.
  - unfold parsePacketNumber. fold n. rewrite Hl. destruct (Z.ltb_spec 4 n); [lia|]. by rewrite Hpn.
Qed.

Lemma unprotect_ok offset b bytes data : is_u8 b -> bytes_ok bytes -> bytes_ok data -> bytes_ok (unprotect offset b bytes data).
Proof. intros Hb Hbs Hd. constructor; [done|]. repeat (apply Forall_app; split); [by apply Forall_take, Forall_drop|done|by apply Forall_drop]. Qed.

(** A result, or an exception that is handled: a transport error, or the internal error that
    [internal] allows. *)
Definition handled (internal : Prop) (r : Outcome) : Prop := match r with Crash => False | ThrowsInternal => internal | _ => True end.

Lemma decoded_handled i f h params p : bytes_ok p -> handled i (decoded f h params p).
Proof. intros Hp. unfold decoded. by destruct (payload_total f params p Hp) as [(fs & -> & _)|[t ->]]. Qed.

Lemma hd_byte (q : list Z) : bytes_ok q -> is_u8 (hd 0 q).
Proof. intros Hq. destruct q; [done|]. by inversion Hq. Qed.

Lemma number_field offset data : bytes_ok data -> 0 <= offset -> offset + 4 <= zlen data ->
  bytes_ok (take 4 (drop (Z.to_nat offset) data)) /\ zlen (take 4 (drop (Z.to_nat offset) data)) = 4.
Proof. intros Hd Ho Hl. split; [by apply Forall_take, Forall_drop|]. unfold zlen in *. rewrite length_take, length_drop. lia. Qed.

(** The acknowledgement states that the keys need are there. *)
Definition acks_ok (c : QuicReadCodec) (acks : AckStates) : Prop :=
  (initialHeaderCipher_ c <> None -> initialAckState acks <> None) /\ (handshakeHeaderCipher_ c <> None -> handshakeAckState acks <> None).

Lemma readLong_handled c acks now h offset pktLen data : acks_ok c acks -> bytes_ok data -> 0 <= offset -> offset + 4 <= zlen data ->
  handled False (readLongPacket c acks now h offset pktLen data).
Proof.
  intros [Hi Hh] Hd Ho Hl. unfold readLongPacket. set (t := longHeaderTypeToProtectionType (longHeaderType_ h)).
  destruct (longCiphers c now t) as [[[hc|] [a|]]|] eqn:Ec; try done.
  destruct (largestRecvdPacketNum acks t) as [largest|] eqn:El.
  2: { unfold longCiphers in Ec. unfold largestRecvdPacketNum in El. destruct t; try done.
       - destruct (initialHeaderCipher_ c); [by apply Hi|done].
       - injection Ec as Ec _. by apply Hh; [rewrite Ec|]. }
  change (Z.to_nat kMaxPacketNumEncodingSize) with 4%nat. destruct (number_field offset data Hd Ho Hl) as [Hf Hfl].
  destruct (decryptHeader_some Long hc (take 16 (drop (Z.to_nat (offset + kMaxPacketNumEncodingSize)) data)) (hd 0 data) _ (expectedNext largest) (hd_byte _ Hd) Hf Hfl)
    as (b' & bytes' & pn & n & -> & Hb' & Hbs' & _ & -> & _).
  destruct (tryDecrypt _ _ _ _) eqn:Edec; [|done]. apply decoded_handled. eapply decrypt_bytes; [|exact Edec]. by apply Forall_take, Forall_drop, unprotect_ok.
Qed.

Lemma parseLong_total c acks now q : acks_ok c acks -> bytes_ok q -> q <> [] ->
  let '(r, q') := parseLongHeaderPacket c acks now q in handled False r /\ zlen q' < zlen q /\ (q' = [] \/ exists pre, q = pre ++ q').
Proof.
  intros Ha Hq Hne. assert (Hz : 0 < zlen q) by (destruct q; [done|unfold zlen; simpl; lia]). unfold parseLongHeaderPacket.
  pose proof (tryParse_safe (nodeType_ c) q Hq) as Hs. unfold safe in Hs. destruct (tryParseLongHeader (nodeType_ c) q) as [p cur| | |]; try done;
    [|split_and!; try done; by left].
  destruct Hs as [[pre ->] [Hlt (_ & Hcur & Hacc)]]. rewrite zlen_app in *. assert (0 <= zlen pre /\ 0 <= zlen cur) by (unfold zlen; lia).
  destruct (bool_decide (longHeaderType_ (header p) = TRetry)).
  - assert (E : readBytes (E:=TransportErrorCode) kRetryIntegrityTagLen cur = POk cur []) by (rewrite <- (app_nil_r cur) at 1; by apply readBytes_app). rewrite E.
    split_and!; try done; by left.
  - replace (zlen pre + zlen cur - zlen cur) with (zlen pre) by lia. set (len := u64 (zlen pre + packetLength (packet_length p))).
    destruct (Z.ltb_spec (zlen pre + zlen cur) len); [split_and!; try done; by left|].
    set (data := take (Z.to_nat len) (pre ++ cur)). destruct (Z.ltb_spec (zlen data - zlen pre) kMaxPacketNumEncodingSize); [split_and!; try done; by left|].
    destruct (Z.ltb_spec (zlen data - zlen pre - kMaxPacketNumEncodingSize) kSampleSize); [split_and!; try done; by left|].
    assert (Hdata : bytes_ok data) by (by apply Forall_take). assert (Hu : 0 <= len) by (unfold len; apply Z.mod_pos_bound; lia).
    assert (Hzd : zlen data = len) by (unfold data, zlen in *; rewrite length_take, length_app; lia). unfold kMaxPacketNumEncodingSize in *.
    pose proof (readLong_handled c acks now (header p) (zlen pre) (packetLength (packet_length p)) data Ha Hdata ltac:(lia) ltac:(lia)) as Hh. split_and!; [done| |].
    + unfold zlen in *. rewrite length_drop, length_app. lia.
    + right. exists data. unfold data. by rewrite take_drop.
Qed.

(** The state changes only with a packet with a short header that was decrypted. *)
Definition keys_kept (r : Outcome) (c c' : QuicReadCodec) : Prop :=
  match r with Result (RegularPacket (HShort _) _) | ThrowsTransport _ => True | _ => c' = c end.

Lemma decoded_keys_kept h params p c c' : bytes_ok p -> keys_kept (decoded Short (HShort h) params p) c c'.
Proof. intros Hp. unfold decoded. by destruct (payload_total Short params p Hp) as [(fs & -> & _)|[t ->]]. Qed.

Lemma parseShort_total c acks n hc q : bytes_ok q -> 0 <= n ->
  let '(r, c') := tryParseShortHeaderPacket c acks n hc q in handled False r /\ keys_kept r c c'.
Proof.
  intros Hq Hn. unfold tryParseShortHeaderPacket. destruct (Z.ltb_spec (zlen q) (1 + n + kMaxPacketNumEncodingSize + kSampleSize)) as [|Hge]; [done|].
  unfold kMaxPacketNumEncodingSize, kSampleSize in Hge. change (Z.to_nat kMaxPacketNumEncodingSize) with 4%nat.
  destruct (number_field (1 + n) q Hq ltac:(lia) ltac:(lia)) as [Hf Hfl].
  destruct (decryptHeader_some Short hc (take (Z.to_nat kSampleSize) (drop (Z.to_nat (1 + n + kMaxPacketNumEncodingSize)) q)) (hd 0 q) _
    (expectedNext (appDataAckState acks)) (hd_byte _ Hq) Hf Hfl) as (b' & bytes' & pn & len & -> & Hb' & Hbs' & _ & -> & _).
  pose proof (unprotect_ok (1 + n) b' bytes' q Hb' Hbs' Hq) as Hu. set (data := unprotect _ _ _ _) in *.
  assert (Hs : safe (parseShortHeader b' n) (fun h _ => protectionType_ h = KeyPhaseZero \/ protectionType_ h = KeyPhaseOne) (drop 1 data)) by (apply parseShort_safe; [by apply Forall_drop|done]).
  unfold safe in Hs. destruct (parseShortHeader b' n (drop 1 data)) as [h r| | |]; try done.
  destruct (slotCipher _ _); [|done]. destruct (tryDecrypt _ _ _ _) as [p|] eqn:Edec; [|done].
  assert (Hp : bytes_ok p) by (eapply decrypt_bytes; [|exact Edec]; by apply Forall_drop). split; [by apply decoded_handled|by apply decoded_keys_kept].
Qed.

(** C7. Any datagram is survived.  Whatever bytes arrive, whatever keys the reader has,
    [parsePacket] returns a result or throws: the transport error of a payload that cannot be
    decoded, or the internal error of a client that was given a reset token but no function
    to compare it with.  No check fails, nothing is read outside the packet, and no missing
    pointer is used, as long as there are acknowledgement states for the keys.  It takes at
    least one byte off the datagram, so that a loop over coalesced packets ends, and what is
    left is the end of the datagram.  Only a packet that was decrypted changes the keys. *)
Theorem quic_read_total c acks now dstConnIdSize q : acks_ok c acks -> bytes_ok q -> q <> [] -> 0 <= dstConnIdSize ->
  let '(r, c', q') := parsePacket c acks now dstConnIdSize q in
  handled (nodeType_ c = Client /\ statelessResetToken_ c <> None /\ cryptoEqual_ c = None) r /\ keys_kept r c c' /\
  zlen q' < zlen q /\ (q' = [] \/ exists pre, q = pre ++ q').
Proof.
  intros Ha Hq Hne Hn. assert (Hz : 0 < zlen q) by (destruct q; [done|unfold zlen; simpl; lia]). unfold parsePacket. destruct q as [|b q]; [done|].
  destruct (getHeaderForm b).
  - pose proof (parseLong_total c acks now (b :: q) Ha Hq Hne) as Hl. destruct (parseLongHeaderPacket c acks now (b :: q)) as [r q']. destruct Hl as (H1 & H2 & H3).
    split_and!; try done; [by destruct r|]. unfold keys_kept. by repeat case_match.
  - assert (Hend : forall r c', handled (nodeType_ c = Client /\ statelessResetToken_ c <> None /\ cryptoEqual_ c = None) r -> keys_kept r c c' ->
      handled (nodeType_ c = Client /\ statelessResetToken_ c <> None /\ cryptoEqual_ c = None) r /\ keys_kept r c c' /\
      zlen (@nil Z) < zlen (b :: q) /\ (@nil Z = [] \/ exists pre, b :: q = pre ++ [])) by (intros; split_and!; try done; by left).
    destruct (currentOneRttReadCipher_ c), (oneRttHeaderCipher_ c) as [hc|]; try (by apply Hend).
    destruct (resetToken c (b :: q)) as [r|[]] eqn:Er.
    + apply Hend; unfold resetToken in Er; repeat case_match; simplify_eq; done.
    + pose proof (parseShort_total c acks dstConnIdSize hc (b :: q) Hq Hn) as Hs. destruct (tryParseShortHeaderPacket _ _ _ _ _) as [r c']. destruct Hs as [H1 H2].
      apply Hend; [by destruct r|done].
Qed.
End reading.

(** An Initial packet of 34 bytes that no one sent, with 15 bytes behind it. *)
Definition garbageReader : QuicReadCodec := setInitialHeaderCipher (Some 3) (setInitialReadCipher (Some 4) (create Client)).
Definition garbageAcks : AckStates := mkAckStates (Some None) None None.
Definition garbage : list Z := [0xc0; 0; 0; 0; 1; 0; 0; 0; 25] ++ replicate 40 7.

Lemma quic_read_total_witness :
  let '(r, c', q') := parsePacket garbageReader garbageAcks 0 8 garbage in
  r = Result Nothing /\ c' = garbageReader /\ q' = replicate 15 7 /\ zlen q' < zlen garbage /\ exists pre, garbage = pre ++ q'.
Proof.
  assert (E : let '(r, _, q') := parsePacket garbageReader garbageAcks 0 8 garbage in r = Result Nothing /\ q' = replicate 15 7) by (by vm_compute).
  assert (Hb : bytes_ok garbage) by (repeat constructor; unfold_ints; lia).
  pose proof (quic_read_total garbageReader garbageAcks 0 8 garbage ltac:(done) Hb ltac:(done) ltac:(done)) as H.
  destruct (parsePacket garbageReader garbageAcks 0 8 garbage) as [[r c'] q']. destruct E as [-> ->]. destruct H as (_ & Hk & Hz & [Hn|Hp]); [done|]. by split_and!.
Defined.

End QuicReading.
