(* ===== verification/QuicKeys.v ===== *)
(** * QUIC key updates: reader and writer stay in step

    Packets with a short header are protected with a key that both sides replace from time to
    time; a packet says only whether the generation of its key is even or odd.  The reader
    keeps the keys of three generations.  Here the peer may change its key at any packet, the
    network delivers its packets in any order, and the reader may start an update itself. *)

From S2P Require Import Prelude QuicInteger QuicFrames QuicFrameWriter QuicHeaders QuicReadCodec QuicPacketWriter QuicProtection QuicDatagrams.

Module QuicKeys.
Import QuicFrames QuicFrameWriter QuicHeaders QuicReadCodec QuicPacketWriter QuicProtection QuicDatagrams.

Section keys.
Context `{C : Crypto} `{CL : !CryptoLaws C}.

(** The keys of the generations, and the generation with which the peer protects the packet
    of a number. *)
Variables (key : Z -> Aead) (headerCipher : HeaderCipher) (generation : Z -> Z).

Definition kMaxGeneration : Z := 2 ^ 62.

(** A packet is authentic: another key does not decrypt it. *)
Definition keys_differ : Prop := forall i j p d n, 0 <= i < kMaxGeneration -> 0 <= j < kMaxGeneration -> i <> j ->
  tryDecrypt (key i) (inplaceEncrypt (key j) p d n) d n = None.

(** The generation does not decrease with the numbers. *)
Definition generations_ok : Prop := (forall a b, 0 <= a <= b -> generation a <= generation b) /\ forall n, 0 <= n -> 0 <= generation n < kMaxGeneration - 2.

Definition phase (g : Z) : ProtectionType := if Z.even g then KeyPhaseZero else KeyPhaseOne.

(** The reader is at generation [g]: its keys are those of the generations before, at and
    after [g], and the number at which it started is one of that generation. *)
Definition at_generation (c : QuicReadCodec) (g : Z) : Prop :=
  0 <= g /\ oneRttHeaderCipher_ c = Some headerCipher /\ currentOneRttReadCipher_ c = Some (key g) /\ currentOneRttReadPhase_ c = phase g /\
  (nextOneRttReadCipher_ c = None \/ nextOneRttReadCipher_ c = Some (key (g + 1))) /\
  (previousOneRttReadCipher_ c = None \/ 0 < g /\ previousOneRttReadCipher_ c = Some (key (g - 1))) /\
  match currentOneRttReadPhaseStartPacketNum_ c with
  | Some s => 0 <= s /\ generation s = g
  | None => exists s, 0 <= s /\ generation s = g - 1
  end.

Definition present {A} (x : option A) : bool := match x with Some _ => true | None => false end.

(** The generations whose packets the reader can decrypt: its own, the one before if it has
    the key, and the one after if it has the key and no update of its own is pending. *)
Definition decryptable (c : QuicReadCodec) (g j : Z) : bool :=
  (j =? g) || (j =? g + 1) && present (nextOneRttReadCipher_ c) && present (currentOneRttReadPhaseStartPacketNum_ c) ||
  (j =? g - 1) && present (previousOneRttReadCipher_ c).

(** ** A packet of the peer *)

Record Sent := mkSent { number : Z; largestAcked : Z; connId : list Z; payload : list Z }.

Definition sent_header (p : Sent) : ShortHeader := mkShort (number p) (phase (generation (number p))) (connId p).

(** Its bytes, as [QuicPacketWriter] writes them. *)
Definition sent_bytes (p : Sent) : list Z * list Z :=
  match PacketNumber.encodePacketNumber (number p) (largestAcked p) with
  | Some (bytes, n) =>
      let hdr := (first_byte (HShort (sent_header p)) n :: connId p) ++ be_bytes (Z.to_nat n) bytes in
      (hdr, inplaceEncrypt (key (generation (number p))) (payload p) hdr (number p))
  | None => ([], [])
  end.

Definition datagram (p : Sent) : W (list Z) :=
  let '(hdr, e) := sent_bytes p in
  x ← encryptPacketHeader Short hdr e headerCipher;
  mret (x ++ e).

(** The receiver of the packet. *)
Definition receivable (c : QuicReadCodec) (acks : AckStates) (p : Sent) (d : list Z) : Prop :=
  datagram p = inr d /\ connId_ok (connId p) /\ number_ok (number p) (largestAcked p) (expectedNext (appDataAckState acks)) /\
  19 <= zlen (payload p) + getCipherOverhead (key (generation (number p))) /\ resetToken c d = inr ().

(** What is said of a packet: its frames, or that it cannot be read. *)
Definition verdict (c : QuicReadCodec) (g : Z) (p : Sent) (r : Outcome) : Prop :=
  if decryptable c g (generation (number p)) then r = decoded Short (HShort (sent_header p)) (params_ c) (payload p)
  else r = Result Nothing \/ exists d t, r = Result (CipherUnavailable d t).

Lemma phase_ok g : phase g = KeyPhaseZero \/ phase g = KeyPhaseOne.
Proof. unfold phase. destruct (Z.even g); auto. Qed.

Lemma phase_succ g : phase (g + 1) <> phase g.
Proof. unfold phase. rewrite Z.even_add. by destruct (Z.even g). Qed.

Lemma phase_other g : otherPhase (phase g) = phase (g + 1).
Proof. unfold otherPhase, phase. rewrite Z.even_add. by destruct (Z.even g). Qed.

Hypotheses (Hkeys : keys_differ) (Hgen : generations_ok).

Lemma slot_of c g n : at_generation c g -> 0 <= n -> let j := generation n in
  match oneRttSlot c (phase j) n with
  | Current => phase j = phase g
  | Previous => phase j <> phase g /\ (currentOneRttReadPhaseStartPacketNum_ c = None \/ j <= g)
  | Next => phase j <> phase g /\ g <= j /\ currentOneRttReadPhaseStartPacketNum_ c <> None
  end.
Proof.
  intros (_ & _ & _ & Hp & _ & _ & Hs) Hn j. destruct Hgen as [Hmono _]. unfold oneRttSlot. rewrite Hp. case_bool_decide as E; [done|].
  destruct (currentOneRttReadPhaseStartPacketNum_ c) as [s|]; [|by auto]. destruct Hs as [Hs0 Hs]. destruct (Z.ltb_spec n s).
  - split; [done|]. right. rewrite <- Hs. apply Hmono. lia.
  - split_and!; try done. rewrite <- Hs. apply Hmono. lia.
Qed.

Lemma at_start c g s : at_generation c g -> 0 <= s -> generation s = g ->
  at_generation (set_oneRtt (previousOneRttReadCipher_ c) (currentOneRttReadCipher_ c) (nextOneRttReadCipher_ c) (currentOneRttReadPhase_ c) (Some s) c) g.
Proof. intros (H1 & H2 & H3 & H4 & H5 & H6 & _) Hs Hg. by split_and!. Qed.

(** A packet that is decrypted leaves the reader at a generation, a later one if the packet
    is of a later one. *)
Lemma onDecrypted_at c g n k : at_generation c g -> 0 <= n ->
  let j := generation n in let slot := oneRttSlot c (phase j) n in
  slotCipher c slot = Some k -> k = key j ->
  (slot = Current -> j = g) -> (slot = Next -> j = g + 1) -> at_generation (onDecrypted slot (phase j) n c) (match slot with Next => g + 1 | _ => g end).
Proof.
  intros Hc Hn j slot Hk -> Hcur Hnext. destruct slot.
  - unfold onDecrypted. by destruct (currentOneRttReadPhaseStartPacketNum_ c).
  - unfold onDecrypted. destruct (currentOneRttReadPhaseStartPacketNum_ c) eqn:E; [done|]. apply at_start; [done|done|]. by apply Hcur.
  - specialize (Hnext eq_refl). unfold onDecrypted. simpl in *. destruct Hc as (H1 & H2 & H3 & _). split_and!; simpl; try done; try lia.
    + by rewrite Hk, Hnext.
    + by rewrite Hnext.
    + by left.
    + right. split; [lia|]. rewrite H3. do 2 f_equal. lia.
Qed.

(** A key decrypts exactly the packets of its generation. *)
Lemma decrypt_generation i p hdr e : 0 <= i < kMaxGeneration -> 0 <= number p -> sent_bytes p = (hdr, e) -> hdr <> [] ->
  tryDecrypt (key i) e hdr (number p) = if i =? generation (number p) then Some (payload p) else None.
Proof.
  intros Hi Hn. unfold sent_bytes. destruct (PacketNumber.encodePacketNumber _ _) as [[bytes n]|]; [|by intros [= <- <-]].
  intros [= <- <-] _. destruct Hgen as [_ Hb]. specialize (Hb _ Hn). destruct (Z.eqb_spec i (generation (number p))) as [->|Hne].
  - apply decrypt_encrypt.
  - apply Hkeys; [done|lia|done].
Qed.

(** The reader's own generation is in range. *)
Lemma at_generation_range c g : at_generation c g -> 0 <= g < kMaxGeneration - 1.
Proof.
  intros (H0 & _ & _ & _ & _ & _ & Hs). destruct Hgen as [_ Hb].
  destruct (currentOneRttReadPhaseStartPacketNum_ c); [destruct Hs as [Hs1 Hs2]|destruct Hs as (s & Hs1 & Hs2)]; specialize (Hb _ Hs1); lia.
Qed.

(** The outcome of a packet, and where the reader is then. *)
Lemma short_outcome_verdict c g p hdr e : at_generation c g -> 0 <= number p -> sent_bytes p = (hdr, e) -> hdr <> [] ->
  let '(r, c') := short_outcome c (sent_header p) hdr e in
  verdict c g p r /\ exists g', at_generation c' g' /\ g <= g' <= g + 1.
Proof.
  intros Hc Hn Hb Hh. pose proof (at_generation_range c g Hc) as Hg. pose proof (slot_of c g (number p) Hc Hn) as Hslot. cbv zeta in Hslot.
  pose proof Hc as (_ & _ & Hcur & _ & Hnext & Hprev & Hs). set (j := generation (number p)) in *. unfold short_outcome. cbn [sent_header protectionType_ short_packetSequenceNum_]. fold j.
  pose proof (onDecrypted_at c g (number p)) as Hafter. cbv zeta in Hafter. fold j in Hafter. set (slot := oneRttSlot c (phase j) (number p)) in *.
  assert (Hstay : exists g', at_generation c g' /\ g <= g' <= g + 1) by (exists g; split; [done|lia]).
  assert (Hno : decryptable c g j = false -> verdict c g p (Result Nothing) /\ forall d t, verdict c g p (Result (CipherUnavailable d t))).
  { intros E. unfold verdict. fold j. rewrite E. split; [by left|]. intros d t. right. by exists d, t. }
  assert (Hp : 0 < g -> phase (g - 1) <> phase g) by (intros _; pose proof (phase_succ (g - 1)) as Hp; replace (g - 1 + 1) with g in Hp by lia; congruence).
  assert (Hd : j = g \/ j = g + 1 \/ j = g - 1 \/ decryptable c g j = false).
  { unfold decryptable. destruct (Z.eqb_spec j g), (Z.eqb_spec j (g + 1)), (Z.eqb_spec j (g - 1)); auto. }
  assert (Hyes : forall k, slotCipher c slot = Some k -> k = key j -> (slot = Current -> j = g) -> (slot = Next -> j = g + 1) -> decryptable c g j = true ->
    verdict c g p (decoded Short (HShort (sent_header p)) (params_ c) (payload p)) /\ exists g', at_generation (onDecrypted slot (phase j) (number p) c) g' /\ g <= g' <= g + 1).
  { intros k H1 H2 H3 H4 H5. split; [unfold verdict; fold j; by rewrite H5|]. exists (match slot with Next => g + 1 | _ => g end). split; [by apply (Hafter k)|]. clear. destruct slot; lia. }
  destruct slot; simpl in *.
  - destruct Hslot as [Hph Hle]. destruct (previousOneRttReadCipher_ c) as [k|] eqn:Ek.
    + destruct Hprev as [|[Hg0 [= ->]]]; [done|]. rewrite (decrypt_generation (g - 1) p hdr e) by (done || lia). fold j.
      destruct (Z.eqb_spec (g - 1) j) as [E|E]; [apply (Hyes (key (g - 1))); try done; [by rewrite E|unfold decryptable; rewrite Ek, <- E, Z.eqb_refl; by rewrite orb_true_r]|].
      split; [apply Hno|done]. destruct Hd as [->|[->|[->|Hd]]]; [done| |lia|done]. destruct Hle as [Hle|Hle]; [|lia].
      unfold decryptable. rewrite Hle, Ek. destruct (Z.eqb_spec (g + 1) g), (Z.eqb_spec (g + 1) (g - 1)); try lia. by rewrite andb_false_r.
    + split; [apply Hno|done]. destruct Hd as [->|[->|[->|Hd]]]; [done| | |done].
      * destruct Hle as [Hle|Hle]; [|lia]. unfold decryptable. rewrite Hle, Ek. destruct (Z.eqb_spec (g + 1) g), (Z.eqb_spec (g + 1) (g - 1)); try lia. by rewrite andb_false_r.
      * unfold decryptable. rewrite Ek. destruct (Z.eqb_spec (g - 1) g), (Z.eqb_spec (g - 1) (g + 1)); try lia. by rewrite andb_false_r.
  - rewrite Hcur, (decrypt_generation g p hdr e) by (done || lia). fold j. destruct (Z.eqb_spec g j) as [E|E].
    + apply (Hyes (key g)); try done; [by rewrite E|unfold decryptable; by rewrite E, Z.eqb_refl].
    + split; [apply Hno|done]. destruct Hd as [->|[Ej|[Ej|Hd]]]; [done|by destruct (phase_succ g); rewrite <- Ej| |done].
      destruct (Z.eq_dec g 0) as [->|]; [destruct Hgen as [_ Hb']; specialize (Hb' _ Hn); fold j in Hb'; lia|]. destruct Hp; [lia|by rewrite <- Ej].
  - destruct Hslot as (Hph & Hle & Hst). destruct (nextOneRttReadCipher_ c) as [k|] eqn:Ek.
    + destruct Hnext as [|[= ->]]; [done|]. rewrite (decrypt_generation (g + 1) p hdr e) by (done || lia). fold j. destruct (Z.eqb_spec (g + 1) j) as [E|E].
      * apply (Hyes (key (g + 1))); try done; [by rewrite E|]. unfold decryptable. rewrite Ek, <- E, Z.eqb_refl. destruct (currentOneRttReadPhaseStartPacketNum_ c); [|done]. by rewrite orb_true_r.
      * split; [apply Hno|done]. destruct Hd as [->|[->|[->|Hd]]]; [done|lia|lia|done].
    + split; [apply Hno|done]. destruct Hd as [->|[->|[->|Hd]]]; [done| |lia|done]. unfold decryptable. rewrite Ek.
      destruct (Z.eqb_spec (g + 1) g), (Z.eqb_spec (g + 1) (g - 1)); try lia. by rewrite andb_false_r.
Qed.

(** ** Histories *)

(** What happens at the reader: a packet arrives, in any order and any number of times; the
    transport provides the key of the next generation, or begins an update. *)
Inductive history : QuicReadCodec -> list (QuicReadCodec * Sent * Outcome) -> QuicReadCodec -> Prop :=
| history_nil c : history c [] c
| history_packet c acks now p d r c' q tr c'' :
    receivable c acks p d -> parsePacket c acks now (zlen (connId p)) d = (r, c', q) -> history c' tr c'' -> history c ((c, p, r) :: tr) c''
| history_next c g tr c' :
    at_generation c g -> history (setNextOneRttReadCipher (Some (key (g + 1))) c) tr c' -> history c tr c'
| history_advance c tr c' :
    history (snd (advanceOneRttReadPhase c)) tr c' -> history c tr c'.

Lemma receivable_bytes c acks p d : receivable c acks p d -> currentOneRttReadCipher_ c <> None -> oneRttHeaderCipher_ c = Some headerCipher ->
  exists hdr e, sent_bytes p = (hdr, e) /\ hdr <> [] /\ 0 <= number p /\
    forall now, parsePacket c acks now (zlen (connId p)) d = (let '(r, c') := short_outcome c (sent_header p) hdr e in (r, c', [])).
Proof.
  intros (Hd & Hid & Hnum & Hlen & Hreset) Hcur Hhc. destruct (number_roundtrip _ _ _ Hnum) as (bytes & n & Henc & Hn & _).
  assert (Hok : short_ok (sent_header p)) by (split; [done|apply phase_ok]). unfold datagram, sent_bytes in *. rewrite Henc in *.
  set (hdr := (first_byte (HShort (sent_header p)) n :: connId p) ++ be_bytes (Z.to_nat n) bytes) in *.
  set (e := inplaceEncrypt (key (generation (number p))) (payload p) hdr (number p)) in *.
  assert (Hze : zlen e = zlen (payload p) + getCipherOverhead (key (generation (number p)))) by apply encrypt_length.
  exists hdr, e. split; [done|]. split; [done|]. split; [destruct Hnum; lia|]. intros now.
  destruct (parseShort_ok c acks now (sent_header p) (largestAcked p) bytes n headerCipher e) as (x & Hx & _ & Hp); try done; [lia|].
  change ((first_byte (HShort (sent_header p)) n :: connectionId_ (sent_header p)) ++ be_bytes (Z.to_nat n) bytes) with hdr in Hx, Hp.
  rewrite Hx in Hd. injection Hd as <-. by apply Hp.
Qed.

Lemma at_generation_unique c g g' : at_generation c g -> at_generation c g' -> g = g'.
Proof.
  intros Hc Hc'. pose proof (at_generation_range c g Hc). pose proof (at_generation_range c g' Hc'). destruct Hc as (_ & _ & E & _), Hc' as (_ & _ & E' & _).
  destruct (Z.eq_dec g g') as [|Hn]; [done|]. pose proof (Hkeys g g' [] [] 0 ltac:(lia) ltac:(lia) Hn) as Hd. rewrite E in E'. injection E' as E'. rewrite E', decrypt_encrypt in Hd. done.
Qed.

Lemma next_at c g : at_generation c g -> at_generation (setNextOneRttReadCipher (Some (key (g + 1))) c) g.
Proof. intros (H1 & H2 & H3 & H4 & H5 & H6 & H7). split_and!; try done. by right. Qed.

Lemma advance_at c g : at_generation c g -> exists g', at_generation (snd (advanceOneRttReadPhase c)) g' /\ g <= g' <= g + 1.
Proof.
  intros Hc. pose proof Hc as (H1 & H2 & H3 & H4 & H5 & H6 & H7). unfold advanceOneRttReadPhase, canInitiateKeyUpdate.
  destruct (nextOneRttReadCipher_ c) eqn:En; [|exists g; split; [done|lia]]. destruct (currentOneRttReadPhaseStartPacketNum_ c) as [s|] eqn:Es; [|exists g; split; [done|lia]].
  exists (g + 1). split; [|lia]. simpl. destruct H5 as [|[= ->]]; [done|]. split_and!; simpl; try done; try lia.
  - by rewrite H4, phase_other.
  - by left.
  - right. split; [lia|]. rewrite H3. do 2 f_equal. lia.
  - exists s. destruct H7. split; [done|]. lia.
Qed.
End keys.

Section histories.
Context `{C : Crypto} `{CL : !CryptoLaws C}.

(** C8. Reader and writer of key updates stay in step.  The peer changes its key whenever it
    likes; its packets arrive in any order, late, repeatedly or not at all; the reader is
    given the next key at any time and starts updates of its own.  At every time the reader
    is at one generation and holds the keys of its neighbours only.  A packet is read, with
    its own frames and no others, exactly if it is of the reader's generation, of the one
    before while its key is kept, or of the one after if that key is there and no update of
    the reader is pending; otherwise it is dropped or handed back.  The generation never
    goes back. *)
Theorem quic_key_updates (key : Z -> Aead) (headerCipher : HeaderCipher) (generation : Z -> Z) c0 g0 tr c :
  keys_differ key -> generations_ok generation -> at_generation key headerCipher generation c0 g0 ->
  history key headerCipher generation c0 tr c ->
  (exists g, at_generation key headerCipher generation c g /\ g0 <= g) /\
  Forall (fun '(c, p, r) => exists g, at_generation key headerCipher generation c g /\ g0 <= g /\ verdict generation c g p r) tr.
Proof.
  intros Hk Hg Hc Hh. revert g0 Hc. induction Hh as [c|c acks now p d r c' q tr c'' Hr Hp _ IH|c g tr c' Hg1 _ IH|c tr c' _ IH]; intros g0 Hc.
  - split; [exists g0; split; [done|lia]|constructor].
  - pose proof Hc as (_ & Hhc & Hcur & _). destruct (receivable_bytes key headerCipher generation c acks p d Hr ltac:(congruence) Hhc) as (hdr & e & Hb & Hh & Hn & Hparse).
    rewrite Hparse in Hp. pose proof (short_outcome_verdict key headerCipher generation Hk Hg c g0 p hdr e Hc Hn Hb Hh) as Hv.
    destruct (short_outcome c (sent_header generation p) hdr e) as [r' c1]. injection Hp as <- <- <-. destruct Hv as [Hv (g1 & Hc1 & Hle)].
    destruct (IH g1 Hc1) as [(g & Hc2 & Hg2) Hall]. split; [exists g; split; [done|lia]|]. constructor; [exists g0; split_and!; (done || lia)|].
    eapply Forall_impl; [exact Hall|]. intros [[c2 p2] r2] (g2 & H1 & H2 & H3). exists g2. split_and!; (done || lia).
  - rewrite (at_generation_unique key headerCipher generation Hk Hg c g g0 Hg1 Hc) in *. apply IH. by apply next_at.
  - destruct (advance_at key headerCipher generation c g0 Hc) as (g1 & Hc1 & Hle). destruct (IH g1 Hc1) as [(g & Hc2 & Hg2) Hall]. split; [exists g; split; [done|lia]|].
    eapply Forall_impl; [exact Hall|]. intros [[c2 p2] r2] (g2 & H1 & H2 & H3). exists g2. split_and!; (done || lia).
Qed.
End histories.

(** ** An example *)

(** A peer that changes its key at packet 5; its packet 6 arrives before packet 3. *)
Definition exampleGeneration (n : Z) : Z := if n <? 5 then 0 else 1.
Definition exampleKey (g : Z) : Aead := g.
Definition exampleSent (n : Z) : Sent := mkSent n 0 [1; 2; 3; 4; 5; 6; 7; 8] [1; 0; 0].
Definition exampleDatagram (n : Z) : list Z := match datagram exampleKey 7 exampleGeneration (exampleSent n) with inr d => d | inl _ => [] end.
Definition exampleStart : QuicReadCodec := setOneRttHeaderCipher (Some 7) (setOneRttReadCipher (Some (exampleKey 0)) (create Server)).
Definition exampleRead (c : QuicReadCodec) (largest n : Z) : Outcome * QuicReadCodec * list Z :=
  parsePacket c (mkAckStates None None (Some largest)) 0 8 (exampleDatagram n).
Definition exampleNext : QuicReadCodec := setNextOneRttReadCipher (Some (exampleKey (0 + 1))) exampleStart.
Definition exampleUpdated : QuicReadCodec := (exampleRead exampleNext 2 6).1.2.

Lemma example_keys : keys_differ exampleKey.
Proof. intros i j p d n Hi Hj Hn. unfold kMaxGeneration in *. apply (example_keys_differ i j); [unfold_ints; lia..|done]. Qed.

Lemma example_generations : generations_ok exampleGeneration.
Proof. unfold generations_ok, exampleGeneration, kMaxGeneration. split; intros; zcases; lia. Qed.

Lemma example_at : at_generation exampleKey 7 exampleGeneration exampleStart 0.
Proof. split_and!; try done; by left. Qed.

Lemma example_receivable c largest n : datagram exampleKey 7 exampleGeneration (exampleSent n) = inr (exampleDatagram n) ->
  resetToken c (exampleDatagram n) = inr () -> number_ok n 0 (expectedNext (Some largest)) ->
  receivable exampleKey 7 exampleGeneration c (mkAckStates None None (Some largest)) (exampleSent n) (exampleDatagram n).
Proof. intros Hd Hr Hn. split_and!; try done. split; [repeat constructor; unfold_ints; lia|done]. Qed.

Lemma surjective_pairing_3 {X Y W} (x : X * Y * W) : x = (x.1.1, x.1.2, x.2).
Proof. by destruct x as [[? ?] ?]. Qed.

Lemma example_history : history exampleKey 7 exampleGeneration exampleStart
  [(exampleNext, exampleSent 6, (exampleRead exampleNext 2 6).1.1); (exampleUpdated, exampleSent 3, (exampleRead exampleUpdated 6 3).1.1)] (exampleRead exampleUpdated 6 3).1.2.
Proof.
  apply (history_next _ _ _ _ 0); [exact example_at|].
  eapply (history_packet _ _ _ _ _ 0); [apply (example_receivable _ 2); [by vm_compute|by vm_compute|apply example_number_ok; change (expectedNext (Some 2)) with 3; lia]|apply surjective_pairing_3|].
  eapply (history_packet _ _ _ _ _ 0); [apply (example_receivable _ 6); [by vm_compute|by vm_compute|apply example_number_ok; change (expectedNext (Some 6)) with 7; lia]|apply surjective_pairing_3|].
  constructor.
Qed.

Lemma quic_key_updates_witness :
  let read n frames := Result (RegularPacket (HShort (sent_header exampleGeneration (exampleSent n))) frames) in
  (exampleRead exampleNext 2 6).1.1 = read 6 [PingFrame; PaddingFrame 1] /\
  (exampleRead exampleUpdated 6 3).1.1 = read 3 [PingFrame; PaddingFrame 1] /\
  exists g, at_generation exampleKey 7 exampleGeneration (exampleRead exampleUpdated 6 3).1.2 g /\ 0 <= g.
Proof.
  intros read. split_and!; [by vm_compute|by vm_compute|].
  apply (quic_key_updates exampleKey 7 exampleGeneration exampleStart 0 _ _ example_keys example_generations example_at example_history).
Defined.

End QuicKeys.
